(* ===== verification/_CoqProject ===== *)
-Q . S2P
Prelude.v
Vocabulary.v
Queue.v
FreeList.v
Spsc.v
SpscConc.v
Breaker.v
Hierarchy.v
Hsm.v
HsmTable.v
SpinLock.v
Bus.v
BusConc.v
Bt.v
Serial.v
Transport.v
MemPool.v
ByteRing.v
ShmRing.v
SeqRing.v
Fault.v
Dispatcher.v
Pipeline.v
FlatHsm.v
Lifecycle.v
DiscoveryHsm.v
ServiceHsm.v
NodeManagerHsm.v
Timer.v
Watchdog.v
CBuffer.v
ShellCmd.v
Shell.v
ShellEditor.v
ShellLogin.v
WorkerPool.v
Instance.v
App.v
Post.v
Fusion.v
Connection.v
Semaphore.v
Node.v
Ini.v
Containers.v
Config.v
AsyncLog.v
Discovery.v
Service.v
EventLoop.v
NodeManager.v
Executor.v
Shutdown.v
SystemMonitor.v
