(* ===== verification/Prelude.v ===== *)
(** * newosp: a verified model of the C++ embedded infrastructure library

    newosp (src/include/osp/) is a header-only C++17 library for embedded
    systems: lock-free queues and pools, a message bus, state machines, behavior
    trees, a circuit breaker, framed transports, discovery and services, nodes and
    executors, configuration and logging.  This development models its
    core components as Rocq definitions, translated function by function from the
    headers, and proves the properties that make them correct.

    ** Parts and files

    - Prelude.v: machine integers with explicit wrap-around ([wrap]), bit fields,
      C arrays as lists indexed by [Z] ([aget], [aset], [blit], [slice]), counted
      loops, runs of operations with forward simulation ([run_simulation]),
      invariants of step relations ([rtc_invariant]), counting.
    - Spsc.v, SpscConc.v: SpscRingbuffer (spsc_ringbuffer.hpp).  Spsc runs the
      member functions one at a time; its index width is a parameter because the
      C++ integer promotions matter, and the class [SpscConfig] states what the
      static_asserts of the template demand.  SpscConc interleaves the atomic
      accesses of one producer and one consumer.
    - Breaker.v: the circuit breaker (breaker.hpp), its counters packed in one
      32-bit word updated by compare-exchange from any number of threads.
    - Hierarchy.v, Hsm.v, HsmTable.v: parent chains, depth, lowest common
      ancestor and entry/exit paths shared by the handler-driven StateMachine
      (hsm.hpp) and the table-driven TableHsm (hsm_table.hpp).
    - Bus.v, BusConc.v: AsyncBus (bus.hpp).  Bus is the sequential behaviour of
      publishing with priority admission and eviction, subscribing, dispatching
      and statistics; BusConc interleaves the atomic accesses of any number of
      publishers with the consumer.  SpinLock.v: the spin lock and the shared
      (reader/writer) spin lock of the same header.
    - Bt.v: the behavior tree (bt.hpp), a flat node array.
    - Serial.v: the serial transport (serial_transport.hpp): CRC, framing, the
      byte-driven receive state machine, health and rate limiting, sending.
    - Transport.v: frame codecs, loss accounting and the TCP transport
      (transport.hpp).
    - FreeList.v, MemPool.v: lists threaded through an array, and FixedPool and
      ObjectPool (mem_pool.hpp), sequential and with any number of threads.
    - ShmRing.v, ByteRing.v: the rings of the shared-memory transport
      (shm_transport.hpp): the slot ring with any number of producers, interleaved
      access by access, and the byte rings for one and for many consumers.
    - Dispatcher.v, Pipeline.v: the data dispatcher (data_dispatcher.hpp): blocks with
      reference counts, generations and deadlines, consumer tracking, the layout of
      the shared region, and the stage pipeline that a submitted block runs through.
    - Queue.v, SeqRing.v: bounded queues as an interface (the class [BoundedQueue]),
      and the ring of numbered slots that implements it, written twice in the source
      (EventQueue of hsm.hpp, FaultRingBuffer of fault_collector.hpp).
    - Fault.v: the fault collector (fault_collector.hpp), a client of the queue
      interface and of the breaker.  Vocabulary.v: an enumeration of vocabulary.hpp
      it shares with the bus.
    - FlatHsm.v: state machines without nesting, as equations about Hsm.v; Lifecycle.v,
      DiscoveryHsm.v, ServiceHsm.v, NodeManagerHsm.v: the clients of the state machine
      (lifecycle_node.hpp, discovery_hsm.hpp, service_hsm.hpp, node_manager_hsm.hpp).
      The node manager also uses the queue interface; all four report faults.
    - Timer.v, Watchdog.v: the timer scheduler (timer.hpp) and the thread watchdog
      (watchdog.hpp), tables of slots driven by a clock the environment supplies.
    - CBuffer.v: C strings in byte arrays.  ShellCmd.v, Shell.v, ShellEditor.v,
      ShellLogin.v: the debug shell (shell.hpp): command registry, completion and
      argument splitting; the line editor with its escape sequences, history and echo;
      the line editor against a cursor and a text; and the login dialogue.
    - WorkerPool.v: the dispatcher thread and the workers (worker_pool.hpp), a client of
      the modelled bus and ring buffers, at any interleaving.
    - Instance.v, App.v, Post.v: instances of applications and their state machine,
      applications with instance slots and a message ring (app.hpp; the class
      [InstancePool] is what they ask of the object pool), and posting between
      applications with reference-counted response channels (post.hpp).
    - Fusion.v: fused subscriptions and the time synchroniser (data_fusion.hpp), clients
      of the bus.
    - Connection.v: the connection pool (connection.hpp) and QoS profiles (qos.hpp).
    - Semaphore.v: the semaphores (semaphore.hpp): Module Light over sem_t with a counter
      beside it, Module Monitor on a mutex and a condition variable.
    - Node.v: nodes and static nodes (node.hpp, static_node.hpp), clients of the bus.
    - Ini.v: INI files, read and written (inicpp.hpp).  Config.v: the configuration store
      and its backends (config.hpp), over the modelled parser.
    - Containers.v: the containers of the vocabulary (vocabulary.hpp) over raw storage.
    - AsyncLog.v: logging (log.hpp, async_log.hpp), per-thread ring buffers and a writer.
    - Discovery.v: static, multicast and topic-aware discovery (discovery.hpp).
      Service.v: clients and servers of a service over byte pipes (service.hpp).
    - EventLoop.v: the poller's tables, the timers and a round of the loop
      (event_loop.hpp, io_poller.hpp).  NodeManager.v: its client, the table of connected
      nodes with heartbeats and timeouts (node_manager.hpp).
    - Executor.v: the executors (executor.hpp): sleep strategies as a class, the loop
      that drives the modelled bus, start and stop of the dispatcher thread.
      Shutdown.v: the shutdown manager with its signal handler (shutdown.hpp).
      SystemMonitor.v: the monitor's readers and alerts (system_monitor.hpp).

    Names follow the source: a C++ member function is a definition of the same
    name (prefixed where two classes share one), a struct is a [Record] with the
    source's fields, an enum an [Inductive] with its enumerators.

    ** How effects are modelled

    A member function takes the object's state and returns the new one with its
    result.  Failed OSP_ASSERTs, reads outside an array and non-termination are
    [None]; the error codes of [expected] are a sum.  Time, socket and serial-port
    results are inputs of the functions, so the theorems hold for every behaviour
    of the environment within their hypotheses.  User callbacks are functions on an
    abstract world.  Concurrent code is a step function in which every access to
    shared memory is one step of a program counter, and the theorems quantify over
    every interleaving; memory is sequentially consistent, and compare_exchange_weak
    may fail spuriously.  Loops whose bound is not syntactic take fuel: the depth of
    the state array for hierarchy walks, the node count for behavior-tree ticks, the
    queue depth for the bus scans and for draining queues, the length of the socket
    script for transports, the number of stages for the pipeline, the periods missed
    for the timer's catch-up loop, the length of the text for the parsers, the rounds of
    the final drain for the log writer;
    each theorem that concludes a result proves the fuel to be enough.  ProcessAll of an
    application has no bound while handlers post: the theorem follows it for any number
    of messages, and proves it to return when they do not.

    Conditions that limit a theorem are in its comment.  In particular the bus is covered
    at any interleaving as long as its 32-bit positions do not wrap, the free list as long
    as no allocation is overtaken by 2^16 others, and the ring buffer across wrap-around
    but without ProducerClear.

    ** What is proved

    - Refinement of an abstract specification by every operation sequence: the ring
      buffer is a bounded queue (Spsc.spsc_refines_bounded_queue), the bus a bounded
      queue with priority admission and eviction (Bus.bus_refines_priority_queue),
      the behavior-tree array the tree it represents, whose meaning is a set of rules
      (Bt.bt_tick_refines_tree), the
      object pool a stack of free blocks (MemPool.object_pool_refines_stack),
      concurrent breaker updates a sequence of atomic events
      (Breaker.breaker_update_linearizable), the byte rings message queues
      (ByteRing.spsc_byte_ring_refines_queue, spmc_byte_ring_broadcasts), the
      dispatcher a table of counted blocks (Pipeline.dispatcher_refines_blocks), the
      fault collector four queues with admission (Fault.fault_collector_refines), and
      the clients of the state machine the automata their users see
      (Lifecycle.lifecycle_refines, DiscoveryHsm.discovery_refines,
      ServiceHsm.service_refines, NodeManagerHsm.node_manager_refines), the timer
      scheduler a table of tasks with due times (Timer.timer_refines), the watchdog
      a table of watched threads (Watchdog.watchdog_refines), the line editor of the
      shell a text with a cursor and a history (ShellEditor.shell_session_refines), an
      application slots with a mailbox, whatever its handlers do
      (App.application_refines), the connection
      pool a finite map (Connection.connection_pool_refines), the configuration store a
      bounded map with its own account of the numbers in a text
      (Config.config_store_refines_map), multicast discovery a map of peers
      (Discovery.discovery_refines_map), and a bus with nodes the list of their
      subscriptions (Node.nodes_own_places).
    - Safety under every interleaving: SpscConc.spsc_concurrent_fifo and
      spsc_race_free, BusConc.bus_envelope_race_free and bus_concurrent_delivery,
      ShmRing.shm_ring_concurrent_fifo, SpinLock.shared_lock_exclusion,
      MemPool.pool_blocks_conserved, WorkerPool.pool_flush_sound and
      pool_jobs_conserved, Post.send_and_wait_safe,
      Semaphore.Light.semaphore_permits_conserved, AsyncLog.async_log_accounts and
      async_log_drains, Service.calls_answered, NodeManager.nodes_accounted,
      Executor.executor_single_consumer.
    - The shell's screen always shows the edited line
      (ShellEditor.shell_screen_shows_line), argument splitting undoes quoting
      (ShellCmd.shell_split_roundtrip), a session is let in exactly with the right
      password (ShellLogin.shell_login_exact); a time synchroniser calls back exactly
      when every type is fresh (Fusion.time_synchronizer_exact).
    - Progress: the fault queues drain in four cycles however faults escalate
      (Fault.fault_queues_drain), a silent node is disconnected after an exact number
      of scans (NodeManagerHsm.silent_node_disconnected), a timer that is late catches
      up without leaving its phase (Timer.timer_periodic_on_phase), a binary semaphore
      loses no wake-up (Semaphore.Monitor.binary_semaphore_wakes), the calls of a service
      complete (Service.calls_complete), a signal or Quit ends the wait for shutdown
      (Shutdown.shutdown_wakes), the monitor's alerts alternate with their clearing
      (SystemMonitor.alerts_alternate).
    - The pipeline runs its stages in order with the block held throughout
      (Pipeline.submit_runs_pipeline), and its build operations keep it well formed
      (Pipeline.pipeline_build_wf); the shared region has room for everything placed
      in it (Dispatcher.shm_layout_in_bounds).
    - State machines: transitions go through the lowest common ancestor, the active
      configuration is always an ancestor chain, dispatch terminates
      (file Hsm), and the two implementations agree (HsmTable.table_transition_agrees).
      The breaker's levels, gates and counters (file Breaker).
    - Codecs and receivers: serial and TCP round trips under any fragmentation, the
      checksum table against its bit-serial definition, memory safety of the serial
      receiver on arbitrary input, loss accounting across sequence wrap-around; INI files
      that are written and read again (Ini.ini_roundtrip).
    - Behaviours that differ from what the code or its comments intend are stated
      beside the component they concern
      (SpinLock.shared_lock_nested_upgrade_wedges, Fault.fault_breaker_latches, and
      among others Spsc.spsc_narrow_index_overflow,
      SpscConc.spsc_producer_clear_race, BusConc.bus_spurious_drop,
      HsmTable.table_self_row_bubbled, Transport.tcp_would_block_desynchronises,
      ByteRing.spsc_empty_message_blocks, Dispatcher.required_size_wraps,
      NodeManagerHsm.stale_request_after_stop, ShellEditor.full_history_unreachable,
      ShellLogin.crlf_login_fails, WorkerPool.shutdown_loses_jobs,
      Post.reply_before_acquire_frees, Connection.wrapped_id_collides,
      Semaphore.Monitor.light_cv_loses_wakeup, Ini.empty_prefix_diverges,
      Config.long_key_never_found, AsyncLog.restart_race_loses_writer,
      AsyncLog.set_sink_overwritten, Discovery.failed_start_leaks,
      Service.stopped_worker_waits, Service.burst_passes_limit,
      EventLoop.last_descriptor_untagged, NodeManager.sends_keep_alive,
      NodeManager.timeouts_fill_the_loop, NodeManager.ids_repeat,
      Fault.deferred_never_processed, Executor.realtime_two_consumers,
      Shutdown.number_lost, SystemMonitor.failed_read_reports_below).

    ** What is not modelled

    Weak memory orderings; the wrappers of operating-system calls - sockets and network
    addresses, processes and threads, epoll and kqueue, clocks, the shared-memory segments
    and channels around the modelled rings - whose results are inputs of the functions that
    use them; NetworkNode, the client of Node and of the TCP transport that forwards
    between them, and the choice of a transport; the vendored TOML parser; the macros of platform.hpp and opt.hpp
    but for the constants that are used; tests, examples and generators.  Creating and
    destroying instances from a message handler, and what handlers post to other
    applications while they run, are steps between handlers.  Multi-line values of INI
    files are modelled but not in the round trip. *)

From Stdlib Require Import ZArith Lia Bool.
From stdpp Require Import base numbers list relations option.

Open Scope Z_scope.

(** Keep integer tests and bit operations folded under [simpl]. *)
#[global] Arguments Z.eqb : simpl never.
#[global] Arguments Z.ltb : simpl never.
#[global] Arguments Z.leb : simpl never.
#[global] Arguments Z.land : simpl never.
#[global] Arguments Z.shiftl : simpl never.
#[global] Arguments Z.shiftr : simpl never.
#[global] Arguments Z.pow : simpl never.

(** ** Machine integers

    An unsigned integer of [w] bits is a [Z] in [0, 2^w).  Every arithmetic
    operation of the source that can leave the range is followed by [wrap w]
    in the model, exactly where C++ reduces modulo 2^w (assignment, cast, or
    an unsigned operation at width at least that of [int]). *)

Definition wrap (w z : Z) : Z := z mod 2 ^ w.

Abbreviation u8 := (wrap 8).
Abbreviation u16 := (wrap 16).
Abbreviation u32 := (wrap 32).
Abbreviation u64 := (wrap 64).

(** The value of a [w]-bit pattern read as a two's complement integer
    ([static_cast<int32_t>] and the like). *)
Definition signed (w z : Z) : Z :=
  let r := wrap w z in if r <? 2 ^ (w - 1) then r else r - 2 ^ w.

Abbreviation s32 := (signed 32).

Definition in_range (w z : Z) : Prop := 0 <= z < 2 ^ w.

Lemma wrap_range w z : 0 <= w -> in_range w (wrap w z).
Proof.
  intros Hw. unfold in_range, wrap. apply Z.mod_pos_bound. apply Z.pow_pos_nonneg; lia.
Qed.

Lemma wrap_small w z : in_range w z -> wrap w z = z.
Proof. apply Z.mod_small. Qed.

Lemma wrap_0 w : wrap w 0 = 0.
Proof. apply Zmod_0_l. Qed.

Lemma wrap_wrap w z : wrap w (wrap w z) = wrap w z.
Proof. apply Zmod_mod. Qed.

Lemma wrap_add_l w a b : wrap w (wrap w a + b) = wrap w (a + b).
Proof. apply Zplus_mod_idemp_l. Qed.

Lemma wrap_add_r w a b : wrap w (a + wrap w b) = wrap w (a + b).
Proof. apply Zplus_mod_idemp_r. Qed.

Lemma wrap_sub_l w a b : wrap w (wrap w a - b) = wrap w (a - b).
Proof. apply Zminus_mod_idemp_l. Qed.

Lemma wrap_sub_r w a b : wrap w (a - wrap w b) = wrap w (a - b).
Proof. apply Zminus_mod_idemp_r. Qed.

Lemma wrap_sub_wrap w a b : wrap w (wrap w a - wrap w b) = wrap w (a - b).
Proof. by rewrite wrap_sub_l, wrap_sub_r. Qed.

(** Narrowing keeps the value's residue at every smaller width. *)
Lemma wrap_wrap_le v w z : 0 <= v <= w -> wrap v (wrap w z) = wrap v z.
Proof.
  intros. unfold wrap. symmetry.
  replace (2 ^ w) with (2 ^ v * 2 ^ (w - v)) by (rewrite <- Z.pow_add_r by lia; f_equal; lia).
  symmetry. apply Z.mod_mod_divide. exists (2 ^ (w - v)). lia.
Qed.

(** A mask of [k] low ones is reduction modulo [2^k]. *)
Lemma ones_equiv' k : Z.ones k = 2 ^ k - 1.
Proof. rewrite Z.ones_equiv. lia. Qed.

Lemma land_mask k z : 0 <= k -> Z.land z (2 ^ k - 1) = wrap k z.
Proof. intros. rewrite <- ones_equiv'. by apply Z.land_ones. Qed.

Lemma land_mask_wrap k w z : 0 <= k <= w -> Z.land (wrap w z) (2 ^ k - 1) = wrap k z.
Proof. intros. rewrite land_mask by lia. by apply wrap_wrap_le. Qed.

(** ** Bit fields *)

(** Or-ing in a field above the bits already present is an addition. *)
Lemma ones_pow w : Z.ones w = 2 ^ w - 1.
Proof. rewrite Z.ones_equiv. apply Z.sub_1_r. Qed.

(** A [w]-bit value is one without bits from [w] on. *)
Lemma testbit_above w z k : in_range w z -> 0 <= w <= k -> Z.testbit z k = false.
Proof.
  intros [Hz1 Hz2] Hk. destruct (Z.eq_dec z 0) as [->|Hz]; [apply Z.bits_0|]. apply Z.bits_above_log2; [done|].
  assert (Z.log2 z < w) by (apply Z.log2_lt_pow2; lia). lia.
Qed.

Lemma in_range_bits w z : 0 <= w -> (forall k, w <= k -> Z.testbit z k = false) -> in_range w z.
Proof.
  intros Hw Hb. replace z with (wrap w z); [by apply wrap_range|]. rewrite <- land_mask by done.
  apply Z.bits_inj'. intros k Hk. rewrite Z.land_spec, <- ones_pow, Z.testbit_ones_nonneg by lia.
  destruct (Z.ltb_spec k w); [apply andb_true_r|]. rewrite Hb by done. done.
Qed.

(** Testing, setting and clearing one bit of a 64-bit word. *)
Lemma pow2_range id : 0 <= id < 64 -> in_range 64 (2 ^ id).
Proof. intros. unfold in_range. split; [apply Z.pow_nonneg; lia|apply Z.pow_lt_mono_r; lia]. Qed.

Lemma mask_bit mask b : 0 <= b < 64 -> (Z.land mask (u64 (Z.shiftl 1 b)) =? 0) = negb (Z.testbit mask b).
Proof.
  intros Hb. rewrite (wrap_small 64) by (rewrite Z.shiftl_1_l; by apply pow2_range).
  rewrite Z.shiftl_1_l. destruct (Z.testbit mask b) eqn:E; simpl.
  - apply Z.eqb_neq. intros H0. assert (Hf : Z.testbit (Z.land mask (2 ^ b)) b = false) by (rewrite H0; apply Z.bits_0).
    by rewrite Z.land_spec, E, Z.pow2_bits_true in Hf by lia.
  - apply Z.eqb_eq, Z.bits_inj'. intros k Hk. rewrite Z.land_spec, Z.bits_0.
    destruct (Z.eq_dec k b) as [->|Hne]; [by rewrite E|]. rewrite Z.pow2_bits_false by lia. apply andb_false_r.
Qed.

Lemma hold_bit m id : in_range 64 m -> 0 <= id < 64 -> Z.lor m (u64 (Z.shiftl 1 id)) = Z.setbit m id /\ in_range 64 (Z.setbit m id).
Proof.
  intros Hm Hi. rewrite Z.shiftl_1_l, (wrap_small 64) by by apply pow2_range. split; [symmetry; apply Z.setbit_spec'|].
  apply in_range_bits; [lia|]. intros k Hk. rewrite Z.setbit_spec', Z.lor_spec, (testbit_above 64), Z.pow2_bits_false by (done || lia). done.
Qed.

Lemma unhold_bit m id :
  in_range 64 m -> 0 <= id < 64 ->
  Z.land m (u64 (Z.lnot (u64 (Z.shiftl 1 id)))) = Z.clearbit m id /\ in_range 64 (Z.clearbit m id).
Proof.
  intros Hm Hi. rewrite Z.shiftl_1_l, (wrap_small 64 (2 ^ id)) by by apply pow2_range. split.
  - rewrite <- land_mask by lia. apply Z.bits_inj'. intros k Hk. rewrite Z.clearbit_spec', Z.ldiff_spec, !Z.land_spec, Z.lnot_spec by lia.
    destruct (Z.lt_ge_cases k 64); [|rewrite (testbit_above 64 m) by (done || lia); done].
    rewrite <- ones_pow, Z.ones_spec_low by lia. by rewrite andb_true_r.
  - apply in_range_bits; [lia|]. intros k Hk. rewrite Z.clearbit_spec', Z.ldiff_spec, (testbit_above 64 m) by (done || lia). done.
Qed.

Lemma lor_shiftl_add n a b : 0 <= n -> 0 <= a < 2 ^ n -> Z.lor a (Z.shiftl b n) = a + b * 2 ^ n.
Proof.
  intros Hn Ha. rewrite <- Z.shiftl_mul_pow2 by lia.
  assert (Hl : Z.land a (Z.shiftl b n) = 0).
  { apply Z.bits_inj'. intros i Hi. rewrite Z.land_spec, Z.bits_0.
    destruct (Z.lt_ge_cases i n).
    - by rewrite Z.shiftl_spec_low, andb_false_r by lia.
    - rewrite <- (Z.mod_small a (2 ^ n)), Z.mod_pow2_bits_high by lia. done. }
  rewrite <- Z.lxor_lor by done. symmetry. by apply Z.add_nocarry_lxor.
Qed.

(** Reading back the [m]-bit field at offset [n]. *)
Lemma field_extract n m v low f hi :
  0 <= n -> 0 <= m -> 0 <= low < 2 ^ n -> 0 <= f < 2 ^ m -> v = low + 2 ^ n * (f + 2 ^ m * hi) ->
  Z.land (Z.shiftr v n) (2 ^ m - 1) = f.
Proof.
  intros Hn Hm Hl Hf ->. rewrite land_mask, Z.shiftr_div_pow2 by lia. unfold wrap.
  rewrite <- (Z.div_unique _ (2 ^ n) (f + 2 ^ m * hi) low); [|left; lia|lia].
  symmetry. apply (Z.mod_unique _ _ hi); [left; lia|lia].
Qed.

(** The residues of two positions closer than [2^k] differ. *)
Lemma wrap_inj_near k a b : 0 <= k -> a <= b < a + 2 ^ k -> wrap k a = wrap k b -> a = b.
Proof.
  intros Hk Hab Heq. unfold wrap in Heq.
  assert (HP : 0 < 2 ^ k) by (apply Z.pow_pos_nonneg; lia).
  pose proof (Z.div_mod a (2 ^ k)). pose proof (Z.div_mod b (2 ^ k)).
  assert (a / 2 ^ k = b / 2 ^ k) by nia. nia.
Qed.

(** The signed reading of a difference of near positions is that difference. *)
Lemma signed_small w z : 1 <= w -> - 2 ^ (w - 1) <= z < 2 ^ (w - 1) -> signed w z = z.
Proof.
  intros Hw Hz. unfold signed, wrap.
  assert (Hp : 2 ^ w = 2 * 2 ^ (w - 1)).
  { replace w with (Z.succ (w - 1)) at 1 by lia. by rewrite Z.pow_succ_r by lia. }
  destruct (Z.leb_spec 0 z).
  - rewrite Z.mod_small by lia. by destruct (Z.ltb_spec z (2 ^ (w - 1))); [|lia].
  - assert (z mod 2 ^ w = z + 2 ^ w) as ->.
    { symmetry. apply (Z.mod_unique _ _ (-1)); [left|]; lia. }
    destruct (Z.ltb_spec (z + 2 ^ w) (2 ^ (w - 1))); lia.
Qed.

Lemma signed_wrap w z : signed w (wrap w z) = signed w z.
Proof. unfold signed. by rewrite wrap_wrap. Qed.

Create HintDb osp.
Create Rewrite HintDb osp.
#[export] Hint Rewrite wrap_wrap wrap_add_l wrap_add_r wrap_sub_l wrap_sub_r : osp.
#[export] Hint Resolve wrap_range : osp.

(** ** Tactics *)

(** Splits boolean tests and the comparisons they reflect, in the goal. *)
Ltac case_bool :=
  match goal with
  | |- context [?a =? ?b] => destruct (Z.eqb_spec a b)
  | |- context [?a <? ?b] => destruct (Z.ltb_spec a b)
  | |- context [?a <=? ?b] => destruct (Z.leb_spec a b)
  | |- context [if ?b then _ else _] => destruct b eqn:?
  end.

(** Turns boolean hypotheses into propositions. *)
Ltac bool_prop :=
  repeat match goal with
  | H : _ && _ = true |- _ => apply andb_true_iff in H as [? ?]
  | H : _ || _ = false |- _ => apply orb_false_iff in H as [? ?]
  | H : negb _ = true |- _ => apply negb_true_iff in H
  | H : negb _ = false |- _ => apply negb_false_iff in H
  | H : (_ =? _) = true |- _ => apply Z.eqb_eq in H
  | H : (_ =? _) = false |- _ => apply Z.eqb_neq in H
  | H : (_ <? _) = true |- _ => apply Z.ltb_lt in H
  | H : (_ <? _) = false |- _ => apply Z.ltb_ge in H
  | H : (_ <=? _) = true |- _ => apply Z.leb_le in H
  | H : (_ <=? _) = false |- _ => apply Z.leb_gt in H
  end.

(** ** Arrays: [std::array] and C arrays as lists indexed by [Z] *)

Section Arrays.
Context {A : Type} `{Inhabited A}.

(** [a[i]]; every use in the model is shown to be in range. *)
Definition aget (a : list A) (i : Z) : A := a !!! Z.to_nat i.

(** [a[i] = x]. *)
Definition aset (a : list A) (i : Z) (x : A) : list A := <[Z.to_nat i := x]> a.

Lemma aget_aset_eq a i x : 0 <= i < Z.of_nat (length a) -> aget (aset a i x) i = x.
Proof. intros. apply list_lookup_total_insert_eq. lia. Qed.

Lemma aget_aset_ne a i j x : 0 <= i -> 0 <= j -> i <> j -> aget (aset a i x) j = aget a j.
Proof. intros. apply list_lookup_total_insert_ne. lia. Qed.

Lemma length_aset a i x : length (aset a i x) = length a.
Proof. apply length_insert. Qed.

Lemma aset_oob a i x : Z.of_nat (length a) <= i -> aset a i x = a.
Proof. intros. apply list_insert_ge. lia. Qed.

Lemma aset_aset a i x y : aset (aset a i x) i y = aset a i y.
Proof. apply list_insert_insert_eq. Qed.

Lemma aset_comm a i j x y :
  0 <= i -> 0 <= j -> i <> j -> aset (aset a i x) j y = aset (aset a j y) i x.
Proof. intros. apply list_insert_insert_ne. lia. Qed.

Lemma aget_replicate n x i : 0 <= i < Z.of_nat n -> aget (replicate n x) i = x.
Proof. intros. apply lookup_total_replicate_2. lia. Qed.

Lemma arr_ext (a b : list A) :
  length a = length b ->
  (forall i, 0 <= i < Z.of_nat (length a) -> aget a i = aget b i) -> a = b.
Proof.
  intros Hl Hi. apply list_eq_same_length with (length a); [done..|].
  intros i x y Hlt Hx Hy.
  specialize (Hi (Z.of_nat i) ltac:(lia)). unfold aget in Hi.
  rewrite Nat2Z.id in Hi.
  rewrite (list_lookup_total_correct _ _ _ Hx), (list_lookup_total_correct _ _ _ Hy) in Hi.
  done.
Qed.

End Arrays.

#[export] Hint Rewrite @length_aset : osp.

(** [for (i = 0; i < n; ++i) st = f(i, st)] *)
Fixpoint for_loop {S : Type} (f : Z -> S -> S) (i : Z) (n : nat) (s : S) : S :=
  match n with
  | O => s
  | Datatypes.S m => for_loop f (i + 1) m (f i s)
  end.

Lemma for_loop_snoc {S : Type} (f : Z -> S -> S) i n s :
  for_loop f i (Datatypes.S n) s = f (i + Z.of_nat n) (for_loop f i n s).
Proof.
  revert i s. induction n as [|n IH]; intros i s; [simpl; f_equal; lia|].
  change (for_loop f (i + 1) (Datatypes.S n) (f i s) = f (i + Z.of_nat (Datatypes.S n)) (for_loop f (i + 1) n (f i s))).
  rewrite IH. f_equal. lia.
Qed.

(** A property indexed by the loop counter and kept by every iteration holds at the end. *)
Lemma for_loop_inv {S : Type} (P : Z -> S -> Prop) (f : Z -> S -> S) i n s :
  P i s -> (forall j t, i <= j < i + Z.of_nat n -> P j t -> P (j + 1) (f j t)) ->
  P (i + Z.of_nat n) (for_loop f i n s).
Proof.
  revert i s. induction n as [|n IH]; intros i s H0 Hs; simpl.
  - by rewrite Z.add_0_r.
  - replace (i + Z.of_nat (Datatypes.S n)) with (i + 1 + Z.of_nat n) by lia.
    apply IH; [apply Hs; [lia|done]|]. intros. apply Hs; [lia|done].
Qed.

Section Slices.
Context {A : Type} `{Inhabited A}.

(** [memcpy(&a[off], xs, sizeof xs)] *)
Definition blit (a : list A) (off : Z) (xs : list A) : list A :=
  take (Z.to_nat off) a ++ xs ++ drop (Z.to_nat off + length xs) a.

(** The [n] elements read by [memcpy(_, &a[off], n * sizeof(T))]. *)
Definition slice (a : list A) (off n : Z) : list A :=
  take (Z.to_nat n) (drop (Z.to_nat off) a).

Lemma length_blit a off xs :
  0 <= off -> off + Z.of_nat (length xs) <= Z.of_nat (length a) ->
  length (blit a off xs) = length a.
Proof. intros. unfold blit. rewrite !length_app, length_take, length_drop. lia. Qed.

Lemma aget_app (a b : list A) i :
  0 <= i ->
  aget (a ++ b) i = if i <? Z.of_nat (length a) then aget a i else aget b (i - Z.of_nat (length a)).
Proof.
  intros. unfold aget. case_bool.
  - apply lookup_total_app_l. lia.
  - rewrite lookup_total_app_r by lia. f_equal. lia.
Qed.

Lemma aget_app_l (a b : list A) i : 0 <= i < Z.of_nat (length a) -> aget (a ++ b) i = aget a i.
Proof. intros. rewrite aget_app by lia. by case_bool; [|lia]. Qed.

Lemma aget_app_mid (a b : list A) x i : i = Z.of_nat (length a) -> aget (a ++ x :: b) i = x.
Proof. intros ->. rewrite aget_app by lia. case_bool; [lia|]. by rewrite Z.sub_diag. Qed.

Lemma aget_take (a : list A) n i : 0 <= i < n -> aget (take (Z.to_nat n) a) i = aget a i.
Proof. intros. unfold aget. apply lookup_total_take_lt. lia. Qed.

Lemma aget_drop (a : list A) (n : nat) i : 0 <= i -> aget (drop n a) i = aget a (Z.of_nat n + i).
Proof. intros. unfold aget. rewrite lookup_total_drop. f_equal. lia. Qed.

Lemma aget_blit a off xs j :
  0 <= off -> 0 <= j -> off + Z.of_nat (length xs) <= Z.of_nat (length a) ->
  aget (blit a off xs) j =
    if (off <=? j) && (j <? off + Z.of_nat (length xs)) then aget xs (j - off) else aget a j.
Proof.
  intros. unfold blit. rewrite aget_app, length_take by lia.
  replace (Z.of_nat (Z.to_nat off `min` length a)) with off by lia.
  destruct (Z.ltb_spec j off).
  - rewrite aget_take by lia. by destruct (Z.leb_spec off j); [lia|].
  - destruct (Z.leb_spec off j); [|lia]. rewrite aget_app by lia. simpl.
    destruct (Z.ltb_spec (j - off) (Z.of_nat (length xs))), (Z.ltb_spec j (off + Z.of_nat (length xs)));
      try lia; [done|]. rewrite aget_drop by lia. f_equal. lia.
Qed.

Lemma length_slice a off n :
  0 <= off -> 0 <= n -> off + n <= Z.of_nat (length a) -> length (slice a off n) = Z.to_nat n.
Proof. intros. unfold slice. rewrite length_take, length_drop. lia. Qed.

Lemma aget_slice a off n i : 0 <= off -> 0 <= i < n -> aget (slice a off n) i = aget a (off + i).
Proof. intros. unfold slice. rewrite aget_take, aget_drop by lia. f_equal. lia. Qed.

Lemma slice_app a off m n :
  0 <= off -> 0 <= m -> 0 <= n -> slice a off m ++ slice a (off + m) n = slice a off (m + n).
Proof.
  intros. unfold slice. rewrite (Z2Nat.inj_add off m), (Z2Nat.inj_add m n) by lia.
  by rewrite <- (take_take_drop (drop _ a)), drop_drop.
Qed.

Lemma slice_all a : slice a 0 (Z.of_nat (length a)) = a.
Proof. unfold slice. rewrite Nat2Z.id. apply take_ge. simpl. lia. Qed.

Lemma slice_take a n : slice a 0 n = take (Z.to_nat n) a.
Proof. done. Qed.

Lemma map_aget_seqZ (xs : list A) : (aget xs <$> seqZ 0 (Z.of_nat (length xs))) = xs.
Proof.
  apply arr_ext; rewrite length_fmap, length_seqZ; [lia|].
  intros i Hi. unfold aget at 1.
  rewrite list_lookup_total_alt, list_lookup_fmap, lookup_seqZ_lt by lia. simpl. f_equal. lia.
Qed.

End Slices.

(** ** Integers as bytes *)

(** [memcpy] of an [n]-byte unsigned integer, little endian. *)
Fixpoint to_le (n : nat) (v : Z) : list Z :=
  match n with O => [] | S n' => v mod 256 :: to_le n' (v / 256) end.
Fixpoint from_le (l : list Z) : Z :=
  match l with [] => 0 | b :: l' => b + 256 * from_le l' end.

Lemma length_to_le n v : length (to_le n v) = n.
Proof. revert v. induction n as [|n IH]; intros v; simpl; [done|by rewrite IH]. Qed.

Lemma from_to_le n v : 0 <= v < 256 ^ Z.of_nat n -> from_le (to_le n v) = v.
Proof.
  revert v. induction n as [|n IH]; intros v Hv.
  - change (256 ^ Z.of_nat 0) with 1 in Hv. simpl. lia.
  - replace (Z.of_nat (S n)) with (Z.of_nat n + 1) in Hv by lia. rewrite Z.pow_add_r in Hv by lia.
    cbn [to_le from_le]. rewrite IH; [pose proof (Z.div_mod v 256); lia|].
    split; [apply Z.div_pos; lia|]. apply Z.div_lt_upper_bound; lia.
Qed.

(** ** Sequences of operations and simulation *)

(** Runs a list of operations, collecting the results. *)
Fixpoint run {O R S : Type} (step : O -> S -> R * S) (ops : list O) (s : S) : list R * S :=
  match ops with
  | [] => ([], s)
  | o :: ops' =>
    let '(r, s') := step o s in
    let '(rs, s'') := run step ops' s' in
    (r :: rs, s'')
  end.

(** Forward simulation: a relation kept by every permitted operation, with
    equal results, makes the two systems indistinguishable. *)
Lemma run_simulation {O R S1 S2 : Type} (ok : O -> Prop) (rel : S1 -> S2 -> Prop)
    (step1 : O -> S1 -> R * S1) (step2 : O -> S2 -> R * S2) :
  (forall o s1 s2, ok o -> rel s1 s2 ->
     (step1 o s1).1 = (step2 o s2).1 /\ rel (step1 o s1).2 (step2 o s2).2) ->
  forall ops s1 s2, Forall ok ops -> rel s1 s2 ->
    (run step1 ops s1).1 = (run step2 ops s2).1 /\ rel (run step1 ops s1).2 (run step2 ops s2).2.
Proof.
  intros Hstep ops. induction ops as [|o ops IH]; intros s1 s2 Hok Hrel; [done|].
  inversion_clear Hok as [|? ? Ho Hops].
  destruct (Hstep o s1 s2 Ho Hrel) as [Hr Hrel']. simpl.
  destruct (step1 o s1) as [r1 s1'], (step2 o s2) as [r2 s2']. simpl in *.
  destruct (IH s1' s2' Hops Hrel') as [Hrs Hrel''].
  destruct (run step1 ops s1') as [rs1 s1''], (run step2 ops s2') as [rs2 s2'']. simpl in *.
  split; [by f_equal|done].
Qed.

(** Character classes of the C library, in the C locale. *)
Definition isspace (c : Z) : bool := (c =? 32) || ((9 <=? c) && (c <=? 13)).
Definition isdigit (c : Z) : bool := (48 <=? c) && (c <=? 57).

(** A property kept by every step holds in every reachable state. *)
Lemma rtc_invariant {S : Type} (R : relation S) (P : S -> Prop) a b :
  P a -> (forall x y, R x y -> P x -> P y) -> rtc R a b -> P b.
Proof. intros Ha Hs Hr. induction Hr; eauto. Qed.

(** Filters that agree on the list. *)
Lemma filter_ext_elem {A} (P Q : A -> Prop) `{!forall x, Decision (P x), !forall x, Decision (Q x)} (l : list A) :
  (forall x, x ∈ l -> P x <-> Q x) -> filter P l = filter Q l.
Proof.
  intros He. induction l as [|x l IH]; [done|]. rewrite !filter_cons, IH by (intros y Hy; apply He, elem_of_cons; by right).
  assert (P x <-> Q x) by (apply He, elem_of_cons; by left). by repeat case_decide; try tauto.
Qed.

Lemma length_filter_fmap {A B} (f : A -> B) (P : B -> Prop) `{!forall x, Decision (P x)} (l : list A) :
  length (filter P (f <$> l)) = length (filter (fun x => P (f x)) l).
Proof. induction l as [|x l IH]; [done|]. csimpl. rewrite !filter_cons. by case_decide; simpl; rewrite IH. Qed.

(** Searching two related lists. *)
Lemma list_find_rel {A B} (R : A -> B -> Prop) (P : A -> Prop) (P' : B -> Prop) `{!forall x, Decision (P x)} `{!forall y, Decision (P' y)} l k :
  Forall2 R l k -> (forall x y, R x y -> P x <-> P' y) ->
  match list_find P l, list_find P' k with
  | Some (i, x), Some (j, y) => i = j /\ R x y /\ k !! i = Some y /\ P' y
  | None, None => True
  | _, _ => False
  end.
Proof.
  intros HR HP. induction HR as [|x y l k Hxy HR IH]; [done|]. cbn [list_find].
  destruct (decide (P x)) as [Hx|Hx], (decide (P' y)) as [Hy|Hy]; [done|by apply (HP _ _ Hxy) in Hx|by apply (HP _ _ Hxy) in Hy|].
  destruct (list_find P l) as [ [i x']|], (list_find P' k) as [ [j y']|]; simpl; try done. naive_solver.
Qed.

(** Distinct integers below [n] are at most [n]. *)
Lemma NoDup_incl_length_seqZ (l : list Z) (n : nat) :
  NoDup l -> (forall x, x ∈ l -> 0 <= x < Z.of_nat n) -> (length l <= n)%nat.
Proof.
  intros Hnd Hr. replace n with (length (seqZ 0 (Z.of_nat n))) by (rewrite length_seqZ; lia).
  apply submseteq_length, NoDup_submseteq; [done|]. intros x Hx. apply elem_of_seqZ. specialize (Hr x Hx). lia.
Qed.

(** ** Counting *)

Section Count.
Context {A : Type} (f : A -> bool).

Definition bit (x : A) : nat := if f x then 1 else 0.
Definition count_if (l : list A) : nat := length (filter (fun x => f x = true) l).

Lemma count_if_cons x l : count_if (x :: l) = (bit x + count_if l)%nat.
Proof. unfold count_if, bit. rewrite filter_cons. destruct (f x); by case_decide. Qed.

Lemma count_if_insert l j x y :
  l !! j = Some x -> (count_if (<[j := y]> l) + bit x = count_if l + bit y)%nat.
Proof.
  revert j. induction l as [|z l IH]; intros [|j] Hj; simplify_eq/=; rewrite !count_if_cons; [lia|].
  specialize (IH _ Hj). lia.
Qed.

Lemma count_if_le l : (count_if l <= length l)%nat.
Proof. apply length_filter. Qed.

Lemma count_if_none l : Forall (fun x => f x = false) l -> count_if l = 0%nat.
Proof. induction 1 as [|x l Hx _ IH]; [done|]. rewrite count_if_cons. unfold bit. by rewrite Hx. Qed.

Lemma count_if_pos l j x : l !! j = Some x -> f x = true -> (0 < count_if l)%nat.
Proof.
  intros Hj Hx. revert j Hj.
  induction l as [|z l IH]; intros [|j] Hj; simplify_eq/=; rewrite count_if_cons; unfold bit; [rewrite Hx; lia|].
  specialize (IH _ Hj). lia.
Qed.

(** Two elements counted at different places. *)
Lemma count_if_two l i j x y :
  l !! i = Some x -> l !! j = Some y -> i <> j -> f x = true -> f y = true -> (2 <= count_if l)%nat.
Proof.
  revert i j. induction l as [|z l IH]; intros [|i] [|j] Hi Hj Hne Hx Hy; simplify_eq/=; rewrite count_if_cons.
  - pose proof (count_if_pos l j y Hj Hy). unfold bit. rewrite Hx. lia.
  - pose proof (count_if_pos l i x Hi Hx). unfold bit. rewrite Hy. lia.
  - assert (2 <= count_if l)%nat by (apply (IH i j); [done..|congruence|done|done]). lia.
Qed.

(** At most one element is counted when no two places can be. *)
Lemma count_if_le_one l : (forall i j x y, l !! i = Some x -> l !! j = Some y -> f x = true -> f y = true -> i = j) -> (count_if l <= 1)%nat.
Proof.
  induction l as [|z l IH]; intros Hu; [cbn; lia|]. rewrite count_if_cons. unfold bit. destruct (f z) eqn:Hz.
  - assert (count_if l = 0%nat) as ->; [|lia]. apply count_if_none, Forall_lookup. intros i x Hi. destruct (f x) eqn:Hx; [|done].
    discriminate (Hu 0%nat (S i) z x eq_refl Hi Hz Hx).
  - apply IH. intros i j x y Hi Hj Hx Hy. specialize (Hu (S i) (S j) x y Hi Hj Hx Hy). lia.
Qed.

End Count.

(** The used ones among optional places. *)
Lemma omap_put {A} (l : list (option A)) i x : l !! i = Some None -> omap id (<[i := Some x]> l) ≡ₚ x :: omap id l.
Proof.
  revert i. induction l as [|[y|] l IH]; intros [|i] Hi; simplify_eq/=; [|done|by apply IH]. rewrite (IH i Hi). by constructor.
Qed.
Lemma omap_take {A} (l : list (option A)) i x : l !! i = Some (Some x) -> omap id l ≡ₚ x :: omap id (<[i := None]> l).
Proof.
  revert i. induction l as [|[y|] l IH]; intros [|i] Hi; simplify_eq/=; [done| |by apply IH]. rewrite (IH i Hi) at 1. by constructor.
Qed.
Lemma omap_room {A} (l : list (option A)) i : l !! i = Some None -> (length (omap id l) < length l)%nat.
Proof.
  assert (Hle : forall l : list (option A), (length (omap id l) <= length l)%nat) by (induction l0 as [|[y|] l0 IH]; cbn; lia).
  revert i. induction l as [|[y|] l IH]; intros [|i] Hi; simplify_eq/=; [specialize (IH i Hi); lia|specialize (Hle l); lia|specialize (IH i Hi); lia].
Qed.

(** A sum over a list when one element changes. *)
Lemma sum_insert {A} (f : A -> nat) l i x y : l !! i = Some x -> (sum_list_with f (<[i := y]> l) + f x = sum_list_with f l + f y)%nat.
Proof. revert i. induction l as [|z l IH]; intros [|i] Hi; simplify_eq/=; [lia|]. specialize (IH _ Hi). lia. Qed.

(** A filtered list when one element changes. *)
Lemma filter_delete_perm {A} (P : A -> Prop) `{!forall x, Decision (P x)} l i y : l !! i = Some y -> filter P l ≡ₚ filter P [y] ++ filter P (delete i l).
Proof. intros Hi. rewrite (delete_Permutation l i y Hi) at 1. rewrite !filter_cons. by case_decide. Qed.
Lemma delete_insert_eq {A} (l : list A) i x : delete i (<[i := x]> l) = delete i l.
Proof. rewrite !delete_take_drop, take_insert_ge, drop_insert_lt by lia. done. Qed.
Lemma filter_insert_perm {A} (P : A -> Prop) `{!forall x, Decision (P x)} l i x : (i < length l)%nat -> filter P (<[i := x]> l) ≡ₚ filter P [x] ++ filter P (delete i l).
Proof. intros Hi. rewrite (filter_delete_perm P _ i x) by (by apply list_lookup_insert_eq). by rewrite delete_insert_eq. Qed.

(** Erasing an element: the last one takes its place. *)
Definition swap_remove {A} (i : nat) (l : list A) : list A := match l !! (length l - 1)%nat with Some x => take (length l - 1) (<[i := x]> l) | None => l end.
Lemma swap_remove_snoc {A} i (l : list A) x : swap_remove i (l ++ [x]) = take (length l) (<[i := x]> (l ++ [x])).
Proof. unfold swap_remove. by rewrite length_app, Nat.add_sub, list_lookup_middle. Qed.
Lemma swap_remove_perm {A} i (l : list A) : (i < length l)%nat -> swap_remove i l ≡ₚ delete i l.
Proof.
  intros Hi. destruct l as [|x l _] using rev_ind; [done|]. rewrite swap_remove_snoc. rewrite length_app in Hi. cbn in Hi. destruct (decide (i = length l)) as [->|].
  - rewrite insert_app_r_alt, Nat.sub_diag by done. cbn. rewrite take_app_length. rewrite delete_take_drop, take_app_length, drop_ge, app_nil_r by (rewrite length_app; cbn; lia). done.
  - rewrite insert_app_l by lia. rewrite take_app_length' by (by rewrite length_insert). destruct (lookup_lt_is_Some_2 l i ltac:(lia)) as [y Hy].
    rewrite (delete_Permutation (<[i := x]> l) i x) by (apply list_lookup_insert_eq; lia). rewrite delete_insert_eq, !delete_take_drop, take_app_le, drop_app_le by lia.
    rewrite app_assoc. apply Permutation_cons_append.
Qed.
