(* ===== verification/Vocabulary.v ===== *)
(** * Vocabulary types (include/osp/vocabulary.hpp) *)

From Stdlib Require Import ZArith Lia Bool.
From stdpp Require Import base numbers list option.
From S2P Require Import Prelude.

Open Scope Z_scope.

Inductive BackpressureLevel := bpNormal | bpWarning | bpCritical | bpFull.
