(* ===== verification/Queue.v ===== *)
(** * Bounded queues as an interface

    What the event queue of the state machines (hsm.hpp) and the per-priority
    rings of the fault collector (fault_collector.hpp) promise to their users: a
    first-in first-out queue of bounded length.  Clients are proved against this
    class; SeqRing.v provides the implementation. *)

From Stdlib Require Import ZArith Lia Bool.
From stdpp Require Import base numbers list option.
From S2P Require Import Prelude.

Open Scope Z_scope.

(** The operations.  A push that finds the queue full returns [false]; [None]
    would be a push that never returns. *)
Class QueueOps (Q T : Type) := {
  q_try_push : T -> Q -> option (bool * Q);
  q_try_pop : Q -> option (T * Q);
  q_size : Q -> Z
}.

(** [q_holds q l]: the queue [q] holds the elements [l], oldest first. *)
Class BoundedQueue (Q T : Type) `{!QueueOps Q T} (cap : Z) := {
  q_holds : Q -> list T -> Prop;
  q_cap_range : 0 < cap < 2 ^ 32;
  q_bounded q l : q_holds q l -> Z.of_nat (length l) <= cap;
  q_push_room q l x : q_holds q l -> Z.of_nat (length l) < cap -> exists q', q_try_push x q = Some (true, q') /\ q_holds q' (l ++ [x]);
  q_push_full q l x : q_holds q l -> Z.of_nat (length l) = cap -> q_try_push x q = Some (false, q);
  q_pop_first q l x : q_holds q (x :: l) -> exists q', q_try_pop q = Some (x, q') /\ q_holds q' l;
  q_pop_empty q : q_holds q [] -> q_try_pop q = None;
  q_size_holds q l : q_holds q l -> q_size q = Z.of_nat (length l)
}.

Section Client.
Context {Q T : Type} `{!QueueOps Q T} {cap : Z} `{!BoundedQueue Q T cap}.

(** Both outcomes of a push at once. *)
Lemma q_push_spec q l x :
  q_holds q l ->
  exists q', q_try_push x q = Some (Z.of_nat (length l) <? cap, q') /\ q_holds q' (if Z.of_nat (length l) <? cap then l ++ [x] else l).
Proof.
  intros Hq. pose proof (q_bounded q l Hq). destruct (Z.ltb_spec (Z.of_nat (length l)) cap) as [Hl|Hl]; [by apply q_push_room|].
  exists q. split; [apply (q_push_full q l); [done|lia]|done].
Qed.

Lemma q_pop_spec q l :
  q_holds q l -> match l with
                 | [] => q_try_pop q = None
                 | x :: l => exists q', q_try_pop q = Some (x, q') /\ q_holds q' l
                 end.
Proof. destruct l as [|x l]; [apply q_pop_empty|apply q_pop_first]. Qed.

End Client.
