(* ===== verification/FreeList.v ===== *)
(** * Linked free lists

    The list of free blocks that the pools thread through their blocks: an index
    leads to the next one until a stop value.  Shared by the block pool
    (MemPool.v) and the data dispatcher (Dispatcher.v). *)

From Stdlib Require Import ZArith Lia.
From stdpp Require Import base numbers list.
From S2P Require Import Prelude.

Open Scope Z_scope.

Section FreeList.
(** Blocks are numbered below [n]; [stop] ends the list. *)
Context (n stop : Z).

Fixpoint linked (next : Z -> Z) (i : Z) (fl : list Z) : Prop :=
  match fl with
  | [] => i = stop
  | x :: fl' => i = x /\ 0 <= x < n /\ linked next (next x) fl'
  end.

Lemma linked_ext next next' i fl : (forall x, x ∈ fl -> next' x = next x) -> linked next i fl -> linked next' i fl.
Proof.
  revert i. induction fl as [|y fl IH]; intros i He Hl; [done|]. destruct Hl as (-> & Hy & Hl). split; [done|]. split; [done|].
  rewrite He by (apply elem_of_cons; by left). apply IH; [|done]. intros x Hx. apply He, elem_of_cons. by right.
Qed.

Lemma linked_member next i fl x : linked next i fl -> x ∈ fl -> 0 <= x < n.
Proof.
  revert i. induction fl as [|y fl IH]; intros i Hl Hx; [by apply elem_of_nil in Hx|].
  destruct Hl as (-> & Hy & Hl). apply elem_of_cons in Hx as [->|Hx]; eauto.
Qed.

Lemma linked_cons next i fl :
  linked next i fl -> i <> stop -> exists fl', fl = i :: fl' /\ 0 <= i < n /\ linked next (next i) fl'.
Proof. destruct fl as [|x fl]; [done|]. intros (-> & Hx & Hl) _. eauto. Qed.

(** The numbers [i .. n) linked in order. *)
Lemma linked_seq next m i :
  (forall j, 0 <= j < n - 1 -> next j = j + 1) -> next (n - 1) = stop -> 0 <= i -> i + Z.of_nat m = n - 1 ->
  linked next i (seqZ i (Z.of_nat m + 1)).
Proof.
  intros Hn Hlast. revert i. induction m as [|m IH]; intros i Hi He; rewrite seqZ_cons by lia.
  - split; [done|]. split; [lia|]. rewrite seqZ_nil by lia. replace i with (n - 1) by lia. done.
  - split; [done|]. split; [lia|]. rewrite Hn by lia. replace (Z.pred (Z.of_nat (S m) + 1)) with (Z.of_nat m + 1) by lia.
    replace (Z.succ i) with (i + 1) by lia. apply IH; lia.
Qed.

Lemma linked_all next :
  1 <= n -> (forall j, 0 <= j < n - 1 -> next j = j + 1) -> next (n - 1) = stop -> linked next 0 (seqZ 0 n).
Proof.
  intros Hn H1 H2. pose proof (linked_seq next (Z.to_nat (n - 1)) 0 H1 H2 ltac:(lia) ltac:(lia)) as Hl.
  by replace (Z.of_nat (Z.to_nat (n - 1)) + 1) with n in Hl by lia.
Qed.

(** With a stop value outside the numbering. *)
Context (Hstop : n <= stop).

Lemma linked_stop next i fl : linked next i fl -> i = stop -> fl = [].
Proof. destruct fl as [|x fl]; [done|]. intros (-> & Hx & _). lia. Qed.

Lemma linked_not_first next i fl j : linked next i fl -> 0 <= j < n -> j ∉ fl -> j <> i.
Proof.
  destruct fl as [|x fl]; simpl; [intros ->; lia|].
  intros (-> & _ & _) _ Hn ->. apply Hn, elem_of_cons. by left.
Qed.

(** Unlinking the first block, and linking one in front. *)
Lemma linked_pop next x fl : linked next x (x :: fl) -> linked next (next x) fl.
Proof. by intros (_ & _ & ?). Qed.

Lemma linked_push next next' i fl x :
  linked next i fl -> 0 <= x < n -> x ∉ fl -> next' x = i ->
  (forall y, 0 <= y -> y <> x -> next' y = next y) -> linked next' x (x :: fl).
Proof.
  intros Hl Hx Hn E He. split; [done|]. split; [done|]. rewrite E. apply (linked_ext next); [|done].
  intros y Hy. apply He; [|by intros ->]. pose proof (linked_member _ _ _ _ Hl Hy). lia.
Qed.

End FreeList.
