(* ===== verification/Spsc.v ===== *)
(** * SpscRingbuffer (include/osp/spsc_ringbuffer.hpp)

    The single-producer single-consumer ring buffer, at the width of its index
    type.  This file holds the sequential operations (every member function of
    the class) and shows that they implement a bounded FIFO queue; SpscConc.v
    interleaves the accesses of a producer thread and a consumer thread. *)

From Stdlib Require Import ZArith Lia Bool.
From stdpp Require Import base numbers list option.
From S2P Require Import Prelude.

Open Scope Z_scope.

(** The template parameters: [w] is the width of IndexT in bits and
    [2^k] is BufferSize; the fields are the class's static_asserts. *)
Class SpscConfig (w k : Z) : Prop := {
  idx_type : w = 8 \/ w = 16 \/ w = 32 \/ w = 64;
  size_pow2 : 0 <= k;
  size_fits : 2 ^ k <= Z.shiftr (2 ^ w - 1) 1
}.

(** An index type that arithmetic does not promote to [int]. *)
Class WideIndex (w : Z) : Prop := wide_index : 32 <= w.

(** [a - b] on two values of the unsigned type of [w] bits.  A type narrower
    than [int] is promoted first, so the difference is the exact, possibly
    negative, integer; otherwise it wraps. *)
Definition isub (w a b : Z) : Z := if w <? 32 then a - b else wrap w (a - b).

Section Spsc.
Context {T : Type} `{Inhabited T}.
Context (w k : Z).

Definition BufferSize : Z := 2 ^ k.
Definition kMask : Z := wrap w (BufferSize - 1).

Record spsc := mkSpsc {
  head_ : Z;
  tail_ : Z;
  data_buff_ : list T
}.

(** The constructor: both indices zero, storage value-initialised. *)
Definition SpscRingbuffer : spsc :=
  mkSpsc 0 0 (replicate (Z.to_nat BufferSize) inhabitant).

Definition PushImpl (data : T) (s : spsc) : bool * spsc :=
  let cur_head := head_ s in
  let cur_tail := tail_ s in
  if u64 (isub w cur_head cur_tail) =? BufferSize then (false, s)
  else
    (true, mkSpsc (wrap w (cur_head + 1)) cur_tail
             (aset (data_buff_ s) (Z.land cur_head kMask) data)).

Definition Push (data : T) (s : spsc) : bool * spsc := PushImpl data s.

(** The callback is an effectful computation on some state [C]; it runs only
    when a slot is free. *)
Definition PushFromCallback {C : Type} (callback : C -> T * C) (c : C) (s : spsc) : bool * spsc * C :=
  let cur_head := head_ s in
  let cur_tail := tail_ s in
  if u64 (isub w cur_head cur_tail) =? BufferSize then (false, s, c)
  else
    let '(data, c') := callback c in
    (true, mkSpsc (wrap w (cur_head + 1)) cur_tail
             (aset (data_buff_ s) (Z.land cur_head kMask) data), c').

(** The copy of [to_write] elements of [buf] from index [written] into the
    ring at [head_offset]: two [memcpy] calls when T is trivially copyable,
    element by element otherwise. *)
Definition copy_in (kTriviallyCopyable : bool) (data : list T) (head_offset : Z)
    (buf : list T) (written to_write : Z) : list T :=
  if kTriviallyCopyable then
    let first_part := Z.min to_write (BufferSize - head_offset) in
    let data' := blit data head_offset (slice buf written first_part) in
    if first_part <? to_write
    then blit data' 0 (slice buf (written + first_part) (to_write - first_part))
    else data'
  else
    for_loop (fun i d => aset d (Z.land (head_offset + i) kMask) (aget buf (written + i)))
      0 (Z.to_nat to_write) data.

(** The loop of PushBatch; [fuel] bounds its iterations. *)
Fixpoint PushBatch_loop (kTriviallyCopyable : bool) (fuel : nat) (buf : list T)
    (count written cur_head : Z) (s : spsc) : Z * spsc :=
  match fuel with
  | O => (written, s)
  | S fuel' =>
    if written <? count then
      let cur_tail := tail_ s in
      let space := wrap w (BufferSize - isub w cur_head cur_tail) in
      if space =? 0 then (written, s)
      else
        let to_write := Z.min (count - written) space in
        let head_offset := Z.land cur_head kMask in
        let data' := copy_in kTriviallyCopyable (data_buff_ s) head_offset buf written to_write in
        let cur_head' := wrap w (cur_head + wrap w to_write) in
        PushBatch_loop kTriviallyCopyable fuel' buf count (written + to_write) cur_head'
          (mkSpsc cur_head' cur_tail data')
    else (written, s)
  end.

(** [PushBatch(buf, count)] with [count] the length of [buf]; every iteration
    writes at least one element, so [count + 1] iterations are never exceeded
    (see PushBatch_spec). *)
Definition PushBatch (kTriviallyCopyable : bool) (buf : list T) (s : spsc) : Z * spsc :=
  PushBatch_loop kTriviallyCopyable (S (length buf)) buf (Z.of_nat (length buf)) 0 (head_ s) s.

Definition ProducerClear (s : spsc) : spsc := mkSpsc (tail_ s) (tail_ s) (data_buff_ s).

Definition Pop (s : spsc) : option T * spsc :=
  let cur_tail := tail_ s in
  let cur_head := head_ s in
  if cur_tail =? cur_head then (None, s)
  else
    (Some (aget (data_buff_ s) (Z.land cur_tail kMask)),
     mkSpsc cur_head (wrap w (cur_tail + 1)) (data_buff_ s)).

(** The copy of [to_read] elements out of the ring from [tail_offset]. *)
Definition copy_out (kTriviallyCopyable : bool) (data : list T) (tail_offset to_read : Z) : list T :=
  if kTriviallyCopyable then
    let first_part := Z.min to_read (BufferSize - tail_offset) in
    slice data tail_offset first_part ++
    (if first_part <? to_read then slice data 0 (to_read - first_part) else [])
  else
    for_loop (fun i buf => buf ++ [aget data (Z.land (tail_offset + i) kMask)])
      0 (Z.to_nat to_read) [].

Fixpoint PopBatch_loop (kTriviallyCopyable : bool) (fuel : nat) (buf : list T)
    (count read cur_tail : Z) (s : spsc) : list T * spsc :=
  match fuel with
  | O => (buf, s)
  | S fuel' =>
    if read <? count then
      let cur_head := head_ s in
      let available := wrap w (isub w cur_head cur_tail) in
      if available =? 0 then (buf, s)
      else
        let to_read := Z.min (count - read) available in
        let tail_offset := Z.land cur_tail kMask in
        let buf' := buf ++ copy_out kTriviallyCopyable (data_buff_ s) tail_offset to_read in
        let cur_tail' := wrap w (cur_tail + wrap w to_read) in
        PopBatch_loop kTriviallyCopyable fuel' buf' count (read + to_read) cur_tail'
          (mkSpsc cur_head cur_tail' (data_buff_ s))
    else (buf, s)
  end.

(** [PopBatch(buf, count)]: the elements stored to [buf] (their number is the
    returned count) and the ring afterwards. *)
Definition PopBatch (kTriviallyCopyable : bool) (count : Z) (s : spsc) : list T * spsc :=
  PopBatch_loop kTriviallyCopyable (S (Z.to_nat count)) [] count 0 (tail_ s) s.

Definition Discard (count : Z) (s : spsc) : Z * spsc :=
  let cur_tail := tail_ s in
  let cur_head := head_ s in
  let available := wrap w (isub w cur_head cur_tail) in
  let to_discard := Z.min count available in
  if 0 <? to_discard
  then (to_discard, mkSpsc cur_head (wrap w (cur_tail + wrap w to_discard)) (data_buff_ s))
  else (to_discard, s).

(** Pointers into the storage are modelled by the element they point to. *)
Definition Peek (s : spsc) : option T :=
  let cur_tail := tail_ s in
  let cur_head := head_ s in
  if cur_tail =? cur_head then None
  else Some (aget (data_buff_ s) (Z.land cur_tail kMask)).

Definition At (index : Z) (s : spsc) : option T :=
  let cur_tail := tail_ s in
  let cur_head := head_ s in
  if isub w cur_head cur_tail <=? wrap w index then None
  else Some (aget (data_buff_ s) (Z.land (u64 (cur_tail + index)) kMask)).

Definition subscript (index : Z) (s : spsc) : T :=
  aget (data_buff_ s) (Z.land (u64 (tail_ s + index)) kMask).

Definition ConsumerClear (s : spsc) : spsc := mkSpsc (head_ s) (head_ s) (data_buff_ s).

Definition Size (s : spsc) : Z := wrap w (isub w (head_ s) (tail_ s)).
Definition Available (s : spsc) : Z := wrap w (BufferSize - isub w (head_ s) (tail_ s)).
Definition IsEmpty (s : spsc) : bool := Size s =? 0.
Definition IsFull (s : spsc) : bool := Available s =? 0.
Definition Capacity : Z := BufferSize.

(** ** Abstraction: the queue a ring holds *)

(** Well-formedness: indices in range, at most BufferSize elements between
    them, the storage has its declared size. *)
Record inv (s : spsc) : Prop := {
  inv_head : in_range w (head_ s);
  inv_tail : in_range w (tail_ s);
  inv_size : Size s <= BufferSize;
  inv_buff : Z.of_nat (length (data_buff_ s)) = BufferSize
}.

(** The elements from the oldest to the newest. *)
Definition contents (s : spsc) : list T :=
  (fun i => aget (data_buff_ s) (Z.land (tail_ s + i) kMask)) <$> seqZ 0 (Size s).

(** ** Facts about the configuration *)

Context `{Hcfg : !SpscConfig w k} `{Hwide : !WideIndex w}.

Lemma idx_bounds : 0 <= k /\ k + 1 < w /\ 0 < BufferSize /\ 2 * BufferSize < 2 ^ w /\ w <= 64.
Proof.
  destruct Hcfg as [Ht Hk Hs].
  assert (Hw : 0 < w) by (destruct Ht as [|[|[|]]]; lia).
  rewrite Z.shiftr_div_pow2 in Hs by lia. change (2 ^ 1) with 2 in Hs.
  assert (0 < 2 ^ k) by (apply Z.pow_pos_nonneg; lia).
  assert (0 < 2 ^ w) by (apply Z.pow_pos_nonneg; lia).
  assert (Hlt : 2 * 2 ^ k < 2 ^ w).
  { pose proof (Z.mul_div_le (2 ^ w - 1) 2). lia. }
  repeat split; unfold BufferSize; try lia.
  rewrite <- Z.pow_succ_r in Hlt by lia. apply Z.pow_lt_mono_r_iff in Hlt; lia.
Qed.

Lemma isub_wide a b : isub w a b = wrap w (a - b).
Proof. unfold isub. red in Hwide. by destruct (Z.ltb_spec w 32); [lia|]. Qed.

Lemma kMask_eq : kMask = 2 ^ k - 1.
Proof.
  unfold kMask. pose proof idx_bounds. unfold BufferSize in *. apply wrap_small. red. lia.
Qed.

Lemma land_kMask z : Z.land z kMask = wrap k z.
Proof. rewrite kMask_eq. apply land_mask. pose proof idx_bounds. lia. Qed.

Lemma wrap_k_range z : 0 <= wrap k z < BufferSize.
Proof. apply wrap_range. pose proof idx_bounds. lia. Qed.

Lemma wrap_k_w z : wrap k (wrap w z) = wrap k z.
Proof. apply wrap_wrap_le. pose proof idx_bounds. lia. Qed.

Lemma wrap_k_small z : 0 <= z < BufferSize -> wrap k z = z.
Proof. intros. by apply wrap_small. Qed.

Lemma wrap_k_neg z : - BufferSize <= z < 0 -> wrap k z = z + BufferSize.
Proof.
  intros Hz. unfold wrap. fold BufferSize. symmetry.
  apply (Z.mod_unique _ _ (-1)); [left|]; lia.
Qed.

Lemma Size_eq s : Size s = wrap w (head_ s - tail_ s).
Proof. unfold Size. by rewrite isub_wide, wrap_wrap. Qed.

Lemma Size_range s : 0 <= Size s < 2 ^ w.
Proof. apply wrap_range. pose proof idx_bounds. lia. Qed.

Lemma Size_u64 s : u64 (Size s) = Size s.
Proof.
  pose proof idx_bounds. pose proof (Size_range s). apply wrap_small. split; [lia|].
  apply Z.lt_le_trans with (2 ^ w); [lia|]. apply Z.pow_le_mono_r; lia.
Qed.

(** The slot of the newest element's successor. *)
Lemma head_slot s : wrap k (head_ s) = wrap k (tail_ s + Size s).
Proof.
  rewrite Size_eq. rewrite <- (wrap_k_w (tail_ s + _)), wrap_add_r, wrap_k_w.
  f_equal. lia.
Qed.

(** Equal sizes modulo the index width mean equal indices. *)
Lemma empty_heads a b : in_range w a -> in_range w b -> wrap w (a - b) = 0 -> a = b.
Proof.
  unfold in_range. intros. destruct (Z.le_ge_cases b a).
  - rewrite wrap_small in *; [lia|red; lia].
  - destruct (Z.eq_dec a b); [done|]. exfalso.
    assert (wrap w (a - b) = a - b + 2 ^ w) as Heq.
    { unfold wrap. symmetry. apply (Z.mod_unique _ _ (-1)); [left|]; lia. }
    lia.
Qed.

Lemma length_contents s : Z.of_nat (length (contents s)) = Size s.
Proof. unfold contents. rewrite length_fmap, length_seqZ. pose proof (Size_range s). lia. Qed.

Lemma aget_contents s i : 0 <= i < Size s -> aget (contents s) i = aget (data_buff_ s) (wrap k (tail_ s + i)).
Proof.
  intros. unfold contents, aget at 1.
  rewrite list_lookup_total_alt, list_lookup_fmap, lookup_seqZ_lt by lia. simpl.
  by rewrite Z2Nat.id, land_kMask by lia.
Qed.

Lemma Available_eq s : inv s -> Available s = BufferSize - Size s.
Proof.
  intros [_ _ Hs _]. unfold Available. rewrite isub_wide. pose proof idx_bounds. pose proof (Size_range s).
  rewrite Size_eq in *. apply wrap_small. red. lia.
Qed.

(** ** Writing and releasing: the two ways the indices move *)

(** [data'] is [data] with [xs] written at consecutive ring slots from [h]. *)
Definition ring_write (data : list T) (h : Z) (xs data' : list T) : Prop :=
  length data' = length data /\
  forall j, 0 <= j < BufferSize ->
    aget data' j =
      if wrap k (j - h) <? Z.of_nat (length xs) then aget xs (wrap k (j - h)) else aget data j.

Lemma advance_head s xs data' :
  inv s -> Size s + Z.of_nat (length xs) <= BufferSize ->
  ring_write (data_buff_ s) (head_ s) xs data' ->
  let s' := mkSpsc (wrap w (head_ s + Z.of_nat (length xs))) (tail_ s) data' in
  inv s' /\ contents s' = contents s ++ xs.
Proof.
  intros Hi Hfit [Hlen Hw] s'. pose proof idx_bounds as (Hk & Hkw & HB & HBw & _).
  pose proof (Size_range s) as HS.
  assert (HS' : Size s' = Size s + Z.of_nat (length xs)).
  { rewrite (Size_eq s'). simpl. rewrite wrap_sub_l.
    replace (head_ s + Z.of_nat (length xs) - tail_ s)
      with (head_ s - tail_ s + Z.of_nat (length xs)) by lia.
    rewrite <- wrap_add_l, <- Size_eq. apply wrap_small. red. lia. }
  destruct Hi as [Hh Ht Hs Hb]. split.
  { split; simpl; [apply wrap_range; lia|done|lia|lia]. }
  assert (Hhs : forall i, wrap k (wrap k (tail_ s + i) - head_ s) = wrap k (i - Size s)).
  { intros i. rewrite wrap_sub_l, <- (wrap_sub_r k), head_slot, wrap_sub_r. f_equal. lia. }
  apply arr_ext.
  { apply Nat2Z.inj. rewrite length_app, Nat2Z.inj_add, !length_contents. lia. }
  rewrite length_contents, HS'. intros i Hi.
  rewrite aget_contents by lia. rewrite aget_app, length_contents by lia. simpl.
  rewrite Hw by apply wrap_k_range. rewrite Hhs.
  destruct (Z.ltb_spec i (Size s)).
  - rewrite wrap_k_neg by lia. destruct (Z.ltb_spec (i - Size s + BufferSize) (Z.of_nat (length xs))); [lia|].
    by rewrite aget_contents by lia.
  - rewrite wrap_k_small by lia. by destruct (Z.ltb_spec (i - Size s) (Z.of_nat (length xs))); [|lia].
Qed.

Lemma advance_tail s n :
  inv s -> 0 <= n <= Size s ->
  let s' := mkSpsc (head_ s) (wrap w (tail_ s + n)) (data_buff_ s) in
  inv s' /\ contents s' = drop (Z.to_nat n) (contents s).
Proof.
  intros Hi Hn s'. pose proof idx_bounds as (Hk & Hkw & HB & HBw & _).
  pose proof (Size_range s) as HS.
  assert (HS' : Size s' = Size s - n).
  { rewrite (Size_eq s'). simpl. rewrite wrap_sub_r.
    replace (head_ s - (tail_ s + n)) with (head_ s - tail_ s - n) by lia.
    rewrite <- wrap_sub_l, <- Size_eq. apply wrap_small. red. lia. }
  destruct Hi as [Hh Ht Hs Hb]. split.
  { split; simpl; [done|apply wrap_range; lia|lia|lia]. }
  apply arr_ext.
  { apply Nat2Z.inj. pose proof (length_contents s). pose proof (length_contents s').
    rewrite length_drop. lia. }
  rewrite length_contents, HS'. intros i Hi.
  rewrite aget_drop by lia. rewrite !aget_contents by lia. simpl. f_equal.
  rewrite <- (wrap_k_w (wrap w _ + i)), wrap_add_l, wrap_k_w. f_equal. lia.
Qed.

Lemma ring_write_one data h x :
  Z.of_nat (length data) = BufferSize -> ring_write data h [x] (aset data (wrap k h) x).
Proof.
  intros Hl. pose proof (wrap_k_range h) as Hr. split; [apply length_aset|].
  intros j Hj. change (Z.of_nat (length [x])) with 1. destruct (Z.ltb_spec (wrap k (j - h)) 1) as [Hlt|Hge].
  - pose proof (wrap_k_range (j - h)). assert (He : wrap k (j - h) = 0) by lia. rewrite He.
    assert (j = wrap k h) as ->.
    { transitivity (wrap k (h + wrap k (j - h))).
      - rewrite wrap_add_r. symmetry. replace (h + (j - h)) with j by lia. by apply wrap_k_small.
      - rewrite He. f_equal. lia. }
    rewrite aget_aset_eq by lia. done.
  - apply aget_aset_ne; [lia..|]. intros <-. rewrite wrap_sub_l, Z.sub_diag in Hge.
    rewrite wrap_k_small in Hge; lia.
Qed.

(** ** Functional behaviour of every operation *)

(** Push appends when there is room and otherwise changes nothing. *)
Lemma Push_ok s x :
  inv s ->
  if Size s <? BufferSize
  then (Push x s).1 = true /\ inv (Push x s).2 /\ contents (Push x s).2 = contents s ++ [x]
  else Push x s = (false, s).
Proof.
  intros Hi. unfold Push, PushImpl. rewrite isub_wide, <- Size_eq, land_kMask, Size_u64.
  pose proof (inv_size s Hi).
  destruct (Z.ltb_spec (Size s) BufferSize), (Z.eqb_spec (Size s) BufferSize); try lia; [|done].
  split; [done|]. apply (advance_head s [x]); [done|simpl; lia|]. by apply ring_write_one, inv_buff.
Qed.

Lemma PushFromCallback_ok {C : Type} (callback : C -> T * C) c s :
  inv s ->
  PushFromCallback callback c s =
    if Size s <? BufferSize
    then (true, (Push (callback c).1 s).2, (callback c).2) else (false, s, c).
Proof.
  intros Hi. unfold PushFromCallback, Push, PushImpl. rewrite isub_wide, <- Size_eq, Size_u64.
  pose proof (inv_size s Hi).
  destruct (Z.ltb_spec (Size s) BufferSize), (Z.eqb_spec (Size s) BufferSize); try lia; [|done].
  by destruct (callback c).
Qed.

(** Pop removes the oldest element. *)
Lemma Pop_ok s :
  inv s ->
  match contents s with
  | [] => Pop s = (None, s)
  | x :: q => (Pop s).1 = Some x /\ inv (Pop s).2 /\ contents (Pop s).2 = q
  end.
Proof.
  intros Hi. unfold Pop. rewrite land_kMask. pose proof (length_contents s) as Hl.
  destruct (contents s) as [|x q] eqn:Hc; simpl in Hl.
  - rewrite Size_eq in Hl. destruct Hi as [Hh Ht _ _].
    pose proof idx_bounds. rewrite (proj2 (Z.eqb_eq _ _)); [done|].
    symmetry. apply empty_heads; [done..|lia].
  - destruct (Z.eqb_spec (tail_ s) (head_ s)) as [He|He].
    + rewrite Size_eq, He, Z.sub_diag in Hl. done.
    + destruct (advance_tail s 1 Hi ltac:(lia)) as [Hi' Hc']. simpl.
      split; [|split; [done|]].
      * f_equal. pose proof (aget_contents s 0 ltac:(lia)) as Ha. rewrite Hc, Z.add_0_r in Ha.
        by rewrite <- Ha.
      * by rewrite Hc', Hc.
Qed.

(** ** Batch operations *)

Lemma wrap_k_diff j h :
  0 <= j < BufferSize ->
  wrap k (j - h) = if wrap k h <=? j then j - wrap k h else j - wrap k h + BufferSize.
Proof.
  intros Hj. rewrite <- wrap_sub_r. pose proof (wrap_k_range h).
  destruct (Z.leb_spec (wrap k h) j); [apply wrap_k_small|apply wrap_k_neg]; lia.
Qed.

Lemma wrap_k_slot h i j :
  0 <= i < BufferSize -> 0 <= j < BufferSize -> wrap k (h + i) = j <-> wrap k (j - h) = i.
Proof.
  intros Hi Hj. split; intros <-; rewrite ?wrap_sub_l, ?wrap_add_r.
  - replace (h + i - h) with i by lia. by apply wrap_k_small.
  - replace (h + (j - h)) with j by lia. by apply wrap_k_small.
Qed.

(** Both copy paths write the same elements to the same slots. *)
Lemma copy_in_ok triv data h buf written to_write :
  Z.of_nat (length data) = BufferSize -> 0 <= written -> 0 <= to_write <= BufferSize ->
  written + to_write <= Z.of_nat (length buf) ->
  ring_write data h (slice buf written to_write) (copy_in triv data (wrap k h) buf written to_write).
Proof.
  intros Hl Hwr Htw Hfit. pose proof (wrap_k_range h) as Ho.
  unfold ring_write. rewrite length_slice, Z2Nat.id by lia. unfold copy_in. destruct triv.
  - set (fp := Z.min to_write (BufferSize - wrap k h)).
    assert (Hf : length (slice buf written fp) = Z.to_nat fp) by (apply length_slice; lia).
    assert (Hlb : length (blit data (wrap k h) (slice buf written fp)) = length data)
      by (apply length_blit; lia).
    destruct (Z.ltb_spec fp to_write).
    + assert (Hr : length (slice buf (written + fp) (to_write - fp)) = Z.to_nat (to_write - fp))
        by (apply length_slice; lia).
      split; [rewrite length_blit; lia|]. intros j Hj. rewrite wrap_k_diff by done.
      rewrite aget_blit, Hr, Z2Nat.id by lia. rewrite aget_blit, Hf, Z2Nat.id by lia.
      repeat case_bool; simpl; first [lia|done|rewrite !aget_slice by lia; f_equal; lia].
    + split; [done|]. intros j Hj. rewrite wrap_k_diff by done.
      rewrite aget_blit, Hf, Z2Nat.id by lia.
      repeat case_bool; simpl; first [lia|done|rewrite !aget_slice by lia; f_equal; lia].
  - set (P := fun i d => length d = length data /\ forall j, 0 <= j < BufferSize ->
        aget d j = if wrap k (j - h) <? i then aget buf (written + wrap k (j - h)) else aget data j).
    cut (P to_write (for_loop (fun i d => aset d (Z.land (wrap k h + i) kMask) (aget buf (written + i)))
                       0 (Z.to_nat to_write) data)).
    { intros [HL Hj]. split; [done|]. intros j Hj'. pose proof (wrap_k_range (j - h)).
      rewrite Hj by done. case_bool; [by rewrite aget_slice by lia|done]. }
    replace to_write with (0 + Z.of_nat (Z.to_nat to_write)) at 1 by lia.
    apply for_loop_inv.
    { split; [done|]. intros j Hj. pose proof (wrap_k_range (j - h)). case_bool; [lia|done]. }
    intros i d Hi [HL Hd]. split; [by rewrite length_aset|]. intros j Hj.
    rewrite land_kMask, wrap_add_l. pose proof (wrap_k_range (h + i)).
    destruct (decide (wrap k (h + i) = j)) as [He|He].
    + rewrite He, aget_aset_eq by lia. apply wrap_k_slot in He as ->; [|lia..].
      by destruct (Z.ltb_spec i (i + 1)); [|lia].
    + rewrite aget_aset_ne, Hd by lia.
      assert (wrap k (j - h) <> i) by (rewrite <- wrap_k_slot by lia; done).
      repeat case_bool; lia || done.
Qed.

Lemma PushBatch_loop_ok triv buf fuel written s :
  inv s -> 0 <= written <= Z.of_nat (length buf) ->
  Z.of_nat (length buf) - written < Z.of_nat fuel ->
  let n := Z.min (Z.of_nat (length buf) - written) (BufferSize - Size s) in
  let r := PushBatch_loop triv fuel buf (Z.of_nat (length buf)) written (head_ s) s in
  r.1 = written + n /\ inv r.2 /\ contents r.2 = contents s ++ slice buf written n.
Proof.
  revert written s. induction fuel as [|fuel IH]; intros written s Hi Hwr Hf; [lia|].
  pose proof (inv_size s Hi). pose proof idx_bounds as (_ & _ & HB & HBw & _). pose proof (Size_range s).
  assert (Hn0 : forall a, slice buf a 0 = []) by done.
  simpl. destruct (Z.ltb_spec written (Z.of_nat (length buf))) as [Hlt|Hge]; simpl.
  2: { replace (Z.min _ _) with 0 by lia. rewrite Hn0, app_nil_r. split_and!; [lia|done|done]. }
  pose proof (Available_eq s Hi) as Hav. unfold Available in Hav. rewrite Hav.
  destruct (Z.eqb_spec (BufferSize - Size s) 0) as [He|He]; simpl.
  { replace (Z.min _ _) with 0 by lia. rewrite Hn0, app_nil_r. split_and!; [lia|done|done]. }
  set (tw := Z.min (Z.of_nat (length buf) - written) (BufferSize - Size s)).
  rewrite land_kMask, wrap_add_r.
  pose proof (copy_in_ok triv (data_buff_ s) (head_ s) buf written tw (inv_buff s Hi)
                ltac:(lia) ltac:(lia) ltac:(lia)) as Hrw.
  assert (Hls : Z.of_nat (length (slice buf written tw)) = tw) by (rewrite length_slice; lia).
  destruct (advance_head s (slice buf written tw) _ Hi ltac:(lia) Hrw) as [Hi' Hc']. rewrite Hls in Hi', Hc'.
  set (s' := mkSpsc _ _ _) in *.
  destruct (IH (written + tw) s' Hi' ltac:(lia) ltac:(lia)) as (Hr & Hri & Hrc).
  pose proof (length_contents s') as Hl'. rewrite Hc', length_app, Nat2Z.inj_add, length_contents, Hls in Hl'.
  replace (Z.min (Z.of_nat (length buf) - (written + tw)) (BufferSize - Size s')) with 0 in Hr, Hrc by lia.
  simpl in Hr, Hri, Hrc. rewrite Hn0, app_nil_r, Hc' in Hrc. rewrite Z.add_0_r in Hr. done.
Qed.

(** PushBatch appends the longest prefix of the batch that fits, whichever
    copy path is compiled, and returns its length. *)
Lemma PushBatch_ok triv buf s :
  inv s ->
  let n := Z.min (Z.of_nat (length buf)) (BufferSize - Size s) in
  (PushBatch triv buf s).1 = n /\ inv (PushBatch triv buf s).2 /\
  contents (PushBatch triv buf s).2 = contents s ++ take (Z.to_nat n) buf.
Proof.
  intros Hi. pose proof (PushBatch_loop_ok triv buf (S (length buf)) 0 s Hi ltac:(lia) ltac:(lia)) as Hb.
  rewrite Z.sub_0_r in Hb. exact Hb.
Qed.

Lemma copy_out_ok triv data t n :
  Z.of_nat (length data) = BufferSize -> 0 <= n <= BufferSize ->
  copy_out triv data (wrap k t) n = (fun i => aget data (wrap k (t + i))) <$> seqZ 0 n.
Proof.
  intros Hl Hn. pose proof (wrap_k_range t) as Ho.
  assert (Hlen : length ((fun i => aget data (wrap k (t + i))) <$> seqZ 0 n) = Z.to_nat n)
    by (rewrite length_fmap, length_seqZ; lia).
  assert (Hget : forall i, 0 <= i < n -> aget ((fun i => aget data (wrap k (t + i))) <$> seqZ 0 n) i =
            aget data (wrap k (t + i))).
  { intros i Hi. unfold aget at 1. rewrite list_lookup_total_alt, list_lookup_fmap, lookup_seqZ_lt by lia.
    simpl. by rewrite Z2Nat.id by lia. }
  assert (Hslot : forall i, 0 <= i < n -> wrap k (t + i) =
            if wrap k t + i <? BufferSize then wrap k t + i else wrap k t + i - BufferSize).
  { intros i Hi. rewrite <- wrap_add_l. case_bool; [by apply wrap_k_small; lia|].
    unfold wrap at 1. symmetry. apply (Z.mod_unique _ _ 1); [left|]; unfold BufferSize in *; lia. }
  unfold copy_out. destruct triv.
  - set (fp := Z.min n (BufferSize - wrap k t)).
    assert (Hf : length (slice data (wrap k t) fp) = Z.to_nat fp) by (apply length_slice; lia).
    apply arr_ext.
    { rewrite Hlen, length_app, Hf. case_bool; simpl; [rewrite length_slice by lia|]; lia. }
    intros i Hi. assert (Hin : 0 <= i < n).
    { revert Hi. rewrite length_app, Hf. case_bool; [rewrite length_slice by lia|simpl]; lia. }
    rewrite Hget, Hslot, aget_app, Hf, Z2Nat.id by lia.
    repeat case_bool; first [lia|rewrite !aget_slice by lia; f_equal; lia].
  - assert (Hloop : forall m, for_loop (fun i buf => buf ++ [aget data (Z.land (wrap k t + i) kMask)]) 0 m [] =
              (fun i => aget data (wrap k (t + i))) <$> seqZ 0 (Z.of_nat m)); [|by rewrite Hloop, Z2Nat.id by lia].
    intros m. induction m as [|m IH]; [done|].
    rewrite for_loop_snoc, IH, land_kMask, wrap_add_l, Nat2Z.inj_succ, <- Z.add_1_r, seqZ_app by lia.
    rewrite fmap_app. do 2 f_equal.
Qed.

Lemma contents_prefix s n :
  inv s -> 0 <= n <= Size s ->
  (fun i => aget (data_buff_ s) (wrap k (tail_ s + i))) <$> seqZ 0 n = take (Z.to_nat n) (contents s).
Proof.
  intros Hi Hn. pose proof (length_contents s). apply arr_ext.
  { rewrite length_fmap, length_seqZ, length_take. lia. }
  rewrite length_fmap, length_seqZ. intros i Hi'.
  rewrite aget_take, aget_contents by lia. unfold aget at 1.
  rewrite list_lookup_total_alt, list_lookup_fmap, lookup_seqZ_lt by lia. simpl.
  by rewrite Z2Nat.id by lia.
Qed.

Lemma PopBatch_loop_ok triv fuel buf count read s :
  inv s -> 0 <= read <= count -> count - read < Z.of_nat fuel ->
  let n := Z.min (count - read) (Size s) in
  let r := PopBatch_loop triv fuel buf count read (tail_ s) s in
  r.1 = buf ++ take (Z.to_nat n) (contents s) /\ inv r.2 /\ contents r.2 = drop (Z.to_nat n) (contents s).
Proof.
  revert buf read s. induction fuel as [|fuel IH]; intros buf read s Hi Hr Hf; [lia|].
  pose proof (inv_size s Hi). pose proof (Size_range s).
  simpl. destruct (Z.ltb_spec read count) as [Hlt|Hge]; simpl.
  2: { replace (Z.min _ _) with 0 by lia. by rewrite app_nil_r. }
  fold (Size s). destruct (Z.eqb_spec (Size s) 0) as [He|He]; simpl.
  { replace (Z.min _ _) with 0 by lia. by rewrite app_nil_r. }
  set (tr := Z.min (count - read) (Size s)).
  rewrite land_kMask, wrap_add_r, copy_out_ok, contents_prefix by (done || lia || by apply inv_buff).
  destruct (advance_tail s tr Hi ltac:(lia)) as [Hi' Hc'].
  set (s' := mkSpsc _ _ _) in *.
  destruct (IH (buf ++ take (Z.to_nat tr) (contents s)) (read + tr) s' Hi' ltac:(lia) ltac:(lia)) as (Hb & Hri & Hrc).
  pose proof (length_contents s') as Hl'. pose proof (length_contents s).
  rewrite Hc', length_drop in Hl'.
  replace (Z.min (count - (read + tr)) (Size s')) with 0 in Hb, Hrc by lia.
  simpl in Hb, Hri, Hrc. rewrite app_nil_r in Hb. rewrite drop_0, Hc' in Hrc. done.
Qed.

(** PopBatch returns the oldest elements, at most [count], and removes them. *)
Lemma PopBatch_ok triv count s :
  inv s -> 0 <= count ->
  (PopBatch triv count s).1 = take (Z.to_nat count) (contents s) /\ inv (PopBatch triv count s).2 /\
  contents (PopBatch triv count s).2 = drop (Z.to_nat count) (contents s).
Proof.
  intros Hi Hc.
  destruct (PopBatch_loop_ok triv (S (Z.to_nat count)) [] count 0 s Hi ltac:(lia) ltac:(lia)) as (H1 & H2 & H3).
  rewrite Z.sub_0_r in H1, H3. pose proof (length_contents s).
  unfold PopBatch. rewrite H1, H3. destruct (Z.le_ge_cases count (Size s)).
  - by rewrite Z.min_l by lia.
  - rewrite Z.min_r by lia. rewrite !take_ge, !drop_ge by lia. done.
Qed.

Lemma Discard_ok count s :
  inv s -> 0 <= count ->
  (Discard count s).1 = Z.min count (Size s) /\ inv (Discard count s).2 /\
  contents (Discard count s).2 = drop (Z.to_nat count) (contents s).
Proof.
  intros Hi Hc. unfold Discard. fold (Size s). pose proof (Size_range s). pose proof (length_contents s).
  destruct (Z.ltb_spec 0 (Z.min count (Size s))) as [Hlt|Hge]; simpl.
  - rewrite wrap_add_r. destruct (advance_tail s (Z.min count (Size s)) Hi ltac:(lia)) as [Hi' Hc'].
    split_and!; [done..|]. rewrite Hc'. destruct (Z.le_ge_cases count (Size s)).
    + by rewrite Z.min_l by lia.
    + rewrite Z.min_r by lia. by rewrite !drop_ge by lia.
  - split_and!; [done..|]. destruct (Z.eq_dec count 0) as [->|]; [done|].
    by rewrite (nil_length_inv (contents s)), drop_nil by lia.
Qed.

Lemma Peek_ok s : inv s -> Peek s = head (contents s).
Proof.
  intros Hi. pose proof (Pop_ok s Hi) as Hp. unfold Pop, Peek in *.
  destruct (contents s) as [|x q]; simpl; destruct (tail_ s =? head_ s); try done; [by destruct Hp|].
  by destruct Hp as [? _].
Qed.

Lemma At_ok index s : inv s -> in_range w index -> At index s = contents s !! Z.to_nat index.
Proof.
  intros Hi Hr. unfold At. rewrite isub_wide, <- Size_eq, wrap_small by done.
  pose proof (length_contents s) as Hl. pose proof idx_bounds as (Hk & Hkw & _ & _ & Hw).
  red in Hr. destruct (Z.leb_spec (Size s) index).
  - symmetry. apply lookup_ge_None. lia.
  - rewrite land_kMask, wrap_wrap_le, <- aget_contents by lia.
    symmetry. apply list_lookup_lookup_total_lt. lia.
Qed.

Lemma ConsumerClear_ok s : inv s -> inv (ConsumerClear s) /\ contents (ConsumerClear s) = [].
Proof.
  intros [Hh Ht Hs Hb]. pose proof idx_bounds.
  assert (HS : Size (ConsumerClear s) = 0).
  { rewrite Size_eq. simpl. rewrite Z.sub_diag. apply wrap_0. }
  split; [split; simpl; try done; rewrite HS; lia|]. unfold contents. by rewrite HS.
Qed.

Lemma ProducerClear_ok s : inv s -> inv (ProducerClear s) /\ contents (ProducerClear s) = [].
Proof.
  intros [Hh Ht Hs Hb]. pose proof idx_bounds.
  assert (HS : Size (ProducerClear s) = 0).
  { rewrite Size_eq. simpl. rewrite Z.sub_diag. apply wrap_0. }
  split; [split; simpl; try done; rewrite HS; lia|]. unfold contents. by rewrite HS.
Qed.

Lemma SpscRingbuffer_ok : inv SpscRingbuffer /\ contents SpscRingbuffer = [].
Proof.
  pose proof idx_bounds.
  assert (HS : Size SpscRingbuffer = 0) by (rewrite Size_eq; apply wrap_0).
  split; [split; simpl; try (split; lia); rewrite ?HS, ?length_replicate; lia|].
  unfold contents. by rewrite HS.
Qed.

(** ** Refinement of a bounded queue *)

Inductive op :=
| OpPush (x : T)
| OpPushBatch (triv : bool) (buf : list T)
| OpPop
| OpPopBatch (triv : bool) (count : Z)
| OpDiscard (count : Z)
| OpPeek
| OpAt (index : Z)
| OpSize
| OpAvailable
| OpIsEmpty
| OpIsFull
| OpProducerClear
| OpConsumerClear.

Inductive result :=
| RBool (b : bool)
| RElem (x : option T)
| RElems (xs : list T)
| RCount (n : Z)
| RUnit.

(** The ring's operations, as one step function. *)
Definition exec (o : op) (s : spsc) : result * spsc :=
  match o with
  | OpPush x => let '(b, s') := Push x s in (RBool b, s')
  | OpPushBatch triv buf => let '(n, s') := PushBatch triv buf s in (RCount n, s')
  | OpPop => let '(x, s') := Pop s in (RElem x, s')
  | OpPopBatch triv count => let '(xs, s') := PopBatch triv count s in (RElems xs, s')
  | OpDiscard count => let '(n, s') := Discard count s in (RCount n, s')
  | OpPeek => (RElem (Peek s), s)
  | OpAt index => (RElem (At index s), s)
  | OpSize => (RCount (Size s), s)
  | OpAvailable => (RCount (Available s), s)
  | OpIsEmpty => (RBool (IsEmpty s), s)
  | OpIsFull => (RBool (IsFull s), s)
  | OpProducerClear => (RUnit, ProducerClear s)
  | OpConsumerClear => (RUnit, ConsumerClear s)
  end.

(** The specification: a list of at most [cap] elements. *)
Definition queue_exec (cap : Z) (o : op) (q : list T) : result * list T :=
  let len := Z.of_nat (length q) in
  match o with
  | OpPush x => if len <? cap then (RBool true, q ++ [x]) else (RBool false, q)
  | OpPushBatch _ buf =>
    let n := Z.min (Z.of_nat (length buf)) (cap - len) in (RCount n, q ++ take (Z.to_nat n) buf)
  | OpPop => (RElem (head q), tail q)
  | OpPopBatch _ count => (RElems (take (Z.to_nat count) q), drop (Z.to_nat count) q)
  | OpDiscard count => (RCount (Z.min count len), drop (Z.to_nat count) q)
  | OpPeek => (RElem (head q), q)
  | OpAt index => (RElem (q !! Z.to_nat index), q)
  | OpSize => (RCount len, q)
  | OpAvailable => (RCount (cap - len), q)
  | OpIsEmpty => (RBool (len =? 0), q)
  | OpIsFull => (RBool (len =? cap), q)
  | OpProducerClear | OpConsumerClear => (RUnit, [])
  end.

(** Arguments of type size_t are not negative, and an index given to At fits
    the index type (At truncates it). *)
Definition op_ok (o : op) : Prop :=
  match o with
  | OpPopBatch _ count | OpDiscard count => 0 <= count
  | OpAt index => in_range w index
  | _ => True
  end.

Definition repr (s : spsc) (q : list T) : Prop := inv s /\ contents s = q.

Lemma exec_simulates o s q :
  op_ok o -> repr s q ->
  (exec o s).1 = (queue_exec BufferSize o q).1 /\ repr (exec o s).2 (queue_exec BufferSize o q).2.
Proof.
  intros Ho [Hi <-]. pose proof (length_contents s) as Hl. pose proof (Available_eq s Hi) as Hav.
  unfold repr. destruct o; simpl; rewrite ?Hl.
  - pose proof (Push_ok s x Hi) as Hp. case_bool; [|by rewrite Hp].
    destruct (Push x s), Hp as (? & ? & ?); simpl in *; subst; done.
  - pose proof (PushBatch_ok triv buf s Hi) as Hp.
    destruct (PushBatch triv buf s), Hp as (? & ? & ?); simpl in *; subst; done.
  - pose proof (Pop_ok s Hi) as Hp. destruct (contents s) eqn:Hc; [by rewrite Hp|].
    destruct (Pop s), Hp as (? & ? & ?); simpl in *; subst; done.
  - pose proof (PopBatch_ok triv count s Hi Ho) as Hp.
    destruct (PopBatch triv count s), Hp as (? & ? & ?); simpl in *; subst; done.
  - pose proof (Discard_ok count s Hi Ho) as Hp.
    destruct (Discard count s), Hp as (? & ? & ?); simpl in *; subst; done.
  - by rewrite Peek_ok.
  - by rewrite At_ok.
  - done.
  - by rewrite Hav.
  - done.
  - unfold IsFull. rewrite Hav. split; [|done]. f_equal. repeat case_bool; lia || done.
  - split; [done|]. by apply ProducerClear_ok.
  - split; [done|]. by apply ConsumerClear_ok.
Qed.

(** C3.  A ring buffer whose index type is at least as wide as [int] is
    observationally a bounded FIFO queue of capacity BufferSize: any sequence
    of member calls, from the constructor on and through any number of index
    wrap-arounds, returns what the queue returns, on both batch copy paths. *)
Theorem spsc_refines_bounded_queue (ops : list op) :
  Forall op_ok ops ->
  (run exec ops SpscRingbuffer).1 = (run (queue_exec BufferSize) ops []).1.
Proof.
  intros Hops. apply (run_simulation op_ok repr); [apply exec_simulates|done|apply SpscRingbuffer_ok].
Qed.

End Spsc.

Arguments SpscRingbuffer {T} {_} k.

#[export] Instance config_64_2 : SpscConfig 64 2.
Proof. split; [lia|lia|vm_compute; congruence]. Qed.

#[export] Instance wide_64 : WideIndex 64.
Proof. unfold WideIndex. lia. Qed.

(** A mixed workload on a ring of four elements. *)
Definition demo_ops : list (op (T := Z)) :=
  [OpPush 1; OpPushBatch true [2; 3; 4; 5]; OpIsFull; OpPop; OpPop; OpPushBatch false [6; 7; 8];
   OpAt 1; OpPeek; OpPopBatch true 3; OpSize; OpDiscard 5; OpIsEmpty].

Lemma spsc_refines_bounded_queue_witness :
  (run (exec 64 2) demo_ops (SpscRingbuffer 2)).1 = (run (queue_exec (BufferSize 2)) demo_ops []).1.
Proof.
  apply (spsc_refines_bounded_queue 64 2).
  repeat constructor; vm_compute; intuition congruence.
Defined.

(** ** Narrow index types *)

(** Fill-and-drain 254 times, then four pushes: the ring of four elements is
    full with its indices on both sides of the 8-bit wrap-around. *)
Definition narrow_ops : list (op (T := Z)) :=
  concat (replicate 254 [OpPush 0; OpPop]) ++ [OpPush 1; OpPush 2; OpPush 3; OpPush 4].

(** With an 8-bit index type the fullness test of Push compares an
    [int] difference that has gone negative: from the constructor, a legal call
    sequence fills the ring (IsFull is true), and the next Push still returns
    true, overwrites the oldest element and leaves Size() above the capacity. *)
Lemma spsc_narrow_index_overflow :
  let s := (run (exec 8 2) narrow_ops (SpscRingbuffer 2)).2 in
  contents 8 2 s = [1; 2; 3; 4] /\ IsFull 8 2 s = true /\
  (Push 8 2 5 s).1 = true /\ Size 8 (Push 8 2 5 s).2 = 5 /\
  Pop 8 2 (Push 8 2 5 s).2 = (Some 5, (Pop 8 2 (Push 8 2 5 s).2).2).
Proof. vm_compute. auto. Qed.
