(* ===== verification/SpscConc.v ===== *)
(** * SpscRingbuffer under concurrency (include/osp/spsc_ringbuffer.hpp)

    One producer thread and one consumer thread, interleaved at the level of
    the single accesses their member functions perform: the load of the other
    side's index, each element copied into or out of the storage, and the store
    that publishes the own index.  The own index is only written by its owner,
    so reading it is not a separate step.  Accesses are sequentially
    consistent; the acquire/release pairs on the two indices order the element
    accesses this way because (spsc_race_free) the two threads never touch one
    slot at the same time. *)

From Stdlib Require Import ZArith Lia Bool.
From stdpp Require Import base numbers list option relations.
From S2P Require Import Prelude Spsc.

Open Scope Z_scope.

Section SpscConc.
Context {T : Type} `{Inhabited T}.
Context (w k : Z).

Abbreviation BufferSize := (BufferSize k).
Abbreviation kMask := (kMask w k).

(** The shared ring and the two threads' local state.  [p_tail] is the
    producer's copy of the tail index between its load and its publishing
    store, [p_written] the elements it has stored but not yet published;
    [c_head] and [c_read] are the consumer's.  [produced] and [taken] are
    history: the elements published so far, and for every position released by
    the consumer the element it received ([None] when it skipped it). *)
Record cstate := mkC {
  ring : spsc (T := T);
  p_tail : option Z;
  p_written : list T;
  c_head : option Z;
  c_read : list T;
  produced : list T;
  taken : list (option T)
}.

Inductive label :=
| PLoadTail                 (* tail_.load(acquire) *)
| PFull                     (* the fullness test fails: return false *)
| PWrite (x : T)            (* data_buff_[cur_head & kMask] = x in PushImpl / PushFromCallback *)
| PBatchWrite (x : T)       (* one element of PushBatch's copy *)
| PPublish                  (* head_.store(release) *)
| CLoadHead                 (* head_.load(acquire) *)
| CEmpty                    (* nothing available: return *)
| CRead                     (* one element of Pop / PopBatch *)
| CRelease                  (* tail_.store(release) *)
| CDiscard (n : Z)          (* Discard: release n elements unread *)
| CClear                    (* ConsumerClear *)
| PClear.                   (* ProducerClear *)

Definition set_head (s : spsc) (h : Z) : spsc := mkSpsc h (tail_ s) (data_buff_ (T := T) s).
Definition set_tail (s : spsc) (t : Z) : spsc := mkSpsc (head_ s) t (data_buff_ (T := T) s).
Definition set_slot (s : spsc) (i : Z) (x : T) : spsc :=
  mkSpsc (head_ s) (tail_ s) (aset (data_buff_ s) i x).

(** The slot the producer writes next and the one the consumer reads next. *)
Definition write_slot (c : cstate) : Z :=
  Z.land (Z.land (head_ (ring c)) kMask + Z.of_nat (length (p_written c))) kMask.
Definition read_slot (c : cstate) : Z :=
  Z.land (Z.land (tail_ (ring c)) kMask + Z.of_nat (length (c_read c))) kMask.

(** [cexec l c] performs the access [l], when the code is at that point. *)
Definition cexec (l : label) (c : cstate) : option cstate :=
  let s := ring c in
  match l with
  | PLoadTail =>
    match p_tail c with
    | Some _ => None
    | None => Some (mkC s (Some (tail_ s)) [] (c_head c) (c_read c) (produced c) (taken c))
    end
  | PFull =>
    match p_tail c, p_written c with
    | Some t, [] =>
      if (u64 (isub w (head_ s) t) =? BufferSize) || (wrap w (BufferSize - isub w (head_ s) t) =? 0)
      then Some (mkC s None [] (c_head c) (c_read c) (produced c) (taken c))
      else None
    | _, _ => None
    end
  | PWrite x =>
    match p_tail c, p_written c with
    | Some t, [] =>
      if u64 (isub w (head_ s) t) =? BufferSize then None
      else Some (mkC (set_slot s (Z.land (head_ s) kMask) x) (Some t) [x]
                     (c_head c) (c_read c) (produced c) (taken c))
    | _, _ => None
    end
  | PBatchWrite x =>
    match p_tail c with
    | Some t =>
      if Z.of_nat (length (p_written c)) <? wrap w (BufferSize - isub w (head_ s) t)
      then Some (mkC (set_slot s (write_slot c) x) (Some t) (p_written c ++ [x])
                     (c_head c) (c_read c) (produced c) (taken c))
      else None
    | None => None
    end
  | PPublish =>
    match p_tail c, p_written c with
    | Some _, _ :: _ =>
      Some (mkC (set_head s (wrap w (head_ s + wrap w (Z.of_nat (length (p_written c)))))) None []
                (c_head c) (c_read c) (produced c ++ p_written c) (taken c))
    | _, _ => None
    end
  | CLoadHead =>
    match c_head c with
    | Some _ => None
    | None => Some (mkC s (p_tail c) (p_written c) (Some (head_ s)) [] (produced c) (taken c))
    end
  | CEmpty =>
    match c_head c, c_read c with
    | Some h, [] =>
      if tail_ s =? h
      then Some (mkC s (p_tail c) (p_written c) None [] (produced c) (taken c)) else None
    | _, _ => None
    end
  | CRead =>
    match c_head c with
    | Some h =>
      if Z.of_nat (length (c_read c)) <? wrap w (isub w h (tail_ s))
      then Some (mkC s (p_tail c) (p_written c) (Some h)
                     (c_read c ++ [aget (data_buff_ s) (read_slot c)]) (produced c) (taken c))
      else None
    | None => None
    end
  | CRelease =>
    match c_head c, c_read c with
    | Some _, _ :: _ =>
      Some (mkC (set_tail s (wrap w (tail_ s + wrap w (Z.of_nat (length (c_read c))))))
                (p_tail c) (p_written c) None [] (produced c) (taken c ++ (Some <$> c_read c)))
    | _, _ => None
    end
  | CDiscard n =>
    match c_head c, c_read c with
    | Some h, [] =>
      let to_discard := Z.min n (wrap w (isub w h (tail_ s))) in
      if 0 <? to_discard
      then Some (mkC (set_tail s (wrap w (tail_ s + wrap w to_discard)))
                     (p_tail c) (p_written c) None [] (produced c)
                     (taken c ++ replicate (Z.to_nat to_discard) None))
      else Some (mkC s (p_tail c) (p_written c) None [] (produced c) (taken c))
    | _, _ => None
    end
  | CClear =>
    match c_head c, c_read c with
    | Some h, [] =>
      Some (mkC (set_tail s h) (p_tail c) (p_written c) None [] (produced c)
                (taken c ++ replicate (Z.to_nat (wrap w (h - tail_ s))) None))
    | _, _ => None
    end
  | PClear =>
    match p_tail c, p_written c with
    | Some t, [] => Some (mkC (set_head s t) None [] (c_head c) (c_read c) (produced c) (taken c))
    | _, _ => None
    end
  end.

Definition cinit : cstate := mkC (SpscRingbuffer k) None [] None [] [] [].

Fixpoint crun (ls : list label) (c : cstate) : option cstate :=
  match ls with
  | [] => Some c
  | l :: ls' => match cexec l c with Some c' => crun ls' c' | None => None end
  end.

(** One step of either thread; ProducerClear is kept apart (see
    spsc_producer_clear_race). *)
Inductive cstep : cstate -> cstate -> Prop :=
| cstep_intro l c c' : l <> PClear -> cexec l c = Some c' -> cstep c c'.

(** ** Invariant *)

Context `{Hcfg : !SpscConfig w k} `{Hwide : !WideIndex w}.

(** [Hp] and [Tp] are the absolute positions of the two indices. *)
Definition Hp (c : cstate) : Z := Z.of_nat (length (produced c)).
Definition Tp (c : cstate) : Z := Z.of_nat (length (taken c)).

(** What the slot of every live position holds: the published element, or the
    one the producer has stored for it. *)
Definition live (c : cstate) : list T := produced c ++ p_written c.

Record cinv (c : cstate) : Prop := {
  ci_head : head_ (ring c) = wrap w (Hp c);
  ci_tail : tail_ (ring c) = wrap w (Tp c);
  ci_order : Tp c <= Hp c;
  ci_buff : Z.of_nat (length (data_buff_ (ring c))) = BufferSize;
  ci_cap : Hp c + Z.of_nat (length (p_written c)) <= Tp c + BufferSize;
  ci_ptail : match p_tail c with
             | Some t => exists t0, t = wrap w t0 /\ t0 <= Tp c /\
                         Hp c + Z.of_nat (length (p_written c)) <= t0 + BufferSize
             | None => p_written c = []
             end;
  ci_chead : match c_head c with
             | Some h => exists h0, h = wrap w h0 /\ h0 <= Hp c /\
                         Tp c + Z.of_nat (length (c_read c)) <= h0
             | None => c_read c = []
             end;
  ci_data : forall p, Tp c <= p < Hp c + Z.of_nat (length (p_written c)) ->
            aget (data_buff_ (ring c)) (wrap k p) = aget (live c) p;
  ci_read : forall i, 0 <= i < Z.of_nat (length (c_read c)) ->
            aget (c_read c) i = aget (produced c) (Tp c + i);
  ci_taken : forall p x, taken c !! p = Some (Some x) -> produced c !! p = Some x
}.

Lemma wrap_diff a b : 0 <= a - b < 2 ^ w -> isub w (wrap w a) (wrap w b) = a - b.
Proof. intros. rewrite (isub_wide w), wrap_sub_wrap. by apply wrap_small. Qed.

Lemma slot_near a b : a <= b < a + BufferSize -> wrap k a = wrap k b -> a = b.
Proof. pose proof (idx_bounds w k). apply wrap_inj_near. lia. Qed.

Lemma live_pub c p : 0 <= p < Hp c -> aget (live c) p = aget (produced c) p.
Proof. intros. unfold live. rewrite aget_app by lia. unfold Hp in *. by case_bool; [|lia]. Qed.

Lemma write_slot_eq c : cinv c -> write_slot c = wrap k (Hp c + Z.of_nat (length (p_written c))).
Proof.
  intros Hc. unfold write_slot. by rewrite !(land_kMask w k), wrap_add_l, (ci_head c Hc), <- wrap_add_l, wrap_k_w, wrap_add_l.
Qed.

Lemma read_slot_eq c : cinv c -> read_slot c = wrap k (Tp c + Z.of_nat (length (c_read c))).
Proof.
  intros Hc. unfold read_slot. by rewrite !(land_kMask w k), wrap_add_l, (ci_tail c Hc), <- wrap_add_l, wrap_k_w, wrap_add_l.
Qed.

(** Room left for the producer, from its copy of the tail. *)
Lemma room_eq c t0 :
  cinv c -> t0 <= Tp c -> Hp c <= t0 + BufferSize ->
  isub w (head_ (ring c)) (wrap w t0) = Hp c - t0.
Proof.
  intros Hc H1 H2. rewrite (ci_head c Hc). pose proof (idx_bounds w k). pose proof (ci_order c Hc).
  apply wrap_diff. lia.
Qed.

(** Elements available to the consumer, from its copy of the head. *)
Lemma avail_eq c h0 :
  cinv c -> h0 <= Hp c -> Tp c <= h0 -> isub w (wrap w h0) (tail_ (ring c)) = h0 - Tp c.
Proof.
  intros Hc H1 H2. rewrite (ci_tail c Hc). pose proof (idx_bounds w k). pose proof (ci_cap c Hc).
  apply wrap_diff. lia.
Qed.

Lemma u64_small z : 0 <= z <= BufferSize -> u64 z = z.
Proof.
  intros. pose proof (idx_bounds w k). apply wrap_small. split; [lia|].
  apply Z.lt_le_trans with (2 ^ w); [lia|]. apply Z.pow_le_mono_r; lia.
Qed.

(** The producer stores one more unpublished element. *)
Lemma producer_write_inv c t x :
  cinv c -> p_tail c = Some t ->
  (exists t0, t = wrap w t0 /\ t0 <= Tp c /\ Hp c + Z.of_nat (length (p_written c)) < t0 + BufferSize) ->
  cinv (mkC (set_slot (ring c) (wrap k (Hp c + Z.of_nat (length (p_written c)))) x) (Some t)
          (p_written c ++ [x]) (c_head c) (c_read c) (produced c) (taken c)).
Proof.
  intros Hc Ht (t0 & -> & Ht0 & Hroom). pose proof (ci_order c Hc) as Hord. pose proof (idx_bounds w k) as (? & ? & ? & _).
  pose proof (ci_buff c Hc) as Hb.
  destruct Hc; split; unfold Hp, Tp in *; simpl; rewrite ?length_app, ?length_aset; simpl; try done; try lia.
  - exists t0. split_and!; [done|lia|lia].
  - intros p Hp'. pose proof (wrap_k_range w k (Z.of_nat (length (produced c)) + Z.of_nat (length (p_written c)))).
    pose proof (wrap_k_range w k p).
    destruct (Z.eq_dec p (Z.of_nat (length (produced c)) + Z.of_nat (length (p_written c)))) as [->|Hne].
    + rewrite aget_aset_eq by lia. unfold live. simpl. rewrite app_assoc, aget_app_mid; [done|].
      rewrite length_app. lia.
    + rewrite aget_aset_ne; [|lia..|].
      * rewrite ci_data0 by lia. unfold live. simpl. rewrite app_assoc. symmetry. apply aget_app_l.
        rewrite length_app. lia.
      * intros He. symmetry in He. apply slot_near in He; lia.
Qed.

Lemma producer_publish_inv c :
  cinv c -> p_tail c <> None ->
  cinv (mkC (set_head (ring c) (wrap w (Hp c + Z.of_nat (length (p_written c))))) None []
          (c_head c) (c_read c) (produced c ++ p_written c) (taken c)).
Proof.
  intros Hc Ht. pose proof (ci_order c Hc).
  destruct Hc; split; unfold Hp, Tp in *; simpl; rewrite ?length_app, ?Nat2Z.inj_add; simpl; try done; try lia.
  - destruct (c_head c) as [h|]; [|done]. destruct ci_chead0 as (h0 & -> & ? & ?). exists h0. lia.
  - intros p Hp'. rewrite ci_data0 by lia. unfold live. simpl. by rewrite app_nil_r.
  - intros i Hi. rewrite ci_read0, aget_app by lia. case_bool; [done|].
    destruct (c_head c); [destruct ci_chead0 as (? & _ & ? & ?); lia|by rewrite ci_chead0 in Hi; simpl in Hi; lia].
  - intros p x Hx. by apply lookup_app_l_Some, ci_taken0.
Qed.

(** The consumer releases [length xs] positions, having received [xs]. *)
Lemma consumer_release_inv c xs :
  cinv c -> Tp c + Z.of_nat (length xs) <= Hp c ->
  (forall i x, xs !! i = Some (Some x) -> produced c !! (length (taken c) + i)%nat = Some x) ->
  cinv (mkC (set_tail (ring c) (wrap w (Tp c + Z.of_nat (length xs)))) (p_tail c) (p_written c)
          None [] (produced c) (taken c ++ xs)).
Proof.
  intros Hc Hle Hxs.
  destruct Hc; split; unfold Hp, Tp in *; simpl; rewrite ?length_app, ?Nat2Z.inj_add; try done; try lia.
  - destruct (p_tail c) as [t|]; [|done]. destruct ci_ptail0 as (t0 & -> & ? & ?). exists t0. lia.
  - intros p Hp'. rewrite ci_data0 by lia. done.
  - intros p x. rewrite lookup_app_Some. intros [?|[? Hx]]; [by apply ci_taken0|].
    apply Hxs in Hx. by replace (length (taken c) + (p - length (taken c)))%nat with p in Hx by lia.
Qed.

Lemma consumer_read_inv c h :
  cinv c -> c_head c = Some h ->
  (exists h0, h = wrap w h0 /\ h0 <= Hp c /\ Tp c + Z.of_nat (length (c_read c)) < h0) ->
  cinv (mkC (ring c) (p_tail c) (p_written c) (Some h)
          (c_read c ++ [aget (data_buff_ (ring c)) (read_slot c)]) (produced c) (taken c)).
Proof.
  intros Hc Hh (h0 & -> & Hh0 & Hr). rewrite read_slot_eq by done. pose proof (ci_order c Hc).
  assert (Hrd : forall i, 0 <= i < Z.of_nat (length (c_read c)) + 1 ->
    aget (c_read c ++ [aget (data_buff_ (ring c)) (wrap k (Tp c + Z.of_nat (length (c_read c))))]) i =
    aget (produced c) (Tp c + i)).
  { intros i Hi. destruct (Z.eq_dec i (Z.of_nat (length (c_read c)))) as [->|].
    - rewrite aget_app_mid, (ci_data c Hc) by (unfold Tp in *; lia). apply live_pub. unfold Tp in *. lia.
    - rewrite aget_app_l by lia. apply (ci_read c Hc). lia. }
  destruct Hc; split; unfold Hp, Tp in *; simpl; rewrite ?length_app, ?Nat2Z.inj_add; try done; try lia.
  exists h0. simpl. lia.
Qed.

Lemma cread_taken c i x :
  cinv c -> (Some <$> c_read c) !! i = Some (Some x) -> produced c !! (length (taken c) + i)%nat = Some x.
Proof.
  intros Hc Hx. apply list_lookup_fmap_Some in Hx as (y & [= <-] & Hy).
  pose proof (lookup_lt_Some _ _ _ Hy) as Hlt.
  pose proof (ci_read c Hc (Z.of_nat i) ltac:(lia)) as Hr. unfold aget at 1 in Hr.
  rewrite Nat2Z.id, (list_lookup_total_correct _ _ _ Hy) in Hr. rewrite Hr. unfold aget, Tp.
  replace (Z.to_nat (_ + _)) with (length (taken c) + i)%nat by lia.
  apply list_lookup_lookup_total_lt.
  pose proof (ci_chead c Hc) as Hch. destruct (c_head c).
  - destruct Hch as (? & _ & ? & ?). unfold Hp, Tp in *. lia.
  - rewrite Hch in Hlt. simpl in Hlt. lia.
Qed.

Lemma replicate_None_taken (c : cstate) n i x :
  replicate n None !! i = Some (Some x) -> produced c !! (length (taken c) + i)%nat = Some x.
Proof. intros [? ?]%lookup_replicate. done. Qed.

Lemma cinv_init : cinv cinit.
Proof.
  pose proof (idx_bounds w k). split; unfold cinit, Hp, Tp; simpl; rewrite ?wrap_0, ?length_replicate;
    unfold Spsc.BufferSize in *; done || lia.
Qed.

(** Discarding and clearing release positions the head copy covers. *)
Lemma consumer_skip_inv c h n :
  cinv c -> c_head c = Some h -> c_read c = [] -> 0 <= n <= wrap w (isub w h (tail_ (ring c))) ->
  cinv (mkC (set_tail (ring c) (wrap w (tail_ (ring c) + n))) (p_tail c) (p_written c) None []
          (produced c) (taken c ++ replicate (Z.to_nat n) None)).
Proof.
  intros Hc Hh Hr Hn. pose proof (ci_chead c Hc) as Hch. rewrite Hh, Hr in Hch.
  destruct Hch as (h0 & -> & Hh0 & Ht0). simpl in Ht0. pose proof (idx_bounds w k).
  rewrite avail_eq in Hn by (done || lia). pose proof (ci_cap c Hc).
  rewrite wrap_small in Hn by (red; lia).
  rewrite (ci_tail c Hc), wrap_add_l.
  pose proof (consumer_release_inv c (replicate (Z.to_nat n) None) Hc) as Hrel.
  rewrite length_replicate, Z2Nat.id in Hrel by lia. apply Hrel; [lia|].
  intros i x. apply replicate_None_taken.
Qed.

(** Loads and failed tests change only the thread's own copies. *)
Lemma producer_local_inv c pt :
  cinv c -> p_written c = [] ->
  match pt with
  | Some t => exists t0, t = wrap w t0 /\ t0 <= Tp c /\ Hp c <= t0 + BufferSize
  | None => True
  end ->
  cinv (mkC (ring c) pt [] (c_head c) (c_read c) (produced c) (taken c)).
Proof.
  intros Hc Hw Hpt. destruct Hc. unfold live in *. rewrite Hw in *. simpl in *. split; try done; simpl.
  destruct pt; [|done]. destruct Hpt as (t0 & ? & ? & ?). exists t0. unfold Hp, Tp in *. simpl. lia.
Qed.

Lemma consumer_local_inv c ch :
  cinv c ->
  match ch with
  | Some h => exists h0, h = wrap w h0 /\ Tp c <= h0 <= Hp c
  | None => True
  end ->
  cinv (mkC (ring c) (p_tail c) (p_written c) ch [] (produced c) (taken c)).
Proof.
  intros Hc Hch. destruct Hc. split; try done; simpl.
  - destruct ch; [|done]. destruct Hch as (h0 & ? & ?). exists h0. unfold Hp, Tp in *. simpl. lia.
  - intros i Hi. lia.
Qed.

Definition producer_label (l : label) : bool :=
  match l with PLoadTail | PFull | PWrite _ | PBatchWrite _ | PPublish => true | _ => false end.

Lemma producer_step_inv l c c' : producer_label l = true -> cexec l c = Some c' -> cinv c -> cinv c'.
Proof.
  intros Hl Hx Hc. pose proof (idx_bounds w k) as (? & ? & HB & HBw & _).
  pose proof (ci_ptail c Hc) as Hpt. pose proof (ci_order c Hc). pose proof (ci_cap c Hc).
  destruct l; try done; simpl in Hx; destruct (p_tail c) as [t|] eqn:Ht; try done.
  - simplify_eq. apply producer_local_inv; [done..|]. exists (Tp c). rewrite (ci_tail c Hc). split_and!; [done|lia|lia].
  - destruct (p_written c) eqn:Hw; [|done]. destruct (_ || _); simplify_eq. by apply producer_local_inv.
  - destruct (p_written c) eqn:Hw; [|done].
    destruct Hpt as (t0 & -> & Ht0 & Hroom). simpl in Hroom.
    rewrite room_eq, u64_small in Hx by (done || lia).
    destruct (Z.eqb_spec (Hp c - t0) BufferSize); simplify_eq.
    pose proof (producer_write_inv c (wrap w t0) x Hc Ht) as Hpw. rewrite Hw in Hpw. simpl in Hpw.
    rewrite Z.add_0_r in Hpw. rewrite (land_kMask w k), (ci_head c Hc), (wrap_k_w w k). apply Hpw.
    exists t0. split_and!; [done|lia|lia].
  - destruct Hpt as (t0 & -> & Ht0 & Hroom).
    rewrite room_eq, wrap_small in Hx by (done || lia || (red; lia)).
    destruct (Z.ltb_spec (Z.of_nat (length (p_written c))) (BufferSize - (Hp c - t0))); simplify_eq.
    rewrite write_slot_eq by done. apply producer_write_inv; [done..|]. exists t0. split_and!; [done|lia|lia].
  - destruct (p_written c) eqn:Hw; [done|].
    rewrite <- Hw in Hx. simplify_eq. rewrite wrap_add_r, (ci_head c Hc), wrap_add_l.
    apply producer_publish_inv; [done|]. by rewrite Ht.
Qed.

Lemma consumer_step_inv l c c' :
  producer_label l = false -> l <> PClear -> cexec l c = Some c' -> cinv c -> cinv c'.
Proof.
  intros Hl Hnc Hx Hc. pose proof (idx_bounds w k) as (? & ? & HB & HBw & _).
  pose proof (ci_chead c Hc) as Hch. pose proof (ci_order c Hc). pose proof (ci_cap c Hc).
  destruct l; try done; simpl in Hx; destruct (c_head c) as [h|] eqn:Hh; try done.
  - simplify_eq. apply consumer_local_inv; [done..|]. exists (Hp c). rewrite (ci_head c Hc). split; [done|lia].
  - destruct (c_read c); [|done]. destruct (_ =? _); simplify_eq. by apply consumer_local_inv.
  - destruct Hch as (h0 & -> & Hh0 & Hr).
    rewrite avail_eq, wrap_small in Hx by (done || lia || (red; lia)).
    destruct (Z.ltb_spec (Z.of_nat (length (c_read c))) (h0 - Tp c)); simplify_eq.
    apply consumer_read_inv; [done..|]. exists h0. split_and!; [done|lia|lia].
  - destruct (c_read c) eqn:Hr; [done|]. rewrite <- Hr in Hx, Hch.
    simplify_eq. rewrite wrap_add_r, (ci_tail c Hc), wrap_add_l. destruct Hch as (h0 & -> & Hh0 & Hrd).
    pose proof (consumer_release_inv c (Some <$> c_read c) Hc) as Hrel. rewrite length_fmap in Hrel.
    apply Hrel; [lia|]. intros i x. by apply cread_taken.
  - destruct (c_read c) eqn:Hr; [|done].
    destruct (Z.ltb_spec 0 (Z.min n (wrap w (isub w h (tail_ (ring c)))))); simplify_eq.
    + rewrite wrap_add_r. apply (consumer_skip_inv c h); [done..|lia].
    + by apply consumer_local_inv.
  - destruct (c_read c) eqn:Hr; [|done]. simplify_eq.
    assert (Hr' : 0 <= wrap w (h - tail_ (ring c)) <= wrap w (isub w h (tail_ (ring c)))).
    { rewrite (isub_wide w), wrap_wrap. split; [|lia]. apply wrap_range. lia. }
    pose proof (consumer_skip_inv c h _ Hc Hh Hr Hr') as Hs.
    destruct Hch as (h0 & -> & _). rewrite wrap_add_r in Hs.
    replace (tail_ (ring c) + (wrap w h0 - tail_ (ring c))) with (wrap w h0) in Hs by lia.
    by rewrite wrap_wrap in Hs.
Qed.

Lemma cstep_inv c c' : cstep c c' -> cinv c -> cinv c'.
Proof.
  intros [l c0 c1 Hl Hx] Hc. destruct (producer_label l) eqn:Hp.
  - by apply (producer_step_inv l c0).
  - by apply (consumer_step_inv l c0).
Qed.

Lemma reachable_inv c : rtc cstep cinit c -> cinv c.
Proof.
  apply rtc_invariant; [apply cinv_init|apply cstep_inv].
Qed.

(** C5.  Whatever the interleaving of one producer and one consumer, and
    however often the indices wrap, the consumer receives exactly what was
    produced, in order: the element received for the [p]-th released position
    is the [p]-th element published, and between BufferSize and zero published
    elements are waiting.  The index type has at least 32 bits.  The calls are those
    of Push, Pop and the batches, discarding and the consumer's clear; ProducerClear,
    which moves the consumer's index from the producer's thread, is not among them:
    it does race ([spsc_producer_clear_race]). *)
Theorem spsc_concurrent_fifo c :
  rtc cstep cinit c ->
  (forall p x, taken c !! p = Some (Some x) -> produced c !! p = Some x) /\
  Z.of_nat (length (taken c)) <= Z.of_nat (length (produced c)) <=
    Z.of_nat (length (taken c)) + BufferSize.
Proof.
  intros Hr. destruct (reachable_inv c Hr). split; [done|]. unfold Hp, Tp in *. lia.
Qed.

(** The two threads never access one slot at the same time: in every
    reachable state in which the producer may store an element and the consumer
    may read one, the two slots differ. *)
Lemma spsc_race_free c x cp cc :
  rtc cstep cinit c ->
  cexec (PBatchWrite x) c = Some cp -> cexec CRead c = Some cc ->
  write_slot c <> read_slot c.
Proof.
  intros Hr Hp' Hc'. pose proof (reachable_inv c Hr) as Hc. pose proof (idx_bounds w k) as (? & ? & HB & HBw & _).
  pose proof (ci_ptail c Hc) as Hpt. pose proof (ci_chead c Hc) as Hch.
  pose proof (ci_order c Hc). pose proof (ci_cap c Hc).
  simpl in Hp', Hc'. destruct (p_tail c) as [t|] eqn:Ht; [|done]. destruct (c_head c) as [h|]; [|done].
  destruct Hpt as (t0 & -> & Ht0 & Hroom). destruct Hch as (h0 & -> & Hh0 & Hrd).
  rewrite room_eq, wrap_small in Hp' by (done || lia || (red; lia)).
  rewrite avail_eq, wrap_small in Hc' by (done || lia || (red; lia)).
  destruct (Z.ltb_spec (Z.of_nat (length (p_written c))) (BufferSize - (Hp c - t0))); [|done].
  destruct (Z.ltb_spec (Z.of_nat (length (c_read c))) (h0 - Tp c)); [|done].
  rewrite write_slot_eq, read_slot_eq by done. intros He. symmetry in He. apply slot_near in He; lia.
Qed.

End SpscConc.

(** ** A concrete interleaving, and ProducerClear against a running Pop *)

Abbreviation init2 := (cinit (T := Z) 2).

Definition demo_trace : list (label (T := Z)) :=
  [PLoadTail; PBatchWrite 10; PBatchWrite 11; PBatchWrite 12; PPublish; CLoadHead; PLoadTail; CRead;
   PWrite 13; CRead; CRelease; CLoadHead; CRead].

Lemma crun_reachable {T : Type} `{Inhabited T} w k ls c c' :
  forallb (fun l => match l with PClear => false | _ => true end) ls = true ->
  crun (T := T) w k ls c = Some c' -> rtc (cstep w k) c c'.
Proof.
  revert c. induction ls as [|l ls IH]; intros c Hls Hr; simpl in *; [by simplify_eq|].
  apply andb_true_iff in Hls as [Hl Hls]. destruct (cexec w k l c) as [c1|] eqn:Hx; [|done].
  apply rtc_l with c1; [|by apply IH]. apply cstep_intro with l; [|done]. by intros ->.
Qed.

Definition demo_state : cstate (T := Z) := default init2 (crun 64 2 demo_trace init2).

Lemma demo_reachable : rtc (cstep 64 2) init2 demo_state.
Proof. apply (crun_reachable 64 2 demo_trace); vm_compute; reflexivity. Qed.

Lemma spsc_concurrent_fifo_witness :
  taken demo_state = [Some 10; Some 11] /\ produced demo_state !! 1%nat = Some 11.
Proof.
  split; [vm_compute; reflexivity|].
  apply (proj1 (spsc_concurrent_fifo 64 2 demo_state demo_reachable) 1%nat 11). vm_compute. reflexivity.
Defined.

(** The demo run up to the point where both threads are inside their copies. *)
Definition race_state : cstate (T := Z) := default init2 (crun 64 2 (take 7 demo_trace) init2).

Lemma race_reachable : rtc (cstep 64 2) init2 race_state.
Proof. apply (crun_reachable 64 2 (take 7 demo_trace)); vm_compute; reflexivity. Qed.

Lemma spsc_race_free_witness : write_slot 64 2 race_state <> read_slot 64 2 race_state.
Proof.
  apply (spsc_race_free 64 2 race_state 13
           (default init2 (cexec 64 2 (PBatchWrite 13) race_state))
           (default init2 (cexec 64 2 CRead race_state)) race_reachable);
    vm_compute; reflexivity.
Defined.

(**  ProducerClear is not safe against a consumer that is inside Pop: a
    clear between the consumer's load of the head and its store of the tail
    leaves the tail ahead of the head, after which the empty ring reports a size
    of 2^64 - 1 and a Pop hands out a stale element. *)
Lemma spsc_producer_clear_race :
  exists c : cstate (T := Z),
    crun 64 2 [PLoadTail; PWrite 1; PPublish; CLoadHead; CRead; PLoadTail; PClear; CRelease] init2 = Some c /\
    (* The element was released and the ring cleared, yet: *)
    Size 64 (ring c) = 2 ^ 64 - 1 /\ is_Some (fst (Pop 64 2 (ring c))).
Proof. eexists. split; [vm_compute; reflexivity|]. split; [reflexivity|by eexists]. Qed.
