(* ===== verification/Breaker.v ===== *)
(** * Breaker (include/osp/breaker.hpp)

    The per-component circuit breaker: a five-level state machine packed in one
    32-bit word and advanced by compare-and-swap.  The file has the packing, the
    transition of every event, the queries, the CAS loop with any number of
    threads, and what the levels guarantee. *)

From Stdlib Require Import ZArith Lia Bool.
From stdpp Require Import base numbers list option relations.
From S2P Require Import Prelude.

Open Scope Z_scope.

(** [LevelOther v] stands for the values 5..7 of the three-bit field, which
    have no enumerator; the switches' [default] branches take them. *)
Inductive BreakerLevel :=
| Normal | BrokenL1 | BrokenL2 | Safe | Recovering
| LevelOther (v : Z).

#[export] Instance BreakerLevel_eq_dec : EqDecision BreakerLevel.
Proof. solve_decision. Defined.

Definition level_to_Z (l : BreakerLevel) : Z :=
  match l with
  | Normal => 0 | BrokenL1 => 1 | BrokenL2 => 2 | Safe => 3 | Recovering => 4 | LevelOther v => v
  end.

Definition level_of_Z (v : Z) : BreakerLevel :=
  if v =? 0 then Normal else if v =? 1 then BrokenL1 else if v =? 2 then BrokenL2
  else if v =? 3 then Safe else if v =? 4 then Recovering else LevelOther v.

Definition kDirectTimeoutThreshold : Z := 3.
Definition kRtcTimeoutThreshold : Z := 3.
Definition kWatermarkViolationPct : Z := 80.
Definition kLowWatermarkPct : Z := 50.
Definition kHighWatermarkPersist : Z := 3.
Definition kLowWatermarkPersist : Z := 3.
Definition kHealthyWindowsRequired : Z := 3.

Record State := mkState {
  level : BreakerLevel;
  cooldown_remaining : Z;
  direct_timeout_consec : Z;
  rtc_timeout_consec : Z;
  high_watermark_consec : Z;
  low_watermark_consec : Z;
  healthy_window_count : Z;
  probe_success : bool
}.

Definition kLevelShift : Z := 0.
Definition kCooldownShift : Z := 3.
Definition kDirectTimeoutShift : Z := 19.
Definition kRtcTimeoutShift : Z := 21.
Definition kHighWatermarkShift : Z := 23.
Definition kLowWatermarkShift : Z := 25.
Definition kHealthyWindowShift : Z := 27.
Definition kProbeSuccessShift : Z := 29.
Definition kLevelMask : Z := 7.
Definition kCooldownMask : Z := 65535.
Definition kCounterMask : Z := 3.

Definition Pack (s : State) : Z :=
  let f v sh := u32 (Z.shiftl (u32 v) sh) in
  Z.lor (Z.lor (Z.lor (Z.lor (Z.lor (Z.lor (Z.lor
    (f (level_to_Z (level s)) kLevelShift)
    (f (cooldown_remaining s) kCooldownShift))
    (f (direct_timeout_consec s) kDirectTimeoutShift))
    (f (rtc_timeout_consec s) kRtcTimeoutShift))
    (f (high_watermark_consec s) kHighWatermarkShift))
    (f (low_watermark_consec s) kLowWatermarkShift))
    (f (healthy_window_count s) kHealthyWindowShift))
    (f (Z.b2z (probe_success s)) kProbeSuccessShift).

Definition Unpack (packed : Z) : State :=
  let f sh mask := Z.land (Z.shiftr packed sh) mask in
  mkState (level_of_Z (f kLevelShift kLevelMask))
    (u16 (f kCooldownShift kCooldownMask))
    (u8 (f kDirectTimeoutShift kCounterMask))
    (u8 (f kRtcTimeoutShift kCounterMask))
    (u8 (f kHighWatermarkShift kCounterMask))
    (u8 (f kLowWatermarkShift kCounterMask))
    (u8 (f kHealthyWindowShift kCounterMask))
    (negb (0 =? f kProbeSuccessShift 1)).

Definition Increment (counter : Z) : Z := if counter <? kCounterMask then counter + 1 else counter.

Definition set_level (l : BreakerLevel) (s : State) : State :=
  mkState l (cooldown_remaining s) (direct_timeout_consec s) (rtc_timeout_consec s)
    (high_watermark_consec s) (low_watermark_consec s) (healthy_window_count s) (probe_success s).
Definition set_cooldown (c : Z) (s : State) : State :=
  mkState (level s) c (direct_timeout_consec s) (rtc_timeout_consec s)
    (high_watermark_consec s) (low_watermark_consec s) (healthy_window_count s) (probe_success s).
Definition set_timeouts (d r : Z) (s : State) : State :=
  mkState (level s) (cooldown_remaining s) d r
    (high_watermark_consec s) (low_watermark_consec s) (healthy_window_count s) (probe_success s).
Definition set_watermarks (h l : Z) (s : State) : State :=
  mkState (level s) (cooldown_remaining s) (direct_timeout_consec s) (rtc_timeout_consec s)
    h l (healthy_window_count s) (probe_success s).
Definition set_probe (n : Z) (p : bool) (s : State) : State :=
  mkState (level s) (cooldown_remaining s) (direct_timeout_consec s) (rtc_timeout_consec s)
    (high_watermark_consec s) (low_watermark_consec s) n p.

Definition ResetMetrics (s : State) : State :=
  set_probe 0 false (set_watermarks 0 0 (set_timeouts 0 0 s)).

Section Breaker.
(** The template parameter. *)
Context (CooldownCycles : Z).

Definition EnterL1 (s : State) : State :=
  ResetMetrics (set_cooldown CooldownCycles (set_level BrokenL1 s)).
Definition EnterL2 (s : State) : State :=
  ResetMetrics (set_cooldown CooldownCycles (set_level BrokenL2 s)).
Definition EnterSafe (s : State) : State :=
  ResetMetrics (set_cooldown CooldownCycles (set_level Safe s)).
Definition EnterRecovering (s : State) : State := ResetMetrics (set_level Recovering s).

(** The state transition each event passes to Update. *)
Definition direct_timeout_fn (s0 : State) : State :=
  let s := set_timeouts (Increment (direct_timeout_consec s0)) (rtc_timeout_consec s0) s0 in
  match level s with
  | Normal => if kDirectTimeoutThreshold <=? direct_timeout_consec s then EnterL1 s else s
  | BrokenL1 | BrokenL2 | Safe => s
  | Recovering => EnterL2 s
  | LevelOther _ => s
  end.

Definition rtc_timeout_fn (s0 : State) : State :=
  let s := set_timeouts (direct_timeout_consec s0) (Increment (rtc_timeout_consec s0)) s0 in
  match level s with
  | Normal | BrokenL1 => if kRtcTimeoutThreshold <=? rtc_timeout_consec s then EnterL2 s else s
  | BrokenL2 | Safe => s
  | Recovering => EnterL2 s
  | LevelOther _ => s
  end.

Definition watermark_fn (percent : Z) (s0 : State) : State :=
  let s :=
    if kWatermarkViolationPct <? percent
    then set_watermarks (Increment (high_watermark_consec s0)) 0 s0
    else if percent <? kLowWatermarkPct
    then set_watermarks 0 (Increment (low_watermark_consec s0)) s0
    else set_watermarks 0 0 s0 in
  match level s with
  | Normal => if kHighWatermarkPersist <=? high_watermark_consec s then EnterL2 s else s
  | BrokenL1 =>
    if kHighWatermarkPersist <=? high_watermark_consec s then EnterL2 s
    else if (0 =? cooldown_remaining s) && (kLowWatermarkPersist <=? low_watermark_consec s)
    then EnterRecovering s else s
  | BrokenL2 =>
    if (0 =? cooldown_remaining s) && (kLowWatermarkPersist <=? low_watermark_consec s)
    then EnterRecovering s else s
  | Safe => s
  | Recovering => if kLowWatermarkPct <=? percent then EnterL2 s else s
  | LevelOther _ => s
  end.

Definition overflow_fn (s : State) : State :=
  match level s with
  | Normal | BrokenL1 | Recovering => EnterL2 s
  | BrokenL2 | Safe => s
  | LevelOther _ => s
  end.

Definition key_reserve_exhausted_fn (s : State) : State :=
  if decide (Safe = level s) then s else EnterSafe s.

Definition dispatch_cycle_fn (s0 : State) : State :=
  let s := if 0 <? cooldown_remaining s0 then set_cooldown (cooldown_remaining s0 - 1) s0 else s0 in
  if bool_decide (Recovering = level s) && (0 =? cooldown_remaining s) && probe_success s then
    let s := set_probe (Increment (healthy_window_count s)) false s in
    if kHealthyWindowsRequired <=? healthy_window_count s
    then set_probe 0 (probe_success s) (set_level Normal s) else s
  else s.

Definition probe_success_fn (s : State) : State :=
  if decide (Recovering = level s) then set_probe (healthy_window_count s) true s else s.

Definition probe_failure_fn (s : State) : State :=
  if decide (Recovering = level s) then EnterL2 s else s.

Definition external_safe_restore_fn (s : State) : State :=
  if decide (Safe = level s) then EnterRecovering s else s.

Definition rtc_ok_fn (s : State) : State := set_timeouts 0 0 s.

(** The public event inputs. *)
Inductive event :=
| OnDirectTimeout
| OnRtcTimeout
| OnWatermarkViolation
| OnWatermark (percent : Z)
| OnOverflow
| OnKeyReserveExhausted
| OnWatchdog
| OnDispatchCycle
| OnProbeSuccess
| OnProbeFailure
| OnExternalSafeRestore
| OnRtcOk.

#[global] Instance event_eq_dec : EqDecision event.
Proof. solve_decision. Defined.

Definition transition (e : event) : State -> State :=
  match e with
  | OnDirectTimeout => direct_timeout_fn
  | OnRtcTimeout => rtc_timeout_fn
  | OnWatermarkViolation => watermark_fn (u8 (kWatermarkViolationPct + 1))
  | OnWatermark percent => watermark_fn percent
  | OnOverflow => overflow_fn
  | OnKeyReserveExhausted => key_reserve_exhausted_fn
  | OnWatchdog => key_reserve_exhausted_fn
  | OnDispatchCycle => dispatch_cycle_fn
  | OnProbeSuccess => probe_success_fn
  | OnProbeFailure => probe_failure_fn
  | OnExternalSafeRestore => external_safe_restore_fn
  | OnRtcOk => rtc_ok_fn
  end.

(** The packed word an uncontended Update leaves. *)
Definition apply_event (e : event) (packed : Z) : Z := Pack (transition e (Unpack packed)).

Definition Breaker_init : Z := Pack (mkState Normal 0 0 0 0 0 0 false).

(** The queries. *)
Definition Level (packed : Z) : BreakerLevel := level (Unpack packed).
Definition DirectAllowed (packed : Z) : bool := bool_decide (Normal = Level packed).
Definition HealthyWindowPassed (packed : Z) : bool :=
  let s := Unpack packed in
  if decide (Normal = level s) then true
  else if decide (Recovering = level s) then kHealthyWindowsRequired <=? healthy_window_count s
  else false.
Definition DropNonCritical (packed : Z) : bool :=
  let current := Level packed in bool_decide (BrokenL2 = current) || bool_decide (Safe = current).
Definition SafeEventsOnly (packed : Z) : bool := bool_decide (Safe = Level packed).

(** ** Invariant *)

(** The static_assert on the template parameter. *)
Context (HCC : 0 <= CooldownCycles <= 65535).

Definition counter_ok (c : Z) : Prop := 0 <= c <= kCounterMask.

Record wf_fields (s : State) : Prop := {
  wf_cooldown : 0 <= cooldown_remaining s <= CooldownCycles;
  wf_direct : counter_ok (direct_timeout_consec s);
  wf_rtc : counter_ok (rtc_timeout_consec s);
  wf_high : counter_ok (high_watermark_consec s);
  wf_low : counter_ok (low_watermark_consec s);
  wf_healthy : counter_ok (healthy_window_count s)
}.

(** What each level adds: thresholds that would have caused a transition are
    not reached, and recovery progress exists only while Recovering. *)
Definition level_inv (s : State) : Prop :=
  match level s with
  | Normal =>
    direct_timeout_consec s < kDirectTimeoutThreshold /\ rtc_timeout_consec s < kRtcTimeoutThreshold /\
    high_watermark_consec s < kHighWatermarkPersist /\ healthy_window_count s = 0 /\ probe_success s = false
  | BrokenL1 =>
    rtc_timeout_consec s < kRtcTimeoutThreshold /\ high_watermark_consec s < kHighWatermarkPersist /\
    healthy_window_count s = 0 /\ probe_success s = false
  | BrokenL2 | Safe => healthy_window_count s = 0 /\ probe_success s = false
  | Recovering =>
    direct_timeout_consec s = 0 /\ rtc_timeout_consec s = 0 /\ high_watermark_consec s = 0 /\
    healthy_window_count s < kHealthyWindowsRequired
  | LevelOther _ => False
  end.

Definition binv (s : State) : Prop := wf_fields s /\ level_inv s.

Ltac unfold_consts :=
  unfold counter_ok, kDirectTimeoutThreshold, kRtcTimeoutThreshold, kWatermarkViolationPct,
    kLowWatermarkPct, kHighWatermarkPersist, kLowWatermarkPersist, kHealthyWindowsRequired,
    kCounterMask in *.

(** Closes an invariant goal on an explicit state. *)
Ltac solve_binv :=
  split; [split|unfold level_inv]; unfold_consts; simpl in *; split_and?; first [done|lia|tauto].

Lemma EnterL1_inv s : binv (EnterL1 s).
Proof. solve_binv. Qed.

Lemma EnterL2_inv s : binv (EnterL2 s).
Proof. solve_binv. Qed.

Lemma EnterSafe_inv s : binv (EnterSafe s).
Proof. solve_binv. Qed.

Lemma EnterRecovering_inv s :
  0 <= cooldown_remaining s <= CooldownCycles -> binv (EnterRecovering s).
Proof. intros. solve_binv. Qed.

Create HintDb breaker.
#[local] Hint Resolve EnterL1_inv EnterL2_inv EnterSafe_inv EnterRecovering_inv : breaker.

Lemma Increment_ok c : counter_ok c -> counter_ok (Increment c).
Proof. unfold Increment. unfold_consts. case_bool; lia. Qed.

Lemma Increment_eq c : counter_ok c -> Increment c = Z.min 3 (c + 1).
Proof. unfold Increment. unfold_consts. case_bool; lia. Qed.

Lemma transition_inv e s : binv s -> binv (transition e s).
Proof.
  intros Hi. pose proof Hi as [[Hcd Hd Hr Hh Hlo Hw] Hl].
  destruct s as [l cd d r h lo hw pr]. unfold level_inv in Hl. simpl in *.
  destruct e; simpl; unfold direct_timeout_fn, rtc_timeout_fn, watermark_fn, overflow_fn,
    key_reserve_exhausted_fn, dispatch_cycle_fn, probe_success_fn, probe_failure_fn,
    external_safe_restore_fn, rtc_ok_fn, set_timeouts, set_watermarks; simpl;
    rewrite ?Increment_eq by done; destruct l; simpl; try done;
    repeat (case_decide || case_bool); simpl; auto with breaker; unfold_consts; try solve_binv.
  all: simpl in *; rewrite Increment_eq in * by done; solve_binv.
Qed.

(** ** The packed word *)

Definition level_named (l : BreakerLevel) : Prop :=
  match l with LevelOther _ => False | _ => True end.

Lemma level_to_Z_range l : level_named l -> 0 <= level_to_Z l < 5.
Proof. destruct l; simpl; done || lia. Qed.

Lemma level_round_trip l : level_named l -> level_of_Z (level_to_Z l) = l.
Proof. by destruct l. Qed.

Lemma pack_field v sh : 0 <= v -> 0 <= sh -> v * 2 ^ sh < 2 ^ 32 -> u32 (Z.shiftl (u32 v) sh) = Z.shiftl v sh.
Proof.
  intros Hv Hs Hlt. assert (1 <= 2 ^ sh) by (apply Z.pow_le_mono_r with (b := 0); lia).
  rewrite (wrap_small 32 v) by (red; nia).
  apply wrap_small. red. rewrite Z.shiftl_mul_pow2 by lia. nia.
Qed.

(** The fields do not overlap: the word is their weighted sum. *)
Lemma Pack_sum s :
  wf_fields s -> level_named (level s) ->
  Pack s = level_to_Z (level s) + cooldown_remaining s * 2 ^ 3 + direct_timeout_consec s * 2 ^ 19 +
    rtc_timeout_consec s * 2 ^ 21 + high_watermark_consec s * 2 ^ 23 + low_watermark_consec s * 2 ^ 25 +
    healthy_window_count s * 2 ^ 27 + Z.b2z (probe_success s) * 2 ^ 29.
Proof.
  intros [] Hl. apply level_to_Z_range in Hl. unfold_consts.
  assert (0 <= Z.b2z (probe_success s) <= 1) by (destruct (probe_success s); simpl; lia).
  unfold Pack, kLevelShift, kCooldownShift, kDirectTimeoutShift, kRtcTimeoutShift, kHighWatermarkShift,
    kLowWatermarkShift, kHealthyWindowShift, kProbeSuccessShift.
  rewrite !pack_field, Z.shiftl_0_r by lia.
  rewrite (lor_shiftl_add 3), (lor_shiftl_add 19), (lor_shiftl_add 21), (lor_shiftl_add 23),
    (lor_shiftl_add 25), (lor_shiftl_add 27), (lor_shiftl_add 29) by lia. done.
Qed.

Lemma Unpack_Pack s : wf_fields s -> level_named (level s) -> Unpack (Pack s) = s.
Proof.
  intros Hw Hl. rewrite Pack_sum by done. pose proof Hl as Hr. apply level_to_Z_range in Hr.
  destruct Hw as [Hcd Hd Hrt Hh Hlo Hhw]. destruct s as [l cd d r h lo hw pr]; simpl in *. unfold_consts.
  set (v := _ + _ * 2 ^ 29). assert (Hp : 0 <= Z.b2z pr <= 1) by (destruct pr; simpl; lia).
  assert (E0 : Z.land (Z.shiftr v 0) 7 = level_to_Z l)
    by (apply (field_extract 0 3 v 0 _ (v / 8)); subst v; Z.div_mod_to_equations; lia).
  assert (E1 : Z.land (Z.shiftr v 3) 65535 = cd)
    by (apply (field_extract 3 16 v (level_to_Z l) _ (v / 2 ^ 19)); subst v; Z.div_mod_to_equations; lia).
  assert (E2 : Z.land (Z.shiftr v 19) 3 = d)
    by (apply (field_extract 19 2 v (level_to_Z l + cd * 2 ^ 3) _ (v / 2 ^ 21)); subst v; Z.div_mod_to_equations; lia).
  assert (E3 : Z.land (Z.shiftr v 21) 3 = r)
    by (apply (field_extract 21 2 v (level_to_Z l + cd * 2 ^ 3 + d * 2 ^ 19) _ (v / 2 ^ 23)); subst v; Z.div_mod_to_equations; lia).
  assert (E4 : Z.land (Z.shiftr v 23) 3 = h)
    by (apply (field_extract 23 2 v (v mod 2 ^ 23) _ (v / 2 ^ 25)); subst v; Z.div_mod_to_equations; lia).
  assert (E5 : Z.land (Z.shiftr v 25) 3 = lo)
    by (apply (field_extract 25 2 v (v mod 2 ^ 25) _ (v / 2 ^ 27)); subst v; Z.div_mod_to_equations; lia).
  assert (E6 : Z.land (Z.shiftr v 27) 3 = hw)
    by (apply (field_extract 27 2 v (v mod 2 ^ 27) _ (v / 2 ^ 29)); subst v; Z.div_mod_to_equations; lia).
  assert (E7 : Z.land (Z.shiftr v 29) 1 = Z.b2z pr)
    by (apply (field_extract 29 1 v (v mod 2 ^ 29) _ 0); subst v; Z.div_mod_to_equations; lia).
  unfold Unpack, kLevelShift, kCooldownShift, kDirectTimeoutShift, kRtcTimeoutShift, kHighWatermarkShift,
    kLowWatermarkShift, kHealthyWindowShift, kProbeSuccessShift, kLevelMask, kCooldownMask, kCounterMask.
  rewrite E0, E1, E2, E3, E4, E5, E6, E7, level_round_trip by done.
  rewrite !wrap_small by (red; lia). by destruct pr.
Qed.

Lemma Pack_range s : wf_fields s -> level_named (level s) -> in_range 30 (Pack s).
Proof.
  intros Hw Hl. rewrite Pack_sum by done. apply level_to_Z_range in Hl.
  destruct Hw. unfold_consts. assert (0 <= Z.b2z (probe_success s) <= 1) by (destruct (probe_success s); simpl; lia).
  red. lia.
Qed.

Lemma binv_named s : binv s -> level_named (level s).
Proof. intros [_ Hl]. unfold level_inv in Hl. by destruct (level s). Qed.

(** ** Event sequences *)

Definition deliver (es : list event) (packed : Z) : Z := fold_left (fun p e => apply_event e p) es packed.
Definition deliver_state (es : list event) (s : State) : State := fold_left (fun s e => transition e s) es s.

Lemma apply_event_Pack e s : binv s -> apply_event e (Pack s) = Pack (transition e s).
Proof. intros Hi. unfold apply_event. rewrite Unpack_Pack; [done|apply Hi|by apply binv_named]. Qed.

Lemma deliver_cons e es p : deliver (e :: es) p = deliver es (apply_event e p).
Proof. reflexivity. Qed.

Lemma deliver_state_cons e es s : deliver_state (e :: es) s = deliver_state es (transition e s).
Proof. reflexivity. Qed.

Lemma deliver_state_inv es s : binv s -> binv (deliver_state es s).
Proof.
  revert s. induction es as [|e es IH]; intros s Hi; [done|].
  rewrite deliver_state_cons. apply IH, transition_inv, Hi.
Qed.

Lemma deliver_Pack es s : binv s -> deliver es (Pack s) = Pack (deliver_state es s).
Proof.
  revert s. induction es as [|e es IH]; intros s Hi; [reflexivity|].
  rewrite deliver_cons, deliver_state_cons, (apply_event_Pack _ _ Hi). apply IH, transition_inv, Hi.
Qed.

Definition init_state : State := mkState Normal 0 0 0 0 0 0 false.

Lemma init_inv : binv init_state.
Proof. unfold init_state. solve_binv. Qed.

Lemma Unpack_deliver es : Unpack (deliver es Breaker_init) = deliver_state es init_state /\
  binv (deliver_state es init_state).
Proof.
  pose proof (deliver_state_inv es _ init_inv) as Hi. split; [|done].
  change Breaker_init with (Pack init_state). rewrite (deliver_Pack es _ init_inv).
  apply (Unpack_Pack _ (proj1 Hi) (binv_named _ Hi)).
Qed.

(** ** Recovery is gated *)

Definition count_if (p : event -> bool) (es : list event) : Z := Z.of_nat (length (filter p es)).

(** A quantity that one selected event lowers by at most one, and no other
    event lowers, bounds from below the number of selected events. *)
Lemma potential_bound (pot : State -> Z) (ok : event -> Prop) (p : event -> bool) es s :
  (forall s e, binv s -> ok e -> pot s - (if p e then 1 else 0) <= pot (transition e s)) ->
  binv s -> Forall ok es -> pot s - count_if p es <= pot (deliver_state es s).
Proof.
  intros Hstep. revert s. induction es as [|e es IH]; intros s Hi Hok; [unfold count_if; simpl; lia|].
  inversion_clear Hok as [|? ? He Hes].
  pose proof (Hstep s e Hi He). specialize (IH _ (transition_inv e s Hi) Hes).
  unfold count_if in *. rewrite deliver_state_cons, filter_cons.
  destruct (p e) eqn:Hp; case_decide; simpl in *; try done; lia.
Qed.

Definition is_cycle (e : event) : bool := bool_decide (e = OnDispatchCycle).
Definition is_probe (e : event) : bool := bool_decide (e = OnProbeSuccess).
Definition is_low (e : event) : bool :=
  match e with OnWatermark percent => percent <? kLowWatermarkPct | _ => false end.

(** Dispatch cycles, probe successes and low samples still missing before
    the level can be Normal. *)
Definition cycles_needed (s : State) : Z :=
  match level s with
  | Normal => 0
  | _ => Z.max 0 (cooldown_remaining s - 1) + (kHealthyWindowsRequired - healthy_window_count s)
  end.
Definition probes_needed (s : State) : Z :=
  match level s with
  | Normal => 0
  | _ => kHealthyWindowsRequired - healthy_window_count s - Z.b2z (probe_success s)
  end.
Definition lows_needed (s : State) : Z :=
  match level s with
  | BrokenL1 | BrokenL2 => kLowWatermarkPersist - low_watermark_consec s
  | Safe => kLowWatermarkPersist
  | _ => 0
  end.

(** Runs event [e] on a state of known level, leaving arithmetic goals. *)
Ltac event_cases s e :=
  destruct s as [l cd d r h lo hw pr]; unfold level_inv in *; simpl in *;
  destruct e; simpl; unfold direct_timeout_fn, rtc_timeout_fn, watermark_fn, overflow_fn,
    key_reserve_exhausted_fn, dispatch_cycle_fn, probe_success_fn, probe_failure_fn,
    external_safe_restore_fn, rtc_ok_fn, set_timeouts, set_watermarks; simpl;
  destruct l; simpl in *; try done; repeat (case_decide || case_bool); simpl in *.

Lemma cycles_step s e : binv s -> cycles_needed s - (if is_cycle e then 1 else 0) <= cycles_needed (transition e s).
Proof.
  intros [[Hcd Hd Hr Hh Hlo Hw] Hl]. unfold cycles_needed, is_cycle.
  event_cases s e; rewrite ?Increment_eq in * by done; unfold_consts; try done; lia.
Qed.

Lemma probes_step s e : binv s -> probes_needed s - (if is_probe e then 1 else 0) <= probes_needed (transition e s).
Proof.
  intros [[Hcd Hd Hr Hh Hlo Hw] Hl]. unfold probes_needed, is_probe.
  event_cases s e; rewrite ?Increment_eq in * by done; unfold_consts; try done; subst; simpl;
    first [lia|destruct pr; simpl; bool_prop; lia].
Qed.

Lemma lows_step s e :
  binv s -> e <> OnExternalSafeRestore -> lows_needed s - (if is_low e then 1 else 0) <= lows_needed (transition e s).
Proof.
  intros [[Hcd Hd Hr Hh Hlo Hw] Hl] Hne. unfold lows_needed, is_low.
  event_cases s e; rewrite ?Increment_eq in * by done; unfold_consts; try done; bool_prop; lia.
Qed.

(** The breaker's word always decodes to a well-formed state: after any
    sequence of events from construction, unpacking and repacking is the
    identity, the word uses only its low 30 bits, no level is out of the
    enumeration, the cooldown and counters are in range, and no counter has
    passed a threshold that would have changed the level. *)
Lemma breaker_word_invariant es :
  let p := deliver es Breaker_init in
  Pack (Unpack p) = p /\ in_range 30 p /\ binv (Unpack p).
Proof.
  intros p. destruct (Unpack_deliver es) as [Hu Hi]. subst p.
  assert (Hp : deliver es Breaker_init = Pack (deliver_state es init_state)).
  { change Breaker_init with (Pack init_state). apply (deliver_Pack es _ init_inv). }
  rewrite Hu. split_and!; [symmetry; exact Hp| |exact Hi].
  rewrite Hp. apply (Pack_range _ (proj1 Hi) (binv_named _ Hi)).
Qed.

(** C12.  Recovery is gated, as the file's header promises: a broken breaker
    returns to Normal only after its cooldown has been counted down by dispatch
    cycles and three healthy windows have been seen (each a probe success
    followed by a dispatch cycle), and, unless an external restore occurs, only
    after enough low watermark samples. *)
Theorem breaker_recovery_gated s es :
  binv s -> level s <> Normal -> Level (deliver es (Pack s)) = Normal ->
  cycles_needed s <= count_if is_cycle es /\
  probes_needed s <= count_if is_probe es /\
  (Forall (fun e => e <> OnExternalSafeRestore) es -> lows_needed s <= count_if is_low es).
Proof.
  intros Hi Hne Hn. unfold Level in Hn. rewrite (deliver_Pack es s Hi) in Hn.
  pose proof (deliver_state_inv es s Hi) as Hi'.
  rewrite (Unpack_Pack _ (proj1 Hi') (binv_named _ Hi')) in Hn.
  pose proof (potential_bound cycles_needed (fun _ => True) is_cycle es s
    (fun s e H _ => cycles_step s e H) Hi ltac:(by apply Forall_true)) as Hc.
  pose proof (potential_bound probes_needed (fun _ => True) is_probe es s
    (fun s e H _ => probes_step s e H) Hi ltac:(by apply Forall_true)) as Hp.
  unfold cycles_needed at 2 in Hc. unfold probes_needed at 2 in Hp. rewrite Hn in Hc, Hp.
  split_and!; [lia|lia|]. intros Hes.
  pose proof (potential_bound lows_needed (fun e => e <> OnExternalSafeRestore) is_low es s lows_step Hi Hes) as Hl.
  unfold lows_needed at 2 in Hl. rewrite Hn in Hl. lia.
Qed.

(** Safe is left only by an external restore: every other event, from
    any well-formed state at level Safe, keeps the level Safe. *)
Lemma breaker_safe_absorbing s es :
  binv s -> level s = Safe -> Forall (fun e => e <> OnExternalSafeRestore) es ->
  SafeEventsOnly (deliver es (Pack s)) = true.
Proof.
  intros Hi Hs Hes. unfold SafeEventsOnly, Level. rewrite (deliver_Pack es s Hi).
  pose proof (deliver_state_inv es s Hi) as Hi'.
  rewrite (Unpack_Pack _ (proj1 Hi') (binv_named _ Hi')). apply bool_decide_eq_true. clear Hi'.
  revert s Hi Hs. induction Hes as [|e es He Hes IH]; intros s Hi Hs; [done|].
  rewrite deliver_state_cons. apply IH; [by apply transition_inv|].
  clear IH. destruct Hi as [_ Hl]. event_cases s e; done.
Qed.

(** HealthyWindowPassed coincides with DirectAllowed after every event
    sequence: the third healthy window moves the breaker to Normal at once, so
    its Recovering branch never yields true. *)
Lemma breaker_healthy_iff_direct es :
  HealthyWindowPassed (deliver es Breaker_init) = DirectAllowed (deliver es Breaker_init).
Proof.
  unfold HealthyWindowPassed, DirectAllowed, Level.
  destruct (Unpack_deliver es) as [-> [Hf Hl]]. destruct (deliver_state es init_state) as [l cd d r h lo hw pr].
  unfold level_inv in Hl. simpl in *. destruct l; try done. unfold_consts.
  destruct Hl as (_ & _ & _ & Hl). repeat case_decide; try done. by apply Z.leb_gt.
Qed.

(** ** Concurrent updates *)

(** A thread running Update for an event: about to load the word, holding an
    observed word whose successor differs from it, or finished. *)
Inductive thread :=
| TStart (e : event)
| TObserved (e : event) (observed : Z)
| TDone (e : event).

(** The shared word, the threads, and the history of effects. *)
Record system := mkSys { word : Z; threads : list thread; log : list event }.

(** What a thread does with a freshly observed word: finish when the
    transition changes nothing, otherwise prepare the exchange. *)
Definition observe (e : event) (w : Z) (i : nat) (sys : system) : system :=
  if apply_event e w =? w
  then mkSys (word sys) (<[i := TDone e]> (threads sys)) (log sys ++ [e])
  else mkSys (word sys) (<[i := TObserved e w]> (threads sys)) (log sys).

Inductive sys_step : system -> system -> Prop :=
| step_load sys i e :
    threads sys !! i = Some (TStart e) -> sys_step sys (observe e (word sys) i sys)
| step_cas_success sys i e observed :
    threads sys !! i = Some (TObserved e observed) -> word sys = observed ->
    sys_step sys (mkSys (apply_event e observed) (<[i := TDone e]> (threads sys)) (log sys ++ [e]))
| step_cas_fail sys i e observed :
    (* a competing update, or a spurious failure of the weak exchange *)
    threads sys !! i = Some (TObserved e observed) -> sys_step sys (observe e (word sys) i sys).

Definition event_of (t : thread) : event :=
  match t with TStart e | TObserved e _ | TDone e => e end.
Definition done_event (t : thread) : option event :=
  match t with TDone e => Some e | _ => None end.

Definition start_all (es : list event) : system := mkSys Breaker_init (TStart <$> es) [].

Definition lin_inv (es : list event) (sys : system) : Prop :=
  word sys = deliver (log sys) Breaker_init /\
  log sys ≡ₚ omap done_event (threads sys) /\
  event_of <$> threads sys = es.

Lemma done_insert (ts : list thread) i t e :
  ts !! i = Some t -> done_event t = None ->
  omap done_event (<[i := TDone e]> ts) ≡ₚ e :: omap done_event ts.
Proof.
  revert i. induction ts as [|t' ts IH]; intros [|i] Hi Hd; simplify_eq/=; [by rewrite Hd|].
  destruct (done_event t'); rewrite (IH i Hi Hd); [apply perm_swap|done].
Qed.

Lemma observed_insert (ts : list thread) i t e w :
  ts !! i = Some t -> done_event t = None ->
  omap done_event (<[i := TObserved e w]> ts) = omap done_event ts.
Proof.
  revert i. induction ts as [|t' ts IH]; intros [|i] Hi Hd; simplify_eq/=; [by rewrite Hd|].
  by rewrite (IH i Hi Hd).
Qed.

Lemma event_insert (ts : list thread) i t t' :
  ts !! i = Some t -> event_of t' = event_of t -> event_of <$> <[i := t']> ts = event_of <$> ts.
Proof.
  intros Hi He. rewrite list_fmap_insert, He. apply list_insert_id. by rewrite list_lookup_fmap, Hi.
Qed.

Lemma deliver_snoc es e p : deliver (es ++ [e]) p = apply_event e (deliver es p).
Proof. unfold deliver. by rewrite fold_left_app. Qed.

Lemma observe_inv es sys i t e :
  lin_inv es sys -> threads sys !! i = Some t -> done_event t = None -> event_of t = e ->
  lin_inv es (observe e (word sys) i sys).
Proof.
  intros (Hw & Hl & He) Hi Hd Ht. unfold observe. destruct (Z.eqb_spec (apply_event e (word sys)) (word sys)) as [Hn|Hn].
  - split_and!; simpl.
    + rewrite deliver_snoc, <- Hw. by rewrite Hn.
    + rewrite (done_insert _ _ _ _ Hi Hd), Hl. symmetry. apply Permutation_cons_append.
    + rewrite (event_insert _ _ _ _ Hi); [done|by simpl].
  - split_and!; simpl; [done| |].
    + by rewrite (observed_insert _ _ _ _ _ Hi Hd).
    + rewrite (event_insert _ _ _ _ Hi); [done|by simpl].
Qed.

Lemma sys_step_inv es s1 s2 : sys_step s1 s2 -> lin_inv es s1 -> lin_inv es s2.
Proof.
  intros [sys i e Hi|sys i e o Hi Ho|sys i e o Hi] Hinv.
  - by apply (observe_inv es sys i (TStart e)).
  - destruct Hinv as (Hw & Hl & He). split_and!; simpl.
    + rewrite deliver_snoc, <- Hw. by rewrite Ho.
    + rewrite (done_insert _ _ _ _ Hi eq_refl), Hl. symmetry. apply Permutation_cons_append.
    + by rewrite (event_insert _ _ _ _ Hi).
  - by apply (observe_inv es sys i (TObserved e o)).
Qed.

(** Update is linearizable: in every state reachable by any number of
    threads running their CAS loops, with competing and spurious failures, the
    word is the one some sequential order of exactly the completed events
    gives; no event is lost or applied twice. *)
Lemma breaker_update_linearizable es sys :
  rtc sys_step (start_all es) sys ->
  word sys = deliver (log sys) Breaker_init /\ log sys ≡ₚ omap done_event (threads sys) /\
  event_of <$> threads sys = es.
Proof.
  apply (rtc_invariant sys_step (lin_inv es)); [|apply sys_step_inv].
  split_and!; simpl; [done| |].
  - by induction es.
  - induction es as [|e es IH]; [done|]. csimpl. by f_equal.
Qed.

End Breaker.

(** ** Witnesses *)

Definition broken_state : State := mkState BrokenL2 2 0 0 0 0 0 false.

Lemma broken_inv : binv 2 broken_state.
Proof. split; [split|]; unfold counter_ok, kCounterMask; simpl; lia || done. Qed.

(** Two cooldown cycles, three low samples, three probed windows. *)
Definition recovery_events : list event :=
  [OnDispatchCycle; OnDispatchCycle; OnWatermark 10; OnWatermark 10; OnWatermark 10;
   OnProbeSuccess; OnDispatchCycle; OnProbeSuccess; OnDispatchCycle; OnProbeSuccess; OnDispatchCycle].

Lemma breaker_recovery_gated_witness :
  Level (deliver 2 recovery_events (Pack broken_state)) = Normal /\
  cycles_needed broken_state <= count_if is_cycle recovery_events.
Proof.
  split; [vm_compute; reflexivity|].
  apply (breaker_recovery_gated 2 ltac:(lia) broken_state recovery_events broken_inv);
    [discriminate|vm_compute; reflexivity].
Defined.

Lemma breaker_word_invariant_witness :
  let p := deliver 100 [OnOverflow; OnDispatchCycle; OnWatermark 10] (Breaker_init) in
  Pack (Unpack p) = p /\ in_range 30 p.
Proof.
  destruct (breaker_word_invariant 100 ltac:(lia) [OnOverflow; OnDispatchCycle; OnWatermark 10]) as (H1 & H2 & _).
  exact (conj H1 H2).
Defined.

Definition safe_state : State := mkState Safe 2 0 0 0 0 0 false.

Lemma breaker_safe_absorbing_witness :
  SafeEventsOnly (deliver 2 [OnProbeSuccess; OnDispatchCycle; OnRtcOk; OnWatermark 0] (Pack safe_state)) = true.
Proof.
  apply (breaker_safe_absorbing 2 ltac:(lia) safe_state); [|reflexivity|repeat constructor; discriminate].
  split; [split|]; unfold counter_ok, kCounterMask; simpl; lia || done.
Defined.

Lemma breaker_healthy_iff_direct_witness :
  HealthyWindowPassed (deliver 2 recovery_events (Breaker_init)) =
  DirectAllowed (deliver 2 recovery_events (Breaker_init)).
Proof. apply (breaker_healthy_iff_direct 2 ltac:(lia)). Defined.

(** Two threads observe the initial word; the second one's exchange fails,
    reloads and then succeeds. *)
Definition demo_events : list event := [OnDirectTimeout; OnOverflow].

Definition w1 : Z := apply_event 5 OnDirectTimeout Breaker_init.
Definition w2 : Z := apply_event 5 OnOverflow w1.

Definition demo_final : system := mkSys w2 [TDone OnDirectTimeout; TDone OnOverflow] demo_events.

Lemma demo_run : rtc (sys_step 5) (start_all demo_events) demo_final.
Proof.
  eapply rtc_l; [refine (step_load 5 _ 0%nat OnDirectTimeout _); vm_compute; reflexivity|].
  eapply rtc_l; [refine (step_load 5 _ 1%nat OnOverflow _); vm_compute; reflexivity|].
  eapply rtc_l; [refine (step_cas_success 5 _ 0%nat OnDirectTimeout Breaker_init _ _); vm_compute; reflexivity|].
  eapply rtc_l; [refine (step_cas_fail 5 _ 1%nat OnOverflow Breaker_init _); vm_compute; reflexivity|].
  eapply rtc_l; [refine (step_cas_success 5 _ 1%nat OnOverflow w1 _ _); vm_compute; reflexivity|].
  apply rtc_refl.
Qed.

Lemma breaker_update_linearizable_witness :
  word demo_final = deliver 5 demo_events Breaker_init.
Proof. apply (breaker_update_linearizable 5 demo_events demo_final demo_run). Defined.

(**  The healthy windows need not be consecutive: dispatch cycles
    without a probe success between them do not reset the count. *)
Lemma breaker_windows_not_consecutive :
  Level (deliver 0 [OnWatchdog; OnExternalSafeRestore;
                    OnProbeSuccess; OnDispatchCycle; OnDispatchCycle; OnDispatchCycle;
                    OnProbeSuccess; OnDispatchCycle; OnDispatchCycle;
                    OnProbeSuccess; OnDispatchCycle] (Breaker_init)) = Normal.
Proof. vm_compute. reflexivity. Qed.
