(* ===== verification/Hierarchy.v ===== *)
(** * State hierarchies (the algorithms shared by hsm.hpp and hsm_table.hpp)

    A hierarchy is the list of the states' parent indices, -1 for a root.  The
    loops that climb it (depth, lowest common ancestor, entry and exit paths)
    are modelled with fuel; [None] is an assertion failure, a read outside the
    state array, or a parent cycle.  On a well-formed hierarchy none of these
    happens, and the results are characterised by the chains of ancestors. *)

From Stdlib Require Import ZArith Lia Bool.
From stdpp Require Import base numbers list option.
From S2P Require Import Prelude.

Open Scope Z_scope.

(** OSP_HSM_MAX_DEPTH *)
Definition kHsmMaxDepth : Z := 32.

(** [states_[s].parent_index] for [s >= 0]. *)
Definition parent_of (ps : list Z) (s : Z) : option Z := ps !! Z.to_nat s.

(** [(p >= 0) ? states_[p].parent_index : -1] *)
Definition parent_or_none (ps : list Z) (p : Z) : option Z :=
  if 0 <=? p then parent_of ps p else Some (-1).

(** Enough iterations for every chain without repetition. *)
Definition hfuel (ps : list Z) : nat := S (length ps).

Fixpoint Depth_loop (fuel : nat) (ps : list Z) (s depth : Z) : option Z :=
  if 0 <=? s then
    match fuel with
    | O => None
    | S fuel' => p ← parent_of ps s; Depth_loop fuel' ps p (depth + 1)
    end
  else Some depth.

Definition Depth (ps : list Z) (state_index : Z) : option Z := Depth_loop (hfuel ps) ps state_index 0.

(** [while (d1 > d2) { p = states_[p].parent_index; --d1; }], [n = d1 - d2]. *)
Fixpoint climb (n : nat) (ps : list Z) (p : Z) : option Z :=
  match n with
  | O => Some p
  | S n' => p' ← parent_of ps p; climb n' ps p'
  end.

(** [while (p1 != p2) { ... }] *)
Fixpoint meet_loop (fuel : nat) (ps : list Z) (p1 p2 : Z) : option Z :=
  if p1 =? p2 then Some p1
  else
    match fuel with
    | O => None
    | S fuel' =>
      p1' ← parent_or_none ps p1; p2' ← parent_or_none ps p2; meet_loop fuel' ps p1' p2'
    end.

Definition FindLCA (ps : list Z) (s1 s2 : Z) : option Z :=
  d1 ← Depth ps s1;
  d2 ← Depth ps s2;
  p1 ← climb (Z.to_nat (d1 - d2)) ps s1;
  p2 ← climb (Z.to_nat (d2 - d1)) ps s2;
  meet_loop (hfuel ps) ps p1 p2.

(** The loop of BuildExitPath and BuildEntryPath, with its assertion on the
    length of the path buffer. *)
Fixpoint path_loop (fuel : nat) (ps : list Z) (s stop : Z) (path : list Z) : option (list Z) :=
  if (0 <=? s) && negb (s =? stop) then
    match fuel with
    | O => None
    | S fuel' =>
      if Z.of_nat (length path) <? kHsmMaxDepth
      then p ← parent_of ps s; path_loop fuel' ps p stop (path ++ [s])
      else None
    end
  else Some path.

Definition BuildExitPath (ps : list Z) (from lca : Z) : option (list Z) := path_loop (hfuel ps) ps from lca [].
Definition BuildEntryPath (ps : list Z) (from_lca to : Z) : option (list Z) := path_loop (hfuel ps) ps to from_lca [].

(** The loop of IsInState. *)
Fixpoint is_in_loop (fuel : nat) (ps : list Z) (s state_index : Z) : option bool :=
  if 0 <=? s then
    if s =? state_index then Some true
    else match fuel with
         | O => None
         | S fuel' => p ← parent_of ps s; is_in_loop fuel' ps p state_index
         end
  else Some false.

(** ** Chains of ancestors *)

(** [chain ps s l]: [l] is [s], its parent, ... up to its root. *)
Inductive chain (ps : list Z) : Z -> list Z -> Prop :=
| chain_root : chain ps (-1) []
| chain_cons s p l : 0 <= s -> parent_of ps s = Some p -> chain ps p l -> chain ps s (s :: l).

(** Every state's chain ends at a root within the depth the path buffers have. *)
Definition wf_hierarchy (ps : list Z) : Prop :=
  forall s, 0 <= s < Z.of_nat (length ps) -> exists l, chain ps s l /\ Z.of_nat (length l) <= kHsmMaxDepth.

(** A boolean test for it. *)
Fixpoint chain_of (fuel : nat) (ps : list Z) (s : Z) : option (list Z) :=
  if s =? -1 then Some []
  else
    match fuel with
    | O => None
    | S fuel' => if 0 <=? s then p ← parent_of ps s; l ← chain_of fuel' ps p; Some (s :: l) else None
    end.

Definition wf_hierarchy_b (ps : list Z) : bool :=
  forallb (fun s => match chain_of (Z.to_nat kHsmMaxDepth) ps s with Some _ => true | None => false end)
    (seqZ 0 (Z.of_nat (length ps))).

Section Chains.
Context (ps : list Z).

Lemma chain_det s l1 l2 : chain ps s l1 -> chain ps s l2 -> l1 = l2.
Proof.
  intros H1. revert l2. induction H1 as [|s p l Hs Hp _ IH]; intros l2 H2; inversion H2; subst; try done; try lia.
  f_equal. apply IH. congruence.
Qed.

Lemma chain_range s l : chain ps s l -> s = -1 \/ 0 <= s < Z.of_nat (length ps).
Proof.
  intros []; [by left|right]. unfold parent_of in *.
  match goal with H : _ !! _ = Some _ |- _ => apply lookup_lt_Some in H end. lia.
Qed.

(** Every element of a chain starts the rest of it. *)
Lemma chain_suffix s l1 x l2 : chain ps s (l1 ++ x :: l2) -> chain ps x (x :: l2).
Proof.
  revert s. induction l1 as [|y l1 IH]; intros s Hc; simpl in Hc.
  - inversion Hc; subst. done.
  - inversion Hc; subst. eauto.
Qed.

Lemma chain_length_elem s l x lx : chain ps s l -> x ∈ l -> chain ps x lx -> (length lx <= length l)%nat.
Proof.
  intros Hc (l1 & l2 & ->)%list_elem_of_split Hx.
  rewrite (chain_det _ _ _ Hx (chain_suffix _ _ _ _ Hc)). rewrite length_app. simpl. lia.
Qed.

Lemma chain_NoDup s l : chain ps s l -> NoDup l.
Proof.
  induction 1 as [|s p l Hs Hp Hc IH]; constructor; [|done].
  intros Hin. pose proof (chain_length_elem _ _ _ (s :: l) Hc Hin (chain_cons _ _ _ _ Hs Hp Hc)). simpl in *. lia.
Qed.

Lemma chain_fuel s l : chain ps s l -> (length l <= length ps)%nat.
Proof.
  intros Hc. apply (NoDup_incl_length_seqZ l (length ps)); [by eapply chain_NoDup|].
  intros x (l1 & l2 & ->)%list_elem_of_split. apply chain_suffix in Hc.
  destruct (chain_range _ _ Hc) as [->|]; [|done]. inversion Hc. lia.
Qed.

(** ** The loops follow the chains *)

Lemma Depth_loop_ok s l d fuel :
  chain ps s l -> (length l <= fuel)%nat -> Depth_loop fuel ps s d = Some (d + Z.of_nat (length l)).
Proof.
  intros Hc. revert d fuel. induction Hc as [|s p l Hs Hp Hc IH]; intros d fuel Hf; simpl in Hf.
  - destruct fuel; simpl; f_equal; lia.
  - destruct fuel as [|fuel]; [lia|]. simpl. destruct (Z.leb_spec 0 s); [|lia]. rewrite Hp. simpl.
    rewrite IH by lia. f_equal. lia.
Qed.

Lemma Depth_ok s l : chain ps s l -> Depth ps s = Some (Z.of_nat (length l)).
Proof. intros Hc. pose proof (chain_fuel _ _ Hc). apply (Depth_loop_ok _ _ 0); [done|]. unfold hfuel. lia. Qed.

Lemma climb_ok n s l :
  chain ps s l -> (n <= length l)%nat -> exists s', climb n ps s = Some s' /\ chain ps s' (drop n l).
Proof.
  revert s l. induction n as [|n IH]; intros s l Hc Hn; [by exists s; rewrite drop_0|].
  destruct Hc as [|s p l Hs Hp Hc]; simpl in Hn; [lia|]. simpl. rewrite Hp. apply (IH _ _ Hc). lia.
Qed.

Lemma parent_or_none_cons s x l : chain ps s (x :: l) -> exists p, parent_or_none ps s = Some p /\ chain ps p l.
Proof.
  intros Hc. inversion Hc; subst. unfold parent_or_none. destruct (Z.leb_spec 0 x); [eauto|lia].
Qed.

(** A common element of two chains has one chain of its own. *)
Lemma chain_elem s l x : chain ps s l -> x ∈ l -> exists v, chain ps x (x :: v) /\ (length v < length l)%nat.
Proof.
  intros Hc (l1 & l2 & ->)%list_elem_of_split. exists l2. split; [by eapply chain_suffix|].
  rewrite length_app. simpl. lia.
Qed.

Lemma chain_elem_range s l x : chain ps s l -> x ∈ l -> 0 <= x < Z.of_nat (length ps).
Proof.
  intros Hc Hx. destruct (chain_elem _ _ _ Hc Hx) as (v & Hv & _).
  destruct (chain_range _ _ Hv) as [->|]; [|done]. inversion Hv. lia.
Qed.

Lemma elem_drop s l x v n :
  chain ps s l -> x ∈ l -> chain ps x (x :: v) -> (n + S (length v) <= length l)%nat -> x ∈ drop n l.
Proof.
  intros Hc (l1 & l2 & ->)%list_elem_of_split Hx Hn.
  pose proof (chain_det _ _ _ Hx (chain_suffix _ _ _ _ Hc)) as [= ->].
  rewrite length_app in Hn. simpl in Hn. rewrite drop_app_le by lia. apply elem_of_app. right. by left.
Qed.

(** Two chains of one length, climbed in lockstep, meet at the longest common
    suffix. *)
Lemma meet_loop_ok fuel l1 l2 p1 p2 :
  chain ps p1 l1 -> chain ps p2 l2 -> length l1 = length l2 -> (length l1 <= fuel)%nat ->
  exists a pre1 pre2 l, meet_loop fuel ps p1 p2 = Some a /\ chain ps a l /\
    l1 = pre1 ++ l /\ l2 = pre2 ++ l /\ (forall x, x ∈ l1 -> x ∈ l2 -> x ∈ l).
Proof.
  revert l1 l2 p1 p2. induction fuel as [|fuel IH]; intros l1 l2 p1 p2 H1 H2 Hl Hf; simpl.
  - destruct l1, l2; simpl in *; try lia. inversion H1; inversion H2; subst. simpl.
    exists (-1), [], [], []. by split_and!.
  - destruct (Z.eqb_spec p1 p2) as [->|Hne].
    + exists p2, [], [], l2. rewrite (chain_det _ _ _ H1 H2). by split_and!.
    + destruct l1 as [|x l1], l2 as [|y l2]; simpl in Hl; try lia.
      { inversion H1; inversion H2; congruence. }
      destruct (parent_or_none_cons _ _ _ H1) as (q1 & -> & Hq1).
      destruct (parent_or_none_cons _ _ _ H2) as (q2 & -> & Hq2). simpl.
      destruct (IH l1 l2 q1 q2 Hq1 Hq2) as (a & pre1 & pre2 & l & -> & Ha & E1 & E2 & Hcom);
        [lia|simpl in Hf; lia|].
      assert (p1 = x /\ p2 = y) as [-> ->] by (inversion H1; inversion H2; done).
      exists a, (x :: pre1), (y :: pre2), l. split_and!; [done|done|by rewrite E1|by rewrite E2|].
      intros z Hz1 Hz2. apply elem_of_cons in Hz1, Hz2.
      destruct Hz1 as [->|Hz1], Hz2 as [->|Hz2]; [done| | |by apply Hcom].
      * destruct (chain_elem _ _ _ Hq2 Hz2) as (v & Hv & Hlv). pose proof (chain_det _ _ _ H1 Hv). simplify_eq. lia.
      * destruct (chain_elem _ _ _ Hq1 Hz1) as (v & Hv & Hlv). pose proof (chain_det _ _ _ H2 Hv). simplify_eq. lia.
Qed.

Lemma drop_pre (l1 : list Z) n pre l :
  drop n l1 = pre ++ l -> l1 = (take n l1 ++ pre) ++ l.
Proof. intros He. rewrite <- app_assoc, <- He. symmetry. apply take_drop. Qed.

(** The state FindLCA returns splits both chains, and every common ancestor
    of the two states is an ancestor of it (or it itself). *)
Lemma FindLCA_ok s1 s2 l1 l2 :
  chain ps s1 l1 -> chain ps s2 l2 ->
  exists a pre1 pre2 l, FindLCA ps s1 s2 = Some a /\ chain ps a l /\ l1 = pre1 ++ l /\ l2 = pre2 ++ l /\
    (forall x, x ∈ l1 -> x ∈ l2 -> x ∈ l).
Proof.
  intros H1 H2. unfold FindLCA. rewrite (Depth_ok _ _ H1), (Depth_ok _ _ H2). cbn [mbind option_bind].
  set (n1 := Z.to_nat (Z.of_nat (length l1) - Z.of_nat (length l2))).
  set (n2 := Z.to_nat (Z.of_nat (length l2) - Z.of_nat (length l1))).
  destruct (climb_ok n1 _ _ H1) as (p1 & -> & Hp1); [lia|].
  destruct (climb_ok n2 _ _ H2) as (p2 & -> & Hp2); [lia|]. cbn [mbind option_bind].
  destruct (meet_loop_ok (hfuel ps) _ _ _ _ Hp1 Hp2) as (a & pre1 & pre2 & l & -> & Ha & E1 & E2 & Hcom).
  { rewrite !length_drop. lia. }
  { pose proof (chain_fuel _ _ Hp1). unfold hfuel. lia. }
  exists a, (take n1 l1 ++ pre1), (take n2 l2 ++ pre2), l.
  split_and!; [done|done|by apply drop_pre|by apply drop_pre|].
  intros x Hx1 Hx2. destruct (chain_elem _ _ _ H1 Hx1) as (v & Hv & Hl1).
  destruct (chain_elem _ _ _ H2 Hx2) as (v2 & Hv2 & Hl2). pose proof (chain_det _ _ _ Hv Hv2). simplify_eq.
  apply Hcom; [apply (elem_drop s1 l1 x v2)|apply (elem_drop s2 l2 x v2)]; done || lia.
Qed.

(** The paths are the parts of the chains below the stop state. *)
Lemma path_loop_ok fuel s pre l a acc :
  chain ps s (pre ++ l) -> chain ps a l -> (length pre <= fuel)%nat ->
  Z.of_nat (length acc + length pre) <= kHsmMaxDepth ->
  path_loop fuel ps s a acc = Some (acc ++ pre).
Proof.
  revert fuel s acc. induction pre as [|x pre IH]; intros fuel s acc Hc Ha Hf Hd; simpl in *.
  - rewrite app_nil_r. assert (s = a) as ->.
    { destruct l as [|y l]; inversion Hc; inversion Ha; congruence. }
    destruct fuel; simpl; by rewrite Z.eqb_refl, andb_false_r.
  - destruct fuel as [|fuel]; [lia|]. inversion Hc as [|? p ? Hs Hp Hc']; subst. simpl.
    assert (Hne : x <> a).
    { intros ->. pose proof (chain_det _ _ _ Hc Ha) as He. apply (f_equal length) in He.
      simpl in He. rewrite length_app in He. lia. }
    destruct (Z.leb_spec 0 x), (Z.eqb_spec x a); try lia. simpl.
    destruct (Z.ltb_spec (Z.of_nat (length acc)) kHsmMaxDepth); [|lia].
    rewrite Hp. simpl. rewrite (IH fuel p (acc ++ [x]) Hc' Ha ltac:(lia)); [by rewrite <- app_assoc|].
    rewrite length_app. simpl. lia.
Qed.

Lemma path_ok s pre l a :
  chain ps s (pre ++ l) -> chain ps a l -> Z.of_nat (length (pre ++ l)) <= kHsmMaxDepth ->
  path_loop (hfuel ps) ps s a [] = Some pre.
Proof.
  intros Hc Ha Hd. pose proof (chain_fuel _ _ Hc). rewrite length_app in *.
  apply (path_loop_ok (hfuel ps) s pre l a []); [done|done|unfold hfuel; lia|simpl; lia].
Qed.

Lemma is_in_loop_ok fuel s l x :
  chain ps s l -> 0 <= x -> (length l <= fuel)%nat -> is_in_loop fuel ps s x = Some (bool_decide (x ∈ l)).
Proof.
  intros Hc Hx. revert fuel. induction Hc as [|s p l Hs Hp Hc IH]; intros fuel Hf; simpl in Hf; [by destruct fuel|].
  destruct fuel as [|fuel]; [lia|]. simpl. destruct (Z.leb_spec 0 s); [|lia].
  destruct (Z.eqb_spec s x) as [->|Hne].
  - rewrite bool_decide_true; [done|by left].
  - rewrite Hp. simpl. rewrite IH by lia. f_equal. apply bool_decide_ext. rewrite elem_of_cons. naive_solver.
Qed.

Lemma chain_of_sound fuel s l :
  chain_of fuel ps s = Some l -> chain ps s l /\ (length l <= fuel)%nat.
Proof.
  revert s l. induction fuel as [|fuel IH]; intros s l; simpl; destruct (Z.eqb_spec s (-1)) as [->|]; intros Hc;
    simplify_eq; try (split; [constructor|simpl; lia]).
  destruct (Z.leb_spec 0 s); [|done]. destruct (parent_of ps s) as [p|] eqn:Hp; simpl in Hc; [|done].
  destruct (chain_of fuel ps p) as [l'|] eqn:Hl; simpl in Hc; simplify_eq.
  apply IH in Hl as [Hl Hlen]. split; [by econstructor|simpl; lia].
Qed.

Lemma wf_hierarchy_b_sound : wf_hierarchy_b ps = true -> wf_hierarchy ps.
Proof.
  unfold wf_hierarchy_b. rewrite forallb_forall. intros Hb s Hs.
  specialize (Hb s ltac:(apply list_elem_of_In, elem_of_seqZ; lia)).
  destruct (chain_of _ ps s) as [l|] eqn:Hc; [|done]. apply chain_of_sound in Hc as [Hc Hl].
  exists l. split; [done|]. unfold kHsmMaxDepth in *. lia.
Qed.

End Chains.

(** Listing every parent before its children gives a well-formed hierarchy. *)
Definition parents_first (ps : list Z) : Prop :=
  forall i p, ps !! i = Some p -> -1 <= p < Z.of_nat i.

Lemma parents_first_wf ps :
  parents_first ps -> Z.of_nat (length ps) <= kHsmMaxDepth -> wf_hierarchy ps.
Proof.
  intros Hpf Hlen.
  assert (Hc : forall n s, (Z.to_nat s < n)%nat -> 0 <= s < Z.of_nat (length ps) ->
            exists l, chain ps s l /\ Z.of_nat (length l) <= s + 1).
  { intros n. induction n as [|n IH]; intros s Hn Hs; [lia|].
    destruct (lookup_lt_is_Some_2 ps (Z.to_nat s) ltac:(lia)) as [p Hp]. pose proof (Hpf _ _ Hp) as Hr.
    destruct (Z.eq_dec p (-1)) as [->|Hne].
    - exists [s]. split; [|simpl; lia]. apply (chain_cons _ _ (-1)); [lia|done|constructor].
    - destruct (IH p ltac:(lia) ltac:(lia)) as (l & Hl & Hll). exists (s :: l).
      split; [by apply (chain_cons _ _ p); [lia|..]|simpl; lia]. }
  intros s Hs. destruct (Hc (S (Z.to_nat s)) s ltac:(lia) Hs) as (l & Hl & Hll). exists l. split; [done|lia].
Qed.
