(* ===== verification/Hsm.v ===== *)
(** * StateMachine (include/osp/hsm.hpp)

    The hierarchical state machine: build phase, start, event dispatch with
    bubbling, and transitions through the lowest common ancestor.  [None] as the
    result of an operation is a failed OSP_ASSERT, a read outside the state
    array, or non-termination; the theorems show it does not occur on a machine
    whose hierarchy is well formed and whose handlers keep their contract. *)

From Stdlib Require Import ZArith Lia Bool String.
From stdpp Require Import base numbers list option relations.
From S2P Require Import Prelude Hierarchy.

Open Scope Z_scope.

Inductive TransitionResult := kHandled | kUnhandled | kTransition.

#[export] Instance TransitionResult_eq_dec : EqDecision TransitionResult.
Proof. solve_decision. Defined.

Definition kNoState : Z := -1.

Section Hsm.
(** The user's context, the payload an event carries, and the two macros and
    template parameters that bound the tables. *)
Context {Context_ Payload : Type}.
Context (MaxStates : Z).

Record Event := mkEvent { event_id : Z; event_data : option Payload }.

(** A handler receives the machine's RequestTransition (a function of the
    target and the machine's pending target), the context and the event, and the
    pending target; it returns its result, the context and the pending target. *)
Definition RequestFn : Type := Z -> Z -> TransitionResult * Z.
Definition HandlerFn : Type := RequestFn -> Context_ -> Event -> Z -> TransitionResult * Context_ * Z.

Record StateConfig := mkStateConfig {
  name : string;
  parent_index : Z;
  handler : option HandlerFn;
  on_entry : option (Context_ -> Context_);
  on_exit : option (Context_ -> Context_);
  guard : option (Context_ -> Event -> bool)
}.

(** The machine; [states_] holds the [state_count_] states added so far. *)
Record StateMachine := mkMachine {
  ctx_ : Context_;
  current_state_ : Z;
  initial_state_ : Z;
  started_ : bool;
  pending_target_ : Z;
  states_ : list StateConfig
}.

Definition state_count_ (m : StateMachine) : Z := Z.of_nat (length (states_ m)).
Definition parents (m : StateMachine) : list Z := parent_index <$> states_ m.

Definition StateMachine_ctor (ctx : Context_) : StateMachine :=
  mkMachine ctx kNoState kNoState false kNoState [].

Definition AddState (config : StateConfig) (m : StateMachine) : option (Z * StateMachine) :=
  if started_ m then None
  else if MaxStates <=? state_count_ m then Some (kNoState, m)
  else Some (state_count_ m,
             mkMachine (ctx_ m) (current_state_ m) (initial_state_ m) (started_ m) (pending_target_ m)
               (states_ m ++ [config])).

Definition SetInitialState (state_index : Z) (m : StateMachine) : option StateMachine :=
  if started_ m then None
  else if (0 <=? state_index) && (state_index <? state_count_ m)
  then Some (mkMachine (ctx_ m) (current_state_ m) state_index (started_ m) (pending_target_ m) (states_ m))
  else None.

(** The entry or exit action of the states of a path, in order. *)
Definition action_of (field : StateConfig -> option (Context_ -> Context_)) (sts : list StateConfig)
    (idx : Z) (c : Context_) : Context_ :=
  match sts !! Z.to_nat idx with
  | Some sc => match field sc with Some f => f c | None => c end
  | None => c
  end.

Definition run_path (field : StateConfig -> option (Context_ -> Context_)) (sts : list StateConfig)
    (path : list Z) (c : Context_) : Context_ :=
  fold_left (fun c idx => action_of field sts idx c) path c.

Definition Start (m : StateMachine) : option StateMachine :=
  if started_ m then None
  else if 0 <=? initial_state_ m then
    path ← BuildEntryPath (parents m) kNoState (initial_state_ m);
    Some (mkMachine (run_path on_entry (states_ m) (reverse path) (ctx_ m))
            (initial_state_ m) (initial_state_ m) true (pending_target_ m) (states_ m))
  else None.

Definition TransitionTo (target : Z) (m : StateMachine) : option StateMachine :=
  let source := current_state_ m in
  if source =? target then
    let c1 := action_of on_exit (states_ m) source (ctx_ m) in
    let c2 := action_of on_entry (states_ m) source c1 in
    Some (mkMachine c2 source (initial_state_ m) (started_ m) (pending_target_ m) (states_ m))
  else
    lca ← FindLCA (parents m) source target;
    exit_path ← BuildExitPath (parents m) source lca;
    let c1 := run_path on_exit (states_ m) exit_path (ctx_ m) in
    entry_path ← BuildEntryPath (parents m) lca target;
    let c2 := run_path on_entry (states_ m) (reverse entry_path) c1 in
    Some (mkMachine c2 target (initial_state_ m) (started_ m) (pending_target_ m) (states_ m)).

(** [RequestTransition(target)] on a machine with [count] states. *)
Definition RequestTransition (count : Z) : RequestFn := fun target pending =>
  if (target <? 0) || (count <=? target) then (kUnhandled, pending) else (kTransition, target).

Definition set_run (m : StateMachine) (c : Context_) (pending : Z) : StateMachine :=
  mkMachine c (current_state_ m) (initial_state_ m) (started_ m) pending (states_ m).

(** The loop of Dispatch from [state] upwards. *)
Fixpoint Dispatch_loop (fuel : nat) (event : Event) (state : Z) (m : StateMachine) : option StateMachine :=
  if 0 <=? state then
    match fuel with
    | O => None
    | S fuel' =>
      sc ← states_ m !! Z.to_nat state;
      if match guard sc with Some g => negb (g (ctx_ m) event) | None => false end
      then Dispatch_loop fuel' event (parent_index sc) m
      else
        match handler sc with
        | Some h =>
          let '(result, c, pending) := h (RequestTransition (state_count_ m)) (ctx_ m) event (pending_target_ m) in
          match result with
          | kHandled => Some (set_run m c pending)
          | kTransition =>
            if 0 <=? pending then TransitionTo pending (set_run m c kNoState) else None
          | kUnhandled => Dispatch_loop fuel' event (parent_index sc) (set_run m c pending)
          end
        | None => Dispatch_loop fuel' event (parent_index sc) m
        end
    end
  else Some m.

Definition Dispatch (event : Event) (m : StateMachine) : option StateMachine :=
  if started_ m then Dispatch_loop (hfuel (parents m)) event (current_state_ m) m else None.

Definition ForceTransition (target : Z) (m : StateMachine) : option (bool * StateMachine) :=
  if negb (started_ m) then Some (false, m)
  else if (target <? 0) || (state_count_ m <=? target) then Some (false, m)
  else m' ← TransitionTo target m; Some (true, m').

Definition CurrentState (m : StateMachine) : Z := current_state_ m.
Definition CurrentStateName (m : StateMachine) : option string :=
  if current_state_ m <? 0 then Some ""%string
  else sc ← states_ m !! Z.to_nat (current_state_ m); Some (name sc).
Definition IsInState (state_index : Z) (m : StateMachine) : option bool :=
  is_in_loop (hfuel (parents m)) (parents m) (current_state_ m) state_index.
Definition IsStarted (m : StateMachine) : bool := started_ m.
Definition StateCount (m : StateMachine) : Z := state_count_ m.

(** ** Actions and the active configuration *)

Inductive action := AExit (s : Z) | AEnter (s : Z).

Definition action_in (n : nat) (a : action) : Prop :=
  match a with AExit s | AEnter s => 0 <= s < Z.of_nat n end.

Definition run_action (sts : list StateConfig) (c : Context_) (a : action) : Context_ :=
  match a with AExit s => action_of on_exit sts s c | AEnter s => action_of on_entry sts s c end.
Definition run_actions (sts : list StateConfig) (acts : list action) (c : Context_) : Context_ :=
  fold_left (run_action sts) acts c.

(** The stack discipline of a statechart: the active states, innermost first.
    A state is exited only while it is the innermost active one, and entered
    only as a child of the innermost active one. *)
Definition active_step (ps : list Z) (stack : option (list Z)) (a : action) : option (list Z) :=
  st ← stack;
  match a with
  | AExit s => match st with x :: st' => if x =? s then Some st' else None | [] => None end
  | AEnter s =>
    p ← parent_of ps s;
    if p =? match st with x :: _ => x | [] => -1 end then Some (s :: st) else None
  end.
Definition active_run (ps : list Z) (acts : list action) (stack : list Z) : option (list Z) :=
  fold_left (active_step ps) acts (Some stack).

Lemma run_path_exit sts path c : run_path on_exit sts path c = run_actions sts (AExit <$> path) c.
Proof. revert c. induction path as [|x path IH]; intros c; [done|]. apply IH. Qed.

Lemma run_path_entry sts path c : run_path on_entry sts path c = run_actions sts (AEnter <$> path) c.
Proof. revert c. induction path as [|x path IH]; intros c; [done|]. apply IH. Qed.

Lemma run_actions_app sts a b c : run_actions sts (a ++ b) c = run_actions sts b (run_actions sts a c).
Proof. apply fold_left_app. Qed.

Lemma active_run_app ps a b l l' : active_run ps a l = Some l' -> active_run ps (a ++ b) l = active_run ps b l'.
Proof. unfold active_run. rewrite fold_left_app. by intros ->. Qed.

Lemma active_exits ps pre l : active_run ps (AExit <$> pre) (pre ++ l) = Some l.
Proof.
  induction pre as [|x pre IH]; [done|]. unfold active_run in *. csimpl. by rewrite Z.eqb_refl.
Qed.

(** Entering the part of a chain below [l], outermost first. *)
Lemma active_entries ps s pre l : chain ps s (pre ++ l) -> active_run ps (AEnter <$> reverse pre) l = Some (pre ++ l).
Proof.
  revert s. induction pre as [|x pre IH]; intros s Hc; [done|].
  simpl in Hc. inversion Hc as [|? p ? Hs Hp Hc']; subst.
  rewrite reverse_cons, fmap_app. rewrite (active_run_app _ _ _ _ _ (IH _ Hc')).
  unfold active_run. csimpl. rewrite Hp. simpl.
  destruct (pre ++ l) as [|y r]; inversion Hc'; subst; by rewrite Z.eqb_refl.
Qed.

Lemma chain_self_actions ps s l : chain ps s l -> 0 <= s -> active_run ps [AExit s; AEnter s] l = Some l.
Proof.
  intros Hc Hs. inversion Hc as [|? p l' _ Hp Hc']; subst; [lia|].
  unfold active_run. simpl. rewrite Z.eqb_refl. simpl. rewrite Hp. simpl.
  destruct l' as [|y r]; inversion Hc'; subst; by rewrite Z.eqb_refl.
Qed.

Lemma elem_app_fmap (pre l : list Z) x : NoDup (pre ++ l) -> x ∈ pre <-> x ∈ pre ++ l /\ x ∉ l.
Proof. rewrite NoDup_app, elem_of_app. naive_solver. Qed.

(** TransitionTo runs a list of exit and entry actions that turns one chain
    into the other and touches only the states the chains do not share. *)
Lemma TransitionTo_actions m target l1 l2 :
  chain (parents m) (current_state_ m) l1 -> chain (parents m) target l2 -> 0 <= current_state_ m ->
  Z.of_nat (length l1) <= kHsmMaxDepth -> Z.of_nat (length l2) <= kHsmMaxDepth ->
  exists acts,
    TransitionTo target m =
      Some (mkMachine (run_actions (states_ m) acts (ctx_ m)) target (initial_state_ m) (started_ m)
              (pending_target_ m) (states_ m)) /\
    active_run (parents m) acts l1 = Some l2 /\
    (current_state_ m <> target -> forall s,
       (AExit s ∈ acts <-> s ∈ l1 /\ s ∉ l2) /\ (AEnter s ∈ acts <-> s ∈ l2 /\ s ∉ l1)) /\
    Forall (action_in (length (states_ m))) acts.
Proof.
  intros H1 H2 Hs Hd1 Hd2. unfold TransitionTo.
  assert (Hr : forall s l x, chain (parents m) s l -> x ∈ l -> 0 <= x < Z.of_nat (length (states_ m))).
  { intros s l x Hc Hx. pose proof (chain_elem_range _ _ _ _ Hc Hx) as Hb. unfold parents in Hb.
    by rewrite length_fmap in Hb. }
  destruct (Z.eqb_spec (current_state_ m) target) as [He|Hne].
  - exists [AExit (current_state_ m); AEnter (current_state_ m)]. subst target.
    rewrite (chain_det _ _ _ _ H1 H2) in *. split_and!; [done|by apply chain_self_actions|done|].
    assert (current_state_ m ∈ l2) as Hin by (inversion H2; subst; [lia|by left]).
    pose proof (Hr _ _ _ H2 Hin). by apply Forall_cons_2; [|apply Forall_cons_2; [|apply Forall_nil_2]].
  - destruct (FindLCA_ok _ _ _ _ _ H1 H2) as (a & pre1 & pre2 & l & -> & Ha & -> & -> & Hcom).
    cbn [mbind option_bind]. unfold BuildExitPath, BuildEntryPath.
    rewrite (path_ok _ _ _ _ _ H1 Ha Hd1). cbn [mbind option_bind].
    rewrite (path_ok _ _ _ _ _ H2 Ha Hd2). cbn [mbind option_bind].
    exists ((AExit <$> pre1) ++ (AEnter <$> reverse pre2)).
    rewrite run_actions_app, run_path_exit, run_path_entry. split_and!; [done| | |].
    + rewrite (active_run_app _ _ _ _ _ (active_exits _ _ _)). by eapply active_entries.
    + intros _ s. pose proof (chain_NoDup _ _ _ H1) as N1. pose proof (chain_NoDup _ _ _ H2) as N2.
      rewrite !elem_of_app, !list_elem_of_fmap. setoid_rewrite elem_of_reverse.
      pose proof (elem_app_fmap _ _ s N1). pose proof (elem_app_fmap _ _ s N2).
      specialize (Hcom s). rewrite !elem_of_app in *. naive_solver.
    + apply Forall_app. split; rewrite Forall_fmap, Forall_forall; simpl; intros x Hx.
      * apply (Hr _ _ x H1). apply elem_of_app. by left.
      * apply (Hr _ _ x H2). apply elem_of_app. left. by apply elem_of_reverse.
Qed.

(** ** Machine invariant *)

Definition valid_target (count p : Z) : Prop := p = kNoState \/ 0 <= p < count.

(** The contract of a handler: it changes the pending target only through
    RequestTransition, and returns kTransition only when a target is pending. *)
Definition handler_ok (count : Z) (h : HandlerFn) : Prop :=
  forall c e p, valid_target count p ->
    let '(r, _, p') := h (RequestTransition count) c e p in
    valid_target count p' /\ (r = kTransition -> 0 <= p' < count).

Record minv (m : StateMachine) : Prop := {
  mi_wf : wf_hierarchy (parents m);
  mi_current : started_ m = true -> 0 <= current_state_ m < state_count_ m;
  mi_pending : valid_target (state_count_ m) (pending_target_ m);
  mi_handlers : forall sc h, sc ∈ states_ m -> handler sc = Some h -> handler_ok (state_count_ m) h
}.

Lemma minv_chain m s :
  minv m -> 0 <= s < state_count_ m ->
  exists l, chain (parents m) s l /\ Z.of_nat (length l) <= kHsmMaxDepth.
Proof. intros Hm Hs. apply (mi_wf m Hm). unfold parents. rewrite length_fmap. done. Qed.

Lemma set_run_minv m c p : minv m -> valid_target (state_count_ m) p -> minv (set_run m c p).
Proof. intros [] Hp. by split. Qed.

Lemma TransitionTo_ok m target :
  minv m -> started_ m = true -> 0 <= target < state_count_ m ->
  exists m', TransitionTo target m = Some m' /\ minv m' /\ current_state_ m' = target /\
    started_ m' = true /\ states_ m' = states_ m.
Proof.
  intros Hm Hst Ht. destruct (minv_chain m _ Hm (mi_current m Hm Hst)) as (l1 & H1 & Hd1).
  destruct (minv_chain m _ Hm Ht) as (l2 & H2 & Hd2).
  pose proof (mi_current m Hm Hst).
  destruct (TransitionTo_actions m target l1 l2 H1 H2 ltac:(lia) Hd1 Hd2) as (acts & -> & _).
  eexists. split_and!; [done| |done..]. destruct Hm. by split.
Qed.

(** C6.  From a started machine on a well-formed hierarchy, a transition to
    any state terminates without tripping an assertion, moves the machine to the
    target and changes the context by a list of exit and entry actions that
    (a) respect the statechart discipline, taking the active states from the
    source's ancestor chain to the target's, and (b) for distinct states exit
    exactly the source's ancestors that are not the target's, and enter exactly
    the target's that are not the source's. *)
Theorem hsm_transition_lca m target :
  minv m -> started_ m = true -> 0 <= target < state_count_ m ->
  exists acts l1 l2,
    chain (parents m) (current_state_ m) l1 /\ chain (parents m) target l2 /\
    TransitionTo target m =
      Some (mkMachine (run_actions (states_ m) acts (ctx_ m)) target (initial_state_ m) (started_ m)
              (pending_target_ m) (states_ m)) /\
    active_run (parents m) acts l1 = Some l2 /\
    (current_state_ m <> target -> forall s,
       (AExit s ∈ acts <-> s ∈ l1 /\ s ∉ l2) /\ (AEnter s ∈ acts <-> s ∈ l2 /\ s ∉ l1)).
Proof.
  intros Hm Hst Ht. pose proof (mi_current m Hm Hst).
  destruct (minv_chain m _ Hm (mi_current m Hm Hst)) as (l1 & H1 & Hd1).
  destruct (minv_chain m _ Hm Ht) as (l2 & H2 & Hd2).
  destruct (TransitionTo_actions m target l1 l2 H1 H2 ltac:(lia) Hd1 Hd2) as (acts & ? & ? & ? & _).
  exists acts, l1, l2. by split_and!.
Qed.

(** ** Dispatch along the ancestor chain *)

(** What Dispatch means: the states of the chain are offered the event in
    turn; a state whose guard rejects it or that has no handler is passed over,
    and one that answers kUnhandled leaves its context changes behind. *)
Inductive offer_result :=
| Dropped (c : Context_) (pending : Z)
| Consumed (c : Context_) (pending : Z)
| Moved (c : Context_) (target : Z).

Fixpoint offer (count : Z) (sts : list StateConfig) (e : Event) (l : list Z) (c : Context_) (p : Z) : offer_result :=
  match l with
  | [] => Dropped c p
  | s :: l' =>
    match sts !! Z.to_nat s with
    | None => Dropped c p
    | Some sc =>
      if match guard sc with Some g => negb (g c e) | None => false end then offer count sts e l' c p
      else match handler sc with
           | None => offer count sts e l' c p
           | Some h =>
             let '(r, c', p') := h (RequestTransition count) c e p in
             match r with
             | kHandled => Consumed c' p'
             | kTransition => Moved c' p'
             | kUnhandled => offer count sts e l' c' p'
             end
           end
    end
  end.

Lemma Dispatch_loop_offer fuel e s l m :
  minv m -> chain (parents m) s l -> (length l <= fuel)%nat ->
  Dispatch_loop fuel e s m =
    match offer (state_count_ m) (states_ m) e l (ctx_ m) (pending_target_ m) with
    | Dropped c p | Consumed c p => Some (set_run m c p)
    | Moved c target => TransitionTo target (set_run m c kNoState)
    end /\
  match offer (state_count_ m) (states_ m) e l (ctx_ m) (pending_target_ m) with
  | Dropped c p | Consumed c p => valid_target (state_count_ m) p
  | Moved c target => 0 <= target < state_count_ m
  end.
Proof.
  intros Hm Hc. remember (parents m) as ps eqn:Hps. revert m Hm Hps fuel.
  induction Hc as [|s p l Hs Hp Hc IH]; intros m Hm -> fuel Hf.
  - destruct fuel; simpl; (split; [by destruct m|apply Hm]).
  - simpl in Hf. destruct fuel as [|fuel]; [lia|]. simpl. destruct (Z.leb_spec 0 s); [|lia].
    unfold parent_of, parents in Hp. rewrite list_lookup_fmap in Hp.
    destruct (states_ m !! Z.to_nat s) as [sc|] eqn:Hsc; simplify_eq/=.
    destruct (match guard sc with Some g => negb (g (ctx_ m) e) | None => false end); [by apply IH; [..|lia]|].
    destruct (handler sc) as [h|] eqn:Hh; [|by apply IH; [..|lia]].
    pose proof (mi_handlers m Hm sc h ltac:(by eapply list_elem_of_lookup_2) Hh (ctx_ m) e (pending_target_ m) (mi_pending m Hm)) as Hok.
    destruct (h (RequestTransition (state_count_ m)) (ctx_ m) e (pending_target_ m)) as [[r c] p'].
    destruct Hok as [Hv Ht]. destruct r.
    + done.
    + by apply (IH (set_run m c p')); [apply set_run_minv|..|lia].
    + specialize (Ht eq_refl). by destruct (Z.leb_spec 0 p'); [|lia].
Qed.

Lemma Dispatch_ok m e l :
  minv m -> started_ m = true -> chain (parents m) (current_state_ m) l ->
  exists m', Dispatch e m = Some m' /\ minv m' /\ started_ m' = true /\ states_ m' = states_ m /\
    match offer (state_count_ m) (states_ m) e l (ctx_ m) (pending_target_ m) with
    | Dropped c p | Consumed c p => m' = set_run m c p
    | Moved c target =>
      TransitionTo target (set_run m c kNoState) = Some m' /\ 0 <= target < state_count_ m
    end.
Proof.
  intros Hm Hst Hc. unfold Dispatch. rewrite Hst.
  destruct (Dispatch_loop_offer (hfuel (parents m)) e _ _ m Hm Hc) as [-> Hv].
  { pose proof (chain_fuel _ _ _ Hc). unfold hfuel. lia. }
  destruct (offer _ _ _ _ _ _) as [c p|c p|c target].
  - exists (set_run m c p). split_and!; try done. by apply set_run_minv.
  - exists (set_run m c p). split_and!; try done. by apply set_run_minv.
  - destruct (TransitionTo_ok (set_run m c kNoState) target) as (m' & Ht & Hm' & Hcur & Hs' & Hsts);
      [by apply set_run_minv; [|left]|done|done|].
    exists m'. split_and!; done || apply Hv.
Qed.

(** C39.  Dispatch on a started machine never fails: it offers the event along
    the current state's ancestor chain as [offer] says, executes a transition
    exactly when a handler requested one, and leaves a machine that again
    satisfies the invariant, with the same states. *)
Theorem hsm_dispatch_total m e :
  minv m -> started_ m = true ->
  exists l m', chain (parents m) (current_state_ m) l /\
    Dispatch e m = Some m' /\ minv m' /\ started_ m' = true /\ states_ m' = states_ m /\
    match offer (state_count_ m) (states_ m) e l (ctx_ m) (pending_target_ m) with
    | Dropped c p | Consumed c p => m' = set_run m c p
    | Moved c target =>
      TransitionTo target (set_run m c kNoState) = Some m' /\ 0 <= target < state_count_ m
    end.
Proof.
  intros Hm Hst. destruct (minv_chain m _ Hm (mi_current m Hm Hst)) as (l & Hl & _).
  destruct (Dispatch_ok m e l Hm Hst Hl) as (m' & ?). by exists l, m'.
Qed.

(** ** The build phase *)

(** A machine under construction: each state was added after its parent. *)
Definition building (m : StateMachine) : Prop :=
  started_ m = false /\ parents_first (parents m) /\ state_count_ m <= MaxStates.

Lemma AddState_building config m i m' :
  building m -> -1 <= parent_index config < state_count_ m ->
  AddState config m = Some (i, m') -> building m'.
Proof.
  intros (Hs & Hp & Hc) Hpar. unfold AddState. rewrite Hs.
  destruct (Z.leb_spec MaxStates (state_count_ m)); intros [= <- <-]; [done|].
  split_and!; [done| |unfold state_count_ in *; simpl; rewrite length_app; simpl; lia].
  intros j p. unfold parents. simpl. rewrite fmap_app. intros [Hj|[Hge Hj]]%lookup_app_Some; [by apply Hp|].
  rewrite length_fmap in *. unfold state_count_ in *.
  destruct (j - length (states_ m))%nat eqn:Hd; simplify_eq/=. lia.
Qed.

(** Adds the given states in order. *)
Fixpoint add_all (configs : list StateConfig) (m : StateMachine) : option StateMachine :=
  match configs with
  | [] => Some m
  | config :: configs' => '(_, m') ← AddState config m; add_all configs' m'
  end.

Lemma add_all_building configs m :
  building m -> (forall i sc, configs !! i = Some sc -> -1 <= parent_index sc < state_count_ m + Z.of_nat i) ->
  state_count_ m + Z.of_nat (length configs) <= MaxStates ->
  exists m', add_all configs m = Some m' /\ building m' /\ states_ m' = states_ m ++ configs.
Proof.
  revert m. induction configs as [|sc configs IH]; intros m Hb Hpar Hlen; simpl in *.
  { exists m. by rewrite app_nil_r. }
  pose proof (Hpar 0%nat sc eq_refl) as Hp0.
  destruct (AddState sc m) as [[i m1]|] eqn:Ha; [|unfold AddState in Ha; rewrite (proj1 Hb) in Ha; by destruct (_ <=? _)].
  pose proof (AddState_building sc m i m1 Hb ltac:(lia) Ha) as Hb1. simpl.
  unfold AddState in Ha. rewrite (proj1 Hb) in Ha. destruct (Z.leb_spec MaxStates (state_count_ m)); [lia|].
  simplify_eq. destruct (IH _ Hb1) as (m' & Hadd & Hb' & Hst).
  - intros j sc' Hj. specialize (Hpar (S j) sc' Hj). unfold state_count_ in *. simpl. rewrite length_app. simpl. lia.
  - unfold state_count_ in *. simpl. rewrite length_app. simpl. lia.
  - exists m'. split_and!; [done..|]. rewrite Hst. simpl. by rewrite <- app_assoc.
Qed.

(** Building a machine the way the documentation shows, every state
    added after its parent and at most MaxStates <= OSP_HSM_MAX_DEPTH of them,
    always succeeds and gives the well-formed hierarchy the other theorems ask
    for. *)
Lemma hsm_build_well_formed ctx configs :
  (forall i sc, configs !! i = Some sc -> -1 <= parent_index sc < Z.of_nat i) ->
  Z.of_nat (length configs) <= MaxStates <= kHsmMaxDepth ->
  exists m, add_all configs (StateMachine_ctor ctx) = Some m /\ states_ m = configs /\ wf_hierarchy (parents m).
Proof.
  intros Hpar Hlen.
  destruct (add_all_building configs (StateMachine_ctor ctx)) as (m & Ha & (_ & Hpf & Hc) & Hs).
  - split_and!; [done|by intros ? ?|unfold state_count_; simpl; lia].
  - intros i sc Hi. specialize (Hpar i sc Hi). unfold state_count_. simpl. lia.
  - unfold state_count_. simpl. lia.
  - exists m. split_and!; [done..|]. apply parents_first_wf; [done|].
    unfold parents, state_count_ in *. rewrite length_fmap. lia.
Qed.

(** Starting a machine enters the initial state's ancestors outermost
    first: the entry actions take the empty configuration to the initial state's
    chain, and the started machine satisfies the invariant. *)
Lemma hsm_start_enters_chain m :
  minv m -> started_ m = false -> 0 <= initial_state_ m < state_count_ m ->
  exists m' acts l, Start m = Some m' /\ minv m' /\ started_ m' = true /\
    current_state_ m' = initial_state_ m /\ chain (parents m) (initial_state_ m) l /\
    ctx_ m' = run_actions (states_ m) acts (ctx_ m) /\ active_run (parents m) acts [] = Some l.
Proof.
  intros Hm Hst Hi. destruct (minv_chain m _ Hm Hi) as (l & Hl & Hd).
  unfold Start. rewrite Hst. destruct (Z.leb_spec 0 (initial_state_ m)); [|lia].
  unfold BuildEntryPath. rewrite <- (app_nil_r l) in Hl.
  rewrite (path_ok _ _ l [] kNoState Hl (chain_root _)) by (by rewrite app_nil_r).
  cbn [mbind option_bind]. eexists _, (AEnter <$> reverse l), l.
  split_and!; [done| |done..| | |].
  - destruct Hm. by split.
  - by rewrite app_nil_r in Hl.
  - simpl. by rewrite run_path_entry.
  - rewrite (active_entries _ _ l [] Hl). by rewrite app_nil_r.
Qed.

(** ** The active configuration of a run *)

Section Observed.
(** A context that observes its entry and exit actions: [active] reads the
    stack of active states from it; handlers do not touch that part. *)
Context (active : Context_ -> option (list Z)).

Record observed (sts : list StateConfig) : Prop := {
  obs_exit : forall s c, 0 <= s < Z.of_nat (length sts) -> active (action_of on_exit sts s c) =
    active_step (parent_index <$> sts) (active c) (AExit s);
  obs_enter : forall s c, 0 <= s < Z.of_nat (length sts) -> active (action_of on_entry sts s c) =
    active_step (parent_index <$> sts) (active c) (AEnter s);
  obs_handler : forall sc h rq c e p, sc ∈ sts -> handler sc = Some h -> active (h rq c e p).1.2 = active c
}.

Lemma observed_run sts acts c l :
  observed sts -> Forall (action_in (length sts)) acts -> active c = Some l ->
  active (run_actions sts acts c) = active_run (parent_index <$> sts) acts l.
Proof.
  intros Ho Hr. unfold active_run. generalize (Some l). revert c.
  induction Hr as [|a acts Ha Hr IH]; intros c o Hc; [done|].
  simpl. apply IH. rewrite <- Hc. destruct a; simpl; [by apply obs_exit|by apply obs_enter].
Qed.

Lemma observed_offer sts count e l c p :
  observed sts ->
  match offer count sts e l c p with
  | Dropped c' _ | Consumed c' _ | Moved c' _ => active c' = active c
  end.
Proof.
  intros Ho. revert c p. induction l as [|s l IH]; intros c p; simpl; [done|].
  destruct (sts !! Z.to_nat s) as [sc|] eqn:Hsc; [|done].
  destruct (match guard sc with Some g => negb (g c e) | None => false end); [apply IH|].
  destruct (handler sc) as [h|] eqn:Hh; [|apply IH].
  pose proof (obs_handler sts Ho sc h (RequestTransition count) c e p ltac:(by eapply list_elem_of_lookup_2) Hh) as Ha.
  destruct (h _ c e p) as [[r c'] p']. simpl in Ha. destruct r; [done| |done].
  specialize (IH c' p'). destruct (offer _ _ _ _ _ _); congruence.
Qed.

(** The active states are the current state and its ancestors. *)
Definition in_config (m : StateMachine) : Prop :=
  minv m /\ started_ m = true /\ observed (states_ m) /\
  exists l, chain (parents m) (current_state_ m) l /\ active (ctx_ m) = Some l.

Lemma TransitionTo_config m target :
  in_config m -> 0 <= target < state_count_ m ->
  exists m', TransitionTo target m = Some m' /\ in_config m'.
Proof.
  intros (Hm & Hst & Ho & l1 & H1 & Ha) Ht.
  destruct (minv_chain m _ Hm (mi_current m Hm Hst)) as (l1' & H1' & Hd1).
  rewrite (chain_det _ _ _ _ H1' H1) in Hd1. pose proof (mi_current m Hm Hst).
  destruct (minv_chain m _ Hm Ht) as (l2 & H2 & Hd2).
  destruct (TransitionTo_actions m target l1 l2 H1 H2 ltac:(lia) Hd1 Hd2) as (acts & -> & Hrun & _ & Hin).
  eexists. split; [done|]. split_and!; [|done..|].
  - destruct Hm. by split.
  - exists l2. split; [done|]. simpl. rewrite (observed_run _ _ _ l1); done.
Qed.

(** One external call on a started machine. *)
Inductive hsm_step : StateMachine -> StateMachine -> Prop :=
| hs_dispatch m e m' : Dispatch e m = Some m' -> hsm_step m m'
| hs_force m target b m' : ForceTransition target m = Some (b, m') -> hsm_step m m'.

Lemma hsm_step_config m m' : hsm_step m m' -> in_config m -> in_config m'.
Proof.
  intros [m0 e m1 Hd|m0 target b m1 Hf] Hc.
  - pose proof Hc as (Hm & Hst & Ho & l & Hl & Ha).
    destruct (Dispatch_ok m0 e l Hm Hst Hl) as (m2 & Hd2 & Hm2 & Hst2 & Hsts & Hoff). simplify_eq.
    pose proof (observed_offer (states_ m0) (state_count_ m0) e l (ctx_ m0) (pending_target_ m0) Ho) as Hobs.
    destruct (offer _ _ _ _ _ _) as [c p|c p|c target].
    + subst. split_and!; try done. exists l. split; [done|]. simpl. congruence.
    + subst. split_and!; try done. exists l. split; [done|]. simpl. congruence.
    + destruct Hoff as [Ht Hr].
      destruct (TransitionTo_config (set_run m0 c kNoState) target) as (m3 & Ht3 & Hc3); [|done|congruence].
      split_and!; [by apply set_run_minv; [|left]|done..|]. exists l. split; [done|]. simpl. congruence.
  - unfold ForceTransition in Hf. pose proof Hc as (_ & Hst & _). rewrite Hst in Hf. simpl in Hf.
    destruct (_ || _) eqn:Hr; [by simplify_eq|]. bool_prop.
    destruct (TransitionTo_config m0 target Hc ltac:(lia)) as (m3 & Ht3 & Hc3).
    rewrite Ht3 in Hf. by simplify_eq/=.
Qed.

(** C7.  Through any number of dispatches and forced transitions, whatever
    the handlers request, the states that have been entered and not exited are,
    in nesting order, exactly the current state and its ancestors. *)
Theorem hsm_active_configuration m m' :
  in_config m -> rtc hsm_step m m' ->
  exists l, chain (parents m') (current_state_ m') l /\ active (ctx_ m') = Some l.
Proof.
  intros Hc Hr. apply (rtc_invariant hsm_step in_config) in Hr; [|done|apply hsm_step_config].
  destruct Hr as (_ & _ & _ & Hl). exact Hl.
Qed.

End Observed.

(** IsInState answers membership in the ancestor chain. *)
Lemma IsInState_ok m l x :
  chain (parents m) (current_state_ m) l -> 0 <= x -> IsInState x m = Some (bool_decide (x ∈ l)).
Proof.
  intros Hc Hx. apply is_in_loop_ok; [done|done|]. pose proof (chain_fuel _ _ _ Hc). unfold hfuel. lia.
Qed.

End Hsm.

(** ** A concrete machine

    Root 0 with children 1 and 2; 3 is a child of 2.  The context is the stack
    its own actions maintain, so that it observes them. *)

Definition demo_parents : list Z := [-1; 0; 0; 2].

Definition demo_action (a : action) (c : option (list Z)) : option (list Z) := active_step demo_parents c a.

(** Event 7 requests a transition from state 1 to state 3; everything else
    bubbles up. *)
Definition demo_handler : HandlerFn (Context_ := option (list Z)) (Payload := unit) :=
  fun rq c e p => let '(r, p') := if event_id e =? 7 then rq 3 p else (kUnhandled, p) in (r, c, p').

Definition demo_config (i : Z) : StateConfig (Context_ := option (list Z)) (Payload := unit) :=
  mkStateConfig "s"%string (aget demo_parents i) (if i =? 1 then Some demo_handler else None)
    (Some (demo_action (AEnter i))) (Some (demo_action (AExit i))) None.

Definition demo_machine : StateMachine :=
  mkMachine (Some [1; 0]) 1 1 true kNoState [demo_config 0; demo_config 1; demo_config 2; demo_config 3].

Lemma demo_handler_ok n : 3 < n -> handler_ok n demo_handler.
Proof.
  intros Hn c e p Hp. unfold demo_handler, RequestTransition.
  destruct (event_id e =? 7); simpl; [|split; [done|done]].
  destruct (Z.leb_spec n 3); [lia|]. simpl. split; [right; lia|lia].
Qed.

Lemma demo_minv : minv demo_machine.
Proof.
  split.
  - apply wf_hierarchy_b_sound. vm_compute. reflexivity.
  - intros _. unfold state_count_. simpl. lia.
  - by left.
  - intros sc h Hin Hh. unfold state_count_. simpl in *.
    rewrite !elem_of_cons in Hin. destruct Hin as [->|[->|[->|[->|Hin]]]]; simpl in Hh; try done.
    + simplify_eq. apply demo_handler_ok. lia.
    + by apply elem_of_nil in Hin.
Qed.

Lemma demo_in_config : in_config id demo_machine.
Proof.
  split_and!; [apply demo_minv|done| |].
  - split.
    + intros s c Hs. simpl in Hs. assert (s = 0 \/ s = 1 \/ s = 2 \/ s = 3) as Hc by lia.
      destruct Hc as [->|[->|[->| ->] ] ]; reflexivity.
    + intros s c Hs. simpl in Hs. assert (s = 0 \/ s = 1 \/ s = 2 \/ s = 3) as Hc by lia.
      destruct Hc as [->|[->|[->| ->] ] ]; reflexivity.
    + intros sc h rq c e p Hin Hh. simpl in Hin.
      rewrite !elem_of_cons in Hin. destruct Hin as [->|[->|[->|[->|Hin]]]]; simpl in Hh; try done.
      * simplify_eq. unfold demo_handler. by destruct (if event_id e =? 7 then rq 3 p else (kUnhandled, p)).
      * by apply elem_of_nil in Hin.
  - exists [1; 0]. split; [|done]. simpl.
    apply (chain_cons _ 1 0); [lia|done|]. apply (chain_cons _ 0 (-1)); [lia|done|]. apply chain_root.
Qed.

Lemma hsm_build_well_formed_witness :
  exists m, add_all 16 [demo_config 0; demo_config 1; demo_config 2; demo_config 3] (StateMachine_ctor None) = Some m /\
    wf_hierarchy (parents m).
Proof.
  destruct (hsm_build_well_formed 16 None [demo_config 0; demo_config 1; demo_config 2; demo_config 3])
    as (m & Ha & _ & Hw).
  - intros i sc Hi. do 4 (destruct i as [|i]; [injection Hi as <-; vm_compute; intuition congruence|]). discriminate Hi.
  - simpl. unfold kHsmMaxDepth. lia.
  - exists m. split; [exact Ha|exact Hw].
Defined.

Lemma hsm_transition_lca_witness :
  exists acts l1 l2, active_run (parents demo_machine) acts l1 = Some l2 /\ (AExit 1 ∈ acts <-> 1 ∈ l1 /\ 1 ∉ l2).
Proof.
  destruct (hsm_transition_lca demo_machine 3 demo_minv eq_refl ltac:(unfold state_count_; simpl; lia))
    as (acts & l1 & l2 & _ & _ & _ & Hrun & Hex).
  exists acts, l1, l2. split; [exact Hrun|]. apply Hex. simpl. lia.
Defined.

Lemma hsm_dispatch_total_witness :
  exists m', Dispatch (mkEvent 7 None) demo_machine = Some m' /\ minv m'.
Proof.
  destruct (hsm_dispatch_total demo_machine (mkEvent 7 None) demo_minv eq_refl) as (l & m' & _ & Hd & Hm & _).
  exists m'. split; assumption.
Defined.

Definition demo_unstarted : StateMachine :=
  mkMachine (Some []) kNoState 3 false kNoState [demo_config 0; demo_config 1; demo_config 2; demo_config 3].

Lemma hsm_start_enters_chain_witness : exists m', Start demo_unstarted = Some m' /\ current_state_ m' = 3.
Proof.
  assert (Hm : minv demo_unstarted) by (destruct demo_minv as [H1 H2 H3 H4]; split; [assumption|discriminate|assumption|assumption]).
  destruct (hsm_start_enters_chain demo_unstarted Hm eq_refl ltac:(unfold state_count_; simpl; lia))
    as (m' & acts & l & Hs & _ & _ & Hc & _).
  exists m'. split; [exact Hs|exact Hc].
Defined.

Lemma hsm_active_configuration_witness :
  exists m' l, Dispatch (mkEvent 7 None) demo_machine = Some m' /\
    chain (parents m') (current_state_ m') l /\ ctx_ m' = Some l.
Proof.
  assert (Hd : exists m', Dispatch (mkEvent 7 None) demo_machine = Some m') by (eexists; vm_compute; reflexivity).
  destruct Hd as [m' Hd].
  destruct (hsm_active_configuration id demo_machine m' demo_in_config
              (rtc_once _ _ (hs_dispatch demo_machine (mkEvent 7 None) m' Hd))) as (l & Hl & Ha).
  exists m', l. split; [exact Hd|split; [exact Hl|exact Ha]].
Defined.
