(* ===== verification/HsmTable.v ===== *)
(** * TableHsm (include/osp/hsm_table.hpp)

    The table-driven state machine.  It shares its hierarchy algorithms with
    hsm.hpp (Hierarchy.v) but keeps its decisions in a transition table, climbs
    with its own loops and truncates its path buffers instead of asserting.
    [None] is a read outside the tables or a parent cycle. *)

From Stdlib Require Import ZArith Lia Bool String.
From stdpp Require Import base numbers list option relations.
From S2P Require Import Prelude Hierarchy Hsm.

Open Scope Z_scope.

Inductive TransitionKind := kExternal | kInternal | kSelf.

#[export] Instance TransitionKind_eq_dec : EqDecision TransitionKind.
Proof. solve_decision. Defined.

Section TableHsm.
Context {Context_ Payload : Type}.
Context (MaxStates : Z).

Record StateDef := mkStateDef {
  sd_name : string;
  sd_parent : Z;
  sd_on_entry : option (Context_ -> Context_);
  sd_on_exit : option (Context_ -> Context_)
}.

(** Guards take the context by mutable reference. *)
Record TransitionDef := mkTransitionDef {
  td_from : Z;
  td_event : Z;
  td_to : Z;
  td_kind : TransitionKind;
  td_action : option (Context_ -> option Payload -> Context_);
  td_guard : option (Context_ -> option Payload -> bool * Context_)
}.

Record TableHsm := mkTable {
  t_ctx : Context_;
  t_states : list StateDef;
  t_transitions : list TransitionDef;
  t_current : Z;
  t_initial : Z;
  t_started : bool
}.

Definition t_parents (m : TableHsm) : list Z := sd_parent <$> t_states m.
Definition t_count (m : TableHsm) : Z := Z.of_nat (length (t_states m)).

Definition TableHsm_ctor (ctx : Context_) (states : list StateDef) (transitions : list TransitionDef) : TableHsm :=
  mkTable ctx states transitions kNoState kNoState false.

Definition t_SetInitialState (state_index : Z) (m : TableHsm) : TableHsm :=
  mkTable (t_ctx m) (t_states m) (t_transitions m) (t_current m) state_index (t_started m).

Definition t_action_of (field : StateDef -> option (Context_ -> Context_)) (sts : list StateDef)
    (idx : Z) (c : Context_) : Context_ :=
  match sts !! Z.to_nat idx with
  | Some sd => match field sd with Some f => f c | None => c end
  | None => c
  end.

(** The path loops of RunEntryPath ([below] = kNoState) and RunEntryPathTo:
    the buffer is filled up to MaxStates entries and no further. *)
Fixpoint t_path_loop (fuel : nat) (ps : list Z) (s below : Z) (path : list Z) : option (list Z) :=
  if (0 <=? s) && negb (s =? below) && (Z.of_nat (length path) <? MaxStates) then
    match fuel with
    | O => None
    | S fuel' => p ← parent_of ps s; t_path_loop fuel' ps p below (path ++ [s])
    end
  else Some path.

Definition RunEntryPathTo (node below : Z) (m : TableHsm) (c : Context_) : option Context_ :=
  path ← t_path_loop (hfuel (t_parents m)) (t_parents m) node below [];
  Some (fold_left (fun c idx => t_action_of sd_on_entry (t_states m) idx c) (reverse path) c).

Definition RunEntryPath (leaf : Z) (m : TableHsm) (c : Context_) : option Context_ :=
  path ← t_path_loop (hfuel (t_parents m)) (t_parents m) leaf kNoState [];
  Some (fold_left (fun c idx => t_action_of sd_on_entry (t_states m) idx c) (reverse path) c).

Definition t_Start (m : TableHsm) : option TableHsm :=
  if t_initial m <? 0 then Some m
  else
    c ← RunEntryPath (t_initial m) m (t_ctx m);
    Some (mkTable c (t_states m) (t_transitions m) (t_initial m) (t_initial m) true).

(** The loop of FindTransition: the first row for the state and event whose
    guard passes. *)
Fixpoint FindTransition (rows : list TransitionDef) (state event : Z) (data : option Payload) (c : Context_)
    : option TransitionDef * Context_ :=
  match rows with
  | [] => (None, c)
  | t :: rows' =>
    if (td_from t =? state) && (td_event t =? event) then
      match td_guard t with
      | None => (Some t, c)
      | Some g =>
        let '(ok, c') := g c data in
        if ok then (Some t, c') else FindTransition rows' state event data c'
      end
    else FindTransition rows' state event data c
  end.

(** [while (d1 > d2) { a = (a >= 0) ? states_[a].parent : kNoState; --d1; }] *)
Fixpoint t_climb (n : nat) (ps : list Z) (a : Z) : option Z :=
  match n with
  | O => Some a
  | S n' => a' ← parent_or_none ps a; t_climb n' ps a'
  end.

Definition FindLca (ps : list Z) (s1 s2 : Z) : option Z :=
  d1 ← Depth ps s1;
  d2 ← Depth ps s2;
  a ← t_climb (Z.to_nat (d1 - d2)) ps s1;
  b ← t_climb (Z.to_nat (d2 - d1)) ps s2;
  meet_loop (hfuel ps) ps a b.

(** The exit loop of TransitionTo: exits as it climbs, without a buffer. *)
Fixpoint t_exit_loop (fuel : nat) (sts : list StateDef) (ps : list Z) (s lca : Z) (c : Context_) : option Context_ :=
  if (0 <=? s) && negb (s =? lca) then
    match fuel with
    | O => None
    | S fuel' => p ← parent_of ps s; t_exit_loop fuel' sts ps p lca (t_action_of sd_on_exit sts s c)
    end
  else Some c.

Definition t_TransitionTo (target : Z) (m : TableHsm) : option TableHsm :=
  let source := t_current m in
  if source =? target then
    let c1 := t_action_of sd_on_exit (t_states m) source (t_ctx m) in
    let c2 := t_action_of sd_on_entry (t_states m) source c1 in
    Some (mkTable c2 (t_states m) (t_transitions m) source (t_initial m) (t_started m))
  else
    lca ← FindLca (t_parents m) source target;
    c1 ← t_exit_loop (hfuel (t_parents m)) (t_states m) (t_parents m) source lca (t_ctx m);
    c2 ← RunEntryPathTo target lca m c1;
    Some (mkTable c2 (t_states m) (t_transitions m) target (t_initial m) (t_started m)).

Definition t_set_ctx (c : Context_) (m : TableHsm) : TableHsm :=
  mkTable c (t_states m) (t_transitions m) (t_current m) (t_initial m) (t_started m).

Definition Apply (t : TransitionDef) (data : option Payload) (m : TableHsm) : option TableHsm :=
  let c := match td_action t with Some f => f (t_ctx m) data | None => t_ctx m end in
  if decide (kInternal = td_kind t) then Some (t_set_ctx c m)
  else t_TransitionTo (td_to t) (t_set_ctx c m).

Fixpoint t_Dispatch_loop (fuel : nat) (event : Event (Payload := Payload)) (state : Z) (m : TableHsm) : option TableHsm :=
  if 0 <=? state then
    match fuel with
    | O => None
    | S fuel' =>
      let '(row, c) := FindTransition (t_transitions m) state (event_id event) (event_data event) (t_ctx m) in
      match row with
      | Some t => Apply t (event_data event) (t_set_ctx c m)
      | None => p ← parent_of (t_parents m) state; t_Dispatch_loop fuel' event p (t_set_ctx c m)
      end
    end
  else Some m.

Definition t_Dispatch (event : Event) (m : TableHsm) : option TableHsm :=
  if negb (t_started m) then Some m
  else t_Dispatch_loop (hfuel (t_parents m)) event (t_current m) m.

Definition t_ForceTransition (target : Z) (m : TableHsm) : option (bool * TableHsm) :=
  if negb (t_started m) then Some (false, m)
  else if (target <? 0) || (t_count m <=? target) then Some (false, m)
  else m' ← t_TransitionTo target m; Some (true, m').

Definition t_IsInState (state_index : Z) (m : TableHsm) : option bool :=
  is_in_loop (hfuel (t_parents m)) (t_parents m) (t_current m) state_index.

(** ** Agreement with the handler-driven machine *)

(** The states of the table as a StateMachine without handlers or guards. *)
Definition as_config (sd : StateDef) : StateConfig (Context_ := Context_) (Payload := Payload) :=
  mkStateConfig (sd_name sd) (sd_parent sd) None (sd_on_entry sd) (sd_on_exit sd) None.

Definition as_machine (m : TableHsm) : StateMachine :=
  mkMachine (t_ctx m) (t_current m) (t_initial m) (t_started m) kNoState (as_config <$> t_states m).

Lemma as_machine_parents m : parents (as_machine m) = t_parents m.
Proof. unfold parents, t_parents. simpl. by rewrite <- list_fmap_compose. Qed.

Lemma as_action_exit sts s c : action_of on_exit (as_config <$> sts) s c = t_action_of sd_on_exit sts s c.
Proof. unfold action_of, t_action_of. rewrite list_lookup_fmap. by destruct (sts !! Z.to_nat s). Qed.

Lemma as_action_entry sts s c : action_of on_entry (as_config <$> sts) s c = t_action_of sd_on_entry sts s c.
Proof. unfold action_of, t_action_of. rewrite list_lookup_fmap. by destruct (sts !! Z.to_nat s). Qed.

Lemma t_climb_eq ps n s l : chain ps s l -> (n <= length l)%nat -> t_climb n ps s = climb n ps s.
Proof.
  revert s l. induction n as [|n IH]; intros s l Hc Hn; [done|].
  destruct Hc as [|s p l Hs Hp Hc]; simpl in Hn; [lia|]. simpl.
  unfold parent_or_none. destruct (Z.leb_spec 0 s); [|lia]. rewrite Hp. simpl. apply (IH _ l); [done|lia].
Qed.

Lemma FindLca_eq ps s1 s2 l1 l2 : chain ps s1 l1 -> chain ps s2 l2 -> FindLca ps s1 s2 = FindLCA ps s1 s2.
Proof.
  intros H1 H2. unfold FindLca, FindLCA. rewrite (Depth_ok _ _ _ H1), (Depth_ok _ _ _ H2). cbn [mbind option_bind].
  by rewrite (t_climb_eq ps _ s1 l1), (t_climb_eq ps _ s2 l2) by (done || lia).
Qed.

Lemma t_exit_loop_ok fuel sts ps s pre l a c :
  chain ps s (pre ++ l) -> chain ps a l -> (length pre <= fuel)%nat ->
  t_exit_loop fuel sts ps s a c = Some (fold_left (fun c idx => t_action_of sd_on_exit sts idx c) pre c).
Proof.
  revert fuel s c. induction pre as [|x pre IH]; intros fuel s c Hc Ha Hf; simpl in *.
  - assert (s = a) as ->.
    { destruct l as [|y l]; inversion Hc; inversion Ha; congruence. }
    destruct fuel; simpl; by rewrite Z.eqb_refl, andb_false_r.
  - destruct fuel as [|fuel]; [lia|]. inversion Hc as [|? p ? Hs Hp Hc']; subst. simpl.
    assert (Hne : x <> a).
    { intros ->. pose proof (chain_det _ _ _ _ Hc Ha) as He. apply (f_equal length) in He.
      simpl in He. rewrite length_app in He. lia. }
    destruct (Z.leb_spec 0 x), (Z.eqb_spec x a); try lia. simpl.
    rewrite Hp. simpl. apply IH; [done..|lia].
Qed.

Lemma t_path_loop_ok fuel ps s pre l a acc :
  chain ps s (pre ++ l) -> chain ps a l -> (length pre <= fuel)%nat ->
  Z.of_nat (length acc + length pre) <= MaxStates ->
  t_path_loop fuel ps s a acc = Some (acc ++ pre).
Proof.
  revert fuel s acc. induction pre as [|x pre IH]; intros fuel s acc Hc Ha Hf Hd; simpl in *.
  - rewrite app_nil_r. assert (s = a) as ->.
    { destruct l as [|y l]; inversion Hc; inversion Ha; congruence. }
    destruct fuel; simpl; by rewrite Z.eqb_refl, andb_false_r.
  - destruct fuel as [|fuel]; [lia|]. inversion Hc as [|? p ? Hs Hp Hc']; subst. simpl.
    assert (Hne : x <> a).
    { intros ->. pose proof (chain_det _ _ _ _ Hc Ha) as He. apply (f_equal length) in He.
      simpl in He. rewrite length_app in He. lia. }
    destruct (Z.leb_spec 0 x), (Z.eqb_spec x a); try lia. simpl.
    destruct (Z.ltb_spec (Z.of_nat (length acc)) MaxStates); [|lia].
    rewrite Hp. simpl. rewrite (IH fuel p (acc ++ [x]) Hc' Ha ltac:(lia)); [by rewrite <- app_assoc|].
    rewrite length_app. simpl. lia.
Qed.

Lemma as_run_exit sts path c :
  run_path on_exit (as_config <$> sts) path c = fold_left (fun c idx => t_action_of sd_on_exit sts idx c) path c.
Proof. revert c. induction path as [|x path IH]; intros c; [done|]. simpl. by rewrite as_action_exit. Qed.

Lemma as_run_entry sts path c :
  run_path on_entry (as_config <$> sts) path c = fold_left (fun c idx => t_action_of sd_on_entry sts idx c) path c.
Proof. revert c. induction path as [|x path IH]; intros c; [done|]. simpl. by rewrite as_action_entry. Qed.

(** C37.  The table-driven machine performs the same transitions as the
    handler-driven one: on a well-formed state table of at most MaxStates states,
    a transition between any two states succeeds in both, with the same context
    effects in the same order and the same resulting state. *)
Theorem table_transition_agrees m target :
  wf_hierarchy (t_parents m) -> t_count m <= MaxStates ->
  0 <= t_current m < t_count m -> 0 <= target < t_count m ->
  as_machine <$> t_TransitionTo target m = TransitionTo target (as_machine m) /\
  is_Some (t_TransitionTo target m).
Proof.
  intros Hwf Hmax Hc Ht.
  assert (Hn : length (t_parents m) = length (t_states m)) by apply length_fmap.
  destruct (Hwf (t_current m)) as (l1 & H1 & Hd1); [rewrite Hn; done|].
  destruct (Hwf target) as (l2 & H2 & Hd2); [rewrite Hn; done|].
  unfold t_TransitionTo, TransitionTo. rewrite as_machine_parents.
  cbn [as_machine current_state_ ctx_ states_ initial_state_ started_ pending_target_].
  destruct (Z.eqb_spec (t_current m) target); [by rewrite as_action_exit, as_action_entry|].
  rewrite (FindLca_eq _ _ _ _ _ H1 H2).
  destruct (FindLCA_ok _ _ _ _ _ H1 H2) as (a & pre1 & pre2 & l & -> & Ha & -> & -> & _).
  cbn [mbind option_bind]. pose proof (chain_fuel _ _ _ H1) as Hf1. pose proof (chain_fuel _ _ _ H2) as Hf2.
  rewrite length_app in Hf1, Hf2.
  rewrite (t_exit_loop_ok _ _ _ _ pre1 l a _ H1 Ha) by (unfold hfuel; lia). cbn [mbind option_bind].
  unfold BuildExitPath, BuildEntryPath, RunEntryPathTo.
  rewrite (path_ok _ _ _ _ _ H1 Ha Hd1), (path_ok _ _ _ _ _ H2 Ha Hd2). cbn [mbind option_bind].
  unfold t_count in Hmax. rewrite (t_path_loop_ok _ _ _ pre2 l a [] H2 Ha) by (unfold hfuel; simpl; lia).
  cbn [mbind option_bind]. simpl. split; [|by eexists]. by rewrite as_run_exit, as_run_entry.
Qed.

(** FindTransition returns a row of the table for that state and event. *)
Lemma FindTransition_row rows state event data c t c' :
  FindTransition rows state event data c = (Some t, c') -> t ∈ rows /\ td_from t = state /\ td_event t = event.
Proof.
  revert c. induction rows as [|r rows IH]; intros c; simpl; [done|].
  destruct (td_from r =? state) eqn:Hf, (td_event r =? event) eqn:He; simpl;
    try (intros (? & ? & ?)%IH; split_and!; [by right|done..]). bool_prop.
  destruct (td_guard r) as [g|].
  - destruct (g c data) as [[] c1]; [intros [= <- <-]; split_and!; [by left|done..]|].
    intros (? & ? & ?)%IH; split_and!; [by right|done..].
  - intros [= <- <-]. split_and!; [by left|done..].
Qed.

(** A row can only lead to a state of the table. *)
Definition rows_ok (m : TableHsm) : Prop :=
  Forall (fun t => 0 <= td_to t < t_count m) (t_transitions m).

Lemma t_TransitionTo_ok m target :
  wf_hierarchy (t_parents m) -> t_count m <= MaxStates ->
  0 <= t_current m < t_count m -> 0 <= target < t_count m ->
  exists c, t_TransitionTo target m = Some (mkTable c (t_states m) (t_transitions m) target (t_initial m) (t_started m)).
Proof.
  intros Hwf Hmax Hc Ht.
  assert (Hn : length (t_parents m) = length (t_states m)) by apply length_fmap.
  destruct (Hwf (t_current m)) as (l1 & H1 & Hd1); [rewrite Hn; done|].
  destruct (Hwf target) as (l2 & H2 & Hd2); [rewrite Hn; done|].
  unfold t_TransitionTo. destruct (Z.eqb_spec (t_current m) target) as [->|]; [by eexists|].
  rewrite (FindLca_eq _ _ _ _ _ H1 H2).
  destruct (FindLCA_ok _ _ _ _ _ H1 H2) as (a & pre1 & pre2 & l & -> & Ha & -> & -> & _).
  cbn [mbind option_bind]. pose proof (chain_fuel _ _ _ H1) as Hf1. pose proof (chain_fuel _ _ _ H2) as Hf2.
  rewrite length_app in Hf1, Hf2.
  rewrite (t_exit_loop_ok _ _ _ _ pre1 l a _ H1 Ha) by (unfold hfuel; lia). cbn [mbind option_bind].
  unfold RunEntryPathTo. unfold t_count in Hmax.
  rewrite (t_path_loop_ok _ _ _ pre2 l a [] H2 Ha) by (unfold hfuel; simpl; lia). by eexists.
Qed.

Lemma t_Dispatch_loop_ok fuel e s l m :
  wf_hierarchy (t_parents m) -> t_count m <= MaxStates -> 0 <= t_current m < t_count m -> rows_ok m ->
  chain (t_parents m) s l -> (length l <= fuel)%nat ->
  exists m', t_Dispatch_loop fuel e s m = Some m' /\ t_states m' = t_states m /\
    t_transitions m' = t_transitions m /\ t_started m' = t_started m /\
    (t_current m' = t_current m \/
     exists t, t ∈ t_transitions m /\ td_event t = event_id e /\ td_from t ∈ l /\ t_current m' = td_to t).
Proof.
  intros Hwf Hmax Hcur Hrows Hc. remember (t_parents m) as ps eqn:Hps. revert m Hwf Hmax Hcur Hrows Hps fuel.
  induction Hc as [|s p l Hs Hp Hc IH]; intros m Hwf Hmax Hcur Hrows -> fuel Hf.
  - destruct fuel; simpl; (exists m; split_and!; [done..|by left]).
  - simpl in Hf. destruct fuel as [|fuel]; [lia|]. simpl. destruct (Z.leb_spec 0 s); [|lia].
    destruct (FindTransition (t_transitions m) s (event_id e) (event_data e) (t_ctx m)) as [[t|] c] eqn:Hft.
    + apply FindTransition_row in Hft as (Hin & Hfrom & Hev). unfold Apply.
      pose proof (proj1 (Forall_forall _ _) Hrows t Hin) as Hto. case_decide.
      * eexists. split_and!; [done..|by left].
      * destruct (t_TransitionTo_ok (t_set_ctx (match td_action t with Some f => f c (event_data e) | None => c end) m) (td_to t))
          as (c' & Ht); [done..|].
        change (t_set_ctx _ (t_set_ctx c m))
          with (t_set_ctx (match td_action t with Some f => f c (event_data e) | None => c end) m).
        rewrite Ht. eexists. split_and!; [done..|].
        right. exists t. split_and!; [done..| |done]. rewrite Hfrom. by left.
    + rewrite Hp. simpl.
      destruct (IH (t_set_ctx c m)) with (fuel := fuel) as (m' & Hd & H1 & H2 & H3 & H4); [done..|lia|].
      exists m'. split_and!; [done..|]. destruct H4 as [|(t & ? & ? & ? & ?)]; [by left|].
      right. exists t. split_and!; [done..| |done]. by right.
Qed.

(** Dispatch on a started table machine always returns: the machine stays
    where it is, or moves to the target of a row for that event whose source is
    the current state or one of its ancestors; tables are unchanged. *)
Lemma table_dispatch_total m e :
  wf_hierarchy (t_parents m) -> t_count m <= MaxStates -> 0 <= t_current m < t_count m -> rows_ok m ->
  t_started m = true ->
  exists m' l, chain (t_parents m) (t_current m) l /\ t_Dispatch e m = Some m' /\
    t_states m' = t_states m /\ t_transitions m' = t_transitions m /\ t_started m' = true /\
    (t_current m' = t_current m \/
     exists t, t ∈ t_transitions m /\ td_event t = event_id e /\ td_from t ∈ l /\ t_current m' = td_to t).
Proof.
  intros Hwf Hmax Hcur Hrows Hst.
  destruct (Hwf (t_current m)) as (l & Hl & Hd); [unfold t_parents; rewrite length_fmap; done|].
  unfold t_Dispatch. rewrite Hst. simpl.
  destruct (t_Dispatch_loop_ok (hfuel (t_parents m)) e _ l m Hwf Hmax Hcur Hrows Hl)
    as (m' & Hd' & H1 & H2 & H3 & H4); [pose proof (chain_fuel _ _ _ Hl); unfold hfuel; lia|].
  exists m', l. split_and!; try done. by rewrite H3.
Qed.

End TableHsm.

(** ** A concrete table *)

Definition enter (i : Z) : option (list (action) -> list action) := Some (fun c => c ++ [AEnter i]).
Definition exit (i : Z) : option (list (action) -> list action) := Some (fun c => c ++ [AExit i]).

(** A root 0 with child 1; event 5 on the root is a kSelf row, event 6 moves
    from 1 to the root's other child 2. *)
Definition demo_table : TableHsm (Context_ := list action) (Payload := unit) :=
  mkTable [] [mkStateDef "root"%string (-1) (enter 0) (exit 0); mkStateDef "a"%string 0 (enter 1) (exit 1);
              mkStateDef "b"%string 0 (enter 2) (exit 2)]
    [mkTransitionDef 0 5 0 kSelf None None; mkTransitionDef 1 6 2 kExternal None None] 1 1 true.

Lemma demo_table_wf : wf_hierarchy (t_parents demo_table).
Proof. apply wf_hierarchy_b_sound. vm_compute. reflexivity. Qed.

Lemma table_transition_agrees_witness :
  as_machine <$> t_TransitionTo 16 2 demo_table = TransitionTo 2 (as_machine demo_table).
Proof.
  refine (proj1 (table_transition_agrees 16 demo_table 2 demo_table_wf _ _ _)); unfold t_count; simpl; lia.
Defined.

Lemma table_dispatch_total_witness : exists m', t_Dispatch 16 (mkEvent 6 None) demo_table = Some m'.
Proof.
  destruct (table_dispatch_total 16 demo_table (mkEvent 6 None) demo_table_wf) as (m' & l & _ & Hd & _).
  - unfold t_count; simpl; lia.
  - unfold t_count; simpl; lia.
  - unfold rows_ok, t_count. simpl. do 2 (apply Forall_cons_2; [simpl; lia|]). apply Forall_nil_2.
  - reflexivity.
  - exists m'. exact Hd.
Defined.

(**  A kSelf row that fires by bubbling does not exit and re-enter its
    source: with the machine in a child state, the row leaves the child and
    moves to the source without running the source's exit or entry action. *)
Lemma table_self_row_bubbled :
  exists m', t_Dispatch 16 (mkEvent 5 None) demo_table = Some m' /\
    t_current m' = 0 /\ t_ctx m' = [AExit 1].
Proof. eexists. split; [vm_compute; reflexivity|]. split; reflexivity. Qed.
