(* ===== verification/SpinLock.v ===== *)
(** * The spin locks of the bus (osp::detail in include/osp/bus.hpp)

    [SpinLock] is an atomic flag.  [SharedSpinLock] is a reader-writer lock with
    a per-thread reader depth and an upgrade from reader to writer.  Each
    atomic access is one step, a failed attempt of a spinning loop changes
    nothing, and any number of threads interleave. *)

From Stdlib Require Import ZArith Lia Bool.
From stdpp Require Import base numbers list option relations.
From S2P Require Import Prelude.

Open Scope Z_scope.

(** ** SpinLock: [true] is held; [None] is another turn of the loop. *)
Definition spin_lock (flag : bool) : option bool := if flag then None else Some true.
Definition spin_unlock (flag : bool) : bool := false.
Definition spin_try_lock (flag : bool) : bool * bool := (negb flag, true).

(** ** SharedSpinLock *)

Definition kWriterActive : Z := -1.

(** The thread-local fields, and where the thread stands in lock(). *)
Inductive WriterMode := wOutside | wWaiting | wHolding.
Record ThreadLocal := mkTl {
  tl_reader_depth : Z;
  tl_upgrade_writer : bool;
  tl_upgrade_depth : Z;
  tl_mode : WriterMode
}.
Definition tl_init : ThreadLocal := mkTl 0 false 0 wOutside.

(** lock_shared: recursive entry, or one turn of the loop ([None] spins). *)
Definition lock_shared (state : Z) (tl : ThreadLocal) : option (Z * ThreadLocal) :=
  if 0 <? tl_reader_depth tl
  then Some (state, mkTl (u32 (tl_reader_depth tl + 1)) (tl_upgrade_writer tl) (tl_upgrade_depth tl) (tl_mode tl))
  else if 0 <=? state
       then Some (signed 32 (state + 1), mkTl 1 (tl_upgrade_writer tl) (tl_upgrade_depth tl) (tl_mode tl))
       else None.

(** unlock_shared; [None] is the failed assertion. *)
Definition unlock_shared (state : Z) (tl : ThreadLocal) : option (Z * ThreadLocal) :=
  if 1 <? tl_reader_depth tl
  then Some (state, mkTl (tl_reader_depth tl - 1) (tl_upgrade_writer tl) (tl_upgrade_depth tl) (tl_mode tl))
  else
    let tl := mkTl 0 (tl_upgrade_writer tl) (tl_upgrade_depth tl) (tl_mode tl) in
    if 0 <? state then Some (signed 32 (state - 1), tl) else None.

(** lock, up to its loop: drop the reader holds when upgrading. *)
Definition lock_enter (state : Z) (tl : ThreadLocal) : Z * ThreadLocal :=
  if 0 <? tl_reader_depth tl
  then (signed 32 (state - tl_reader_depth tl), mkTl 0 true (tl_reader_depth tl) wWaiting)
  else (state, mkTl (tl_reader_depth tl) (tl_upgrade_writer tl) (tl_upgrade_depth tl) wWaiting).

(** One turn of the loop of lock. *)
Definition lock_acquire (state : Z) (tl : ThreadLocal) : option (Z * ThreadLocal) :=
  if state =? 0
  then Some (kWriterActive, mkTl (tl_reader_depth tl) (tl_upgrade_writer tl) (tl_upgrade_depth tl) wHolding)
  else None.

Definition unlock (state : Z) (tl : ThreadLocal) : Z * ThreadLocal :=
  if tl_upgrade_writer tl
  then (signed 32 (tl_upgrade_depth tl), mkTl (tl_upgrade_depth tl) false (tl_upgrade_depth tl) wOutside)
  else (0, mkTl (tl_reader_depth tl) false (tl_upgrade_depth tl) wOutside).

(** ** Threads using the lock *)

Inductive LockCall := cLockShared | cUnlockShared | cLock | cAcquire | cUnlock.

(** A thread calls in the bracketing order; [None] waits or is not allowed. *)
Definition lock_step (c : LockCall) (state : Z) (tl : ThreadLocal) : option (Z * ThreadLocal) :=
  match tl_mode tl, c with
  | wOutside, cLockShared => lock_shared state tl
  | wOutside, cUnlockShared => if 0 <? tl_reader_depth tl then unlock_shared state tl else None
  | wOutside, cLock => Some (lock_enter state tl)
  | wWaiting, cAcquire => lock_acquire state tl
  | wHolding, cUnlock => Some (unlock state tl)
  | _, _ => None
  end.

Definition LockState : Type := Z * list ThreadLocal.

Definition lock_exec (t : nat) (c : LockCall) (st : LockState) : option LockState :=
  match st.2 !! t with
  | Some tl => match lock_step c st.1 tl with Some (state, tl') => Some (state, <[t := tl']> st.2) | None => None end
  | None => None
  end.

Definition lock_trans (st st' : LockState) : Prop := exists t c, lock_exec t c st = Some st'.

(** Steps in which an upgrading thread holds the reader lock once. *)
Definition single_upgrades (st : LockState) (t : nat) (c : LockCall) : Prop :=
  c = cLock -> forall tl, st.2 !! t = Some tl -> tl_reader_depth tl <= 1.
Definition lock_trans_single (st st' : LockState) : Prop :=
  exists t c, lock_exec t c st = Some st' /\ single_upgrades st t c.

Definition lock_start (n : nat) : LockState := (0, replicate n tl_init).

(** ** The invariant *)

Definition is_reader (tl : ThreadLocal) : bool := 0 <? tl_reader_depth tl.
Definition is_writer (tl : ThreadLocal) : bool := match tl_mode tl with wHolding => true | _ => false end.

Definition tl_ok (tl : ThreadLocal) : Prop :=
  0 <= tl_reader_depth tl < 2 ^ 32 /\
  match tl_mode tl with
  | wOutside => tl_upgrade_writer tl = false
  | _ => tl_reader_depth tl = 0 /\ (tl_upgrade_writer tl = true -> tl_upgrade_depth tl = 1)
  end.

(** The state word counts the reading threads, or marks the one writer. *)
Record lock_inv (n : nat) (st : LockState) : Prop := {
  li_len : length st.2 = n;
  li_tl : Forall tl_ok st.2;
  li_state : (count_if is_writer st.2 = 0%nat /\ st.1 = Z.of_nat (count_if is_reader st.2)) \/
             (count_if is_writer st.2 = 1%nat /\ st.1 = kWriterActive /\ count_if is_reader st.2 = 0%nat)
}.

(** What the state word says of the numbers of readers and writers. *)
Definition word_ok (state : Z) (r w : nat) : Prop :=
  (w = 0%nat /\ state = Z.of_nat r) \/ (w = 1%nat /\ state = kWriterActive /\ r = 0%nat).

(** The reader depth stays below 2^32 - 1 nested entries. *)
Definition depth_bounded (st : LockState) : Prop := Forall (fun tl => tl_reader_depth tl < 2 ^ 32 - 1) st.2.

Lemma signed_count z : 0 <= z < 2 ^ 31 -> signed 32 z = z.
Proof. intros. apply signed_small; [lia|]. change (32 - 1) with 31. lia. Qed.

(** One thread's step, against the counts with and without it. *)
Lemma lock_step_word c state tl state' tl' (r0 w0 r w : nat) :
  lock_step c state tl = Some (state', tl') -> tl_ok tl -> tl_reader_depth tl < 2 ^ 32 - 1 ->
  (c = cLock -> tl_reader_depth tl <= 1) ->
  word_ok state r0 w0 -> Z.of_nat r0 < 2 ^ 31 -> Z.of_nat r < 2 ^ 31 ->
  (bit is_reader tl <= r0)%nat -> (bit is_writer tl <= w0)%nat ->
  (r + bit is_reader tl = r0 + bit is_reader tl')%nat -> (w + bit is_writer tl = w0 + bit is_writer tl')%nat ->
  tl_ok tl' /\ word_ok state' r w.
Proof.
  intros Hs [Hd Hm] Hdl Hup Hw Hr0 Hr Hbr Hbw Hr' Hw'. destruct tl as [d u ud m].
  unfold lock_step, tl_ok, word_ok, bit, is_reader, is_writer, kWriterActive in *. simpl in *.
  destruct m, c; simplify_eq.
  - unfold lock_shared in Hs. simpl in Hs. destruct (Z.ltb_spec 0 d); [|destruct (Z.leb_spec 0 state); [|done] ]; simplify_eq/=.
    + rewrite (wrap_small 32) in * by (unfold in_range; lia). destruct (Z.ltb_spec 0 (d + 1)); [|lia].
      split; [lia|]. destruct Hw as [ [? ?]|(? & ? & ?)]; lia.
    + destruct Hw as [ [? ?]|(? & ? & ?)]; [|lia]. change (0 <? 1) with true in *. simpl in *.
      rewrite signed_count by lia. split; [lia|]. left. lia.
  - destruct (Z.ltb_spec 0 d); [|done]. unfold unlock_shared in Hs. simpl in Hs.
    destruct (Z.ltb_spec 1 d); [|destruct (Z.ltb_spec 0 state); [|done] ]; simplify_eq/=.
    + destruct (Z.ltb_spec 0 (d - 1)); [|lia]. split; [lia|]. destruct Hw as [ [? ?]|(? & ? & ?)]; lia.
    + change (0 <? 0) with false in *. simpl in *. destruct Hw as [ [? ?]|(? & ? & ?)]; [|lia].
      rewrite signed_count by lia. split; [lia|]. left. lia.
  - specialize (Hup eq_refl). unfold lock_enter in Hs. simpl in Hs. destruct (Z.ltb_spec 0 d); simplify_eq/=.
    + change (0 <? 0) with false in *. simpl in *. destruct Hw as [ [? ?]|(? & ? & ?)]; [|lia].
      rewrite signed_count by lia. split; [lia|]. left. lia.
    + destruct (Z.ltb_spec 0 d); [lia|]. split; [split; [lia|split; [lia|done] ]|]. destruct Hw as [ [? ?]|(? & ? & ?)]; lia.
  - unfold lock_acquire, kWriterActive in Hs. simpl in Hs. destruct (Z.eqb_spec state 0); simplify_eq/=.
    split; [done|]. right. destruct Hw as [ [? ?]|(? & ? & ?)]; [|lia]. destruct (0 <? d); lia.
  - unfold unlock in Hs. simpl in Hs. destruct Hw as [ [? ?]|(? & ? & ?)]; [lia|]. destruct Hm as [-> Hm].
    change (0 <? 0) with false in *. destruct u; simplify_eq/=.
    + rewrite (Hm eq_refl) in *. change (0 <? 1) with true in *. cbv iota in Hr'. rewrite signed_count by lia. split; [lia|]. left. lia.
    + change (0 <? 0) with false in *. cbv iota in Hr'. split; [done|]. left. lia.
Qed.

Section Lock.
Context (n : nat) (Hn : Z.of_nat n < 2 ^ 31).

Lemma lock_step_inv st st' :
  lock_trans_single st st' -> lock_inv n st -> depth_bounded st -> lock_inv n st'.
Proof.
  intros (t & c & Hex & Hup) [Hlen Htls Hst] Hdep. unfold lock_exec in Hex. destruct st as [state tls]. simpl in *.
  destruct (tls !! t) as [tl|] eqn:Hlk; [|done].
  destruct (lock_step c state tl) as [ [state' tl']|] eqn:Hs; [injection Hex as <-|done].
  assert (Hb : forall f, (bit f tl <= count_if f tls)%nat).
  { intros f. unfold bit. destruct (f tl) eqn:E; [|lia]. pose proof (count_if_pos f _ _ _ Hlk E). lia. }
  pose proof (count_if_le is_reader tls). pose proof (count_if_le is_reader (<[t := tl']> tls)) as Hle'.
  rewrite length_insert in Hle'.
  pose proof (Forall_lookup_1 _ _ _ _ Htls Hlk) as Htl. pose proof (Forall_lookup_1 _ _ _ _ Hdep Hlk) as Hdl.
  assert (Hone : c = cLock -> tl_reader_depth tl <= 1) by (intros ->; by apply Hup).
  destruct (lock_step_word c state tl state' tl' (count_if is_reader tls) (count_if is_writer tls)
    (count_if is_reader (<[t := tl']> tls)) (count_if is_writer (<[t := tl']> tls)));
    try done; try lia; auto using count_if_insert.
  split; simpl; [by rewrite length_insert|by apply Forall_insert|done].
Qed.

Lemma lock_inv_start : lock_inv n (lock_start n).
Proof.
  split; simpl; [apply length_replicate|by apply Forall_replicate|]. left.
  by rewrite !count_if_none by (by apply Forall_replicate).
Qed.

(** C36. The reader-writer lock excludes: in every run in which upgrades happen
    at reader depth one, a writer is alone, the state word is -1 exactly then,
    and otherwise it counts the threads inside the shared section. *)
Theorem shared_lock_exclusion st :
  rtc (fun a b => lock_trans_single a b /\ depth_bounded a) (lock_start n) st ->
  (forall t1 t2 tl1 tl2, t1 <> t2 -> st.2 !! t1 = Some tl1 -> st.2 !! t2 = Some tl2 ->
     is_writer tl1 = true -> is_writer tl2 = false /\ is_reader tl2 = false) /\
  ((exists t tl, st.2 !! t = Some tl /\ is_writer tl = true) -> st.1 = kWriterActive) /\
  ((forall t tl, st.2 !! t = Some tl -> is_writer tl = false) -> st.1 = Z.of_nat (count_if is_reader st.2)).
Proof.
  intros Hr. assert (Hi : lock_inv n st).
  { revert Hr. apply rtc_invariant; [apply lock_inv_start|]. intros a b [Hs Hd] Hi. by apply (lock_step_inv a). }
  destruct Hi as [_ _ Hst]. split; [|split].
  - intros t1 t2 tl1 tl2 Hne H1 H2 Hw. pose proof (count_if_pos is_writer _ _ _ H1 Hw).
    split; apply not_true_is_false; intros Hx.
    + pose proof (count_if_two is_writer _ _ _ _ _ H1 H2 Hne Hw Hx). lia.
    + pose proof (count_if_pos is_reader _ _ _ H2 Hx). lia.
  - intros (t & tl & H1 & Hw). pose proof (count_if_pos is_writer _ _ _ H1 Hw). lia.
  - intros Hnw. destruct Hst as [ [_ ->]|(Hw & _)]; [done|].
    rewrite count_if_none in Hw; [done|]. apply Forall_lookup_2. intros i x Hx. by apply (Hnw i).
Qed.

End Lock.

(** ** Concrete runs *)

Fixpoint lock_run (l : list (nat * LockCall)) (st : LockState) : option LockState :=
  match l with [] => Some st | (t, c) :: l' => match lock_exec t c st with Some st' => lock_run l' st' | None => None end end.

(** A subscribe from inside a dispatched callback: the upgrade works. *)
Lemma shared_lock_exclusion_witness :
  exists st, lock_run [(0%nat, cLockShared); (0%nat, cLock); (0%nat, cAcquire)] (lock_start 2) = Some st /\
    st.1 = kWriterActive.
Proof.
  pose (s1 := (1, [mkTl 1 false 0 wOutside; tl_init]) : LockState).
  pose (s2 := (0, [mkTl 0 true 1 wWaiting; tl_init]) : LockState).
  pose (s3 := (-1, [mkTl 0 true 1 wHolding; tl_init]) : LockState).
  exists s3. split; [reflexivity|].
  destruct (shared_lock_exclusion 2 ltac:(lia) s3) as (_ & H2 & _).
  - assert (Hb : forall d u ud m z, d < 2 ^ 32 - 1 -> depth_bounded (z, [mkTl d u ud m; tl_init])).
    { intros. unfold depth_bounded. repeat constructor; simpl; lia. }
    apply rtc_l with s1; [split; [exists 0%nat, cLockShared; split; [reflexivity|done]|apply Hb; lia]|].
    apply rtc_l with s2; [split; [exists 0%nat, cLock; split; [reflexivity|]|apply Hb; lia]|].
    { intros _ tl Htl. simpl in Htl. simplify_eq/=. lia. }
    apply rtc_l with s3; [split; [exists 0%nat, cAcquire; split; [reflexivity|done]|apply Hb; lia]|]. apply rtc_refl.
  - apply H2. exists 0%nat, (mkTl 0 true 1 wHolding). split; reflexivity.
Defined.

(** C40. Upgrading at reader depth two wedges the lock: the nested entry did not
    count in the state word, the upgrade subtracts both levels, the word becomes
    -1 with no writer inside, and from then on no thread ever acquires the lock
    in either mode. *)
Theorem shared_lock_nested_upgrade_wedges m st st' :
  lock_run [(0%nat, cLockShared); (0%nat, cLockShared); (0%nat, cLock)] (lock_start (S m)) = Some st ->
  rtc lock_trans st st' ->
  st'.1 = kWriterActive /\ count_if is_writer st'.2 = 0%nat /\ count_if is_reader st'.2 = 0%nat.
Proof.
  intros Hrun.
  assert (Hst : st = (kWriterActive, mkTl 0 true 2 wWaiting :: replicate m tl_init)).
  { revert Hrun. simpl. intros [= <-]. reflexivity. }
  set (P := fun s : LockState => s.1 = kWriterActive /\ Forall (fun tl => is_writer tl = false /\ tl_reader_depth tl = 0) s.2).
  intros Hr. assert (HP : P st').
  { revert Hr. apply rtc_invariant.
    - subst st. split; [done|]. constructor; [done|]. by apply Forall_replicate.
    - intros [x tls] y (t & c & Hex) [Hx Ha]. unfold lock_exec in Hex. simpl in *. subst x.
      destruct (tls !! t) as [tl|] eqn:Hlk; [|done]. destruct (Forall_lookup_1 _ _ _ _ Ha Hlk) as [Hw Hd].
      destruct (lock_step c kWriterActive tl) as [ [z tl']|] eqn:Hs; simplify_eq.
      destruct tl as [d u ud md]. simpl in Hd. subst d. unfold lock_step in Hs. simpl in Hs.
      destruct md, c; try discriminate Hs; try discriminate Hw.
      injection Hs as <- <-. split; [done|]. by apply Forall_insert. }
  destruct HP as [H1 H2]. split; [done|].
  split; apply count_if_none, Forall_lookup_2; intros i x Hx; destruct (Forall_lookup_1 _ _ _ _ H2 Hx) as [Hw Hd]; [done|].
  unfold is_reader. by rewrite Hd.
Qed.

Lemma shared_lock_nested_upgrade_wedges_witness :
  exists st, lock_run [(0%nat, cLockShared); (0%nat, cLockShared); (0%nat, cLock)] (lock_start 2) = Some st /\
    st.1 = kWriterActive.
Proof.
  eexists. split; [reflexivity|].
  apply (shared_lock_nested_upgrade_wedges 1 _ _ eq_refl). apply rtc_refl.
Defined.

(** The thread-local fields are static, shared by all lock instances: a thread
    inside the shared section of one lock that locks another, idle one takes its
    reader hold away from the idle lock's word, which goes to -1, and then waits
    for it to become 0. *)
Lemma shared_lock_cross_instance tl :
  lock_shared 0 tl_init = Some (1, tl) ->
  (lock_enter 0 tl).1 = kWriterActive /\ lock_acquire (lock_enter 0 tl).1 (lock_enter 0 tl).2 = None.
Proof. intros [= <-]. by split. Qed.
