(* ===== verification/Bus.v ===== *)
(** * AsyncBus (include/osp/bus.hpp): the operations run one at a time

    The message bus with its sequence-numbered ring, priority admission with a
    cached consumer position, eviction for high-priority messages, subscriptions
    and batch processing.  Positions and sequence numbers are 32-bit and wrap.
    This file shows that the bus is a bounded queue with priority admission;
    BusConc.v interleaves concurrent publishers with the consumer. *)

From Stdlib Require Import ZArith Lia Bool.
From stdpp Require Import base numbers list option.
From S2P Require Import Prelude Vocabulary.

Open Scope Z_scope.

(** Fnv1a32 over the bytes before the terminator; [None] is a null pointer.
    [char] is signed on the supported targets, so a byte above 127 is
    sign-extended by the cast to uint32_t. *)
Definition fnv_step (hash byte : Z) : Z := u32 (Z.lxor hash (u32 (signed 8 byte)) * 16777619).
Definition Fnv1a32 (str : option (list Z)) : Z :=
  match str with
  | None => 0
  | Some bytes => fold_left fnv_step bytes 2166136261
  end.

Inductive MessagePriority := kLow | kMedium | kHigh.

#[export] Instance MessagePriority_eq_dec : EqDecision MessagePriority.
Proof. solve_decision. Defined.

Definition priority_to_Z (p : MessagePriority) : Z :=
  match p with kLow => 0 | kMedium => 1 | kHigh => 2 end.

Record MessageHeader := mkHeader {
  msg_id : Z;
  timestamp_us : Z;
  sender_id : Z;
  topic_hash : Z;
  priority : MessagePriority
}.

Inductive BusError := kQueueFull | kOverflowDetected | kCallbacksFull.

Record SubscriptionHandle := mkHandle { type_index : Z; callback_id : Z }.
Definition kInvalidCallbackId : Z := 2 ^ 32 - 1.
Definition handle_IsValid (h : SubscriptionHandle) : bool := negb (callback_id h =? kInvalidCallbackId).
Definition handle_Invalid : SubscriptionHandle := mkHandle 0 kInvalidCallbackId.


Record BusStatistics := mkStats {
  messages_published : Z;
  messages_dropped : Z;
  messages_processed : Z;
  admission_rechecks : Z
}.
Definition stats_zero : BusStatistics := mkStats 0 0 0 0.
Definition stats_publish (s : BusStatistics) : BusStatistics :=
  mkStats (u64 (messages_published s + 1)) (messages_dropped s) (messages_processed s) (admission_rechecks s).
Definition stats_drop (s : BusStatistics) : BusStatistics :=
  mkStats (messages_published s) (u64 (messages_dropped s + 1)) (messages_processed s) (admission_rechecks s).
Definition stats_process (n : Z) (s : BusStatistics) : BusStatistics :=
  mkStats (messages_published s) (messages_dropped s) (u64 (messages_processed s + n)) (admission_rechecks s).
Definition stats_recheck (s : BusStatistics) : BusStatistics :=
  mkStats (messages_published s) (messages_dropped s) (messages_processed s) (u64 (admission_rechecks s + 1)).

Definition kMsgIdWrapThreshold : Z := 2 ^ 64 - 1 - 10000.

Section Bus.
(** The payload variant with the index of its alternative, and the state the
    callbacks act on. *)
Context {Payload World : Type} `{Inhabited Payload}.
Context (variant_index : Payload -> Z).
(** Configuration: [2^k] is OSP_BUS_QUEUE_DEPTH. *)
Context (k kBatchSize kMaxTypes kMaxCallbacks : Z) (eviction : bool).

Definition kQueueDepth : Z := 2 ^ k.
Definition kBufferMask : Z := kQueueDepth - 1.
Definition kConsumedOffset : Z := kQueueDepth.
Definition kEvictOffset : Z := u32 (Z.shiftl kQueueDepth 1).
Definition kLowThreshold : Z := u32 (kQueueDepth * 60) / 100.
Definition kMediumThreshold : Z := u32 (kQueueDepth * 80) / 100.
Definition kHighThreshold : Z := u32 (kQueueDepth * 99) / 100.

Record MessageEnvelope := mkEnvelope { header : MessageHeader; payload : Payload }.

#[global] Instance envelope_inhabited : Inhabited MessageEnvelope :=
  populate (mkEnvelope (mkHeader 0 0 0 0 kMedium) inhabitant).

Record RingBufferNode := mkNode { sequence : Z; slot_priority : Z; envelope : MessageEnvelope }.

#[global] Instance node_inhabited : Inhabited RingBufferNode := populate (mkNode 0 1 inhabitant).

Definition Callback : Type := MessageEnvelope -> World -> World.
Record CallbackEntry := mkEntry { entry_id : Z; entry_callback : option Callback; entry_active : bool }.
Record CallbackSlot := mkSlot { entries : list CallbackEntry; slot_count : Z }.

#[global] Instance entry_inhabited : Inhabited CallbackEntry := populate (mkEntry 0 None false).
#[global] Instance slot_inhabited : Inhabited CallbackSlot := populate (mkSlot [] 0).

Record AsyncBus := mkBus {
  ring_buffer_ : list RingBufferNode;
  producer_pos_ : Z;
  cached_consumer_pos_ : Z;
  consumer_pos_ : Z;
  next_msg_id_ : Z;
  next_callback_id_ : Z;
  stats_ : BusStatistics;
  callback_table_ : list CallbackSlot;
  error_callback_ : bool;
  (* the calls made to the registered error callback *)
  error_reports : list (BusError * Z)
}.

Definition empty_slot : CallbackSlot := mkSlot (replicate (Z.to_nat kMaxCallbacks) inhabitant) 0.

Definition AsyncBus_ctor : AsyncBus :=
  mkBus ((fun i => mkNode i 1 inhabitant) <$> seqZ 0 kQueueDepth) 0 0 0 1 1 stats_zero
    (replicate (Z.to_nat kMaxTypes) empty_slot) false [].

(** Field updates. *)
Definition set_ring (r : list RingBufferNode) (b : AsyncBus) : AsyncBus :=
  mkBus r (producer_pos_ b) (cached_consumer_pos_ b) (consumer_pos_ b) (next_msg_id_ b)
    (next_callback_id_ b) (stats_ b) (callback_table_ b) (error_callback_ b) (error_reports b).
Definition set_prod (p : Z) (b : AsyncBus) : AsyncBus :=
  mkBus (ring_buffer_ b) p (cached_consumer_pos_ b) (consumer_pos_ b) (next_msg_id_ b)
    (next_callback_id_ b) (stats_ b) (callback_table_ b) (error_callback_ b) (error_reports b).
Definition set_cached (p : Z) (b : AsyncBus) : AsyncBus :=
  mkBus (ring_buffer_ b) (producer_pos_ b) p (consumer_pos_ b) (next_msg_id_ b)
    (next_callback_id_ b) (stats_ b) (callback_table_ b) (error_callback_ b) (error_reports b).
Definition set_cons (p : Z) (b : AsyncBus) : AsyncBus :=
  mkBus (ring_buffer_ b) (producer_pos_ b) (cached_consumer_pos_ b) p (next_msg_id_ b)
    (next_callback_id_ b) (stats_ b) (callback_table_ b) (error_callback_ b) (error_reports b).
Definition set_next_id (n : Z) (b : AsyncBus) : AsyncBus :=
  mkBus (ring_buffer_ b) (producer_pos_ b) (cached_consumer_pos_ b) (consumer_pos_ b) n
    (next_callback_id_ b) (stats_ b) (callback_table_ b) (error_callback_ b) (error_reports b).
Definition set_stats (s : BusStatistics) (b : AsyncBus) : AsyncBus :=
  mkBus (ring_buffer_ b) (producer_pos_ b) (cached_consumer_pos_ b) (consumer_pos_ b) (next_msg_id_ b)
    (next_callback_id_ b) s (callback_table_ b) (error_callback_ b) (error_reports b).
Definition set_table (n : Z) (t : list CallbackSlot) (b : AsyncBus) : AsyncBus :=
  mkBus (ring_buffer_ b) (producer_pos_ b) (cached_consumer_pos_ b) (consumer_pos_ b) (next_msg_id_ b)
    n (stats_ b) t (error_callback_ b) (error_reports b).

Definition SetErrorCallback (registered : bool) (b : AsyncBus) : AsyncBus :=
  mkBus (ring_buffer_ b) (producer_pos_ b) (cached_consumer_pos_ b) (consumer_pos_ b) (next_msg_id_ b)
    (next_callback_id_ b) (stats_ b) (callback_table_ b) registered (error_reports b).

Definition ReportError (error : BusError) (id : Z) (b : AsyncBus) : AsyncBus :=
  if error_callback_ b
  then mkBus (ring_buffer_ b) (producer_pos_ b) (cached_consumer_pos_ b) (consumer_pos_ b) (next_msg_id_ b)
         (next_callback_id_ b) (stats_ b) (callback_table_ b) (error_callback_ b) (error_reports b ++ [(error, id)])
  else b.

Definition GetThresholdForPriority (p : MessagePriority) : Z :=
  match p with kHigh => kHighThreshold | kMedium => kMediumThreshold | kLow => kLowThreshold end.

Definition node_at (b : AsyncBus) (pos : Z) : RingBufferNode := aget (ring_buffer_ b) (Z.land pos kBufferMask).
Definition put_node (pos : Z) (n : RingBufferNode) (b : AsyncBus) : AsyncBus :=
  set_ring (aset (ring_buffer_ b) (Z.land pos kBufferMask) n) b.

(** The scan of TryEvictAndPublish from probe [i], [fuel] probes left. *)
Fixpoint evict_loop (fuel : nat) (pl : Payload) (sender ts topic prod cons i : Z) (b : AsyncBus) : option AsyncBus :=
  match fuel with
  | O => None
  | S fuel' =>
    if i <? kQueueDepth then
      let p := u32 (cons + i) in
      if p =? prod then None
      else
        let node := node_at b p in
        if negb (sequence node =? u32 (p + 1)) then evict_loop fuel' pl sender ts topic prod cons (i + 1) b
        else if priority_to_Z kHigh <=? slot_priority node
        then evict_loop fuel' pl sender ts topic prod cons (i + 1) b
        else
          (* the reserving exchange succeeds and the priority is still lower *)
          let id := next_msg_id_ b in
          let env := mkEnvelope (mkHeader id ts sender topic kHigh) pl in
          let b := set_next_id (u64 (id + 1)) b in
          let b := put_node p (mkNode (u32 (p + 1)) (priority_to_Z kHigh) env) b in
          Some (set_stats (stats_publish (stats_drop (stats_ b))) b)
    else None
  end.

Definition TryEvictAndPublish (pl : Payload) (sender ts topic : Z) (b : AsyncBus) : option AsyncBus :=
  evict_loop (Z.to_nat kQueueDepth) pl sender ts topic (producer_pos_ b) (consumer_pos_ b) 1 b.

(** Dropping: count it and report. *)
Definition drop_message (current_id : Z) (b : AsyncBus) : bool * AsyncBus :=
  (false, ReportError kQueueFull current_id (set_stats (stats_drop (stats_ b)) b)).

(** Claiming a slot, filling and publishing it. *)
Definition claim_and_fill (pl : Payload) (sender ts : Z) (prio : MessagePriority) (topic current_id : Z) (b : AsyncBus)
    : bool * AsyncBus :=
  let prod_pos := producer_pos_ b in
  let target := node_at b prod_pos in
  if negb (sequence target =? prod_pos) && (kQueueDepth <=? u32 (prod_pos - consumer_pos_ b))
  then drop_message current_id b
  else
    let b := set_prod (u32 (prod_pos + 1)) b in
    let id := next_msg_id_ b in
    let b := set_next_id (u64 (id + 1)) b in
    let b := put_node prod_pos
               (mkNode (u32 (prod_pos + 1)) (priority_to_Z prio) (mkEnvelope (mkHeader id ts sender topic prio) pl)) b in
    (true, set_stats (stats_publish (stats_ b)) b).

Definition PublishInternal (pl : Payload) (sender ts : Z) (prio : MessagePriority) (topic : Z) (b : AsyncBus)
    : bool * AsyncBus :=
  let current_id := next_msg_id_ b in
  if kMsgIdWrapThreshold <=? current_id then (false, ReportError kOverflowDetected current_id b)
  else
    let threshold := GetThresholdForPriority prio in
    let prod := producer_pos_ b in
    let estimated_depth := u32 (prod - cached_consumer_pos_ b) in
    if threshold <=? estimated_depth then
      let real_cons := consumer_pos_ b in
      let b := set_stats (stats_recheck (stats_ b)) (set_cached real_cons b) in
      let real_depth := u32 (prod - real_cons) in
      if threshold <=? real_depth then
        match (if eviction && bool_decide (prio = kHigh) then TryEvictAndPublish pl sender ts topic b else None) with
        | Some b' => (true, b')
        | None => drop_message current_id b
        end
      else claim_and_fill pl sender ts prio topic current_id b
    else claim_and_fill pl sender ts prio topic current_id b.

(** The publishing interface; [now] is the clock reading. *)
Definition Publish (now : Z) (pl : Payload) (sender : Z) := PublishInternal pl sender now kMedium 0.
Definition PublishWithPriority (now : Z) (pl : Payload) (sender : Z) (prio : MessagePriority) :=
  PublishInternal pl sender now prio 0.
Definition PublishFast (pl : Payload) (sender ts : Z) := PublishInternal pl sender ts kMedium 0.
Definition PublishTopic (now : Z) (pl : Payload) (sender : Z) (topic : option (list Z)) :=
  PublishInternal pl sender now kMedium (Fnv1a32 topic).
Definition PublishTopicWithPriority (now : Z) (pl : Payload) (sender : Z) (topic : option (list Z)) (prio : MessagePriority) :=
  PublishInternal pl sender now prio (Fnv1a32 topic).

(** ** Subscriptions *)

(** The first index whose entry satisfies [f]. *)
Fixpoint find_entry (f : CallbackEntry -> bool) (l : list CallbackEntry) (i : Z) : option Z :=
  match l with
  | [] => None
  | e :: l' => if f e then Some i else find_entry f l' (i + 1)
  end.

Definition Subscribe (type_idx : Z) (func : Callback) (b : AsyncBus) : SubscriptionHandle * AsyncBus :=
  let slot := aget (callback_table_ b) type_idx in
  let callback_id := next_callback_id_ b in
  let next := u32 (callback_id + 1) in
  match find_entry (fun e => negb (entry_active e)) (entries slot) 0 with
  | Some i =>
    let slot' := mkSlot (aset (entries slot) i (mkEntry callback_id (Some func) true)) (u32 (slot_count slot + 1)) in
    (mkHandle type_idx callback_id, set_table next (aset (callback_table_ b) type_idx slot') b)
  | None => (handle_Invalid, set_table next (callback_table_ b) b)
  end.

Definition Unsubscribe (h : SubscriptionHandle) (b : AsyncBus) : bool * AsyncBus :=
  if negb (handle_IsValid h) then (false, b)
  else if kMaxTypes <=? type_index h then (false, b)
  else
    let slot := aget (callback_table_ b) (type_index h) in
    match find_entry (fun e => entry_active e && (entry_id e =? callback_id h)) (entries slot) 0 with
    | Some i =>
      let e := aget (entries slot) i in
      let slot' := mkSlot (aset (entries slot) i (mkEntry (entry_id e) None false)) (u32 (slot_count slot - 1)) in
      (match entry_callback e with Some _ => true | None => false end,
       set_table (next_callback_id_ b) (aset (callback_table_ b) (type_index h) slot') b)
    | None => (false, b)
    end.

(** The dispatch loop: call active entries until [count] were found. *)
Fixpoint dispatch_loop (l : list CallbackEntry) (found count : Z) (env : MessageEnvelope) (w : World) : World :=
  match l with
  | [] => w
  | e :: l' =>
    if found <? count then
      if entry_active e
      then dispatch_loop l' (found + 1) count env
             (match entry_callback e with Some f => f env w | None => w end)
      else dispatch_loop l' found count env w
    else w
  end.

Definition DispatchMessage (b : AsyncBus) (env : MessageEnvelope) (w : World) : World :=
  let type_idx := u32 (variant_index (payload env)) in
  if kMaxTypes <=? type_idx then w
  else
    let slot := aget (callback_table_ b) type_idx in
    if slot_count slot =? 0 then w else dispatch_loop (entries slot) 0 (slot_count slot) env w.

(** ** Processing *)

(** The loop shared by ProcessBatch and ProcessBatchWith. *)
Fixpoint process_loop (n : nat) (visit : MessageEnvelope -> World -> World) (cons_pos processed : Z)
    (b : AsyncBus) (w : World) : Z * Z * AsyncBus * World :=
  match n with
  | O => (processed, cons_pos, b, w)
  | S n' =>
    let node := node_at b cons_pos in
    let expected_seq := u32 (cons_pos + 1) in
    if sequence node =? expected_seq then
      (* claimed as consuming, dispatched, released to the producers *)
      let w := visit (envelope node) w in
      let b := put_node cons_pos (mkNode (u32 (cons_pos + kQueueDepth)) (slot_priority node) (envelope node)) b in
      process_loop n' visit (u32 (cons_pos + 1)) (processed + 1) b w
    else (processed, cons_pos, b, w)
  end.

Definition process (visit : MessageEnvelope -> World -> World) (b : AsyncBus) (w : World) : Z * AsyncBus * World :=
  let '(processed, cons_pos, b, w) := process_loop (Z.to_nat kBatchSize) visit (consumer_pos_ b) 0 b w in
  if 0 <? processed
  then (processed, set_stats (stats_process processed (stats_ b)) (set_cons cons_pos b), w)
  else (processed, b, w).

Definition ProcessBatch (b : AsyncBus) (w : World) : Z * AsyncBus * World := process (DispatchMessage b) b w.

Definition ProcessBatchWith (visitor : Payload -> MessageHeader -> World -> World) (b : AsyncBus) (w : World)
    : Z * AsyncBus * World :=
  process (fun env w => visitor (payload env) (header env) w) b w.

(** ** Queries and reset *)

Definition Depth (b : AsyncBus) : Z := u32 (producer_pos_ b - consumer_pos_ b).
Definition UtilizationPercent (b : AsyncBus) : Z := u32 (Depth b * 100) / kQueueDepth.
Definition GetBackpressureLevel (b : AsyncBus) : BackpressureLevel :=
  let depth := Depth b in
  if kQueueDepth <=? depth then bpFull
  else if u32 (kQueueDepth * 90) / 100 <=? depth then bpCritical
  else if u32 (kQueueDepth * 75) / 100 <=? depth then bpWarning
  else bpNormal.
Definition GetStatistics (b : AsyncBus) : BusStatistics := stats_ b.
Definition ResetStatistics (b : AsyncBus) : AsyncBus := set_stats stats_zero b.

Definition Reset (b : AsyncBus) : AsyncBus :=
  mkBus ((fun '(i, n) => mkNode i (priority_to_Z kMedium) (envelope n)) <$>
           zip (seqZ 0 kQueueDepth) (ring_buffer_ b))
    0 0 0 1 1 stats_zero
    ((fun s => mkSlot ((fun e => mkEntry (entry_id e) None false) <$> entries s) 0) <$> callback_table_ b)
    false (error_reports b).

(** ** The ring as a queue

    [ring_ok r c q]: seen from consumer position [c], the ring [r] holds the
    published messages [q] and is free behind them. *)

Definition node_for (pos : Z) (e : MessageEnvelope) : RingBufferNode :=
  mkNode (u32 (pos + 1)) (priority_to_Z (priority (header e))) e.

Record ring_ok (r : list RingBufferNode) (c : Z) (q : list MessageEnvelope) : Prop := {
  ro_len : length r = Z.to_nat (2 ^ k);
  ro_fit : Z.of_nat (length q) <= 2 ^ k;
  ro_full : forall i, 0 <= i < Z.of_nat (length q) -> aget r (wrap k (c + i)) = node_for (c + i) (aget q i);
  ro_free : forall i, Z.of_nat (length q) <= i < 2 ^ k -> sequence (aget r (wrap k (c + i))) = u32 (c + i)
}.

Section Ring.
Context (Hk : 0 <= k <= 25).

Lemma depth_bounds : 1 <= 2 ^ k <= 2 ^ 25.
Proof. split; [|apply Z.pow_le_mono_r; lia]. pose proof (Z.pow_pos_nonneg 2 k). lia. Qed.

Lemma slot_index_range x (r : list RingBufferNode) :
  length r = Z.to_nat (2 ^ k) -> 0 <= wrap k x < Z.of_nat (length r).
Proof. intros ->. pose proof (wrap_range k x). unfold in_range in *. lia. Qed.

Lemma slot_index_ne c i j : 0 <= i < 2 ^ k -> 0 <= j < 2 ^ k -> i <> j -> wrap k (c + i) <> wrap k (c + j).
Proof.
  intros Hi Hj Hne Heq. destruct (Z.lt_ge_cases i j).
  - apply wrap_inj_near in Heq; lia.
  - symmetry in Heq. apply wrap_inj_near in Heq; lia.
Qed.

Lemma slot_get_set (r : list RingBufferNode) c i j n :
  length r = Z.to_nat (2 ^ k) -> 0 <= i < 2 ^ k -> 0 <= j < 2 ^ k ->
  aget (aset r (wrap k (c + i)) n) (wrap k (c + j)) = if i =? j then n else aget r (wrap k (c + j)).
Proof.
  intros Hl Hi Hj. destruct (Z.eqb_spec i j) as [->|Hne].
  - apply aget_aset_eq. by apply slot_index_range.
  - pose proof (slot_index_range (c + i) r Hl). pose proof (slot_index_range (c + j) r Hl).
    apply aget_aset_ne; [lia..|]. by apply slot_index_ne.
Qed.

Lemma node_at_wrap b x : node_at b (u32 x) = aget (ring_buffer_ b) (wrap k x).
Proof. unfold node_at, kBufferMask, kQueueDepth. by rewrite land_mask_wrap by lia. Qed.

Lemma put_node_wrap b x n : put_node (u32 x) n b = set_ring (aset (ring_buffer_ b) (wrap k x) n) b.
Proof. unfold put_node, kBufferMask, kQueueDepth. by rewrite land_mask_wrap by lia. Qed.

Lemma ring_ok_wrap r c q : ring_ok r (u32 c) q <-> ring_ok r c q.
Proof.
  assert (Hw : forall i, wrap k (u32 c + i) = wrap k (c + i)).
  { intros i. rewrite <- (wrap_wrap_le k 32 (u32 c + i)), wrap_add_l by lia. by apply wrap_wrap_le; lia. }
  assert (Hn : forall i e, node_for (u32 c + i) e = node_for (c + i) e).
  { intros. unfold node_for. by rewrite <- Z.add_assoc, wrap_add_l, Z.add_assoc. }
  split; intros []; split; try done; intros i Hi; rewrite ?Hw, ?wrap_add_l in *.
  - by rewrite <- Hw, ro_full0, Hn.
  - by rewrite <- Hw, ro_free0, wrap_add_l.
  - by rewrite ro_full0, Hn.
  - by rewrite ro_free0.
Qed.

Lemma ring_ok_push r c q e :
  ring_ok r c q -> Z.of_nat (length q) < 2 ^ k ->
  ring_ok (aset r (wrap k (c + Z.of_nat (length q))) (node_for (c + Z.of_nat (length q)) e)) c (q ++ [e]).
Proof.
  intros [Hl Hf Hq Hr] Hlt. split; rewrite ?length_aset, ?length_app; simpl; [done|lia|..]; intros i Hi.
  - rewrite slot_get_set by lia. case_bool.
    + subst. by rewrite aget_app_mid.
    + rewrite aget_app_l by lia. apply Hq. lia.
  - rewrite slot_get_set by lia. case_bool; [lia|]. apply Hr. lia.
Qed.

Lemma ring_ok_replace r c q i e :
  ring_ok r c q -> 0 <= i < Z.of_nat (length q) ->
  ring_ok (aset r (wrap k (c + i)) (node_for (c + i) e)) c (aset q i e).
Proof.
  intros [Hl Hf Hq Hr] Hi. split; rewrite ?length_aset; [done..| |]; intros j Hj.
  - rewrite slot_get_set by lia. case_bool.
    + subst. by rewrite aget_aset_eq.
    + rewrite aget_aset_ne by lia. by apply Hq.
  - rewrite slot_get_set by lia. case_bool; [lia|]. by apply Hr.
Qed.

Lemma ring_ok_pop r c e q p e' :
  ring_ok r c (e :: q) -> ring_ok (aset r (wrap k c) (mkNode (u32 (c + 2 ^ k)) p e')) (c + 1) q.
Proof.
  intros [Hl Hf Hq Hr]. simpl in *. pose proof depth_bounds.
  rewrite <- (Z.add_0_r c) at 1.
  split; rewrite ?length_aset; [done|lia|..]; intros i Hi.
  - rewrite <- Z.add_assoc, slot_get_set by lia. case_bool; [lia|]. rewrite Hq by lia.
    f_equal. unfold aget. replace (Z.to_nat (1 + i)) with (S (Z.to_nat i)) by lia. done.
  - destruct (Z.eq_dec i (2 ^ k - 1)) as [->|].
    + replace (c + 1 + (2 ^ k - 1)) with (c + 0 + 1 * 2 ^ k) by lia.
      assert (wrap k (c + 0 + 1 * 2 ^ k) = wrap k (c + 0)) as ->
        by (unfold wrap; apply Z.mod_add; lia).
      rewrite slot_get_set, Z.eqb_refl by lia. simpl. f_equal. lia.
    + rewrite <- Z.add_assoc, slot_get_set by lia. case_bool; [lia|]. apply Hr. lia.
Qed.

Lemma ring_ok_head r c e q : ring_ok r c (e :: q) -> aget r (wrap k c) = node_for c e.
Proof. intros [_ _ Hq _]. specialize (Hq 0). rewrite Z.add_0_r in Hq. apply Hq. simpl. lia. Qed.

Lemma seq_next_ne x : u32 x <> u32 (x + 1).
Proof. intros Heq. apply (wrap_inj_near 32) in Heq; lia. Qed.

Lemma ring_ok_empty_head r c : ring_ok r c [] -> sequence (aget r (wrap k c)) <> u32 (c + 1).
Proof.
  intros [_ _ _ Hr]. specialize (Hr 0). rewrite Z.add_0_r in Hr.
  rewrite Hr by (simpl; pose proof depth_bounds; lia). apply seq_next_ne.
Qed.

End Ring.

(** ** What the bus promises: a bounded queue with priority admission

    The abstract bus holds the pending messages in order and, per message type,
    the places its callbacks occupy. *)

Definition Place : Type := option (Z * Callback).

Record SpecBus := mkSpecBus {
  pending : list MessageEnvelope;
  places : list (list Place);
  spec_msg_id : Z;
  spec_callback_id : Z;
  spec_published : Z;
  spec_dropped : Z;
  spec_processed : Z;
  spec_reporting : bool;
  spec_reports : list (BusError * Z)
}.

Definition spec_init : SpecBus :=
  mkSpecBus [] (replicate (Z.to_nat kMaxTypes) (replicate (Z.to_nat kMaxCallbacks) None)) 1 1 0 0 0 false [].

Definition spec_percent (p : MessagePriority) : Z :=
  match p with kHigh => 99 | kMedium => 80 | kLow => 60 end.
Definition spec_limit (p : MessagePriority) : Z := 2 ^ k * spec_percent p / 100.

Definition spec_report (e : BusError) (s : SpecBus) : SpecBus :=
  mkSpecBus (pending s) (places s) (spec_msg_id s) (spec_callback_id s) (spec_published s) (spec_dropped s)
    (spec_processed s) (spec_reporting s)
    (if spec_reporting s then spec_reports s ++ [(e, spec_msg_id s)] else spec_reports s).

Definition spec_drop (s : SpecBus) : SpecBus :=
  mkSpecBus (pending s) (places s) (spec_msg_id s) (spec_callback_id s) (spec_published s) (u64 (spec_dropped s + 1))
    (spec_processed s) (spec_reporting s) (spec_reports s).

(** The queue becomes [q] and one more message has been accepted. *)
Definition spec_accept (q : list MessageEnvelope) (s : SpecBus) : SpecBus :=
  mkSpecBus q (places s) (u64 (spec_msg_id s + 1)) (spec_callback_id s) (u64 (spec_published s + 1)) (spec_dropped s)
    (spec_processed s) (spec_reporting s) (spec_reports s).

(** Replaces the first message of lower than high priority. *)
Fixpoint replace_lower (e : MessageEnvelope) (q : list MessageEnvelope) : option (list MessageEnvelope) :=
  match q with
  | [] => None
  | x :: q' => if bool_decide (priority (header x) = kHigh) then cons x <$> replace_lower e q' else Some (e :: q')
  end.

(** The message at the head is the consumer's and is never evicted. *)
Definition spec_evict (e : MessageEnvelope) (q : list MessageEnvelope) : option (list MessageEnvelope) :=
  match q with [] => None | x :: q' => cons x <$> replace_lower e q' end.

Definition spec_publish (pl : Payload) (sender ts : Z) (prio : MessagePriority) (topic : Z) (s : SpecBus)
    : bool * SpecBus :=
  let e := mkEnvelope (mkHeader (spec_msg_id s) ts sender topic prio) pl in
  if kMsgIdWrapThreshold <=? spec_msg_id s then (false, spec_report kOverflowDetected s)
  else if Z.of_nat (length (pending s)) <? spec_limit prio then (true, spec_accept (pending s ++ [e]) s)
  else match (if eviction && bool_decide (prio = kHigh) then spec_evict e (pending s) else None) with
       | Some q => (true, spec_accept q (spec_drop s))
       | None => (false, spec_report kQueueFull (spec_drop s))
       end.

Definition with_places (n : Z) (ps : list (list Place)) (s : SpecBus) : SpecBus :=
  mkSpecBus (pending s) ps (spec_msg_id s) n (spec_published s) (spec_dropped s)
    (spec_processed s) (spec_reporting s) (spec_reports s).

Definition spec_subscribe (t : Z) (f : Callback) (s : SpecBus) : SubscriptionHandle * SpecBus :=
  let id := spec_callback_id s in
  let row := aget (places s) t in
  match list_find (fun p => p = None) row with
  | Some (i, _) => (mkHandle t id, with_places (u32 (id + 1)) (aset (places s) t (<[i := Some (id, f)]> row)) s)
  | None => (handle_Invalid, with_places (u32 (id + 1)) (places s) s)
  end.

Definition spec_unsubscribe (h : SubscriptionHandle) (s : SpecBus) : bool * SpecBus :=
  if negb (handle_IsValid h) || (kMaxTypes <=? type_index h) then (false, s)
  else
    let row := aget (places s) (type_index h) in
    match list_find (fun p => fst <$> p = Some (callback_id h)) row with
    | Some (i, _) => (true, with_places (spec_callback_id s) (aset (places s) (type_index h) (<[i := None]> row)) s)
    | None => (false, s)
    end.

(** Every subscriber of the message's type is called, in the order of the places. *)
Definition spec_dispatch (s : SpecBus) (e : MessageEnvelope) (w : World) : World :=
  let t := u32 (variant_index (payload e)) in
  if kMaxTypes <=? t then w
  else foldl (fun w p => match p with Some (_, f) => f e w | None => w end) w (aget (places s) t).

(** The oldest messages, at most a batch, are delivered in order and leave. *)
Definition spec_process (visit : MessageEnvelope -> World -> World) (s : SpecBus) (w : World) : Z * SpecBus * World :=
  let n := Nat.min (Z.to_nat kBatchSize) (length (pending s)) in
  (Z.of_nat n,
   mkSpecBus (drop n (pending s)) (places s) (spec_msg_id s) (spec_callback_id s) (spec_published s) (spec_dropped s)
     (u64 (spec_processed s + Z.of_nat n)) (spec_reporting s) (spec_reports s),
   foldl (fun w e => visit e w) w (take n (pending s))).

Definition spec_level (s : SpecBus) : BackpressureLevel :=
  let d := Z.of_nat (length (pending s)) in
  if 2 ^ k * 90 / 100 <=? d then bpCritical else if 2 ^ k * 75 / 100 <=? d then bpWarning else bpNormal.

Definition spec_reset (s : SpecBus) : SpecBus :=
  mkSpecBus [] (replicate (Z.to_nat kMaxTypes) (replicate (Z.to_nat kMaxCallbacks) None)) 1 1 0 0 0 false
    (spec_reports s).

(** The calls a program makes, and what they return. *)
Inductive BusOp :=
| OpPublish (pl : Payload) (sender ts : Z) (prio : MessagePriority) (topic : Z)
| OpSubscribe (t : Z) (f : Callback)
| OpUnsubscribe (h : SubscriptionHandle)
| OpProcessBatch
| OpProcessBatchWith (visitor : Payload -> MessageHeader -> World -> World)
| OpDepth
| OpUtilization
| OpLevel
| OpStatistics
| OpResetStatistics
| OpSetErrorCallback (registered : bool)
| OpReset.

Inductive BusRes :=
| ResUnit
| ResBool (b : bool)
| ResHandle (h : SubscriptionHandle)
| ResCount (n : Z)
| ResLevel (l : BackpressureLevel)
| ResStats (published dropped processed : Z).

Definition op_ok (o : BusOp) : Prop :=
  match o with
  | OpSubscribe t _ => 0 <= t < kMaxTypes
  | OpUnsubscribe h => 0 <= type_index h
  | _ => True
  end.

Definition bus_step (o : BusOp) (st : AsyncBus * World) : BusRes * (AsyncBus * World) :=
  let '(b, w) := st in
  match o with
  | OpPublish pl sender ts prio topic => let '(r, b) := PublishInternal pl sender ts prio topic b in (ResBool r, (b, w))
  | OpSubscribe t f => let '(h, b) := Subscribe t f b in (ResHandle h, (b, w))
  | OpUnsubscribe h => let '(r, b) := Unsubscribe h b in (ResBool r, (b, w))
  | OpProcessBatch => let '(n, b, w) := ProcessBatch b w in (ResCount n, (b, w))
  | OpProcessBatchWith v => let '(n, b, w) := ProcessBatchWith v b w in (ResCount n, (b, w))
  | OpDepth => (ResCount (Depth b), (b, w))
  | OpUtilization => (ResCount (UtilizationPercent b), (b, w))
  | OpLevel => (ResLevel (GetBackpressureLevel b), (b, w))
  | OpStatistics => let st := GetStatistics b in
      (ResStats (messages_published st) (messages_dropped st) (messages_processed st), (b, w))
  | OpResetStatistics => (ResUnit, (ResetStatistics b, w))
  | OpSetErrorCallback reg => (ResUnit, (SetErrorCallback reg b, w))
  | OpReset => (ResUnit, (Reset b, w))
  end.

Definition spec_step (o : BusOp) (st : SpecBus * World) : BusRes * (SpecBus * World) :=
  let '(s, w) := st in
  match o with
  | OpPublish pl sender ts prio topic => let '(r, s) := spec_publish pl sender ts prio topic s in (ResBool r, (s, w))
  | OpSubscribe t f => let '(h, s) := spec_subscribe t f s in (ResHandle h, (s, w))
  | OpUnsubscribe h => let '(r, s) := spec_unsubscribe h s in (ResBool r, (s, w))
  | OpProcessBatch => let '(n, s, w) := spec_process (spec_dispatch s) s w in (ResCount n, (s, w))
  | OpProcessBatchWith v =>
      let '(n, s, w) := spec_process (fun e => v (payload e) (header e)) s w in (ResCount n, (s, w))
  | OpDepth => (ResCount (Z.of_nat (length (pending s))), (s, w))
  | OpUtilization => (ResCount (Z.of_nat (length (pending s)) * 100 / 2 ^ k), (s, w))
  | OpLevel => (ResLevel (spec_level s), (s, w))
  | OpStatistics => (ResStats (spec_published s) (spec_dropped s) (spec_processed s), (s, w))
  | OpResetStatistics =>
      (ResUnit, (mkSpecBus (pending s) (places s) (spec_msg_id s) (spec_callback_id s) 0 0 0
                   (spec_reporting s) (spec_reports s), w))
  | OpSetErrorCallback reg =>
      (ResUnit, (mkSpecBus (pending s) (places s) (spec_msg_id s) (spec_callback_id s) (spec_published s)
                   (spec_dropped s) (spec_processed s) reg (spec_reports s), w))
  | OpReset => (ResUnit, (spec_reset s, w))
  end.

(** ** The refinement relation *)

Definition place_of (e : CallbackEntry) : Place :=
  if entry_active e then (fun f => (entry_id e, f)) <$> entry_callback e else None.

Definition active_count : list CallbackEntry -> nat := count_if entry_active.

(** [count] counts the active entries, each of which has a callback. *)
Record slot_ok (sl : CallbackSlot) (row : list Place) : Prop := {
  so_len : length (entries sl) = Z.to_nat kMaxCallbacks;
  so_row : row = place_of <$> entries sl;
  so_count : slot_count sl = Z.of_nat (active_count (entries sl));
  so_set : Forall (fun e => entry_active e = true -> is_Some (entry_callback e)) (entries sl)
}.

Definition table_ok (t : list CallbackSlot) (ps : list (list Place)) : Prop :=
  Forall2 slot_ok t ps /\ length t = Z.to_nat kMaxTypes.

Definition stats_ok (st : BusStatistics) (s : SpecBus) : Prop :=
  messages_published st = spec_published s /\ messages_dropped st = spec_dropped s /\
  messages_processed st = spec_processed s /\ in_range 64 (spec_processed s).

(** The cached consumer position lags behind the real one by [lag], by so
    little that the estimated depth stays within the highest threshold. *)
Record bus_rel (b : AsyncBus) (s : SpecBus) : Prop := {
  br_ring : ring_ok (ring_buffer_ b) (consumer_pos_ b) (pending s);
  br_cons : in_range 32 (consumer_pos_ b);
  br_prod : producer_pos_ b = u32 (consumer_pos_ b + Z.of_nat (length (pending s)));
  br_cached : exists lag, 0 <= lag /\ cached_consumer_pos_ b = u32 (consumer_pos_ b - lag) /\
    Z.of_nat (length (pending s)) + lag <= spec_limit kHigh;
  br_id : next_msg_id_ b = spec_msg_id s;
  br_cb : next_callback_id_ b = spec_callback_id s;
  br_stats : stats_ok (stats_ b) s;
  br_table : table_ok (callback_table_ b) (places s);
  br_reporting : error_callback_ b = spec_reporting s;
  br_reports : error_reports b = spec_reports s
}.

Section Refinement.
Context (Hk : 0 <= k <= 25) (Hcallbacks : 0 <= kMaxCallbacks < 2 ^ 32)
        (Htypes : 0 <= kMaxTypes <= 2 ^ 32).

Lemma scaled_small c : 0 <= c <= 100 -> u32 (kQueueDepth * c) = 2 ^ k * c.
Proof.
  intros. pose proof (depth_bounds Hk). apply wrap_small. unfold in_range, kQueueDepth.
  change (2 ^ 32) with (2 ^ 25 * 128). nia.
Qed.

Lemma threshold_spec p : GetThresholdForPriority p = spec_limit p.
Proof.
  unfold GetThresholdForPriority, spec_limit, kHighThreshold, kMediumThreshold, kLowThreshold.
  destruct p; cbn [spec_percent]; rewrite scaled_small; (done || lia).
Qed.

Lemma spec_limit_bounds p : 0 <= spec_limit p <= spec_limit kHigh.
Proof.
  unfold spec_limit. pose proof (depth_bounds Hk).
  split; [apply Z.div_pos; destruct p; simpl; lia|].
  apply Z.div_le_mono; [lia|]. destruct p; simpl; lia.
Qed.

Lemma spec_limit_high : spec_limit kHigh < 2 ^ k.
Proof. unfold spec_limit. simpl. pose proof (depth_bounds Hk). apply Z.div_lt_upper_bound; lia. Qed.

Lemma small_u32 z : 0 <= z <= 2 ^ k -> u32 z = z.
Proof.
  intros. pose proof (depth_bounds Hk). apply wrap_small. unfold in_range.
  change (2 ^ 32) with (2 ^ 25 * 128). lia.
Qed.

Lemma rel_depth b s : bus_rel b s -> u32 (producer_pos_ b - consumer_pos_ b) = Z.of_nat (length (pending s)).
Proof.
  intros [Hr _ Hp _ _ _ _ _ _ _]. rewrite Hp, wrap_sub_l.
  replace (_ - _) with (Z.of_nat (length (pending s))) by lia. apply small_u32. destruct Hr. lia.
Qed.

Lemma rel_estimate b s lag :
  bus_rel b s -> 0 <= lag -> cached_consumer_pos_ b = u32 (consumer_pos_ b - lag) ->
  Z.of_nat (length (pending s)) + lag <= spec_limit kHigh ->
  u32 (producer_pos_ b - cached_consumer_pos_ b) = Z.of_nat (length (pending s)) + lag.
Proof.
  intros [Hr _ Hp _ _ _ _ _ _ _] Hl -> Hle. rewrite Hp, wrap_sub_wrap.
  replace (_ - _) with (Z.of_nat (length (pending s)) + lag) by lia. apply small_u32.
  pose proof spec_limit_high. lia.
Qed.

(** *** Publishing *)

Lemma rel_recheck b s :
  bus_rel b s -> bus_rel (set_stats (stats_recheck (stats_ b)) (set_cached (consumer_pos_ b) b)) s.
Proof.
  intros [Hr Hc Hp Hca Hi Hcb Hst Ht Hre Hrs]. destruct Hca as (lag & ? & ? & ?).
  split; simpl; try done. exists 0. rewrite Z.sub_0_r, wrap_small by done.
  split; [lia|split; [done|lia]].
Qed.

Lemma rel_report b s e :
  bus_rel b s -> bus_rel (ReportError e (next_msg_id_ b) b) (spec_report e s).
Proof.
  intros [Hr Hc Hp Hca Hi Hcb Hst Ht Hre Hrs]. unfold ReportError, spec_report.
  destruct (error_callback_ b) eqn:E; rewrite <- Hre; split; simpl; try done; by rewrite Hrs, Hi.
Qed.

Lemma rel_drop b s : bus_rel b s -> bus_rel (set_stats (stats_drop (stats_ b)) b) (spec_drop s).
Proof.
  intros [Hr Hc Hp Hca Hi Hcb [Hst1 [Hst2 Hst3] ] Ht Hre Hrs]. split; simpl; try done.
  split; [done|]. simpl. by rewrite Hst2.
Qed.

Lemma claim_and_fill_rel b s pl sender ts prio topic id :
  bus_rel b s -> u32 (producer_pos_ b - cached_consumer_pos_ b) < spec_limit prio ->
  exists b', claim_and_fill pl sender ts prio topic id b = (true, b') /\
    bus_rel b' (spec_accept (pending s ++ [mkEnvelope (mkHeader (spec_msg_id s) ts sender topic prio) pl]) s).
Proof.
  intros Hrel Hlt. destruct (br_cached _ _ Hrel) as (lag & Hl & Hca & Hle).
  rewrite (rel_estimate b s lag) in Hlt by done.
  destruct Hrel as [Hr Hc Hp _ Hi Hcb [Hst1 [Hst2 Hst3] ] Ht Hre Hrs].
  pose proof (spec_limit_bounds prio). pose proof spec_limit_high.
  unfold claim_and_fill. rewrite Hp, (node_at_wrap Hk).
  rewrite (ro_free _ _ _ Hr) by lia. rewrite Z.eqb_refl. simpl. eexists. split; [done|].
  rewrite (put_node_wrap Hk), Hi, wrap_add_l.
  pose proof (ring_ok_push Hk _ _ _ (mkEnvelope (mkHeader (spec_msg_id s) ts sender topic prio) pl) Hr ltac:(lia)) as Hr'.
  unfold node_for in Hr'. simpl in Hr'.
  split; simpl; try done.
  - rewrite length_app. simpl. f_equal. lia.
  - exists lag. rewrite length_app. simpl. split; [done|split; [done|lia]].
  - split; simpl; [by rewrite Hst1|done].
Qed.

(** The scan of the eviction finds the victim of the specification. *)
Lemma evict_loop_rel b s pl sender ts topic fuel i :
  bus_rel b s -> 1 <= i <= Z.of_nat (length (pending s)) ->
  Z.of_nat (length (pending s)) - i < Z.of_nat fuel ->
  let e := mkEnvelope (mkHeader (spec_msg_id s) ts sender topic kHigh) pl in
  match replace_lower e (drop (Z.to_nat i) (pending s)) with
  | Some q => exists b', evict_loop fuel pl sender ts topic (producer_pos_ b) (consumer_pos_ b) i b = Some b' /\
      bus_rel b' (spec_accept (take (Z.to_nat i) (pending s) ++ q) (spec_drop s))
  | None => evict_loop fuel pl sender ts topic (producer_pos_ b) (consumer_pos_ b) i b = None
  end.
Proof.
  intros Hrel. revert i. induction fuel as [|fuel IH]; intros i Hi Hf e; [lia|].
  pose proof Hrel as [Hr Hc Hp Hca Hid Hcb [Hst1 [Hst2 Hst3] ] Ht Hre Hrs].
  destruct Hca as (lag & Hlag & Hca & Hle). pose proof spec_limit_high.
  cbn [evict_loop]. destruct (Z.ltb_spec i kQueueDepth); [|unfold kQueueDepth in *; lia].
  destruct (Z.eq_dec i (Z.of_nat (length (pending s)))) as [->|Hne].
  { rewrite <- Hp, Z.eqb_refl, Nat2Z.id, drop_all. done. }
  destruct (Z.eqb_spec (u32 (consumer_pos_ b + i)) (producer_pos_ b)) as [Heq|_].
  { rewrite Hp in Heq. apply (wrap_inj_near 32) in Heq; [lia..|]. pose proof (depth_bounds Hk). lia. }
  rewrite (node_at_wrap Hk), (ro_full _ _ _ Hr) by lia. cbn [sequence node_for slot_priority].
  rewrite wrap_add_l, Z.eqb_refl. cbn [negb].
  assert (Hd : drop (Z.to_nat i) (pending s) = aget (pending s) i :: drop (Z.to_nat (i + 1)) (pending s)).
  { replace (Z.to_nat (i + 1)) with (S (Z.to_nat i)) by lia.
    apply drop_S, list_lookup_lookup_total_lt. lia. }
  rewrite Hd. cbn [replace_lower].
  assert (Hpri : (priority_to_Z kHigh <=? priority_to_Z (priority (header (aget (pending s) i)))) =
    bool_decide (priority (header (aget (pending s) i)) = kHigh))
    by (by destruct (priority (header (aget (pending s) i)))).
  rewrite Hpri. destruct (bool_decide _).
  - specialize (IH (i + 1) ltac:(lia) ltac:(lia)). cbv zeta in IH. fold e in IH.
    destruct (replace_lower e _) as [q|]; cbn [fmap option_fmap option_map]; [|done].
    destruct IH as (b' & -> & Hb'). exists b'. split; [done|].
    replace (Z.to_nat (i + 1)) with (S (Z.to_nat i)) in Hb' by lia.
    rewrite (take_S_r _ _ (aget (pending s) i)) in Hb' by (apply list_lookup_lookup_total_lt; lia).
    by rewrite <- app_assoc in Hb'.
  - eexists. split; [done|]. rewrite (put_node_wrap Hk).
    assert (Hq : take (Z.to_nat i) (pending s) ++ e :: drop (Z.to_nat (i + 1)) (pending s) = aset (pending s) i e).
    { unfold aset. rewrite insert_take_drop by lia. by replace (S (Z.to_nat i)) with (Z.to_nat (i + 1)) by lia. }
    rewrite Hq. pose proof (ring_ok_replace Hk _ _ _ i e Hr ltac:(lia)) as Hr'.
    subst e. unfold node_for in Hr'. simpl in Hr'.
    split; simpl; rewrite ?length_aset, ?Hid; try done.
    + by exists lag.
    + split; simpl; [by rewrite Hst1|by rewrite Hst2].
Qed.

Lemma evict_rel b s pl sender ts topic :
  bus_rel b s -> spec_limit kHigh <= Z.of_nat (length (pending s)) ->
  let e := mkEnvelope (mkHeader (spec_msg_id s) ts sender topic kHigh) pl in
  match spec_evict e (pending s) with
  | Some q => exists b', TryEvictAndPublish pl sender ts topic b = Some b' /\ bus_rel b' (spec_accept q (spec_drop s))
  | None => TryEvictAndPublish pl sender ts topic b = None
  end.
Proof.
  intros Hrel Hle e. pose proof spec_limit_high. pose proof (ro_fit _ _ _ (br_ring _ _ Hrel)).
  destruct (br_cached _ _ Hrel) as (lag & ? & _ & ?). pose proof (depth_bounds Hk).
  unfold TryEvictAndPublish. destruct (pending s) as [|x q] eqn:Eq.
  - simpl in *. assert (2 ^ k = 1) as Hone.
    { unfold spec_limit in *. cbn [spec_percent] in *.
      Z.div_mod_to_equations; lia. }
    unfold kQueueDepth. rewrite Hone. change (Z.to_nat 1) with 1%nat. cbn [evict_loop].
    unfold kQueueDepth. by rewrite Hone.
  - pose proof (evict_loop_rel b s pl sender ts topic (Z.to_nat kQueueDepth) 1 Hrel) as Hev.
    rewrite Eq in Hev. unfold kQueueDepth in *. simpl length in *.
    specialize (Hev ltac:(lia) ltac:(lia)). cbv zeta in Hev. fold e in Hev.
    change (Z.to_nat 1) with 1%nat in Hev. cbn [drop take] in Hev. cbn [spec_evict].
    destruct (replace_lower e _); cbn [fmap option_fmap option_map]; [|done].
    destruct Hev as (b' & ? & Hb'). exists b'. split; [done|]. by rewrite drop_0, take_0 in Hb' || done.
Qed.

Lemma publish_rel b s pl sender ts prio topic :
  bus_rel b s ->
  (PublishInternal pl sender ts prio topic b).1 = (spec_publish pl sender ts prio topic s).1 /\
  bus_rel (PublishInternal pl sender ts prio topic b).2 (spec_publish pl sender ts prio topic s).2.
Proof.
  intros Hrel. unfold PublishInternal, spec_publish. rewrite threshold_spec.
  rewrite <- (br_id _ _ Hrel). destruct (Z.leb_spec kMsgIdWrapThreshold (next_msg_id_ b)).
  { split; [done|]. by apply rel_report. }
  destruct (br_cached _ _ Hrel) as (lag & Hl & Hca & Hle).
  pose proof (rel_estimate b s lag Hrel Hl Hca Hle) as Hest.
  rewrite (rel_depth _ _ Hrel). rewrite Hest.
  destruct (Z.leb_spec (spec_limit prio) (Z.of_nat (length (pending s)) + lag)) as [Hge|Hlt].
  - pose proof (rel_recheck _ _ Hrel) as Hrel'.
    destruct (Z.leb_spec (spec_limit prio) (Z.of_nat (length (pending s)))),
      (Z.ltb_spec (Z.of_nat (length (pending s))) (spec_limit prio)); try lia.
    + assert (Hdrop : (drop_message (next_msg_id_ b)
        (set_stats (stats_recheck (stats_ b)) (set_cached (consumer_pos_ b) b))).1 = false /\
        bus_rel (drop_message (next_msg_id_ b)
        (set_stats (stats_recheck (stats_ b)) (set_cached (consumer_pos_ b) b))).2 (spec_report kQueueFull (spec_drop s)))
        by (split; [done|]; apply (rel_report _ _ kQueueFull (rel_drop _ _ Hrel'))).
      destruct eviction; [|done]. destruct (bool_decide_reflect (prio = kHigh)) as [->|]; [|done].
      simpl andb. cbv iota. rewrite (br_id _ _ Hrel).
      pose proof (evict_rel _ _ pl sender ts topic Hrel' ltac:(done)) as Hev. cbv zeta in Hev.
      destruct (spec_evict _ _) as [q|].
      * destruct Hev as (b' & -> & Hb'). done.
      * rewrite Hev. by rewrite <- (br_id _ _ Hrel).
    + destruct (claim_and_fill_rel _ _ pl sender ts prio topic (next_msg_id_ b) Hrel') as (b' & -> & Hb').
      { change (producer_pos_ (set_stats _ _)) with (producer_pos_ b).
        change (cached_consumer_pos_ (set_stats _ _)) with (consumer_pos_ b). by rewrite (rel_depth _ _ Hrel). }
      by rewrite (br_id _ _ Hrel).
  - destruct (Z.ltb_spec (Z.of_nat (length (pending s))) (spec_limit prio)); [|lia].
    destruct (claim_and_fill_rel _ _ pl sender ts prio topic (next_msg_id_ b) Hrel ltac:(lia)) as (b' & -> & Hb').
    by rewrite (br_id _ _ Hrel).
Qed.

(** *** Processing *)

(** The loop consumes the prefix of the queue; it touches only the ring. *)
Lemma process_loop_ring visit n c q processed b w :
  ring_ok (ring_buffer_ b) c q -> in_range 32 c ->
  let m := Nat.min n (length q) in
  exists r, process_loop n visit c processed b w =
    (processed + Z.of_nat m, u32 (c + Z.of_nat m), set_ring r b, foldl (fun w e => visit e w) w (take m q)) /\
    ring_ok r (c + Z.of_nat m) (drop m q).
Proof.
  revert c q processed b w. induction n as [|n IH]; intros c q processed b w Hr Hc m.
  { exists (ring_buffer_ b). subst m. simpl. rewrite !Z.add_0_r, wrap_small by done. by destruct b. }
  cbn [process_loop]. unfold node_at at 1 2 3 4, put_node, kBufferMask, kQueueDepth. rewrite !land_mask by lia.
  destruct q as [|e q].
  - pose proof (ring_ok_empty_head Hk _ _ Hr).
    destruct (Z.eqb_spec (sequence (aget (ring_buffer_ b) (wrap k c))) (u32 (c + 1))); [done|].
    exists (ring_buffer_ b). subst m. simpl. rewrite !Z.add_0_r, wrap_small by done. by destruct b.
  - pose proof (ring_ok_head _ _ _ _ Hr) as Hh. rewrite Hh. cbn [sequence node_for slot_priority envelope].
    rewrite Z.eqb_refl.
    pose proof (ring_ok_pop Hk _ _ _ _ (priority_to_Z (priority (header e))) e Hr) as Hp.
    apply (ring_ok_wrap Hk) in Hp.
    match goal with |- exists r, process_loop n visit ?c' ?p' ?b' ?w' = _ /\ _ =>
      destruct (IH c' q p' b' w' Hp (wrap_range 32 _ ltac:(lia))) as (r & -> & Hr') end.
    exists r. subst m. cbn [length Nat.min take drop foldl]. rewrite wrap_add_l.
    split; [f_equal; f_equal; f_equal; [lia|f_equal; lia]|]. apply (ring_ok_wrap Hk). apply (ring_ok_wrap Hk) in Hr'.
    rewrite wrap_add_l in Hr'. by replace (c + Z.of_nat (S (n `min` length q)))
      with (c + 1 + Z.of_nat (n `min` length q)) by lia.
Qed.

Lemma process_rel visit visit' b s w :
  bus_rel b s -> (forall e w, visit e w = visit' e w) ->
  (process visit b w).1.1 = (spec_process visit' s w).1.1 /\
  bus_rel (process visit b w).1.2 (spec_process visit' s w).1.2 /\
  (process visit b w).2 = (spec_process visit' s w).2.
Proof.
  intros [Hr Hc Hp (lag & Hlag & Hca & Hle) Hid Hcb [Hst1 [Hst2 [Hst3 Hst4] ] ] Ht Hre Hrs] Hv.
  unfold process, spec_process.
  destruct (process_loop_ring visit (Z.to_nat kBatchSize) _ _ 0 b w Hr Hc) as (r & -> & Hr').
  cbv beta zeta iota. set (m := (Z.to_nat kBatchSize `min` length (pending s))%nat) in *.
  assert (Hw : foldl (fun w e => visit e w) w (take m (pending s)) =
               foldl (fun w e => visit' e w) w (take m (pending s))).
  { generalize (take m (pending s)) as l. intros l. revert w. induction l as [|e l IHl]; intros w; [done|].
    simpl. by rewrite Hv, IHl. }
  destruct (Z.ltb_spec 0 (0 + Z.of_nat m)) as [Hpos|Hz].
  - cbn [fst snd]. split; [done|]. split; [|done].
    split; simpl; try done.
    + by apply (ring_ok_wrap Hk).
    + apply wrap_range; lia.
    + rewrite Hp, wrap_add_l, length_drop. f_equal. lia.
    + exists (lag + Z.of_nat m). rewrite length_drop, wrap_sub_l.
      split; [lia|]. split; [rewrite Hca; f_equal; lia|lia].
    + split; [done|]. split; [done|]. simpl. rewrite Hst3. split; [done|]. apply wrap_range; lia.
  - assert (Hm : m = O) by lia. rewrite Hm in *. cbn [fst snd]. split; [done|]. split; [|done].
    rewrite drop_0, Z.add_0_r in *. split; simpl; rewrite ?drop_0; try done.
    + by exists lag.
    + split; [done|]. split; [done|]. simpl. by rewrite Hst3, wrap_small.
Qed.

(** *** Subscriptions *)

Lemma find_entry_list_find f (P : Place -> Prop) `{!forall p, Decision (P p)} l i :
  Forall (fun e => f e = true <-> P (place_of e)) l ->
  find_entry f l i = (fun jp => i + Z.of_nat jp.1) <$> list_find P (place_of <$> l).
Proof.
  revert i. induction l as [|e l IH]; intros i Hall; [done|]. inversion_clear Hall as [|? ? He Hl].
  rewrite fmap_cons. cbn [find_entry list_find]. destruct (f e) eqn:Ef; case_decide.
  - simpl. f_equal. lia.
  - by destruct He as [He _]; specialize (He eq_refl).
  - by destruct He as [_ He]; specialize (He H1).
  - rewrite IH by done. destruct (list_find P (place_of <$> l)) as [ [j ?]|]; cbn; [|done].
    f_equal. lia.
Qed.

Definition act : CallbackEntry -> nat := bit entry_active.

Lemma active_count_cons e l : active_count (e :: l) = (act e + active_count l)%nat.
Proof. apply count_if_cons. Qed.

Lemma slot_entry sl row j e :
  slot_ok sl row -> entries sl !! j = Some e -> entry_active e = true -> is_Some (entry_callback e).
Proof. intros [_ _ _ Hs] Hj. rewrite Forall_lookup in Hs. by apply (Hs j). Qed.

(** Overwriting an entry, with the count adjusted, keeps the slot consistent. *)
Lemma slot_ok_insert sl row j e e' n :
  slot_ok sl row -> entries sl !! j = Some e -> (entry_active e' = true -> is_Some (entry_callback e')) ->
  n + Z.of_nat (act e) = slot_count sl + Z.of_nat (act e') ->
  slot_ok (mkSlot (aset (entries sl) (Z.of_nat j) e') (u32 n)) (<[j := place_of e']> row).
Proof.
  intros [Hl Hrow Hc Hs] Hj He Hn. unfold aset, act, active_count in *. rewrite Nat2Z.id.
  pose proof (count_if_insert entry_active _ _ _ e' Hj) as Hac. pose proof (count_if_le entry_active (<[j:=e']> (entries sl))) as Hb.
  rewrite length_insert in Hb.
  split; simpl.
  - by rewrite length_insert.
  - by rewrite Hrow, list_fmap_insert.
  - unfold active_count. rewrite wrap_small; [lia|]. unfold in_range. lia.
  - by apply Forall_insert.
Qed.

Lemma table_row t ps i :
  table_ok t ps -> 0 <= i < kMaxTypes -> slot_ok (aget t i) (aget ps i) /\ is_Some (t !! Z.to_nat i).
Proof.
  intros [Hf Hl] Hi. destruct (lookup_lt_is_Some_2 t (Z.to_nat i)) as [sl Hsl]; [lia|].
  destruct (Forall2_lookup_l _ _ _ _ _ Hf Hsl) as (row & Hrow & Hok).
  unfold aget. rewrite (list_lookup_total_correct _ _ _ Hsl), (list_lookup_total_correct _ _ _ Hrow). eauto.
Qed.

Lemma table_update t ps i sl row :
  table_ok t ps -> 0 <= i -> slot_ok sl row -> table_ok (aset t i sl) (aset ps i row).
Proof. intros [Hf Hl] Hi Hok. split; [by apply Forall2_insert|by rewrite length_aset]. Qed.

Lemma rel_set_table b s n t ps :
  bus_rel b s -> table_ok t ps -> bus_rel (set_table n t b) (with_places n ps s).
Proof. intros [] ?. by split. Qed.

Lemma subscribe_rel b s t f :
  bus_rel b s -> 0 <= t < kMaxTypes ->
  (Subscribe t f b).1 = (spec_subscribe t f s).1 /\ bus_rel (Subscribe t f b).2 (spec_subscribe t f s).2.
Proof.
  intros Hrel Ht. destruct (table_row _ _ t (br_table _ _ Hrel) Ht) as [Hslot _].
  unfold Subscribe, spec_subscribe. rewrite (br_cb _ _ Hrel).
  rewrite (find_entry_list_find _ (fun p => p = None)).
  2:{ apply Forall_lookup_2. intros j e Hj. pose proof (slot_entry _ _ _ _ Hslot Hj) as He. unfold place_of.
      destruct (entry_active e); simpl; [|tauto]. destruct He as [g ->]; [done|]. simpl. split; congruence. }
  rewrite <- (so_row _ _ Hslot).
  destruct (list_find _ _) as [ [j p]|] eqn:Efind; simpl.
  - split; [done|]. apply rel_set_table; [done|]. apply table_update; [apply Hrel|lia|].
    apply list_find_Some in Efind as (Hj & -> & _). rewrite (so_row _ _ Hslot) in Hj.
    apply list_lookup_fmap_Some in Hj as (e & Hp & He).
    assert (act e = 0%nat).
    { unfold act, bit, place_of in *. destruct (entry_active e) eqn:Ea; [|done].
      destruct (slot_entry _ _ _ _ Hslot He Ea) as [g Hg]. by rewrite Hg in Hp. }
    apply (slot_ok_insert _ _ j e (mkEntry (spec_callback_id s) (Some f) true)); [done..| |]; unfold act, bit in *; simpl; [eauto|lia].
  - split; [done|]. apply rel_set_table; [done|]. apply Hrel.
Qed.

Lemma unsubscribe_rel b s h :
  bus_rel b s -> 0 <= type_index h ->
  (Unsubscribe h b).1 = (spec_unsubscribe h s).1 /\ bus_rel (Unsubscribe h b).2 (spec_unsubscribe h s).2.
Proof.
  intros Hrel Ht. unfold Unsubscribe, spec_unsubscribe.
  destruct (negb (handle_IsValid h)); [done|]. destruct (Z.leb_spec kMaxTypes (type_index h)); [done|]. simpl orb.
  destruct (table_row _ _ (type_index h) (br_table _ _ Hrel) ltac:(lia)) as [Hslot _].
  rewrite (find_entry_list_find _ (fun p => fst <$> p = Some (callback_id h))).
  2:{ apply Forall_lookup_2. intros j e Hj. pose proof (slot_entry _ _ _ _ Hslot Hj) as He. unfold place_of.
      destruct (entry_active e); simpl; [|done]. destruct He as [g ->]; [done|]. simpl.
      rewrite Z.eqb_eq. split; congruence. }
  rewrite <- (so_row _ _ Hslot).
  destruct (list_find _ _) as [ [j p]|] eqn:Efind; [|done].
  cbn [fmap option_fmap option_map fst]. rewrite Z.add_0_l.
  apply list_find_Some in Efind as (Hj & Hp & _). rewrite (so_row _ _ Hslot) in Hj.
  apply list_lookup_fmap_Some in Hj as (e & -> & He).
  assert (Hge : aget (entries (aget (callback_table_ b) (type_index h))) (Z.of_nat j) = e)
    by (unfold aget at 1; by rewrite Nat2Z.id, (list_lookup_total_correct _ _ _ He)).
  rewrite Hge. assert (entry_active e = true /\ is_Some (entry_callback e)) as [Ha [g Hg] ].
  { unfold place_of in Hp. destruct (entry_active e); [|done]. by destruct (entry_callback e). }
  rewrite Hg. split; [done|]. rewrite (br_cb _ _ Hrel). apply rel_set_table; [done|].
  apply table_update; [apply Hrel|lia|].
  apply (slot_ok_insert _ _ j e (mkEntry (entry_id e) None false)); [done..|].
  unfold act, bit. rewrite Ha. simpl. lia.
Qed.

(** The loop stops at the right entry: the count says how many remain. *)
Lemma dispatch_loop_spec l found env w :
  Forall (fun e => entry_active e = true -> is_Some (entry_callback e)) l ->
  dispatch_loop l found (found + Z.of_nat (active_count l)) env w =
    foldl (fun w p => match p with Some (_, f) => f env w | None => w end) w (place_of <$> l).
Proof.
  revert found w. induction l as [|e l IH]; intros found w Hall; [done|].
  inversion_clear Hall as [|? ? He Hl]. cbn [dispatch_loop fmap list_fmap foldl].
  rewrite active_count_cons. unfold act, bit, place_of at 1. destruct (entry_active e).
  - destruct He as [g ->]; [done|]. simpl. case_bool; [|lia].
    rewrite <- (IH (found + 1)) by done. f_equal. lia.
  - simpl. case_bool; [by apply IH|]. rewrite <- (IH found) by done.
    assert (active_count l = 0%nat) as -> by lia. destruct l as [|x l']; [done|]. simpl. case_bool; [lia|done].
Qed.

Lemma dispatch_rel b s env w : bus_rel b s -> DispatchMessage b env w = spec_dispatch s env w.
Proof.
  intros Hrel. unfold DispatchMessage, spec_dispatch.
  destruct (Z.leb_spec kMaxTypes (u32 (variant_index (payload env)))); [done|].
  pose proof (wrap_range 32 (variant_index (payload env)) ltac:(lia)) as Hr. unfold in_range in Hr.
  destruct (table_row _ _ (u32 (variant_index (payload env))) (br_table _ _ Hrel) ltac:(lia)) as [ [Hl Hrow Hc Hs] _].
  rewrite Hrow, <- (dispatch_loop_spec _ 0 _ _ Hs), <- Hc, Z.add_0_l. case_bool; [|done].
  rewrite e. by destruct (entries _).
Qed.

(** *** Construction and reset *)

Lemma fresh_ring_ok (r : list RingBufferNode) :
  length r = Z.to_nat (2 ^ k) -> (forall i, 0 <= i < 2 ^ k -> sequence (aget r i) = i) -> ring_ok r 0 [].
Proof.
  intros Hl Hs. pose proof (depth_bounds Hk). split; [done|simpl; lia|simpl; lia|].
  intros i Hi. simpl in Hi. rewrite Z.add_0_l, (wrap_small k) by (unfold in_range; lia).
  rewrite Hs by lia. symmetry. apply small_u32. lia.
Qed.

Lemma inactive_slot_ok n (l : list CallbackEntry) :
  length l = n -> n = Z.to_nat kMaxCallbacks -> Forall (fun e => entry_active e = false) l ->
  slot_ok (mkSlot l 0) (replicate n None).
Proof.
  intros Hl Hn Hall. split; simpl; [congruence|..].
  - rewrite <- Hl. clear -Hall. induction Hall as [|e l He _ IH]; [done|].
    simpl. rewrite IH. unfold place_of. by rewrite He.
  - unfold active_count. by rewrite count_if_none.
  - rewrite Forall_forall in *. intros e He. by rewrite Hall.
Qed.

Lemma limit_nonneg : 0 <= spec_limit kHigh.
Proof. apply (spec_limit_bounds kHigh). Qed.

Lemma ctor_rel : bus_rel AsyncBus_ctor spec_init.
Proof.
  split; simpl; try done.
  - apply fresh_ring_ok; [by rewrite length_fmap, length_seqZ|]. intros i Hi. unfold aget.
    rewrite list_lookup_total_alt, list_lookup_fmap, lookup_seqZ_lt by (unfold kQueueDepth; lia). simpl. lia.
  - exists 0. pose proof limit_nonneg. split; [done|split; [done|lia] ].
  - split; [|by rewrite length_replicate]. apply Forall2_replicate.
    unfold empty_slot. apply inactive_slot_ok; [by rewrite length_replicate|done|].
    by apply Forall_replicate.
Qed.

Lemma reset_rel b s : bus_rel b s -> bus_rel (Reset b) (spec_reset s).
Proof.
  intros [Hr Hc Hp Hca Hid Hcb Hst [Ht Htl] Hre Hrs]. split; simpl; try done.
  - destruct Hr as [Hl _ _ _]. apply fresh_ring_ok.
    { rewrite length_fmap, length_zip_with, length_seqZ. unfold kQueueDepth. lia. }
    intros i Hi. unfold aget.
    destruct (lookup_lt_is_Some_2 (ring_buffer_ b) (Z.to_nat i)) as [n Hn]; [lia|].
    rewrite list_lookup_total_alt, list_lookup_fmap, lookup_zip_with, lookup_seqZ_lt by (unfold kQueueDepth; lia).
    simpl. rewrite Hn. simpl. lia.
  - exists 0. pose proof limit_nonneg. split; [done|split; [done|lia] ].
  - split; [|by rewrite length_fmap]. rewrite <- Htl. clear -Ht Hcallbacks.
    induction Ht as [|sl row t ps Hsl _ IH]; simpl; constructor; [|done].
    apply inactive_slot_ok; [rewrite length_fmap; apply Hsl|done|].
    apply Forall_fmap, Forall_true. done.
Qed.

(** *** Every operation *)

Definition state_rel (st1 : AsyncBus * World) (st2 : SpecBus * World) : Prop :=
  bus_rel st1.1 st2.1 /\ st1.2 = st2.2.

Lemma bus_step_rel o st1 st2 :
  op_ok o -> state_rel st1 st2 ->
  (bus_step o st1).1 = (spec_step o st2).1 /\ state_rel (bus_step o st1).2 (spec_step o st2).2.
Proof.
  intros Hok. destruct st1 as [b w], st2 as [s w']. intros [Hrel Hw]. simpl in Hrel, Hw. subst w'.
  assert (Hd : Depth b = Z.of_nat (length (pending s))) by (by apply rel_depth).
  assert (Hlen : 0 <= Z.of_nat (length (pending s)) < 2 ^ k).
  { destruct (br_cached _ _ Hrel) as (? & ? & _ & ?). pose proof spec_limit_high. lia. }
  destruct o; cbn [bus_step spec_step op_ok] in *.
  - destruct (publish_rel _ _ pl sender ts prio topic Hrel) as [E ?].
    destruct (PublishInternal _ _ _ _ _ _), (spec_publish _ _ _ _ _ _). simpl in *. by subst.
  - destruct (subscribe_rel _ _ t f Hrel Hok) as [E ?].
    destruct (Subscribe _ _ _), (spec_subscribe _ _ _). simpl in *. by subst.
  - destruct (unsubscribe_rel _ _ h Hrel Hok) as [E ?].
    destruct (Unsubscribe _ _), (spec_unsubscribe _ _). simpl in *. by subst.
  - destruct (process_rel (DispatchMessage b) (spec_dispatch s) _ _ w Hrel) as (E & ? & ?).
    { intros. by apply dispatch_rel. }
    unfold ProcessBatch. destruct (process _ _ _) as [ [? ?] ?], (spec_process _ _ _) as [ [? ?] ?]. simpl in *. by subst.
  - destruct (process_rel (fun e w => visitor (payload e) (header e) w) (fun e => visitor (payload e) (header e))
      _ _ w Hrel ltac:(done)) as (E & ? & ?).
    unfold ProcessBatchWith. destruct (process _ _ _) as [ [? ?] ?], (spec_process _ _ _) as [ [? ?] ?].
    simpl in *. by subst.
  - by rewrite Hd.
  - unfold UtilizationPercent. rewrite Hd, wrap_small; [done|]. unfold in_range. pose proof (depth_bounds Hk).
    change (2 ^ 32) with (2 ^ 25 * 128). lia.
  - unfold GetBackpressureLevel, spec_level. rewrite Hd, !scaled_small by lia. unfold kQueueDepth.
    destruct (Z.leb_spec (2 ^ k) (Z.of_nat (length (pending s)))); [lia|done].
  - destruct (br_stats _ _ Hrel) as (E1 & E2 & E3 & _). unfold GetStatistics. cbv zeta. by rewrite E1, E2, E3.
  - split; [done|]. destruct Hrel. by split.
  - split; [done|]. destruct Hrel. by split.
  - split; [done|]. split; [by apply reset_rel|done].
Qed.

(** C1. Whatever sequence of calls a program makes, the bus returns what a
    bounded queue with priority admission returns and leaves the same world: a
    message is accepted below its priority's share of the queue (60%, 80%, 99%),
    a high one beyond it replaces the oldest lower one behind the head, every
    other one is dropped, counted and reported; batches are delivered in order,
    each message to every live subscriber of its type.  The positions wrap
    around 2^32; depths up to 2^25 keep the threshold arithmetic exact. *)
Theorem bus_refines_priority_queue ops w :
  Forall op_ok ops ->
  (run bus_step ops (AsyncBus_ctor, w)).1 = (run spec_step ops (spec_init, w)).1 /\
  (run bus_step ops (AsyncBus_ctor, w)).2.2 = (run spec_step ops (spec_init, w)).2.2.
Proof.
  intros Hok.
  destruct (run_simulation op_ok state_rel bus_step spec_step bus_step_rel ops
    (AsyncBus_ctor, w) (spec_init, w) Hok (conj ctor_rel eq_refl)) as [? [_ ?] ].
  done.
Qed.

End Refinement.

End Bus.

(** ** Concrete runs *)

(** Depth 4 with eviction: two low messages, then two high ones of which the
    second replaces the low message behind the head; a subscriber logs payloads. *)
Definition demo_ops : list (BusOp (Payload := Z) (World := list Z)) :=
  [OpSubscribe 0 (fun e w => w ++ [payload e]); OpPublish 10 1 0 kLow 0; OpPublish 11 1 0 kLow 0;
   OpPublish 12 1 0 kLow 0; OpPublish 20 1 0 kHigh 0; OpPublish 21 1 0 kHigh 0; OpPublish 22 1 0 kMedium 0;
   OpDepth; OpProcessBatch; OpProcessBatch; OpStatistics; OpUnsubscribe (mkHandle 0 1)].

Lemma bus_refines_priority_queue_witness :
  (run (bus_step (fun _ => 0) 2 2 8 true) demo_ops (AsyncBus_ctor 2 8 16, [])).1 =
    [ResHandle (mkHandle 0 1); ResBool true; ResBool true; ResBool false; ResBool true; ResBool true;
     ResBool false; ResCount 3; ResCount 2; ResCount 1; ResStats 4 3 3; ResBool true] /\
  (run (bus_step (fun _ => 0) 2 2 8 true) demo_ops (AsyncBus_ctor 2 8 16, [])).2.2 = [10; 21; 20].
Proof.
  destruct (bus_refines_priority_queue (fun _ => 0) 2 2 8 16 true ltac:(lia) ltac:(lia) ltac:(lia)
    demo_ops []) as [H1 H2].
  { unfold demo_ops. repeat constructor; simpl; lia. }
  rewrite H1, H2. split; vm_compute; reflexivity.
Defined.

(** The percentages are computed in 32 bits: at a depth of 2^30, which the
    static assertion accepts, the products for low and medium priority wrap to
    zero, and a fresh bus drops every such message. *)
Lemma bus_threshold_overflow {Payload World : Type} `{Inhabited Payload} (types callbacks : Z) (eviction : bool)
    (pl : Payload) (sender ts topic : Z) (prio : MessagePriority) :
  prio <> kHigh ->
  (PublishInternal 30 eviction pl sender ts prio topic
     (AsyncBus_ctor (World := World) 30 types callbacks)).1 = false.
Proof.
  intros Hp. unfold PublishInternal. change (next_msg_id_ _) with 1.
  change (kMsgIdWrapThreshold <=? 1) with false. cbv iota zeta.
  assert (GetThresholdForPriority 30 prio = 0) as -> by (destruct prio; [done..|congruence]).
  change (producer_pos_ _) with 0. change (cached_consumer_pos_ (AsyncBus_ctor 30 types callbacks)) with 0.
  change (consumer_pos_ (AsyncBus_ctor 30 types callbacks)) with 0.
  change (0 <=? u32 (0 - 0)) with true. cbv iota.
  rewrite bool_decide_eq_false_2 by done. by rewrite andb_false_r.
Qed.
