(* ===== verification/BusConc.v ===== *)
(** * AsyncBus under concurrency: many publishers, one consumer

    Every atomic access of PublishInternal, TryEvictAndPublish and ProcessBatch
    is one step; threads interleave arbitrarily (sequentially consistent
    memory).  The envelope, a plain field, is written in one step by the thread
    that owns the slot; race freedom shows that no other thread is then about
    to access it. *)

From Stdlib Require Import ZArith Lia Bool.
From stdpp Require Import base numbers list option relations.
From S2P Require Import Prelude Bus.

Open Scope Z_scope.

Section BusConc.
Context {Payload : Type} `{Inhabited Payload}.
Context (k kBatchSize : Z) (eviction : bool).

Abbreviation D := (kQueueDepth k).
Abbreviation Env := (MessageEnvelope (Payload := Payload)).
Abbreviation Node := (RingBufferNode (Payload := Payload)).

(** The arguments of a publish call. *)
Record Request := mkRequest {
  rq_payload : Payload;
  rq_sender : Z;
  rq_timestamp : Z;
  rq_priority : MessagePriority;
  rq_topic : Z
}.

Definition envelope_of (id : Z) (r : Request) : Env :=
  mkEnvelope (mkHeader id (rq_timestamp r) (rq_sender r) (rq_topic r) (rq_priority r)) (rq_payload r).

(** Where a publisher stands; each constructor names its next access. *)
Inductive ProducerPc :=
| PIdle (last_result : option bool)
| PCheckId (r : Request)
| PLoadProd (r : Request)
| PLoadCached (r : Request) (prod : Z)
| PLoadRealCons (r : Request) (prod : Z)
| PStoreCached (r : Request) (prod real_cons : Z)
(* the claim loop *)
| PClaimPos (r : Request)
| PClaimSeq (r : Request) (prod_pos : Z)
| PClaimCons (r : Request) (prod_pos : Z)
| PClaimCas (r : Request) (prod_pos : Z)
(* the slot is claimed: fill and publish *)
| PFetchId (r : Request) (prod_pos : Z)
| PWrite (r : Request) (prod_pos msg_id : Z)
| PSetPriority (r : Request) (prod_pos msg_id : Z)
| PPublish (r : Request) (prod_pos msg_id : Z)
(* TryEvictAndPublish *)
| EvLoadProd (r : Request)
| EvLoadCons (r : Request) (prod : Z)
| EvPeek (r : Request) (prod cs i : Z)
| EvPeekPriority (r : Request) (prod cs i : Z)
| EvReserve (r : Request) (prod cs i : Z)
(* the slot is reserved *)
| EvRecheck (r : Request) (prod cs i : Z)
| EvRestore (r : Request) (prod cs i : Z)
| EvFetchId (r : Request) (p : Z)
| EvWrite (r : Request) (p msg_id : Z)
| EvSetPriority (r : Request) (p msg_id : Z)
| EvPublish (r : Request) (p msg_id : Z).

(** Where the consumer stands in ProcessBatch. *)
Inductive ConsumerPc :=
| CIdle
| CTry (processed cons_pos : Z)
| CDispatch (processed cons_pos : Z)
| CRelease (processed cons_pos : Z)
| CStore (processed cons_pos : Z).

(** The shared memory, the consumer, and the history: the publications in
    order, with their positions, and the envelopes dispatched. *)
Record Shared := mkShared {
  sh_ring : list Node;
  sh_producer_pos : Z;
  sh_cached : Z;
  sh_consumer_pos : Z;
  sh_next_id : Z;
  sh_consumer : ConsumerPc;
  published : list (Z * Env);
  delivered : list Env
}.

Definition sh_init : Shared :=
  mkShared ((fun i => mkNode i 1 inhabitant) <$> seqZ 0 D) 0 0 0 1 CIdle [] [].

Definition slot (s : Shared) (pos : Z) : Node := aget (sh_ring s) (Z.land pos (kBufferMask k)).
Definition set_slot (pos : Z) (n : Node) (s : Shared) : Shared :=
  mkShared (aset (sh_ring s) (Z.land pos (kBufferMask k)) n) (sh_producer_pos s) (sh_cached s) (sh_consumer_pos s)
    (sh_next_id s) (sh_consumer s) (published s) (delivered s).
Definition store_seq (pos v : Z) (s : Shared) : Shared :=
  set_slot pos (mkNode v (slot_priority (slot s pos)) (envelope (slot s pos))) s.
Definition store_priority (pos v : Z) (s : Shared) : Shared :=
  set_slot pos (mkNode (sequence (slot s pos)) v (envelope (slot s pos))) s.
Definition store_envelope (pos : Z) (e : Env) (s : Shared) : Shared :=
  set_slot pos (mkNode (sequence (slot s pos)) (slot_priority (slot s pos)) e) s.
Definition store_cached (v : Z) (s : Shared) : Shared :=
  mkShared (sh_ring s) (sh_producer_pos s) v (sh_consumer_pos s) (sh_next_id s) (sh_consumer s) (published s) (delivered s).
Definition store_producer_pos (v : Z) (s : Shared) : Shared :=
  mkShared (sh_ring s) v (sh_cached s) (sh_consumer_pos s) (sh_next_id s) (sh_consumer s) (published s) (delivered s).
Definition bump_id (s : Shared) : Shared :=
  mkShared (sh_ring s) (sh_producer_pos s) (sh_cached s) (sh_consumer_pos s) (u64 (sh_next_id s + 1)) (sh_consumer s)
    (published s) (delivered s).
Definition set_consumer (c : ConsumerPc) (s : Shared) : Shared :=
  mkShared (sh_ring s) (sh_producer_pos s) (sh_cached s) (sh_consumer_pos s) (sh_next_id s) c (published s) (delivered s).
Definition store_consumer_pos (v : Z) (s : Shared) : Shared :=
  mkShared (sh_ring s) (sh_producer_pos s) (sh_cached s) v (sh_next_id s) (sh_consumer s) (published s) (delivered s).
Definition record_publication (pos : Z) (e : Env) (s : Shared) : Shared :=
  mkShared (sh_ring s) (sh_producer_pos s) (sh_cached s) (sh_consumer_pos s) (sh_next_id s) (sh_consumer s)
    (published s ++ [(pos, e)]) (delivered s).
Definition record_delivery (e : Env) (s : Shared) : Shared :=
  mkShared (sh_ring s) (sh_producer_pos s) (sh_cached s) (sh_consumer_pos s) (sh_next_id s) (sh_consumer s)
    (published s) (delivered s ++ [e]).

(** The probe after index [i], or the drop when the scan is over. *)
Definition next_probe (r : Request) (prod cs i : Z) : ProducerPc := EvPeek r prod cs (i + 1).

(** One access of a publisher.  [weak] makes the weak exchange fail spuriously. *)
Definition producer_step (weak : bool) (pc : ProducerPc) (s : Shared) : option (ProducerPc * Shared) :=
  match pc with
  | PIdle _ => None
  | PCheckId r =>
    if kMsgIdWrapThreshold <=? sh_next_id s then Some (PIdle (Some false), s) else Some (PLoadProd r, s)
  | PLoadProd r => Some (PLoadCached r (sh_producer_pos s), s)
  | PLoadCached r prod =>
    if GetThresholdForPriority k (rq_priority r) <=? u32 (prod - sh_cached s)
    then Some (PLoadRealCons r prod, s) else Some (PClaimPos r, s)
  | PLoadRealCons r prod => Some (PStoreCached r prod (sh_consumer_pos s), s)
  | PStoreCached r prod real_cons =>
    let s := store_cached real_cons s in
    if GetThresholdForPriority k (rq_priority r) <=? u32 (prod - real_cons)
    then if eviction && bool_decide (rq_priority r = kHigh) then Some (EvLoadProd r, s) else Some (PIdle (Some false), s)
    else Some (PClaimPos r, s)
  | PClaimPos r => Some (PClaimSeq r (sh_producer_pos s), s)
  | PClaimSeq r pos =>
    if negb (sequence (slot s pos) =? pos) then Some (PClaimCons r pos, s) else Some (PClaimCas r pos, s)
  | PClaimCons r pos =>
    if D <=? u32 (pos - sh_consumer_pos s) then Some (PIdle (Some false), s)
    else (* continue jumps to the loop condition *) Some (PClaimCas r pos, s)
  | PClaimCas r pos =>
    if (sh_producer_pos s =? pos) && negb weak
    then Some (PFetchId r pos, store_producer_pos (u32 (pos + 1)) s) else Some (PClaimPos r, s)
  | PFetchId r pos => Some (PWrite r pos (sh_next_id s), bump_id s)
  | PWrite r pos id => Some (PSetPriority r pos id, store_envelope pos (envelope_of id r) s)
  | PSetPriority r pos id => Some (PPublish r pos id, store_priority pos (priority_to_Z (rq_priority r)) s)
  | PPublish r pos id =>
    Some (PIdle (Some true), record_publication pos (envelope_of id r) (store_seq pos (u32 (pos + 1)) s))
  | EvLoadProd r => Some (EvLoadCons r (sh_producer_pos s), s)
  | EvLoadCons r prod => Some (EvPeek r prod (sh_consumer_pos s) 1, s)
  | EvPeek r prod cs i =>
    let p := u32 (cs + i) in
    if i <? D then
      if p =? prod then Some (PIdle (Some false), s)
      else if negb (sequence (slot s p) =? u32 (p + 1)) then Some (next_probe r prod cs i, s)
      else Some (EvPeekPriority r prod cs i, s)
    else Some (PIdle (Some false), s)
  | EvPeekPriority r prod cs i =>
    if priority_to_Z kHigh <=? slot_priority (slot s (u32 (cs + i)))
    then Some (next_probe r prod cs i, s) else Some (EvReserve r prod cs i, s)
  | EvReserve r prod cs i =>
    let p := u32 (cs + i) in
    if sequence (slot s p) =? u32 (p + 1)
    then Some (EvRecheck r prod cs i, store_seq p (u32 (p + 1 + kEvictOffset k)) s)
    else Some (next_probe r prod cs i, s)
  | EvRecheck r prod cs i =>
    if priority_to_Z kHigh <=? slot_priority (slot s (u32 (cs + i)))
    then Some (EvRestore r prod cs i, s) else Some (EvFetchId r (u32 (cs + i)), s)
  | EvRestore r prod cs i => let p := u32 (cs + i) in Some (next_probe r prod cs i, store_seq p (u32 (p + 1)) s)
  | EvFetchId r p => Some (EvWrite r p (sh_next_id s), bump_id s)
  | EvWrite r p id => Some (EvSetPriority r p id, store_envelope p (envelope_of id r) s)
  | EvSetPriority r p id => Some (EvPublish r p id, store_priority p (priority_to_Z kHigh) s)
  | EvPublish r p id =>
    Some (PIdle (Some true), record_publication p (envelope_of id r) (store_seq p (u32 (p + 1)) s))
  end.

(** One access of the consumer. *)
Definition consumer_step (s : Shared) : Shared :=
  match sh_consumer s with
  | CIdle => set_consumer (CTry 0 (sh_consumer_pos s)) s
  | CTry n pos =>
    if n <? kBatchSize then
      if sequence (slot s pos) =? u32 (pos + 1)
      then set_consumer (CDispatch n pos) (store_seq pos (u32 (pos + 1 + kConsumedOffset k)) s)
      else set_consumer (CStore n pos) s
    else set_consumer (CStore n pos) s
  | CDispatch n pos => set_consumer (CRelease n pos) (record_delivery (envelope (slot s pos)) s)
  | CRelease n pos => set_consumer (CTry (n + 1) (u32 (pos + 1))) (store_seq pos (u32 (pos + D)) s)
  | CStore n pos => set_consumer CIdle (if 0 <? n then store_consumer_pos pos s else s)
  end.

(** The system: the shared part and one program counter per publisher. *)
Inductive Action :=
| ACall (t : nat) (r : Request)
| AProducer (t : nat) (weak : bool)
| AConsumer.

Definition exec (a : Action) (st : Shared * list ProducerPc) : option (Shared * list ProducerPc) :=
  let '(s, pcs) := st in
  match a with
  | ACall t r => match pcs !! t with Some (PIdle _) => Some (s, <[t := PCheckId r]> pcs) | _ => None end
  | AProducer t weak =>
    match pcs !! t with
    | Some pc => match producer_step weak pc s with Some (pc', s') => Some (s', <[t := pc']> pcs) | None => None end
    | None => None
    end
  | AConsumer => Some (consumer_step s, pcs)
  end.

Definition bus_trans (st st' : Shared * list ProducerPc) : Prop := exists a, exec a st = Some st'.

Definition start_state (n : nat) : Shared * list ProducerPc := (sh_init, replicate n (PIdle None)).

(** Runs a schedule as long as the positions stay clear of the wrap-around. *)
Fixpoint exec_all (l : list Action) (st : Shared * list ProducerPc) : option (Shared * list ProducerPc) :=
  match l with
  | [] => Some st
  | a :: l' =>
    match exec a st with
    | Some st' => if sh_producer_pos st'.1 + 4 * D <=? 2 ^ 32 then exec_all l' st' else None
    | None => None
    end
  end.

(** The largest depth (claimed and not yet given back) seen along a schedule. *)
Fixpoint max_depth (l : list Action) (st : Shared * list ProducerPc) : Z :=
  Z.max (sh_producer_pos st.1 - sh_consumer_pos st.1)
    match l with
    | [] => 0
    | a :: l' => match exec a st with Some st' => max_depth l' st' | None => 0 end
    end.

(** ** The invariant *)

(** How far the consumer has released slots, ahead of the stored position. *)
Definition progress (s : Shared) : Z :=
  match sh_consumer s with
  | CIdle => sh_consumer_pos s
  | CTry _ p | CDispatch _ p | CRelease _ p | CStore _ p => p
  end.

Definition consuming (s : Shared) (p : Z) : Prop :=
  match sh_consumer s with CDispatch _ q | CRelease _ q => q = p | _ => False end.

(** The messages published at position [p], in order. *)
Definition pubs_at (s : Shared) (p : Z) : list Env := (filter (fun x => x.1 = p) (published s)).*2.

(** One producer's message, replaced at most once, by a high one, if it was lower. *)
Definition valid_pubs (l : list Env) : Prop :=
  match l with
  | [_] => True
  | [m; h] => priority (header m) <> kHigh /\ priority (header h) = kHigh
  | _ => False
  end.

(** The slot holds the latest message published at [p]. *)
Definition settled (s : Shared) (p : Z) : Prop :=
  valid_pubs (pubs_at s p) /\ last (pubs_at s p) = Some (envelope (slot s p)) /\
  slot_priority (slot s p) = priority_to_Z (priority (header (envelope (slot s p)))).

Definition in_flight (s : Shared) (p : Z) : Prop := progress s <= p < sh_producer_pos s.

Record ginv (s : Shared) : Prop := {
  g_len : length (sh_ring s) = Z.to_nat D;
  g_cpos : 0 <= sh_consumer_pos s <= progress s;
  g_prod : progress s <= sh_producer_pos s <= progress s + D;
  g_count : match sh_consumer s with
            | CIdle => True
            | CTry n p | CDispatch n p | CRelease n p | CStore n p => 0 <= n /\ p = sh_consumer_pos s + n
            end;
  g_free : forall p, sh_producer_pos s <= p < progress s + D -> sequence (slot s p) = p;
  g_unused : forall p, sh_producer_pos s <= p -> pubs_at s p = [];
  g_busy : forall p, in_flight s p ->
    sequence (slot s p) = p \/ sequence (slot s p) = p + 1 \/ sequence (slot s p) = p + 1 + 2 * D \/
    (consuming s p /\ sequence (slot s p) = p + 1 + D);
  g_cons : forall p, consuming s p -> in_flight s p /\ sequence (slot s p) = p + 1 + D /\ settled s p;
  g_settled : forall p, in_flight s p -> sequence (slot s p) = p + 1 -> settled s p;
  g_delivered : Z.of_nat (length (delivered s)) =
    progress s + match sh_consumer s with CRelease _ _ => 1 | _ => 0 end;
  g_done : forall p, 0 <= p < Z.of_nat (length (delivered s)) ->
    valid_pubs (pubs_at s p) /\ last (pubs_at s p) = delivered s !! Z.to_nat p
}.

(** The position a publisher owns: claimed or reserved. *)
Definition owns (pc : ProducerPc) : option Z :=
  match pc with
  | PFetchId _ p | PWrite _ p _ | PSetPriority _ p _ | PPublish _ p _ => Some p
  | EvRecheck _ _ cs i | EvRestore _ _ cs i => Some (cs + i)
  | EvFetchId _ p | EvWrite _ p _ | EvSetPriority _ p _ | EvPublish _ p _ => Some p
  | _ => None
  end.

Definition claimed (s : Shared) (p : Z) : Prop :=
  in_flight s p /\ sequence (slot s p) = p /\ pubs_at s p = [].
Definition reserved (s : Shared) (p : Z) : Prop :=
  in_flight s p /\ sequence (slot s p) = p + 1 + 2 * D.
Definition low_pub (s : Shared) (p : Z) : Prop := exists m, pubs_at s p = [m] /\ priority (header m) <> kHigh.
Definition holds (s : Shared) (p : Z) (e : Env) : Prop := envelope (slot s p) = e.
Definition labelled (s : Shared) (p : Z) (e : Env) : Prop :=
  holds s p e /\ slot_priority (slot s p) = priority_to_Z (priority (header e)).
Definition scanning (s : Shared) (r : Request) (cs i : Z) : Prop :=
  rq_priority r = kHigh /\ 0 <= cs <= sh_consumer_pos s /\ 1 <= i <= D.

Definition tinv (s : Shared) (pc : ProducerPc) : Prop :=
  match pc with
  | PIdle _ | PCheckId _ | PLoadProd _ | PLoadCached _ _ | PLoadRealCons _ _ | PStoreCached _ _ _ | PClaimPos _ => True
  | PClaimSeq _ p | PClaimCons _ p => 0 <= p <= sh_producer_pos s
  | PClaimCas _ p => 0 <= p <= sh_producer_pos s /\ p < progress s + D
  | PFetchId _ p | PWrite _ p _ => claimed s p
  | PSetPriority r p id => claimed s p /\ holds s p (envelope_of id r)
  | PPublish r p id => claimed s p /\ labelled s p (envelope_of id r)
  | EvLoadProd r | EvLoadCons r _ => rq_priority r = kHigh
  | EvPeek r _ cs i => scanning s r cs i
  | EvPeekPriority r _ cs i | EvReserve r _ cs i => scanning s r cs i /\ i < D
  | EvRecheck r _ cs i | EvRestore r _ cs i =>
    scanning s r cs i /\ i < D /\ reserved s (cs + i) /\ settled s (cs + i)
  | EvFetchId r p | EvWrite r p _ => rq_priority r = kHigh /\ reserved s p /\ low_pub s p
  | EvSetPriority r p id => rq_priority r = kHigh /\ reserved s p /\ low_pub s p /\ holds s p (envelope_of id r)
  | EvPublish r p id => rq_priority r = kHigh /\ reserved s p /\ low_pub s p /\ labelled s p (envelope_of id r)
  end.

Section Safety.
Context (Hk : 1 <= k <= 25).

Lemma D_bounds : 2 <= D <= 2 ^ 25.
Proof.
  unfold kQueueDepth. split; [|apply Z.pow_le_mono_r; lia].
  replace 2 with (2 ^ 1) at 1 by done. apply Z.pow_le_mono_r; lia.
Qed.

Lemma evict_offset : kEvictOffset k = 2 * D.
Proof.
  unfold kEvictOffset. pose proof D_bounds. rewrite Z.shiftl_mul_pow2 by lia.
  rewrite wrap_small; [change (2 ^ 1) with 2; lia|]. unfold in_range.
  change (2 ^ 32) with (2 ^ 25 * 128). change (2 ^ 1) with 2. lia.
Qed.

Lemma slot_mask s p : slot s p = aget (sh_ring s) (wrap k p).
Proof. unfold slot, kBufferMask, kQueueDepth. by rewrite land_mask by lia. Qed.

Lemma slot_set_eq s p n : length (sh_ring s) = Z.to_nat D -> slot (set_slot p n s) p = n.
Proof.
  intros Hl. unfold slot, set_slot. simpl. unfold kBufferMask, kQueueDepth in *. rewrite !land_mask by lia.
  apply aget_aset_eq. rewrite Hl. pose proof (wrap_range k p ltac:(lia)) as Hr. unfold in_range in Hr. lia.
Qed.

Lemma slot_set_ne s p q n :
  q <> p -> - D < q - p < D -> slot (set_slot p n s) q = slot s q.
Proof.
  intros Hne Hd. unfold slot, set_slot. simpl. unfold kBufferMask, kQueueDepth in *. rewrite !land_mask by lia.
  pose proof (wrap_range k p ltac:(lia)) as Hp. pose proof (wrap_range k q ltac:(lia)) as Hq. unfold in_range in *.
  apply aget_aset_ne; [lia..|]. intros Heq. destruct (Z.lt_ge_cases p q).
  - apply wrap_inj_near in Heq; lia.
  - symmetry in Heq. apply wrap_inj_near in Heq; lia.
Qed.

(** *** Steps that touch a single position *)

Record at_only (p : Z) (s s' : Shared) : Prop := {
  ao_slot : forall q, q <> p -> - D < q - p < D -> slot s' q = slot s q;
  ao_pubs : forall q, q <> p -> pubs_at s' q = pubs_at s q;
  ao_len : length (sh_ring s') = length (sh_ring s);
  ao_prod : sh_producer_pos s' = sh_producer_pos s;
  ao_cpos : sh_consumer_pos s' = sh_consumer_pos s;
  ao_consumer : sh_consumer s' = sh_consumer s;
  ao_delivered : delivered s' = delivered s
}.

Lemma at_only_set_slot p n s : at_only p s (set_slot p n s).
Proof. split; try done; [intros; by apply slot_set_ne|simpl; apply length_aset]. Qed.

Lemma pubs_at_record p e s q :
  pubs_at (record_publication p e s) q = if decide (q = p) then pubs_at s q ++ [e] else pubs_at s q.
Proof.
  unfold pubs_at, record_publication. simpl. rewrite filter_app, fmap_app, filter_cons. simpl.
  repeat case_decide; simplify_eq/=; rewrite ?filter_nil; simpl; by rewrite ?app_nil_r.
Qed.

Lemma at_only_publish p n e s : at_only p s (record_publication p e (set_slot p n s)).
Proof.
  destruct (at_only_set_slot p n s). split; try done.
  intros q Hq. rewrite pubs_at_record. by case_decide.
Qed.

Lemma at_only_progress p s s' : at_only p s s' -> progress s' = progress s.
Proof. intros []. unfold progress. by rewrite ao_consumer0, ao_cpos0. Qed.

Lemma at_only_in_flight p s s' q : at_only p s s' -> in_flight s' q <-> in_flight s q.
Proof. intros Ha. unfold in_flight. by rewrite (at_only_progress _ _ _ Ha), (ao_prod _ _ _ Ha). Qed.

Lemma at_only_consuming p s s' q : at_only p s s' -> consuming s' q <-> consuming s q.
Proof. intros []. unfold consuming. by rewrite ao_consumer0. Qed.

Lemma settled_same s s' q : slot s' q = slot s q -> pubs_at s' q = pubs_at s q -> settled s q -> settled s' q.
Proof. unfold settled. by intros -> ->. Qed.

(** Such a step keeps the global invariant if the position stays well formed. *)
Lemma ginv_at p s s' :
  ginv s -> in_flight s p -> ~ consuming s p -> at_only p s s' ->
  (sequence (slot s' p) = p \/ sequence (slot s' p) = p + 1 \/ sequence (slot s' p) = p + 1 + 2 * D) ->
  (sequence (slot s' p) = p + 1 -> settled s' p) -> ginv s'.
Proof.
  intros G Hp Hnc Ha Hseq Hset. pose proof (at_only_progress _ _ _ Ha) as Hpr.
  pose proof Ha as [As Ap Al Apr Ac Aco Ad]. pose proof Hp as Hp'. unfold in_flight in Hp'.
  assert (Hw : forall q, in_flight s q -> q <> p -> slot s' q = slot s q).
  { intros q Hq Hne. apply As; [done|]. unfold in_flight in Hq. pose proof (g_prod _ G). lia. }
  split; rewrite ?Al, ?Ac, ?Hpr, ?Apr, ?Aco, ?Ad; try apply G.
  - intros q Hq. rewrite As by lia. by apply (g_free _ G).
  - intros q Hq. rewrite Ap by lia. by apply (g_unused _ G).
  - intros q Hq. apply (at_only_in_flight _ _ _ _ Ha) in Hq. rewrite (at_only_consuming _ _ _ _ Ha).
    destruct (Z.eq_dec q p) as [->|Hne]; [tauto|]. rewrite Hw by done. by apply (g_busy _ G).
  - intros q Hq. apply (at_only_consuming _ _ _ _ Ha) in Hq. destruct (g_cons _ G q Hq) as (Hf & Hs & Hse).
    assert (q <> p) by (by intros ->). rewrite (at_only_in_flight _ _ _ _ Ha), Hw by done.
    split; [done|split; [done|] ]. by apply (settled_same s); [apply Hw|apply Ap|].
  - intros q Hq Hs. apply (at_only_in_flight _ _ _ _ Ha) in Hq. destruct (Z.eq_dec q p) as [->|Hne]; [tauto|].
    rewrite Hw in Hs by done. apply (settled_same s); [by apply Hw|by apply Ap|by apply (g_settled _ G)].
  - intros q Hq. assert (q <> p).
    { intros ->. pose proof (g_delivered _ G) as Hd. unfold consuming, progress in *.
      destruct (sh_consumer s); try lia. }
    rewrite Ap by done. by apply (g_done _ G).
Qed.

(** *** What other publishers rely on *)

Definition undisturbed (s s' : Shared) (pc : ProducerPc) : Prop :=
  forall p, owns pc = Some p -> slot s' p = slot s p /\ pubs_at s' p = pubs_at s p /\ progress s' <= p.

Lemma tinv_frame s s' pc :
  tinv s pc -> undisturbed s s' pc ->
  sh_consumer_pos s <= sh_consumer_pos s' -> sh_producer_pos s <= sh_producer_pos s' -> progress s <= progress s' ->
  tinv s' pc.
Proof.
  intros Ht Hu Hc Hp Hpr.
  destruct pc; simpl in *; unfold undisturbed in Hu; simpl in Hu;
    unfold claimed, reserved, settled, low_pub, labelled, holds, scanning, in_flight in *;
    try specialize (Hu _ eq_refl) as (Hs & Hpb & ?); rewrite ?Hs, ?Hpb; intuition (try lia).
Qed.

Lemma owner_in_flight s pc p :
  tinv s pc -> owns pc = Some p ->
  in_flight s p /\ (sequence (slot s p) = p \/ sequence (slot s p) = p + 1 + 2 * D).
Proof. intros Ht Ho. destruct pc; simplify_eq/=; unfold claimed, reserved in Ht; intuition. Qed.

(** Only the owner of a slot disturbs it. *)
Lemma at_only_undisturbed p s s' pc :
  ginv s -> at_only p s s' -> in_flight s p -> tinv s pc -> owns pc <> Some p -> undisturbed s s' pc.
Proof.
  intros G Ha Hp Ht Hne q Hq.
  destruct (owner_in_flight _ _ _ Ht Hq) as [Hf _].
  assert (q <> p) by congruence.
  destruct (g_prod _ G). unfold in_flight in *.
  rewrite (ao_slot _ _ _ Ha), (ao_pubs _ _ _ Ha), (at_only_progress _ _ _ Ha) by lia. split_and!; try done; lia.
Qed.

Lemma at_only_tinv p s s' pc :
  ginv s -> at_only p s s' -> in_flight s p -> tinv s pc -> owns pc <> Some p -> tinv s' pc.
Proof.
  intros G Ha Hp Ht Hne. apply (tinv_frame s); [done|by apply (at_only_undisturbed p)|..].
  - by rewrite (ao_cpos _ _ _ Ha).
  - by rewrite (ao_prod _ _ _ Ha).
  - by rewrite (at_only_progress _ _ _ Ha).
Qed.

(** *** The steps of a publisher *)

Definition apart (pc pc2 : ProducerPc) : Prop := forall p, owns pc = Some p -> owns pc2 <> Some p.

(** A step keeps the invariant, the mover's assertion, and every other
    publisher's assertion and its being apart from the mover. *)
Definition safe_step (pc : ProducerPc) (s : Shared) (pc' : ProducerPc) (s' : Shared) : Prop :=
  ginv s' /\ tinv s' pc' /\ sh_producer_pos s <= sh_producer_pos s' /\
  forall pc2, tinv s pc2 -> apart pc pc2 -> tinv s' pc2 /\ apart pc' pc2.

Definition quiet (s s' : Shared) : Prop :=
  sh_ring s' = sh_ring s /\ sh_producer_pos s' = sh_producer_pos s /\ sh_consumer_pos s' = sh_consumer_pos s /\
  sh_consumer s' = sh_consumer s /\ published s' = published s /\ delivered s' = delivered s.

Lemma quiet_ginv s s' : quiet s s' -> ginv s -> ginv s'.
Proof. destruct s, s'. intros (? & ? & ? & ? & ? & ?) []. simpl in *. subst. by split. Qed.

Lemma quiet_tinv s s' pc : quiet s s' -> tinv s pc -> tinv s' pc.
Proof. destruct s, s'. intros (? & ? & ? & ? & ? & ?). simpl in *. subst. by destruct pc. Qed.

(** Loads, and stores to fields the invariant does not mention. *)
Lemma safe_quiet pc s pc' s' :
  ginv s -> quiet s s' -> tinv s pc' -> owns pc' = None \/ owns pc' = owns pc -> safe_step pc s pc' s'.
Proof.
  intros G Hq Ht Ho. split; [by apply (quiet_ginv s)|]. split; [by apply (quiet_tinv s)|].
  split; [destruct Hq as (_ & -> & _); lia|]. intros pc2 Ht2 Hap. split; [by apply (quiet_tinv s)|].
  unfold apart in *. intros p Hp. destruct Ho as [Ho|Ho]; [congruence|]. apply Hap. congruence.
Qed.

(** Stores to the owned slot. *)
Lemma safe_owner p pc s pc' s' :
  ginv s -> tinv s pc -> owns pc = Some p -> at_only p s s' ->
  (sequence (slot s' p) = p \/ sequence (slot s' p) = p + 1 \/ sequence (slot s' p) = p + 1 + 2 * D) ->
  (sequence (slot s' p) = p + 1 -> settled s' p) ->
  tinv s' pc' -> owns pc' = None \/ owns pc' = owns pc -> safe_step pc s pc' s'.
Proof.
  intros G Ht Ho Ha Hs Hset Ht' Ho'.
  assert (in_flight s p /\ ~ consuming s p) as [Hf Hc].
  { destruct (owner_in_flight _ _ _ Ht Ho) as [Hf Hq]. split; [done|]. intros Hcon. destruct (g_cons _ G _ Hcon) as (_ & Hq' & _). pose proof D_bounds. lia. }
  split; [by apply (ginv_at p s)|]. split; [done|]. split; [by rewrite (ao_prod _ _ _ Ha)|].
  intros pc2 Ht2 Hap. split.
  - apply (at_only_tinv p s); try done. by apply Hap.
  - unfold apart in *. intros q Hq. destruct Ho' as [Ho'|Ho']; [congruence|]. apply Hap. congruence.
Qed.

Lemma in_flight_small s p :
  ginv s -> sh_producer_pos s + 4 * D <= 2 ^ 32 -> in_flight s p -> u32 (p + 1) = p + 1.
Proof.
  intros G Hb Hp. unfold in_flight in Hp. pose proof (g_cpos _ G). pose proof D_bounds.
  apply wrap_small. unfold in_range. lia.
Qed.

(** A position below the end of the window whose slot reads as published is
    in flight and really published. *)
Lemma published_seq s p :
  ginv s -> p < progress s + D -> sequence (slot s p) = p + 1 -> in_flight s p.
Proof.
  intros G Hp Hs. pose proof D_bounds as HD. pose proof (g_prod _ G) as HP.
  pose (c := progress s). pose (q := c + (p - c) mod D).
  assert (Hq : c <= q < c + D) by (subst q; pose proof (Z.mod_pos_bound (p - c) D); lia).
  assert (Hdiv : exists j, q = p + j * D).
  { exists (- ((p - c) / D)). subst q. pose proof (Z.div_mod (p - c) D). lia. }
  destruct Hdiv as [j Hj].
  assert (Hslot : slot s q = slot s p).
  { rewrite !slot_mask. f_equal. unfold wrap. subst q. rewrite Hj. unfold kQueueDepth. apply Z.mod_add.
    unfold kQueueDepth in HD. lia. }
  rewrite <- Hslot in Hs. assert (0 <= j) by nia.
  destruct (Z.lt_ge_cases q (sh_producer_pos s)) as [Hlt|Hge].
  - assert (Hf : in_flight s q) by (split; [lia|done]).
    assert (j = 0) by (destruct (g_busy _ G q Hf) as [E|[E|[E|[_ E] ] ] ]; rewrite E in Hs; nia).
    subst j. by replace p with q by lia.
  - rewrite (g_free _ G) in Hs by lia. nia.
Qed.

Lemma safe_claim r s :
  ginv s -> sh_producer_pos s + 4 * D <= 2 ^ 32 -> sh_producer_pos s < progress s + D ->
  safe_step (PClaimCas r (sh_producer_pos s)) s (PFetchId r (sh_producer_pos s))
    (store_producer_pos (u32 (sh_producer_pos s + 1)) s).
Proof.
  intros G Hb Hlt. pose proof D_bounds. pose proof (g_prod _ G). pose proof (g_cpos _ G).
  rewrite (wrap_small 32) by (unfold in_range; lia).
  set (s' := store_producer_pos _ s). set (p := sh_producer_pos s) in *.
  assert (Hfl : forall q, in_flight s' q <-> in_flight s q \/ q = p).
  { intros q. unfold in_flight. change (progress s') with (progress s). simpl. fold p. lia. }
  split; [|split; [|split] ].
  - split; try apply G.
    + change (progress s') with (progress s). simpl. lia.
    + change (progress s') with (progress s). intros q Hq. simpl in Hq. apply (g_free _ G). fold p. lia.
    + intros q Hq. simpl in Hq. apply (g_unused _ G). fold p. lia.
    + intros q Hq. apply Hfl in Hq as [Hq| ->]; [by apply (g_busy _ G)|]. left. apply (g_free _ G). fold p. lia.
    + intros q Hq. destruct (g_cons _ G q Hq) as (? & ? & ?). split; [apply Hfl; tauto|done].
    + intros q Hq Hs. apply Hfl in Hq as [Hq| ->]; [by apply (g_settled _ G)|].
      change (slot s' p) with (slot s p) in Hs. rewrite (g_free _ G) in Hs by (fold p; lia). lia.
  - split; [apply Hfl; tauto|]. change (slot s' p) with (slot s p). change (pubs_at s' p) with (pubs_at s p).
    split; [apply (g_free _ G); fold p; lia|apply (g_unused _ G); fold p; lia].
  - simpl. fold p. lia.
  - intros pc2 Ht2 _. split.
    + apply (tinv_frame s); try done; [|simpl; fold p; lia]. intros q Hq. split; [done|split; [done|] ].
      change (progress s') with (progress s). destruct (owner_in_flight _ _ _ Ht2 Hq) as [ [? ?] _]. done.
    + intros q Hq Hq2. simpl in Hq. simplify_eq.
      destruct (owner_in_flight _ _ _ Ht2 Hq2) as [ [? ?] _]. lia.
Qed.

Lemma safe_reserve r prod cs i s :
  ginv s -> sh_producer_pos s + 4 * D <= 2 ^ 32 -> scanning s r cs i -> i < D ->
  sequence (slot s (cs + i)) = cs + i + 1 ->
  safe_step (EvReserve r prod cs i) s (EvRecheck r prod cs i) (store_seq (cs + i) (cs + i + 1 + 2 * D) s).
Proof.
  intros G Hb Hsc Hi Hseq. pose proof D_bounds. set (p := cs + i) in *.
  assert (Hf : in_flight s p).
  { apply published_seq; [done| |done]. destruct Hsc as (_ & ? & ?). pose proof (g_cpos _ G). lia. }
  assert (Hnc : ~ consuming s p) by (intros Hc; destruct (g_cons _ G _ Hc) as (_ & ? & _); lia).
  pose proof (at_only_set_slot p (mkNode (p + 1 + 2 * D) (slot_priority (slot s p)) (envelope (slot s p))) s) as Ha.
  change (set_slot p _ s) with (store_seq p (p + 1 + 2 * D) s) in Ha.
  assert (Hslot : slot (store_seq p (p + 1 + 2 * D) s) p = mkNode (p + 1 + 2 * D) (slot_priority (slot s p)) (envelope (slot s p)))
    by apply (slot_set_eq _ _ _ (g_len _ G)).
  split; [|split; [|split] ].
  - apply (ginv_at p s); try done; rewrite Hslot; simpl; [tauto|lia].
  - simpl. fold p. split; [done|]. split; [done|]. split.
    + split; [by apply (at_only_in_flight p s)|by rewrite Hslot].
    + destruct (g_settled _ G p Hf Hseq) as (? & ? & ?). unfold settled. by rewrite Hslot.
  - done.
  - intros pc2 Ht2 _. assert (Hne : owns pc2 <> Some p).
    { intros Ho. destruct (owner_in_flight _ _ _ Ht2 Ho). lia. }
    split; [by apply (at_only_tinv p s)|]. intros q Hq. simpl in Hq. fold p in Hq. by simplify_eq.
Qed.

(** Filling and publishing the owned slot. *)
Lemma slot_store_seq s p v : ginv s -> slot (store_seq p v s) p = mkNode v (slot_priority (slot s p)) (envelope (slot s p)).
Proof. intros G. apply (slot_set_eq _ _ _ (g_len _ G)). Qed.
Lemma slot_store_priority s p v : ginv s -> slot (store_priority p v s) p = mkNode (sequence (slot s p)) v (envelope (slot s p)).
Proof. intros G. apply (slot_set_eq _ _ _ (g_len _ G)). Qed.
Lemma slot_store_envelope s p e : ginv s -> slot (store_envelope p e s) p = mkNode (sequence (slot s p)) (slot_priority (slot s p)) e.
Proof. intros G. apply (slot_set_eq _ _ _ (g_len _ G)). Qed.

Lemma claimed_store s p s' :
  at_only p s s' -> pubs_at s' p = pubs_at s p -> sequence (slot s' p) = sequence (slot s p) -> claimed s p -> claimed s' p.
Proof. intros Ha Hp Hs (? & ? & ?). unfold claimed. by rewrite (at_only_in_flight _ _ _ _ Ha), Hp, Hs. Qed.

Lemma reserved_store s p s' :
  at_only p s s' -> sequence (slot s' p) = sequence (slot s p) -> reserved s p -> reserved s' p.
Proof. intros Ha Hs (? & ?). unfold reserved. by rewrite (at_only_in_flight _ _ _ _ Ha), Hs. Qed.

(** Making the filled slot visible, for a claimed or a reserved one. *)
Lemma safe_publish pc p e s :
  ginv s -> sh_producer_pos s + 4 * D <= 2 ^ 32 -> tinv s pc -> owns pc = Some p -> in_flight s p ->
  labelled s p e -> valid_pubs (pubs_at s p ++ [e]) ->
  safe_step pc s (PIdle (Some true)) (record_publication p e (store_seq p (u32 (p + 1)) s)).
Proof.
  intros G Hb Ht Ho Hf [He Hl] Hv. rewrite (in_flight_small s p) by done.
  set (s' := record_publication p e _).
  assert (Hslot : slot s' p = mkNode (p + 1) (slot_priority (slot s p)) e).
  { subst s'. change (slot (record_publication p e ?x) p) with (slot x p).
    rewrite slot_store_seq by done. by rewrite He. }
  apply (safe_owner p); try done.
  - apply at_only_publish.
  - rewrite Hslot. simpl. tauto.
  - intros _. unfold settled. rewrite Hslot. subst s'. rewrite pubs_at_record, decide_True by done.
    change (pubs_at (store_seq p (p + 1) s) p) with (pubs_at s p). simpl. by rewrite last_snoc.
  - by left.
Qed.

Lemma quiet_refl s : quiet s s.
Proof. by unfold quiet. Qed.

Lemma scan_small s r cs i :
  ginv s -> sh_producer_pos s + 4 * D <= 2 ^ 32 -> scanning s r cs i ->
  u32 (cs + i) = cs + i /\ u32 (cs + i + 1) = cs + i + 1 /\ u32 (cs + i + 1 + kEvictOffset k) = cs + i + 1 + 2 * D.
Proof.
  intros G Hb (_ & Hc & Hi). pose proof (g_cpos _ G). pose proof (g_prod _ G). pose proof D_bounds.
  rewrite evict_offset. split_and!; apply wrap_small; unfold in_range; lia.
Qed.

Lemma next_scanning s r cs i : scanning s r cs i -> i < D -> scanning s r cs (i + 1).
Proof. intros (? & ? & ?) ?. split; [done|]. split; [done|lia]. Qed.

(** The claim loop. *)
Lemma claim_loop_safe weak pc s pc' s' :
  ginv s -> sh_producer_pos s + 4 * D <= 2 ^ 32 -> tinv s pc -> producer_step weak pc s = Some (pc', s') ->
  match pc with PClaimPos _ | PClaimSeq _ _ | PClaimCons _ _ | PClaimCas _ _ => True | _ => False end ->
  safe_step pc s pc' s'.
Proof.
  intros G Hb Ht Hs Hpc. pose proof (g_cpos _ G). pose proof (g_prod _ G). pose proof D_bounds.
  destruct pc; try done; cbn [producer_step] in Hs; cbn [tinv] in Ht.
  - simplify_eq. apply safe_quiet; [done|apply quiet_refl|simpl; lia|by left].
  - destruct (Z.eqb_spec (sequence (slot s prod_pos)) prod_pos) as [Heq|]; cbn [negb] in Hs; simplify_eq;
      (apply safe_quiet; [done|apply quiet_refl| |by left]); simpl; [|lia].
    split; [lia|]. destruct (Z.lt_ge_cases prod_pos (progress s' + D)); [done|].
    assert (prod_pos = progress s' + D) as -> by lia.
    assert (Hsl : slot s' (progress s' + D) = slot s' (progress s')).
    { rewrite !slot_mask. f_equal. unfold wrap, kQueueDepth. rewrite <- (Z.mul_1_l (2 ^ k)) at 1. apply Z.mod_add.
      unfold kQueueDepth in *. lia. }
    rewrite Hsl in Heq. destruct (g_busy _ G (progress s')) as [E|[E|[E|[_ E] ] ] ]; [split; lia|lia..].
  - destruct (Z.leb_spec D (u32 (prod_pos - sh_consumer_pos s))) as [|Hlt]; simplify_eq;
      (apply safe_quiet; [done|apply quiet_refl| |by left]); simpl; [done|].
    split; [lia|]. destruct (Z.lt_ge_cases prod_pos (sh_consumer_pos s')); [lia|].
    rewrite wrap_small in Hlt by (unfold in_range; lia). lia.
  - destruct (Z.eqb_spec (sh_producer_pos s) prod_pos) as [<-|]; destruct weak; simplify_eq/=;
      try (apply safe_quiet; [done|apply quiet_refl|done|by left]).
    apply safe_claim; [done|done|lia].
Qed.

(** Filling a claimed slot. *)
Lemma fill_safe weak pc s pc' s' :
  ginv s -> sh_producer_pos s + 4 * D <= 2 ^ 32 -> tinv s pc -> producer_step weak pc s = Some (pc', s') ->
  match pc with
  | PFetchId _ _ | PWrite _ _ _ | PSetPriority _ _ _ | PPublish _ _ _
  | EvFetchId _ _ | EvWrite _ _ _ | EvSetPriority _ _ _ | EvPublish _ _ _ => True
  | _ => False
  end ->
  safe_step pc s pc' s'.
Proof.
  intros G Hb Ht Hs Hpc. pose proof D_bounds.
  destruct pc; try done; cbn [producer_step] in Hs; injection Hs as <- <-.
  - by apply safe_quiet; [done..|right].
  - pose proof (at_only_set_slot prod_pos (mkNode (sequence (slot s prod_pos)) (slot_priority (slot s prod_pos)) (envelope_of msg_id r)) s) as Ha.
    pose proof (slot_store_envelope s prod_pos (envelope_of msg_id r) G) as E.
    destruct Ht as (? & ? & ?).
    apply (safe_owner prod_pos); try done; rewrite ?E; simpl; [tauto|lia| |by right].
    split; [|by unfold holds; rewrite E]. apply (claimed_store s); [done|done|by rewrite E|done].
  - pose proof (at_only_set_slot prod_pos (mkNode (sequence (slot s prod_pos)) (priority_to_Z (rq_priority r)) (envelope (slot s prod_pos))) s) as Ha.
    pose proof (slot_store_priority s prod_pos (priority_to_Z (rq_priority r)) G) as E.
    pose proof Ht as ((? & ? & ?) & Hh).
    apply (safe_owner prod_pos); try done; rewrite ?E; simpl; [tauto|lia| |by right].
    split; [|by unfold labelled, holds; rewrite E]. apply (claimed_store s); [done|done|by rewrite E|apply Ht].
  - destruct Ht as ((? & ? & Hp) & Hl). apply safe_publish; try done. by rewrite Hp.
  - by apply safe_quiet; [done..|right].
  - pose proof (at_only_set_slot p (mkNode (sequence (slot s p)) (slot_priority (slot s p)) (envelope_of msg_id r)) s) as Ha.
    pose proof (slot_store_envelope s p (envelope_of msg_id r) G) as E.
    pose proof Ht as (? & (? & ?) & ?).
    apply (safe_owner p); try done; rewrite ?E; simpl; [tauto|lia| |by right].
    split; [done|]. split; [|by unfold holds; rewrite E]. apply (reserved_store s); [done|by rewrite E|apply Ht].
  - pose proof (at_only_set_slot p (mkNode (sequence (slot s p)) (priority_to_Z kHigh) (envelope (slot s p))) s) as Ha.
    pose proof (slot_store_priority s p 2 G) as E.
    pose proof Ht as (Hr & (? & ?) & ? & Hh).
    apply (safe_owner p); try done; rewrite ?E; simpl; [tauto|lia| |by right].
    split; [done|]. split; [apply (reserved_store s); [done|by rewrite E|apply Ht]|].
    split; [done|]. unfold labelled, holds. rewrite E. simpl. by rewrite Hr.
  - pose proof Ht as (Hr & (? & ?) & (m & Hm & Hlow) & Hl). apply safe_publish; try done. by rewrite Hm.
Qed.

(** The eviction scan. *)
Lemma evict_safe weak pc s pc' s' :
  ginv s -> sh_producer_pos s + 4 * D <= 2 ^ 32 -> tinv s pc -> producer_step weak pc s = Some (pc', s') ->
  match pc with
  | EvLoadProd _ | EvLoadCons _ _ | EvPeek _ _ _ _ | EvPeekPriority _ _ _ _ | EvReserve _ _ _ _
  | EvRecheck _ _ _ _ | EvRestore _ _ _ _ => True
  | _ => False
  end ->
  safe_step pc s pc' s'.
Proof.
  intros G Hb Ht Hs Hpc. pose proof D_bounds. pose proof (g_cpos _ G).
  destruct pc; try done; cbn [producer_step tinv] in Hs, Ht;
    try (destruct (scan_small s r cs i G Hb ltac:(tauto)) as (E1 & E2 & E3); rewrite ?E1, ?E2, ?E3 in Hs).
  - simplify_eq. by apply safe_quiet; [|apply quiet_refl| |left].
  - simplify_eq. apply safe_quiet; [done|apply quiet_refl| |by left]. split; [done|lia].
  - assert (safe_step (EvPeek r prod cs i) s (PIdle (Some false)) s)
      by (by apply safe_quiet; [|apply quiet_refl| |left]).
    destruct (Z.ltb_spec i D); [|by simplify_eq].
    destruct (cs + i =? prod); [by simplify_eq|].
    destruct (negb _); simplify_eq; (apply safe_quiet; [done|apply quiet_refl| |by left]);
      [by apply next_scanning|done].
  - destruct Ht. destruct (_ <=? _); simplify_eq; (apply safe_quiet; [done|apply quiet_refl| |by left]);
      [by apply next_scanning|done].
  - destruct Ht. destruct (Z.eqb_spec (sequence (slot s (cs + i))) (cs + i + 1)); simplify_eq.
    + by apply safe_reserve.
    + apply safe_quiet; [done|apply quiet_refl|by apply next_scanning|by left].
  - destruct (Z.leb_spec (priority_to_Z kHigh) (slot_priority (slot s (cs + i)))) as [|Hlow]; simplify_eq;
      (apply safe_quiet; [done|apply quiet_refl| |by right]); [done|].
    destruct Ht as ((? & _) & _ & ? & (Hv & Hl & Hp)). split; [done|]. split; [done|].
    rewrite Hp in Hlow.
    assert (Hnh : priority (header (envelope (slot s' (cs + i)))) <> kHigh) by (intros Heq; rewrite Heq in Hlow; lia).
    unfold low_pub. destruct (pubs_at s' (cs + i)) as [|m [|h [|] ] ]; simplify_eq/=; try done; [eauto|].
    destruct Hv. congruence.
  - simplify_eq. pose proof Ht as (? & ? & Hres & Hset). set (p := cs + i) in *.
    pose proof (slot_store_seq s p (p + 1) G) as E.
    pose proof (at_only_set_slot p (mkNode (p + 1) (slot_priority (slot s p)) (envelope (slot s p))) s) as Ha.
    apply (safe_owner p); try done; rewrite ?E; simpl; [tauto| | |by left].
    + intros _. unfold settled. by rewrite E.
    + by apply next_scanning.
Qed.

(** Every step of a publisher. *)
Lemma producer_step_safe weak pc s pc' s' :
  ginv s -> sh_producer_pos s + 4 * D <= 2 ^ 32 -> tinv s pc -> producer_step weak pc s = Some (pc', s') ->
  safe_step pc s pc' s'.
Proof.
  intros G Hb Ht Hs.
  destruct pc;
    try (by apply (claim_loop_safe weak)); try (by apply (fill_safe weak)); try (by apply (evict_safe weak));
    cbn [producer_step] in Hs; repeat case_match; simplify_eq;
    (apply safe_quiet; [done|by unfold quiet| |by left]); simpl; try done.
  bool_prop. by match goal with Hd : bool_decide _ = true |- _ => apply bool_decide_eq_true in Hd end.
Qed.

(** *** The steps of the consumer *)

Definition consumer_safe (s s' : Shared) : Prop :=
  ginv s' /\ sh_producer_pos s' = sh_producer_pos s /\ forall pc, tinv s pc -> tinv s' pc.

(** Moves of the consumer's own counter. *)
Lemma consumer_move c s :
  ginv s -> progress (set_consumer c s) = progress s ->
  (forall p, consuming (set_consumer c s) p <-> consuming s p) ->
  match c with CRelease _ _ => False | _ => True end ->
  match sh_consumer s with CRelease _ _ => False | _ => True end ->
  match c with
  | CIdle => True
  | CTry n p | CDispatch n p | CRelease n p | CStore n p => 0 <= n /\ p = sh_consumer_pos s + n
  end ->
  consumer_safe s (set_consumer c s).
Proof.
  intros G Hpr Hcon Hr1 Hr2 Hcnt. split; [|split; [done|] ].
  - destruct G. split; rewrite ?Hpr; try done.
    + intros p Hp. rewrite Hcon. by apply g_busy0; unfold in_flight in *; rewrite Hpr in Hp.
    + intros p Hp. apply Hcon in Hp. unfold in_flight. rewrite Hpr. by apply g_cons0.
    + intros p Hp. unfold in_flight in Hp. rewrite Hpr in Hp. by apply g_settled0.
    + change (delivered (set_consumer c s)) with (delivered s). rewrite g_delivered0.
      simpl. by destruct c, (sh_consumer s).
  - intros pc Ht. apply (tinv_frame s); try done; [|by rewrite Hpr]. intros p Hp.
    split; [done|]. split; [done|]. rewrite Hpr. by destruct (owner_in_flight _ _ _ Ht Hp) as [ [? ?] _].
Qed.

(** Taking a published slot. *)
Lemma consumer_take n pos s :
  ginv s -> sh_producer_pos s + 4 * D <= 2 ^ 32 -> sh_consumer s = CTry n pos ->
  sequence (slot s pos) = pos + 1 ->
  consumer_safe s (set_consumer (CDispatch n pos) (store_seq pos (pos + 1 + D) s)).
Proof.
  intros G Hb Hc Hseq. pose proof D_bounds. pose proof (g_prod _ G). pose proof (g_cpos _ G).
  assert (Hpr : progress s = pos) by (unfold progress; by rewrite Hc).
  assert (Hf : in_flight s pos) by (apply published_seq; [done|lia|done]).
  pose proof (at_only_set_slot pos (mkNode (pos + 1 + D) (slot_priority (slot s pos)) (envelope (slot s pos))) s) as Ha.
  pose proof (slot_store_seq s pos (pos + 1 + D) G) as E.
  set (s' := set_consumer (CDispatch n pos) (store_seq pos (pos + 1 + D) s)).
  assert (Hw : forall q, in_flight s q -> q <> pos -> slot s' q = slot s q).
  { intros q Hq Hne. apply (ao_slot _ _ _ Ha); [done|]. unfold in_flight in Hq. lia. }
  pose proof (g_settled _ G pos Hf Hseq) as Hset.
  assert (Hset' : settled s' pos).
  { unfold settled in *. change (slot s' pos) with (slot (store_seq pos (pos + 1 + D) s) pos). by rewrite E. }
  pose proof (g_count _ G) as Hcnt. pose proof (g_delivered _ G) as Hd. rewrite Hc in Hcnt, Hd.
  split; [|split; [done|] ].
  - split; try (by destruct G); change (progress s') with pos; try lia.
    + simpl. rewrite length_aset. apply G.
    + simpl. lia.
    + simpl. lia.
    + intros q Hq. simpl in Hq. change (slot s' q) with (slot (store_seq pos (pos + 1 + D) s) q).
      rewrite (ao_slot _ _ _ Ha) by (unfold in_flight in Hf; lia). apply (g_free _ G). lia.
    + intros q Hq. unfold in_flight in Hq. change (progress s') with pos in Hq. simpl in Hq.
      destruct (Z.eq_dec q pos) as [->|Hne].
      * do 3 right. split; [done|]. change (slot s' pos) with (slot (store_seq pos (pos + 1 + D) s) pos). by rewrite E.
      * assert (Hq' : in_flight s q) by (unfold in_flight; lia). rewrite Hw by done.
        destruct (g_busy _ G q Hq') as [?|[?|[?|[Hcon _] ] ] ]; [tauto..|]. unfold consuming in Hcon. by rewrite Hc in Hcon.
    + intros q Hq. change (pos = q) in Hq. subst q. split; [unfold in_flight in *; change (progress s') with pos; simpl; lia|]. split; [|done].
      change (slot s' pos) with (slot (store_seq pos (pos + 1 + D) s) pos). by rewrite E.
    + intros q Hq Hs. unfold in_flight in Hq. change (progress s') with pos in Hq. simpl in Hq.
      destruct (Z.eq_dec q pos) as [->|Hne]; [done|].
      assert (Hq' : in_flight s q) by (unfold in_flight; lia). rewrite Hw in Hs by done.
      apply (settled_same s); [by apply Hw|done|by apply (g_settled _ G)].
    + simpl. lia.
  - intros pc Ht. apply (tinv_frame s); try done; [|change (progress s') with pos; lia]. intros p Hp.
    destruct (owner_in_flight _ _ _ Ht Hp) as [ [? ?] Hs]. change (progress s') with pos.
    split; [apply Hw; [done|]; intros ->; lia|]. split; [done|lia].
Qed.

(** Dispatching the taken envelope. *)
Lemma consumer_dispatch n pos s :
  ginv s -> sh_consumer s = CDispatch n pos ->
  consumer_safe s (set_consumer (CRelease n pos) (record_delivery (envelope (slot s pos)) s)).
Proof.
  intros G Hc. set (s' := set_consumer _ _).
  assert (Hpr : progress s = pos) by (unfold progress; by rewrite Hc).
  assert (Hcon : forall q, consuming s' q <-> consuming s q) by (intros q; unfold consuming; by rewrite Hc).
  destruct (g_cons _ G pos) as (Hf & Hs & Hv & Hl & _); [unfold consuming; by rewrite Hc|].
  pose proof (g_cpos _ G) as Hcp. pose proof (g_count _ G) as Hcnt. pose proof (g_delivered _ G) as Hd.
  rewrite Hc in Hcnt, Hd. rewrite Hpr in Hcp, Hd.
  split; [|split; [done|] ].
  - split; change (progress s') with pos; try (rewrite <- ?Hpr; by destruct G); try done.
    + intros q Hq. rewrite Hcon. apply (g_busy _ G). unfold in_flight in *. by rewrite Hpr.
    + intros q Hq. apply Hcon in Hq. destruct (g_cons _ G q Hq) as (Hfq & ? & ?).
      split; [|done]. unfold in_flight in *. by rewrite Hpr in Hfq.
    + intros q Hq. apply (g_settled _ G). unfold in_flight in *. by rewrite Hpr.
    + simpl. rewrite length_app. simpl. lia.
    + intros q Hq. simpl in Hq. rewrite length_app in Hq. simpl in Hq.
      change (pubs_at s' q) with (pubs_at s q). change (delivered s') with (delivered s ++ [envelope (slot s pos)]).
      destruct (Z.eq_dec q pos) as [->|].
      * split; [done|]. rewrite Hl. symmetry. rewrite lookup_app_r by lia.
        by replace (Z.to_nat pos - length (delivered s))%nat with 0%nat by lia.
      * rewrite lookup_app_l by lia. apply (g_done _ G). lia.
  - intros pc Ht. apply (tinv_frame s); try done; [|by rewrite Hpr]. intros p Hp.
    destruct (owner_in_flight _ _ _ Ht Hp) as [ [? ?] _]. by rewrite Hpr in *.
Qed.

(** Releasing the slot to the publishers. *)
Lemma consumer_release n pos s :
  ginv s -> sh_producer_pos s + 4 * D <= 2 ^ 32 -> sh_consumer s = CRelease n pos ->
  consumer_safe s (set_consumer (CTry (n + 1) (pos + 1)) (store_seq pos (pos + D) s)).
Proof.
  intros G Hb Hc. pose proof D_bounds. pose proof (g_prod _ G). pose proof (g_cpos _ G).
  assert (Hpr : progress s = pos) by (unfold progress; by rewrite Hc). rewrite Hpr in *.
  destruct (g_cons _ G pos) as (Hf & Hs & _); [unfold consuming; by rewrite Hc|].
  pose proof (at_only_set_slot pos (mkNode (pos + D) (slot_priority (slot s pos)) (envelope (slot s pos))) s) as Ha.
  pose proof (slot_store_seq s pos (pos + D) G) as E.
  set (s' := set_consumer _ _). unfold in_flight in Hf.
  assert (Hw : forall q, pos < q < pos + D -> slot s' q = slot s q).
  { intros q Hq. apply (ao_slot _ _ _ Ha); lia. }
  assert (Hl : slot s' (pos + D) = mkNode (pos + D) (slot_priority (slot s pos)) (envelope (slot s pos))).
  { rewrite <- E, !slot_mask. unfold s'. simpl. f_equal. unfold wrap, kQueueDepth.
    rewrite <- (Z.mul_1_l (2 ^ k)) at 1. apply Z.mod_add. unfold kQueueDepth in *. lia. }
  assert (Hfl : forall q, in_flight s' q -> in_flight s q /\ pos < q < pos + D).
  { intros q. unfold in_flight. change (progress s') with (pos + 1). simpl. lia. }
  pose proof (g_count _ G) as Hcnt. pose proof (g_delivered _ G) as Hd. rewrite Hc in Hcnt, Hd.
  split; [|split; [done|] ].
  - split; change (progress s') with (pos + 1); try (by destruct G).
    + simpl. rewrite length_aset. apply G.
    + simpl. lia.
    + simpl. lia.
    + simpl. lia.
    + intros q Hq. simpl in Hq. destruct (Z.eq_dec q (pos + D)) as [->|]; [by rewrite Hl|].
      rewrite Hw by lia. apply (g_free _ G). lia.
    + intros q Hq. apply Hfl in Hq as [Hq ?]. rewrite Hw by lia.
      destruct (g_busy _ G q Hq) as [?|[?|[?|[Hcon _] ] ] ]; [tauto..|].
      unfold consuming in Hcon. rewrite Hc in Hcon. lia.
    + intros q Hq Hsq. apply Hfl in Hq as [Hq ?]. rewrite Hw in Hsq by lia.
      apply (settled_same s); [apply Hw; lia|done|by apply (g_settled _ G)].
    + simpl. lia.
  - intros pc Ht. apply (tinv_frame s); try done; [|change (progress s') with (pos + 1); lia].
    intros p Hp. destruct (owner_in_flight _ _ _ Ht Hp) as [ [? ?] Hsp]. change (progress s') with (pos + 1).
    assert (p <> pos) by (intros ->; lia). split; [apply Hw; lia|]. split; [done|lia].
Qed.

(** Storing the consumer position at the end of the batch. *)
Lemma consumer_store n pos s :
  ginv s -> sh_consumer s = CStore n pos ->
  consumer_safe s (set_consumer CIdle (if 0 <? n then store_consumer_pos pos s else s)).
Proof.
  intros G Hc. assert (Hpr : progress s = pos) by (unfold progress; by rewrite Hc).
  pose proof (g_count _ G) as Hcnt. rewrite Hc in Hcnt. set (s' := set_consumer _ _).
  pose proof (g_cpos _ G) as Hcp. pose proof (g_delivered _ G) as Hd. rewrite Hc in Hd.
  assert (sh_consumer_pos s' = pos /\ slot s' = slot s /\ pubs_at s' = pubs_at s /\ sh_ring s' = sh_ring s /\
    sh_producer_pos s' = sh_producer_pos s /\ delivered s' = delivered s) as (E1 & E2 & E3 & E4 & E5 & E6).
  { subst s'. destruct (Z.ltb_spec 0 n); simpl; [done|]. split; [lia|done]. }
  assert (Hpr' : progress s' = pos) by exact E1.
  assert (Hfl : forall q, in_flight s' q <-> in_flight s q) by (intros q; unfold in_flight; by rewrite Hpr, Hpr', E5).
  assert (Hnc : forall q, ~ consuming s q) by (intros q Hq; unfold consuming in Hq; by rewrite Hc in Hq).
  split; [|split; [done|] ].
  - split; rewrite ?E1, ?E2, ?E3, ?E4, ?E5, ?E6, ?Hpr'; try (rewrite <- ?Hpr; by destruct G); try done.
    + lia.
    + intros q Hq. apply Hfl in Hq. destruct (g_busy _ G q Hq) as [?|[?|[?|[Hcon _] ] ] ]; [tauto..|]. by apply Hnc in Hcon.
    + intros q Hq Hs. apply Hfl in Hq. apply (settled_same s); [by rewrite E2|by rewrite E3|by apply (g_settled _ G)].
  - intros pc Ht. apply (tinv_frame s); try done; try lia. intros p Hp.
    destruct (owner_in_flight _ _ _ Ht Hp) as [ [? ?] _]. by rewrite E2, E3, Hpr', <- Hpr.
Qed.

Lemma consumer_step_safe s :
  ginv s -> sh_producer_pos s + 4 * D <= 2 ^ 32 -> consumer_safe s (consumer_step s).
Proof.
  intros G Hb. pose proof (g_prod _ G). pose proof (g_cpos _ G). pose proof D_bounds.
  pose proof (g_count _ G) as Hcnt. unfold consumer_step. destruct (sh_consumer s) eqn:Hc.
  - assert (progress s = sh_consumer_pos s) as Hpr by (unfold progress; by rewrite Hc).
    apply consumer_move; rewrite ?Hc; try done; [intros q; unfold consuming; by rewrite Hc|lia].
  - assert (progress s = cons_pos) as Hpr by (unfold progress; by rewrite Hc).
    assert (consumer_safe s (set_consumer (CStore processed cons_pos) s)).
    { apply consumer_move; rewrite ?Hc; try done. intros q. unfold consuming. by rewrite Hc. }
    destruct (processed <? kBatchSize); [|done].
    unfold kConsumedOffset. rewrite !(wrap_small 32) by (unfold in_range; lia).
    destruct (Z.eqb_spec (sequence (slot s cons_pos)) (cons_pos + 1)); [by apply consumer_take|done].
  - by apply consumer_dispatch.
  - assert (progress s = cons_pos) as Hpr by (unfold progress; by rewrite Hc).
    rewrite !(wrap_small 32) by (unfold in_range; lia). by apply consumer_release.
  - by apply consumer_store.
Qed.

(** *** The whole system *)

Record sys_inv (st : Shared * list ProducerPc) : Prop := {
  si_shared : ginv st.1;
  si_bound : sh_producer_pos st.1 + 4 * D <= 2 ^ 32;
  si_thread : forall t pc, st.2 !! t = Some pc -> tinv st.1 pc;
  si_apart : forall t1 t2 pc1 pc2, t1 <> t2 -> st.2 !! t1 = Some pc1 -> st.2 !! t2 = Some pc2 -> apart pc1 pc2
}.

(** Steps of runs in which the 32-bit positions have not wrapped around. *)
Definition bounded_trans (st st' : Shared * list ProducerPc) : Prop :=
  bus_trans st st' /\ sh_producer_pos st'.1 + 4 * D <= 2 ^ 32.

Lemma exec_all_rtc l st st' : exec_all l st = Some st' -> rtc bounded_trans st st'.
Proof.
  revert st. induction l as [|a l IH]; intros st He; simpl in He; [by simplify_eq|].
  destruct (exec a st) as [st1|] eqn:E; [|done].
  destruct (Z.leb_spec (sh_producer_pos st1.1 + 4 * D) (2 ^ 32)); [|done].
  apply rtc_l with st1; [split; [by exists a|done]|]. by apply IH.
Qed.

Lemma apart_sym pc1 pc2 : apart pc1 pc2 -> apart pc2 pc1.
Proof. intros Ha p H2 H1. by apply (Ha p). Qed.

(** Replacing one publisher's counter. *)
Lemma sys_inv_update s pcs t pc pc' s' :
  sys_inv (s, pcs) -> pcs !! t = Some pc -> safe_step pc s pc' s' -> sh_producer_pos s' + 4 * D <= 2 ^ 32 ->
  sys_inv (s', <[t := pc']> pcs).
Proof.
  intros [G Hb Ht Ha] Hpc (G' & Ht' & _ & Hother) Hb'. simpl in *.
  assert (Hlen : (t < length pcs)%nat) by (by apply lookup_lt_Some in Hpc).
  split; simpl; [done|done|..].
  - intros t2 pc2 H2. destruct (decide (t2 = t)) as [->|Hne].
    + rewrite list_lookup_insert_eq in H2 by done. by simplify_eq.
    + rewrite list_lookup_insert_ne in H2 by done. apply Hother; [by apply (Ht t2)|]. by apply (Ha t t2).
  - intros t1 t2 pc1 pc2 Hne H1 H2.
    destruct (decide (t1 = t)) as [->|Hne1]; [|destruct (decide (t2 = t)) as [->|Hne2] ].
    + rewrite list_lookup_insert_eq in H1 by done. rewrite list_lookup_insert_ne in H2 by done. simplify_eq.
      apply Hother; [by apply (Ht t2)|by apply (Ha t t2)].
    + rewrite list_lookup_insert_eq in H2 by done. rewrite list_lookup_insert_ne in H1 by done. simplify_eq.
      apply apart_sym, Hother; [by apply (Ht t1)|by apply (Ha t t1)].
    + rewrite list_lookup_insert_ne in H1, H2 by done. by apply (Ha t1 t2).
Qed.

Lemma sys_inv_step st st' : bounded_trans st st' -> sys_inv st -> sys_inv st'.
Proof.
  intros [ [a Hex] Hb'] Hi. pose proof Hi as [G Hb Ht Ha]. destruct st as [s pcs]. simpl in *.
  destruct a; cbn [exec] in Hex.
  - destruct (pcs !! t) as [pc|] eqn:Hpc; [|done]. destruct pc; simplify_eq.
    apply (sys_inv_update s _ _ _ _ _ Hi Hpc); [|done].
    by apply safe_quiet; [|apply quiet_refl| |left].
  - destruct (pcs !! t) as [pc|] eqn:Hpc; [|done].
    destruct (producer_step weak pc s) as [ [pc' s']|] eqn:Hs; simplify_eq.
    apply (sys_inv_update s _ _ _ _ _ Hi Hpc); [|done]. by apply (producer_step_safe weak); [..|apply (Ht t)|].
  - simplify_eq. destruct (consumer_step_safe s G Hb) as (G' & Hp & Hall). split; simpl; [done|by rewrite Hp| |done].
    intros t pc Hpc. by apply Hall, (Ht t).
Qed.

Lemma init_slot p : 0 <= p < D -> sequence (slot sh_init p) = p.
Proof.
  intros Hp. pose proof D_bounds. rewrite slot_mask, wrap_small by (unfold in_range, kQueueDepth in *; lia).
  unfold aget. simpl. rewrite list_lookup_total_alt, list_lookup_fmap, lookup_seqZ_lt by lia. simpl. lia.
Qed.

Lemma sys_inv_start n : sys_inv (start_state n).
Proof.
  pose proof D_bounds. assert (Hpr : progress sh_init = 0) by done.
  split; simpl.
  - split; rewrite ?Hpr; simpl; try done; try lia.
    + by rewrite length_fmap, length_seqZ.
    + intros p Hp. apply init_slot. lia.
    + intros p [? ?]. simpl in *. lia.
    + intros p [? ?]. simpl in *. lia.
  - change (2 ^ 32) with (2 ^ 25 * 128). lia.
  - intros t pc Hpc. apply lookup_replicate in Hpc as [-> _]. done.
  - intros t1 t2 pc1 pc2 _ H1 _ p Hp. apply lookup_replicate in H1 as [-> _]. done.
Qed.

Lemma sys_inv_reachable n st : rtc bounded_trans (start_state n) st -> sys_inv st.
Proof. apply rtc_invariant; [apply sys_inv_start|apply sys_inv_step]. Qed.

(** ** Results *)

(** The publisher is about to write, or the consumer to read, the envelope of
    position [p]. *)
Definition writing (pc : ProducerPc) (p : Z) : Prop :=
  match pc with PWrite _ q _ | EvWrite _ q _ => q = p | _ => False end.
Definition reading (s : Shared) (p : Z) : Prop := match sh_consumer s with CDispatch _ q => q = p | _ => False end.

Lemma writing_owns pc p : writing pc p -> owns pc = Some p.
Proof. by destruct pc; simpl; try done; intros ->. Qed.

Lemma distinct_slots s p q : ginv s -> in_flight s p -> in_flight s q -> p <> q ->
  Z.land p (kBufferMask k) <> Z.land q (kBufferMask k).
Proof.
  intros G Hp Hq Hne. unfold kBufferMask, kQueueDepth. rewrite !land_mask by lia.
  pose proof (g_prod _ G) as Hpr. unfold in_flight, kQueueDepth in *. intros Heq. destruct (Z.lt_ge_cases p q).
  - apply wrap_inj_near in Heq; lia.
  - symmetry in Heq. apply wrap_inj_near in Heq; lia.
Qed.

(** C9. No data race on an envelope: in no reachable state are two publishers
    (claiming or evicting) about to write the same ring slot, nor one about to
    write the slot the consumer is dispatching from.  The runs are those in which the
    32-bit positions of the source do not wrap ([bounded_trans]): at most 2^32 less four
    times the depth of the ring messages are published.  Beyond that a publisher that
    slept through 2^32 publications takes an old position for the current one. *)
Theorem bus_envelope_race_free n st :
  rtc bounded_trans (start_state n) st ->
  (forall t1 t2 pc1 pc2 p1 p2, t1 <> t2 -> st.2 !! t1 = Some pc1 -> st.2 !! t2 = Some pc2 ->
     writing pc1 p1 -> writing pc2 p2 -> Z.land p1 (kBufferMask k) <> Z.land p2 (kBufferMask k)) /\
  (forall t pc p q, st.2 !! t = Some pc -> writing pc p -> reading st.1 q ->
     Z.land p (kBufferMask k) <> Z.land q (kBufferMask k)).
Proof.
  intros [G _ Ht Ha]%sys_inv_reachable. split.
  - intros t1 t2 pc1 pc2 p1 p2 Hne H1 H2 W1%writing_owns W2%writing_owns.
    destruct (owner_in_flight _ _ _ (Ht _ _ H1) W1), (owner_in_flight _ _ _ (Ht _ _ H2) W2).
    apply (distinct_slots st.1); try done. intros ->. by apply (Ha t1 t2 pc1 pc2 Hne H1 H2 p2).
  - intros t pc p q H1 W1%writing_owns Hr. destruct (owner_in_flight _ _ _ (Ht _ _ H1) W1) as [? Hs].
    destruct (g_cons _ G q) as (? & Hs' & _).
    { unfold reading, consuming in *. by destruct (sh_consumer st.1). }
    apply (distinct_slots st.1); try done. intros ->. pose proof D_bounds. lia.
Qed.

(** C2. In-order, exactly-once delivery, whatever the interleaving, in the runs in which
    the 32-bit positions do not wrap ([bounded_trans]: at most 2^32 less four times the
    depth of the ring messages are published): the i-th envelope dispatched is the last
    one published at position i; a position is published once, and a second time only by
    a high-priority message replacing a lower one; what is published and not yet
    dispatched is still in flight. *)
Theorem bus_concurrent_delivery n st :
  rtc bounded_trans (start_state n) st ->
  (forall i e, delivered st.1 !! i = Some e ->
     valid_pubs (pubs_at st.1 (Z.of_nat i)) /\ last (pubs_at st.1 (Z.of_nat i)) = Some e) /\
  (forall p e, (p, e) ∈ published st.1 -> p < Z.of_nat (length (delivered st.1)) \/ in_flight st.1 p).
Proof.
  intros [G _ _ _]%sys_inv_reachable. split.
  - intros i e Hi. pose proof (lookup_lt_Some _ _ _ Hi).
    destruct (g_done _ G (Z.of_nat i) ltac:(lia)) as [? Hl]. rewrite Nat2Z.id in Hl. by rewrite Hl.
  - intros p e Hp. destruct (Z.lt_ge_cases p (Z.of_nat (length (delivered st.1)))); [by left|]. right.
    pose proof (g_delivered _ G) as Hd. split; [destruct (sh_consumer st.1); lia|].
    destruct (Z.lt_ge_cases p (sh_producer_pos st.1)) as [|Hge]; [done|].
    pose proof (g_unused _ G p Hge) as Hn. unfold pubs_at in Hn. apply fmap_nil_inv in Hn.
    assert (Hin : (p, e) ∈ filter (fun x => x.1 = p) (published st.1)) by (by apply list_elem_of_filter).
    rewrite Hn in Hin. by apply not_elem_of_nil in Hin.
Qed.

End Safety.

End BusConc.

(** ** Concrete schedules *)

Definition demo_request (v : Z) (p : MessagePriority) : Request := mkRequest v 7 0 p 0.

(** An undisturbed publish of thread [t] takes the call and ten steps. *)
Definition publish_by (t : nat) (v : Z) (p : MessagePriority) : list (Action (Payload := Z)) :=
  ACall t (demo_request v p) :: replicate 10 (AProducer t false).

(** Depth 4: two low messages and a high one, then an evicting high one, which
    stops just before it writes the reserved slot. *)
Definition evict_schedule : list (Action (Payload := Z)) :=
  publish_by 1 10 kLow ++ publish_by 1 11 kLow ++ publish_by 1 20 kHigh ++
  ACall 0 (demo_request 30 kHigh) :: replicate 12 (AProducer 0 false) ++ [AConsumer; AConsumer].

Definition state_after (l : list (Action (Payload := Z))) : Shared * list ProducerPc :=
  match exec_all 2 3 true l (start_state 2 2) with Some st => st | None => start_state 2 2 end.

Lemma bus_envelope_race_free_witness :
  writing (default (PIdle None) ((state_after evict_schedule).2 !! 0%nat)) 1 /\ reading (state_after evict_schedule).1 0 /\
  Z.land 1 (kBufferMask 2) <> Z.land 0 (kBufferMask 2).
Proof.
  assert (Hex : exec_all 2 3 true evict_schedule (start_state 2 2) = Some (state_after evict_schedule))
    by (vm_compute; reflexivity).
  split; [vm_compute; reflexivity|]. split; [vm_compute; reflexivity|].
  destruct (bus_envelope_race_free 2 3 true ltac:(lia) 2 (state_after evict_schedule)) as [_ Hr].
  - by apply (exec_all_rtc 2 3 true evict_schedule).
  - apply (Hr 0%nat (default (PIdle None) ((state_after evict_schedule).2 !! 0%nat)) 1 0); vm_compute; reflexivity.
Defined.

(** The run completed: the low message 11 was replaced by 30, and everything
    still pending was delivered in order. *)
Definition full_schedule : list (Action (Payload := Z)) :=
  evict_schedule ++ replicate 3 (AProducer 0 false) ++ replicate 10 AConsumer.

Lemma bus_concurrent_delivery_witness :
  map payload (delivered (state_after full_schedule).1) = [10; 30; 20] /\
  map payload (pubs_at (state_after full_schedule).1 1) = [11; 30] /\
  valid_pubs (pubs_at (state_after full_schedule).1 1).
Proof.
  assert (Hex : exec_all 2 3 true full_schedule (start_state 2 2) = Some (state_after full_schedule))
    by (vm_compute; reflexivity).
  split; [vm_compute; reflexivity|]. split; [vm_compute; reflexivity|].
  destruct (bus_concurrent_delivery 2 3 true ltac:(lia) 2 (state_after full_schedule)) as [Hd _].
  - by apply (exec_all_rtc 2 3 true full_schedule).
  - apply (Hd 1%nat (envelope_of 4 (demo_request 30 kHigh))). vm_compute. reflexivity.
Defined.

(** The publisher reads the producer position, is overtaken, and then compares
    it with a consumer position that is newer. *)
Definition overtaken_schedule : list (Action (Payload := Z)) :=
  [ACall 0 (demo_request 99 kHigh); AProducer 0 false; AProducer 0 false] ++
  publish_by 1 1 kLow ++ publish_by 1 2 kLow ++ replicate 9 AConsumer ++
  publish_by 1 3 kLow ++ replicate 2 (AProducer 1 false) ++ replicate 6 (AProducer 0 false).

(** A publisher overtaken between its two loads computes its depth by
    subtracting a newer consumer position from an older producer position; the
    32-bit difference wraps, and a high-priority message is dropped although
    the queue never held more than two of its four slots, below the limit of three. *)
Lemma bus_spurious_drop :
  kHighThreshold 2 = 3 /\ max_depth 2 3 true overtaken_schedule (start_state 2 2) = 2 /\
  exists st, exec_all 2 3 true overtaken_schedule (start_state 2 2) = Some st /\
    st.2 !! 0%nat = Some (PIdle (Some false)) /\ sh_producer_pos st.1 - sh_consumer_pos st.1 = 1.
Proof. split; [done|]. split; [vm_compute; reflexivity|]. eexists. split; [vm_compute; reflexivity|]. done. Qed.
