(* ===== verification/Bt.v ===== *)
(** * BehaviorTree (include/osp/bt.hpp)

    The flat-array behavior tree: nodes are array entries that name their
    children by index.  The build operations, the recursive tick with its
    assertions, and the proof that ticking the array computes the meaning of the
    tree it represents. *)

From Stdlib Require Import ZArith Lia Bool String.
From stdpp Require Import base numbers list option.
From S2P Require Import Prelude.

Open Scope Z_scope.

Inductive NodeStatus := kSuccess | kFailure | kRunning | kIdle.

#[export] Instance NodeStatus_eq_dec : EqDecision NodeStatus.
Proof. solve_decision. Defined.

Inductive NodeType := kAction | kCondition | kSequence | kSelector | kParallel | kInverter | kRepeat.

Definition NodeStatusToString (s : NodeStatus) : string :=
  match s with kSuccess => "SUCCESS" | kFailure => "FAILURE" | kRunning => "RUNNING" | kIdle => "IDLE" end.
Definition NodeTypeToString (t : NodeType) : string :=
  match t with
  | kAction => "ACTION" | kCondition => "CONDITION" | kSequence => "SEQUENCE" | kSelector => "SELECTOR"
  | kParallel => "PARALLEL" | kInverter => "INVERTER" | kRepeat => "REPEAT"
  end.

(** Results: a value, a failed assertion, or recursion deeper than the fuel. *)
Inductive Res (A : Type) := Ok (a : A) | AssertFail | OutOfFuel.
Arguments Ok {A} a.
Arguments AssertFail {A}.
Arguments OutOfFuel {A}.

Definition rbind {A B : Type} (m : Res A) (f : A -> Res B) : Res B :=
  match m with Ok a => f a | AssertFail => AssertFail | OutOfFuel => OutOfFuel end.

Section Bt.
Context {Ctx : Type} (MaxNodes kMaxChildren : Z).

Definition TickFn : Type := Ctx -> NodeStatus * Ctx.

Record BtNode := mkBtNode {
  type : NodeType;
  name : string;
  tick_fn : option TickFn;
  parent_index : Z;
  children : list Z;
  child_count : Z;
  success_threshold : Z;
  repeat_count : Z
}.

#[global] Instance BtNode_inhabited : Inhabited BtNode := populate (mkBtNode kAction "" None (-1) [] 0 0 0).

Record BehaviorTree := mkBt {
  nodes_ : list BtNode;
  node_count_ : Z;
  root_index_ : Z;
  last_status_ : NodeStatus;
  repeat_counters_ : list Z
}.

Definition BehaviorTree_ctor : BehaviorTree :=
  mkBt (replicate (Z.to_nat MaxNodes) inhabitant) 0 (-1) kIdle (replicate (Z.to_nat MaxNodes) 0).

(** ** Building *)

Definition no_children : list Z := replicate (Z.to_nat kMaxChildren) (-1).

(** Appends [idx] to the children of [n]; [None] is the failed assertion. *)
Definition add_child (idx : Z) (n : BtNode) : option BtNode :=
  if child_count n <? kMaxChildren
  then Some (mkBtNode (type n) (name n) (tick_fn n) (parent_index n) (aset (children n) (child_count n) idx)
               (u32 (child_count n + 1)) (success_threshold n) (repeat_count n))
  else None.

(** AddNode; the result is the index, -1 when the tree is full. *)
Definition AddNode (ty : NodeType) (nm : string) (fn : option TickFn) (parent : Z) (t : BehaviorTree)
    : option (Z * BehaviorTree) :=
  if MaxNodes <=? node_count_ t then Some (-1, t)
  else if 2 ^ 31 - 1 <? node_count_ t then None
  else
    let idx := node_count_ t in
    let ns := aset (nodes_ t) idx (mkBtNode ty nm fn parent no_children 0 0 0) in
    let count := node_count_ t + 1 in
    if (0 <=? parent) && (parent <? count) then
      match add_child idx (aget ns parent) with
      | Some p => Some (idx, mkBt (aset ns parent p) count (root_index_ t) (last_status_ t) (repeat_counters_ t))
      | None => None
      end
    else Some (idx, mkBt ns count (root_index_ t) (last_status_ t) (repeat_counters_ t)).

Definition set_threshold (v : Z) (n : BtNode) : BtNode :=
  mkBtNode (type n) (name n) (tick_fn n) (parent_index n) (children n) (child_count n) v (repeat_count n).
Definition set_repeat (v : Z) (n : BtNode) : BtNode :=
  mkBtNode (type n) (name n) (tick_fn n) (parent_index n) (children n) (child_count n) (success_threshold n) v.
Definition update_node (idx : Z) (f : BtNode -> BtNode) (t : BehaviorTree) : BehaviorTree :=
  mkBt (aset (nodes_ t) idx (f (aget (nodes_ t) idx))) (node_count_ t) (root_index_ t) (last_status_ t) (repeat_counters_ t).

Definition AddAction (nm : string) (fn : option TickFn) (parent : Z) := AddNode kAction nm fn parent.
Definition AddCondition (nm : string) (fn : option TickFn) (parent : Z) := AddNode kCondition nm fn parent.
Definition AddSequence (nm : string) (parent : Z) := AddNode kSequence nm None parent.
Definition AddSelector (nm : string) (parent : Z) := AddNode kSelector nm None parent.
Definition AddInverter (nm : string) (parent : Z) := AddNode kInverter nm None parent.
Definition AddParallel (nm : string) (threshold parent : Z) (t : BehaviorTree) : option (Z * BehaviorTree) :=
  match AddNode kParallel nm None parent t with
  | Some (idx, t) => Some (idx, if 0 <=? idx then update_node idx (set_threshold threshold) t else t)
  | None => None
  end.
Definition AddRepeat (nm : string) (count parent : Z) (t : BehaviorTree) : option (Z * BehaviorTree) :=
  match AddNode kRepeat nm None parent t with
  | Some (idx, t) => Some (idx, if 0 <=? idx then update_node idx (set_repeat count) t else t)
  | None => None
  end.

Definition SetRoot (idx : Z) (t : BehaviorTree) : option BehaviorTree :=
  if (0 <=? idx) && (idx <? node_count_ t)
  then Some (mkBt (nodes_ t) (node_count_ t) idx (last_status_ t) (repeat_counters_ t)) else None.

(** ** Ticking

    The state is the repeat counters and the context. *)

Definition St : Type := list Z * Ctx.

(** [node.children[i]] for [i < child_count]. *)
Definition child_list (n : BtNode) : list Z := (fun i => aget (children n) i) <$> seqZ 0 (child_count n).

Section Loops.
Context {C : Type} (tick : C -> St -> Res (NodeStatus * St)).

Fixpoint sequence_loop (cs : list C) (st : St) : Res (NodeStatus * St) :=
  match cs with
  | [] => Ok (kSuccess, st)
  | c :: cs' =>
    rbind (tick c st) (fun '(s, st) =>
      match s with kFailure => Ok (kFailure, st) | kRunning => Ok (kRunning, st) | _ => sequence_loop cs' st end)
  end.

Fixpoint selector_loop (cs : list C) (st : St) : Res (NodeStatus * St) :=
  match cs with
  | [] => Ok (kFailure, st)
  | c :: cs' =>
    rbind (tick c st) (fun '(s, st) =>
      match s with kSuccess => Ok (kSuccess, st) | kRunning => Ok (kRunning, st) | _ => selector_loop cs' st end)
  end.

(** The counts of successes and failures over all children. *)
Fixpoint parallel_loop (cs : list C) (successes failures : Z) (st : St) : Res (Z * Z * St) :=
  match cs with
  | [] => Ok (successes, failures, st)
  | c :: cs' =>
    rbind (tick c st) (fun '(s, st) =>
      match s with
      | kSuccess => parallel_loop cs' (successes + 1) failures st
      | kFailure => parallel_loop cs' successes (failures + 1) st
      | _ => parallel_loop cs' successes failures st
      end)
  end.
End Loops.

Definition parallel_status (count threshold successes failures : Z) : NodeStatus :=
  if threshold <=? successes then kSuccess
  else if u32 (count - threshold) <? failures then kFailure else kRunning.

Definition inverter_status (s : NodeStatus) : NodeStatus :=
  match s with kSuccess => kFailure | kFailure => kSuccess | _ => s end.

(** What a repeat node at [index] does with its child's status. *)
Definition repeat_status (index count : Z) (s : NodeStatus) (st : St) : NodeStatus * St :=
  let '(counters, ctx) := st in
  match s with
  | kFailure => (kFailure, (aset counters index 0, ctx))
  | kRunning => (kRunning, st)
  | _ =>
    if count =? 0 then (kRunning, st)
    else
      let counters := aset counters index (u32 (aget counters index + 1)) in
      if count <=? aget counters index then (kSuccess, (aset counters index 0, ctx)) else (kRunning, (counters, ctx))
  end.

Fixpoint TickNode (fuel : nat) (t : BehaviorTree) (index : Z) (st : St) : Res (NodeStatus * St) :=
  match fuel with
  | O => OutOfFuel
  | S fuel' =>
    if (0 <=? index) && (index <? node_count_ t) then
      let node := aget (nodes_ t) index in
      let tick := TickNode fuel' t in
      match type node with
      | kAction | kCondition =>
        match tick_fn node with
        | Some f => let '(s, ctx) := f st.2 in Ok (s, (st.1, ctx))
        | None => AssertFail
        end
      | kSequence => sequence_loop tick (child_list node) st
      | kSelector => selector_loop tick (child_list node) st
      | kParallel =>
        rbind (parallel_loop tick (child_list node) 0 0 st) (fun '(ok, ko, st) =>
          Ok (parallel_status (child_count node) (success_threshold node) ok ko, st))
      | kInverter =>
        if child_count node =? 1
        then rbind (tick (aget (children node) 0) st) (fun '(s, st) => Ok (inverter_status s, st)) else AssertFail
      | kRepeat =>
        if child_count node =? 1
        then rbind (tick (aget (children node) 0) st) (fun '(s, st) => Ok (repeat_status index (repeat_count node) s st))
        else AssertFail
      end
    else AssertFail
  end.

(** Tick; [fuel] bounds the recursion depth. *)
Definition Tick (fuel : nat) (t : BehaviorTree) (ctx : Ctx) : Res (NodeStatus * (BehaviorTree * Ctx)) :=
  if root_index_ t <? 0
  then Ok (kFailure, (mkBt (nodes_ t) (node_count_ t) (root_index_ t) kFailure (repeat_counters_ t), ctx))
  else rbind (TickNode fuel t (root_index_ t) (repeat_counters_ t, ctx)) (fun '(s, (counters, ctx)) =>
    Ok (s, (mkBt (nodes_ t) (node_count_ t) (root_index_ t) s counters, ctx))).

Definition NodeCount (t : BehaviorTree) : Z := node_count_ t.
Definition LastStatus (t : BehaviorTree) : NodeStatus := last_status_ t.

(** ** Behavior trees and their meaning

    The meaning is given by rules, one for each thing a node can do; a state is the
    counters of the repeat nodes, by their numbers, and the context. *)

Inductive BTree :=
| TLeaf (f : TickFn)
| TSequence (l : list BTree)
| TSelector (l : list BTree)
| TParallel (threshold : Z) (l : list BTree)
| TInverter (c : BTree)
| TRepeat (index count : Z) (c : BTree).

(** A child that is not running and has not failed: kIdle counts as success. *)
Definition finished (s : NodeStatus) : Prop := s = kSuccess \/ s = kIdle.
Definition how_many (s : NodeStatus) (l : list NodeStatus) : Z := Z.of_nat (length (filter (fun x => x = s) l)).

Inductive means : BTree -> St -> NodeStatus -> St -> Prop :=
| m_leaf f cs x s x' : f x = (s, x') -> means (TLeaf f) (cs, x) s (cs, x')
| m_seq_end st : means (TSequence []) st kSuccess st
| m_seq_stop c l st s st' : means c st s st' -> s = kFailure \/ s = kRunning -> means (TSequence (c :: l)) st s st'
| m_seq_next c l st s st1 s' st' : means c st s st1 -> finished s -> means (TSequence l) st1 s' st' -> means (TSequence (c :: l)) st s' st'
| m_sel_end st : means (TSelector []) st kFailure st
| m_sel_stop c l st s st' : means c st s st' -> s = kSuccess \/ s = kRunning -> means (TSelector (c :: l)) st s st'
| m_sel_next c l st s st1 s' st' : means c st s st1 -> s = kFailure \/ s = kIdle -> means (TSelector l) st1 s' st' -> means (TSelector (c :: l)) st s' st'
(* all children run; enough successes, too many failures, or neither *)
| m_par_success n l st ss st' : all_mean l st ss st' -> n <= how_many kSuccess ss -> means (TParallel n l) st kSuccess st'
| m_par_failure n l st ss st' : all_mean l st ss st' -> how_many kSuccess ss < n -> n <= Z.of_nat (length l) ->
    Z.of_nat (length l) - n < how_many kFailure ss -> means (TParallel n l) st kFailure st'
| m_par_running n l st ss st' : all_mean l st ss st' -> how_many kSuccess ss < n -> how_many kFailure ss <= Z.of_nat (length l) - n ->
    means (TParallel n l) st kRunning st'
(* a threshold that cannot be reached: running for ever *)
| m_par_stuck n l st ss st' : all_mean l st ss st' -> Z.of_nat (length l) < n -> means (TParallel n l) st kRunning st'
| m_inv_success c st st' : means c st kSuccess st' -> means (TInverter c) st kFailure st'
| m_inv_failure c st st' : means c st kFailure st' -> means (TInverter c) st kSuccess st'
| m_inv_other c st s st' : means c st s st' -> s = kRunning \/ s = kIdle -> means (TInverter c) st s st'
| m_rep_failure i n c st cs x : means c st kFailure (cs, x) -> means (TRepeat i n c) st kFailure (aset cs i 0, x)
| m_rep_running i n c st st' : means c st kRunning st' -> means (TRepeat i n c) st kRunning st'
(* the child has finished: 0 means for ever, otherwise [n] times *)
| m_rep_forever i c st s st' : means c st s st' -> finished s -> means (TRepeat i 0 c) st kRunning st'
| m_rep_again i n c st s cs x : means c st s (cs, x) -> finished s -> n <> 0 -> aget cs i + 1 < n -> means (TRepeat i n c) st kRunning (aset cs i (aget cs i + 1), x)
| m_rep_done i n c st s cs x : means c st s (cs, x) -> finished s -> n <> 0 -> n <= aget cs i + 1 -> means (TRepeat i n c) st kSuccess (aset cs i 0, x)
with all_mean : list BTree -> St -> list NodeStatus -> St -> Prop :=
| a_nil st : all_mean [] st [] st
| a_cons c l st s st1 ss st' : means c st s st1 -> all_mean l st1 ss st' -> all_mean (c :: l) st (s :: ss) st'.

(** A sequence of ticks of the whole tree. *)
Inductive ticks (tr : BTree) : St -> list NodeStatus -> St -> Prop :=
| t_nil st : ticks tr st [] st
| t_cons st s st1 ss st' : means tr st s st1 -> ticks tr st1 ss st' -> ticks tr st (s :: ss) st'.

(** ** Well-formed trees *)

(** Children are registered after their parents: indices grow downwards. *)
Record node_wf (count idx : Z) (n : BtNode) : Prop := {
  nw_len : length (children n) = Z.to_nat kMaxChildren;
  nw_count : 0 <= child_count n <= kMaxChildren;
  nw_down : Forall (fun c => idx < c < count) (child_list n)
}.

Record bt_wf (t : BehaviorTree) : Prop := {
  bw_len : length (nodes_ t) = Z.to_nat MaxNodes;
  bw_count : 0 <= node_count_ t <= MaxNodes;
  bw_nodes : forall i, 0 <= i < node_count_ t -> node_wf (node_count_ t) i (aget (nodes_ t) i)
}.

Section Proofs.
Context (Hmax : 0 <= MaxNodes <= 2 ^ 31) (Hchild : 0 <= kMaxChildren < 2 ^ 32).

Lemma node_wf_mono count count' i n : count <= count' -> node_wf count i n -> node_wf count' i n.
Proof.
  intros Hle [? ? Hd]. split; [done..|]. rewrite Forall_forall in *. intros c Hc. specialize (Hd c Hc). lia.
Qed.

Lemma fresh_node_wf count i ty nm fn parent : node_wf count i (mkBtNode ty nm fn parent no_children 0 0 0).
Proof. split; simpl; [apply length_replicate|lia|constructor]. Qed.

Lemma add_child_wf count i idx n p :
  node_wf count i n -> i < idx < count -> add_child idx n = Some p -> node_wf count i p.
Proof.
  intros [Hl Hc Hd] Hi. unfold add_child. destruct (Z.ltb_spec (child_count n) kMaxChildren); [|done].
  intros [= <-]. split; simpl.
  - by rewrite length_aset.
  - rewrite wrap_small by (unfold in_range; lia). lia.
  - unfold child_list in *. simpl. rewrite wrap_small by (unfold in_range; lia).
    rewrite seqZ_app, fmap_app by lia. apply Forall_app. split.
    + rewrite Forall_fmap in *. rewrite Forall_forall in *. intros j Hj. pose proof Hj as Hj'.
      apply list_elem_of_In, elem_of_seqZ in Hj'. simpl. rewrite aget_aset_ne by lia. by apply Hd.
    + simpl. constructor; [|constructor]. rewrite aget_aset_eq by lia. lia.
Qed.

Lemma AddNode_wf ty nm fn parent t r t' :
  bt_wf t -> parent < node_count_ t -> AddNode ty nm fn parent t = Some (r, t') ->
  bt_wf t' /\ (r = -1 \/ 0 <= r < node_count_ t').
Proof.
  intros [Hl Hc Hn] Hp. unfold AddNode. destruct (Z.leb_spec MaxNodes (node_count_ t)); [intros [= <- <-]; by split; [|left] |].
  destruct (_ <? node_count_ t); [done|]. set (ns := aset _ _ _).
  assert (Hlen : length ns = Z.to_nat MaxNodes) by (subst ns; by rewrite length_aset).
  assert (Hns : forall i, 0 <= i < node_count_ t + 1 -> node_wf (node_count_ t + 1) i (aget ns i)).
  { intros i Hi. subst ns. destruct (Z.eq_dec i (node_count_ t)) as [->|].
    - rewrite aget_aset_eq by lia. apply fresh_node_wf.
    - rewrite aget_aset_ne by lia. apply (node_wf_mono (node_count_ t)); [lia|]. apply Hn. lia. }
  destruct (Z.leb_spec 0 parent); simpl andb.
  - destruct (Z.ltb_spec parent (node_count_ t + 1)); [|lia].
    destruct (add_child (node_count_ t) (aget ns parent)) as [p|] eqn:Ha; [|done]. intros [= <- <-].
    split; [|right; simpl; lia]. split; simpl; [by rewrite length_aset|lia|].
    intros i Hi. destruct (Z.eq_dec i parent) as [->|].
    + rewrite aget_aset_eq by lia. apply (add_child_wf _ _ (node_count_ t) (aget ns parent)); [apply Hns; lia|lia|done].
    + rewrite aget_aset_ne by lia. by apply Hns.
  - intros [= <- <-]. split; [|right; simpl; lia]. split; simpl; [done|lia|done].
Qed.

Lemma update_node_wf idx f t :
  bt_wf t -> 0 <= idx < node_count_ t ->
  (forall n, children (f n) = children n /\ child_count (f n) = child_count n) -> bt_wf (update_node idx f t).
Proof.
  intros [Hl Hc Hn] Hi Hf. split; simpl; [by rewrite length_aset|done|].
  intros i Hj. destruct (Z.eq_dec i idx) as [->|]; [rewrite aget_aset_eq by lia|rewrite aget_aset_ne by lia; by apply Hn].
  destruct (Hf (aget (nodes_ t) idx)) as [E1 E2], (Hn idx Hi) as [? ? ?].
  split; unfold child_list; by rewrite ?E1, ?E2.
Qed.

(** *** Building a whole tree *)

Inductive BuildOp :=
| BAction (nm : string) (fn : option TickFn) (parent : Z)
| BCondition (nm : string) (fn : option TickFn) (parent : Z)
| BSequence (nm : string) (parent : Z)
| BSelector (nm : string) (parent : Z)
| BParallel (nm : string) (threshold parent : Z)
| BInverter (nm : string) (parent : Z)
| BRepeat (nm : string) (count parent : Z).

Definition op_parent (o : BuildOp) : Z :=
  match o with
  | BAction _ _ p | BCondition _ _ p | BSequence _ p | BSelector _ p | BParallel _ _ p | BInverter _ p | BRepeat _ _ p => p
  end.

Definition build_op (o : BuildOp) : BehaviorTree -> option (Z * BehaviorTree) :=
  match o with
  | BAction nm fn p => AddAction nm fn p
  | BCondition nm fn p => AddCondition nm fn p
  | BSequence nm p => AddSequence nm p
  | BSelector nm p => AddSelector nm p
  | BParallel nm th p => AddParallel nm th p
  | BInverter nm p => AddInverter nm p
  | BRepeat nm n p => AddRepeat nm n p
  end.

(** Every parent is -1 or an index already handed out; [None] is a failed assertion. *)
Fixpoint build (ops : list BuildOp) (t : BehaviorTree) : option BehaviorTree :=
  match ops with
  | [] => Some t
  | o :: ops' =>
    if op_parent o <? node_count_ t
    then match build_op o t with Some (_, t') => build ops' t' | None => None end
    else None
  end.

(** The tree that a list of build operations describes: the operations are numbered
    from 0, and the children of a node are those that name it as their parent, in order. *)
Definition kids (ops : list BuildOp) (i : Z) : list Z :=
  filter (fun j => op_parent <$> ops !! Z.to_nat j = Some i) (seqZ 0 (Z.of_nat (length ops))).
Fixpoint tree_at (depth : nat) (ops : list BuildOp) (i : Z) : option BTree :=
  match depth with
  | O => None
  | S depth =>
    match ops !! Z.to_nat i, kids ops i with
    | Some (BAction _ fn _), _ | Some (BCondition _ fn _), _ => TLeaf <$> fn
    | Some (BSequence _ _), l => TSequence <$> mapM (tree_at depth ops) l
    | Some (BSelector _ _), l => TSelector <$> mapM (tree_at depth ops) l
    | Some (BParallel _ n _), l => TParallel n <$> mapM (tree_at depth ops) l
    | Some (BInverter _ _), [c] => TInverter <$> tree_at depth ops c
    | Some (BRepeat _ n _), [c] => TRepeat i n <$> tree_at depth ops c
    | _, _ => None
    end
  end.
(** Leaves have a callback, decorators one child; thresholds and counts are 32-bit. *)
Definition shaped (ops : list BuildOp) : Prop :=
  forall i o, ops !! i = Some o ->
    match o with
    | BAction _ fn _ | BCondition _ fn _ => is_Some fn
    | BInverter _ _ => length (kids ops (Z.of_nat i)) = 1%nat
    | BRepeat _ n _ => length (kids ops (Z.of_nat i)) = 1%nat /\ in_range 32 n
    | BParallel _ n _ => in_range 32 n
    | _ => True
    end.

Lemma build_op_wf o t r t' : bt_wf t -> op_parent o < node_count_ t -> build_op o t = Some (r, t') -> bt_wf t'.
Proof.
  intros Hwf Hp. destruct o; simpl in *;
    try (intros Ha; by apply (AddNode_wf _ _ _ _ _ _ _ Hwf Hp Ha)).
  all: unfold AddParallel, AddRepeat; destruct (AddNode _ _ _ _ _) as [ [i t1]|] eqn:Ha; [|done]; intros [= <- <-];
    destruct (AddNode_wf _ _ _ _ _ _ _ Hwf Hp Ha) as [H1 H2]; destruct (Z.leb_spec 0 i); [|done];
    apply update_node_wf; [done|lia|done].
Qed.

Lemma build_wf ops t t' : bt_wf t -> build ops t = Some t' -> bt_wf t'.
Proof.
  revert t. induction ops as [|o ops IH]; intros t Hwf Hb; simpl in Hb; [by simplify_eq|].
  destruct (Z.ltb_spec (op_parent o) (node_count_ t)); [|done].
  destruct (build_op o t) as [ [r t1]|] eqn:Ho; [|done]. apply (IH t1); [|done]. by apply (build_op_wf o t r).
Qed.

Lemma ctor_wf : bt_wf BehaviorTree_ctor.
Proof. split; simpl; [apply length_replicate|lia|lia]. Qed.

(** *** What is built is what the operations describe *)

Definition matches (o : BuildOp) (n : BtNode) : Prop :=
  match o with
  | BAction _ fn _ => type n = kAction /\ tick_fn n = fn
  | BCondition _ fn _ => type n = kCondition /\ tick_fn n = fn
  | BSequence _ _ => type n = kSequence
  | BSelector _ _ => type n = kSelector
  | BParallel _ th _ => type n = kParallel /\ success_threshold n = th
  | BInverter _ _ => type n = kInverter
  | BRepeat _ c _ => type n = kRepeat /\ repeat_count n = c
  end.
Record built (t : BehaviorTree) (ops : list BuildOp) : Prop := {
  bu_wf : bt_wf t;
  bu_count : node_count_ t = Z.of_nat (length ops);
  bu_parent : forall i o, ops !! i = Some o -> op_parent o < Z.of_nat i;
  bu_node : forall i o, ops !! i = Some o -> matches o (aget (nodes_ t) (Z.of_nat i)) /\ child_list (aget (nodes_ t) (Z.of_nat i)) = kids ops (Z.of_nat i)
}.

Lemma kids_snoc ops o i : kids (ops ++ [o]) i = kids ops i ++ (if decide (op_parent o = i) then [Z.of_nat (length ops)] else []).
Proof.
  unfold kids. rewrite length_app, Nat2Z.inj_add, seqZ_app, list.filter_app by lia. f_equal.
  - apply filter_ext_elem. intros j Hj%elem_of_seqZ. rewrite lookup_app_l; [done|lia].
  - change (seqZ (0 + Z.of_nat (length ops)) (Z.of_nat (length [o]))) with [Z.of_nat (length ops)].
    rewrite list.filter_cons, filter_nil. rewrite Nat2Z.id, (list_lookup_middle ops [] o) by done.
    cbn [fmap option_fmap option_map]. repeat case_decide; congruence.
Qed.

Lemma kids_fresh ops i : (forall j o, ops !! j = Some o -> op_parent o < Z.of_nat j) -> Z.of_nat (length ops) <= i -> kids ops i = [].
Proof.
  intros Hp Hi. unfold kids. destruct (filter _ _) as [|j l] eqn:E; [done|]. exfalso.
  assert (Hj : j ∈ filter (fun j => op_parent <$> ops !! Z.to_nat j = Some i) (seqZ 0 (Z.of_nat (length ops)))) by (rewrite E; by left).
  apply list_elem_of_filter in Hj as [Hj Hs]. destruct (ops !! Z.to_nat j) as [o|] eqn:Ho; [|done]. injection Hj as Hj.
  pose proof (Hp _ _ Ho). apply lookup_lt_Some in Ho. lia.
Qed.

Lemma built_start : built BehaviorTree_ctor [].
Proof. by split; [apply ctor_wf| | |]. Qed.

Lemma child_list_add idx n p : child_count n <? kMaxChildren = true -> length (children n) = Z.to_nat kMaxChildren -> 0 <= child_count n -> add_child idx n = Some p ->
  child_list p = child_list n ++ [idx].
Proof.
  intros Hc Hl H0. unfold add_child. rewrite Hc. bool_prop. intros [= <-]. unfold child_list. cbn [children child_count].
  rewrite wrap_small by (unfold in_range; lia). rewrite seqZ_app, fmap_app by lia. f_equal; [|change (seqZ (0 + child_count n) 1) with [child_count n]; cbn [fmap list_fmap]; by rewrite aget_aset_eq by lia].
  apply list_fmap_ext. intros i j Hj. apply list_elem_of_lookup_2, elem_of_seqZ in Hj. by rewrite aget_aset_ne by lia.
Qed.

(** AddNode appends a node without children and makes it the last child of its parent. *)
Lemma AddNode_built ty nm fn parent t ops r t' : built t ops -> parent < node_count_ t -> node_count_ t < MaxNodes ->
  AddNode ty nm fn parent t = Some (r, t') ->
  r = node_count_ t /\ node_count_ t' = node_count_ t + 1 /\
  (let n := aget (nodes_ t') (node_count_ t) in type n = ty /\ tick_fn n = fn /\ child_list n = []) /\
  (forall i, 0 <= i < node_count_ t -> let n := aget (nodes_ t') i in let n0 := aget (nodes_ t) i in
    type n = type n0 /\ tick_fn n = tick_fn n0 /\ success_threshold n = success_threshold n0 /\ repeat_count n = repeat_count n0 /\
    child_list n = child_list n0 ++ (if decide (parent = i) then [node_count_ t] else [])).
Proof.
  intros [Hwf Hn _ _] Hp Hlt. destruct Hwf as [Hl Hc Hw]. unfold AddNode. destruct (Z.leb_spec MaxNodes (node_count_ t)); [lia|].
  destruct (_ <? node_count_ t); [done|]. set (new := mkBtNode ty nm fn parent no_children 0 0 0). set (ns := aset (nodes_ t) (node_count_ t) new).
  assert (Hnew : aget ns (node_count_ t) = new) by (subst ns; rewrite aget_aset_eq by lia; done).
  assert (Hold : forall i, 0 <= i < node_count_ t -> aget ns i = aget (nodes_ t) i) by (intros; subst ns; by rewrite aget_aset_ne by lia).
  assert (Hns : length ns = Z.to_nat MaxNodes) by (subst ns; by rewrite length_aset).
  destruct (Z.leb_spec 0 parent); cbn [andb].
  - destruct (Z.ltb_spec parent (node_count_ t + 1)); [|lia]. destruct (add_child (node_count_ t) (aget ns parent)) as [p|] eqn:Ha; [|done].
    intros [= <- <-]. cbn [nodes_ node_count_]. split; [done|]. split; [done|]. split.
    + rewrite aget_aset_ne, Hnew by lia. done.
    + intros i Hi. cbv zeta. destruct (decide (parent = i)) as [<-|Hne].
      * rewrite aget_aset_eq by lia. rewrite Hold in Ha by lia. destruct (Hw parent) as [Hw1 Hw2 _]; [lia|].
        pose proof Ha as Ha'. unfold add_child in Ha'. destruct (child_count _ <? kMaxChildren) eqn:Ecc; [|done].
        rewrite (child_list_add _ _ _ Ecc Hw1 ltac:(lia) Ha). by injection Ha' as <-.
      * rewrite aget_aset_ne, Hold, app_nil_r by lia. done.
  - intros [= <- <-]. cbn [nodes_ node_count_]. split; [done|]. split; [done|]. split; [by rewrite Hnew|].
    intros i Hi. cbv zeta. rewrite Hold, decide_False, app_nil_r by lia. done.
Qed.

Lemma built_snoc t ops o t' : built t ops -> op_parent o < node_count_ t -> bt_wf t' -> node_count_ t' = node_count_ t + 1 ->
  (let n := aget (nodes_ t') (node_count_ t) in matches o n /\ child_list n = []) ->
  (forall i, 0 <= i < node_count_ t -> let n := aget (nodes_ t') i in let n0 := aget (nodes_ t) i in
    (forall o', matches o' n0 -> matches o' n) /\ child_list n = child_list n0 ++ (if decide (op_parent o = i) then [node_count_ t] else [])) ->
  built t' (ops ++ [o]).
Proof.
  intros [_ Hn Hp Hb] Ho Hwf Hn' Hnew Hold. rewrite Hn in *. split; [done|rewrite length_app; cbn; lia| |].
  - intros i o' Hi. apply lookup_app_Some in Hi as [Hi|[Hge Hi] ]; [by apply (Hp i)|]. apply list_lookup_singleton_Some in Hi as [Hi <-]. lia.
  - intros i o' Hi. rewrite kids_snoc. apply lookup_app_Some in Hi as [Hi|[Hge Hi] ].
    + destruct (Hb i o' Hi) as [Hm Hk]. apply lookup_lt_Some in Hi. destruct (Hold (Z.of_nat i)) as [Hm' Hk']; [lia|].
      split; [by apply Hm'|]. by rewrite Hk', Hk.
    + apply list_lookup_singleton_Some in Hi as [Hi <-]. replace i with (length ops) by lia. destruct Hnew as [Hm Hk]. split; [done|].
      rewrite Hk, decide_False, app_nil_r by lia. symmetry. by apply kids_fresh; [|lia].
Qed.

Lemma matches_same o n n0 : type n = type n0 -> tick_fn n = tick_fn n0 -> success_threshold n = success_threshold n0 -> repeat_count n = repeat_count n0 ->
  matches o n0 -> matches o n.
Proof. intros E1 E2 E3 E4. destruct o; cbn; by rewrite ?E1, ?E2, ?E3, ?E4. Qed.

Lemma AddNode_full ty nm fn parent t : MaxNodes <= node_count_ t -> AddNode ty nm fn parent t = Some (-1, t).
Proof. intros. unfold AddNode. by destruct (Z.leb_spec MaxNodes (node_count_ t)); [|lia]. Qed.

Lemma build_op_built o t ops r t' : built t ops -> op_parent o < node_count_ t -> build_op o t = Some (r, t') ->
  built t' (if decide (node_count_ t < MaxNodes) then ops ++ [o] else ops).
Proof.
  intros Hb Hp Ho. pose proof (build_op_wf o t r t' (bu_wf _ _ Hb) Hp Ho) as Hwf. pose proof (bw_count _ (bu_wf _ _ Hb)) as Hc. destruct (decide _) as [Hlt|Hge].
  - destruct o; cbn in Ho, Hp; unfold AddAction, AddCondition, AddSequence, AddSelector, AddInverter, AddParallel, AddRepeat in Ho.
    5, 7: destruct (AddNode _ _ _ _ _) as [ [idx t1]|] eqn:Ha; [|done]; injection Ho as <- <-;
      destruct (AddNode_built _ _ _ _ _ _ _ _ Hb Hp Hlt Ha) as (-> & Hn & (H1 & H2 & H3) & Hold);
      destruct (Z.leb_spec 0 (node_count_ t)) as [H0|]; [|lia];
      (apply (built_snoc t); [done|done|done|done| |]; cbn [update_node nodes_];
        [rewrite aget_aset_eq by (rewrite (bw_len _ Hwf) || (destruct Hwf as [Hl _ _]; cbn in Hl; rewrite length_aset in Hl; lia)); done|
         intros i Hi; rewrite aget_aset_ne by lia; destruct (Hold i Hi) as (? & ? & ? & ? & ?); split; [intros o'; by apply matches_same|done] ]).
    all: destruct (AddNode_built _ _ _ _ _ _ _ _ Hb Hp Hlt Ho) as (_ & Hn & (H1 & H2 & H3) & Hold);
      (apply (built_snoc t); [done|done|done|done|done|]; intros i Hi; destruct (Hold i Hi) as (? & ? & ? & ? & ?); split; [intros o'; by apply matches_same|done]).
  - assert (t' = t) as ->; [|done].
    destruct o; cbn in Ho; unfold AddAction, AddCondition, AddSequence, AddSelector, AddInverter, AddParallel, AddRepeat in Ho; rewrite AddNode_full in Ho by lia; by simplify_eq.
Qed.

(** What does not fit is not there; everything else is as described. *)
Lemma build_built l t ops t' : built t ops -> (length ops <= Z.to_nat MaxNodes)%nat -> build l t = Some t' -> built t' (take (Z.to_nat MaxNodes) (ops ++ l)).
Proof.
  revert t ops. induction l as [|o l IH]; intros t ops Hb Hlen Hbu; cbn [build] in Hbu.
  - injection Hbu as <-. by rewrite app_nil_r, take_ge by lia.
  - destruct (Z.ltb_spec (op_parent o) (node_count_ t)); [|done]. destruct (build_op o t) as [ [r t1]|] eqn:Ho; [|done].
    pose proof (build_op_built o t ops r t1 Hb ltac:(done) Ho) as Hb1. pose proof (bu_count _ _ Hb) as Hc. destruct (decide _).
    + specialize (IH t1 (ops ++ [o]) Hb1). rewrite <- app_assoc in IH. apply IH; [rewrite length_app; cbn; lia|done].
    + specialize (IH t1 ops Hb1 Hlen Hbu). by rewrite take_app_length' in IH |- * by lia.
Qed.

(** *** Ticking follows the rules *)

Definition counters_ok (cs : list Z) : Prop := length cs = Z.to_nat MaxNodes /\ forall i, 0 <= i < MaxNodes -> 0 <= aget cs i < 2 ^ 32 - 1.
Lemma counters_set cs i v : counters_ok cs -> 0 <= i < MaxNodes -> 0 <= v < 2 ^ 32 - 1 -> counters_ok (aset cs i v).
Proof.
  intros [Hl Hc] Hi Hv. split; [by rewrite length_aset|]. intros j Hj.
  destruct (Z.eq_dec j i) as [->|]; [by rewrite aget_aset_eq by lia|rewrite aget_aset_ne by lia; by apply Hc].
Qed.

(** The tick of [c] follows the rules of [tr]. *)
Definition follows (tick : Z -> St -> Res (NodeStatus * St)) (c : Z) (tr : BTree) : Prop :=
  forall st, counters_ok st.1 -> exists s st', tick c st = Ok (s, st') /\ means tr st s st' /\ counters_ok st'.1.

Lemma sequence_loop_means tick cs trs st : Forall2 (follows tick) cs trs -> counters_ok st.1 ->
  exists s st', sequence_loop tick cs st = Ok (s, st') /\ means (TSequence trs) st s st' /\ counters_ok st'.1.
Proof.
  intros Hf. revert st. induction Hf as [|c tr cs trs Hc _ IH]; intros st Hok; cbn [sequence_loop]; [exists kSuccess, st; split; [done|split; [apply m_seq_end|done] ]|].
  destruct (Hc st Hok) as (s & st1 & -> & Hm & Hok1). cbn [rbind].
  destruct s; [|by eexists _, _; split; [done|]; split; [eapply m_seq_stop; eauto|]..|];
    (destruct (IH st1 Hok1) as (s' & st' & -> & Hm' & Hok'); eexists _, _; split; [done|]; split; [|done]; eapply m_seq_next; [exact Hm| |exact Hm']; unfold finished; auto).
Qed.
Lemma selector_loop_means tick cs trs st : Forall2 (follows tick) cs trs -> counters_ok st.1 ->
  exists s st', selector_loop tick cs st = Ok (s, st') /\ means (TSelector trs) st s st' /\ counters_ok st'.1.
Proof.
  intros Hf. revert st. induction Hf as [|c tr cs trs Hc _ IH]; intros st Hok; cbn [selector_loop]; [exists kFailure, st; split; [done|split; [apply m_sel_end|done] ]|].
  destruct (Hc st Hok) as (s & st1 & -> & Hm & Hok1). cbn [rbind].
  destruct s; [by eexists _, _; split; [done|]; split; [eapply m_sel_stop; eauto|]| |by eexists _, _; split; [done|]; split; [eapply m_sel_stop; eauto|]|];
    (destruct (IH st1 Hok1) as (s' & st' & -> & Hm' & Hok'); eexists _, _; split; [done|]; split; [|done]; eapply m_sel_next; [exact Hm| |exact Hm']; auto).
Qed.

Lemma how_many_cons s x l : how_many s (x :: l) = (if decide (x = s) then 1 else 0) + how_many s l.
Proof. unfold how_many. rewrite list.filter_cons. destruct (decide (x = s)); cbn [length]; lia. Qed.
Lemma how_many_le s l : 0 <= how_many s l <= Z.of_nat (length l).
Proof. unfold how_many. pose proof (length_filter (fun x => x = s) l). lia. Qed.

Lemma parallel_loop_means tick cs trs st a b : Forall2 (follows tick) cs trs -> counters_ok st.1 ->
  exists ss st', parallel_loop tick cs a b st = Ok (a + how_many kSuccess ss, b + how_many kFailure ss, st') /\ all_mean trs st ss st' /\
    length ss = length trs /\ counters_ok st'.1.
Proof.
  intros Hf. revert st a b. induction Hf as [|c tr cs trs Hc _ IH]; intros st a b Hok; cbn [parallel_loop].
  { exists [], st. split; [unfold how_many; cbn; by rewrite !Z.add_0_r|split; [apply a_nil|done] ]. }
  destruct (Hc st Hok) as (s & st1 & -> & Hm & Hok1). cbn [rbind].
  assert (E : exists ss st', parallel_loop tick cs (a + if decide (s = kSuccess) then 1 else 0) (b + if decide (s = kFailure) then 1 else 0) st1 =
    Ok (a + how_many kSuccess (s :: ss), b + how_many kFailure (s :: ss), st') /\ all_mean trs st1 ss st' /\ length ss = length trs /\ counters_ok st'.1).
  { destruct (IH st1 (a + if decide (s = kSuccess) then 1 else 0) (b + if decide (s = kFailure) then 1 else 0) Hok1) as (ss & st' & -> & ?).
    exists ss, st'. split; [|done]. rewrite !how_many_cons. do 3 f_equal; lia. }
  destruct E as (ss & st' & E & Ha & Hl & Hok'). exists (s :: ss), st'. split; [|split; [by econstructor|split; [cbn; lia|done] ] ].
  rewrite <- E. destruct s; cbn; by rewrite ?Z.add_0_r.
Qed.

Lemma parallel_status_means n l st ss st' : all_mean l st ss st' -> length ss = length l -> in_range 32 n -> Z.of_nat (length l) < 2 ^ 32 ->
  means (TParallel n l) st (parallel_status (Z.of_nat (length l)) n (how_many kSuccess ss) (how_many kFailure ss)) st'.
Proof.
  intros Ha Hl Hn Hc. unfold in_range in Hn. pose proof (how_many_le kSuccess ss). pose proof (how_many_le kFailure ss). unfold parallel_status.
  destruct (Z.leb_spec n (how_many kSuccess ss)); [by eapply m_par_success|]. destruct (Z.le_gt_cases n (Z.of_nat (length l))).
  - rewrite wrap_small by (unfold in_range; lia). destruct (Z.ltb_spec (Z.of_nat (length l) - n) (how_many kFailure ss)); [by eapply m_par_failure|by eapply m_par_running].
  - assert (E : u32 (Z.of_nat (length l) - n) = Z.of_nat (length l) - n + 2 ^ 32) by (unfold wrap; symmetry; apply (Z.mod_unique _ _ (-1)); lia).
    rewrite E. destruct (Z.ltb_spec (Z.of_nat (length l) - n + 2 ^ 32) (how_many kFailure ss)); [lia|]. by eapply m_par_stuck.
Qed.

Lemma repeat_status_means i n c st s cs x : means c st s (cs, x) -> counters_ok cs -> 0 <= i < MaxNodes -> in_range 32 n ->
  means (TRepeat i n c) st (repeat_status i n s (cs, x)).1 (repeat_status i n s (cs, x)).2 /\ counters_ok (repeat_status i n s (cs, x)).2.1.
Proof.
  intros Hm Hok Hi Hn. unfold in_range in Hn. destruct (proj2 Hok i Hi) as [Hc0 Hc1]. unfold repeat_status.
  assert (Hgo : finished s -> s <> kFailure -> s <> kRunning ->
    let r := if n =? 0 then (kRunning, (cs, x)) else let counters := aset cs i (u32 (aget cs i + 1)) in
      if n <=? aget counters i then (kSuccess, (aset counters i 0, x)) else (kRunning, (counters, x)) in
    means (TRepeat i n c) st r.1 r.2 /\ counters_ok r.2.1).
  { intros Hs _ _. cbv zeta. destruct (Z.eqb_spec n 0) as [->|Hn0]; [by split; [eapply m_rep_forever|]|].
    rewrite aget_aset_eq by (rewrite (proj1 Hok); lia). rewrite wrap_small by (unfold in_range; lia).
    destruct (Z.leb_spec n (aget cs i + 1)); cbn [fst snd].
    - rewrite aset_aset. split; [by eapply m_rep_done|by apply counters_set; [|done|lia]].
    - split; [by eapply m_rep_again|by apply counters_set; [|done|lia]]. }
  destruct s; cbn [fst snd].
  - apply Hgo; [by left|done..].
  - split; [by apply m_rep_failure|by apply counters_set; [|done|lia]].
  - split; [by apply m_rep_running|done].
  - apply Hgo; [by right|done..].
Qed.

(** Every child has a tree it follows, so the list of children does. *)
Lemma children_trees depth t ops cs :
  Forall (fun c => exists tr, tree_at depth ops c = Some tr /\ follows (TickNode depth t) c tr) cs ->
  exists trs, mapM (tree_at depth ops) cs = Some trs /\ Forall2 (follows (TickNode depth t)) cs trs.
Proof.
  induction 1 as [|c cs (tr & Ht & Hc) _ (trs & Hm & Hf)]; [by exists []|].
  exists (tr :: trs). split; [|by constructor]. simpl. by rewrite Ht, Hm.
Qed.

Lemma TickNode_follows depth t ops idx : built t ops -> shaped ops -> 0 <= idx < node_count_ t -> node_count_ t - idx <= Z.of_nat depth ->
  exists tr, tree_at depth ops idx = Some tr /\ follows (TickNode depth t) idx tr.
Proof.
  intros Hb Hsh. revert idx. induction depth as [|depth IH]; intros idx Hi Hf; [lia|].
  destruct (bw_nodes _ (bu_wf _ _ Hb) idx Hi) as [Hl Hc Hd]. pose proof (bu_count _ _ Hb) as Hn. pose proof (bw_count _ (bu_wf _ _ Hb)) as Hmx.
  destruct (lookup_lt_is_Some_2 ops (Z.to_nat idx)) as [o Ho]; [lia|]. pose proof (Hsh _ _ Ho) as Hs.
  destruct (bu_node _ _ Hb _ _ Ho) as [Hm Hk]. rewrite Z2Nat.id in Hm, Hk, Hs by lia.
  assert (Hin : (0 <=? idx) && (idx <? node_count_ t) = true) by (apply andb_true_iff; split; [apply Z.leb_le|apply Z.ltb_lt]; lia).
  assert (Hkids : Forall (fun c => exists tr, tree_at depth ops c = Some tr /\ follows (TickNode depth t) c tr) (kids ops idx)).
  { rewrite <- Hk. rewrite Forall_forall in *. intros c Hin'. specialize (Hd c Hin'). apply IH; lia. }
  destruct (children_trees _ _ _ _ Hkids) as (trs & HM & Hf2).
  unfold follows. cbn [tree_at TickNode]. rewrite Hin, Ho, Hk. set (n := aget (nodes_ t) idx) in *.
  assert (Hlen : Z.of_nat (length (kids ops idx)) = child_count n) by (rewrite <- Hk; unfold child_list; rewrite length_fmap, length_seqZ; lia).
  assert (Hone : length (kids ops idx) = 1%nat -> child_count n =? 1 = true /\ kids ops idx = [aget (children n) 0]).
  { intros E. rewrite E in Hlen. rewrite <- Hlen. split; [done|]. rewrite <- Hk. unfold child_list. by rewrite <- Hlen. }
  destruct o; cbn in Hm, Hs.
  - destruct Hm as [-> Hfn], Hs as [f ->]. rewrite Hfn. eexists. split; [done|]. intros [cs x] Hok. cbn. destruct (f x) as [s x'] eqn:E. eexists _, _. split; [done|]. split; [by apply m_leaf|done].
  - destruct Hm as [-> Hfn], Hs as [f ->]. rewrite Hfn. eexists. split; [done|]. intros [cs x] Hok. cbn. destruct (f x) as [s x'] eqn:E. eexists _, _. split; [done|]. split; [by apply m_leaf|done].
  - rewrite Hm, HM. eexists. split; [done|]. intros st Hok. by apply sequence_loop_means.
  - rewrite Hm, HM. eexists. split; [done|]. intros st Hok. by apply selector_loop_means.
  - destruct Hm as [-> ->]. rewrite HM. eexists. split; [done|]. intros st Hok.
    destruct (parallel_loop_means _ _ _ st 0 0 Hf2 Hok) as (ss & st' & -> & Ha & Hls & Hok'). cbn [rbind]. eexists _, _. split; [done|]. split; [|done].
    rewrite !Z.add_0_l, <- Hlen, (Forall2_length Hf2). apply parallel_status_means; [done|done|done|]. rewrite <- (Forall2_length Hf2). lia.
  - rewrite Hm. destruct (Hone Hs) as [-> Ek]. rewrite Ek in *. inversion_clear Hkids as [|? ? (tr & Ht & Hc1) _]. rewrite Ht. eexists. split; [done|].
    intros st Hok. destruct (Hc1 st Hok) as (s & st' & -> & Hms & Hok'). cbn [rbind]. eexists _, _. split; [done|]. split; [|done].
    destruct s; cbn; [by apply m_inv_success|by apply m_inv_failure|eapply m_inv_other; [done|auto]..].
  - destruct Hm as [-> ->], Hs as [Hs Hr]. destruct (Hone Hs) as [-> Ek]. rewrite Ek in *. inversion_clear Hkids as [|? ? (tr & Ht & Hc1) _]. rewrite Ht. eexists. split; [done|].
    intros st Hok. destruct (Hc1 st Hok) as (s & [cs y] & -> & Hms & Hok'). cbn [rbind].
    destruct (repeat_status_means idx count tr st s cs y Hms Hok' ltac:(lia) Hr) as [H1 H2].
    destruct (repeat_status idx count s (cs, y)) as [s' st']. by eexists _, _.
Qed.

Scheme means_mut := Minimality for means Sort Prop
  with all_mean_mut := Minimality for all_mean Sort Prop.

Lemma all_mean_length l st ss st' : all_mean l st ss st' -> length ss = length l.
Proof. revert st ss. induction l as [|c l IH]; intros st ss H; inversion H; subst; cbn; [done|]. f_equal. by eapply IH. Qed.
Ltac note_lengths := repeat match goal with
  | H : all_mean _ _ ?ss _ |- _ => lazymatch goal with L : length ss = _ |- _ => fail | _ => pose proof (all_mean_length _ _ _ _ H) end end.
Ltac par_clash := exfalso; match goal with H : length ?ss = length ?l |- _ => pose proof (how_many_le kSuccess ss); lia end.

(** The rules leave no choice. *)
Lemma means_det tr st s1 st1 s2 st2 : means tr st s1 st1 -> means tr st s2 st2 -> s1 = s2 /\ st1 = st2.
Proof.
  intros H. revert s2 st2. pattern tr, st, s1, st1. revert tr st s1 st1 H.
  apply (means_mut _ (fun l st ss st1 => forall ss2 st2, all_mean l st ss2 st2 -> ss = ss2 /\ st1 = st2)); intros;
    match goal with H : all_mean ?l _ _ _ |- _ :: _ = _ /\ _ => inversion H | H : all_mean [] _ _ _ |- _ => inversion H | H : means _ _ ?s _ |- _ = ?s /\ _ => inversion H end;
    subst; try done; unfold finished in *; note_lengths;
    repeat match goal with
    | IH : forall _ _, means ?c ?st _ _ -> _, H : means ?c ?st _ _ |- _ => destruct (IH _ _ H); clear H; simplify_eq/=
    | IH : forall _ _, all_mean ?c ?st _ _ -> _, H : all_mean ?c ?st _ _ |- _ => destruct (IH _ _ H); clear H; simplify_eq/=
    end; try (naive_solver lia).
  - split; congruence.
  - par_clash.
  - par_clash.
Qed.

(** Any number of ticks. *)
Fixpoint tick_many (fuel k : nat) (t : BehaviorTree) (ctx : Ctx) : Res (list NodeStatus * (BehaviorTree * Ctx)) :=
  match k with
  | O => Ok ([], (t, ctx))
  | S k => rbind (Tick fuel t ctx) (fun '(s, (t, ctx)) => rbind (tick_many fuel k t ctx) (fun '(ss, r) => Ok (s :: ss, r)))
  end.

Definition after_tick (root : Z) (s : NodeStatus) (cs : list Z) (t : BehaviorTree) : BehaviorTree := mkBt (nodes_ t) (node_count_ t) root s cs.

Lemma after_tick_built root s cs t ops : built t ops -> built (after_tick root s cs t) ops.
Proof. by intros [ [? ? ?] ? ? ?]. Qed.

Lemma build_counters l t t' : build l t = Some t' -> repeat_counters_ t' = repeat_counters_ t.
Proof.
  assert (HA : forall ty nm fn p t r t', AddNode ty nm fn p t = Some (r, t') -> repeat_counters_ t' = repeat_counters_ t).
  { intros ty nm fn p u r u'. unfold AddNode. destruct (_ <=? _); [by intros [= <- <-]|]. destruct (_ <? _); [done|].
    destruct (_ && _); [|by intros [= <- <-]]. destruct (add_child _ _); [by intros [= <- <-]|done]. }
  revert t. induction l as [|o l IH]; intros t; cbn [build]; [by intros [= ->]|]. destruct (_ <? _); [|done].
  destruct (build_op o t) as [ [r t1]|] eqn:Ho; [|done]. intros Hb. rewrite (IH _ Hb).
  destruct o; cbn in Ho; unfold AddParallel, AddRepeat in Ho; try by eapply HA.
  all: destruct (AddNode _ _ _ _ t) as [ [i u]|] eqn:Ha; [|done]; injection Ho as <- <-; rewrite <- (HA _ _ _ _ _ _ _ Ha); by destruct (0 <=? i).
Qed.

Lemma tick_many_follows fuel k t ops root tr cs ctx last : built t ops -> shaped ops -> 0 <= root < node_count_ t -> node_count_ t <= Z.of_nat fuel ->
  tree_at fuel ops root = Some tr -> counters_ok cs ->
  exists ss last' cs' ctx', tick_many fuel k (after_tick root last cs t) ctx = Ok (ss, (after_tick root last' cs' t, ctx')) /\ length ss = k /\
    ticks tr (cs, ctx) ss (cs', ctx').
Proof.
  intros Hb Hsh Hr Hf Ht. revert cs ctx last. induction k as [|k IH]; intros cs ctx last Hok; cbn [tick_many].
  { exists [], last, cs, ctx. repeat split. apply t_nil. }
  destruct (TickNode_follows fuel (after_tick root last cs t) ops root (after_tick_built _ _ _ _ _ Hb) Hsh Hr ltac:(cbn; lia)) as (tr' & Ht' & Hfo).
  rewrite Ht in Ht'. injection Ht' as <-. destruct (Hfo (cs, ctx) Hok) as (s & [cs1 x1] & E & Hm & Hok1).
  unfold Tick. cbn [root_index_ after_tick repeat_counters_]. destruct (Z.ltb_spec root 0); [lia|]. fold (after_tick root last cs t). rewrite E. cbn [rbind].
  destruct (IH cs1 x1 s Hok1) as (ss & last' & cs' & ctx' & E2 & Hl & Htk). cbn [nodes_ node_count_ after_tick]. fold (after_tick root s cs1 t). rewrite E2. cbn [rbind].
  exists (s :: ss), last', cs', ctx'. split; [done|]. split; [cbn; lia|]. by eapply t_cons.
Qed.

(** C29. Ticking the flat array follows the rules of the behavior tree that was
    described.  Whatever is built through the Add operations with parents among the
    indices handed out, the operations that fit describe a tree; if leaves have
    callbacks and decorators one child, any number of ticks of the array terminate
    within as many nested calls as there are nodes and fail no assertion, and the
    statuses, the counters of the repeat nodes and the context are those that the rules
    for sequences, selectors, parallels, inverters and repeats give ([means], which is
    deterministic: [means_det]). *)
Theorem bt_tick_refines_tree l t0 root t fuel k ctx :
  let ops := take (Z.to_nat MaxNodes) l in
  build l BehaviorTree_ctor = Some t0 -> SetRoot root t0 = Some t -> shaped ops -> (length ops <= fuel)%nat ->
  exists tr ss last cs ctx', tree_at fuel ops root = Some tr /\
    tick_many fuel k t ctx = Ok (ss, (after_tick root last cs t, ctx')) /\ length ss = k /\
    ticks tr (replicate (Z.to_nat MaxNodes) 0, ctx) ss (cs, ctx').
Proof.
  intros ops Hb Hset Hsh Hf. pose proof (build_built l _ [] t0 built_start ltac:(cbn; lia) Hb) as Hbt. cbn [app] in Hbt. fold ops in Hbt.
  pose proof (bu_count _ _ Hbt) as Hn. unfold SetRoot in Hset. destruct (_ && _) eqn:Hr; [|done]. injection Hset as <-. bool_prop.
  destruct (TickNode_follows fuel t0 ops root Hbt Hsh ltac:(lia) ltac:(lia)) as (tr & Ht & _).
  assert (Hok : counters_ok (replicate (Z.to_nat MaxNodes) 0)).
  { split; [apply length_replicate|]. intros i Hi. rewrite aget_replicate; lia. }
  destruct (tick_many_follows fuel k t0 ops root tr _ ctx (last_status_ t0) Hbt Hsh ltac:(lia) ltac:(lia) Ht Hok) as (ss & last & cs & ctx' & E & Hl & Htk).
  exists tr, ss, last, cs, ctx'. split; [done|]. split; [|done].
  pose proof (build_counters _ _ _ Hb) as Hcn. cbn in Hcn. rewrite Hcn. exact E.
Qed.

End Proofs.

End Bt.

(** ** Concrete trees *)

(** A selector over a failing condition and a sequence of two counting actions and a
    repeated third. *)
Definition demo_count : TickFn (Ctx := Z) := fun n => (kSuccess, n + 1).
Definition demo_fail : TickFn (Ctx := Z) := fun n => (kFailure, n).
Definition demo_build : list (BuildOp (Ctx := Z)) :=
  [BSelector "root" (-1); BCondition "ready" (Some demo_fail) 0; BSequence "work" 0;
   BAction "a" (Some demo_count) 2; BAction "b" (Some demo_count) 2; BRepeat "twice" 2 2; BAction "c" (Some demo_count) 5].

Definition demo_t0 : BehaviorTree (Ctx := Z) :=
  match build 8 8 demo_build (BehaviorTree_ctor 8) with Some t => t | None => BehaviorTree_ctor 8 end.
Definition demo_t : BehaviorTree (Ctx := Z) := mkBt (nodes_ demo_t0) 7 0 kIdle (repeat_counters_ demo_t0).

(** Three ticks: the third succeeds, because the repeat node has had its two successes. *)
Lemma bt_tick_refines_tree_witness :
  (exists tr ss last cs ctx', tree_at 7 (take 8 demo_build) 0 = Some tr /\
    tick_many 7 3 demo_t 0 = Ok (ss, (after_tick 0 last cs demo_t, ctx')) /\ length ss = 3%nat /\
    ticks tr (replicate 8 0, 0) ss (cs, ctx')) /\
  match tick_many 7 3 demo_t 0 with Ok (ss, (_, n)) => ss = [kRunning; kSuccess; kRunning] /\ n = 9 | _ => False end.
Proof.
  split; [|vm_compute; done].
  apply (bt_tick_refines_tree 8 8 ltac:(lia) ltac:(lia) demo_build demo_t0 0 demo_t 7 3 0).
  - vm_compute. reflexivity.
  - vm_compute. reflexivity.
  - intros i o Hi. do 7 (destruct i as [|i]; [vm_compute in Hi; injection Hi as <-; vm_compute; try done; eauto|]). vm_compute in Hi. by destruct i.
  - vm_compute. lia.
Defined.

(** AddNode registers a node as a child of itself when the parent passed is the
    index about to be handed out (its range check runs after the count was
    incremented); the tick of such a node never returns, whatever the depth. *)
Definition self_parent : BehaviorTree (Ctx := Z) :=
  mkBt [mkBtNode kSequence "loop" None 0 [0; -1] 1 0 0; inhabitant] 1 0 kIdle [0; 0].

Lemma self_parent_tick fuel st : TickNode fuel self_parent 0 st = OutOfFuel.
Proof.
  induction fuel as [|fuel IH]; [done|].
  change (rbind (TickNode fuel self_parent 0 st) (fun '(s, st) =>
    match s with kFailure => Ok (kFailure, st) | kRunning => Ok (kRunning, st)
    | _ => sequence_loop (TickNode fuel self_parent) [] st end) = OutOfFuel).
  by rewrite IH.
Qed.

Lemma bt_self_parent_diverges (fuel : nat) (ctx : Z) :
  (exists t0, AddSequence 2 2 "loop" 0 (BehaviorTree_ctor 2) = Some (0, t0) /\ SetRoot 0 t0 = Some self_parent) /\
  Tick fuel self_parent ctx = OutOfFuel.
Proof.
  split; [eexists; split; reflexivity|]. unfold Tick. cbn [root_index_ self_parent].
  change (0 <? 0) with false. cbv iota. change (repeat_counters_ _) with [0; 0]. by rewrite self_parent_tick.
Qed.

(** A threshold above the number of children can never be met, but the allowed
    number of failures wraps around, so the node reports running for ever. *)
Lemma bt_parallel_threshold_wraps count threshold successes failures :
  0 <= successes <= count -> 0 <= failures <= count -> count < threshold -> threshold < 2 ^ 31 ->
  parallel_status count threshold successes failures = kRunning.
Proof.
  intros Hs Hf Hc Ht. unfold parallel_status. destruct (Z.leb_spec threshold successes); [lia|].
  assert (u32 (count - threshold) = count - threshold + 2 ^ 32) as ->.
  { unfold wrap. symmetry. apply (Z.mod_unique _ _ (-1)); lia. }
  destruct (Z.ltb_spec (count - threshold + 2 ^ 32) failures); [lia|done].
Qed.
