(* ===== verification/Serial.v ===== *)
(** * SerialTransport (include/osp/serial_transport.hpp)

    Framing over a serial line: the table-driven CRC, the frame builder, the
    byte-wise receive state machine with its statistics and health monitoring,
    the rate limiter and the write loop.  Clock readings and the results of
    read and write are inputs.  Accesses to the receive buffer are checked: an
    access out of range is the value [None]. *)

From Stdlib Require Import ZArith Lia Bool.
From stdpp Require Import base numbers list option.
From S2P Require Import Prelude.

Open Scope Z_scope.

(** ** CRC-CCITT *)

Definition kTable : list Z :=
  [0; 4129; 8258; 12387; 16516; 20645; 24774; 28903; 33032; 37161; 41290; 45419; 49548; 53677; 57806; 61935;
   4657; 528; 12915; 8786; 21173; 17044; 29431; 25302; 37689; 33560; 45947; 41818; 54205; 50076; 62463; 58334;
   9314; 13379; 1056; 5121; 25830; 29895; 17572; 21637; 42346; 46411; 34088; 38153; 58862; 62927; 50604; 54669;
   13907; 9842; 5649; 1584; 30423; 26358; 22165; 18100; 46939; 42874; 38681; 34616; 63455; 59390; 55197; 51132;
   18628; 22757; 26758; 30887; 2112; 6241; 10242; 14371; 51660; 55789; 59790; 63919; 35144; 39273; 43274; 47403;
   23285; 19156; 31415; 27286; 6769; 2640; 14899; 10770; 56317; 52188; 64447; 60318; 39801; 35672; 47931; 43802;
   27814; 31879; 19684; 23749; 11298; 15363; 3168; 7233; 60846; 64911; 52716; 56781; 44330; 48395; 36200; 40265;
   32407; 28342; 24277; 20212; 15891; 11826; 7761; 3696; 65439; 61374; 57309; 53244; 48923; 44858; 40793; 36728;
   37256; 33193; 45514; 41451; 53516; 49453; 61774; 57711; 4224; 161; 12482; 8419; 20484; 16421; 28742; 24679;
   33721; 37784; 41979; 46042; 49981; 54044; 58239; 62302; 689; 4752; 8947; 13010; 16949; 21012; 25207; 29270;
   46570; 42443; 38312; 34185; 62830; 58703; 54572; 50445; 13538; 9411; 5280; 1153; 29798; 25671; 21540; 17413;
   42971; 47098; 34713; 38840; 59231; 63358; 50973; 55100; 9939; 14066; 1681; 5808; 26199; 30326; 17941; 22068;
   55628; 51565; 63758; 59695; 39368; 35305; 47498; 43435; 22596; 18533; 30726; 26663; 6336; 2273; 14466; 10403;
   52093; 56156; 60223; 64286; 35833; 39896; 43963; 48026; 19061; 23124; 27191; 31254; 2801; 6864; 10931; 14994;
   64814; 60687; 56684; 52557; 48554; 44427; 40424; 36297; 31782; 27655; 23652; 19525; 15522; 11395; 7392; 3265;
   61215; 65342; 53085; 57212; 44955; 49082; 36825; 40952; 28183; 32310; 20053; 24180; 11923; 16050; 3793; 7920].

Definition crc_step (crc byte : Z) : Z :=
  let index := u8 (Z.lxor (Z.shiftr crc 8) byte) in
  u16 (Z.lxor (Z.shiftl crc 8) (aget kTable index)).

Definition Calculate (data : list Z) : Z := foldl crc_step 65535 data.

(** ** Frame constants *)

Definition kSerialMagic : Z := 20307.
Definition kSerialAckMagic : Z := 20289.
Definition kSerialTailByte : Z := 13.
Definition kSerialSyncByte1 : Z := 170.
Definition kSerialSyncByte2 : Z := 85.
Definition kSerialHeaderSize : Z := 10.
Definition kSerialCrcSize : Z := 2.
Definition kSerialMinFrameSize : Z := 13.
Definition kSerialAckFrameSize : Z := 8.

Definition WriteLE16 (v : Z) : list Z := [Z.land v 255; Z.land (Z.shiftr v 8) 255].
Definition ReadLE16 (buf : list Z) (off : Z) : Z := u16 (Z.lor (aget buf off) (Z.shiftl (aget buf (off + 1)) 8)).

Inductive SerialError :=
| kOpenFailed | kConfigFailed | kSendFailed | kRecvFailed | kCrcError | kTimeout | kFrameOversize | kPortNotOpen
| kAckTimeout | kRateLimitExceeded | kHealthCheckFailed.
Inductive SerialPortHealth := hHealthy | hDegraded | hFailed.

Record SerialConfig := mkSerialConfig {
  inter_byte_timeout_ms : Z;
  frame_max_size : Z;
  enable_ack : bool;
  enable_seq_check : bool;
  watchdog_timeout_ms : Z;
  degraded_error_threshold : Z;
  failed_error_threshold : Z;
  max_frames_per_second : Z;
  write_retry_count : Z
}.

(** The statistics counters, by name. *)
Inductive StatField :=
| frames_sent | frames_received | bytes_sent | bytes_received | crc_errors | sync_errors | timeout_errors
| oversize_errors | seq_gaps | retransmits | ack_timeouts | rate_limit_drops | write_retries.

#[export] Instance StatField_eq_dec : EqDecision StatField.
Proof. solve_decision. Defined.

Definition SerialStatistics : Type := StatField -> Z.
Definition bump (f : StatField) (n : Z) (st : SerialStatistics) : SerialStatistics :=
  fun x => if decide (x = f) then u64 (st x + n) else st x.

Inductive RxState := rxIdle | rxWaitSync2 | rxWaitHeader | rxWaitPayload | rxWaitCrc.

Record Rx := mkRx {
  rx_state_ : RxState;
  rx_pos_ : Z;
  rx_msg_len_ : Z;
  rx_payload_size_ : Z;
  rx_buf_ : list Z
}.

Record Health := mkHealth {
  last_byte_time_ms_ : Z;
  last_tx_time_ms_ : Z;
  last_rx_time_ms_ : Z;
  frame_count_window_start_ms_ : Z;
  frames_sent_in_window_ : Z;
  error_count_in_window_ : Z
}.

(** A call of the receive callback: payload, type index, sequence number. *)
Definition Delivery : Type := list Z * Z * Z.

Record SerialTransport := mkSerial {
  port_open : bool;
  tx_seq_ : Z;
  rx_expected_seq_ : Z;
  rx : Rx;
  health : Health;
  serial_stats : SerialStatistics;
  (* the callback calls made and the bytes written to the port *)
  deliveries : list Delivery;
  wire : list Z
}.

Section Serial.
(** [kMaxFrame] is OSP_SERIAL_MAX_FRAME_SIZE, the size of both buffers. *)
Context (cfg : SerialConfig) (kMaxFrame : Z) (has_callback : bool).

Definition SerialTransport_ctor : SerialTransport :=
  mkSerial false 0 0 (mkRx rxIdle 0 0 0 (replicate (Z.to_nat kMaxFrame) 0)) (mkHealth 0 0 0 0 0 0) (fun _ => 0) [] [].

(** Field updates. *)
Definition set_rx (r : Rx) (s : SerialTransport) : SerialTransport :=
  mkSerial (port_open s) (tx_seq_ s) (rx_expected_seq_ s) r (health s) (serial_stats s) (deliveries s) (wire s).
Definition set_health (h : Health) (s : SerialTransport) : SerialTransport :=
  mkSerial (port_open s) (tx_seq_ s) (rx_expected_seq_ s) (rx s) h (serial_stats s) (deliveries s) (wire s).
Definition count (f : StatField) (n : Z) (s : SerialTransport) : SerialTransport :=
  mkSerial (port_open s) (tx_seq_ s) (rx_expected_seq_ s) (rx s) (health s) (bump f n (serial_stats s)) (deliveries s) (wire s).
Definition set_state (st : RxState) (s : SerialTransport) : SerialTransport :=
  let r := rx s in set_rx (mkRx st (rx_pos_ r) (rx_msg_len_ r) (rx_payload_size_ r) (rx_buf_ r)) s.

(** Opening succeeds at time [now]; the descriptor is the operating system's. *)
Definition Open_ok (now : Z) (s : SerialTransport) : SerialTransport :=
  if port_open s then s
  else mkSerial true (tx_seq_ s) (rx_expected_seq_ s) (rx s)
         (mkHealth (last_byte_time_ms_ (health s)) now now now
            (frames_sent_in_window_ (health s)) (error_count_in_window_ (health s)))
         (serial_stats s) (deliveries s) (wire s).

Definition ResetRxState (s : SerialTransport) : SerialTransport :=
  let r := rx s in set_rx (mkRx rxIdle 0 (rx_msg_len_ r) (rx_payload_size_ r) (rx_buf_ r)) s.

Definition Close (s : SerialTransport) : SerialTransport :=
  ResetRxState (mkSerial false (tx_seq_ s) (rx_expected_seq_ s) (rx s) (health s) (serial_stats s) (deliveries s) (wire s)).

(** [now] is the clock reading in milliseconds. *)
Definition IncrementErrorCount (now : Z) (s : SerialTransport) : SerialTransport :=
  let h := health s in
  let h := mkHealth (last_byte_time_ms_ h) (last_tx_time_ms_ h) (last_rx_time_ms_ h) (frame_count_window_start_ms_ h)
             (frames_sent_in_window_ h) (u32 (error_count_in_window_ h + 1)) in
  set_health
    (if 10000 <=? u64 (now - frame_count_window_start_ms_ h)
     then mkHealth (last_byte_time_ms_ h) (last_tx_time_ms_ h) (last_rx_time_ms_ h) now (frames_sent_in_window_ h) 1
     else h) s.

(** Counting an error and starting over. *)
Definition rx_error (now : Z) (f : StatField) (s : SerialTransport) : SerialTransport :=
  ResetRxState (IncrementErrorCount now (count f 1 s)).

(** [rx_buf_[rx_pos_] = byte; ++rx_pos_]; [None] is out of range. *)
Definition store_byte (byte : Z) (s : SerialTransport) : option SerialTransport :=
  let r := rx s in
  if (0 <=? rx_pos_ r) && (rx_pos_ r <? kMaxFrame)
  then Some (set_rx (mkRx (rx_state_ r) (u32 (rx_pos_ r + 1)) (rx_msg_len_ r) (rx_payload_size_ r)
                       (aset (rx_buf_ r) (rx_pos_ r) byte)) s)
  else None.

(** [rx_buf_[0] = byte; rx_pos_ = 1; rx_state_ = kWaitSync2] *)
Definition start_sync (byte : Z) (s : SerialTransport) : SerialTransport :=
  let r := rx s in set_rx (mkRx rxWaitSync2 1 (rx_msg_len_ r) (rx_payload_size_ r) (aset (rx_buf_ r) 0 byte)) s.

(** The acknowledgement frame; its write is best effort. *)
Definition ack_frame (seq : Z) : list Z :=
  let body := [kSerialSyncByte1; kSerialSyncByte2] ++ WriteLE16 kSerialAckMagic ++ WriteLE16 seq in
  body ++ WriteLE16 (Calculate body).
Definition SendAck (seq : Z) (s : SerialTransport) : SerialTransport :=
  if port_open s
  then mkSerial (port_open s) (tx_seq_ s) (rx_expected_seq_ s) (rx s) (health s) (serial_stats s) (deliveries s)
         (wire s ++ ack_frame seq)
  else s.

Definition HandleAckFrame (now : Z) (s : SerialTransport) : SerialTransport :=
  let buf := rx_buf_ (rx s) in
  if Calculate (take 6 buf) =? ReadLE16 buf 6 then s else IncrementErrorCount now (count crc_errors 1 s).

(** The gap counted when [seq] is not the expected number. *)
Definition seq_gap (seq expected : Z) : Z :=
  if expected <? seq then u16 (seq - expected) else u16 (65536 - expected + seq).

Definition ValidateAndDeliver (now : Z) (s : SerialTransport) : option (bool * SerialTransport) :=
  let r := rx s in
  let len := rx_msg_len_ r in
  if kMaxFrame <=? len then None
  else if negb (aget (rx_buf_ r) len =? kSerialTailByte) then Some (false, rx_error now sync_errors s)
  else
    let crc_len := u32 (len - kSerialCrcSize) in
    if negb (Calculate (take (Z.to_nat crc_len) (rx_buf_ r)) =? ReadLE16 (rx_buf_ r) crc_len)
    then Some (false, rx_error now crc_errors s)
    else
      let seq := ReadLE16 (rx_buf_ r) 6 in
      let type_index := ReadLE16 (rx_buf_ r) 8 in
      let payload := slice (rx_buf_ r) kSerialHeaderSize (rx_payload_size_ r) in
      let s :=
        if enable_seq_check cfg && (0 <? serial_stats s frames_received) && negb (seq =? rx_expected_seq_ s)
        then count seq_gaps (seq_gap seq (rx_expected_seq_ s)) s else s in
      let s := mkSerial (port_open s) (tx_seq_ s) (u16 (seq + 1)) (rx s) (health s)
                 (bump frames_received 1 (serial_stats s)) (deliveries s) (wire s) in
      let s := if enable_ack cfg then SendAck seq s else s in
      let s := if has_callback
               then mkSerial (port_open s) (tx_seq_ s) (rx_expected_seq_ s) (rx s) (health s) (serial_stats s)
                      (deliveries s ++ [(payload, type_index, seq)]) (wire s)
               else s in
      Some (true, ResetRxState s).

(** The header is complete: check it and say what follows. *)
Definition header_complete (now : Z) (s : SerialTransport) : SerialTransport :=
  let r := rx s in
  let magic := ReadLE16 (rx_buf_ r) 2 in
  if negb (magic =? kSerialMagic) then rx_error now sync_errors s
  else
    let msg_len := ReadLE16 (rx_buf_ r) 4 in
    let s := set_rx (mkRx (rx_state_ r) (rx_pos_ r) msg_len (rx_payload_size_ r) (rx_buf_ r)) s in
    if (frame_max_size cfg <? msg_len + 1) || (msg_len <? kSerialHeaderSize + kSerialCrcSize)
    then rx_error now oversize_errors s
    else
      let size := u16 (msg_len - kSerialHeaderSize - kSerialCrcSize) in
      set_rx (mkRx (if 0 <? size then rxWaitPayload else rxWaitCrc) (rx_pos_ r) msg_len size (rx_buf_ r)) s.

Definition FeedByte (now byte : Z) (s : SerialTransport) : option (bool * SerialTransport) :=
  match rx_state_ (rx s) with
  | rxIdle =>
    if byte =? kSerialSyncByte1 then Some (false, start_sync byte s)
    else Some (false, IncrementErrorCount now (count sync_errors 1 s))
  | rxWaitSync2 =>
    if byte =? kSerialSyncByte2
    then match store_byte byte s with Some s => Some (false, set_state rxWaitHeader s) | None => None end
    else
      let s := rx_error now sync_errors s in
      Some (false, if byte =? kSerialSyncByte1 then start_sync byte s else s)
  | rxWaitHeader =>
    match store_byte byte s with
    | None => None
    | Some s =>
      if (kSerialAckFrameSize <=? rx_pos_ (rx s)) && (ReadLE16 (rx_buf_ (rx s)) 2 =? kSerialAckMagic)
      then Some (false, ResetRxState (HandleAckFrame now s))
      else if kSerialHeaderSize <=? rx_pos_ (rx s) then Some (false, header_complete now s) else Some (false, s)
    end
  | rxWaitPayload =>
    match store_byte byte s with
    | None => None
    | Some s =>
      Some (false, if rx_payload_size_ (rx s) <=? u32 (rx_pos_ (rx s) - kSerialHeaderSize) then set_state rxWaitCrc s else s)
    end
  | rxWaitCrc =>
    match store_byte byte s with
    | None => None
    | Some s => if rx_msg_len_ (rx s) + 1 <=? rx_pos_ (rx s) then ValidateAndDeliver now s else Some (false, s)
    end
  end.

(** ** Receiving *)

Definition touch_byte (now : Z) (h : Health) : Health :=
  mkHealth now (last_tx_time_ms_ h) (last_rx_time_ms_ h) (frame_count_window_start_ms_ h) (frames_sent_in_window_ h)
    (error_count_in_window_ h).
Definition touch_rx (now : Z) (h : Health) : Health :=
  mkHealth (last_byte_time_ms_ h) (last_tx_time_ms_ h) now (frame_count_window_start_ms_ h) (frames_sent_in_window_ h)
    (error_count_in_window_ h).
Definition is_idle (st : RxState) : bool := match st with rxIdle => true | _ => false end.

(** One received byte: the timeout check, then the state machine.  [now] is the
    reading of the loop, [t1] and [t2] those of the error counters. *)
Definition process_byte (now t1 t2 byte : Z) (s : SerialTransport) : option (bool * SerialTransport) :=
  let h := health s in
  let s :=
    if negb (is_idle (rx_state_ (rx s))) && negb (last_byte_time_ms_ h =? 0) &&
       (inter_byte_timeout_ms cfg <? u64 (now - last_byte_time_ms_ h))
    then rx_error t1 timeout_errors s else s in
  let s := set_health (touch_byte now (health s)) s in
  match FeedByte t2 byte s with
  | Some (true, s) => Some (true, set_health (touch_rx now (health s)) s)
  | r => r
  end.

(** The bytes of one read, with the readings of the error counters. *)
Fixpoint process_chunk (now : Z) (bytes : list (Z * Z * Z)) (frames : Z) (s : SerialTransport) : option (Z * SerialTransport) :=
  match bytes with
  | [] => Some (frames, s)
  | (t1, t2, byte) :: bytes' =>
    match process_byte now t1 t2 byte s with
    | Some (done, s) => process_chunk now bytes' (if done then u32 (frames + 1) else frames) s
    | None => None
    end
  end.

(** The loop over reads, each with its time; [counted] says whether the bytes
    are counted here (Poll) or were counted when read (ParseFromRing). *)
Fixpoint receive_loop (counted : bool) (reads : list (Z * list (Z * Z * Z))) (frames : Z) (s : SerialTransport)
    : option (Z * SerialTransport) :=
  match reads with
  | [] => Some (frames, s)
  | (now, bytes) :: reads' =>
    let s := if counted then count bytes_received (Z.of_nat (length bytes)) s else s in
    match process_chunk now bytes frames s with
    | Some (frames, s) => receive_loop counted reads' frames s
    | None => None
    end
  end.

Definition Poll (reads : list (Z * list (Z * Z * Z))) (s : SerialTransport) : option (Z * SerialTransport) :=
  if port_open s then receive_loop true reads 0 s else Some (0, s).
Definition ParseFromRing (batches : list (Z * list (Z * Z * Z))) (s : SerialTransport) : option (Z * SerialTransport) :=
  receive_loop false batches 0 s.

(** ** Sending *)

Inductive WriteOutcome := Wrote (n : Z) | WouldBlock | WriteFailed.

(** WriteAll, one iteration per outcome; [None] needs more outcomes. *)
Fixpoint WriteAll (outcomes : list WriteOutcome) (data : list Z) (written retry_count : Z) (s : SerialTransport)
    : option (option SerialError * SerialTransport) :=
  let len := Z.of_nat (length data) in
  if written <? len then
    match outcomes with
    | [] => None
    | Wrote n :: outcomes' =>
      WriteAll outcomes' data (u32 (written + n)) 0
        (mkSerial (port_open s) (tx_seq_ s) (rx_expected_seq_ s) (rx s) (health s) (serial_stats s) (deliveries s)
           (wire s ++ slice data written n))
    | WouldBlock :: outcomes' =>
      if write_retry_count cfg <=? retry_count then Some (Some kSendFailed, s)
      else WriteAll outcomes' data written (u32 (retry_count + 1)) (count write_retries 1 s)
    | WriteFailed :: _ => Some (Some kSendFailed, s)
    end
  else Some (None, count frames_sent 1 (count bytes_sent len s)).

Definition frame_body (msg_len seq type_index : Z) (payload : list Z) : list Z :=
  [kSerialSyncByte1; kSerialSyncByte2] ++ WriteLE16 kSerialMagic ++ WriteLE16 (u16 msg_len) ++ WriteLE16 seq ++
  WriteLE16 type_index ++ payload.
Definition seal (body : list Z) : list Z := body ++ WriteLE16 (Calculate body) ++ [kSerialTailByte].

(** Send of [size] bytes at [payload] ([None] is a null pointer); [now] is read
    by the rate limiter, [now2] after the write.  The outer [None] is an access
    beyond the frame buffer, or needs more write outcomes. *)
Definition Send (now now2 : Z) (outcomes : list WriteOutcome) (type_index : Z) (payload : option (list Z)) (size : Z)
    (s : SerialTransport) : option (option SerialError * SerialTransport) :=
  if negb (port_open s) then Some (Some kPortNotOpen, s)
  else
    let h := health s in
    let limited := 0 <? max_frames_per_second cfg in
    let h := if limited && (1000 <=? u64 (now - frame_count_window_start_ms_ h))
             then mkHealth (last_byte_time_ms_ h) (last_tx_time_ms_ h) (last_rx_time_ms_ h) now 0 (error_count_in_window_ h)
             else h in
    let s := set_health h s in
    if limited && (max_frames_per_second cfg <=? frames_sent_in_window_ h)
    then Some (Some kRateLimitExceeded, count rate_limit_drops 1 s)
    else
      let msg_len := u32 (kSerialHeaderSize + size + kSerialCrcSize) in
      if frame_max_size cfg <? u32 (msg_len + 1) then Some (Some kFrameOversize, s)
      else
        let seq := tx_seq_ s in
        let s := mkSerial (port_open s) (u16 (seq + 1)) (rx_expected_seq_ s) (rx s) (health s) (serial_stats s)
                   (deliveries s) (wire s) in
        let body := frame_body msg_len seq type_index (match payload with Some p => p | None => [] end) in
        if kMaxFrame <? Z.of_nat (length (seal body)) then None
        else
          match WriteAll outcomes (seal body) 0 0 s with
          | Some (None, s) =>
            let h := health s in
            Some (None, set_health (mkHealth (last_byte_time_ms_ h) now2 (last_rx_time_ms_ h)
              (frame_count_window_start_ms_ h) (u32 (frames_sent_in_window_ h + 1)) (error_count_in_window_ h)) s)
          | r => r
          end.

(** ** Health *)

Definition GetHealth (now : Z) (s : SerialTransport) : SerialPortHealth :=
  let h := health s in
  let time_since_tx := u64 (now - last_tx_time_ms_ h) in
  let time_since_rx := u64 (now - last_rx_time_ms_ h) in
  let max_idle := if time_since_rx <? time_since_tx then time_since_tx else time_since_rx in
  if watchdog_timeout_ms cfg <? max_idle then hFailed
  else if failed_error_threshold cfg <=? error_count_in_window_ h then hFailed
  else if degraded_error_threshold cfg <=? error_count_in_window_ h then hDegraded
  else hHealthy.

End Serial.

(** ** The checksum *)

(** The bit-wise definition of CRC-CCITT with polynomial 0x1021. *)
Definition crc_shift (crc : Z) : Z :=
  if Z.testbit crc 15 then Z.lxor (u16 (Z.shiftl crc 1)) 4129 else u16 (Z.shiftl crc 1).
Definition crc_bits (crc byte : Z) : Z := Nat.iter 8 crc_shift (Z.lxor crc (Z.shiftl byte 8)).
Definition crc_reference (data : list Z) : Z := foldl crc_bits 65535 data.

Lemma lxor_range n a b : 0 <= n -> in_range n a -> in_range n b -> in_range n (Z.lxor a b).
Proof.
  intros Hn Ha Hb. unfold in_range in *. split; [apply Z.lxor_nonneg; lia|].
  destruct (Z.eq_dec (Z.lxor a b) 0) as [->|]; [apply Z.pow_pos_nonneg; lia|].
  apply Z.log2_lt_pow2; [pose proof (proj2 (Z.lxor_nonneg a b)); lia|].
  pose proof (Z.log2_lxor a b ltac:(lia) ltac:(lia)).
  assert (forall x, 0 <= x < 2 ^ n -> Z.log2 x < n \/ x = 0).
  { intros x Hx. destruct (Z.eq_dec x 0); [by right|left]. apply Z.log2_lt_pow2; lia. }
  destruct (H0 a Ha), (H0 b Hb); subst; rewrite ?Z.lxor_0_l, ?Z.lxor_0_r in *; try lia.
Qed.

Lemma wrap_lxor w a b : 0 <= w -> wrap w (Z.lxor a b) = Z.lxor (wrap w a) (wrap w b).
Proof.
  intros Hw. rewrite <- !(land_mask w) by done. apply Z.bits_inj'. intros i Hi.
  rewrite !Z.land_spec, !Z.lxor_spec, !Z.land_spec. by destruct (Z.testbit a i), (Z.testbit b i), (Z.testbit _ i).
Qed.

(** Shifting is linear over exclusive or. *)
Lemma crc_shift_lxor a b : crc_shift (Z.lxor a b) = Z.lxor (crc_shift a) (crc_shift b).
Proof.
  unfold crc_shift. rewrite Z.lxor_spec, Z.shiftl_lxor, wrap_lxor by lia.
  set (x := u16 (Z.shiftl a 1)). set (y := u16 (Z.shiftl b 1)).
  destruct (Z.testbit a 15), (Z.testbit b 15); simpl; apply Z.bits_inj'; intros i Hi;
    rewrite ?Z.lxor_spec; by destruct (Z.testbit x i), (Z.testbit y i), (Z.testbit 4129 i).
Qed.

Lemma crc_iter_lxor n a b : Nat.iter n crc_shift (Z.lxor a b) = Z.lxor (Nat.iter n crc_shift a) (Nat.iter n crc_shift b).
Proof. induction n as [|n IH]; [done|]. simpl. by rewrite IH, crc_shift_lxor. Qed.

(** The low byte is only shifted up. *)
Lemma crc_iter_low n lo : (n <= 8)%nat -> in_range 8 lo -> Nat.iter n crc_shift lo = lo * 2 ^ Z.of_nat n.
Proof.
  intros Hn Hlo. induction n as [|n IH]; [simpl; lia|]. simpl. rewrite IH by lia.
  unfold in_range in Hlo.
  assert (Hp : 0 <= lo * 2 ^ Z.of_nat n < 2 ^ 15).
  { assert (2 ^ Z.of_nat n <= 2 ^ 7) by (apply Z.pow_le_mono_r; lia).
    pose proof (Z.pow_pos_nonneg 2 (Z.of_nat n)). change (2 ^ 15) with (2 ^ 8 * 2 ^ 7). nia. }
  unfold crc_shift. assert (Z.testbit (lo * 2 ^ Z.of_nat n) 15 = false) as ->.
  { rewrite <- (Z.mod_small _ (2 ^ 15)), Z.mod_pow2_bits_high by lia. done. }
  rewrite Z.shiftl_mul_pow2 by lia. rewrite wrap_small by (unfold in_range; change (2 ^ 16) with (2 ^ 15 * 2); lia).
  replace (Z.of_nat (S n)) with (Z.of_nat n + 1) by lia. rewrite Z.pow_add_r by lia. lia.
Qed.

Lemma kTable_correct : (fun i => Nat.iter 8 crc_shift (Z.shiftl i 8)) <$> seqZ 0 256 = kTable.
Proof. vm_compute. reflexivity. Qed.

Lemma kTable_entry i : in_range 8 i -> aget kTable i = Nat.iter 8 crc_shift (Z.shiftl i 8).
Proof.
  intros Hi. unfold in_range in Hi. rewrite <- kTable_correct. unfold aget.
  rewrite list_lookup_total_alt, list_lookup_fmap, lookup_seqZ_lt by lia. cbn [fmap option_fmap option_map from_option].
  unfold default, from_option, id. f_equal. f_equal. lia.
Qed.

Lemma crc_shift_range x : in_range 16 (crc_shift x).
Proof.
  unfold crc_shift. pose proof (wrap_range 16 (Z.shiftl x 1) ltac:(lia)). destruct (Z.testbit x 15); [|done].
  apply lxor_range; [lia|done|]. unfold in_range. lia.
Qed.

Lemma crc_split crc : in_range 16 crc -> crc = Z.lxor (Z.shiftl (Z.shiftr crc 8) 8) (u8 crc) /\ in_range 8 (Z.shiftr crc 8).
Proof.
  intros Hc. unfold in_range in *. rewrite Z.shiftr_div_pow2 by lia. split.
  - rewrite Z.lxor_comm, Z.lxor_lor.
    + rewrite lor_shiftl_add; [|lia|apply wrap_range; lia]. unfold wrap. pose proof (Z.div_mod crc (2 ^ 8)). lia.
    + apply Z.bits_inj'. intros i Hi. rewrite Z.land_spec, Z.bits_0. destruct (Z.lt_ge_cases i 8).
      * by rewrite Z.shiftl_spec_low, andb_false_r by lia.
      * unfold wrap. by rewrite Z.mod_pow2_bits_high by lia.
  - split; [apply Z.div_pos; lia|]. apply Z.div_lt_upper_bound; lia.
Qed.

Lemma crc_step_bits crc byte : in_range 16 crc -> in_range 8 byte -> crc_step crc byte = crc_bits crc byte.
Proof.
  intros Hc Hb. destruct (crc_split crc Hc) as [Hs Hhi]. unfold crc_step, crc_bits.
  set (hi := Z.shiftr crc 8) in *. set (lo := u8 crc) in *.
  assert (Hlo : in_range 8 lo) by (apply wrap_range; lia).
  assert (Hx : in_range 8 (Z.lxor hi byte)) by (apply lxor_range; [lia|done|done]).
  assert (Hy : Z.lxor crc (Z.shiftl byte 8) = Z.lxor (Z.shiftl (Z.lxor hi byte) 8) lo).
  { rewrite Hs at 1. rewrite Z.shiftl_lxor, !Z.lxor_assoc, (Z.lxor_comm lo). done. }
  rewrite Hy, crc_iter_lxor, <- kTable_entry by done. rewrite (wrap_small 8) by done.
  rewrite wrap_lxor by lia. rewrite (wrap_small 16 (aget kTable _)).
  2:{ rewrite kTable_entry by done. apply crc_shift_range. }
  rewrite (crc_iter_low 8 lo) by (done || lia). rewrite Z.lxor_comm. f_equal.
  unfold in_range in Hlo. rewrite Z.shiftl_mul_pow2 by lia. change (2 ^ Z.of_nat 8) with (2 ^ 8).
  unfold lo, wrap. rewrite <- Z.mul_mod_distr_r by lia. by change (2 ^ 8 * 2 ^ 8) with (2 ^ 16).
Qed.

Lemma crc_step_range crc byte : in_range 16 (crc_step crc byte).
Proof. apply wrap_range. lia. Qed.

Lemma crc_foldl_bits data crc :
  in_range 16 crc -> Forall (in_range 8) data -> foldl crc_step crc data = foldl crc_bits crc data.
Proof.
  intros Hc Hd. revert crc Hc. induction Hd as [|b data Hb _ IH]; intros crc Hc; [done|].
  simpl. rewrite <- crc_step_bits by done. apply IH, crc_step_range.
Qed.

(** The table-driven checksum equals the bit-serial CRC-CCITT with
    polynomial 0x1021 and initial value 0xFFFF on every byte string. *)
Lemma serial_crc_table_correct data :
  Forall (in_range 8) data -> Calculate data = crc_reference data.
Proof. intros Hd. apply crc_foldl_bits; [unfold in_range; lia|done]. Qed.

(** The check value of "123456789". *)
Lemma serial_crc_table_correct_witness :
  crc_reference [49; 50; 51; 52; 53; 54; 55; 56; 57] = 10673.
Proof.
  rewrite <- (serial_crc_table_correct [49; 50; 51; 52; 53; 54; 55; 56; 57]).
  - vm_compute. reflexivity.
  - repeat constructor; unfold in_range; lia.
Defined.

(** ** Memory safety of the receiver *)

Section Safety.
Context (cfg : SerialConfig) (kMaxFrame : Z) (has_callback : bool).
Context (Hframe : kSerialMinFrameSize <= kMaxFrame <= 65535) (Hcfg : frame_max_size cfg <= kMaxFrame).

Definition rx_wf (r : Rx) : Prop :=
  length (rx_buf_ r) = Z.to_nat kMaxFrame /\
  match rx_state_ r with
  | rxIdle => rx_pos_ r = 0
  | rxWaitSync2 => rx_pos_ r = 1
  | rxWaitHeader => 2 <= rx_pos_ r <= 9
  | rxWaitPayload => 10 <= rx_pos_ r < 10 + rx_payload_size_ r /\ rx_msg_len_ r = 12 + rx_payload_size_ r /\
      rx_msg_len_ r + 1 <= frame_max_size cfg
  | rxWaitCrc => 0 <= rx_payload_size_ r /\ 10 + rx_payload_size_ r <= rx_pos_ r <= rx_msg_len_ r /\
      rx_msg_len_ r = 12 + rx_payload_size_ r /\ rx_msg_len_ r + 1 <= frame_max_size cfg
  end.
Definition serial_wf (s : SerialTransport) : Prop := rx_wf (rx s).

Lemma reset_wf s : length (rx_buf_ (rx s)) = Z.to_nat kMaxFrame -> serial_wf (ResetRxState s).
Proof. intros Hl. by split. Qed.

Lemma rx_error_wf now f s : length (rx_buf_ (rx s)) = Z.to_nat kMaxFrame -> serial_wf (rx_error now f s).
Proof. intros Hl. by apply reset_wf. Qed.

Lemma start_sync_wf byte s : length (rx_buf_ (rx s)) = Z.to_nat kMaxFrame -> serial_wf (start_sync byte s).
Proof. intros Hl. split; [simpl; by rewrite length_aset|done]. Qed.

(** A store at a position inside the buffer. *)
Lemma store_byte_ok byte s :
  0 <= rx_pos_ (rx s) < kMaxFrame ->
  store_byte kMaxFrame byte s =
    Some (set_rx (mkRx (rx_state_ (rx s)) (rx_pos_ (rx s) + 1) (rx_msg_len_ (rx s)) (rx_payload_size_ (rx s))
                    (aset (rx_buf_ (rx s)) (rx_pos_ (rx s)) byte)) s).
Proof.
  intros Hp. unfold store_byte. destruct (Z.leb_spec 0 (rx_pos_ (rx s))), (Z.ltb_spec (rx_pos_ (rx s)) kMaxFrame); try lia.
  simpl. by rewrite (wrap_small 32) by (unfold in_range; lia).
Qed.

Lemma ReadLE16_range buf off : in_range 16 (ReadLE16 buf off).
Proof. apply wrap_range. lia. Qed.

Lemma header_complete_wf now s :
  length (rx_buf_ (rx s)) = Z.to_nat kMaxFrame -> rx_pos_ (rx s) = 10 -> serial_wf (header_complete cfg now s).
Proof.
  intros Hl Hp. unfold header_complete. destruct (negb _); [by apply rx_error_wf|].
  pose proof (ReadLE16_range (rx_buf_ (rx s)) 4) as Hr. unfold in_range in Hr. set (ml := ReadLE16 _ 4) in *.
  destruct (_ || _) eqn:Hc; [by apply rx_error_wf|]. bool_prop. unfold kSerialHeaderSize, kSerialCrcSize in *.
  unfold serial_wf, rx_wf. simpl. rewrite Hp, (wrap_small 16) by (unfold in_range; lia).
  split; [done|]. destruct (Z.ltb_spec 0 (ml - 10 - 2)); lia.
Qed.

Lemma ValidateAndDeliver_wf now s :
  length (rx_buf_ (rx s)) = Z.to_nat kMaxFrame -> rx_msg_len_ (rx s) < kMaxFrame ->
  exists d s', ValidateAndDeliver cfg kMaxFrame has_callback now s = Some (d, s') /\ serial_wf s'.
Proof.
  intros Hl Hm. unfold ValidateAndDeliver. destruct (Z.leb_spec kMaxFrame (rx_msg_len_ (rx s))); [lia|].
  destruct (negb (_ =? kSerialTailByte)); [eexists _, _; split; [done|by apply rx_error_wf]|].
  destruct (negb _); [eexists _, _; split; [done|by apply rx_error_wf]|].
  eexists _, _. split; [done|]. apply reset_wf.
  by destruct (enable_seq_check cfg && _ && _), (enable_ack cfg), has_callback; unfold SendAck; simpl; destruct (port_open s).
Qed.

Lemma FeedByte_wf now byte s :
  serial_wf s -> exists d s', FeedByte cfg kMaxFrame has_callback now byte s = Some (d, s') /\ serial_wf s'.
Proof.
  intros [Hl Hs]. unfold kSerialMinFrameSize in Hframe. unfold FeedByte. destruct (rx_state_ (rx s)) eqn:Est.
  - destruct (byte =? kSerialSyncByte1); eexists _, _; (split; [done|]); [by apply start_sync_wf|].
    unfold serial_wf, rx_wf. simpl. by rewrite Est.
  - destruct (byte =? kSerialSyncByte2).
    + rewrite store_byte_ok by lia. eexists _, _. split; [done|].
      unfold serial_wf, rx_wf. simpl. rewrite length_aset. split; [done|lia].
    + eexists _, _. split; [done|]. destruct (byte =? kSerialSyncByte1); [by apply start_sync_wf|by apply rx_error_wf].
  - rewrite store_byte_ok by lia. simpl. rewrite Est. unfold kSerialHeaderSize.
    destruct (_ && _).
    { eexists _, _. split; [done|]. apply reset_wf. unfold HandleAckFrame. simpl.
      destruct (_ =? _); simpl; by rewrite length_aset. }
    destruct (Z.leb_spec 10 (rx_pos_ (rx s) + 1)); eexists _, _; (split; [done|]).
    + apply header_complete_wf; simpl; [by rewrite length_aset|lia].
    + unfold serial_wf, rx_wf. simpl. rewrite length_aset. split; [done|lia].
  - destruct Hs as (? & ? & ?). rewrite store_byte_ok by lia. eexists _, _. split; [done|]. unfold kSerialHeaderSize. simpl.
    rewrite (wrap_small 32) by (unfold in_range; lia).
    destruct (Z.leb_spec (rx_payload_size_ (rx s)) (rx_pos_ (rx s) + 1 - 10)); unfold serial_wf, rx_wf; simpl;
      rewrite length_aset, ?Est; split; done || lia.
  - destruct Hs as (? & ? & ? & ?). rewrite store_byte_ok by lia. simpl.
    destruct (Z.leb_spec (rx_msg_len_ (rx s) + 1) (rx_pos_ (rx s) + 1)).
    + apply ValidateAndDeliver_wf; simpl; [by rewrite length_aset|lia].
    + eexists _, _. split; [done|]. unfold serial_wf, rx_wf. simpl. rewrite length_aset, Est. split; done || lia.
Qed.

Lemma process_byte_wf now t1 t2 byte s :
  serial_wf s -> exists d s', process_byte cfg kMaxFrame has_callback now t1 t2 byte s = Some (d, s') /\ serial_wf s'.
Proof.
  intros Hwf. unfold process_byte. set (s1 := if (_ : bool) then rx_error t1 timeout_errors s else s).
  assert (Hwf1 : serial_wf s1).
  { subst s1. destruct (_ && _); [|done]. apply rx_error_wf. apply Hwf. }
  destruct (FeedByte_wf t2 byte (set_health (touch_byte now (health s1)) s1) Hwf1) as (d & s' & -> & Hwf').
  destruct d; eauto.
Qed.

Lemma process_chunk_wf now bytes frames s :
  serial_wf s -> exists n s', process_chunk cfg kMaxFrame has_callback now bytes frames s = Some (n, s') /\ serial_wf s'.
Proof.
  revert frames s. induction bytes as [|[ [t1 t2] byte] bytes IH]; intros frames s Hwf; [by eauto|].
  cbn [process_chunk]. destruct (process_byte_wf now t1 t2 byte s Hwf) as (d & s' & -> & Hwf'). by apply IH.
Qed.

Lemma receive_loop_wf counted reads frames s :
  serial_wf s -> exists n s', receive_loop cfg kMaxFrame has_callback counted reads frames s = Some (n, s') /\ serial_wf s'.
Proof.
  revert frames s. induction reads as [|[now bytes] reads IH]; intros frames s Hwf; [by eauto|].
  cbn [receive_loop]. set (s1 := if counted then _ else s).
  assert (Hwf1 : serial_wf s1) by (subst s1; by destruct counted).
  destruct (process_chunk_wf now bytes frames s1 Hwf1) as (n & s' & -> & Hwf'). by apply IH.
Qed.

(** The operations that touch the receiver. *)
Inductive RxOp := OpOpen (now : Z) | OpClose | OpPoll (reads : list (Z * list (Z * Z * Z))) | OpParse (batches : list (Z * list (Z * Z * Z))).

Definition rx_op (o : RxOp) (s : SerialTransport) : option SerialTransport :=
  match o with
  | OpOpen now => Some (Open_ok now s)
  | OpClose => Some (Close s)
  | OpPoll reads => snd <$> Poll cfg kMaxFrame has_callback reads s
  | OpParse batches => snd <$> ParseFromRing cfg kMaxFrame has_callback batches s
  end.
Fixpoint rx_ops (l : list RxOp) (s : SerialTransport) : option SerialTransport :=
  match l with [] => Some s | o :: l' => match rx_op o s with Some s' => rx_ops l' s' | None => None end end.

Lemma rx_op_wf o s : serial_wf s -> exists s', rx_op o s = Some s' /\ serial_wf s'.
Proof.
  intros Hwf. destruct o; simpl.
  - eexists. split; [done|]. unfold Open_ok. by destruct (port_open s).
  - eexists. split; [done|]. apply reset_wf, Hwf.
  - unfold Poll. destruct (port_open s); [|by eauto].
    destruct (receive_loop_wf true reads 0 s Hwf) as (n & s' & -> & ?). eauto.
  - unfold ParseFromRing. destruct (receive_loop_wf false batches 0 s Hwf) as (n & s' & -> & ?). eauto.
Qed.

(** C27. Whatever bytes arrive, in whatever chunks and at whatever times, the
    receiver never writes or reads outside its frame buffer, as long as the
    configured frame_max_size does not exceed the size of the buffer. *)
Theorem serial_rx_memory_safe ops :
  exists s, rx_ops ops (SerialTransport_ctor kMaxFrame) = Some s /\ serial_wf s.
Proof.
  assert (Hwf : serial_wf (SerialTransport_ctor kMaxFrame)) by (split; [apply length_replicate|done]).
  revert Hwf. generalize (SerialTransport_ctor kMaxFrame) as s. induction ops as [|o ops IH]; intros s Hwf; [by eauto|].
  simpl. destruct (rx_op_wf o s Hwf) as (s' & -> & Hwf'). by apply IH.
Qed.

End Safety.

Definition demo_cfg (max_size : Z) : SerialConfig := mkSerialConfig 50 max_size false true 5000 10 30 1000 3.

(** Garbage, then a header that announces the largest frame. *)
Definition demo_bytes : list (Z * Z * Z) :=
  (fun b => (0, 0, b)) <$> ([1; 2; 170; 170; 85; 83; 79; 63; 0; 0; 0; 0; 0] ++ replicate 60 7).

Lemma serial_rx_memory_safe_witness :
  exists s, rx_ops (demo_cfg 64) 64 true [OpOpen 1; OpPoll [(5, demo_bytes)]] (SerialTransport_ctor 64) = Some s /\
    serial_wf (demo_cfg 64) 64 s.
Proof. apply (serial_rx_memory_safe (demo_cfg 64) 64 true); unfold kSerialMinFrameSize; simpl; lia. Defined.

(** With a configured frame size above the buffer size the same bytes overflow it. *)
Lemma serial_rx_overflow :
  rx_ops (demo_cfg 64) 16 true [OpOpen 1; OpPoll [(5, demo_bytes)]] (SerialTransport_ctor 16) = None.
Proof. vm_compute. reflexivity. Qed.

(** ** Round trip *)

(** A frame to transmit: payload, type index, sequence number. *)
Definition frame_bytes (f : Delivery) : list Z :=
  let '(payload, type_index, seq) := f in
  seal (frame_body (kSerialHeaderSize + Z.of_nat (length payload) + kSerialCrcSize) seq type_index payload).

Definition frame_ok (cfg : SerialConfig) (f : Delivery) : Prop :=
  let '(payload, type_index, seq) := f in
  in_range 16 type_index /\ in_range 16 seq /\ Z.of_nat (length payload) + kSerialMinFrameSize <= frame_max_size cfg.

Lemma le16_value v : in_range 16 v -> Z.lor (Z.land v 255) (Z.shiftl (Z.land (Z.shiftr v 8) 255) 8) = v.
Proof.
  intros Hv. unfold in_range in Hv. change 255 with (2 ^ 8 - 1). rewrite !land_mask by lia.
  pose proof (wrap_range 8 v ltac:(lia)) as Hr. unfold in_range in Hr.
  rewrite lor_shiftl_add by lia. rewrite (wrap_small 8 (Z.shiftr v 8)).
  - rewrite Z.shiftr_div_pow2 by lia. unfold wrap. pose proof (Z.div_mod v (2 ^ 8)). lia.
  - rewrite Z.shiftr_div_pow2 by lia. unfold in_range. split; [apply Z.div_pos; lia|apply Z.div_lt_upper_bound; lia].
Qed.

(** Reading back a little-endian field of a list. *)
Lemma ReadLE16_at pre v post : in_range 16 v -> ReadLE16 (pre ++ WriteLE16 v ++ post) (Z.of_nat (length pre)) = v.
Proof.
  intros Hv. unfold ReadLE16. change (WriteLE16 v ++ post) with (Z.land v 255 :: Z.land (Z.shiftr v 8) 255 :: post).
  rewrite aget_app_mid by done.
  assert (aget (pre ++ Z.land v 255 :: Z.land (Z.shiftr v 8) 255 :: post) (Z.of_nat (length pre) + 1) = Z.land (Z.shiftr v 8) 255) as ->.
  { rewrite aget_app by lia. case_bool; [lia|]. replace (_ - _) with 1 by lia. done. }
  rewrite le16_value by done. by apply wrap_small.
Qed.

(** Buffers that agree up to [n]. *)
Lemma aget_prefix {A} `{Inhabited A} (a b : list A) n i : take (Z.to_nat n) a = take (Z.to_nat n) b -> 0 <= i < n -> aget a i = aget b i.
Proof. intros Ht Hi. rewrite <- (aget_take a n), <- (aget_take b n), Ht by lia. done. Qed.

Lemma take_aset_snoc {A} `{Inhabited A} (a : list A) n x :
  0 <= n < Z.of_nat (length a) -> take (Z.to_nat (n + 1)) (aset a n x) = take (Z.to_nat n) a ++ [x].
Proof.
  intros Hn. replace (Z.to_nat (n + 1)) with (S (Z.to_nat n)) by lia. unfold aset.
  rewrite (take_S_r _ _ x) by (apply list_lookup_insert_eq; lia). f_equal. by rewrite take_insert_ge by lia.
Qed.

Lemma take_snoc_aget {A} `{Inhabited A} (a : list A) n :
  0 <= n < Z.of_nat (length a) -> take (Z.to_nat (n + 1)) a = take (Z.to_nat n) a ++ [aget a n].
Proof.
  intros Hn. replace (Z.to_nat (n + 1)) with (S (Z.to_nat n)) by lia.
  apply take_S_r, list_lookup_lookup_total_lt. lia.
Qed.

Lemma ReadLE16_prefix a b n off :
  take (Z.to_nat n) a = take (Z.to_nat n) b -> 0 <= off -> off + 1 < n -> ReadLE16 a off = ReadLE16 b off.
Proof. intros Ht H1 H2. unfold ReadLE16. by rewrite !(aget_prefix a b n) by (done || lia). Qed.

Section Frame.
Context (cfg : SerialConfig) (kMaxFrame : Z).
Context (Hframe : kSerialMinFrameSize <= kMaxFrame <= 65535) (Hcfg : frame_max_size cfg <= kMaxFrame).
Context (payload : list Z) (type_index seq : Z) (Hok : frame_ok cfg (payload, type_index, seq)).

Let F := frame_bytes (payload, type_index, seq).
Let p := Z.of_nat (length payload).
Let body := frame_body (10 + p + 2) seq type_index payload.

Lemma p_bound : 0 <= p /\ p + 13 <= frame_max_size cfg /\ p + 13 <= 65535.
Proof. destruct Hok as (_ & _ & Hl). unfold kSerialMinFrameSize in *. fold p in Hl. lia. Qed.

Lemma body_length : Z.of_nat (length body) = 10 + p.
Proof. unfold body, frame_body. rewrite !length_app. simpl. lia. Qed.

Lemma F_eq : F = body ++ WriteLE16 (Calculate body) ++ [kSerialTailByte].
Proof. done. Qed.

Lemma F_length : Z.of_nat (length F) = 13 + p.
Proof. rewrite F_eq, !length_app, !Nat2Z.inj_add, body_length. simpl. lia. Qed.

Lemma Calculate_range data : in_range 16 (Calculate data).
Proof.
  unfold Calculate. induction data as [|b data IH] using rev_ind; [unfold in_range; simpl; lia|].
  rewrite foldl_snoc. apply crc_step_range.
Qed.

(** The fields of the frame. *)
Lemma F_sync1 : aget F 0 = kSerialSyncByte1.
Proof. done. Qed.
Lemma F_sync2 : aget F 1 = kSerialSyncByte2.
Proof. done. Qed.
Lemma F_magic : ReadLE16 F 2 = kSerialMagic.
Proof.
  apply (ReadLE16_at [kSerialSyncByte1; kSerialSyncByte2] kSerialMagic). unfold in_range, kSerialMagic. lia.
Qed.
Lemma F_msg_len : ReadLE16 F 4 = 12 + p.
Proof.
  pose proof p_bound. transitivity (u16 (10 + p + 2)); [|rewrite wrap_small by (unfold in_range; lia); lia].
  apply (ReadLE16_at ([kSerialSyncByte1; kSerialSyncByte2] ++ WriteLE16 kSerialMagic) (u16 (10 + p + 2))).
  apply wrap_range. lia.
Qed.
Lemma F_seq : ReadLE16 F 6 = seq.
Proof.
  apply (ReadLE16_at ([kSerialSyncByte1; kSerialSyncByte2] ++ WriteLE16 kSerialMagic ++ WriteLE16 (u16 (10 + p + 2))) seq).
  by destruct Hok as (_ & ? & _).
Qed.
Lemma F_type : ReadLE16 F 8 = type_index.
Proof.
  apply (ReadLE16_at ([kSerialSyncByte1; kSerialSyncByte2] ++ WriteLE16 kSerialMagic ++ WriteLE16 (u16 (10 + p + 2)) ++ WriteLE16 seq) type_index).
  by destruct Hok as (? & _ & _).
Qed.
Lemma F_body : take (Z.to_nat (10 + p)) F = body.
Proof. rewrite F_eq. replace (Z.to_nat (10 + p)) with (length body) by (pose proof body_length; lia). apply take_app_length. Qed.
Lemma F_crc : ReadLE16 F (10 + p) = Calculate body.
Proof. rewrite F_eq, <- body_length. apply ReadLE16_at, Calculate_range. Qed.
Lemma F_tail : aget F (12 + p) = kSerialTailByte.
Proof.
  rewrite F_eq, app_assoc. apply aget_app_mid. rewrite length_app, Nat2Z.inj_add, body_length. simpl. lia.
Qed.
Lemma F_payload : slice F 10 p = payload.
Proof.
  unfold slice. rewrite F_eq. unfold body, frame_body. simpl.
  replace (Z.to_nat p) with (length payload) by lia. apply take_app_length.
Qed.

(** The receiver has taken the first [n] bytes of the frame. *)
Definition phase (n : Z) : RxState :=
  if n =? 0 then rxIdle else if n =? 1 then rxWaitSync2 else if n <? 10 then rxWaitHeader
  else if n <? 10 + p then rxWaitPayload else rxWaitCrc.

Record stage (d : list Delivery) (n : Z) (s : SerialTransport) : Prop := {
  sg_len : length (rx_buf_ (rx s)) = Z.to_nat kMaxFrame;
  sg_pos : rx_pos_ (rx s) = n;
  sg_take : take (Z.to_nat n) (rx_buf_ (rx s)) = take (Z.to_nat n) F;
  sg_state : rx_state_ (rx s) = phase n;
  sg_fields : 10 <= n -> rx_msg_len_ (rx s) = 12 + p /\ rx_payload_size_ (rx s) = p;
  sg_deliveries : deliveries s = d
}.

(** Storing the next byte. *)
Lemma stage_store d n s :
  stage d n s -> 0 <= n < 13 + p ->
  exists r, store_byte kMaxFrame (aget F n) s = Some (set_rx r s) /\
    length (rx_buf_ r) = Z.to_nat kMaxFrame /\ rx_pos_ r = n + 1 /\
    take (Z.to_nat (n + 1)) (rx_buf_ r) = take (Z.to_nat (n + 1)) F /\ rx_state_ r = phase n /\
    rx_msg_len_ r = rx_msg_len_ (rx s) /\ rx_payload_size_ r = rx_payload_size_ (rx s).
Proof.
  intros [Hl Hp Ht Hs Hf Hd] Hn. pose proof p_bound. rewrite store_byte_ok by lia.
  eexists. split; [done|]. simpl. rewrite length_aset, Hp. repeat split; try done.
  rewrite take_aset_snoc by lia. rewrite take_snoc_aget by (rewrite F_length; lia). by rewrite Ht.
Qed.

Lemma stage_step has_cb now d n s :
  stage d n s -> 0 <= n < 12 + p ->
  exists s', FeedByte cfg kMaxFrame has_cb now (aget F n) s = Some (false, s') /\ stage d (n + 1) s' /\ health s' = health s.
Proof.
  intros Hst Hn. pose proof p_bound as Hpb. destruct (stage_store d n s Hst ltac:(lia)) as (r & Hsb & Rl & Rp & Rt & Rs & Rm & Rz).
  destruct Hst as [Hl Hp Ht Hs Hf Hd]. unfold FeedByte. rewrite Hs.
  assert (Hph : n = 0 \/ n = 1 \/ 2 <= n < 10 \/ 10 <= n < 10 + p \/ 10 + p <= n) by lia.
  destruct Hph as [->|[->|[Hn2|[Hn2|Hn2] ] ] ].
  - change (phase 0) with rxIdle. cbv iota. rewrite F_sync1. change (kSerialSyncByte1 =? kSerialSyncByte1) with true.
    eexists. split; [done|]. split; [|done]. split; simpl; try done; [by rewrite length_aset|].
    transitivity (take (Z.to_nat 0) F ++ [aget F 0]).
    + apply (take_aset_snoc (rx_buf_ (rx s)) 0). unfold kSerialMinFrameSize in *. lia.
    + symmetry. apply (take_snoc_aget F 0). rewrite F_length. lia.
  - change (phase 1) with rxWaitSync2. cbv iota. rewrite F_sync2 in *. change (kSerialSyncByte2 =? kSerialSyncByte2) with true.
    cbv iota. rewrite Hsb. eexists. split; [done|]. split; [|done].
    split; simpl; done.
  - assert (Hpn : phase n = rxWaitHeader).
    { unfold phase. destruct (Z.eqb_spec n 0), (Z.eqb_spec n 1), (Z.ltb_spec n 10); done || lia. }
    rewrite Hpn in *. cbv iota. rewrite Hsb. cbn [rx set_rx]. rewrite Rp.
    assert (Hmag : (kSerialAckFrameSize <=? n + 1) && (ReadLE16 (rx_buf_ r) 2 =? kSerialAckMagic) = false).
    { unfold kSerialAckFrameSize. destruct (Z.leb_spec 8 (n + 1)); [|done].
      rewrite (ReadLE16_prefix _ F (n + 1) 2) by (done || lia). by rewrite F_magic. }
    rewrite Hmag. unfold kSerialHeaderSize. destruct (Z.leb_spec 10 (n + 1)).
    + assert (n = 9) as -> by lia. change (9 + 1) with 10 in *.
      eexists. split; [done|]. unfold header_complete. cbn [rx set_rx].
      rewrite (ReadLE16_prefix _ F 10 2), F_magic by (done || lia). change (negb (kSerialMagic =? kSerialMagic)) with false. cbv iota.
      rewrite (ReadLE16_prefix _ F 10 4), F_msg_len by (done || lia). unfold kSerialHeaderSize, kSerialCrcSize.
      destruct (Z.ltb_spec (frame_max_size cfg) (12 + p + 1)); [lia|].
      destruct (Z.ltb_spec (12 + p) (10 + 2)); [lia|]. simpl orb. cbv iota.
      rewrite (wrap_small 16) by (unfold in_range; lia). replace (12 + p - 10 - 2) with p by lia.
      split; [|done]. split; simpl; try done.
      unfold phase. change (10 =? 0) with false. change (10 =? 1) with false. change (10 <? 10) with false. cbv iota.
      destruct (Z.ltb_spec 0 p), (Z.ltb_spec 10 (10 + p)); done || lia.
    + eexists. split; [done|]. split; [|done]. split; simpl; try done; try lia.
      rewrite Rs. unfold phase. destruct (Z.eqb_spec (n + 1) 0), (Z.eqb_spec (n + 1) 1), (Z.ltb_spec (n + 1) 10); done || lia.
  - assert (Hpn : phase n = rxWaitPayload).
    { unfold phase. destruct (Z.eqb_spec n 0), (Z.eqb_spec n 1), (Z.ltb_spec n 10), (Z.ltb_spec n (10 + p)); done || lia. }
    destruct (Hf ltac:(lia)) as [Hm Hz]. rewrite Hpn in *. cbv iota. rewrite Hsb. cbn [rx set_rx]. rewrite Rp, Rz, Hz.
    unfold kSerialHeaderSize. rewrite (wrap_small 32) by (unfold in_range; lia). eexists. split; [done|].
    assert (Hnext : phase (n + 1) = if p <=? n + 1 - 10 then rxWaitCrc else rxWaitPayload).
    { unfold phase. destruct (Z.eqb_spec (n + 1) 0), (Z.eqb_spec (n + 1) 1), (Z.ltb_spec (n + 1) 10), (Z.ltb_spec (n + 1) (10 + p)),
        (Z.leb_spec p (n + 1 - 10)); done || lia. }
    destruct (p <=? n + 1 - 10); (split; [|done]); split; simpl; rewrite ?Rs, ?Hnext; try done; intros; by rewrite Rm, Rz, Hm, Hz.
  - assert (Hpn : forall m, 10 + p <= m -> phase m = rxWaitCrc).
    { intros m Hm. unfold phase. destruct (Z.eqb_spec m 0), (Z.eqb_spec m 1), (Z.ltb_spec m 10), (Z.ltb_spec m (10 + p)); done || lia. }
    destruct (Hf ltac:(lia)) as [Hm Hz]. rewrite (Hpn n) in * by lia. cbv iota. rewrite Hsb. cbn [rx set_rx]. rewrite Rp, Rm, Hm.
    destruct (Z.leb_spec (12 + p + 1) (n + 1)); [lia|]. eexists. split; [done|]. split; [|done].
    split; simpl; rewrite ?Rs; try done; [by rewrite Hpn by lia|]. intros. by rewrite Rm, Rz, Hm, Hz.
Qed.

(** The last byte delivers the frame. *)
Lemma stage_last now d s :
  stage d (12 + p) s ->
  exists s', FeedByte cfg kMaxFrame true now (aget F (12 + p)) s = Some (true, s') /\
    stage (d ++ [(payload, type_index, seq)]) 0 s' /\ health s' = health s.
Proof.
  intros Hst. pose proof p_bound as Hpb. destruct (stage_store d _ s Hst ltac:(lia)) as (r & Hsb & Rl & Rp & Rt & Rs & Rm & Rz).
  destruct Hst as [Hl Hp Ht Hs Hf Hd]. destruct (Hf ltac:(lia)) as [Hm Hz].
  assert (Hpn : phase (12 + p) = rxWaitCrc).
  { unfold phase. destruct (Z.eqb_spec (12 + p) 0), (Z.eqb_spec (12 + p) 1), (Z.ltb_spec (12 + p) 10), (Z.ltb_spec (12 + p) (10 + p)); done || lia. }
  unfold FeedByte. rewrite Hs, Hpn, Hsb. cbn [rx set_rx]. rewrite Rp, Rm, Hm.
  destruct (Z.leb_spec (12 + p + 1) (12 + p + 1)); [|lia].
  unfold ValidateAndDeliver. cbn [rx set_rx]. rewrite Rm, Hm, Rz, Hz. destruct (Z.leb_spec kMaxFrame (12 + p)); [lia|].
  rewrite (aget_prefix _ F (12 + p + 1) (12 + p)), F_tail by (done || lia).
  change (negb (kSerialTailByte =? kSerialTailByte)) with false. cbv iota zeta. unfold kSerialCrcSize.
  rewrite (wrap_small 32) by (unfold in_range; lia). replace (12 + p - 2) with (10 + p) by lia.
  assert (Hbody : take (Z.to_nat (10 + p)) (rx_buf_ r) = body).
  { rewrite <- F_body. replace (Z.to_nat (10 + p)) with (Nat.min (Z.to_nat (10 + p)) (Z.to_nat (12 + p + 1))) by lia.
    by rewrite <- !take_take, Rt. }
  rewrite Hbody, (ReadLE16_prefix _ F (12 + p + 1)), F_crc, Z.eqb_refl by (done || lia). cbn [negb]. cbv iota.
  rewrite (ReadLE16_prefix _ F (12 + p + 1) 6), F_seq by (done || lia).
  rewrite (ReadLE16_prefix _ F (12 + p + 1) 8), F_type by (done || lia).
  assert (Hpl : slice (rx_buf_ r) kSerialHeaderSize p = payload).
  { rewrite <- F_payload. unfold slice, kSerialHeaderSize. rewrite !take_drop_commute.
    replace (Z.to_nat 10 + Z.to_nat p)%nat with (Z.to_nat (10 + p)) by lia. by rewrite Hbody, F_body. }
  rewrite Hpl. eexists. split; [done|].
  destruct (enable_seq_check cfg && _ && _), (enable_ack cfg); unfold SendAck; simpl;
    try destruct (port_open s); (split; [|done]); split; simpl; try done; try lia; by rewrite Hd.
Qed.

End Frame.

(** ** Streams of frames *)

Section Stream.
Context (cfg : SerialConfig) (kMaxFrame : Z).
Context (Hframe : kSerialMinFrameSize <= kMaxFrame <= 65535) (Hcfg : frame_max_size cfg <= kMaxFrame).
Context (Htimeout : 0 <= inter_byte_timeout_ms cfg).

Definition idle (d : list Delivery) (s : SerialTransport) : Prop :=
  length (rx_buf_ (rx s)) = Z.to_nat kMaxFrame /\ rx_pos_ (rx s) = 0 /\ rx_state_ (rx s) = rxIdle /\ deliveries s = d.

Lemma stage_idle payload ty seq d s : stage kMaxFrame payload ty seq d 0 s <-> idle d s.
Proof. split; [by intros [] | intros (? & ? & ? & ?); by split]. Qed.

(** The bytes [R] still to come complete the frames [fs]. *)
Definition expects (d : list Delivery) (fs : list Delivery) (R : list Z) (s : SerialTransport) : Prop :=
  match fs with
  | [] => R = [] /\ idle d s
  | (payload, ty, seq) :: fs' =>
    exists n, stage kMaxFrame payload ty seq d n s /\ 0 <= n < 13 + Z.of_nat (length payload) /\
      R = drop (Z.to_nat n) (frame_bytes (payload, ty, seq)) ++ concat (frame_bytes <$> fs')
  end.

Lemma expects_start d fs s : idle d s -> expects d fs (concat (frame_bytes <$> fs)) s.
Proof.
  intros Hi. destruct fs as [|[ [payload ty] seq] fs]; [done|]. exists 0. split; [by apply stage_idle|]. split; [lia|done].
Qed.

(** Only the receiver and the deliveries matter. *)
Lemma expects_same d fs R s s' : rx s' = rx s -> deliveries s' = deliveries s -> expects d fs R s -> expects d fs R s'.
Proof.
  intros Hr Hd. destruct fs as [|[ [payload ty] seq] fs]; simpl.
  - unfold idle. by rewrite Hr, Hd.
  - intros (n & [] & Hn). exists n. split; [|done]. split; by rewrite ?Hr, ?Hd.
Qed.

(** One byte of the stream, fed to the state machine. *)
Lemma feed_expects now d fs b R s :
  Forall (frame_ok cfg) fs -> expects d fs (b :: R) s ->
  exists done s', FeedByte cfg kMaxFrame true now b s = Some (done, s') /\ health s' = health s /\
    ((done = false /\ expects d fs R s') \/ (exists f fs', done = true /\ fs = f :: fs' /\ expects (d ++ [f]) fs' R s')).
Proof.
  intros Hok He. destruct fs as [|[ [payload ty] seq] fs]; [by destruct He|].
  destruct He as (n & Hst & Hn & HR). inversion_clear Hok as [|? ? Hf _].
  assert (Hdrop : drop (Z.to_nat n) (frame_bytes (payload, ty, seq)) =
    aget (frame_bytes (payload, ty, seq)) n :: drop (Z.to_nat (n + 1)) (frame_bytes (payload, ty, seq))).
  { replace (Z.to_nat (n + 1)) with (S (Z.to_nat n)) by lia. apply drop_S, list_lookup_lookup_total_lt.
    pose proof (F_length payload ty seq). lia. }
  rewrite Hdrop, <- app_comm_cons in HR. injection HR as -> ->.
  destruct (Z.eq_dec n (12 + Z.of_nat (length payload))) as [->|Hne].
  - destruct (stage_last cfg kMaxFrame Hframe Hcfg payload ty seq Hf now d s Hst) as (s' & HF & Hst' & Hh).
    exists true, s'. split; [done|]. split; [done|]. right. exists (payload, ty, seq), fs. split; [done|]. split; [done|].
    apply stage_idle in Hst'. change (seal _) with (frame_bytes (payload, ty, seq)). rewrite drop_ge by (pose proof (F_length payload ty seq); lia). simpl. by apply expects_start.
  - destruct (stage_step cfg kMaxFrame Hframe Hcfg payload ty seq Hf true now d n s Hst) as (s' & HF & Hst' & Hh); [cbv zeta; lia|].
    exists false, s'. split; [done|]. split; [done|]. left. split; [done|]. exists (n + 1). split; [done|]. split; [lia|done].
Qed.

(** No timeout strikes: the receiver is idle or the last byte is recent. *)
Definition recent (now : Z) (s : SerialTransport) : Prop :=
  is_idle (rx_state_ (rx s)) = true \/ u64 (now - last_byte_time_ms_ (health s)) <= inter_byte_timeout_ms cfg.

Lemma process_expects now t1 t2 d fs b R s :
  Forall (frame_ok cfg) fs -> expects d fs (b :: R) s -> recent now s ->
  exists done s', process_byte cfg kMaxFrame true now t1 t2 b s = Some (done, s') /\
    last_byte_time_ms_ (health s') = now /\
    ((done = false /\ expects d fs R s') \/ (exists f fs', done = true /\ fs = f :: fs' /\ expects (d ++ [f]) fs' R s')).
Proof.
  intros Hok He Hrec. unfold process_byte.
  assert (negb (is_idle (rx_state_ (rx s))) && negb (last_byte_time_ms_ (health s) =? 0) &&
    (inter_byte_timeout_ms cfg <? u64 (now - last_byte_time_ms_ (health s))) = false) as ->.
  { destruct Hrec as [->|Hr]; [done|].
    destruct (Z.ltb_spec (inter_byte_timeout_ms cfg) (u64 (now - last_byte_time_ms_ (health s)))); [lia|]. apply andb_false_r. }
  set (s1 := set_health _ s). assert (He1 : expects d fs (b :: R) s1) by (by apply (expects_same d fs _ s)).
  destruct (feed_expects t2 d fs b R s1 Hok He1) as (done & s' & -> & Hh & Hcase).
  assert (Hlast : last_byte_time_ms_ (health s') = now) by (by rewrite Hh).
  destruct done; eexists _, _; (split; [reflexivity|]); [|by split].
  split; [done|]. right. destruct Hcase as [ [? _]|(f & fs' & _ & ? & He')]; [done|]. exists f, fs'. split; [done|]. split; [done|].
  by apply (expects_same _ _ _ s').
Qed.

(** A chunk of the stream. *)
Lemma chunk_expects now chunk d fs R frames s :
  Forall (frame_ok cfg) fs -> expects d fs (chunk.*2 ++ R) s -> (chunk <> [] -> recent now s) ->
  exists ds fs' s', fs = ds ++ fs' /\
    process_chunk cfg kMaxFrame true now chunk (u32 frames) s = Some (u32 (frames + Z.of_nat (length ds)), s') /\
    expects (d ++ ds) fs' R s' /\ (chunk <> [] -> last_byte_time_ms_ (health s') = now).
Proof.
  revert d fs frames s. induction chunk as [|[ [t1 t2] b] chunk IH]; intros d fs frames s Hok He Hrec.
  { exists [], fs, s. rewrite app_nil_r. simpl. rewrite Z.add_0_r. by repeat split. }
  cbn [process_chunk]. simpl in He.
  destruct (process_expects now t1 t2 d fs b (chunk.*2 ++ R) s Hok He (Hrec ltac:(done))) as (done & s1 & -> & Hlast & Hcase).
  assert (Hrec1 : recent now s1).
  { right. rewrite Hlast, Z.sub_diag. by rewrite wrap_0. }
  destruct Hcase as [ [-> He1]|(f & fs1 & -> & -> & He1)].
  - destruct (IH d fs frames s1 Hok He1 (fun _ => Hrec1)) as (ds & fs' & s' & Hfs & Hp & He' & Hl').
    exists ds, fs', s'. repeat split; try done. intros _. destruct chunk; [by simplify_eq/=|by apply Hl'].
  - inversion_clear Hok as [|? ? _ Hok1]. rewrite wrap_add_l.
    destruct (IH (d ++ [f]) fs1 (frames + 1) s1 Hok1 He1 (fun _ => Hrec1)) as (ds & fs' & s' & Hfs & Hp & He' & Hl').
    exists (f :: ds), fs', s'. simpl. rewrite <- app_assoc in He'. repeat split; try done; [by rewrite Hfs|..].
    + rewrite Hp. do 3 f_equal. lia.
    + intros _. destruct chunk; [by simplify_eq/=|by apply Hl'].
Qed.

(** Reads are not empty and follow each other within the inter-byte timeout. *)
Fixpoint paced (last : Z) (reads : list (Z * list (Z * Z * Z))) : Prop :=
  match reads with
  | [] => True
  | (now, bytes) :: reads' => bytes <> [] /\ u64 (now - last) <= inter_byte_timeout_ms cfg /\ paced now reads'
  end.

Lemma reads_expects reads d fs frames s :
  Forall (frame_ok cfg) fs -> expects d fs (concat ((fun r => r.2.*2) <$> reads)) s ->
  match reads with [] => True | (now, bytes) :: reads' => bytes <> [] /\ recent now s /\ paced now reads' end ->
  exists s', receive_loop cfg kMaxFrame true true reads (u32 frames) s = Some (u32 (frames + Z.of_nat (length fs)), s') /\
    idle (d ++ fs) s'.
Proof.
  revert d fs frames s. induction reads as [|[now bytes] reads IH]; intros d fs frames s Hok He Hp.
  { simpl in *. assert (fs = [] /\ idle d s) as [-> ?].
    { destruct fs as [|[ [payload ty] seq] fs]; [by destruct He|]. destruct He as (n & _ & Hn & HR). exfalso.
      symmetry in HR. apply app_nil in HR as [HR _]. apply (f_equal length) in HR. rewrite length_drop in HR. simpl length in HR at 2.
      pose proof (F_length payload ty seq). lia. }
    exists s. simpl. by rewrite Z.add_0_r, app_nil_r. }
  destruct Hp as (Hne & Hrec & Hp). cbn [receive_loop].
  set (s0 := count bytes_received (Z.of_nat (length bytes)) s).
  destruct (chunk_expects now bytes d fs (concat ((fun r => r.2.*2) <$> reads)) frames s0 Hok) as (ds & fs' & s1 & -> & -> & He1 & Hl).
  { by apply (expects_same d fs _ s). }
  { intros _. exact Hrec. }
  apply Forall_app in Hok as [_ Hok1].
  destruct (IH (d ++ ds) fs' (frames + Z.of_nat (length ds)) s1 Hok1 He1) as (s' & Hr & Hi).
  { destruct reads as [|[now2 bytes2] reads]; [done|]. destruct Hp as (? & Ht & ?). split; [done|]. split; [|done].
    right. by rewrite Hl. }
  exists s'. rewrite Hr, length_app, <- app_assoc in *. split; [do 2 f_equal; f_equal; lia|done].
Qed.

(** C8. Round trip: the bytes of any sequence of frames that fit the configured
    size, split into reads in any way and arriving without a gap longer than
    the inter-byte timeout, are received by an idle open port as exactly those
    frames, payload, type and sequence number, in order, and the port is idle again. *)
Theorem serial_roundtrip fs now bytes reads s :
  Forall (frame_ok cfg) fs -> port_open s = true -> idle (deliveries s) s ->
  concat ((fun r => r.2.*2) <$> ((now, bytes) :: reads)) = concat (frame_bytes <$> fs) ->
  bytes <> [] -> paced now reads ->
  exists s', Poll cfg kMaxFrame true ((now, bytes) :: reads) s = Some (u32 (Z.of_nat (length fs)), s') /\
    deliveries s' = deliveries s ++ fs /\ idle (deliveries s') s'.
Proof.
  intros Hok Hopen Hi Hb Hne Hp. unfold Poll. rewrite Hopen.
  destruct (reads_expects ((now, bytes) :: reads) (deliveries s) fs 0 s Hok) as (s' & Hr & Hi').
  - rewrite Hb. by apply expects_start.
  - split; [done|]. split; [|done]. left. destruct Hi as (_ & _ & -> & _). done.
  - exists s'. change (u32 0) with 0 in Hr. rewrite Hr. split; [done|].
    assert (deliveries s' = deliveries s ++ fs) as -> by apply Hi'. by split.
Qed.

End Stream.

(** Two frames, cut inside the first one's payload and checksum. *)
Definition demo_frames : list Delivery := [([1; 170; 85; 4], 7, 65535); ([], 9, 0)].
Definition demo_stream : list (Z * Z * Z) := (fun b => (0, 0, b)) <$> concat (frame_bytes <$> demo_frames).
Definition open_port : SerialTransport := Open_ok 1 (SerialTransport_ctor 64).

Lemma serial_roundtrip_witness :
  exists s', Poll (demo_cfg 64) 64 true [(100, take 12 demo_stream); (120, take 4 (drop 12 demo_stream)); (170, drop 16 demo_stream)]
    open_port = Some (2, s') /\ deliveries s' = demo_frames.
Proof.
  destruct (serial_roundtrip (demo_cfg 64) 64 ltac:(unfold kSerialMinFrameSize; lia) ltac:(simpl; lia) ltac:(simpl; lia)
    demo_frames 100 (take 12 demo_stream) [(120, take 4 (drop 12 demo_stream)); (170, drop 16 demo_stream)] open_port)
    as (s' & Hp & Hd & _).
  - repeat constructor; unfold in_range, kSerialMinFrameSize; simpl; lia.
  - reflexivity.
  - vm_compute. repeat split; reflexivity.
  - vm_compute. reflexivity.
  - vm_compute. discriminate.
  - repeat split; vm_compute; discriminate.
  - exists s'. split; [exact Hp|exact Hd].
Defined.

(** ** Sending *)

Section Sending.
Context (cfg : SerialConfig) (kMaxFrame : Z).

(** write() writes at least nothing and at most what it was given. *)
Fixpoint outcomes_ok (len written : Z) (l : list WriteOutcome) : Prop :=
  match l with
  | [] => True
  | Wrote n :: l' => 0 <= n <= len - written /\ outcomes_ok len (written + n) l'
  | _ :: l' => outcomes_ok len written l'
  end.

Lemma WriteAll_wire outcomes data written retry s r s' :
  Z.of_nat (length data) < 2 ^ 32 -> 0 <= written <= Z.of_nat (length data) ->
  outcomes_ok (Z.of_nat (length data)) written outcomes ->
  WriteAll cfg outcomes data written retry s = Some (r, s') ->
  exists n, written <= n <= Z.of_nat (length data) /\ wire s' = wire s ++ slice data written (n - written) /\
    (r = None -> n = Z.of_nat (length data)) /\ tx_seq_ s' = tx_seq_ s.
Proof.
  revert written retry s. induction outcomes as [|o outcomes IH]; intros written retry s Hlen Hw Hok Hrun; simpl in Hrun.
  - destruct (Z.ltb_spec written (Z.of_nat (length data))); [done|]. simplify_eq/=. exists written.
    rewrite Z.sub_diag. unfold slice. simpl. rewrite app_nil_r. repeat split; done || lia.
  - destruct (Z.ltb_spec written (Z.of_nat (length data))) as [Hlt|].
    2:{ simplify_eq/=. exists written. rewrite Z.sub_diag. unfold slice. simpl. rewrite app_nil_r. repeat split; done || lia. }
    destruct o as [n| |]; simpl in Hok.
    + destruct Hok as [Hn Hok]. rewrite wrap_small in Hrun by (unfold in_range; lia).
      apply IH in Hrun as (m & Hm & Hwire & Hr & Ht); [|done|lia|done]. exists m. simpl in *. split; [lia|].
      split; [|done]. rewrite Hwire, <- app_assoc. f_equal. rewrite slice_app by lia. f_equal. lia.
    + destruct (write_retry_count cfg <=? retry).
      * simplify_eq. exists written. rewrite Z.sub_diag. unfold slice. simpl. rewrite app_nil_r. repeat split; done || lia.
      * apply IH in Hrun as (m & Hm & Hwire & Hr & Ht); [|done..]. exists m. by simpl in *.
    + simplify_eq. exists written. rewrite Z.sub_diag. unfold slice. simpl. rewrite app_nil_r. repeat split; done || lia.
Qed.

(** A successful Send puts exactly one well-formed frame on the wire,
    carrying the payload, the type and the next sequence number, however the
    port splits the writes; sequence numbers count up modulo 2^16. *)
Lemma serial_send_writes_frame now now2 outcomes type_index payload s s' :
  Z.of_nat (length payload) < 65500 -> kMaxFrame <= 65535 ->
  outcomes_ok (Z.of_nat (length payload) + 13) 0 outcomes ->
  Send cfg kMaxFrame now now2 outcomes type_index (Some payload) (Z.of_nat (length payload)) s = Some (None, s') ->
  wire s' = wire s ++ frame_bytes (payload, type_index, tx_seq_ s) /\ tx_seq_ s' = u16 (tx_seq_ s + 1).
Proof.
  intros Hlen Hmax Hok. unfold Send. destruct (port_open s); [|done]. cbn [negb]. cbv zeta.
  set (h := if (_ : bool) then _ else health s). destruct (_ && (max_frames_per_second cfg <=? _)); [done|].
  assert (Hm : u32 (kSerialHeaderSize + Z.of_nat (length payload) + kSerialCrcSize) =
    kSerialHeaderSize + Z.of_nat (length payload) + kSerialCrcSize)
    by (apply wrap_small; unfold in_range, kSerialHeaderSize, kSerialCrcSize; lia).
  rewrite Hm. destruct (frame_max_size cfg <? _); [done|].
  set (s1 := mkSerial _ _ _ _ _ _ _ _). cbn [tx_seq_ set_health].
  change (seal _) with (frame_bytes (payload, type_index, tx_seq_ s)).
  pose proof (F_length payload type_index (tx_seq_ s)) as HF.
  destruct (kMaxFrame <? _); [done|].
  destruct (WriteAll cfg outcomes (frame_bytes (payload, type_index, tx_seq_ s)) 0 0 s1) as [ [ [e|] s2]|] eqn:Hw; try done.
  intros [= <-]. apply WriteAll_wire in Hw as (n & Hn & Hwire & Hr & Ht); [|lia|lia|by rewrite HF, Z.add_comm].
  specialize (Hr eq_refl). subst n. simpl. rewrite Hwire, Ht. split; [|done]. cbn [wire s1 set_health]. f_equal. rewrite Z.sub_0_r. apply slice_all.
Qed.

End Sending.

Definition demo_send : option (option SerialError * SerialTransport) :=
  Send (demo_cfg 64) 64 10 11 [Wrote 3; WouldBlock; Wrote 0; Wrote 14] 7 (Some [1; 2; 3; 4]) 4 open_port.

Lemma serial_send_writes_frame_witness :
  match demo_send with Some (None, s') => wire s' = frame_bytes ([1; 2; 3; 4], 7, 0) | _ => False end.
Proof.
  assert (Hs : match demo_send with Some (None, _) => true | _ => false end = true) by (vm_compute; reflexivity).
  destruct demo_send as [ [ [e|] s']|] eqn:E; [discriminate Hs| |discriminate Hs].
  apply (serial_send_writes_frame (demo_cfg 64) 64 10 11 [Wrote 3; WouldBlock; Wrote 0; Wrote 14] 7 [1; 2; 3; 4] open_port).
  - simpl. lia.
  - lia.
  - simpl. lia.
  - exact E.
Defined.

(** The error window and the rate-limit window share one start time: every send
    in a new second restarts the ten-second error window without clearing its
    count, so one error per second is counted for ever. *)
Fixpoint second_by_second (n : nat) (t : Z) (s : SerialTransport) : option SerialTransport :=
  match n with
  | O => Some s
  | S n' =>
    match Send (demo_cfg 64) 64 t t [Wrote 13] 7 (Some []) 0 s with
    | Some (_, s) =>
      match FeedByte (demo_cfg 64) 64 true (t + 1) 0 s with
      | Some (_, s) => second_by_second n' (t + 1000) s
      | None => None
      end
    | None => None
    end
  end.

Lemma serial_error_window_shared :
  match second_by_second 40 1000 open_port with
  | Some s => error_count_in_window_ (health s) = 40
  | None => False
  end.
Proof. vm_compute. reflexivity. Qed.
