(* ===== verification/Transport.v ===== *)
(** * Framed TCP transport (include/osp/transport.hpp)

    Frame headers of both versions and their codec, the sequence tracker, and
    sending and receiving frames over a byte stream that the socket splits as it
    likes.  The socket is an input: what each send and receive call does is
    given by a script of outcomes. *)

From Stdlib Require Import ZArith Lia Bool.
From stdpp Require Import base numbers list option.
From S2P Require Import Prelude.

Open Scope Z_scope.

(** ** Frames *)

Inductive TransportError :=
| kConnectionFailed | kBindFailed | kSendFailed | kRecvFailed | kSerializationError | kInvalidFrame | kBufferFull
| kNotConnected | kWouldBlock.

Definition kFrameMagicV0 : Z := 1330860032.
Definition kFrameMagicV1 : Z := 1330860033.
Definition kFrameMagic : Z := kFrameMagicV0.
Definition kHeaderSize : Z := 14.
Definition kHeaderSizeV1 : Z := 26.

Record FrameHeader := mkFrameHeader { magic : Z; length_ : Z; type_index : Z; sender_id : Z }.
Record FrameHeaderV1 := mkFrameHeaderV1 { base : FrameHeader; seq_num : Z; timestamp_ns : Z }.

(** The four fields common to both versions. *)
Definition encode_base (h : FrameHeader) : list Z :=
  to_le 4 (magic h) ++ to_le 4 (length_ h) ++ to_le 2 (type_index h) ++ to_le 4 (sender_id h).
Definition decode_base (buf : list Z) : FrameHeader :=
  mkFrameHeader (from_le (slice buf 0 4)) (from_le (slice buf 4 4)) (from_le (slice buf 8 2)) (from_le (slice buf 10 4)).

(** The bytes written into a buffer of [buf_size] bytes; [[]] is the result 0. *)
Definition EncodeHeader (h : FrameHeader) (buf_size : Z) : list Z :=
  if buf_size <? kHeaderSize then [] else encode_base h.
Definition DecodeHeader (buf : list Z) (buf_size : Z) : option FrameHeader :=
  if buf_size <? kHeaderSize then None else Some (decode_base buf).
Definition EncodeHeaderV1 (h : FrameHeaderV1) (buf_size : Z) : list Z :=
  if buf_size <? kHeaderSizeV1 then []
  else encode_base (base h) ++ to_le 4 (seq_num h) ++ to_le 8 (timestamp_ns h).
Definition DecodeHeaderV1 (buf : list Z) (buf_size : Z) : option FrameHeaderV1 :=
  if buf_size <? kHeaderSizeV1 then None
  else Some (mkFrameHeaderV1 (decode_base buf) (from_le (slice buf 14 4)) (from_le (slice buf 18 8))).
Definition DetectVersion (buf : list Z) (buf_size : Z) : Z :=
  if buf_size <? 4 then 255
  else let m := from_le (slice buf 0 4) in
       if m =? kFrameMagicV0 then 0 else if m =? kFrameMagicV1 then 1 else 255.

(** ** Sequence tracking *)

Record SequenceTracker := mkTracker {
  expected_seq_ : Z;
  total_received_ : Z;
  lost_count_ : Z;
  reordered_count_ : Z;
  duplicate_count_ : Z
}.
Definition SequenceTracker_ctor : SequenceTracker := mkTracker 0 0 0 0 0.

Definition Track (seq : Z) (t : SequenceTracker) : bool * SequenceTracker :=
  let total := u64 (total_received_ t + 1) in
  let diff := u32 (seq - expected_seq_ t) in
  if diff =? 0 then (true, mkTracker (u32 (expected_seq_ t + 1)) total (lost_count_ t) (reordered_count_ t) (duplicate_count_ t))
  else if diff <? 2 ^ 31
  then (true, mkTracker (u32 (seq + 1)) total (u64 (lost_count_ t + diff)) (reordered_count_ t) (duplicate_count_ t))
  else
    let gap := u32 (expected_seq_ t - seq) in
    if gap <=? 1000
    then (false, mkTracker (expected_seq_ t) total (lost_count_ t) (u64 (reordered_count_ t + 1)) (duplicate_count_ t))
    else (false, mkTracker (expected_seq_ t) total (lost_count_ t) (reordered_count_ t) (u64 (duplicate_count_ t + 1))).
Definition tracker_Reset (t : SequenceTracker) : SequenceTracker := mkTracker 0 0 0 0 0.
Definition SetExpected (seq : Z) (t : SequenceTracker) : SequenceTracker :=
  mkTracker seq (total_received_ t) (lost_count_ t) (reordered_count_ t) (duplicate_count_ t).

(** ** The connection *)

(** What a socket call does: accept or return up to [n] bytes, would block, fail. *)
Inductive SocketOutcome := Moved (n : Z) | Blocks | Fails.

Record TcpTransport := mkTcp {
  connected_ : bool;
  (* bytes accepted by the socket, bytes the peer's stream still holds *)
  outbox : list Z;
  inbox : list Z
}.

Definition kMaxEagainRetries : Z := 16.

Definition set_connected (c : bool) (t : TcpTransport) : TcpTransport := mkTcp c (outbox t) (inbox t).
Definition tcp_Close (t : TcpTransport) : TcpTransport := set_connected false t.

(** A result with the unused outcomes; [None] needs more outcomes. *)
Definition M (A : Type) : Type := option ((A + TransportError) * TcpTransport * list SocketOutcome).

(** SendAll of [data]. *)
Fixpoint SendAll (script : list SocketOutcome) (data : list Z) (eagain_count : Z) (t : TcpTransport) : M unit :=
  match data with
  | [] => Some (inl tt, t, script)
  | _ =>
    match script with
    | [] => None
    | Blocks :: script' =>
      let eagain_count := eagain_count + 1 in
      if kMaxEagainRetries <? eagain_count then Some (inr kWouldBlock, t, script') else SendAll script' data eagain_count t
    | Fails :: script' => Some (inr kSendFailed, set_connected false t, script')
    | Moved n :: script' =>
      let sent := take (Z.to_nat n) data in
      match sent with
      | [] => Some (inr kSendFailed, set_connected false t, script')
      | _ => SendAll script' (drop (Z.to_nat n) data) 0 (mkTcp (connected_ t) (outbox t ++ sent) (inbox t))
      end
    end
  end.

(** RecvAll of [remaining] bytes, appended to [acc]. *)
Fixpoint RecvAll (script : list SocketOutcome) (remaining : nat) (eagain_count : Z) (acc : list Z) (t : TcpTransport)
    : M (list Z) :=
  match remaining with
  | O => Some (inl acc, t, script)
  | _ =>
    match script with
    | [] => None
    | Blocks :: script' =>
      let eagain_count := eagain_count + 1 in
      if kMaxEagainRetries <? eagain_count then Some (inr kWouldBlock, t, script')
      else RecvAll script' remaining eagain_count acc t
    | Fails :: script' => Some (inr kRecvFailed, set_connected false t, script')
    | Moved n :: script' =>
      let got := take (Nat.min (Z.to_nat n) remaining) (inbox t) in
      match got with
      | [] => Some (inr kRecvFailed, set_connected false t, script')
      | _ =>
        RecvAll script' (remaining - length got) eagain_count (acc ++ got)
          (mkTcp (connected_ t) (outbox t) (drop (length got) (inbox t)))
      end
    end
  end.

Section Tcp.
(** OSP_TRANSPORT_MAX_FRAME_SIZE *)
Context (kMaxFrameSize : Z).

(** Sending an encoded header and then the payload ([None] is a null pointer). *)
Definition send_frame (header : list Z) (payload_len : Z) (payload : option (list Z)) (script : list SocketOutcome)
    (t : TcpTransport) : M unit :=
  if negb (connected_ t) then Some (inr kNotConnected, t, script)
  else if kMaxFrameSize <? payload_len then Some (inr kBufferFull, t, script)
  else
    match SendAll script header 0 t with
    | Some (inl tt, t, script) =>
      match payload with
      | Some data => if 0 <? payload_len then SendAll script data 0 t else Some (inl tt, t, script)
      | None => Some (inl tt, t, script)
      end
    | r => r
    end.

Definition SendFrame (ty sender : Z) (payload : option (list Z)) (payload_len : Z) :=
  send_frame (EncodeHeader (mkFrameHeader kFrameMagic payload_len ty sender) kHeaderSize) payload_len payload.
Definition SendFrameV1 (ty sender seq ts : Z) (payload : option (list Z)) (payload_len : Z) :=
  send_frame (EncodeHeaderV1 (mkFrameHeaderV1 (mkFrameHeader kFrameMagicV1 payload_len ty sender) seq ts) kHeaderSizeV1)
    payload_len payload.

(** Checking the decoded header and receiving the payload. *)
Definition recv_payload {H : Type} (expected_magic : Z) (h : H) (b : FrameHeader) (buf_size : Z)
    (script : list SocketOutcome) (t : TcpTransport) : M (H * list Z) :=
  if negb (magic b =? expected_magic) then Some (inr kInvalidFrame, t, script)
  else if buf_size <? length_ b then Some (inr kBufferFull, t, script)
  else if 0 <? length_ b then
    match RecvAll script (Z.to_nat (length_ b)) 0 [] t with
    | Some (inl data, t, script) => Some (inl (h, data), t, script)
    | Some (inr e, t, script) => Some (inr e, t, script)
    | None => None
    end
  else Some (inl (h, []), t, script).

Definition RecvFrame (buf_size : Z) (script : list SocketOutcome) (t : TcpTransport) : M (FrameHeader * list Z) :=
  if negb (connected_ t) then Some (inr kNotConnected, t, script)
  else
    match RecvAll script (Z.to_nat kHeaderSize) 0 [] t with
    | Some (inl hdr, t, script) =>
      match DecodeHeader hdr kHeaderSize with
      | Some h => recv_payload kFrameMagic h h buf_size script t
      | None => Some (inr kInvalidFrame, t, script)
      end
    | Some (inr e, t, script) => Some (inr e, t, script)
    | None => None
    end.

Definition RecvFrameAuto (buf_size : Z) (script : list SocketOutcome) (t : TcpTransport) : M (FrameHeaderV1 * list Z) :=
  if negb (connected_ t) then Some (inr kNotConnected, t, script)
  else
    match RecvAll script 4 0 [] t with
    | Some (inl magic_buf, t, script) =>
      let version := DetectVersion magic_buf 4 in
      if version =? 0 then
        match RecvAll script (Z.to_nat (kHeaderSize - 4)) 0 [] t with
        | Some (inl rest, t, script) =>
          match DecodeHeader (magic_buf ++ rest) kHeaderSize with
          | Some h => recv_payload kFrameMagicV0 (mkFrameHeaderV1 h 0 0) h buf_size script t
          | None => Some (inr kInvalidFrame, t, script)
          end
        | Some (inr e, t, script) => Some (inr e, t, script)
        | None => None
        end
      else if version =? 1 then
        match RecvAll script (Z.to_nat (kHeaderSizeV1 - 4)) 0 [] t with
        | Some (inl rest, t, script) =>
          match DecodeHeaderV1 (magic_buf ++ rest) kHeaderSizeV1 with
          | Some h => recv_payload kFrameMagicV1 h (base h) buf_size script t
          | None => Some (inr kInvalidFrame, t, script)
          end
        | Some (inr e, t, script) => Some (inr e, t, script)
        | None => None
        end
      else Some (inr kInvalidFrame, t, script)
    | Some (inr e, t, script) => Some (inr e, t, script)
    | None => None
    end.

End Tcp.

(** ** Codec *)

(** Reading the middle of a concatenation. *)
Lemma slice_mid (l a b c : list Z) off n :
  l = a ++ b ++ c -> off = Z.of_nat (length a) -> n = Z.of_nat (length b) -> slice l off n = b.
Proof. intros -> -> ->. unfold slice. rewrite !Nat2Z.id, drop_app_length. apply take_app_length. Qed.

(** Solves the side conditions for fields of known sizes. *)
Ltac field_sides := rewrite ?app_nil_l, <- ?app_assoc; rewrite ?length_app, ?length_to_le; reflexivity.

Definition base_ok (h : FrameHeader) : Prop :=
  in_range 32 (magic h) /\ in_range 32 (length_ h) /\ in_range 16 (type_index h) /\ in_range 32 (sender_id h).

Lemma decode_encode_base h rest : base_ok h -> decode_base (encode_base h ++ rest) = h.
Proof.
  intros (H1 & H2 & H3 & H4). unfold decode_base, encode_base.
  set (m := to_le 4 (magic h)). set (l := to_le 4 (length_ h)). set (ty := to_le 2 (type_index h)). set (sd := to_le 4 (sender_id h)).
  rewrite (slice_mid _ [] m (l ++ ty ++ sd ++ rest)) by (unfold m, l, ty, sd; field_sides).
  rewrite (slice_mid _ m l (ty ++ sd ++ rest)) by (unfold m, l, ty, sd; field_sides).
  rewrite (slice_mid _ (m ++ l) ty (sd ++ rest)) by (unfold m, l, ty, sd; field_sides).
  rewrite (slice_mid _ (m ++ l ++ ty) sd rest) by (unfold m, l, ty, sd; field_sides).
  unfold m, l, ty, sd. rewrite !from_to_le by assumption. by destruct h.
Qed.

Lemma length_encode_base h : length (encode_base h) = 14%nat.
Proof. unfold encode_base. by rewrite !length_app, !length_to_le. Qed.

Definition v1_ok (h : FrameHeaderV1) : Prop := base_ok (base h) /\ in_range 32 (seq_num h) /\ in_range 64 (timestamp_ns h).

Lemma decode_encode_v1 h :
  v1_ok h -> DecodeHeaderV1 (EncodeHeaderV1 h kHeaderSizeV1) kHeaderSizeV1 = Some h.
Proof.
  intros (H1 & H2 & H3). unfold DecodeHeaderV1, EncodeHeaderV1. change (kHeaderSizeV1 <? kHeaderSizeV1) with false. cbv iota.
  pose proof (length_encode_base (base h)) as Hl. rewrite decode_encode_base by done.
  set (b := encode_base (base h)) in *. set (q := to_le 4 (seq_num h)). set (ts := to_le 8 (timestamp_ns h)).
  rewrite (slice_mid _ b q ts) by (rewrite ?Hl; unfold q, ts; field_sides).
  rewrite (slice_mid _ (b ++ q) ts []) by (rewrite ?length_app, ?Hl, ?app_nil_r; unfold q, ts; field_sides).
  unfold q, ts. rewrite !from_to_le by assumption. by destruct h.
Qed.

(** ** The byte stream *)

Definition moves (o : SocketOutcome) : bool := match o with Moved _ => true | _ => false end.
Definition blocks (o : SocketOutcome) : bool := match o with Blocks => true | _ => false end.

(** A script that delivers at least [need] bytes with at most [kMaxEagainRetries]
    would-block results in all. *)
Record script_ok (need : nat) (script : list SocketOutcome) : Prop := {
  sc_shape : Forall (fun o => match o with Moved n => 1 <= n | Blocks => True | Fails => False end) script;
  sc_moves : (need <= count_if moves script)%nat;
  sc_blocks : Z.of_nat (count_if blocks script) <= kMaxEagainRetries
}.

Lemma script_ok_weaken m n script : (m <= n)%nat -> script_ok n script -> script_ok m script.
Proof. intros ? []. split; [done|lia|done]. Qed.

Lemma RecvAll_ok script m need eagain acc t :
  Forall (fun o => match o with Moved n => 1 <= n | Blocks => True | Fails => False end) script ->
  (m + need <= count_if moves script)%nat -> 0 <= eagain -> eagain + Z.of_nat (count_if blocks script) <= kMaxEagainRetries ->
  (m <= length (inbox t))%nat ->
  exists script', RecvAll script m eagain acc t =
      Some (inl (acc ++ take m (inbox t)), mkTcp (connected_ t) (outbox t) (drop m (inbox t)), script') /\
    script_ok need script'.
Proof.
  revert m eagain acc t. induction script as [|o script IH]; intros m eagain acc t Hs Hm He Hb Hi.
  - change (count_if moves []) with 0%nat in Hm. assert (m = 0%nat) as -> by lia. exists []. simpl. rewrite drop_0, app_nil_r.
    split; [by destruct t|]. split; [done|simpl; lia|simpl; unfold kMaxEagainRetries in *; lia].
  - destruct m as [|m].
    { exists (o :: script). simpl. rewrite drop_0, app_nil_r. split; [by destruct t|]. split; [done|lia|lia]. }
    inversion_clear Hs as [|? ? Ho Hs']. rewrite !count_if_cons in *. unfold bit in *.
    destruct o as [n| |]; simpl in Hm, Hb; [| |done].
    + cbn [RecvAll]. set (got := take (Z.to_nat n `min` S m) (inbox t)).
      assert (Hg : (1 <= length got <= S m)%nat /\ length got = (Z.to_nat n `min` S m)%nat).
      { subst got. rewrite length_take. lia. }
      destruct got as [|x got'] eqn:Eg; [simpl in Hg; lia|]. rewrite <- Eg in *. clear x got' Eg.
      destruct (IH (S m - length got)%nat eagain (acc ++ got) (mkTcp (connected_ t) (outbox t) (drop (length got) (inbox t))))
        as (script' & HR & Hok); simpl; [done|lia|done|lia|rewrite length_drop; lia|].
      exists script'. split; [|done]. rewrite HR. simpl. rewrite drop_drop, <- app_assoc.
      destruct Hg as [Hg1 Hg2]. replace (length got + (S m - length got))%nat with (S m) by lia.
      assert (Hgt : got = take (length got) (inbox t)) by (rewrite Hg2; reflexivity).
      do 4 f_equal. rewrite Hgt at 1. rewrite take_take_drop. do 2 f_equal. lia.
    + cbn [RecvAll]. destruct (Z.ltb_spec kMaxEagainRetries (eagain + 1)); [lia|]. apply IH; try done; lia.
Qed.

Lemma RecvAll_frame script m need acc t :
  script_ok (m + need) script -> (m <= length (inbox t))%nat ->
  exists script', RecvAll script m 0 acc t =
      Some (inl (acc ++ take m (inbox t)), mkTcp (connected_ t) (outbox t) (drop m (inbox t)), script') /\
    script_ok need script'.
Proof. intros [] Hi. apply RecvAll_ok; done || lia. Qed.

(** A completed SendAll put all its bytes on the stream. *)
Lemma SendAll_outbox script data eagain t t' script' :
  SendAll script data eagain t = Some (inl tt, t', script') ->
  outbox t' = outbox t ++ data /\ connected_ t' = connected_ t.
Proof.
  revert data eagain t. induction script as [|o script IH]; intros data eagain t Hs; simpl in Hs.
  - destruct data; [|done]. simplify_eq. by rewrite app_nil_r.
  - destruct data as [|b data]; [simplify_eq; by rewrite app_nil_r|].
    destruct o as [n| |]; [|by destruct (kMaxEagainRetries <? eagain + 1); [|apply IH in Hs]|done].
    destruct (take (Z.to_nat n) (b :: data)) as [|x l] eqn:Et; [done|]. apply IH in Hs as [Ho Hc]. simpl in *.
    rewrite Ho, <- app_assoc. split; [|done]. f_equal.
    change (x :: l ++ drop (Z.to_nat n) (b :: data)) with ((x :: l) ++ drop (Z.to_nat n) (b :: data)).
    rewrite <- Et. apply take_drop.
Qed.

(** ** Frames over the stream *)

(** A message as it is sent, with either header version. *)
Inductive Message :=
| MsgV0 (ty sender : Z) (payload : list Z)
| MsgV1 (ty sender seq ts : Z) (payload : list Z).

Definition msg_payload (m : Message) : list Z := match m with MsgV0 _ _ p | MsgV1 _ _ _ _ p => p end.
Definition msg_length (m : Message) : Z := Z.of_nat (length (msg_payload m)).

Definition send_message (kMaxFrameSize : Z) (m : Message) : list SocketOutcome -> TcpTransport -> M unit :=
  match m with
  | MsgV0 ty sender p => SendFrame kMaxFrameSize ty sender (Some p) (msg_length m)
  | MsgV1 ty sender seq ts p => SendFrameV1 kMaxFrameSize ty sender seq ts (Some p) (msg_length m)
  end.

(** The header the receiver reports. *)
Definition msg_header (m : Message) : FrameHeaderV1 :=
  match m with
  | MsgV0 ty sender _ => mkFrameHeaderV1 (mkFrameHeader kFrameMagicV0 (msg_length m) ty sender) 0 0
  | MsgV1 ty sender seq ts _ => mkFrameHeaderV1 (mkFrameHeader kFrameMagicV1 (msg_length m) ty sender) seq ts
  end.

Definition msg_ok (m : Message) : Prop :=
  v1_ok (msg_header m) /\ msg_length m < 2 ^ 32.

Definition wire_bytes (m : Message) : list Z :=
  match m with
  | MsgV0 _ _ _ => EncodeHeader (base (msg_header m)) kHeaderSize
  | MsgV1 _ _ _ _ _ => EncodeHeaderV1 (msg_header m) kHeaderSizeV1
  end ++ msg_payload m.

Lemma send_message_outbox kMax m script t t' script' :
  send_message kMax m script t = Some (inl tt, t', script') -> outbox t' = outbox t ++ wire_bytes m.
Proof.
  assert (Hgen : forall header, send_frame kMax header (msg_length m) (Some (msg_payload m)) script t = Some (inl tt, t', script') ->
    outbox t' = outbox t ++ header ++ msg_payload m).
  { intros header. unfold send_frame. destruct (negb _); [done|]. destruct (kMax <? _); [done|].
    destruct (SendAll script header 0 t) as [ [ [ [ [] |e] t1] script1]|] eqn:Hh; try done.
    apply SendAll_outbox in Hh as [Hh _]. destruct (Z.ltb_spec 0 (msg_length m)) as [|Hz].
    - intros [Hp _]%SendAll_outbox. by rewrite Hp, Hh, <- app_assoc.
    - intros [= <- <-]. unfold msg_length in Hz. destruct (msg_payload m); [|simpl in Hz; lia]. by rewrite Hh, app_nil_r. }
  destruct m; apply Hgen.
Qed.

Lemma recv_payload_ok {H : Type} mg (h : H) b buf_size need script t payload rest :
  magic b = mg -> length_ b = Z.of_nat (length payload) -> length_ b <= buf_size -> inbox t = payload ++ rest ->
  script_ok (length payload + need) script ->
  exists script', recv_payload mg h b buf_size script t =
    Some (inl (h, payload), mkTcp (connected_ t) (outbox t) rest, script').
Proof.
  intros Hm Hl Hb Hi Hs. unfold recv_payload. rewrite Hm, Z.eqb_refl. cbn [negb].
  destruct (Z.ltb_spec buf_size (length_ b)); [lia|]. destruct (Z.ltb_spec 0 (length_ b)).
  - rewrite Hl, Nat2Z.id. destruct (RecvAll_frame script (length payload) need [] t Hs) as (script' & -> & _).
    { rewrite Hi, length_app. lia. }
    exists script'. by rewrite Hi, take_app_length, drop_app_length.
  - destruct payload as [|x payload]; [|simpl in Hl; lia]. exists script. rewrite app_nil_l in Hi. by destruct t; simplify_eq/=.
Qed.

Lemma length_encode_v1 h : length (EncodeHeaderV1 h kHeaderSizeV1) = 26%nat.
Proof. unfold EncodeHeaderV1. change (kHeaderSizeV1 <? kHeaderSizeV1) with false. cbv iota. by rewrite !length_app, length_encode_base, !length_to_le. Qed.

(** The first four bytes tell the version. *)
Lemma detect_base h rest :
  in_range 32 (magic h) ->
  DetectVersion (take 4 (encode_base h ++ rest)) 4 =
    if magic h =? kFrameMagicV0 then 0 else if magic h =? kFrameMagicV1 then 1 else 255.
Proof.
  intros Hm. unfold DetectVersion. change (4 <? 4) with false. cbv iota.
  assert (slice (take 4 (encode_base h ++ rest)) 0 4 = to_le 4 (magic h)) as ->; [|by rewrite from_to_le].
  unfold slice, encode_base. rewrite drop_0, take_take. change (Z.to_nat 4 `min` 4)%nat with 4%nat.
  rewrite <- app_assoc. rewrite <- (length_to_le 4 (magic h)) at 1. apply take_app_length.
Qed.

Lemma length_wire m :
  length (wire_bytes m) = (4 + ((match m with MsgV0 _ _ _ => 10 | _ => 22 end) + (length (msg_payload m) + 0)))%nat.
Proof.
  unfold wire_bytes. rewrite length_app. destruct m; [|by rewrite length_encode_v1, Nat.add_0_r].
  unfold EncodeHeader. change (kHeaderSize <? kHeaderSize) with false. cbv iota. by rewrite length_encode_base, Nat.add_0_r.
Qed.

(** The first four bytes of a message tell its version. *)
Lemma detect_wire m rest : base_ok (base (msg_header m)) ->
  DetectVersion (take 4 (wire_bytes m ++ rest)) 4 = match m with MsgV0 _ _ _ => 0 | _ => 1 end.
Proof.
  intros Hb. unfold wire_bytes. destruct m.
  - unfold EncodeHeader. change (kHeaderSize <? kHeaderSize) with false. cbv iota. rewrite <- app_assoc.
    rewrite detect_base by apply Hb. done.
  - unfold EncodeHeaderV1. change (kHeaderSizeV1 <? kHeaderSizeV1) with false. cbv iota. rewrite <- !app_assoc.
    rewrite detect_base by apply Hb. done.
Qed.

(** C28. Round trip over a stream: whatever a completed SendFrame or SendFrameV1
    put on the connection, the receiver gets back from RecvFrameAuto, header
    fields and payload, and leaves the rest of the stream untouched, however the
    socket fragments both directions, provided the connection is open, the payload fits
    the receiver's buffer, and the receiving socket reports no error and would-block
    [kMaxEagainRetries] = 16 times at most during the frame ([script_ok]): with more, the
    bytes already read are lost and the stream is out of step
    ([tcp_would_block_desynchronises]). *)
Theorem tcp_frame_roundtrip kMax m send_script ts ts' left buf_size recv_script tr rest :
  msg_ok m -> send_message kMax m send_script ts = Some (inl tt, ts', left) -> outbox ts = [] ->
  connected_ tr = true -> inbox tr = outbox ts' ++ rest -> msg_length m <= buf_size ->
  script_ok (length (wire_bytes m)) recv_script ->
  exists left', RecvFrameAuto buf_size recv_script tr =
    Some (inl (msg_header m, msg_payload m), mkTcp true (outbox tr) rest, left').
Proof.
  intros [ (Hb & Hq & Hts) Hlen] Hsend Hout Hconn Hin Hbuf Hs.
  apply send_message_outbox in Hsend. rewrite Hout, app_nil_l in Hsend. rewrite Hsend in Hin.
  unfold RecvFrameAuto. rewrite Hconn. cbn [negb]. cbv iota.
  pose proof (length_wire m) as Hwl. rewrite Hwl in Hs.
  destruct (RecvAll_frame recv_script 4 _ [] tr Hs) as (s1 & -> & Hs1).
  { rewrite Hin, length_app, Hwl. lia. }
  rewrite app_nil_l. cbn [connected_ outbox inbox].
  pose proof (detect_wire m rest Hb) as Hdet. rewrite <- Hin in Hdet. rewrite Hdet.
  destruct m as [ty sender payload|ty sender seq tsn payload]; cbn [msg_payload] in *.
  - change (0 =? 0) with true. cbv iota. change (Z.to_nat (kHeaderSize - 4)) with 10%nat.
    destruct (RecvAll_frame s1 10 _ [] (mkTcp (connected_ tr) (outbox tr) (drop 4 (inbox tr))) Hs1) as (s2 & -> & Hs2).
    { cbn [inbox]. rewrite length_drop, Hin, length_app, Hwl. lia. }
    rewrite app_nil_l. cbn [inbox connected_ outbox]. rewrite take_take_drop, drop_drop. change (4 + 10)%nat with 14%nat.
    unfold wire_bytes in Hin. cbn [msg_payload] in Hin. unfold EncodeHeader in Hin.
    change (kHeaderSize <? kHeaderSize) with false in Hin. cbv iota in Hin. rewrite <- app_assoc in Hin.
    set (b := base (msg_header (MsgV0 ty sender payload))) in *.
    rewrite Hin, <- (length_encode_base b), take_app_length, drop_app_length.
    unfold DecodeHeader. change (kHeaderSize <? kHeaderSize) with false. cbv iota.
    rewrite <- (app_nil_r (encode_base b)), decode_encode_base by done.
    destruct (recv_payload_ok kFrameMagicV0 (mkFrameHeaderV1 b 0 0) b buf_size 0 s2
      (mkTcp (connected_ tr) (outbox tr) (payload ++ rest)) payload rest) as (s3 & ->); try done.
    exists s3. simpl. by rewrite Hconn.
  - change (1 =? 0) with false. change (1 =? 1) with true. cbv iota. change (Z.to_nat (kHeaderSizeV1 - 4)) with 22%nat.
    destruct (RecvAll_frame s1 22 _ [] (mkTcp (connected_ tr) (outbox tr) (drop 4 (inbox tr))) Hs1) as (s2 & -> & Hs2).
    { cbn [inbox]. rewrite length_drop, Hin, length_app, Hwl. lia. }
    rewrite app_nil_l. cbn [inbox connected_ outbox]. rewrite take_take_drop, drop_drop. change (4 + 22)%nat with 26%nat.
    unfold wire_bytes in Hin. cbn [msg_payload] in Hin. rewrite <- app_assoc in Hin.
    set (h := msg_header (MsgV1 ty sender seq tsn payload)) in *.
    rewrite Hin, <- (length_encode_v1 h), take_app_length, drop_app_length, decode_encode_v1 by done.
    destruct (recv_payload_ok kFrameMagicV1 h (base h) buf_size 0 s2
      (mkTcp (connected_ tr) (outbox tr) (payload ++ rest)) payload rest) as (s3 & ->); try done.
    exists s3. simpl. by rewrite Hconn.
Qed.

(** A message that arrives in pieces of 3 bytes with three would-block results. *)
Definition demo_msg : Message := MsgV1 7 42 5 123456789 [1; 2; 3].
Definition demo_out : TcpTransport := mkTcp true (wire_bytes demo_msg) [].
Definition demo_in : TcpTransport := mkTcp true [] (wire_bytes demo_msg ++ [9; 9]).
Definition demo_script : list SocketOutcome := [Blocks; Moved 3; Blocks] ++ replicate 30 (Moved 3) ++ [Blocks].

Lemma tcp_frame_roundtrip_witness :
  exists left', RecvFrameAuto 64 demo_script demo_in = Some (inl (msg_header demo_msg, [1; 2; 3]), mkTcp true [] [9; 9], left').
Proof.
  apply (tcp_frame_roundtrip 4096 demo_msg [Moved 10; Blocks; Moved 16; Moved 1; Moved 2] (mkTcp true [] []) demo_out []
    64 demo_script demo_in [9; 9]).
  - unfold msg_ok, v1_ok, base_ok, in_range. simpl. unfold kFrameMagicV1, msg_length. simpl. lia.
  - vm_compute. reflexivity.
  - reflexivity.
  - reflexivity.
  - vm_compute. reflexivity.
  - vm_compute. discriminate.
  - split; [unfold demo_script; repeat constructor; lia|vm_compute; lia|vm_compute; discriminate].
Defined.

(** Giving up on a would-block result in the middle of a frame loses the
    bytes already read without closing the connection: when the rest arrives, the
    next receive takes payload bytes for a header and rejects the stream. *)
Lemma tcp_would_block_desynchronises :
  let script := [Moved 5] ++ replicate 17 Blocks ++ replicate 30 (Moved 64) in
  exists t left, RecvFrameAuto 64 script demo_in = Some (inr kWouldBlock, t, left) /\ connected_ t = true /\
    exists t' left', RecvFrameAuto 64 left t = Some (inr kInvalidFrame, t', left').
Proof. eexists _, _. split; [vm_compute; reflexivity|]. split; [done|]. eexists _, _. vm_compute. reflexivity. Qed.

(** ** Loss accounting *)

(** Packets numbered by increasing integers, sent modulo 2^32, each ahead of the
    expected one by less than half the range. *)
Fixpoint ascending (e : Z) (xs : list Z) : Prop :=
  match xs with [] => True | x :: xs' => e <= x < e + 2 ^ 31 /\ ascending (x + 1) xs' end.
Definition next_expected (e : Z) (xs : list Z) : Z := foldl (fun _ x => x + 1) e xs.

Lemma Track_ahead e x t :
  expected_seq_ t = u32 e -> e <= x < e + 2 ^ 31 -> lost_count_ t = u64 (lost_count_ t) ->
  Track (u32 x) t =
    (true, mkTracker (u32 (x + 1)) (u64 (total_received_ t + 1)) (u64 (lost_count_ t + (x - e))) (reordered_count_ t) (duplicate_count_ t)).
Proof.
  intros He Hx Hl. unfold Track. rewrite He, wrap_sub_wrap. rewrite (wrap_small 32 (x - e)) by (unfold in_range; lia).
  destruct (Z.eqb_spec (x - e) 0) as [Hz|].
  - assert (x = e) as -> by lia. rewrite Z.sub_diag, Z.add_0_r, <- Hl, wrap_add_l. done.
  - destruct (Z.ltb_spec (x - e) (2 ^ 31)); [|lia]. by rewrite wrap_add_l.
Qed.

Lemma Track_behind e x t :
  expected_seq_ t = u32 e -> e - 2 ^ 31 <= x < e ->
  Track (u32 x) t =
    (false, mkTracker (expected_seq_ t) (u64 (total_received_ t + 1)) (lost_count_ t)
      (if e - x <=? 1000 then u64 (reordered_count_ t + 1) else reordered_count_ t)
      (if e - x <=? 1000 then duplicate_count_ t else u64 (duplicate_count_ t + 1))).
Proof.
  intros He Hx. unfold Track. rewrite He, !wrap_sub_wrap. rewrite (wrap_small 32 (e - x)) by (unfold in_range; lia).
  assert (u32 (x - e) = x - e + 2 ^ 32) as ->.
  { unfold wrap. symmetry. apply (Z.mod_unique _ _ (-1)); lia. }
  destruct (Z.eqb_spec (x - e + 2 ^ 32) 0); [lia|]. destruct (Z.ltb_spec (x - e + 2 ^ 32) (2 ^ 31)); [lia|].
  by destruct (e - x <=? 1000).
Qed.

(** Loss accounting across the wrap-around: over packets that arrive in
    order, possibly with gaps, every packet is accepted and the lost count grows
    by exactly the number of missing ones; a packet from the past is rejected,
    counted once, and does not disturb the expectation. *)
Lemma sequence_tracker_counts_losses e xs t :
  expected_seq_ t = u32 e -> in_range 64 (lost_count_ t) -> in_range 64 (total_received_ t) -> ascending e xs ->
  let '(rs, t') := run (fun x => Track (u32 x)) xs t in
  rs = replicate (length xs) true /\ expected_seq_ t' = u32 (next_expected e xs) /\
  lost_count_ t' = u64 (lost_count_ t + (next_expected e xs - e - Z.of_nat (length xs))) /\
  total_received_ t' = u64 (total_received_ t + Z.of_nat (length xs)) /\
  (forall y, next_expected e xs - 2 ^ 31 <= y < next_expected e xs ->
     (Track (u32 y) t').1 = false /\ expected_seq_ (Track (u32 y) t').2 = expected_seq_ t' /\
     lost_count_ (Track (u32 y) t').2 = lost_count_ t').
Proof.
  revert e t. induction xs as [|x xs IH]; intros e t He Hl Ht Ha; cbn [run].
  - unfold next_expected. simpl. rewrite Z.sub_diag, !Z.add_0_r, !(wrap_small 64) by done. split_and!; try done.
    intros y Hy. by rewrite (Track_behind e).
  - destruct Ha as [Hx Ha]. rewrite (Track_ahead e x t He Hx) by (symmetry; by apply wrap_small).
    set (t1 := mkTracker _ _ _ _ _). specialize (IH (x + 1) t1 eq_refl (wrap_range 64 _ ltac:(lia)) (wrap_range 64 _ ltac:(lia)) Ha).
    destruct (run (fun x0 => Track (u32 x0)) xs t1) as [rs t']. destruct IH as (-> & E1 & E2 & E3 & E4).
    simpl in E2, E3. rewrite wrap_add_l in E2, E3. change (next_expected e (x :: xs)) with (next_expected (x + 1) xs).
    split_and!; try done.
    + rewrite E2. f_equal. simpl length. lia.
    + rewrite E3. f_equal. simpl length. lia.
Qed.

(** The stream crosses 2^32 with packets 2 and 5 after the wrap missing three. *)
Lemma sequence_tracker_counts_losses_witness :
  (run (fun x => Track (u32 x)) [2 ^ 32 - 1; 2 ^ 32; 2 ^ 32 + 2; 2 ^ 32 + 5] (SetExpected (2 ^ 32 - 1) SequenceTracker_ctor)).2 =
    mkTracker 6 4 3 0 0 /\
  lost_count_ (run (fun x => Track (u32 x)) [2 ^ 32 - 1; 2 ^ 32; 2 ^ 32 + 2; 2 ^ 32 + 5]
    (SetExpected (2 ^ 32 - 1) SequenceTracker_ctor)).2 = u64 (0 + 3).
Proof.
  split; [vm_compute; reflexivity|].
  pose proof (sequence_tracker_counts_losses (2 ^ 32 - 1) [2 ^ 32 - 1; 2 ^ 32; 2 ^ 32 + 2; 2 ^ 32 + 5]
    (SetExpected (2 ^ 32 - 1) SequenceTracker_ctor)) as H.
  destruct (run _ _ _) as [rs t']. destruct H as (_ & _ & H & _).
  - vm_compute. reflexivity.
  - unfold in_range. simpl. lia.
  - unfold in_range. simpl. lia.
  - simpl. lia.
  - exact H.
Defined.
