(* ===== verification/MemPool.v ===== *)
(** * FixedPool and ObjectPool (include/osp/mem_pool.hpp)

    The fixed-size block pool: an embedded free list under a packed head word
    with an ABA tag.  First the operations run one at a time, as a stack of free
    blocks; then any number of threads allocating, writing and freeing blocks
    concurrently, one shared access per step. *)

From Stdlib Require Import ZArith Lia Bool.
From stdpp Require Import base numbers list option relations.
From S2P Require Import Prelude FreeList.

Open Scope Z_scope.

(** ** The packed head: index in the low, tag in the high 16 bits *)

Definition kInvalidIndex : Z := 2 ^ 32 - 1.
Definition kFreeIndexShift : Z := 16.
Definition kFreeIndexMask : Z := 65535.
Definition kFreeIndexEmpty : Z := kFreeIndexMask.

Definition FreePoolPackHead (index tag : Z) : Z :=
  Z.lor (u32 (Z.shiftl (Z.land tag kFreeIndexMask) kFreeIndexShift)) (Z.land index kFreeIndexMask).
Definition FreePoolHeadIndex (head : Z) : Z := Z.land head kFreeIndexMask.
Definition FreePoolHeadTag (head : Z) : Z := Z.land (Z.shiftr head kFreeIndexShift) kFreeIndexMask.

Lemma pack_head index tag : FreePoolPackHead index tag = u16 index + u16 tag * 2 ^ 16.
Proof.
  unfold FreePoolPackHead, kFreeIndexMask, kFreeIndexShift. change 65535 with (2 ^ 16 - 1). rewrite !land_mask by lia.
  pose proof (wrap_range 16 index ltac:(lia)) as H1. pose proof (wrap_range 16 tag ltac:(lia)) as H2. unfold in_range in *.
  rewrite (wrap_small 32).
  - rewrite Z.lor_comm. by apply lor_shiftl_add.
  - rewrite Z.shiftl_mul_pow2 by lia. unfold in_range. change (2 ^ 32) with (2 ^ 16 * 2 ^ 16). nia.
Qed.

Lemma head_index_pack index tag : FreePoolHeadIndex (FreePoolPackHead index tag) = u16 index.
Proof.
  rewrite pack_head. unfold FreePoolHeadIndex, kFreeIndexMask. change 65535 with (2 ^ 16 - 1). rewrite land_mask by lia.
  unfold wrap. rewrite Z.mod_add by lia. apply Zmod_mod.
Qed.

Lemma head_tag_pack index tag : FreePoolHeadTag (FreePoolPackHead index tag) = u16 tag.
Proof.
  rewrite pack_head. unfold FreePoolHeadTag, kFreeIndexMask, kFreeIndexShift. change 65535 with (2 ^ 16 - 1).
  pose proof (wrap_range 16 index ltac:(lia)) as H1. pose proof (wrap_range 16 tag ltac:(lia)) as H2. unfold in_range in *.
  apply (field_extract 16 16 _ (u16 index) (u16 tag) 0); lia.
Qed.

(** A word is determined by its fields. *)
Lemma head_eta head : in_range 32 head -> head = FreePoolHeadIndex head + FreePoolHeadTag head * 2 ^ 16.
Proof.
  intros Hh. unfold in_range in Hh. unfold FreePoolHeadIndex, FreePoolHeadTag, kFreeIndexMask, kFreeIndexShift.
  change 65535 with (2 ^ 16 - 1). rewrite !land_mask, Z.shiftr_div_pow2 by lia.
  rewrite (wrap_small 16 (head / 2 ^ 16)).
  - unfold wrap. pose proof (Z.div_mod head (2 ^ 16)). lia.
  - unfold in_range. split; [apply Z.div_pos; lia|]. apply Z.div_lt_upper_bound; [lia|]. change (2 ^ 16 * 2 ^ 16) with (2 ^ 32). lia.
Qed.

Lemma head_index_range head : in_range 16 (FreePoolHeadIndex head).
Proof. unfold FreePoolHeadIndex, kFreeIndexMask. change 65535 with (2 ^ 16 - 1). rewrite land_mask by lia. by apply wrap_range. Qed.

Section Pool.
(** [align_bits]: alignof(max_align_t) is [2 ^ align_bits].  [storage_] is the
    address of the storage; pointers are addresses and null is 0. *)
Context (BlockSize MaxBlocks align_bits storage_ : Z).

(** ** Addresses *)

Definition max_align : Z := 2 ^ align_bits.
Definition kAlignedBlockSize : Z := Z.land (BlockSize + max_align - 1) (Z.lnot (max_align - 1)).
Definition BlockPtr (idx : Z) : Z := storage_ + idx * kAlignedBlockSize.
Definition PtrToIndex (ptr : Z) : Z := u32 ((ptr - storage_) / kAlignedBlockSize).
Definition OwnsPointer (ptr : Z) : bool :=
  if (ptr <? storage_) || (storage_ + kAlignedBlockSize * MaxBlocks <=? ptr) then false
  else (ptr - storage_) mod kAlignedBlockSize =? 0.

(** ** One operation at a time *)

(** [links] holds the first word of every block: the next index while the block
    is free, the user's data while it is allocated. *)
Record FixedPool := mkPool {
  free_head_ : Z;
  links : list Z;
  used_count_ : Z;
  allocated_ : list bool
}.

Definition StoreIndex (block next : Z) (p : FixedPool) : FixedPool :=
  mkPool (free_head_ p) (aset (links p) block next) (used_count_ p) (allocated_ p).
Definition LoadIndex (block : Z) (p : FixedPool) : Z := aget (links p) block.

(** [storage0] is what the storage holds before the constructor runs. *)
Definition FixedPool_ctor (storage0 : list Z) : FixedPool :=
  let p := mkPool (FreePoolPackHead 0 0) storage0 0 (replicate (Z.to_nat MaxBlocks) true) in
  let p := for_loop (fun i p => StoreIndex i (u32 (i + 1)) p) 0 (Z.to_nat (MaxBlocks - 1)) p in
  let p := StoreIndex (MaxBlocks - 1) kInvalidIndex p in
  for_loop (fun i p => mkPool (free_head_ p) (links p) (used_count_ p) (aset (allocated_ p) i false)) 0 (Z.to_nat MaxBlocks) p.

(** Allocate and AllocateChecked without interference, where the exchange
    succeeds; [None] is the null pointer or kPoolExhausted. *)
Definition Allocate (p : FixedPool) : option Z * FixedPool :=
  let head := free_head_ p in
  if FreePoolHeadIndex head =? kFreeIndexEmpty then (None, p)
  else
    let idx := FreePoolHeadIndex head in
    let next := LoadIndex idx p in
    let new_head := FreePoolPackHead next (u32 (FreePoolHeadTag head + 1)) in
    (Some (BlockPtr idx), mkPool new_head (links p) (u32 (used_count_ p + 1)) (aset (allocated_ p) idx true)).

(** [None]: an assertion failed. *)
Definition Free (ptr : Z) (p : FixedPool) : option FixedPool :=
  if negb (ptr =? 0) && OwnsPointer ptr then
    let idx := PtrToIndex ptr in
    let head := free_head_ p in
    let p := StoreIndex idx (FreePoolHeadIndex head) p in
    let new_head := FreePoolPackHead idx (u32 (FreePoolHeadTag head + 1)) in
    Some (mkPool new_head (links p) (u32 (used_count_ p - 1)) (aset (allocated_ p) idx false))
  else None.

Definition FreeCount (p : FixedPool) : Z := u32 (MaxBlocks - used_count_ p).
Definition UsedCount (p : FixedPool) : Z := used_count_ p.
Definition IsAllocated (ptr : Z) (p : FixedPool) : bool :=
  if OwnsPointer ptr then aget (allocated_ p) (PtrToIndex ptr) else false.

(** The object pool adds the liveness flags. *)
Record ObjectPool := mkObjects { pool_ : FixedPool; alive_ : list bool }.

Definition ObjectPool_ctor (storage0 : list Z) : ObjectPool :=
  mkObjects (FixedPool_ctor storage0)
    (for_loop (fun i a => aset a i false) 0 (Z.to_nat MaxBlocks) (replicate (Z.to_nat MaxBlocks) true)).

(** Create and CreateChecked of an object whose first word is [x]. *)
Definition Create (x : Z) (o : ObjectPool) : option Z * ObjectPool :=
  let '(mem, p) := Allocate (pool_ o) in
  match mem with
  | None => (None, mkObjects p (alive_ o))
  | Some mem =>
    let idx := PtrToIndex mem in
    (Some mem, mkObjects (StoreIndex idx x p) (aset (alive_ o) idx true))
  end.

Definition Destroy (obj : Z) (o : ObjectPool) : option ObjectPool :=
  if obj =? 0 then Some o
  else
    let idx := PtrToIndex obj in
    if aget (alive_ o) idx then
      match Free obj (pool_ o) with
      | Some p => Some (mkObjects p (aset (alive_ o) idx false))
      | None => None
      end
    else None.

(** The destructor: the objects it destroys, and the pool it leaves. *)
Definition ObjectPool_dtor (o : ObjectPool) : list Z * ObjectPool :=
  for_loop (fun i r =>
      if aget (alive_ r.2) i then (r.1 ++ [BlockPtr i], mkObjects (pool_ r.2) (aset (alive_ r.2) i false)) else r)
    0 (Z.to_nat MaxBlocks) ([], o).

(** ** Many threads *)

(** Where a thread stands; [v] is the number of head updates when it loaded [head]. *)
Inductive PoolPc :=
| PRest
| AStart
| ALoop (head v : Z)
| ALoadNext (head v : Z)
| ACas (head v next : Z)
| ACount (idx : Z)
| AMark (idx : Z)
| FLoad (idx : Z)
| FStore (idx head v : Z)
| FCas (idx head v : Z)
| FCount (idx : Z)
| FMark (idx : Z).

(** A thread and the blocks it has been given. *)
Record Thread := mkThread { pc : PoolPc; held : list Z }.
Record World := mkWorld { pool : FixedPool; version : Z; threads : list Thread }.

Definition set_head (h : Z) (p : FixedPool) : FixedPool := mkPool h (links p) (used_count_ p) (allocated_ p).
Definition set_used (n : Z) (p : FixedPool) : FixedPool := mkPool (free_head_ p) (links p) n (allocated_ p).
Definition set_mark (idx : Z) (b : bool) (p : FixedPool) : FixedPool :=
  mkPool (free_head_ p) (links p) (used_count_ p) (aset (allocated_ p) idx b).

(** One access of a thread at [pc]; [weak] makes the exchange fail. *)
Definition pool_step (weak : bool) (th : Thread) (v : Z) (p : FixedPool) : option (Thread * Z * FixedPool) :=
  match pc th with
  | PRest => None
  | AStart => Some (mkThread (ALoop (free_head_ p) v) (held th), v, p)
  | ALoop head v0 =>
    if FreePoolHeadIndex head =? kFreeIndexEmpty then Some (mkThread PRest (held th), v, p)
    else Some (mkThread (ALoadNext head v0) (held th), v, p)
  | ALoadNext head v0 => Some (mkThread (ACas head v0 (LoadIndex (FreePoolHeadIndex head) p)) (held th), v, p)
  | ACas head v0 next =>
    if (free_head_ p =? head) && negb weak
    then Some (mkThread (ACount (FreePoolHeadIndex head)) (held th), v + 1,
               set_head (FreePoolPackHead next (u32 (FreePoolHeadTag head + 1))) p)
    else Some (mkThread (ALoop (free_head_ p) v) (held th), v, p)
  | ACount idx => Some (mkThread (AMark idx) (held th), v, set_used (u32 (used_count_ p + 1)) p)
  | AMark idx => Some (mkThread PRest (idx :: held th), v, set_mark idx true p)
  | FLoad idx => Some (mkThread (FStore idx (free_head_ p) v) (held th), v, p)
  | FStore idx head v0 => Some (mkThread (FCas idx head v0) (held th), v, StoreIndex idx (FreePoolHeadIndex head) p)
  | FCas idx head v0 =>
    if (free_head_ p =? head) && negb weak
    then Some (mkThread (FCount idx) (held th), v + 1, set_head (FreePoolPackHead idx (u32 (FreePoolHeadTag head + 1))) p)
    else Some (mkThread (FStore idx (free_head_ p) v) (held th), v, p)
  | FCount idx => Some (mkThread (FMark idx) (held th), v, set_used (u32 (used_count_ p - 1)) p)
  | FMark idx => Some (mkThread PRest (held th), v, set_mark idx false p)
  end.

(** A resting thread may allocate, free a block it holds, or write into it. *)
Inductive PoolAction := DoAlloc | DoFree (k : nat) | DoWrite (k : nat) (x : Z) | DoStep (weak : bool).

Definition thread_action (a : PoolAction) (th : Thread) (v : Z) (p : FixedPool) : option (Thread * Z * FixedPool) :=
  match a, pc th with
  | DoAlloc, PRest => Some (mkThread AStart (held th), v, p)
  | DoFree k, PRest =>
    match held th !! k with Some idx => Some (mkThread (FLoad idx) (delete k (held th)), v, p) | None => None end
  | DoWrite k x, PRest =>
    match held th !! k with Some idx => Some (th, v, StoreIndex idx x p) | None => None end
  | DoStep weak, _ => pool_step weak th v p
  | _, _ => None
  end.

Definition pool_exec (t : nat) (a : PoolAction) (w : World) : option World :=
  match threads w !! t with
  | Some th =>
    match thread_action a th (version w) (pool w) with
    | Some (th', v', p') => Some (mkWorld p' v' (<[t := th']> (threads w)))
    | None => None
    end
  | None => None
  end.

(** An allocating thread was overtaken by fewer than 2^16 head updates since its load. *)
Definition fresh_tag (th : Thread) (v : Z) : Prop :=
  match pc th with ACas _ v0 _ => v - v0 < 2 ^ 16 | _ => True end.
Definition pool_trans (w w' : World) : Prop :=
  exists t a th, threads w !! t = Some th /\ fresh_tag th (version w) /\ pool_exec t a w = Some w'.

Definition pool_start (storage0 : list Z) (n : nat) : World :=
  mkWorld (FixedPool_ctor storage0) 0 (replicate n (mkThread PRest [])).

(** ** The free list *)

(** The blocks are linked by their first two bytes, up to the empty index. *)
Abbreviation chain ls := (linked MaxBlocks kFreeIndexEmpty (fun x => u16 (aget ls x))).

Lemma chain_aset ls i fl j x : 0 <= j -> j ∉ fl -> chain ls i fl -> chain (aset ls j x) i fl.
Proof.
  intros Hj Hn Hc. apply (linked_ext _ _ (fun x => u16 (aget ls x))); [|done]. intros y Hy.
  pose proof (linked_member _ _ _ _ _ _ Hc Hy). by rewrite aget_aset_ne by (try lia; by intros ->).
Qed.

(** ** Construction *)

Context (Hblock : 4 <= BlockSize) (Hmax : 1 <= MaxBlocks <= kFreeIndexMask)
  (Halign : 0 <= align_bits) (Hstore : 0 < storage_).

Lemma HmaxZ : 1 <= MaxBlocks <= 65535.
Proof. exact Hmax. Qed.

Record ctor_links (storage0 : list Z) (i : Z) (p : FixedPool) : Prop := {
  cl_head : free_head_ p = 0;
  cl_used : used_count_ p = 0;
  cl_len : length (links p) = length storage0;
  cl_alen : length (allocated_ p) = Z.to_nat MaxBlocks;
  cl_link j : 0 <= j < i -> aget (links p) j = j + 1
}.

(** After the constructor every block is linked to its successor and unmarked. *)
Lemma FixedPool_ctor_spec storage0 :
  Z.of_nat (length storage0) = MaxBlocks ->
  let p := FixedPool_ctor storage0 in
  free_head_ p = 0 /\ used_count_ p = 0 /\ Z.of_nat (length (links p)) = MaxBlocks
  /\ Z.of_nat (length (allocated_ p)) = MaxBlocks
  /\ (forall j, 0 <= j < MaxBlocks - 1 -> aget (links p) j = j + 1) /\ aget (links p) (MaxBlocks - 1) = kInvalidIndex
  /\ forall j, 0 <= j < MaxBlocks -> aget (allocated_ p) j = false.
Proof.
  intros Hl. pose proof HmaxZ. unfold FixedPool_ctor. cbv zeta.
  set (p1 := for_loop (fun i p => StoreIndex i (u32 (i + 1)) p) 0 _ _).
  assert (H1 : ctor_links storage0 (0 + Z.of_nat (Z.to_nat (MaxBlocks - 1))) p1).
  { apply (for_loop_inv (ctor_links storage0)); [split; simpl; [done..|by rewrite length_replicate|lia]|].
    intros j q Hj [A1 A2 A3 A4 A5]. split; simpl; [done..|by rewrite length_aset|done|]. intros k Hk.
    destruct (Z.eq_dec k j) as [->|Hne]; [rewrite aget_aset_eq by lia; apply wrap_small; unfold in_range; lia|].
    rewrite aget_aset_ne by lia. apply A5. lia. }
  rewrite Z2Nat.id in H1 by lia. destruct H1 as [A1 A2 A3 A4 A5].
  set (p2 := StoreIndex (MaxBlocks - 1) kInvalidIndex p1).
  pose (P := fun (i : Z) (q : FixedPool) => free_head_ q = 0 /\ used_count_ q = 0 /\ links q = links p2
    /\ length (allocated_ q) = Z.to_nat MaxBlocks /\ forall j, 0 <= j < i -> aget (allocated_ q) j = false).
  assert (H2 : P (0 + Z.of_nat (Z.to_nat MaxBlocks)) (for_loop (fun i p => mkPool (free_head_ p) (links p) (used_count_ p)
    (aset (allocated_ p) i false)) 0 (Z.to_nat MaxBlocks) p2)).
  { apply for_loop_inv; [unfold P; simpl; split_and!; [done..|lia]|].
    intros j q Hj (B1 & B2 & B3 & B4 & B5). unfold P; simpl. rewrite length_aset. split_and!; [done..|].
    intros k Hk. destruct (Z.eq_dec k j) as [->|Hne]; [rewrite aget_aset_eq by lia; done|].
    rewrite aget_aset_ne by lia. apply B5. lia. }
  rewrite Z2Nat.id in H2 by lia. destruct H2 as (B1 & B2 & B3 & B4 & B5). rewrite B3.
  split_and!; [done|done|simpl; rewrite length_aset; lia|lia| |simpl; rewrite aget_aset_eq by lia; done|by apply B5].
  intros j Hj. simpl. rewrite aget_aset_ne by lia. by apply A5.
Qed.

Lemma FixedPool_ctor_chain storage0 :
  Z.of_nat (length storage0) = MaxBlocks -> chain (links (FixedPool_ctor storage0)) 0 (seqZ 0 MaxBlocks).
Proof.
  intros Hl. pose proof HmaxZ. destruct (FixedPool_ctor_spec storage0 Hl) as (_ & _ & _ & _ & H1 & H2 & _).
  apply linked_all; [lia| |by rewrite H2]. intros j Hj. rewrite H1 by lia. apply wrap_small. unfold in_range. lia.
Qed.

Lemma empty_outside : MaxBlocks <= kFreeIndexEmpty.
Proof. apply Hmax. Qed.

(** ** Addresses and indices *)

Lemma aligned_block : exists q, kAlignedBlockSize = q * max_align /\ BlockSize <= q * max_align.
Proof.
  assert (Hp : 0 < 2 ^ align_bits) by (apply Z.pow_pos_nonneg; lia).
  exists ((BlockSize + max_align - 1) / max_align). unfold kAlignedBlockSize, max_align.
  rewrite <- ones_equiv'. rewrite <- Z.ldiff_land, Z.ldiff_ones_r by lia.
  rewrite Z.shiftl_mul_pow2, Z.shiftr_div_pow2 by lia. split; [done|].
  pose proof (Z.div_mod (BlockSize + 2 ^ align_bits - 1) (2 ^ align_bits)).
  pose proof (Z.mod_pos_bound (BlockSize + 2 ^ align_bits - 1) (2 ^ align_bits)). lia.
Qed.

Lemma aligned_pos : 0 < kAlignedBlockSize.
Proof. destruct aligned_block as (q & -> & H). lia. Qed.

Lemma PtrToIndex_BlockPtr i : 0 <= i < MaxBlocks -> PtrToIndex (BlockPtr i) = i.
Proof.
  intros Hi. pose proof HmaxZ. pose proof aligned_pos. unfold PtrToIndex, BlockPtr.
  replace (storage_ + i * kAlignedBlockSize - storage_) with (i * kAlignedBlockSize) by lia.
  rewrite Z.div_mul by lia. apply wrap_small. unfold in_range. lia.
Qed.

Definition blocks : list Z := BlockPtr <$> seqZ 0 MaxBlocks.

Lemma elem_of_blocks ptr : ptr ∈ blocks <-> exists i, ptr = BlockPtr i /\ 0 <= i < MaxBlocks.
Proof. unfold blocks. rewrite list_elem_of_fmap. setoid_rewrite elem_of_seqZ. split; intros (i & ? & ?); exists i; split; lia || done. Qed.

Lemma OwnsPointer_blocks ptr : OwnsPointer ptr = bool_decide (ptr ∈ blocks).
Proof.
  pose proof aligned_pos. unfold OwnsPointer. symmetry.
  destruct ((ptr <? storage_) || (storage_ + kAlignedBlockSize * MaxBlocks <=? ptr)) eqn:E; bool_prop.
  - apply bool_decide_eq_false. rewrite elem_of_blocks. intros (i & -> & Hi). apply orb_true_iff in E. unfold BlockPtr in E.
    destruct E as [E|E]; [apply Z.ltb_lt in E|apply Z.leb_le in E]; nia.
  - destruct (Z.eqb_spec ((ptr - storage_) mod kAlignedBlockSize) 0) as [Em|Em].
    + apply bool_decide_eq_true, elem_of_blocks. exists ((ptr - storage_) / kAlignedBlockSize). unfold BlockPtr.
      pose proof (Z.div_mod (ptr - storage_) kAlignedBlockSize). split; [lia|].
      split; [apply Z.div_pos; lia|apply Z.div_lt_upper_bound; lia].
    + apply bool_decide_eq_false. rewrite elem_of_blocks. intros (i & -> & Hi). apply Em. unfold BlockPtr.
      replace (storage_ + i * kAlignedBlockSize - storage_) with (i * kAlignedBlockSize) by lia. apply Z_mod_mult.
Qed.

Lemma BlockPtr_inj i j : BlockPtr i = BlockPtr j -> i = j.
Proof. pose proof aligned_pos. unfold BlockPtr. nia. Qed.

Lemma elem_of_BlockPtr i (l : list Z) : BlockPtr i ∈ BlockPtr <$> l <-> i ∈ l.
Proof. rewrite list_elem_of_fmap. split; [intros (j & E & Hj); by apply BlockPtr_inj in E as ->|eauto]. Qed.

(** ** The sequential pool is a stack of free blocks *)

Inductive PoolOp :=
| PCreate (x : Z)
| PDestroy (obj : Z)
| PWrite (obj x : Z)
| PFreeCount
| PUsedCount
| POwns (ptr : Z)
| PIsAllocated (ptr : Z).
Inductive PoolResult := RPtr (p : option Z) | RDone (ok : bool) | RNum (n : Z) | RBool (b : bool).

(** Objects are written only while they live. *)
Definition pool_op (op : PoolOp) (o : ObjectPool) : PoolResult * ObjectPool :=
  match op with
  | PCreate x => let '(r, o') := Create x o in (RPtr r, o')
  | PDestroy obj => match Destroy obj o with Some o' => (RDone true, o') | None => (RDone false, o) end
  | PWrite obj x =>
    if OwnsPointer obj && aget (alive_ o) (PtrToIndex obj)
    then (RDone true, mkObjects (StoreIndex (PtrToIndex obj) x (pool_ o)) (alive_ o)) else (RDone false, o)
  | PFreeCount => (RNum (FreeCount (pool_ o)), o)
  | PUsedCount => (RNum (UsedCount (pool_ o)), o)
  | POwns ptr => (RBool (OwnsPointer ptr), o)
  | PIsAllocated ptr => (RBool (IsAllocated ptr (pool_ o)), o)
  end.

(** A pointer is live when it is a block and not free. *)
Definition live (free : list Z) (ptr : Z) : bool := bool_decide (ptr ∈ blocks) && bool_decide (ptr ∉ free).

(** The specification: the stack of free block addresses. *)
Definition stack_op (op : PoolOp) (free : list Z) : PoolResult * list Z :=
  match op with
  | PCreate _ => match free with [] => (RPtr None, []) | b :: free' => (RPtr (Some b), free') end
  | PDestroy obj =>
    if obj =? 0 then (RDone true, free) else if live free obj then (RDone true, obj :: free) else (RDone false, free)
  | PWrite obj _ => (RDone (live free obj), free)
  | PFreeCount => (RNum (Z.of_nat (length free)), free)
  | PUsedCount => (RNum (MaxBlocks - Z.of_nat (length free)), free)
  | POwns ptr => (RBool (bool_decide (ptr ∈ blocks)), free)
  | PIsAllocated ptr => (RBool (live free ptr), free)
  end.

(** Only pointers into the storage, or null, are destroyed. *)
Definition op_ok (op : PoolOp) : Prop :=
  match op with PDestroy obj => obj = 0 \/ storage_ <= obj < storage_ + kAlignedBlockSize * MaxBlocks | _ => True end.

Record pool_ok (o : ObjectPool) (fl : list Z) : Prop := {
  po_chain : chain (links (pool_ o)) (FreePoolHeadIndex (free_head_ (pool_ o))) fl;
  po_nodup : NoDup fl;
  po_llen : Z.of_nat (length (links (pool_ o))) = MaxBlocks;
  po_used : used_count_ (pool_ o) = MaxBlocks - Z.of_nat (length fl);
  po_alloc : Z.of_nat (length (allocated_ (pool_ o))) = MaxBlocks;
  po_alive : Z.of_nat (length (alive_ o)) = MaxBlocks;
  po_flag i : 0 <= i < MaxBlocks -> aget (allocated_ (pool_ o)) i = bool_decide (i ∉ fl);
  po_live i : 0 <= i < MaxBlocks -> aget (alive_ o) i = bool_decide (i ∉ fl)
}.
Definition pool_rel (o : ObjectPool) (free : list Z) : Prop := exists fl, free = BlockPtr <$> fl /\ pool_ok o fl.

Lemma pool_ok_length o fl : pool_ok o fl -> Z.of_nat (length fl) <= MaxBlocks.
Proof.
  pose proof HmaxZ. intros Ho.
  pose proof (NoDup_incl_length_seqZ fl (Z.to_nat MaxBlocks) (po_nodup _ _ Ho)) as Hl.
  assert (length fl <= Z.to_nat MaxBlocks)%nat; [|lia]. apply Hl. intros x Hx.
  pose proof (linked_member _ _ _ _ _ _ (po_chain _ _ Ho) Hx). lia.
Qed.

(** Flags that say "not free" follow a pop and a push of the free list. *)
Lemma flags_pop (a : list bool) j fl :
  Z.of_nat (length a) = MaxBlocks -> 0 <= j < MaxBlocks -> NoDup (j :: fl) ->
  (forall i, 0 <= i < MaxBlocks -> aget a i = bool_decide (i ∉ j :: fl)) ->
  forall i, 0 <= i < MaxBlocks -> aget (aset a j true) i = bool_decide (i ∉ fl).
Proof.
  intros Hl Hj Hnd Ha i Hi. apply NoDup_cons in Hnd as [Hn _]. destruct (Z.eq_dec i j) as [->|Hne].
  - rewrite aget_aset_eq by lia. symmetry. by apply bool_decide_eq_true.
  - rewrite aget_aset_ne, Ha by lia. apply bool_decide_ext. rewrite elem_of_cons. naive_solver.
Qed.

Lemma flags_push (a : list bool) j fl :
  Z.of_nat (length a) = MaxBlocks -> 0 <= j < MaxBlocks ->
  (forall i, 0 <= i < MaxBlocks -> aget a i = bool_decide (i ∉ fl)) ->
  forall i, 0 <= i < MaxBlocks -> aget (aset a j false) i = bool_decide (i ∉ j :: fl).
Proof.
  intros Hl Hj Ha i Hi. destruct (Z.eq_dec i j) as [->|Hne].
  - rewrite aget_aset_eq by lia. symmetry. apply bool_decide_eq_false. rewrite elem_of_cons. tauto.
  - rewrite aget_aset_ne, Ha by lia. apply bool_decide_ext. rewrite elem_of_cons. naive_solver.
Qed.

Lemma Create_empty x o : pool_ok o [] -> Create x o = (None, o).
Proof. intros Ho. pose proof (po_chain _ _ Ho) as Hc. simpl in Hc. unfold Create, Allocate. rewrite Hc. by destruct o. Qed.

Lemma Create_pop x o j fl : pool_ok o (j :: fl) -> exists o', Create x o = (Some (BlockPtr j), o') /\ pool_ok o' fl.
Proof.
  pose proof HmaxZ. intros Ho. pose proof (pool_ok_length _ _ Ho) as Hlen. simpl in Hlen.
  destruct Ho as [(Hh & Hj & Hc) Hnd Hll Hu Ha Hv Hf Hlv]. apply NoDup_cons in Hnd as Hnd'. destruct Hnd' as [Hn Hnd'].
  unfold Create, Allocate. rewrite Hh. destruct (Z.eqb_spec j kFreeIndexEmpty) as [E|_];
    [unfold kFreeIndexEmpty, kFreeIndexMask in E; lia|].
  eexists. split; [reflexivity|]. rewrite PtrToIndex_BlockPtr by done. split; simpl.
  - rewrite head_index_pack. apply chain_aset; [lia|done|done].
  - done.
  - by rewrite length_aset.
  - rewrite Hu. simpl. rewrite wrap_small by (unfold in_range; lia). lia.
  - by rewrite length_aset.
  - by rewrite length_aset.
  - by apply flags_pop.
  - by apply flags_pop.
Qed.

Lemma Destroy_push o j fl : pool_ok o fl -> 0 <= j < MaxBlocks -> j ∉ fl ->
  exists o', Destroy (BlockPtr j) o = Some o' /\ pool_ok o' (j :: fl).
Proof.
  pose proof HmaxZ. pose proof aligned_pos. intros Ho Hj Hn. pose proof (pool_ok_length _ _ Ho) as Hlen.
  destruct Ho as [Hc Hnd Hll Hu Ha Hv Hf Hlv]. unfold Destroy, Free.
  assert (E0 : (BlockPtr j =? 0) = false) by (apply Z.eqb_neq; unfold BlockPtr; nia).
  rewrite E0, OwnsPointer_blocks, PtrToIndex_BlockPtr, Hlv by done.
  rewrite (bool_decide_eq_true_2 (j ∉ fl)) by done. rewrite bool_decide_eq_true_2 by (apply elem_of_blocks; eauto).
  eexists. split; [reflexivity|]. split; simpl.
  - rewrite head_index_pack, wrap_small by (unfold in_range; lia). split; [done|]. split; [done|].
    rewrite aget_aset_eq, wrap_small by (try lia; apply head_index_range). apply chain_aset; [lia|done|done].
  - by apply NoDup_cons.
  - by rewrite length_aset.
  - rewrite Hu, wrap_small; [lia|]. unfold in_range.
    assert (NoDup (j :: fl)) as Hnd2 by by apply NoDup_cons.
    pose proof (NoDup_incl_length_seqZ (j :: fl) (Z.to_nat MaxBlocks) Hnd2) as Hl2. simpl in Hl2.
    assert (S (length fl) <= Z.to_nat MaxBlocks)%nat; [|lia]. apply Hl2. intros x Hx.
    apply elem_of_cons in Hx as [->|Hx]; [lia|]. pose proof (linked_member _ _ _ _ _ _ Hc Hx). lia.
  - by rewrite length_aset.
  - by rewrite length_aset.
  - by apply flags_push.
  - by apply flags_push.
Qed.

Lemma live_block fl i : 0 <= i < MaxBlocks -> live (BlockPtr <$> fl) (BlockPtr i) = bool_decide (i ∉ fl).
Proof.
  intros Hi. unfold live. rewrite bool_decide_eq_true_2 by (apply elem_of_blocks; eauto). simpl.
  apply bool_decide_ext. by rewrite elem_of_BlockPtr.
Qed.

Lemma live_spec fl ptr : live (BlockPtr <$> fl) ptr = true <-> exists i, ptr = BlockPtr i /\ 0 <= i < MaxBlocks /\ i ∉ fl.
Proof.
  unfold live. rewrite andb_true_iff, !bool_decide_eq_true, elem_of_blocks. split.
  - intros [(i & -> & Hi) Hn]. exists i. by rewrite elem_of_BlockPtr in Hn.
  - intros (i & -> & Hi & Hn). rewrite elem_of_BlockPtr. eauto.
Qed.

Lemma owned_flag (a : list bool) fl ptr :
  (forall i, 0 <= i < MaxBlocks -> aget a i = bool_decide (i ∉ fl)) ->
  OwnsPointer ptr && aget a (PtrToIndex ptr) = live (BlockPtr <$> fl) ptr.
Proof.
  intros Ha. rewrite OwnsPointer_blocks. destruct (bool_decide (ptr ∈ blocks)) eqn:E.
  - apply bool_decide_eq_true, elem_of_blocks in E as (i & -> & Hi). simpl.
    by rewrite PtrToIndex_BlockPtr, live_block, Ha by done.
  - unfold live. by rewrite E.
Qed.

(** Any other pointer into the storage fails an assertion. *)
Lemma Destroy_dead o fl obj : pool_ok o fl -> storage_ <= obj < storage_ + kAlignedBlockSize * MaxBlocks ->
  live (BlockPtr <$> fl) obj = false -> Destroy obj o = None.
Proof.
  pose proof HmaxZ. pose proof aligned_pos. intros Ho Hr Hl. unfold Destroy, Free. destruct (Z.eqb_spec obj 0); [lia|].
  rewrite <- (owned_flag (alive_ o)) in Hl by apply (po_live _ _ Ho).
  destruct (OwnsPointer obj); simpl in *; [by rewrite Hl|by destruct (aget _ _)].
Qed.

Lemma Write_ok o fl ptr x : pool_ok o fl -> live (BlockPtr <$> fl) ptr = true ->
  pool_ok (mkObjects (StoreIndex (PtrToIndex ptr) x (pool_ o)) (alive_ o)) fl.
Proof.
  intros Ho (i & -> & Hi & Hn)%live_spec. rewrite PtrToIndex_BlockPtr by done.
  destruct Ho as [Hc Hnd Hll Hu Ha Hv Hf Hlv]. split; simpl; try done; [apply chain_aset; [lia|done..]|by rewrite length_aset].
Qed.

(** Every operation agrees with the stack and keeps the relation. *)
Lemma pool_op_sim op o free : op_ok op -> pool_rel o free ->
  (pool_op op o).1 = (stack_op op free).1 /\ pool_rel (pool_op op o).2 (stack_op op free).2.
Proof.
  pose proof HmaxZ. intros Hop (fl & -> & Ho). pose proof (pool_ok_length _ _ Ho) as Hlen. destruct op as [x|obj|obj x| | |ptr|ptr]; simpl.
  - destruct fl as [|j fl].
    + rewrite (Create_empty x o Ho). simpl. split; [done|]. by exists [].
    + destruct (Create_pop x o j fl Ho) as (o' & -> & Ho'). simpl. split; [done|]. by exists fl.
  - destruct Hop as [->|Hr]; [simpl; split; [done|by exists fl]|].
    destruct (Z.eqb_spec obj 0); [lia|]. destruct (live (BlockPtr <$> fl) obj) eqn:E.
    + apply live_spec in E as (i & -> & Hi & Hn). destruct (Destroy_push o i fl Ho Hi Hn) as (o' & -> & Ho').
      simpl. split; [done|]. by exists (i :: fl).
    + rewrite (Destroy_dead o fl obj Ho Hr E). simpl. split; [done|by exists fl].
  - rewrite (owned_flag _ fl) by apply (po_live _ _ Ho). destruct (live _ obj) eqn:E; simpl; (split; [done|]); exists fl;
      (split; [done|]); [by apply Write_ok|done].
  - unfold FreeCount. rewrite (po_used _ _ Ho), length_fmap, wrap_small by (unfold in_range; lia).
    split; [f_equal; lia|by exists fl].
  - unfold UsedCount. rewrite (po_used _ _ Ho), length_fmap. split; [done|by exists fl].
  - rewrite OwnsPointer_blocks. split; [done|by exists fl].
  - unfold IsAllocated. split; [|by exists fl]. f_equal. rewrite <- (owned_flag _ fl ptr) by apply (po_flag _ _ Ho).
    by destruct (OwnsPointer ptr).
Qed.

Lemma ObjectPool_ctor_rel storage0 :
  Z.of_nat (length storage0) = MaxBlocks -> pool_rel (ObjectPool_ctor storage0) blocks.
Proof.
  intros Hl. pose proof HmaxZ. exists (seqZ 0 MaxBlocks). split; [done|].
  destruct (FixedPool_ctor_spec storage0 Hl) as (H1 & H2 & H3 & H4 & H5 & H6 & H7).
  set (a := alive_ (ObjectPool_ctor storage0)).
  assert (Ha : length a = Z.to_nat MaxBlocks /\ forall j, 0 <= j < 0 + Z.of_nat (Z.to_nat MaxBlocks) -> aget a j = false).
  { apply (for_loop_inv (fun i a => length a = Z.to_nat MaxBlocks /\ forall j, 0 <= j < i -> aget a j = false)).
    - rewrite length_replicate. split; [done|lia].
    - intros j b Hj [B1 B2]. rewrite length_aset. split; [done|]. intros k Hk.
      destruct (Z.eq_dec k j) as [->|]; [by rewrite aget_aset_eq by lia|]. rewrite aget_aset_ne by lia. apply B2. lia. }
  destruct Ha as [Ha1 Ha2]. split; try done; simpl.
  - rewrite H1. by apply FixedPool_ctor_chain.
  - apply NoDup_seqZ.
  - rewrite H2, length_seqZ. lia.
  - change (Z.of_nat (length a) = MaxBlocks). lia.
  - intros i Hi. rewrite H7 by done. symmetry. apply bool_decide_eq_false. rewrite elem_of_seqZ. lia.
  - intros i Hi. change (aget a i = bool_decide (i ∉ seqZ 0 MaxBlocks)). rewrite Ha2 by lia. symmetry. apply bool_decide_eq_false. rewrite elem_of_seqZ. lia.
Qed.

(** The destructor destroys the live objects, each once, in address order. *)
Lemma dtor_spec o fl : pool_ok o fl ->
  let r := ObjectPool_dtor o in
  r.1 = filter (fun ptr => live (BlockPtr <$> fl) ptr = true) blocks /\
  forall i, 0 <= i < MaxBlocks -> aget (alive_ r.2) i = false.
Proof.
  pose proof HmaxZ. intros Ho. cbv zeta.
  pose (P := fun (i : Z) (r : list Z * ObjectPool) =>
    r.1 = filter (fun ptr => live (BlockPtr <$> fl) ptr = true) (BlockPtr <$> seqZ 0 i)
    /\ Z.of_nat (length (alive_ r.2)) = MaxBlocks /\ (forall j, 0 <= j < i -> aget (alive_ r.2) j = false)
    /\ forall j, i <= j < MaxBlocks -> aget (alive_ r.2) j = bool_decide (j ∉ fl)).
  assert (HP : P (0 + Z.of_nat (Z.to_nat MaxBlocks)) (ObjectPool_dtor o)).
  { unfold ObjectPool_dtor. apply for_loop_inv.
    - unfold P; simpl. split_and!; [done|apply (po_alive _ _ Ho)|lia|]. intros j Hj. apply (po_live _ _ Ho). lia.
    - intros i r Hi (A1 & A2 & A3 & A4). unfold P. rewrite Z.add_1_r at 1. rewrite <- Z.add_1_r, seqZ_app, fmap_app, filter_app by lia.
      change (seqZ (0 + i) 1) with [0 + i]. rewrite Z.add_0_l. simpl. rewrite filter_cons, filter_nil, live_block, A4 by lia.
      case_bool_decide as Hn; simpl.
      + rewrite length_aset, A1. split_and!; [done..| |].
        * intros j Hj. destruct (Z.eq_dec j i) as [->|]; [by rewrite aget_aset_eq by lia|].
          rewrite aget_aset_ne by lia. apply A3. lia.
        * intros j Hj. rewrite aget_aset_ne by lia. apply A4. lia.
      + rewrite app_nil_r. split_and!; [done..| |intros j Hj; apply A4; lia].
        intros j Hj. destruct (Z.eq_dec j i) as [->|]; [|apply A3; lia]. rewrite A4 by lia. apply bool_decide_eq_false_2; tauto. }
  rewrite Z2Nat.id in HP by lia. destruct HP as (A1 & _ & A3 & _). done.
Qed.

(** Used from one thread, an object pool behaves as a stack of free blocks:
    Create returns the block on top, distinct from every live one, and null
    exactly when none is left; Destroy of a live object puts its block back, of
    null does nothing, and of anything else in the storage (a dead object, a
    pointer into the middle of a block) fails an assertion; writing into live
    objects never disturbs the pool, although the free list lives in the blocks;
    and the counts and ownership queries agree, for any sequence of operations
    and any initial storage.  The destructor then destroys each live object once. *)
Lemma object_pool_refines_stack storage0 ops :
  Z.of_nat (length storage0) = MaxBlocks -> Forall op_ok ops ->
  let impl := run pool_op ops (ObjectPool_ctor storage0) in
  let spec := run stack_op ops blocks in
  impl.1 = spec.1 /\ NoDup spec.2 /\ (ObjectPool_dtor impl.2).1 = filter (fun ptr => live spec.2 ptr = true) blocks.
Proof.
  intros Hl Hops. cbv zeta.
  destruct (run_simulation op_ok pool_rel pool_op stack_op pool_op_sim ops _ _ Hops (ObjectPool_ctor_rel storage0 Hl))
    as [Hr (fl & E & Ho)].
  split; [done|]. rewrite E. split; [apply NoDup_fmap_2_strong; [|apply (po_nodup _ _ Ho)]; intros; by apply BlockPtr_inj|].
  apply (dtor_spec _ _ Ho).
Qed.

(** ** Concurrent allocation and release *)

(** The blocks a thread owns: those it holds and the one it is moving. *)
Definition transit (c : PoolPc) : list Z :=
  match c with ACount i | AMark i | FLoad i | FStore i _ _ | FCas i _ _ => [i] | _ => [] end.
Definition owned (th : Thread) : list Z := transit (pc th) ++ held th.

(** What it contributes to the used count. *)
Definition counted (th : Thread) : Z :=
  Z.of_nat (length (held th)) + match pc th with AMark _ | FLoad _ | FStore _ _ _ | FCas _ _ _ | FCount _ => 1 | _ => 0 end.
Definition total (ths : list Thread) : Z := foldr (fun th n => counted th + n) 0 ths.

(** A head loaded when there had been [v0] updates. *)
Definition loaded (p : FixedPool) (v h v0 : Z) : Prop :=
  0 <= v0 <= v /\ FreePoolHeadTag h = u16 v0 /\ in_range 32 h /\ (v0 = v -> h = free_head_ p)
  /\ (FreePoolHeadIndex h = kFreeIndexEmpty \/ 0 <= FreePoolHeadIndex h < MaxBlocks).

Definition thread_ok (p : FixedPool) (v : Z) (th : Thread) : Prop :=
  match pc th with
  | ALoop h v0 | FStore _ h v0 => loaded p v h v0
  | ALoadNext h v0 => loaded p v h v0 /\ FreePoolHeadIndex h <> kFreeIndexEmpty
  | ACas h v0 next =>
    loaded p v h v0 /\ FreePoolHeadIndex h <> kFreeIndexEmpty /\ (v0 = v -> next = aget (links p) (FreePoolHeadIndex h))
  | FCas idx h v0 => loaded p v h v0 /\ aget (links p) idx = FreePoolHeadIndex h
  | _ => True
  end.

Record shared_ok (p : FixedPool) (v : Z) (fl : list Z) : Prop := {
  so_tag : FreePoolHeadTag (free_head_ p) = u16 v;
  so_rng : in_range 32 (free_head_ p);
  so_ver : 0 <= v;
  so_len : Z.of_nat (length (links p)) = MaxBlocks;
  so_chain : chain (links p) (FreePoolHeadIndex (free_head_ p)) fl
}.

(** What a step of the owner of [own] may do to the shared words. *)
Definition env_step (p : FixedPool) (v : Z) (p' : FixedPool) (v' : Z) (own : list Z) : Prop :=
  (links p' = links p /\ (v' = v /\ free_head_ p' = free_head_ p \/ v' = v + 1)) \/
  (v' = v /\ free_head_ p' = free_head_ p /\
   exists j x, links p' = aset (links p) j x /\ 0 <= j /\ j <> FreePoolHeadIndex (free_head_ p) /\ j ∈ own).

Lemma thread_ok_frame p v p' v' own th :
  env_step p v p' v' own -> (forall j, j ∈ own -> j ∉ owned th) -> (forall j, j ∈ owned th -> 0 <= j) ->
  thread_ok p v th -> thread_ok p' v' th.
Proof.
  pose proof HmaxZ. unfold thread_ok, loaded, owned, kFreeIndexEmpty, kFreeIndexMask.
  intros Hs Hd Hr. destruct (pc th) eqn:E; simpl in Hd, Hr; try done;
    destruct Hs as [(El & [(-> & Eh)| ->])|(-> & Eh & j & x & El & Hj & Hne & Ho)]; rewrite ?El, ?Eh; try done; try naive_solver lia.
  - intros (Hl & Hi & Hn). split; [done|]. split; [done|]. intros Hv. rewrite (Hn Hv). symmetry. apply aget_aset_ne; [lia..|].
    destruct Hl as (_ & _ & _ & Hh & _). by rewrite Hh.
  - intros (Hl & Hi). split; [done|]. rewrite aget_aset_ne; [done|lia| |].
    + apply Hr, elem_of_cons. by left.
    + intros ->. apply (Hd _ Ho), elem_of_cons. by left.
Qed.

Lemma loaded_now p v fl : shared_ok p v fl -> loaded p v (free_head_ p) v.
Proof.
  intros [H1 H2 H3 H4 H5]. split; [lia|]. split_and!; [done..|].
  destruct (Z.eq_dec (FreePoolHeadIndex (free_head_ p)) kFreeIndexEmpty) as [->|Hne]; [by left|right].
  destruct (linked_cons _ _ _ _ _ H5 Hne) as (fl' & _ & Hi & _). done.
Qed.

(** A head word that is unchanged and fresh has not been updated in between. *)
Lemma loaded_fresh p v h v0 :
  loaded p v h v0 -> FreePoolHeadTag (free_head_ p) = u16 v -> free_head_ p = h -> v - v0 < 2 ^ 16 -> v0 = v.
Proof.
  intros (Hv & Ht & _) Hc <- Hf. apply (wrap_inj_near 16); [lia|lia|]. congruence.
Qed.

Lemma pack_range index tag : in_range 32 (FreePoolPackHead index tag).
Proof.
  rewrite pack_head. pose proof (wrap_range 16 index ltac:(lia)) as H1. pose proof (wrap_range 16 tag ltac:(lia)) as H2.
  unfold in_range in *. change (2 ^ 32) with (2 ^ 16 * 2 ^ 16). nia.
Qed.

Lemma next_tag h v idx : FreePoolHeadTag h = u16 v ->
  FreePoolHeadTag (FreePoolPackHead idx (u32 (FreePoolHeadTag h + 1))) = u16 (v + 1).
Proof. intros ->. rewrite head_tag_pack, wrap_wrap_le by lia. apply wrap_add_l. Qed.

(** Taking the first block off the list, and putting one back on. *)
Lemma pop_ok p v fl h v0 next :
  shared_ok p v fl -> thread_ok p v (mkThread (ACas h v0 next) []) -> free_head_ p = h -> v - v0 < 2 ^ 16 ->
  exists fl', fl = FreePoolHeadIndex h :: fl' /\
    shared_ok (set_head (FreePoolPackHead next (u32 (FreePoolHeadTag h + 1))) p) (v + 1) fl'.
Proof.
  intros [H1 H2 H3 H4 H5] (Hl & Hne & Hn) Hh Hf. simpl in *. pose proof (loaded_fresh _ _ _ _ Hl H1 Hh Hf) as ->.
  rewrite Hh in *. destruct (linked_cons _ _ _ _ _ H5 Hne) as (fl' & -> & Hi & Hc). exists fl'. split; [done|].
  split; simpl; [by apply next_tag|apply pack_range|lia|done|]. by rewrite head_index_pack, (Hn eq_refl).
Qed.

Lemma push_ok p v fl h v0 idx :
  shared_ok p v fl -> thread_ok p v (mkThread (FCas idx h v0) []) -> free_head_ p = h -> 0 <= idx < MaxBlocks ->
  shared_ok (set_head (FreePoolPackHead idx (u32 (FreePoolHeadTag h + 1))) p) (v + 1) (idx :: fl).
Proof.
  pose proof HmaxZ. intros [H1 H2 H3 H4 H5] (Hl & Hn) Hh Hi. simpl in *. rewrite Hh in *.
  split; simpl; [by apply next_tag|apply pack_range|lia|done|].
  rewrite head_index_pack, wrap_small by (unfold in_range; lia). split; [done|]. split; [done|].
  rewrite Hn, wrap_small by apply head_index_range. done.
Qed.

Lemma store_ok p v fl idx x :
  shared_ok p v fl -> 0 <= idx < MaxBlocks -> idx ∉ fl -> shared_ok (StoreIndex idx x p) v fl.
Proof.
  intros [H1 H2 H3 H4 H5] Hi Hn. split; simpl; [done..|by rewrite length_aset|]. apply chain_aset; [lia|done..].
Qed.

Lemma store_env p v fl idx x own :
  shared_ok p v fl -> 0 <= idx < MaxBlocks -> idx ∉ fl -> idx ∈ own -> env_step p v (StoreIndex idx x p) v own.
Proof.
  intros Hs Hi Hn Ho. right. split; [done|]. split; [done|]. exists idx, x. split; [done|]. split; [lia|]. split; [|done].
  apply (linked_not_first _ _ empty_outside _ _ _ _ (so_chain _ _ _ Hs) Hi Hn).
Qed.

Lemma shared_ok_same p p' v fl :
  free_head_ p' = free_head_ p -> links p' = links p -> shared_ok p v fl -> shared_ok p' v fl.
Proof. intros E1 E2 [H1 H2 H3 H4 H5]. split; rewrite ?E1, ?E2; done. Qed.

(** What a step does to the pool, the stepping thread and its blocks. *)
Record step_ok (p : FixedPool) (v : Z) (th : Thread) (fl : list Z) (p' : FixedPool) (v' : Z) (th' : Thread) (fl' : list Z) : Prop := {
  st_shared : shared_ok p' v' fl';
  st_perm : fl' ++ owned th' ≡ₚ fl ++ owned th;
  st_used : in_range 32 (used_count_ p) -> used_count_ p' = u32 (used_count_ p + (counted th' - counted th));
  st_ok : thread_ok p' v' th';
  st_env : env_step p v p' v' (owned th)
}.

Lemma used_unchanged u d : d = 0 -> in_range 32 u -> u = u32 (u + d).
Proof. intros -> Hu. rewrite Z.add_0_r, wrap_small; done. Qed.

Ltac used_step :=
  first [apply used_unchanged; unfold counted; simpl; lia | intros _; unfold counted; simpl; f_equal; lia].
Ltac idle_step :=
  split; simpl; [eapply shared_ok_same; [| |eassumption]; reflexivity|done|used_step|try done|by left; split; [|left]].

Lemma free_block fl own rest idx :
  fl ++ own ++ rest ≡ₚ seqZ 0 MaxBlocks -> idx ∈ own -> 0 <= idx < MaxBlocks /\ (idx ∉ fl) /\ (idx ∉ rest).
Proof.
  intros Hp Hi. assert (idx ∈ seqZ 0 MaxBlocks) as Hs by (rewrite <- Hp, !elem_of_app; tauto).
  apply elem_of_seqZ in Hs. assert (NoDup (fl ++ own ++ rest)) as Hnd by (rewrite Hp; apply NoDup_seqZ).
  apply NoDup_app in Hnd as (_ & Hd & Hnd). apply NoDup_app in Hnd as (_ & Hd' & _).
  split; [lia|]. split; [|by apply Hd']. intros Hf. apply (Hd idx Hf). rewrite elem_of_app. by left.
Qed.

Lemma pool_step_ok weak p v th fl rest th' v' p' :
  shared_ok p v fl -> thread_ok p v th -> fl ++ owned th ++ rest ≡ₚ seqZ 0 MaxBlocks -> fresh_tag th v ->
  pool_step weak th v p = Some (th', v', p') -> exists fl', step_ok p v th fl p' v' th' fl'.
Proof.
  intros Hs Ht Hsub Hf Hstep. pose proof (loaded_now _ _ _ Hs) as Hnow. destruct th as [c hs]. unfold pool_step in Hstep. simpl in *.
  destruct c as [| |h v0|h v0|h v0 next|idx|idx|idx|idx h v0|idx h v0|idx|idx]; simpl in *; simplify_eq.
  - exists fl. by idle_step.
  - destruct (Z.eqb_spec (FreePoolHeadIndex h) kFreeIndexEmpty); simplify_eq; exists fl; by idle_step.
  - exists fl. idle_step. split_and!; [apply Ht..|done].
  - case_match eqn:E; simplify_eq; [|exists fl; by idle_step]. bool_prop.
    destruct (pop_ok p v fl h v0 next Hs Ht ltac:(done) Hf) as (fl' & -> & Hs'). exists fl'.
    split; [done| |used_step|done|left; split; [done|by right]].
    unfold owned. simpl. by rewrite Permutation_middle.
  - exists fl. by idle_step.
  - exists fl. by idle_step.
  - exists fl. by idle_step.
  - destruct (free_block _ (idx :: hs) rest idx Hsub) as (Hi & Hn & _); [apply elem_of_cons; by left|]. exists fl.
    split; [by apply store_ok|done|used_step| |].
    + unfold thread_ok. simpl. split; [exact Ht|]. rewrite aget_aset_eq; [done|]. rewrite (so_len _ _ _ Hs). done.
    + apply store_env with fl; [done..|]. apply elem_of_cons. by left.
  - destruct (free_block _ (idx :: hs) rest idx Hsub) as (Hi & Hn & _); [apply elem_of_cons; by left|].
    case_match eqn:E; simplify_eq; [|exists fl; by idle_step]. bool_prop. exists (idx :: fl).
    split; [by apply push_ok with v0| |used_step|done|left; split; [done|by right]].
    unfold owned. simpl. by rewrite Permutation_middle.
  - exists fl. by idle_step.
  - exists fl. by idle_step.
Qed.

Lemma thread_action_ok a p v th fl rest th' v' p' :
  shared_ok p v fl -> thread_ok p v th -> fl ++ owned th ++ rest ≡ₚ seqZ 0 MaxBlocks -> fresh_tag th v ->
  thread_action a th v p = Some (th', v', p') -> exists fl', step_ok p v th fl p' v' th' fl'.
Proof.
  intros Hs Ht Hsub Hf Ha. destruct a as [|k|k x|weak]; [..|by eapply pool_step_ok];
    destruct th as [c hs]; destruct c; simpl in *; try done.
  - simplify_eq. exists fl. by idle_step.
  - destruct (hs !! k) as [idx|] eqn:E; simplify_eq. exists fl. pose proof (delete_Permutation _ _ _ E) as Hp.
    split; [done| | |done|by left; split; [|left]].
    + apply Permutation_app_head. symmetry. exact Hp.
    + apply used_unchanged. unfold counted. simpl. apply Permutation_length in Hp. simpl in Hp. lia.
  - destruct (hs !! k) as [idx|] eqn:E; simplify_eq. exists fl.
    assert (Hin : idx ∈ hs) by (by eapply list_elem_of_lookup_2).
    destruct (free_block _ hs rest idx Hsub Hin) as (Hi & Hn & _).
    split; [by apply store_ok|done|used_step|done|by apply store_env with fl].
Qed.

Record Inv (w : World) (fl : list Z) : Prop := {
  inv_shared : shared_ok (pool w) (version w) fl;
  inv_perm : fl ++ (threads w ≫= owned) ≡ₚ seqZ 0 MaxBlocks;
  inv_used : used_count_ (pool w) = u32 (total (threads w));
  inv_threads t th : threads w !! t = Some th -> thread_ok (pool w) (version w) th
}.

(** The blocks of one thread and those of the others. *)
Lemma owned_split ths t th : ths !! t = Some th ->
  exists rest, (ths ≫= owned) ≡ₚ owned th ++ rest /\ (forall th', (<[t := th']> ths ≫= owned) ≡ₚ owned th' ++ rest)
    /\ forall u thu j, u <> t -> ths !! u = Some thu -> j ∈ owned thu -> j ∈ rest.
Proof.
  intros Hth. exists ((take t ths ≫= owned) ++ (drop (S t) ths ≫= owned)).
  assert (Hins : forall th', (<[t := th']> ths ≫= owned) ≡ₚ owned th' ++ (take t ths ≫= owned) ++ (drop (S t) ths ≫= owned)).
  { intros th'. rewrite insert_take_drop by (by eapply lookup_lt_Some). rewrite bind_app. simpl.
    by rewrite (Permutation_app_swap_app). }
  split; [|split; [done|]].
  - rewrite <- (Hins th), list_insert_id by done. done.
  - intros u thu j Hne Hu Hj. apply elem_of_app. rewrite !list_elem_of_bind.
    destruct (Nat.lt_ge_cases u t).
    + left. exists thu. split; [done|]. apply list_elem_of_lookup. exists u. by rewrite lookup_take_lt.
    + right. exists thu. split; [done|]. apply list_elem_of_lookup. exists (u - S t)%nat. rewrite lookup_drop.
      replace (S t + (u - S t))%nat with u by lia. done.
Qed.

Lemma total_insert ths t th th' :
  ths !! t = Some th -> total (<[t := th']> ths) = total ths + (counted th' - counted th).
Proof.
  revert t. induction ths as [|x ths IH]; intros [|t] Ht; simplify_eq/=; [lia|]. rewrite (IH _ Ht). lia.
Qed.

Lemma Inv_step w w' fl : Inv w fl -> pool_trans w w' -> exists fl', Inv w' fl'.
Proof.
  intros [Hs Hp Hu Hts] (t & a & th & Hth & Hf & He). unfold pool_exec in He. rewrite Hth in He.
  destruct (thread_action a th (version w) (pool w)) as [ [ [th' v'] p'] |] eqn:Ea; simplify_eq.
  destruct (owned_split _ _ _ Hth) as (rest & Hsp & Hins & Hrest). rewrite Hsp in Hp.
  destruct (thread_action_ok _ _ _ _ _ rest _ _ _ Hs (Hts _ _ Hth) Hp Hf Ea) as (fl' & [S1 S2 S3 S4 S5]).
  exists fl'. split; simpl; [done| | |].
  - by rewrite Hins, app_assoc, S2, <- app_assoc.
  - rewrite S3 by (rewrite Hu; by apply wrap_range). by rewrite Hu, wrap_add_l, (total_insert _ _ _ _ Hth).
  - intros u thu Hlu. destruct (Nat.eq_dec u t) as [->|Hne].
    + rewrite list_lookup_insert_eq in Hlu by (by eapply lookup_lt_Some). by simplify_eq.
    + rewrite list_lookup_insert_ne in Hlu by done. eapply thread_ok_frame; [exact S5| | |by eapply Hts].
      * intros j Hj Hj'. destruct (free_block _ _ _ j Hp Hj) as (_ & _ & Hn). apply Hn. by eapply Hrest.
      * intros j Hj. assert (Hin : j ∈ seqZ 0 MaxBlocks).
        { rewrite <- Hp, !elem_of_app. right; right. by eapply Hrest. } apply elem_of_seqZ in Hin. lia.
Qed.

Lemma Inv_start storage0 n : Z.of_nat (length storage0) = MaxBlocks -> Inv (pool_start storage0 n) (seqZ 0 MaxBlocks).
Proof.
  intros Hl. pose proof (FixedPool_ctor_spec _ Hl) as (H1 & H2 & H3 & _). split; simpl.
  - split; rewrite ?H1; [done|done|lia|done|]. by apply FixedPool_ctor_chain.
  - assert (E : (replicate n (mkThread PRest []) ≫= owned) = []) by (induction n; done). by rewrite E, app_nil_r.
  - rewrite H2. assert (E : total (replicate n (mkThread PRest [])) = 0) by (induction n; done). by rewrite E.
  - intros t th Ht. apply lookup_replicate in Ht as [-> _]. done.
Qed.

Lemma total_resting ths :
  Forall (fun th => pc th = PRest) ths -> total ths = Z.of_nat (length (ths ≫= owned)).
Proof.
  induction 1 as [|[c hs] ths Hc _ IH]; [done|]. simpl in Hc. subst c.
  change (counted (mkThread PRest hs) + total ths = Z.of_nat (length (hs ++ (ths ≫= owned)))).
  rewrite length_app, IH. unfold counted. simpl. lia.
Qed.

(** C4. Any number of threads allocating, writing into and freeing blocks of one
    pool, interleaved at every shared access and with exchanges failing
    spuriously: as long as no allocating thread is overtaken by 2^16 head updates
    between its load and its exchange, every block is at every moment either on
    the free list exactly once or owned by exactly one thread, so no block is ever
    handed out twice, lost, or linked while in use; the free list is well formed;
    next-index reads stay inside the storage, stale heads included; and whenever
    all threads are at rest the counts are exact. *)
Theorem pool_blocks_conserved storage0 n w :
  Z.of_nat (length storage0) = MaxBlocks -> rtc pool_trans (pool_start storage0 n) w ->
  (exists fl, chain (links (pool w)) (FreePoolHeadIndex (free_head_ (pool w))) fl /\
     fl ++ (threads w ≫= owned) ≡ₚ seqZ 0 MaxBlocks)
  /\ (forall th h v, th ∈ threads w -> pc th = ALoadNext h v -> 0 <= FreePoolHeadIndex h < MaxBlocks)
  /\ (Forall (fun th => pc th = PRest) (threads w) ->
      UsedCount (pool w) = Z.of_nat (length (threads w ≫= held)) /\
      FreeCount (pool w) = MaxBlocks - Z.of_nat (length (threads w ≫= held))).
Proof.
  intros Hl Hr. pose proof HmaxZ.
  assert (HI : exists fl, Inv w fl).
  { eapply (rtc_invariant pool_trans (fun w => exists fl, Inv w fl)); [|intros x y Hs (fl & Hi); by eapply Inv_step|exact Hr].
    eexists. by apply Inv_start. }
  destruct HI as (fl & [Hs Hp Hu Hts]). split; [exists fl; split; [apply Hs|done]|]. split.
  - intros th h v (t & Ht)%list_elem_of_lookup Hpc. specialize (Hts t th Ht). unfold thread_ok in Hts. rewrite Hpc in Hts.
    destruct Hts as [(_ & _ & _ & _ & [?|?]) Hne]; done.
  - intros Hrest. pose proof (Permutation_length Hp) as Hlen. rewrite length_app, length_seqZ in Hlen.
    assert (E : (threads w ≫= held) = (threads w ≫= owned)).
    { clear -Hrest. induction Hrest as [|[c hs] ths Hc _ IH]; [done|]. simpl in Hc. subst c.
      change (hs ++ (ths ≫= held) = hs ++ (ths ≫= owned)). by rewrite IH. }
    rewrite E. unfold FreeCount, UsedCount. rewrite Hu, (total_resting _ Hrest), (wrap_small 32 (Z.of_nat (length (threads w ≫= owned)))) by (unfold in_range; lia).
    split; [done|]. apply wrap_small. unfold in_range. lia.
Qed.

(** ** The sequential operations are the solo runs of the concurrent ones *)

(** A thread runs its current operation with nobody else moving. *)
Fixpoint solo (fuel : nat) (th : Thread) (v : Z) (p : FixedPool) : Thread * Z * FixedPool :=
  match fuel with
  | O => (th, v, p)
  | S fuel => match pool_step false th v p with Some (th', v', p') => solo fuel th' v' p' | None => (th, v, p) end
  end.

Lemma Allocate_solo hs v p :
  exists v', solo 6 (mkThread AStart hs) v p =
    (mkThread PRest (match Allocate p with (Some ptr, _) => [FreePoolHeadIndex (free_head_ p)] | (None, _) => [] end ++ hs), v',
     (Allocate p).2).
Proof.
  unfold Allocate. simpl. unfold pool_step. simpl. destruct (FreePoolHeadIndex (free_head_ p) =? kFreeIndexEmpty) eqn:E; [by eexists|].
  simpl. rewrite Z.eqb_refl. simpl. eexists. reflexivity.
Qed.

Lemma Free_solo hs v p idx : 0 <= idx < MaxBlocks ->
  exists v' p', solo 5 (mkThread (FLoad idx) hs) v p = (mkThread PRest hs, v', p') /\ Free (BlockPtr idx) p = Some p'.
Proof.
  intros Hi. pose proof aligned_pos. unfold Free. rewrite OwnsPointer_blocks, PtrToIndex_BlockPtr by done.
  rewrite bool_decide_eq_true_2 by (apply elem_of_blocks; eauto).
  assert (E0 : (BlockPtr idx =? 0) = false) by (apply Z.eqb_neq; unfold BlockPtr; nia). rewrite E0.
  unfold solo, pool_step. simpl. rewrite Z.eqb_refl. simpl. eexists _, _. split; reflexivity.
Qed.

End Pool.

(** ** Schedules *)

(** Runs a schedule, checking the tag window. *)
Fixpoint pool_run (sched : list (nat * PoolAction)) (w : World) : option World :=
  match sched with
  | [] => Some w
  | (t, a) :: sched' =>
    match threads w !! t with
    | Some th =>
      if match pc th with ACas _ v0 _ => version w - v0 <? 2 ^ 16 | _ => true end then
        match pool_exec t a w with Some w' => pool_run sched' w' | None => None end
      else None
    | None => None
    end
  end.

Lemma pool_run_rtc sched w w' : pool_run sched w = Some w' -> rtc pool_trans w w'.
Proof.
  revert w. induction sched as [|[t a] sched IH]; intros w; simpl; [by intros [= ->]|].
  destruct (threads w !! t) as [th|] eqn:Et; [|done].
  destruct (match pc th with ACas _ v0 _ => version w - v0 <? 2 ^ 16 | _ => true end) eqn:Ef; [|done].
  destruct (pool_exec t a w) as [w1|] eqn:Ee; [|done]. intros Hr. eapply rtc_l; [|by apply IH].
  exists t, a, th. split; [done|]. split; [|done]. unfold fresh_tag. destruct (pc th); try done. by apply Z.ltb_lt.
Qed.

Definition steps (t k : nat) : list (nat * PoolAction) := replicate k (t, DoStep false).
Definition alloc_sched (t : nat) : list (nat * PoolAction) := (t, DoAlloc) :: steps t 6.
Definition free_sched (t k : nat) : list (nat * PoolAction) := (t, DoFree k) :: steps t 5.

(** Thread 0 stalls in an allocation while thread 1 recycles the blocks it read;
    its exchange fails and it retries with the new head. *)
Definition stale_sched : list (nat * PoolAction) :=
  (0%nat, DoAlloc) :: steps 0 3 ++ alloc_sched 1 ++ alloc_sched 1 ++ [(1%nat, DoWrite 0 42)] ++ free_sched 1 1 ++ steps 0 6.

Lemma pool_blocks_conserved_witness :
  exists w, pool_run stale_sched (pool_start 3 [0; 0; 0] 2) = Some w /\ (held <$> threads w) = [[0]; [1]] /\
    UsedCount (pool w) = 2 /\ FreeCount 3 (pool w) = 1.
Proof.
  eexists. split; [vm_compute; reflexivity|]. split; [reflexivity|].
  match goal with |- UsedCount (pool ?w) = _ /\ _ => set (W := w) end.
  destruct (pool_blocks_conserved 3 ltac:(unfold kFreeIndexMask; lia) [0; 0; 0] 2 W) as (_ & _ & Hc).
  - reflexivity.
  - apply (pool_run_rtc stale_sched). vm_compute. reflexivity.
  - apply Hc. repeat constructor.
Defined.

(** The used count trails the free list: a block freed and taken again before the
    first thread counts its release makes [FreeCount] wrap around. *)
Lemma pool_free_count_wraps :
  exists w, pool_run (alloc_sched 0 ++ (0%nat, DoFree 0) :: steps 0 3 ++ alloc_sched 1) (pool_start 1 [0] 2) = Some w /\
    UsedCount (pool w) = 2 /\ FreeCount 1 (pool w) = 2 ^ 32 - 1.
Proof. eexists. split; [vm_compute; reflexivity|]. vm_compute. by split. Qed.

Lemma object_pool_refines_stack_witness :
  let ops := [PCreate 7; PCreate 8; PCreate 9; PDestroy 4096; PWrite 4112 77; PDestroy 4096; PDestroy 4113; PCreate 5;
              PFreeCount; PIsAllocated 4112; PDestroy 0] in
  let r := run (pool_op 10 2 4 4096) ops (ObjectPool_ctor 2 [1; 2]) in
  r.1 = [RPtr (Some 4096); RPtr (Some 4112); RPtr None; RDone true; RDone true; RDone false; RDone false; RPtr (Some 4096);
         RNum 0; RBool true; RDone true]
  /\ (ObjectPool_dtor 10 2 4 4096 r.2).1 = [4096; 4112].
Proof.
  cbv zeta. set (ops := [_; _; _; _; _; _; _; _; _; _; _]).
  destruct (object_pool_refines_stack 10 2 4 4096 ltac:(lia) ltac:(unfold kFreeIndexMask; lia) ltac:(lia) ltac:(lia) [1; 2] ops)
    as (E1 & _ & E2); [done| |].
  { unfold ops. repeat apply Forall_cons_2; try exact I; try apply Forall_nil_2; try (by left); right; vm_compute; split; congruence. }
  rewrite E1, E2. split; vm_compute; reflexivity.
Defined.

(** The window is needed: overtaken by exactly 2^16 updates, thread 0's exchange
    succeeds on a recycled head and links the block 1 that thread 1 holds, so
    that its next allocation hands out that block a second time. *)
Definition exec_all (sched : list (nat * PoolAction)) (ow : option World) : option World :=
  foldl (fun ow ta => match ow with Some w => pool_exec ta.1 ta.2 w | None => None end) ow sched.
Definition wrap_world : option World :=
  let w0 := exec_all ((0%nat, DoAlloc) :: steps 0 3 ++ alloc_sched 1 ++ alloc_sched 1 ++ free_sched 1 1 ++
                      alloc_sched 1 ++ alloc_sched 1 ++ free_sched 1 1) (Some (pool_start 3 [0; 0; 0] 2)) in
  let w1 := Pos.iter (exec_all (alloc_sched 1 ++ free_sched 1 0)) w0 32765 in
  exec_all (steps 0 3 ++ alloc_sched 0) w1.

Lemma pool_tag_wrap_double_allocation :
  match wrap_world with Some w => (held <$> threads w) = [[1; 0]; [2; 1]] | None => False end.
Proof. vm_compute. reflexivity. Qed.
