(* ===== verification/ByteRing.v ===== *)
(** * Byte rings in shared memory (include/osp/shm_transport.hpp)

    ShmSpscByteRing and ShmSpmcByteRing: length-prefixed messages in a circular
    byte area under 32-bit positions that only grow.  The single-consumer ring is
    a queue of messages with a byte budget; the multi-consumer ring broadcasts
    every message to all registered consumers. *)

From Stdlib Require Import ZArith Lia Bool.
From stdpp Require Import base numbers list option.
From S2P Require Import Prelude.

Open Scope Z_scope.

(** ** The circular byte area *)

(** Smears the highest set bit downwards, then isolates it. *)
Definition RoundDownPow2 (v : Z) : Z :=
  if v =? 0 then 0
  else
    let v := Z.lor v (Z.shiftr v 1) in
    let v := Z.lor v (Z.shiftr v 2) in
    let v := Z.lor v (Z.shiftr v 4) in
    let v := Z.lor v (Z.shiftr v 8) in
    let v := Z.lor v (Z.shiftr v 16) in
    u32 (Z.shiftr v 1 + 1).

(** WriteRaw and ReadRaw on the data area [data] of [capacity] bytes. *)
Definition WriteRaw (capacity mask_ pos : Z) (src : list Z) (data : list Z) : list Z :=
  let len := Z.of_nat (length src) in
  let offset := Z.land pos mask_ in
  let first := u32 (capacity - offset) in
  if len <=? first then blit data offset src
  else blit (blit data offset (take (Z.to_nat first) src)) 0 (drop (Z.to_nat first) src).

Definition ReadRaw (capacity mask_ pos len : Z) (data : list Z) : list Z :=
  let offset := Z.land pos mask_ in
  let first := u32 (capacity - offset) in
  if len <=? first then slice data offset len
  else slice data offset first ++ slice data 0 (u32 (len - first)).

(** ** Single producer, single consumer *)

Definition kSpscHeaderSize : Z := 16.

(** The shared header and data area, and the mask kept by each side. *)
Record ShmSpscByteRing := mkSpscRing {
  sr_head : Z;
  sr_tail : Z;
  sr_capacity : Z;
  sr_data : list Z;
  sr_mask : Z
}.

(** [area] is what the mapped memory holds after the header. *)
Definition spsc_InitAt (total_size : Z) (area : list Z) : option ShmSpscByteRing :=
  if total_size <=? kSpscHeaderSize then None
  else let cap := RoundDownPow2 (u32 (total_size - kSpscHeaderSize)) in Some (mkSpscRing 0 0 cap area (u32 (cap - 1))).

(** The consumer's view of an initialised ring. *)
Definition spsc_AttachAt (r : ShmSpscByteRing) : ShmSpscByteRing :=
  mkSpscRing (sr_head r) (sr_tail r) (sr_capacity r) (sr_data r) (u32 (sr_capacity r - 1)).

Definition spsc_WriteableBytes (r : ShmSpscByteRing) : Z := u32 (sr_capacity r - u32 (sr_head r - sr_tail r)).
Definition spsc_ReadableBytes (r : ShmSpscByteRing) : Z := u32 (sr_head r - sr_tail r).
Definition spsc_HasData (r : ShmSpscByteRing) : bool := 4 <=? spsc_ReadableBytes r.

Definition spsc_Write (data : list Z) (r : ShmSpscByteRing) : bool * ShmSpscByteRing :=
  let len := Z.of_nat (length data) in
  let total := u32 (len + 4) in
  if spsc_WriteableBytes r <? total then (false, r)
  else
    let head := sr_head r in
    let d := WriteRaw (sr_capacity r) (sr_mask r) head (to_le 4 len) (sr_data r) in
    let d := WriteRaw (sr_capacity r) (sr_mask r) (u32 (head + 4)) data d in
    (true, mkSpscRing (u32 (head + total)) (sr_tail r) (sr_capacity r) d (sr_mask r)).

(** The bytes read; none when it returns 0. *)
Definition spsc_Read (max_len : Z) (r : ShmSpscByteRing) : list Z * ShmSpscByteRing :=
  let tail := sr_tail r in
  let available := u32 (sr_head r - tail) in
  if available <? 4 then ([], r)
  else
    let msg_len := from_le (ReadRaw (sr_capacity r) (sr_mask r) tail 4 (sr_data r)) in
    if (msg_len =? 0) || (available <? u32 (msg_len + 4)) then ([], r)
    else
      let advanced := mkSpscRing (sr_head r) (u32 (tail + msg_len + 4)) (sr_capacity r) (sr_data r) (sr_mask r) in
      if max_len <? msg_len then ([], advanced)
      else (ReadRaw (sr_capacity r) (sr_mask r) (u32 (tail + 4)) msg_len (sr_data r), advanced).

(** ** Single producer, many consumers *)

(** OSP_SHM_SPMC_MAX_CONSUMERS, and sizeof(ShmSpmcByteRingHeader) for it. *)
Definition kSpmcMaxConsumers : Z := 8.
Definition kSpmcHeaderSize : Z := 4 * 4 + 2 * 4 * kSpmcMaxConsumers.

Record ShmSpmcByteRing := mkSpmcRing {
  mr_head : Z;
  mr_capacity : Z;
  mr_max_consumers : Z;
  mr_consumer_count : Z;
  mr_tails : list Z;
  mr_active : list Z;
  mr_data : list Z;
  mr_mask : Z
}.

Definition spmc_InitAt (total_size max_consumers : Z) (area : list Z) : option ShmSpmcByteRing :=
  if total_size <=? kSpmcHeaderSize then None
  else
    let max_consumers := if kSpmcMaxConsumers <? max_consumers then kSpmcMaxConsumers else max_consumers in
    let cap := RoundDownPow2 (u32 (total_size - kSpmcHeaderSize)) in
    let zeros := replicate (Z.to_nat kSpmcMaxConsumers) 0 in
    Some (mkSpmcRing 0 cap max_consumers 0 zeros zeros area (u32 (cap - 1))).

Definition spmc_set_tail (i v : Z) (r : ShmSpmcByteRing) : ShmSpmcByteRing :=
  mkSpmcRing (mr_head r) (mr_capacity r) (mr_max_consumers r) (mr_consumer_count r) (aset (mr_tails r) i v) (mr_active r)
    (mr_data r) (mr_mask r).
Definition spmc_set_active (i v : Z) (r : ShmSpmcByteRing) : ShmSpmcByteRing :=
  mkSpmcRing (mr_head r) (mr_capacity r) (mr_max_consumers r) (mr_consumer_count r) (mr_tails r) (aset (mr_active r) i v)
    (mr_data r) (mr_mask r).
Definition spmc_set_count (n : Z) (r : ShmSpmcByteRing) : ShmSpmcByteRing :=
  mkSpmcRing (mr_head r) (mr_capacity r) (mr_max_consumers r) n (mr_tails r) (mr_active r) (mr_data r) (mr_mask r).

(** The claim of a slot by compare-exchange and the stores that follow it. *)
Definition spmc_claimed (i : Z) (r : ShmSpmcByteRing) : ShmSpmcByteRing := spmc_set_active i 1 r.
Definition spmc_registered (i : Z) (r : ShmSpmcByteRing) : ShmSpmcByteRing :=
  spmc_set_count (u32 (mr_consumer_count r + 1)) (spmc_set_tail i (mr_head r) r).

Fixpoint spmc_register_loop (n : nat) (i : Z) (r : ShmSpmcByteRing) : Z * ShmSpmcByteRing :=
  match n with
  | O => (-1, r)
  | S n' => if aget (mr_active r) i =? 0 then (i, spmc_registered i (spmc_claimed i r)) else spmc_register_loop n' (i + 1) r
  end.
Definition RegisterConsumer (r : ShmSpmcByteRing) : Z * ShmSpmcByteRing :=
  spmc_register_loop (Z.to_nat (mr_max_consumers r)) 0 r.

Definition valid_consumer (id : Z) (r : ShmSpmcByteRing) : bool := negb ((id <? 0) || (mr_max_consumers r <=? id)).

Definition UnregisterConsumer (id : Z) (r : ShmSpmcByteRing) : ShmSpmcByteRing :=
  if negb (valid_consumer id r) then r
  else
    let was := aget (mr_active r) id in
    let r := spmc_set_active id 0 r in
    if was =? 1 then spmc_set_count (u32 (mr_consumer_count r - 1)) r else r.

Definition ConsumerCount (r : ShmSpmcByteRing) : Z := mr_consumer_count r.

(** The minimum of the active tails, by signed comparison. *)
Definition SlowestTail (r : ShmSpmcByteRing) : Z :=
  for_loop (fun i slowest =>
      if negb (aget (mr_active r) i =? 0)
      then let t := aget (mr_tails r) i in if 0 <? s32 (slowest - t) then t else slowest
      else slowest)
    0 (Z.to_nat (mr_max_consumers r)) (mr_head r).

Definition spmc_WriteableBytes (r : ShmSpmcByteRing) : Z := u32 (mr_capacity r - u32 (mr_head r - SlowestTail r)).

Definition spmc_Write (data : list Z) (r : ShmSpmcByteRing) : bool * ShmSpmcByteRing :=
  let len := Z.of_nat (length data) in
  let total := u32 (len + 4) in
  if spmc_WriteableBytes r <? total then (false, r)
  else
    let head := mr_head r in
    let d := WriteRaw (mr_capacity r) (mr_mask r) head (to_le 4 len) (mr_data r) in
    let d := WriteRaw (mr_capacity r) (mr_mask r) (u32 (head + 4)) data d in
    (true, mkSpmcRing (u32 (head + total)) (mr_capacity r) (mr_max_consumers r) (mr_consumer_count r) (mr_tails r)
             (mr_active r) d (mr_mask r)).

Definition spmc_Read (id max_len : Z) (r : ShmSpmcByteRing) : list Z * ShmSpmcByteRing :=
  if negb (valid_consumer id r) then ([], r)
  else
    let tail := aget (mr_tails r) id in
    let available := u32 (mr_head r - tail) in
    if available <? 4 then ([], r)
    else
      let msg_len := from_le (ReadRaw (mr_capacity r) (mr_mask r) tail 4 (mr_data r)) in
      if (msg_len =? 0) || (available <? u32 (msg_len + 4)) then ([], r)
      else
        let advanced := spmc_set_tail id (u32 (tail + msg_len + 4)) r in
        if max_len <? msg_len then ([], advanced)
        else (ReadRaw (mr_capacity r) (mr_mask r) (u32 (tail + 4)) msg_len (mr_data r), advanced).

Definition spmc_ReadableBytes (id : Z) (r : ShmSpmcByteRing) : Z :=
  if negb (valid_consumer id r) then 0 else u32 (mr_head r - aget (mr_tails r) id).
Definition spmc_HasData (id : Z) (r : ShmSpmcByteRing) : bool := 4 <=? spmc_ReadableBytes id r.

(** ** RoundDownPow2 *)

(** Bits [L - m + 1 .. L] are set and none above. *)
Definition smeared (L m v : Z) : Prop :=
  forall i, 0 <= i -> (L - m < i <= L -> Z.testbit v i = true) /\ (L < i -> Z.testbit v i = false).

Lemma smear_step L m v : 0 < m -> smeared L m v -> smeared L (2 * m) (Z.lor v (Z.shiftr v m)).
Proof.
  intros Hm Hs i Hi. rewrite Z.lor_spec, Z.shiftr_spec by lia. split; intros Hr.
  - destruct (Z.le_gt_cases i (L - m)).
    + rewrite (proj1 (Hs (i + m) ltac:(lia))) by lia. apply orb_true_r.
    + by rewrite (proj1 (Hs i Hi)) by lia.
  - by rewrite (proj2 (Hs i Hi)), (proj2 (Hs (i + m) ltac:(lia))) by lia.
Qed.

Lemma RoundDownPow2_spec v : 0 < v < 2 ^ 32 -> RoundDownPow2 v = 2 ^ Z.log2 v.
Proof.
  intros Hv. unfold RoundDownPow2. destruct (Z.eqb_spec v 0); [lia|]. cbv zeta. set (L := Z.log2 v).
  assert (HL : 0 <= L < 32) by (unfold L; split; [apply Z.log2_nonneg|apply Z.log2_lt_pow2; lia]).
  assert (H1 : smeared L 1 v).
  { intros i Hi. split; intros Hr; [replace i with L by lia; apply Z.bit_log2; lia|apply Z.bits_above_log2; lia]. }
  apply smear_step in H1; [|lia]. apply smear_step in H1; [|lia]. apply smear_step in H1; [|lia].
  apply smear_step in H1; [|lia]. apply smear_step in H1; [|lia].
  change (2 * 1) with 2 in H1. change (2 * 2) with 4 in H1. change (2 * 4) with 8 in H1. change (2 * 8) with 16 in H1.
  set (s := Z.lor _ (Z.shiftr _ 16)) in *.
  assert (Es : s = Z.ones (L + 1)).
  { apply Z.bits_inj'. intros i Hi. destruct (Z.lt_ge_cases L i).
    - rewrite (proj2 (H1 i Hi)) by lia. symmetry. apply Z.ones_spec_high. lia.
    - rewrite (proj1 (H1 i Hi)) by lia. symmetry. apply Z.ones_spec_low. lia. }
  rewrite Es, ones_equiv', Z.shiftr_div_pow2 by lia. rewrite Z.pow_add_r by lia. change (2 ^ 1) with 2.
  assert (0 < 2 ^ L) by (apply Z.pow_pos_nonneg; lia).
  replace (2 ^ L * 2 - 1) with (1 + (2 ^ L - 1) * 2) by lia. rewrite Z.div_add, Z.div_small by lia.
  rewrite wrap_small; [lia|]. unfold in_range. pose proof (Z.pow_lt_mono_r 2 L 32). lia.
Qed.

(** ** Raw accesses and positions *)

Section Area.
Context (k : Z) (Hk : 0 <= k <= 31).

Lemma cap_pos : 0 < 2 ^ k <= 2 ^ 31.
Proof. split; [apply Z.pow_pos_nonneg; lia|apply Z.pow_le_mono_r; lia]. Qed.

(** The byte at stream position [p], and the [n] bytes from [p] on. *)
Definition byte_at (data : list Z) (p : Z) : Z := aget data (wrap k p).
Definition view (data : list Z) (p n : Z) : list Z := byte_at data <$> seqZ p n.

Lemma wrap_k_bounds p : 0 <= wrap k p < 2 ^ k.
Proof. apply (wrap_range k). lia. Qed.

Lemma offset_pos P : Z.land (u32 P) (2 ^ k - 1) = wrap k P.
Proof. apply land_mask_wrap. lia. Qed.

Lemma first_eq P : u32 (2 ^ k - wrap k P) = 2 ^ k - wrap k P.
Proof. pose proof cap_pos. pose proof (wrap_k_bounds P). apply wrap_small. unfold in_range. lia. Qed.

(** A byte of the area after a write at position [P]. *)
Lemma WriteRaw_get P src data j :
  2 ^ k <= Z.of_nat (length data) -> Z.of_nat (length src) <= 2 ^ k -> 0 <= j < 2 ^ k ->
  length (WriteRaw (2 ^ k) (2 ^ k - 1) (u32 P) src data) = length data /\
  aget (WriteRaw (2 ^ k) (2 ^ k - 1) (u32 P) src data) j =
    if wrap k (j - P) <? Z.of_nat (length src) then aget src (wrap k (j - P)) else aget data j.
Proof.
  intros Hd Hs Hj. pose proof cap_pos. pose proof (wrap_k_bounds P) as Ho. unfold WriteRaw. rewrite offset_pos, first_eq.
  assert (Ew : wrap k (j - P) = if wrap k P <=? j then j - wrap k P else j - wrap k P + 2 ^ k).
  { rewrite <- wrap_sub_r. destruct (Z.leb_spec (wrap k P) j); [apply wrap_small; unfold in_range; lia|].
    unfold wrap. symmetry. apply (Z.mod_unique _ _ (-1)); [left; unfold wrap in *; lia|lia]. }
  destruct (Z.leb_spec (Z.of_nat (length src)) (2 ^ k - wrap k P)).
  - split; [apply length_blit; lia|]. rewrite aget_blit, Ew by lia.
    destruct (Z.leb_spec (wrap k P) j); simpl.
    + destruct (Z.ltb_spec j (wrap k P + Z.of_nat (length src))), (Z.ltb_spec (j - wrap k P) (Z.of_nat (length src))); lia || done.
    + destruct (Z.ltb_spec (j - wrap k P + 2 ^ k) (Z.of_nat (length src))); lia || done.
  - set (f := 2 ^ k - wrap k P) in *.
    assert (Hlt : Z.of_nat (length (take (Z.to_nat f) src)) = f) by (rewrite length_take; lia).
    assert (Hld : Z.of_nat (length (drop (Z.to_nat f) src)) = Z.of_nat (length src) - f) by (rewrite length_drop; lia).
    assert (Hb : length (blit data (wrap k P) (take (Z.to_nat f) src)) = length data) by (apply length_blit; lia).
    split; [rewrite length_blit; lia|]. rewrite aget_blit by lia. rewrite Hld, aget_blit, Hlt, Ew by lia. rewrite Z.add_0_l, Z.sub_0_r.
    destruct (Z.leb_spec 0 j); [|lia]. simpl. destruct (Z.leb_spec (wrap k P) j).
    + destruct (Z.ltb_spec j (Z.of_nat (length src) - f)); [lia|]. simpl. destruct (Z.ltb_spec j (wrap k P + f)); [|lia].
      destruct (Z.ltb_spec (j - wrap k P) (Z.of_nat (length src))); [|lia]. by rewrite aget_take by lia.
    + simpl. destruct (Z.ltb_spec j (Z.of_nat (length src) - f)), (Z.ltb_spec (j - wrap k P + 2 ^ k) (Z.of_nat (length src)));
        try lia; try done. rewrite aget_drop by lia. f_equal. lia.
Qed.

Lemma view_length data p n : 0 <= n -> length (view data p n) = Z.to_nat n.
Proof. intros. unfold view. by rewrite length_fmap, length_seqZ. Qed.

Lemma view_get data p n i : 0 <= i < n -> aget (view data p n) i = byte_at data (p + i).
Proof.
  intros Hi. unfold view, aget. rewrite list_lookup_total_alt, list_lookup_fmap, lookup_seqZ_lt by lia. simpl. f_equal. lia.
Qed.

Lemma view_app data p m n : 0 <= m -> 0 <= n -> view data p (m + n) = view data p m ++ view data (p + m) n.
Proof. intros. unfold view. by rewrite seqZ_app, fmap_app by lia. Qed.

Lemma view_ext data data' p n :
  (forall i, 0 <= i < n -> byte_at data (p + i) = byte_at data' (p + i)) -> view data p n = view data' p n.
Proof.
  intros He. destruct (Z.le_gt_cases 0 n); [|unfold view; by rewrite !seqZ_nil by lia].
  apply arr_ext; rewrite !view_length by lia; [done|]. intros i Hi. rewrite !view_get by lia. apply He. lia.
Qed.

(** What was written is read back, and the bytes before it are kept. *)
Lemma WriteRaw_written P src data :
  2 ^ k <= Z.of_nat (length data) -> Z.of_nat (length src) <= 2 ^ k ->
  view (WriteRaw (2 ^ k) (2 ^ k - 1) (u32 P) src data) P (Z.of_nat (length src)) = src.
Proof.
  intros Hd Hs. apply arr_ext; rewrite view_length by lia; [lia|]. intros i Hi. rewrite view_get by lia. unfold byte_at.
  destruct (WriteRaw_get P src data (wrap k (P + i)) Hd Hs (wrap_k_bounds _)) as [_ ->].
  rewrite wrap_sub_l. replace (P + i - P) with i by lia. rewrite (wrap_small k i) by (unfold in_range; lia).
  destruct (Z.ltb_spec i (Z.of_nat (length src))); [done|lia].
Qed.

Lemma WriteRaw_kept P src data q n :
  2 ^ k <= Z.of_nat (length data) -> Z.of_nat (length src) <= 2 ^ k ->
  P + Z.of_nat (length src) <= q + 2 ^ k -> q + n <= P ->
  view (WriteRaw (2 ^ k) (2 ^ k - 1) (u32 P) src data) q n = view data q n.
Proof.
  intros Hd Hs Hlo Hhi. apply view_ext. intros i Hi. unfold byte_at.
  destruct (WriteRaw_get P src data (wrap k (q + i)) Hd Hs (wrap_k_bounds _)) as [_ ->].
  rewrite wrap_sub_l. assert (wrap k (q + i - P) = q + i - P + 2 ^ k) as ->.
  { unfold wrap. symmetry. apply (Z.mod_unique _ _ (-1)); [left; lia|lia]. }
  destruct (Z.ltb_spec (q + i - P + 2 ^ k) (Z.of_nat (length src))); [lia|done].
Qed.

Lemma ReadRaw_view P n data :
  2 ^ k <= Z.of_nat (length data) -> 0 <= n <= 2 ^ k -> ReadRaw (2 ^ k) (2 ^ k - 1) (u32 P) n data = view data P n.
Proof.
  intros Hd Hn. pose proof cap_pos. pose proof (wrap_k_bounds P) as Ho. unfold ReadRaw. rewrite offset_pos, first_eq.
  assert (Hb : forall i, 0 <= i -> wrap k P + i < 2 ^ k -> byte_at data (P + i) = aget data (wrap k P + i)).
  { intros i Hi Hlt. unfold byte_at. f_equal. rewrite <- wrap_add_l. apply wrap_small. unfold in_range. lia. }
  destruct (Z.leb_spec n (2 ^ k - wrap k P)).
  - apply arr_ext; rewrite length_slice by lia; [by rewrite view_length by lia|].
    intros i Hi. rewrite aget_slice, view_get, Hb by lia. done.
  - set (f := 2 ^ k - wrap k P) in *. rewrite (wrap_small 32 (n - f)) by (unfold in_range; lia).
    replace n with (f + (n - f)) at 2 by lia. rewrite view_app by lia. f_equal.
    + apply arr_ext; rewrite length_slice by lia; [by rewrite view_length by lia|].
      intros i Hi. rewrite aget_slice, view_get, Hb by lia. done.
    + apply arr_ext; rewrite length_slice by lia; [by rewrite view_length by lia|].
      intros i Hi. rewrite aget_slice, view_get by lia. unfold byte_at. f_equal.
      replace (P + f + i) with (P + (f + i)) by lia. rewrite <- wrap_add_l.
      unfold wrap at 1. unfold f, wrap in *. apply (Z.mod_unique _ _ 1); [left; lia|lia].
Qed.

(** ** Messages in the stream *)

Definition mlen (m : list Z) : Z := Z.of_nat (length m).
(** A message as it lies in the ring, and the bytes a queue of them takes. *)
Definition enc (m : list Z) : list Z := to_le 4 (mlen m) ++ m.
Definition used (q : list (list Z)) : Z := foldr (fun m n => mlen m + 4 + n) 0 q.
Definition msg_ok (m : list Z) : Prop := 1 <= mlen m < 2 ^ 32 - 4.

(** The stream positions [T .. H) hold the messages [q]. *)
Record holds (data : list Z) (T H : Z) (q : list (list Z)) : Prop := {
  ho_view : view data T (H - T) = concat (enc <$> q);
  ho_used : H - T = used q;
  ho_fit : H - T <= 2 ^ k;
  ho_ok : Forall msg_ok q
}.

Lemma mlen_nonneg (x : list Z) : 0 <= mlen x.
Proof. apply Nat2Z.is_nonneg. Qed.

Lemma used_nonneg q : 0 <= used q.
Proof. induction q as [|m q IH]; simpl; [lia|unfold mlen; lia]. Qed.

Lemma used_snoc q m : used (q ++ [m]) = used q + mlen m + 4.
Proof. induction q as [|x q IH]; simpl; [lia|]. rewrite IH. lia. Qed.

Lemma length_enc m : Z.of_nat (length (enc m)) = mlen m + 4.
Proof. unfold enc. rewrite length_app, length_to_le. unfold mlen. lia. Qed.

Definition write_message (H : Z) (m data : list Z) : list Z :=
  WriteRaw (2 ^ k) (2 ^ k - 1) (u32 (u32 H + 4)) m (WriteRaw (2 ^ k) (2 ^ k - 1) (u32 H) (to_le 4 (mlen m)) data).

Lemma length_WriteRaw P src data :
  2 ^ k <= Z.of_nat (length data) -> Z.of_nat (length src) <= 2 ^ k ->
  length (WriteRaw (2 ^ k) (2 ^ k - 1) (u32 P) src data) = length data.
Proof. intros Hd Hs. pose proof cap_pos. apply (WriteRaw_get P src data 0); lia. Qed.

Section Write.
Context (H : Z) (m data : list Z) (Hd : 2 ^ k <= Z.of_nat (length data)) (Hfit : mlen m + 4 <= 2 ^ k).

Lemma length_len4 : Z.of_nat (length (to_le 4 (mlen m))) = 4.
Proof. by rewrite length_to_le. Qed.

Lemma length_write : length (write_message H m data) = length data.
Proof.
  pose proof length_len4. pose proof (mlen_nonneg m). unfold write_message. rewrite wrap_add_l, !length_WriteRaw; [done| | | |];
    rewrite ?length_WriteRaw; unfold mlen in *; lia.
Qed.

(** The message stands at the head, and the last [2^k - mlen m - 4] bytes before it are kept. *)
Lemma write_view T : T <= H -> H + mlen m + 4 <= T + 2 ^ k ->
  view (write_message H m data) T (H + mlen m + 4 - T) = view data T (H - T) ++ enc m.
Proof.
  intros HT Hroom. pose proof length_len4 as L4. pose proof (mlen_nonneg m). unfold write_message. rewrite wrap_add_l.
  set (d1 := WriteRaw _ _ (u32 H) _ data).
  assert (Hd1 : length d1 = length data) by (apply length_WriteRaw; lia).
  replace (H + mlen m + 4 - T) with ((H - T) + (4 + mlen m)) by lia. rewrite view_app by lia.
  replace (T + (H - T)) with H by lia. rewrite (view_app _ H 4) by lia.
  rewrite (WriteRaw_kept (H + 4) m d1 T (H - T)), (WriteRaw_kept (H + 4) m d1 H 4) by (unfold mlen in *; lia).
  assert (E : view (WriteRaw (2 ^ k) (2 ^ k - 1) (u32 (H + 4)) m d1) (H + 4) (mlen m) = m)
    by (apply WriteRaw_written; unfold mlen in *; lia).
  rewrite E.
  unfold d1 at 1. rewrite WriteRaw_kept by lia. unfold d1. rewrite <- L4 at 1. rewrite WriteRaw_written by lia. done.
Qed.

Lemma write_holds T q :
  holds data T H q -> msg_ok m -> H + mlen m + 4 <= T + 2 ^ k -> holds (write_message H m data) T (H + mlen m + 4) (q ++ [m]).
Proof.
  intros [V U F O] Hm Hroom. pose proof (used_nonneg q). split.
  - rewrite write_view by lia. rewrite V, fmap_app, concat_app. simpl. by rewrite app_nil_r.
  - rewrite used_snoc. lia.
  - lia.
  - apply Forall_app_2; [done|]. by apply Forall_cons_2.
Qed.

End Write.

(** Reading the first message of the queue. *)
Lemma read_first data T H m q :
  2 ^ k <= Z.of_nat (length data) -> holds data T H (m :: q) ->
  mlen m + 4 <= H - T /\ from_le (ReadRaw (2 ^ k) (2 ^ k - 1) (u32 T) 4 data) = mlen m /\
  ReadRaw (2 ^ k) (2 ^ k - 1) (u32 (u32 T + 4)) (mlen m) data = m /\ holds data (T + mlen m + 4) H q.
Proof.
  intros Hd [V U F O]. pose proof cap_pos. pose proof (used_nonneg q). pose proof (mlen_nonneg m). inversion_clear O as [|? ? Hm Hq].
  change (concat (enc <$> (m :: q))) with (enc m ++ concat (enc <$> q)) in V.
  change (used (m :: q)) with (mlen m + 4 + used q) in U. unfold msg_ok in Hm.
  replace (H - T) with (4 + (mlen m + (H - T - mlen m - 4))) in V by lia.
  rewrite view_app in V by lia. rewrite view_app in V by lia. unfold enc in V. rewrite <- app_assoc in V.
  apply app_inj_1 in V as [V1 V]; [|rewrite view_length, length_to_le by lia; done].
  apply app_inj_1 in V as [V2 V3]; [|rewrite view_length by lia; unfold mlen; lia].
  split; [lia|]. split; [|split].
  - rewrite ReadRaw_view, V1 by lia. apply from_to_le. change (256 ^ Z.of_nat 4) with (2 ^ 32). lia.
  - rewrite wrap_add_l, ReadRaw_view by lia. done.
  - split; [|lia|lia|done]. replace (T + 4 + mlen m) with (T + mlen m + 4) in V3 by lia.
    replace (H - T - mlen m - 4) with (H - (T + mlen m + 4)) in V3 by lia. done.
Qed.

Lemma holds_nonneg data T H q : holds data T H q -> 0 <= H - T <= 2 ^ k.
Proof. intros [V U F O]. pose proof (used_nonneg q). lia. Qed.

Lemma available_eq data T H q : holds data T H q -> u32 (u32 H - u32 T) = used q.
Proof.
  intros Hh. pose proof (holds_nonneg _ _ _ _ Hh). pose proof cap_pos. rewrite wrap_sub_wrap, <- (ho_used _ _ _ _ Hh).
  apply wrap_small. unfold in_range. lia.
Qed.

(** ** The single-consumer ring is a queue of messages *)

Inductive QueueOp := BWrite (m : list Z) | BRead (max_len : Z) | BReadable | BWriteable | BHasData | BAttach.
Inductive QueueRes := BDone (ok : bool) | BGot (m : list Z) | BNum (n : Z) | BFlag (b : bool) | BUnit.

Definition spsc_op (o : QueueOp) (r : ShmSpscByteRing) : QueueRes * ShmSpscByteRing :=
  match o with
  | BWrite m => let '(b, r') := spsc_Write m r in (BDone b, r')
  | BRead n => let '(m, r') := spsc_Read n r in (BGot m, r')
  | BReadable => (BNum (spsc_ReadableBytes r), r)
  | BWriteable => (BNum (spsc_WriteableBytes r), r)
  | BHasData => (BFlag (spsc_HasData r), r)
  | BAttach => (BUnit, spsc_AttachAt r)
  end.

(** A read takes the first message; one that does not fit the caller's buffer is lost. *)
Definition queue_read (n : Z) (q : list (list Z)) : list Z * list (list Z) :=
  match q with [] => ([], []) | m :: q' => (if n <? mlen m then [] else m, q') end.

Definition queue_op (o : QueueOp) (q : list (list Z)) : QueueRes * list (list Z) :=
  match o with
  | BWrite m => if 2 ^ k <? used q + (mlen m + 4) then (BDone false, q) else (BDone true, q ++ [m])
  | BRead n => let '(m, q') := queue_read n q in (BGot m, q')
  | BReadable => (BNum (used q), q)
  | BWriteable => (BNum (2 ^ k - used q), q)
  | BHasData => (BFlag (bool_decide (q <> [])), q)
  | BAttach => (BUnit, q)
  end.

Definition bop_ok (o : QueueOp) : Prop := match o with BWrite m => msg_ok m | _ => True end.

Record spsc_rel (r : ShmSpscByteRing) (q : list (list Z)) : Prop := {
  sl_cap : sr_capacity r = 2 ^ k;
  sl_mask : sr_mask r = 2 ^ k - 1;
  sl_len : 2 ^ k <= Z.of_nat (length (sr_data r));
  sl_pos : exists T H, sr_head r = u32 H /\ sr_tail r = u32 T /\ holds (sr_data r) T H q
}.

Lemma spsc_rel_available r q : spsc_rel r q -> u32 (sr_head r - sr_tail r) = used q /\ 0 <= used q <= 2 ^ k.
Proof.
  intros [_ _ _ (T & P & -> & -> & Hh)]. split; [by eapply available_eq|]. rewrite <- (ho_used _ _ _ _ Hh). by eapply holds_nonneg.
Qed.

Lemma spsc_rel_writeable r q : spsc_rel r q -> spsc_WriteableBytes r = 2 ^ k - used q.
Proof.
  intros Hr. pose proof cap_pos. destruct (spsc_rel_available r q Hr) as [E Hu]. unfold spsc_WriteableBytes.
  rewrite E, (sl_cap _ _ Hr). apply wrap_small. unfold in_range. lia.
Qed.

Lemma spsc_Write_rel m r q : spsc_rel r q -> msg_ok m ->
  if 2 ^ k <? used q + (mlen m + 4) then spsc_Write m r = (false, r)
  else exists r', spsc_Write m r = (true, r') /\ spsc_rel r' (q ++ [m]).
Proof.
  intros Hr Hm. pose proof cap_pos. pose proof (spsc_rel_writeable r q Hr) as Ew. unfold spsc_Write. rewrite Ew.
  change (Z.of_nat (length m)) with (mlen m). unfold msg_ok in Hm.
  rewrite (wrap_small 32 (mlen m + 4)) by (unfold in_range; lia).
  destruct (Z.ltb_spec (2 ^ k) (used q + (mlen m + 4))), (Z.ltb_spec (2 ^ k - used q) (mlen m + 4)); try lia; [done|].
  destruct Hr as [Hc Hma Hl (T & P & Eh & Et & Hh)]. rewrite Hc, Hma, Eh. eexists. split; [reflexivity|].
  pose proof (ho_used _ _ _ _ Hh). pose proof (used_nonneg q). fold (write_message P m (sr_data r)).
  split; simpl; [done..|rewrite length_write; lia|]. exists T, (P + mlen m + 4). split; [rewrite wrap_add_l; f_equal; lia|].
  split; [done|]. apply write_holds; [lia|lia|done|done|lia].
Qed.

Lemma spsc_Read_rel n r q : spsc_rel r q ->
  (spsc_Read n r).1 = (queue_read n q).1 /\ spsc_rel (spsc_Read n r).2 (queue_read n q).2.
Proof.
  intros Hr. pose proof cap_pos. destruct (spsc_rel_available r q Hr) as [Ea Hu]. unfold spsc_Read. rewrite Ea.
  destruct q as [|m q]; [done|]. assert (Hr' := Hr). destruct Hr' as [Hc Hma Hl (T & P & Eh & Et & Hh)].
  destruct (read_first _ _ _ _ _ Hl Hh) as (Hlen & E1 & E2 & Hh'). pose proof (ho_ok _ _ _ _ Hh) as Hok.
  inversion_clear Hok as [|? ? Hm _]. unfold msg_ok in Hm. pose proof (used_nonneg q). simpl in Hu |- *.
  rewrite Hc, Hma, Et, E1. rewrite (wrap_small 32 (mlen m + 4)) by (unfold in_range; lia).
  destruct (Z.ltb_spec (mlen m + 4 + used q) 4), (Z.eqb_spec (mlen m) 0), (Z.ltb_spec (mlen m + 4 + used q) (mlen m + 4)); try lia.
  simpl. rewrite E2. destruct (Z.ltb_spec n (mlen m)); simpl; (split; [done|]);
    (split; simpl; [done..|]; exists (T + mlen m + 4), P; split; [done|]; split; [by rewrite <- !Z.add_assoc, wrap_add_l|done]).
Qed.

Lemma spsc_op_rel o r q : bop_ok o -> spsc_rel r q ->
  (spsc_op o r).1 = (queue_op o q).1 /\ spsc_rel (spsc_op o r).2 (queue_op o q).2.
Proof.
  intros Ho Hr. pose proof cap_pos. destruct (spsc_rel_available r q Hr) as [Ea Hu]. destruct o as [m|n| | | |]; simpl.
  - pose proof (spsc_Write_rel m r q Hr Ho) as Hw. destruct (2 ^ k <? used q + (mlen m + 4)); [by rewrite Hw|].
    destruct Hw as (r' & -> & Hr'). done.
  - pose proof (spsc_Read_rel n r q Hr) as Hw. destruct (spsc_Read n r), (queue_read n q). simpl in *. destruct Hw as [-> ?]. done.
  - unfold spsc_ReadableBytes. by rewrite Ea.
  - by rewrite (spsc_rel_writeable r q Hr).
  - split; [|done]. f_equal. unfold spsc_HasData, spsc_ReadableBytes. rewrite Ea.
    destruct q as [|m q]; [done|]. pose proof (used_nonneg q). pose proof (mlen_nonneg m).
    change (used (m :: q)) with (mlen m + 4 + used q). rewrite bool_decide_eq_true_2 by done. apply Z.leb_le. lia.
  - split; [done|]. destruct Hr as [Hc Hma Hl Hp]. split; [done| |done|done]. simpl. rewrite Hc. apply wrap_small. unfold in_range. lia.
Qed.

End Area.

Lemma log2_area n : 0 < n < 2 ^ 32 -> 0 <= Z.log2 n <= 31 /\ 2 ^ Z.log2 n <= n.
Proof.
  intros Hn. pose proof (Z.log2_nonneg n). pose proof (Z.log2_spec n ltac:(lia)).
  assert (Z.log2 n < 32) by (apply Z.log2_lt_pow2; lia). lia.
Qed.

(** The single-consumer byte ring is a first-in first-out queue of messages:
    for every memory size and every sequence of writes, reads and queries, across
    any number of wrap-arounds of the byte area and of the 32-bit positions, a
    write succeeds exactly when the message with its prefix fits next to the
    unread ones, messages are read whole and in order, and the byte counts are
    exact; a message longer than the reader's buffer is skipped. *)
Lemma spsc_byte_ring_refines_queue total_size area ops :
  kSpscHeaderSize < total_size < 2 ^ 32 -> Z.of_nat (length area) = total_size - kSpscHeaderSize -> Forall bop_ok ops ->
  exists r, spsc_InitAt total_size area = Some r /\
    (run spsc_op ops r).1 = (run (queue_op (Z.log2 (total_size - kSpscHeaderSize))) ops []).1.
Proof.
  intros Ht Hl Hops. unfold kSpscHeaderSize in *. destruct (log2_area (total_size - 16) ltac:(lia)) as [Hk Hle].
  set (k := Z.log2 (total_size - 16)) in *. pose proof (cap_pos k Hk).
  unfold spsc_InitAt, kSpscHeaderSize. destruct (Z.leb_spec total_size 16); [lia|]. eexists. split; [reflexivity|].
  apply (run_simulation bop_ok (spsc_rel k) spsc_op (queue_op k) (fun o r q => spsc_op_rel k Hk o r q)); [done|].
  rewrite (wrap_small 32 (total_size - 16)) by (unfold in_range; lia). rewrite RoundDownPow2_spec by lia. fold k.
  split; simpl; [done|apply wrap_small; unfold in_range; lia|lia|]. exists 0, 0. split_and!; [done..|].
  split; [done|done|lia|by constructor].
Qed.

Definition demo_queue_ops : list QueueOp :=
  [BWrite [1; 2; 3]; BWrite [4; 5; 6; 7; 8]; BWrite [9]; BRead 8; BWrite [9; 10]; BRead 4; BHasData; BRead 4; BReadable; BWriteable].

Lemma spsc_byte_ring_refines_queue_witness :
  exists r, spsc_InitAt 33 (replicate 17 7) = Some r /\
    (run spsc_op demo_queue_ops r).1 =
      [BDone true; BDone true; BDone false; BGot [1; 2; 3]; BDone true; BGot []; BFlag true; BGot [9; 10]; BNum 0; BNum 16].
Proof.
  destruct (spsc_byte_ring_refines_queue 33 (replicate 17 7) demo_queue_ops) as (r & E & Hr).
  - unfold kSpscHeaderSize. lia.
  - reflexivity.
  - unfold demo_queue_ops. repeat apply Forall_cons_2; try apply Forall_nil_2; try exact I; unfold bop_ok, msg_ok, mlen; simpl; lia.
  - exists r. split; [exact E|]. rewrite Hr. vm_compute. reflexivity.
Defined.

(** An empty message is accepted by Write and never passed by Read, which takes
    its length 0 for "no data": every message behind it is unreachable. *)
Lemma spsc_empty_message_blocks :
  exists r, spsc_InitAt 80 (replicate 64 0) = Some r /\
    let r1 := (spsc_Write [5] (spsc_Write [] r).2).2 in
    spsc_ReadableBytes r1 = 9 /\ spsc_HasData r1 = true /\ forall n, spsc_Read n r1 = ([], r1).
Proof. eexists. split; [vm_compute; reflexivity|]. split; [reflexivity|]. split; [reflexivity|]. intros n. reflexivity. Qed.

(** ** The multi-consumer ring broadcasts *)

Section Broadcast.
Context (k : Z) (Hk : 0 <= k <= 30).

Lemma Hk31 : 0 <= k <= 31.
Proof. lia. Qed.

Lemma small_cap : 0 < 2 ^ k <= 2 ^ 30.
Proof. split; [apply Z.pow_pos_nonneg; lia|apply Z.pow_le_mono_r; lia]. Qed.

(** A consumer slot: free, or the messages it has not read yet. *)
Abbreviation Consumer := (option (list (list Z))).

(** The bytes the fullest consumer keeps. *)
Definition backlog (cs : list Consumer) : Z :=
  foldr (fun c n => match c with Some q => Z.max (used q) n | None => n end) 0 cs.
Fixpoint first_free (cs : list Consumer) (i : Z) : option Z :=
  match cs with [] => None | None :: _ => Some i | Some _ :: cs' => first_free cs' (i + 1) end.
Definition consumer (cs : list Consumer) (id : Z) : Consumer := if id <? 0 then None else mjoin (cs !! Z.to_nat id).
Definition registered (c : Consumer) : bool := match c with Some _ => true | None => false end.

Inductive BcastOp :=
| MRegister | MUnregister (id : Z) | MWrite (m : list Z) | MRead (id max_len : Z) | MCount | MWriteable | MReadable (id : Z).

(** Consumers read only while registered. *)
Definition spmc_is_active (id : Z) (r : ShmSpmcByteRing) : bool := valid_consumer id r && negb (aget (mr_active r) id =? 0).

Definition spmc_op (o : BcastOp) (r : ShmSpmcByteRing) : QueueRes * ShmSpmcByteRing :=
  match o with
  | MRegister => let '(i, r') := RegisterConsumer r in (BNum i, r')
  | MUnregister id => (BUnit, UnregisterConsumer id r)
  | MWrite m => let '(b, r') := spmc_Write m r in (BDone b, r')
  | MRead id n => if spmc_is_active id r then let '(m, r') := spmc_Read id n r in (BGot m, r') else (BUnit, r)
  | MCount => (BNum (ConsumerCount r), r)
  | MWriteable => (BNum (spmc_WriteableBytes r), r)
  | MReadable id => if spmc_is_active id r then (BNum (spmc_ReadableBytes id r), r) else (BUnit, r)
  end.

(** The specification: one queue per registered consumer. *)
Definition bcast_op (o : BcastOp) (cs : list Consumer) : QueueRes * list Consumer :=
  match o with
  | MRegister =>
    match first_free cs 0 with Some i => (BNum i, <[Z.to_nat i := Some []]> cs) | None => (BNum (-1), cs) end
  | MUnregister id => (BUnit, if id <? 0 then cs else <[Z.to_nat id := None]> cs)
  | MWrite m =>
    if 2 ^ k <? backlog cs + (mlen m + 4) then (BDone false, cs)
    else (BDone true, (fun c => match c with Some q => Some (q ++ [m]) | None => None end) <$> cs)
  | MRead id n =>
    match consumer cs id with
    | Some q => let '(m, q') := queue_read n q in (BGot m, <[Z.to_nat id := Some q']> cs)
    | None => (BUnit, cs)
    end
  | MCount => (BNum (Z.of_nat (count_if registered cs)), cs)
  | MWriteable => (BNum (2 ^ k - backlog cs), cs)
  | MReadable id => match consumer cs id with Some q => (BNum (used q), cs) | None => (BUnit, cs) end
  end.

Definition mop_ok (o : BcastOp) : Prop := match o with MWrite m => msg_ok m | _ => True end.

(** Slot [i] of the header against the specification. *)
Definition slot_rel (r : ShmSpmcByteRing) (P i : Z) (c : Consumer) : Prop :=
  match c with
  | None => aget (mr_active r) i = 0
  | Some q => aget (mr_active r) i = 1 /\ exists T, aget (mr_tails r) i = u32 T /\ holds k (mr_data r) T P q
  end.

Record spmc_rel (r : ShmSpmcByteRing) (cs : list Consumer) : Prop := {
  ml_cap : mr_capacity r = 2 ^ k;
  ml_mask : mr_mask r = 2 ^ k - 1;
  ml_len : 2 ^ k <= Z.of_nat (length (mr_data r));
  ml_max : mr_max_consumers r = Z.of_nat (length cs) /\ 0 <= mr_max_consumers r <= kSpmcMaxConsumers;
  ml_tails : length (mr_tails r) = Z.to_nat kSpmcMaxConsumers;
  ml_active : length (mr_active r) = Z.to_nat kSpmcMaxConsumers;
  ml_count : mr_consumer_count r = Z.of_nat (count_if registered cs);
  ml_slots : exists P, mr_head r = u32 P /\ forall i c, cs !! i = Some c -> slot_rel r P (Z.of_nat i) c
}.

Lemma backlog_bounds r cs P :
  (forall i c, cs !! i = Some c -> slot_rel r P (Z.of_nat i) c) -> 0 <= backlog cs <= 2 ^ k /\
  forall i q, cs !! i = Some (Some q) -> used q <= backlog cs.
Proof.
  pose proof small_cap. intros Hs.
  assert (Hq : forall i q, cs !! i = Some (Some q) -> 0 <= used q <= 2 ^ k).
  { intros i q Hi. destruct (Hs _ _ Hi) as (_ & T & _ & Hh). pose proof (ho_used _ _ _ _ _ Hh). pose proof (ho_fit _ _ _ _ _ Hh).
    pose proof (used_nonneg q). lia. }
  clear Hs. induction cs as [|c cs IH]; [simpl; split; [lia|intros i q Hi; by rewrite lookup_nil in Hi]|].
  destruct IH as [I1 I2]; [intros i q Hi; apply (Hq (S i) q Hi)|]. destruct c as [q0|]; simpl.
  - pose proof (Hq 0%nat q0 eq_refl). split; [lia|]. intros [|i] q Hi; simplify_eq/=; [lia|]. specialize (I2 i q Hi). lia.
  - split; [lia|]. intros [|i] q Hi; simplify_eq/=. by apply (I2 i).
Qed.

Lemma backlog_snoc cs c : backlog (cs ++ [c]) = match c with Some q => Z.max (backlog cs) (used q) | None => backlog cs end.
Proof.
  induction cs as [|x cs IH]; simpl.
  - destruct c; [|done]. pose proof (used_nonneg l). lia.
  - rewrite IH. destruct c, x; lia || done.
Qed.

(** The scan of the tails finds the fullest consumer's position. *)
Lemma SlowestTail_spec r cs P : spmc_rel r cs -> mr_head r = u32 P ->
  (forall i c, cs !! i = Some c -> slot_rel r P (Z.of_nat i) c) -> SlowestTail r = u32 (P - backlog cs).
Proof.
  pose proof small_cap. intros Hr Hh Hs. destruct (ml_max _ _ Hr) as [Hm Hmb].
  assert (HP : SlowestTail r = u32 (P - backlog (take (Z.to_nat (0 + Z.of_nat (Z.to_nat (mr_max_consumers r)))) cs))).
  { apply (for_loop_inv (fun i s => s = u32 (P - backlog (take (Z.to_nat i) cs)))).
    - rewrite Hh. simpl. by rewrite Z.sub_0_r.
    - intros j s Hj ->. assert (is_Some (cs !! Z.to_nat j)) as [c Hc] by (apply lookup_lt_is_Some; lia).
      replace (Z.to_nat (j + 1)) with (S (Z.to_nat j)) by lia. rewrite (take_S_r _ _ _ Hc), backlog_snoc.
      pose proof (Hs _ _ Hc) as Hsl. rewrite Z2Nat.id in Hsl by lia. unfold slot_rel in Hsl. destruct c as [q|].
      + destruct Hsl as (Ha & T & Et & Hho). rewrite Ha, Et. change (negb (1 =? 0)) with true. cbv iota zeta.
        pose proof (ho_used _ _ _ _ _ Hho) as Hu. pose proof (ho_fit _ _ _ _ _ Hho). pose proof (used_nonneg q).
        destruct (backlog_bounds r (take (Z.to_nat j) cs) P) as [[B0 B1] _].
        { intros i c Hi. apply Hs. apply lookup_take_Some in Hi as [Hi _]. done. }
        rewrite <- signed_wrap, wrap_sub_wrap, signed_wrap. rewrite signed_small by lia.
        destruct (Z.ltb_spec 0 (P - backlog (take (Z.to_nat j) cs) - T)); f_equal; lia.
      + rewrite Hsl. done. }
  rewrite HP. do 3 f_equal. apply take_ge. lia.
Qed.

Lemma spmc_writeable_rel r cs : spmc_rel r cs -> spmc_WriteableBytes r = 2 ^ k - backlog cs /\ 0 <= backlog cs <= 2 ^ k.
Proof.
  intros Hr. pose proof small_cap. destruct (ml_slots _ _ Hr) as (P & Hh & Hs). destruct (backlog_bounds r cs P Hs) as [Hb _].
  split; [|done]. unfold spmc_WriteableBytes. rewrite (SlowestTail_spec r cs P Hr Hh Hs), Hh, wrap_sub_wrap, (ml_cap _ _ Hr).
  replace (P - (P - backlog cs)) with (backlog cs) by lia. rewrite (wrap_small 32 (backlog cs)) by (unfold in_range; lia).
  apply wrap_small. unfold in_range. lia.
Qed.

(** ** Registration *)

Lemma register_loop_spec r cs i :
  (forall j c, cs !! j = Some c -> aget (mr_active r) (i + Z.of_nat j) = if registered c then 1 else 0) ->
  spmc_register_loop (length cs) i r =
    match first_free cs i with Some j => (j, spmc_registered j (spmc_claimed j r)) | None => (-1, r) end.
Proof.
  revert i. induction cs as [|c cs IH]; intros i Ha; [done|]. simpl. pose proof (Ha 0%nat c eq_refl) as H0.
  rewrite Z.add_0_r in H0. rewrite H0. destruct c as [q|]; simpl; [|done]. change (1 =? 0) with false. cbv iota. apply IH.
  intros j c Hc. replace (i + 1 + Z.of_nat j) with (i + Z.of_nat (S j)) by lia. by apply Ha.
Qed.

Lemma first_free_spec cs i j : first_free cs i = Some j -> i <= j /\ cs !! Z.to_nat (j - i) = Some None.
Proof.
  revert i. induction cs as [|[q|] cs IH]; intros i Hf; simplify_eq/=.
  - destruct (IH _ Hf) as [Hle Hl]. split; [lia|]. replace (Z.to_nat (j - i)) with (S (Z.to_nat (j - (i + 1)))) by lia. done.
  - split; [lia|]. by rewrite Z.sub_diag.
Qed.

Lemma slot_rel_active r P i c : slot_rel r P i c -> aget (mr_active r) i = if registered c then 1 else 0.
Proof. destruct c as [q|]; [intros [? _]; done|done]. Qed.

(** A slot relation depends on the slot's own words and the data only. *)
Lemma slot_rel_same r r' P i c :
  aget (mr_active r') i = aget (mr_active r) i -> aget (mr_tails r') i = aget (mr_tails r) i -> mr_data r' = mr_data r ->
  slot_rel r P i c -> slot_rel r' P i c.
Proof. intros E1 E2 E3. unfold slot_rel. rewrite E1, E2, E3. done. Qed.

Lemma count_le_max r cs : spmc_rel r cs -> 0 <= Z.of_nat (count_if registered cs) <= 8.
Proof.
  intros Hr. destruct (ml_max _ _ Hr) as [E Hb]. unfold kSpmcMaxConsumers in Hb. pose proof (count_if_le registered cs). lia.
Qed.

(** The slots after the words of slot [j] changed. *)
Lemma slots_insert r r' cs P j c :
  (j < length cs)%nat -> (length cs <= 8)%nat -> mr_data r' = mr_data r -> slot_rel r' P (Z.of_nat j) c ->
  (forall i, 0 <= i -> i <> Z.of_nat j -> aget (mr_active r') i = aget (mr_active r) i /\ aget (mr_tails r') i = aget (mr_tails r) i) ->
  (forall i c, cs !! i = Some c -> slot_rel r P (Z.of_nat i) c) ->
  forall i c', <[j := c]> cs !! i = Some c' -> slot_rel r' P (Z.of_nat i) c'.
Proof.
  intros Hj Hl Ed Hc Ho Hs i c' Hi. destruct (Nat.eq_dec i j) as [->|Hne].
  - rewrite list_lookup_insert_eq in Hi by done. by simplify_eq.
  - rewrite list_lookup_insert_ne in Hi by done. destruct (Ho (Z.of_nat i)) as [E1 E2]; [lia|lia|].
    apply (slot_rel_same r); [done..|]. by apply Hs.
Qed.

Lemma length_cs_le r cs : spmc_rel r cs -> (length cs <= 8)%nat.
Proof. intros Hr. destruct (ml_max _ _ Hr) as [E Hb]. unfold kSpmcMaxConsumers in Hb. lia. Qed.

Lemma register_rel r cs j : spmc_rel r cs -> first_free cs 0 = Some j ->
  spmc_rel (spmc_registered j (spmc_claimed j r)) (<[Z.to_nat j := Some []]> cs).
Proof.
  intros Hr Hf. pose proof small_cap. destruct (first_free_spec _ _ _ Hf) as [Hj0 Hl]. rewrite Z.sub_0_r in Hl.
  pose proof (lookup_lt_Some _ _ _ Hl) as Hlt. pose proof (length_cs_le _ _ Hr) as H8. pose proof (count_le_max _ _ Hr) as Hcm.
  pose proof (count_if_insert registered cs (Z.to_nat j) None (Some []) Hl) as Hci. simpl in Hci.
  assert (Hcl : (count_if registered (<[Z.to_nat j := Some []]> cs) <= length cs)%nat).
  { rewrite <- (length_insert cs (Z.to_nat j) (Some [])). apply count_if_le. }
  destruct Hr as [H1 H2 H3 H4 H5 H6 H7 (P & Hh & Hs)]. unfold bit in Hci. simpl in Hci.
  split; simpl; rewrite ?length_insert, ?length_aset; try done.
  - rewrite H7, wrap_small by (unfold in_range; lia). lia.
  - exists P. split; [done|]. apply (slots_insert r); [done|done|done| | |done].
    + rewrite Z2Nat.id by lia. split; simpl; [rewrite aget_aset_eq; [done|unfold kSpmcMaxConsumers in *; lia]|].
      exists P. split; [rewrite aget_aset_eq; [done|unfold kSpmcMaxConsumers in *; lia]|].
      split; [unfold view; by rewrite Z.sub_diag|simpl; lia|lia|by constructor].
    + intros i Hi Hne. simpl. rewrite !aget_aset_ne by lia. done.
Qed.

Lemma unregister_rel r cs id : spmc_rel r cs -> spmc_rel (UnregisterConsumer id r) (if id <? 0 then cs else <[Z.to_nat id := None]> cs).
Proof.
  intros Hr. pose proof small_cap. pose proof (length_cs_le _ _ Hr) as H8. pose proof (count_le_max _ _ Hr) as Hcm.
  unfold UnregisterConsumer, valid_consumer. destruct (ml_max _ _ Hr) as [Em _]. rewrite Em.
  destruct (Z.ltb_spec id 0); [done|]. destruct (Z.leb_spec (Z.of_nat (length cs)) id); simpl; [by rewrite list_insert_ge by lia|].
  assert (is_Some (cs !! Z.to_nat id)) as [c Hl] by (apply lookup_lt_is_Some; lia).
  pose proof (count_if_insert registered cs (Z.to_nat id) c None Hl) as Hci.
  destruct Hr as [M1 M2 M3 M4 M5 M6 M7 (P & Hh & Hs)]. pose proof (slot_rel_active _ _ _ _ (Hs _ _ Hl)) as Ha.
  rewrite Z2Nat.id in Ha by lia. rewrite Ha.
  assert (Hsl : forall r', mr_data r' = mr_data r -> mr_tails r' = mr_tails r -> mr_active r' = aset (mr_active r) id 0 ->
    forall i c', <[Z.to_nat id := None]> cs !! i = Some c' -> slot_rel r' P (Z.of_nat i) c').
  { intros r' E1 E2 E3. apply (slots_insert r); [lia|done|done| | |done].
    - unfold slot_rel. rewrite Z2Nat.id, E3 by lia. apply aget_aset_eq. unfold kSpmcMaxConsumers in *. lia.
    - intros i Hi Hne. rewrite E2, E3. rewrite aget_aset_ne by lia. done. }
  assert (0 < count_if registered cs \/ registered c = false)%nat as Hpos.
  { destruct (registered c) eqn:Ec; [left; by eapply count_if_pos|by right]. }
  destruct (registered c) eqn:Ec; unfold bit in Hci; rewrite Ec in Hci; simpl in Hci.
  - change (1 =? 1) with true. cbv iota. split; simpl; rewrite ?length_insert, ?length_aset; try done; [|exists P; split; [done|by apply Hsl]].
    destruct Hpos; [|done]. rewrite M7, wrap_small by (unfold in_range; lia). lia.
  - change (0 =? 1) with false. cbv iota. split; simpl; rewrite ?length_insert, ?length_aset; try done; [|exists P; split; [done|by apply Hsl]].
    rewrite M7. lia.
Qed.

(** ** Writing and reading *)

Lemma spmc_Write_rel m r cs : spmc_rel r cs -> msg_ok m ->
  if 2 ^ k <? backlog cs + (mlen m + 4) then spmc_Write m r = (false, r)
  else exists r', spmc_Write m r = (true, r') /\
    spmc_rel r' ((fun c => match c with Some q => Some (q ++ [m]) | None => None end) <$> cs).
Proof.
  intros Hr Hm. pose proof small_cap. destruct (spmc_writeable_rel r cs Hr) as [Ew Hb]. unfold spmc_Write. rewrite Ew.
  change (Z.of_nat (length m)) with (mlen m). unfold msg_ok in Hm. rewrite (wrap_small 32 (mlen m + 4)) by (unfold in_range; lia).
  destruct (Z.ltb_spec (2 ^ k) (backlog cs + (mlen m + 4))), (Z.ltb_spec (2 ^ k - backlog cs) (mlen m + 4)); try lia; [done|].
  destruct Hr as [M1 M2 M3 M4 M5 M6 M7 (P & Hh & Hs)]. destruct (backlog_bounds r cs P Hs) as [_ Hle].
  rewrite M1, M2, Hh. eexists. split; [reflexivity|]. fold (write_message k P m (mr_data r)).
  split; simpl; rewrite ?length_fmap; try done.
  - rewrite length_write; [done|exact Hk31|lia|lia].
  - rewrite M7. f_equal. clear. induction cs as [|c cs IH]; [done|]. rewrite fmap_cons, !count_if_cons, IH. by destruct c.
  - exists (P + mlen m + 4). split; [rewrite wrap_add_l; f_equal; lia|]. intros i c' Hi.
    apply list_lookup_fmap_Some in Hi as (c & -> & Hc). pose proof (Hs _ _ Hc) as Hsl. destruct c as [q|]; [|exact Hsl].
    destruct Hsl as (Ha & T & Et & Hho). split; [done|]. exists T. split; [done|].
    pose proof (Hle _ _ Hc). pose proof (ho_used _ _ _ _ _ Hho).
    apply write_holds; [exact Hk31|lia|lia|done|done|lia].
Qed.

Lemma consumer_some cs id q : consumer cs id = Some q -> 0 <= id /\ cs !! Z.to_nat id = Some (Some q).
Proof.
  unfold consumer. destruct (Z.ltb_spec id 0); [done|]. destruct (cs !! Z.to_nat id) as [c|]; [|done]. simpl. intros ->. done.
Qed.

Lemma is_active_rel r cs id : spmc_rel r cs -> spmc_is_active id r = registered (consumer cs id).
Proof.
  intros Hr. unfold spmc_is_active, valid_consumer, consumer. destruct (ml_max _ _ Hr) as [Em _]. rewrite Em.
  destruct (Z.ltb_spec id 0); [done|]. destruct (ml_slots _ _ Hr) as (P & _ & Hs).
  destruct (cs !! Z.to_nat id) as [c|] eqn:Hc.
  - pose proof (lookup_lt_Some _ _ _ Hc). destruct (Z.leb_spec (Z.of_nat (length cs)) id); [lia|]. simpl.
    pose proof (slot_rel_active _ _ _ _ (Hs _ _ Hc)) as Ha. rewrite Z2Nat.id in Ha by lia. rewrite Ha. by destruct c.
  - apply lookup_ge_None in Hc. destruct (Z.leb_spec (Z.of_nat (length cs)) id); [done|lia].
Qed.

Lemma spmc_set_tail_rel r cs P id q T :
  spmc_rel r cs -> mr_head r = u32 P -> 0 <= id -> (Z.to_nat id < length cs)%nat ->
  (forall i c, cs !! i = Some c -> slot_rel r P (Z.of_nat i) c) -> aget (mr_active r) id = 1 ->
  holds k (mr_data r) T P q -> count_if registered (<[Z.to_nat id := Some q]> cs) = count_if registered cs ->
  spmc_rel (spmc_set_tail id (u32 T) r) (<[Z.to_nat id := Some q]> cs).
Proof.
  intros Hr Hh H0 Hlt Hs Ha Hho Hcount. pose proof (length_cs_le _ _ Hr) as H8. destruct Hr as [M1 M2 M3 M4 M5 M6 M7 _].
  split; simpl; rewrite ?length_insert, ?length_aset, ?Hcount; try done. exists P. split; [done|].
  apply (slots_insert r); [done|done|done| | |done].
  - rewrite Z2Nat.id by lia. split; [done|]. exists T. split; [|done]. simpl. apply aget_aset_eq. rewrite M5.
    unfold kSpmcMaxConsumers. lia.
  - intros i Hi Hne. simpl. rewrite aget_aset_ne by lia. done.
Qed.

Lemma spmc_Read_rel id n r cs q : spmc_rel r cs -> consumer cs id = Some q ->
  (spmc_Read id n r).1 = (queue_read n q).1 /\ spmc_rel (spmc_Read id n r).2 (<[Z.to_nat id := Some (queue_read n q).2]> cs).
Proof.
  intros Hr Hq. pose proof small_cap. destruct (consumer_some _ _ _ Hq) as [H0 Hl]. pose proof (lookup_lt_Some _ _ _ Hl) as Hlt.
  pose proof (is_active_rel r cs id Hr) as Hact. rewrite Hq in Hact. apply andb_true_iff in Hact as [Hv _].
  destruct (ml_slots _ _ Hr) as (P & Hh & Hs). pose proof (Hs _ _ Hl) as Hsl. rewrite Z2Nat.id in Hsl by lia.
  destruct Hsl as (Ha & T & Et & Hho). unfold spmc_Read. rewrite Hv. cbn [negb]. cbv iota. rewrite Et, Hh.
  rewrite (available_eq k Hk31 _ _ _ _ Hho). destruct q as [|m q].
  - simpl. rewrite list_insert_id by done. done.
  - destruct (read_first k Hk31 _ _ _ _ _ (ml_len _ _ Hr) Hho) as (Hlen & E1 & E2 & Hh'). pose proof (ho_ok _ _ _ _ _ Hho) as Hok.
    inversion_clear Hok as [|? ? Hm _]. unfold msg_ok in Hm. pose proof (used_nonneg q).
    pose proof (ho_fit _ _ _ _ _ Hho). simpl used. rewrite (ml_cap _ _ Hr), (ml_mask _ _ Hr), E1.
    rewrite (wrap_small 32 (mlen m + 4)) by (unfold in_range; lia).
    destruct (Z.ltb_spec (mlen m + 4 + used q) 4), (Z.eqb_spec (mlen m) 0), (Z.ltb_spec (mlen m + 4 + used q) (mlen m + 4)); try lia.
    cbn [orb queue_read fst snd]. cbv iota. rewrite E2.
    replace (u32 (u32 T + mlen m + 4)) with (u32 (T + mlen m + 4)) by (by rewrite <- !Z.add_assoc, wrap_add_l).
    pose proof (count_if_insert registered cs _ _ (Some q) Hl) as Hci. unfold bit in Hci. simpl in Hci.
    destruct (Z.ltb_spec n (mlen m)); simpl; (split; [done|]); apply (spmc_set_tail_rel r cs P); try done; lia.
Qed.

Lemma spmc_op_rel o r cs : mop_ok o -> spmc_rel r cs ->
  (spmc_op o r).1 = (bcast_op o cs).1 /\ spmc_rel (spmc_op o r).2 (bcast_op o cs).2.
Proof.
  intros Ho Hr. pose proof small_cap. destruct o as [|id|m|id n| | |id]; simpl.
  - unfold RegisterConsumer. destruct (ml_max _ _ Hr) as [Em _]. rewrite Em, Nat2Z.id.
    rewrite register_loop_spec.
    + destruct (first_free cs 0) as [j|] eqn:Ef; [split; [done|by apply register_rel]|done].
    + destruct (ml_slots _ _ Hr) as (P & _ & Hs). intros j c Hc. rewrite Z.add_0_l. by eapply slot_rel_active, Hs.
  - split; [done|by apply unregister_rel].
  - pose proof (spmc_Write_rel m r cs Hr Ho) as Hw. destruct (2 ^ k <? backlog cs + (mlen m + 4)); [by rewrite Hw|].
    destruct Hw as (r' & -> & Hr'). done.
  - rewrite (is_active_rel r cs id Hr). destruct (consumer cs id) as [q|] eqn:Hq; simpl; [|done].
    pose proof (spmc_Read_rel id n r cs q Hr Hq) as Hw. destruct (spmc_Read id n r), (queue_read n q). simpl in *. by destruct Hw as [-> ?].
  - unfold ConsumerCount. by rewrite (ml_count _ _ Hr).
  - by rewrite (proj1 (spmc_writeable_rel r cs Hr)).
  - rewrite (is_active_rel r cs id Hr). pose proof (is_active_rel r cs id Hr) as Hact.
    destruct (consumer cs id) as [q|] eqn:Hq; simpl; [|done]. split; [|done]. f_equal. unfold spmc_ReadableBytes.
    apply andb_true_iff in Hact as [-> _]. destruct (consumer_some _ _ _ Hq) as [H0 Hl]. destruct (ml_slots _ _ Hr) as (P & Hh & Hs).
    pose proof (Hs _ _ Hl) as Hsl. rewrite Z2Nat.id in Hsl by lia. destruct Hsl as (_ & T & Et & Hho).
    rewrite Et, Hh. by apply (available_eq k Hk31 _ _ _ _ Hho).
Qed.

End Broadcast.

(** The multi-consumer byte ring broadcasts: every consumer registered at the
    time of a write later reads that message, whole, in order and exactly once,
    whatever the other consumers do and however often the byte area, the 32-bit
    positions and the consumer slots are reused; a write is refused exactly when
    the fullest consumer has no room for it, registration hands out the first free
    slot or -1, and the counts are exact, for byte areas below 2^31 bytes. *)
Lemma spmc_byte_ring_broadcasts total_size max_consumers area ops :
  kSpmcHeaderSize < total_size -> total_size - kSpmcHeaderSize < 2 ^ 31 -> 0 <= max_consumers ->
  Z.of_nat (length area) = total_size - kSpmcHeaderSize -> Forall mop_ok ops ->
  exists r, spmc_InitAt total_size max_consumers area = Some r /\
    (run spmc_op ops r).1 =
      (run (bcast_op (Z.log2 (total_size - kSpmcHeaderSize))) ops
         (replicate (Z.to_nat (Z.min max_consumers kSpmcMaxConsumers)) None)).1.
Proof.
  intros Ht Htm Hmc Hl Hops. unfold kSpmcHeaderSize, kSpmcMaxConsumers in *. set (n := total_size - (4 * 4 + 2 * 4 * 8)) in *.
  destruct (log2_area n ltac:(lia)) as [Hk Hle]. assert (Hk30 : 0 <= Z.log2 n <= 30).
  { pose proof (Z.log2_lt_pow2 n 31 ltac:(lia)). lia. }
  set (k := Z.log2 n) in *. pose proof (small_cap k Hk30).
  unfold spmc_InitAt, kSpmcHeaderSize, kSpmcMaxConsumers. destruct (Z.leb_spec total_size (4 * 4 + 2 * 4 * 8)); [lia|].
  eexists. split; [reflexivity|].
  apply (run_simulation mop_ok (spmc_rel k) spmc_op (bcast_op k) (fun o r cs => spmc_op_rel k Hk30 o r cs)); [done|].
  fold n. rewrite (wrap_small 32 n) by (unfold in_range; lia). rewrite RoundDownPow2_spec by lia. fold k.
  split; simpl; try done.
  - apply wrap_small. unfold in_range. lia.
  - lia.
  - rewrite length_replicate. unfold kSpmcMaxConsumers. destruct (Z.ltb_spec 8 max_consumers); lia.
  - rewrite count_if_none; [done|]. by apply Forall_replicate.
  - exists 0. split; [done|]. intros i c Hi. apply lookup_replicate in Hi as [-> Hi]. change (aget (replicate 8 0) (Z.of_nat i) = 0).
    apply aget_replicate. lia.
Qed.

Definition demo_bcast_ops : list BcastOp :=
  [MRegister; MWrite [1; 2; 3]; MRegister; MRegister; MWrite [4; 5]; MRead 0 8; MRead 1 8; MWrite [6; 7; 8; 9; 10; 11; 12]; MRead 0 8;
   MCount; MUnregister 0; MWriteable; MWrite [6; 7; 8; 9; 10; 11; 12]; MRead 1 8; MReadable 1; MRegister; MRead 0 4].

Lemma spmc_byte_ring_broadcasts_witness :
  exists r, spmc_InitAt 96 2 (replicate 16 7) = Some r /\
    (run spmc_op demo_bcast_ops r).1 =
      [BNum 0; BDone true; BNum 1; BNum (-1); BDone true; BGot [1; 2; 3]; BGot [4; 5]; BDone false; BGot [4; 5];
       BNum 2; BUnit; BNum 16; BDone true; BGot [6; 7; 8; 9; 10; 11; 12]; BNum 0; BNum 0; BGot []].
Proof.
  destruct (spmc_byte_ring_broadcasts 96 2 (replicate 16 7) demo_bcast_ops) as (r & E & Hr).
  - unfold kSpmcHeaderSize, kSpmcMaxConsumers. lia.
  - unfold kSpmcHeaderSize, kSpmcMaxConsumers. lia.
  - lia.
  - reflexivity.
  - unfold demo_bcast_ops. repeat apply Forall_cons_2; try apply Forall_nil_2; try exact I; unfold mop_ok, msg_ok, mlen; simpl; lia.
  - exists r. split; [exact E|]. rewrite Hr. vm_compute. reflexivity.
Defined.

(** Between the compare-exchange that claims a slot and the store of its tail, the
    producer takes the tail left by the slot's previous owner: here the ring of 16
    bytes claims to have more room than it has, and a write overruns the unread
    message of consumer 1. *)
Lemma spmc_register_window :
  exists r, spmc_InitAt 96 2 (replicate 16 0) = Some r /\
    let r1 := (run spmc_op [MRegister; MRegister; MUnregister 0; MWrite [1; 2; 3; 4; 5; 6]; MRead 1 8;
                            MWrite [1; 2; 3; 4; 5; 6]; MRead 1 8; MWrite [11; 12; 13; 14; 15; 16; 17; 18]] r).2 in
    spmc_WriteableBytes r1 = 4 /\ 16 < spmc_WriteableBytes (spmc_claimed 0 r1) /\
    (spmc_Write [21; 22; 23; 24; 25; 26] (spmc_claimed 0 r1)).1 = true /\
    (spmc_Read 1 8 (spmc_Write [21; 22; 23; 24; 25; 26] (spmc_claimed 0 r1)).2).1 <> [11; 12; 13; 14; 15; 16; 17; 18].
Proof. eexists. split; [vm_compute; reflexivity|]. split; [reflexivity|]. split; [reflexivity|]. split; [reflexivity|]. vm_compute. discriminate. Qed.

(** With an area of 2^31 bytes the signed comparison cannot see a full ring. *)
Lemma spmc_signed_limit data :
  spmc_WriteableBytes (mkSpmcRing (2 ^ 31) (2 ^ 31) 1 1 [0] [1] data (2 ^ 31 - 1)) = 2 ^ 31.
Proof. reflexivity. Qed.
