(* ===== verification/ShmRing.v ===== *)
(** * ShmRingBuffer (include/osp/shm_transport.hpp)

    The lock-free ring of fixed-size message slots in shared memory, written by
    many producers and read by one consumer, in possibly different processes.
    First the operations alone, then every interleaving of their shared accesses,
    across wrap-arounds of the 32-bit positions. *)

From Stdlib Require Import ZArith Lia Bool.
From stdpp Require Import base numbers list option relations.
From S2P Require Import Prelude.

Open Scope Z_scope.

(** A slot: sequence number, message size, and SlotSize bytes. *)
Record Slot := mkSlot { sequence : Z; size : Z; data : list Z }.
#[global] Instance Slot_inhabited : Inhabited Slot := populate (mkSlot 0 0 []).

Record ShmRingBuffer := mkShm { producer_pos_ : Z; consumer_pos_ : Z; slots_ : list Slot }.

Section Ring.
(** SlotCount is [2 ^ k], as the static_assert demands. *)
Context (k SlotSize : Z).

Definition SlotCount : Z := 2 ^ k.
Definition kBufferMask : Z := SlotCount - 1.

Definition slot_at (pos : Z) (rb : ShmRingBuffer) : Slot := aget (slots_ rb) (Z.land pos kBufferMask).
Definition put_slot (pos : Z) (s : Slot) (rb : ShmRingBuffer) : ShmRingBuffer :=
  mkShm (producer_pos_ rb) (consumer_pos_ rb) (aset (slots_ rb) (Z.land pos kBufferMask) s).
Definition store_producer (v : Z) (rb : ShmRingBuffer) : ShmRingBuffer := mkShm v (consumer_pos_ rb) (slots_ rb).
Definition store_consumer (v : Z) (rb : ShmRingBuffer) : ShmRingBuffer := mkShm (producer_pos_ rb) v (slots_ rb).
Definition store_sequence (pos v : Z) (rb : ShmRingBuffer) : ShmRingBuffer :=
  let s := slot_at pos rb in put_slot pos (mkSlot v (size s) (data s)) rb.
Definition store_size (pos n : Z) (rb : ShmRingBuffer) : ShmRingBuffer :=
  let s := slot_at pos rb in put_slot pos (mkSlot (sequence s) n (data s)) rb.
(** [memcpy] of the message into the slot. *)
Definition store_data (pos : Z) (msg : list Z) (rb : ShmRingBuffer) : ShmRingBuffer :=
  let s := slot_at pos rb in put_slot pos (mkSlot (sequence s) (size s) (blit (data s) 0 msg)) rb.
(** [memcpy] of [size] bytes out of the slot. *)
Definition load_data (pos : Z) (rb : ShmRingBuffer) : list Z :=
  let s := slot_at pos rb in slice (data s) 0 (size s).

(** [mem] is what the slots' bytes hold before. *)
Definition InitAt (mem : list (list Z)) : ShmRingBuffer :=
  mkShm 0 0 (zip_with (fun i d => mkSlot i 0 d) (seqZ 0 SlotCount) mem).

(** ** Alone *)

Definition TryPush (msg : list Z) (rb : ShmRingBuffer) : bool * ShmRingBuffer :=
  if SlotSize <? Z.of_nat (length msg) then (false, rb)
  else
    let prod_pos := producer_pos_ rb in
    if negb (sequence (slot_at prod_pos rb) =? prod_pos) then (false, rb)
    else
      let rb := store_producer (u32 (prod_pos + 1)) rb in
      let rb := store_size prod_pos (Z.of_nat (length msg)) rb in
      let rb := store_data prod_pos msg rb in
      (true, store_sequence prod_pos (u32 (prod_pos + 1)) rb).

Definition TryPop (rb : ShmRingBuffer) : option (list Z) * ShmRingBuffer :=
  let cons_pos := consumer_pos_ rb in
  if negb (sequence (slot_at cons_pos rb) =? u32 (cons_pos + 1)) then (None, rb)
  else
    let msg := load_data cons_pos rb in
    let rb := store_sequence cons_pos (u32 (cons_pos + SlotCount)) rb in
    (Some msg, store_consumer (u32 (cons_pos + 1)) rb).

Definition Depth (rb : ShmRingBuffer) : Z := u32 (producer_pos_ rb - consumer_pos_ rb).

(** ** Interleaved *)

(** A producer inside TryPush: [pos] is its prod_pos, [v] the number of claims at
    the time it was loaded. *)
Inductive ProducerPc :=
| PRest (result : option bool)
| PSizeCheck (msg : list Z)
| PLoadPos (msg : list Z)
| PCheckSeq (msg : list Z) (pos v : Z)
| PClaim (msg : list Z) (pos v : Z)
| PSetSize (msg : list Z) (pos v : Z)
| PCopy (msg : list Z) (pos v : Z)
| PPublish (msg : list Z) (pos v : Z).

(** The consumer inside TryPop; [pos] is its cons_pos. *)
Inductive ConsumerPc :=
| CRest
| CCheckSeq (pos : Z)
| CCopy (pos : Z)
| CRelease (pos : Z)
| CAdvance (pos : Z).

(** [claims] lists the messages in the order of the successful exchanges,
    [delivered] what the consumer copied out, [released] how many slots it gave back. *)
Record World := mkWorld {
  ring : ShmRingBuffer;
  cpc : ConsumerPc;
  producers : list ProducerPc;
  claims : list (list Z);
  delivered : list (list Z);
  released : Z
}.

Definition claimed_count (w : World) : Z := Z.of_nat (length (claims w)).

(** One access of a producer: its next point, the ring, and the claim made. *)
Definition producer_step (weak : bool) (pc : ProducerPc) (count : Z) (rb : ShmRingBuffer)
    : option (ProducerPc * ShmRingBuffer * list (list Z)) :=
  match pc with
  | PRest _ => None
  | PSizeCheck msg =>
    if SlotSize <? Z.of_nat (length msg) then Some (PRest (Some false), rb, []) else Some (PLoadPos msg, rb, [])
  | PLoadPos msg => Some (PCheckSeq msg (producer_pos_ rb) count, rb, [])
  | PCheckSeq msg pos v =>
    if negb (sequence (slot_at pos rb) =? pos) then Some (PRest (Some false), rb, []) else Some (PClaim msg pos v, rb, [])
  | PClaim msg pos v =>
    if (producer_pos_ rb =? pos) && negb weak
    then Some (PSetSize msg pos v, store_producer (u32 (pos + 1)) rb, [msg]) else Some (PLoadPos msg, rb, [])
  | PSetSize msg pos v => Some (PCopy msg pos v, store_size pos (Z.of_nat (length msg)) rb, [])
  | PCopy msg pos v => Some (PPublish msg pos v, store_data pos msg rb, [])
  | PPublish msg pos v => Some (PRest (Some true), store_sequence pos (u32 (pos + 1)) rb, [])
  end.

(** One access of the consumer: its next point, the ring, what it copied out and
    whether it gave a slot back. *)
Definition consumer_step (pc : ConsumerPc) (rb : ShmRingBuffer) : ConsumerPc * ShmRingBuffer * list (list Z) * Z :=
  match pc with
  | CRest => (CCheckSeq (consumer_pos_ rb), rb, [], 0)
  | CCheckSeq pos =>
    if negb (sequence (slot_at pos rb) =? u32 (pos + 1)) then (CRest, rb, [], 0) else (CCopy pos, rb, [], 0)
  | CCopy pos => (CRelease pos, rb, [load_data pos rb], 0)
  | CRelease pos => (CAdvance pos, store_sequence pos (u32 (pos + SlotCount)) rb, [], 1)
  | CAdvance pos => (CRest, store_consumer (u32 (pos + 1)) rb, [], 0)
  end.

Inductive Action := ACall (t : nat) (msg : list Z) | AProducer (t : nat) (weak : bool) | AConsumer.

Definition exec (a : Action) (w : World) : option World :=
  match a with
  | ACall t msg =>
    match producers w !! t with
    | Some (PRest _) => Some (mkWorld (ring w) (cpc w) (<[t := PSizeCheck msg]> (producers w)) (claims w) (delivered w) (released w))
    | _ => None
    end
  | AProducer t weak =>
    match producers w !! t with
    | Some pc =>
      match producer_step weak pc (claimed_count w) (ring w) with
      | Some (pc', rb', new) =>
        Some (mkWorld rb' (cpc w) (<[t := pc']> (producers w)) (claims w ++ new) (delivered w) (released w))
      | None => None
      end
    | None => None
    end
  | AConsumer =>
    let '(pc', rb', got, n) := consumer_step (cpc w) (ring w) in
    Some (mkWorld rb' pc' (producers w) (claims w) (delivered w ++ got) (released w + n))
  end.

(** No producer is overtaken by 2^32 claims between its load and its exchange. *)
Definition fresh (a : Action) (w : World) : Prop :=
  match a with
  | AProducer t _ => forall msg pos v, producers w !! t = Some (PClaim msg pos v) -> claimed_count w - v < 2 ^ 32
  | _ => True
  end.
Definition ring_trans (w w' : World) : Prop := exists a, fresh a w /\ exec a w = Some w'.

Definition start (mem : list (list Z)) (n : nat) : World := mkWorld (InitAt mem) CRest (replicate n (PRest None)) [] [] 0.

(** ** The invariant *)

Definition owns (pc : ProducerPc) : option Z :=
  match pc with PSetSize _ _ v | PCopy _ _ v | PPublish _ _ v => Some v | _ => None end.

(** The slot of position [p] holds [msg]. *)
Definition holds (p : Z) (msg : list Z) (rb : ShmRingBuffer) : Prop :=
  size (slot_at (u32 p) rb) = Z.of_nat (length msg) /\ load_data (u32 p) rb = msg.

(** A producer that claimed [v]: the slot is its own until it publishes. *)
Definition claims_slot (w : World) (msg : list Z) (pos v : Z) : Prop :=
  pos = u32 v /\ released w <= v < claimed_count w /\ sequence (slot_at (u32 v) (ring w)) = u32 v /\
  claims w !! Z.to_nat v = Some msg /\ Z.of_nat (length msg) <= SlotSize.

Definition tinv (w : World) (pc : ProducerPc) : Prop :=
  match pc with
  | PRest _ | PSizeCheck _ => True
  | PLoadPos msg => Z.of_nat (length msg) <= SlotSize
  | PCheckSeq msg pos v => Z.of_nat (length msg) <= SlotSize /\ pos = u32 v /\ 0 <= v <= claimed_count w
  | PClaim msg pos v =>
    Z.of_nat (length msg) <= SlotSize /\ pos = u32 v /\ 0 <= v <= claimed_count w /\
    (v = claimed_count w -> v < released w + SlotCount)
  | PSetSize msg pos v => claims_slot w msg pos v
  | PCopy msg pos v => claims_slot w msg pos v /\ size (slot_at (u32 v) (ring w)) = Z.of_nat (length msg)
  | PPublish msg pos v => claims_slot w msg pos v /\ holds v msg (ring w)
  end.

Definition published (w : World) (p : Z) : Prop :=
  sequence (slot_at (u32 p) (ring w)) = u32 (p + 1) /\ exists msg, claims w !! Z.to_nat p = Some msg /\ holds p msg (ring w).
Definition being_written (w : World) (p : Z) : Prop :=
  sequence (slot_at (u32 p) (ring w)) = u32 p /\ exists t pc, producers w !! t = Some pc /\ owns pc = Some p.

(** The consumer's position, and what it has copied out but not released. *)
Definition cinv (w : World) : Prop :=
  match cpc w with
  | CRest => consumer_pos_ (ring w) = u32 (released w) /\ Z.of_nat (length (delivered w)) = released w
  | CCheckSeq pos => pos = u32 (released w) /\ consumer_pos_ (ring w) = pos /\ Z.of_nat (length (delivered w)) = released w
  | CCopy pos =>
    pos = u32 (released w) /\ consumer_pos_ (ring w) = pos /\ Z.of_nat (length (delivered w)) = released w /\
    released w < claimed_count w /\ published w (released w)
  | CRelease pos =>
    pos = u32 (released w) /\ consumer_pos_ (ring w) = pos /\ Z.of_nat (length (delivered w)) = released w + 1 /\
    released w < claimed_count w /\ published w (released w)
  | CAdvance pos =>
    pos = u32 (released w - 1) /\ consumer_pos_ (ring w) = pos /\ Z.of_nat (length (delivered w)) = released w
  end.

Record inv (w : World) : Prop := {
  i_len : Z.of_nat (length (slots_ (ring w))) = SlotCount;
  i_bytes : forall s, s ∈ slots_ (ring w) -> Z.of_nat (length (data s)) = SlotSize;
  i_prod : producer_pos_ (ring w) = u32 (claimed_count w);
  i_window : 0 <= released w <= claimed_count w /\ claimed_count w <= released w + SlotCount;
  i_free : forall p, claimed_count w <= p < released w + SlotCount -> sequence (slot_at (u32 p) (ring w)) = u32 p;
  i_busy : forall p, released w <= p < claimed_count w -> published w p \/ being_written w p;
  i_cons : cinv w;
  i_fifo : delivered w = take (length (delivered w)) (claims w);
  i_threads : forall t pc, producers w !! t = Some pc -> tinv w pc;
  i_apart : forall t1 t2 pc1 pc2 p, producers w !! t1 = Some pc1 -> producers w !! t2 = Some pc2 -> owns pc1 = Some p ->
    owns pc2 = Some p -> t1 = t2
}.

(** ** Slots of different positions *)

Context (Hk : 1 <= k <= 31) (HS : 0 <= SlotSize).

Lemma N_bounds : 2 <= SlotCount <= 2 ^ 31.
Proof.
  unfold SlotCount. split; [|apply Z.pow_le_mono_r; lia]. replace 2 with (2 ^ 1) at 1 by done. apply Z.pow_le_mono_r; lia.
Qed.

Lemma mask_pos p : Z.land (u32 p) kBufferMask = wrap k p.
Proof. apply land_mask_wrap. lia. Qed.

Lemma slot_wrap_range p : 0 <= wrap k p < SlotCount.
Proof. apply (wrap_range k). lia. Qed.

Lemma slot_put_eq p s rb : Z.of_nat (length (slots_ rb)) = SlotCount -> slot_at (u32 p) (put_slot (u32 p) s rb) = s.
Proof.
  intros Hl. unfold slot_at, put_slot. simpl. rewrite mask_pos. apply aget_aset_eq. pose proof (slot_wrap_range p). lia.
Qed.

Lemma slot_put_ne p q s rb : p <> q -> p < q + SlotCount -> q < p + SlotCount ->
  slot_at (u32 q) (put_slot (u32 p) s rb) = slot_at (u32 q) rb.
Proof.
  intros Hne H1 H2. unfold slot_at, put_slot. simpl. rewrite !mask_pos. pose proof (slot_wrap_range p). pose proof (slot_wrap_range q).
  apply aget_aset_ne; [lia|lia|]. intros E. unfold SlotCount in *.
  destruct (Z.le_gt_cases p q); [apply (wrap_inj_near k) in E; lia|symmetry in E; apply (wrap_inj_near k) in E; lia].
Qed.

Lemma u32_near a b : u32 a = u32 b -> a <= b < a + 2 ^ 32 -> a = b.
Proof. intros E Hr. by apply (wrap_inj_near 32); [lia|lia|]. Qed.

Lemma slot_elem p rb : Z.of_nat (length (slots_ rb)) = SlotCount -> slot_at (u32 p) rb ∈ slots_ rb.
Proof.
  intros Hl. unfold slot_at. rewrite mask_pos. unfold aget. apply list_elem_of_lookup_total_2. pose proof (slot_wrap_range p). lia.
Qed.

(** A slot update by its owner keeps the sizes of the arrays. *)
Lemma put_slot_bytes p s rb :
  (forall x, x ∈ slots_ rb -> Z.of_nat (length (data x)) = SlotSize) -> Z.of_nat (length (data s)) = SlotSize ->
  forall x, x ∈ slots_ (put_slot p s rb) -> Z.of_nat (length (data x)) = SlotSize.
Proof.
  intros Hb Hs x Hx. unfold put_slot, aset in Hx. simpl in Hx. apply list_elem_of_lookup in Hx as (i & Hi).
  apply list_lookup_insert_Some in Hi as [(_ & -> & _)|(_ & Hi)]; [done|]. apply Hb. by apply list_elem_of_lookup_2 in Hi.
Qed.

Lemma load_blit p rb msg :
  Z.of_nat (length (data (slot_at (u32 p) rb))) = SlotSize -> Z.of_nat (length msg) <= SlotSize ->
  size (slot_at (u32 p) rb) = Z.of_nat (length msg) -> Z.of_nat (length (slots_ rb)) = SlotCount ->
  holds p msg (store_data (u32 p) msg rb).
Proof.
  intros Hd Hm Hz Hl. unfold holds, load_data, store_data. cbv zeta. rewrite slot_put_eq by done. simpl. split; [done|].
  rewrite Hz. apply arr_ext; rewrite length_slice by (rewrite ?length_blit; lia); [lia|]. intros i Hi.
  rewrite aget_slice, aget_blit by lia. destruct (Z.leb_spec 0 (0 + i)), (Z.ltb_spec (0 + i) (0 + Z.of_nat (length msg))); try lia.
  simpl. f_equal. lia.
Qed.

(** ** Producer steps *)

Definition after (w : World) (t : nat) (pc' : ProducerPc) (rb' : ShmRingBuffer) (new : list (list Z)) : World :=
  mkWorld rb' (cpc w) (<[t := pc']> (producers w)) (claims w ++ new) (delivered w) (released w).

Lemma count_after w t pc' rb' new : claimed_count (after w t pc' rb' new) = claimed_count w + Z.of_nat (length new).
Proof. unfold claimed_count, after. simpl. rewrite length_app. lia. Qed.

(** A claim of [v] by another producer survives a step that leaves its slot alone. *)
Lemma tinv_after w t pc' rb' new pc :
  (forall v, owns pc = Some v -> slot_at (u32 v) rb' = slot_at (u32 v) (ring w)) -> tinv w pc -> tinv (after w t pc' rb' new) pc.
Proof.
  intros Hs. unfold tinv, claims_slot, holds, load_data. rewrite count_after. simpl.
  assert (Hl : forall v m, claims w !! v = Some m -> (claims w ++ new) !! v = Some m) by (intros; by apply lookup_app_l_Some).
  destruct pc as [r|m|m|m p v|m p v|m p v|m p v|m p v]; simpl in Hs; try done.
  - intros (H1 & H2 & H3). split_and!; [done|done|lia|lia].
  - intros (H1 & H2 & H3 & H4). split_and!; [done|done|lia|lia|lia].
  - rewrite (Hs v) by done. intros (H1 & H2 & H3 & H4 & H5). split_and!; [done|lia|lia|done|by apply Hl|done].
  - rewrite (Hs v) by done. intros ((H1 & H2 & H3 & H4 & H5) & H6). split_and!; [done|lia|lia|done|by apply Hl|done|done].
  - rewrite (Hs v) by done. intros ((H1 & H2 & H3 & H4 & H5) & H6 & H7). split_and!; [done|lia|lia|done|by apply Hl|done|done|done].
Qed.

Lemma published_after w t pc' rb' new p :
  slot_at (u32 p) rb' = slot_at (u32 p) (ring w) -> published w p -> published (after w t pc' rb' new) p.
Proof.
  intros Hs (H1 & msg & H2 & H3). unfold published, holds, load_data in *. simpl. rewrite Hs. split; [done|]. exists msg.
  split; [by apply lookup_app_l_Some|done].
Qed.

(** What a producer between its claim and its publication owns. *)
Lemma owned_slot w pc v : tinv w pc -> owns pc = Some v ->
  released w <= v < claimed_count w /\ sequence (slot_at (u32 v) (ring w)) = u32 v.
Proof.
  intros Hi Ho. destruct pc; simplify_eq/=; [destruct Hi as (? & ? & ? & _)|destruct Hi as [(? & ? & ? & _) _]..]; done.
Qed.

Lemma owned_unpublished w pc v : tinv w pc -> owns pc = Some v -> published w v -> False.
Proof.
  intros Hi Ho [Hp _]. destruct (owned_slot w pc v Hi Ho) as [_ Hs]. rewrite Hs in Hp. apply u32_near in Hp; lia.
Qed.

Lemma producer_update w t pc pc' rb' new :
  inv w -> producers w !! t = Some pc ->
  let w' := after w t pc' rb' new in
  length (slots_ rb') = length (slots_ (ring w)) ->
  (forall s, s ∈ slots_ rb' -> Z.of_nat (length (data s)) = SlotSize) ->
  producer_pos_ rb' = u32 (claimed_count w') -> consumer_pos_ rb' = consumer_pos_ (ring w) ->
  (forall q, released w <= q < released w + SlotCount -> owns pc <> Some q -> slot_at (u32 q) rb' = slot_at (u32 q) (ring w)) ->
  (forall q, owns pc = Some q -> released w <= q < claimed_count w -> published w' q \/ (sequence (slot_at (u32 q) rb') = u32 q /\ owns pc' = Some q)) ->
  (new = [] /\ (forall q, owns pc' = Some q -> owns pc = Some q) \/
   exists msg, new = [msg] /\ owns pc = None /\ owns pc' = Some (claimed_count w) /\ claimed_count w < released w + SlotCount) ->
  tinv w' pc' -> inv w'.
Proof.
  intros [I1 I2 I3 I4 I5 I6 I7 I8 I9 I10] Ht w' Hlen Hb Hp Hc Hslot Hown Hnew Htinv.
  pose proof (lookup_lt_Some _ _ _ Ht) as Hlt. pose proof N_bounds as HN.
  assert (Hcount : claimed_count w' = claimed_count w + Z.of_nat (length new)) by apply count_after.
  assert (Hfree_own : forall q, owns pc = Some q -> released w <= q < claimed_count w).
  { intros q Hq. by eapply owned_slot, Hq; [apply (I9 t)]. }
  assert (Hsame : forall t2 pc2, t2 <> t -> producers w !! t2 = Some pc2 -> forall v, owns pc2 = Some v ->
    slot_at (u32 v) rb' = slot_at (u32 v) (ring w)).
  { intros t2 pc2 Hne H2 v Hv. apply Hslot; [|intros Hv'; apply Hne; by eapply I10].
    destruct (owned_slot w pc2 v (I9 t2 pc2 H2) Hv). lia. }
  assert (Hold : forall p, released w <= p < claimed_count w -> published w' p \/ being_written w' p).
  { intros q Hq. destruct (decide (owns pc = Some q)) as [Eo|Eo].
    - destruct (Hown q Eo Hq) as [Hpub|[Hseq Ho]]; [by left|right]. split; [done|]. exists t, pc'. simpl. by rewrite list_lookup_insert_eq.
    - assert (Es : slot_at (u32 q) rb' = slot_at (u32 q) (ring w)) by (apply Hslot; [lia|done]).
      destruct (I6 q Hq) as [Hpub|(Hseq & t2 & pc2 & H2 & Ho)]; [left; by apply published_after|right].
      split; [simpl; by rewrite Es|]. exists t2, pc2. split; [|done]. simpl.
      rewrite list_lookup_insert_ne; [done|]. intros ->. by simplify_eq. }
  split; try done.
  - simpl. lia.
  - destruct Hnew as [(-> & _)|(msg & -> & _ & _ & Hw)]; simpl in *; lia.
  - intros p Hpw. simpl in Hpw |- *. rewrite Hcount in Hpw. rewrite Hslot; [apply I5; lia|lia|]. intros E. specialize (Hfree_own _ E). lia.
  - intros q Hq. rewrite Hcount in Hq. simpl in Hq. destruct (Z.lt_ge_cases q (claimed_count w)); [by apply Hold; lia|].
    destruct Hnew as [(-> & _)|(msg & -> & _ & Ho & Hw)]; simpl in Hq; [lia|]. assert (q = claimed_count w) as -> by lia. right.
    split; [simpl; rewrite Hslot; [apply I5; lia|lia|intros E; specialize (Hfree_own _ E); lia]|].
    exists t, pc'. simpl. by rewrite list_lookup_insert_eq.
  - unfold cinv in *. rewrite Hcount. simpl. rewrite Hc. destruct (cpc w); try done.
    + destruct I7 as (A1 & A2 & A3 & A4 & A5). split_and!; [done|done|done|lia|]. apply published_after; [|done].
      apply Hslot; [lia|]. intros E. by eapply owned_unpublished; [apply (I9 t)|..].
    + destruct I7 as (A1 & A2 & A3 & A4 & A5). split_and!; [done|done|done|lia|]. apply published_after; [|done].
      apply Hslot; [lia|]. intros E. by eapply owned_unpublished; [apply (I9 t)|..].
  - simpl. rewrite I8 at 1. rewrite take_app_le; [done|]. rewrite I8, length_take. lia.
  - intros t2 pc2 H2. simpl in H2. destruct (decide (t2 = t)) as [->|Hne].
    + rewrite list_lookup_insert_eq in H2 by done. by simplify_eq.
    + rewrite list_lookup_insert_ne in H2 by done. apply tinv_after; [by eapply Hsame|by apply (I9 t2)].
  - assert (Hap : forall t2 pc2 q, t2 <> t -> producers w !! t2 = Some pc2 -> owns pc2 = Some q -> owns pc' = Some q -> False).
    { intros t2 pc2 q Hne H2 Ho2 Ho. destruct Hnew as [(_ & Hn)|(msg & _ & _ & Hn & _)].
      - apply Hne. by eapply I10; [..|apply Hn].
      - simplify_eq. destruct (owned_slot w pc2 _ (I9 t2 pc2 H2) Ho2). lia. }
    intros t1 t2 pc1 pc2 q H1 H2 Ho1 Ho2. simpl in H1, H2.
    destruct (decide (t1 = t)) as [->|N1], (decide (t2 = t)) as [->|N2]; [done| | |].
    + rewrite list_lookup_insert_eq in H1 by done. rewrite list_lookup_insert_ne in H2 by done. simplify_eq. exfalso. by eapply (Hap t2).
    + rewrite list_lookup_insert_eq in H2 by done. rewrite list_lookup_insert_ne in H1 by done. simplify_eq. exfalso. by eapply (Hap t1).
    + rewrite list_lookup_insert_ne in H1, H2 by done. by eapply I10.
Qed.

(** Steps that only move the producer. *)
Lemma quiet_update w t pc pc' :
  inv w -> producers w !! t = Some pc -> owns pc = None -> owns pc' = None -> tinv w pc' -> inv (after w t pc' (ring w) []).
Proof.
  intros Hi Ht Ho Ho' Hn. apply (producer_update w t pc); try done.
  - apply (i_bytes _ Hi).
  - rewrite count_after. simpl. rewrite Z.add_0_r. apply (i_prod _ Hi).
  - intros q Hq. congruence.
  - left. split; [done|]. intros q Hq. congruence.
  - by apply tinv_after.
Qed.

(** Writing words of the slot a producer owns. *)
Lemma own_slot_update w t pc pc' msg v s :
  inv w -> producers w !! t = Some pc -> owns pc = Some v -> claims_slot w msg (u32 v) v ->
  Z.of_nat (length (data s)) = SlotSize ->
  let rb' := put_slot (u32 v) s (ring w) in
  (sequence s = u32 v /\ owns pc' = Some v \/ owns pc' = None /\ published (after w t pc' rb' []) v) ->
  tinv (after w t pc' rb' []) pc' -> inv (after w t pc' rb' []).
Proof.
  intros Hi Ht Ho Hc Hb rb' Hs Htinv. destruct Hc as (_ & Hv & _). pose proof (i_window _ Hi) as Hw. pose proof N_bounds.
  apply (producer_update w t pc); try done.
  - unfold rb', put_slot. simpl. apply length_aset.
  - apply put_slot_bytes; [apply (i_bytes _ Hi)|done].
  - rewrite count_after. simpl. rewrite Z.add_0_r. apply (i_prod _ Hi).
  - intros q Hq Hne. apply slot_put_ne; [congruence|lia|lia].
  - intros q Hq _. assert (q = v) as -> by congruence. destruct Hs as [(Hs & Ho')|(_ & Hs)]; [right|by left].
    split; [|done]. unfold rb'. rewrite slot_put_eq by apply (i_len _ Hi). done.
  - left. split; [done|]. intros q Hq. destruct Hs as [(_ & Ho')|(Ho' & _)]; congruence.
Qed.

Lemma claims_slot_after w t pc' msg pos v s :
  claims_slot w msg pos v -> inv w -> sequence s = u32 v -> claims_slot (after w t pc' (put_slot (u32 v) s (ring w)) []) msg pos v.
Proof.
  intros (H1 & H2 & H3 & H4 & H5) Hi Hs. unfold claims_slot. rewrite count_after. simpl. rewrite slot_put_eq by apply (i_len _ Hi).
  rewrite app_nil_r. split_and!; [done|lia|lia|done|done|done].
Qed.

Lemma push_step_inv weak w t pc pc' rb' new :
  inv w -> producers w !! t = Some pc -> (forall msg pos v, pc = PClaim msg pos v -> claimed_count w - v < 2 ^ 32) ->
  producer_step weak pc (claimed_count w) (ring w) = Some (pc', rb', new) -> inv (after w t pc' rb' new).
Proof.
  intros Hi Ht Hf Hstep. pose proof N_bounds as HN. pose proof (i_threads _ Hi t pc Ht) as Hn. pose proof (i_window _ Hi) as Hw.
  destruct pc as [r|m|m|m p v|m p v|m p v|m p v|m p v]; simpl in Hstep; simplify_eq.
  - destruct (Z.ltb_spec SlotSize (Z.of_nat (length m))); simplify_eq; by eapply quiet_update.
  - eapply quiet_update; try done. simpl. split_and!; [done|apply (i_prod _ Hi)|unfold claimed_count; lia|lia].
  - destruct Hn as (Hm & -> & Hv).
    destruct (Z.eqb_spec (sequence (slot_at (u32 v) (ring w))) (u32 v)) as [Es|]; simplify_eq/=; eapply quiet_update; try done.
    simpl. split_and!; [done|done|lia|lia|]. intros ->. destruct (Z.lt_ge_cases (claimed_count w) (released w + SlotCount)); [done|].
    assert (Ew : u32 (claimed_count w) = u32 (released w) \/ u32 (claimed_count w) = u32 (released w + 1)).
    { assert (Hsl : slot_at (u32 (claimed_count w)) (ring w) = slot_at (u32 (released w)) (ring w)).
      { unfold slot_at. rewrite !mask_pos. f_equal. replace (claimed_count w) with (released w + SlotCount) by lia.
        unfold wrap, SlotCount. rewrite <- (Z.mul_1_l (2 ^ k)) at 1. apply Z_mod_plus_full. }
      rewrite Hsl in Es. destruct (i_busy _ Hi (released w)) as [ [Hp _]|[Hp _] ]; [lia|right|left]; congruence. }
    destruct Ew as [Ew|Ew]; symmetry in Ew; apply u32_near in Ew; lia.
  - destruct Hn as (Hm & -> & Hv & Hroom). specialize (Hf _ _ _ eq_refl).
    destruct (Z.eqb_spec (producer_pos_ (ring w)) (u32 v)) as [Ep|]; [destruct weak|]; simplify_eq/=; try by eapply quiet_update.
    rewrite (i_prod _ Hi) in Ep. symmetry in Ep. apply u32_near in Ep; [|lia]. subst v.
    apply (producer_update w t (PClaim m (u32 (claimed_count w)) (claimed_count w))); try done.
    + apply (i_bytes _ Hi).
    + rewrite count_after. simpl. by rewrite wrap_add_l.
    + right. exists m. split_and!; [done..|lia].
    + unfold tinv, claims_slot. rewrite count_after. simpl. split_and!; [done|lia|lia|apply (i_free _ Hi); lia| |done].
      unfold claimed_count. rewrite Nat2Z.id. by rewrite lookup_app_r, Nat.sub_diag by lia.
  - simpl in Hn. destruct (Hn) as (-> & Hv & Hs & _ & _). unfold store_size. cbv zeta.
    apply (own_slot_update w t (PSetSize m (u32 v) v) _ m v); try done.
    + apply (i_bytes _ Hi (slot_at (u32 v) (ring w))), slot_elem, (i_len _ Hi).
    + left. simpl. split; [|done]. by rewrite Hs.
    + simpl. split; [by apply claims_slot_after|]. rewrite slot_put_eq by apply (i_len _ Hi). done.
  - simpl in Hn. destruct Hn as (Hc & Hz). destruct (Hc) as (-> & Hv & Hs & _ & Hm).
    assert (Hd : Z.of_nat (length (data (slot_at (u32 v) (ring w)))) = SlotSize) by (apply (i_bytes _ Hi), slot_elem, (i_len _ Hi)).
    pose proof (load_blit v (ring w) m Hd Hm Hz (i_len _ Hi)) as Hh. unfold store_data in *. cbv zeta in *.
    apply (own_slot_update w t (PCopy m (u32 v) v) _ m v); try done.
    + simpl. rewrite length_blit; lia.
    + left. simpl. split; [|done]. by rewrite Hs.
    + simpl. split; [by apply claims_slot_after|exact Hh].
  - simpl in Hn. destruct Hn as (Hc & Hz & Hl). destruct (Hc) as (-> & Hv & Hs & Hcl & Hm). unfold store_sequence. cbv zeta.
    apply (own_slot_update w t (PPublish m (u32 v) v) _ m v); try done.
    + apply (i_bytes _ Hi (slot_at (u32 v) (ring w))), slot_elem, (i_len _ Hi).
    + right. split; [done|]. unfold published, holds, load_data in *. simpl. rewrite slot_put_eq by apply (i_len _ Hi). simpl.
      split; [by rewrite wrap_add_l|]. exists m. rewrite app_nil_r. done.
Qed.

(** ** Consumer steps *)

(** Steps that leave the slots and the released count alone. *)
Lemma consumer_quiet w pc' rb' del :
  inv w -> slots_ rb' = slots_ (ring w) -> producer_pos_ rb' = producer_pos_ (ring w) ->
  let w' := mkWorld rb' pc' (producers w) (claims w) del (released w) in
  cinv w' -> del = take (length del) (claims w) -> inv w'.
Proof.
  intros [I1 I2 I3 I4 I5 I6 I7 I8 I9 I10] Es Ep w' Hc Hd. destruct rb' as [pp cp sl]. simpl in Es, Ep. subst sl pp.
  split; try done.
Qed.

(** The consumer finds a message exactly when the next position is published. *)
Lemma next_published w : inv w -> sequence (slot_at (u32 (released w)) (ring w)) = u32 (released w + 1) ->
  released w < claimed_count w /\ published w (released w).
Proof.
  intros Hi Es. pose proof N_bounds. pose proof (i_window _ Hi) as Hw. destruct (Z.lt_ge_cases (released w) (claimed_count w)).
  - split; [done|]. destruct (i_busy _ Hi (released w)) as [?|[Hs _]]; [lia|done|]. rewrite Hs in Es. apply u32_near in Es; lia.
  - rewrite (i_free _ Hi) in Es by lia. apply u32_near in Es; lia.
Qed.

Lemma slot_period p rb : slot_at (u32 (p + SlotCount)) rb = slot_at (u32 p) rb.
Proof.
  unfold slot_at. rewrite !mask_pos. f_equal. unfold wrap, SlotCount. rewrite <- (Z.mul_1_l (2 ^ k)) at 1. apply Z_mod_plus_full.
Qed.

Lemma release_inv w : inv w -> cpc w = CRelease (u32 (released w)) ->
  inv (mkWorld (store_sequence (u32 (released w)) (u32 (u32 (released w) + SlotCount)) (ring w)) (CAdvance (u32 (released w)))
         (producers w) (claims w) (delivered w) (released w + 1)).
Proof.
  intros Hi Epc. pose proof N_bounds as HN. destruct (Hi) as [I1 I2 I3 I4 I5 I6 I7 I8 I9 I10]. unfold cinv in I7. rewrite Epc in I7.
  destruct I7 as (_ & C2 & C3 & C4 & C5). unfold store_sequence. cbv zeta. rewrite wrap_add_l.
  set (R := released w) in *. set (s := mkSlot _ _ _). set (rb := put_slot (u32 R) s (ring w)).
  assert (Hne : forall q, R < q < R + SlotCount -> slot_at (u32 q) rb = slot_at (u32 q) (ring w)).
  { intros q Hq. apply slot_put_ne; lia. }
  assert (Hpub : forall p, R < p < claimed_count w -> published w p ->
    published (mkWorld rb (CAdvance (u32 R)) (producers w) (claims w) (delivered w) (R + 1)) p).
  { intros p Hp (Hs & msg & Hm & Hh). unfold published, holds, load_data in *. simpl. rewrite Hne by lia. eauto. }
  split; simpl; try done.
  - unfold aset. by rewrite length_insert.
  - apply put_slot_bytes; [done|]. apply (I2 (slot_at (u32 R) (ring w))), slot_elem, I1.
  - unfold claimed_count in *. simpl. lia.
  - intros p Hp. change (claimed_count _) with (claimed_count w) in Hp. destruct (Z.eq_dec p (R + SlotCount)) as [->|Hn].
    + rewrite slot_period. unfold rb. by rewrite slot_put_eq by apply I1.
    + rewrite Hne by lia. apply I5. lia.
  - intros p Hp. change (claimed_count _) with (claimed_count w) in Hp.
    destruct (I6 p ltac:(lia)) as [Hpb|(Hs & Hex)]; [left; apply Hpub; [lia|done]|right]. split; [simpl; by rewrite Hne by lia|done].
  - unfold cinv. simpl. split_and!; [f_equal; lia|by rewrite C2; f_equal; lia|lia].
  - intros t pc Ht. pose proof (I9 t pc Ht) as Hn.
    assert (Hv : forall v, owns pc = Some v -> R < v < claimed_count w /\ slot_at (u32 v) rb = slot_at (u32 v) (ring w)).
    { intros v Ho. destruct (owned_slot w pc v Hn Ho) as [Hr _]. assert (v <> R).
      { intros ->. by eapply owned_unpublished. } split; [unfold R in *; lia|apply Hne; unfold R in *; lia]. }
    unfold tinv, claims_slot, holds, load_data in *. change (claimed_count (mkWorld _ _ _ _ _ _)) with (claimed_count w).
    destruct pc as [r|m|m|m p v|m p v|m p v|m p v|m p v]; simpl in Hv |- *; try done;
      try (destruct (Hv v eq_refl) as [Hr ->]); naive_solver lia.
Qed.

Lemma pop_step_inv w pc' rb' got n :
  inv w -> consumer_step (cpc w) (ring w) = (pc', rb', got, n) ->
  inv (mkWorld rb' pc' (producers w) (claims w) (delivered w ++ got) (released w + n)).
Proof.
  intros Hi Hs. pose proof (i_cons _ Hi) as Hc. pose proof (i_fifo _ Hi) as Hf. unfold cinv in Hc.
  destruct (cpc w) as [|pos|pos|pos|pos] eqn:Epc; simpl in Hs.
  - simplify_eq. rewrite app_nil_r, Z.add_0_r. apply consumer_quiet; try done. unfold cinv. simpl. naive_solver.
  - destruct Hc as (-> & C2 & C3). rewrite wrap_add_l in Hs.
    destruct (Z.eqb_spec (sequence (slot_at (u32 (released w)) (ring w))) (u32 (released w + 1))) as [Es|];
      simplify_eq/=; rewrite app_nil_r, Z.add_0_r; apply consumer_quiet; try done; unfold cinv; simpl.
    destruct (next_published w Hi Es). done.
  - destruct Hc as (-> & C2 & C3 & C4 & C5). simplify_eq. rewrite Z.add_0_r. destruct C5 as (Hseq & msg & Hm & Hz & Hl).
    apply consumer_quiet; try done.
    + unfold cinv. simpl. rewrite length_app. simpl. split_and!; [done|done|lia|done|]. split; [done|]. exists msg. done.
    + rewrite Hl, length_app. simpl. replace (length (delivered w) + 1)%nat with (S (Z.to_nat (released w))) by lia.
      rewrite (take_S_r _ _ _ Hm). f_equal. rewrite Hf at 1. f_equal. lia.
  - destruct Hc as (-> & _). simplify_eq. rewrite app_nil_r. by apply release_inv.
  - destruct Hc as (-> & C2 & C3). simplify_eq. rewrite app_nil_r, Z.add_0_r. apply consumer_quiet; try done. unfold cinv. simpl.
    split; [rewrite wrap_add_l; f_equal; lia|done].
Qed.

Lemma inv_step w w' : ring_trans w w' -> inv w -> inv w'.
Proof.
  intros (a & Hf & He) Hi. destruct a as [t msg|t weak|]; simpl in He.
  - destruct (producers w !! t) as [ [r| | | | | | | ]|] eqn:Ht; simplify_eq.
    pose proof (quiet_update w t _ (PSizeCheck msg) Hi Ht eq_refl eq_refl I) as Hq. unfold after in Hq. by rewrite app_nil_r in Hq.
  - destruct (producers w !! t) as [pc|] eqn:Ht; [|done].
    destruct (producer_step weak pc (claimed_count w) (ring w)) as [ [ [pc' rb'] new]|] eqn:Es; simplify_eq.
    apply (push_step_inv weak w t pc); try done. intros msg pos v ->. by eapply Hf.
  - destruct (consumer_step (cpc w) (ring w)) as [ [ [pc' rb'] got] n] eqn:Es. simplify_eq. by apply pop_step_inv.
Qed.

Lemma inv_start mem n : Z.of_nat (length mem) = SlotCount -> Forall (fun d => Z.of_nat (length d) = SlotSize) mem -> inv (start mem n).
Proof.
  intros Hl Hb. pose proof N_bounds as HN.
  assert (Hlen : length (slots_ (InitAt mem)) = Z.to_nat SlotCount).
  { simpl. rewrite length_zip_with, length_seqZ. lia. }
  assert (Hslot : forall i s, slots_ (InitAt mem) !! i = Some s -> sequence s = Z.of_nat i /\ Z.of_nat (length (data s)) = SlotSize).
  { intros i s Hs. simpl in Hs. apply lookup_zip_with_Some in Hs as (x & d & -> & Hx & Hd). simpl.
    apply lookup_seqZ in Hx as [-> _]. split; [lia|]. rewrite Forall_lookup in Hb. by eapply Hb. }
  split; simpl; try done.
  - change (zip_with _ _ _) with (slots_ (InitAt mem)). lia.
  - intros s (i & Hi)%list_elem_of_lookup. by apply (Hslot i s).
  - unfold claimed_count. simpl. lia.
  - intros p Hp. unfold claimed_count in Hp. simpl in Hp.
    assert (Hw : wrap k p = p) by (apply wrap_small; unfold in_range, SlotCount in *; lia).
    unfold slot_at. rewrite mask_pos, Hw. rewrite (wrap_small 32 p) by (unfold in_range; lia).
    assert (is_Some (slots_ (InitAt mem) !! Z.to_nat p)) as [s Hs] by (apply lookup_lt_is_Some; lia).
    unfold aget. rewrite (list_lookup_total_correct _ _ _ Hs). destruct (Hslot _ _ Hs) as [-> _]. lia.
  - intros p Hp. unfold claimed_count in Hp. simpl in Hp. lia.
  - intros t pc Ht. apply lookup_replicate in Ht as [-> _]. done.
  - intros t1 t2 pc1 pc2 p H1 _ Ho. apply lookup_replicate in H1 as [-> _]. done.
Qed.

(** ** Results *)

(** The slot index of a position. *)
Definition slot_index (pos : Z) : Z := Z.land pos kBufferMask.

Lemma shm_index_ne w p q : inv w -> released w <= p < claimed_count w -> released w <= q < claimed_count w -> p <> q ->
  slot_index (u32 p) <> slot_index (u32 q).
Proof.
  intros Hi Hp Hq Hne. pose proof (i_window _ Hi). unfold slot_index. rewrite !mask_pos. intros E. unfold SlotCount in *.
  destruct (Z.le_gt_cases p q); [apply (wrap_inj_near k) in E; lia|symmetry in E; apply (wrap_inj_near k) in E; lia].
Qed.

Lemma TryPop_rest w : inv w -> cpc w = CRest -> (forall t pc, producers w !! t = Some pc -> owns pc = None) ->
  (TryPop (ring w)).1 = claims w !! length (delivered w).
Proof.
  intros Hi Ec Hq. pose proof (i_cons _ Hi) as Hc. unfold cinv in Hc. rewrite Ec in Hc. destruct Hc as [Cp Cl].
  pose proof (i_window _ Hi) as Hw. pose proof N_bounds. unfold TryPop. rewrite Cp, wrap_add_l.
  replace (length (delivered w)) with (Z.to_nat (released w)) by lia.
  destruct (Z.eqb_spec (sequence (slot_at (u32 (released w)) (ring w))) (u32 (released w + 1))) as [Es|Es]; simpl.
  - destruct (next_published w Hi Es) as (_ & _ & msg & -> & _ & ->). done.
  - symmetry. apply lookup_ge_None_2. destruct (Z.lt_ge_cases (released w) (claimed_count w)) as [Hlt|]; [|unfold claimed_count in *; lia].
    destruct (i_busy _ Hi (released w)) as [ [Hs _]|(_ & t & pc & Ht & Ho)]; [lia|done|]. by rewrite (Hq t pc Ht) in Ho.
Qed.

(** C11. Many producers and the consumer of a shared-memory ring, interleaved at
    every shared access with exchanges failing spuriously and positions wrapping
    around: the consumer receives the messages in the order in which the producers
    claimed their slots, each once and intact, and no more than SlotCount are
    outstanding; two producers never write the same slot, and none writes the slot
    the consumer is copying; and whenever no push is under way the next pop returns
    exactly the oldest message not yet delivered, and nothing if there is none. *)
Theorem shm_ring_concurrent_fifo mem n w :
  Z.of_nat (length mem) = SlotCount -> Forall (fun d => Z.of_nat (length d) = SlotSize) mem -> rtc ring_trans (start mem n) w ->
  delivered w = take (length (delivered w)) (claims w) /\
  Z.of_nat (length (claims w)) <= Z.of_nat (length (delivered w)) + SlotCount /\
  (forall t1 t2 pc1 pc2 p1 p2, producers w !! t1 = Some pc1 -> producers w !! t2 = Some pc2 -> t1 <> t2 ->
     owns pc1 = Some p1 -> owns pc2 = Some p2 -> slot_index (u32 p1) <> slot_index (u32 p2)) /\
  (forall t pc p pos, producers w !! t = Some pc -> owns pc = Some p -> cpc w = CCopy pos -> slot_index (u32 p) <> slot_index pos) /\
  ((forall t pc, producers w !! t = Some pc -> owns pc = None) -> cpc w = CRest ->
     (TryPop (ring w)).1 = claims w !! length (delivered w)).
Proof.
  intros Hl Hb Hr. assert (Hi : inv w).
  { eapply (rtc_invariant ring_trans inv); [by apply (inv_start mem n)|intros x y; apply inv_step|exact Hr]. }
  pose proof (i_window _ Hi) as Hw. split; [apply (i_fifo _ Hi)|]. split; [|split; [|split] ].
  - pose proof (i_cons _ Hi) as Hc. unfold cinv, claimed_count in *. destruct (cpc w); lia.
  - intros t1 t2 pc1 pc2 p1 p2 H1 H2 Hne O1 O2.
    destruct (owned_slot _ _ _ (i_threads _ Hi _ _ H1) O1), (owned_slot _ _ _ (i_threads _ Hi _ _ H2) O2).
    apply (shm_index_ne w); [done..|]. intros ->. apply Hne. by eapply (i_apart _ Hi).
  - intros t pc p pos Ht Ho Ec. pose proof (i_cons _ Hi) as Hc. unfold cinv in Hc. rewrite Ec in Hc. destruct Hc as (-> & _ & _ & Hlt & Hp).
    pose proof (i_threads _ Hi _ _ Ht) as Hn. destruct (owned_slot _ _ _ Hn Ho). apply (shm_index_ne w); [done|done|lia|].
    intros ->. by eapply owned_unpublished.
  - intros Hq Ec. by apply TryPop_rest.
Qed.

(** Runs a schedule, checking the position window. *)
Fixpoint run_sched (l : list Action) (w : World) : option World :=
  match l with
  | [] => Some w
  | a :: l' =>
    if match a with
       | AProducer t _ => match producers w !! t with Some (PClaim _ _ v) => claimed_count w - v <? 2 ^ 32 | _ => true end
       | _ => true
       end
    then match exec a w with Some w' => run_sched l' w' | None => None end else None
  end.

Lemma run_sched_rtc l w w' : run_sched l w = Some w' -> rtc ring_trans w w'.
Proof.
  revert w. induction l as [|a l IH]; intros w; simpl; [by intros [= ->]|].
  destruct (match a with AProducer t _ => _ | _ => _ end) eqn:Ef; [|done].
  destruct (exec a w) as [w1|] eqn:Ee; [|done]. intros Hr. eapply rtc_l; [|by apply IH]. exists a. split; [|done].
  destruct a as [|t weak|]; try done. intros msg pos v Ht. rewrite Ht in Ef. by apply Z.ltb_lt.
Qed.

End Ring.

Definition push_by (t : nat) (m : list Z) (steps : nat) : list Action := ACall t m :: replicate steps (AProducer t false).

(** Two producers claim in one order and publish in the other; the consumer waits for the first. *)
Definition crossing_sched : list Action :=
  push_by 0 [1; 2] 5 ++ push_by 1 [3] 7 ++ replicate 2 AConsumer ++ replicate 2 (AProducer 0 false) ++ replicate 5 AConsumer ++
  push_by 1 [4] 3 ++ [AProducer 1 true] ++ replicate 6 (AProducer 1 false).

Lemma shm_ring_concurrent_fifo_witness :
  exists w, run_sched 1 4 crossing_sched (start 1 [[0; 0; 0; 0]; [0; 0; 0; 0]] 2) = Some w /\
    claims w = [[1; 2]; [3]; [4]] /\ delivered w = [[1; 2]] /\ (TryPop 1 (ring w)).1 = Some [3].
Proof.
  eexists. split; [vm_compute; reflexivity|]. split; [reflexivity|]. split; [reflexivity|].
  match goal with |- (TryPop 1 (ring ?w)).1 = _ => set (W := w) end.
  destruct (shm_ring_concurrent_fifo 1 4 ltac:(lia) [[0; 0; 0; 0]; [0; 0; 0; 0]] 2 W) as (_ & _ & _ & _ & Hp).
  - reflexivity.
  - repeat constructor.
  - apply (run_sched_rtc 1 4 crossing_sched). vm_compute. reflexivity.
  - rewrite Hp; [reflexivity| |reflexivity]. intros [|[|t]] pc E; simplify_eq/=; reflexivity.
Defined.

(** The static_assert admits a single slot, whose published sequence is the next
    position: a second push overwrites the unread message. *)
Lemma shm_ring_single_slot :
  let r1 := TryPush 0 4 [1] (InitAt 0 [[0; 0; 0; 0]]) in
  let r2 := TryPush 0 4 [2] r1.2 in
  r1.1 = true /\ r2.1 = true /\ Depth r2.2 = 2.
Proof. vm_compute. done. Qed.
