(* ===== verification/SeqRing.v ===== *)
(** * EventQueue (include/osp/hsm.hpp) and FaultRingBuffer (include/osp/fault_collector.hpp)

    One ring of numbered slots, written twice in the source with the same code: many
    producers, one consumer.  The operations are modelled one at a time, across
    all wrap-arounds of the 32-bit positions; the interleavings of this slot
    discipline are the subject of ShmRing.v. *)

From Stdlib Require Import ZArith Lia Bool.
From stdpp Require Import base numbers list option.
From S2P Require Import Prelude Queue.

Open Scope Z_scope.

Section Ring.
Context {T : Type} `{!Inhabited T}.

Record Slot := mkSlot { sequence : Z; event : T }.
#[global] Instance Slot_inhabited : Inhabited Slot := populate (mkSlot 0 inhabitant).

Record EventQueue := mkQueue { slots_ : list Slot; producer_pos_ : Z; consumer_pos_ : Z }.

(** Depth is [2 ^ k]. *)
Context (k : Z).
Definition Depth : Z := 2 ^ k.
Definition kMask : Z := Depth - 1.

Definition EventQueue_ctor : EventQueue := mkQueue ((fun i => mkSlot i inhabitant) <$> seqZ 0 Depth) 0 0.

Definition slot_at (pos : Z) (q : EventQueue) : Slot := aget (slots_ q) (Z.land pos kMask).
Definition put_slot (pos : Z) (s : Slot) (q : EventQueue) : EventQueue :=
  mkQueue (aset (slots_ q) (Z.land pos kMask) s) (producer_pos_ q) (consumer_pos_ q).

(** [None]: the slot is ahead of the position, and reloading the position does
    not change it.  The difference of the two converted values is taken as wrapping;
    in the source it overflows where the positions straddle [2 ^ 31]. *)
Definition TryPush (x : T) (q : EventQueue) : option (bool * EventQueue) :=
  let pos := producer_pos_ q in
  let seq := sequence (slot_at pos q) in
  let diff := s32 (seq - pos) in
  if diff =? 0 then
    let q := mkQueue (slots_ q) (u32 (pos + 1)) (consumer_pos_ q) in
    Some (true, put_slot pos (mkSlot (u32 (pos + 1)) x) q)
  else if diff <? 0 then Some (false, q)
  else None.

Definition TryPop (q : EventQueue) : option (T * EventQueue) :=
  let pos := consumer_pos_ q in
  let slot := slot_at pos q in
  let diff := s32 (sequence slot - u32 (pos + 1)) in
  if diff <? 0 then None
  else
    let q := put_slot pos (mkSlot (u32 (pos + Depth)) (event slot)) q in
    Some (event slot, mkQueue (slots_ q) (producer_pos_ q) (u32 (pos + 1))).

Definition Size (q : EventQueue) : Z := u32 (producer_pos_ q - consumer_pos_ q).

(** ** Correctness *)

Context (Hk : 1 <= k <= 31).

Lemma Depth_range : 2 <= Depth <= 2 ^ 31.
Proof.
  unfold Depth. split; [change 2 with (2 ^ 1) at 1|]; apply Z.pow_le_mono_r; lia.
Qed.

Lemma mask_index v : Z.land (u32 v) kMask = v mod Depth.
Proof. unfold kMask, Depth. rewrite land_mask_wrap by lia. done. Qed.

(** The ring at unbounded position [c]: the elements [l] in the next slots, the
    others free for the positions that follow. *)
Record ring_at (c : Z) (l : list T) (q : EventQueue) : Prop := {
  ra_len : Z.of_nat (length (slots_ q)) = Depth;
  ra_prod : producer_pos_ q = u32 (c + Z.of_nat (length l));
  ra_cons : consumer_pos_ q = u32 c;
  ra_room : Z.of_nat (length l) <= Depth;
  ra_full j x : l !! j = Some x -> aget (slots_ q) ((c + Z.of_nat j) mod Depth) = mkSlot (u32 (c + Z.of_nat j + 1)) x;
  ra_free j : Z.of_nat (length l) <= j < Depth -> sequence (aget (slots_ q) ((c + j) mod Depth)) = u32 (c + j)
}.

Definition ring_holds (q : EventQueue) (l : list T) : Prop := exists c, ring_at c l q.

Lemma index_range v : 0 <= v mod Depth < Depth.
Proof. pose proof Depth_range. apply Z.mod_pos_bound. lia. Qed.

Lemma index_ne v i j : i < j < i + Depth -> (v + i) mod Depth <> (v + j) mod Depth.
Proof.
  intros Hij E. pose proof Depth_range. assert (Hd : (v + j - (v + i)) mod Depth = 0) by (rewrite Zminus_mod, E, Z.sub_diag; apply Z.mod_0_l; lia).
  replace (v + j - (v + i)) with (j - i) in Hd by lia. rewrite Z.mod_small in Hd; lia.
Qed.

Lemma ring_at_start : ring_at 0 [] EventQueue_ctor.
Proof.
  pose proof Depth_range. split; simpl; try done; try lia.
  - rewrite length_fmap, length_seqZ. lia.
  - intros j Hj. rewrite Z.mod_small by lia. unfold aget. rewrite list_lookup_total_alt, list_lookup_fmap, lookup_seqZ_lt by lia.
    simpl. rewrite wrap_small by (unfold in_range; lia). lia.
Qed.

Lemma ring_push c l q x :
  ring_at c l q -> Z.of_nat (length l) < Depth -> exists q', TryPush x q = Some (true, q') /\ ring_at c (l ++ [x]) q'.
Proof.
  intros [H1 H2 H3 H4 H5 H6] Hl. pose proof Depth_range. unfold TryPush, slot_at. rewrite H2, mask_index, H6 by lia.
  rewrite Z.sub_diag, signed_small by lia. simpl. eexists. split; [done|].
  pose proof (index_range (c + Z.of_nat (length l))) as Hr. split; simpl.
  - by rewrite length_aset.
  - rewrite wrap_add_l, length_app. simpl. f_equal. lia.
  - done.
  - rewrite length_app. simpl. lia.
  - intros j y Hj. rewrite mask_index. apply lookup_app_Some in Hj as [Hj|[Hj1 Hj2]].
    + pose proof (lookup_lt_Some _ _ _ Hj). rewrite aget_aset_ne; [by apply H5|lia|apply index_range|].
      intros E. symmetry in E. revert E. apply index_ne. lia.
    + apply list_lookup_singleton_Some in Hj2 as [Hj2 <-]. replace j with (length l) by lia.
      rewrite aget_aset_eq by lia. by rewrite wrap_add_l.
  - intros j Hj. rewrite length_app in Hj. simpl in Hj. rewrite mask_index.
    rewrite aget_aset_ne; [apply H6; lia|lia|apply index_range|]. apply index_ne. lia.
Qed.

Lemma ring_push_full c l q x : ring_at c l q -> Z.of_nat (length l) = Depth -> TryPush x q = Some (false, q).
Proof.
  intros [H1 H2 H3 H4 H5 H6] Hl. pose proof Depth_range. destruct l as [|y l]; [simpl in Hl; lia|].
  unfold TryPush, slot_at. rewrite H2, mask_index, Hl.
  replace ((c + Depth) mod Depth) with ((c + Z.of_nat 0) mod Depth) by (rewrite Z.add_0_r, <- (Z.mod_add c 1 Depth) by lia; f_equal; lia).
  rewrite (H5 0%nat y) by done. simpl sequence. rewrite <- signed_wrap, wrap_sub_wrap, signed_wrap.
  replace (c + Z.of_nat 0 + 1 - (c + Depth)) with (1 - Depth) by lia. rewrite signed_small by lia.
  destruct (Z.eqb_spec (1 - Depth) 0); [lia|]. by destruct (Z.ltb_spec (1 - Depth) 0); [|lia].
Qed.

Lemma ring_pop c l q x : ring_at c (x :: l) q -> exists q', TryPop q = Some (x, q') /\ ring_at (c + 1) l q'.
Proof.
  intros [H1 H2 H3 H4 H5 H6]. pose proof Depth_range. pose proof (H5 0%nat x eq_refl) as Hx. rewrite Z.add_0_r in Hx. simpl in H4.
  unfold TryPop, slot_at. rewrite H3, mask_index, Hx. simpl. rewrite wrap_add_l, Z.sub_diag, signed_small by lia.
  simpl. eexists. split; [done|]. pose proof (index_range c) as Hr. split; simpl.
  - by rewrite length_aset.
  - rewrite H2. f_equal. simpl. lia.
  - done.
  - lia.
  - intros j y Hj. rewrite mask_index. pose proof (lookup_lt_Some _ _ _ Hj). rewrite aget_aset_ne; [|lia|apply index_range|].
    + replace (c + 1 + Z.of_nat j) with (c + Z.of_nat (S j)) by lia. by apply H5.
    + replace (c + 1 + Z.of_nat j) with (c + (1 + Z.of_nat j)) by lia. rewrite <- (Z.add_0_r c) at 1. apply index_ne. lia.
  - intros j Hj. rewrite mask_index. destruct (Z.eq_dec j (Depth - 1)) as [->|Hne].
    + replace (c + 1 + (Depth - 1)) with (c + 1 * Depth) by lia. rewrite Z.mod_add by lia. rewrite aget_aset_eq by lia. simpl.
      rewrite wrap_add_l. f_equal. lia.
    + rewrite aget_aset_ne; [|lia|apply index_range|].
      * replace (c + 1 + j) with (c + (j + 1)) by lia. apply H6. simpl. lia.
      * replace (c + 1 + j) with (c + (1 + j)) by lia. rewrite <- (Z.add_0_r c) at 1. apply index_ne. lia.
Qed.

Lemma ring_pop_empty c q : ring_at c [] q -> TryPop q = None.
Proof.
  intros [H1 H2 H3 H4 H5 H6]. pose proof Depth_range. pose proof (H6 0 ltac:(simpl; lia)) as Hx. rewrite Z.add_0_r in Hx.
  unfold TryPop, slot_at. rewrite H3, mask_index, Hx, wrap_add_l.
  rewrite <- signed_wrap, wrap_sub_wrap, signed_wrap, signed_small by lia. by destruct (Z.ltb_spec (c - (c + 1)) 0); [|lia].
Qed.

Lemma ring_size c l q : ring_at c l q -> Size q = Z.of_nat (length l).
Proof.
  intros [H1 H2 H3 H4 H5 H6]. pose proof Depth_range. unfold Size. rewrite H2, H3, wrap_sub_wrap.
  replace (c + Z.of_nat (length l) - c) with (Z.of_nat (length l)) by lia. apply wrap_small. unfold in_range. lia.
Qed.

End Ring.
Arguments Slot : clear implicits.
Arguments EventQueue : clear implicits.

(** The ring is a bounded queue. *)
#[export] Instance ring_ops {T} `{!Inhabited T} (k : Z) : QueueOps (EventQueue T) T | 100 :=
  {| q_try_push := TryPush k; q_try_pop := TryPop k; q_size := Size |}.

#[export] Instance ring_queue {T} `{!Inhabited T} (k : Z) (Hk : 1 <= k <= 31) :
  @BoundedQueue (EventQueue T) T (ring_ops k) (Depth k).
Proof.
  pose proof (Depth_range k Hk). refine {| q_holds := fun q l => ring_holds k q l |}; [lia|..].
  - intros q l [c Hr]. apply (ra_room _ _ _ _ Hr).
  - intros q l x [c Hr] Hl. destruct (ring_push k Hk c l q x Hr Hl) as (q' & E & Hr'). exists q'. split; [exact E|by exists c].
  - intros q l x [c Hr] Hl. by apply (ring_push_full k Hk c l).
  - intros q l x [c Hr]. destruct (ring_pop k Hk c l q x Hr) as (q' & E & Hr'). exists q'. split; [exact E|by exists (c + 1)].
  - intros q [c Hr]. by apply (ring_pop_empty k Hk c).
  - intros q l [c Hr]. by apply (ring_size k Hk c).
Defined.

Lemma ring_holds_start {T} `{!Inhabited T} k : 1 <= k <= 31 -> ring_holds k (@EventQueue_ctor T _ k) [].
Proof. intros Hk. exists 0. by apply ring_at_start. Qed.
