(* ===== verification/Fault.v ===== *)
(** * FaultCollector (include/osp/fault_collector.hpp)

    Fault points with hooks, four priority queues with admission control, the
    bitmap of active faults, escalation, the ring of recent faults, statistics, and
    the circuit breaker the collector drives.  The queues are used through the
    interface of Queue.v.  User callbacks work on a world [W]. *)

From Stdlib Require Import ZArith Lia Bool.
From stdpp Require Import base numbers list option gmap.
From S2P Require Import Prelude Queue SeqRing Breaker Vocabulary.

Open Scope Z_scope.

Inductive FaultPriority := kCritical | kHigh | kMedium | kLow.
#[export] Instance FaultPriority_eq_dec : EqDecision FaultPriority.
Proof. solve_decision. Defined.
Definition priority_to_Z (p : FaultPriority) : Z := match p with kCritical => 0 | kHigh => 1 | kMedium => 2 | kLow => 3 end.
Definition kPriorityLevels : Z := 4.

Inductive HookAction := aHandled | aEscalate | aDefer | aShutdown.
Inductive FaultCollectorError := kQueueFull | kInvalidIndex | kAlreadyStarted | kNotStarted | kHookSlotFull.

Record FaultEntry := mkEntry { fault_index : Z; priority : FaultPriority; detail : Z; timestamp_us : Z }.
#[export] Instance FaultEntry_inhabited : Inhabited FaultEntry := populate (mkEntry 0 kCritical 0 0).

Record FaultEvent := mkFaultEvent {
  ev_index : Z; ev_priority : FaultPriority; ev_code : Z; ev_detail : Z; ev_timestamp : Z; ev_count : Z; ev_first : bool
}.

Record FaultStatistics := mkStats {
  total_reported : Z; total_processed : Z; total_dropped : Z; priority_reported : list Z; priority_dropped : list Z
}.

(** The injection point other modules report through; without a function the
    report is dropped. *)
Definition FaultReporter (W : Type) : Type := option (Z -> Z -> FaultPriority -> W -> W).
Definition Report {W} (r : FaultReporter W) (idx det : Z) (p : FaultPriority) (w : W) : W :=
  match r with Some fn => fn idx det p w | None => w end.

Section Collector.
Context {Q W : Type} `{!QueueOps Q FaultEntry}.
(** Template parameters, and the breaker's default cool-down. *)
Context (MaxFaults QueueDepth : Z).
Definition kCooldown : Z := 100.

Definition HookFn : Type := FaultEvent -> W -> HookAction * W.
Definition OverflowFn : Type := Z -> FaultPriority -> W -> W.
Definition ShutdownFn : Type := W -> W.

Record FaultTableEntry := mkRow {
  fault_code : Z; attr : Z; err_threshold : Z; registered : bool; occurrence_count : Z; hook : option HookFn
}.
#[global] Instance FaultTableEntry_inhabited : Inhabited FaultTableEntry := populate (mkRow 0 0 1 false 0 None).

Definition kRecentRingSize : Z := 16.

Record Hooks := mkHooks { default_hook_ : option HookFn; overflow_cb_ : option OverflowFn; shutdown_fn_ : option ShutdownFn }.

Record FaultCollector := mkCollector {
  queues_ : list Q;
  table_ : list FaultTableEntry;
  active_bitmap_ : list Z;
  stats_ : FaultStatistics;
  breaker_ : Z;
  hooks_ : Hooks;
  shutdown_requested_ : bool;
  wake_sem_ : Z;
  recent_ring_ : list FaultEntry;
  recent_head_ : Z;
  recent_count_ : Z
}.

Definition kBitmapWords : Z := (MaxFaults + 63) / 64.
Definition zero_stats : FaultStatistics := mkStats 0 0 0 [0; 0; 0; 0] [0; 0; 0; 0].

Definition FaultCollector_ctor (q0 : Q) : FaultCollector :=
  mkCollector [q0; q0; q0; q0] (replicate (Z.to_nat MaxFaults) (mkRow 0 0 1 false 0 None))
    (replicate (Z.to_nat kBitmapWords) 0) zero_stats Breaker_init (mkHooks None None None) false 0
    (replicate (Z.to_nat kRecentRingSize) inhabitant) 0 0.

Definition set_table (t : list FaultTableEntry) (c : FaultCollector) : FaultCollector :=
  mkCollector (queues_ c) t (active_bitmap_ c) (stats_ c) (breaker_ c) (hooks_ c) (shutdown_requested_ c) (wake_sem_ c)
    (recent_ring_ c) (recent_head_ c) (recent_count_ c).
Definition set_queue (p : Z) (q : Q) (c : FaultCollector) : FaultCollector :=
  mkCollector (<[Z.to_nat p := q]> (queues_ c)) (table_ c) (active_bitmap_ c) (stats_ c) (breaker_ c) (hooks_ c)
    (shutdown_requested_ c) (wake_sem_ c) (recent_ring_ c) (recent_head_ c) (recent_count_ c).
Definition set_bitmap (b : list Z) (c : FaultCollector) : FaultCollector :=
  mkCollector (queues_ c) (table_ c) b (stats_ c) (breaker_ c) (hooks_ c) (shutdown_requested_ c) (wake_sem_ c)
    (recent_ring_ c) (recent_head_ c) (recent_count_ c).
Definition set_stats (st : FaultStatistics) (c : FaultCollector) : FaultCollector :=
  mkCollector (queues_ c) (table_ c) (active_bitmap_ c) st (breaker_ c) (hooks_ c) (shutdown_requested_ c) (wake_sem_ c)
    (recent_ring_ c) (recent_head_ c) (recent_count_ c).
Definition breaker_event (e : Breaker.event) (c : FaultCollector) : FaultCollector :=
  mkCollector (queues_ c) (table_ c) (active_bitmap_ c) (stats_ c) (apply_event kCooldown e (breaker_ c)) (hooks_ c)
    (shutdown_requested_ c) (wake_sem_ c) (recent_ring_ c) (recent_head_ c) (recent_count_ c).
Definition set_hooks (h : Hooks) (c : FaultCollector) : FaultCollector :=
  mkCollector (queues_ c) (table_ c) (active_bitmap_ c) (stats_ c) (breaker_ c) h (shutdown_requested_ c) (wake_sem_ c)
    (recent_ring_ c) (recent_head_ c) (recent_count_ c).
Definition request_shutdown (c : FaultCollector) : FaultCollector :=
  mkCollector (queues_ c) (table_ c) (active_bitmap_ c) (stats_ c) (breaker_ c) (hooks_ c) true (wake_sem_ c)
    (recent_ring_ c) (recent_head_ c) (recent_count_ c).
Definition Signal (c : FaultCollector) : FaultCollector :=
  mkCollector (queues_ c) (table_ c) (active_bitmap_ c) (stats_ c) (breaker_ c) (hooks_ c) (shutdown_requested_ c)
    (wake_sem_ c + 1) (recent_ring_ c) (recent_head_ c) (recent_count_ c).
Definition set_recent (ring : list FaultEntry) (head count : Z) (c : FaultCollector) : FaultCollector :=
  mkCollector (queues_ c) (table_ c) (active_bitmap_ c) (stats_ c) (breaker_ c) (hooks_ c) (shutdown_requested_ c)
    (wake_sem_ c) ring head count.

(** ** Configuration *)

Definition valid_index (idx : Z) : bool := negb (MaxFaults <=? idx).

Definition RegisterFault (idx code a threshold : Z) (c : FaultCollector) : option FaultCollectorError * FaultCollector :=
  if valid_index idx then
    let row := aget (table_ c) idx in
    (None, set_table (aset (table_ c) idx (mkRow code a threshold true (occurrence_count row) (hook row))) c)
  else (Some kInvalidIndex, c).

Definition RegisterHook (idx : Z) (h : HookFn) (c : FaultCollector) : option FaultCollectorError * FaultCollector :=
  if valid_index idx then
    let row := aget (table_ c) idx in
    if registered row then
      (None, set_table (aset (table_ c) idx
               (mkRow (fault_code row) (attr row) (err_threshold row) true (occurrence_count row) (Some h))) c)
    else (Some kInvalidIndex, c)
  else (Some kInvalidIndex, c).

Definition SetOverflowCallback (f : OverflowFn) (c : FaultCollector) : FaultCollector :=
  set_hooks (mkHooks (default_hook_ (hooks_ c)) (Some f) (shutdown_fn_ (hooks_ c))) c.
Definition SetDefaultHook (h : HookFn) (c : FaultCollector) : FaultCollector :=
  set_hooks (mkHooks (Some h) (overflow_cb_ (hooks_ c)) (shutdown_fn_ (hooks_ c))) c.
Definition SetShutdownCallback (f : option ShutdownFn) (c : FaultCollector) : FaultCollector :=
  set_hooks (mkHooks (default_hook_ (hooks_ c)) (overflow_cb_ (hooks_ c)) f) c.

(** ** The bitmap of active faults *)

Definition SetFaultActive (idx : Z) (c : FaultCollector) : FaultCollector :=
  let w := idx / 64 in let b := idx mod 64 in
  set_bitmap (aset (active_bitmap_ c) w (Z.lor (aget (active_bitmap_ c) w) (u64 (Z.shiftl 1 b)))) c.
Definition ClearFaultActive (idx : Z) (c : FaultCollector) : FaultCollector :=
  let w := idx / 64 in let b := idx mod 64 in
  set_bitmap (aset (active_bitmap_ c) w (Z.land (aget (active_bitmap_ c) w) (u64 (Z.lnot (u64 (Z.shiftl 1 b)))))) c.
Definition IsFaultActive (idx : Z) (c : FaultCollector) : bool :=
  if valid_index idx then negb (Z.land (aget (active_bitmap_ c) (idx / 64)) (u64 (Z.shiftl 1 (idx mod 64))) =? 0) else false.
Definition ClearFault (idx : Z) (c : FaultCollector) : FaultCollector :=
  if valid_index idx then ClearFaultActive idx c else c.
Definition ClearAllFaults (c : FaultCollector) : FaultCollector :=
  set_bitmap (for_loop (fun i b => aset b i 0) 0 (Z.to_nat kBitmapWords) (active_bitmap_ c)) c.

(** The number of set bits (__builtin_popcountll). *)
Definition PopCount64 (x : Z) : Z := Z.of_nat (length (filter (fun b => Z.testbit x b = true) (seqZ 0 64))).
Definition ActiveFaultCount (c : FaultCollector) : Z :=
  for_loop (fun i count => u32 (count + PopCount64 (aget (active_bitmap_ c) i))) 0 (Z.to_nat kBitmapWords) 0.

(** ** Reporting *)

Definition kLowThreshold : Z := u32 (QueueDepth * 60) / 100.
Definition kMediumThreshold : Z := u32 (QueueDepth * 80) / 100.
Definition kHighThreshold : Z := u32 (QueueDepth * 99) / 100.

Definition AdmitByPriority (p : FaultPriority) (current_depth : Z) : bool :=
  match p with
  | kCritical => true
  | kHigh => current_depth <? kHighThreshold
  | kMedium => current_depth <? kMediumThreshold
  | kLow => current_depth <? kLowThreshold
  end.

Definition queue_of (p : Z) (c : FaultCollector) : option Q := queues_ c !! Z.to_nat p.

Definition bump (l : list Z) (p : Z) : list Z := aset l p (u64 (aget l p + 1)).
Definition count_reported (p : FaultPriority) (st : FaultStatistics) : FaultStatistics :=
  mkStats (u64 (total_reported st + 1)) (total_processed st) (total_dropped st)
    (bump (priority_reported st) (priority_to_Z p)) (priority_dropped st).
Definition count_dropped (p : FaultPriority) (st : FaultStatistics) : FaultStatistics :=
  mkStats (total_reported st) (total_processed st) (u64 (total_dropped st + 1))
    (priority_reported st) (bump (priority_dropped st) (priority_to_Z p)).
Definition count_processed (st : FaultStatistics) : FaultStatistics :=
  mkStats (total_reported st) (u64 (total_processed st + 1)) (total_dropped st) (priority_reported st) (priority_dropped st).

(** The two places where a report is dropped. *)
Definition drop_report (idx : Z) (p : FaultPriority) (x : FaultCollector * W) : FaultCollector * W :=
  let '(c, w) := x in
  let c := set_stats (count_dropped p (stats_ c)) c in
  let w := match overflow_cb_ (hooks_ c) with Some f => f idx p w | None => w end in
  (breaker_event OnOverflow c, w).

Definition record_recent (e : FaultEntry) (c : FaultCollector) : FaultCollector :=
  set_recent (aset (recent_ring_ c) (recent_head_ c) e) (u32 (recent_head_ c + 1) mod kRecentRingSize)
    (if recent_count_ c <? kRecentRingSize then recent_count_ c + 1 else recent_count_ c) c.

Definition ReportFault (idx det : Z) (p : FaultPriority) (now : Z) (x : FaultCollector * W)
    : option (option FaultCollectorError * (FaultCollector * W)) :=
  let '(c, w) := x in
  if valid_index idx then
    match queue_of (priority_to_Z p) c with
    | None => None
    | Some q =>
      if negb (AdmitByPriority p (q_size q)) then Some (Some kQueueFull, drop_report idx p (c, w))
      else
        let entry := mkEntry idx p det now in
        match q_try_push entry q with
        | None => None
        | Some (false, _) => Some (Some kQueueFull, drop_report idx p (c, w))
        | Some (true, q) =>
          let c := set_queue (priority_to_Z p) q c in
          let c := set_stats (count_reported p (stats_ c)) c in
          let c := SetFaultActive idx c in
          let c := record_recent entry c in
          Some (None, (Signal c, w))
        end
    end
  else Some (Some kInvalidIndex, (c, w)).

(** ** Processing *)

(** Re-enqueue one level up; a full queue loses the entry. *)
Definition raise_priority (p : FaultPriority) : FaultPriority :=
  match p with kCritical => kCritical | kHigh => kCritical | kMedium => kHigh | kLow => kMedium end.
Definition HandleEscalation (e : FaultEntry) (c : FaultCollector) : option FaultCollector :=
  if priority_to_Z (priority e) =? 0 then Some c
  else
    let escalated := mkEntry (fault_index e) (raise_priority (priority e)) (detail e) (timestamp_us e) in
    match queue_of (priority_to_Z (priority e) - 1) c with
    | None => None
    | Some q =>
      match q_try_push escalated q with
      | None => None
      | Some (_, q) => Some (set_queue (priority_to_Z (priority e) - 1) q c)
      end
    end.

Definition ProcessEntry (e : FaultEntry) (x : FaultCollector * W) : option (FaultCollector * W) :=
  let '(c, w) := x in
  let idx := fault_index e in
  if valid_index idx then
    let row := aget (table_ c) idx in
    let prev := occurrence_count row in
    let c := set_table (aset (table_ c) idx
        (mkRow (fault_code row) (attr row) (err_threshold row) (registered row) (u32 (prev + 1)) (hook row))) c in
    let evt := mkFaultEvent idx (priority e) (fault_code row) (detail e) (timestamp_us e) (u32 (prev + 1)) (prev =? 0) in
    let '(action, w) :=
      match hook row with
      | Some h => h evt w
      | None => match default_hook_ (hooks_ c) with Some h => h evt w | None => (aHandled, w) end
      end in
    match
      match action with
      | aHandled => Some (ClearFaultActive idx c, w)
      | aEscalate => match HandleEscalation e c with Some c => Some (c, w) | None => None end
      | aDefer => Some (c, w)
      | aShutdown =>
        let c := request_shutdown c in
        let w := match shutdown_fn_ (hooks_ c) with Some f => f w | None => w end in
        Some (Signal c, w)
      end
    with
    | Some (c, w) => Some (set_stats (count_processed (stats_ c)) c, w)
    | None => None
    end
  else Some (c, w).

(** while (TryPop) ProcessEntry, with fuel. *)
Fixpoint DrainQueue (fuel : nat) (p : Z) (count : Z) (x : FaultCollector * W) : option (Z * (FaultCollector * W)) :=
  match fuel with
  | O => None
  | S fuel =>
    match queue_of p x.1 with
    | None => None
    | Some q =>
      match q_try_pop q with
      | None => Some (count, x)
      | Some (e, q) =>
        match ProcessEntry e (set_queue p q x.1, x.2) with
        | Some x => DrainQueue fuel p (u32 (count + 1)) x
        | None => None
        end
      end
    end
  end.
Definition drain_fuel : nat := S (Z.to_nat QueueDepth).

Fixpoint drain_from (n : nat) (p total : Z) (x : FaultCollector * W) : option (Z * (FaultCollector * W)) :=
  match n with
  | O => Some (total, x)
  | S n =>
    match DrainQueue drain_fuel p 0 x with
    | Some (k, x) => drain_from n (p + 1) (u32 (total + k)) x
    | None => None
    end
  end.
Definition ProcessBatch (x : FaultCollector * W) : option (Z * (FaultCollector * W)) := drain_from 4 0 0 x.
Definition DrainAll (x : FaultCollector * W) : option (FaultCollector * W) :=
  match drain_from 4 0 0 x with Some (_, x) => Some x | None => None end.

(** ** Queries *)

Definition size_at (p : Z) (c : FaultCollector) : Z := match queue_of p c with Some q => q_size q | None => 0 end.
Definition QueueDepthCurrent (c : FaultCollector) : Z := for_loop (fun i total => u32 (total + size_at i c)) 0 4 0.
Definition GetBackpressureLevel (c : FaultCollector) : BackpressureLevel :=
  let max_usage := for_loop (fun i m => if m <? size_at i c then size_at i c else m) 0 4 0 in
  if kHighThreshold <=? max_usage then bpFull
  else if kMediumThreshold <=? max_usage then bpCritical
  else if kLowThreshold <=? max_usage then bpWarning
  else bpNormal.
Definition GetStatistics (c : FaultCollector) : FaultStatistics := stats_ c.
Definition ResetStatistics (c : FaultCollector) : FaultCollector := set_stats zero_stats c.
Definition QueueUsage (p : FaultPriority) (c : FaultCollector) : Z * Z := (size_at (priority_to_Z p) c, QueueDepth).
Definition IsShutdownRequested (c : FaultCollector) : bool := shutdown_requested_ c.
Definition GetBreakerLevel (c : FaultCollector) : BreakerLevel := Level (breaker_ c).

(** ForEachRecent: the records handed to the callback, which stops it with [false]. *)
Fixpoint recent_loop (fn : FaultEntry -> bool) (n : nat) (i : Z) (c : FaultCollector) : list FaultEntry :=
  match n with
  | O => []
  | S n =>
    let e := aget (recent_ring_ c) (u32 (recent_head_ c + kRecentRingSize - 1 - i) mod kRecentRingSize) in
    e :: (if fn e then recent_loop fn n (i + 1) c else [])
  end.
Definition ForEachRecent (fn : FaultEntry -> bool) (max_count : Z) (c : FaultCollector) : list FaultEntry :=
  let n := if recent_count_ c <? max_count then recent_count_ c else max_count in
  recent_loop fn (Z.to_nat n) 0 c.

(** One round of ConsumerLoop: a batch, then the breaker's cycle and watermark. *)
Definition consumer_cycle (x : FaultCollector * W) : option (Z * (FaultCollector * W)) :=
  match ProcessBatch x with
  | None => None
  | Some (n, (c, w)) =>
    let c := breaker_event OnDispatchCycle c in
    let usage := QueueDepthCurrent c in
    Some (n, (breaker_event (OnWatermark (u8 (u32 (usage * 100) / u32 (QueueDepth * 4)))) c, w))
  end.

End Collector.
Arguments FaultCollector : clear implicits.
Arguments HookFn : clear implicits.
Arguments OverflowFn : clear implicits.
Arguments ShutdownFn : clear implicits.
Arguments FaultTableEntry : clear implicits.
Arguments Hooks : clear implicits.

(** ** The specification *)

Section Spec.
Context {W : Type} (MaxFaults QueueDepth : Z).

(** What the statistics count: the reports that entered a queue and those that did not,
    in order, and the number of entries processed, since the last reset. *)
Record Counted := mkCounted { reports : list FaultPriority; drops : list FaultPriority; done_ : nat }.
Definition of_priority (p : FaultPriority) (l : list FaultPriority) : Z := u64 (Z.of_nat (length (filter (fun q => q = p) l))).
Definition statistics (k : Counted) : FaultStatistics :=
  let by_priority l := [of_priority kCritical l; of_priority kHigh l; of_priority kMedium l; of_priority kLow l] in
  mkStats (u64 (Z.of_nat (length (reports k)))) (u64 (Z.of_nat (done_ k))) (u64 (Z.of_nat (length (drops k)))) (by_priority (reports k)) (by_priority (drops k)).
Definition nothing : Counted := mkCounted [] [] 0.

(** Four first-in first-out lists, the set of active faults, the newest sixteen
    reports, the fault table, what the statistics count, and the breaker. *)
Record FSpec := mkF {
  f_queues : list (list FaultEntry);
  f_table : list (FaultTableEntry W);
  f_active : gset Z;
  f_stats : Counted;
  f_breaker : Z;
  f_hooks : Hooks W;
  f_shutdown : bool;
  f_wakes : Z;
  f_recent : list FaultEntry
}.

Definition spec_ctor : FSpec :=
  mkF [[]; []; []; []] (replicate (Z.to_nat MaxFaults) (mkRow 0 0 1 false 0 None)) ∅ nothing Breaker_init
    (mkHooks None None None) false 0 [].

Definition f_set_queue (p : nat) (l : list FaultEntry) (s : FSpec) : FSpec :=
  mkF (<[p := l]> (f_queues s)) (f_table s) (f_active s) (f_stats s) (f_breaker s) (f_hooks s) (f_shutdown s) (f_wakes s) (f_recent s).
Definition f_set_table (t : list (FaultTableEntry W)) (s : FSpec) : FSpec :=
  mkF (f_queues s) t (f_active s) (f_stats s) (f_breaker s) (f_hooks s) (f_shutdown s) (f_wakes s) (f_recent s).
Definition f_set_active (a : gset Z) (s : FSpec) : FSpec :=
  mkF (f_queues s) (f_table s) a (f_stats s) (f_breaker s) (f_hooks s) (f_shutdown s) (f_wakes s) (f_recent s).
Definition f_set_stats (k : Counted) (s : FSpec) : FSpec :=
  mkF (f_queues s) (f_table s) (f_active s) k (f_breaker s) (f_hooks s) (f_shutdown s) (f_wakes s) (f_recent s).
Definition f_event (e : Breaker.event) (s : FSpec) : FSpec :=
  mkF (f_queues s) (f_table s) (f_active s) (f_stats s) (apply_event 100 e (f_breaker s)) (f_hooks s) (f_shutdown s)
    (f_wakes s) (f_recent s).
Definition f_set_hooks (h : Hooks W) (s : FSpec) : FSpec :=
  mkF (f_queues s) (f_table s) (f_active s) (f_stats s) (f_breaker s) h (f_shutdown s) (f_wakes s) (f_recent s).
Definition f_signal (s : FSpec) : FSpec :=
  mkF (f_queues s) (f_table s) (f_active s) (f_stats s) (f_breaker s) (f_hooks s) (f_shutdown s) (f_wakes s + 1) (f_recent s).
Definition f_stop (s : FSpec) : FSpec :=
  mkF (f_queues s) (f_table s) (f_active s) (f_stats s) (f_breaker s) (f_hooks s) true (f_wakes s) (f_recent s).
Definition f_record (e : FaultEntry) (s : FSpec) : FSpec :=
  mkF (f_queues s) (f_table s) (f_active s) (f_stats s) (f_breaker s) (f_hooks s) (f_shutdown s) (f_wakes s) (take 16 (e :: f_recent s)).

(** The queues, the most urgent first. *)
Definition p_index (p : FaultPriority) : nat := match p with kCritical => 0 | kHigh => 1 | kMedium => 2 | kLow => 3 end.
Definition urgency (i : nat) : FaultPriority := nth i [kCritical; kHigh; kMedium; kLow] kLow.
Definition f_reported (p : FaultPriority) (s : FSpec) : FSpec := f_set_stats (mkCounted (reports (f_stats s) ++ [p]) (drops (f_stats s)) (done_ (f_stats s))) s.
Definition f_dropped (p : FaultPriority) (s : FSpec) : FSpec := f_set_stats (mkCounted (reports (f_stats s)) (drops (f_stats s) ++ [p]) (done_ (f_stats s))) s.
Definition f_processed (s : FSpec) : FSpec := f_set_stats (mkCounted (reports (f_stats s)) (drops (f_stats s)) (S (done_ (f_stats s)))) s.
Definition f_queue (p : nat) (s : FSpec) : list FaultEntry := default [] (f_queues s !! p).

(** How many entries a queue may hold for a report of that priority to enter. *)
Definition limit (p : FaultPriority) : Z :=
  match p with
  | kCritical => QueueDepth
  | kHigh => QueueDepth * 99 / 100
  | kMedium => QueueDepth * 80 / 100
  | kLow => QueueDepth * 60 / 100
  end.

Definition spec_report (idx det : Z) (p : FaultPriority) (now : Z) (x : FSpec * W) : option FaultCollectorError * (FSpec * W) :=
  let '(s, w) := x in
  if MaxFaults <=? idx then (Some kInvalidIndex, x)
  else if Z.of_nat (length (f_queue (p_index p) s)) <? limit p then
    let e := mkEntry idx p det now in
    let s := f_set_queue (p_index p) (f_queue (p_index p) s ++ [e]) s in
    let s := f_set_active ({[idx]} ∪ f_active s) (f_reported p s) in
    (None, (f_signal (f_record e s), w))
  else
    let w := match overflow_cb_ (f_hooks s) with Some f => f idx p w | None => w end in
    (Some kQueueFull, (f_event OnOverflow (f_dropped p s), w)).

(** An escalated fault moves to the next queue up if that has room at all. *)
Definition spec_escalate (e : FaultEntry) (s : FSpec) : FSpec :=
  match p_index (priority e) with
  | O => s
  | S p =>
    if Z.of_nat (length (f_queue p s)) <? QueueDepth then
      f_set_queue p (f_queue p s ++ [mkEntry (fault_index e) (urgency p) (detail e) (timestamp_us e)]) s
    else s
  end.

Definition spec_process (e : FaultEntry) (x : FSpec * W) : FSpec * W :=
  let '(s, w) := x in
  let row := aget (f_table s) (fault_index e) in
  let n := u32 (occurrence_count row + 1) in
  let s := f_set_table (aset (f_table s) (fault_index e)
      (mkRow (fault_code row) (attr row) (err_threshold row) (registered row) n (hook row))) s in
  let evt := mkFaultEvent (fault_index e) (priority e) (fault_code row) (detail e) (timestamp_us e) n (occurrence_count row =? 0) in
  let '(action, w) :=
    match hook row, default_hook_ (f_hooks s) with
    | Some h, _ => h evt w
    | None, Some h => h evt w
    | None, None => (aHandled, w)
    end in
  let '(s, w) :=
    match action with
    | aHandled => (f_set_active (f_active s ∖ {[fault_index e]}) s, w)
    | aEscalate => (spec_escalate e s, w)
    | aDefer => (s, w)
    | aShutdown => (f_signal (f_stop s), match shutdown_fn_ (f_hooks s) with Some f => f w | None => w end)
    end in
  (f_processed s, w).

(** The entries [l] of queue [p], in order. *)
Fixpoint spec_drain (p : nat) (l : list FaultEntry) (x : FSpec * W) : FSpec * W :=
  match l with
  | [] => x
  | e :: l => spec_drain p l (spec_process e (f_set_queue p l x.1, x.2))
  end.
Definition spec_drain_queue (p : nat) (x : FSpec * W) : FSpec * W := spec_drain p (f_queue p x.1) x.

(** The queues from critical to low. *)
Definition spec_batch (x : FSpec * W) : Z * (FSpec * W) :=
  foldl (fun acc p => (acc.1 + Z.of_nat (length (f_queue p acc.2.1)), spec_drain_queue p acc.2)) (0, x) [0; 1; 2; 3]%nat.

Definition spec_depth (s : FSpec) : Z := Z.of_nat (length (mjoin (f_queues s))).
Definition spec_cycle (x : FSpec * W) : Z * (FSpec * W) :=
  let '(n, (s, w)) := spec_batch x in
  let s := f_event OnDispatchCycle s in
  (n, (f_event (OnWatermark (spec_depth s * 100 / (QueueDepth * 4))) s, w)).

End Spec.
Arguments FSpec : clear implicits.

(** ** Runs *)

Inductive FaultOp (W : Type) :=
| FRegister (idx code a threshold : Z)
| FHook (idx : Z) (h : HookFn W)
| FDefaultHook (h : HookFn W)
| FOverflow (f : OverflowFn W)
| FOnShutdown (f : option (ShutdownFn W))
| FReport (idx det : Z) (p : FaultPriority) (now : Z)
| FCycle
| FDrainAll
| FActiveCount
| FIsActive (idx : Z)
| FClear (idx : Z)
| FClearAll
| FStats
| FResetStats
| FDepth
| FBackpressure
| FUsage (p : FaultPriority)
| FRecent (fn : FaultEntry -> bool) (max_count : Z)
| FBreakerLevel
| FShutdownRequested.
Arguments FRegister {W}. Arguments FHook {W}. Arguments FDefaultHook {W}. Arguments FOverflow {W}. Arguments FOnShutdown {W}.
Arguments FReport {W}. Arguments FCycle {W}. Arguments FDrainAll {W}. Arguments FActiveCount {W}. Arguments FIsActive {W}.
Arguments FClear {W}. Arguments FClearAll {W}. Arguments FStats {W}. Arguments FResetStats {W}. Arguments FDepth {W}.
Arguments FBackpressure {W}. Arguments FUsage {W}. Arguments FRecent {W}. Arguments FBreakerLevel {W}. Arguments FShutdownRequested {W}.

Inductive FaultRes :=
| FROk | FRError (e : option FaultCollectorError) | FRNum (n : Z) | FRBool (b : bool) | FRStats (s : FaultStatistics)
| FRLevel (l : BackpressureLevel) | FRUsage (n cap : Z) | FRRecent (l : list FaultEntry) | FRBreaker (l : BreakerLevel).

(** Fault indices are unsigned. *)
Definition op_typed {W} (o : FaultOp W) : Prop :=
  match o with
  | FRegister idx _ _ _ | FHook idx _ | FReport idx _ _ _ | FIsActive idx | FClear idx => 0 <= idx
  | FRecent _ n => 0 <= n
  | _ => True
  end.

Section Ops.
Context {Q W : Type} `{!QueueOps Q FaultEntry} (MaxFaults QueueDepth : Z).

Definition fault_op (o : FaultOp W) (x : FaultCollector Q W * W) : option (FaultRes * (FaultCollector Q W * W)) :=
  let '(c, w) := x in
  match o with
  | FRegister idx code a t => let '(r, c) := RegisterFault MaxFaults idx code a t c in Some (FRError r, (c, w))
  | FHook idx h => let '(r, c) := RegisterHook MaxFaults idx h c in Some (FRError r, (c, w))
  | FDefaultHook h => Some (FROk, (SetDefaultHook h c, w))
  | FOverflow f => Some (FROk, (SetOverflowCallback f c, w))
  | FOnShutdown f => Some (FROk, (SetShutdownCallback f c, w))
  | FReport idx det p now => match ReportFault MaxFaults QueueDepth idx det p now x with Some (r, x) => Some (FRError r, x) | None => None end
  | FCycle => match consumer_cycle MaxFaults QueueDepth x with Some (n, x) => Some (FRNum n, x) | None => None end
  | FDrainAll => match DrainAll MaxFaults QueueDepth x with Some x => Some (FROk, x) | None => None end
  | FActiveCount => Some (FRNum (ActiveFaultCount MaxFaults c), x)
  | FIsActive idx => Some (FRBool (IsFaultActive MaxFaults idx c), x)
  | FClear idx => Some (FROk, (ClearFault MaxFaults idx c, w))
  | FClearAll => Some (FROk, (ClearAllFaults MaxFaults c, w))
  | FStats => Some (FRStats (GetStatistics c), x)
  | FResetStats => Some (FROk, (ResetStatistics c, w))
  | FDepth => Some (FRNum (QueueDepthCurrent c), x)
  | FBackpressure => Some (FRLevel (GetBackpressureLevel QueueDepth c), x)
  | FUsage p => let '(n, cap) := QueueUsage QueueDepth p c in Some (FRUsage n cap, x)
  | FRecent fn n => Some (FRRecent (ForEachRecent fn n c), x)
  | FBreakerLevel => Some (FRBreaker (GetBreakerLevel c), x)
  | FShutdownRequested => Some (FRBool (IsShutdownRequested c), x)
  end.

Fixpoint fault_run (ops : list (FaultOp W)) (x : FaultCollector Q W * W) : option (list FaultRes * (FaultCollector Q W * W)) :=
  match ops with
  | [] => Some ([], x)
  | o :: ops =>
    match fault_op o x with
    | None => None
    | Some (r, x) => match fault_run ops x with Some (rs, x) => Some (r :: rs, x) | None => None end
    end
  end.

(** The callback sees the newest reports until it says stop. *)
Fixpoint visit (fn : FaultEntry -> bool) (l : list FaultEntry) : list FaultEntry :=
  match l with [] => [] | e :: l => e :: (if fn e then visit fn l else []) end.

Definition spec_level (s : FSpec W) : BackpressureLevel :=
  let m := foldr Z.max 0 ((fun l => Z.of_nat (length l)) <$> f_queues s) in
  if QueueDepth * 99 / 100 <=? m then bpFull
  else if QueueDepth * 80 / 100 <=? m then bpCritical
  else if QueueDepth * 60 / 100 <=? m then bpWarning
  else bpNormal.

Definition spec_fault_op (o : FaultOp W) (x : FSpec W * W) : FaultRes * (FSpec W * W) :=
  let '(s, w) := x in
  match o with
  | FRegister idx code a t =>
    if idx <? MaxFaults then
      let row := aget (f_table s) idx in
      (FRError None, (f_set_table (aset (f_table s) idx (mkRow code a t true (occurrence_count row) (hook row))) s, w))
    else (FRError (Some kInvalidIndex), x)
  | FHook idx h =>
    let row := aget (f_table s) idx in
    if (idx <? MaxFaults) && registered row then
      (FRError None, (f_set_table (aset (f_table s) idx
         (mkRow (fault_code row) (attr row) (err_threshold row) true (occurrence_count row) (Some h))) s, w))
    else (FRError (Some kInvalidIndex), x)
  | FDefaultHook h => (FROk, (f_set_hooks (mkHooks (Some h) (overflow_cb_ (f_hooks s)) (shutdown_fn_ (f_hooks s))) s, w))
  | FOverflow f => (FROk, (f_set_hooks (mkHooks (default_hook_ (f_hooks s)) (Some f) (shutdown_fn_ (f_hooks s))) s, w))
  | FOnShutdown f => (FROk, (f_set_hooks (mkHooks (default_hook_ (f_hooks s)) (overflow_cb_ (f_hooks s)) f) s, w))
  | FReport idx det p now => let '(r, x) := spec_report MaxFaults QueueDepth idx det p now x in (FRError r, x)
  | FCycle => let '(n, x) := spec_cycle QueueDepth x in (FRNum (u32 n), x)
  | FDrainAll => (FROk, (spec_batch QueueDepth x).2)
  | FActiveCount => (FRNum (Z.of_nat (size (f_active s))), x)
  | FIsActive idx => (FRBool (bool_decide (idx < MaxFaults /\ idx ∈ f_active s)), x)
  | FClear idx => (FROk, (if idx <? MaxFaults then f_set_active (f_active s ∖ {[idx]}) s else s, w))
  | FClearAll => (FROk, (f_set_active ∅ s, w))
  | FStats => (FRStats (statistics (f_stats s)), x)
  | FResetStats => (FROk, (f_set_stats nothing s, w))
  | FDepth => (FRNum (spec_depth s), x)
  | FBackpressure => (FRLevel (spec_level s), x)
  | FUsage p => (FRUsage (Z.of_nat (length (f_queue (p_index p) s))) QueueDepth, x)
  | FRecent fn n => (FRRecent (visit fn (take (Z.to_nat n) (f_recent s))), x)
  | FBreakerLevel => (FRBreaker (Level (f_breaker s)), x)
  | FShutdownRequested => (FRBool (f_shutdown s), x)
  end.

Fixpoint spec_fault_run (ops : list (FaultOp W)) (x : FSpec W * W) : list FaultRes * (FSpec W * W) :=
  match ops with
  | [] => ([], x)
  | o :: ops => let '(r, x) := spec_fault_op o x in let '(rs, x) := spec_fault_run ops x in (r :: rs, x)
  end.

End Ops.

(** ** The bitmap *)

Section Bitmap.
Context (n : Z) (Hn : 0 <= n).

Definition bit (words : list Z) (i : Z) : bool := Z.testbit (aget words (i / 64)) (i mod 64).

Record bits_ok (words : list Z) (a : gset Z) : Prop := {
  bo_len : Z.of_nat (length words) = n;
  bo_range : Forall (in_range 64) words;
  bo_elem i : i ∈ a <-> 0 <= i < 64 * n /\ bit words i = true
}.

Lemma word_range words a j : bits_ok words a -> 0 <= j < n -> in_range 64 (aget words j).
Proof.
  intros [H1 H2 _] Hj. rewrite Forall_forall in H2. apply H2, list_elem_of_lookup_total_2. lia.
Qed.

Lemma split_index i : 0 <= i < 64 * n -> 0 <= i / 64 < n /\ 0 <= i mod 64 < 64.
Proof.
  intros Hi. split; [|apply Z.mod_pos_bound; lia]. split; [apply Z.div_pos; lia|]. apply Z.div_lt_upper_bound; lia.
Qed.

Lemma same_index i j : i / 64 = j / 64 -> i mod 64 = j mod 64 -> i = j.
Proof. intros H1 H2. rewrite (Z.div_mod i 64), (Z.div_mod j 64) by lia. by rewrite H1, H2. Qed.

(** Replacing the word of fault [i]. *)
Lemma bits_write words a a' i x :
  bits_ok words a -> 0 <= i < 64 * n -> in_range 64 x ->
  (forall j, 0 <= j < 64 * n -> j ∈ a' <-> (if j / 64 =? i / 64 then Z.testbit x (j mod 64) = true else j ∈ a)) ->
  (forall j, j ∈ a' -> 0 <= j < 64 * n) -> bits_ok (aset words (i / 64) x) a'.
Proof.
  intros [H1 H2 H3] Hi Hx Ha Hr. destruct (split_index i Hi) as [Hw _]. split; [by rewrite length_aset|by apply Forall_insert|].
  intros j. split.
  - intros Hj. pose proof (Hr j Hj) as Hjr. split; [done|]. apply (Ha j Hjr) in Hj. unfold bit.
    destruct (Z.eqb_spec (j / 64) (i / 64)) as [E|E]; [by rewrite E, aget_aset_eq by lia|].
    rewrite aget_aset_ne by (try lia; apply Z.div_pos; lia). by apply H3.
  - intros [Hjr Hj]. apply (Ha j Hjr). unfold bit in Hj.
    destruct (Z.eqb_spec (j / 64) (i / 64)) as [E|E]; [by rewrite E, aget_aset_eq in Hj by lia|].
    rewrite aget_aset_ne in Hj by (try lia; apply Z.div_pos; lia). by apply H3.
Qed.

Lemma bits_set words a i :
  bits_ok words a -> 0 <= i < 64 * n ->
  bits_ok (aset words (i / 64) (Z.lor (aget words (i / 64)) (u64 (Z.shiftl 1 (i mod 64))))) ({[i]} ∪ a).
Proof.
  intros Hb Hi. destruct (split_index i Hi) as [Hw Hm]. destruct (hold_bit _ (i mod 64) (word_range _ _ _ Hb Hw) Hm) as [-> Hx].
  apply (bits_write _ a); try done.
  - intros j Hj. rewrite elem_of_union, elem_of_singleton. destruct (Z.eqb_spec (j / 64) (i / 64)) as [E|E].
    + rewrite Z.setbit_eqb, orb_true_iff, Z.eqb_eq by lia. rewrite (bo_elem _ _ Hb j). unfold bit. rewrite E.
      split; [intros [->|[_ ?]]; [by left|by right]|intros [Em|?]; [left; by apply same_index|by right]].
    + split; [intros [->|?]; done|by right].
  - intros j [->%elem_of_singleton|Hj]%elem_of_union; [done|]. by apply (bo_elem _ _ Hb).
Qed.

Lemma bits_clear words a i :
  bits_ok words a -> 0 <= i < 64 * n ->
  bits_ok (aset words (i / 64) (Z.land (aget words (i / 64)) (u64 (Z.lnot (u64 (Z.shiftl 1 (i mod 64))))))) (a ∖ {[i]}).
Proof.
  intros Hb Hi. destruct (split_index i Hi) as [Hw Hm]. destruct (unhold_bit _ (i mod 64) (word_range _ _ _ Hb Hw) Hm) as [-> Hx].
  apply (bits_write _ a); try done.
  - intros j Hj. rewrite elem_of_difference, elem_of_singleton. destruct (Z.eqb_spec (j / 64) (i / 64)) as [E|E].
    + rewrite Z.clearbit_eqb, andb_true_iff, negb_true_iff, Z.eqb_neq by lia. rewrite (bo_elem _ _ Hb j). unfold bit. rewrite E.
      split; [intros [ [_ ?] Hne]; split; [done|]; intros Em; by apply Hne, same_index|intros [? Hne]; split; [done|by intros ->]].
    + split; [by intros [? _]|]. intros Hj'. split; [done|]. by intros ->.
  - intros j [Hj _]%elem_of_difference. by apply (bo_elem _ _ Hb).
Qed.

Lemma bits_test words a i :
  bits_ok words a -> 0 <= i < 64 * n ->
  negb (Z.land (aget words (i / 64)) (u64 (Z.shiftl 1 (i mod 64))) =? 0) = bool_decide (i ∈ a).
Proof.
  intros Hb Hi. destruct (split_index i Hi) as [Hw Hm]. rewrite mask_bit, negb_involutive by done. symmetry.
  change (bool_decide (i ∈ a) = bit words i). destruct (bit words i) eqn:E.
  - apply bool_decide_eq_true. by apply (bo_elem _ _ Hb).
  - apply bool_decide_eq_false. intros [_ Hi2]%(bo_elem _ _ Hb). congruence.
Qed.

Lemma bits_empty : bits_ok (replicate (Z.to_nat n) 0) ∅.
Proof.
  split; [rewrite length_replicate; lia|by apply Forall_replicate|]. intros i. split; [set_solver|]. intros [Hi Hb].
  destruct (split_index i Hi) as [Hw _]. unfold bit in Hb. rewrite aget_replicate, Z.bits_0 in Hb by lia. done.
Qed.

(** Counting word by word. *)
Lemma popcount_words words (m : nat) :
  Z.of_nat (length (filter (fun i => bit words i = true) (seqZ (64 * Z.of_nat m) 64))) = PopCount64 (aget words (Z.of_nat m)).
Proof.
  unfold PopCount64. replace (seqZ (64 * Z.of_nat m) 64) with (Z.add (64 * Z.of_nat m) <$> seqZ 0 64) by (rewrite fmap_add_seqZ; f_equal; lia).
  rewrite length_filter_fmap. f_equal. f_equal. apply filter_ext_elem. intros b Hb. apply elem_of_seqZ in Hb. simpl. unfold bit.
  replace ((64 * Z.of_nat m + b) / 64) with (Z.of_nat m) by (rewrite Z.mul_comm, Z.div_add_l, (Z.div_small b) by lia; lia).
  replace ((64 * Z.of_nat m + b) mod 64) with b by (rewrite Z.mul_comm, Z.add_comm, Z.mod_add, Z.mod_small by lia; done).
  done.
Qed.

Lemma count_words words (m : nat) :
  64 * Z.of_nat m < 2 ^ 32 ->
  for_loop (fun i count => u32 (count + PopCount64 (aget words i))) 0 m 0 =
    Z.of_nat (length (filter (fun i => bit words i = true) (seqZ 0 (64 * Z.of_nat m)))).
Proof.
  induction m as [|m IH]; intros Hm; [done|]. rewrite for_loop_snoc, IH by lia. rewrite Z.add_0_l, <- popcount_words.
  replace (64 * Z.of_nat (S m)) with (64 * Z.of_nat m + 64) by lia. rewrite seqZ_app by lia. rewrite Z.add_0_l, filter_app, length_app.
  rewrite wrap_small; [lia|]. pose proof (length_filter (fun i => bit words i = true) (seqZ 0 (64 * Z.of_nat m))) as H1.
  pose proof (length_filter (fun i => bit words i = true) (seqZ (64 * Z.of_nat m) 64)) as H2. rewrite length_seqZ in H1, H2. unfold in_range. lia.
Qed.

Lemma bits_size words a :
  bits_ok words a -> Z.of_nat (length (filter (fun i => bit words i = true) (seqZ 0 (64 * n)))) = Z.of_nat (size a).
Proof.
  intros Hb. assert (Ea : a = list_to_set (filter (fun i => bit words i = true) (seqZ 0 (64 * n)))).
  { apply set_eq. intros i. rewrite elem_of_list_to_set, list_elem_of_filter, elem_of_seqZ, (bo_elem _ _ Hb). simpl. intuition. }
  rewrite Ea at 1. rewrite size_list_to_set; [done|]. apply NoDup_filter, NoDup_seqZ.
Qed.

End Bitmap.

(** ** The refinement *)

Section Refinement.
Context {Q W : Type} `{!QueueOps Q FaultEntry} (MaxFaults QueueDepth : Z) `{!BoundedQueue Q FaultEntry QueueDepth}.
Context (HF : 1 <= MaxFaults <= 256) (HQ : 1 <= QueueDepth <= 2 ^ 23).

(** What is queued at level [i]. *)
Definition entry_ok (i : nat) (e : FaultEntry) : Prop := p_index (priority e) = i /\ 0 <= fault_index e < MaxFaults.

Record recent_ok (ring : list FaultEntry) (head count : Z) (l : list FaultEntry) : Prop := {
  ro_len : Z.of_nat (length ring) = kRecentRingSize;
  ro_head : 0 <= head < kRecentRingSize;
  ro_count : count = Z.of_nat (length l);
  ro_max : (length l <= 16)%nat;
  ro_at i e : l !! i = Some e -> aget ring ((head + 15 - Z.of_nat i) mod 16) = e
}.

Record fr (c : FaultCollector Q W) (s : FSpec W) : Prop := {
  fr_queues : Forall2 q_holds (queues_ c) (f_queues s);
  fr_four : length (f_queues s) = 4%nat;
  fr_entries i l : f_queues s !! i = Some l -> Forall (entry_ok i) l;
  fr_table : table_ c = f_table s;
  fr_rows : Z.of_nat (length (f_table s)) = MaxFaults;
  fr_bits : bits_ok (kBitmapWords MaxFaults) (active_bitmap_ c) (f_active s);
  fr_stats : stats_ c = statistics (f_stats s);
  fr_breaker : breaker_ c = f_breaker s;
  fr_hooks : hooks_ c = f_hooks s;
  fr_shutdown : shutdown_requested_ c = f_shutdown s;
  fr_wakes : wake_sem_ c = f_wakes s;
  fr_recent : recent_ok (recent_ring_ c) (recent_head_ c) (recent_count_ c) (f_recent s)
}.

Ltac same_parts := intros [? ? ? ? ? ? ? ? ? ? ? ?]; split; simpl; (done || congruence || eauto).

Lemma fr_set_table t c s : fr c s -> Z.of_nat (length t) = MaxFaults -> fr (set_table t c) (f_set_table t s).
Proof. same_parts. Qed.
Lemma fr_set_stats k c s : fr c s -> fr (set_stats (statistics k) c) (f_set_stats k s).
Proof. same_parts. Qed.

(** The counters of the code count. *)
Lemma counted (l : list FaultPriority) p : length (filter (fun q => q = p) (l ++ [p])) = S (length (filter (fun q => q = p) l)).
Proof. rewrite filter_app, length_app, filter_cons_True by done. cbn. lia. Qed.
Lemma not_counted (l : list FaultPriority) p p' : p <> p' -> filter (fun q => q = p') (l ++ [p]) = filter (fun q => q = p') l.
Proof. intros. rewrite filter_app, filter_cons_False by done. apply app_nil_r. Qed.
Lemma u64_succ n : u64 (u64 (Z.of_nat n) + 1) = u64 (Z.of_nat (S n)).
Proof. rewrite wrap_add_l. f_equal. lia. Qed.
Lemma bump_spec l p : bump [of_priority kCritical l; of_priority kHigh l; of_priority kMedium l; of_priority kLow l] (priority_to_Z p) =
  [of_priority kCritical (l ++ [p]); of_priority kHigh (l ++ [p]); of_priority kMedium (l ++ [p]); of_priority kLow (l ++ [p])].
Proof. unfold of_priority. destruct p; rewrite counted, !not_counted by done; rewrite <- u64_succ; done. Qed.
Lemma fr_reported p c s : fr c s -> fr (set_stats (count_reported p (stats_ c)) c) (f_reported p s).
Proof.
  intros Hf. rewrite (fr_stats _ _ Hf). assert (E : count_reported p (statistics (f_stats s)) = statistics (mkCounted (reports (f_stats s) ++ [p]) (drops (f_stats s)) (done_ (f_stats s)))).
  { unfold count_reported, statistics. cbn [total_reported total_processed total_dropped priority_reported priority_dropped reports drops done_]. rewrite bump_spec, u64_succ, length_app. cbn [length]. by rewrite Nat.add_1_r. }
  rewrite E. by apply fr_set_stats.
Qed.
Lemma fr_dropped p c s : fr c s -> fr (set_stats (count_dropped p (stats_ c)) c) (f_dropped p s).
Proof.
  intros Hf. rewrite (fr_stats _ _ Hf). assert (E : count_dropped p (statistics (f_stats s)) = statistics (mkCounted (reports (f_stats s)) (drops (f_stats s) ++ [p]) (done_ (f_stats s)))).
  { unfold count_dropped, statistics. cbn [total_reported total_processed total_dropped priority_reported priority_dropped reports drops done_]. rewrite bump_spec, u64_succ, length_app. cbn [length]. by rewrite Nat.add_1_r. }
  rewrite E. by apply fr_set_stats.
Qed.
Lemma fr_processed c s : fr c s -> fr (set_stats (count_processed (stats_ c)) c) (f_processed s).
Proof.
  intros Hf. rewrite (fr_stats _ _ Hf). assert (E : count_processed (statistics (f_stats s)) = statistics (mkCounted (reports (f_stats s)) (drops (f_stats s)) (S (done_ (f_stats s))))).
  { unfold count_processed, statistics. cbn [total_reported total_processed total_dropped priority_reported priority_dropped reports drops done_]. by rewrite u64_succ. }
  rewrite E. by apply fr_set_stats.
Qed.
Lemma fr_set_hooks h c s : fr c s -> fr (set_hooks h c) (f_set_hooks h s).
Proof. same_parts. Qed.
Lemma fr_signal c s : fr c s -> fr (Signal c) (f_signal s).
Proof. same_parts. Qed.
Lemma fr_stop c s : fr c s -> fr (request_shutdown c) (f_stop s).
Proof. same_parts. Qed.
Lemma fr_event e c s : fr c s -> fr (breaker_event e c) (f_event e s).
Proof. unfold breaker_event, f_event, kCooldown. same_parts. Qed.
Lemma fr_set_bitmap b a c s : fr c s -> bits_ok (kBitmapWords MaxFaults) b a -> fr (set_bitmap b c) (f_set_active a s).
Proof. same_parts. Qed.

Lemma words_room idx : 0 <= idx < MaxFaults -> 0 <= idx < 64 * kBitmapWords MaxFaults.
Proof.
  intros Hi. unfold kBitmapWords. pose proof (Z.div_mod (MaxFaults + 63) 64 ltac:(lia)).
  pose proof (Z.mod_pos_bound (MaxFaults + 63) 64 ltac:(lia)). lia.
Qed.

Lemma words_nonneg : 0 <= kBitmapWords MaxFaults <= 4.
Proof. unfold kBitmapWords. split; [apply Z.div_pos; lia|]. apply Z.lt_succ_r, Z.div_lt_upper_bound; lia. Qed.

Lemma fr_activate idx c s : fr c s -> 0 <= idx < MaxFaults -> fr (SetFaultActive idx c) (f_set_active ({[idx]} ∪ f_active s) s).
Proof. intros Hf Hi. apply fr_set_bitmap; [done|]. apply bits_set; [apply fr_bits, Hf|by apply words_room]. Qed.
Lemma fr_deactivate idx c s : fr c s -> 0 <= idx < MaxFaults -> fr (ClearFaultActive idx c) (f_set_active (f_active s ∖ {[idx]}) s).
Proof. intros Hf Hi. apply fr_set_bitmap; [done|]. apply bits_clear; [apply fr_bits, Hf|by apply words_room]. Qed.

(** ** Queues *)

Lemma fr_queue i c s : fr c s -> (i < 4)%nat -> exists q, queues_ c !! i = Some q /\ q_holds q (f_queue i s) /\ Forall (entry_ok i) (f_queue i s).
Proof.
  intros Hf Hi. destruct (lookup_lt_is_Some_2 (f_queues s) i) as [l Hl]; [rewrite (fr_four _ _ Hf); lia|].
  destruct (Forall2_lookup_r _ _ _ _ _ (fr_queues _ _ Hf) Hl) as (q & Hq & Hh). exists q. unfold f_queue. rewrite Hl. simpl.
  split; [done|]. split; [done|]. by apply (fr_entries _ _ Hf).
Qed.

Lemma fr_set_queue i q l c s :
  fr c s -> q_holds q l -> Forall (entry_ok i) l -> fr (set_queue (Z.of_nat i) q c) (f_set_queue i l s).
Proof.
  intros [? ? He ? ? ? ? ? ? ? ? ?] Hq Hl. split; simpl; try done; rewrite ?Nat2Z.id.
  - by apply Forall2_insert.
  - by rewrite length_insert.
  - intros j l' Hj. apply list_lookup_insert_Some in Hj as [(<- & <- & _)|[_ Hj]]; [done|by apply He].
Qed.

Lemma p_index_lt p : (p_index p < 4)%nat.
Proof. destruct p; unfold p_index; simpl; lia. Qed.
Lemma p_index_Z p : Z.of_nat (p_index p) = priority_to_Z p.
Proof. by destruct p. Qed.

Lemma limit_le p : 0 <= limit QueueDepth p <= QueueDepth.
Proof.
  destruct p; simpl; [lia|..]; (split; [apply Z.div_pos; lia|apply Z.div_le_upper_bound; lia]).
Qed.

Lemma admit_limit p n : p <> kCritical -> AdmitByPriority QueueDepth p n = (n <? limit QueueDepth p).
Proof.
  intros Hp. destruct p; try done; simpl; unfold kHighThreshold, kMediumThreshold, kLowThreshold;
    (rewrite wrap_small by (unfold in_range; lia)); done.
Qed.

(** ** Recent faults *)

Lemma record_rel e c s : fr c s -> fr (record_recent e c) (f_record e s).
Proof.
  intros Hf. pose proof (fr_recent _ _ Hf) as [R1 R2 R3 R4 R5]. unfold kRecentRingSize in *.
  assert (Hr : recent_ok (recent_ring_ (record_recent e c)) (recent_head_ (record_recent e c)) (recent_count_ (record_recent e c))
    (take 16 (e :: f_recent s))).
  { unfold record_recent. simpl. unfold kRecentRingSize in *. rewrite wrap_small by (unfold in_range; lia). split; unfold kRecentRingSize.
    - by rewrite length_aset.
    - apply Z.mod_pos_bound. lia.
    - rewrite R3. simpl length. rewrite length_take. destruct (Z.ltb_spec (Z.of_nat (length (f_recent s))) 16); lia.
    - simpl. rewrite length_take. lia.
    - intros i x Hi. destruct i as [|i]; simpl in Hi.
      + injection Hi as <-. replace ((recent_head_ c + 1) mod 16 + 15 - Z.of_nat 0) with ((recent_head_ c + 1) mod 16 + 15) by lia.
        rewrite Zplus_mod_idemp_l. replace (recent_head_ c + 1 + 15) with (recent_head_ c + 1 * 16) by lia.
        rewrite Z.mod_add, Z.mod_small by lia. apply aget_aset_eq. lia.
      + apply lookup_take_Some in Hi as [Hi Hlt]. replace ((recent_head_ c + 1) mod 16 + 15 - Z.of_nat (S i)) with ((recent_head_ c + 1) mod 16 + (14 - Z.of_nat i)) by lia.
        rewrite Zplus_mod_idemp_l. replace (recent_head_ c + 1 + (14 - Z.of_nat i)) with (recent_head_ c + 15 - Z.of_nat i) by lia.
        pose proof (Z.mod_pos_bound (recent_head_ c + 15 - Z.of_nat i) 16 ltac:(lia)).
        rewrite aget_aset_ne; [by apply R5|lia|lia|]. intros E.
        assert (Hm : (recent_head_ c + 15 - Z.of_nat i - recent_head_ c) mod 16 = 0)
          by (rewrite Zminus_mod, <- E, (Z.mod_small (recent_head_ c)), Z.sub_diag by lia; done).
        replace (recent_head_ c + 15 - Z.of_nat i - recent_head_ c) with (15 - Z.of_nat i) in Hm by lia. rewrite Z.mod_small in Hm; lia. }
  destruct Hf. split; done.
Qed.

(** ** Reporting *)

Lemma drop_rel idx p c s w :
  fr c s -> exists c', drop_report idx p (c, w) = (c', match overflow_cb_ (f_hooks s) with Some f => f idx p w | None => w end) /\
    fr c' (f_event OnOverflow (f_dropped p s)).
Proof.
  intros Hf. unfold drop_report. simpl. rewrite (fr_hooks _ _ Hf). eexists. split; [done|]. by apply fr_event, fr_dropped.
Qed.

Lemma ReportFault_rel idx det p now c s w :
  fr c s -> 0 <= idx -> exists c', ReportFault MaxFaults QueueDepth idx det p now (c, w) =
    Some ((spec_report MaxFaults QueueDepth idx det p now (s, w)).1, (c', (spec_report MaxFaults QueueDepth idx det p now (s, w)).2.2)) /\
    fr c' (spec_report MaxFaults QueueDepth idx det p now (s, w)).2.1.
Proof.
  intros Hf Hi. unfold ReportFault, spec_report, valid_index. destruct (Z.leb_spec MaxFaults idx) as [Hm|Hm]; cbn [negb]; [eauto|].
  destruct (fr_queue (p_index p) c s Hf (p_index_lt p)) as (q & Hq & Hh & He). unfold queue_of. rewrite <- p_index_Z, Nat2Z.id, Hq, (q_size_holds _ _ Hh).
  set (l := f_queue (p_index p) s) in *. pose proof (limit_le p). pose proof (q_bounded _ _ Hh) as Hb.
  destruct (drop_rel idx p c s w Hf) as (cd & Ed & Hd).
  destruct (Z.ltb_spec (Z.of_nat (length l)) (limit QueueDepth p)) as [Hl|Hl]; cbn [fst snd].
  - replace (negb (AdmitByPriority QueueDepth p (Z.of_nat (length l)))) with false
      by (destruct (decide (p = kCritical)) as [->|Hp]; [done|rewrite admit_limit by done; by destruct (Z.ltb_spec (Z.of_nat (length l)) (limit QueueDepth p)); [|lia]]).
    destruct (q_push_room q l (mkEntry idx p det now) Hh ltac:(lia)) as (q' & -> & Hh'). eexists. split; [done|].
    apply fr_signal, record_rel.
    refine (fr_activate idx _ (f_reported p (f_set_queue _ _ _)) _ _); [|done]. apply fr_reported, fr_set_queue; [done..|].
    apply Forall_app. split; [done|]. apply Forall_singleton. done.
  - destruct (decide (p = kCritical)) as [->|Hp].
    + cbn [AdmitByPriority negb]. rewrite (q_push_full q l) by (done || (simpl in *; lia)). rewrite Ed. eauto.
    + rewrite admit_limit by done. destruct (Z.ltb_spec (Z.of_nat (length l)) (limit QueueDepth p)); [lia|]. cbn [negb]. rewrite Ed. eauto.
Qed.

(** ** Processing *)

Lemma HandleEscalation_rel e i c s :
  fr c s -> entry_ok i e -> exists c', HandleEscalation e c = Some c' /\ fr c' (spec_escalate QueueDepth e s).
Proof.
  intros Hf [Hp Hi]. pose proof (p_index_lt (priority e)). unfold HandleEscalation, spec_escalate. rewrite <- p_index_Z.
  destruct (p_index (priority e)) as [|j] eqn:Ej; [simpl; eauto|]. destruct (Z.eqb_spec (Z.of_nat (S j)) 0); [lia|].
  assert (Eu : raise_priority (priority e) = urgency j) by (destruct (priority e); cbn in Ej; by simplify_eq). rewrite Eu.
  replace (Z.of_nat (S j) - 1) with (Z.of_nat j) by lia. destruct (fr_queue j c s Hf ltac:(lia)) as (q & Hq & Hh & He).
  unfold queue_of. rewrite Nat2Z.id, Hq. set (e' := mkEntry _ _ _ _).
  destruct (q_push_spec q (f_queue j s) e' Hh) as (q' & -> & Hh'). eexists. split; [done|].
  assert (He' : entry_ok j e') by (split; [subst e'; cbn [priority]; assert (j < 3)%nat by lia; do 3 (destruct j as [|j]; [done|]); lia|done]).
  destruct (Z.of_nat (length (f_queue j s)) <? QueueDepth).
  - apply fr_set_queue; [done..|]. apply Forall_app. split; [done|by apply Forall_singleton].
  - pose proof (fr_set_queue j q' _ _ _ Hf Hh' He) as Hs. replace (f_set_queue j (f_queue j s) s) with s in Hs; [done|].
    destruct s as [qs t a st b h sh w r]. unfold f_set_queue, f_queue. simpl. f_equal. symmetry. apply list_insert_id'. intros Hlt. simpl in Hlt.
    destruct (lookup_lt_is_Some_2 qs j Hlt) as [l Hl]. by rewrite Hl.
Qed.

Lemma ProcessEntry_rel e i c s w :
  fr c s -> entry_ok i e -> exists c', ProcessEntry MaxFaults e (c, w) = Some (c', (spec_process QueueDepth e (s, w)).2) /\
    fr c' (spec_process QueueDepth e (s, w)).1.
Proof.
  intros Hf He. pose proof He as [Hp Hi]. unfold ProcessEntry, spec_process, valid_index.
  destruct (Z.leb_spec MaxFaults (fault_index e)); [lia|]. cbn [negb]. rewrite (fr_table _ _ Hf).
  set (row := aget (f_table s) (fault_index e)). set (row' := mkRow _ _ _ _ _ _).
  assert (Hf1 : fr (set_table (aset (f_table s) (fault_index e) row') c) (f_set_table (aset (f_table s) (fault_index e) row') s))
    by (apply fr_set_table; [done|rewrite length_aset; apply (fr_rows _ _ Hf)]).
  set (c1 := set_table _ c) in *. set (s1 := f_set_table _ s) in *. rewrite (fr_hooks _ _ Hf1). set (evt := mkFaultEvent _ _ _ _ _ _ _).
  replace (match hook row, default_hook_ (f_hooks s1) with
           | Some h, _ => h evt w | None, Some h => h evt w | None, None => (aHandled, w) end)
    with (match hook row with
          | Some h => h evt w
          | None => match default_hook_ (f_hooks s1) with Some h => h evt w | None => (aHandled, w) end
          end) by (destruct (hook row); [done|by destruct (default_hook_ (f_hooks s1))]).
  destruct (match hook row with Some h => h evt w | None => _ end) as [action w1]. destruct action.
  - eexists. split; [done|]. by apply fr_processed, fr_deactivate.
  - destruct (HandleEscalation_rel e i c1 s1 Hf1 He) as (c2 & -> & Hf2). eexists. split; [done|]. by apply fr_processed.
  - eexists. split; [done|]. by apply fr_processed.
  - eexists. split; [cbn [hooks_ request_shutdown]; by rewrite (fr_hooks _ _ Hf1)|]. cbn [fst].
    by apply fr_processed, fr_signal, fr_stop.
Qed.

(** Processing an entry of queue [i] touches at most the queue above. *)
Lemma process_others e i j (s : FSpec W) w :
  entry_ok i e -> S j <> i -> f_queues (spec_process QueueDepth e (s, w)).1 !! j = f_queues s !! j.
Proof.
  intros [Hp Hi] Hj. unfold spec_process. destruct (match hook _ with Some h => _ | None => _ end) as [[] w1]; simpl; try done.
  unfold spec_escalate. rewrite Hp. destruct i as [|i]; [done|]. destruct (_ <? _); [|done]. simpl.
  by rewrite list_lookup_insert_ne by lia.
Qed.

Lemma process_queue e i (s : FSpec W) w : entry_ok i e -> f_queues (spec_process QueueDepth e (s, w)).1 !! i = f_queues s !! i.
Proof. intros He. apply (process_others e i); [done|lia]. Qed.

Lemma DrainQueue_rel i l fuel count c s w :
  fr c s -> f_queues s !! i = Some l -> (length l < fuel)%nat ->
  exists c', DrainQueue MaxFaults fuel (Z.of_nat i) (u32 count) (c, w) =
      Some (u32 (count + Z.of_nat (length l)), (c', (spec_drain QueueDepth i l (s, w)).2)) /\
    fr c' (spec_drain QueueDepth i l (s, w)).1.
Proof.
  revert fuel count c s w. induction l as [|e l IH]; intros fuel count c s w Hf Hl Hfu; (destruct fuel as [|fuel]; [simpl in Hfu; lia|]);
    assert (Hi : (i < 4)%nat) by (rewrite <- (fr_four _ _ Hf); by eapply lookup_lt_Some);
    destruct (fr_queue i c s Hf Hi) as (q & Hq & Hh & Hent); unfold f_queue in Hh, Hent; rewrite Hl in Hh, Hent; cbn [DrainQueue];
    unfold queue_of; cbn [fst snd]; rewrite Nat2Z.id, Hq.
  - simpl default in Hh. rewrite (q_pop_empty q Hh), Z.add_0_r. simpl. eauto.
  - simpl default in Hh, Hent. destruct (q_pop_first q l e Hh) as (q' & -> & Hh'). inversion Hent as [|? ? He Hent']; subst.
    pose proof (fr_set_queue i q' l c s Hf Hh' Hent') as Hf1.
    destruct (ProcessEntry_rel e i _ _ w Hf1 He) as (c2 & -> & Hf2). rewrite wrap_add_l.
    destruct (spec_process QueueDepth e (f_set_queue i l s, w)) as [s2 w2] eqn:E2. simpl in Hf2.
    destruct (IH fuel (count + 1) c2 s2 w2 Hf2) as (c3 & E3 & Hf3).
    + pose proof (process_queue e i (f_set_queue i l s) w He) as Hpq. rewrite E2 in Hpq. simpl in Hpq. rewrite Hpq.
      apply list_lookup_insert_eq. by eapply lookup_lt_Some.
    + simpl in Hfu. lia.
    + exists c3. cbn [spec_drain fst snd]. rewrite E2. split; [|done]. cbn [snd length]. rewrite E3.
      by replace (count + Z.of_nat (S (length l))) with (count + 1 + Z.of_nat (length l)) by lia.
Qed.

Lemma drain_one i count c s w :
  fr c s -> (i < 4)%nat -> exists c', DrainQueue MaxFaults (drain_fuel QueueDepth) (Z.of_nat i) 0 (c, w) =
      Some (Z.of_nat (length (f_queue i s)), (c', (spec_drain_queue QueueDepth i (s, w)).2)) /\
    fr c' (spec_drain_queue QueueDepth i (s, w)).1 /\ u32 (u32 count + Z.of_nat (length (f_queue i s))) = u32 (count + Z.of_nat (length (f_queue i s))).
Proof.
  intros Hf Hi. destruct (lookup_lt_is_Some_2 (f_queues s) i) as [l Hl]; [rewrite (fr_four _ _ Hf); lia|].
  destruct (fr_queue i c s Hf Hi) as (q & Hq & Hh & _). pose proof (q_bounded _ _ Hh) as Hb. unfold spec_drain_queue, f_queue in *. cbn [fst] in *. rewrite Hl in *. simpl in Hb |- *.
  destruct (DrainQueue_rel i l (drain_fuel QueueDepth) 0 c s w Hf Hl) as (c' & E & Hf'); [unfold drain_fuel; lia|].
  exists c'. rewrite Z.add_0_l, wrap_0, (wrap_small 32) in E by (unfold in_range; lia). split; [exact E|]. split; [done|]. apply wrap_add_l.
Qed.

Lemma drain_from_rel ps i count c s w :
  fr c s -> (ps = seq i (length ps)) -> (i + length ps <= 4)%nat ->
  let r := foldl (fun acc p => (acc.1 + Z.of_nat (length (f_queue p acc.2.1)), spec_drain_queue QueueDepth p acc.2)) (count, (s, w)) ps in
  exists c', drain_from MaxFaults QueueDepth (length ps) (Z.of_nat i) (u32 count) (c, w) = Some (u32 r.1, (c', r.2.2)) /\ fr c' r.2.1.
Proof.
  revert i count c s w. induction ps as [|j ps IH]; intros i count c s w Hf Hs Hi; [simpl; eauto|]. cbn [length seq] in *. injection Hs as -> Hs.
  cbn [drain_from foldl]. cbv zeta. destruct (drain_one i count c s w Hf ltac:(lia)) as (c1 & -> & Hf1 & Ec). rewrite Ec. cbn [fst snd].
  replace (Z.of_nat i + 1) with (Z.of_nat (S i)) by lia. destruct (spec_drain_queue QueueDepth i (s, w)) as [s1 w1] eqn:E1. simpl in Hf1.
  simpl in IH |- *. apply (IH (S i)); [done|done|lia].
Qed.

Lemma ProcessBatch_rel c s w :
  fr c s -> exists c', ProcessBatch MaxFaults QueueDepth (c, w) =
      Some (u32 (spec_batch QueueDepth (s, w)).1, (c', (spec_batch QueueDepth (s, w)).2.2)) /\ fr c' (spec_batch QueueDepth (s, w)).2.1.
Proof. intros Hf. apply (drain_from_rel [0; 1; 2; 3]%nat 0 0 c s w Hf eq_refl). simpl. lia. Qed.

(** ** Queries *)

Lemma size_at_rel i c s : fr c s -> (i < 4)%nat -> size_at (Z.of_nat i) c = Z.of_nat (length (f_queue i s)).
Proof.
  intros Hf Hi. destruct (fr_queue i c s Hf Hi) as (q & Hq & Hh & _). unfold size_at, queue_of. rewrite Nat2Z.id, Hq. by apply q_size_holds.
Qed.

Lemma four_queues c s : fr c s -> f_queues s = [f_queue 0 s; f_queue 1 s; f_queue 2 s; f_queue 3 s].
Proof.
  intros Hf. pose proof (fr_four _ _ Hf) as Hl. unfold f_queue. destruct (f_queues s) as [|a [|b [|d [|e [|]]]]]; done.
Qed.

Lemma queue_le i c s : fr c s -> (i < 4)%nat -> Z.of_nat (length (f_queue i s)) <= QueueDepth.
Proof. intros Hf Hi. destruct (fr_queue i c s Hf Hi) as (q & _ & Hh & _). by apply (q_bounded q). Qed.

Lemma spec_depth_eq c s :
  fr c s -> spec_depth s = Z.of_nat (length (f_queue 0 s)) + Z.of_nat (length (f_queue 1 s)) + Z.of_nat (length (f_queue 2 s)) + Z.of_nat (length (f_queue 3 s)).
Proof. intros Hf. unfold spec_depth. rewrite (four_queues _ _ Hf). simpl. rewrite !length_app. simpl. lia. Qed.

Lemma QueueDepthCurrent_rel c s : fr c s -> QueueDepthCurrent c = spec_depth s /\ 0 <= spec_depth s <= QueueDepth * 4.
Proof.
  intros Hf. rewrite (spec_depth_eq c s Hf). pose proof (queue_le 0 c s Hf ltac:(lia)). pose proof (queue_le 1 c s Hf ltac:(lia)).
  pose proof (queue_le 2 c s Hf ltac:(lia)). pose proof (queue_le 3 c s Hf ltac:(lia)). split; [|lia].
  unfold QueueDepthCurrent. cbn [for_loop]. rewrite !wrap_add_l. change (0 + 1 + 1 + 1) with (Z.of_nat 3). change (0 + 1 + 1) with (Z.of_nat 2).
  change (0 + 1) with (Z.of_nat 1). rewrite !(size_at_rel _ c s) by (done || lia). change 0 with (Z.of_nat 0) at 2. rewrite (size_at_rel 0 c s) by (done || lia).
  rewrite (wrap_small 32 (0 + Z.of_nat (length (f_queue 0 s)) + Z.of_nat (length (f_queue 1 s)))) by (unfold in_range; lia).
  rewrite wrap_small by (unfold in_range; lia). lia.
Qed.

Lemma cycle_rel c s w :
  fr c s -> exists c', consumer_cycle MaxFaults QueueDepth (c, w) = Some (u32 (spec_cycle QueueDepth (s, w)).1, (c', (spec_cycle QueueDepth (s, w)).2.2)) /\
    fr c' (spec_cycle QueueDepth (s, w)).2.1.
Proof.
  intros Hf. unfold consumer_cycle, spec_cycle. destruct (ProcessBatch_rel c s w Hf) as (c1 & -> & Hf1).
  destruct (spec_batch QueueDepth (s, w)) as [n [s1 w1]]. simpl in Hf1 |- *. pose proof (fr_event OnDispatchCycle _ _ Hf1) as Hf2.
  destruct (QueueDepthCurrent_rel _ _ Hf2) as [Hd Hr]. simpl in Hd, Hr. rewrite Hd. eexists. split; [done|].
  rewrite (wrap_small 32 (spec_depth _ * 100)), (wrap_small 32 (QueueDepth * 4)) by (unfold in_range; lia).
  rewrite wrap_small by (unfold in_range; split; [apply Z.div_pos; lia|apply Z.div_lt_upper_bound; lia]). by apply (fr_event (OnWatermark _)).
Qed.

Lemma level_rel c s : fr c s -> GetBackpressureLevel QueueDepth c = spec_level QueueDepth s.
Proof.
  intros Hf. unfold GetBackpressureLevel, spec_level. rewrite (four_queues c s Hf). cbn [for_loop].
  change (0 + 1 + 1 + 1) with (Z.of_nat 3). change (0 + 1 + 1) with (Z.of_nat 2). change (0 + 1) with (Z.of_nat 1).
  change (size_at 0 c) with (size_at (Z.of_nat 0) c). rewrite !(size_at_rel _ c s) by (done || lia). cbn [fmap list_fmap foldr].
  unfold kHighThreshold, kMediumThreshold, kLowThreshold. rewrite !(wrap_small 32) by (unfold in_range; lia).
  assert (Hmax : forall m x : Z, (if m <? x then x else m) = Z.max m x) by (intros m x; case_bool; lia). rewrite !Hmax.
  match goal with |- (if _ <=? ?x then _ else _) = (if _ <=? ?y then _ else _) => by replace x with y by lia end.
Qed.

Lemma recent_rel fn n c s : fr c s -> 0 <= n -> ForEachRecent fn n c = visit fn (take (Z.to_nat n) (f_recent s)).
Proof.
  intros Hf Hn. pose proof (fr_recent _ _ Hf) as [R1 R2 R3 R4 R5]. unfold ForEachRecent. rewrite R3.
  replace (Z.to_nat (if Z.of_nat (length (f_recent s)) <? n then Z.of_nat (length (f_recent s)) else n)) with (length (take (Z.to_nat n) (f_recent s)))
    by (rewrite length_take; case_bool; lia).
  assert (Hg : forall l i, (forall j e, l !! j = Some e -> f_recent s !! (i + j)%nat = Some e) ->
    recent_loop fn (length l) (Z.of_nat i) c = visit fn l).
  { induction l as [|e l IH]; intros i Hl; [done|]. cbn [length recent_loop visit]. pose proof (Hl 0%nat e eq_refl) as He. rewrite Nat.add_0_r in He.
    pose proof (lookup_lt_Some _ _ _ He). unfold kRecentRingSize in *. rewrite wrap_small by (unfold in_range; lia).
    replace (recent_head_ c + 16 - 1 - Z.of_nat i) with (recent_head_ c + 15 - Z.of_nat i) by lia. rewrite (R5 i e He).
    replace (Z.of_nat i + 1) with (Z.of_nat (S i)) by lia. rewrite (IH (S i)); [done|].
    intros j x Hj. replace (S i + j)%nat with (i + S j)%nat by lia. by apply Hl. }
  apply (Hg _ 0%nat). intros j e Hj. apply lookup_take_Some in Hj as [Hj _]. done.
Qed.

Lemma active_count_rel c s : fr c s -> ActiveFaultCount MaxFaults c = Z.of_nat (size (f_active s)).
Proof.
  intros Hf. pose proof words_nonneg. unfold ActiveFaultCount. rewrite count_words by lia. rewrite Z2Nat.id by lia. by apply bits_size, fr_bits.
Qed.

Lemma clear_all_words (m : nat) words :
  (m <= length words)%nat ->
  length (for_loop (fun i b => aset b i 0) 0 m words) = length words /\
  forall i, 0 <= i < Z.of_nat m -> aget (for_loop (fun i b => aset b i 0) 0 m words) i = 0.
Proof.
  induction m as [|m IH]; intros Hm; [split; [done|lia]|]. rewrite for_loop_snoc, Z.add_0_l. destruct (IH ltac:(lia)) as [H1 H2].
  split; [by rewrite length_aset|]. intros i Hi. destruct (Z.eq_dec i (Z.of_nat m)) as [->|Hne]; [apply aget_aset_eq; lia|].
  rewrite aget_aset_ne by lia. apply H2. lia.
Qed.

Lemma ClearAllFaults_rel c s : fr c s -> fr (ClearAllFaults MaxFaults c) (f_set_active ∅ s).
Proof.
  intros Hf. apply fr_set_bitmap; [done|]. pose proof words_nonneg as Hw. pose proof (bo_len _ _ _ (fr_bits _ _ Hf)) as Hl.
  destruct (clear_all_words (Z.to_nat (kBitmapWords MaxFaults)) (active_bitmap_ c) ltac:(lia)) as [H1 H2].
  replace (for_loop _ _ _ _) with (replicate (Z.to_nat (kBitmapWords MaxFaults)) 0); [apply bits_empty; lia|].
  apply arr_ext; [rewrite length_replicate; lia|]. rewrite length_replicate. intros i Hi. rewrite H2 by lia. by apply aget_replicate.
Qed.

(** ** Emptying the queues *)

Lemma drain_queues i l (s : FSpec W) w :
  f_queues s !! i = Some l -> Forall (entry_ok i) l ->
  f_queues (spec_drain QueueDepth i l (s, w)).1 !! i = Some [] /\
  forall j, j <> i -> S j <> i -> f_queues (spec_drain QueueDepth i l (s, w)).1 !! j = f_queues s !! j.
Proof.
  revert s w. induction l as [|e l IH]; intros s w Hl Hent; [done|]. inversion Hent as [|? ? He Hent']; subst. cbn [spec_drain fst snd].
  destruct (spec_process QueueDepth e (f_set_queue i l s, w)) as [s2 w2] eqn:E2.
  assert (H2 : f_queues s2 !! i = Some l).
  { pose proof (process_queue e i (f_set_queue i l s) w He) as Hq. rewrite E2 in Hq. simpl in Hq. rewrite Hq.
    apply list_lookup_insert_eq. by eapply lookup_lt_Some. }
  assert (H3 : forall j, j <> i -> S j <> i -> f_queues s2 !! j = f_queues s !! j).
  { intros j Hj1 Hj2. transitivity (f_queues (f_set_queue i l s) !! j); [|simpl; by rewrite list_lookup_insert_ne].
    pose proof (process_others e i j (f_set_queue i l s) w He Hj2) as Hq. by rewrite E2 in Hq. }
  destruct (IH s2 w2 H2 Hent') as [H4 H5]. split; [done|]. intros j Hj1 Hj2. by rewrite H5, H3.
Qed.

Lemma drain_queue_spec i c s w :
  fr c s -> (i < 4)%nat ->
  let s' := (spec_drain_queue QueueDepth i (s, w)).1 in
  f_queue i s' = [] /\ (forall j, j <> i -> S j <> i -> f_queue j s' = f_queue j s) /\ (f_queue i s = [] -> s' = s).
Proof.
  intros Hf Hi. destruct (lookup_lt_is_Some_2 (f_queues s) i) as [l Hl]; [rewrite (fr_four _ _ Hf); lia|].
  unfold spec_drain_queue, f_queue. cbn [fst]. rewrite Hl. cbn [default]. destruct (drain_queues i l s w Hl (fr_entries _ _ Hf _ _ Hl)) as [H1 H2].
  unfold default, id. rewrite H1. split; [done|]. split; [intros j Hj1 Hj2; by rewrite H2|]. by intros ->.
Qed.

(** After a batch the lowest queue is empty, and so is every queue whose lower
    neighbour was empty before. *)
Lemma batch_empties c s w :
  fr c s -> exists c', fr c' (spec_batch QueueDepth (s, w)).2.1 /\ f_queue 3 (spec_batch QueueDepth (s, w)).2.1 = [] /\
    forall i, (i < 3)%nat -> f_queue (S i) s = [] -> f_queue i (spec_batch QueueDepth (s, w)).2.1 = [].
Proof.
  intros Hf0. unfold spec_batch. cbn [foldl fst snd].
  destruct (drain_one 0 0 c s w Hf0 ltac:(lia)) as (c1 & _ & Hf1 & _). destruct (drain_queue_spec 0 c s w Hf0 ltac:(lia)) as (A0 & B0 & C0).
  destruct (spec_drain_queue QueueDepth 0 (s, w)) as [s1 w1]. simpl in Hf1, A0, B0, C0.
  destruct (drain_one 1 0 c1 s1 w1 Hf1 ltac:(lia)) as (c2 & _ & Hf2 & _). destruct (drain_queue_spec 1 c1 s1 w1 Hf1 ltac:(lia)) as (A1 & B1 & C1).
  destruct (spec_drain_queue QueueDepth 1 (s1, w1)) as [s2 w2]. simpl in Hf2, A1, B1, C1.
  destruct (drain_one 2 0 c2 s2 w2 Hf2 ltac:(lia)) as (c3 & _ & Hf3 & _). destruct (drain_queue_spec 2 c2 s2 w2 Hf2 ltac:(lia)) as (A2 & B2 & C2).
  destruct (spec_drain_queue QueueDepth 2 (s2, w2)) as [s3 w3]. simpl in Hf3, A2, B2, C2.
  destruct (drain_one 3 0 c3 s3 w3 Hf3 ltac:(lia)) as (c4 & _ & Hf4 & _). destruct (drain_queue_spec 3 c3 s3 w3 Hf3 ltac:(lia)) as (A3 & B3 & C3).
  destruct (spec_drain_queue QueueDepth 3 (s3, w3)) as [s4 w4]. simpl in Hf4, A3, B3, C3 |- *.
  exists c4. split; [done|]. split; [done|]. intros i Hi He. destruct i as [|[|[|i]]]; [| | |lia].
  - rewrite B3, B2 by lia. rewrite C1 by (by rewrite B0 by lia). done.
  - rewrite B3 by lia. rewrite C2 by (by rewrite B1, B0 by lia). done.
  - rewrite C3 by (by rewrite B2, B1, B0 by lia). done.
Qed.

Lemma cycle_empties c s w :
  fr c s -> exists c', consumer_cycle MaxFaults QueueDepth (c, w) = Some (u32 (spec_cycle QueueDepth (s, w)).1, (c', (spec_cycle QueueDepth (s, w)).2.2)) /\
    fr c' (spec_cycle QueueDepth (s, w)).2.1 /\ f_queue 3 (spec_cycle QueueDepth (s, w)).2.1 = [] /\
    forall i, (i < 3)%nat -> f_queue (S i) s = [] -> f_queue i (spec_cycle QueueDepth (s, w)).2.1 = [].
Proof.
  intros Hf. destruct (cycle_rel c s w Hf) as (c1 & E1 & Hf1). destruct (batch_empties c s w Hf) as (_ & _ & H3 & Hi). exists c1.
  split; [exact E1|]. split; [done|]. unfold spec_cycle. destruct (spec_batch QueueDepth (s, w)) as [n [s1 w1]]. done.
Qed.

(** ** All operations *)

Lemma fault_op_rel o c s w :
  fr c s -> op_typed o -> exists c', fault_op MaxFaults QueueDepth o (c, w) =
    Some ((spec_fault_op MaxFaults QueueDepth o (s, w)).1, (c', (spec_fault_op MaxFaults QueueDepth o (s, w)).2.2)) /\
    fr c' (spec_fault_op MaxFaults QueueDepth o (s, w)).2.1.
Proof.
  intros Hf Ho. destruct o as [idx code a t|idx h|h|f|f|idx det p now| | | |idx|idx| | | | | |p|fn n| |]; simpl in Ho; cbn [fault_op spec_fault_op].
  - unfold RegisterFault, valid_index. rewrite (fr_table _ _ Hf). destruct (Z.leb_spec MaxFaults idx), (Z.ltb_spec idx MaxFaults); try lia; [simpl; eauto|].
    eexists. split; [done|]. apply fr_set_table; [done|]. rewrite length_aset. apply (fr_rows _ _ Hf).
  - unfold RegisterHook, valid_index. rewrite (fr_table _ _ Hf).
    destruct (Z.leb_spec MaxFaults idx), (Z.ltb_spec idx MaxFaults); try lia; [simpl; eauto|]. cbn [negb andb].
    destruct (registered (aget (f_table s) idx)); [|simpl; eauto].
    eexists. split; [done|]. apply fr_set_table; [done|]. rewrite length_aset. apply (fr_rows _ _ Hf).
  - eexists. split; [done|]. cbn [fst snd]. rewrite <- (fr_hooks _ _ Hf). by apply fr_set_hooks.
  - eexists. split; [done|]. cbn [fst snd]. rewrite <- (fr_hooks _ _ Hf). by apply fr_set_hooks.
  - eexists. split; [done|]. cbn [fst snd]. rewrite <- (fr_hooks _ _ Hf). by apply fr_set_hooks.
  - destruct (ReportFault_rel idx det p now c s w Hf Ho) as (c' & -> & Hf'). destruct (spec_report _ _ _ _ _ _ _) as [r [s' w']]. eauto.
  - destruct (cycle_rel c s w Hf) as (c' & -> & Hf'). destruct (spec_cycle _ _) as [n [s' w']]. eauto.
  - unfold DrainAll. destruct (ProcessBatch_rel c s w Hf) as (c' & E & Hf'). unfold ProcessBatch in E. rewrite E.
    destruct (spec_batch _ _) as [n [s' w']]. eauto.
  - rewrite (active_count_rel c s Hf). eauto.
  - unfold IsFaultActive, valid_index. destruct (Z.leb_spec MaxFaults idx).
    + rewrite bool_decide_eq_false_2 by lia. simpl. eauto.
    + cbn [negb]. rewrite (bits_test _ _ _ _ (fr_bits _ _ Hf)) by (apply words_room; lia).
      rewrite (bool_decide_ext (idx < MaxFaults /\ idx ∈ f_active s) (idx ∈ f_active s)) by (split; [tauto|done]). eauto.
  - unfold ClearFault, valid_index. destruct (Z.leb_spec MaxFaults idx), (Z.ltb_spec idx MaxFaults); try lia; [simpl; eauto|].
    eexists. split; [done|]. by apply fr_deactivate.
  - eexists. split; [done|]. by apply ClearAllFaults_rel.
  - unfold GetStatistics. rewrite (fr_stats _ _ Hf). eauto.
  - eexists. split; [done|]. by apply (fr_set_stats nothing).
  - rewrite (proj1 (QueueDepthCurrent_rel c s Hf)). eauto.
  - rewrite (level_rel c s Hf). eauto.
  - unfold QueueUsage. rewrite <- p_index_Z, (size_at_rel _ c s) by (done || apply p_index_lt). eauto.
  - rewrite (recent_rel fn n c s) by done. eauto.
  - unfold GetBreakerLevel. rewrite (fr_breaker _ _ Hf). eauto.
  - unfold IsShutdownRequested. rewrite (fr_shutdown _ _ Hf). eauto.
Qed.

Lemma fault_run_rel ops c s w :
  fr c s -> Forall op_typed ops -> exists c', fault_run MaxFaults QueueDepth ops (c, w) =
    Some ((spec_fault_run MaxFaults QueueDepth ops (s, w)).1, (c', (spec_fault_run MaxFaults QueueDepth ops (s, w)).2.2)) /\
    fr c' (spec_fault_run MaxFaults QueueDepth ops (s, w)).2.1.
Proof.
  intros Hf Ho. revert c s w Hf. induction Ho as [|o ops Ho Hops IH]; intros c s w Hf; [simpl; eauto|]. cbn [fault_run spec_fault_run].
  destruct (fault_op_rel o c s w Hf Ho) as (c1 & -> & Hf1). destruct (spec_fault_op _ _ o (s, w)) as [r [s1 w1]]. cbn [fst snd] in *.
  destruct (IH c1 s1 w1 Hf1) as (c2 & -> & Hf2). destruct (spec_fault_run _ _ ops (s1, w1)) as [rs [s2 w2]]. cbn [fst snd] in *. eauto.
Qed.

Lemma collector_start_rel q0 : q_holds q0 [] -> fr (FaultCollector_ctor MaxFaults q0) (spec_ctor MaxFaults).
Proof.
  intros Hq. pose proof words_nonneg. split; simpl; try done.
  - repeat constructor; done.
  - intros i l Hi. destruct i as [|[|[|[|i]]]]; simpl in Hi; try (injection Hi as <-); (done || constructor).
  - rewrite length_replicate. lia.
  - apply bits_empty. lia.
  - split; simpl; try done; (unfold kRecentRingSize; lia).
Qed.

End Refinement.

(** ** The breaker *)

(** The events the collector feeds to its breaker; probes are not among them. *)
Definition collector_event (e : Breaker.event) : Prop :=
  match e with OnOverflow | OnDispatchCycle | OnWatermark _ => True | _ => False end.

Lemma latch_step e st :
  collector_event e -> level st <> Normal -> probe_success st = false ->
  level (transition kCooldown e st) <> Normal /\ probe_success (transition kCooldown e st) = false.
Proof.
  destruct st as [l cd d r h lo hw pr]. intros He Hl Hp. simpl in Hl, Hp. subst pr.
  destruct e; try done; simpl; unfold watermark_fn, overflow_fn, dispatch_cycle_fn; simpl.
  - repeat (case_bool; simpl); destruct l; simpl; repeat (case_bool; simpl); done.
  - by destruct l.
  - destruct (0 <? cd); simpl; by rewrite andb_false_r.
Qed.

Lemma quiet_probe e st : collector_event e -> probe_success st = false -> probe_success (transition kCooldown e st) = false.
Proof.
  destruct st as [l cd d r h lo hw pr]. intros He Hp. simpl in Hp. subst pr.
  destruct e; try done; simpl; unfold watermark_fn, overflow_fn, dispatch_cycle_fn; simpl.
  - repeat (case_bool; simpl); destruct l; simpl; repeat (case_bool; simpl); done.
  - by destruct l.
  - destruct (0 <? cd); simpl; by rewrite andb_false_r.
Qed.

Lemma latch_run es st :
  Forall collector_event es -> probe_success st = false ->
  probe_success (deliver_state kCooldown es st) = false /\
  (level st <> Normal -> level (deliver_state kCooldown es st) <> Normal).
Proof.
  intros Hes. revert st. induction Hes as [|e es He Hes IH]; intros st Hp; [done|]. rewrite deliver_state_cons.
  destruct (IH (transition kCooldown e st) (quiet_probe e st He Hp)) as [H1 H2]. split; [done|]. intros Hl. apply H2. by apply latch_step.
Qed.

Section Latch.
Context {W : Type} (MaxFaults QueueDepth : Z).

Lemma process_breaker e (x : FSpec W * W) : f_breaker (spec_process QueueDepth e x).1 = f_breaker x.1.
Proof.
  destruct x as [s w]. unfold spec_process. destruct (match hook _ with Some h => _ | None => _ end) as [[] w1]; simpl; try done.
  unfold spec_escalate. destruct (p_index (priority e)); [done|]. by destruct (_ <? _).
Qed.

Lemma drain_breaker p l (x : FSpec W * W) : f_breaker (spec_drain QueueDepth p l x).1 = f_breaker x.1.
Proof. revert x. induction l as [|e l IH]; intros x; [done|]. cbn [spec_drain]. by rewrite IH, process_breaker. Qed.

Lemma batch_breaker (x : FSpec W * W) : f_breaker (spec_batch QueueDepth x).2.1 = f_breaker x.1.
Proof. unfold spec_batch. cbn [foldl fst snd]. unfold spec_drain_queue. by rewrite !drain_breaker. Qed.

(** Every operation delivers some of those events. *)
Lemma op_breaker o (x : FSpec W * W) :
  exists es, Forall collector_event es /\ f_breaker (spec_fault_op MaxFaults QueueDepth o x).2.1 = deliver kCooldown es (f_breaker x.1).
Proof.
  destruct x as [s w]. destruct o; cbn [spec_fault_op]; try (exists []; split; [constructor|]; done).
  - exists []. split; [constructor|]. by destruct (_ <? _).
  - exists []. split; [constructor|]. by destruct (_ && _).
  - unfold spec_report. destruct (_ <=? _); [by exists []|]. destruct (_ <? _); [by exists []|]. exists [OnOverflow]. split; [|done]. by constructor.
  - unfold spec_cycle. pose proof (batch_breaker (s, w)) as Hb. destruct (spec_batch QueueDepth (s, w)) as [n [s1 w1]]. simpl in Hb |- *.
    eexists [OnDispatchCycle; OnWatermark _]. split; [by repeat constructor|]. simpl. rewrite Hb. done.
  - exists []. split; [constructor|]. simpl. apply batch_breaker.
  - exists []. split; [constructor|]. by destruct (_ <? _).
Qed.

Lemma run_breaker ops (x : FSpec W * W) :
  exists es, Forall collector_event es /\ f_breaker (spec_fault_run MaxFaults QueueDepth ops x).2.1 = deliver kCooldown es (f_breaker x.1).
Proof.
  revert x. induction ops as [|o ops IH]; intros x; [exists []; split; [constructor|done]|]. cbn [spec_fault_run].
  destruct (op_breaker o x) as (es1 & H1 & E1). destruct (spec_fault_op _ _ o x) as [r x1]. destruct (IH x1) as (es2 & H2 & E2).
  destruct (spec_fault_run _ _ ops x1) as [rs x2]. simpl in *. exists (es1 ++ es2). split; [by apply Forall_app|].
  rewrite E2, E1. unfold deliver. by rewrite fold_left_app.
Qed.

(** Once the level has left Normal, it does not return. *)
Lemma breaker_latched (ops ops' : list (FaultOp W)) w :
  let x := (spec_fault_run MaxFaults QueueDepth ops (spec_ctor MaxFaults, w)).2 in
  Level (f_breaker x.1) <> Normal -> Level (f_breaker (spec_fault_run MaxFaults QueueDepth ops' x).2.1) <> Normal.
Proof.
  cbv zeta. destruct (run_breaker ops (spec_ctor MaxFaults, w)) as (es & He & E). set (x := (spec_fault_run _ _ ops _).2) in *.
  destruct (run_breaker ops' x) as (es' & He' & E'). rewrite E', E. simpl f_breaker.
  assert (Hcc : 0 <= kCooldown <= 65535) by (unfold kCooldown; lia).
  destruct (Unpack_deliver kCooldown Hcc es) as [U1 _]. destruct (Unpack_deliver kCooldown Hcc (es ++ es')) as [U2 _].
  replace (deliver kCooldown es' (deliver kCooldown es Breaker_init)) with (deliver kCooldown (es ++ es') Breaker_init)
    by (unfold deliver; by rewrite fold_left_app).
  unfold Level. rewrite U1, U2. unfold deliver_state. rewrite fold_left_app. intros Hl.
  destruct (latch_run es init_state He eq_refl) as [Hp _]. by apply (latch_run es' (deliver_state kCooldown es init_state) He' Hp).
Qed.

End Latch.

(** ** The theorems *)

Section Theorems.
(** The collector with its own rings of [2 ^ k] slots. *)
Context {W : Type} (MaxFaults k : Z).
Abbreviation Collector := (FaultCollector (EventQueue FaultEntry) W).
Definition fault_start : Collector := FaultCollector_ctor MaxFaults (EventQueue_ctor k).
Definition fault_calls (ops : list (FaultOp W)) (x : Collector * W) : option (list FaultRes * (Collector * W)) :=
  fault_run (QueueOps0 := ring_ops k) MaxFaults (Depth k) ops x.

End Theorems.

(** Runs from the start, in terms of the specification. *)
Lemma calls_rel {W} MaxFaults k (ops : list (FaultOp W)) w :
  1 <= MaxFaults <= 256 -> 1 <= k <= 23 -> Forall op_typed ops ->
  exists c (B : @BoundedQueue (EventQueue FaultEntry) FaultEntry (ring_ops k) (Depth k)),
    fault_calls MaxFaults k ops (fault_start MaxFaults k, w) =
      Some ((spec_fault_run MaxFaults (Depth k) ops (spec_ctor MaxFaults, w)).1,
            (c, (spec_fault_run MaxFaults (Depth k) ops (spec_ctor MaxFaults, w)).2.2)) /\
    @fr _ _ (ring_ops k) MaxFaults (Depth k) B c (spec_fault_run MaxFaults (Depth k) ops (spec_ctor MaxFaults, w)).2.1.
Proof.
  intros HF Hk Ho. assert (Hk' : 1 <= k <= 31) by lia.
  assert (HQ : 1 <= Depth k <= 2 ^ 23) by (pose proof (Depth_range k Hk'); split; [lia|apply Z.pow_le_mono_r; lia]).
  pose (B := ring_queue (T := FaultEntry) k Hk').
  destruct (fault_run_rel (QueueOps0 := ring_ops k) (BoundedQueue0 := B) MaxFaults (Depth k) HF HQ ops (fault_start MaxFaults k) (spec_ctor MaxFaults) w) as (c & E & Hf).
  - apply (collector_start_rel (QueueOps0 := ring_ops k) (BoundedQueue0 := B) MaxFaults (Depth k)); [done|]. by apply ring_holds_start.
  - done.
  - by exists c, B.
Qed.


(** Liveness of the queues: whatever was reported and whatever the hooks
    escalate, after four consumer cycles without a new report every queue is empty. *)
Lemma fault_queues_drain {W} MaxFaults k (ops : list (FaultOp W)) w rs x :
  1 <= MaxFaults <= 256 -> 1 <= k <= 23 -> Forall op_typed ops ->
  fault_calls MaxFaults k ops (fault_start MaxFaults k, w) = Some (rs, x) ->
  exists n1 n2 n3 n4 x', fault_calls MaxFaults k [FCycle; FCycle; FCycle; FCycle; FDepth] x =
    Some ([FRNum n1; FRNum n2; FRNum n3; FRNum n4; FRNum 0], x').
Proof.
  intros HF Hk Ho Hrun. assert (HQ : 1 <= Depth k <= 2 ^ 23) by (pose proof (Depth_range k ltac:(lia)); split; [lia|apply Z.pow_le_mono_r; lia]).
  destruct (calls_rel MaxFaults k ops w HF Hk Ho) as (c & B & E & Hf). rewrite E in Hrun. injection Hrun as _ <-.
  destruct (spec_fault_run MaxFaults (Depth k) ops (spec_ctor MaxFaults, w)).2 as [s w0]. simpl in Hf |- *.
  destruct (cycle_empties (QueueOps0 := ring_ops k) (BoundedQueue0 := B) MaxFaults (Depth k) HQ c s w0 Hf) as (c1 & E1 & Hf1 & A1 & _).
  destruct (spec_cycle (Depth k) (s, w0)) as [n1 [s1 w1]]. simpl in E1, Hf1, A1.
  destruct (cycle_empties (QueueOps0 := ring_ops k) (BoundedQueue0 := B) MaxFaults (Depth k) HQ c1 s1 w1 Hf1) as (c2 & E2 & Hf2 & A2 & B2). specialize (B2 2%nat ltac:(lia) A1).
  destruct (spec_cycle (Depth k) (s1, w1)) as [n2 [s2 w2]]. simpl in E2, Hf2, A2, B2.
  destruct (cycle_empties (QueueOps0 := ring_ops k) (BoundedQueue0 := B) MaxFaults (Depth k) HQ c2 s2 w2 Hf2) as (c3 & E3 & Hf3 & A3 & B3).
  pose proof (B3 1%nat ltac:(lia) B2) as C3. specialize (B3 2%nat ltac:(lia) A2).
  destruct (spec_cycle (Depth k) (s2, w2)) as [n3 [s3 w3]]. simpl in E3, Hf3, A3, B3, C3.
  destruct (cycle_empties (QueueOps0 := ring_ops k) (BoundedQueue0 := B) MaxFaults (Depth k) HQ c3 s3 w3 Hf3) as (c4 & E4 & Hf4 & A4 & B4).
  pose proof (B4 0%nat ltac:(lia) C3) as D4. pose proof (B4 1%nat ltac:(lia) B3) as C4. specialize (B4 2%nat ltac:(lia) A3).
  destruct (spec_cycle (Depth k) (s3, w3)) as [n4 [s4 w4]]. simpl in E4, Hf4, A4, B4, C4, D4.
  unfold fault_calls. cbn [fault_run fault_op]. rewrite E1. cbn [fault_op]. rewrite E2. cbn [fault_op]. rewrite E3. cbn [fault_op]. rewrite E4. cbn [fault_op].
  destruct (QueueDepthCurrent_rel (QueueOps0 := ring_ops k) (BoundedQueue0 := B) MaxFaults (Depth k) HQ c4 s4 Hf4) as [-> _].
  rewrite (spec_depth_eq (QueueOps0 := ring_ops k) (BoundedQueue0 := B) MaxFaults (Depth k) c4 s4 Hf4), A4, B4, C4, D4. by eexists _, _, _, _, _.
Qed.

(** The collector feeds its breaker overflows, cycles and watermarks, but no
    probe results: once the breaker has left the normal level, no further use of
    the collector brings it back. *)
Lemma fault_breaker_latches {W} MaxFaults k (ops ops' : list (FaultOp W)) w rs x rs' x' :
  1 <= MaxFaults <= 256 -> 1 <= k <= 23 -> Forall op_typed ops -> Forall op_typed ops' ->
  fault_calls MaxFaults k ops (fault_start MaxFaults k, w) = Some (rs, x) -> GetBreakerLevel x.1 <> Normal ->
  fault_calls MaxFaults k ops' x = Some (rs', x') -> GetBreakerLevel x'.1 <> Normal.
Proof.
  intros HF Hk Ho Ho' Hrun Hl Hrun'.
  assert (HQ : 1 <= Depth k <= 2 ^ 23) by (pose proof (Depth_range k ltac:(lia)); split; [lia|apply Z.pow_le_mono_r; lia]).
  destruct (calls_rel MaxFaults k ops w HF Hk Ho) as (c & B & E & Hf). rewrite E in Hrun. injection Hrun as _ <-.
  destruct (fault_run_rel (QueueOps0 := ring_ops k) (BoundedQueue0 := B) MaxFaults (Depth k) HF HQ ops' c _ (spec_fault_run MaxFaults (Depth k) ops (spec_ctor MaxFaults, w)).2.2 Hf Ho')
    as (c' & E' & Hf').
  unfold fault_calls in Hrun'. rewrite E' in Hrun'. injection Hrun' as _ <-.
  unfold GetBreakerLevel in *. simpl in Hl |- *. rewrite (fr_breaker _ _ _ _ Hf) in Hl. rewrite (fr_breaker _ _ _ _ Hf').
  pose proof (breaker_latched MaxFaults (Depth k) ops ops' w Hl) as Hlat.
  destruct (spec_fault_run MaxFaults (Depth k) ops (spec_ctor MaxFaults, w)) as [r0 [s0 w0]]. exact Hlat.
Qed.

(** ** Runs *)

(** Hooks for the examples: the world counts hook calls. *)
Definition counting (a : HookAction) : HookFn Z := fun _ w => (a, w + 1).

Definition sample_faults : list (FaultOp Z) :=
  [FRegister 3 100 0 1; FHook 3 (counting aEscalate); FReport 3 7 kLow 10; FReport 70 8 kCritical 11; FReport 200 0 kLow 12;
   FActiveCount; FRecent (fun _ => true) 16; FCycle; FIsActive 3; FIsActive 70; FDepth; FStats; FBackpressure].


Lemma fault_queues_drain_witness :
  exists n1 n2 n3 n4 rs x x', fault_calls 128 1 sample_faults (fault_start 128 1, 0) = Some (rs, x) /\
    fault_calls 128 1 [FCycle; FCycle; FCycle; FCycle; FDepth] x = Some ([FRNum n1; FRNum n2; FRNum n3; FRNum n4; FRNum 0], x').
Proof.
  destruct (fault_calls 128 1 sample_faults (fault_start 128 1, 0)) as [ [rs x]|] eqn:E; [|vm_compute in E; congruence].
  destruct (fault_queues_drain 128 1 sample_faults 0 rs x) as (n1 & n2 & n3 & n4 & x' & E'); [lia|lia|repeat constructor; done|exact E|].
  exists n1, n2, n3, n4, rs, x, x'. split; [reflexivity|exact E'].
Defined.

Definition overflow_faults : list (FaultOp Z) := [FReport 1 0 kLow 1; FReport 1 0 kLow 2].

Lemma fault_breaker_latches_witness :
  exists rs x rs' x', fault_calls 8 1 overflow_faults (fault_start 8 1, 0) = Some (rs, x) /\
    fault_calls 8 1 [FCycle; FCycle] x = Some (rs', x') /\ GetBreakerLevel x'.1 <> Normal.
Proof.
  destruct (fault_calls 8 1 overflow_faults (fault_start 8 1, 0)) as [ [rs x]|] eqn:E; [|vm_compute in E; congruence].
  destruct (fault_calls 8 1 [FCycle; FCycle] x) as [ [rs' x']|] eqn:E'; [|vm_compute in E; injection E as <- <-; vm_compute in E'; congruence].
  exists rs, x, rs', x'. split; [reflexivity|]. split; [exact E'|].
  apply (fault_breaker_latches 8 1 overflow_faults [FCycle; FCycle] 0 rs x rs' x'); [lia|lia|repeat constructor; done..|exact E| |exact E'].
  vm_compute in E. injection E as <- <-. vm_compute. congruence.
Defined.

(** Draining at shutdown goes through the queues once, from critical to low, so
    what the hooks escalate stays queued for ever. *)
Lemma drain_all_leaves_escalated :
  exists x, fault_calls 128 2 [FRegister 3 100 0 1; FHook 3 (counting aEscalate); FReport 3 7 kLow 10; FDrainAll; FDepth] (fault_start 128 2, 0) =
    Some ([FRError None; FRError None; FRError None; FROk; FRNum 1], x).
Proof. eexists. vm_compute. reflexivity. Qed.

(** A fault whose hook defers it is taken from its queue and not put back: it stays
    active and is never processed again. *)
Lemma deferred_never_processed :
  exists x, fault_calls 128 2 [FRegister 3 100 0 1; FHook 3 (counting aDefer); FReport 3 7 kLow 10; FCycle; FDepth; FCycle; FIsActive 3] (fault_start 128 2, 0) =
    Some ([FRError None; FRError None; FRError None; FRNum 1; FRNum 0; FRNum 0; FRBool true], x).
Proof. eexists. vm_compute. reflexivity. Qed.

(** A full queue drops even critical faults. *)
Lemma critical_dropped :
  exists x, fault_calls 8 1 [FReport 1 0 kCritical 1; FReport 1 0 kCritical 2; FReport 1 0 kCritical 3] (fault_start 8 1, 0) =
    Some ([FRError None; FRError None; FRError (Some kQueueFull)], x).
Proof. eexists. vm_compute. reflexivity. Qed.
