(* ===== verification/Dispatcher.v ===== *)
(** * DataDispatcher (include/osp/data_dispatcher.hpp)

    The zero-copy block dispatcher: a pool of reference-counted data blocks under
    a tagged free list, their life cycle, the stage pipeline that runs a submitted
    block, timeouts, forced clean-up, and the bookkeeping of consumer processes.
    [None] is a failed OSP_ASSERT. *)

From Stdlib Require Import ZArith Lia Bool.
From stdpp Require Import base numbers list option.
From S2P Require Import Prelude FreeList.

Open Scope Z_scope.

(** ** Block states *)

Inductive BlockState := kFree | kAllocated | kReady | kProcessing | kDone | kTimeout | kError.
#[export] Instance BlockState_eq_dec : EqDecision BlockState.
Proof. solve_decision. Defined.

(** kBlockStateTransition, row by row. *)
Definition IsValidBlockTransition (from to : BlockState) : bool :=
  match from, to with
  | kFree, kAllocated => true
  | kAllocated, (kFree | kReady) => true
  | kReady, (kFree | kProcessing | kTimeout | kError) => true
  | kProcessing, (kFree | kTimeout | kError) => true
  | (kDone | kTimeout | kError), kFree => true
  | _, _ => false
  end.

(** ** The tagged head *)

Definition kJobInvalidIndex : Z := 2 ^ 32 - 1.
Definition JobPackHead (index tag : Z) : Z := Z.lor (u64 (Z.shiftl tag 32)) index.
Definition JobHeadIndex (head : Z) : Z := u32 (Z.land head (2 ^ 32 - 1)).
Definition JobHeadTag (head : Z) : Z := u32 (Z.shiftr head 32).

Lemma job_pack index tag : in_range 32 index -> in_range 32 tag -> JobPackHead index tag = index + tag * 2 ^ 32.
Proof.
  intros Hi Ht. unfold in_range in *. unfold JobPackHead. rewrite (wrap_small 64).
  - rewrite Z.lor_comm. by apply lor_shiftl_add.
  - rewrite Z.shiftl_mul_pow2 by lia. unfold in_range. change (2 ^ 64) with (2 ^ 32 * 2 ^ 32). nia.
Qed.

Lemma job_index_pack index tag : in_range 32 index -> in_range 32 tag -> JobHeadIndex (JobPackHead index tag) = index.
Proof.
  intros Hi Ht. rewrite job_pack by done. unfold JobHeadIndex. rewrite land_mask, wrap_wrap by lia.
  unfold wrap. rewrite Z.mod_add by lia. by apply Z.mod_small.
Qed.

Lemma job_tag_pack index tag : in_range 32 index -> in_range 32 tag -> JobHeadTag (JobPackHead index tag) = tag.
Proof.
  intros Hi Ht. rewrite job_pack by done. unfold JobHeadTag. rewrite Z.shiftr_div_pow2, Z.div_add by lia.
  unfold in_range in *. rewrite (Z.div_small index), Z.add_0_l by lia. by apply wrap_small.
Qed.

(** ** Storage *)

(** The header placed before every payload; [reserved] is the generation. *)
Record DataBlock := mkBlock {
  refcount : Z;
  state : BlockState;
  payload_size : Z;
  fault_id : Z;
  alloc_time_us : Z;
  deadline_us : Z;
  next_free : Z;
  reserved : Z
}.
#[global] Instance DataBlock_inhabited : Inhabited DataBlock := populate (mkBlock 0 kFree 0 0 0 0 0 0).

Record ConsumerSlot := mkSlot { active : Z; pid : Z; heartbeat_us : Z; holding_mask : Z }.
#[global] Instance ConsumerSlot_inhabited : Inhabited ConsumerSlot := populate (mkSlot 0 0 0 0).

(** InProcStore (no consumer slots) and ShmStore. *)
Record Store := mkStore {
  blocks : list DataBlock;
  free_head : Z;
  free_count : Z;
  alloc_count : Z;
  slots : list ConsumerSlot
}.

(** OSP_JOB_MAX_CONSUMERS and OSP_JOB_CONSUMER_TIMEOUT_US *)
Definition kMaxConsumers : Z := 8.
Definition kConsumerTimeoutUs : Z := 3000000.

Definition set_refcount (n : Z) (b : DataBlock) : DataBlock :=
  mkBlock n (state b) (payload_size b) (fault_id b) (alloc_time_us b) (deadline_us b) (next_free b) (reserved b).
Definition put_state (s : BlockState) (b : DataBlock) : DataBlock :=
  mkBlock (refcount b) s (payload_size b) (fault_id b) (alloc_time_us b) (deadline_us b) (next_free b) (reserved b).
Definition set_next (i : Z) (b : DataBlock) : DataBlock :=
  mkBlock (refcount b) (state b) (payload_size b) (fault_id b) (alloc_time_us b) (deadline_us b) i (reserved b).

Definition Reset (b : DataBlock) : DataBlock := mkBlock 0 kFree 0 0 0 0 (next_free b) 0.
Definition SetState (s : BlockState) (b : DataBlock) : option DataBlock :=
  if IsValidBlockTransition (state b) s then Some (put_state s b) else None.

Definition GetBlock (id : Z) (s : Store) : DataBlock := aget (blocks s) id.
Definition put_block (id : Z) (b : DataBlock) (s : Store) : Store :=
  mkStore (aset (blocks s) id b) (free_head s) (free_count s) (alloc_count s) (slots s).
Definition set_counts (f a : Z) (s : Store) : Store := mkStore (blocks s) (free_head s) f a (slots s).
Definition set_free_head (h : Z) (s : Store) : Store := mkStore (blocks s) h (free_count s) (alloc_count s) (slots s).
Definition set_slots (l : list ConsumerSlot) (s : Store) : Store :=
  mkStore (blocks s) (free_head s) (free_count s) (alloc_count s) l.

Section Dispatcher.
(** MaxBlocks. *)
Context (MaxBlocks : Z).

(** Init: [mem] is what the block headers hold before, [n] the number of consumer slots. *)
Definition Init (mem : list DataBlock) (n : Z) : Store :=
  let bs := for_loop (fun i bs =>
      aset bs i (set_next (if i + 1 <? MaxBlocks then i + 1 else kJobInvalidIndex) (Reset (aget bs i))))
    0 (Z.to_nat MaxBlocks) mem in
  mkStore bs (JobPackHead 0 0) MaxBlocks 0 (replicate (Z.to_nat n) (mkSlot 0 0 0 0)).

(** ** Producer side *)

(** The generation stored in a block allocated under tag [t]. *)
Definition next_generation (t : Z) : Z := let gen := u32 (t + 1) in if gen =? 0 then 1 else gen.

(** Alloc without interference; [None] in the result is kPoolExhausted.  The
    flag tells whether the backpressure callback and fault report are due. *)
Definition Alloc (threshold now : Z) (s : Store) : option (option Z * bool * Store) :=
  let bp := (0 <? threshold) && (free_count s <=? threshold) in
  let head := free_head s in
  if JobHeadIndex head =? kJobInvalidIndex then Some (None, bp, s)
  else
    let idx := JobHeadIndex head in
    let blk := GetBlock idx s in
    let s := set_free_head (JobPackHead (next_free blk) (u32 (JobHeadTag head + 1))) s in
    let s := set_counts (u32 (free_count s - 1)) (u32 (alloc_count s + 1)) s in
    match SetState kAllocated blk with
    | Some blk =>
      let blk := mkBlock 0 (state blk) 0 0 now 0 (next_free blk) (next_generation (JobHeadTag head)) in
      Some (Some idx, bp, put_block idx blk s)
    | None => None
    end.

Definition Recycle (id : Z) (s : Store) : option Store :=
  match SetState kFree (GetBlock id s) with
  | None => None
  | Some blk =>
    let s := set_counts (free_count s) (u32 (alloc_count s - 1)) s in
    let head := free_head s in
    let s := put_block id (set_next (JobHeadIndex head) blk) s in
    let s := set_free_head (JobPackHead id (u32 (JobHeadTag head + 1))) s in
    Some (set_counts (u32 (free_count s + 1)) (alloc_count s) s)
  end.

(** ** Consumer side *)

Definition AddRef (id count : Z) (s : Store) : Store :=
  let b := GetBlock id s in put_block id (set_refcount (u32 (refcount b + count)) b) s.

Definition Release (id : Z) (s : Store) : option (bool * Store) :=
  let b := GetBlock id s in
  let cur := refcount b in
  if 0 <? cur then
    let s := put_block id (set_refcount (cur - 1) b) s in
    if cur =? 1 then match Recycle id s with Some s => Some (true, s) | None => None end
    else Some (false, s)
  else Some (false, s).

Definition GetPayloadSize (id : Z) (s : Store) : Z := payload_size (GetBlock id s).
Definition GetGeneration (id : Z) (s : Store) : Z := reserved (GetBlock id s).
Definition GetBlockState (id : Z) (s : Store) : BlockState := state (GetBlock id s).
Definition FreeBlocks (s : Store) : Z := free_count s.
Definition AllocBlocks (s : Store) : Z := alloc_count s.

(** The generation-checked overloads. *)
Definition ReleaseChecked (id generation : Z) (s : Store) : option (bool * Store) :=
  if negb (generation =? GetGeneration id s) then Some (false, s) else Release id s.
Definition GetPayloadSizeChecked (id generation : Z) (s : Store) : Z :=
  if negb (generation =? GetGeneration id s) then 0 else GetPayloadSize id s.
Definition AddRefChecked (id count generation : Z) (s : Store) : Store :=
  if negb (generation =? GetGeneration id s) then s else AddRef id count s.

(** ** Monitoring *)

(** Claims all references of a block and recycles it through [st]. *)
Definition reclaim (st : BlockState) (id : Z) (s : Store) : option (bool * Store) :=
  let b := GetBlock id s in
  if 0 <? refcount b then
    match SetState st (set_refcount 0 b) with
    | None => None
    | Some b => match Recycle id (put_block id b s) with Some s => Some (true, s) | None => None end
    end
  else Some (false, s).

Definition is_live (st : BlockState) : bool := match st with kProcessing | kReady => true | _ => false end.
Definition timed_out (now id : Z) (s : Store) : bool :=
  let b := GetBlock id s in is_live (state b) && negb (deadline_us b =? 0) && (deadline_us b <? now).

(** The loop of ScanTimeout and ForceCleanup: the reclaimed blocks, in order. *)
Fixpoint scan_loop (st : BlockState) (due : Z -> Store -> bool) (n : nat) (i : Z) (s : Store) : option (list Z * Store) :=
  match n with
  | O => Some ([], s)
  | S n' =>
    if due i s then
      match reclaim st i s with
      | None => None
      | Some (b, s) =>
        match scan_loop st due n' (i + 1) s with
        | Some (l, s) => Some (if b then i :: l else l, s)
        | None => None
        end
      end
    else scan_loop st due n' (i + 1) s
  end.

(** The blocks on_timeout is called for; their number is the result. *)
Definition ScanTimeout (now : Z) (s : Store) : option (list Z * Store) :=
  scan_loop kTimeout (timed_out now) (Z.to_nat MaxBlocks) 0 s.
Definition ForceCleanup (predicate : Z -> bool) (s : Store) : option (list Z * Store) :=
  scan_loop kError (fun i s => is_live (state (GetBlock i s)) && predicate i) (Z.to_nat MaxBlocks) 0 s.

(** ** Consumer processes *)

Definition MaxConsumers (s : Store) : Z := Z.of_nat (length (slots s)).
Definition GetConsumerSlot (i : Z) (s : Store) : ConsumerSlot := aget (slots s) i.
Definition put_slot (i : Z) (c : ConsumerSlot) (s : Store) : Store := set_slots (aset (slots s) i c) s.
Definition valid_slot (i : Z) (s : Store) : bool := negb ((i <? 0) || (MaxConsumers s <=? i)).

Fixpoint register_loop (n : nat) (i new_pid now : Z) (s : Store) : Z * Store :=
  match n with
  | O => (-1, s)
  | S n' =>
    if active (GetConsumerSlot i s) =? 0 then (i, put_slot i (mkSlot 1 new_pid now 0) s) else register_loop n' (i + 1) new_pid now s
  end.
Definition RegisterConsumer (new_pid now : Z) (s : Store) : Z * Store :=
  register_loop (Z.to_nat (MaxConsumers s)) 0 new_pid now s.
Definition UnregisterConsumer (i : Z) (s : Store) : Store :=
  if valid_slot i s then put_slot i (mkSlot 0 0 0 0) s else s.
Definition ConsumerHeartbeat (i now : Z) (s : Store) : Store :=
  if valid_slot i s then
    let c := GetConsumerSlot i s in put_slot i (mkSlot (active c) (pid c) now (holding_mask c)) s
  else s.
Definition set_mask (m : Z) (c : ConsumerSlot) : ConsumerSlot := mkSlot (active c) (pid c) (heartbeat_us c) m.
Definition TrackBlockHold (i id : Z) (s : Store) : Store :=
  if valid_slot i s then
    let c := GetConsumerSlot i s in put_slot i (set_mask (Z.lor (holding_mask c) (u64 (Z.shiftl 1 id))) c) s
  else s.
Definition TrackBlockRelease (i id : Z) (s : Store) : Store :=
  if valid_slot i s then
    let c := GetConsumerSlot i s in put_slot i (set_mask (Z.land (holding_mask c) (u64 (Z.lnot (u64 (Z.shiftl 1 id))))) c) s
  else s.

Definition IsConsumerDead (now : Z) (c : ConsumerSlot) : bool :=
  if heartbeat_us c =? 0 then false else u64 (heartbeat_us c + kConsumerTimeoutUs) <? now.

(** Releases the blocks of [mask]; counts those that still had references. *)
Fixpoint drop_held (n : nat) (b mask reclaimed : Z) (s : Store) : option (Z * Store) :=
  match n with
  | O => Some (reclaimed, s)
  | S n' =>
    if Z.land mask (u64 (Z.shiftl 1 b)) =? 0 then drop_held n' (b + 1) mask reclaimed s
    else if 0 <? refcount (GetBlock b s) then
      match Release b s with
      | Some (_, s) => drop_held n' (b + 1) mask (u32 (reclaimed + 1)) s
      | None => None
      end
    else drop_held n' (b + 1) mask reclaimed s
  end.

(** The clock is read once per slot: [now i]. *)
Fixpoint cleanup_loop (n : nat) (i : Z) (now : Z -> Z) (reclaimed : Z) (s : Store) : option (Z * Store) :=
  match n with
  | O => Some (reclaimed, s)
  | S n' =>
    let c := GetConsumerSlot i s in
    if negb (active c =? 0) && negb (IsConsumerDead (now i) c) then cleanup_loop n' (i + 1) now reclaimed s
    else
      let mask := holding_mask c in
      let s := put_slot i (mkSlot (if active c =? 1 then 0 else active c) (pid c) (heartbeat_us c) 0) s in
      match drop_held (Z.to_nat MaxBlocks) 0 mask reclaimed s with
      | Some (reclaimed, s) => cleanup_loop n' (i + 1) now reclaimed s
      | None => None
      end
  end.
Definition CleanupDeadConsumers (now : Z -> Z) (s : Store) : option (Z * Store) :=
  cleanup_loop (Z.to_nat (MaxConsumers s)) 0 now 0 s.

End Dispatcher.

(** Submit up to the pipeline: the block becomes ready with its references. *)
Definition submit_ready (timeout_ms now consumers id size : Z) (s : Store) : option Store :=
  let b := GetBlock id s in
  let deadline := if 0 <? timeout_ms then u64 (now + u64 (timeout_ms * 1000)) else 0 in
  let refs := if 0 <? consumers then consumers else 1 in
  let b := mkBlock refs (state b) size (fault_id b) (alloc_time_us b) deadline (next_free b) (reserved b) in
  match SetState kReady b with Some b => Some (put_block id b s) | None => None end.

(** ** The specification *)

Inductive View := VFree | VAlloc | VReady (refs deadline : Z).
Record VBlock := mkV { v_view : View; v_size : Z; v_gen : Z }.
#[global] Instance VBlock_inhabited : Inhabited VBlock := populate (mkV VFree 0 0).

(** What clients see: the blocks, the free ones in the order they will be handed
    out, the number of hand-outs and returns so far, and the consumer table. *)
Record Spec := mkSpec { views : list VBlock; stack : list Z; version : Z; table : list ConsumerSlot }.

Section Spec.
Context (MaxBlocks : Z).

Definition view_of (id : Z) (sp : Spec) : View := v_view (aget (views sp) id).
Definition set_view (id : Z) (v : View) (sp : Spec) : Spec :=
  let b := aget (views sp) id in
  mkSpec (aset (views sp) id (mkV v (v_size b) (v_gen b))) (stack sp) (version sp) (table sp).
Definition spec_free (id : Z) (sp : Spec) : Spec :=
  let sp := set_view id VFree sp in mkSpec (views sp) (id :: stack sp) (version sp + 1) (table sp).

Definition spec_init (n : Z) : Spec :=
  mkSpec (replicate (Z.to_nat MaxBlocks) (mkV VFree 0 0)) (seqZ 0 MaxBlocks) 0 (replicate (Z.to_nat n) (mkSlot 0 0 0 0)).

Definition spec_alloc (sp : Spec) : option Z * Spec :=
  match stack sp with
  | [] => (None, sp)
  | id :: rest =>
    (Some id, mkSpec (aset (views sp) id (mkV VAlloc 0 (next_generation (u32 (version sp))))) rest (version sp + 1) (table sp))
  end.

Definition spec_submit (timeout_ms now consumers id size : Z) (sp : Spec) : option Spec :=
  match view_of id sp with
  | VAlloc =>
    let deadline := if 0 <? timeout_ms then u64 (now + u64 (timeout_ms * 1000)) else 0 in
    Some (mkSpec (aset (views sp) id (mkV (VReady (if 0 <? consumers then consumers else 1) deadline) size (v_gen (aget (views sp) id))))
            (stack sp) (version sp) (table sp))
  | _ => None
  end.

(** A block keeps [r] references, and is free without any. *)
Definition settle (id r : Z) (sp : Spec) : Spec :=
  match view_of id sp with
  | VReady _ d => if r =? 0 then spec_free id sp else set_view id (VReady r d) sp
  | _ => sp
  end.
Definition refs_of (id : Z) (sp : Spec) : Z := match view_of id sp with VReady r _ => r | _ => 0 end.

(** Only the last reference frees the block; a block without references is left alone. *)
Definition spec_release (id : Z) (sp : Spec) : bool * Spec :=
  let r := refs_of id sp in if r =? 0 then (false, sp) else (r =? 1, settle id (r - 1) sp).
Definition spec_addref (id n : Z) (sp : Spec) : option Spec :=
  let r := refs_of id sp in if (r =? 0) || (2 ^ 32 <=? r + n) then None else Some (settle id (r + n) sp).

(** All blocks that are due, in ascending order. *)
Definition spec_reclaim (due : Z -> VBlock -> bool) (sp : Spec) : list Z * Spec :=
  let ids := filter (fun i => due i (aget (views sp) i) = true) (seqZ 0 MaxBlocks) in
  (ids, foldl (fun sp i => spec_free i sp) sp ids).
Definition overdue (now : Z) (_ : Z) (b : VBlock) : bool :=
  match v_view b with VReady _ d => negb (d =? 0) && (d <? now) | _ => false end.
Definition matching (predicate : Z -> bool) (i : Z) (b : VBlock) : bool :=
  match v_view b with VReady _ _ => predicate i | _ => false end.

Definition set_table (l : list ConsumerSlot) (sp : Spec) : Spec := mkSpec (views sp) (stack sp) (version sp) l.

(** One reference of every held block goes; counts the blocks that had one. *)
Definition spec_drop (mask : Z) (acc : Z * Spec) : Z * Spec :=
  foldl (fun acc b => if refs_of b acc.2 =? 0 then acc else (acc.1 + 1, (spec_release b acc.2).2)) acc
    (filter (fun b => Z.testbit mask b = true) (seqZ 0 MaxBlocks)).

Definition spec_cleanup_slot (now : Z -> Z) (acc : Z * Spec) (i : Z) : Z * Spec :=
  let c := aget (table acc.2) i in
  if negb (active c =? 0) && negb (IsConsumerDead (now i) c) then acc
  else
    spec_drop (holding_mask c)
      (acc.1, set_table (aset (table acc.2) i (mkSlot (if active c =? 1 then 0 else active c) (pid c) (heartbeat_us c) 0)) acc.2).
Definition spec_cleanup (now : Z -> Z) (sp : Spec) : Z * Spec :=
  foldl (spec_cleanup_slot now) (0, sp) (seqZ 0 (Z.of_nat (length (table sp)))).

End Spec.

(** ** Settling references *)

Lemma refs_view i sp : refs_of i sp <> 0 -> exists d, view_of i sp = VReady (refs_of i sp) d.
Proof. unfold refs_of. destruct (view_of i sp); naive_solver. Qed.

Lemma settle_pos i r d sp : view_of i sp = VReady (refs_of i sp) d -> 0 < r -> settle i r sp = set_view i (VReady r d) sp.
Proof. intros Hv Hr. unfold settle. rewrite Hv. by case_bool; [lia|]. Qed.

Lemma settle_refs id r sp : 0 <= id < Z.of_nat (length (views sp)) -> 0 < r -> refs_of id sp <> 0 -> refs_of id (settle id r sp) = r.
Proof.
  intros Hi Hr Hn. destruct (refs_view _ _ Hn) as [d Hd]. rewrite (settle_pos _ _ d) by done.
  unfold refs_of, view_of, set_view. simpl. by rewrite aget_aset_eq.
Qed.

Lemma settle_settle id r r' sp :
  0 <= id < Z.of_nat (length (views sp)) -> 0 < r -> refs_of id sp <> 0 -> settle id r' (settle id r sp) = settle id r' sp.
Proof.
  intros Hi Hr Hn. destruct (refs_view _ _ Hn) as [d Hd]. rewrite (settle_pos _ r d) by done.
  unfold settle. rewrite Hd. unfold view_of at 1. simpl. rewrite aget_aset_eq by done. simpl.
  destruct (r' =? 0); unfold spec_free, set_view; simpl; rewrite aget_aset_eq by done; simpl; by rewrite aset_aset.
Qed.

Lemma settle_size id r sp : 0 <= id < Z.of_nat (length (views sp)) -> v_size (aget (views (settle id r sp)) id) = v_size (aget (views sp) id).
Proof.
  intros Hi. unfold settle. destruct (view_of id sp); [done..|]. destruct (r =? 0); simpl; by rewrite aget_aset_eq.
Qed.

(** ** The correspondence *)

Section Refinement.
Context (MaxBlocks : Z) (HM : 1 <= MaxBlocks < kJobInvalidIndex).

Lemma HMz : 1 <= MaxBlocks < 2 ^ 32 - 1.
Proof. exact HM. Qed.

Definition next_of (s : Store) (i : Z) : Z := next_free (GetBlock i s).

(** The free list and the counters. *)
Record pool_ok (s : Store) (fl : list Z) (v : Z) : Prop := {
  po_len : Z.of_nat (length (blocks s)) = MaxBlocks;
  po_linked : linked MaxBlocks kJobInvalidIndex (next_of s) (JobHeadIndex (free_head s)) fl;
  po_tag : JobHeadTag (free_head s) = u32 v;
  po_nodup : NoDup fl;
  po_free : free_count s = Z.of_nat (length fl);
  po_alloc : alloc_count s = MaxBlocks - Z.of_nat (length fl)
}.

Definition block_rel (b : DataBlock) (v : VBlock) : Prop :=
  payload_size b = v_size v /\ reserved b = v_gen v /\
  match v_view v with
  | VFree => state b = kFree /\ refcount b = 0
  | VAlloc => state b = kAllocated /\ refcount b = 0
  | VReady r d => state b = kReady /\ refcount b = r /\ 0 < r < 2 ^ 32 /\ deadline_us b = d
  end.

(** Blocks outside [except] correspond to their views. *)
Record views_ok (except : Z) (s : Store) (sp : Spec) : Prop := {
  vo_len : Z.of_nat (length (views sp)) = MaxBlocks;
  vo_rel i : 0 <= i < MaxBlocks -> i <> except -> block_rel (GetBlock i s) (aget (views sp) i);
  vo_free i : 0 <= i < MaxBlocks -> view_of i sp = VFree <-> i ∈ stack sp
}.

Record rel (s : Store) (sp : Spec) : Prop := {
  r_pool : pool_ok s (stack sp) (version sp);
  r_views : views_ok (-1) s sp;
  r_slots : slots s = table sp
}.

Lemma stack_range s fl v i : pool_ok s fl v -> i ∈ fl -> 0 <= i < MaxBlocks.
Proof. intros Hp. apply (linked_member _ _ _ _ _ _ (po_linked _ _ _ Hp)). Qed.

Lemma stack_length s fl v : pool_ok s fl v -> Z.of_nat (length fl) <= MaxBlocks.
Proof.
  intros Hp. pose proof HMz. pose proof (NoDup_incl_length_seqZ fl (Z.to_nat MaxBlocks) (po_nodup _ _ _ Hp)) as Hl.
  assert (length fl <= Z.to_nat MaxBlocks)%nat; [|lia]. apply Hl. intros x Hx. pose proof (stack_range _ _ _ _ Hp Hx). lia.
Qed.

Lemma stack_room s fl v i : pool_ok s fl v -> 0 <= i < MaxBlocks -> i ∉ fl -> Z.of_nat (length fl) < MaxBlocks.
Proof.
  intros Hp Hi Hn. pose proof HMz.
  assert (Hnd : NoDup (i :: fl)) by (apply NoDup_cons_2; [done|apply (po_nodup _ _ _ Hp)]).
  pose proof (NoDup_incl_length_seqZ (i :: fl) (Z.to_nat MaxBlocks) Hnd) as Hl. simpl in Hl.
  assert (S (length fl) <= Z.to_nat MaxBlocks)%nat; [|lia]. apply Hl. intros x Hx.
  apply elem_of_cons in Hx as [->|Hx]; [lia|]. pose proof (stack_range _ _ _ _ Hp Hx). lia.
Qed.

Lemma head_index_range' h : in_range 32 (JobHeadIndex h).
Proof. by apply wrap_range. Qed.
Lemma head_tag_range h : in_range 32 (JobHeadTag h).
Proof. by apply wrap_range. Qed.

Lemma get_put_eq i b s fl v : pool_ok s fl v -> 0 <= i < MaxBlocks -> GetBlock i (put_block i b s) = b.
Proof. intros Hp Hi. apply aget_aset_eq. rewrite (po_len _ _ _ Hp). done. Qed.

Lemma get_put_ne i j b s : 0 <= i -> 0 <= j -> i <> j -> GetBlock j (put_block i b s) = GetBlock j s.
Proof. intros. by apply aget_aset_ne. Qed.

(** Rewriting a block without touching its link keeps the free list. *)
Lemma put_block_pool i b s fl v :
  pool_ok s fl v -> 0 <= i < MaxBlocks -> next_free b = next_of s i -> pool_ok (put_block i b s) fl v.
Proof.
  intros Hp Hi Hn. destruct Hp as [H1 H2 H3 H4 H5 H6]. split; simpl; try done; [by rewrite length_aset|].
  apply (linked_ext _ _ (next_of s)); [|done]. intros x Hx. unfold next_of.
  pose proof (linked_member _ _ _ _ _ _ H2 Hx). destruct (Z.eq_dec x i) as [->|Hne].
  - unfold GetBlock, put_block. simpl. rewrite aget_aset_eq by lia. exact Hn.
  - rewrite get_put_ne by lia. done.
Qed.

(** Changing a block that is not on the free list, with its view. *)
Lemma rel_put i b v s sp :
  rel s sp -> 0 <= i < MaxBlocks -> i ∉ stack sp -> v_view v <> VFree -> next_free b = next_of s i -> block_rel b v ->
  rel (put_block i b s) (mkSpec (aset (views sp) i v) (stack sp) (version sp) (table sp)).
Proof.
  intros [Hp [V1 V2 V3] Ht] Hi Hs Hv Hn Hb. split; simpl; [by apply put_block_pool| |done]. split; simpl.
  - by rewrite length_aset.
  - intros j Hj Hne. destruct (Z.eq_dec j i) as [->|Hd].
    + erewrite get_put_eq by done. rewrite aget_aset_eq by lia. done.
    + rewrite get_put_ne, aget_aset_ne by lia. by apply V2.
  - intros j Hj. unfold view_of. simpl. destruct (Z.eq_dec j i) as [->|Hd].
    + rewrite aget_aset_eq by lia. tauto.
    + rewrite aget_aset_ne by lia. by apply V3.
Qed.

(** Recycle on a block whose references are gone; [sp] still has it in use. *)
Lemma Recycle_rel i s sp :
  pool_ok s (stack sp) (version sp) -> views_ok i s sp -> slots s = table sp -> 0 <= i < MaxBlocks -> i ∉ stack sp ->
  IsValidBlockTransition (state (GetBlock i s)) kFree = true -> refcount (GetBlock i s) = 0 ->
  payload_size (GetBlock i s) = v_size (aget (views sp) i) -> reserved (GetBlock i s) = v_gen (aget (views sp) i) ->
  exists s', Recycle i s = Some s' /\ rel s' (spec_free i sp).
Proof.
  intros Hp [V1 V2 V3] Ht Hi Hns Hst Hr Hsz Hg. pose proof HMz. pose proof (stack_room _ _ _ _ Hp Hi Hns) as Hlt.
  unfold Recycle, SetState. rewrite Hst. eexists. split; [reflexivity|].
  pose proof (head_tag_range (free_head s)) as Htr. pose proof (wrap_range 32 (JobHeadTag (free_head s) + 1) ltac:(lia)) as Htr'.
  assert (Hir : in_range 32 i) by (unfold in_range; lia).
  destruct Hp as [P1 P2 P3 P4 P5 P6]. split; [split| |done].
  - simpl. by rewrite length_aset.
  - simpl. rewrite job_index_pack by done.
    apply (linked_push _ _ (next_of s) _ (JobHeadIndex (free_head s))); [done|done|done| |].
    + unfold next_of, GetBlock. simpl. rewrite aget_aset_eq by lia. done.
    + intros y Hy Hne. unfold next_of, GetBlock. simpl. by rewrite aget_aset_ne by lia.
  - simpl. rewrite job_tag_pack, P3 by done. apply wrap_add_l.
  - simpl. by apply NoDup_cons_2.
  - simpl. rewrite P5, wrap_small by (unfold in_range; lia). lia.
  - simpl. rewrite P6, wrap_small by (unfold in_range; lia). lia.
  - split; simpl.
    + by rewrite length_aset.
    + intros j Hj _. unfold GetBlock. simpl. destruct (Z.eq_dec j i) as [->|Hd].
      * rewrite !aget_aset_eq by lia. split; [done|]. split; [done|]. done.
      * rewrite !aget_aset_ne by lia. by apply V2.
    + intros j Hj. unfold view_of. simpl. rewrite elem_of_cons. destruct (Z.eq_dec j i) as [->|Hd].
      * rewrite aget_aset_eq by lia. split; [by left|done].
      * rewrite aget_aset_ne by lia. rewrite (V3 j Hj). naive_solver.
Qed.

Lemma view_not_free i s sp : rel s sp -> 0 <= i < MaxBlocks -> view_of i sp <> VFree -> i ∉ stack sp.
Proof. intros [_ [_ _ V3] _] Hi Hv Hn. by apply Hv, V3. Qed.

Lemma rel_block i s sp : rel s sp -> 0 <= i < MaxBlocks -> block_rel (GetBlock i s) (aget (views sp) i).
Proof. intros [_ [_ V2 _] _] Hi. apply V2; lia. Qed.

Lemma refs_of_refcount i s sp : rel s sp -> 0 <= i < MaxBlocks -> refcount (GetBlock i s) = refs_of i sp.
Proof.
  intros Hr Hi. destruct (rel_block _ _ _ Hr Hi) as (_ & _ & Hv). unfold refs_of, view_of.
  destruct (v_view (aget (views sp) i)); naive_solver.
Qed.

Lemma refs_of_range i s sp : rel s sp -> 0 <= i < MaxBlocks -> 0 <= refs_of i sp < 2 ^ 32.
Proof.
  intros Hr Hi. destruct (rel_block _ _ _ Hr Hi) as (_ & _ & Hv). unfold refs_of, view_of.
  destruct (v_view (aget (views sp) i)); naive_solver lia.
Qed.

(** Recycling a block whose references were just taken away, its state being
    [st] by now. *)
Lemma Recycle_settled i st s sp :
  rel s sp -> 0 <= i < MaxBlocks -> refs_of i sp <> 0 -> IsValidBlockTransition st kFree = true ->
  exists s', Recycle i (put_block i (put_state st (set_refcount 0 (GetBlock i s))) s) = Some s' /\ rel s' (spec_free i sp).
Proof.
  intros Hr Hi Hn Hst. pose proof (rel_block _ _ _ Hr Hi) as (B1 & B2 & _).
  assert (Hv : view_of i sp <> VFree) by (unfold refs_of in Hn; by destruct (view_of i sp)).
  pose proof (view_not_free _ _ _ Hr Hi Hv) as Hns. destruct Hr as [Hp [V1 V2 V3] Ht].
  apply Recycle_rel; try done; try (erewrite get_put_eq by done; done); [by apply put_block_pool|].
  split; [done| |done]. intros j Hj Hne. rewrite get_put_ne by lia. apply V2; lia.
Qed.

Lemma put_refs i r s sp d :
  rel s sp -> 0 <= i < MaxBlocks -> view_of i sp = VReady (refs_of i sp) d -> 0 < r < 2 ^ 32 ->
  rel (put_block i (set_refcount r (GetBlock i s)) s) (set_view i (VReady r d) sp).
Proof.
  intros Hr Hi Hv Hrr. pose proof (rel_block _ _ _ Hr Hi) as (B1 & B2 & B3). unfold view_of in Hv. rewrite Hv in B3.
  apply rel_put; try done; [apply (view_not_free _ _ _ Hr Hi); unfold view_of; by rewrite Hv|].
  split; [done|]. split; [done|]. simpl. tauto.
Qed.

(** ** The operations *)

Lemma AddRef_rel i n s sp :
  rel s sp -> 0 <= i < MaxBlocks -> refs_of i sp <> 0 -> 0 <= n -> refs_of i sp + n < 2 ^ 32 ->
  rel (AddRef i n s) (settle i (refs_of i sp + n) sp).
Proof.
  intros Hr Hi Hn Hp Hb. destruct (refs_view _ _ Hn) as [d Hd]. pose proof (refs_of_range _ _ _ Hr Hi).
  unfold AddRef. rewrite (refs_of_refcount _ _ _ Hr Hi), wrap_small by (unfold in_range; lia).
  rewrite (settle_pos _ _ d) by (done || lia). apply put_refs; (done || lia).
Qed.

Lemma Release_rel i s sp :
  rel s sp -> 0 <= i < MaxBlocks -> exists s', Release i s = Some ((spec_release i sp).1, s') /\ rel s' (spec_release i sp).2.
Proof.
  intros Hr Hi. pose proof (refs_of_range _ _ _ Hr Hi). unfold Release, spec_release.
  rewrite (refs_of_refcount _ _ _ Hr Hi). destruct (Z.eqb_spec (refs_of i sp) 0) as [->|Hn]; [eauto|].
  destruct (Z.ltb_spec 0 (refs_of i sp)); [|lia]. destruct (refs_view _ _ Hn) as [d Hd].
  destruct (Z.eqb_spec (refs_of i sp) 1) as [E|E]; simpl.
  - destruct (Recycle_settled i kReady s sp) as (s' & Hs & Hr'); try done.
    pose proof (rel_block _ _ _ Hr Hi) as (_ & _ & B3). unfold view_of in Hd. rewrite Hd in B3. destruct B3 as (B3 & _).
    replace (set_refcount (refs_of i sp - 1) (GetBlock i s)) with (put_state kReady (set_refcount 0 (GetBlock i s)))
      by (unfold put_state, set_refcount; simpl; rewrite E, B3; done).
    rewrite Hs. eexists. split; [done|]. unfold settle, view_of. rewrite Hd, E. done.
  - eexists. split; [done|]. rewrite (settle_pos _ _ d) by (done || lia). apply put_refs; (done || lia).
Qed.

Lemma reclaim_rel st i s sp :
  rel s sp -> 0 <= i < MaxBlocks -> refs_of i sp <> 0 -> st = kTimeout \/ st = kError ->
  exists s', reclaim st i s = Some (true, s') /\ rel s' (spec_free i sp).
Proof.
  intros Hr Hi Hn Hst. pose proof (refs_of_range _ _ _ Hr Hi). unfold reclaim, SetState.
  rewrite (refs_of_refcount _ _ _ Hr Hi). destruct (Z.ltb_spec 0 (refs_of i sp)); [|lia].
  destruct (refs_view _ _ Hn) as [d Hd]. pose proof (rel_block _ _ _ Hr Hi) as (_ & _ & B3).
  unfold view_of in Hd. rewrite Hd in B3. destruct B3 as (B3 & _). change (state (set_refcount 0 (GetBlock i s))) with (state (GetBlock i s)).
  rewrite B3. destruct (Recycle_settled i st s sp) as (s' & Hs & Hr'); [done|done|done|by destruct Hst as [-> | ->]|].
  destruct Hst as [-> | ->]; simpl; rewrite Hs; eauto.
Qed.

Lemma head_index s fl v : pool_ok s fl v -> JobHeadIndex (free_head s) = kJobInvalidIndex <-> fl = [].
Proof.
  intros Hp. pose proof HM. pose proof (po_linked _ _ _ Hp) as Hl. split.
  - intros E. apply (linked_stop MaxBlocks kJobInvalidIndex ltac:(lia) _ _ _ Hl E).
  - intros ->. exact Hl.
Qed.

Lemma next_range s fl v i : pool_ok s (i :: fl) v -> in_range 32 (next_of s i).
Proof.
  intros Hp. pose proof HMz. pose proof (po_linked _ _ _ Hp) as (_ & _ & Hl). unfold in_range.
  destruct fl as [|x fl]; [rewrite Hl; unfold kJobInvalidIndex; lia|]. destruct Hl as (-> & Hx & _). lia.
Qed.

(** Alloc hands out the first free block. *)
Lemma Alloc_rel threshold now s sp :
  rel s sp -> exists b s', Alloc threshold now s = Some ((spec_alloc sp).1, b, s') /\ rel s' (spec_alloc sp).2.
Proof.
  intros Hr. pose proof Hr as [Hp [V1 V2 V3] Ht]. pose proof HMz. unfold Alloc, spec_alloc.
  destruct (stack sp) as [|i fl] eqn:Hs.
  - rewrite (proj2 (head_index _ _ _ Hp) eq_refl), Z.eqb_refl. eauto.
  - destruct (Z.eqb_spec (JobHeadIndex (free_head s)) kJobInvalidIndex) as [E|_]; [by apply (head_index _ _ _ Hp) in E|].
    pose proof (next_range _ _ _ _ Hp) as Hnr. pose proof (head_tag_range (free_head s)) as Htr.
    pose proof (wrap_range 32 (JobHeadTag (free_head s) + 1) ltac:(lia)) as Htr'. pose proof (stack_length _ _ _ Hp) as Hlen.
    pose proof Hp as [P1 P2 P3 P4 P5 P6]. destruct P2 as (E & Hi & Hl). rewrite E. simpl in P5, P6, Hlen.
    assert (Hst : state (GetBlock i s) = kFree).
    { pose proof (V2 i Hi ltac:(lia)) as (_ & _ & Hb). pose proof (proj2 (V3 i Hi) ltac:(by left)) as Hv. unfold view_of in Hv.
      rewrite Hv in Hb. tauto. }
    unfold SetState. rewrite Hst. eexists _, _. split; [reflexivity|]. inversion_clear P4 as [|? ? Hni Hnd].
    split; simpl; [split; simpl| |done].
    + by rewrite length_aset.
    + rewrite job_index_pack by done. apply (linked_ext _ _ (next_of s)); [|done]. intros x Hx. unfold next_of, GetBlock. simpl.
      pose proof (linked_member _ _ _ _ _ _ Hl Hx). rewrite aget_aset_ne by (try lia; by intros ->). done.
    + rewrite job_tag_pack, P3 by done. apply wrap_add_l.
    + done.
    + rewrite P5, wrap_small by (unfold in_range; lia). lia.
    + rewrite P6, wrap_small by (unfold in_range; lia). lia.
    + split; simpl.
      * by rewrite length_aset.
      * intros j Hj _. unfold GetBlock. simpl. destruct (Z.eq_dec j i) as [->|Hd].
        -- rewrite !aget_aset_eq by lia. rewrite P3. done.
        -- rewrite !aget_aset_ne by lia. apply V2; lia.
      * intros j Hj. unfold view_of. simpl. destruct (Z.eq_dec j i) as [->|Hd].
        -- rewrite aget_aset_eq by lia. done.
        -- rewrite aget_aset_ne by lia. rewrite (V3 j Hj), elem_of_cons. naive_solver.
Qed.

Lemma Init_rel mem n :
  Z.of_nat (length mem) = MaxBlocks -> rel (Init MaxBlocks mem n) (spec_init MaxBlocks n).
Proof.
  intros Hlen. pose proof HMz. unfold Init, spec_init.
  match goal with |- context [for_loop ?f _ _ _] => set (step := f) end.
  assert (Hinv : forall m : nat, Z.of_nat m <= MaxBlocks ->
    let bs := for_loop step 0 m mem in Z.of_nat (length bs) = MaxBlocks /\
    forall j, 0 <= j < Z.of_nat m -> next_free (aget bs j) = (if j + 1 <? MaxBlocks then j + 1 else kJobInvalidIndex) /\
      Reset (aget bs j) = aget bs j).
  { intros m. induction m as [|m IH]; intros Hm; [split; [done|lia]|]. cbv zeta. rewrite for_loop_snoc, Z.add_0_l.
    destruct (IH ltac:(lia)) as [H1 H2]. set (bs := for_loop step 0 m mem) in *. unfold step. split; [by rewrite length_aset|]. intros j Hj.
    destruct (Z.eq_dec j (Z.of_nat m)) as [->|Hd]; [by rewrite aget_aset_eq by lia|].
    rewrite aget_aset_ne by lia. apply H2. lia. }
  destruct (Hinv (Z.to_nat MaxBlocks) ltac:(lia)) as [H1 H2]. rewrite Z2Nat.id in H2 by lia.
  split; simpl; [split; simpl| |done].
  - done.
  - rewrite job_index_pack by (unfold in_range; lia). apply linked_all; [lia| |].
    + intros j Hj. unfold next_of, GetBlock. simpl. rewrite (proj1 (H2 j ltac:(lia))). by case_bool; [|lia].
    + unfold next_of, GetBlock. simpl. rewrite (proj1 (H2 (MaxBlocks - 1) ltac:(lia))). by case_bool; [lia|].
  - by rewrite job_tag_pack by (unfold in_range; lia).
  - apply NoDup_seqZ.
  - rewrite length_seqZ. lia.
  - rewrite length_seqZ. lia.
  - split; simpl.
    + rewrite length_replicate. lia.
    + intros j Hj _. unfold GetBlock. simpl. rewrite aget_replicate by lia. rewrite <- (proj2 (H2 j ltac:(lia))). done.
    + intros j Hj. unfold view_of. simpl. rewrite aget_replicate by lia. rewrite elem_of_seqZ. simpl. split; [lia|done].
Qed.

Lemma submit_ready_rel timeout_ms now consumers i size s sp sp' :
  rel s sp -> 0 <= i < MaxBlocks -> 0 <= consumers < 2 ^ 32 -> spec_submit timeout_ms now consumers i size sp = Some sp' ->
  exists s', submit_ready timeout_ms now consumers i size s = Some s' /\ rel s' sp'.
Proof.
  intros Hr Hi Hc Hs. unfold spec_submit in Hs. destruct (view_of i sp) eqn:Hv; try done. injection Hs as <-.
  pose proof (rel_block _ _ _ Hr Hi) as (B1 & B2 & B3). unfold view_of in Hv. rewrite Hv in B3. destruct B3 as [B3 _].
  unfold submit_ready, SetState. simpl. rewrite B3. eexists. split; [reflexivity|]. apply rel_put; try done.
  - apply (view_not_free _ _ _ Hr Hi). unfold view_of. by rewrite Hv.
  - split; [done|]. split; [done|]. simpl. split; [done|]. split; [done|]. split; [|done]. case_bool; lia.
Qed.

(** ** Time-outs and forced clean-up *)

Lemma views_free_ne i j sp : 0 <= i -> 0 <= j -> i <> j -> aget (views (spec_free i sp)) j = aget (views sp) j.
Proof. intros. simpl. by rewrite aget_aset_ne. Qed.

Lemma scan_rel st due dueS :
  (forall s sp i, rel s sp -> 0 <= i < MaxBlocks -> due i s = dueS i (aget (views sp) i)) ->
  (forall i b, dueS i b = true -> exists r d, v_view b = VReady r d) -> st = kTimeout \/ st = kError ->
  forall n i s sp, rel s sp -> 0 <= i -> i + Z.of_nat n <= MaxBlocks ->
  let ids := filter (fun j => dueS j (aget (views sp) j) = true) (seqZ i (Z.of_nat n)) in
  exists s', scan_loop st due n i s = Some (ids, s') /\ rel s' (foldl (fun sp j => spec_free j sp) sp ids).
Proof.
  intros Hdue Hready Hst n. induction n as [|n IH]; intros i s sp Hr Hi Hn; [eexists; by rewrite seqZ_nil by lia|].
  cbv zeta. rewrite seqZ_cons, filter_cons by lia. replace (Z.pred (Z.of_nat (S n))) with (Z.of_nat n) by lia.
  replace (Z.succ i) with (i + 1) by lia. simpl scan_loop. rewrite (Hdue _ sp) by (done || lia).
  destruct (dueS i (aget (views sp) i)) eqn:E; [rewrite decide_True by done|rewrite decide_False by done; by apply IH; [|lia..]].
  assert (Hrefs : refs_of i sp <> 0).
  { destruct (Hready _ _ E) as (r & d & Hv). pose proof (rel_block i _ _ Hr ltac:(lia)) as (_ & _ & B).
    rewrite Hv in B. unfold refs_of, view_of. rewrite Hv. lia. }
  destruct (reclaim_rel st i s sp Hr ltac:(lia) Hrefs Hst) as (s1 & -> & Hr1).
  destruct (IH (i + 1) s1 _ Hr1 ltac:(lia) ltac:(lia)) as (s2 & -> & Hr2).
  assert (Hf : filter (fun j => dueS j (aget (views (spec_free i sp)) j) = true) (seqZ (i + 1) (Z.of_nat n)) =
               filter (fun j => dueS j (aget (views sp) j) = true) (seqZ (i + 1) (Z.of_nat n))).
  { apply filter_ext_elem. intros j Hj. apply elem_of_seqZ in Hj. by rewrite views_free_ne by lia. }
  rewrite Hf in Hr2 |- *. by exists s2.
Qed.

Lemma timed_out_overdue now s sp i : rel s sp -> 0 <= i < MaxBlocks -> timed_out now i s = overdue now i (aget (views sp) i).
Proof.
  intros Hr Hi. destruct (rel_block _ _ _ Hr Hi) as (_ & _ & B). unfold timed_out, overdue.
  destruct (v_view (aget (views sp) i)) as [| |r d]; [destruct B as [-> _]; done..|]. by destruct B as (-> & _ & _ & ->).
Qed.

Lemma scan_all st due dueS s sp :
  (forall s sp i, rel s sp -> 0 <= i < MaxBlocks -> due i s = dueS i (aget (views sp) i)) ->
  (forall i b, dueS i b = true -> exists r d, v_view b = VReady r d) -> st = kTimeout \/ st = kError -> rel s sp ->
  exists s', scan_loop st due (Z.to_nat MaxBlocks) 0 s = Some ((spec_reclaim MaxBlocks dueS sp).1, s') /\
    rel s' (spec_reclaim MaxBlocks dueS sp).2.
Proof.
  intros Hd Hv Hst Hr. pose proof HMz. pose proof (scan_rel _ _ _ Hd Hv Hst (Z.to_nat MaxBlocks) 0 s sp Hr ltac:(lia) ltac:(lia)) as Hs.
  rewrite Z2Nat.id in Hs by lia. exact Hs.
Qed.

Lemma ScanTimeout_rel now s sp :
  rel s sp -> exists s', ScanTimeout MaxBlocks now s = Some ((spec_reclaim MaxBlocks (overdue now) sp).1, s') /\
    rel s' (spec_reclaim MaxBlocks (overdue now) sp).2.
Proof.
  intros Hr. apply scan_all; [intros; by apply timed_out_overdue| |by left|done].
  intros i b. unfold overdue. destruct (v_view b); naive_solver.
Qed.

Lemma ForceCleanup_rel pred s sp :
  rel s sp -> exists s', ForceCleanup MaxBlocks pred s = Some ((spec_reclaim MaxBlocks (matching pred) sp).1, s') /\
    rel s' (spec_reclaim MaxBlocks (matching pred) sp).2.
Proof.
  intros Hr. apply scan_all; [|intros i b; unfold matching; destruct (v_view b); naive_solver|by right|done].
  clear s sp Hr. intros s sp i Hr Hi. destruct (rel_block _ _ _ Hr Hi) as (_ & _ & B). unfold matching.
  destruct (v_view (aget (views sp) i)) as [| |r d]; [destruct B as [-> _]; done..|]. by destruct B as (-> & _).
Qed.

(** ** Consumer processes *)

Lemma rel_slots l s sp : rel s sp -> rel (set_slots l s) (set_table l sp).
Proof. intros [Hp Hv Ht]. split; [|split|done]; destruct Hp, Hv; try done; by split. Qed.

Lemma drop_held_rel (H64 : MaxBlocks <= 64) mask n b a s sp :
  rel s sp -> 0 <= b -> b + Z.of_nat n <= MaxBlocks ->
  let r := foldl (fun acc j => if refs_of j acc.2 =? 0 then acc else (acc.1 + 1, (spec_release j acc.2).2)) (a, sp)
             (filter (fun j => Z.testbit mask j = true) (seqZ b (Z.of_nat n))) in
  exists s', drop_held n b mask (u32 a) s = Some (u32 r.1, s') /\ rel s' r.2.
Proof.
  revert b a s sp. induction n as [|n IH]; intros b a s sp Hr Hb Hn; [rewrite seqZ_nil by lia; by exists s|].
  cbv zeta. rewrite seqZ_cons, filter_cons by lia. replace (Z.pred (Z.of_nat (S n))) with (Z.of_nat n) by lia.
  replace (Z.succ b) with (b + 1) by lia. simpl drop_held. rewrite mask_bit by lia.
  destruct (Z.testbit mask b) eqn:E; [rewrite decide_True by done|rewrite decide_False by done; by apply IH; [|lia..]]. simpl.
  rewrite (refs_of_refcount _ _ sp) by (done || lia). pose proof (refs_of_range b s sp Hr ltac:(lia)).
  destruct (Z.eqb_spec (refs_of b sp) 0) as [E0|E0]; (case_bool; try lia); [by apply IH; [|lia..]|].
  destruct (Release_rel b s sp Hr ltac:(lia)) as (s1 & -> & Hr1). rewrite wrap_add_l. by apply IH; [|lia..].
Qed.

Lemma settle_table i r sp : table (settle i r sp) = table sp.
Proof. unfold settle. destruct (view_of i sp); [done..|]. by destruct (r =? 0). Qed.

Lemma spec_drop_table mask acc : table (spec_drop MaxBlocks mask acc).2 = table acc.2.
Proof.
  unfold spec_drop. generalize (filter (fun b => Z.testbit mask b = true) (seqZ 0 MaxBlocks)). intros ids.
  revert acc. induction ids as [|j ids IH]; intros acc; [done|]. simpl. rewrite IH. unfold spec_release.
  destruct (refs_of j acc.2 =? 0); [done|]. simpl. apply settle_table.
Qed.

Lemma cleanup_loop_rel now n i a s sp :
  rel s sp -> (table sp <> [] -> MaxBlocks <= 64) -> 0 <= i -> i + Z.of_nat n <= Z.of_nat (length (table sp)) ->
  let r := foldl (spec_cleanup_slot MaxBlocks now) (a, sp) (seqZ i (Z.of_nat n)) in
  exists s', cleanup_loop MaxBlocks n i now (u32 a) s = Some (u32 r.1, s') /\ rel s' r.2.
Proof.
  revert i a s sp. induction n as [|n IH]; intros i a s sp Hr H64 Hi Hn; [rewrite seqZ_nil by lia; by exists s|].
  cbv zeta. pose proof HMz. rewrite seqZ_cons by lia. replace (Z.pred (Z.of_nat (S n))) with (Z.of_nat n) by lia.
  replace (Z.succ i) with (i + 1) by lia. simpl cleanup_loop. simpl foldl. unfold spec_cleanup_slot at 2 4, GetConsumerSlot. cbn [snd fst].
  rewrite (r_slots _ _ Hr). destruct (negb _ && negb _); [by apply IH; [..|lia|lia]|].
  set (l := aset (table sp) i _). unfold put_slot. rewrite (r_slots _ _ Hr). fold l.
  pose proof (rel_slots l _ _ Hr) as Hr1.
  assert (Hl : MaxBlocks <= 64) by (apply H64; intros E; rewrite E in Hn; simpl in Hn; lia).
  pose proof (drop_held_rel Hl (holding_mask (aget (table sp) i)) (Z.to_nat MaxBlocks) 0 a _ _ Hr1 ltac:(lia) ltac:(lia)) as Hd.
  rewrite Z2Nat.id in Hd by lia. fold (spec_drop MaxBlocks (holding_mask (aget (table sp) i)) (a, set_table l sp)) in Hd.
  destruct Hd as (s1 & -> & Hr2). destruct (spec_drop _ _ _) as [a1 sp1] eqn:Ed. simpl in Hr2 |- *.
  assert (Ht : table sp1 = l) by (pose proof (spec_drop_table (holding_mask (aget (table sp) i)) (a, set_table l sp)) as Ht; by rewrite Ed in Ht).
  assert (Hll : length l = length (table sp)) by apply length_aset.
  apply IH; [done|done|lia|rewrite Ht, Hll; lia].
Qed.

Lemma CleanupDeadConsumers_rel now s sp :
  rel s sp -> (table sp <> [] -> MaxBlocks <= 64) ->
  exists s', CleanupDeadConsumers MaxBlocks now s = Some (u32 (spec_cleanup MaxBlocks now sp).1, s') /\
    rel s' (spec_cleanup MaxBlocks now sp).2.
Proof.
  intros Hr H64. unfold CleanupDeadConsumers, spec_cleanup, MaxConsumers. rewrite (r_slots _ _ Hr), Nat2Z.id.
  apply (cleanup_loop_rel now (length (table sp)) 0 0); (done || lia).
Qed.

End Refinement.

(** ** The shared-memory layout *)

(** sizeof of DataBlock, ShmPoolHeader and ConsumerSlot, and OSP_JOB_BLOCK_ALIGN. *)
Definition kJobBlockAlign : Z := 64.
Definition sizeof_DataBlock : Z := 48.
Definition sizeof_ShmPoolHeader : Z := 256.
Definition sizeof_ConsumerSlot : Z := 24.

Definition align_up (n : Z) : Z := Z.land (u32 (n + kJobBlockAlign - 1)) (u32 (Z.lnot (kJobBlockAlign - 1))).
Definition kJobHeaderAlignedSize : Z := align_up sizeof_DataBlock.
Definition JobBlockStride (block_size : Z) : Z := align_up (u32 (kJobHeaderAlignedSize + block_size)).
Definition kShmHeaderSize : Z := align_up sizeof_ShmPoolHeader.
Definition kConsumerSlotArraySize : Z := u32 (sizeof_ConsumerSlot * kMaxConsumers).

Section Layout.
Context (BlockSize MaxBlocks : Z).

(** Offsets from the base of the region. *)
Definition block_offset (id : Z) : Z := kShmHeaderSize + id * JobBlockStride BlockSize.
Definition payload_offset (id : Z) : Z := block_offset id + kJobHeaderAlignedSize.
Definition consumer_slot_offset : Z := u32 (kShmHeaderSize + u32 (JobBlockStride BlockSize * MaxBlocks)).
Definition slot_offset (i : Z) : Z := consumer_slot_offset + i * sizeof_ConsumerSlot.
Definition RequiredShmSize : Z := u32 (u32 (kShmHeaderSize + u32 (JobBlockStride BlockSize * MaxBlocks)) + kConsumerSlotArraySize).

(** ShmPoolHeader: what Init writes for the openers, and what Attach asserts. *)
Record ShmPoolHeader := mkHeader {
  hdr_magic : Z; hdr_version : Z; hdr_block_size : Z; hdr_max_blocks : Z; hdr_block_stride : Z; hdr_total_size : Z;
  hdr_max_consumers : Z; hdr_slot_offset : Z
}.
Definition kJobPoolMagic : Z := 0x4A4F4250.
Definition init_header (shm_size : Z) : option ShmPoolHeader :=
  if RequiredShmSize <=? shm_size then
    Some (mkHeader kJobPoolMagic 2 BlockSize MaxBlocks (JobBlockStride BlockSize) shm_size kMaxConsumers consumer_slot_offset)
  else None.
Definition Attach (h : ShmPoolHeader) : bool :=
  (hdr_magic h =? kJobPoolMagic) && (hdr_version h =? 2) && (hdr_block_size h =? BlockSize) && (hdr_max_blocks h =? MaxBlocks).

End Layout.

(** An opener attaches to a creator's region exactly when both use the same pool type. *)
Lemma Attach_init_header b m b' m' size h :
  init_header b m size = Some h -> Attach b' m' h = true <-> b' = b /\ m' = m.
Proof.
  unfold init_header. destruct (_ <=? _); [|done]. injection 1 as <-. unfold Attach. simpl.
  rewrite andb_true_iff, !Z.eqb_eq. naive_solver.
Qed.

Lemma align_up_spec n : 0 <= n < 2 ^ 32 - 64 -> align_up n mod 64 = 0 /\ n <= align_up n < n + 64.
Proof.
  intros Hn. unfold align_up. change kJobBlockAlign with 64. rewrite (wrap_small 32) by (unfold in_range; lia).
  replace (u32 (Z.lnot (64 - 1))) with (Z.shiftl (Z.ones 26) 6) by reflexivity.
  replace (Z.land (n + 64 - 1) (Z.shiftl (Z.ones 26) 6)) with ((n + 63) / 64 * 64).
  - split; [apply Z.mod_mul; lia|]. pose proof (Z.div_mod (n + 63) 64). pose proof (Z.mod_pos_bound (n + 63) 64). lia.
  - replace (n + 64 - 1) with (n + 63) by lia. change 64 with (2 ^ 6) at 1 2. rewrite <- Z.shiftr_div_pow2, <- Z.shiftl_mul_pow2 by lia.
    apply Z.bits_inj'. intros k Hk. rewrite Z.land_spec, !Z.shiftl_spec by lia.
    destruct (Z.lt_ge_cases k 6); [rewrite !(Z.testbit_neg_r _ (k - 6)) by lia; by rewrite andb_false_r|].
    rewrite Z.shiftr_spec by lia. replace (k - 6 + 6) with k by lia.
    destruct (Z.lt_ge_cases k 32); [rewrite Z.ones_spec_low by lia; by rewrite andb_true_r|].
    rewrite (testbit_above 32) by (try lia; unfold in_range; lia). done.
Qed.

(** The stride holds header and payload, keeps the alignment, and wastes less than two lines. *)
Lemma stride_spec b : 0 < b < 2 ^ 32 - 128 ->
  JobBlockStride b mod 64 = 0 /\ kJobHeaderAlignedSize + b <= JobBlockStride b < b + 128.
Proof.
  intros Hb. unfold JobBlockStride. change kJobHeaderAlignedSize with 64. rewrite (wrap_small 32) by (unfold in_range; lia).
  destruct (align_up_spec (64 + b) ltac:(lia)) as [H1 H2]. split; [done|lia].
Qed.

(** C35. Bounds of the shared-memory layout: unless the size overflows 32 bits,
    every block and every payload starts on a 64-byte line behind the pool header,
    a block's header ends before its payload, which ends before the next block,
    the blocks end where the consumer slots begin, and the slots end at
    RequiredShmSize. *)
Theorem shm_layout_in_bounds BlockSize MaxBlocks :
  0 < BlockSize -> 1 <= MaxBlocks <= 64 -> kShmHeaderSize + (BlockSize + 128) * MaxBlocks + kConsumerSlotArraySize < 2 ^ 32 ->
  (forall id, 0 <= id < MaxBlocks ->
    sizeof_ShmPoolHeader <= block_offset BlockSize id /\ block_offset BlockSize id mod kJobBlockAlign = 0 /\
    payload_offset BlockSize id mod kJobBlockAlign = 0 /\
    block_offset BlockSize id + sizeof_DataBlock <= payload_offset BlockSize id /\
    payload_offset BlockSize id + BlockSize <= block_offset BlockSize (id + 1)) /\
  block_offset BlockSize MaxBlocks = consumer_slot_offset BlockSize MaxBlocks /\
  consumer_slot_offset BlockSize MaxBlocks mod 8 = 0 /\
  slot_offset BlockSize MaxBlocks kMaxConsumers = RequiredShmSize BlockSize MaxBlocks.
Proof.
  change kShmHeaderSize with 256. change kConsumerSlotArraySize with 192. intros Hb HM Hsz.
  destruct (stride_spec BlockSize ltac:(nia)) as [S1 S2]. unfold slot_offset, RequiredShmSize, consumer_slot_offset, payload_offset, block_offset.
  set (stride := JobBlockStride BlockSize) in *. change kJobHeaderAlignedSize with 64 in *. change kShmHeaderSize with 256.
  change kJobBlockAlign with 64. change sizeof_DataBlock with 48. change sizeof_ShmPoolHeader with 256. change kConsumerSlotArraySize with 192.
  change (kMaxConsumers * sizeof_ConsumerSlot) with 192. apply Z.mod_divide in S1 as [q Hq]; [|lia].
  assert (Hm : stride * MaxBlocks <= (BlockSize + 128) * MaxBlocks) by nia.
  rewrite (wrap_small 32 (stride * MaxBlocks)), (wrap_small 32 (256 + stride * MaxBlocks)), (wrap_small 32) by (unfold in_range; nia).
  split; [|split; [|split]].
  - intros id Hid. split; [nia|]. split; [|split; [|split]]; [| |lia|lia].
    + replace (256 + id * stride) with ((4 + id * q) * 64) by (rewrite Hq; ring). apply Z.mod_mul. lia.
    + replace (256 + id * stride + 64) with ((5 + id * q) * 64) by (rewrite Hq; ring). apply Z.mod_mul. lia.
  - lia.
  - replace (256 + stride * MaxBlocks) with ((32 + MaxBlocks * q * 8) * 8) by (rewrite Hq; ring). apply Z.mod_mul. lia.
  - done.
Qed.

Lemma shm_layout_in_bounds_witness :
  block_offset 16016 32 = consumer_slot_offset 16016 32 /\ RequiredShmSize 16016 32 = 516544.
Proof.
  destruct (shm_layout_in_bounds 16016 32) as (_ & H & _ & H'); [lia|lia|vm_compute; reflexivity|].
  split; [exact H|]. rewrite <- H'. vm_compute. reflexivity.
Defined.

(** With large blocks RequiredShmSize wraps: 64 blocks of 64 MiB stride need 4 GiB,
    and Init accepts a region of 448 bytes. *)
Lemma required_size_wraps : RequiredShmSize (2 ^ 26 - 64) 64 = 448 /\ block_offset (2 ^ 26 - 64) 1 = 2 ^ 26 + 256.
Proof. split; reflexivity. Qed.
