(* ===== verification/Pipeline.v ===== *)
(** * Pipeline and DataDispatcher (include/osp/data_dispatcher.hpp)

    The stage graph a submitted block runs through, Submit as a whole, and the
    theorems on the dispatcher: the pipeline calls its handlers in depth-first
    preorder while the block is referenced, and any run of the API hands out the
    results of the block specification of Dispatcher.v. *)

From Stdlib Require Import ZArith Lia Bool String.
From stdpp Require Import base numbers list option sets.
From S2P Require Import Prelude FreeList Dispatcher.

Open Scope Z_scope.

Section Pipeline.
(** The world the handlers work on. *)
Context {W : Type}.

(** A handler gets the payload size and the block, and may call the dispatcher;
    its context pointer is part of the closure. *)
Definition JobHandler := Z -> Z -> Store * W -> option (Store * W).

Record StageConfig := mkStage { name : string; handler : option JobHandler; timeout_ms : Z }.
Record StageSlot := mkSlotCfg { config : StageConfig; successors : list Z }.
#[global] Instance StageSlot_inhabited : Inhabited StageSlot := populate (mkSlotCfg (mkStage EmptyString None 0) []).

(** The used part of stages_, and entry_stage_. *)
Record Pipeline := mkPipeline { stages : list StageSlot; entry_stage : Z }.

Definition empty_pipeline : Pipeline := mkPipeline [] (-1).
Definition StageCount (p : Pipeline) : Z := Z.of_nat (length (stages p)).
Definition valid_stage (j : Z) (p : Pipeline) : bool := negb ((j <? 0) || (StageCount p <=? u32 j)).
Definition StageName (j : Z) (p : Pipeline) : string :=
  if valid_stage j p then name (config (aget (stages p) j)) else "unknown"%string.
Definition SuccessorCount (j : Z) (p : Pipeline) : Z :=
  if valid_stage j p then Z.of_nat (length (successors (aget (stages p) j))) else 0.

Definition AddStage (MaxStages : Z) (cfg : StageConfig) (p : Pipeline) : Z * Pipeline :=
  if MaxStages <=? StageCount p then (-1, p)
  else (StageCount p, mkPipeline (stages p ++ [mkSlotCfg cfg []]) (entry_stage p)).

Definition AddEdge (MaxEdges from to : Z) (p : Pipeline) : bool * Pipeline :=
  if (from <? 0) || (to <? 0) then (false, p)
  else if (StageCount p <=? u32 from) || (StageCount p <=? u32 to) then (false, p)
  else
    let slot := aget (stages p) (u32 from) in
    if MaxEdges <=? Z.of_nat (length (successors slot)) then (false, p)
    else (true, mkPipeline (aset (stages p) (u32 from) (mkSlotCfg (config slot) (successors slot ++ [to]))) (entry_stage p)).

Definition SetEntryStage (j : Z) (p : Pipeline) : Pipeline := mkPipeline (stages p) j.

(** EntryFanOut: both branches return 1. *)
Definition EntryFanOut (p : Pipeline) : Z := 1.

(** The loop over the successors. *)
Fixpoint run_stages (exec : Z -> Store * W -> option (Store * W)) (l : list Z) (x : Store * W) : option (Store * W) :=
  match l with
  | [] => Some x
  | j :: l => match exec j x with Some x => run_stages exec l x | None => None end
  end.

Definition OnStageComplete (exec : Z -> Store * W -> option (Store * W)) (p : Pipeline) (j id : Z) (x : Store * W)
    : option (Store * W) :=
  let succ := successors (aget (stages p) j) in
  let n := Z.of_nat (length succ) in
  let s := if 0 <? n then AddRef id n x.1 else x.1 in
  match Release id s with
  | None => None
  | Some (last, s) => if last then Some (s, x.2) else run_stages exec succ (s, x.2)
  end.

(** [fuel] bounds the depth of the recursion. *)
Fixpoint ExecuteStage (fuel : nat) (p : Pipeline) (id j : Z) (x : Store * W) : option (Store * W) :=
  match fuel with
  | O => None
  | S fuel =>
    if StageCount p <=? u32 j then Some x
    else
      match
        match handler (config (aget (stages p) (u32 j))) with
        | Some h => h (GetPayloadSize id x.1) id x
        | None => Some x
        end
      with
      | Some x => OnStageComplete (ExecuteStage fuel p id) p (u32 j) id x
      | None => None
      end
  end.

Definition Execute (fuel : nat) (p : Pipeline) (id : Z) (x : Store * W) : option (bool * (Store * W)) :=
  if (entry_stage p <? 0) || (StageCount p <=? u32 (entry_stage p)) then Some (false, x)
  else match ExecuteStage fuel p id (entry_stage p) x with Some x => Some (true, x) | None => None end.

(** Submit; the notification runs when there is no entry stage. *)
Definition Submit (p : Pipeline) (notify : option JobHandler) (timeout_ms now id size consumers : Z) (x : Store * W)
    : option (Store * W) :=
  match submit_ready timeout_ms now (if 0 <? consumers then consumers else EntryFanOut p) id size x.1 with
  | None => None
  | Some s =>
    match Execute (length (stages p)) p id (s, x.2) with
    | None => None
    | Some (true, x) => Some x
    | Some (false, x) => match notify with Some h => h size id x | None => Some x end
    end
  end.

(** ** What a pipeline run amounts to *)

(** Depth first, a stage before its successors. *)
Fixpoint preorder (fuel : nat) (p : Pipeline) (j : Z) : list Z :=
  match fuel with
  | O => []
  | S fuel => j :: flat_map (preorder fuel p) (successors (aget (stages p) j))
  end.

(** The effect of a handler that only adds references to its own block: their
    number and the new world, from the stage, the size, the block and the world. *)
Context (eff : Z -> Z -> Z -> W -> Z * W).

Fixpoint run_trace (len id : Z) (l : list Z) (w : W) : Z * W :=
  match l with
  | [] => (0, w)
  | j :: l => let '(k, w) := eff j len id w in let '(k', w) := run_trace len id l w in (k + k', w)
  end.

End Pipeline.
Arguments JobHandler : clear implicits.
Arguments StageConfig : clear implicits.
Arguments StageSlot : clear implicits.
Arguments Pipeline : clear implicits.

(** ** Building pipelines *)

Section Build.
Context {W : Type} (MaxStages MaxEdges : Z).

(** At most MaxStages stages, at most MaxEdges successors each, all of them stages. *)
Definition pipeline_wf (p : Pipeline W) : Prop :=
  StageCount p <= MaxStages /\
  forall slot, slot ∈ stages p ->
    Z.of_nat (length (successors slot)) <= MaxEdges /\ Forall (fun j => 0 <= j < StageCount p) (successors slot).

Inductive Build := BStage (cfg : StageConfig W) | BEdge (from to : Z) | BEntry (j : Z).
Definition build (b : Build) (p : Pipeline W) : Pipeline W :=
  match b with
  | BStage cfg => (AddStage MaxStages cfg p).2
  | BEdge from to => (AddEdge MaxEdges from to p).2
  | BEntry j => SetEntryStage j p
  end.

Context (HS : 0 <= MaxStages < 2 ^ 31) (HE : 0 <= MaxEdges).

Lemma AddStage_wf cfg p : pipeline_wf p -> pipeline_wf (AddStage MaxStages cfg p).2.
Proof.
  intros [H1 H2]. unfold AddStage. case_bool; [done|]. unfold pipeline_wf, StageCount in *. simpl.
  rewrite length_app. simpl. split; [lia|]. intros slot [Hs|Hs%list_elem_of_singleton]%elem_of_app.
  - destruct (H2 slot Hs) as [H3 H4]. split; [done|]. eapply Forall_impl; [exact H4|]. simpl. lia.
  - subst slot. simpl. split; [lia|constructor].
Qed.

Lemma AddEdge_wf from to p : pipeline_wf p -> from < 2 ^ 31 -> to < 2 ^ 31 -> pipeline_wf (AddEdge MaxEdges from to p).2.
Proof.
  intros [H1 H2] Hf Ht. unfold AddEdge.
  destruct ((from <? 0) || (to <? 0)) eqn:E0; [done|]. apply orb_false_iff in E0 as [E1%Z.ltb_ge E2%Z.ltb_ge].
  rewrite !(wrap_small 32) by (unfold in_range; lia).
  destruct ((StageCount p <=? from) || (StageCount p <=? to)) eqn:E0; [done|].
  apply orb_false_iff in E0 as [E3%Z.leb_gt E4%Z.leb_gt]. case_bool; [done|]. unfold pipeline_wf, StageCount in *. simpl.
  rewrite length_aset. split; [done|]. intros slot Hs.
  assert (Hin : aget (stages p) from ∈ stages p) by (apply list_elem_of_lookup_total_2; lia).
  destruct (H2 _ Hin) as [H3 H4].
  apply list_elem_of_lookup in Hs as [k Hk]. apply list_lookup_insert_Some in Hk as [(<- & <- & _)|[_ Hk]].
  - simpl. rewrite length_app. simpl. split; [lia|]. apply Forall_app. split; [done|]. constructor; [lia|constructor].
  - apply H2. by apply list_elem_of_lookup_2 in Hk.
Qed.

End Build.
Arguments Build : clear implicits.

(** ** Execution *)

Section Execution.
Context {W : Type} (MaxBlocks : Z) (HM : 1 <= MaxBlocks < kJobInvalidIndex).
Context (p : Pipeline W) (eff : Z -> Z -> Z -> W -> Z * W) (rank : Z -> nat).

(** A handler that only adds references to the block it was given. *)
Definition handler_adds (h : option (JobHandler W)) (e : Z -> Z -> W -> Z * W) : Prop :=
  (forall len id w, 0 <= (e len id w).1) /\
  match h with
  | Some h => forall len id s w, h len id (s, w) = Some (AddRef id (e len id w).1 s, (e len id w).2)
  | None => forall len id w, e len id w = (0, w)
  end.

(** The graph has no cycle: [rank] falls along the edges. *)
Definition acyclic : Prop :=
  forall j, 0 <= j < StageCount p ->
    (rank j < length (stages p))%nat /\
    Forall (fun k => 0 <= k < StageCount p /\ (rank k < rank j)%nat) (successors (aget (stages p) j)).
Definition handlers_ok : Prop :=
  forall j, 0 <= j < StageCount p -> handler_adds (handler (config (aget (stages p) j))) (eff j).

Context (Hcount : StageCount p < 2 ^ 31) (Hacy : acyclic) (Hh : handlers_ok).

Lemma run_trace_nonneg len id l w : Forall (fun j => 0 <= j < StageCount p) l -> 0 <= (run_trace eff len id l w).1.
Proof.
  intros Hl. revert w. induction Hl as [|j l Hj Hl IH]; intros w; [done|]. simpl.
  pose proof (proj1 (Hh j Hj) len id w) as H1. destruct (eff j len id w) as [k w1]. specialize (IH w1).
  destruct (run_trace eff len id l w1) as [k' w2]. simpl in *. lia.
Qed.

Lemma run_trace_app len id l l' w :
  run_trace eff len id (l ++ l') w =
    ((run_trace eff len id l w).1 + (run_trace eff len id l' (run_trace eff len id l w).2).1,
     (run_trace eff len id l' (run_trace eff len id l w).2).2).
Proof.
  revert w. induction l as [|j l IH]; intros w; simpl; [by destruct (run_trace eff len id l' w)|].
  destruct (eff j len id w) as [k w1]. rewrite IH. destruct (run_trace eff len id l w1) as [k1 w2]. simpl.
  destruct (run_trace eff len id l' w2). simpl. f_equal. lia.
Qed.

Lemma preorder_valid fuel j : 0 <= j < StageCount p -> Forall (fun j => 0 <= j < StageCount p) (preorder fuel p j).
Proof.
  revert j. induction fuel as [|fuel IH]; intros j Hj; simpl; constructor; [done|].
  destruct (Hacy j Hj) as [_ Hs]. induction Hs as [|k l [Hk _] Hl IHl]; [constructor|]. simpl. apply Forall_app. eauto.
Qed.

Lemma flat_preorder_valid fuel l :
  Forall (fun j => 0 <= j < StageCount p) l -> Forall (fun j => 0 <= j < StageCount p) (flat_map (preorder fuel p) l).
Proof. induction 1 as [|k l Hk Hl IHl]; [constructor|]. simpl. apply Forall_app. split; [by apply preorder_valid|done]. Qed.

(** Every stage of [l] pays for one reference. *)
Lemma flat_preorder_length fuel l : (0 < fuel)%nat -> (length l <= length (flat_map (preorder fuel p) l))%nat.
Proof.
  intros Hf. destruct fuel as [|fuel]; [lia|]. induction l as [|k l IH]; [done|]. cbn [flat_map]. rewrite length_app. simpl in *. lia.
Qed.

(** On an acyclic graph the fuel does not matter: the traversal is complete. *)
Lemma preorder_fuel fuel fuel' j :
  0 <= j < StageCount p -> (rank j < fuel)%nat -> (rank j < fuel')%nat -> preorder fuel p j = preorder fuel' p j.
Proof.
  revert fuel' j. induction fuel as [|fuel IH]; intros [|fuel'] j Hj H1 H2; try lia. simpl. f_equal.
  destruct (Hacy j Hj) as [_ Hs]. induction Hs as [|k l [Hk Hrk] Hl IHl]; [done|]. simpl. rewrite IHl. f_equal. apply IH; lia.
Qed.

Lemma preorder_step j :
  0 <= j < StageCount p ->
  preorder (length (stages p)) p j = j :: flat_map (preorder (length (stages p)) p) (successors (aget (stages p) j)).
Proof.
  intros Hj. destruct (Hacy j Hj) as [Hr Hs]. rewrite (preorder_fuel _ (S (length (stages p)))) by (done || lia). done.
Qed.

Lemma views_length s sp : rel MaxBlocks s sp -> Z.of_nat (length (views sp)) = MaxBlocks.
Proof. by intros [_ [? _ _] _]. Qed.

Section Block.
(** The block the pipeline runs on, and its payload size. *)
Context (id size : Z) (Hid : 0 <= id < MaxBlocks).

Definition runs_on (s : Store) (sp : Spec) : Prop := rel MaxBlocks s sp /\ v_size (aget (views sp) id) = size.

Lemma runs_on_settle s s' sp r : runs_on s sp -> rel MaxBlocks s' (settle id r sp) -> runs_on s' (settle id r sp).
Proof. intros [Hr Hv] Hr'. split; [done|]. rewrite settle_size; [done|]. by rewrite (views_length _ _ Hr). Qed.

(** Taking [n] more references, and dropping one. *)
Lemma add_step n s sp :
  runs_on s sp -> 0 < refs_of id sp -> 0 <= n -> refs_of id sp + n < 2 ^ 32 ->
  runs_on (AddRef id n s) (settle id (refs_of id sp + n) sp) /\ refs_of id (settle id (refs_of id sp + n) sp) = refs_of id sp + n.
Proof.
  intros Hs Hp Hn Hb. pose proof Hs as [Hr _]. pose proof (views_length _ _ Hr) as Hl. split.
  - apply (runs_on_settle s); [done|]. apply AddRef_rel; (done || lia).
  - apply settle_refs; lia.
Qed.

Lemma release_step s sp :
  runs_on s sp -> 0 < refs_of id sp ->
  exists s', Release id s = Some (refs_of id sp =? 1, s') /\ runs_on s' (settle id (refs_of id sp - 1) sp).
Proof.
  intros Hs Hp. destruct (Release_rel MaxBlocks HM id s sp (proj1 Hs) Hid) as (s' & E & Hr').
  unfold spec_release in *. destruct (Z.eqb_spec (refs_of id sp) 0) as [E0|E0]; [lia|]. simpl in *.
  exists s'. split; [exact E|]. by apply (runs_on_settle s).
Qed.

(** [exec] runs the stages of [l] one after the other, each giving up one reference. *)
Lemma run_stages_rel exec (tr : Z -> list Z) l s sp w :
  (forall j s sp w, j ∈ l -> runs_on s sp -> 0 < refs_of id sp ->
    let r := run_trace eff size id (tr j) w in
    refs_of id sp - 1 + 2 * Z.of_nat (length (tr j)) + r.1 < 2 ^ 32 ->
    exists s', exec j (s, w) = Some (s', r.2) /\ runs_on s' (settle id (refs_of id sp - 1 + r.1) sp)) ->
  (forall j, j ∈ l -> tr j <> [] /\ Forall (fun j => 0 <= j < StageCount p) (tr j)) ->
  l <> [] -> runs_on s sp -> Z.of_nat (length l) <= refs_of id sp ->
  let r := run_trace eff size id (flat_map tr l) w in
  refs_of id sp - Z.of_nat (length l) + 2 * Z.of_nat (length (flat_map tr l)) + r.1 < 2 ^ 32 ->
  exists s', run_stages exec l (s, w) = Some (s', r.2) /\ runs_on s' (settle id (refs_of id sp - Z.of_nat (length l) + r.1) sp).
Proof.
  revert s sp w. induction l as [|j l IH]; intros s sp w He Ht Hne Hs Hl; [done|]. cbn [flat_map length run_stages] in *. cbv zeta.
  rewrite run_trace_app, length_app. cbn [fst snd]. intros Hb. pose proof (views_length _ _ (proj1 Hs)) as Hvl.
  assert (Hval : Forall (fun j => 0 <= j < StageCount p) (flat_map tr l)).
  { clear -Ht. induction l as [|k l IHl]; [constructor|]. simpl. apply Forall_app. split; [apply Ht; set_solver|].
    apply IHl. intros i Hi. apply Ht. set_solver. }
  pose proof (Ht j ltac:(set_solver)) as [_ Hj]. pose proof (run_trace_nonneg size id _ w Hj) as H1.
  set (r1 := run_trace eff size id (tr j) w) in *. pose proof (run_trace_nonneg size id _ r1.2 Hval) as H2.
  set (r2 := run_trace eff size id (flat_map tr l) r1.2) in *.
  assert (Hlen : (length l <= length (flat_map tr l))%nat).
  { clear -Ht. induction l as [|k l IHl]; [done|]. cbn [flat_map length]. rewrite length_app.
    destruct (Ht k ltac:(set_solver)) as [Hk _]. destruct (tr k) as [|x xs] eqn:Ex; [done|]. simpl.
    assert (length l <= length (flat_map tr l))%nat; [|lia]. apply IHl. intros i Hi. apply Ht. set_solver. }
  destruct (He j s sp w ltac:(set_solver) Hs ltac:(lia)) as (s1 & E1 & Hs1); [fold r1; lia|]. rewrite E1. fold r1 in Hs1 |- *.
  destruct l as [|j2 l]; [|set (l' := j2 :: l) in *].
  - exists s1. simpl in r2 |- *. split; [done|].
    replace (refs_of id sp - Z.of_nat 1 + (r1.1 + 0)) with (refs_of id sp - 1 + r1.1) by lia. done.
  - assert (Hl' : (0 < length l')%nat) by (subst l'; simpl; lia).
    assert (Hre : refs_of id (settle id (refs_of id sp - 1 + r1.1) sp) = refs_of id sp - 1 + r1.1) by (apply settle_refs; lia).
    destruct (IH s1 _ r1.2 ltac:(intros k ? ? ? Hk; apply He; set_solver) ltac:(intros k Hk; apply Ht; set_solver)
      ltac:(done) Hs1 ltac:(rewrite Hre; lia)) as (s2 & E2 & Hs2); [rewrite Hre; fold r2; lia|].
    exists s2. split; [exact E2|]. rewrite Hre, settle_settle in Hs2 by lia. fold r2 in Hs2.
    replace (refs_of id sp - Z.of_nat (S (length l')) + (r1.1 + r2.1)) with (refs_of id sp - 1 + r1.1 - Z.of_nat (length l') + r2.1) by lia.
    done.
Qed.

(** A handler's references. *)
Lemma handler_step h e s sp w :
  handler_adds h e -> runs_on s sp -> 0 < refs_of id sp -> refs_of id sp + (e size id w).1 < 2 ^ 32 ->
  exists s1 sp1, match h with Some h => h size id (s, w) | None => Some (s, w) end = Some (s1, (e size id w).2) /\
    runs_on s1 sp1 /\ refs_of id sp1 = refs_of id sp + (e size id w).1 /\ forall r, settle id r sp1 = settle id r sp.
Proof.
  intros [Hk Hhj] Hs Hp Hb. specialize (Hk size id w). pose proof (views_length _ _ (proj1 Hs)) as Hvl. destruct h as [h|].
  - rewrite Hhj. destruct (add_step _ s sp Hs Hp Hk ltac:(lia)) as [Ha1 Ha2].
    eexists _, _. split; [done|]. split; [exact Ha1|]. split; [done|]. intros r. apply settle_settle; lia.
  - rewrite Hhj. exists s, sp. rewrite Z.add_0_r. done.
Qed.

(** A stage's reference goes, its successors run. *)
Lemma OnStageComplete_rel exec (tr : Z -> list Z) j s sp w :
  let succ := successors (aget (stages p) j) in
  (forall j s sp w, j ∈ succ -> runs_on s sp -> 0 < refs_of id sp ->
    let r := run_trace eff size id (tr j) w in
    refs_of id sp - 1 + 2 * Z.of_nat (length (tr j)) + r.1 < 2 ^ 32 ->
    exists s', exec j (s, w) = Some (s', r.2) /\ runs_on s' (settle id (refs_of id sp - 1 + r.1) sp)) ->
  (forall j, j ∈ succ -> tr j <> [] /\ Forall (fun j => 0 <= j < StageCount p) (tr j)) ->
  runs_on s sp -> 0 < refs_of id sp ->
  let r := run_trace eff size id (flat_map tr succ) w in
  0 <= r.1 -> (length succ <= length (flat_map tr succ))%nat ->
  refs_of id sp + 2 * Z.of_nat (length (flat_map tr succ)) + r.1 < 2 ^ 32 ->
  exists s', OnStageComplete exec p j id (s, w) = Some (s', r.2) /\ runs_on s' (settle id (refs_of id sp - 1 + r.1) sp).
Proof.
  intros succ He Ht Hs Hp r Hr0 Hls Hb. pose proof (views_length _ _ (proj1 Hs)) as Hvl.
  unfold OnStageComplete. fold succ. cbn [fst snd]. destruct (Z.ltb_spec 0 (Z.of_nat (length succ))) as [Hn|Hn].
  - destruct (add_step (Z.of_nat (length succ)) s sp Hs Hp ltac:(lia) ltac:(lia)) as [Ha1 Ha2].
    destruct (release_step _ _ Ha1 ltac:(lia)) as (s2 & -> & Hs2). rewrite Ha2 in *.
    destruct (Z.eqb_spec (refs_of id sp + Z.of_nat (length succ)) 1); [lia|]. rewrite settle_settle in Hs2 by lia.
    set (sp2 := settle id (refs_of id sp + Z.of_nat (length succ) - 1) sp) in *.
    assert (Hre2 : refs_of id sp2 = refs_of id sp + Z.of_nat (length succ) - 1) by (apply settle_refs; lia).
    destruct (run_stages_rel exec tr succ s2 sp2 w He Ht) as (s3 & E3 & Hs3);
      [by intros E; rewrite E in Hn|exact Hs2|rewrite Hre2; lia|rewrite Hre2; fold r; lia|].
    fold r in E3, Hs3. rewrite Hre2 in Hs3. exists s3. split; [exact E3|]. subst sp2. rewrite settle_settle in Hs3 by lia.
    replace (refs_of id sp - 1 + r.1) with (refs_of id sp + Z.of_nat (length succ) - 1 - Z.of_nat (length succ) + r.1) by lia.
    done.
  - assert (Esucc : succ = []) by (destruct succ; [done|simpl in Hn; lia]). subst r. rewrite Esucc. simpl.
    destruct (release_step s sp Hs Hp) as (s2 & -> & Hs2). exists s2. rewrite Z.add_0_r.
    split; [by destruct (_ =? _)|done].
Qed.

(** The stage, its handler, then its successors. *)
Lemma ExecuteStage_rel fuel j s sp w :
  (rank j < fuel)%nat -> 0 <= j < StageCount p -> runs_on s sp -> 0 < refs_of id sp ->
  let r := run_trace eff size id (preorder fuel p j) w in
  refs_of id sp - 1 + 2 * Z.of_nat (length (preorder fuel p j)) + r.1 < 2 ^ 32 ->
  exists s', ExecuteStage fuel p id j (s, w) = Some (s', r.2) /\ runs_on s' (settle id (refs_of id sp - 1 + r.1) sp).
Proof.
  revert j s sp w. induction fuel as [|fuel IH]; intros j s sp w Hrk Hj Hs Hp; [lia|]. cbv zeta. simpl.
  destruct (Hacy j Hj) as [_ Hsucc]. pose proof (Hh j Hj) as Hhj. pose proof (proj1 Hhj size id w) as Hk.
  rewrite (wrap_small 32) by (unfold in_range; lia). destruct (Z.leb_spec (StageCount p) j); [lia|].
  assert (Hlen : GetPayloadSize id s = size).
  { destruct Hs as [Hr Hv]. destruct (rel_block _ _ _ _ Hr Hid) as (Hb & _). unfold GetPayloadSize. by rewrite Hb. }
  rewrite Hlen. pose proof (handler_step _ _ s sp w Hhj Hs Hp) as Hst. destruct (eff j size id w) as [k w1]. simpl in Hk, Hst.
  set (succ := successors (aget (stages p) j)) in *.
  assert (Hvs : Forall (fun j => 0 <= j < StageCount p) (flat_map (preorder fuel p) succ)).
  { apply flat_preorder_valid. eapply Forall_impl; [exact Hsucc|]. simpl. tauto. }
  assert (Hls : (length succ <= length (flat_map (preorder fuel p) succ))%nat).
  { destruct succ as [|x xs] eqn:Ex; [simpl; lia|]. apply flat_preorder_length. inversion Hsucc as [|? ? [_ Hx]]. lia. }
  pose proof (run_trace_nonneg size id _ w1 Hvs) as Hn2. rewrite Forall_forall in Hsucc.
  destruct (run_trace eff size id (flat_map (preorder fuel p) succ) w1) as [k2 w2] eqn:E2. simpl in Hn2 |- *. intros Hb.
  destruct Hst as (s1 & sp1 & -> & Hs1 & Hre1 & Hset1); [lia|].
  destruct (OnStageComplete_rel (ExecuteStage fuel p id) (preorder fuel p) j s1 sp1 w1) as (s' & E & Hs');
    fold succ; rewrite ?E2; cbn [fst]; try done; try lia.
  - intros i si spi wi Hi Hsi Hpi Hbi. destruct (Hsucc i Hi). apply IH; (done || lia).
  - intros i Hi. destruct (Hsucc i Hi). split; [destruct fuel; [lia|done]|by apply preorder_valid].
  - fold succ in E, Hs'. rewrite E2 in E, Hs'. exists s'. split; [exact E|]. rewrite Hset1, Hre1 in Hs'.
    replace (refs_of id sp - 1 + (k + k2)) with (refs_of id sp + k - 1 + k2) by lia. done.
Qed.
End Block.

(** ** Submit *)

Context (notify : option (JobHandler W)) (neff : Z -> Z -> W -> Z * W) (Hnotify : handler_adds notify neff).
Context (Hentry : - 2 ^ 31 <= entry_stage p < 2 ^ 31).

(** The block becomes ready with its references; the entry stage gives up one, the
    handlers (or the notification) may add some, and what is left remains.
    [None] outside of the client's contract. *)
Definition spec_submit_run (timeout_ms now id size consumers : Z) (x : Spec * W) : option (Spec * W) :=
  match spec_submit timeout_ms now consumers id size x.1 with
  | None => None
  | Some sp =>
    let refs := refs_of id sp in
    if valid_stage (entry_stage p) p then
      let trace := preorder (length (stages p)) p (entry_stage p) in
      let '(k, w) := run_trace eff size id trace x.2 in
      if refs + 2 * Z.of_nat (length trace) + k <? 2 ^ 32 then Some (settle id (refs - 1 + k) sp, w) else None
    else
      let '(k, w) := neff size id x.2 in
      if refs + k <? 2 ^ 32 then Some (settle id (refs + k) sp, w) else None
  end.

Lemma spec_submit_refs timeout_ms now consumers id size sp sp' :
  0 <= id < Z.of_nat (length (views sp)) -> 0 <= consumers < 2 ^ 32 ->
  spec_submit timeout_ms now consumers id size sp = Some sp' ->
  refs_of id sp' = (if 0 <? consumers then consumers else 1) /\ v_size (aget (views sp') id) = size /\
  length (views sp') = length (views sp).
Proof.
  intros Hi Hc. unfold spec_submit. destruct (view_of id sp); try done. injection 1 as <-.
  unfold refs_of, view_of. simpl. rewrite aget_aset_eq by done. rewrite length_aset. done.
Qed.

Lemma settle_same id sp : 0 < refs_of id sp -> settle id (refs_of id sp) sp = sp.
Proof.
  intros Hp. destruct (refs_view id sp ltac:(lia)) as [d Hd]. rewrite (settle_pos _ _ d) by done. unfold set_view, view_of in *.
  destruct sp as [vs st v tb]. simpl in *. rewrite <- Hd. f_equal.
  replace (mkV (v_view (aget vs id)) (v_size (aget vs id)) (v_gen (aget vs id))) with (aget vs id) by by destruct (aget vs id).
  apply list_insert_id'. intros Hlt. by apply list_lookup_lookup_total_lt.
Qed.

Lemma Submit_rel timeout_ms now id size consumers s sp w x' :
  rel MaxBlocks s sp -> 0 <= id < MaxBlocks -> 0 <= consumers < 2 ^ 32 ->
  spec_submit_run timeout_ms now id size consumers (sp, w) = Some x' ->
  exists s', Submit p notify timeout_ms now id size consumers (s, w) = Some (s', x'.2) /\ rel MaxBlocks s' x'.1.
Proof.
  intros Hr Hid Hc. pose proof (views_length _ _ Hr) as Hvl. unfold spec_submit_run, Submit, EntryFanOut. cbn [fst snd].
  destruct (spec_submit timeout_ms now consumers id size sp) as [sp1|] eqn:E; [|done].
  destruct (spec_submit_refs timeout_ms now consumers id size sp sp1 ltac:(lia) Hc E) as (Hrefs & Hsz & Hvl1).
  assert (E' : spec_submit timeout_ms now (if 0 <? consumers then consumers else 1) id size sp = Some sp1)
    by (rewrite <- E; unfold spec_submit; destruct (0 <? consumers) eqn:Ec; [by rewrite Ec|done]).
  destruct (submit_ready_rel MaxBlocks HM timeout_ms now (if 0 <? consumers then consumers else 1) id size s sp sp1 Hr Hid
    ltac:(destruct (Z.ltb_spec 0 consumers); lia) E') as (s1 & -> & Hr1).
  assert (Hs1 : runs_on id size s1 sp1) by done.
  assert (Hpos : 0 < refs_of id sp1) by (rewrite Hrefs; destruct (Z.ltb_spec 0 consumers); lia).
  unfold Execute, valid_stage. destruct ((entry_stage p <? 0) || (StageCount p <=? u32 (entry_stage p))) eqn:Ee; simpl.
  - pose proof (proj1 Hnotify size id w) as Hk. destruct (neff size id w) as [k w1] eqn:En. simpl in Hk.
    destruct (Z.ltb_spec (refs_of id sp1 + k) (2 ^ 32)); [|done]. injection 1 as <-. simpl.
    destruct (handler_step id size Hid notify neff s1 sp1 w Hnotify Hs1 Hpos) as (s2 & sp2 & Eh & Hs2 & Hre & Hset); [rewrite En; done|].
    rewrite En in Eh, Hre. simpl in Eh, Hre. rewrite Eh. exists s2. split; [done|].
    rewrite <- Hre, <- Hset, settle_same by lia. apply Hs2.
  - apply orb_false_iff in Ee as [Ee1%Z.ltb_ge Ee2%Z.leb_gt]. rewrite (wrap_small 32) in Ee2 by (unfold in_range; lia).
    destruct (run_trace eff size id _ w) as [k w1] eqn:Et. case_bool; [|done]. injection 1 as <-. simpl.
    destruct (ExecuteStage_rel id size Hid (length (stages p)) (entry_stage p) s1 sp1 w) as (s2 & -> & Hs2);
      [apply (Hacy (entry_stage p)); lia|lia|done|done|rewrite Et; simpl; lia|].
    rewrite Et in *. exists s2. split; [done|]. apply Hs2.
Qed.

End Execution.

(** ** Runs of the API *)

Inductive Op :=
| OAlloc (now : Z)
| OSubmit (id size consumers now : Z)
| ORelease (id : Z)
| OReleaseGen (id generation : Z)
| OAddRef (id n : Z)
| OAddRefGen (id n generation : Z)
| OPayloadSize (id : Z)
| OPayloadSizeGen (id generation : Z)
| OGeneration (id : Z)
| OState (id : Z)
| OCounts
| OScanTimeout (now : Z)
| OForceCleanup (ids : list Z)
| ORegister (pid now : Z)
| OUnregister (slot : Z)
| OHeartbeat (slot now : Z)
| OHold (slot id : Z)
| OUnhold (slot id : Z)
| OCleanupDead (now : Z -> Z).

Inductive Res := RUnit | RId (id : option Z) | RBool (b : bool) | RNum (n : Z) | RState (s : BlockState) | RCounts (free alloc : Z) | RIds (l : list Z).

Section Runs.
Context {W : Type} (MaxBlocks : Z) (p : Pipeline W) (notify : option (JobHandler W)) (threshold timeout_ms : Z).

(** The block number is asserted to be in range. *)
Definition in_pool (id : Z) {A} (x : option A) : option A := if (0 <=? id) && (id <? MaxBlocks) then x else None.
Definition selected (ids : list Z) (i : Z) : bool := existsb (Z.eqb i) ids.

Definition dispatch (o : Op) (x : Store * W) : option (Res * (Store * W)) :=
  let '(s, w) := x in
  match o with
  | OAlloc now => match Alloc threshold now s with Some (r, _, s) => Some (RId r, (s, w)) | None => None end
  | OSubmit id size consumers now =>
    in_pool id (match Submit p notify timeout_ms now id size consumers x with Some x => Some (RUnit, x) | None => None end)
  | ORelease id => in_pool id (match Release id s with Some (b, s) => Some (RBool b, (s, w)) | None => None end)
  | OReleaseGen id g => in_pool id (match ReleaseChecked id g s with Some (b, s) => Some (RBool b, (s, w)) | None => None end)
  | OAddRef id n => in_pool id (Some (RUnit, (AddRef id n s, w)))
  | OAddRefGen id n g => in_pool id (Some (RUnit, (AddRefChecked id n g s, w)))
  | OPayloadSize id => in_pool id (Some (RNum (GetPayloadSize id s), x))
  | OPayloadSizeGen id g => in_pool id (Some (RNum (GetPayloadSizeChecked id g s), x))
  | OGeneration id => in_pool id (Some (RNum (GetGeneration id s), x))
  | OState id => in_pool id (Some (RState (GetBlockState id s), x))
  | OCounts => Some (RCounts (FreeBlocks s) (AllocBlocks s), x)
  | OScanTimeout now => match ScanTimeout MaxBlocks now s with Some (l, s) => Some (RIds l, (s, w)) | None => None end
  | OForceCleanup ids => match ForceCleanup MaxBlocks (selected ids) s with Some (l, s) => Some (RIds l, (s, w)) | None => None end
  | ORegister pid now => let '(i, s) := RegisterConsumer pid now s in Some (RNum i, (s, w))
  | OUnregister i => Some (RUnit, (UnregisterConsumer i s, w))
  | OHeartbeat i now => Some (RUnit, (ConsumerHeartbeat i now s, w))
  | OHold i id => in_pool id (Some (RUnit, (TrackBlockHold i id s, w)))
  | OUnhold i id => in_pool id (Some (RUnit, (TrackBlockRelease i id s, w)))
  | OCleanupDead now => match CleanupDeadConsumers MaxBlocks now s with Some (n, s) => Some (RNum n, (s, w)) | None => None end
  end.

Fixpoint dispatch_all (ops : list Op) (x : Store * W) : option (list Res * (Store * W)) :=
  match ops with
  | [] => Some ([], x)
  | o :: ops =>
    match dispatch o x with
    | None => None
    | Some (r, x) => match dispatch_all ops x with Some (rs, x) => Some (r :: rs, x) | None => None end
    end
  end.

(** The same operations on the specification. *)
Context (eff : Z -> Z -> Z -> W -> Z * W) (neff : Z -> Z -> W -> Z * W).

Definition gen_of (id : Z) (sp : Spec) : Z := v_gen (aget (views sp) id).
Definition size_of (id : Z) (sp : Spec) : Z := v_size (aget (views sp) id).
Definition state_of (id : Z) (sp : Spec) : BlockState :=
  match view_of id sp with VFree => kFree | VAlloc => kAllocated | VReady _ _ => kReady end.

(** The consumer table: the first inactive entry is taken, entries are changed in
    place, numbers outside the table are ignored. *)
Definition spec_register (pid now : Z) (sp : Spec) : Z * Spec :=
  match list_find (fun c => active c = 0) (table sp) with
  | Some (i, _) => (Z.of_nat i, set_table (<[i := mkSlot 1 pid now 0]> (table sp)) sp)
  | None => (-1, sp)
  end.
Definition update_slot (i : Z) (f : ConsumerSlot -> ConsumerSlot) (sp : Spec) : Spec :=
  if (0 <=? i) && (i <? Z.of_nat (length (table sp))) then set_table (aset (table sp) i (f (aget (table sp) i))) sp else sp.

Definition spec_dispatch (o : Op) (x : Spec * W) : option (Res * (Spec * W)) :=
  let '(sp, w) := x in
  match o with
  | OAlloc _ => let '(r, sp) := spec_alloc sp in Some (RId r, (sp, w))
  | OSubmit id size consumers now =>
    if (0 <=? consumers) && (consumers <? 2 ^ 32) then
      in_pool id (match spec_submit_run p eff neff timeout_ms now id size consumers x with Some x => Some (RUnit, x) | None => None end)
    else None
  | ORelease id => in_pool id (let '(b, sp) := spec_release id sp in Some (RBool b, (sp, w)))
  | OReleaseGen id g =>
    in_pool id (if g =? gen_of id sp then let '(b, sp) := spec_release id sp in Some (RBool b, (sp, w)) else Some (RBool false, x))
  | OAddRef id n => if n <? 0 then None else in_pool id (match spec_addref id n sp with Some sp => Some (RUnit, (sp, w)) | None => None end)
  | OAddRefGen id n g =>
    if n <? 0 then None
    else in_pool id (if g =? gen_of id sp then match spec_addref id n sp with Some sp => Some (RUnit, (sp, w)) | None => None end
                     else Some (RUnit, x))
  | OPayloadSize id => in_pool id (Some (RNum (size_of id sp), x))
  | OPayloadSizeGen id g => in_pool id (Some (RNum (if g =? gen_of id sp then size_of id sp else 0), x))
  | OGeneration id => in_pool id (Some (RNum (gen_of id sp), x))
  | OState id => in_pool id (Some (RState (state_of id sp), x))
  | OCounts => Some (RCounts (Z.of_nat (length (stack sp))) (MaxBlocks - Z.of_nat (length (stack sp))), x)
  | OScanTimeout now => let '(l, sp) := spec_reclaim MaxBlocks (overdue now) sp in Some (RIds l, (sp, w))
  | OForceCleanup ids => let '(l, sp) := spec_reclaim MaxBlocks (matching (selected ids)) sp in Some (RIds l, (sp, w))
  | ORegister pid now => let '(i, sp) := spec_register pid now sp in Some (RNum i, (sp, w))
  | OUnregister i => Some (RUnit, (update_slot i (fun _ => mkSlot 0 0 0 0) sp, w))
  | OHeartbeat i now => Some (RUnit, (update_slot i (fun c => mkSlot (active c) (pid c) now (holding_mask c)) sp, w))
  | OHold i id => in_pool id (Some (RUnit, (update_slot i (fun c => set_mask (Z.setbit (holding_mask c) id) c) sp, w)))
  | OUnhold i id => in_pool id (Some (RUnit, (update_slot i (fun c => set_mask (Z.clearbit (holding_mask c) id) c) sp, w)))
  | OCleanupDead now => let '(n, sp) := spec_cleanup MaxBlocks now sp in Some (RNum (u32 n), (sp, w))
  end.

Fixpoint spec_dispatch_all (ops : list Op) (x : Spec * W) : option (list Res * (Spec * W)) :=
  match ops with
  | [] => Some ([], x)
  | o :: ops =>
    match spec_dispatch o x with
    | None => None
    | Some (r, x) => match spec_dispatch_all ops x with Some (rs, x) => Some (r :: rs, x) | None => None end
    end
  end.

End Runs.

(** ** The refinement *)

Section Refines.
Context {W : Type} (MaxBlocks : Z) (HM : 1 <= MaxBlocks < kJobInvalidIndex).

(** The masks are 64 bits wide; a table comes with at most 64 blocks. *)
Definition table_ok (l : list ConsumerSlot) : Prop :=
  Forall (fun c => in_range 64 (holding_mask c)) l /\ (l <> [] -> MaxBlocks <= 64).

Definition linked_to (s : Store) (sp : Spec) : Prop := rel MaxBlocks s sp /\ table_ok (table sp).

Lemma valid_slot_spec i s sp : rel MaxBlocks s sp -> valid_slot i s = (0 <=? i) && (i <? Z.of_nat (length (table sp))).
Proof.
  intros Hr. unfold valid_slot, MaxConsumers. rewrite (r_slots _ _ _ Hr).
  destruct (Z.ltb_spec i 0), (Z.leb_spec (Z.of_nat (length (table sp))) i), (Z.leb_spec 0 i), (Z.ltb_spec i (Z.of_nat (length (table sp)))); (done || lia).
Qed.

Lemma table_ok_aset l i c : table_ok l -> in_range 64 (holding_mask c) -> table_ok (aset l i c).
Proof.
  intros [H1 H2] Hc. split; [by apply Forall_insert|]. intros Hn. apply H2. intros ->. by apply Hn.
Qed.

(** Changing one entry of the table. *)
Lemma update_slot_rel i f g s sp :
  linked_to s sp ->
  (forall c, in_range 64 (holding_mask c) -> MaxBlocks <= 64 -> f c = g c /\ in_range 64 (holding_mask (g c))) ->
  linked_to (if valid_slot i s then put_slot i (f (GetConsumerSlot i s)) s else s) (update_slot i g sp).
Proof.
  intros [Hr Ht] Hfg. unfold update_slot. rewrite (valid_slot_spec _ _ sp) by done.
  destruct ((0 <=? i) && (i <? Z.of_nat (length (table sp)))) eqn:E; [|done].
  apply andb_true_iff in E as [E1%Z.leb_le E2%Z.ltb_lt]. unfold GetConsumerSlot, put_slot. rewrite (r_slots _ _ _ Hr).
  assert (Hc : in_range 64 (holding_mask (aget (table sp) i))).
  { destruct Ht as [Ht _]. rewrite Forall_forall in Ht. apply Ht, list_elem_of_lookup_total_2. lia. }
  destruct (Hfg _ Hc) as [-> Hg]; [apply Ht; intros E; rewrite E in E2; simpl in E2; lia|].
  split; [by apply rel_slots|]. by apply table_ok_aset.
Qed.

Lemma consumer_register_loop n i pid now s :
  0 <= i -> i + Z.of_nat n = MaxConsumers s ->
  register_loop n i pid now s =
    match list_find (fun c => active c = 0) (drop (Z.to_nat i) (slots s)) with
    | Some (k, _) => (i + Z.of_nat k, put_slot (i + Z.of_nat k) (mkSlot 1 pid now 0) s)
    | None => (-1, s)
    end.
Proof.
  unfold MaxConsumers. revert i. induction n as [|n IH]; intros i Hi Hn.
  - rewrite drop_ge by lia. done.
  - assert (Hlt : (Z.to_nat i < length (slots s))%nat) by lia. simpl. rewrite (drop_S _ (GetConsumerSlot i s))
      by (unfold GetConsumerSlot, aget; by apply list_lookup_lookup_total_lt). simpl.
    destruct (Z.eqb_spec (active (GetConsumerSlot i s)) 0) as [E|E]; [rewrite decide_True by done|rewrite decide_False by done].
    + by rewrite Z.add_0_r.
    + rewrite IH by lia. replace (Z.to_nat (i + 1)) with (S (Z.to_nat i)) by lia. destruct (list_find _ _) as [ [k c]|]; [|done]. simpl.
      by replace (i + 1 + Z.of_nat k) with (i + Z.of_nat (S k)) by lia.
Qed.

Lemma RegisterConsumer_rel pid now s sp :
  linked_to s sp -> (RegisterConsumer pid now s).1 = (spec_register pid now sp).1 /\
    linked_to (RegisterConsumer pid now s).2 (spec_register pid now sp).2.
Proof.
  intros [Hr Ht]. unfold RegisterConsumer, spec_register. rewrite consumer_register_loop by (unfold MaxConsumers; lia). rewrite drop_0.
  rewrite (r_slots _ _ _ Hr). destruct (list_find _ _) as [ [k c]|] eqn:E; [|done]. rewrite Z.add_0_l. simpl. split; [done|].
  unfold put_slot, aset. rewrite Nat2Z.id, (r_slots _ _ _ Hr). split; [by apply rel_slots|].
  pose proof (table_ok_aset _ (Z.of_nat k) (mkSlot 1 pid now 0) Ht ltac:(done)) as Ht'. unfold aset in Ht'. by rewrite Nat2Z.id in Ht'.
Qed.

(** The table along the block operations. *)
Lemma linked_same_table s s' sp sp' : linked_to s sp -> rel MaxBlocks s' sp' -> table sp' = table sp -> linked_to s' sp'.
Proof. intros [_ Ht] Hr E. split; [done|]. by rewrite E. Qed.

Lemma spec_release_table id sp : table (spec_release id sp).2 = table sp.
Proof. unfold spec_release. destruct (refs_of id sp =? 0); [done|]. apply settle_table. Qed.

Lemma spec_alloc_table sp : table (spec_alloc sp).2 = table sp.
Proof. unfold spec_alloc. by destruct (stack sp). Qed.

Lemma spec_reclaim_table due sp : table (spec_reclaim MaxBlocks due sp).2 = table sp.
Proof.
  unfold spec_reclaim. simpl. generalize (filter (fun i => due i (aget (views sp) i) = true) (seqZ 0 MaxBlocks)). intros ids.
  revert sp. induction ids as [|i ids IH]; intros sp; [done|]. simpl. by rewrite IH.
Qed.

Lemma cleanup_slot_table now acc i : table_ok (table acc.2) -> table_ok (table (spec_cleanup_slot MaxBlocks now acc i).2).
Proof.
  intros Ht. unfold spec_cleanup_slot. destruct (negb _ && negb _); [done|]. rewrite spec_drop_table. simpl.
  by apply table_ok_aset.
Qed.

Lemma spec_cleanup_table now sp : table_ok (table sp) -> table_ok (table (spec_cleanup MaxBlocks now sp).2).
Proof.
  intros Ht. unfold spec_cleanup. generalize (seqZ 0 (Z.of_nat (length (table sp)))). intros ids.
  assert (Hg : forall acc, table_ok (table acc.2) -> table_ok (table (foldl (spec_cleanup_slot MaxBlocks now) acc ids).2)); [|by apply Hg].
  induction ids as [|i ids IH]; intros acc Hacc; [done|]. simpl. by apply IH, cleanup_slot_table.
Qed.

Lemma gen_of_reserved id s sp : linked_to s sp -> 0 <= id < MaxBlocks -> GetGeneration id s = gen_of id sp.
Proof. intros [Hr _] Hid. by destruct (rel_block _ _ _ _ Hr Hid) as (_ & ? & _). Qed.

Lemma size_of_payload id s sp : linked_to s sp -> 0 <= id < MaxBlocks -> GetPayloadSize id s = size_of id sp.
Proof. intros [Hr _] Hid. by destruct (rel_block _ _ _ _ Hr Hid) as (? & _). Qed.

Lemma state_of_state id s sp : linked_to s sp -> 0 <= id < MaxBlocks -> GetBlockState id s = state_of id sp.
Proof.
  intros [Hr _] Hid. destruct (rel_block _ _ _ _ Hr Hid) as (_ & _ & Hb). unfold GetBlockState, state_of, view_of.
  destruct (v_view (aget (views sp) id)); tauto.
Qed.

Context (p : Pipeline W) (eff : Z -> Z -> Z -> W -> Z * W) (rank : Z -> nat).
Context (notify : option (JobHandler W)) (neff : Z -> Z -> W -> Z * W) (threshold timeout_ms : Z).

(** What the refinement asks of the pipeline: it is acyclic, its numbers fit, and
    the handlers touch the dispatcher only to add references to their block. *)
Record pipeline_ok : Prop := {
  pk_count : StageCount p < 2 ^ 31;
  pk_entry : - 2 ^ 31 <= entry_stage p < 2 ^ 31;
  pk_acyclic : acyclic p rank;
  pk_handlers : handlers_ok p eff;
  pk_notify : handler_adds notify neff
}.
Context (Hp : pipeline_ok).

Lemma spec_submit_run_table now id size consumers x x' :
  spec_submit_run p eff neff timeout_ms now id size consumers x = Some x' -> table x'.1 = table x.1.
Proof.
  unfold spec_submit_run. destruct (spec_submit _ _ _ _ _ _) as [sp|] eqn:E; [|done].
  assert (Ht : table sp = table x.1) by (unfold spec_submit in E; destruct (view_of id x.1); try done; by injection E as <-).
  destruct (valid_stage _ _).
  - destruct (run_trace _ _ _ _ _). case_bool; [|done]. injection 1 as <-. simpl. by rewrite settle_table.
  - destruct (neff _ _ _). case_bool; [|done]. injection 1 as <-. simpl. by rewrite settle_table.
Qed.

Lemma in_pool_some {A} id (x : option A) y : in_pool MaxBlocks id x = Some y -> 0 <= id < MaxBlocks /\ x = Some y.
Proof.
  unfold in_pool. destruct (_ && _) eqn:E; [|done]. apply andb_true_iff in E as [E1%Z.leb_le E2%Z.ltb_lt]. done.
Qed.

Lemma in_pool_in {A} id (x : option A) : 0 <= id < MaxBlocks -> in_pool MaxBlocks id x = x.
Proof. intros. unfold in_pool. rewrite (proj2 (Z.leb_le _ _)), (proj2 (Z.ltb_lt _ _)) by lia. done. Qed.

Lemma dispatch_submit_rel id size consumers now s sp w r x' :
  linked_to s sp ->
  spec_dispatch MaxBlocks p timeout_ms eff neff (OSubmit id size consumers now) (sp, w) = Some (r, x') ->
  exists s', dispatch MaxBlocks p notify threshold timeout_ms (OSubmit id size consumers now) (s, w) = Some (r, (s', x'.2)) /\
    linked_to s' x'.1.
Proof.
  intros Hl. simpl. destruct (_ && _) eqn:Ec; [|done]. apply andb_true_iff in Ec as [Ec1%Z.leb_le Ec2%Z.ltb_lt].
  intros [Hid Hx]%in_pool_some. rewrite in_pool_in by done.
  destruct (spec_submit_run _ _ _ _ _ _ _ _ _) as [x1|] eqn:E; [|done]. injection Hx as <- <-.
  destruct Hp as [H1 H2 H3 H4 H5].
  destruct (Submit_rel MaxBlocks HM p eff rank H1 H3 H4 notify neff H5 H2 timeout_ms now id size consumers s sp w x1) as (s' & -> & Hr');
    [apply Hl|done|done|done|].
  exists s'. split; [done|]. apply (linked_same_table s _ sp); [done|done|]. by apply spec_submit_run_table in E.
Qed.

Lemma addref_rel id n s sp sp' :
  linked_to s sp -> 0 <= id < MaxBlocks -> 0 <= n -> spec_addref id n sp = Some sp' -> linked_to (AddRef id n s) sp'.
Proof.
  intros Hl Hid Hn. unfold spec_addref. destruct (_ || _) eqn:E; [done|]. injection 1 as <-.
  apply orb_false_iff in E as [E1%Z.eqb_neq E2%Z.leb_gt]. apply (linked_same_table s _ sp); [done| |apply settle_table].
  apply AddRef_rel; try done. apply Hl.
Qed.

Lemma release_linked id s sp :
  linked_to s sp -> 0 <= id < MaxBlocks -> exists s', Release id s = Some ((spec_release id sp).1, s') /\ linked_to s' (spec_release id sp).2.
Proof.
  intros Hl Hid. destruct (Release_rel MaxBlocks HM id s sp (proj1 Hl) Hid) as (s' & -> & Hr'). exists s'. split; [done|].
  apply (linked_same_table s _ sp); [done|done|apply spec_release_table].
Qed.

(** One call, on both sides. *)
Lemma api_call_rel o s sp w r x' :
  linked_to s sp -> spec_dispatch MaxBlocks p timeout_ms eff neff o (sp, w) = Some (r, x') ->
  exists s', dispatch MaxBlocks p notify threshold timeout_ms o (s, w) = Some (r, (s', x'.2)) /\ linked_to s' x'.1.
Proof.
  intros Hl. destruct o as [now|id size consumers now|id|id g|id n|id n g|id|id g|id|id| |now|ids|new_pid now|i|i now|i id|i id|now];
    [|by apply dispatch_submit_rel|..]; simpl.
  - destruct (Alloc_rel MaxBlocks HM threshold now s sp (proj1 Hl)) as (b & s' & -> & Hr'). pose proof (spec_alloc_table sp) as Et.
    destruct (spec_alloc sp) as [y sp']. injection 1 as <- <-. exists s'. split; [done|]. by apply (linked_same_table s _ sp).
  - intros [Hid Hx]%in_pool_some. rewrite in_pool_in by done. destruct (release_linked id s sp Hl Hid) as (s' & -> & Hl').
    destruct (spec_release id sp) as [b sp']. injection Hx as <- <-. eauto.
  - intros [Hid Hx]%in_pool_some. rewrite in_pool_in by done. unfold ReleaseChecked. rewrite (gen_of_reserved _ _ sp) by done.
    destruct (g =? gen_of id sp); simpl; [|injection Hx as <- <-; eauto].
    destruct (release_linked id s sp Hl Hid) as (s' & -> & Hl'). destruct (spec_release id sp) as [b sp']. injection Hx as <- <-. eauto.
  - destruct (Z.ltb_spec n 0); [done|]. intros [Hid Hx]%in_pool_some. rewrite in_pool_in by done.
    destruct (spec_addref id n sp) as [sp'|] eqn:E; [|done]. injection Hx as <- <-. eexists. split; [done|]. by apply (addref_rel id n s sp).
  - destruct (Z.ltb_spec n 0); [done|]. intros [Hid Hx]%in_pool_some. rewrite in_pool_in by done. unfold AddRefChecked.
    rewrite (gen_of_reserved _ _ sp) by done. destruct (g =? gen_of id sp); simpl; [|injection Hx as <- <-; eauto].
    destruct (spec_addref id n sp) as [sp'|] eqn:E; [|done]. injection Hx as <- <-. eexists. split; [done|]. by apply (addref_rel id n s sp).
  - intros [Hid Hx]%in_pool_some. rewrite in_pool_in, (size_of_payload _ _ sp) by done. injection Hx as <- <-. eauto.
  - intros [Hid Hx]%in_pool_some. rewrite in_pool_in by done. unfold GetPayloadSizeChecked.
    rewrite (gen_of_reserved _ _ sp), (size_of_payload _ _ sp) by done. injection Hx as <- <-. destruct (g =? gen_of id sp); eauto.
  - intros [Hid Hx]%in_pool_some. rewrite in_pool_in, (gen_of_reserved _ _ sp) by done. injection Hx as <- <-. eauto.
  - intros [Hid Hx]%in_pool_some. rewrite in_pool_in, (state_of_state _ _ sp) by done. injection Hx as <- <-. eauto.
  - injection 1 as <- <-. exists s. split; [|done]. destruct (r_pool _ _ _ (proj1 Hl)) as [_ _ _ _ H5 H6].
    unfold FreeBlocks, AllocBlocks. by rewrite H5, H6.
  - destruct (ScanTimeout_rel MaxBlocks HM now s sp (proj1 Hl)) as (s' & -> & Hr'). pose proof (spec_reclaim_table (overdue now) sp) as Et.
    injection 1 as <- <-. exists s'. split; [done|]. by apply (linked_same_table s _ sp).
  - destruct (ForceCleanup_rel MaxBlocks HM (selected ids) s sp (proj1 Hl)) as (s' & -> & Hr').
    pose proof (spec_reclaim_table (matching (selected ids)) sp) as Et.
    injection 1 as <- <-. exists s'. split; [done|]. by apply (linked_same_table s _ sp).
  - destruct (RegisterConsumer_rel new_pid now s sp Hl) as [E Hl']. destruct (RegisterConsumer _ _ _) as [i s'].
    destruct (spec_register _ _ _) as [i' sp']. simpl in E. subst i'. injection 1 as <- <-. eauto.
  - injection 1 as <- <-. eexists. split; [done|]. by apply (update_slot_rel i (fun _ => mkSlot 0 0 0 0)).
  - injection 1 as <- <-. eexists. split; [done|].
    by apply (update_slot_rel i (fun c => mkSlot (active c) (pid c) now (holding_mask c))).
  - intros [Hid Hx]%in_pool_some. rewrite in_pool_in by done. injection Hx as <- <-. eexists. split; [done|].
    apply (update_slot_rel i (fun c => set_mask (Z.lor (holding_mask c) (u64 (Z.shiftl 1 id))) c)); [done|].
    intros c Hc H64. destruct (hold_bit (holding_mask c) id Hc ltac:(lia)) as [-> ?]. done.
  - intros [Hid Hx]%in_pool_some. rewrite in_pool_in by done. injection Hx as <- <-. eexists. split; [done|].
    apply (update_slot_rel i (fun c => set_mask (Z.land (holding_mask c) (u64 (Z.lnot (u64 (Z.shiftl 1 id))))) c)); [done|].
    intros c Hc H64. destruct (unhold_bit (holding_mask c) id Hc ltac:(lia)) as [-> ?]. done.
  - destruct Hl as [Hr Ht]. destruct (CleanupDeadConsumers_rel MaxBlocks HM now s sp Hr (proj2 Ht)) as (s' & -> & Hr').
    pose proof (spec_cleanup_table now sp Ht) as Ht'. destruct (spec_cleanup MaxBlocks now sp) as [n sp']. injection 1 as <- <-.
    exists s'. done.
Qed.

Lemma dispatch_all_rel ops s sp w rs x' :
  linked_to s sp -> spec_dispatch_all MaxBlocks p timeout_ms eff neff ops (sp, w) = Some (rs, x') ->
  exists s', dispatch_all MaxBlocks p notify threshold timeout_ms ops (s, w) = Some (rs, (s', x'.2)) /\ linked_to s' x'.1.
Proof.
  revert s sp w rs. induction ops as [|o ops IH]; intros s sp w rs Hl; cbn [spec_dispatch_all dispatch_all].
  - injection 1 as <- <-. eauto.
  - destruct (spec_dispatch _ _ _ _ _ o (sp, w)) as [ [r [sp1 w1]]|] eqn:E; [|done].
    destruct (api_call_rel _ _ _ _ _ _ Hl E) as (s1 & -> & Hl1).
    destruct (spec_dispatch_all _ _ _ _ _ ops (sp1, w1)) as [ [rs1 x1]|] eqn:E1; [|done].
    injection 1 as <- <-. destruct (IH _ _ _ _ Hl1 E1) as (s2 & E2 & Hl2). simpl in E2 |- *. rewrite E2. eauto.
Qed.

End Refines.

(** ** The theorems *)

(** C10. Refinement: any run of the dispatcher's API (allocation, submission
    through an acyclic pipeline whose handlers add references to their block,
    releases and references with and without a generation, time-out scans, forced
    clean-up, the consumer table and the reaping of dead consumers, and all
    queries) that keeps to the client's contract returns what the block
    specification returns and leaves the world of the handlers as it says, no
    assertion failing; a block is free exactly when it is on the specification's
    stack, and the counters add up to the pool. *)
Theorem dispatcher_refines_blocks {W} MaxBlocks (p : Pipeline W) eff rank notify neff threshold timeout_ms mem n ops w rs sp w' :
  1 <= MaxBlocks < kJobInvalidIndex -> Z.of_nat (length mem) = MaxBlocks -> (0 < n -> MaxBlocks <= 64) ->
  pipeline_ok p eff rank notify neff ->
  spec_dispatch_all MaxBlocks p timeout_ms eff neff ops (spec_init MaxBlocks n, w) = Some (rs, (sp, w')) ->
  exists s', dispatch_all MaxBlocks p notify threshold timeout_ms ops (Init MaxBlocks mem n, w) = Some (rs, (s', w')) /\
    FreeBlocks s' = Z.of_nat (length (stack sp)) /\ FreeBlocks s' + AllocBlocks s' = MaxBlocks /\
    forall id, 0 <= id < MaxBlocks -> GetBlockState id s' = kFree <-> id ∈ stack sp.
Proof.
  intros HM Hmem Hn Hp Hrun.
  assert (Hl : linked_to MaxBlocks (Init MaxBlocks mem n) (spec_init MaxBlocks n)).
  { split; [by apply Init_rel|]. split; simpl; [by apply Forall_replicate|]. intros Hne. apply Hn.
    destruct (Z.to_nat n) eqn:E; [done|lia]. }
  destruct (dispatch_all_rel MaxBlocks HM p eff rank notify neff threshold timeout_ms Hp ops _ _ w rs _ Hl Hrun) as (s' & Hs & Hl').
  simpl in Hs, Hl'. exists s'. split; [exact Hs|]. pose proof (r_pool _ _ _ (proj1 Hl')) as [_ _ _ _ H5 H6].
  unfold FreeBlocks, AllocBlocks. rewrite H5, H6. split; [done|]. split; [lia|]. intros id Hid.
  rewrite (state_of_state MaxBlocks HM id s' sp Hl' Hid), <- (vo_free _ _ _ _ (r_views _ _ _ (proj1 Hl')) id Hid).
  unfold state_of. by destruct (view_of id sp).
Qed.

(** Submitting an allocated block runs the handlers of the stage graph in
    depth-first preorder on the block's own payload size, every one while the block
    is referenced; afterwards the block has the references of the submission, less
    the entry stage's, plus those the handlers added: with none left it is free and
    the next one to be allocated, otherwise it is ready with that count. *)
Lemma submit_runs_pipeline {W} MaxBlocks (p : Pipeline W) eff rank notify neff timeout_ms threshold now later id size consumers s sp w :
  1 <= MaxBlocks < kJobInvalidIndex -> pipeline_ok p eff rank notify neff -> rel MaxBlocks s sp ->
  0 <= id < MaxBlocks -> GetBlockState id s = kAllocated -> 0 <= consumers < 2 ^ 32 -> 0 <= entry_stage p < StageCount p ->
  let trace := preorder (length (stages p)) p (entry_stage p) in
  let added := (run_trace eff size id trace w).1 in
  let refs := (if 0 <? consumers then consumers else 1) - 1 + added in
  refs + 1 + 2 * Z.of_nat (length trace) < 2 ^ 32 ->
  exists s', Submit p notify timeout_ms now id size consumers (s, w) = Some (s', (run_trace eff size id trace w).2) /\
    if refs =? 0 then
      GetBlockState id s' = kFree /\ FreeBlocks s' = FreeBlocks s + 1 /\
      exists b s'', Alloc threshold later s' = Some (Some id, b, s'')
    else GetBlockState id s' = kReady /\ refcount (GetBlock id s') = refs /\ FreeBlocks s' = FreeBlocks s.
Proof.
  intros HM Hp Hr Hid Hst Hc He trace added refs Hb. pose proof Hp as [H1 H2 H3 H4 H5].
  assert (Hv : view_of id sp = VAlloc).
  { destruct (rel_block _ _ _ _ Hr Hid) as (_ & _ & B). unfold GetBlockState, view_of in *. destruct (v_view (aget (views sp) id)) as [| |r d];
      [destruct B as [B _]; congruence|done|destruct B as [B _]; congruence]. }
  assert (Hsub : exists sp1, spec_submit timeout_ms now consumers id size sp = Some sp1) by (unfold spec_submit; rewrite Hv; eauto).
  destruct Hsub as [sp1 Hsub]. pose proof (views_length _ _ _ Hr) as Hvl.
  destruct (spec_submit_refs timeout_ms now consumers id size sp sp1 ltac:(lia) Hc Hsub) as (Hrefs & _ & Hvl1).
  assert (Hstack : stack sp1 = stack sp) by (unfold spec_submit in Hsub; rewrite Hv in Hsub; by injection Hsub as <-).
  pose proof (run_trace_nonneg p eff H4 size id _ w (preorder_valid p rank H3 (length (stages p)) _ He)) as Ha. fold trace added in Ha.
  assert (Hrun : spec_submit_run p eff neff timeout_ms now id size consumers (sp, w) =
    Some (settle id refs sp1, (run_trace eff size id trace w).2)).
  { unfold spec_submit_run, valid_stage. cbn [fst snd]. rewrite Hsub, (wrap_small 32) by (unfold in_range; lia).
    destruct (Z.ltb_spec (entry_stage p) 0); [lia|]. destruct (Z.leb_spec (StageCount p) (entry_stage p)); [lia|]. simpl. fold trace.
    rewrite Hrefs. subst refs added. destruct (run_trace eff size id trace w) as [k w1]. simpl in *.
    destruct (Z.ltb_spec ((if 0 <? consumers then consumers else 1) + 2 * Z.of_nat (length trace) + k) (2 ^ 32)); [done|lia]. }
  destruct (Submit_rel MaxBlocks HM p eff rank H1 H3 H4 notify neff H5 H2 timeout_ms now id size consumers s sp w _ Hr Hid Hc Hrun)
    as (s' & Hs & Hr'). simpl in Hs, Hr'. exists s'. split; [exact Hs|].
  assert (Hpos : 0 < refs_of id sp1) by (rewrite Hrefs; destruct (Z.ltb_spec 0 consumers); lia).
  destruct (refs_view id sp1 ltac:(lia)) as [d Hd].
  pose proof (r_pool _ _ _ Hr) as [_ _ _ _ Hf _]. pose proof (r_pool _ _ _ Hr') as [_ _ _ _ Hf' _]. unfold FreeBlocks. rewrite Hf, Hf'.
  destruct (rel_block _ _ _ _ Hr' Hid) as (_ & _ & B). destruct (Z.eqb_spec refs 0) as [E|E].
  - destruct (Alloc_rel MaxBlocks HM threshold later s' _ Hr') as (b & s'' & Hal & _). unfold settle in *. rewrite Hd, E in *. simpl in *.
    rewrite aget_aset_eq in B by lia. rewrite Hstack. split; [apply B|]. split; [lia|]. eauto.
  - assert (0 < refs) by (subst refs; destruct (Z.ltb_spec 0 consumers); lia). rewrite (settle_pos id refs d) in * by done.
    simpl in *. rewrite aget_aset_eq in B by lia. simpl in B. rewrite Hstack. unfold GetBlockState. tauto.
Qed.

(** C38. A pipeline built with the API has at most MaxStages stages with at most
    MaxEdges successors each, all of them stages of the pipeline. *)
Theorem pipeline_build_wf {W} MaxStages MaxEdges (bs : list (Build W)) :
  0 <= MaxStages < 2 ^ 31 -> 0 <= MaxEdges ->
  (forall from to, BEdge from to ∈ bs -> from < 2 ^ 31 /\ to < 2 ^ 31) ->
  pipeline_wf MaxStages MaxEdges (foldl (fun p b => build MaxStages MaxEdges b p) empty_pipeline bs).
Proof.
  intros HS HE. assert (H0 : pipeline_wf MaxStages MaxEdges (@empty_pipeline W)) by (split; [unfold StageCount; simpl; lia|]; intros ? Hs; set_solver).
  revert H0. generalize (@empty_pipeline W). induction bs as [|b bs IH]; intros p Hw Hr; [done|]. simpl. apply IH.
  - destruct b as [cfg|from to|j]; simpl; [by apply AddStage_wf| |done].
    destruct (Hr from to); [set_solver|]. by apply AddEdge_wf.
  - intros from to Hin. apply Hr. set_solver.
Qed.

(** ** A run *)

(** A handler that notes its stage and takes [k] references. *)
Definition noting (j k : Z) : JobHandler (list (Z * Z * Z)) :=
  fun len id x => Some (AddRef id k x.1, x.2 ++ [(j, len, id)]).
Definition noting_eff (j k len id : Z) (w : list (Z * Z * Z)) : Z * list (Z * Z * Z) := (k, w ++ [(j, len, id)]).

(** 0 feeds 1 and 2, both feed 3; stage 2 keeps a reference. *)
Definition diamond : Pipeline (list (Z * Z * Z)) :=
  mkPipeline
    [mkSlotCfg (mkStage "in"%string (Some (noting 0 0)) 0) [1; 2]; mkSlotCfg (mkStage "left"%string (Some (noting 1 0)) 0) [3];
     mkSlotCfg (mkStage "right"%string (Some (noting 2 1)) 0) [3]; mkSlotCfg (mkStage "out"%string (Some (noting 3 0)) 0) []] 0.
Definition diamond_eff (j : Z) := noting_eff j (if j =? 2 then 1 else 0).
Definition diamond_rank (j : Z) : nat := Z.to_nat (3 - j).
Definition silent (len id : Z) (w : list (Z * Z * Z)) : Z * list (Z * Z * Z) := (0, w).

Lemma diamond_ok : pipeline_ok diamond diamond_eff diamond_rank None silent.
Proof.
  assert (Hc : forall j, 0 <= j < StageCount diamond -> j = 0 \/ j = 1 \/ j = 2 \/ j = 3) by (intros j; unfold StageCount; simpl; lia).
  split; try done.
  - intros j Hj. destruct (Hc j Hj) as [-> |[-> |[-> | ->]]]; (split; [vm_compute; lia|]); repeat constructor; unfold diamond_rank; lia.
  - intros j Hj. destruct (Hc j Hj) as [-> |[-> |[-> | ->]]]; split; done.
Qed.

Definition sample_ops : list Op :=
  [OAlloc 5; OSubmit 0 100 0 6; ORelease 0; OAlloc 7; OGeneration 0; OReleaseGen 0 1; OSubmit 0 40 0 8; ORegister 77 9; OHold 0 0;
   OState 0; OCleanupDead (fun _ => 5000000); OCounts; OAlloc 10; OAlloc 11; OAlloc 12; OSubmit 1 8 3 13; OScanTimeout 99999999; OCounts].

Definition fresh_mem (n : Z) : list DataBlock := replicate (Z.to_nat n) (mkBlock 9 kError 9 9 9 9 9 9).

Lemma dispatcher_refines_blocks_witness :
  exists rs sp w' s', dispatch_all 2 diamond None 0 20 sample_ops (Init 2 (fresh_mem 2) 8, []) = Some (rs, (s', w')) /\
    FreeBlocks s' = Z.of_nat (length (stack sp)).
Proof.
  eexists _, _, _.
  destruct (dispatcher_refines_blocks 2 diamond diamond_eff diamond_rank None silent 0 20 (fresh_mem 2) 8 sample_ops [] _ _ _
    ltac:(unfold kJobInvalidIndex; lia) eq_refl ltac:(lia) diamond_ok ltac:(vm_compute; reflexivity)) as (s' & H1 & H2 & _).
  exists s'. split; [exact H1|exact H2].
Defined.

Lemma submit_runs_pipeline_witness :
  exists s s', Alloc 0 1 (Init 2 (fresh_mem 2) 0) = Some (Some 0, false, s) /\
    Submit diamond None 0 3 0 64 0 (s, []) = Some (s', [(0, 64, 0); (1, 64, 0); (3, 64, 0); (2, 64, 0); (3, 64, 0)]) /\
    GetBlockState 0 s' = kReady /\ refcount (GetBlock 0 s') = 1.
Proof.
  assert (HM : 1 <= 2 < kJobInvalidIndex) by (unfold kJobInvalidIndex; lia).
  destruct (Alloc_rel 2 HM 0 1 _ _ (Init_rel 2 HM (fresh_mem 2) 0 eq_refl)) as (b & s & Ha & Hr).
  assert (Hs : Alloc 0 1 (Init 2 (fresh_mem 2) 0) = Some (Some 0, false, s) /\ GetBlockState 0 s = kAllocated).
  { vm_compute in Ha. injection Ha as <- <-. split; reflexivity. }
  destruct (submit_runs_pipeline 2 diamond diamond_eff diamond_rank None silent 0 0 3 4 0 64 0 s _ [] HM diamond_ok Hr
    ltac:(lia) (proj2 Hs) ltac:(lia) ltac:(vm_compute; split; congruence) ltac:(vm_compute; reflexivity)) as (s' & H1 & H2).
  exists s, s'. split; [apply Hs|]. split; [exact H1|]. change (GetBlockState 0 s' = kReady /\ refcount (GetBlock 0 s') = 1 /\ FreeBlocks s' = FreeBlocks s) in H2.
  tauto.
Defined.

Lemma pipeline_build_wf_witness :
  pipeline_wf 2 1 (foldl (fun p b => build 2 1 b p) empty_pipeline
    [BStage (mkStage "a"%string (Some (noting 0 0)) 0); BStage (mkStage "b"%string None 0); BEdge 0 1; BEdge 0 1; BEdge 0 7; BEntry 0]).
Proof.
  apply (pipeline_build_wf 2 1); [lia|lia|]. intros from to Hin. repeat (apply elem_of_cons in Hin as [Hin|Hin]; [try done; injection Hin as -> ->; lia|]).
  by apply elem_of_nil in Hin.
Defined.

(** ** Outside of the contract *)

(** AddEdge takes edges that close a cycle; running such a pipeline never ends. *)
Lemma add_edge_accepts_cycle :
  (AddEdge 4 0 0 (AddStage 8 (mkStage "loop"%string (@None (JobHandler unit)) 0) empty_pipeline).2).1 = true.
Proof. reflexivity. Qed.

Lemma self_edge_diverges fuel id s :
  let p := SetEntryStage 0 (AddEdge 4 0 0 (AddStage 8 (mkStage "loop"%string (@None (JobHandler unit)) 0) empty_pipeline).2).2 in
  refcount (GetBlock id s) = 1 -> 0 <= id < Z.of_nat (length (blocks s)) -> ExecuteStage fuel p id 0 (s, tt) = None.
Proof.
  intros p. revert s. induction fuel as [|fuel IH]; intros s Hr Hid; [done|]. simpl. unfold OnStageComplete. simpl.
  assert (Hg : forall b s', length (blocks s') = length (blocks s) -> GetBlock id (put_block id b s') = b)
    by (intros b s' E; unfold GetBlock; simpl; apply aget_aset_eq; by rewrite E).
  unfold Release, AddRef. rewrite Hg, Hr by done. simpl. rewrite IH; [done| |].
  - rewrite Hg; [done|]. apply length_aset.
  - simpl. by rewrite !length_aset.
Qed.

(** The generation survives the recycling of a block: a holder that lost it to a
    time-out still passes the check of AddRef, and its Release then recycles a
    free block (the assertion of SetState). *)
Lemma generation_check_passes_recycled :
  dispatch_all 2 (@empty_pipeline unit) None 0 1 [OAlloc 0; OGeneration 0; OSubmit 0 8 1 0; OScanTimeout 5000; OState 0; OAddRefGen 0 1 1]
    (Init 2 (fresh_mem 2) 0, tt) <> None /\
  dispatch_all 2 (@empty_pipeline unit) None 0 1
    [OAlloc 0; OGeneration 0; OSubmit 0 8 1 0; OScanTimeout 5000; OState 0; OAddRefGen 0 1 1; OReleaseGen 0 1] (Init 2 (fresh_mem 2) 0, tt) = None.
Proof. split; vm_compute; congruence. Qed.
