(* ===== verification/FlatHsm.v ===== *)
(** * State machines without nesting

    The discovery, service and node-connection state machines use StateMachine
    (Hsm.v) with root states only and without guards.  For those, Dispatch runs the
    handler of the current state, and a transition is the exit action of the
    current state and the entry action of the target.  The clients are proved
    against these equations. *)

From Stdlib Require Import ZArith Lia Bool String.
From stdpp Require Import base numbers list option.
From S2P Require Import Prelude Hierarchy Hsm.

Open Scope Z_scope.

Section Flat.
Context {C P : Type}.
Implicit Types (sts : list (@StateConfig C P)) (c : C) (s : Z).

(** A root state with a handler and no guard. *)
Definition flat_state (sc : @StateConfig C P) : Prop := parent_index sc = -1 /\ guard sc = None /\ is_Some (handler sc).
Definition flat sts : Prop := Forall flat_state sts.

(** A started machine at rest in state [s]. *)
Definition at_rest sts c s : @StateMachine C P := mkMachine c s 0 true kNoState sts.

(** The effect of a transition from [s] to [t] on the context. *)
Definition switch sts s t c : C := action_of on_entry sts t (action_of on_exit sts s c).

Lemma flat_lookup sts s sc : flat sts -> sts !! Z.to_nat s = Some sc -> flat_state sc.
Proof. intros Hf Hs. by eapply Forall_lookup_1. Qed.

Lemma flat_parent sts s : flat sts -> 0 <= s < Z.of_nat (length sts) -> parent_of (parent_index <$> sts) s = Some (-1).
Proof.
  intros Hf Hs. unfold parent_of. destruct (lookup_lt_is_Some_2 sts (Z.to_nat s)) as [sc E]; [lia|].
  rewrite list_lookup_fmap, E. simpl. by destruct (flat_lookup sts s sc Hf E) as [-> _].
Qed.

(** The loops stop at once above a root. *)
Lemma Depth_loop_root n ps d : Depth_loop n ps (-1) d = Some d.
Proof. by destruct n. Qed.
Lemma meet_loop_same n ps p : meet_loop n ps p p = Some p.
Proof. destruct n; simpl; by rewrite Z.eqb_refl. Qed.
Lemma path_loop_root n ps stop l : path_loop n ps (-1) stop l = Some l.
Proof. by destruct n. Qed.
Lemma is_in_loop_root n ps t : is_in_loop n ps (-1) t = Some false.
Proof. by destruct n. Qed.

Lemma flat_Depth sts s : flat sts -> 0 <= s < Z.of_nat (length sts) -> Depth (parent_index <$> sts) s = Some 1.
Proof.
  intros Hf Hs. unfold Depth, hfuel. cbn [Depth_loop]. rewrite (proj2 (Z.leb_le 0 s)) by lia. rewrite (flat_parent sts s Hf Hs).
  apply Depth_loop_root.
Qed.

Lemma flat_FindLCA sts s t :
  flat sts -> 0 <= s < Z.of_nat (length sts) -> 0 <= t < Z.of_nat (length sts) -> s <> t ->
  FindLCA (parent_index <$> sts) s t = Some (-1).
Proof.
  intros Hf Hs Ht Hn. unfold FindLCA. rewrite !flat_Depth by done. cbn [mbind option_bind]. simpl.
  destruct (Z.eqb_spec s t) as [|_]; [done|]. unfold parent_or_none. rewrite !(proj2 (Z.leb_le 0 _)) by lia.
  rewrite (flat_parent sts s Hf Hs), (flat_parent sts t Hf Ht). apply meet_loop_same.
Qed.

Lemma flat_path sts s : flat sts -> 0 <= s < Z.of_nat (length sts) ->
  path_loop (hfuel (parent_index <$> sts)) (parent_index <$> sts) s (-1) [] = Some [s].
Proof.
  intros Hf Hs. unfold hfuel. cbn [path_loop]. rewrite (proj2 (Z.leb_le 0 s)), (proj2 (Z.eqb_neq s (-1))) by lia. simpl.
  rewrite (flat_parent sts s Hf Hs). apply path_loop_root.
Qed.

Lemma TransitionTo_flat sts c s t :
  flat sts -> 0 <= s < Z.of_nat (length sts) -> 0 <= t < Z.of_nat (length sts) ->
  TransitionTo t (at_rest sts c s) = Some (at_rest sts (switch sts s t c) t).
Proof.
  intros Hf Hs Ht. unfold TransitionTo, at_rest, parents. cbn [current_state_ states_ ctx_ initial_state_ started_ pending_target_].
  destruct (Z.eqb_spec s t) as [->|Hn]; [done|]. rewrite flat_FindLCA by done. cbn [mbind option_bind].
  unfold BuildExitPath, BuildEntryPath. rewrite !flat_path by done. done.
Qed.

(** Dispatch, given what the handler of the current state answers. *)
Lemma Dispatch_flat sts c s e sc h r c' p :
  flat sts -> 0 <= s -> sts !! Z.to_nat s = Some sc -> handler sc = Some h ->
  h (RequestTransition (Z.of_nat (length sts))) c e kNoState = (r, c', p) ->
  (if decide (r = kTransition) then 0 <= p < Z.of_nat (length sts) else p = kNoState) ->
  Dispatch e (at_rest sts c s) =
    Some (if decide (r = kTransition) then at_rest sts (switch sts s p c') p else at_rest sts c' s).
Proof.
  intros Hf Hs E Hh Hr Hp. pose proof (flat_lookup sts s sc Hf E) as (Hpar & Hg & _).
  assert (Hb : 0 <= s < Z.of_nat (length sts)) by (apply lookup_lt_Some in E; lia).
  unfold Dispatch. cbn [started_ at_rest]. unfold hfuel. cbn [Dispatch_loop current_state_ at_rest states_ ctx_ pending_target_].
  rewrite (proj2 (Z.leb_le 0 s)) by lia. rewrite E. cbn [mbind option_bind]. rewrite Hg, Hh. unfold state_count_. cbn [states_ at_rest].
  rewrite Hr. destruct r; simpl in Hp |- *.
  - subst p. done.
  - subst p. rewrite Hpar. unfold parents. by destruct (length (parent_index <$> _)).
  - rewrite (proj2 (Z.leb_le 0 p)) by lia. by apply (TransitionTo_flat sts c' s p).
Qed.

Lemma IsInState_flat sts c s t :
  flat sts -> 0 <= s < Z.of_nat (length sts) -> IsInState t (at_rest sts c s) = Some (s =? t).
Proof.
  intros Hf Hs. unfold IsInState, hfuel, parents. cbn [is_in_loop current_state_ states_ at_rest]. rewrite (proj2 (Z.leb_le 0 s)) by lia.
  destruct (s =? t); [done|]. rewrite (flat_parent sts s Hf Hs). apply is_in_loop_root.
Qed.

(** The initial entry of a machine whose initial state is [0]. *)
Lemma Start_flat sts c :
  flat sts -> sts <> [] ->
  Start (mkMachine c kNoState 0 false kNoState sts) = Some (at_rest sts (action_of on_entry sts 0 c) 0).
Proof.
  intros Hf Hn. assert (0 < Z.of_nat (length sts)) by (destruct sts; [done|simpl; lia]).
  unfold Start. cbn [started_ initial_state_]. unfold BuildEntryPath, parents. cbn [states_]. change kNoState with (-1) at 1.
  rewrite flat_path by (done || lia). done.
Qed.

End Flat.
