(* ===== verification/Lifecycle.v ===== *)
(** * LifecycleNode (include/osp/lifecycle_node.hpp)

    The life cycle of a node as a hierarchical state machine: a client of
    StateMachine (Hsm.v) and FaultReporter (Fault.v).  The sixteen states and their
    handlers are those of the source; the user's callbacks work on a world [W].
    The specification is the flat life cycle a user of the node sees. *)

From Stdlib Require Import ZArith Lia Bool String.
From stdpp Require Import base numbers list option.
From S2P Require Import Prelude Hierarchy Fault Hsm.

Open Scope Z_scope.

Inductive LifecycleState := kUnconfigured | kInactive | kActive | kFinalized.

Inductive LifecycleDetailedState :=
| dAlive | dUnconfigured | dInitializing | dWaitingConfig | dConfigured | dInactive | dStandby | dPaused
| dActive | dStarting | dRunning | dDegraded | dError | dRecoverable | dFatal | dFinalized.
#[export] Instance DetailedState_eq_dec : EqDecision LifecycleDetailedState.
Proof. solve_decision. Defined.

Definition state_number (s : LifecycleDetailedState) : Z :=
  match s with
  | dAlive => 0 | dUnconfigured => 1 | dInitializing => 2 | dWaitingConfig => 3 | dConfigured => 4 | dInactive => 5
  | dStandby => 6 | dPaused => 7 | dActive => 8 | dStarting => 9 | dRunning => 10 | dDegraded => 11 | dError => 12
  | dRecoverable => 13 | dFatal => 14 | dFinalized => 15
  end.
Definition all_states : list LifecycleDetailedState :=
  [dAlive; dUnconfigured; dInitializing; dWaitingConfig; dConfigured; dInactive; dStandby; dPaused;
   dActive; dStarting; dRunning; dDegraded; dError; dRecoverable; dFatal; dFinalized].

Inductive LifecycleTransition := kConfigure | kActivate | kDeactivate | kCleanup | kShutdown.
Inductive LifecycleError := kInvalidTransition | kCallbackFailed | kAlreadyFinalized.

(** LifecycleHsmEvent *)
Definition kLcEvtConfigure : Z := 1.
Definition kLcEvtActivate : Z := 2.
Definition kLcEvtDeactivate : Z := 3.
Definition kLcEvtCleanup : Z := 4.
Definition kLcEvtShutdown : Z := 5.
Definition kLcEvtPause : Z := 6.
Definition kLcEvtResume : Z := 7.
Definition kLcEvtMarkDegraded : Z := 8.
Definition kLcEvtClearDegraded : Z := 9.
Definition kLcEvtError : Z := 10.
Definition kLcEvtFatalError : Z := 11.
Definition kLcEvtRecover : Z := 12.

Definition kLifecycleHsmMaxStates : Z := 16.

Section Lifecycle.
Context {W : Type}.

Definition LifecycleCallback : Type := W -> bool * W.
Definition LifecycleShutdownCallback : Type := W -> W.

Record Callbacks := mkCallbacks {
  on_configure : option LifecycleCallback;
  on_activate : option LifecycleCallback;
  on_deactivate : option LifecycleCallback;
  on_cleanup : option LifecycleCallback;
  on_shutdown : option LifecycleShutdownCallback;
  fault_reporter : FaultReporter W
}.

(** LifecycleHsmContext, with the world its callbacks work on. *)
Record Ctx := mkCtx {
  callbacks : Callbacks;
  last_error : LifecycleError;
  transition_failed : bool;
  idx : list Z;
  world : W
}.

Definition I (c : Ctx) (s : LifecycleDetailedState) : Z := aget (idx c) (state_number s).

Definition kFaultConfigureFailed : Z := 0.
Definition kFaultActivateFailed : Z := 1.
Definition kFaultDeactivateFailed : Z := 2.
Definition kFaultCleanupFailed : Z := 3.

(** ** Handlers *)

Abbreviation Handler := (@HandlerFn Ctx unit).
Abbreviation Request := RequestFn.

(** [on_x == nullptr || on_x()]. *)
Definition consult (cb : option LifecycleCallback) (w : W) : bool * W :=
  match cb with Some f => f w | None => (true, w) end.
Definition notify (cb : option LifecycleShutdownCallback) (w : W) : W := match cb with Some f => f w | None => w end.

(** The pattern of every guarded transition: run the callback; if it refuses, note
    the failure, report the fault and stay, otherwise request the target. *)
Definition guarded (cb : Callbacks -> option LifecycleCallback) (fault : Z) (prio : FaultPriority) (target : LifecycleDetailedState)
    (req : Request) (c : Ctx) (pending : Z) : TransitionResult * Ctx * Z :=
  let '(ok, w) := consult (cb (callbacks c)) (world c) in
  if ok then
    let c := mkCtx (callbacks c) (last_error c) (transition_failed c) (idx c) w in
    let '(r, p) := req (I c target) pending in (r, c, p)
  else (kHandled, mkCtx (callbacks c) kCallbackFailed true (idx c) (Report (fault_reporter (callbacks c)) fault 0 prio w), pending).

Definition goto (target : LifecycleDetailedState) (req : Request) (c : Ctx) (pending : Z) : TransitionResult * Ctx * Z :=
  let '(r, p) := req (I c target) pending in (r, c, p).

Definition run_shutdown (c : Ctx) : Ctx :=
  mkCtx (callbacks c) (last_error c) (transition_failed c) (idx c) (notify (on_shutdown (callbacks c)) (world c)).

Definition HandleAlive : Handler := fun req c event pending =>
  if event_id event =? kLcEvtShutdown then goto dFinalized req (run_shutdown c) pending
  else if event_id event =? kLcEvtFatalError then goto dFatal req c pending
  else if event_id event =? kLcEvtError then goto dRecoverable req c pending
  else (kUnhandled, c, pending).

Definition HandleWaitingConfig : Handler := fun req c event pending =>
  if event_id event =? kLcEvtConfigure then guarded on_configure kFaultConfigureFailed kHigh dStandby req c pending
  else (kUnhandled, c, pending).

Definition HandleStandby : Handler := fun req c event pending =>
  if event_id event =? kLcEvtActivate then guarded on_activate kFaultActivateFailed kHigh dRunning req c pending
  else if event_id event =? kLcEvtCleanup then guarded on_cleanup kFaultCleanupFailed kMedium dWaitingConfig req c pending
  else (kUnhandled, c, pending).

Definition HandlePaused : Handler := fun req c event pending =>
  if (event_id event =? kLcEvtResume) || (event_id event =? kLcEvtActivate)
  then guarded on_activate kFaultActivateFailed kHigh dRunning req c pending
  else if event_id event =? kLcEvtCleanup then guarded on_cleanup kFaultCleanupFailed kMedium dWaitingConfig req c pending
  else (kUnhandled, c, pending).

Definition HandleRunning : Handler := fun req c event pending =>
  if event_id event =? kLcEvtDeactivate then guarded on_deactivate kFaultDeactivateFailed kHigh dStandby req c pending
  else if event_id event =? kLcEvtPause then guarded on_deactivate kFaultDeactivateFailed kHigh dPaused req c pending
  else if event_id event =? kLcEvtMarkDegraded then goto dDegraded req c pending
  else (kUnhandled, c, pending).

Definition HandleDegraded : Handler := fun req c event pending =>
  if event_id event =? kLcEvtClearDegraded then goto dRunning req c pending
  else if event_id event =? kLcEvtDeactivate then guarded on_deactivate kFaultDeactivateFailed kHigh dStandby req c pending
  else if event_id event =? kLcEvtPause then guarded on_deactivate kFaultDeactivateFailed kHigh dPaused req c pending
  else (kUnhandled, c, pending).

Definition HandleStarting : Handler := fun _ c _ pending => (kUnhandled, c, pending).

Definition HandleRecoverable : Handler := fun req c event pending =>
  if event_id event =? kLcEvtRecover then goto dWaitingConfig req c pending else (kUnhandled, c, pending).

Definition HandleFatal : Handler := fun _ c _ pending => (kUnhandled, c, pending).

Definition HandleFinalized : Handler := fun _ c event pending =>
  if event_id event =? kLcEvtShutdown then (kHandled, run_shutdown c, pending) else (kHandled, c, pending).

Definition HandleNoop : Handler := fun _ c _ pending => (kUnhandled, c, pending).

(** ** The node *)

Abbreviation Hsm := (@StateMachine Ctx unit).
Record LifecycleNode := mkNode { hsm : Hsm; hsm_initialized_ : bool }.

Definition ctx (n : LifecycleNode) : Ctx := ctx_ (hsm n).
Definition with_ctx (f : Ctx -> Ctx) (m : Hsm) : Hsm :=
  mkMachine (f (ctx_ m)) (current_state_ m) (initial_state_ m) (started_ m) (pending_target_ m) (states_ m).

(** [ctx_.idx[s] = hsm->AddState(...)] with the parent's number taken from [idx]. *)
Definition add_state (s : LifecycleDetailedState) (nm : string) (parent : option LifecycleDetailedState) (h : Handler) (m : Hsm)
    : option Hsm :=
  let p := match parent with Some q => I (ctx_ m) q | None => -1 end in
  match AddState kLifecycleHsmMaxStates (mkStateConfig nm p (Some h) None None None) m with
  | Some (i, m) =>
    Some (with_ctx (fun c => mkCtx (callbacks c) (last_error c) (transition_failed c) (aset (idx c) (state_number s) i) (world c)) m)
  | None => None
  end.

Definition InitHsm (w : W) : option LifecycleNode :=
  let c := mkCtx (mkCallbacks None None None None None None) kInvalidTransition false (replicate 16 (-1)) w in
  m ← Some (StateMachine_ctor c);
  m ← add_state dAlive "Alive" None HandleAlive m;
  m ← add_state dUnconfigured "Unconfigured" (Some dAlive) HandleNoop m;
  m ← add_state dInitializing "Initializing" (Some dUnconfigured) HandleNoop m;
  m ← add_state dWaitingConfig "WaitingConfig" (Some dUnconfigured) HandleWaitingConfig m;
  m ← add_state dConfigured "Configured" (Some dAlive) HandleNoop m;
  m ← add_state dInactive "Inactive" (Some dConfigured) HandleNoop m;
  m ← add_state dStandby "Standby" (Some dInactive) HandleStandby m;
  m ← add_state dPaused "Paused" (Some dInactive) HandlePaused m;
  m ← add_state dActive "Active" (Some dConfigured) HandleNoop m;
  m ← add_state dStarting "Starting" (Some dActive) HandleStarting m;
  m ← add_state dRunning "Running" (Some dActive) HandleRunning m;
  m ← add_state dDegraded "Degraded" (Some dActive) HandleDegraded m;
  m ← add_state dError "Error" (Some dAlive) HandleNoop m;
  m ← add_state dRecoverable "Recoverable" (Some dError) HandleRecoverable m;
  m ← add_state dFatal "Fatal" (Some dError) HandleFatal m;
  m ← add_state dFinalized "Finalized" None HandleFinalized m;
  m ← SetInitialState (I (ctx_ m) dWaitingConfig) m;
  m ← Start m;
  Some (mkNode m true).

Definition GetDetailedState (n : LifecycleNode) : LifecycleDetailedState :=
  if hsm_initialized_ n then
    match list_find (fun s => I (ctx n) s = CurrentState (hsm n)) all_states with Some (_, s) => s | None => dFinalized end
  else dFinalized.

Definition MapToCoarseState (s : LifecycleDetailedState) : LifecycleState :=
  match s with
  | dAlive | dUnconfigured | dInitializing | dWaitingConfig => kUnconfigured
  | dConfigured | dInactive | dStandby | dPaused => kInactive
  | dActive | dStarting | dRunning | dDegraded => kActive
  | dError | dRecoverable | dFatal => kUnconfigured
  | dFinalized => kFinalized
  end.
Definition GetState (n : LifecycleNode) : LifecycleState := MapToCoarseState (GetDetailedState n).

Definition DetailedStateName (n : LifecycleNode) : option string :=
  if hsm_initialized_ n then CurrentStateName (hsm n) else Some "Finalized"%string.
Definition IsInDetailedState (s : LifecycleDetailedState) (n : LifecycleNode) : option bool :=
  if hsm_initialized_ n then IsInState (I (ctx n) s) (hsm n) else Some (bool_decide (s = dFinalized)).

Definition set_callbacks (f : Callbacks -> Callbacks) (n : LifecycleNode) : LifecycleNode :=
  mkNode (with_ctx (fun c => mkCtx (f (callbacks c)) (last_error c) (transition_failed c) (idx c) (world c)) (hsm n)) (hsm_initialized_ n).

(** The result is the error, if any. *)
Definition DispatchAndCheck (evt : Z) (n : LifecycleNode) : option (option LifecycleError * LifecycleNode) :=
  let m := with_ctx (fun c => mkCtx (callbacks c) (last_error c) false (idx c) (world c)) (hsm n) in
  m ← Dispatch (mkEvent evt None) m;
  Some (if transition_failed (ctx_ m) then Some (last_error (ctx_ m)) else None, mkNode m (hsm_initialized_ n)).

Definition coarse_eqb (a b : LifecycleState) : bool :=
  match a, b with
  | kUnconfigured, kUnconfigured | kInactive, kInactive | kActive, kActive | kFinalized, kFinalized => true
  | _, _ => false
  end.

Definition Trigger (t : LifecycleTransition) (n : LifecycleNode) : option (option LifecycleError * LifecycleNode) :=
  let current := GetDetailedState n in
  let is_shutdown := match t with kShutdown => true | _ => false end in
  if bool_decide (current = dFinalized) && negb is_shutdown then Some (Some kAlreadyFinalized, n)
  else
    in_error ← IsInDetailedState dError n;
    if in_error && negb is_shutdown then Some (Some kInvalidTransition, n)
    else
      let coarse := MapToCoarseState current in
      let from s evt := if coarse_eqb coarse s then DispatchAndCheck evt n else Some (Some kInvalidTransition, n) in
      match t with
      | kConfigure => from kUnconfigured kLcEvtConfigure
      | kActivate => from kInactive kLcEvtActivate
      | kDeactivate => from kActive kLcEvtDeactivate
      | kCleanup => from kInactive kLcEvtCleanup
      | kShutdown => DispatchAndCheck kLcEvtShutdown n
      end.

Abbreviation Outcome := (option (option LifecycleError * LifecycleNode)).

Definition Configure (n : LifecycleNode) : Outcome := Trigger kConfigure n.
Definition Activate (n : LifecycleNode) : Outcome := Trigger kActivate n.
Definition Deactivate (n : LifecycleNode) : Outcome := Trigger kDeactivate n.
Definition Cleanup (n : LifecycleNode) : Outcome := Trigger kCleanup n.
Definition Shutdown (n : LifecycleNode) : Outcome := Trigger kShutdown n.

Definition Pause (n : LifecycleNode) : Outcome :=
  active ← IsInDetailedState dActive n;
  if (active : bool) then DispatchAndCheck kLcEvtPause n else Some (Some kInvalidTransition, n).
Definition Resume (n : LifecycleNode) : Outcome :=
  if bool_decide (GetDetailedState n = dPaused) then DispatchAndCheck kLcEvtResume n else Some (Some kInvalidTransition, n).
Definition MarkDegraded (n : LifecycleNode) : Outcome :=
  if bool_decide (GetDetailedState n = dRunning) then DispatchAndCheck kLcEvtMarkDegraded n else Some (Some kInvalidTransition, n).
Definition ClearDegraded (n : LifecycleNode) : Outcome :=
  if bool_decide (GetDetailedState n = dDegraded) then DispatchAndCheck kLcEvtClearDegraded n else Some (Some kInvalidTransition, n).
(** The shared body of the two error triggers. *)
Definition raise_error (evt : Z) (n : LifecycleNode) : Outcome :=
  in_error ← IsInDetailedState dError n;
  if bool_decide (GetDetailedState n = dFinalized) || in_error then Some (Some kInvalidTransition, n) else DispatchAndCheck evt n.
Definition TriggerError (n : LifecycleNode) : Outcome := raise_error kLcEvtError n.
Definition TriggerFatalError (n : LifecycleNode) : Outcome := raise_error kLcEvtFatalError n.
Definition Recover (n : LifecycleNode) : Outcome :=
  if bool_decide (GetDetailedState n = dRecoverable) then DispatchAndCheck kLcEvtRecover n else Some (Some kInvalidTransition, n).

Definition SetOnConfigure (cb : option LifecycleCallback) : LifecycleNode -> LifecycleNode :=
  set_callbacks (fun x => mkCallbacks cb (on_activate x) (on_deactivate x) (on_cleanup x) (on_shutdown x) (fault_reporter x)).
Definition SetOnActivate (cb : option LifecycleCallback) : LifecycleNode -> LifecycleNode :=
  set_callbacks (fun x => mkCallbacks (on_configure x) cb (on_deactivate x) (on_cleanup x) (on_shutdown x) (fault_reporter x)).
Definition SetOnDeactivate (cb : option LifecycleCallback) : LifecycleNode -> LifecycleNode :=
  set_callbacks (fun x => mkCallbacks (on_configure x) (on_activate x) cb (on_cleanup x) (on_shutdown x) (fault_reporter x)).
Definition SetOnCleanup (cb : option LifecycleCallback) : LifecycleNode -> LifecycleNode :=
  set_callbacks (fun x => mkCallbacks (on_configure x) (on_activate x) (on_deactivate x) cb (on_shutdown x) (fault_reporter x)).
Definition SetOnShutdown (cb : option LifecycleShutdownCallback) : LifecycleNode -> LifecycleNode :=
  set_callbacks (fun x => mkCallbacks (on_configure x) (on_activate x) (on_deactivate x) (on_cleanup x) cb (fault_reporter x)).
Definition SetFaultReporter (r : FaultReporter W) : LifecycleNode -> LifecycleNode :=
  set_callbacks (fun x => mkCallbacks (on_configure x) (on_activate x) (on_deactivate x) (on_cleanup x) (on_shutdown x) r).

(** The destructor: what it leaves of the world. *)
Definition LifecycleNode_dtor (n : LifecycleNode) : option W :=
  if bool_decide (GetDetailedState n = dFinalized) then Some (world (ctx n))
  else '(_, n) ← Trigger kShutdown n; Some (world (ctx n)).

(** ** The specification *)

(** The life cycle as its users see it: eight phases, the callbacks and the world. *)
Inductive Phase := pWaiting | pStandby | pPaused | pRunning | pDegraded | pRecoverable | pFatal | pFinalized.
Record Life := mkLife { phase : Phase; hooks : Callbacks; outside : W }.

Definition fresh : W -> Life := mkLife pWaiting (mkCallbacks None None None None None None).

Definition refuse (e : LifecycleError) (s : Life) : option LifecycleError * Life := (Some e, s).
Definition move (p : Phase) (s : Life) : option LifecycleError * Life := (None, mkLife p (hooks s) (outside s)).
(** Ask the callback: it agrees and the phase changes, or the refusal is reported
    and the phase stays. *)
Definition attempt (cb : Callbacks -> option LifecycleCallback) (fault : Z) (prio : FaultPriority) (p : Phase) (s : Life)
    : option LifecycleError * Life :=
  let '(ok, w) := consult (cb (hooks s)) (outside s) in
  if ok then (None, mkLife p (hooks s) w)
  else (Some kCallbackFailed, mkLife (phase s) (hooks s) (Report (fault_reporter (hooks s)) fault 0 prio w)).
Definition finish (s : Life) : option LifecycleError * Life :=
  (None, mkLife pFinalized (hooks s) (notify (on_shutdown (hooks s)) (outside s))).

Definition try_configure := attempt on_configure kFaultConfigureFailed kHigh pStandby.
Definition try_activate := attempt on_activate kFaultActivateFailed kHigh pRunning.
Definition try_cleanup := attempt on_cleanup kFaultCleanupFailed kMedium pWaiting.
Definition try_deactivate (p : Phase) := attempt on_deactivate kFaultDeactivateFailed kHigh p.

Definition spec_trigger (t : LifecycleTransition) (s : Life) : option LifecycleError * Life :=
  match t, phase s with
  | kShutdown, _ => finish s
  | _, pFinalized => refuse kAlreadyFinalized s
  | kConfigure, pWaiting => try_configure s
  | kActivate, (pStandby | pPaused) => try_activate s
  | kDeactivate, (pRunning | pDegraded) => try_deactivate pStandby s
  | kCleanup, (pStandby | pPaused) => try_cleanup s
  | _, _ => refuse kInvalidTransition s
  end.

Definition detailed (p : Phase) : LifecycleDetailedState :=
  match p with
  | pWaiting => dWaitingConfig | pStandby => dStandby | pPaused => dPaused | pRunning => dRunning
  | pDegraded => dDegraded | pRecoverable => dRecoverable | pFatal => dFatal | pFinalized => dFinalized
  end.
Definition coarse (p : Phase) : LifecycleState :=
  match p with
  | pWaiting | pRecoverable | pFatal => kUnconfigured
  | pStandby | pPaused => kInactive
  | pRunning | pDegraded => kActive
  | pFinalized => kFinalized
  end.
(** The composite states a phase lies in. *)
Definition within (p : Phase) : list LifecycleDetailedState :=
  match p with
  | pWaiting => [dWaitingConfig; dUnconfigured; dAlive]
  | pStandby => [dStandby; dInactive; dConfigured; dAlive]
  | pPaused => [dPaused; dInactive; dConfigured; dAlive]
  | pRunning => [dRunning; dActive; dConfigured; dAlive]
  | pDegraded => [dDegraded; dActive; dConfigured; dAlive]
  | pRecoverable => [dRecoverable; dError; dAlive]
  | pFatal => [dFatal; dError; dAlive]
  | pFinalized => [dFinalized]
  end.
Definition phase_name (p : Phase) : string :=
  match p with
  | pWaiting => "WaitingConfig" | pStandby => "Standby" | pPaused => "Paused" | pRunning => "Running"
  | pDegraded => "Degraded" | pRecoverable => "Recoverable" | pFatal => "Fatal" | pFinalized => "Finalized"
  end.

(** ** Calls *)

Inductive LcOp :=
| LTrigger (t : LifecycleTransition) | LPause | LResume | LMarkDegraded | LClearDegraded | LError | LFatalError | LRecover
| LSetOnConfigure (cb : option LifecycleCallback) | LSetOnActivate (cb : option LifecycleCallback)
| LSetOnDeactivate (cb : option LifecycleCallback) | LSetOnCleanup (cb : option LifecycleCallback)
| LSetOnShutdown (cb : option LifecycleShutdownCallback) | LSetFaultReporter (r : FaultReporter W)
| LState | LDetailed | LName | LIsIn (s : LifecycleDetailedState).

Inductive LcRes :=
| LRDone (e : option LifecycleError) | LRSet | LRState (s : LifecycleState) | LRDetailed (s : LifecycleDetailedState)
| LRName (s : string) | LRBool (b : bool).

Definition done_with (o : Outcome) : option (LcRes * LifecycleNode) := '(e, n) ← o; Some (LRDone e, n).

Definition lc_op (o : LcOp) (n : LifecycleNode) : option (LcRes * LifecycleNode) :=
  match o with
  | LTrigger kConfigure => done_with (Configure n)
  | LTrigger kActivate => done_with (Activate n)
  | LTrigger kDeactivate => done_with (Deactivate n)
  | LTrigger kCleanup => done_with (Cleanup n)
  | LTrigger kShutdown => done_with (Shutdown n)
  | LPause => done_with (Pause n)
  | LResume => done_with (Resume n)
  | LMarkDegraded => done_with (MarkDegraded n)
  | LClearDegraded => done_with (ClearDegraded n)
  | LError => done_with (TriggerError n)
  | LFatalError => done_with (TriggerFatalError n)
  | LRecover => done_with (Recover n)
  | LSetOnConfigure cb => Some (LRSet, SetOnConfigure cb n)
  | LSetOnActivate cb => Some (LRSet, SetOnActivate cb n)
  | LSetOnDeactivate cb => Some (LRSet, SetOnDeactivate cb n)
  | LSetOnCleanup cb => Some (LRSet, SetOnCleanup cb n)
  | LSetOnShutdown cb => Some (LRSet, SetOnShutdown cb n)
  | LSetFaultReporter r => Some (LRSet, SetFaultReporter r n)
  | LState => Some (LRState (GetState n), n)
  | LDetailed => Some (LRDetailed (GetDetailedState n), n)
  | LName => s ← DetailedStateName n; Some (LRName s, n)
  | LIsIn s => b ← IsInDetailedState s n; Some (LRBool b, n)
  end.

Definition re_hook (h : Callbacks) (s : Life) : Life := mkLife (phase s) h (outside s).

Definition spec_lc_op (o : LcOp) (s : Life) : LcRes * Life :=
  let h := hooks s in
  let result '(e, s) := (LRDone e, s) in
  match o with
  | LTrigger t => result (spec_trigger t s)
  | LPause => result (match phase s with pRunning | pDegraded => try_deactivate pPaused s | _ => refuse kInvalidTransition s end)
  | LResume => result (match phase s with pPaused => try_activate s | _ => refuse kInvalidTransition s end)
  | LMarkDegraded => result (match phase s with pRunning => move pDegraded s | _ => refuse kInvalidTransition s end)
  | LClearDegraded => result (match phase s with pDegraded => move pRunning s | _ => refuse kInvalidTransition s end)
  | LError => result (match phase s with pRecoverable | pFatal | pFinalized => refuse kInvalidTransition s | _ => move pRecoverable s end)
  | LFatalError => result (match phase s with pRecoverable | pFatal | pFinalized => refuse kInvalidTransition s | _ => move pFatal s end)
  | LRecover => result (match phase s with pRecoverable => move pWaiting s | _ => refuse kInvalidTransition s end)
  | LSetOnConfigure cb => (LRSet, re_hook (mkCallbacks cb (on_activate h) (on_deactivate h) (on_cleanup h) (on_shutdown h) (fault_reporter h)) s)
  | LSetOnActivate cb => (LRSet, re_hook (mkCallbacks (on_configure h) cb (on_deactivate h) (on_cleanup h) (on_shutdown h) (fault_reporter h)) s)
  | LSetOnDeactivate cb => (LRSet, re_hook (mkCallbacks (on_configure h) (on_activate h) cb (on_cleanup h) (on_shutdown h) (fault_reporter h)) s)
  | LSetOnCleanup cb => (LRSet, re_hook (mkCallbacks (on_configure h) (on_activate h) (on_deactivate h) cb (on_shutdown h) (fault_reporter h)) s)
  | LSetOnShutdown cb => (LRSet, re_hook (mkCallbacks (on_configure h) (on_activate h) (on_deactivate h) (on_cleanup h) cb (fault_reporter h)) s)
  | LSetFaultReporter r => (LRSet, re_hook (mkCallbacks (on_configure h) (on_activate h) (on_deactivate h) (on_cleanup h) (on_shutdown h) r) s)
  | LState => (LRState (coarse (phase s)), s)
  | LDetailed => (LRDetailed (detailed (phase s)), s)
  | LName => (LRName (phase_name (phase s)), s)
  | LIsIn d => (LRBool (bool_decide (d ∈ within (phase s))), s)
  end.

Fixpoint lc_run (ops : list LcOp) (n : LifecycleNode) : option (list LcRes * LifecycleNode) :=
  match ops with
  | [] => Some ([], n)
  | o :: ops => '(r, n) ← lc_op o n; '(rs, n) ← lc_run ops n; Some (r :: rs, n)
  end.
Fixpoint spec_lc_run (ops : list LcOp) (s : Life) : list LcRes * Life :=
  match ops with
  | [] => ([], s)
  | o :: ops => let '(r, s) := spec_lc_op o s in let '(rs, s) := spec_lc_run ops s in (r :: rs, s)
  end.

(** ** Refinement *)

(** The states InitHsm adds. *)
Definition lc_states : list (@StateConfig Ctx unit) :=
  let st nm p h := mkStateConfig nm p (Some h) None None None in
  [st "Alive" (-1) HandleAlive; st "Unconfigured" 0 HandleNoop; st "Initializing" 1 HandleNoop;
   st "WaitingConfig" 1 HandleWaitingConfig; st "Configured" 0 HandleNoop; st "Inactive" 4 HandleNoop;
   st "Standby" 5 HandleStandby; st "Paused" 5 HandlePaused; st "Active" 4 HandleNoop; st "Starting" 8 HandleStarting;
   st "Running" 8 HandleRunning; st "Degraded" 8 HandleDegraded; st "Error" 0 HandleNoop;
   st "Recoverable" 12 HandleRecoverable; st "Fatal" 12 HandleFatal; st "Finalized" (-1) HandleFinalized]%string.
Definition lc_idx : list Z := [0; 1; 2; 3; 4; 5; 6; 7; 8; 9; 10; 11; 12; 13; 14; 15].

(** The node in a phase: the machine rests in the phase's leaf; [e] and [b] are the
    leftovers of the last transition. *)
Definition node_of (e : LifecycleError) (b : bool) (s : Life) : LifecycleNode :=
  mkNode (mkMachine (mkCtx (hooks s) e b lc_idx (outside s)) (state_number (detailed (phase s))) 3 true (-1) lc_states) true.

Lemma InitHsm_at w : InitHsm w = Some (node_of kInvalidTransition false (fresh w)).
Proof. vm_compute. reflexivity. Qed.

(** What a call leaves in [last_error] and [transition_failed]. *)
Definition leftovers (r : LcRes) (x : LifecycleError * bool) : LifecycleError * bool :=
  match r with
  | LRDone (Some kCallbackFailed) => (kCallbackFailed, true)
  | LRDone None => (x.1, false)
  | _ => x
  end.

(** Evaluate both sides, splitting on what the callbacks answer. *)
Ltac lc_compute :=
  vm_compute;
  repeat match goal with
  | |- context [match ?cb with Some _ => _ | None => _ end] => is_var cb; destruct cb
  | |- context [match ?f ?w with (_, _) => _ end] => destruct (f w) as [ [] ?]
  end; try reflexivity.

Lemma lc_op_at o e b s :
  let r := spec_lc_op o s in let x := leftovers r.1 (e, b) in
  lc_op o (node_of e b s) = Some (r.1, node_of x.1 x.2 r.2).
Proof.
  destruct s as [p [h1 h2 h3 h4 h5 h6] w].
  destruct o as [ []| | | | | | | | | | | | | | | | |d]; destruct p. 
  all: try destruct d; lc_compute.
Qed.

Lemma lc_run_at ops e b s :
  exists e' b', lc_run ops (node_of e b s) = Some ((spec_lc_run ops s).1, node_of e' b' (spec_lc_run ops s).2).
Proof.
  revert e b s. induction ops as [|o ops IH]; intros e b s; [by exists e, b|]. cbn [lc_run spec_lc_run].
  rewrite lc_op_at. cbn [mbind option_bind]. destruct (spec_lc_op o s) as [r s1]. cbn [fst snd].
  destruct (IH (leftovers r (e, b)).1 (leftovers r (e, b)).2 s1) as (e' & b' & ->). exists e', b'. by destruct (spec_lc_run ops s1).
Qed.

(** What is left of the world when the node is destroyed. *)
Definition farewell (s : Life) : W :=
  match phase s with pFinalized => outside s | _ => notify (on_shutdown (hooks s)) (outside s) end.

Lemma dtor_at e b s : LifecycleNode_dtor (node_of e b s) = Some (farewell s).
Proof. destruct s as [p [h1 h2 h3 h4 h5 h6] w]. destruct p; lc_compute. Qed.

End Lifecycle.
Arguments LcOp : clear implicits.

(** C23. Refinement: whatever callbacks are installed and whatever they answer, the
    node, built on the hierarchical state machine with its sixteen states, behaves
    as the flat life cycle of eight phases: every call, legal or not, returns the
    specified error and moves to the specified phase, each callback runs exactly
    when specified, a refusing callback is reported to the fault reporter and keeps
    the phase, no assertion of the state machine fails, and destruction runs the
    shutdown callback unless the node is finalized. *)
Theorem lifecycle_refines {W} (ops : list (LcOp W)) (w : W) :
  let spec := spec_lc_run ops (fresh w) in
  exists n n', InitHsm w = Some n /\ lc_run ops n = Some (spec.1, n') /\ LifecycleNode_dtor n' = Some (farewell spec.2).
Proof.
  cbv zeta. destruct (lc_run_at ops kInvalidTransition false (fresh w)) as (e & b & E).
  eexists _, _. split; [apply InitHsm_at|]. split; [exact E|]. apply dtor_at.
Qed.

(** ** Runs *)

(** A callback that agrees and logs its number. *)
Definition logging (i : Z) : option (LifecycleCallback (W := list Z)) := Some (fun w => (true, w ++ [i])).

(** An error in the running node leads back to waiting for configuration without
    on_deactivate (3) or on_cleanup (4): the next cycle configures and activates
    again what was never released. *)
Lemma recovery_skips_release :
  exists n n', InitHsm [] = Some n /\
    lc_run [LSetOnConfigure (logging 1); LSetOnActivate (logging 2); LSetOnDeactivate (logging 3); LSetOnCleanup (logging 4);
            LTrigger kConfigure; LTrigger kActivate; LError; LRecover; LTrigger kConfigure; LTrigger kActivate; LName] n =
    Some ([LRSet; LRSet; LRSet; LRSet; LRDone None; LRDone None; LRDone None; LRDone None; LRDone None; LRDone None;
           LRName "Running"], n') /\ world (ctx n') = [1; 2; 1; 2].
Proof. eexists _, _. rewrite InitHsm_at. split; [done|]. split; vm_compute; reflexivity. Qed.

(** A recoverable error cannot become a fatal one. *)
Lemma fatal_refused_after_error :
  exists n n', InitHsm (W := unit) tt = Some n /\ lc_run [LError; LFatalError; LName] n =
    Some ([LRDone None; LRDone (Some kInvalidTransition); LRName "Recoverable"], n').
Proof. eexists _, _. rewrite InitHsm_at. split; [done|]. vm_compute. reflexivity. Qed.
