(* ===== verification/DiscoveryHsm.v ===== *)
(** * HsmDiscovery (include/osp/discovery_hsm.hpp)

    The state machine of node discovery, a client of StateMachine through the
    equations of FlatHsm.v and of FaultReporter.  User callbacks take the context
    pointer they were registered with and work on a world [W]. *)

From Stdlib Require Import ZArith Lia Bool String.
From stdpp Require Import base numbers list option.
From S2P Require Import Prelude Fault Hierarchy Hsm FlatHsm.

Open Scope Z_scope.

(** DiscoveryHsmEvent *)
Definition kDiscEvtStart : Z := 1.
Definition kDiscEvtNodeFound : Z := 2.
Definition kDiscEvtNodeLost : Z := 3.
Definition kDiscEvtNetworkStable : Z := 4.
Definition kDiscEvtNetworkDegraded : Z := 5.
Definition kDiscEvtStop : Z := 6.
Definition kFaultNetworkDegraded : Z := 0.
Definition kDiscMaxStates : Z := 8.

Section Discovery.
(** What [void* ctx] points to, and the world. *)
Context {A W : Type}.

Definition DiscoveryCallbackFn : Type := option A -> W -> W.

Record DiscoveryHsmContext := mkDisc {
  discovered_count : Z;
  lost_count : Z;
  stable_threshold : Z;
  on_stable : option DiscoveryCallbackFn;
  on_degraded : option DiscoveryCallbackFn;
  callback_ctx : option A;
  disc_reporter : FaultReporter W;
  idx_idle : Z; idx_announcing : Z; idx_discovering : Z; idx_stable : Z; idx_degraded : Z; idx_stopped : Z;
  disc_world : W
}.

Definition set_counts (found lost : Z) (c : DiscoveryHsmContext) : DiscoveryHsmContext :=
  mkDisc found lost (stable_threshold c) (on_stable c) (on_degraded c) (callback_ctx c) (disc_reporter c)
    (idx_idle c) (idx_announcing c) (idx_discovering c) (idx_stable c) (idx_degraded c) (idx_stopped c) (disc_world c).
Definition set_config (threshold : Z) (st dg : option DiscoveryCallbackFn) (a : option A) (r : FaultReporter W) (c : DiscoveryHsmContext)
    : DiscoveryHsmContext :=
  mkDisc (discovered_count c) (lost_count c) threshold st dg a r
    (idx_idle c) (idx_announcing c) (idx_discovering c) (idx_stable c) (idx_degraded c) (idx_stopped c) (disc_world c).
Definition set_world (w : W) (c : DiscoveryHsmContext) : DiscoveryHsmContext :=
  mkDisc (discovered_count c) (lost_count c) (stable_threshold c) (on_stable c) (on_degraded c) (callback_ctx c) (disc_reporter c)
    (idx_idle c) (idx_announcing c) (idx_discovering c) (idx_stable c) (idx_degraded c) (idx_stopped c) w.
Definition set_indices (i0 i1 i2 i3 i4 i5 : Z) (c : DiscoveryHsmContext) : DiscoveryHsmContext :=
  mkDisc (discovered_count c) (lost_count c) (stable_threshold c) (on_stable c) (on_degraded c) (callback_ctx c) (disc_reporter c)
    i0 i1 i2 i3 i4 i5 (disc_world c).

Definition found_one (c : DiscoveryHsmContext) : DiscoveryHsmContext := set_counts (u32 (discovered_count c + 1)) (lost_count c) c.
Definition lost_one (c : DiscoveryHsmContext) : DiscoveryHsmContext := set_counts (discovered_count c) (u32 (lost_count c + 1)) c.

(** ** Handlers *)

Abbreviation Handler := (@HandlerFn DiscoveryHsmContext unit).

(** [return ctx.sm->RequestTransition(target)] *)
Definition request (req : RequestFn) (target : Z) (c : DiscoveryHsmContext) (pending : Z) : TransitionResult * DiscoveryHsmContext * Z :=
  let '(r, p) := req target pending in (r, c, p).

Definition DiscStateIdle : Handler := fun req c e pending =>
  if event_id e =? kDiscEvtStart then request req (idx_announcing c) c pending else (kUnhandled, c, pending).

Definition DiscStateAnnouncing : Handler := fun req c e pending =>
  if event_id e =? kDiscEvtNodeFound then request req (idx_discovering c) (found_one c) pending
  else if event_id e =? kDiscEvtStop then request req (idx_stopped c) c pending
  else (kUnhandled, c, pending).

Definition DiscStateDiscovering : Handler := fun req c e pending =>
  if event_id e =? kDiscEvtNodeFound then (kHandled, found_one c, pending)
  else if event_id e =? kDiscEvtNetworkStable then
    if stable_threshold c <=? discovered_count c then request req (idx_stable c) c pending else (kHandled, c, pending)
  else if event_id e =? kDiscEvtNodeLost then (kHandled, lost_one c, pending)
  else if event_id e =? kDiscEvtStop then request req (idx_stopped c) c pending
  else (kUnhandled, c, pending).

Definition DiscStateStable : Handler := fun req c e pending =>
  if event_id e =? kDiscEvtNodeFound then (kHandled, found_one c, pending)
  else if event_id e =? kDiscEvtNodeLost then request req (idx_degraded c) (lost_one c) pending
  else if event_id e =? kDiscEvtStop then request req (idx_stopped c) c pending
  else (kUnhandled, c, pending).

Definition DiscStateDegraded : Handler := fun req c e pending =>
  if event_id e =? kDiscEvtNodeFound then request req (idx_discovering c) (found_one c) pending
  else if event_id e =? kDiscEvtNetworkStable then
    if stable_threshold c <=? discovered_count c then request req (idx_stable c) c pending else (kHandled, c, pending)
  else if event_id e =? kDiscEvtNodeLost then (kHandled, lost_one c, pending)
  else if event_id e =? kDiscEvtStop then request req (idx_stopped c) c pending
  else (kUnhandled, c, pending).

Definition DiscStateStopped : Handler := fun _ c _ pending => (kUnhandled, c, pending).

Definition OnEnterDiscStable (c : DiscoveryHsmContext) : DiscoveryHsmContext :=
  match on_stable c with Some f => set_world (f (callback_ctx c) (disc_world c)) c | None => c end.
Definition OnEnterDiscDegraded (c : DiscoveryHsmContext) : DiscoveryHsmContext :=
  let c := set_world (Report (disc_reporter c) kFaultNetworkDegraded (lost_count c) kMedium (disc_world c)) c in
  match on_degraded c with Some f => set_world (f (callback_ctx c) (disc_world c)) c | None => c end.

(** ** The class *)

Abbreviation Hsm := (@StateMachine DiscoveryHsmContext unit).
Record HsmDiscovery := mkDiscovery { hsm_ : Hsm; disc_started_ : bool; hsm_started_ : bool }.

Definition with_context (f : DiscoveryHsmContext -> DiscoveryHsmContext) (m : Hsm) : Hsm :=
  mkMachine (f (ctx_ m)) (current_state_ m) (initial_state_ m) (started_ m) (pending_target_ m) (states_ m).
Definition context_ (d : HsmDiscovery) : DiscoveryHsmContext := ctx_ (hsm_ d).
Definition update_context (f : DiscoveryHsmContext -> DiscoveryHsmContext) (d : HsmDiscovery) : HsmDiscovery :=
  mkDiscovery (with_context f (hsm_ d)) (disc_started_ d) (hsm_started_ d).

Definition HsmDiscovery_ctor (w : W) : option HsmDiscovery :=
  let add nm h en m := AddState kDiscMaxStates (mkStateConfig nm (-1) (Some h) en None None) m in
  let m := StateMachine_ctor (mkDisc 0 0 1 None None None None (-1) (-1) (-1) (-1) (-1) (-1) w) in
  '(i0, m) ← add "Idle"%string DiscStateIdle None m;
  '(i1, m) ← add "Announcing"%string DiscStateAnnouncing None m;
  '(i2, m) ← add "Discovering"%string DiscStateDiscovering None m;
  '(i3, m) ← add "Stable"%string DiscStateStable (Some OnEnterDiscStable) m;
  '(i4, m) ← add "Degraded"%string DiscStateDegraded (Some OnEnterDiscDegraded) m;
  '(i5, m) ← add "Stopped"%string DiscStateStopped None m;
  m ← SetInitialState i0 m;
  Some (mkDiscovery (with_context (set_indices i0 i1 i2 i3 i4 i5) m) false false).

Definition SetStableThreshold (t : Z) : HsmDiscovery -> HsmDiscovery :=
  update_context (fun c => set_config t (on_stable c) (on_degraded c) (callback_ctx c) (disc_reporter c) c).
Definition OnStable (f : option DiscoveryCallbackFn) (a : option A) : HsmDiscovery -> HsmDiscovery :=
  update_context (fun c => set_config (stable_threshold c) f (on_degraded c) a (disc_reporter c) c).
Definition OnDegraded (f : option DiscoveryCallbackFn) (a : option A) : HsmDiscovery -> HsmDiscovery :=
  update_context (fun c => set_config (stable_threshold c) (on_stable c) f a (disc_reporter c) c).
Definition SetFaultReporter (r : FaultReporter W) : HsmDiscovery -> HsmDiscovery :=
  update_context (fun c => set_config (stable_threshold c) (on_stable c) (on_degraded c) (callback_ctx c) r c).
Definition ResetCounters : HsmDiscovery -> HsmDiscovery := update_context (set_counts 0 0).

Definition EnsureHsmStarted (d : HsmDiscovery) : option HsmDiscovery :=
  if hsm_started_ d then Some d else m ← Start (hsm_ d); Some (mkDiscovery m (disc_started_ d) true).

Definition dispatch (evt : Z) (d : HsmDiscovery) : option HsmDiscovery :=
  m ← Dispatch (mkEvent evt None) (hsm_ d); Some (mkDiscovery m (disc_started_ d) (hsm_started_ d)).
Definition set_started (b : bool) (d : HsmDiscovery) : HsmDiscovery := mkDiscovery (hsm_ d) b (hsm_started_ d).

Definition Start (d : HsmDiscovery) : option HsmDiscovery :=
  if disc_started_ d then Some d
  else d ← EnsureHsmStarted d; d ← dispatch kDiscEvtStart d; Some (set_started true d).
Definition Stop (d : HsmDiscovery) : option HsmDiscovery :=
  if disc_started_ d then d ← dispatch kDiscEvtStop d; Some (set_started false d) else Some d.
(** The shared body of the event methods. *)
Definition notify (evt : Z) (d : HsmDiscovery) : option HsmDiscovery := if disc_started_ d then dispatch evt d else Some d.
Definition OnNodeFound (d : HsmDiscovery) : option HsmDiscovery := notify kDiscEvtNodeFound d.
Definition OnNodeLost (d : HsmDiscovery) : option HsmDiscovery := notify kDiscEvtNodeLost d.
Definition CheckStability (d : HsmDiscovery) : option HsmDiscovery := notify kDiscEvtNetworkStable d.
Definition TriggerDegraded (d : HsmDiscovery) : option HsmDiscovery := notify kDiscEvtNetworkDegraded d.

Definition GetState (d : HsmDiscovery) : option string :=
  if hsm_started_ d then CurrentStateName (hsm_ d) else Some "NotStarted"%string.
(** The shared body of the state queries, with the answer before the start. *)
Definition in_state (before : bool) (idx : DiscoveryHsmContext -> Z) (d : HsmDiscovery) : option bool :=
  if hsm_started_ d then IsInState (idx (context_ d)) (hsm_ d) else Some before.
Definition IsStable : HsmDiscovery -> option bool := in_state false idx_stable.
Definition IsDegraded : HsmDiscovery -> option bool := in_state false idx_degraded.
Definition IsDiscovering : HsmDiscovery -> option bool := in_state false idx_discovering.
Definition IsAnnouncing : HsmDiscovery -> option bool := in_state false idx_announcing.
Definition IsIdle : HsmDiscovery -> option bool := in_state true idx_idle.
Definition IsStopped : HsmDiscovery -> option bool := in_state false idx_stopped.
Definition GetDiscoveredCount (d : HsmDiscovery) : Z := discovered_count (context_ d).
Definition GetLostCount (d : HsmDiscovery) : Z := lost_count (context_ d).

(** ** The specification *)

(** Six phases; "Idle" of the machine is never observed after the start. *)
Inductive DiscPhase := phNotStarted | phAnnouncing | phDiscovering | phStable | phDegraded | phStopped.

Record Disc := mkD {
  d_phase : DiscPhase; d_found : Z; d_lost : Z; d_threshold : Z;
  d_on_stable : option DiscoveryCallbackFn; d_on_degraded : option DiscoveryCallbackFn; d_ctx : option A;
  d_reporter : FaultReporter W; d_world : W
}.
Definition disc_fresh : W -> Disc := mkD phNotStarted 0 0 1 None None None None.

Definition d_go (p : DiscPhase) (s : Disc) : Disc :=
  mkD p (d_found s) (d_lost s) (d_threshold s) (d_on_stable s) (d_on_degraded s) (d_ctx s) (d_reporter s) (d_world s).
Definition d_count (found lost : Z) (s : Disc) : Disc :=
  mkD (d_phase s) found lost (d_threshold s) (d_on_stable s) (d_on_degraded s) (d_ctx s) (d_reporter s) (d_world s).
Definition d_configure (t : Z) (st dg : option DiscoveryCallbackFn) (a : option A) (r : FaultReporter W) (s : Disc) : Disc :=
  mkD (d_phase s) (d_found s) (d_lost s) t st dg a r (d_world s).
Definition d_call (f : option DiscoveryCallbackFn) (s : Disc) : Disc :=
  mkD (d_phase s) (d_found s) (d_lost s) (d_threshold s) (d_on_stable s) (d_on_degraded s) (d_ctx s) (d_reporter s)
    (match f with Some f => f (d_ctx s) (d_world s) | None => d_world s end).
Definition d_report (s : Disc) : Disc :=
  mkD (d_phase s) (d_found s) (d_lost s) (d_threshold s) (d_on_stable s) (d_on_degraded s) (d_ctx s) (d_reporter s)
    (Report (d_reporter s) kFaultNetworkDegraded (d_lost s) kMedium (d_world s)).

Inductive DiscOp :=
| DStart | DStop | DFound | DLost | DCheck | DTrigger | DReset | DThreshold (t : Z)
| DOnStable (f : option DiscoveryCallbackFn) (a : option A) | DOnDegraded (f : option DiscoveryCallbackFn) (a : option A)
| DReporter (r : FaultReporter W)
| DState | DIsStable | DIsDegraded | DIsDiscovering | DIsAnnouncing | DIsIdle | DIsStopped | DGetFound | DGetLost.
Inductive DiscRes := DRNone | DRName (s : string) | DRBool (b : bool) | DRNum (n : Z).

Definition spec_disc_step (o : DiscOp) (s : Disc) : Disc :=
  let found := d_count (u32 (d_found s + 1)) (d_lost s) s in
  let lost := d_count (d_found s) (u32 (d_lost s + 1)) s in
  match o, d_phase s with
  | DStart, phNotStarted => d_go phAnnouncing s
  | DStop, (phAnnouncing | phDiscovering | phStable | phDegraded) => d_go phStopped s
  | DFound, (phAnnouncing | phDegraded) => d_go phDiscovering found
  | DFound, (phDiscovering | phStable) => found
  | DLost, (phDiscovering | phDegraded) => lost
  | DLost, phStable => let s := d_report (d_go phDegraded lost) in d_call (d_on_degraded s) s
  | DCheck, (phDiscovering | phDegraded) =>
      if d_threshold s <=? d_found s then d_call (d_on_stable s) (d_go phStable s) else s
  | DReset, _ => d_count 0 0 s
  | DThreshold t, _ => d_configure t (d_on_stable s) (d_on_degraded s) (d_ctx s) (d_reporter s) s
  | DOnStable f a, _ => d_configure (d_threshold s) f (d_on_degraded s) a (d_reporter s) s
  | DOnDegraded f a, _ => d_configure (d_threshold s) (d_on_stable s) f a (d_reporter s) s
  | DReporter r, _ => d_configure (d_threshold s) (d_on_stable s) (d_on_degraded s) (d_ctx s) r s
  | _, _ => s
  end.
Definition disc_phase_name (p : DiscPhase) : string :=
  match p with
  | phNotStarted => "NotStarted" | phAnnouncing => "Announcing" | phDiscovering => "Discovering" | phStable => "Stable"
  | phDegraded => "Degraded" | phStopped => "Stopped"
  end.
Definition phase_eqb (p q : DiscPhase) : bool :=
  match p, q with
  | phNotStarted, phNotStarted | phAnnouncing, phAnnouncing | phDiscovering, phDiscovering | phStable, phStable
  | phDegraded, phDegraded | phStopped, phStopped => true
  | _, _ => false
  end.
Definition spec_disc_res (o : DiscOp) (s : Disc) : DiscRes :=
  match o with
  | DState => DRName (disc_phase_name (d_phase s))
  | DIsStable => DRBool (phase_eqb (d_phase s) phStable)
  | DIsDegraded => DRBool (phase_eqb (d_phase s) phDegraded)
  | DIsDiscovering => DRBool (phase_eqb (d_phase s) phDiscovering)
  | DIsAnnouncing => DRBool (phase_eqb (d_phase s) phAnnouncing)
  | DIsIdle => DRBool (phase_eqb (d_phase s) phNotStarted)
  | DIsStopped => DRBool (phase_eqb (d_phase s) phStopped)
  | DGetFound => DRNum (d_found s)
  | DGetLost => DRNum (d_lost s)
  | _ => DRNone
  end.

(** ** Calls *)

Definition disc_op (o : DiscOp) (d : HsmDiscovery) : option (DiscRes * HsmDiscovery) :=
  let cmd x := d ← x; Some (DRNone, d) in
  let ask x := b ← x; Some (DRBool b, d) in
  match o with
  | DStart => cmd (Start d)
  | DStop => cmd (Stop d)
  | DFound => cmd (OnNodeFound d)
  | DLost => cmd (OnNodeLost d)
  | DCheck => cmd (CheckStability d)
  | DTrigger => cmd (TriggerDegraded d)
  | DReset => Some (DRNone, ResetCounters d)
  | DThreshold t => Some (DRNone, SetStableThreshold t d)
  | DOnStable f a => Some (DRNone, OnStable f a d)
  | DOnDegraded f a => Some (DRNone, OnDegraded f a d)
  | DReporter r => Some (DRNone, SetFaultReporter r d)
  | DState => nm ← GetState d; Some (DRName nm, d)
  | DIsStable => ask (IsStable d)
  | DIsDegraded => ask (IsDegraded d)
  | DIsDiscovering => ask (IsDiscovering d)
  | DIsAnnouncing => ask (IsAnnouncing d)
  | DIsIdle => ask (IsIdle d)
  | DIsStopped => ask (IsStopped d)
  | DGetFound => Some (DRNum (GetDiscoveredCount d), d)
  | DGetLost => Some (DRNum (GetLostCount d), d)
  end.

Fixpoint disc_run (ops : list DiscOp) (d : HsmDiscovery) : option (list DiscRes * HsmDiscovery) :=
  match ops with
  | [] => Some ([], d)
  | o :: ops => '(r, d) ← disc_op o d; '(rs, d) ← disc_run ops d; Some (r :: rs, d)
  end.
Fixpoint spec_disc_run (ops : list DiscOp) (s : Disc) : list DiscRes * Disc :=
  match ops with
  | [] => ([], s)
  | o :: ops => let '(rs, s') := spec_disc_run ops (spec_disc_step o s) in (spec_disc_res o s :: rs, s')
  end.

(** ** Refinement *)

Definition disc_states : list (@StateConfig DiscoveryHsmContext unit) :=
  let st nm h en := mkStateConfig nm (-1) (Some h) en None None in
  [st "Idle" DiscStateIdle None; st "Announcing" DiscStateAnnouncing None; st "Discovering" DiscStateDiscovering None;
   st "Stable" DiscStateStable (Some OnEnterDiscStable); st "Degraded" DiscStateDegraded (Some OnEnterDiscDegraded);
   st "Stopped" DiscStateStopped None]%string.

Lemma disc_flat : flat disc_states.
Proof. repeat constructor; by eexists. Qed.

Definition disc_context (s : Disc) : DiscoveryHsmContext :=
  mkDisc (d_found s) (d_lost s) (d_threshold s) (d_on_stable s) (d_on_degraded s) (d_ctx s) (d_reporter s) 0 1 2 3 4 5 (d_world s).

Definition phase_number (p : DiscPhase) : Z :=
  match p with phNotStarted => 0 | phAnnouncing => 1 | phDiscovering => 2 | phStable => 3 | phDegraded => 4 | phStopped => 5 end.

(** [b]: whether [started_] is set in the stopped phase, which nothing shows. *)
Definition disc_at (b : bool) (s : Disc) : HsmDiscovery :=
  match d_phase s with
  | phNotStarted => mkDiscovery (mkMachine (disc_context s) kNoState 0 false kNoState disc_states) false false
  | phStopped => mkDiscovery (at_rest disc_states (disc_context s) 5) b true
  | p => mkDiscovery (at_rest disc_states (disc_context s) (phase_number p)) true true
  end.

Lemma HsmDiscovery_ctor_at w : HsmDiscovery_ctor w = Some (disc_at false (disc_fresh w)).
Proof. reflexivity. Qed.

(** What the two handlers that check for stability answer. *)
Lemma stability_check h req c p :
  h = DiscStateDiscovering \/ h = DiscStateDegraded ->
  h req c (mkEvent kDiscEvtNetworkStable None) p =
    if stable_threshold c <=? discovered_count c then request req (idx_stable c) c p else (kHandled, c, p).
Proof. by intros [-> | ->]. Qed.

(** Checking for stability is the one event whose outcome depends on a number. *)
Lemma CheckStability_at b s : CheckStability (disc_at b s) = Some (disc_at b (spec_disc_step DCheck s)).
Proof.
  destruct s as [p f l t st dg a r w]. unfold CheckStability, notify. destruct p; try reflexivity; [| |by destruct b].
  all: unfold dispatch; cbn [disc_at d_phase disc_started_ hsm_ spec_disc_step d_threshold d_found].
  all: destruct (t <=? f) eqn:E.
  all: erewrite Dispatch_flat;
    [|exact disc_flat|by vm_compute|reflexivity|reflexivity|
      rewrite stability_check by auto; unfold disc_context; cbn [stable_threshold discovered_count d_threshold d_found]; rewrite E; reflexivity
     |vm_compute; by repeat split].
  all: try reflexivity; by destruct st.
Qed.

Lemma disc_op_at o b s :
  exists b', disc_op o (disc_at b s) = Some (spec_disc_res o s, disc_at b' (spec_disc_step o s)).
Proof.
  destruct o; try (exists b; cbn [disc_op]; rewrite CheckStability_at; reflexivity);
    destruct s as [p nf nl th st dg x0 rep w]; destruct p; try (exists b; reflexivity);
    try (exists b; destruct b; reflexivity); try (exists b; destruct dg; reflexivity).
  - exists true. by destruct b.
  - by exists false.
  - by exists false.
  - by exists false.
  - by exists false.
  - exists false. by destruct b.
Qed.

Lemma disc_run_at ops b s : exists b', disc_run ops (disc_at b s) = Some ((spec_disc_run ops s).1, disc_at b' (spec_disc_run ops s).2).
Proof.
  revert b s. induction ops as [|o ops IH]; intros b s; [by exists b|]. cbn [disc_run spec_disc_run].
  destruct (disc_op_at o b s) as [b1 ->]. cbn [mbind option_bind]. destruct (IH b1 (spec_disc_step o s)) as [b2 ->].
  exists b2. by destruct (spec_disc_run ops _).
Qed.

End Discovery.
Arguments DiscOp : clear implicits.

(** Refinement: the discovery state machine, with any callbacks, behaves as a
    six-phase automaton: announcing until the first node is found, discovering,
    stable as soon as a check finds the threshold reached (the stability callback
    runs exactly then), degraded when a node is lost in the stable phase (the loss
    is reported and the degradation callback runs exactly then), back to discovering
    when a node is found, stopped for ever once stopped; the counters count exactly
    the events of the phases that take them. *)
Lemma discovery_refines {A W} (ops : list (DiscOp A W)) (w : W) :
  let spec := spec_disc_run ops (disc_fresh w) in
  exists d d', HsmDiscovery_ctor w = Some d /\ disc_run ops d = Some (spec.1, d') /\ disc_world (context_ d') = d_world spec.2.
Proof.
  cbv zeta. destruct (disc_run_at ops false (disc_fresh w)) as [b E]. eexists _, _. split; [apply HsmDiscovery_ctor_at|].
  split; [exact E|]. by destruct (spec_disc_run ops (disc_fresh w)) as [rs [[] ? ? ? ? ? ? ? ?] ].
Qed.

(** ** Runs *)

Definition disc_results {A W} (ops : list (DiscOp A W)) (w : W) : option (list DiscRes * W) :=
  d ← HsmDiscovery_ctor w; '(rs, d) ← disc_run ops d; Some (rs, disc_world (context_ d)).

(** TriggerDegraded sends an event no state handles. *)
Lemma trigger_degraded_ignored :
  disc_results (A := unit) [DStart; DFound; DCheck; DState; DTrigger; DState] tt =
    Some ([DRNone; DRNone; DRNone; DRName "Stable"; DRNone; DRName "Stable"], tt).
Proof. reflexivity. Qed.

(** A stopped discovery cannot be started again. *)
Lemma discovery_not_restartable :
  disc_results (A := unit) [DStart; DStop; DStart; DFound; DState] tt = Some ([DRNone; DRNone; DRNone; DRNone; DRName "Stopped"], tt).
Proof. reflexivity. Qed.

(** Both callbacks get the context registered last. *)
Lemma callback_context_shared :
  disc_results [DOnStable (Some (fun a (w : list (option Z)) => w ++ [a])) (Some 1); DOnDegraded None (Some 2); DStart; DFound; DCheck] [] =
    Some ([DRNone; DRNone; DRNone; DRNone; DRNone], [Some 2]).
Proof. reflexivity. Qed.

(** Lost nodes are not subtracted: the network counts as stable with none left. *)
Lemma stable_without_nodes :
  disc_results (A := unit) [DStart; DFound; DLost; DCheck; DState] tt = Some ([DRNone; DRNone; DRNone; DRNone; DRName "Stable"], tt).
Proof. reflexivity. Qed.
