(* ===== verification/ServiceHsm.v ===== *)
(** * HsmService (include/osp/service_hsm.hpp)

    The state machine of a request/reply service, a client of StateMachine through
    the equations of FlatHsm.v and of FaultReporter.  User callbacks take the context
    pointer they were registered with and work on a world [W]. *)

From Stdlib Require Import ZArith Lia Bool String.
From stdpp Require Import base numbers list option.
From S2P Require Import Prelude Fault Hierarchy Hsm FlatHsm.

Open Scope Z_scope.

(** ServiceHsmEvent *)
Definition kSvcEvtStart : Z := 1.
Definition kSvcEvtClientConnected : Z := 2.
Definition kSvcEvtClientDisconnected : Z := 3.
Definition kSvcEvtError : Z := 4.
Definition kSvcEvtStop : Z := 5.
Definition kSvcEvtRecover : Z := 6.
Definition kFaultServiceError : Z := 0.
Definition kSvcMaxStates : Z := 8.

Section Service.
Context {A W : Type}.

Definition ServiceErrorFn : Type := Z -> option A -> W -> W.
Definition ServiceShutdownFn : Type := option A -> W -> W.

Record ServiceHsmContext := mkSvc {
  active_clients : Z;
  error_code : Z;
  on_error : option ServiceErrorFn;
  on_shutdown : option ServiceShutdownFn;
  callback_ctx : option A;
  svc_reporter : FaultReporter W;
  idx_idle : Z; idx_listening : Z; idx_active : Z; idx_error : Z; idx_shutting_down : Z;
  svc_world : W
}.

Definition set_numbers (clients code : Z) (c : ServiceHsmContext) : ServiceHsmContext :=
  mkSvc clients code (on_error c) (on_shutdown c) (callback_ctx c) (svc_reporter c)
    (idx_idle c) (idx_listening c) (idx_active c) (idx_error c) (idx_shutting_down c) (svc_world c).
Definition set_clients (n : Z) (c : ServiceHsmContext) : ServiceHsmContext := set_numbers n (error_code c) c.
Definition set_error (n : Z) (c : ServiceHsmContext) : ServiceHsmContext := set_numbers (active_clients c) n c.
Definition set_callbacks (er : option ServiceErrorFn) (sh : option ServiceShutdownFn) (a : option A) (r : FaultReporter W)
    (c : ServiceHsmContext) : ServiceHsmContext :=
  mkSvc (active_clients c) (error_code c) er sh a r
    (idx_idle c) (idx_listening c) (idx_active c) (idx_error c) (idx_shutting_down c) (svc_world c).
Definition set_world (w : W) (c : ServiceHsmContext) : ServiceHsmContext :=
  mkSvc (active_clients c) (error_code c) (on_error c) (on_shutdown c) (callback_ctx c) (svc_reporter c)
    (idx_idle c) (idx_listening c) (idx_active c) (idx_error c) (idx_shutting_down c) w.
Definition set_indices (i0 i1 i2 i3 i4 : Z) (c : ServiceHsmContext) : ServiceHsmContext :=
  mkSvc (active_clients c) (error_code c) (on_error c) (on_shutdown c) (callback_ctx c) (svc_reporter c)
    i0 i1 i2 i3 i4 (svc_world c).

(** ** Handlers; events carry an error code or nothing *)

Abbreviation Handler := (@HandlerFn ServiceHsmContext Z).

Definition request (req : RequestFn) (target : Z) (c : ServiceHsmContext) (pending : Z) : TransitionResult * ServiceHsmContext * Z :=
  let '(r, p) := req target pending in (r, c, p).
(** [if (event.data != nullptr) ctx.error_code = ...] and the transition to Error. *)
Definition to_error (req : RequestFn) (e : Event) (c : ServiceHsmContext) (pending : Z) : TransitionResult * ServiceHsmContext * Z :=
  let c := match event_data e with Some code => set_error code c | None => c end in
  request req (idx_error c) c pending.

Definition StateIdle : Handler := fun req c e pending =>
  if event_id e =? kSvcEvtStart then request req (idx_listening c) c pending
  else if event_id e =? kSvcEvtError then to_error req e c pending
  else (kUnhandled, c, pending).

Definition StateListening : Handler := fun req c e pending =>
  if event_id e =? kSvcEvtClientConnected then request req (idx_active c) (set_clients (u32 (active_clients c + 1)) c) pending
  else if event_id e =? kSvcEvtError then to_error req e c pending
  else if event_id e =? kSvcEvtStop then request req (idx_shutting_down c) c pending
  else (kUnhandled, c, pending).

Definition StateActive : Handler := fun req c e pending =>
  if event_id e =? kSvcEvtClientConnected then (kHandled, set_clients (u32 (active_clients c + 1)) c, pending)
  else if event_id e =? kSvcEvtClientDisconnected then
    let c := if 0 <? active_clients c then set_clients (active_clients c - 1) c else c in
    if active_clients c =? 0 then request req (idx_listening c) c pending else (kHandled, c, pending)
  else if event_id e =? kSvcEvtError then to_error req e c pending
  else if event_id e =? kSvcEvtStop then request req (idx_shutting_down c) c pending
  else (kUnhandled, c, pending).

Definition StateError : Handler := fun req c e pending =>
  if event_id e =? kSvcEvtRecover then request req (idx_idle c) (set_numbers 0 0 c) pending
  else if event_id e =? kSvcEvtStop then request req (idx_shutting_down c) c pending
  else (kUnhandled, c, pending).

Definition StateShuttingDown : Handler := fun _ c _ pending => (kHandled, c, pending).

Definition OnEnterError (c : ServiceHsmContext) : ServiceHsmContext :=
  let c := set_world (Report (svc_reporter c) kFaultServiceError (u32 (error_code c)) kHigh (svc_world c)) c in
  match on_error c with Some f => set_world (f (error_code c) (callback_ctx c) (svc_world c)) c | None => c end.
Definition OnEnterShuttingDown (c : ServiceHsmContext) : ServiceHsmContext :=
  let c := match on_shutdown c with Some f => set_world (f (callback_ctx c) (svc_world c)) c | None => c end in
  set_clients 0 c.

(** ** The class *)

Abbreviation Hsm := (@StateMachine ServiceHsmContext Z).
Record HsmService := mkService { hsm_ : Hsm; svc_started_ : bool; hsm_started_ : bool }.

Definition with_context (f : ServiceHsmContext -> ServiceHsmContext) (m : Hsm) : Hsm :=
  mkMachine (f (ctx_ m)) (current_state_ m) (initial_state_ m) (started_ m) (pending_target_ m) (states_ m).
Definition context_ (d : HsmService) : ServiceHsmContext := ctx_ (hsm_ d).
Definition update_context (f : ServiceHsmContext -> ServiceHsmContext) (d : HsmService) : HsmService :=
  mkService (with_context f (hsm_ d)) (svc_started_ d) (hsm_started_ d).

Definition HsmService_ctor (w : W) : option HsmService :=
  let add nm h en m := AddState kSvcMaxStates (mkStateConfig nm (-1) (Some h) en None None) m in
  let m := StateMachine_ctor (mkSvc 0 0 None None None None (-1) (-1) (-1) (-1) (-1) w) in
  '(i0, m) ← add "Idle"%string StateIdle None m;
  '(i1, m) ← add "Listening"%string StateListening None m;
  '(i2, m) ← add "Active"%string StateActive None m;
  '(i3, m) ← add "Error"%string StateError (Some OnEnterError) m;
  '(i4, m) ← add "ShuttingDown"%string StateShuttingDown (Some OnEnterShuttingDown) m;
  m ← SetInitialState i0 m;
  Some (mkService (with_context (set_indices i0 i1 i2 i3 i4) m) false false).

Definition EnsureHsmStarted (d : HsmService) : option HsmService :=
  if hsm_started_ d then Some d else m ← Start (hsm_ d); Some (mkService m (svc_started_ d) true).
Definition dispatch (evt : Z) (d : HsmService) : option HsmService :=
  m ← Dispatch (mkEvent evt None) (hsm_ d); Some (mkService m (svc_started_ d) (hsm_started_ d)).
Definition set_started (b : bool) (d : HsmService) : HsmService := mkService (hsm_ d) b (hsm_started_ d).

Definition Start (d : HsmService) : option HsmService :=
  if svc_started_ d then Some d
  else d ← EnsureHsmStarted d; d ← dispatch kSvcEvtStart d; Some (set_started true d).
Definition Stop (d : HsmService) : option HsmService :=
  if svc_started_ d then d ← dispatch kSvcEvtStop d; Some (set_started false d) else Some d.
Definition Recover (d : HsmService) : option HsmService := if svc_started_ d then dispatch kSvcEvtRecover d else Some d.
Definition OnClientConnect (d : HsmService) : option HsmService :=
  if svc_started_ d then dispatch kSvcEvtClientConnected d else Some d.
Definition OnClientDisconnect (d : HsmService) : option HsmService :=
  if svc_started_ d then dispatch kSvcEvtClientDisconnected d else Some d.
Definition OnError (code : Z) (d : HsmService) : option HsmService :=
  if svc_started_ d then dispatch kSvcEvtError (update_context (set_error code) d) else Some d.

Definition SetErrorCallback (f : option ServiceErrorFn) (a : option A) : HsmService -> HsmService :=
  update_context (fun c => set_callbacks f (on_shutdown c) a (svc_reporter c) c).
Definition SetShutdownCallback (f : option ServiceShutdownFn) (a : option A) : HsmService -> HsmService :=
  update_context (fun c => set_callbacks (on_error c) f a (svc_reporter c) c).
Definition SetFaultReporter (r : FaultReporter W) : HsmService -> HsmService :=
  update_context (fun c => set_callbacks (on_error c) (on_shutdown c) (callback_ctx c) r c).

Definition GetState (d : HsmService) : option string :=
  if hsm_started_ d then CurrentStateName (hsm_ d) else Some "NotStarted"%string.
Definition in_state (before : bool) (idx : ServiceHsmContext -> Z) (d : HsmService) : option bool :=
  if hsm_started_ d then IsInState (idx (context_ d)) (hsm_ d) else Some before.
Definition IsActive : HsmService -> option bool := in_state false idx_active.
Definition IsListening : HsmService -> option bool := in_state false idx_listening.
Definition IsError : HsmService -> option bool := in_state false idx_error.
Definition IsIdle : HsmService -> option bool := in_state true idx_idle.
Definition IsShuttingDown : HsmService -> option bool := in_state false idx_shutting_down.
Definition GetActiveClients (d : HsmService) : Z := active_clients (context_ d).
Definition GetErrorCode (d : HsmService) : Z := error_code (context_ d).

(** ** The specification *)

Inductive SvcPhase := svNotStarted | svIdle | svListening | svActive | svError | svShuttingDown.

Record Svc := mkS {
  s_phase : SvcPhase; s_running : bool; s_clients : Z; s_code : Z;
  s_on_error : option ServiceErrorFn; s_on_shutdown : option ServiceShutdownFn; s_ctx : option A;
  s_reporter : FaultReporter W; s_world : W
}.
Definition svc_fresh : W -> Svc := mkS svNotStarted false 0 0 None None None None.

Definition s_go (p : SvcPhase) (s : Svc) : Svc :=
  mkS p (s_running s) (s_clients s) (s_code s) (s_on_error s) (s_on_shutdown s) (s_ctx s) (s_reporter s) (s_world s).
Definition s_run (b : bool) (s : Svc) : Svc :=
  mkS (s_phase s) b (s_clients s) (s_code s) (s_on_error s) (s_on_shutdown s) (s_ctx s) (s_reporter s) (s_world s).
Definition s_set (clients code : Z) (s : Svc) : Svc :=
  mkS (s_phase s) (s_running s) clients code (s_on_error s) (s_on_shutdown s) (s_ctx s) (s_reporter s) (s_world s).
Definition s_hooks (er : option ServiceErrorFn) (sh : option ServiceShutdownFn) (a : option A) (r : FaultReporter W) (s : Svc) : Svc :=
  mkS (s_phase s) (s_running s) (s_clients s) (s_code s) er sh a r (s_world s).
Definition s_act (f : W -> W) (s : Svc) : Svc :=
  mkS (s_phase s) (s_running s) (s_clients s) (s_code s) (s_on_error s) (s_on_shutdown s) (s_ctx s) (s_reporter s) (f (s_world s)).

Definition spec_fail (s : Svc) : Svc :=
  let s := s_act (Report (s_reporter s) kFaultServiceError (u32 (s_code s)) kHigh) (s_go svError s) in
  s_act (fun w => match s_on_error s with Some f => f (s_code s) (s_ctx s) w | None => w end) s.
Definition spec_shut (s : Svc) : Svc :=
  let s := s_act (fun w => match s_on_shutdown s with Some f => f (s_ctx s) w | None => w end) (s_go svShuttingDown s) in
  s_set 0 (s_code s) s.
(** One client less; the last one takes the service back to listening. *)
Definition spec_leave (s : Svc) : Svc :=
  let n := Z.max 0 (s_clients s - 1) in
  let s := s_set n (s_code s) s in
  if n =? 0 then s_go svListening s else s.

Inductive SvcOp :=
| SStart | SStop | SRecover | SConnect | SDisconnect | SError (code : Z)
| SOnError (f : option ServiceErrorFn) (a : option A) | SOnShutdown (f : option ServiceShutdownFn) (a : option A)
| SReporter (r : FaultReporter W)
| SState | SIsActive | SIsListening | SIsError | SIsIdle | SIsShuttingDown | SGetClients | SGetCode.
Inductive SvcRes := SRNone | SRName (s : string) | SRBool (b : bool) | SRNum (n : Z).

(** An event while the service is started. *)
Definition spec_svc_event (o : SvcOp) (s : Svc) : Svc :=
  match o, s_phase s with
  | SStop, (svListening | svActive | svError) => spec_shut s
  | SRecover, svError => s_set 0 0 (s_go svIdle s)
  | SConnect, (svListening | svActive) => s_set (u32 (s_clients s + 1)) (s_code s) (s_go svActive s)
  | SDisconnect, svActive => spec_leave s
  | SError code, (svIdle | svListening | svActive) => spec_fail (s_set (s_clients s) code s)
  | SError code, _ => s_set (s_clients s) code s
  | _, _ => s
  end.
Definition spec_svc_step (o : SvcOp) (s : Svc) : Svc :=
  match o with
  | SStart =>
    if s_running s then s
    else s_run true (match s_phase s with svNotStarted | svIdle => s_go svListening s | _ => s end)
  | SStop => if s_running s then s_run false (spec_svc_event SStop s) else s
  | SRecover | SConnect | SDisconnect | SError _ => if s_running s then spec_svc_event o s else s
  | SOnError f a => s_hooks f (s_on_shutdown s) a (s_reporter s) s
  | SOnShutdown f a => s_hooks (s_on_error s) f a (s_reporter s) s
  | SReporter r => s_hooks (s_on_error s) (s_on_shutdown s) (s_ctx s) r s
  | _ => s
  end.

Definition svc_phase_name (p : SvcPhase) : string :=
  match p with
  | svNotStarted => "NotStarted" | svIdle => "Idle" | svListening => "Listening" | svActive => "Active" | svError => "Error"
  | svShuttingDown => "ShuttingDown"
  end.
Definition spec_svc_res (o : SvcOp) (s : Svc) : SvcRes :=
  match o, s_phase s with
  | SState, p => SRName (svc_phase_name p)
  | SIsActive, p => SRBool (match p with svActive => true | _ => false end)
  | SIsListening, p => SRBool (match p with svListening => true | _ => false end)
  | SIsError, p => SRBool (match p with svError => true | _ => false end)
  | SIsIdle, p => SRBool (match p with svNotStarted | svIdle => true | _ => false end)
  | SIsShuttingDown, p => SRBool (match p with svShuttingDown => true | _ => false end)
  | SGetClients, _ => SRNum (s_clients s)
  | SGetCode, _ => SRNum (s_code s)
  | _, _ => SRNone
  end.

(** ** Calls *)

Definition svc_op (o : SvcOp) (d : HsmService) : option (SvcRes * HsmService) :=
  let cmd x := d ← x; Some (SRNone, d) in
  let ask x := b ← x; Some (SRBool b, d) in
  match o with
  | SStart => cmd (Start d)
  | SStop => cmd (Stop d)
  | SRecover => cmd (Recover d)
  | SConnect => cmd (OnClientConnect d)
  | SDisconnect => cmd (OnClientDisconnect d)
  | SError code => cmd (OnError code d)
  | SOnError f a => Some (SRNone, SetErrorCallback f a d)
  | SOnShutdown f a => Some (SRNone, SetShutdownCallback f a d)
  | SReporter r => Some (SRNone, SetFaultReporter r d)
  | SState => nm ← GetState d; Some (SRName nm, d)
  | SIsActive => ask (IsActive d)
  | SIsListening => ask (IsListening d)
  | SIsError => ask (IsError d)
  | SIsIdle => ask (IsIdle d)
  | SIsShuttingDown => ask (IsShuttingDown d)
  | SGetClients => Some (SRNum (GetActiveClients d), d)
  | SGetCode => Some (SRNum (GetErrorCode d), d)
  end.

Fixpoint svc_run (ops : list SvcOp) (d : HsmService) : option (list SvcRes * HsmService) :=
  match ops with
  | [] => Some ([], d)
  | o :: ops => '(r, d) ← svc_op o d; '(rs, d) ← svc_run ops d; Some (r :: rs, d)
  end.
Fixpoint spec_svc_run (ops : list SvcOp) (s : Svc) : list SvcRes * Svc :=
  match ops with
  | [] => ([], s)
  | o :: ops => let '(rs, s') := spec_svc_run ops (spec_svc_step o s) in (spec_svc_res o s :: rs, s')
  end.

(** ** Refinement *)

Definition svc_states : list (@StateConfig ServiceHsmContext Z) :=
  let st nm h en := mkStateConfig nm (-1) (Some h) en None None in
  [st "Idle" StateIdle None; st "Listening" StateListening None; st "Active" StateActive None;
   st "Error" StateError (Some OnEnterError); st "ShuttingDown" StateShuttingDown (Some OnEnterShuttingDown)]%string.

Lemma svc_flat : flat svc_states.
Proof. repeat constructor; by eexists. Qed.

Definition svc_context (s : Svc) : ServiceHsmContext :=
  mkSvc (s_clients s) (s_code s) (s_on_error s) (s_on_shutdown s) (s_ctx s) (s_reporter s) 0 1 2 3 4 (s_world s).
Definition svc_number (p : SvcPhase) : Z :=
  match p with svNotStarted | svIdle => 0 | svListening => 1 | svActive => 2 | svError => 3 | svShuttingDown => 4 end.

Definition svc_at (s : Svc) : HsmService :=
  match s_phase s with
  | svNotStarted => mkService (mkMachine (svc_context s) kNoState 0 false kNoState svc_states) (s_running s) false
  | p => mkService (at_rest svc_states (svc_context s) (svc_number p)) (s_running s) true
  end.

(** Before the first start nothing runs; client counts are 32-bit numbers. *)
Record svc_ok (s : Svc) : Prop := {
  so_fresh : s_phase s = svNotStarted -> s_running s = false;
  so_clients : 0 <= s_clients s
}.

Lemma HsmService_ctor_at w : HsmService_ctor w = Some (svc_at (svc_fresh w)).
Proof. reflexivity. Qed.

(** A client leaves an active service. *)
Lemma StateActive_leave req c p :
  0 <= active_clients c ->
  StateActive req c (mkEvent kSvcEvtClientDisconnected None) p =
    let c' := set_clients (Z.max 0 (active_clients c - 1)) c in
    if Z.max 0 (active_clients c - 1) =? 0 then request req (idx_listening c) c' p else (kHandled, c', p).
Proof.
  intros Hc. unfold StateActive. cbn [event_id]. change (kSvcEvtClientDisconnected =? kSvcEvtClientConnected) with false.
  change (kSvcEvtClientDisconnected =? kSvcEvtClientDisconnected) with true. cbv iota zeta.
  destruct (Z.ltb_spec 0 (active_clients c)) as [Hp|Hp].
  - rewrite Z.max_r by lia. done.
  - assert (E : active_clients c = 0) by lia. rewrite E. simpl. destruct c. simpl in E. by subst.
Qed.

Lemma leave_at s :
  0 <= s_clients s -> s_phase s = svActive -> dispatch kSvcEvtClientDisconnected (svc_at s) = Some (svc_at (spec_leave s)).
Proof.
  destruct s as [p ru n code er sh a r w]. cbn [s_phase s_clients]. intros Hn ->. unfold dispatch, spec_leave.
  cbn [svc_at s_phase hsm_ s_clients s_code].
  destruct (Z.max 0 (n - 1) =? 0) eqn:E.
  all: erewrite Dispatch_flat;
    [|exact svc_flat|by vm_compute|reflexivity|reflexivity|
      rewrite StateActive_leave by done; unfold svc_context; cbn [active_clients s_clients]; cbv zeta; rewrite E; reflexivity
     |vm_compute; by repeat split]; reflexivity.
Qed.

Lemma svc_op_at o s : svc_ok s -> svc_op o (svc_at s) = Some (spec_svc_res o s, svc_at (spec_svc_step o s)).
Proof.
  intros [H1 H2]. destruct s as [p ru n code er sh a r w]. cbn [s_phase s_running s_clients] in H1, H2.
  destruct o, p; try reflexivity; try (rewrite (H1 eq_refl); reflexivity).
  all: try (destruct ru; reflexivity).
  all: try (destruct ru; [|reflexivity]; destruct sh; reflexivity).
  all: try (destruct ru; [|reflexivity]; destruct er; reflexivity).
  destruct ru; [|reflexivity]. cbn [svc_op].
  change (OnClientDisconnect ?d) with (dispatch kSvcEvtClientDisconnected d). by rewrite leave_at.
Qed.

(** The number of clients in each phase; in Error it is what it was. *)
Definition clients_of (k : Z) (s : Svc) : Prop :=
  svc_ok s /\ s_clients s <= k /\
  match s_phase s with svActive => 1 <= s_clients s | svError => True | _ => s_clients s = 0 end.

Lemma clients_step o s k : clients_of k s -> 0 <= k -> k + 1 < 2 ^ 32 -> clients_of (k + 1) (spec_svc_step o s).
Proof.
  destruct s as [p ru n code er sh a r w]. intros ([H1 H2] & H3 & H4) Hk Hm. cbn [s_phase s_running s_clients] in *.
  assert (Hu : 0 <= n -> n <= k -> u32 (n + 1) = n + 1) by (intros; apply wrap_small; unfold in_range; lia).
  destruct o, ru, p; cbn; unfold clients_of, spec_leave; cbn; rewrite ?Hu by lia; split_and!; try split; cbn; try done; try lia;
    try (by intros Hf; specialize (H1 Hf)).
  all: destruct (Z.eqb_spec (Z.max 0 (n - 1)) 0); cbn; try done; lia.
Qed.

Lemma svc_run_at ops s k :
  clients_of k s -> 0 <= k -> k + Z.of_nat (length ops) < 2 ^ 32 ->
  svc_run ops (svc_at s) = Some ((spec_svc_run ops s).1, svc_at (spec_svc_run ops s).2) /\
  clients_of (k + Z.of_nat (length ops)) (spec_svc_run ops s).2.
Proof.
  revert s k. induction ops as [|o ops IH]; intros s k Hs Hk Hm.
  { split; [done|]. simpl. by rewrite Z.add_0_r. }
  cbn [svc_run spec_svc_run length] in *. rewrite svc_op_at by apply Hs. cbn [mbind option_bind].
  destruct (IH (spec_svc_step o s) (k + 1)) as [E Hc]; [apply clients_step; [done|lia..]|lia|lia|]. rewrite E.
  replace (k + Z.of_nat (S (length ops))) with (k + 1 + Z.of_nat (length ops)) by lia. cbn [mbind option_bind].
  by destruct (spec_svc_run ops _).
Qed.

End Service.
Arguments SvcOp : clear implicits.

(** Refinement: for fewer than 2^32 calls, the service state machine, with any
    callbacks, behaves as the specified automaton: it listens once started, is
    active exactly while it has clients and listens again when the last one leaves,
    reports an error with its code once when it fails, returns to idle on recovery,
    runs the shutdown callback and forgets its clients when stopped, and absorbs
    everything afterwards. *)
Lemma service_refines {A W} (ops : list (SvcOp A W)) (w : W) :
  Z.of_nat (length ops) < 2 ^ 32 ->
  let spec := spec_svc_run ops (svc_fresh w) in
  exists d d', HsmService_ctor w = Some d /\ svc_run ops d = Some (spec.1, d') /\ svc_world (context_ d') = s_world spec.2 /\
    (IsActive d' = Some true -> 1 <= GetActiveClients d') /\ (IsListening d' = Some true -> GetActiveClients d' = 0).
Proof.
  cbv zeta. intros Hm. destruct (svc_run_at ops (svc_fresh w) 0) as [E Hc]; [by repeat split|lia|lia|].
  eexists _, _. split; [apply HsmService_ctor_at|]. split; [exact E|]. destruct Hc as (_ & _ & Hc).
  destruct (spec_svc_run ops (svc_fresh w)) as [rs [[] ? ? ? ? ? ? ? ?] ]; simpl in *; by split_and!.
Qed.

(** ** Runs *)

Definition svc_results {A W} (ops : list (SvcOp A W)) (w : W) : option (list SvcRes * W) :=
  d ← HsmService_ctor w; '(rs, d) ← svc_run ops d; Some (rs, svc_world (context_ d)).

Definition sample_service : list (SvcOp Z (list Z)) :=
  [SOnError (Some (fun code _ w => w ++ [code])) None; SStart; SConnect; SConnect; SDisconnect; SIsActive; SDisconnect; SState;
   SError (-7); SState; SGetCode; SRecover; SState].

Lemma service_refines_witness :
  exists d d', HsmService_ctor [] = Some d /\
    svc_run sample_service d =
      Some ([SRNone; SRNone; SRNone; SRNone; SRNone; SRBool true; SRNone; SRName "Listening"; SRNone; SRName "Error"; SRNum (-7);
             SRNone; SRName "Idle"], d') /\ svc_world (context_ d') = [-7].
Proof.
  destruct (service_refines sample_service []) as (d & d' & E1 & E2 & E3 & _); [reflexivity|]. exists d, d'.
  split; [exact E1|]. split; [exact E2|exact E3].
Defined.

(** After a recovery the service is idle but still counts as started: Start does
    nothing until the service is stopped. *)
Lemma recovered_service_stuck :
  svc_results (A := unit) [SStart; SError 1; SRecover; SStart; SConnect; SState; SStop; SStart; SState] tt =
    Some ([SRNone; SRNone; SRNone; SRNone; SRNone; SRName "Idle"; SRNone; SRNone; SRName "Listening"], tt).
Proof. reflexivity. Qed.

(** A stopped service cannot be started again. *)
Lemma stopped_service_stuck :
  svc_results (A := unit) [SStart; SStop; SStart; SConnect; SState; SGetClients] tt =
    Some ([SRNone; SRNone; SRNone; SRNone; SRName "ShuttingDown"; SRNum 0], tt).
Proof. reflexivity. Qed.

(** The error and the shutdown callback share the context registered last. *)
Lemma service_context_shared :
  svc_results [SOnError (Some (fun _ a (w : list (option Z)) => w ++ [a])) (Some 1); SOnShutdown None (Some 2); SStart; SError 3] [] =
    Some ([SRNone; SRNone; SRNone; SRNone], [Some 2]).
Proof. reflexivity. Qed.
