(* ===== verification/NodeManagerHsm.v ===== *)
(** * HsmNodeManager (include/osp/node_manager_hsm.hpp)

    Supervision of remote nodes by heartbeat, one small state machine per node: a
    client of StateMachine (through FlatHsm.v), of the event queue (through the
    interface of Queue.v) and of FaultReporter.  User callbacks work on a world [W],
    which all nodes share; a machine works on its node's context and the world.
    Thread-safe calls are modelled one at a time; OnTimer and OnWake are what the
    event loop calls on its thread. *)

From Stdlib Require Import ZArith Lia Bool String.
From stdpp Require Import base numbers list option.
From S2P Require Import Prelude Queue SeqRing Fault Hierarchy Hsm FlatHsm.

Open Scope Z_scope.

(** NodeConnectionEvent *)
Definition kEvtHeartbeatReceived : Z := 1.
Definition kEvtHeartbeatTimeout : Z := 2.
Definition kEvtDisconnect : Z := 3.
Definition kEvtReconnect : Z := 4.
Definition kFaultHeartbeatTimeout : Z := 0.
Definition kFaultDisconnected : Z := 1.
Definition kConnMaxStates : Z := 4.

Record NodeEvent := mkNodeEvent { ne_id : Z; ne_node_id : Z; ne_timestamp_us : Z }.
#[export] Instance NodeEvent_inhabited : Inhabited NodeEvent := populate (mkNodeEvent 0 0 0).

(** HsmNodeInfo *)
Record HsmNodeInfo := mkInfo { info_node_id : Z; info_state_name : string; info_last_heartbeat_us : Z; info_missed_count : Z }.

Section NodeManager.
Context {Q W : Type} `{!QueueOps Q NodeEvent}.
Context (MaxNodes : Z).

Definition NodeDisconnectFn : Type := Z -> W -> W.

Record NodeConnectionContext := mkConn {
  node_id : Z;
  missed_heartbeats : Z;
  max_missed : Z;
  last_heartbeat_us : Z;
  disconnect_requested : bool;
  on_disconnect : option NodeDisconnectFn;
  conn_reporter : FaultReporter W;
  idx_connected : Z; idx_suspect : Z; idx_disconnected : Z
}.
Definition conn_ctor : NodeConnectionContext := mkConn 0 0 3 0 false None None (-1) (-1) (-1).

Definition set_missed (n : Z) (c : NodeConnectionContext) : NodeConnectionContext :=
  mkConn (node_id c) n (max_missed c) (last_heartbeat_us c) (disconnect_requested c) (on_disconnect c) (conn_reporter c)
    (idx_connected c) (idx_suspect c) (idx_disconnected c).
Definition set_last (t : Z) (c : NodeConnectionContext) : NodeConnectionContext :=
  mkConn (node_id c) (missed_heartbeats c) (max_missed c) t (disconnect_requested c) (on_disconnect c) (conn_reporter c)
    (idx_connected c) (idx_suspect c) (idx_disconnected c).
Definition set_requested (b : bool) (c : NodeConnectionContext) : NodeConnectionContext :=
  mkConn (node_id c) (missed_heartbeats c) (max_missed c) (last_heartbeat_us c) b (on_disconnect c) (conn_reporter c)
    (idx_connected c) (idx_suspect c) (idx_disconnected c).
Definition set_max_missed (n : Z) (c : NodeConnectionContext) : NodeConnectionContext :=
  mkConn (node_id c) (missed_heartbeats c) n (last_heartbeat_us c) (disconnect_requested c) (on_disconnect c) (conn_reporter c)
    (idx_connected c) (idx_suspect c) (idx_disconnected c).
Definition set_on_disconnect (f : option NodeDisconnectFn) (c : NodeConnectionContext) : NodeConnectionContext :=
  mkConn (node_id c) (missed_heartbeats c) (max_missed c) (last_heartbeat_us c) (disconnect_requested c) f (conn_reporter c)
    (idx_connected c) (idx_suspect c) (idx_disconnected c).
Definition set_reporter (r : FaultReporter W) (c : NodeConnectionContext) : NodeConnectionContext :=
  mkConn (node_id c) (missed_heartbeats c) (max_missed c) (last_heartbeat_us c) (disconnect_requested c) (on_disconnect c) r
    (idx_connected c) (idx_suspect c) (idx_disconnected c).
Definition set_conn_indices (i0 i1 i2 : Z) (c : NodeConnectionContext) : NodeConnectionContext :=
  mkConn (node_id c) (missed_heartbeats c) (max_missed c) (last_heartbeat_us c) (disconnect_requested c) (on_disconnect c)
    (conn_reporter c) i0 i1 i2.

(** ** Handlers: an event carries a timestamp or nothing *)

Abbreviation Conn := (NodeConnectionContext * W)%type.
Abbreviation Handler := (@HandlerFn Conn Z).
Abbreviation Machine := (@StateMachine Conn Z).

Definition request (req : RequestFn) (target : Z) (x : Conn) (pending : Z) : TransitionResult * Conn * Z :=
  let '(r, p) := req target pending in (r, x, p).
(** [missed = 0; if (event.data != nullptr) last = *event.data] *)
Definition take_heartbeat (e : @Event Z) (c : NodeConnectionContext) : NodeConnectionContext :=
  let c := set_missed 0 c in match event_data e with Some t => set_last t c | None => c end.

Definition StateConnected : Handler := fun req '(c, w) e pending =>
  if event_id e =? kEvtHeartbeatReceived then (kHandled, (take_heartbeat e c, w), pending)
  else if event_id e =? kEvtHeartbeatTimeout then
    request req (idx_suspect c) (set_missed (u32 (missed_heartbeats c + 1)) c, w) pending
  else if event_id e =? kEvtDisconnect then request req (idx_disconnected c) (set_requested true c, w) pending
  else (kUnhandled, (c, w), pending).

Definition StateSuspect : Handler := fun req '(c, w) e pending =>
  if event_id e =? kEvtHeartbeatReceived then request req (idx_connected c) (take_heartbeat e c, w) pending
  else if event_id e =? kEvtHeartbeatTimeout then
    let c := set_missed (u32 (missed_heartbeats c + 1)) c in
    if max_missed c <=? missed_heartbeats c
    then request req (idx_disconnected c) (c, Report (conn_reporter c) kFaultHeartbeatTimeout (node_id c) kHigh w) pending
    else (kHandled, (c, w), pending)
  else if event_id e =? kEvtDisconnect then request req (idx_disconnected c) (set_requested true c, w) pending
  else (kUnhandled, (c, w), pending).

Definition StateDisconnected : Handler := fun req '(c, w) e pending =>
  if event_id e =? kEvtReconnect then request req (idx_connected c) (set_requested false (set_missed 0 c), w) pending
  else (kUnhandled, (c, w), pending).

Definition OnEnterDisconnected (x : Conn) : Conn :=
  let '(c, w) := x in
  let w := Report (conn_reporter c) kFaultDisconnected (node_id c) kCritical w in
  (c, match on_disconnect c with Some f => f (node_id c) w | None => w end).

(** ** The manager *)

(** [hsm_storage]: the machine constructed in the entry's memory, if any. *)
Record NodeEntry := mkEntry_ {
  context : NodeConnectionContext;
  state_connected : Z; state_suspect : Z; state_disconnected : Z;
  active : bool;
  hsm_initialized : bool;
  hsm_storage : option Machine
}.
Definition entry_ctor : NodeEntry := mkEntry_ conn_ctor (-1) (-1) (-1) false false None.

Record HsmNodeManager := mkManager {
  entries_ : list NodeEntry;
  node_count_ : Z;
  heartbeat_interval_ms_ : Z;
  running_ : bool;
  global_disconnect_fn_ : option NodeDisconnectFn;
  global_fault_reporter_ : FaultReporter W;
  has_scheduler : bool;
  event_queue_ : Q;
  dropped_events_ : Z;
  wakes_ : Z
}.

Definition HsmNodeManager_ctor (scheduler : bool) (q0 : Q) : HsmNodeManager :=
  mkManager (replicate (Z.to_nat MaxNodes) entry_ctor) 0 1000 false None None scheduler q0 0 0.

Definition set_entries (l : list NodeEntry) (m : HsmNodeManager) : HsmNodeManager :=
  mkManager l (node_count_ m) (heartbeat_interval_ms_ m) (running_ m) (global_disconnect_fn_ m) (global_fault_reporter_ m)
    (has_scheduler m) (event_queue_ m) (dropped_events_ m) (wakes_ m).
Definition set_node_count (n : Z) (m : HsmNodeManager) : HsmNodeManager :=
  mkManager (entries_ m) n (heartbeat_interval_ms_ m) (running_ m) (global_disconnect_fn_ m) (global_fault_reporter_ m)
    (has_scheduler m) (event_queue_ m) (dropped_events_ m) (wakes_ m).
Definition set_running (b : bool) (m : HsmNodeManager) : HsmNodeManager :=
  mkManager (entries_ m) (node_count_ m) (heartbeat_interval_ms_ m) b (global_disconnect_fn_ m) (global_fault_reporter_ m)
    (has_scheduler m) (event_queue_ m) (dropped_events_ m) (wakes_ m).
Definition set_queue (q : Q) (m : HsmNodeManager) : HsmNodeManager :=
  mkManager (entries_ m) (node_count_ m) (heartbeat_interval_ms_ m) (running_ m) (global_disconnect_fn_ m) (global_fault_reporter_ m)
    (has_scheduler m) q (dropped_events_ m) (wakes_ m).
Definition Wake (m : HsmNodeManager) : HsmNodeManager :=
  mkManager (entries_ m) (node_count_ m) (heartbeat_interval_ms_ m) (running_ m) (global_disconnect_fn_ m) (global_fault_reporter_ m)
    (has_scheduler m) (event_queue_ m) (dropped_events_ m) (wakes_ m + 1).
Definition count_drop (m : HsmNodeManager) : HsmNodeManager :=
  mkManager (entries_ m) (node_count_ m) (heartbeat_interval_ms_ m) (running_ m) (global_disconnect_fn_ m) (global_fault_reporter_ m)
    (has_scheduler m) (event_queue_ m) (u32 (dropped_events_ m + 1)) (wakes_ m).

(** The loops over the active entries. *)
Definition on_active (f : NodeConnectionContext -> NodeConnectionContext) (e : NodeEntry) : NodeEntry :=
  if active e
  then mkEntry_ (f (context e)) (state_connected e) (state_suspect e) (state_disconnected e) (active e) (hsm_initialized e) (hsm_storage e)
  else e.

Definition SetHeartbeatInterval (ms : Z) (m : HsmNodeManager) : HsmNodeManager :=
  mkManager (entries_ m) (node_count_ m) ms (running_ m) (global_disconnect_fn_ m) (global_fault_reporter_ m)
    (has_scheduler m) (event_queue_ m) (dropped_events_ m) (wakes_ m).
Definition SetMaxMissedHeartbeats (n : Z) (m : HsmNodeManager) : HsmNodeManager :=
  set_entries (on_active (set_max_missed n) <$> entries_ m) m.
Definition OnDisconnect (f : option NodeDisconnectFn) (m : HsmNodeManager) : HsmNodeManager :=
  mkManager (on_active (set_on_disconnect f) <$> entries_ m) (node_count_ m) (heartbeat_interval_ms_ m) (running_ m) f
    (global_fault_reporter_ m) (has_scheduler m) (event_queue_ m) (dropped_events_ m) (wakes_ m).
Definition SetFaultReporter (r : FaultReporter W) (m : HsmNodeManager) : HsmNodeManager :=
  mkManager (on_active (set_reporter r) <$> entries_ m) (node_count_ m) (heartbeat_interval_ms_ m) (running_ m)
    (global_disconnect_fn_ m) r (has_scheduler m) (event_queue_ m) (dropped_events_ m) (wakes_ m).

(** The first free entry, and the first active entry with the id. *)
Definition FindSlot (m : HsmNodeManager) : option (nat * NodeEntry) := list_find (fun e => active e = false) (entries_ m).
Definition FindNode (id : Z) (m : HsmNodeManager) : option (nat * NodeEntry) :=
  list_find (fun e => active e = true /\ node_id (context e) = id) (entries_ m).

(** The machine AddNode constructs over the context. *)
Definition build_machine (x : Conn) : option (Z * Z * Z * Machine) :=
  let add nm h en m := AddState kConnMaxStates (mkStateConfig nm (-1) (Some h) en None None) m in
  '(i0, m) ← add "Connected"%string StateConnected None (StateMachine_ctor x);
  '(i1, m) ← add "Suspect"%string StateSuspect None m;
  '(i2, m) ← add "Disconnected"%string StateDisconnected (Some OnEnterDisconnected) m;
  m ← SetInitialState i0 m;
  Some (i0, i1, i2, m).

Definition AddNode (id max now : Z) (x : HsmNodeManager * W) : option (bool * (HsmNodeManager * W)) :=
  let '(m, w) := x in
  match FindSlot m with
  | None => Some (false, (m, w))
  | Some (i, e) =>
    let c := mkConn id 0 max now false (global_disconnect_fn_ m) (global_fault_reporter_ m)
               (idx_connected (context e)) (idx_suspect (context e)) (idx_disconnected (context e)) in
    '(i0, i1, i2, h) ← build_machine (c, w);
    let c := set_conn_indices i0 i1 i2 c in
    h ← Start (mkMachine (c, w) (current_state_ h) (initial_state_ h) (started_ h) (pending_target_ h) (states_ h));
    let '(c, w) := ctx_ h in
    let m := set_entries (<[i := mkEntry_ c i0 i1 i2 true true (Some h)]> (entries_ m)) m in
    Some (true, (set_node_count (u32 (node_count_ m + 1)) m, w))
  end.

(** Destroying an entry's machine. *)
Definition destroy (e : NodeEntry) : NodeEntry :=
  if hsm_initialized e
  then mkEntry_ (context e) (state_connected e) (state_suspect e) (state_disconnected e) (active e) false None
  else e.
Definition deactivate (e : NodeEntry) : NodeEntry :=
  mkEntry_ (context e) (state_connected e) (state_suspect e) (state_disconnected e) false (hsm_initialized e) (hsm_storage e).

Definition RemoveNode (id : Z) (m : HsmNodeManager) : bool * HsmNodeManager :=
  match FindNode id m with
  | None => (false, m)
  | Some (i, e) =>
    let m := set_entries (<[i := deactivate (destroy e)]> (entries_ m)) m in
    (true, set_node_count (u32 (node_count_ m - 1)) m)
  end.

(** Dispatch to an entry's machine, which works on the entry's context. *)
Definition dispatch_entry (evt : Event) (e : NodeEntry) (w : W) : option (NodeEntry * W) :=
  h ← hsm_storage e;
  h ← Dispatch evt (mkMachine (context e, w) (current_state_ h) (initial_state_ h) (started_ h) (pending_target_ h) (states_ h));
  let '(c, w) := ctx_ h in
  Some (mkEntry_ c (state_connected e) (state_suspect e) (state_disconnected e) (active e) (hsm_initialized e) (Some h), w).

Definition dispatch_node (id : Z) (evt : Event) (x : HsmNodeManager * W) : option (HsmNodeManager * W) :=
  let '(m, w) := x in
  match FindNode id m with
  | None => Some (m, w)
  | Some (i, e) => '(e, w) ← dispatch_entry evt e w; Some (set_entries (<[i := e]> (entries_ m)) m, w)
  end.

(** The two modes of the event methods: queued for the event loop's thread, or
    dispatched by the caller. *)
Definition queued_mode (m : HsmNodeManager) : bool := negb (has_scheduler m) && running_ m.
Definition enqueue (ne : NodeEvent) (m : HsmNodeManager) : option HsmNodeManager :=
  match q_try_push ne (event_queue_ m) with
  | None => None
  | Some (true, q) => Some (Wake (set_queue q m))
  | Some (false, _) => Some (count_drop m)
  end.

Definition OnHeartbeat (id now : Z) (x : HsmNodeManager * W) : option (HsmNodeManager * W) :=
  if queued_mode x.1 then m ← enqueue (mkNodeEvent kEvtHeartbeatReceived id now) x.1; Some (m, x.2)
  else dispatch_node id (mkEvent kEvtHeartbeatReceived (Some now)) x.
Definition RequestDisconnect (id : Z) (x : HsmNodeManager * W) : option (HsmNodeManager * W) :=
  if queued_mode x.1 then m ← enqueue (mkNodeEvent kEvtDisconnect id 0) x.1; Some (m, x.2)
  else dispatch_node id (mkEvent kEvtDisconnect None) x.
Definition RequestReconnect (id : Z) (x : HsmNodeManager * W) : option (HsmNodeManager * W) :=
  if queued_mode x.1 then m ← enqueue (mkNodeEvent kEvtReconnect id 0) x.1; Some (m, x.2)
  else dispatch_node id (mkEvent kEvtReconnect None) x.

Fixpoint check_entries (now timeout_us : Z) (l : list NodeEntry) (w : W) : option (list NodeEntry * W) :=
  match l with
  | [] => Some ([], w)
  | e :: l =>
    '(e, w) ← (if active e && (timeout_us <? u64 (now - last_heartbeat_us (context e)))
               then dispatch_entry (mkEvent kEvtHeartbeatTimeout None) e w else Some (e, w));
    '(l, w) ← check_entries now timeout_us l w;
    Some (e :: l, w)
  end.
Definition CheckTimeouts (now : Z) (x : HsmNodeManager * W) : option (HsmNodeManager * W) :=
  '(l, w) ← check_entries now (u64 (heartbeat_interval_ms_ x.1 * 1000)) (entries_ x.1) x.2;
  Some (set_entries l x.1, w).
Definition MonitorTick (now : Z) (x : HsmNodeManager * W) : option (HsmNodeManager * W) := CheckTimeouts now x.
Definition OnTimer (now : Z) (x : HsmNodeManager * W) : option (HsmNodeManager * W) := CheckTimeouts now x.

(** [while (event_queue_.TryPop(ne))], with fuel. *)
Fixpoint wake_loop (fuel : nat) (x : HsmNodeManager * W) : option (HsmNodeManager * W) :=
  match fuel with
  | O => None
  | S fuel =>
    match q_try_pop (event_queue_ x.1) with
    | None => Some x
    | Some (ne, q) =>
      x ← dispatch_node (ne_node_id ne) (mkEvent (ne_id ne) (Some (ne_timestamp_us ne))) (set_queue q x.1, x.2);
      wake_loop fuel x
    end
  end.
Definition kQueueDepth : Z := 16.
Definition OnWake (x : HsmNodeManager * W) : option (HsmNodeManager * W) := wake_loop (S (Z.to_nat kQueueDepth)) x.

Definition GetNodeState (id : Z) (m : HsmNodeManager) : option string :=
  match FindNode id m with None => Some ""%string | Some (_, e) => h ← hsm_storage e; CurrentStateName h end.
Definition IsConnected (id : Z) (m : HsmNodeManager) : option bool :=
  match FindNode id m with None => Some false | Some (_, e) => h ← hsm_storage e; IsInState (state_connected e) h end.
Definition NodeCount (m : HsmNodeManager) : Z := node_count_ m.
Definition GetDroppedEvents (m : HsmNodeManager) : Z := dropped_events_ m.
Definition GetMissedHeartbeats (id : Z) (m : HsmNodeManager) : Z :=
  match FindNode id m with None => 0 | Some (_, e) => missed_heartbeats (context e) end.
(** ForEachNode: what the callback is shown. *)
Fixpoint infos (l : list NodeEntry) : option (list HsmNodeInfo) :=
  match l with
  | [] => Some []
  | e :: l =>
    if active e && hsm_initialized e then
      h ← hsm_storage e; nm ← CurrentStateName h; r ← infos l;
      Some (mkInfo (node_id (context e)) nm (last_heartbeat_us (context e)) (missed_heartbeats (context e)) :: r)
    else infos l
  end.
Definition ForEachNode (m : HsmNodeManager) : option (list HsmNodeInfo) := infos (entries_ m).

(** [ok]: whether the timer, and in event-loop mode the thread, could be started. *)
Definition Start (ok : bool) (m : HsmNodeManager) : bool * HsmNodeManager :=
  if running_ m then (false, m) else if ok then (true, set_running true m) else (false, set_running false m).
Definition Stop (m : HsmNodeManager) : HsmNodeManager :=
  let m := set_running false m in
  let m := set_entries ((fun e => deactivate (if active e then destroy e else e)) <$> entries_ m) m in
  set_node_count 0 m.
Definition IsRunning (m : HsmNodeManager) : bool := running_ m.

End NodeManager.
Arguments NodeConnectionContext : clear implicits.
Arguments NodeDisconnectFn : clear implicits.
Arguments NodeEntry : clear implicits.
Arguments HsmNodeManager : clear implicits.

(** ** The specification *)

Inductive Link := lkConnected | lkSuspect | lkDisconnected.
Definition link_name (l : Link) : string :=
  match l with lkConnected => "Connected" | lkSuspect => "Suspect" | lkDisconnected => "Disconnected" end.
Definition is_connected (l : Link) : bool := match l with lkConnected => true | _ => false end.

Section Spec.
Context {W : Type}.

(** A supervised node. *)
Record Peer := mkPeer {
  p_id : Z; p_link : Link; p_missed : Z; p_max : Z; p_last : Z;
  p_fn : option (NodeDisconnectFn W); p_reporter : FaultReporter W
}.
Definition p_go (l : Link) (p : Peer) : Peer := mkPeer (p_id p) l (p_missed p) (p_max p) (p_last p) (p_fn p) (p_reporter p).
Definition p_miss (n : Z) (p : Peer) : Peer := mkPeer (p_id p) (p_link p) n (p_max p) (p_last p) (p_fn p) (p_reporter p).
Definition p_seen (t : Z) (p : Peer) : Peer := mkPeer (p_id p) (p_link p) 0 (p_max p) t (p_fn p) (p_reporter p).
Definition p_limit (n : Z) (p : Peer) : Peer := mkPeer (p_id p) (p_link p) (p_missed p) n (p_last p) (p_fn p) (p_reporter p).
Definition p_call (f : option (NodeDisconnectFn W)) (p : Peer) : Peer :=
  mkPeer (p_id p) (p_link p) (p_missed p) (p_max p) (p_last p) f (p_reporter p).
Definition p_report (r : FaultReporter W) (p : Peer) : Peer :=
  mkPeer (p_id p) (p_link p) (p_missed p) (p_max p) (p_last p) (p_fn p) r.

(** Losing a node: the fault is reported, then the callback runs. *)
Definition lose (p : Peer) (w : W) : Peer * W :=
  let w := Report (p_reporter p) kFaultDisconnected (p_id p) kCritical w in
  (p_go lkDisconnected p, match p_fn p with Some f => f (p_id p) w | None => w end).

Inductive PeerEvent := peHeartbeat (t : Z) | peTimeout | peDisconnect | peReconnect.

Definition peer_step (e : PeerEvent) (p : Peer) (w : W) : Peer * W :=
  match e, p_link p with
  | peHeartbeat t, (lkConnected | lkSuspect) => (p_go lkConnected (p_seen t p), w)
  | peTimeout, lkConnected => (p_go lkSuspect (p_miss (u32 (p_missed p + 1)) p), w)
  | peTimeout, lkSuspect =>
    let n := u32 (p_missed p + 1) in
    if p_max p <=? n then lose (p_miss n p) (Report (p_reporter p) kFaultHeartbeatTimeout (p_id p) kHigh w)
    else (p_miss n p, w)
  | peDisconnect, (lkConnected | lkSuspect) => lose p w
  | peReconnect, lkDisconnected => (p_go lkConnected (p_miss 0 p), w)
  | _, _ => (p, w)
  end.

(** The table of nodes, the events under way to the event loop, and the settings. *)
Record NSpec := mkN {
  n_peers : list (option Peer);
  n_interval : Z;
  n_running : bool;
  n_scheduler : bool;
  n_fn : option (NodeDisconnectFn W);
  n_reporter : FaultReporter W;
  n_queue : list (Z * PeerEvent);
  n_dropped : Z;
  n_wakes : Z
}.
Definition n_fresh (MaxNodes : Z) (scheduler : bool) : NSpec :=
  mkN (replicate (Z.to_nat MaxNodes) None) 1000 false scheduler None None [] 0 0.

Definition n_set_peers (l : list (option Peer)) (s : NSpec) : NSpec :=
  mkN l (n_interval s) (n_running s) (n_scheduler s) (n_fn s) (n_reporter s) (n_queue s) (n_dropped s) (n_wakes s).
Definition n_set_running (b : bool) (s : NSpec) : NSpec :=
  mkN (n_peers s) (n_interval s) b (n_scheduler s) (n_fn s) (n_reporter s) (n_queue s) (n_dropped s) (n_wakes s).
Definition n_set_queue (q : list (Z * PeerEvent)) (s : NSpec) : NSpec :=
  mkN (n_peers s) (n_interval s) (n_running s) (n_scheduler s) (n_fn s) (n_reporter s) q (n_dropped s) (n_wakes s).

Definition n_find (id : Z) (s : NSpec) : option (nat * Peer) :=
  match list_find (fun o => p_id <$> o = Some id) (n_peers s) with
  | Some (i, Some p) => Some (i, p)
  | _ => None
  end.

Definition spec_dispatch (id : Z) (e : PeerEvent) (x : NSpec * W) : NSpec * W :=
  let '(s, w) := x in
  match n_find id s with
  | None => (s, w)
  | Some (i, p) => let '(p, w) := peer_step e p w in (n_set_peers (<[i := Some p]> (n_peers s)) s, w)
  end.

(** An event for a node: while the event loop runs it waits in a queue of 16, and
    is dropped when that is full; otherwise it takes effect at once. *)
Definition spec_send (id : Z) (e : PeerEvent) (x : NSpec * W) : NSpec * W :=
  let '(s, w) := x in
  if negb (n_scheduler s) && n_running s then
    (if Z.of_nat (length (n_queue s)) <? 16
     then mkN (n_peers s) (n_interval s) (n_running s) (n_scheduler s) (n_fn s) (n_reporter s) (n_queue s ++ [(id, e)]) (n_dropped s)
            (n_wakes s + 1)
     else mkN (n_peers s) (n_interval s) (n_running s) (n_scheduler s) (n_fn s) (n_reporter s) (n_queue s) (u32 (n_dropped s + 1))
            (n_wakes s), w)
  else spec_dispatch id e (s, w).

Fixpoint spec_check (now timeout_us : Z) (l : list (option Peer)) (w : W) : list (option Peer) * W :=
  match l with
  | [] => ([], w)
  | o :: l =>
    let '(o, w) :=
      match o with
      | Some p => if timeout_us <? u64 (now - p_last p) then let '(p, w) := peer_step peTimeout p w in (Some p, w) else (Some p, w)
      | None => (None, w)
      end in
    let '(l, w) := spec_check now timeout_us l w in (o :: l, w)
  end.
Definition spec_scan (now : Z) (x : NSpec * W) : NSpec * W :=
  let '(s, w) := x in
  let '(l, w) := spec_check now (n_interval s * 1000) (n_peers s) w in (n_set_peers l s, w).

(** The event loop delivers everything that waits, in order. *)
Definition spec_wake (x : NSpec * W) : NSpec * W :=
  let '(s, w) := x in foldl (fun x e => spec_dispatch e.1 e.2 x) (n_set_queue [] s, w) (n_queue s).

Definition spec_add (id max now : Z) (s : NSpec) : bool * NSpec :=
  match list_find (fun o => o = None) (n_peers s) with
  | None => (false, s)
  | Some (i, _) => (true, n_set_peers (<[i := Some (mkPeer id lkConnected 0 max now (n_fn s) (n_reporter s))]> (n_peers s)) s)
  end.
Definition spec_remove (id : Z) (s : NSpec) : bool * NSpec :=
  match n_find id s with
  | None => (false, s)
  | Some (i, _) => (true, n_set_peers (<[i := None]> (n_peers s)) s)
  end.
Definition held (l : list (option Peer)) : Z := foldr (fun (o : option Peer) n => (if o then 1 else 0) + n) 0 l.

Definition each_peer (f : Peer -> Peer) (l : list (option Peer)) : list (option Peer) := option_map f <$> l.

Definition peer_info (p : Peer) : HsmNodeInfo := mkInfo (p_id p) (link_name (p_link p)) (p_last p) (p_missed p).

End Spec.
Arguments Peer : clear implicits.
Arguments NSpec : clear implicits.

(** ** Calls *)

Inductive NmOp (W : Type) :=
| NInterval (ms : Z) | NMaxMissed (n : Z) | NAdd (id max now : Z) | NRemove (id : Z)
| NHeartbeat (id now : Z) | NCheck (now : Z) | NDisconnect (id : Z) | NReconnect (id : Z)
| NOnDisconnect (f : option (NodeDisconnectFn W)) | NReporter (r : FaultReporter W)
| NState (id : Z) | NIsConnected (id : Z) | NCount | NDropped | NMissed (id : Z) | NForEach
| NStart (ok : bool) | NStop | NIsRunning | NTimer (now : Z) | NWake.
Arguments NInterval {_}. Arguments NMaxMissed {_}. Arguments NAdd {_}. Arguments NRemove {_}. Arguments NHeartbeat {_}.
Arguments NCheck {_}. Arguments NDisconnect {_}. Arguments NReconnect {_}. Arguments NOnDisconnect {_}. Arguments NReporter {_}.
Arguments NState {_}. Arguments NIsConnected {_}. Arguments NCount {_}. Arguments NDropped {_}. Arguments NMissed {_}.
Arguments NForEach {_}. Arguments NStart {_}. Arguments NStop {_}. Arguments NIsRunning {_}. Arguments NTimer {_}. Arguments NWake {_}.
Inductive NmRes := NRNone | NRBool (b : bool) | NRName (s : string) | NRNum (n : Z) | NRInfos (l : list HsmNodeInfo).

(** 32-bit intervals. *)
Definition nm_typed {W} (o : NmOp W) : Prop := match o with NInterval ms => in_range 32 ms | _ => True end.

Section Calls.
Context {Q W : Type} `{!QueueOps Q NodeEvent}.
Abbreviation Mgr := (HsmNodeManager Q W).

Definition nm_op (o : NmOp W) (x : Mgr * W) : option (NmRes * (Mgr * W)) :=
  let '(m, w) := x in
  let cmd y := x ← y; Some (NRNone, x) in
  match o with
  | NInterval ms => Some (NRNone, (SetHeartbeatInterval ms m, w))
  | NMaxMissed n => Some (NRNone, (SetMaxMissedHeartbeats n m, w))
  | NAdd id max now => '(b, x) ← AddNode id max now x; Some (NRBool b, x)
  | NRemove id => let '(b, m) := RemoveNode id m in Some (NRBool b, (m, w))
  | NHeartbeat id now => cmd (OnHeartbeat id now x)
  | NCheck now => cmd (CheckTimeouts now x)
  | NDisconnect id => cmd (RequestDisconnect id x)
  | NReconnect id => cmd (RequestReconnect id x)
  | NOnDisconnect f => Some (NRNone, (OnDisconnect f m, w))
  | NReporter r => Some (NRNone, (SetFaultReporter r m, w))
  | NState id => nm ← GetNodeState id m; Some (NRName nm, x)
  | NIsConnected id => b ← IsConnected id m; Some (NRBool b, x)
  | NCount => Some (NRNum (NodeCount m), x)
  | NDropped => Some (NRNum (GetDroppedEvents m), x)
  | NMissed id => Some (NRNum (GetMissedHeartbeats id m), x)
  | NForEach => l ← ForEachNode m; Some (NRInfos l, x)
  | NStart ok => let '(b, m) := Start ok m in Some (NRBool b, (m, w))
  | NStop => Some (NRNone, (Stop m, w))
  | NIsRunning => Some (NRBool (IsRunning m), x)
  | NTimer now => cmd (OnTimer now x)
  | NWake => cmd (OnWake x)
  end.
Fixpoint nm_run (ops : list (NmOp W)) (x : Mgr * W) : option (list NmRes * (Mgr * W)) :=
  match ops with
  | [] => Some ([], x)
  | o :: ops => '(r, x) ← nm_op o x; '(rs, x) ← nm_run ops x; Some (r :: rs, x)
  end.

Definition spec_nm_op (o : NmOp W) (x : NSpec W * W) : NmRes * (NSpec W * W) :=
  let '(s, w) := x in
  match o with
  | NInterval ms => (NRNone, (mkN (n_peers s) ms (n_running s) (n_scheduler s) (n_fn s) (n_reporter s) (n_queue s) (n_dropped s) (n_wakes s), w))
  | NMaxMissed n => (NRNone, (n_set_peers (each_peer (p_limit n) (n_peers s)) s, w))
  | NAdd id max now => let '(b, s) := spec_add id max now s in (NRBool b, (s, w))
  | NRemove id => let '(b, s) := spec_remove id s in (NRBool b, (s, w))
  | NHeartbeat id now => (NRNone, spec_send id (peHeartbeat now) x)
  | NCheck now => (NRNone, spec_scan now x)
  | NDisconnect id => (NRNone, spec_send id peDisconnect x)
  | NReconnect id => (NRNone, spec_send id peReconnect x)
  | NOnDisconnect f =>
    (NRNone, (mkN (each_peer (p_call f) (n_peers s)) (n_interval s) (n_running s) (n_scheduler s) f (n_reporter s) (n_queue s) (n_dropped s) (n_wakes s), w))
  | NReporter r =>
    (NRNone, (mkN (each_peer (p_report r) (n_peers s)) (n_interval s) (n_running s) (n_scheduler s) (n_fn s) r (n_queue s) (n_dropped s) (n_wakes s), w))
  | NState id => (NRName (match n_find id s with Some (_, p) => link_name (p_link p) | None => ""%string end), x)
  | NIsConnected id => (NRBool (match n_find id s with Some (_, p) => is_connected (p_link p) | None => false end), x)
  | NCount => (NRNum (held (n_peers s)), x)
  | NDropped => (NRNum (n_dropped s), x)
  | NMissed id => (NRNum (match n_find id s with Some (_, p) => p_missed p | None => 0 end), x)
  | NForEach => (NRInfos (peer_info <$> omap id (n_peers s)), x)
  | NStart ok => (NRBool (negb (n_running s) && ok), (n_set_running (n_running s || ok) s, w))
  | NStop => (NRNone, (n_set_running false (n_set_peers (replicate (length (n_peers s)) None) s), w))
  | NIsRunning => (NRBool (n_running s), x)
  | NTimer now => (NRNone, spec_scan now x)
  | NWake => (NRNone, spec_wake x)
  end.
Fixpoint spec_nm_run (ops : list (NmOp W)) (x : NSpec W * W) : list NmRes * (NSpec W * W) :=
  match ops with
  | [] => ([], x)
  | o :: ops => let '(r, x) := spec_nm_op o x in let '(rs, x) := spec_nm_run ops x in (r :: rs, x)
  end.

(** ** Simulation *)

Definition conn_states : list (@StateConfig (NodeConnectionContext W * W) Z) :=
  let st nm h en := mkStateConfig nm (-1) (Some h) en None None in
  [st "Connected" StateConnected None; st "Suspect" StateSuspect None;
   st "Disconnected" StateDisconnected (Some OnEnterDisconnected)]%string.
Lemma conn_flat : flat conn_states.
Proof. repeat constructor; by eexists. Qed.

Definition link_number (l : Link) : Z := match l with lkConnected => 0 | lkSuspect => 1 | lkDisconnected => 2 end.
Definition conn_of (req : bool) (p : Peer W) : NodeConnectionContext W :=
  mkConn (p_id p) (p_missed p) (p_max p) (p_last p) req (p_fn p) (p_reporter p) 0 1 2.

(** An entry with its node: the machine rests in the node's state. *)
Definition entry_of (req : bool) c0 (p : Peer W) : NodeEntry W :=
  mkEntry_ (conn_of req p) 0 1 2 true true (Some (at_rest conn_states c0 (link_number (p_link p)))).
Definition entry_rel (e : NodeEntry W) (o : option (Peer W)) : Prop :=
  match o with None => active e = false | Some p => exists req c0, e = entry_of req c0 p end.

Definition event_number (e : PeerEvent) : Z :=
  match e with
  | peHeartbeat _ => kEvtHeartbeatReceived | peTimeout => kEvtHeartbeatTimeout | peDisconnect => kEvtDisconnect | peReconnect => kEvtReconnect
  end.
(** The payload matters for heartbeats only. *)
Definition carries (d : option Z) (e : PeerEvent) : Prop := match e with peHeartbeat t => d = Some t | _ => True end.

Lemma suspect_timeout req (c : NodeConnectionContext W) (w : W) d p :
  StateSuspect req (c, w) (mkEvent kEvtHeartbeatTimeout d) p =
    let c := set_missed (u32 (missed_heartbeats c + 1)) c in
    if max_missed c <=? missed_heartbeats c
    then request req (idx_disconnected c) (c, Report (conn_reporter c) kFaultHeartbeatTimeout (node_id c) kHigh w) p
    else (kHandled, (c, w), p).
Proof. reflexivity. Qed.

Lemma dispatch_entry_rel ev d p req c0 w :
  carries d ev ->
  exists req' c0', dispatch_entry (mkEvent (event_number ev) d) (entry_of req c0 p) w =
    Some (entry_of req' c0' (peer_step ev p w).1, (peer_step ev p w).2).
Proof.
  intros Hd. destruct p as [i l n mx t f r]. destruct l, ev; simpl in Hd; subst.
  - eexists _, _. reflexivity.
  - eexists _, _. reflexivity.
  - destruct f; eexists _, _; reflexivity.
  - eexists _, _. reflexivity.
  - eexists _, _. reflexivity.
  - unfold dispatch_entry, peer_step. cbn [hsm_storage entry_of mbind option_bind p_link p_max p_missed].
    change (Dispatch ?e _) with (Dispatch e (at_rest conn_states (conn_of req (mkPeer i lkSuspect n mx t f r), w) 1)).
    destruct (mx <=? u32 (n + 1)) eqn:E.
    all: erewrite (Dispatch_flat conn_states);
      [|exact conn_flat|by vm_compute|reflexivity|reflexivity|
        rewrite suspect_timeout; cbn [conn_of missed_heartbeats max_missed set_missed p_missed p_max];
        cbv zeta; rewrite E; reflexivity|vm_compute; by repeat split].
    + destruct f; eexists _, _; reflexivity.
    + eexists _, _; reflexivity.
  - destruct f; eexists _, _; reflexivity.
  - eexists _, _. reflexivity.
  - eexists _, _. reflexivity.
  - eexists _, _. reflexivity.
  - eexists _, _. reflexivity.
  - eexists _, _. reflexivity.
Qed.
End Calls.

Lemma held_insert {W} (l : list (option (Peer W))) i (o o' : option (Peer W)) :
  l !! i = Some o -> held (<[i := o']> l) = held l - (if o then 1 else 0) + (if o' then 1 else 0).
Proof.
  revert i. induction l as [|x l IH]; intros [|i] Hi; try done; simpl in *.
  - injection Hi as ->. destruct o, o'; lia.
  - rewrite (IH i Hi). destruct x; lia.
Qed.
Lemma held_bound {W} (l : list (option (Peer W))) : 0 <= held l <= Z.of_nat (length l).
Proof. induction l as [|[] l IH]; simpl; lia. Qed.
Lemma held_each {W} f (l : list (option (Peer W))) : held (each_peer f l) = held l.
Proof.
  induction l as [|o l IH]; [done|].
  change (held (each_peer f (o :: l))) with ((if option_map f o then 1 else 0) + held (each_peer f l)). rewrite IH. by destruct o.
Qed.
Lemma held_none {W} n : held (replicate n (None : option (Peer W))) = 0.
Proof. induction n as [|n IH]; [done|exact IH]. Qed.

Section Simulation.
Context {Q W : Type} `{!QueueOps Q NodeEvent} `{!BoundedQueue Q NodeEvent 16}.
Context (MaxNodes : Z) (HMax : 0 <= MaxNodes < 2 ^ 32).
Abbreviation Mgr := (HsmNodeManager Q W).
Implicit Types (m : Mgr) (s : NSpec W) (w : W).

(** A queued event as the queue stores it; timeouts are never queued. *)
Definition queued (x : Z * PeerEvent) : NodeEvent :=
  mkNodeEvent (event_number x.2) x.1 (match x.2 with peHeartbeat t => t | _ => 0 end).

Record nr (m : Mgr) (s : NSpec W) : Prop := {
  nr_entries : Forall2 entry_rel (entries_ m) (n_peers s);
  nr_length : Z.of_nat (length (n_peers s)) = MaxNodes;
  nr_count : node_count_ m = held (n_peers s);
  nr_interval : heartbeat_interval_ms_ m = n_interval s;
  nr_interval_range : in_range 32 (n_interval s);
  nr_running : running_ m = n_running s;
  nr_scheduler : has_scheduler m = n_scheduler s;
  nr_fn : global_disconnect_fn_ m = n_fn s;
  nr_reporter : global_fault_reporter_ m = n_reporter s;
  nr_queue : q_holds (event_queue_ m) (queued <$> n_queue s);
  nr_dropped : dropped_events_ m = n_dropped s;
  nr_wakes : wakes_ m = n_wakes s
}.

Lemma nr_entries_set m s l k :
  nr m s -> Forall2 entry_rel l k -> length k = length (n_peers s) -> held k = held (n_peers s) ->
  nr (set_entries l m) (n_set_peers k s).
Proof. intros [] Hl Hk Hh. split; simpl; try done; [by rewrite Hk|by rewrite Hh]. Qed.

(** The entry and the node an id finds. *)
Lemma find_rel m s id :
  nr m s ->
  match FindNode id m, n_find id s with
  | Some (i, e), Some (j, p) => i = j /\ (exists req c0, e = entry_of req c0 p) /\ n_peers s !! i = Some (Some p) /\ p_id p = id
  | None, None => True
  | _, _ => False
  end.
Proof.
  intros Hm. unfold FindNode, n_find.
  pose proof (list_find_rel entry_rel (fun e => active e = true /\ node_id (context e) = id) (fun o => p_id <$> o = Some id)
    (entries_ m) (n_peers s) (nr_entries m s Hm)) as H.
  destruct (list_find _ (entries_ m)) as [ [i e]|], (list_find _ (n_peers s)) as [ [j [p|] ]|]; try (apply H; intros x [p'|]; simpl);
    try (destruct H as (-> & He & Hj & Hp); [intros x [p'|]; simpl|]); try done.
  all: try (intros (req & c0 & ->); simpl; naive_solver). all: try (intros ->; naive_solver).
  split_and!; try done. by injection Hp.
Qed.

Lemma dispatch_node_rel m s id ev d w :
  nr m s -> carries d ev ->
  exists m', dispatch_node id (mkEvent (event_number ev) d) (m, w) = Some (m', (spec_dispatch id ev (s, w)).2) /\
    nr m' (spec_dispatch id ev (s, w)).1.
Proof.
  intros Hm Hd. unfold dispatch_node, spec_dispatch. pose proof (find_rel m s id Hm) as Hf.
  destruct (FindNode id m) as [ [i e]|], (n_find id s) as [ [j p]|]; try done; [|by exists m].
  destruct Hf as (-> & (req & c0 & ->) & Hj & _). destruct (dispatch_entry_rel ev d p req c0 w Hd) as (req' & c0' & ->).
  destruct (peer_step ev p w) as [p' w']. cbn [mbind option_bind fst snd]. eexists. split; [done|].
  apply nr_entries_set; [done| |by rewrite length_insert|rewrite (held_insert _ _ _ _ Hj); lia].
  apply Forall2_insert; [apply (nr_entries _ _ Hm)|]. by exists req', c0'.
Qed.

Lemma enqueue_rel m s id ev w :
  nr m s -> n_scheduler s = false -> n_running s = true ->
  exists m', enqueue (queued (id, ev)) m = Some m' /\ spec_send id ev (s, w) = ((spec_send id ev (s, w)).1, w) /\
    nr m' (spec_send id ev (s, w)).1.
Proof.
  intros Hm Hs Hr. unfold enqueue, spec_send. rewrite Hs, Hr. simpl negb. cbn [andb].
  destruct (q_push_spec _ _ (queued (id, ev)) (nr_queue m s Hm)) as (q & -> & Hq). rewrite length_fmap in *.
  destruct (_ <? 16); eexists; (split; [done|]); (split; [done|]); destruct Hm; split; simpl; try done; try congruence.
  by rewrite fmap_app.
Qed.

(** The three event methods have one shape. *)
Lemma send_rel m s id ev d w :
  nr m s -> carries d ev ->
  exists m', (if queued_mode m then x ← enqueue (queued (id, ev)) m; Some (x, w)
              else dispatch_node id (mkEvent (event_number ev) d) (m, w)) = Some (m', (spec_send id ev (s, w)).2) /\
    nr m' (spec_send id ev (s, w)).1.
Proof.
  intros Hm Hd. unfold queued_mode. rewrite (nr_scheduler _ _ Hm), (nr_running _ _ Hm).
  destruct (negb (n_scheduler s) && n_running s) eqn:E.
  - apply andb_true_iff in E as [E1%negb_true_iff E2]. destruct (enqueue_rel m s id ev w Hm E1 E2) as (m' & -> & Hs & Hm').
    exists m'. split; [|done]. by rewrite Hs.
  - unfold spec_send. rewrite E. by apply dispatch_node_rel.
Qed.

Lemma OnHeartbeat_rel m s id now w :
  nr m s ->
  exists m', OnHeartbeat id now (m, w) = Some (m', (spec_send id (peHeartbeat now) (s, w)).2) /\ nr m' (spec_send id (peHeartbeat now) (s, w)).1.
Proof. intros Hm. exact (send_rel m s id (peHeartbeat now) (Some now) w Hm eq_refl). Qed.
Lemma RequestDisconnect_rel m s id w :
  nr m s -> exists m', RequestDisconnect id (m, w) = Some (m', (spec_send id peDisconnect (s, w)).2) /\ nr m' (spec_send id peDisconnect (s, w)).1.
Proof. intros Hm. exact (send_rel m s id peDisconnect None w Hm I). Qed.
Lemma RequestReconnect_rel m s id w :
  nr m s -> exists m', RequestReconnect id (m, w) = Some (m', (spec_send id peReconnect (s, w)).2) /\ nr m' (spec_send id peReconnect (s, w)).1.
Proof. intros Hm. exact (send_rel m s id peReconnect None w Hm I). Qed.

Lemma check_entries_rel now t l k w :
  Forall2 entry_rel l k ->
  exists l', check_entries now t l w = Some (l', (spec_check now t k w).2) /\ Forall2 entry_rel l' (spec_check now t k w).1 /\
    length (spec_check now t k w).1 = length k /\ held (spec_check now t k w).1 = held k.
Proof.
  intros Hl. revert w. induction Hl as [|e o l k He Hl IH]; intros w; [by exists []|]. cbn [check_entries spec_check].
  assert (exists e' o' w', (if active e && (t <? u64 (now - last_heartbeat_us (context e))) then dispatch_entry (mkEvent kEvtHeartbeatTimeout None) e w else Some (e, w)) = Some (e', w') /\
    entry_rel e' o' /\ (if o then 1 else 0) = (if o' then 1 else 0) /\
    match o with
    | Some p => if t <? u64 (now - p_last p) then let '(p, w) := peer_step peTimeout p w in (Some p, w) else (Some p, w)
    | None => (None, w)
    end = (o', w')) as (e' & o' & w' & -> & He' & Ho & ->).
  { destruct o as [p|]; simpl in He; [|rewrite He; by exists e, None, w]. destruct He as (req & c0 & ->).
    change (active (entry_of req c0 p)) with true. change (last_heartbeat_us (context (entry_of req c0 p))) with (p_last p). cbn [andb].
    destruct (t <? _); [|exists (entry_of req c0 p), (Some p), w; split_and!; try done; by exists req, c0].
    change kEvtHeartbeatTimeout with (event_number peTimeout).
    destruct (dispatch_entry_rel peTimeout None p req c0 w I) as (req' & c0' & ->). destruct (peer_step peTimeout p w) as [p' w'].
    eexists _, (Some p'), w'. split_and!; [done| |done|done]. by exists req', c0'. }
  cbn [mbind option_bind]. destruct (IH w') as (l' & -> & Hl' & Hlen & Hh). destruct (spec_check now t k w') as [k' w2]. simpl in *.
  eexists. split; [done|]. split_and!; [by constructor|by rewrite Hlen|lia].
Qed.

Lemma CheckTimeouts_rel m s now w :
  nr m s -> exists m', CheckTimeouts now (m, w) = Some (m', (spec_scan now (s, w)).2) /\ nr m' (spec_scan now (s, w)).1.
Proof.
  intros Hm. unfold CheckTimeouts, spec_scan. cbn [fst snd]. rewrite (nr_interval _ _ Hm).
  pose proof (nr_interval_range _ _ Hm) as Hr. unfold in_range in Hr.
  rewrite (wrap_small 64 (n_interval s * 1000)) by (unfold in_range; lia).
  destruct (check_entries_rel now (n_interval s * 1000) _ _ w (nr_entries _ _ Hm)) as (l' & -> & Hl & Hlen & Hh).
  destruct (spec_check _ _ (n_peers s) w) as [k w']. cbn [mbind option_bind fst snd] in *. eexists. split; [done|]. by apply nr_entries_set.
Qed.

Lemma wake_loop_rel m s w fuel :
  nr m s -> (length (n_queue s) < fuel)%nat ->
  exists m', wake_loop fuel (m, w) = Some (m', (spec_wake (s, w)).2) /\ nr m' (spec_wake (s, w)).1.
Proof.
  revert m s w. induction fuel as [|fuel IH]; intros m s w Hm Hf; [lia|]. cbn [wake_loop fst snd].
  pose proof (q_pop_spec _ _ (nr_queue m s Hm)) as Hp. unfold spec_wake.
  destruct (n_queue s) as [|[id ev] q] eqn:Eq; simpl in Hp.
  { rewrite Hp. exists m. split; [done|]. simpl. destruct Hm. split; try done. simpl. by rewrite Eq in nr_queue0. }
  destruct Hp as (q' & -> & Hq'). cbn [queued fst snd ne_node_id ne_id ne_timestamp_us foldl].
  assert (Hm1 : nr (set_queue q' m) (n_set_queue q s)) by (destruct Hm; by split).
  assert (Hd : carries (Some (match ev with peHeartbeat t => t | _ => 0 end)) ev) by by destruct ev.
  destruct (dispatch_node_rel _ _ id ev _ w Hm1 Hd) as (m2 & -> & Hm2). cbn [mbind option_bind].
  assert (Hs2 : (spec_dispatch id ev (n_set_queue q s, w)).1 = n_set_queue q (spec_dispatch id ev (n_set_queue [] s, w)).1 /\
    (spec_dispatch id ev (n_set_queue q s, w)).2 = (spec_dispatch id ev (n_set_queue [] s, w)).2).
  { unfold spec_dispatch, n_find. simpl. destruct (list_find _ _) as [ [i [p|] ]|]; [|done..]. by destruct (peer_step ev p w). }
  destruct Hs2 as [E1 E2]. rewrite E1 in Hm2. rewrite E2. destruct (spec_dispatch id ev (n_set_queue [] s, w)) as [s2 w2] eqn:E0.
  cbn [fst snd] in Hm2 |- *. destruct (IH m2 (n_set_queue q s2) w2 Hm2) as (m3 & E3 & Hm3); [simpl in *; lia|]. exists m3.
  replace (foldl _ (s2, w2) q) with (spec_wake (n_set_queue q s2, w2)); [done|]. unfold spec_wake. simpl.
  replace (n_set_queue [] (n_set_queue q s2)) with s2; [done|]. clear -E0. unfold spec_dispatch in E0. destruct (n_find id _) as [ [i p]|].
  - destruct (peer_step ev p w). injection E0 as <- _. done.
  - injection E0 as <- _. done.
Qed.

Lemma build_machine_eq (x : NodeConnectionContext W * W) :
  build_machine x = Some (0, 1, 2, mkMachine x kNoState 0 false kNoState conn_states).
Proof. reflexivity. Qed.

Lemma AddNode_rel m s id mx now w :
  nr m s -> exists m', AddNode id mx now (m, w) = Some ((spec_add id mx now s).1, (m', w)) /\ nr m' (spec_add id mx now s).2.
Proof.
  intros Hm. unfold AddNode, FindSlot, spec_add.
  pose proof (list_find_rel entry_rel (fun e => active e = false) (fun o => o = None) (entries_ m) (n_peers s) (nr_entries m s Hm)) as H.
  destruct (list_find _ (entries_ m)) as [ [i e]|], (list_find _ (n_peers s)) as [ [j o]|]; try (destruct H; fail).
  2-3: exfalso; apply H; intros x [p|]; simpl; naive_solver.
  2: by exists m.
  destruct H as (-> & _ & Hj & ->); [intros x [p|]; simpl; naive_solver|].
  rewrite build_machine_eq. cbn [mbind option_bind current_state_ initial_state_ started_ pending_target_ states_].
  rewrite (Start_flat conn_states) by (done || exact conn_flat).
  eexists. split; [reflexivity|]. cbn [snd]. pose proof (held_insert _ _ _ (Some (mkPeer id lkConnected 0 mx now (n_fn s) (n_reporter s))) Hj) as Hh. cbv iota in Hh.
  pose proof (held_bound (<[j := Some (mkPeer id lkConnected 0 mx now (n_fn s) (n_reporter s))]> (n_peers s))) as Hb. rewrite length_insert in Hb.
  destruct Hm; split; simpl; try done.
  - apply Forall2_insert; [done|]. simpl. eexists false, _. unfold entry_of, conn_of. simpl. rewrite nr_fn0, nr_reporter0. reflexivity.
  - by rewrite length_insert.
  - rewrite Hh. rewrite nr_count0. rewrite wrap_small by (unfold in_range; lia). lia.
Qed.

Lemma RemoveNode_rel m s id : nr m s -> (RemoveNode id m).1 = (spec_remove id s).1 /\ nr (RemoveNode id m).2 (spec_remove id s).2.
Proof.
  intros Hm. unfold RemoveNode, spec_remove. pose proof (find_rel m s id Hm) as Hf.
  destruct (FindNode id m) as [ [i e]|], (n_find id s) as [ [j p]|]; try done.
  destruct Hf as (-> & (req & c0 & ->) & Hj & _). split; [done|]. cbn [snd].
  pose proof (held_insert _ _ _ None Hj) as Hh. cbv iota in Hh.
  pose proof (held_bound (<[j := None]> (n_peers s))) as Hb. rewrite length_insert in Hb. pose proof (held_bound (n_peers s)).
  destruct Hm; split; simpl; try done.
  - apply Forall2_insert; [done|]. done.
  - by rewrite length_insert.
  - rewrite Hh, nr_count0. rewrite wrap_small by (unfold in_range; lia). lia.
Qed.

(** Changing a setting of every node. *)
Lemma each_rel (f : NodeConnectionContext W -> NodeConnectionContext W) (g : Peer W -> Peer W) l k :
  (forall req p, f (conn_of req p) = conn_of req (g p)) -> (forall p, p_link (g p) = p_link p) ->
  Forall2 entry_rel l k -> Forall2 entry_rel (on_active f <$> l) (each_peer g k).
Proof.
  intros Hfg Hl H. apply Forall2_fmap_2. eapply Forall2_impl; [|exact H]. intros e [p|]; simpl.
  - intros (req & c0 & ->). exists req, c0. unfold on_active, entry_of. simpl. by rewrite Hfg, Hl.
  - intros He. unfold on_active. by rewrite He.
Qed.

Lemma each_length {A} g (k : list (option (Peer A))) : length (each_peer g k) = length k.
Proof. apply length_fmap. Qed.

Lemma Stop_rel m s : nr m s -> nr (Stop m) (n_set_running false (n_set_peers (replicate (length (n_peers s)) None) s)).
Proof.
  intros [He]. split; simpl; try done; [|by rewrite length_replicate|by rewrite held_none].
  clear -He. induction He as [|e o l k _ _ IH]; [constructor|]. simpl. constructor; [done|exact IH].
Qed.

Lemma GetNodeState_rel m s id : nr m s -> GetNodeState id m = Some (match n_find id s with Some (_, p) => link_name (p_link p) | None => ""%string end).
Proof.
  intros Hm. unfold GetNodeState. pose proof (find_rel m s id Hm) as Hf.
  destruct (FindNode id m) as [ [i e]|], (n_find id s) as [ [j p]|]; try done. destruct Hf as (_ & (req & c0 & ->) & _).
  by destruct p as [? [] ? ? ? ? ?].
Qed.
Lemma IsConnected_rel m s id : nr m s -> IsConnected id m = Some (match n_find id s with Some (_, p) => is_connected (p_link p) | None => false end).
Proof.
  intros Hm. unfold IsConnected. pose proof (find_rel m s id Hm) as Hf.
  destruct (FindNode id m) as [ [i e]|], (n_find id s) as [ [j p]|]; try done. destruct Hf as (_ & (req & c0 & ->) & _).
  cbn [hsm_storage entry_of mbind option_bind state_connected]. rewrite (IsInState_flat conn_states); [|exact conn_flat|].
  - by destruct p as [? [] ? ? ? ? ?].
  - destruct p as [? [] ? ? ? ? ?]; vm_compute; by split.
Qed.
Lemma GetMissed_rel m s id : nr m s -> GetMissedHeartbeats id m = match n_find id s with Some (_, p) => p_missed p | None => 0 end.
Proof.
  intros Hm. unfold GetMissedHeartbeats. pose proof (find_rel m s id Hm) as Hf.
  destruct (FindNode id m) as [ [i e]|], (n_find id s) as [ [j p]|]; try done. by destruct Hf as (_ & (req & c0 & ->) & _).
Qed.
Lemma infos_rel (l : list (NodeEntry W)) k : Forall2 entry_rel l k -> infos l = Some (peer_info <$> omap id k).
Proof.
  induction 1 as [|e o l k He _ IH]; [done|]. cbn [infos]. destruct o as [p|]; simpl in He; [|by rewrite He].
  destruct He as (req & c0 & ->). simpl. rewrite IH. by destruct p as [? [] ? ? ? ? ?].
Qed.

Lemma nm_op_rel m s w o :
  nr m s -> nm_typed o ->
  exists m', nm_op o (m, w) = Some ((spec_nm_op o (s, w)).1, (m', (spec_nm_op o (s, w)).2.2)) /\ nr m' (spec_nm_op o (s, w)).2.1.
Proof.
  intros Hm Ho. destruct o; cbn [nm_op spec_nm_op].
  - eexists. split; [done|]. by destruct Hm; split.
  - eexists. split; [done|]. apply nr_entries_set; [done|by apply each_rel, Hm|apply each_length|apply held_each].
  - destruct (AddNode_rel m s id max now w Hm) as (m' & -> & Hm'). destruct (spec_add id max now s). by exists m'.
  - destruct (RemoveNode_rel m s id Hm) as [E Hm']. destruct (RemoveNode id m), (spec_remove id s). simpl in *. subst. by eexists.
  - destruct (OnHeartbeat_rel m s id now w Hm) as (m' & -> & Hm'). by exists m'.
  - destruct (CheckTimeouts_rel m s now w Hm) as (m' & -> & Hm'). by exists m'.
  - destruct (RequestDisconnect_rel m s id w Hm) as (m' & -> & Hm'). by exists m'.
  - destruct (RequestReconnect_rel m s id w Hm) as (m' & -> & Hm'). by exists m'.
  - eexists. split; [done|]. destruct Hm; split; simpl; try done; [by apply each_rel|by rewrite each_length|by rewrite held_each].
  - eexists. split; [done|]. destruct Hm; split; simpl; try done; [by apply each_rel|by rewrite each_length|by rewrite held_each].
  - rewrite (GetNodeState_rel m s id Hm). by exists m.
  - rewrite (IsConnected_rel m s id Hm). by exists m.
  - exists m. split; [|done]. simpl. unfold NodeCount. by rewrite (nr_count _ _ Hm).
  - exists m. split; [|done]. simpl. unfold GetDroppedEvents. by rewrite (nr_dropped _ _ Hm).
  - exists m. split; [|done]. by rewrite (GetMissed_rel m s id Hm).
  - unfold ForEachNode. rewrite (infos_rel _ _ (nr_entries _ _ Hm)). by exists m.
  - unfold Start. rewrite (nr_running _ _ Hm). destruct (n_running s) eqn:Er, ok; simpl; eexists; (split; [done|]); destruct Hm; split; simpl; try done; congruence.
  - eexists. split; [done|]. by apply Stop_rel.
  - exists m. split; [|done]. simpl. unfold IsRunning. by rewrite (nr_running _ _ Hm).
  - unfold OnTimer. destruct (CheckTimeouts_rel m s now w Hm) as (m' & -> & Hm'). by exists m'.
  - unfold OnWake. destruct (wake_loop_rel m s w (S (Z.to_nat kQueueDepth)) Hm) as (m' & -> & Hm'); [|by exists m'].
    pose proof (q_bounded _ _ (nr_queue _ _ Hm)) as Hb. rewrite length_fmap in Hb. unfold kQueueDepth. lia.
Qed.

Lemma nm_run_rel ops m s w :
  nr m s -> Forall nm_typed ops ->
  exists m', nm_run ops (m, w) = Some ((spec_nm_run ops (s, w)).1, (m', (spec_nm_run ops (s, w)).2.2)) /\ nr m' (spec_nm_run ops (s, w)).2.1.
Proof.
  revert m s w. induction ops as [|o ops IH]; intros m s w Hm Ho; [by exists m|]. apply Forall_cons_1 in Ho as [Ho Hos].
  cbn [nm_run spec_nm_run]. destruct (nm_op_rel m s w o Hm Ho) as (m1 & -> & Hm1). cbn [mbind option_bind].
  destruct (spec_nm_op o (s, w)) as [r [s1 w1] ]. cbn [fst snd] in *. destruct (IH m1 s1 w1 Hm1 Hos) as (m2 & -> & Hm2).
  exists m2. by destruct (spec_nm_run ops (s1, w1)).
Qed.

Lemma manager_start_rel scheduler q0 : q_holds q0 [] -> nr (HsmNodeManager_ctor MaxNodes scheduler q0) (n_fresh MaxNodes scheduler).
Proof.
  intros Hq. split; simpl; try done; [|rewrite length_replicate; lia|by rewrite held_none].
  induction (Z.to_nat MaxNodes); simpl; by constructor.
Qed.
End Simulation.

(** ** A node that falls silent *)

Section Silence.
Context {W : Type}.

(** The node [p0], connected with nothing missed, after [n] scans without a heartbeat. *)
Record silent_for (n : Z) (p0 p : Peer W) : Prop := {
  sf_id : p_id p = p_id p0; sf_max : p_max p = p_max p0; sf_last : p_last p = p_last p0;
  sf_start : n = 0 -> p_link p = lkConnected /\ p_missed p = 0;
  sf_wait : 1 <= n < Z.max 2 (p_max p0) -> p_link p = lkSuspect /\ p_missed p = n;
  sf_lost : Z.max 2 (p_max p0) <= n -> p_link p = lkDisconnected
}.
Definition silent_link (n mx : Z) : Link := if n =? 0 then lkConnected else if n <? Z.max 2 mx then lkSuspect else lkDisconnected.

Lemma silent_link_eq n p0 p : 0 <= n -> silent_for n p0 p -> p_link p = silent_link n (p_max p0).
Proof.
  intros Hn []. unfold silent_link. destruct (Z.eqb_spec n 0); [by apply sf_start0|].
  destruct (Z.ltb_spec n (Z.max 2 (p_max p0))); [apply sf_wait0; lia|by apply sf_lost0].
Qed.

Lemma silent_step n p0 p w : 0 <= n -> n + 1 < 2 ^ 32 -> silent_for n p0 p -> silent_for (n + 1) p0 (peer_step peTimeout p w).1.
Proof.
  intros Hn Hm [Hi Hx Hl H0 H1 H2]. unfold peer_step.
  assert (n = 0 \/ 1 <= n < Z.max 2 (p_max p0) \/ Z.max 2 (p_max p0) <= n) as [C|[C|C] ] by lia.
  - destruct (H0 C) as [-> ->]. subst n. split; simpl; try done; intros; lia.
  - destruct (H1 C) as [-> ->]. rewrite wrap_small by (unfold in_range; lia). rewrite Hx.
    destruct (Z.leb_spec (p_max p0) (n + 1)); split; simpl; try done; intros; try lia.
    by destruct (H1 C) as [-> _].
  - rewrite (H2 C). split; simpl; try done; intros; try lia. by apply H2.
Qed.

(** A scan treats every node on its own. *)
Lemma spec_check_lookup now t (k : list (option (Peer W))) w j p :
  k !! j = Some (Some p) ->
  exists w', (spec_check now t k w).1 !! j = Some (Some (if t <? u64 (now - p_last p) then (peer_step peTimeout p w').1 else p)).
Proof.
  revert j w. induction k as [|o k IH]; intros [|j] w Hj; try done; cbn [spec_check]; simpl in Hj.
  - injection Hj as ->. exists w. destruct (t <? _).
    + destruct (peer_step peTimeout p w) as [p' w']. by destruct (spec_check now t k w').
    + by destruct (spec_check now t k w).
  - destruct (match o with Some p => _ | None => _ end) as [o' w']. destruct (IH j w' Hj) as [w2 E].
    exists w2. destruct (spec_check now t k w'). exact E.
Qed.

(** Scans keep the ids. *)
Lemma spec_check_ids now t (k : list (option (Peer W))) w :
  Forall2 (fun o o' => p_id <$> o = p_id <$> o') k (spec_check now t k w).1.
Proof.
  revert w. induction k as [|o k IH]; intros w; [constructor|]. cbn [spec_check].
  assert (exists o' w', match o with
    | Some p => if t <? u64 (now - p_last p) then let '(p, w) := peer_step peTimeout p w in (Some p, w) else (Some p, w)
    | None => (None, w) end = (o', w') /\ p_id <$> o = p_id <$> o') as (o' & w' & -> & Ho).
  { destruct o as [p|]; [|by eexists _, _]. destruct (t <? _); [|by eexists _, _]. destruct p as [i [] n mx l f r]; simpl; try by eexists _, _.
    destruct (mx <=? _); by eexists _, _. }
  specialize (IH w'). destruct (spec_check now t k w') as [k' w2]. by constructor.
Qed.

Lemma n_find_stable id (s s' : NSpec W) j p :
  Forall2 (fun o o' => p_id <$> o = p_id <$> o') (n_peers s) (n_peers s') -> n_find id s = Some (j, p) ->
  exists p', n_find id s' = Some (j, p') /\ n_peers s' !! j = Some (Some p').
Proof.
  intros HR. unfold n_find.
  pose proof (list_find_rel _ (fun o => p_id <$> o = Some id) (fun o => p_id <$> o = Some id) _ _ HR) as H. cbn beta in H.
  specialize (H ltac:(intros x y Hxy; by rewrite Hxy)).
  destruct (list_find _ (n_peers s)) as [ [i [p1|] ]|], (list_find _ (n_peers s')) as [ [i' [p2|] ]|]; try done.
  - destruct H as (-> & _ & Hl & _). intros [= -> ->]. by exists p2.
  - by destruct H as (_ & ? & _).
Qed.

(** The link of the node [id] finds after some late scans. *)
Lemma scans_silent times id (s : NSpec W) w j n p0 p :
  Forall (fun t => n_interval s * 1000 < u64 (t - p_last p0)) times -> 0 <= n -> n + Z.of_nat (length times) < 2 ^ 32 ->
  n_find id s = Some (j, p) -> n_peers s !! j = Some (Some p) -> silent_for n p0 p ->
  exists p', n_find id (spec_nm_run (NCheck <$> times) (s, w)).2.1 = Some (j, p') /\ silent_for (n + Z.of_nat (length times)) p0 p'.
Proof.
  revert s w n p. induction times as [|t times IH]; intros s w n p Ht Hn Hm Hf Hj Hs.
  { exists p. split; [done|]. simpl. by rewrite Z.add_0_r. }
  apply Forall_cons_1 in Ht as [Ht Hts]. cbn [fmap list_fmap spec_nm_run spec_nm_op spec_scan].
  pose proof (spec_check_ids t (n_interval s * 1000) (n_peers s) w) as HR.
  destruct (spec_check_lookup t (n_interval s * 1000) (n_peers s) w j p Hj) as (w' & E).
  destruct (spec_check t (n_interval s * 1000) (n_peers s) w) as [k w1] eqn:Ek. cbn [fst snd] in *.
  destruct (n_find_stable id s (n_set_peers k s) j p HR Hf) as (p1 & Hf1 & Hj1).
  simpl in Hj1. rewrite E in Hj1. injection Hj1 as E1. rewrite (sf_last _ _ _ Hs), (proj2 (Z.ltb_lt _ _) Ht) in E1. subst p1.
  rewrite (sf_last _ _ _ Hs), (proj2 (Z.ltb_lt _ _) Ht) in E. cbn [length] in Hm |- *.
  replace (n + Z.of_nat (S (length times))) with (n + 1 + Z.of_nat (length times)) by lia.
  destruct (IH (n_set_peers k s) w1 (n + 1) _ Hts ltac:(lia) ltac:(lia) Hf1 E (silent_step n p0 p w' Hn ltac:(lia) Hs)) as (p' & Hp' & Hs').
  exists p'. split; [|done]. by destruct (spec_nm_run _ (n_set_peers k s, w1)).
Qed.
End Silence.

(** ** The theorems *)

Section Theorems.
(** The manager with its own ring of 16 slots. *)
Context {W : Type} (MaxNodes : Z).
Definition nm_start (scheduler : bool) : HsmNodeManager (EventQueue NodeEvent) W := HsmNodeManager_ctor MaxNodes scheduler (EventQueue_ctor 4).
Definition nm_calls (ops : list (NmOp W)) (x : HsmNodeManager (EventQueue NodeEvent) W * W)
    : option (list NmRes * (HsmNodeManager (EventQueue NodeEvent) W * W)) := nm_run (QueueOps0 := ring_ops 4) ops x.
End Theorems.

(** Runs from the start, in terms of the specification. *)
Lemma nm_calls_rel {W} MaxNodes scheduler (ops : list (NmOp W)) w :
  0 <= MaxNodes < 2 ^ 32 -> Forall nm_typed ops ->
  exists m (B : @BoundedQueue (EventQueue NodeEvent) NodeEvent (ring_ops 4) 16),
    nm_calls ops (nm_start MaxNodes scheduler, w) =
      Some ((spec_nm_run ops (n_fresh MaxNodes scheduler, w)).1, (m, (spec_nm_run ops (n_fresh MaxNodes scheduler, w)).2.2)) /\
    @nr _ _ (ring_ops 4) B MaxNodes m (spec_nm_run ops (n_fresh MaxNodes scheduler, w)).2.1.
Proof.
  intros HM Ho. pose (B := ring_queue (T := NodeEvent) 4 ltac:(lia)).
  destruct (nm_run_rel (QueueOps0 := ring_ops 4) (BoundedQueue0 := B) MaxNodes HM ops (nm_start MaxNodes scheduler) (n_fresh MaxNodes scheduler) w)
    as (m & E & Hm).
  - apply (manager_start_rel (QueueOps0 := ring_ops 4) (BoundedQueue0 := B) MaxNodes HM). by apply ring_holds_start.
  - done.
  - by exists m, B.
Qed.

(** C21. Refinement: any run of the node manager, with the state machines of its
    nodes, the event queue and any callbacks inside, returns what the specification
    returns: a table of nodes that are connected, suspect or disconnected, moved by
    heartbeats, late scans and requests as specified, each loss reported and handed
    to the callback once; requests made while the event loop runs wait in a queue of
    16 and are delivered in order when it wakes, or are counted as dropped; no
    destroyed state machine is used and no assertion fails. *)
Theorem node_manager_refines {W} MaxNodes scheduler (ops : list (NmOp W)) w :
  0 <= MaxNodes < 2 ^ 32 -> Forall nm_typed ops ->
  let spec := spec_nm_run ops (n_fresh MaxNodes scheduler, w) in
  exists m, nm_calls ops (nm_start MaxNodes scheduler, w) = Some (spec.1, (m, spec.2.2)).
Proof. intros HM Ho. destruct (nm_calls_rel MaxNodes scheduler ops w HM Ho) as (m & _ & E & _). by exists m. Qed.

(** Failure detection: a connected node that has missed nothing and sends no
    further heartbeat is reported connected before the first late scan, suspect
    after it, and disconnected after exactly max(2, max_missed) late scans and ever
    after, whatever the other nodes do. *)
Lemma silent_node_disconnected {W} MaxNodes scheduler (ops : list (NmOp W)) w rs m w1 id i e times :
  0 <= MaxNodes < 2 ^ 32 -> Forall nm_typed ops ->
  nm_calls ops (nm_start MaxNodes scheduler, w) = Some (rs, (m, w1)) ->
  FindNode id m = Some (i, e) -> IsConnected id m = Some true -> missed_heartbeats (context e) = 0 ->
  Forall (fun t => heartbeat_interval_ms_ m * 1000 < u64 (t - last_heartbeat_us (context e))) times ->
  Z.of_nat (length times) < 2 ^ 32 ->
  exists rs' x', nm_calls (NCheck <$> times) (m, w1) = Some (rs', x') /\
    GetNodeState id x'.1 = Some (link_name (silent_link (Z.of_nat (length times)) (max_missed (context e)))).
Proof.
  intros HM Ho Hrun Hfind Hconn Hmiss Hlate Hlen. destruct (nm_calls_rel MaxNodes scheduler ops w HM Ho) as (m0 & B & E & Hm).
  rewrite E in Hrun. injection Hrun as _ <- <-. set (x := (spec_nm_run ops (n_fresh MaxNodes scheduler, w)).2) in *.
  pose proof (find_rel (QueueOps0 := ring_ops 4) (BoundedQueue0 := B) MaxNodes HM m0 x.1 id Hm) as Hf. rewrite Hfind in Hf.
  rewrite (IsConnected_rel (QueueOps0 := ring_ops 4) (BoundedQueue0 := B) MaxNodes HM m0 x.1 id Hm) in Hconn.
  destruct (n_find id x.1) as [ [j p]|] eqn:Hn; [|done]. destruct Hf as (-> & (req & c0 & ->) & Hj & Hid).
  simpl in Hmiss, Hlate. rewrite (nr_interval _ _ _ Hm) in Hlate.
  assert (Hs : silent_for 0 p p).
  { split; try done; intros; try lia. split; [|done]. injection Hconn as Hconn. by destruct (p_link p). }
  destruct (scans_silent times id x.1 x.2 j 0 p p Hlate ltac:(lia) ltac:(lia) Hn Hj Hs) as (p' & Hp' & Hs').
  destruct (nm_run_rel (QueueOps0 := ring_ops 4) (BoundedQueue0 := B) MaxNodes HM (NCheck <$> times) m0 x.1 x.2 Hm) as (m' & E' & Hm').
  { apply Forall_fmap. by apply Forall_true. }
  eexists _, _. split; [exact E'|]. cbn [fst]. rewrite (GetNodeState_rel (QueueOps0 := ring_ops 4) (BoundedQueue0 := B) MaxNodes HM m' _ id Hm'), Hp'.
  simpl. rewrite (silent_link_eq (0 + Z.of_nat (length times)) p p') by (done || lia). done.
Qed.

(** ** Runs *)

(** The callback logs the lost node. *)
Definition log_lost : NodeDisconnectFn (list Z) := fun id w => w ++ [id].

Definition sample_nodes : list (NmOp (list Z)) :=
  [NOnDisconnect (Some log_lost); NAdd 7 3 0; NAdd 9 1 0; NHeartbeat 7 1500000; NCheck 2000000; NState 7; NState 9;
   NStart true; NHeartbeat 9 2100000; NDisconnect 7; NState 7; NWake; NState 7; NState 9; NForEach].

Lemma node_manager_refines_witness :
  exists m, nm_calls sample_nodes (nm_start 4 false, []) =
    Some ([NRNone; NRBool true; NRBool true; NRNone; NRNone; NRName "Connected"; NRName "Suspect"; NRBool true; NRNone; NRNone;
           NRName "Connected"; NRNone; NRName "Disconnected"; NRName "Connected";
           NRInfos [mkInfo 7 "Disconnected" 1500000 0; mkInfo 9 "Connected" 2100000 0] ], (m, [7])).
Proof.
  destruct (node_manager_refines 4 false sample_nodes []) as [m E]; [lia|repeat constructor|]. exists m. rewrite E. vm_compute. reflexivity.
Defined.

Lemma silent_node_disconnected_witness :
  exists m rs' x', nm_calls [NAdd 5 3 0] (nm_start 2 true, ([] : list Z)) = Some ([NRBool true], (m, [])) /\
    nm_calls (NCheck <$> [2000000; 3000000; 4000000]) (m, []) = Some (rs', x') /\ GetNodeState 5 x'.1 = Some "Disconnected"%string.
Proof.
  destruct (nm_calls_rel 2 true [NAdd 5 3 0] ([] : list Z)) as (m & B & E & Hm); [lia|repeat constructor|].
  pose proof (find_rel (QueueOps0 := ring_ops 4) (BoundedQueue0 := B) 2 ltac:(lia) m _ 5 Hm) as Hf.
  pose proof (IsConnected_rel (QueueOps0 := ring_ops 4) (BoundedQueue0 := B) 2 ltac:(lia) m _ 5 Hm) as Hc.
  change (n_find 5 _) with (Some (0%nat, mkPeer 5 lkConnected 0 3 0 None None : Peer (list Z))) in Hf, Hc.
  destruct (FindNode 5 m) as [ [i e]|] eqn:Ef; [|done]. destruct Hf as (-> & (req & c0 & ->) & _).
  destruct (silent_node_disconnected 2 true [NAdd 5 3 0] [] _ m [] 5 0 _ [2000000; 3000000; 4000000] ltac:(lia) ltac:(repeat constructor) E Ef Hc eq_refl)
    as (rs' & x' & E' & Hx); [|done|].
  - rewrite (nr_interval _ _ _ Hm). repeat constructor.
  - exists m, rs', x'. split; [exact E|]. split; [exact E'|exact Hx].
Defined.

(** Runs evaluated in the specification. *)
Lemma nm_example {W} MaxNodes scheduler (ops : list (NmOp W)) w rs w' :
  0 <= MaxNodes < 2 ^ 32 -> Forall nm_typed ops ->
  (spec_nm_run ops (n_fresh MaxNodes scheduler, w)).1 = rs -> (spec_nm_run ops (n_fresh MaxNodes scheduler, w)).2.2 = w' ->
  exists m, nm_calls ops (nm_start MaxNodes scheduler, w) = Some (rs, (m, w')).
Proof. intros HM Ho <- <-. destruct (nm_calls_rel MaxNodes scheduler ops w HM Ho) as (m & _ & E & _). by exists m. Qed.

(** A limit of one missed heartbeat still takes two late scans. *)
Lemma max_missed_one_needs_two :
  exists m, nm_calls [NAdd 5 1 0; NCheck 2000000; NState 5; NCheck 3000000; NState 5] (nm_start 2 true, tt) =
    Some ([NRBool true; NRNone; NRName "Suspect"; NRNone; NRName "Disconnected"], (m, tt)).
Proof. apply nm_example; [lia|repeat constructor|vm_compute; reflexivity..]. Qed.

(** Reconnecting does not restart the heartbeat clock: the next scan suspects the
    node again. *)
Lemma reconnect_keeps_old_heartbeat :
  exists m, nm_calls [NAdd 5 3 0; NDisconnect 5; NReconnect 5; NState 5; NCheck 9000000; NState 5] (nm_start 2 true, tt) =
    Some ([NRBool true; NRNone; NRNone; NRName "Connected"; NRNone; NRName "Suspect"], (m, tt)).
Proof. apply nm_example; [lia|repeat constructor|vm_compute; reflexivity..]. Qed.

(** An id can be added twice; only the first entry is reachable. *)
Lemma duplicate_node_accepted :
  exists m, nm_calls [NAdd 5 3 0; NAdd 5 3 0; NCount; NDisconnect 5; NForEach] (nm_start 2 true, tt) =
    Some ([NRBool true; NRBool true; NRNum 2; NRNone; NRInfos [mkInfo 5 "Disconnected" 0 0; mkInfo 5 "Connected" 0 0] ], (m, tt)).
Proof. apply nm_example; [lia|repeat constructor|vm_compute; reflexivity..]. Qed.

(** Stop leaves the queue as it is: a request made before it hits a node added
    after it. *)
Lemma stale_request_after_stop :
  exists m, nm_calls [NAdd 5 3 0; NStart true; NDisconnect 5; NStop; NAdd 5 3 10; NStart true; NWake; NState 5] (nm_start 2 false, tt) =
    Some ([NRBool true; NRBool true; NRNone; NRNone; NRBool true; NRBool true; NRNone; NRName "Disconnected"], (m, tt)).
Proof. apply nm_example; [lia|repeat constructor|vm_compute; reflexivity..]. Qed.
