(* ===== verification/Timer.v ===== *)
(** * TimerScheduler (include/osp/timer.hpp)

    Periodic and one-shot tasks in a fixed table.  One round of the scheduler thread
    collects the due tasks under the lock, runs their callbacks outside it and
    computes the time to sleep.  Callbacks are named by [F]; [run] says what a
    callback does to the world [W] and which calls it makes on the scheduler.  The
    clock is an argument of the calls that read it. *)

From Stdlib Require Import ZArith Lia Bool Sorted.
From stdpp Require Import base numbers list option.
From S2P Require Import Prelude.

Open Scope Z_scope.

Inductive TimerError := kSlotsFull | kInvalidPeriod | kNotRunning | kBindFailed | kAlreadyRunning.

Definition kNsPerMs : Z := 1000000.
Definition kDefaultSleepNs : Z := 10000000.
Definition kMinSleepNs : Z := 1000000.
Definition kMaxSleepNs : Z := 10000000.
Definition UINT64_MAX : Z := 2 ^ 64 - 1.

Section Timer.
Context {F : Type} (MaxTasks : Z).

(** [fn] with its [ctx]; [None] is the null pointer. *)
Record TaskSlot := mkTask {
  fn : option F;
  period_ns : Z;
  next_fire_ns : Z;
  slot_id : Z;
  active : bool;
  one_shot : bool
}.
Record TimerScheduler := mkSched { slots_ : list TaskSlot; next_id_ : Z; running_ : bool }.

Definition TimerScheduler_ctor : TimerScheduler :=
  mkSched (replicate (Z.to_nat MaxTasks) (mkTask None 0 0 0 false false)) 1 false.

Definition Capacity : Z := MaxTasks.

(** The common body of Add and AddOneShot. *)
Definition add_task (ms : Z) (f : option F) (once : bool) (now : Z) (s : TimerScheduler) : (Z + TimerError) * TimerScheduler :=
  if ms =? 0 then (inr kInvalidPeriod, s)
  else match f with
  | None => (inr kInvalidPeriod, s)
  | Some _ =>
    match list_find (fun x => active x = false) (slots_ s) with
    | Some (i, _) =>
      let ns := u64 (ms * kNsPerMs) in
      let slot := mkTask f ns (u64 (now + ns)) (next_id_ s) true once in
      (inl (next_id_ s), mkSched (<[i := slot]> (slots_ s)) (u32 (next_id_ s + 1)) (running_ s))
    | None => (inr kSlotsFull, s)
    end
  end.
Definition Add (period_ms : Z) (f : option F) (now : Z) (s : TimerScheduler) : (Z + TimerError) * TimerScheduler :=
  add_task period_ms f false now s.
Definition AddOneShot (delay_ms : Z) (f : option F) (now : Z) (s : TimerScheduler) : (Z + TimerError) * TimerScheduler :=
  add_task delay_ms f true now s.

Definition stop_slot (x : TaskSlot) : TaskSlot := mkTask (fn x) (period_ns x) (next_fire_ns x) (slot_id x) false (one_shot x).

(** The result is the error, if any. *)
Definition Remove (id : Z) (s : TimerScheduler) : option TimerError * TimerScheduler :=
  match list_find (fun x => active x = true /\ slot_id x = id) (slots_ s) with
  | Some (i, x) => (None, mkSched (<[i := stop_slot x]> (slots_ s)) (next_id_ s) (running_ s))
  | None => (Some kNotRunning, s)
  end.

Definition TaskCount (s : TimerScheduler) : Z :=
  fold_left (fun count x => if active x then u32 (count + 1) else count) (slots_ s) 0.

Fixpoint to_next (now m : Z) (l : list TaskSlot) : Z :=
  match l with
  | [] => m
  | x :: l =>
    if active x then
      if next_fire_ns x <=? now then 0
      else let remaining := u64 (next_fire_ns x - now) in to_next now (if remaining <? m then remaining else m) l
    else to_next now m l
  end.
Definition NsToNextTask (now : Z) (s : TimerScheduler) : Z := to_next now UINT64_MAX (slots_ s).

(** [ok]: whether the thread could be started. *)
Definition Start (ok : bool) (s : TimerScheduler) : option TimerError * TimerScheduler :=
  if running_ s then (Some kAlreadyRunning, s)
  else if ok then (None, mkSched (slots_ s) (next_id_ s) true)
  else (Some kNotRunning, mkSched (slots_ s) (next_id_ s) false).
Definition Stop (s : TimerScheduler) : TimerScheduler := mkSched (slots_ s) (next_id_ s) false.
Definition IsRunning (s : TimerScheduler) : bool := running_ s.

(** ** One round of ScheduleLoop *)

(** [while (next_fire_ns <= now) next_fire_ns += period_ns], with fuel. *)
Fixpoint catch_up (fuel : nat) (now period next : Z) : option Z :=
  if next <=? now then match fuel with O => None | S fuel => catch_up fuel now period (u64 (next + period)) end
  else Some next.
Definition catch_up_fuel (now period next : Z) : nat := S (Z.to_nat ((now - next) / period)).

(** A slot in phase 1: what becomes of it, and the callback to run; [None] would be
    a null callback. *)
Definition fire_slot (now : Z) (x : TaskSlot) : option (TaskSlot * list F) :=
  if next_fire_ns x <=? now then
    f ← fn x;
    let pending := [f] in
    if one_shot x then Some (stop_slot x, pending)
    else
      let next := u64 (next_fire_ns x + period_ns x) in
      next ← catch_up (catch_up_fuel now (period_ns x) next) now (period_ns x) next;
      Some (mkTask (fn x) (period_ns x) next (slot_id x) (active x) (one_shot x), pending)
  else Some (x, []).

(** Phase 1 over the slots: the new slots, the pending callbacks in order, and
    [min_remaining]. *)
Fixpoint collect (now m : Z) (l : list TaskSlot) : option (list TaskSlot * list F * Z) :=
  match l with
  | [] => Some ([], [], m)
  | x :: l =>
    if active x then
      '(x, p) ← fire_slot now x;
      let m :=
        if active x then
          let remaining := if now <? next_fire_ns x then u64 (next_fire_ns x - now) else 0 in
          if remaining <? m then remaining else m
        else m in
      '(l, ps, m) ← collect now m l;
      Some (x :: l, p ++ ps, m)
    else '(l, ps, m) ← collect now m l; Some (x :: l, ps, m)
  end.

(** Phase 3: how long the thread sleeps, if at all. *)
Definition sleep_ns (min_remaining : Z) : option Z :=
  let ns := if min_remaining =? UINT64_MAX then kDefaultSleepNs else min_remaining in
  let ns := if kMaxSleepNs <? ns then kMaxSleepNs else ns in
  if kMinSleepNs <=? ns then Some ns else None.

(** Calls a callback makes on the scheduler, with the time it makes them. *)
Inductive TimerCall :=
| CAdd (ms : Z) (f : option F) (now : Z) | CAddOneShot (ms : Z) (f : option F) (now : Z) | CRemove (id : Z).
Definition apply_call (c : TimerCall) (s : TimerScheduler) : TimerScheduler :=
  match c with
  | CAdd ms f now => (Add ms f now s).2
  | CAddOneShot ms f now => (AddOneShot ms f now s).2
  | CRemove id => (Remove id s).2
  end.

Context {W : Type} (run : F -> W -> W * list TimerCall).

Definition run_callback (x : TimerScheduler * W) (f : F) : TimerScheduler * W :=
  let '(w, calls) := run f x.2 in (fold_left (fun s c => apply_call c s) calls x.1, w).

Definition ScheduleRound (now : Z) (x : TimerScheduler * W) : option (option Z * (TimerScheduler * W)) :=
  let '(s, w) := x in
  '(l, pending, m) ← collect now UINT64_MAX (slots_ s);
  let x := fold_left run_callback pending (mkSched l (next_id_ s) (running_ s), w) in
  Some (sleep_ns m, x).

(** ** The specification *)

Record Task := mkT { t_fn : F; t_period : Z; t_next : Z; t_id : Z; t_once : bool }.
Record TSpec := mkTS { ts_tasks : list (option Task); ts_id : Z; ts_running : bool }.
Definition ts_fresh : TSpec := mkTS (replicate (Z.to_nat MaxTasks) None) 1 false.

Definition spec_add (ms : Z) (f : option F) (once : bool) (now : Z) (s : TSpec) : (Z + TimerError) * TSpec :=
  match f, list_find (fun o => o = None) (ts_tasks s) with
  | Some f, Some (i, _) =>
    if ms =? 0 then (inr kInvalidPeriod, s)
    else (inl (ts_id s), mkTS (<[i := Some (mkT f (ms * 1000000) (now + ms * 1000000) (ts_id s) once)]> (ts_tasks s)) (u32 (ts_id s + 1)) (ts_running s))
  | None, _ => (inr kInvalidPeriod, s)
  | _, None => (inr (if ms =? 0 then kInvalidPeriod else kSlotsFull), s)
  end.
Definition spec_remove (id : Z) (s : TSpec) : option TimerError * TSpec :=
  match list_find (fun o => t_id <$> o = Some id) (ts_tasks s) with
  | Some (i, _) => (None, mkTS (<[i := None]> (ts_tasks s)) (ts_id s) (ts_running s))
  | None => (Some kNotRunning, s)
  end.

(** Firing at [now]: a periodic task keeps its phase and skips the periods that have
    passed; a one-shot task is gone. *)
Definition due (now : Z) (t : Task) : bool := t_next t <=? now.
Definition after_fire (now : Z) (t : Task) : option Task :=
  if t_once t then None
  else Some (mkT (t_fn t) (t_period t) (t_next t + ((now - t_next t) / t_period t + 1) * t_period t) (t_id t) (t_once t)).
Definition spec_fire (now : Z) (o : option Task) : option Task :=
  match o with Some t => if due now t then after_fire now t else Some t | None => None end.
Definition due_fns (now : Z) (l : list (option Task)) : list F := t_fn <$> filter (fun t => due now t = true) (omap id l).
Definition min_left (now : Z) (l : list (option Task)) : Z :=
  fold_left (fun m t => Z.min m (t_next t - now)) (omap id l) UINT64_MAX.

Definition spec_call (c : TimerCall) (s : TSpec) : TSpec :=
  match c with
  | CAdd ms f now => (spec_add ms f false now s).2
  | CAddOneShot ms f now => (spec_add ms f true now s).2
  | CRemove id => (spec_remove id s).2
  end.
Definition spec_callback (x : TSpec * W) (f : F) : TSpec * W :=
  let '(w, calls) := run f x.2 in (fold_left (fun s c => spec_call c s) calls x.1, w).
(** All due callbacks run, in slot order, after the table has been brought up to date;
    then the thread sleeps until the next task is due, at most 10 ms, and not at all
    for less than 1 ms. *)
Definition spec_round (now : Z) (x : TSpec * W) : option Z * (TSpec * W) :=
  let '(s, w) := x in
  let l := spec_fire now <$> ts_tasks s in
  let d := Z.min (min_left now l) 10000000 in
  (if 1000000 <=? d then Some d else None, fold_left spec_callback (due_fns now (ts_tasks s)) (mkTS l (ts_id s) (ts_running s), w)).

(** ** Calls *)

Inductive TimerOp :=
| TAdd (ms : Z) (f : option F) (now : Z) | TAddOneShot (ms : Z) (f : option F) (now : Z) | TRemove (id : Z)
| TCount | TToNext (now : Z) | TStart (ok : bool) | TStop | TIsRunning | TRound (now : Z).
Inductive TimerRes := TRId (r : Z + TimerError) | TRErr (e : option TimerError) | TRNum (n : Z) | TRBool (b : bool) | TRSleep (o : option Z).

Definition timer_op (o : TimerOp) (x : TimerScheduler * W) : option (TimerRes * (TimerScheduler * W)) :=
  let '(s, w) := x in
  match o with
  | TAdd ms f now => let '(r, s) := Add ms f now s in Some (TRId r, (s, w))
  | TAddOneShot ms f now => let '(r, s) := AddOneShot ms f now s in Some (TRId r, (s, w))
  | TRemove id => let '(e, s) := Remove id s in Some (TRErr e, (s, w))
  | TCount => Some (TRNum (TaskCount s), x)
  | TToNext now => Some (TRNum (NsToNextTask now s), x)
  | TStart ok => let '(e, s) := Start ok s in Some (TRErr e, (s, w))
  | TStop => Some (TRErr None, (Stop s, w))
  | TIsRunning => Some (TRBool (IsRunning s), x)
  | TRound now => '(o, x) ← ScheduleRound now x; Some (TRSleep o, x)
  end.
Fixpoint timer_run (ops : list TimerOp) (x : TimerScheduler * W) : option (list TimerRes * (TimerScheduler * W)) :=
  match ops with
  | [] => Some ([], x)
  | o :: ops => '(r, x) ← timer_op o x; '(rs, x) ← timer_run ops x; Some (r :: rs, x)
  end.

Definition spec_timer_op (o : TimerOp) (x : TSpec * W) : TimerRes * (TSpec * W) :=
  let '(s, w) := x in
  match o with
  | TAdd ms f now => let '(r, s) := spec_add ms f false now s in (TRId r, (s, w))
  | TAddOneShot ms f now => let '(r, s) := spec_add ms f true now s in (TRId r, (s, w))
  | TRemove id => let '(e, s) := spec_remove id s in (TRErr e, (s, w))
  | TCount => (TRNum (Z.of_nat (length (omap id (ts_tasks s)))), x)
  | TToNext now => (TRNum (Z.max 0 (min_left now (ts_tasks s))), x)
  | TStart ok =>
    (TRErr (if ts_running s then Some kAlreadyRunning else if ok then None else Some kNotRunning), (mkTS (ts_tasks s) (ts_id s) (ts_running s || ok), w))
  | TStop => (TRErr None, (mkTS (ts_tasks s) (ts_id s) false, w))
  | TIsRunning => (TRBool (ts_running s), x)
  | TRound now => let '(o, x) := spec_round now x in (TRSleep o, x)
  end.
Fixpoint spec_timer_run (ops : list TimerOp) (x : TSpec * W) : list TimerRes * (TSpec * W) :=
  match ops with
  | [] => ([], x)
  | o :: ops => let '(r, x) := spec_timer_op o x in let '(rs, x) := spec_timer_run ops x in (r :: rs, x)
  end.

(** Machine-width arguments: 32-bit periods, and clocks below 2^62 ns (146 years). *)
Definition clock_ok (now : Z) : Prop := 0 <= now < 2 ^ 62.
Definition call_typed (c : TimerCall) : Prop :=
  match c with CAdd ms _ now | CAddOneShot ms _ now => in_range 32 ms /\ clock_ok now | CRemove _ => True end.
Definition top_typed (o : TimerOp) : Prop :=
  match o with
  | TAdd ms _ now | TAddOneShot ms _ now => in_range 32 ms /\ clock_ok now
  | TToNext now | TRound now => clock_ok now
  | _ => True
  end.

(** ** Simulation *)

Definition task_ok (t : Task) : Prop := 1000000 <= t_period t < 2 ^ 52 /\ 0 <= t_next t < 2 ^ 62 + 2 ^ 52.
Definition slot_of (t : Task) : TaskSlot := mkTask (Some (t_fn t)) (t_period t) (t_next t) (t_id t) true (t_once t).
Definition slot_rel (x : TaskSlot) (o : option Task) : Prop :=
  match o with None => active x = false | Some t => x = slot_of t /\ task_ok t end.

(** Skipping the missed periods. *)
Lemma catch_up_spec fuel now p next :
  1 <= p < 2 ^ 52 -> 0 <= next < 2 ^ 63 -> clock_ok now -> (now - next) / p < Z.of_nat fuel ->
  catch_up fuel now p next = Some (if next <=? now then next + ((now - next) / p + 1) * p else next).
Proof.
  intros Hp. revert next. induction fuel as [|fuel IH]; intros next Hn Hc Hf; unfold clock_ok in *.
  { simpl in *. destruct (Z.leb_spec next now); [|done]. pose proof (Z.div_pos (now - next) p). lia. }
  cbn [catch_up]. destruct (Z.leb_spec next now) as [Hle|]; [|done]. rewrite wrap_small by (unfold in_range; lia).
  assert (E : (now - (next + p)) / p = (now - next) / p - 1).
  { replace (now - (next + p)) with (now - next + (-1) * p) by lia. rewrite Z.div_add by lia. lia. }
  rewrite IH by (rewrite ?E; lia). rewrite E. destruct (Z.leb_spec (next + p) now); f_equal; [lia|].
  rewrite (Z.div_small (now - next) p) by lia. lia.
Qed.

Lemma fire_slot_rel now t :
  task_ok t -> clock_ok now ->
  exists x, fire_slot now (slot_of t) = Some (x, if due now t then [t_fn t] else []) /\ slot_rel x (spec_fire now (Some t)) /\
    forall t', spec_fire now (Some t) = Some t' -> now < t_next t'.
Proof.
  intros [Hp Hn] Hc. unfold fire_slot, due, spec_fire, after_fire, clock_ok in *. cbn [next_fire_ns slot_of fn mbind option_bind].
  unfold due. destruct (Z.leb_spec (t_next t) now) as [Hd|Hd].
  2: { eexists. split; [done|]. split; [done|]. intros t' [= <-]. done. }
  cbn [one_shot slot_of period_ns]. destruct (t_once t) eqn:Eo.
  { eexists. split; [done|]. split; [done|]. done. }
  rewrite wrap_small by (unfold in_range; lia). set (q := (now - t_next t) / t_period t).
  assert (E : (now - (t_next t + t_period t)) / t_period t = q - 1).
  { unfold q. replace (now - (t_next t + t_period t)) with (now - t_next t + (-1) * t_period t) by lia. rewrite Z.div_add by lia. lia. }
  assert (Hq : q * t_period t <= now - t_next t < (q + 1) * t_period t).
  { unfold q. pose proof (Z.mul_div_le (now - t_next t) (t_period t)). pose proof (Z.mul_succ_div_gt (now - t_next t) (t_period t)). lia. }
  rewrite catch_up_spec; [|lia|lia|done|unfold catch_up_fuel; lia]. rewrite E. cbn [mbind option_bind].
  replace (if t_next t + t_period t <=? now then t_next t + t_period t + (q - 1 + 1) * t_period t else t_next t + t_period t)
    with (t_next t + (q + 1) * t_period t).
  2: { destruct (Z.leb_spec (t_next t + t_period t) now); [lia|]. assert (q = 0) as ->; [|lia]. unfold q. apply Z.div_small. lia. }
  eexists. split; [done|]. split.
  - split; [done|]. split; simpl; [done|lia].
  - intros t' [= <-]. simpl. lia.
Qed.

Lemma collect_rel now m l k :
  Forall2 slot_rel l k -> clock_ok now ->
  exists l', collect now m l = Some (l', due_fns now k, fold_left (fun m t => Z.min m (t_next t - now)) (omap id (spec_fire now <$> k)) m) /\
    Forall2 slot_rel l' (spec_fire now <$> k).
Proof.
  intros Hl Hc. revert m. induction Hl as [|x o l k Hx Hl IH]; intros m; [by exists []|]. cbn [collect].
  destruct o as [t|]; simpl in Hx; cycle 1.
  { rewrite Hx. destruct (IH m) as (l' & -> & Hl'). eexists. split; [done|]. by constructor. }
  destruct Hx as [-> Ht]. cbn [active slot_of]. destruct (fire_slot_rel now t Ht Hc) as (x' & -> & Hx' & Hlt). cbn [mbind option_bind].
  destruct (spec_fire now (Some t)) as [t'|] eqn:Ef; simpl in Hx'.
  - destruct Hx' as [-> Ht']. specialize (Hlt t' eq_refl). cbn [active slot_of next_fire_ns]. rewrite (proj2 (Z.ltb_lt _ _) Hlt).
    destruct Ht' as [Hp' Hn']. unfold clock_ok in Hc. rewrite wrap_small by (unfold in_range; lia).
    replace (if t_next t' - now <? m then t_next t' - now else m) with (Z.min m (t_next t' - now)).
    2: { destruct (Z.ltb_spec (t_next t' - now) m); lia. }
    destruct (IH (Z.min m (t_next t' - now))) as (l' & -> & Hl'). eexists. split.
    + rewrite fmap_cons, Ef. cbn [omap list_omap mbind option_bind id fold_left]. unfold due_fns at 2. cbn [omap list_omap id]. rewrite filter_cons.
      by destruct (due now t).
    + rewrite fmap_cons, Ef. constructor; [|done]. by split.
  - rewrite Hx'. destruct (IH m) as (l' & -> & Hl'). eexists. split.
    + rewrite fmap_cons, Ef. cbn [omap list_omap mbind option_bind id]. unfold due_fns at 2. cbn [omap list_omap id]. rewrite filter_cons.
      by destruct (due now t).
    + rewrite fmap_cons, Ef. by constructor.
Qed.

Record tr (s : TimerScheduler) (x : TSpec) : Prop := {
  tr_slots : Forall2 slot_rel (slots_ s) (ts_tasks x);
  tr_id : next_id_ s = ts_id x;
  tr_running : running_ s = ts_running x
}.

Lemma add_rel s x ms f once now :
  tr s x -> in_range 32 ms -> clock_ok now ->
  (add_task ms f once now s).1 = (spec_add ms f once now x).1 /\ tr (add_task ms f once now s).2 (spec_add ms f once now x).2.
Proof.
  intros [Hs Hi Hr] Hms Hc. unfold add_task, spec_add, clock_ok, in_range in *.
  pose proof (list_find_rel slot_rel (fun x => active x = false) (fun o => o = None) _ _ Hs) as Hf.
  specialize (Hf ltac:(intros y [t|]; simpl; [intros [-> _]|]; naive_solver)).
  destruct f as [f|]; [|by destruct (ms =? 0)].
  destruct (list_find _ (slots_ s)) as [ [i y]|], (list_find _ (ts_tasks x)) as [ [j o]|]; try done; destruct (Z.eqb_spec ms 0); try done.
  destruct Hf as (-> & _ & _ & _). unfold kNsPerMs. rewrite (wrap_small 64 (ms * 1000000)) by (unfold in_range; lia).
  rewrite (wrap_small 64 (now + ms * 1000000)) by (unfold in_range; lia). split; [simpl; by rewrite Hi|].
  split; simpl; [|by rewrite Hi|done]. apply Forall2_insert; [done|]. split; [by rewrite Hi|]. split; simpl; lia.
Qed.

Lemma remove_rel s x id : tr s x -> (Remove id s).1 = (spec_remove id x).1 /\ tr (Remove id s).2 (spec_remove id x).2.
Proof.
  intros [Hs Hi Hr]. unfold Remove, spec_remove.
  pose proof (list_find_rel slot_rel (fun x => active x = true /\ slot_id x = id) (fun o => t_id <$> o = Some id) _ _ Hs) as Hf.
  assert (Hr' : forall y o, slot_rel y o -> active y = true /\ slot_id y = id <-> t_id <$> o = Some id).
  { intros y [t|]; simpl; [intros [-> _]; simpl; split; [by intros [_ ->]|by intros [= ->]]|]. intros ->. split; [by intros [? _]|done]. }
  specialize (Hf Hr').
  destruct (list_find _ (slots_ s)) as [ [i y]|], (list_find _ (ts_tasks x)) as [ [j o]|]; try done.
  destruct Hf as (-> & _). split; [done|]. split; simpl; try done. by apply Forall2_insert.
Qed.

Context (Hrun : forall f w, Forall call_typed (run f w).2).

Lemma calls_tr calls s x : Forall call_typed calls -> tr s x ->
  tr (fold_left (fun s c => apply_call c s) calls s) (fold_left (fun s c => spec_call c s) calls x).
Proof.
  intros Hc. revert s x. induction Hc as [|c calls Hc _ IH]; intros s x Hs; [done|]. simpl. apply IH.
  destruct c; simpl in *; [apply add_rel; tauto..|by apply remove_rel].
Qed.

Lemma callbacks_tr fs s x w :
  tr s x -> exists s', fold_left run_callback fs (s, w) = (s', (fold_left spec_callback fs (x, w)).2) /\ tr s' (fold_left spec_callback fs (x, w)).1.
Proof.
  revert s x w. induction fs as [|f fs IH]; intros s x w Hs; [by exists s|]. cbn [fold_left]. unfold run_callback at 2, spec_callback at 2 4. cbn [fst snd].
  pose proof (Hrun f w) as Hc. destruct (run f w) as [w' calls]. cbn [snd] in Hc. by apply IH, calls_tr.
Qed.

Lemma round_rel s x w now :
  tr s x -> clock_ok now ->
  exists s', ScheduleRound now (s, w) = Some ((spec_round now (x, w)).1, (s', (spec_round now (x, w)).2.2)) /\ tr s' (spec_round now (x, w)).2.1.
Proof.
  intros Hs Hc. unfold ScheduleRound, spec_round. destruct (collect_rel now UINT64_MAX _ _ (tr_slots _ _ Hs) Hc) as (l & -> & Hl).
  cbn [mbind option_bind fst snd].
  assert (Hs' : tr (mkSched l (next_id_ s) (running_ s)) (mkTS (spec_fire now <$> ts_tasks x) (ts_id x) (ts_running x))) by (destruct Hs; by split).
  destruct (callbacks_tr (due_fns now (ts_tasks x)) _ _ w Hs') as (s' & -> & Hs2). exists s'. split; [|done]. f_equal. f_equal.
  unfold sleep_ns, min_left, kMaxSleepNs, kMinSleepNs, kDefaultSleepNs. set (m := fold_left _ _ _).
  destruct (Z.eqb_spec m UINT64_MAX) as [->|]; [done|]. destruct (Z.ltb_spec 10000000 m); [rewrite Z.min_r by lia|rewrite Z.min_l by lia]; done.
Qed.

Lemma count_rel l k c :
  Forall2 slot_rel l k -> 0 <= c -> c + Z.of_nat (length k) < 2 ^ 32 ->
  fold_left (fun count x => if active x then u32 (count + 1) else count) l c = c + Z.of_nat (length (omap id k)).
Proof.
  intros Hl. revert c. induction Hl as [|x o l k Hx Hl IH]; intros c Hc Hb; [simpl; lia|]. cbn [fold_left length] in *.
  destruct o as [t|]; simpl in Hx.
  - destruct Hx as [-> _]. cbn [active slot_of]. rewrite wrap_small by (unfold in_range; lia). rewrite IH by lia. cbn [omap list_omap id length]. lia.
  - rewrite Hx. apply IH; lia.
Qed.

Lemma min_fold_le now (l : list Task) m : fold_left (fun m t => Z.min m (t_next t - now)) l m <= m.
Proof. revert m. induction l as [|t l IH]; intros m; simpl; [lia|]. specialize (IH (Z.min m (t_next t - now))). lia. Qed.

Lemma to_next_rel now m l k :
  Forall2 slot_rel l k -> clock_ok now -> 0 <= m ->
  to_next now m l = Z.max 0 (fold_left (fun m t => Z.min m (t_next t - now)) (omap id k) m).
Proof.
  intros Hl Hc. revert m. induction Hl as [|x o l k Hx Hl IH]; intros m Hm; [simpl; lia|]. cbn [to_next].
  destruct o as [t|]; simpl in Hx; [|rewrite Hx; by apply IH]. destruct Hx as [-> [_ Hn] ]. cbn [active slot_of next_fire_ns].
  cbn [omap list_omap id fold_left]. unfold clock_ok in Hc. destruct (Z.leb_spec (t_next t) now) as [Hle|Hlt].
  - pose proof (min_fold_le now (omap id k) (Z.min m (t_next t - now))). lia.
  - rewrite wrap_small by (unfold in_range; lia). rewrite IH; [|destruct (_ <? _); lia]. f_equal. f_equal.
    destruct (Z.ltb_spec (t_next t - now) m); lia.
Qed.

Lemma add_length ms f once now x : length (ts_tasks (spec_add ms f once now x).2) = length (ts_tasks x).
Proof. unfold spec_add. destruct f; [|done]. destruct (list_find _ (ts_tasks x)) as [ [? ?]|]; [|done]. destruct (ms =? 0); simpl; by rewrite ?length_insert. Qed.
Lemma remove_length id x : length (ts_tasks (spec_remove id x).2) = length (ts_tasks x).
Proof. unfold spec_remove. destruct (list_find _ (ts_tasks x)) as [ [? ?]|]; simpl; by rewrite ?length_insert. Qed.
Lemma callbacks_length fs x w : length (ts_tasks (fold_left spec_callback fs (x, w)).1) = length (ts_tasks x).
Proof.
  revert x w. induction fs as [|f fs IH]; intros x w; [done|]. cbn [fold_left]. unfold spec_callback at 2. cbn [fst snd]. destruct (run f w) as [w' calls].
  rewrite IH. clear IH. revert x. induction calls as [|c calls IH]; intros x; [done|]. simpl. rewrite IH.
  destruct c; simpl; [apply add_length..|apply remove_length].
Qed.

(** The table keeps its size. *)
Definition sized (x : TSpec) : Prop := Z.of_nat (length (ts_tasks x)) < 2 ^ 32.

Lemma timer_op_rel o s x w :
  tr s x -> sized x -> top_typed o ->
  exists s', timer_op o (s, w) = Some ((spec_timer_op o (x, w)).1, (s', (spec_timer_op o (x, w)).2.2)) /\
    tr s' (spec_timer_op o (x, w)).2.1 /\ sized (spec_timer_op o (x, w)).2.1.
Proof.
  intros Hs Hz Ho. destruct o; cbn [timer_op spec_timer_op top_typed] in *.
  - unfold Add. destruct (add_rel s x ms f false now Hs) as [E H]; [tauto..|]. pose proof (add_length ms f false now x) as Hl.
    destruct (add_task _ _ _ _ s), (spec_add _ _ _ _ x). simpl in *. subst. eexists. split; [done|]. split; [done|]. unfold sized in *. simpl. by rewrite Hl.
  - unfold AddOneShot. destruct (add_rel s x ms f true now Hs) as [E H]; [tauto..|]. pose proof (add_length ms f true now x) as Hl.
    destruct (add_task _ _ _ _ s), (spec_add _ _ _ _ x). simpl in *. subst. eexists. split; [done|]. split; [done|]. unfold sized in *. simpl. by rewrite Hl.
  - destruct (remove_rel s x id Hs) as [E H]. pose proof (remove_length id x) as Hl.
    destruct (Remove _ s), (spec_remove _ x). simpl in *. subst. eexists. split; [done|]. split; [done|]. unfold sized in *. simpl. by rewrite Hl.
  - exists s. split; [|done]. unfold TaskCount. by rewrite (count_rel _ _ 0 (tr_slots _ _ Hs)) by (unfold sized in Hz; lia).
  - exists s. split; [|done]. unfold NsToNextTask. by rewrite (to_next_rel now _ _ _ (tr_slots _ _ Hs)).
  - unfold Start. rewrite (tr_running _ _ Hs). destruct Hs as [H1 H2 H3]. destruct (ts_running x) eqn:Er, ok; simpl; eexists; (split; [done|]);
      (split; [|done]); split; simpl; done || congruence.
  - eexists. split; [done|]. split; [|done]. destruct Hs. by split.
  - exists s. split; [|done]. unfold IsRunning. by rewrite (tr_running _ _ Hs).
  - destruct (round_rel s x w now Hs Ho) as (s' & -> & Hs'). exists s'. destruct (spec_round now (x, w)) as [o [x' w'] ] eqn:E. split; [done|].
    split; [done|]. unfold sized. simpl in *. injection E as _ E. pose proof (callbacks_length (due_fns now (ts_tasks x)) (mkTS (spec_fire now <$> ts_tasks x) (ts_id x) (ts_running x)) w) as Hl.
    rewrite E in Hl. simpl in Hl. by rewrite Hl, length_fmap.
Qed.

Lemma timer_run_rel ops s x w :
  tr s x -> sized x -> Forall top_typed ops ->
  exists s', timer_run ops (s, w) = Some ((spec_timer_run ops (x, w)).1, (s', (spec_timer_run ops (x, w)).2.2)) /\
    tr s' (spec_timer_run ops (x, w)).2.1 /\ sized (spec_timer_run ops (x, w)).2.1.
Proof.
  intros Hs Hz Ho. revert s x w Hs Hz. induction Ho as [|o ops Ho _ IH]; intros s x w Hs Hz; [by exists s|]. cbn [timer_run spec_timer_run].
  destruct (timer_op_rel o s x w Hs Hz Ho) as (s1 & -> & Hs1 & Hz1). cbn [mbind option_bind].
  destruct (spec_timer_op o (x, w)) as [r [x1 w1] ]. cbn [fst snd] in *. destruct (IH s1 x1 w1 Hs1 Hz1) as (s2 & -> & Hs2).
  exists s2. by destruct (spec_timer_run ops (x1, w1)).
Qed.

Lemma timer_start_rel : 0 <= MaxTasks < 2 ^ 32 -> tr TimerScheduler_ctor ts_fresh /\ sized ts_fresh.
Proof.
  intros HM. split; [|unfold sized; simpl; rewrite length_replicate; lia]. split; simpl; try done.
  induction (Z.to_nat MaxTasks); simpl; by constructor.
Qed.

End Timer.
Arguments TimerOp : clear implicits.
Arguments TimerCall : clear implicits.
Arguments TSpec : clear implicits.
Arguments Task : clear implicits.

(** C25. Refinement: any run of the timer, with callbacks that add and remove tasks
    themselves, returns what the table of tasks returns: the same ids and errors,
    counts, running flag and time to the next task; in a round exactly the due
    callbacks run, in slot order; a periodic task that is due moves to the first
    multiple of its period after now, however many it has missed, and a one-shot
    task disappears; the catch-up loop terminates, and the thread sleeps to the
    next due time but at most 10 ms, or not at all below 1 ms. *)
Theorem timer_refines {F W} MaxTasks (run : F -> W -> W * list (TimerCall F)) ops w :
  0 <= MaxTasks < 2 ^ 32 -> (forall f w, Forall call_typed (run f w).2) -> Forall top_typed ops ->
  let spec := spec_timer_run run ops (ts_fresh MaxTasks, w) in
  exists s, timer_run run ops (TimerScheduler_ctor MaxTasks, w) = Some (spec.1, (s, spec.2.2)).
Proof.
  intros HM Hr Ho. destruct (timer_start_rel (F := F) MaxTasks HM) as [Hs Hz].
  destruct (timer_run_rel run Hr ops _ _ w Hs Hz Ho) as (s & E & _). by exists s.
Qed.

(** ** Periodic tasks keep their phase *)

Section Phase.
Context {F : Type} `{!EqDecision F} (f : F).

(** Callbacks that only record that they ran. *)
Definition logged : F -> list F -> list F * list (TimerCall F) := fun g w => (w ++ [g], []).
Definition firings (w : list F) : Z := Z.of_nat (length (filter (fun g => g = f) w)).

(** How often rounds at the times [taus] find that another multiple of [p] since
    [t0] has passed. *)
Fixpoint boundaries (t0 p prev : Z) (taus : list Z) : Z :=
  match taus with
  | [] => 0
  | t :: taus => (if (prev - t0) / p <? (t - t0) / p then 1 else 0) + boundaries t0 p t taus
  end.

(** [j] is the only slot with the callback [f]. *)
Definition only (j : nat) (t : Task F) (l : list (option (Task F))) : Prop :=
  l !! j = Some (Some t) /\ t_fn t = f /\ forall i t', i <> j -> l !! i = Some (Some t') -> t_fn t' <> f.

Lemma firings_app a b : firings (a ++ b) = firings a + firings b.
Proof. unfold firings. rewrite list.filter_app, length_app. lia. Qed.

Lemma firings_none (l : list F) : (forall g, g ∈ l -> g <> f) -> firings l = 0.
Proof.
  unfold firings. induction l as [|g l IH]; intros Hl; [done|]. rewrite filter_cons.
  destruct (decide (g = f)) as [->|_]; [by destruct (Hl f); [left|]|]. apply IH. intros g' Hg'. apply Hl. by right.
Qed.

(** Callbacks come from the table. *)
Lemma due_fns_elem now (l : list (option (Task F))) g : g ∈ due_fns now l -> exists i t, l !! i = Some (Some t) /\ t_fn t = g.
Proof.
  unfold due_fns. intros (t & -> & [_ Ht]%list_elem_of_filter)%list_elem_of_fmap.
  apply list_elem_of_omap in Ht as (o & Ho & Hid). simpl in Hid. subst o. apply list_elem_of_lookup in Ho as [i Hi]. by exists i, t.
Qed.

Lemma firings_due now j t l : only j t l -> firings (due_fns now l) = if due now t then 1 else 0.
Proof.
  revert l. induction j as [|j IH]; intros [|o l] (Hj & Hf & Hu); try done; simpl in Hj.
  - injection Hj as ->. unfold due_fns. cbn [omap list_omap id]. rewrite filter_cons.
    assert (H0 : firings (due_fns now l) = 0).
    { apply firings_none. intros g (i & t' & Hi & <-)%due_fns_elem. by apply (Hu (S i) t'). }
    unfold due_fns in H0. destruct (due now t); simpl; [|exact H0]. change (firings ([t_fn t] ++ (t_fn <$> filter (fun t => due now t = true) (omap id l))) = 1).
    rewrite firings_app, H0, Hf. unfold firings. rewrite filter_cons. by destruct (decide (f = f)).
  - assert (Ho : only j t l) by (split_and!; [done..|]; intros i t' Hi Hl; apply (Hu (S i)); [lia|done]).
    rewrite <- (IH l Ho). unfold due_fns. destruct o as [t'|]; cbn [omap list_omap id]; [|done]. rewrite filter_cons.
    destruct (due now t'); simpl; [|done]. change (firings ([t_fn t'] ++ (t_fn <$> filter (fun t => due now t = true) (omap id l))) = firings (t_fn <$> filter (fun t => due now t = true) (omap id l))).
    rewrite firings_app. unfold firings at 1. rewrite filter_cons. destruct (decide (t_fn t' = f)) as [E|]; [|done]. by destruct (Hu 0%nat t').
Qed.

Lemma logged_callbacks fs (x : TSpec F) w : fold_left (spec_callback logged) fs (x, w) = (x, w ++ fs).
Proof.
  revert w. induction fs as [|g fs IH]; intros w; cbn [fold_left]; [by rewrite app_nil_r|].
  change (spec_callback logged (x, w) g) with (x, w ++ [g]). rewrite IH. by rewrite <- app_assoc.
Qed.

(** The task at time [prev] of a run: its next firing is the first multiple of the
    period after [prev]. *)
Definition on_phase (t0 p prev : Z) (t : Task F) : Prop :=
  t_once t = false /\ t_period t = p /\ t_next t = t0 + ((prev - t0) / p + 1) * p.

Lemma phase_step t0 p prev now t :
  0 < p -> t0 <= prev <= now -> on_phase t0 p prev t ->
  due now t = ((prev - t0) / p <? (now - t0) / p) /\
  exists t', spec_fire now (Some t) = Some t' /\ t_fn t' = t_fn t /\ on_phase t0 p now t'.
Proof.
  intros Hp Hle (Ho & Hper & Hn). assert (Hm : (prev - t0) / p <= (now - t0) / p) by (apply Z.div_le_mono; lia).
  assert (Hd : due now t = ((prev - t0) / p <? (now - t0) / p)).
  { unfold due. rewrite Hn. pose proof (Z.mul_div_le (now - t0) p). pose proof (Z.mul_succ_div_gt (now - t0) p).
    destruct (Z.ltb_spec ((prev - t0) / p) ((now - t0) / p)); [apply Z.leb_le|apply Z.leb_gt]; nia. }
  split; [done|]. unfold spec_fire. rewrite Hd. destruct (Z.ltb_spec ((prev - t0) / p) ((now - t0) / p)).
  - unfold after_fire. rewrite Ho. eexists. split; [done|]. split; [done|]. split; [done|]. split; [done|]. simpl. rewrite Hper, Hn.
    replace (now - (t0 + ((prev - t0) / p + 1) * p)) with (now - t0 + (- ((prev - t0) / p + 1)) * p) by lia. rewrite Z.div_add by lia. lia.
  - exists t. split; [done|]. split; [done|]. split; [done|]. split; [done|]. rewrite Hn. do 2 f_equal. lia.
Qed.

Lemma rounds_phase taus t0 p prev j t x w :
  0 < p -> t0 <= prev -> Sorted Z.le (prev :: taus) -> only j t (ts_tasks x) -> on_phase t0 p prev t ->
  firings (spec_timer_run logged (TRound <$> taus) (x, w)).2.2 = firings w + boundaries t0 p prev taus.
Proof.
  intros Hp. revert prev t x w. induction taus as [|now taus IH]; intros prev t x w H0 Hs Hon Hph; [simpl; lia|].
  apply Sorted_inv in Hs as [Hs Hh]. inversion Hh as [|? ? Hle]; subst. destruct (phase_step t0 p prev now t Hp ltac:(lia) Hph) as (Hd & t' & Hf & Hfn & Hph').
  cbn [fmap list_fmap spec_timer_run spec_timer_op boundaries]. unfold spec_round. rewrite logged_callbacks.
  specialize (IH now t' (mkTS (spec_fire now <$> ts_tasks x) (ts_id x) (ts_running x)) (w ++ due_fns now (ts_tasks x)) ltac:(lia) Hs).
  destruct (spec_timer_run logged (TRound <$> taus) _) as [rs y]. simpl in *. rewrite IH; [|split_and!|done].
  - rewrite firings_app, (firings_due now j t _ Hon), Hd. lia.
  - destruct Hon as (Hj & _). by rewrite list_lookup_fmap, Hj, <- Hf.
  - destruct Hon as (_ & Hfe & _). congruence.
  - intros i t1 Hi Hl. destruct Hon as (_ & _ & Hu). rewrite list_lookup_fmap in Hl. destruct (ts_tasks x !! i) as [ [t2|] |] eqn:Ei; try done.
    injection Hl as Hl. specialize (Hu i t2 Hi Ei). unfold spec_fire, after_fire in Hl. destruct (due now t2); [|by injection Hl as <-].
    destruct (t_once t2); [done|]. by injection Hl as <-.
Qed.

(** Operations that bring no task with the callback. *)
Definition without_f (o : TimerOp F) : Prop := match o with TAdd _ g _ | TAddOneShot _ g _ => g <> Some f | _ => True end.
Definition lacks (l : list (option (Task F))) : Prop := forall i t, l !! i = Some (Some t) -> t_fn t <> f.

Lemma lacks_insert l i o : lacks l -> (forall t, o = Some t -> t_fn t <> f) -> lacks (<[i := o]> l).
Proof.
  intros Hl Ho k t Hk. apply list_lookup_insert_Some in Hk as [(_ & E & _)|(_ & Hk)]; [by apply Ho|by apply (Hl k)].
Qed.

Lemma lacks_fire now l : lacks l -> lacks (spec_fire now <$> l).
Proof.
  intros Hl i t Hi. rewrite list_lookup_fmap in Hi. destruct (l !! i) as [ [t2|] |] eqn:Ei; try done. injection Hi as Hi. specialize (Hl i t2 Ei).
  unfold spec_fire, after_fire in Hi. destruct (due now t2); [|by injection Hi as <-]. destruct (t_once t2); [done|]. by injection Hi as <-.
Qed.

Lemma lacks_op o x w :
  without_f o -> lacks (ts_tasks x) -> firings w = 0 ->
  lacks (ts_tasks (spec_timer_op logged o (x, w)).2.1) /\ firings (spec_timer_op logged o (x, w)).2.2 = 0.
Proof.
  intros Ho Hl Hw. assert (Hadd : forall ms g once now, g <> Some f -> lacks (ts_tasks (spec_add ms g once now x).2)).
  { intros ms g once now Hg. unfold spec_add. destruct g as [g|]; [|done]. destruct (list_find _ (ts_tasks x)) as [ [i o']|]; [|done].
    destruct (ms =? 0); [done|]. apply lacks_insert; [done|]. intros t [= <-]. simpl. congruence. }
  destruct o; cbn [spec_timer_op without_f] in *; try done.
  - specialize (Hadd ms f0 false now Ho). by destruct (spec_add ms f0 false now x).
  - specialize (Hadd ms f0 true now Ho). by destruct (spec_add ms f0 true now x).
  - assert (lacks (ts_tasks (spec_remove id x).2)); [|by destruct (spec_remove id x)]. unfold spec_remove.
    destruct (list_find _ (ts_tasks x)) as [ [i o']|]; [|done]. by apply lacks_insert.
  - unfold spec_round. rewrite logged_callbacks. simpl. split; [by apply lacks_fire|]. rewrite firings_app, Hw.
    rewrite firings_none; [done|]. intros g (i & t & Hi & <-)%due_fns_elem. by apply (Hl i).
Qed.

Lemma lacks_run ops x w :
  Forall without_f ops -> lacks (ts_tasks x) -> firings w = 0 ->
  lacks (ts_tasks (spec_timer_run logged ops (x, w)).2.1) /\ firings (spec_timer_run logged ops (x, w)).2.2 = 0.
Proof.
  intros Ho. revert x w. induction Ho as [|o ops Ho _ IH]; intros x w Hl Hw; [done|]. cbn [spec_timer_run].
  destruct (lacks_op o x w Ho Hl Hw) as [H1 H2]. destruct (spec_timer_op logged o (x, w)) as [r [x1 w1] ]. specialize (IH x1 w1 H1 H2).
  by destruct (spec_timer_run logged ops (x1, w1)).
Qed.

End Phase.

(** Periodic tasks do not drift: after any use of the timer, a task added at
    time t0 with a period of ms milliseconds fires, over any rounds at times that do
    not go back, exactly once in every round by which another multiple of its period
    since t0 has passed, whatever the other tasks do and however late rounds are. *)
Lemma timer_periodic_on_phase {F} `{!EqDecision F} (f : F) MaxTasks ops rs x ms t0 id s1 taus :
  0 <= MaxTasks < 2 ^ 32 -> Forall top_typed ops -> Forall (without_f f) ops ->
  timer_run logged ops (TimerScheduler_ctor MaxTasks, []) = Some (rs, x) ->
  in_range 32 ms -> clock_ok t0 -> Add ms (Some f) t0 x.1 = (inl id, s1) ->
  Forall clock_ok taus -> Sorted Z.le (t0 :: taus) ->
  exists rs' x', timer_run logged (TRound <$> taus) (s1, x.2) = Some (rs', x') /\
    firings f x'.2 = boundaries t0 (ms * 1000000) t0 taus.
Proof.
  intros HM Ho Hw Hrun Hms Ht0 Hadd Htaus Hs. destruct (timer_start_rel (F := F) MaxTasks HM) as [Hs0 Hz0].
  assert (Hlog : forall g w, Forall call_typed (logged (F := F) g w).2) by (intros; constructor).
  destruct (timer_run_rel logged Hlog ops _ _ [] Hs0 Hz0 Ho) as (s & E & Hs1 & Hz1). rewrite E in Hrun. injection Hrun as _ <-. cbn [fst snd] in *.
  destruct (lacks_run f ops (ts_fresh MaxTasks) [] Hw) as [Hl Hf0].
  { intros i t Hi. simpl in Hi. apply lookup_replicate in Hi as [? _]. done. }
  { done. }
  destruct (spec_timer_run logged ops (ts_fresh MaxTasks, [])) as [rs0 [y w] ]. cbn [fst snd] in *.
  destruct (add_rel s y ms (Some f) false t0 Hs1 Hms Ht0) as [Ha Hs2]. unfold Add in Hadd. rewrite Hadd in Ha, Hs2. cbn [fst snd] in Ha, Hs2.
  pose proof (add_length ms (Some f) false t0 y) as Hlen. unfold spec_add in Ha, Hs2, Hlen.
  destruct (list_find _ (ts_tasks y)) as [ [j o]|] eqn:Ej; destruct (Z.eqb_spec ms 0); try done. cbn [fst snd] in *.
  set (y1 := mkTS _ _ _) in *. destruct (timer_run_rel logged Hlog (TRound <$> taus) s1 y1 w Hs2) as (s3 & E3 & _).
  { unfold sized in *. by rewrite Hlen. }
  { by apply Forall_fmap. }
  eexists _, _. split; [exact E3|]. cbn [snd]. unfold in_range in Hms.
  rewrite (rounds_phase f taus t0 (ms * 1000000) t0 j (mkT f (ms * 1000000) (t0 + ms * 1000000) (ts_id y) false) y1 w); [lia|lia|lia|done| |].
  - apply list_find_Some in Ej as (Hj & _). split_and!; [|done|].
    + simpl. apply list_lookup_insert_eq. by apply lookup_lt_Some in Hj.
    + intros i t' Hi Hy. simpl in Hy. rewrite list_lookup_insert_ne in Hy by done. by apply (Hl i).
  - split; [done|]. split; [done|]. simpl. rewrite Z.sub_diag, Z.div_0_l by lia. lia.
Qed.

(** ** Runs *)

(** The callback 1 removes its own task and starts a one-shot task 9. *)
Definition sample_callbacks : Z -> list Z -> list Z * list (TimerCall Z) :=
  fun f w => (w ++ [f], if f =? 1 then [CRemove 1; CAddOneShot 5 (Some 9) 35000000] else []).
Definition sample_timer : list (TimerOp Z) :=
  [TAdd 10 (Some 1) 0; TAddOneShot 20 (Some 2) 0; TAdd 15 (Some 3) 0; TAdd 5 None 0; TToNext 4000000; TRound 35000000; TCount;
   TRound 40000000; TRemove 1; TCount; TToNext 40000000].

Lemma timer_refines_witness :
  exists s, timer_run sample_callbacks sample_timer (TimerScheduler_ctor 3, []) =
    Some ([TRId (inl 1); TRId (inl 2); TRId (inl 3); TRId (inr kInvalidPeriod); TRNum 6000000; TRSleep (Some 5000000); TRNum 2;
           TRSleep (Some 5000000); TRErr (Some kNotRunning); TRNum 1; TRNum 5000000], (s, [1; 2; 3; 9])).
Proof.
  destruct (timer_refines 3 sample_callbacks sample_timer []) as [s E].
  - lia.
  - intros f w. unfold sample_callbacks. destruct (f =? 1); repeat constructor; done.
  - repeat constructor; done.
  - exists s. rewrite E. vm_compute. reflexivity.
Defined.

(** Rounds at 9, 21, 22 and 58 ms: the task of 10 ms fires in the second and fourth. *)
Lemma timer_periodic_on_phase_witness :
  exists s1 rs' x', Add 10 (Some 7) 0 (TimerScheduler_ctor 2) = (inl 1, s1) /\
    timer_run logged (TRound <$> [9000000; 21000000; 22000000; 58000000]) (s1, []) = Some (rs', x') /\ firings 7 x'.2 = 2.
Proof.
  destruct (timer_periodic_on_phase (F := Z) 7 2 [] [] (TimerScheduler_ctor 2, []) 10 0 1 (Add 10 (Some 7) 0 (TimerScheduler_ctor 2)).2
    [9000000; 21000000; 22000000; 58000000]) as (rs' & x' & E & Ef).
  - lia.
  - constructor.
  - constructor.
  - reflexivity.
  - done.
  - done.
  - reflexivity.
  - repeat constructor; done.
  - repeat constructor; lia.
  - eexists _, rs', x'. split; [reflexivity|]. split; [exact E|]. rewrite Ef. reflexivity.
Defined.

(** Ids are 32-bit and not checked against live tasks: after a wrap-around a new task
    can get the id of one that still runs, and Remove stops the older one. *)
Lemma timer_id_reused :
  let s := mkSched [mkTask (Some 1) 1000000 0 5 true false; mkTask None 0 0 0 false false] 5 true in
  exists s', Add 1 (Some 2) 0 s = (inl 5, s') /\ (fn <$> filter (fun x => active x = true) (slots_ (Remove 5 s').2)) = [Some 2].
Proof. eexists. split; reflexivity. Qed.
