(* ===== verification/Watchdog.v ===== *)
(** * ThreadWatchdog (include/osp/watchdog.hpp)

    Supervision of threads by heartbeat: a fixed table of slots, ids that carry a
    slot's generation, and a check that calls back when a thread times out or
    recovers.  The clock is an argument of the calls that read it; callbacks take the
    id and the name and work on a world [W].  A registered thread also beats through
    the pointer it was given, which stays valid ([Beat]). *)

From Stdlib Require Import ZArith Lia Bool String.
From stdpp Require Import base numbers list option.
From S2P Require Import Prelude.

Open Scope Z_scope.

Inductive WatchdogError := kSlotsFull | kInvalidTimeout | kNotRegistered.

(** WatchdogSlotInfo *)
Record WatchdogSlotInfo := mkInfo { info_slot : Z; info_name : string; info_timeout_us : Z; info_last_beat_us : Z; info_timed_out : bool }.

(** FixedString<32>::assign with truncation. *)
Definition assign_name (s : string) : string := String.substring 0 32 s.

Record Slot := mkSlot { active : bool; generation : Z; last_beat_us : Z; timeout_us : Z; timed_out : bool; name : string }.

Section Watchdog.
Context {W : Type} (MaxThreads : Z).

Definition TimeoutCallback : Type := Z -> string -> W -> W.

Record ThreadWatchdog := mkDog {
  slots_ : list Slot;
  on_timeout_ : option TimeoutCallback;
  on_recovered_ : option TimeoutCallback;
  auto_check_running_ : bool
}.
Definition ThreadWatchdog_ctor : ThreadWatchdog :=
  mkDog (replicate (Z.to_nat MaxThreads) (mkSlot false 0 0 0 false "")) None None false.

Definition kSlotBits : Z :=
  if MaxThreads <=? 2 then 1 else if MaxThreads <=? 4 then 2 else if MaxThreads <=? 8 then 3 else if MaxThreads <=? 16 then 4
  else if MaxThreads <=? 32 then 5 else if MaxThreads <=? 64 then 6 else if MaxThreads <=? 128 then 7 else 8.
Definition kSlotMask : Z := u32 (Z.shiftl 1 kSlotBits - 1).

Definition set_slots (l : list Slot) (d : ThreadWatchdog) : ThreadWatchdog := mkDog l (on_timeout_ d) (on_recovered_ d) (auto_check_running_ d).

(** [(generation << kSlotBits) | i] *)
Definition encode (gen i : Z) : Z := Z.lor (u32 (Z.shiftl gen kSlotBits)) i.
Definition EncodedId (i : Z) (s : Slot) : Z := encode (generation s) i.

(** Register: the id, which also names the slot whose heartbeat is handed out. *)
Definition Register (nm : string) (timeout_ms now : Z) (d : ThreadWatchdog) : (Z + WatchdogError) * ThreadWatchdog :=
  if timeout_ms =? 0 then (inr kInvalidTimeout, d)
  else match list_find (fun s => active s = false) (slots_ d) with
  | Some (i, s) =>
    let gen := u32 (generation s + 1) in
    (inl (encode gen (Z.of_nat i)),
     set_slots (<[i := mkSlot true gen now (u64 (timeout_ms * 1000)) false (assign_name nm)]> (slots_ d)) d)
  | None => (inr kSlotsFull, d)
  end.

(** The slot an id denotes: its index is in range, it is active and of the id's
    generation. *)
Definition resolve (id : Z) (d : ThreadWatchdog) : option (nat * Slot) :=
  let idx := Z.land id kSlotMask in
  let gen := Z.shiftr id kSlotBits in
  if MaxThreads <=? idx then None
  else s ← slots_ d !! Z.to_nat idx;
       if active s && (generation s =? gen) then Some (Z.to_nat idx, s) else None.

Definition Unregister (id : Z) (d : ThreadWatchdog) : option WatchdogError * ThreadWatchdog :=
  match resolve id d with
  | Some (i, s) => (None, set_slots (<[i := mkSlot false (generation s) (last_beat_us s) (timeout_us s) (timed_out s) (name s)]> (slots_ d)) d)
  | None => (Some kNotRegistered, d)
  end.
Definition beat (now : Z) (s : Slot) : Slot := mkSlot (active s) (generation s) now (timeout_us s) (timed_out s) (name s).
Definition Feed (id now : Z) (d : ThreadWatchdog) : ThreadWatchdog :=
  match resolve id d with Some (i, s) => set_slots (<[i := beat now s]> (slots_ d)) d | None => d end.
(** [heartbeat->Beat()] through the pointer into slot [i]. *)
Definition Beat (i : nat) (now : Z) (d : ThreadWatchdog) : ThreadWatchdog := set_slots (alter (beat now) i (slots_ d)) d.

(** ** Check *)

Definition is_timed_out (now : Z) (s : Slot) : bool := (last_beat_us s <? now) && (timeout_us s <? u64 (now - last_beat_us s)).
Definition flag (b : bool) (s : Slot) : Slot := mkSlot (active s) (generation s) (last_beat_us s) (timeout_us s) b (name s).

(** The loop under the lock from slot [i] on: the slots, the pending timeout and
    recovery calls, and the number timed out. *)
Fixpoint check_loop (now i : Z) (on_to on_rec : bool) (l : list Slot) : list Slot * list (Z * string) * list (Z * string) * Z :=
  match l with
  | [] => ([], [], [], 0)
  | s :: l =>
    let '(l', tos, recs, n) := check_loop now (i + 1) on_to on_rec l in
    if active s then
      let out := is_timed_out now s in
      if out && negb (timed_out s) then
        (flag true s :: l', (if on_to then [(EncodedId i s, name s)] else []) ++ tos, recs, u32 (n + 1))
      else if negb out && timed_out s then
        (flag false s :: l', tos, (if on_rec then [(EncodedId i s, name s)] else []) ++ recs, n)
      else (s :: l', tos, recs, if timed_out s then u32 (n + 1) else n)
    else (s :: l', tos, recs, n)
  end.

Definition call_all (f : option TimeoutCallback) (l : list (Z * string)) (w : W) : W :=
  match f with Some f => fold_left (fun w x => f x.1 x.2 w) l w | None => w end.

Definition Check (now : Z) (x : ThreadWatchdog * W) : Z * (ThreadWatchdog * W) :=
  let '(d, w) := x in
  let '(l, tos, recs, n) := check_loop now 0 (bool_decide (is_Some (on_timeout_ d))) (bool_decide (is_Some (on_recovered_ d))) (slots_ d) in
  let w := call_all (on_timeout_ d) tos w in
  (n, (set_slots l d, call_all (on_recovered_ d) recs w)).
Definition CheckTick (now : Z) (x : ThreadWatchdog * W) : ThreadWatchdog * W := (Check now x).2.

Definition SetOnTimeout (f : option TimeoutCallback) (d : ThreadWatchdog) : ThreadWatchdog :=
  mkDog (slots_ d) f (on_recovered_ d) (auto_check_running_ d).
Definition SetOnRecovered (f : option TimeoutCallback) (d : ThreadWatchdog) : ThreadWatchdog :=
  mkDog (slots_ d) (on_timeout_ d) f (auto_check_running_ d).

(** ** Queries *)

Definition IsTimedOut (id : Z) (d : ThreadWatchdog) : bool := match resolve id d with Some (_, s) => timed_out s | None => false end.
Definition ActiveCount (d : ThreadWatchdog) : Z := fold_left (fun n s => if active s then u32 (n + 1) else n) (slots_ d) 0.
Definition TimedOutCount (d : ThreadWatchdog) : Z :=
  fold_left (fun n s => if active s && timed_out s then u32 (n + 1) else n) (slots_ d) 0.
Definition Capacity : Z := MaxThreads.
(** ForEachSlot: what the callback is shown. *)
Fixpoint infos (i : Z) (l : list Slot) : list WatchdogSlotInfo :=
  match l with
  | [] => []
  | s :: l => (if active s then [mkInfo i (name s) (timeout_us s) (last_beat_us s) (timed_out s)] else []) ++ infos (i + 1) l
  end.
Definition ForEachSlot (d : ThreadWatchdog) : list WatchdogSlotInfo := infos 0 (slots_ d).

(** [ok]: whether the thread could be started. *)
Definition StartAutoCheck (interval_ms : Z) (ok : bool) (d : ThreadWatchdog) : ThreadWatchdog :=
  if interval_ms =? 0 then d
  else if auto_check_running_ d then d
  else mkDog (slots_ d) (on_timeout_ d) (on_recovered_ d) ok.
Definition StopAutoCheck (d : ThreadWatchdog) : ThreadWatchdog :=
  if auto_check_running_ d then mkDog (slots_ d) (on_timeout_ d) (on_recovered_ d) false else d.

(** ** WatchdogGuard *)

(** A guard that holds a registration, or none. *)
Record WatchdogGuard := mkGuard { guard_id : Z; guard_valid : bool }.
Definition WatchdogGuard_ctor (nm : string) (timeout_ms now : Z) (d : ThreadWatchdog) : WatchdogGuard * ThreadWatchdog :=
  match Register nm timeout_ms now d with
  | (inl id, d) => (mkGuard id true, d)
  | (inr _, d) => (mkGuard 0 false, d)
  end.
Definition WatchdogGuard_dtor (g : WatchdogGuard) (d : ThreadWatchdog) : ThreadWatchdog :=
  if guard_valid g then (Unregister (guard_id g) d).2 else d.

(** ** The specification *)

(** A slot: how many registrations it has had, and the thread it watches, if any. *)
Record Watch := mkW { w_name : string; w_timeout : Z; w_beat : Z; w_late : bool }.
Abbreviation Place := (Z * option Watch)%type.
Record WSpec := mkWS { ws_table : list Place; ws_timeout : option TimeoutCallback; ws_recovered : option TimeoutCallback; ws_auto : bool }.
Definition ws_fresh : WSpec := mkWS (replicate (Z.to_nat MaxThreads) (0, None)) None None false.
Definition ws_set (l : list Place) (s : WSpec) : WSpec := mkWS l (ws_timeout s) (ws_recovered s) (ws_auto s).

(** The id of the [g]-th registration of slot [i]. *)
Definition id_of (g : Z) (i : nat) : Z := g * 2 ^ kSlotBits + Z.of_nat i.

Definition spec_register (nm : string) (ms now : Z) (s : WSpec) : (Z + WatchdogError) * WSpec :=
  if ms =? 0 then (inr kInvalidTimeout, s)
  else match list_find (fun x : Place => x.2 = None) (ws_table s) with
  | Some (i, (g, _)) => (inl (id_of (g + 1) i), ws_set (<[i := (g + 1, Some (mkW (assign_name nm) (ms * 1000) now false))]> (ws_table s)) s)
  | None => (inr kSlotsFull, s)
  end.
(** The place whose current registration has that id. *)
Fixpoint place_of (id : Z) (i : nat) (l : list Place) : option (nat * Z * Watch) :=
  match l with
  | [] => None
  | (g, Some w) :: l => if id_of g i =? id then Some (i, g, w) else place_of id (S i) l
  | (_, None) :: l => place_of id (S i) l
  end.
Definition spec_unregister (id : Z) (s : WSpec) : option WatchdogError * WSpec :=
  match place_of id 0 (ws_table s) with
  | Some (i, g, _) => (None, ws_set (<[i := (g, None)]> (ws_table s)) s)
  | None => (Some kNotRegistered, s)
  end.
Definition w_fed (now : Z) (w : Watch) : Watch := mkW (w_name w) (w_timeout w) now (w_late w).
Definition spec_feed (id now : Z) (s : WSpec) : WSpec :=
  match place_of id 0 (ws_table s) with
  | Some (i, g, w) => ws_set (<[i := (g, Some (w_fed now w))]> (ws_table s)) s
  | None => s
  end.
Definition spec_beat (i : nat) (now : Z) (s : WSpec) : WSpec :=
  ws_set (alter (fun x : Place => (x.1, w_fed now <$> x.2)) i (ws_table s)) s.

(** Late: the last beat is more than the timeout ago. *)
Definition w_overdue (now : Z) (w : Watch) : bool := w_timeout w <? now - w_beat w.
Definition w_mark (now : Z) (w : Watch) : Watch := mkW (w_name w) (w_timeout w) (w_beat w) (w_overdue now w).
(** Those whose lateness changes to [b]. *)
Fixpoint changed (b : bool) (now : Z) (i : nat) (l : list Place) : list (Z * string) :=
  match l with
  | [] => []
  | (g, Some w) :: l => (if Bool.eqb (w_overdue now w) b && negb (Bool.eqb (w_late w) b) then [(id_of g i, w_name w)] else []) ++ changed b now (S i) l
  | (_, None) :: l => changed b now (S i) l
  end.
Definition watched (l : list Place) : list Watch := omap snd l.
Definition mark_all (now : Z) (l : list Place) : list Place := (fun y : Place => (y.1, w_mark now <$> y.2)) <$> l.
Definition late_ones (l : list Place) : list Watch := filter (fun v => w_late v = true) (watched l).
Definition spec_check (now : Z) (x : WSpec * W) : Z * (WSpec * W) :=
  let '(s, w) := x in
  let l := mark_all now (ws_table s) in
  (Z.of_nat (length (late_ones l)),
   (ws_set l s, call_all (ws_recovered s) (changed false now 0 (ws_table s)) (call_all (ws_timeout s) (changed true now 0 (ws_table s)) w))).

(** ** Calls *)

Inductive DogOp :=
| ORegister (nm : string) (ms now : Z) | OUnregister (id : Z) | OFeed (id now : Z) | OBeat (i : nat) (now : Z) | OCheck (now : Z)
| OOnTimeout (f : option TimeoutCallback) | OOnRecovered (f : option TimeoutCallback)
| OIsTimedOut (id : Z) | OActive | OTimedOut | OForEach | OStartAuto (ms : Z) (ok : bool) | OStopAuto.
Inductive DogRes := RId (r : Z + WatchdogError) | RErr (e : option WatchdogError) | RNone | RNum (n : Z) | RBool (b : bool) | RInfos (l : list WatchdogSlotInfo).

Definition dog_op (o : DogOp) (x : ThreadWatchdog * W) : DogRes * (ThreadWatchdog * W) :=
  let '(d, w) := x in
  match o with
  | ORegister nm ms now => let '(r, d) := Register nm ms now d in (RId r, (d, w))
  | OUnregister id => let '(e, d) := Unregister id d in (RErr e, (d, w))
  | OFeed id now => (RNone, (Feed id now d, w))
  | OBeat i now => (RNone, (Beat i now d, w))
  | OCheck now => let '(n, x) := Check now x in (RNum n, x)
  | OOnTimeout f => (RNone, (SetOnTimeout f d, w))
  | OOnRecovered f => (RNone, (SetOnRecovered f d, w))
  | OIsTimedOut id => (RBool (IsTimedOut id d), x)
  | OActive => (RNum (ActiveCount d), x)
  | OTimedOut => (RNum (TimedOutCount d), x)
  | OForEach => (RInfos (ForEachSlot d), x)
  | OStartAuto ms ok => (RNone, (StartAutoCheck ms ok d, w))
  | OStopAuto => (RNone, (StopAutoCheck d, w))
  end.
Fixpoint dog_run (ops : list DogOp) (x : ThreadWatchdog * W) : list DogRes * (ThreadWatchdog * W) :=
  match ops with
  | [] => ([], x)
  | o :: ops => let '(r, x) := dog_op o x in let '(rs, x) := dog_run ops x in (r :: rs, x)
  end.

Fixpoint spec_infos (i : Z) (l : list Place) : list WatchdogSlotInfo :=
  match l with
  | [] => []
  | (_, Some w) :: l => mkInfo i (w_name w) (w_timeout w) (w_beat w) (w_late w) :: spec_infos (i + 1) l
  | (_, None) :: l => spec_infos (i + 1) l
  end.
Definition spec_dog_op (o : DogOp) (x : WSpec * W) : DogRes * (WSpec * W) :=
  let '(s, w) := x in
  match o with
  | ORegister nm ms now => let '(r, s) := spec_register nm ms now s in (RId r, (s, w))
  | OUnregister id => let '(e, s) := spec_unregister id s in (RErr e, (s, w))
  | OFeed id now => (RNone, (spec_feed id now s, w))
  | OBeat i now => (RNone, (spec_beat i now s, w))
  | OCheck now => let '(n, x) := spec_check now x in (RNum n, x)
  | OOnTimeout f => (RNone, (mkWS (ws_table s) f (ws_recovered s) (ws_auto s), w))
  | OOnRecovered f => (RNone, (mkWS (ws_table s) (ws_timeout s) f (ws_auto s), w))
  | OIsTimedOut id => (RBool (match place_of id 0 (ws_table s) with Some (_, _, v) => w_late v | None => false end), x)
  | OActive => (RNum (Z.of_nat (length (watched (ws_table s)))), x)
  | OTimedOut => (RNum (Z.of_nat (length (late_ones (ws_table s)))), x)
  | OForEach => (RInfos (spec_infos 0 (ws_table s)), x)
  | OStartAuto ms ok => (RNone, (mkWS (ws_table s) (ws_timeout s) (ws_recovered s) (ws_auto s || (negb (ms =? 0) && ok)), w))
  | OStopAuto => (RNone, (mkWS (ws_table s) (ws_timeout s) (ws_recovered s) false, w))
  end.
Fixpoint spec_dog_run (ops : list DogOp) (x : WSpec * W) : list DogRes * (WSpec * W) :=
  match ops with
  | [] => ([], x)
  | o :: ops => let '(r, x) := spec_dog_op o x in let '(rs, x) := spec_dog_run ops x in (r :: rs, x)
  end.

Definition dop_typed (o : DogOp) : Prop :=
  match o with
  | ORegister _ ms now => in_range 32 ms /\ in_range 64 now
  | OUnregister id | OIsTimedOut id => in_range 32 id
  | OFeed id now => in_range 32 id /\ in_range 64 now
  | OBeat _ now | OCheck now => in_range 64 now
  | _ => True
  end.

(** ** Simulation *)

Context (HM : 1 <= MaxThreads <= 256).

Lemma kSlotBits_range : 1 <= kSlotBits <= 8 /\ MaxThreads <= 2 ^ kSlotBits.
Proof.
  unfold kSlotBits. repeat case_bool; (split; [lia|]).
  all: match goal with |- _ <= 2 ^ ?n => let v := eval vm_compute in (2 ^ n) in change (2 ^ n) with v end; lia.
Qed.

Lemma kSlotMask_eq : kSlotMask = 2 ^ kSlotBits - 1.
Proof.
  pose proof kSlotBits_range as [Hb _]. unfold kSlotMask. rewrite Z.shiftl_1_l. apply wrap_small. unfold in_range.
  assert (2 ^ kSlotBits <= 2 ^ 8) by (apply Z.pow_le_mono_r; lia). assert (0 < 2 ^ kSlotBits) by (apply Z.pow_pos_nonneg; lia).
  change (2 ^ 8) with 256 in *. lia.
Qed.

(** Ids encode slot and generation without loss, while generations stay below 2^24. *)
Lemma encode_eq g i : 0 <= g < 2 ^ 24 -> (Z.of_nat i < MaxThreads) -> encode g (Z.of_nat i) = id_of g i.
Proof.
  intros Hg Hi. pose proof kSlotBits_range as [Hb Hm]. unfold encode, id_of.
  assert (0 < 2 ^ kSlotBits <= 256) by (split; [apply Z.pow_pos_nonneg; lia|change 256 with (2 ^ 8); apply Z.pow_le_mono_r; lia]).
  rewrite wrap_small by (rewrite Z.shiftl_mul_pow2 by lia; unfold in_range; nia). rewrite Z.lor_comm, lor_shiftl_add by lia. lia.
Qed.

Definition watch_ok (w : Watch) : Prop := in_range 64 (w_beat w) /\ in_range 64 (w_timeout w).
Definition slot_of (g : Z) (w : Watch) : Slot := mkSlot true g (w_beat w) (w_timeout w) (w_late w) (w_name w).
Definition slot_rel (s : Slot) (x : Place) : Prop :=
  match x with (g, None) => active s = false /\ generation s = g | (g, Some w) => s = slot_of g w /\ watch_ok w end.

(** [k]: a bound on the generations. *)
Record dr (k : Z) (d : ThreadWatchdog) (s : WSpec) : Prop := {
  dr_slots : Forall2 slot_rel (slots_ d) (ws_table s);
  dr_len : Z.of_nat (length (ws_table s)) = MaxThreads;
  dr_gen : Forall (fun x : Place => 0 <= x.1 <= k) (ws_table s);
  dr_timeout : on_timeout_ d = ws_timeout s;
  dr_recovered : on_recovered_ d = ws_recovered s;
  dr_auto : auto_check_running_ d = ws_auto s
}.

Lemma place_of_spec id n (l : list Place) :
  0 <= id -> Z.of_nat n + Z.of_nat (length l) <= 2 ^ kSlotBits -> Forall (fun x : Place => 0 <= x.1) l ->
  place_of id n l =
    let j := Z.to_nat (id mod 2 ^ kSlotBits) in
    if decide (n <= j)%nat then
      match l !! (j - n)%nat with Some (g, Some w) => if g =? id / 2 ^ kSlotBits then Some (j, g, w) else None | _ => None end
    else None.
Proof.
  intros Hid. pose proof kSlotBits_range as [Hb _]. assert (Hp : 0 < 2 ^ kSlotBits) by (apply Z.pow_pos_nonneg; lia).
  pose proof (Z.mod_pos_bound id _ Hp) as Hj. pose proof (Z.div_mod id (2 ^ kSlotBits)) as Hdm. cbv zeta. set (j := Z.to_nat (id mod 2 ^ kSlotBits)).
  revert n. induction l as [|[g o] l IH]; intros n Hn Hg; [simpl; by case_decide|]. cbn [length] in Hn. apply Forall_cons_1 in Hg as [Hg0 Hg].
  specialize (IH (S n) ltac:(lia) Hg). simpl in Hg0. cbn [place_of].
  destruct (decide (j = n)) as [E|Hne].
  - rewrite decide_True by lia. replace (j - n)%nat with O by lia. simpl. rewrite decide_False in IH by lia. destruct o as [w|]; [|done].
    assert (Ei : (id_of g n =? id) = (g =? id / 2 ^ kSlotBits)).
    { unfold id_of. destruct (Z.eqb_spec g (id / 2 ^ kSlotBits)) as [->|Hgn]; [apply Z.eqb_eq; lia|apply Z.eqb_neq].
      intros E'. apply Hgn. apply (Z.div_unique id (2 ^ kSlotBits) g (Z.of_nat n)); lia. }
    rewrite Ei. destruct (g =? _); [by subst|done].
  - assert (Ei : (id_of g n =? id) = false).
    { apply Z.eqb_neq. unfold id_of. intros E'. apply Hne. unfold j. rewrite <- E'. rewrite Z.add_comm, Z.mod_add, Z.mod_small by lia. lia. }
    rewrite Ei. replace (match o with Some w => place_of id (S n) l | None => place_of id (S n) l end) with (place_of id (S n) l) by by destruct o.
    rewrite IH. repeat case_decide; try lia; [|done]. replace (j - n)%nat with (S (j - S n)) by lia. done.
Qed.

(** Decoding an id finds the place with that id. *)
Lemma resolve_rel k d s id :
  dr k d s -> in_range 32 id -> 0 <= k ->
  match resolve id d, place_of id 0 (ws_table s) with
  | Some (i, x), Some (j, g, w) => i = j /\ x = slot_of g w /\ watch_ok w /\ ws_table s !! i = Some (g, Some w)
  | None, None => True
  | _, _ => False
  end.
Proof.
  intros Hd Hid Hk. pose proof kSlotBits_range as [Hb Hm]. assert (Hp : 0 < 2 ^ kSlotBits) by (apply Z.pow_pos_nonneg; lia). unfold in_range in Hid.
  rewrite place_of_spec; [|lia|rewrite (dr_len _ _ _ Hd); simpl; lia|eapply Forall_impl; [|apply (dr_gen _ _ _ Hd)]; intros ? H; simpl in H; lia].
  cbv zeta. rewrite decide_True by lia. rewrite Nat.sub_0_r. unfold resolve. rewrite kSlotMask_eq, land_mask by lia. rewrite Z.shiftr_div_pow2 by lia.
  unfold wrap. pose proof (Z.mod_pos_bound id _ Hp) as Hj. set (j := Z.to_nat (id mod 2 ^ kSlotBits)).
  destruct (Z.leb_spec MaxThreads (id mod 2 ^ kSlotBits)) as [Hge|Hlt].
  { rewrite (lookup_ge_None_2 (ws_table s) j); [done|]. pose proof (dr_len _ _ _ Hd). lia. }
  pose proof (dr_len _ _ _ Hd) as Hl. destruct (lookup_lt_is_Some_2 (ws_table s) j) as [[g o] Ej]; [lia|].
  destruct (Forall2_lookup_r _ _ _ _ _ (dr_slots _ _ _ Hd) Ej) as (x & Ex & Hx). rewrite Ex, Ej. cbn [mbind option_bind].
  destruct o as [w|]; simpl in Hx.
  - destruct Hx as [-> Hw]. cbn [active generation slot_of andb]. by destruct (g =? _).
  - destruct Hx as [-> _]. done.
Qed.

(** Changing one place. *)
Lemma dr_insert k d s i x p :
  dr k d s -> slot_rel x p -> 0 <= p.1 <= k -> dr k (set_slots (<[i := x]> (slots_ d)) d) (ws_set (<[i := p]> (ws_table s)) s).
Proof.
  intros [] Hx Hg. split; simpl; try done; [by apply Forall2_insert|by rewrite length_insert|by apply Forall_insert].
Qed.
Lemma dr_weaken k k' d s : dr k d s -> k <= k' -> dr k' d s.
Proof. intros [] Hk. split; try done. eapply Forall_impl; [|exact dr_gen0]. intros x Hx. simpl in *. lia. Qed.

Lemma Register_rel k d s nm ms now :
  dr k d s -> in_range 32 ms -> in_range 64 now -> 0 <= k -> k + 1 < 2 ^ 24 ->
  (Register nm ms now d).1 = (spec_register nm ms now s).1 /\ dr (k + 1) (Register nm ms now d).2 (spec_register nm ms now s).2.
Proof.
  intros Hd Hms Hnow Hk Hk1. unfold Register, spec_register. destruct (ms =? 0); [by split; [|apply (dr_weaken k); [|lia] ]|].
  pose proof (list_find_rel slot_rel (fun s => active s = false) (fun x : Place => x.2 = None) _ _ (dr_slots _ _ _ Hd)) as Hf.
  assert (HP : forall (y : Slot) (x : Place), slot_rel y x -> active y = false <-> x.2 = None).
  { intros y [g [w|] ]; simpl; [by intros [-> _]|by intros [-> _] ]. }
  specialize (Hf HP). destruct (list_find _ (slots_ d)) as [ [i y]|], (list_find _ (ws_table s)) as [ [j [g o] ]|]; try done.
  2: { split; [done|]. apply (dr_weaken k); [done|lia]. }
  destruct Hf as (-> & Hy & Hj & Ho). simpl in Ho. subst o. simpl in Hy. destruct Hy as [_ Hg].
  pose proof (Forall_lookup_1 _ _ _ _ (dr_gen _ _ _ Hd) Hj) as Hgk. simpl in Hgk. rewrite Hg.
  rewrite (wrap_small 32 (g + 1)) by (unfold in_range; lia). unfold in_range in Hms. rewrite (wrap_small 64 (ms * 1000)) by (unfold in_range; lia). cbn [fst snd].
  apply lookup_lt_Some in Hj. pose proof (dr_len _ _ _ Hd). rewrite encode_eq by lia. split; [done|].
  apply dr_insert; [apply (dr_weaken k); [done|lia]| |simpl; lia]. split; [done|]. split; simpl; [done|unfold in_range; lia].
Qed.

Lemma Unregister_rel k d s id :
  dr k d s -> in_range 32 id -> 0 <= k ->
  (Unregister id d).1 = (spec_unregister id s).1 /\ dr k (Unregister id d).2 (spec_unregister id s).2.
Proof.
  intros Hd Hid Hk. unfold Unregister, spec_unregister. pose proof (resolve_rel k d s id Hd Hid Hk) as Hr.
  destruct (resolve id d) as [ [i x]|], (place_of id 0 (ws_table s)) as [ [ [j g] w]|]; try done.
  destruct Hr as (-> & -> & _ & Hj). pose proof (Forall_lookup_1 _ _ _ _ (dr_gen _ _ _ Hd) Hj) as Hg. split; [done|]. by apply dr_insert.
Qed.

Lemma Feed_rel k d s id now : dr k d s -> in_range 32 id -> in_range 64 now -> 0 <= k -> dr k (Feed id now d) (spec_feed id now s).
Proof.
  intros Hd Hid Hn Hk. unfold Feed, spec_feed. pose proof (resolve_rel k d s id Hd Hid Hk) as Hr.
  destruct (resolve id d) as [ [i x]|], (place_of id 0 (ws_table s)) as [ [ [j g] w]|]; try done.
  destruct Hr as (-> & -> & [_ Hw] & Hj). pose proof (Forall_lookup_1 _ _ _ _ (dr_gen _ _ _ Hd) Hj) as Hg. by apply dr_insert.
Qed.

Lemma Beat_rel k d s i now : dr k d s -> in_range 64 now -> dr k (Beat i now d) (spec_beat i now s).
Proof.
  intros [Hs] Hn. split; simpl; try done; [|by rewrite length_alter|].
  - apply Forall2_alter; [done|]. intros x [g [w|] ] _ _; simpl; [intros [-> [_ Hw] ]; done|done].
  - apply Forall_alter; [done|]. done.
Qed.

Lemma IsTimedOut_rel k d s id :
  dr k d s -> in_range 32 id -> 0 <= k ->
  IsTimedOut id d = match place_of id 0 (ws_table s) with Some (_, _, v) => w_late v | None => false end.
Proof.
  intros Hd Hid Hk. unfold IsTimedOut. pose proof (resolve_rel k d s id Hd Hid Hk) as Hr.
  destruct (resolve id d) as [ [i x]|], (place_of id 0 (ws_table s)) as [ [ [j g] w]|]; try done. by destruct Hr as (_ & -> & _).
Qed.

Lemma filter_everything (l : list Watch) : filter (fun _ => true = true) l = l.
Proof. induction l as [|v l IH]; [done|]. rewrite filter_cons, decide_True by done. by rewrite IH. Qed.

(** Counting slots. *)
Lemma count_slots (P : Slot -> bool) (P' : Watch -> bool) l k c :
  Forall2 slot_rel l k -> (forall x, active x = false -> P x = false) -> (forall g w, P (slot_of g w) = P' w) ->
  0 <= c -> c + Z.of_nat (length k) < 2 ^ 32 ->
  fold_left (fun n s => if P s then u32 (n + 1) else n) l c = c + Z.of_nat (length (filter (fun v => P' v = true) (watched k))).
Proof.
  intros Hl HP HP'. revert c. induction Hl as [|x [g o] l k Hx Hl IH]; intros c Hc Hb; [simpl; lia|]. cbn [fold_left length] in *.
  unfold watched. cbn [omap list_omap snd]. destruct o as [w|]; simpl in Hx.
  - destruct Hx as [-> _]. rewrite HP', filter_cons. destruct (P' w) eqn:E.
    + rewrite wrap_small by (unfold in_range; lia). rewrite IH by lia. rewrite decide_True by done. unfold watched. simpl. lia.
    + rewrite IH by lia. by rewrite decide_False by done.
  - rewrite HP by tauto. apply IH; lia.
Qed.

Lemma is_timed_out_eq now g w : watch_ok w -> in_range 64 now -> 0 <= w_timeout w -> is_timed_out now (slot_of g w) = w_overdue now w.
Proof.
  intros [Hb Ht] Hn _. unfold is_timed_out, w_overdue, in_range in *. cbn [last_beat_us timeout_us slot_of].
  destruct (Z.ltb_spec (w_beat w) now); simpl; [by rewrite wrap_small by (unfold in_range; lia)|].
  symmetry. apply Z.ltb_ge. lia.
Qed.

Lemma dog_infos_rel i l k : Forall2 slot_rel l k -> infos i l = spec_infos i k.
Proof.
  intros Hl. revert i. induction Hl as [|x [g [w|] ] l k Hx _ IH]; intros i; simpl in *; [done|..].
  - destruct Hx as [-> _]. simpl. by rewrite IH.
  - destruct Hx as [-> _]. simpl. apply IH.
Qed.

Lemma mark_cons now g w k : mark_all now ((g, Some w) :: k) = (g, Some (w_mark now w)) :: mark_all now k.
Proof. done. Qed.
Lemma mark_cons_none now g k : mark_all now ((g, None) :: k) = (g, None) :: mark_all now k.
Proof. done. Qed.
Lemma late_cons g w k : late_ones ((g, Some w) :: k) = if w_late w then w :: late_ones k else late_ones k.
Proof. unfold late_ones, watched. cbn [omap list_omap snd]. rewrite filter_cons. by destruct (w_late w). Qed.
Lemma late_length k : (length (late_ones k) <= length k)%nat.
Proof.
  induction k as [|[g [w|] ] k IH]; [simpl; lia| |simpl; unfold late_ones, watched in *; cbn [omap list_omap snd]; lia].
  rewrite late_cons. destruct (w_late w); simpl; lia.
Qed.

(** The loop of Check; callbacks that are not set leave their list empty. *)
Lemma check_loop_rel now i l k b1 b2 :
  Forall2 slot_rel l k -> in_range 64 now -> Forall (fun x : Place => 0 <= x.1 < 2 ^ 24) k ->
  Z.of_nat i + Z.of_nat (length k) <= MaxThreads ->
  exists l', check_loop now (Z.of_nat i) b1 b2 l =
    (l', if b1 then changed true now i k else [], if b2 then changed false now i k else [], Z.of_nat (length (late_ones (mark_all now k)))) /\
    Forall2 slot_rel l' (mark_all now k).
Proof.
  intros Hl Hn. revert i. induction Hl as [|x [g o] l k Hx Hl IH]; intros i Hg Hi.
  { exists []. split; [by destruct b1, b2|constructor]. }
  apply Forall_cons_1 in Hg as [Hg0 Hg]. simpl in Hg0. cbn [length] in Hi. cbn [check_loop].
  replace (Z.of_nat i + 1) with (Z.of_nat (S i)) by lia. destruct (IH (S i) Hg ltac:(lia)) as (l' & -> & Hl').
  destruct o as [w|]; simpl in Hx; cycle 1.
  { destruct Hx as [Hx Hgx]. rewrite Hx. eexists. split; [done|]. rewrite mark_cons_none. by constructor. }
  destruct Hx as [-> [Hwb Hwt] ]. cbn [active slot_of]. rewrite is_timed_out_eq by (done || (unfold in_range in Hwt; lia)).
  unfold EncodedId. cbn [generation timed_out slot_of name]. rewrite encode_eq by lia. rewrite mark_cons, late_cons. cbn [changed].
  pose proof (late_length (mark_all now k)) as Hlen. unfold mark_all in Hlen at 2. rewrite length_fmap in Hlen.
  change (w_late (w_mark now w)) with (w_overdue now w).
  assert (Hrel : slot_rel (flag (w_overdue now w) (slot_of g w)) (g, Some (w_mark now w))) by done.
  destruct (w_overdue now w) eqn:Eo, (w_late w) eqn:El; cbn [andb negb]; rewrite ?(wrap_small 32) by (unfold in_range; lia).
  all: eexists; (split; [|constructor; [|exact Hl'] ]).
  all: try exact Hrel; try (by unfold flag, slot_of in *; simpl in *; rewrite El in *).
  all: replace (Z.of_nat (length (late_ones (mark_all now k))) + 1) with (Z.of_nat (S (length (late_ones (mark_all now k))))) by lia.
  all: destruct b1, b2; unfold slot_of, flag; simpl; by rewrite ?El.
Qed.

Lemma Check_rel k d s w now :
  dr k d s -> in_range 64 now -> 0 <= k < 2 ^ 24 ->
  (Check now (d, w)).1 = (spec_check now (s, w)).1 /\ dr k (Check now (d, w)).2.1 (spec_check now (s, w)).2.1 /\
  (Check now (d, w)).2.2 = (spec_check now (s, w)).2.2.
Proof.
  intros Hd Hn Hk. unfold Check, spec_check.
  destruct (check_loop_rel now 0 (slots_ d) (ws_table s) (bool_decide (is_Some (on_timeout_ d))) (bool_decide (is_Some (on_recovered_ d))))
    as (l & E & Hl); [apply Hd|done| |rewrite (dr_len _ _ _ Hd); simpl; lia|].
  { eapply Forall_impl; [|apply (dr_gen _ _ _ Hd)]. intros x Hx. simpl in *. lia. }
  change (Z.of_nat 0) with 0 in E. rewrite E. cbn [fst snd]. split; [done|]. split.
  - destruct Hd. split; simpl; try done; [unfold mark_all; by rewrite length_fmap|]. unfold mark_all. by apply Forall_fmap.
  - rewrite (dr_timeout _ _ _ Hd), (dr_recovered _ _ _ Hd). unfold call_all. by destruct (ws_timeout s), (ws_recovered s).
Qed.

Lemma dog_op_rel k o d s w :
  dr k d s -> dop_typed o -> 0 <= k -> k + 1 < 2 ^ 24 ->
  (dog_op o (d, w)).1 = (spec_dog_op o (s, w)).1 /\ dr (k + 1) (dog_op o (d, w)).2.1 (spec_dog_op o (s, w)).2.1 /\
  (dog_op o (d, w)).2.2 = (spec_dog_op o (s, w)).2.2.
Proof.
  intros Hd Ho Hk Hk1. assert (Hweak : forall d' s', dr k d' s' -> dr (k + 1) d' s') by (intros d' s' H; apply (dr_weaken k); [done|lia]).
  assert (Hlen : 0 + Z.of_nat (length (ws_table s)) < 2 ^ 32) by (rewrite (dr_len _ _ _ Hd); lia).
  destruct o; cbn [dog_op spec_dog_op dop_typed] in *.
  - destruct (Register_rel k d s nm ms now Hd) as [E H]; [tauto..|lia|lia|]. destruct (Register nm ms now d), (spec_register nm ms now s). simpl in *. by subst.
  - destruct (Unregister_rel k d s id Hd Ho Hk) as [E H]. destruct (Unregister id d), (spec_unregister id s). simpl in *. subst. auto.
  - split; [done|]. split; [|done]. apply Hweak, Feed_rel; tauto.
  - split; [done|]. split; [|done]. by apply Hweak, Beat_rel.
  - destruct (Check_rel k d s w now Hd Ho) as (E1 & H & E2); [lia|]. destruct (Check now (d, w)) as [n [d' w'] ], (spec_check now (s, w)) as [n' [s' w''] ].
    simpl in *. subst. auto.
  - split; [done|]. split; [|done]. apply Hweak. by destruct Hd; split.
  - split; [done|]. split; [|done]. apply Hweak. by destruct Hd; split.
  - split; [by rewrite (IsTimedOut_rel k d s id Hd Ho Hk)|auto].
  - split; [|auto]. simpl. unfold ActiveCount. rewrite (count_slots active (fun _ => true) _ _ 0 (dr_slots _ _ _ Hd)) by done.
    by rewrite filter_everything.
  - split; [|auto]. simpl. unfold TimedOutCount.
    by rewrite (count_slots (fun s => active s && timed_out s) w_late _ _ 0 (dr_slots _ _ _ Hd)) by (done || by intros x ->).
  - split; [|auto]. simpl. unfold ForEachSlot. by rewrite (dog_infos_rel 0 _ _ (dr_slots _ _ _ Hd)).
  - split; [done|]. split; [|done]. apply Hweak. unfold StartAutoCheck. rewrite (dr_auto _ _ _ Hd). destruct Hd; destruct (ms =? 0), (ws_auto s) eqn:Ea; simpl;
      split; simpl; try done; congruence.
  - split; [done|]. split; [|done]. apply Hweak. unfold StopAutoCheck. rewrite (dr_auto _ _ _ Hd). destruct Hd; destruct (ws_auto s) eqn:Ea; by split.
Qed.

Lemma dog_run_rel k ops d s w :
  dr k d s -> Forall dop_typed ops -> 0 <= k -> k + Z.of_nat (length ops) < 2 ^ 24 ->
  (dog_run ops (d, w)).1 = (spec_dog_run ops (s, w)).1 /\ (dog_run ops (d, w)).2.2 = (spec_dog_run ops (s, w)).2.2.
Proof.
  intros Hd Ho. revert k d s w Hd. induction Ho as [|o ops Ho _ IH]; intros k d s w Hd Hk Hl; [done|]. cbn [length dog_run spec_dog_run] in *.
  destruct (dog_op_rel k o d s w Hd Ho Hk ltac:(lia)) as (E1 & H & E2). destruct (dog_op o (d, w)) as [r [d1 w1] ], (spec_dog_op o (s, w)) as [r' [s1 w1'] ].
  simpl in E1, E2, H. subst. destruct (IH (k + 1) d1 s1 w1' H ltac:(lia) ltac:(lia)) as [E3 E4].
  destruct (dog_run ops (d1, w1')), (spec_dog_run ops (s1, w1')). simpl in *. by subst.
Qed.

Lemma dog_start_rel : dr 0 ThreadWatchdog_ctor ws_fresh.
Proof.
  split; simpl; try done; [|rewrite length_replicate; lia|by apply Forall_replicate]. induction (Z.to_nat MaxThreads); simpl; by constructor.
Qed.

End Watchdog.
Arguments DogOp : clear implicits.

(** Refinement: for fewer than 2^24 calls, the watchdog is a table of watched
    threads.  Every registration gets an id that no other registration of the run
    has, and only that id reaches it; a check marks exactly the threads whose last
    beat is older than their timeout, calls back once for each that became late and
    then once for each that recovered, in slot order, and returns how many are late;
    counts and snapshots are exact. *)
Lemma watchdog_refines {W} MaxThreads (ops : list (DogOp W)) w :
  1 <= MaxThreads <= 256 -> Forall dop_typed ops -> Z.of_nat (length ops) < 2 ^ 24 ->
  let run := dog_run MaxThreads ops (ThreadWatchdog_ctor MaxThreads, w) in
  let spec := spec_dog_run MaxThreads ops (ws_fresh MaxThreads, w) in
  run.1 = spec.1 /\ run.2.2 = spec.2.2.
Proof. intros HM Ho Hl. cbv zeta. apply (dog_run_rel MaxThreads HM 0); [by apply dog_start_rel|done|lia|lia]. Qed.

(** Ids of the specification name one registration each. *)
Lemma id_of_inj MaxThreads g g' i i' :
  1 <= MaxThreads <= 256 -> Z.of_nat i < MaxThreads -> Z.of_nat i' < MaxThreads ->
  id_of MaxThreads g i = id_of MaxThreads g' i' -> g = g' /\ i = i'.
Proof.
  intros HM Hi Hi' E. destruct (kSlotBits_range MaxThreads HM) as [Hb Hm]. unfold id_of in E. set (p := 2 ^ kSlotBits MaxThreads) in *.
  assert (g = g') as -> by nia. split; [done|]. lia.
Qed.

(** ** Runs *)

(** Callbacks that log: 1 for a timeout, 2 for a recovery. *)
Definition log_call (n : Z) : option (TimeoutCallback (W := list (Z * Z))) := Some (fun id _ w => w ++ [(n, id)]).
Definition sample_watch : list (DogOp (list (Z * Z))) :=
  [OOnTimeout (log_call 1); OOnRecovered (log_call 2); ORegister "a" 10 0; ORegister "b" 20 0; OCheck 15000; OCheck 16000;
   OFeed 2 17000; OCheck 21000; OUnregister 2; ORegister "c" 5 30000; OFeed 2 31000; OIsTimedOut 3; OCheck 36000; OTimedOut].

Lemma watchdog_refines_witness :
  exists d, dog_run 2 sample_watch (ThreadWatchdog_ctor 2, []) =
    ([RNone; RNone; RId (inl 2); RId (inl 3); RNum 1; RNum 1; RNone; RNum 1; RErr None; RId (inl 4); RNone; RBool true; RNum 2; RNum 2],
     (d, [(1, 2); (1, 3); (2, 2); (1, 4)])).
Proof.
  destruct (watchdog_refines 2 sample_watch []) as [E1 E2]; [lia|repeat constructor; done|reflexivity|].
  exists (dog_run 2 sample_watch (ThreadWatchdog_ctor 2, [])).2.1.
  rewrite (surjective_pairing (dog_run 2 sample_watch (ThreadWatchdog_ctor 2, []))) at 1. rewrite E1.
  rewrite (surjective_pairing (dog_run 2 sample_watch (ThreadWatchdog_ctor 2, [])).2) at 1. rewrite E2. vm_compute. reflexivity.
Defined.

(** The id holds the low bits of the generation, but is compared with all of it: the
    2^27th registration of a slot of 32 gets an id that nothing accepts, and the slot
    cannot be freed any more. *)
Lemma watchdog_generation_overflow :
  let d := mkDog (W := unit) [mkSlot false (2 ^ 27 - 1) 0 0 false ""] None None false in
  exists d', Register 32 "t" 1 0 d = (inl 0, d') /\ (Unregister 32 0 d').1 = Some kNotRegistered /\ ActiveCount d' = 1.
Proof. eexists. split; [vm_compute; reflexivity|]. split; vm_compute; reflexivity. Qed.

(** A thread that has unregistered but still beats through its pointer keeps the next
    owner of the slot alive. *)
Lemma stale_heartbeat_feeds_successor :
  (dog_run 1 [ORegister "a" 10 0; OUnregister 2; ORegister "b" 10 0; OBeat 0 60000; OCheck 65000] (ThreadWatchdog_ctor 1, tt)).1 =
    [RId (inl 2); RErr None; RId (inl 4); RNone; RNum 0].
Proof. vm_compute. reflexivity. Qed.
