(* ===== verification/CBuffer.v ===== *)
(** * Checked buffers and C strings

    Character buffers as lists of bytes with every access checked: reading or writing
    outside the buffer is [None].  A [const char*] to a string that lives elsewhere
    (a literal, a name) is its text, the bytes before the terminator; [cchar] reads
    it like C does, terminator included. *)

From Stdlib Require Import ZArith Lia Bool Ascii String.
From stdpp Require Import base numbers list option.
From S2P Require Import Prelude.

Open Scope Z_scope.
Open Scope list_scope.

(** The bytes of a literal, and the end of a line. *)
Definition str (s : string) : list Z := (fun a => Z.of_N (N_of_ascii a)) <$> list_ascii_of_string s.
Definition crlf : list Z := [13; 10].

(** [a[i]] and [a[i] = x], inside the array only. *)
Definition bget {A} (a : list A) (i : Z) : option A := if 0 <=? i then a !! Z.to_nat i else None.
Definition bput {A} (a : list A) (i : Z) (x : A) : option (list A) :=
  if (0 <=? i) && (i <? Z.of_nat (length a)) then Some (<[Z.to_nat i := x]> a) else None.
(** [memcpy(a, xs, length xs)]. *)
Definition bcopy {A} (a xs : list A) : option (list A) :=
  if (length xs <=? length a)%nat then Some (xs ++ drop (length xs) a) else None.
(** The first [n] bytes of a buffer, as read by a [write] or [memcpy] from it. *)
Definition bread {A} (a : list A) (n : Z) : option (list A) :=
  if (0 <=? n) && (n <=? Z.of_nat (length a)) then Some (take (Z.to_nat n) a) else None.

(** The C string at the start of a buffer; [None] when it has no terminator. *)
Fixpoint cstr (l : list Z) : option (list Z) :=
  match l with
  | [] => None
  | c :: l => if c =? 0 then Some [] else s ← cstr l; Some (c :: s)
  end.

(** A text: bytes without a terminator. *)
Definition text (s : list Z) : Prop := Forall (fun c => c <> 0) s.
#[export] Instance text_dec s : Decision (text s) := _.

(** [s[j]] of a string literal or name with text [s]. *)
Definition cchar (s : list Z) (j : nat) : option Z := (s ++ [0]) !! j.

(** [strncmp(a, b, n) == 0]. *)
Fixpoint strneq (n : nat) (a b : list Z) : bool :=
  match n, a, b with
  | O, _, _ => true
  | S _, [], [] => true
  | S n, x :: a, y :: b => (x =? y) && strneq n a b
  | _, _, _ => false
  end.
(** [strcmp(a, b) == 0]. *)
Definition streq (a b : list Z) : bool := bool_decide (a = b).

(** The text before the first [c], and what follows from there. *)
Fixpoint until (p : Z -> bool) (s : list Z) : list Z :=
  match s with [] => [] | c :: s => if p c then [] else c :: until p s end.
Fixpoint from (p : Z -> bool) (s : list Z) : list Z :=
  match s with [] => [] | c :: s' => if p c then s else from p s' end.

Lemma until_from p s : until p s ++ from p s = s.
Proof. induction s as [|c s IH]; [done|]. simpl. destruct (p c); [done|]. simpl. by rewrite IH. Qed.

Lemma until_app p s t : Forall (fun c => p c = false) s -> until p (s ++ t) = s ++ until p t /\ from p (s ++ t) = from p t.
Proof. induction 1 as [|c s Hc _ [IH1 IH2] ]; [done|]. simpl. by rewrite Hc, IH1, IH2. Qed.

Lemma until_none p s : Forall (fun c => p c = false) (until p s).
Proof. induction s as [|c s IH]; [done|]. simpl. destruct (p c) eqn:E; [done|]. by constructor. Qed.

Lemma from_head p s c t : from p s = c :: t -> p c = true.
Proof. induction s as [|d s IH]; [done|]. simpl. destruct (p d) eqn:E; [intros; by simplify_eq|done]. Qed.

Lemma text_app s t : text (s ++ t) <-> text s /\ text t.
Proof. apply Forall_app. Qed.

Lemma text_cons c s : text (c :: s) <-> c <> 0 /\ text s.
Proof. apply Forall_cons_iff. Qed.

Lemma cstr_app s t : text s -> cstr (s ++ 0 :: t) = Some s.
Proof. induction 1 as [|c s Hc _ IH]; simpl; [done|]. destruct (Z.eqb_spec c 0); [done|]. by rewrite IH. Qed.

Lemma cstr_text l s : cstr l = Some s -> text s.
Proof.
  revert s. induction l as [|c l IH]; intros s; simpl; [done|]. destruct (Z.eqb_spec c 0) as [->|Hc]; [by intros [= <-]; constructor|].
  destruct (cstr l) as [t|]; simpl; [|done]. intros [= <-]. constructor; [done|]. by apply IH.
Qed.

Lemma bput_app {A} (s t : list A) y x i : i = Z.of_nat (length s) -> bput (s ++ y :: t) i x = Some (s ++ x :: t).
Proof.
  intros ->. unfold bput. rewrite length_app. simpl.
  destruct (Z.leb_spec 0 (Z.of_nat (length s))), (Z.ltb_spec (Z.of_nat (length s)) (Z.of_nat (length s + S (length t)))); try lia. simpl.
  by rewrite Nat2Z.id, insert_app_r_alt, Nat.sub_diag by lia.
Qed.

Lemma bget_app {A} (s t : list A) y i : i = Z.of_nat (length s) -> bget (s ++ y :: t) i = Some y.
Proof. intros ->. unfold bget. destruct (Z.leb_spec 0 (Z.of_nat (length s))); [|lia]. by rewrite Nat2Z.id, list_lookup_middle by done. Qed.

Lemma bcopy_ok {A} (a xs : list A) : (length xs <= length a)%nat -> bcopy a xs = Some (xs ++ drop (length xs) a).
Proof. intros. unfold bcopy. by destruct (Nat.leb_spec (length xs) (length a)); [|lia]. Qed.

Lemma bread_app {A} (s t : list A) n : n = Z.of_nat (length s) -> bread (s ++ t) n = Some s.
Proof.
  intros ->. unfold bread. rewrite length_app.
  destruct (Z.leb_spec 0 (Z.of_nat (length s))), (Z.leb_spec (Z.of_nat (length s)) (Z.of_nat (length s + length t))); try lia. simpl.
  by rewrite Nat2Z.id, take_app_length.
Qed.

Lemma streq_spec a b : streq a b = true <-> a = b.
Proof. apply bool_decide_eq_true. Qed.

(** Comparing as many characters as the second text has is testing for a prefix. *)
Lemma strneq_prefix a b : strneq (length b) a b = true <-> b `prefix_of` a.
Proof.
  revert a. induction b as [|y b IH]; intros a; simpl; [split; [intros; apply prefix_nil|done]|].
  destruct a as [|x a]; [split; [done|intros H; by apply prefix_nil_not in H]|].
  rewrite andb_true_iff, IH, Z.eqb_eq. split.
  - intros [-> H]. by apply prefix_cons.
  - intros H. split; [symmetry; by eapply prefix_cons_inv_1|by eapply prefix_cons_inv_2].
Qed.

(** Appending a character to the text before a cursor in a buffer, and erasing one. *)
Lemma snoc_buffer {A} (s t : list A) y : s ++ y :: t = (s ++ [y]) ++ t.
Proof. by rewrite <- app_assoc. Qed.

Lemma cchar_mid s x t : cchar (s ++ x :: t) (length s) = Some x.
Proof. unfold cchar. by rewrite <- app_assoc, <- app_comm_cons, list_lookup_middle. Qed.

Lemma cchar_end s : cchar s (length s) = Some 0.
Proof. unfold cchar. by rewrite list_lookup_middle. Qed.

Lemma prefix_take_eq {A} (p l : list A) : p `prefix_of` l -> take (length p) l = p.
Proof. intros [k ->]. apply take_app_length. Qed.
