(* ===== verification/ShellCmd.v ===== *)
(** * Shell commands (include/osp/shell.hpp)

    The command registry with its completion, the in-place tokeniser of command
    lines, and the argument parsers.  Command names and descriptions are texts; the
    functions commands run are named by [F]. *)

From Stdlib Require Import ZArith Lia Bool String.
From stdpp Require Import base numbers list option.
From S2P Require Import Prelude CBuffer.

Open Scope Z_scope.
Open Scope list_scope.

Inductive ShellError := shRegistryFull | shDuplicateName | shPortInUse | shNotRunning | shBindFailed | shAlreadyRunning | shAuthFailed | shDeviceOpenFailed.

(** ** GlobalCmdRegistry *)

Section Registry.
Context {F : Type}.

(** The built-in help command reads the registry and the session, so it is told
    apart from the commands of the application. *)
Inductive ShellCmdFn := ShellBuiltinHelp | UserCmd (f : F).
Record ShellCmd := mkCmd { name : list Z; desc : option (list Z); func : ShellCmdFn }.

(** The registry is the list of the entries of [cmds_] below [count_]; those above
    are never read. *)
Definition kMaxCommands : Z := 64.
Definition Count (r : list ShellCmd) : Z := Z.of_nat (length r).

Definition Find (n : list Z) (r : list ShellCmd) : option ShellCmd := (list_find (fun c => streq (name c) n = true) r) ≫= fun '(_, c) => Some c.

Definition Register (n : list Z) (fn : ShellCmdFn) (d : option (list Z)) (r : list ShellCmd) : option ShellError * list ShellCmd :=
  match Find n r with
  | Some _ => (Some shDuplicateName, r)
  | None => if kMaxCommands <=? Count r then (Some shRegistryFull, r) else (None, r ++ [mkCmd n d fn])
  end.

(** [while (j < common_len && first[j] == other[j]) ++j]; [None] would be a read past
    a terminator. *)
Fixpoint common_from (n j : nat) (first other : list Z) : option nat :=
  match n with
  | O => Some j
  | S n => a ← cchar first j; b ← cchar other j; if a =? b then common_from n (S j) first other else Some j
  end.
Definition common_step (first : list Z) (common_len : option nat) (other : list Z) : option nat :=
  n ← common_len; common_from n 0 first other.

(** [memcpy(out_buf, src, copy_len); out_buf[copy_len] = 0]. *)
Definition put_text (out_buf src : list Z) : option (list Z) := b ← bcopy out_buf src; bput b (Z.of_nat (length src)) 0.

(** The number of matches and the buffer.  [prefix] and [out_buf] are not null. *)
Definition AutoComplete (prefix out_buf : list Z) (r : list ShellCmd) : option (Z * list Z) :=
  if Z.of_nat (length out_buf) =? 0 then Some (0, out_buf)
  else
    let room := (length out_buf - 1)%nat in
    match filter (fun c => strneq (length prefix) (name c) prefix = true) r with
    | [] => b ← bput out_buf 0 0; Some (0, b)
    | [c] => b ← put_text out_buf (take (length (name c) `min` room) (name c)); Some (1, b)
    | c :: cs =>
      n ← fold_left (common_step (name c)) (name <$> cs) (Some (length (name c)));
      b ← put_text out_buf (take (n `min` room) (name c));
      Some (Z.of_nat (length (c :: cs)), b)
    end.

(** The visitor is applied to the commands in order of registration. *)
Definition ForEach {S} (visit : S -> ShellCmd -> S) (r : list ShellCmd) (s : S) : S := fold_left visit r s.

End Registry.
Arguments ShellCmdFn : clear implicits.
Arguments ShellCmd : clear implicits.

(** ** ShellSplit *)

Definition is_ws (c : Z) : bool := (c =? 32) || (c =? 9).
Definition is_quote (c : Z) : bool := (c =? 34) || (c =? 39).

(** [while (i < length && ws(cmd[i])) { cmd[i] = 0; ++i; }], [n] = [length - i]. *)
Fixpoint skip_ws (n : nat) (i : Z) (cmd : list Z) : option (Z * list Z) :=
  match n with
  | O => Some (i, cmd)
  | S n =>
    c ← bget cmd i;
    if is_ws c then cmd ← bput cmd i 0; skip_ws n (i + 1) cmd else Some (i, cmd)
  end.
(** [while (i < length && !stop(cmd[i])) ++i]. *)
Fixpoint scan (stop : Z -> bool) (n : nat) (i : Z) (cmd : list Z) : option Z :=
  match n with
  | O => Some i
  | S n => c ← bget cmd i; if stop c then Some i else scan stop n (i + 1) cmd
  end.

(** The outer loop: every iteration that does not leave it fills one entry of
    [argv], so that [args] = [kMaxArgs - argc].  [argv] holds offsets into [cmd]. *)
Fixpoint split_loop (args : nat) (i len : Z) (cmd : list Z) : option (list Z * list Z) :=
  match args with
  | O => Some ([], cmd)
  | S args =>
    '(i, cmd) ← skip_ws (Z.to_nat (len - i)) i cmd;
    if len <=? i then Some ([], cmd)
    else
      c ← bget cmd i;
      if is_quote c then
        cmd ← bput cmd i 0;
        let i := i + 1 in
        if len <=? i then Some ([], cmd)
        else
          j ← scan (fun d => d =? c) (Z.to_nat (len - i)) i cmd;
          if j <? len then
            cmd ← bput cmd j 0;
            '(argv, cmd) ← split_loop args (j + 1) len cmd;
            Some (i :: argv, cmd)
          else
            '(argv, cmd) ← split_loop args j len cmd;
            Some (i :: argv, cmd)
      else
        j ← scan is_ws (Z.to_nat (len - i)) i cmd;
        '(argv, cmd) ← split_loop args j len cmd;
        Some (i :: argv, cmd)
  end.
Definition ShellSplit (kMaxArgs : nat) (len : Z) (cmd : list Z) : option (list Z * list Z) := split_loop kMaxArgs 0 len cmd.

(** The string a command finds at [argv[k]]. *)
Definition arg_at (cmd : list Z) (off : Z) : option (list Z) := if 0 <=? off then cstr (drop (Z.to_nat off) cmd) else None.

(** ** Argument parsers *)

Definition dec_value (ds : list Z) : Z := fold_left (fun v c => 10 * v + (c - 48)) ds 0.

(** White space, an optional sign and digits: the sign, the digits, the rest. *)
Definition strto_parts (s : list Z) : bool * list Z * list Z :=
  let s := from (fun c => negb (isspace c)) s in
  let '(neg, s) := match s with c :: s' => if c =? 45 then (true, s') else if c =? 43 then (false, s') else (false, s) | [] => (false, s) end in
  (neg, until (fun c => negb (isdigit c)) s, from (fun c => negb (isdigit c)) s).

(** [strtol] and [strtoul] with base 10 and a 64-bit [long]: the value, ERANGE, and
    the rest of the text; [None] when there are no digits ([end == str]). *)
Definition strtol (s : list Z) : option (Z * bool * list Z) :=
  let '(neg, ds, rest) := strto_parts s in
  match ds with
  | [] => None
  | _ =>
    let v := if neg then - dec_value ds else dec_value ds in
    Some (if v <? - 2 ^ 63 then (- 2 ^ 63, true, rest) else if 2 ^ 63 <=? v then (2 ^ 63 - 1, true, rest) else (v, false, rest))
  end.
Definition strtoul (s : list Z) : option (Z * bool * list Z) :=
  let '(neg, ds, rest) := strto_parts s in
  match ds with
  | [] => None
  | _ => Some (if 2 ^ 64 <=? dec_value ds then (2 ^ 64 - 1, true, rest) else (if neg then u64 (- dec_value ds) else dec_value ds, false, rest))
  end.

(** The argument is [None] for a null pointer. *)
Definition ShellParseInt (str : option (list Z)) : option Z :=
  s ← str;
  match s with
  | [] => None
  | _ =>
    match strtol s with
    | Some (val, erange, []) => if (erange : bool) then None else if (val <? - 2 ^ 31) || (2 ^ 31 - 1 <? val) then None else Some val
    | _ => None
    end
  end.
Definition ShellParseUint (str : option (list Z)) : option Z :=
  s ← str;
  match s with
  | [] => None
  | c :: _ =>
    if c =? 45 then None
    else
      match strtoul s with
      | Some (val, erange, []) => if (erange : bool) then None else if 2 ^ 32 - 1 <? val then None else Some val
      | _ => None
      end
  end.

Definition lower (c : Z) : Z := if (65 <=? c) && (c <=? 90) then c + 32 else c.
Fixpoint ShellStrCaseEq (a b : list Z) : bool :=
  match a, b with
  | x :: a, y :: b => if lower x =? lower y then ShellStrCaseEq a b else false
  | [], [] => true
  | _, _ => false
  end.
Definition true_words : list (list Z) := str <$> ["true"; "1"; "yes"; "on"]%string.
Definition false_words : list (list Z) := str <$> ["false"; "0"; "no"; "off"]%string.
Definition ShellParseBool (str : option (list Z)) : option bool :=
  s ← str;
  match s with
  | [] => None
  | _ =>
    if existsb (ShellStrCaseEq s) true_words then Some true
    else if existsb (ShellStrCaseEq s) false_words then Some false else None
  end.

(** ** Subcommands *)

Section SubCmd.
Context {H : Type}.

Record ShellSubCmd := mkSub { sub_name : list Z; args_desc : option (list Z); help : option (list Z); handler : H }.

(** What a dispatch does: call a handler with the arguments from [argv[1]] on, call
    the default function, print the help table, or report an unknown name. *)
Inductive Dispatched := CallHandler (h : H) (argv : list (list Z)) | CallDefault (h : H) (argv : list (list Z)) | PrintSubHelp (parent : list Z) | UnknownSub (sub parent : list Z).

(** [argv] is not empty: it starts with the name of the command. *)
Definition ShellDispatch (argv0 : list Z) (args : list (list Z)) (table : list ShellSubCmd) (default_fn : option H) : Dispatched :=
  match args with
  | [] => match default_fn with Some f => CallDefault f [argv0] | None => PrintSubHelp argv0 end
  | a :: _ =>
    if streq a (str "help") then PrintSubHelp argv0
    else match list_find (fun t => streq a (sub_name t) = true) table with
    | Some (_, t) => CallHandler (handler t) args
    | None => UnknownSub a argv0
    end
  end.

(** The texts of its calls of ShellPrintf; [%-12s] pads to 12 columns. *)
Definition pad (n : nat) (s : list Z) : list Z := s ++ replicate (n - length s) 32.
Definition ShellPrintSubHelp (parent : list Z) (table : list ShellSubCmd) : list (list Z) :=
  (str "Usage: " ++ parent ++ str " <subcommand>" ++ crlf) ::
  (t ← table;
   [str "  " ++ pad 12 (sub_name t)] ++ (match args_desc t with Some d => [str " " ++ d] | None => [] end) ++
   (match help t with Some h => [str "  - " ++ h] | None => [] end) ++ [crlf]).

End SubCmd.

(** ** Correctness of the tokeniser *)

(** The arguments of a line: words separated by blanks, or anything between two equal
    quotes.  When the last entry of [argv] is an unquoted word, it extends to the end
    of the line. *)
Fixpoint split_spec (args : nat) (s : list Z) : list (list Z) :=
  match args with
  | O => []
  | S n =>
    match from (fun c => negb (is_ws c)) s with
    | [] => []
    | c :: r =>
      if is_quote c then
        match r with
        | [] => []
        | _ => until (fun d => d =? c) r :: split_spec n (drop 1 (from (fun d => d =? c) r))
        end
      else (if (n =? 0)%nat then c :: r else until is_ws (c :: r)) :: split_spec n (from is_ws (c :: r))
    end
  end.

Lemma skip_ws_spec s pre z i :
  i = Z.of_nat (length pre) ->
  let ws := until (fun c => negb (is_ws c)) s in
  skip_ws (length s) i (pre ++ s ++ z) = Some (i + Z.of_nat (length ws), pre ++ replicate (length ws) 0 ++ from (fun c => negb (is_ws c)) s ++ z).
Proof.
  revert pre i. induction s as [|c s IH]; intros pre i Hi; simpl; [by rewrite Z.add_0_r|].
  rewrite (bget_app pre (s ++ z)) by done. simpl. destruct (is_ws c) eqn:E; simpl; [|by rewrite Z.add_0_r].
  rewrite (bput_app pre (s ++ z)) by done. simpl. rewrite (snoc_buffer pre (s ++ z)), IH by (rewrite length_app; simpl; lia).
  rewrite <- (snoc_buffer pre). f_equal. f_equal. lia.
Qed.

Lemma scan_spec stop s pre z i :
  i = Z.of_nat (length pre) -> scan stop (length s) i (pre ++ s ++ z) = Some (i + Z.of_nat (length (until stop s))).
Proof.
  revert pre i. induction s as [|c s IH]; intros pre i Hi; simpl; [f_equal; lia|].
  rewrite (bget_app pre (s ++ z)) by done. simpl. destruct (stop c); simpl; [f_equal; lia|].
  rewrite (snoc_buffer pre (s ++ z)), IH by (rewrite length_app; simpl; lia). f_equal. lia.
Qed.

Lemma arg_at_app pre x i : i = Z.of_nat (length pre) -> arg_at (pre ++ x) i = cstr x.
Proof. intros ->. unfold arg_at. destruct (Z.leb_spec 0 (Z.of_nat (length pre))); [|lia]. by rewrite Nat2Z.id, drop_app_length. Qed.

(** What the loop does to the rest [s] of a line that ends at a terminator. *)
Definition split_done (args : nat) (s pre post : list Z) (r : option (list Z * list Z)) : Prop :=
  exists argv s',
    r = Some (argv, pre ++ s' ++ 0 :: post) /\ length s' = length s /\
    mapM (arg_at (pre ++ s' ++ 0 :: post)) argv = Some (split_spec args s) /\
    (args = 0%nat -> s' = s) /\
    (args <> 0%nat -> forall c t, s = c :: t -> is_ws c = true -> exists t', s' = 0 :: t').

(** One more argument in front, at [off]: the rest of the loop ran on [rest], behind
    the bytes [done_] it had already treated. *)
Lemma split_more args n s pre post done_ rest off tok r :
  split_done n rest (pre ++ done_) post r ->
  (length s = length done_ + length rest)%nat -> args <> 0%nat ->
  (forall c t, s = c :: t -> is_ws c = true -> exists t', done_ = 0 :: t') ->
  split_spec args s = tok :: split_spec n rest ->
  (forall rest', length rest' = length rest -> (n = 0%nat -> rest' = rest) ->
     (n <> 0%nat -> forall c t, rest = c :: t -> is_ws c = true -> exists t', rest' = 0 :: t') ->
     arg_at (pre ++ done_ ++ rest' ++ 0 :: post) off = Some tok) ->
  split_done args s pre post ('(argv, cmd) ← r; Some (off :: argv, cmd)).
Proof.
  intros (argv & rest' & -> & Hl & Ha & H0 & Hw) Hs Hn Hd Hsp Htok.
  exists (off :: argv), (done_ ++ rest'). rewrite <- !app_assoc in *. repeat split; [rewrite length_app; lia| |done|].
  - rewrite Hsp. cbn [mapM]. rewrite (Htok rest') by done. cbn [mbind option_bind]. by rewrite Ha.
  - intros _ c t E Hc. destruct (Hd c t E Hc) as [t' ->]. by eexists.
Qed.

(** Blanks in front are overwritten with terminators. *)
Lemma split_skip args ws t pre post r :
  split_done args t (pre ++ replicate (length ws) 0) post r -> args <> 0%nat -> Forall (fun c => is_ws c = true) ws ->
  (forall c u, t = c :: u -> is_ws c = false) ->
  split_done args (ws ++ t) pre post r.
Proof.
  intros (argv & s' & -> & Hl & Ha & _ & _) Hn Hws Ht. rewrite <- !app_assoc in *.
  exists argv, (replicate (length ws) 0 ++ s'). rewrite <- !app_assoc, !length_app, length_replicate. repeat split; [lia| |done|].
  - rewrite Ha. f_equal. destruct args as [|n]; [done|]. cbn [split_spec].
    assert (from (fun c => negb (is_ws c)) (ws ++ t) = from (fun c => negb (is_ws c)) t) as ->; [|done].
    clear -Hws. induction Hws as [|c ws Hc _ IH]; [done|]. simpl. by rewrite Hc.
  - intros _ c u E Hc. destruct ws as [|d ws]; simpl in *; [|by eexists]. by rewrite (Ht c u E) in Hc.
Qed.

Lemma skip_none n i c u pre : i = Z.of_nat (length pre) -> is_ws c = false -> skip_ws (S n) i (pre ++ c :: u) = Some (i, pre ++ c :: u).
Proof. intros Hi Hc. cbn [skip_ws]. rewrite bget_app by done. cbn [mbind option_bind]. by rewrite Hc. Qed.

Section SplitStep.
Context (n : nat) (post : list Z) (len : Z).
Hypothesis IH : forall s pre i, text s -> i = Z.of_nat (length pre) -> len = Z.of_nat (length pre + length s) ->
  split_done n s pre post (split_loop n i len (pre ++ s ++ 0 :: post)).

Lemma split_word c r pre i :
  text (c :: r) -> i = Z.of_nat (length pre) -> len = Z.of_nat (length pre + S (length r)) -> is_ws c = false -> is_quote c = false ->
  split_done (S n) (c :: r) pre post (split_loop (S n) i len (pre ++ (c :: r) ++ 0 :: post)).
Proof.
  intros Ht Hi Hlen Hc Hq. cbn [split_loop]. replace (Z.to_nat (len - i)) with (S (length r)) by lia.
  rewrite <- app_comm_cons, skip_none by done. cbn [mbind option_bind]. destruct (Z.leb_spec len i); [lia|].
  rewrite bget_app by done. cbn [mbind option_bind]. rewrite Hq, app_comm_cons.
  replace (Z.to_nat (len - i)) with (length (c :: r)) by (simpl; lia).
  rewrite scan_spec by done. cbn [mbind option_bind].
  assert (Hsp : split_spec (S n) (c :: r) = (if (n =? 0)%nat then c :: r else until is_ws (c :: r)) :: split_spec n (from is_ws (c :: r)))
    by (cbn [split_spec from]; rewrite !Hc; cbn [negb]; by rewrite Hq, ?Hc).
  assert (Hl : length (c :: r) = S (length r)) by done. assert (Hws : forall d u, c :: r = d :: u -> is_ws d = false) by (intros; by simplify_eq).
  revert Hsp Hl Hws Ht. generalize (c :: r). intros t Hsp Hl Hws Ht.
  pose proof (until_from is_ws t) as Ht2. pose proof (from_head is_ws t) as Hh.
  revert Hsp Ht2 Hh. generalize (until is_ws t) (from is_ws t). intros tok rest Hsp <- Hh. apply text_app in Ht as [Htok Hrest].
  rewrite length_app in Hl.
  apply (split_more _ n _ _ _ tok rest _ (if (n =? 0)%nat then tok ++ rest else tok)); [|by rewrite length_app|done| |done|].
  - rewrite <- app_assoc, (app_assoc pre). apply IH; [done| |]; rewrite length_app; lia.
  - intros d u E Hd. by rewrite (Hws d u E) in Hd.
  - intros rest' Hl0 Hn0 Hn1. rewrite arg_at_app by lia. destruct (Nat.eqb_spec n 0) as [Hn|Hn].
    + rewrite Hn0, app_assoc by done. apply cstr_app. by apply text_app.
    + destruct rest as [|d u]; [destruct rest'; [by apply cstr_app|done]|].
      destruct (Hn1 Hn d u eq_refl (Hh d u eq_refl)) as [t' ->]. by apply cstr_app.
Qed.

Lemma split_quoted c r pre i :
  text (c :: r) -> i = Z.of_nat (length pre) -> len = Z.of_nat (length pre + S (length r)) -> is_ws c = false -> is_quote c = true ->
  split_done (S n) (c :: r) pre post (split_loop (S n) i len (pre ++ (c :: r) ++ 0 :: post)).
Proof.
  intros Ht Hi Hlen Hc Hq. apply text_cons in Ht as [_ Ht]. cbn [split_loop]. replace (Z.to_nat (len - i)) with (S (length r)) by lia.
  rewrite <- app_comm_cons, skip_none by done. cbn [mbind option_bind]. destruct (Z.leb_spec len i); [lia|].
  rewrite bget_app by done. cbn [mbind option_bind]. rewrite Hq. rewrite bput_app by done. cbn [mbind option_bind].
  assert (Hws : forall (d : Z) u k, c :: r = d :: u -> is_ws d = true -> exists t' : list Z, k = 0 :: t') by (intros; simplify_eq; congruence).
  assert (Hsp : split_spec (S n) (c :: r) = match r with [] => [] | _ => until (fun d => d =? c) r :: split_spec n (drop 1 (from (fun d => d =? c) r)) end)
    by (cbn [split_spec from]; rewrite !Hc; cbn [negb]; by rewrite Hq, ?Hc).
  destruct (Z.leb_spec len (i + 1)).
  { destruct r as [|]; [|simpl in *; lia]. exists [], [0]. rewrite Hsp. repeat split; try done. intros _ d u E Hd. by eapply Hws. }
  replace (Z.to_nat (len - (i + 1))) with (length r) by lia.
  rewrite snoc_buffer, scan_spec by (rewrite length_app; simpl; lia). cbn [mbind option_bind].
  assert (Hsp2 : split_spec (S n) (c :: r) = until (fun d => d =? c) r :: split_spec n (drop 1 (from (fun d => d =? c) r))) by (rewrite Hsp; destruct r; [simpl in *; lia|done]).
  clear Hsp. pose proof (until_from (fun d => d =? c) r) as Hr. revert Hsp2 Hr.
  generalize (until (fun d => d =? c) r) (from (fun d => d =? c) r). intros tok rest Hsp Hr.
  rewrite <- Hr in Ht. apply text_app in Ht as [Htok Hrest]. assert (Hlr : length r = (length tok + length rest)%nat) by (rewrite <- Hr; apply length_app).
  destruct rest as [|q rest].
  - destruct (Z.ltb_spec (i + 1 + Z.of_nat (length tok)) len); [simpl in Hlr; lia|]. rewrite app_nil_r in Hr.
    apply (split_more _ n _ _ _ (0 :: tok) [] _ tok); [|simpl in *; lia|done|by eauto|done|].
    + rewrite <- Hr, <- app_assoc. change ([0] ++ tok ++ 0 :: post) with ((0 :: tok) ++ [] ++ 0 :: post). rewrite app_assoc. apply (IH []); [done| |]; rewrite length_app; simpl in *; lia.
    + intros rest' Hl0 _ _. destruct rest'; [|done]. simpl. rewrite (snoc_buffer pre), arg_at_app by (rewrite length_app; simpl; lia). by apply cstr_app.
  - destruct (Z.ltb_spec (i + 1 + Z.of_nat (length tok)) len); [|simpl in Hlr; lia].
    rewrite <- Hr, <- (app_assoc tok), (app_assoc _ tok), <- app_comm_cons, bput_app by (rewrite !length_app; simpl; lia). cbn [mbind option_bind].
    apply text_cons in Hrest as [_ Hrest].
    replace (((pre ++ [0]) ++ tok) ++ 0 :: rest ++ 0 :: post) with ((pre ++ 0 :: tok ++ [0]) ++ rest ++ 0 :: post) by (rewrite <- !app_assoc; simpl; by rewrite <- !app_assoc).
    apply (split_more _ n _ _ _ (0 :: tok ++ [0]) rest _ tok); [| |done|by rewrite Hr; eauto|by rewrite Hr|].
    + apply IH; [done| |]; rewrite length_app; simpl in *; rewrite length_app; simpl; lia.
    + simpl in *. rewrite !length_app. simpl. lia.
    + intros rest' Hl0 _ _. simpl. rewrite <- app_assoc, (snoc_buffer pre), arg_at_app by (rewrite length_app; simpl; lia). by apply cstr_app.
Qed.

End SplitStep.

Lemma split_loop_spec args s pre post i len :
  text s -> i = Z.of_nat (length pre) -> len = Z.of_nat (length pre + length s) ->
  split_done args s pre post (split_loop args i len (pre ++ s ++ 0 :: post)).
Proof.
  revert s pre i. induction args as [|n IH]; intros s pre i Ht Hi Hlen; [by exists [], s|].
  pose proof (until_from (fun c => negb (is_ws c)) s) as Hs. pose proof (until_none (fun c => negb (is_ws c)) s) as Hw.
  pose proof (from_head (fun c => negb (is_ws c)) s) as Hh.
  assert (Hloop : split_loop (S n) i len (pre ++ s ++ 0 :: post) =
    split_loop (S n) (i + Z.of_nat (length (until (fun c => negb (is_ws c)) s))) len
      ((pre ++ replicate (length (until (fun c => negb (is_ws c)) s)) 0) ++ from (fun c => negb (is_ws c)) s ++ 0 :: post)).
  { rewrite <- app_assoc. set (i1 := i + _). set (cmd1 := pre ++ replicate _ _ ++ _).
    assert (skip_ws (Z.to_nat (len - i1)) i1 cmd1 = Some (i1, cmd1)) as Hsk.
    { subst i1 cmd1. destruct (from (fun c => negb (is_ws c)) s) as [|c r] eqn:E; rewrite <- Hs, length_app in Hlen.
      - by replace (Z.to_nat _) with 0%nat by (simpl in Hlen; lia).
      - replace (Z.to_nat _) with (S (length r)) by (simpl in Hlen; lia). rewrite app_assoc, <- (app_comm_cons r).
        apply (skip_none _ _ c); [rewrite length_app, length_replicate; lia|]. apply negb_true_iff. by eapply Hh. }
    cbn [split_loop]. rewrite Hsk. replace (Z.to_nat (len - i)) with (length s) by lia. by rewrite skip_ws_spec. }
  rewrite Hloop. clear Hloop. revert Hs Hw Hh. generalize (until (fun c => negb (is_ws c)) s) (from (fun c => negb (is_ws c)) s).
  intros ws t <- Hw Hh. apply text_app in Ht as [_ Ht]. rewrite length_app in Hlen.
  apply split_skip; [|done|eapply Forall_impl; [|exact Hw]; intros; by apply negb_false_iff|intros c u ->; apply negb_true_iff; by eapply Hh].
  destruct t as [|c r].
  - cbn [split_loop]. replace (Z.to_nat (len - (i + Z.of_nat (length ws)))) with 0%nat by (simpl in Hlen; lia). simpl skip_ws. cbn [mbind option_bind].
    destruct (Z.leb_spec len (i + Z.of_nat (length ws))); [|simpl in Hlen; lia]. by exists [], [].
  - specialize (Hh c r eq_refl). apply negb_true_iff in Hh.
    destruct (is_quote c) eqn:Eq; [apply split_quoted|apply split_word]; try done; rewrite length_app, length_replicate; simpl in Hlen; lia.
Qed.

Lemma shell_split_spec kMaxArgs s post :
  text s ->
  exists argv cmd, ShellSplit kMaxArgs (Z.of_nat (length s)) (s ++ 0 :: post) = Some (argv, cmd) /\
    length cmd = length (s ++ 0 :: post) /\ mapM (arg_at cmd) argv = Some (split_spec kMaxArgs s).
Proof.
  intros Hs. destruct (split_loop_spec kMaxArgs s [] post 0 (Z.of_nat (length s))) as (argv & s' & E & Hl & Ha & _); [done..|].
  exists argv, (s' ++ 0 :: post). split; [exact E|]. split; [rewrite !length_app; lia|exact Ha].
Qed.

Lemma split_spec_text n s : text s -> Forall text (split_spec n s).
Proof.
  revert s. induction n as [|n IH]; intros s Hs; [constructor|]. cbn [split_spec].
  rewrite <- (until_from (fun c => negb (is_ws c)) s), text_app in Hs. destruct Hs as [_ Hs].
  destruct (from (fun c => negb (is_ws c)) s) as [|c r]; [constructor|]. destruct (is_quote c).
  - destruct r as [|c' r]; [constructor|]. apply text_cons in Hs as [_ Hs].
    rewrite <- (until_from (fun d => d =? c) (c' :: r)), text_app in Hs. destruct Hs as [H1 H2].
    constructor; [done|]. apply IH. destruct (from (fun d => d =? c) (c' :: r)) as [|q r']; [done|]. by apply text_cons in H2 as [_ ?].
  - pose proof Hs as Hs'. rewrite <- (until_from is_ws (c :: r)), text_app in Hs'. destruct Hs' as [H1 H2].
    constructor; [by destruct (n =? 0)%nat|by apply IH].
Qed.

(** A line from arguments: each in quotes it does not contain, followed by a blank. *)
Definition quote_for (a : list Z) : Z := if bool_decide (34 ∈ a) then 39 else 34.
Definition quoted (a : list Z) : list Z := quote_for a :: a ++ [quote_for a].
Definition quoted_line (args : list (list Z)) : list Z := args ≫= fun a => quoted a ++ [32].
Definition quotable (a : list Z) : Prop := text a /\ ~ (34 ∈ a /\ 39 ∈ a).

Lemma quote_free a : quotable a -> Forall (fun c => (c =? quote_for a) = false) a.
Proof.
  intros [_ Ha]. apply Forall_forall. intros c Hc%list_elem_of_In. apply Z.eqb_neq. unfold quote_for. case_bool_decide as H; intros ->; [by apply Ha|done].
Qed.

Lemma quoted_line_text args : Forall quotable args -> text (quoted_line args).
Proof.
  induction 1 as [|a args [Ht _] _ IH]; [constructor|]. unfold quoted_line. cbn [mbind list_bind]. apply text_app. split; [|exact IH].
  unfold quoted. rewrite <- app_comm_cons. apply text_cons. assert (quote_for a <> 0) by (unfold quote_for; by case_bool_decide).
  split; [done|]. rewrite <- app_assoc. apply text_app. split; [done|]. by repeat constructor.
Qed.

Lemma split_quoted_line n args : Forall quotable args -> (length args <= n)%nat -> split_spec n (quoted_line args) = args.
Proof.
  intros Ha. revert n. induction Ha as [|a args Hq Ha IH]; intros [|n] Hn; try (simpl in Hn; lia); [done..|].
  unfold quoted_line. cbn [mbind list_bind]. fold (quoted_line args). unfold quoted.
  assert (Hw : is_ws (quote_for a) = false) by (unfold quote_for; by case_bool_decide).
  assert (Hi : is_quote (quote_for a) = true) by (unfold quote_for; by case_bool_decide).
  cbn [split_spec app from]. rewrite Hw. cbn [negb]. rewrite Hi, <- !app_assoc.
  destruct (until_app (fun d => d =? quote_for a) a ([quote_for a] ++ [32] ++ quoted_line args) (quote_free a Hq)) as [E1 E2]. rewrite E1, E2.
  cbn [app until from]. rewrite Z.eqb_refl, app_nil_r. cbn [drop].
  destruct (a ++ _) as [|c0 r0] eqn:E; [by apply app_eq_nil in E as [_ ?]|]. f_equal.
  transitivity (split_spec n (quoted_line args)); [|apply IH; simpl in Hn; lia]. by destruct n.
Qed.

(** Round trip: a line made of up to kMaxArgs quoted arguments, whatever follows it
    in the buffer, is split in place into exactly those arguments, blanks and empty
    arguments included. *)
Lemma shell_split_roundtrip kMaxArgs args post :
  Forall quotable args -> (length args <= kMaxArgs)%nat ->
  exists argv cmd, ShellSplit kMaxArgs (Z.of_nat (length (quoted_line args))) (quoted_line args ++ 0 :: post) = Some (argv, cmd) /\
    mapM (arg_at cmd) argv = Some args.
Proof.
  intros Ha Hn. destruct (shell_split_spec kMaxArgs (quoted_line args) post (quoted_line_text args Ha)) as (argv & cmd & E & _ & Hm).
  exists argv, cmd. split; [done|]. by rewrite Hm, split_quoted_line.
Qed.

Lemma shell_split_roundtrip_witness :
  exists argv cmd, ShellSplit 16 (Z.of_nat (length (quoted_line [str "set"; str "a b"; []; str "it's"]))) (quoted_line [str "set"; str "a b"; []; str "it's"] ++ 0 :: [7; 7]) = Some (argv, cmd) /\
    mapM (arg_at cmd) argv = Some [str "set"; str "a b"; []; str "it's"].
Proof.
  apply shell_split_roundtrip; [|simpl; lia].
  repeat constructor; try (vm_compute; congruence); intros [H1 H2]; revert H1 H2; rewrite <- !(bool_decide_eq_true (_ ∈ _)); vm_compute; congruence.
Defined.

(** The sixteenth argument of an unquoted line takes the rest of the line with it. *)
Lemma shell_split_last_takes_rest : split_spec 2 (str "a b c") = [str "a"; str "b c"].
Proof. done. Qed.

(** ** Completion *)

(** The longest common prefix. *)
Fixpoint lcp (a b : list Z) : list Z :=
  match a, b with x :: a, y :: b => if x =? y then x :: lcp a b else [] | _, _ => [] end.

Lemma lcp_greatest p a b : p `prefix_of` lcp a b <-> p `prefix_of` a /\ p `prefix_of` b.
Proof.
  revert a b. induction p as [|z p IH]; intros a b; [by repeat split; intros; apply prefix_nil|].
  destruct a as [|x a], b as [|y b]; simpl; try (split; [intros H|intros [H1 H2] ]; exfalso; by eapply prefix_nil_not).
  destruct (Z.eqb_spec x y) as [->|Hne].
  - split.
    + intros H. assert (z = y) as -> by by eapply prefix_cons_inv_1. apply prefix_cons_inv_2, IH in H as [? ?]. split; by apply prefix_cons.
    + intros [H1 H2]. assert (z = y) as -> by by eapply prefix_cons_inv_1. apply prefix_cons, IH. split; by eapply prefix_cons_inv_2.
  - split; [intros H; exfalso; by eapply prefix_nil_not|]. intros [H1%prefix_cons_inv_1 H2%prefix_cons_inv_1]. congruence.
Qed.

Lemma lcp_prefix a b : lcp a b `prefix_of` a.
Proof. by destruct (proj1 (lcp_greatest (lcp a b) a b) (reflexivity _)). Qed.

Lemma common_from_spec u a b done_ :
  text a -> u = (done_ ++ a) -> forall n, (n <= length a)%nat ->
  forall other, other = (done_ ++ b) -> common_from n (length done_) u other = Some (length done_ + length (lcp (take n a) b))%nat.
Proof.
  revert b done_. induction a as [|x a IH]; intros b done_ Ha -> n Hn other ->.
  - destruct n; [|simpl in Hn; lia]. simpl. by rewrite Nat.add_0_r.
  - apply text_cons in Ha as [Hx Ha]. destruct n as [|n]; [simpl; by rewrite Nat.add_0_r|]. cbn [common_from].
    rewrite cchar_mid. cbn [mbind option_bind].
    destruct b as [|y b]; cbn [take lcp].
    + rewrite app_nil_r, cchar_end. cbn [mbind option_bind]. destruct (Z.eqb_spec x 0); [done|]. by rewrite Nat.add_0_r.
    + rewrite cchar_mid. cbn [mbind option_bind]. destruct (Z.eqb_spec x y) as [->|Hne]; [|by rewrite Nat.add_0_r].
      replace (S (length done_)) with (length (done_ ++ [y])) by (rewrite length_app; simpl; lia).
      rewrite (IH b (done_ ++ [y])); [rewrite length_app; simpl; f_equal; lia|done|by rewrite <- app_assoc|simpl in Hn; lia|by rewrite <- app_assoc].
Qed.

Lemma common_fold first others n :
  text first -> (n <= length first)%nat ->
  exists t, fold_left (common_step first) others (Some n) = Some (length t) /\ t `prefix_of` first /\
    (forall p, p `prefix_of` t <-> p `prefix_of` take n first /\ Forall (fun o => p `prefix_of` o) others).
Proof.
  intros Hf. revert n. induction others as [|o others IH]; intros n Hn.
  { exists (take n first). rewrite length_take_le by done. split; [done|]. split; [apply prefix_take|]. intros p. split; [by intros|by intros [? _] ]. }
  cbn [fold_left]. unfold common_step at 2. cbn [mbind option_bind].
  rewrite (common_from_spec first first o []) by done. cbn [length plus].
  assert (Hl : lcp (take n first) o `prefix_of` first) by (etransitivity; [apply lcp_prefix|apply prefix_take]).
  assert (Ht : take (length (lcp (take n first) o)) first = lcp (take n first) o) by by apply prefix_take_eq.
  destruct (IH (length (lcp (take n first) o))) as (t & E & Hp & Hg); [by apply prefix_length|].
  exists t. split; [done|]. split; [done|]. intros p. rewrite Hg, Ht, lcp_greatest, Forall_cons_iff. tauto.
Qed.

Section Complete.
Context {F : Type}.

Definition matching (prefix : list Z) (r : list (ShellCmd F)) : list (list Z) := filter (fun n => prefix `prefix_of` n) (name <$> r).

(** [t] is what all of [l] start with, and the longest such. *)
Definition longest_common (t : list Z) (l : list (list Z)) : Prop := forall p, p `prefix_of` t <-> l <> [] /\ Forall (fun n => p `prefix_of` n) l.

Lemma filter_matching prefix (r : list (ShellCmd F)) : name <$> filter (fun c => strneq (length prefix) (name c) prefix = true) r = matching prefix r.
Proof.
  unfold matching. induction r as [|c r IH]; [done|]. csimpl. rewrite !filter_cons. pose proof (strneq_prefix (name c) prefix).
  repeat case_decide; try tauto; csimpl; by rewrite ?IH.
Qed.

Lemma put_text_ok (b t : list Z) : (length t < length b)%nat -> text t -> exists b', put_text b t = Some b' /\ length b' = length b /\ cstr b' = Some t.
Proof.
  intros Hl Ht. unfold put_text. rewrite bcopy_ok by lia. cbn [mbind option_bind].
  destruct (drop (length t) b) as [|y d] eqn:E; [apply (f_equal length) in E; rewrite length_drop in E; simpl in E; lia|].
  exists (t ++ 0 :: d). rewrite bput_app by done. split; [done|]. split; [|by apply cstr_app].
  apply (f_equal length) in E. rewrite length_drop in E. rewrite length_app. simpl in *. lia.
Qed.

Lemma text_take n s : text s -> text (take n s).
Proof. intros H. by apply Forall_take. Qed.

(** The completion of a prefix: how many names start with it, and in the buffer as much
    as fits of the longest text all of them start with. *)
Lemma auto_complete_spec prefix out_buf (r : list (ShellCmd F)) :
  out_buf <> [] -> Forall (fun c => text (name c)) r ->
  exists b t, AutoComplete prefix out_buf r = Some (Z.of_nat (length (matching prefix r)), b) /\ length b = length out_buf /\
    cstr b = Some (take (length out_buf - 1) t) /\ (matching prefix r = [] -> t = []) /\ (matching prefix r <> [] -> longest_common t (matching prefix r)).
Proof.
  intros Hb Hr. unfold AutoComplete. assert (0 < length out_buf)%nat by (destruct out_buf; simpl; [done|lia]).
  destruct (Z.eqb_spec (Z.of_nat (length out_buf)) 0); [lia|].
  rewrite <- (filter_matching prefix r).
  assert (Hm : Forall (fun c => text (name c)) (filter (fun c => strneq (length prefix) (name c) prefix = true) r)) by (apply Forall_forall; intros c [_ Hc]%list_elem_of_In%list_elem_of_filter; rewrite Forall_forall in Hr; by apply Hr, list_elem_of_In).
  revert Hm. generalize (filter (fun c => strneq (length prefix) (name c) prefix = true) r). intros ms Hm.
  destruct ms as [|c [|c' cs] ]; rewrite ?fmap_cons, ?fmap_nil.
  - destruct out_buf as [|x d]; [done|]. exists (0 :: d), []. rewrite take_nil. pose proof (bput_app [] d x 0 0 eq_refl) as E. simpl in E. rewrite E. split; [done|]. split; [done|]. split; [done|]. split; congruence.
  - apply Forall_cons_iff in Hm as [Hc _]. destruct (put_text_ok out_buf (take (length (name c) `min` (length out_buf - 1)) (name c))) as (b & E & Hl & Hs);
      [rewrite length_take; lia|by apply text_take|].
    exists b, (name c). rewrite E. split; [done|]. split; [done|]. split; [rewrite Hs; f_equal|].
    { rewrite Nat.min_comm, <- take_take, (take_ge (name c)) by lia. done. }
    split; [done|]. intros _ p. split; [by repeat constructor|]. intros [_ H1]. by apply Forall_cons_iff in H1 as [? _].
  - pose proof (Forall_cons_1 _ _ _ Hm) as [Hc _].
    destruct (common_fold (name c) (name <$> c' :: cs) (length (name c)) Hc (le_n _)) as (t & E & Hp & Hg). rewrite take_ge in Hg by lia.
    rewrite fmap_cons in E. rewrite E. cbn [mbind option_bind].
    destruct (put_text_ok out_buf (take (length t `min` (length out_buf - 1)) (name c))) as (b & E2 & Hl & Hs); [rewrite length_take; lia|by apply text_take|].
    exists b, t. rewrite E2. cbn [mbind option_bind]. split; [by rewrite <- !fmap_cons, length_fmap|]. split; [done|]. split.
    { rewrite Hs. f_equal. by rewrite Nat.min_comm, <- take_take, (prefix_take_eq t). }
    split; [done|]. intros _ p. rewrite Hg, Forall_cons_iff. split; [intros [? ?]; done|intros [_ ?]; done].
Qed.

End Complete.

(** ** The registry and the parsers *)

(** Registered commands keep their order and their names stay distinct; a registered
    command is found by its name until the end. *)
Lemma register_spec {F} n (fn : ShellCmdFn F) d r :
  NoDup (name <$> r) -> Count r <= kMaxCommands ->
  let '(e, r') := Register n fn d r in
  NoDup (name <$> r') /\ Count r' <= kMaxCommands /\ r `prefix_of` r' /\
  (e = None <-> n ∉ name <$> r /\ Count r < kMaxCommands) /\ (e = None -> Find n r' = Some (mkCmd n d fn)) /\ (e <> None -> r' = r).
Proof.
  intros Hd Hc. unfold Register, Find. destruct (list_find _ r) as [ [i c]|] eqn:E; cbn [mbind option_bind].
  - apply list_find_Some in E as (Hi & Hn%streq_spec & _). repeat split; try done. intros [Hm _]. exfalso. apply Hm. rewrite <- Hn.
    apply list_elem_of_fmap_2, list_elem_of_lookup_2 with i. done.
  - apply list_find_None in E. assert (Hm : n ∉ name <$> r).
    { intros (c & -> & Hc')%list_elem_of_fmap. rewrite Forall_forall in E. apply (E c); [by apply list_elem_of_In|]. by apply streq_spec. }
    unfold Count in *. destruct (Z.leb_spec kMaxCommands (Z.of_nat (length r))); [repeat split; try done; lia|].
    rewrite fmap_app. repeat split; try done.
    + apply list.NoDup_app. split; [done|]. split; [|apply NoDup_singleton]. intros x Hx ->%list_elem_of_singleton. done.
    + rewrite length_app. simpl. lia.
    + by apply prefix_app_r.
    + intros _. rewrite list_find_app_r by by apply list_find_None. cbn [list_find]. simpl.
      destruct (decide (streq n n = true)) as [_|H']; [done|]. exfalso. apply H'. by apply streq_spec.
Qed.

(** White space, a sign and at least one digit. *)
Definition decimal (s : list Z) (neg : bool) (ds : list Z) : Prop :=
  exists ws sg, s = ws ++ sg ++ ds /\ Forall (fun c => isspace c = true) ws /\ Forall (fun c => isdigit c = true) ds /\ ds <> [] /\
    (if neg then sg = [45] else sg = [] \/ sg = [43]).

Lemma digit_char c : isdigit c = true -> isspace c = false /\ c <> 45 /\ c <> 43.
Proof. unfold isdigit, isspace. intros. bool_prop. repeat split; repeat case_bool; try lia; done. Qed.

Lemma strto_parts_decimal s neg ds : decimal s neg ds -> strto_parts s = (neg, ds, []).
Proof.
  intros (ws & sg & -> & Hws & Hds & Hne & Hsg). unfold strto_parts.
  assert (Hw : Forall (fun c => negb (isspace c) = false) ws) by (eapply Forall_impl; [|exact Hws]; intros c ->; done).
  assert (Hd : Forall (fun c => negb (isdigit c) = false) ds) by (eapply Forall_impl; [|exact Hds]; intros c ->; done).
  destruct (until_app _ ws (sg ++ ds) Hw) as [_ ->]. pose proof (until_app _ ds [] Hd) as [E1 E2]. rewrite app_nil_r in *. cbn [until from] in *.
  destruct ds as [|d ds]; [done|]. apply Forall_cons_iff in Hds as [Hd0 _]. apply digit_char in Hd0 as (H1 & H2 & H3).
  assert (match sg ++ d :: ds with c :: s' => if c =? 45 then (true, s') else if c =? 43 then (false, s') else (false, c :: s') | [] => (false, []) end = (neg, d :: ds)
    /\ from (fun c => negb (isspace c)) (sg ++ d :: ds) = sg ++ d :: ds) as [E E'].
  { destruct neg; [subst sg; done|]. destruct Hsg as [-> | ->]; [|done]. cbn [app from]. rewrite H1. split; [|done]. repeat case_bool; try lia. done. }
  rewrite E'. destruct (sg ++ d :: ds) eqn:Es; [by destruct sg|]. rewrite E. by rewrite E1, E2, app_nil_r.
Qed.

Lemma strto_parts_inv s neg ds : strto_parts s = (neg, ds, []) -> ds <> [] -> decimal s neg ds.
Proof.
  unfold strto_parts. intros E Hne. pose proof (until_from (fun c => negb (isspace c)) s) as Hs. pose proof (until_none (fun c => negb (isspace c)) s) as Hw.
  assert (Hws : Forall (fun c => isspace c = true) (until (fun c => negb (isspace c)) s)) by (eapply Forall_impl; [|exact Hw]; intros c; apply negb_false_iff).
  assert (Hd : forall t, until (fun c => negb (isdigit c)) t = ds -> from (fun c => negb (isdigit c)) t = [] -> t = ds /\ Forall (fun c => isdigit c = true) ds).
  { intros t H1 H2. pose proof (until_from (fun c => negb (isdigit c)) t) as Ht. rewrite H1, H2, app_nil_r in Ht. split; [done|].
    rewrite <- H1. eapply Forall_impl; [|apply until_none]. intros c; apply negb_false_iff. }
  destruct (from _ s) as [|c s'] eqn:Ef.
  - injection E as <- <-. done.
  - destruct (Z.eqb_spec c 45) as [->|]; [|destruct (Z.eqb_spec c 43) as [->|] ]; injection E as <- E1 E2;
      [destruct (Hd s' E1 E2) as [Ht Hds]|destruct (Hd s' E1 E2) as [Ht Hds]|destruct (Hd (c :: s') E1 E2) as [Ht Hds] ].
    + exists (until (fun c => negb (isspace c)) s), [45]. rewrite <- Ht. by repeat split; try done; rewrite Ht.
    + exists (until (fun c => negb (isspace c)) s), [43]. rewrite <- Ht. repeat split; try done; rewrite ?Ht; auto.
    + exists (until (fun c => negb (isspace c)) s), []. rewrite <- Ht. repeat split; try done; rewrite ?Ht; auto.
Qed.

(** ShellParseInt accepts exactly the decimal numerals whose value is an [int32_t]. *)
Lemma shell_parse_int_spec s v :
  ShellParseInt (Some s) = Some v <->
  exists neg ds, decimal s neg ds /\ v = (if neg then - dec_value ds else dec_value ds) /\ - 2 ^ 31 <= v < 2 ^ 31.
Proof.
  assert (H31 : 2 ^ 31 = 2147483648) by done. assert (H63 : 2 ^ 63 = 9223372036854775808) by done. unfold ShellParseInt, strtol. cbn [mbind option_bind]. split.
  - destruct s as [|c s]; [done|]. destruct (strto_parts (c :: s)) as [ [neg ds] rest] eqn:E. destruct ds as [|d ds]; [done|].
    set (v0 := if neg then _ else _). intros H. exists neg, (d :: ds).
    destruct (Z.ltb_spec v0 (- 2 ^ 63)); [by destruct rest|]. destruct (Z.leb_spec (2 ^ 63) v0); [by destruct rest|].
    destruct rest; [|done]. destruct (Z.ltb_spec v0 (- 2 ^ 31)), (Z.ltb_spec (2 ^ 31 - 1) v0); try done. injection H as <-.
    split; [by apply strto_parts_inv|]. split; [done|]. lia.
  - intros (neg & ds & Hd & Hv & Hr). rewrite (strto_parts_decimal _ _ _ Hd). destruct Hd as (ws & sg & -> & _ & _ & Hne & _).
    destruct ds as [|d ds]; [done|]. destruct (ws ++ sg ++ d :: ds) eqn:E; [destruct ws, sg; done|]. rewrite <- Hv.
    destruct (Z.ltb_spec v (- 2 ^ 63)), (Z.leb_spec (2 ^ 63) v), (Z.ltb_spec v (- 2 ^ 31)), (Z.ltb_spec (2 ^ 31 - 1) v); try lia. done.
Qed.

(** A minus sign behind a blank escapes the check for one: [strtoul] negates modulo
    2^64, and the text of -(2^64 - 1) is read as 1. *)
Lemma parse_uint_accepts_minus : ShellParseUint (Some (str " -18446744073709551615")) = Some 1.
Proof. vm_compute. done. Qed.
