(* ===== verification/Shell.v ===== *)
(** * The interactive shell (include/osp/shell.hpp)

    One session of the telnet, console or serial shell: the filter for telnet
    commands, the escape-sequence machine, line editing with history and completion,
    execution of a line, the input loops and the login.  A session is modelled with
    its buffers as the source has them, every access checked; [out] is everything
    written to the terminal.  The commands of the application are named by [F]: [run]
    says what one does to the world and which texts it prints with ShellPrintf.  What
    a read returns is the argument of the loops. *)

From Stdlib Require Import ZArith Lia Bool String.
From stdpp Require Import base numbers list option.
From S2P Require Import Prelude CBuffer ShellCmd.

Open Scope Z_scope.
Open Scope list_scope.

Inductive EscState := escNone | escEsc | escBracket.
Inductive IacState := iacNormal | iacIac | iacNego | iacSub.
(** The I/O functions a session can have: ShellTcpWrite and ShellTcpRead, or
    ShellPosixWrite and ShellPosixRead. *)
Inductive ShellIo := ShellTcp | ShellPosix.

Record ShellSession := mkSession {
  read_fd : Z;
  write_fd : Z;
  write_fn : option ShellIo;
  read_fn : option ShellIo;
  line_buf : list Z;
  line_pos : Z;
  history : list (list Z);
  hist_count : Z;
  hist_head : Z;
  hist_browse : Z;
  hist_browsing : bool;
  esc_state : EscState;
  iac_state : IacState;
  authenticated : bool;
  auth_attempts : Z;
  active : bool;
  telnet_mode : bool;
  skip_next_lf : bool;
  out : list Z
}.

Definition set_line_buf (x : list Z) (s : ShellSession) : ShellSession :=
  mkSession (read_fd s) (write_fd s) (write_fn s) (read_fn s) x (line_pos s) (history s) (hist_count s) (hist_head s) (hist_browse s) (hist_browsing s) (esc_state s) (iac_state s) (authenticated s) (auth_attempts s) (active s) (telnet_mode s) (skip_next_lf s) (out s).
Definition set_line_pos (x : Z) (s : ShellSession) : ShellSession :=
  mkSession (read_fd s) (write_fd s) (write_fn s) (read_fn s) (line_buf s) x (history s) (hist_count s) (hist_head s) (hist_browse s) (hist_browsing s) (esc_state s) (iac_state s) (authenticated s) (auth_attempts s) (active s) (telnet_mode s) (skip_next_lf s) (out s).
Definition set_history (x : list (list Z)) (s : ShellSession) : ShellSession :=
  mkSession (read_fd s) (write_fd s) (write_fn s) (read_fn s) (line_buf s) (line_pos s) x (hist_count s) (hist_head s) (hist_browse s) (hist_browsing s) (esc_state s) (iac_state s) (authenticated s) (auth_attempts s) (active s) (telnet_mode s) (skip_next_lf s) (out s).
Definition set_hist_count (x : Z) (s : ShellSession) : ShellSession :=
  mkSession (read_fd s) (write_fd s) (write_fn s) (read_fn s) (line_buf s) (line_pos s) (history s) x (hist_head s) (hist_browse s) (hist_browsing s) (esc_state s) (iac_state s) (authenticated s) (auth_attempts s) (active s) (telnet_mode s) (skip_next_lf s) (out s).
Definition set_hist_head (x : Z) (s : ShellSession) : ShellSession :=
  mkSession (read_fd s) (write_fd s) (write_fn s) (read_fn s) (line_buf s) (line_pos s) (history s) (hist_count s) x (hist_browse s) (hist_browsing s) (esc_state s) (iac_state s) (authenticated s) (auth_attempts s) (active s) (telnet_mode s) (skip_next_lf s) (out s).
Definition set_hist_browse (x : Z) (s : ShellSession) : ShellSession :=
  mkSession (read_fd s) (write_fd s) (write_fn s) (read_fn s) (line_buf s) (line_pos s) (history s) (hist_count s) (hist_head s) x (hist_browsing s) (esc_state s) (iac_state s) (authenticated s) (auth_attempts s) (active s) (telnet_mode s) (skip_next_lf s) (out s).
Definition set_hist_browsing (x : bool) (s : ShellSession) : ShellSession :=
  mkSession (read_fd s) (write_fd s) (write_fn s) (read_fn s) (line_buf s) (line_pos s) (history s) (hist_count s) (hist_head s) (hist_browse s) x (esc_state s) (iac_state s) (authenticated s) (auth_attempts s) (active s) (telnet_mode s) (skip_next_lf s) (out s).
Definition set_esc_state (x : EscState) (s : ShellSession) : ShellSession :=
  mkSession (read_fd s) (write_fd s) (write_fn s) (read_fn s) (line_buf s) (line_pos s) (history s) (hist_count s) (hist_head s) (hist_browse s) (hist_browsing s) x (iac_state s) (authenticated s) (auth_attempts s) (active s) (telnet_mode s) (skip_next_lf s) (out s).
Definition set_iac_state (x : IacState) (s : ShellSession) : ShellSession :=
  mkSession (read_fd s) (write_fd s) (write_fn s) (read_fn s) (line_buf s) (line_pos s) (history s) (hist_count s) (hist_head s) (hist_browse s) (hist_browsing s) (esc_state s) x (authenticated s) (auth_attempts s) (active s) (telnet_mode s) (skip_next_lf s) (out s).
Definition set_authenticated (x : bool) (s : ShellSession) : ShellSession :=
  mkSession (read_fd s) (write_fd s) (write_fn s) (read_fn s) (line_buf s) (line_pos s) (history s) (hist_count s) (hist_head s) (hist_browse s) (hist_browsing s) (esc_state s) (iac_state s) x (auth_attempts s) (active s) (telnet_mode s) (skip_next_lf s) (out s).
Definition set_auth_attempts (x : Z) (s : ShellSession) : ShellSession :=
  mkSession (read_fd s) (write_fd s) (write_fn s) (read_fn s) (line_buf s) (line_pos s) (history s) (hist_count s) (hist_head s) (hist_browse s) (hist_browsing s) (esc_state s) (iac_state s) (authenticated s) x (active s) (telnet_mode s) (skip_next_lf s) (out s).
Definition set_active (x : bool) (s : ShellSession) : ShellSession :=
  mkSession (read_fd s) (write_fd s) (write_fn s) (read_fn s) (line_buf s) (line_pos s) (history s) (hist_count s) (hist_head s) (hist_browse s) (hist_browsing s) (esc_state s) (iac_state s) (authenticated s) (auth_attempts s) x (telnet_mode s) (skip_next_lf s) (out s).
Definition set_skip_next_lf (x : bool) (s : ShellSession) : ShellSession :=
  mkSession (read_fd s) (write_fd s) (write_fn s) (read_fn s) (line_buf s) (line_pos s) (history s) (hist_count s) (hist_head s) (hist_browse s) (hist_browsing s) (esc_state s) (iac_state s) (authenticated s) (auth_attempts s) (active s) (telnet_mode s) x (out s).
Definition set_out (x : list Z) (s : ShellSession) : ShellSession :=
  mkSession (read_fd s) (write_fd s) (write_fn s) (read_fn s) (line_buf s) (line_pos s) (history s) (hist_count s) (hist_head s) (hist_browse s) (hist_browsing s) (esc_state s) (iac_state s) (authenticated s) (auth_attempts s) (active s) (telnet_mode s) (skip_next_lf s) x.

(** The size of a line buffer, of the history, and of [argv]; whether [char] is
    signed. *)
Class ShellConfig := { LINE_BUF_SIZE : Z; HISTORY_SIZE : Z; MAX_ARGS : nat; char_signed : bool }.
Class ShellConfigOk `{ShellConfig} := {
  line_size : 2 <= LINE_BUF_SIZE < 2 ^ 16;
  history_size : 1 <= HISTORY_SIZE < 2 ^ 16
}.
(** The defaults of opt.hpp. *)
Definition shell_default (sgn : bool) : ShellConfig := {| LINE_BUF_SIZE := 256; HISTORY_SIZE := 16; MAX_ARGS := 16; char_signed := sgn |}.

Section Shell.
Context `{ShellConfig} {F W : Type}.

(** [static_cast<int>(ch)]. *)
Definition char_val (c : Z) : Z := if char_signed then signed 8 c else c.

Definition new_session : ShellSession :=
  mkSession (-1) (-1) None None (replicate (Z.to_nat LINE_BUF_SIZE) 0) 0
    (replicate (Z.to_nat HISTORY_SIZE) (replicate (Z.to_nat LINE_BUF_SIZE) 0)) 0 0 0 false escNone iacNormal false 0 false false false [].

Definition ShellSessionInit (rfd wfd : Z) (wfn rfn : option ShellIo) (telnet : bool) (s : ShellSession) : ShellSession :=
  mkSession rfd wfd wfn rfn (line_buf s) 0 (history s) (hist_count s) (hist_head s) (hist_browse s) false
    escNone iacNormal (authenticated s) (auth_attempts s) true telnet false (out s).

Definition ShellSessionWrite (b : list Z) (s : ShellSession) : ShellSession :=
  match write_fn s, b with
  | Some _, _ :: _ => set_out (out s ++ b) s
  | _, _ => s
  end.

(** ** History *)

(** [for (i = 0; i < line_pos; ++i) write "\b \b"]. *)
Definition erase_one : list Z := [8; 32; 8].
Fixpoint erase_line (n : nat) (s : ShellSession) : ShellSession :=
  match n with O => s | S n => erase_line n (ShellSessionWrite erase_one s) end.

Definition ReplaceLine (new_line : list Z) (s : ShellSession) : option ShellSession :=
  let s := erase_line (Z.to_nat (line_pos s)) s in
  let s := ShellSessionWrite new_line s in
  b ← bcopy (line_buf s) new_line;
  b ← bput b (Z.of_nat (length new_line)) 0;
  Some (set_line_pos (Z.of_nat (length new_line)) (set_line_buf b s)).

Definition PushHistory (s : ShellSession) : option ShellSession :=
  if line_pos s =? 0 then Some s
  else
    b ← bput (line_buf s) (line_pos s) 0;
    let s := set_line_buf b s in
    dup ←
      (if 0 <? hist_count s then
         row ← bget (history s) (u32 (hist_head s + HISTORY_SIZE - 1) mod HISTORY_SIZE);
         x ← cstr row; y ← cstr (line_buf s);
         Some (streq x y)
       else Some false);
    if (dup : bool) then Some s
    else
      row ← bget (history s) (hist_head s);
      t ← bread (line_buf s) (line_pos s + 1);
      row ← bcopy row t;
      h ← bput (history s) (hist_head s) row;
      let s := set_history h s in
      let s := set_hist_head (u32 (hist_head s + 1) mod HISTORY_SIZE) s in
      Some (if hist_count s <? HISTORY_SIZE then set_hist_count (u32 (hist_count s + 1)) s else s).

Definition show_entry (i : Z) (s : ShellSession) : option ShellSession :=
  row ← bget (history s) i; t ← cstr row; ReplaceLine t (set_hist_browse i s).

Definition HistoryUp (s : ShellSession) : option ShellSession :=
  if hist_count s =? 0 then Some s
  else
    let s := if hist_browsing s then s else set_hist_browsing true (set_hist_browse (hist_head s) s) in
    let oldest := if hist_count s <? HISTORY_SIZE then 0 else hist_head s in
    if hist_browse s =? oldest then Some s
    else show_entry (u32 (hist_browse s + HISTORY_SIZE - 1) mod HISTORY_SIZE) s.

Definition HistoryDown (s : ShellSession) : option ShellSession :=
  if negb (hist_browsing s) then Some s
  else
    let newest := u32 (hist_head s + HISTORY_SIZE - 1) mod HISTORY_SIZE in
    if (hist_browse s =? newest) || (hist_browse s =? hist_head s) then ReplaceLine [] (set_hist_browsing false s)
    else show_entry (u32 (hist_browse s + 1) mod HISTORY_SIZE) s.

(** ** Telnet *)

(** The character for the line editor, or 0 when the byte was consumed. *)
Definition FilterIac (byte : Z) (s : ShellSession) : Z * ShellSession :=
  match iac_state s with
  | iacNormal => if byte =? 255 then (0, set_iac_state iacIac s) else (byte, s)
  | iacIac =>
    if (251 <=? byte) && (byte <=? 254) then (0, set_iac_state iacNego s)
    else if byte =? 250 then (0, set_iac_state iacSub s)
    else (if byte =? 255 then 255 else 0, set_iac_state iacNormal s)
  | iacNego => (0, set_iac_state iacNormal s)
  | iacSub => (0, if byte =? 255 then set_iac_state iacIac s else s)
  end.

(** ** Completion and line editing *)

Context (reg : list (ShellCmd F)) (run : F -> list (list Z) -> W -> W * list (list Z)).

Definition clamp_completion (n : Z) : Z := if LINE_BUF_SIZE - 1 <=? n then LINE_BUF_SIZE - 2 else n.

Definition list_match (line : list Z) (pos : Z) (s : ShellSession) (c : ShellCmd F) : ShellSession :=
  if strneq (Z.to_nat pos) (name c) line then ShellSessionWrite (str "  ") (ShellSessionWrite (name c) s) else s.

(** The branches for one match and for several; [t] is the completion, cut to the
    line buffer. *)
Definition tab_single (t : list Z) (s : ShellSession) : option ShellSession :=
  let comp_len := Z.of_nat (length t) in
  let s := erase_line (Z.to_nat (line_pos s)) s in
  b ← bcopy (line_buf s) t;
  b ← bput b comp_len 32;
  b ← bput b (comp_len + 1) 0;
  let s := set_line_pos (comp_len + 1) (set_line_buf b s) in
  shown ← bread (line_buf s) (line_pos s);
  Some (ShellSessionWrite shown s).
Definition tab_several (prompt line t : list Z) (s : ShellSession) : option ShellSession :=
  let comp_len := Z.of_nat (length t) in
  let s := ShellSessionWrite crlf s in
  let s := ForEach (list_match line (line_pos s)) reg s in
  let s := ShellSessionWrite crlf s in
  let s := ShellSessionWrite prompt s in
  b ← bcopy (line_buf s) t;
  b ← bput b comp_len 0;
  let s := set_line_pos comp_len (set_line_buf b s) in
  shown ← bread (line_buf s) (line_pos s);
  Some (ShellSessionWrite shown s).

Definition TabComplete (prompt : list Z) (s : ShellSession) : option ShellSession :=
  b ← bput (line_buf s) (line_pos s) 0;
  let s := set_line_buf b s in
  line ← cstr (line_buf s);
  '(matches, buf) ← AutoComplete line (replicate 64 0) reg;
  completion ← cstr buf;
  t ← bread completion (clamp_completion (Z.of_nat (length completion)));
  if matches =? 1 then tab_single t s
  else if 1 <? matches then tab_several prompt line t s
  else Some s.

(** The part of ProcessByte behind the filters. *)
Definition edit_char (ch : Z) (prompt : list Z) (s : ShellSession) : option (bool * ShellSession) :=
  if ch =? 27 then Some (false, set_esc_state escEsc s)
  else if ch =? 3 then
    let s := ShellSessionWrite (str "^C" ++ crlf) s in
    b ← bput (line_buf s) 0 0;
    let s := set_hist_browsing false (set_line_buf b (set_line_pos 0 s)) in
    Some (false, ShellSessionWrite prompt s)
  else if (ch =? 4) && (line_pos s =? 0) then Some (false, set_active false s)
  else if (ch =? 127) || (ch =? 8) then
    if 0 <? line_pos s then Some (false, ShellSessionWrite erase_one (set_line_pos (line_pos s - 1) s)) else Some (false, s)
  else if ch =? 9 then s ← TabComplete prompt s; Some (false, s)
  else if (ch =? 13) || (ch =? 10) then
    let s := ShellSessionWrite crlf s in
    let s := if ch =? 13 then set_skip_next_lf true s else s in
    Some (true, set_hist_browsing false s)
  else if (32 <=? char_val ch) && (line_pos s <? LINE_BUF_SIZE - 1) then
    b ← bput (line_buf s) (line_pos s) ch;
    Some (false, ShellSessionWrite [ch] (set_line_pos (line_pos s + 1) (set_line_buf b s)))
  else Some (false, s).

Definition process_char (ch : Z) (prompt : list Z) (s : ShellSession) : option (bool * ShellSession) :=
  let '(stop, s) := if skip_next_lf s then (ch =? 10, set_skip_next_lf false s) else (false, s) in
  if (stop : bool) then Some (false, s)
  else
    match esc_state s with
    | escEsc => Some (false, set_esc_state (if ch =? 91 then escBracket else escNone) s)
    | escBracket =>
      let s := set_esc_state escNone s in
      if ch =? 65 then s ← HistoryUp s; Some (false, s)
      else if ch =? 66 then s ← HistoryDown s; Some (false, s)
      else Some (false, s)
    | escNone => edit_char ch prompt s
    end.

Definition ProcessByte (raw_byte : Z) (prompt : list Z) (s : ShellSession) : option (bool * ShellSession) :=
  if telnet_mode s then
    let '(ch, s) := FilterIac raw_byte s in
    if ch =? 0 then Some (false, s) else process_char ch prompt s
  else process_char raw_byte prompt s.

(** ** Execution *)

(** [snprintf(buf, size, ...)] of a text, and [write(buf, n)] with the length it
    returns. *)
Definition snprintf (size : nat) (t : list Z) : list Z := take (size - 1) t ++ 0 :: replicate (size - 1 - length t) 0.
Definition print_buf (size : nat) (t : list Z) (s : ShellSession) : option ShellSession :=
  b ← bread (snprintf size t) (Z.of_nat (length t)); Some (ShellSessionWrite b s).

(** ShellPrintf of a formatted text, cut to its buffer of 256 bytes. *)
Definition ShellPrintf (s : ShellSession) (t : list Z) : ShellSession := ShellSessionWrite (take 255 t) s.

Definition help_line (c : ShellCmd F) : list Z := str "  " ++ pad 16 (name c) ++ str " - " ++ default [] (desc c) ++ crlf.
Definition run_help (s : ShellSession) : option ShellSession :=
  ForEach (fun (o : option ShellSession) c => s ← o; print_buf 256 (help_line c) s) reg (Some s).

Definition ShellExecuteLine (x : ShellSession * W) : option (ShellSession * W) :=
  let '(s, w) := x in
  s ← PushHistory s;
  b ← bput (line_buf s) (line_pos s) 0;
  '(argv, b) ← ShellSplit MAX_ARGS (line_pos s) b;
  let s := set_line_buf b s in
  match argv with
  | [] => Some (s, w)
  | a :: _ =>
    n ← arg_at (line_buf s) a;
    match Find n reg with
    | Some cmd =>
      args ← mapM (arg_at (line_buf s)) argv;
      match func cmd with
      | ShellBuiltinHelp => s ← run_help s; Some (s, w)
      | UserCmd f => let '(w, prints) := run f args w in Some (fold_left ShellPrintf prints s, w)
      end
    | None => s ← print_buf 160 (str "unknown command: " ++ n ++ crlf) s; Some (s, w)
    end
  end.

(** ** The input loops *)

(** What an iteration finds: nothing to read (a time-out, or an interrupted call), a
    byte, the end of the stream or an error, or that [running_] was cleared. *)
Inductive Input := Idle | Byte (b : Z) | Closed | Stopped.

(** The body of the loops after a byte was read. *)
Definition input_byte (prompt : list Z) (b : Z) (x : ShellSession * W) : option (ShellSession * W) :=
  let '(s, w) := x in
  '(ready, s) ← ProcessByte b prompt s;
  if (ready : bool) then
    '(s, w) ← ShellExecuteLine (s, w);
    b ← bput (line_buf s) 0 0;
    let s := set_line_buf b (set_line_pos 0 s) in
    Some (if active s then ShellSessionWrite prompt s else s, w)
  else Some (s, w).

(** The loop of DebugShell::SessionLoop, ConsoleShell::RunLoop and UartShell::RunLoop;
    the [bool] tells whether it has been left. *)
Fixpoint input_loop (prompt : list Z) (ins : list Input) (x : ShellSession * W) : option (bool * (ShellSession * W)) :=
  if negb (active x.1) then Some (true, x)
  else
    match ins with
    | [] => Some (false, x)
    | Stopped :: _ | Closed :: _ => Some (true, x)
    | Idle :: ins => input_loop prompt ins x
    | Byte b :: ins => x ← input_byte prompt b x; input_loop prompt ins x
    end.

Definition RunLoop (prompt : list Z) (ins : list Input) (x : ShellSession * W) : option (bool * (ShellSession * W)) :=
  input_loop prompt ins (ShellSessionWrite prompt x.1, x.2).

(** ** Login *)

(** [size_t] lengths; characters beyond the end count as 0. *)
Definition ConstantTimeEquals (lhs rhs : option (list Z)) : bool :=
  match lhs, rhs with
  | Some l, Some r =>
    let max_len := (length l `max` length r)%nat in
    let diff := u8 (Z.lxor (Z.of_nat (length l)) (Z.of_nat (length r))) in
    for_loop (fun i diff =>
      let a := if i <? Z.of_nat (length l) then u8 (aget l i) else 0 in
      let b := if i <? Z.of_nat (length r) then u8 (aget r i) else 0 in
      u8 (Z.lor diff (u8 (Z.lxor a b)))) 0 max_len diff =? 0
  | _, _ => false
  end.

(** Reading the user name or the password: [None] in the input is a failed read; the
    input may end before the field does. *)
Inductive FieldResult := FieldDone (buf : list Z) (s : ShellSession) (rest : list (option Z)) | FieldFailed (s : ShellSession) | FieldWaiting (s : ShellSession).

Fixpoint read_field (mask : bool) (ins : list (option Z)) (buf : list Z) (pos : Z) (s : ShellSession) : option FieldResult :=
  let finish s rest := b ← bput buf pos 0; Some (FieldDone b (ShellSessionWrite crlf s) rest) in
  if 63 <=? pos then finish s ins
  else
    match ins with
    | [] => Some (FieldWaiting s)
    | None :: _ => Some (FieldFailed s)
    | Some byte :: ins =>
      let '(ch, s) := FilterIac byte s in
      if ch =? 0 then read_field mask ins buf pos s
      else if (ch =? 13) || (ch =? 10) then finish (if ch =? 13 then set_skip_next_lf true s else s) ins
      else
        let '(skip, s) := if skip_next_lf s then (ch =? 10, set_skip_next_lf false s) else (false, s) in
        if (skip : bool) then read_field mask ins buf pos s
        else if (ch =? 127) || (ch =? 8) then
          if 0 <? pos then read_field mask ins buf (pos - 1) (ShellSessionWrite erase_one s) else read_field mask ins buf pos s
        else if 32 <=? char_val ch then
          b ← bput buf pos ch;
          read_field mask ins b (pos + 1) (ShellSessionWrite (if mask then str "*" else [ch]) s)
        else read_field mask ins buf pos s
    end.

Record Credentials := mkCred { username : option (list Z); password : option (list Z) }.
Definition kMaxAuthAttempts : Z := 3.

(** The result of the login, or that it still waits for input. *)
Inductive AuthResult := AuthDone (ok : bool) (s : ShellSession) (rest : list (option Z)) | AuthWaiting (s : ShellSession).

(** [alive k]: what the loop condition reads of [active] and [running_] before attempt
    [k]; [tries] = [kMaxAuthAttempts - auth_attempts]. *)
Fixpoint auth_loop (cred : Credentials) (alive : Z -> bool) (tries : nat) (user_buf pass_buf : list Z) (ins : list (option Z)) (s : ShellSession) : option AuthResult :=
  match tries with
  | O => Some (AuthDone false (ShellSessionWrite (str "Too many attempts. Disconnecting." ++ crlf) s) ins)
  | S tries =>
    if negb (alive (auth_attempts s)) then Some (AuthDone false (ShellSessionWrite (str "Too many attempts. Disconnecting." ++ crlf) s) ins)
    else
      r ← read_field false ins user_buf 0 (ShellSessionWrite (str "Username: ") s);
      match r with
      | FieldFailed s => Some (AuthDone false s [])
      | FieldWaiting s => Some (AuthWaiting s)
      | FieldDone user_buf s ins =>
        r ← read_field true ins pass_buf 0 (ShellSessionWrite (str "Password: ") s);
        match r with
        | FieldFailed s => Some (AuthDone false s [])
        | FieldWaiting s => Some (AuthWaiting s)
        | FieldDone pass_buf s ins =>
          u ← cstr user_buf;
          p ← cstr pass_buf;
          if ConstantTimeEquals (Some u) (username cred) && ConstantTimeEquals (Some p) (password cred) then
            Some (AuthDone true (ShellSessionWrite (crlf ++ str "Authenticated." ++ crlf ++ crlf) (set_authenticated true s)) ins)
          else
            auth_loop cred alive tries user_buf pass_buf ins
              (ShellSessionWrite (crlf ++ str "Login incorrect." ++ crlf ++ crlf) (set_auth_attempts (u8 (auth_attempts s + 1)) s))
        end
      end
  end.

Definition RunAuth (cred : Credentials) (alive : Z -> bool) (ins : list (option Z)) (s : ShellSession) : option AuthResult :=
  auth_loop cred alive (Z.to_nat (kMaxAuthAttempts - auth_attempts s)) (replicate 64 0) (replicate 64 0) ins s.

(** AcceptLoop preparing a free slot for a connection. *)
Definition accept_session (fd : Z) (cred : Credentials) (s : ShellSession) : ShellSession :=
  set_active true (set_auth_attempts 0 (set_authenticated (match username cred with None => true | Some _ => false end)
    (ShellSessionInit fd fd (Some ShellTcp) (Some ShellTcp) true s))).

(** DebugShell::SessionLoop up to the loop: option negotiation, banner, login, prompt. *)
Definition session_greet (banner : option (list Z)) (s : ShellSession) : ShellSession :=
  let s := set_out (out s ++ [255; 251; 3] ++ [255; 251; 1]) s in
  match banner with Some b => ShellSessionWrite b s | None => s end.

(** The bytes left over from the login are what the loop reads first. *)
Definition leftover (o : option Z) : Input := match o with Some b => Byte b | None => Closed end.

(** The cleanup closes the socket and gives the slot back. *)
Definition session_end (r : bool * (ShellSession * W)) : bool * (ShellSession * W) :=
  let '(left_loop, (s, w)) := r in if left_loop then (true, (set_active false s, w)) else (false, (s, w)).

Definition SessionLoop (cred : Credentials) (banner : option (list Z)) (prompt : list Z) (alive : Z -> bool) (login : list (option Z)) (ins : list Input)
    (x : ShellSession * W) : option (bool * (ShellSession * W)) :=
  let '(s, w) := x in
  let s := session_greet banner s in
  if authenticated s then r ← RunLoop prompt ((leftover <$> login) ++ ins) (s, w); Some (session_end r)
  else
    r ← RunAuth cred alive login s;
    match r with
    | AuthWaiting s => Some (false, (s, w))
    | AuthDone false s _ => Some (session_end (true, (s, w)))
    | AuthDone true s rest => r ← RunLoop prompt ((leftover <$> rest) ++ ins) (s, w); Some (session_end r)
    end.

End Shell.
