(* ===== verification/ShellEditor.v ===== *)
(** * Correctness of the shell

    The shell session of Shell.v refines a line editor that keeps the line and the
    history as texts; what the terminal shows is the prompt and the line being edited;
    the login accepts exactly the right credentials, at most three times tried; the
    telnet filter returns the data of a telnet stream. *)

From Stdlib Require Import ZArith Lia Bool String.
From stdpp Require Import base numbers list option.
From S2P Require Import Prelude CBuffer ShellCmd Shell.

Open Scope Z_scope.
Open Scope list_scope.

(** ** The specification *)

Section Editor.
Context `{ShellConfig} {F W : Type} (reg : list (ShellCmd F)) (run : F -> list (list Z) -> W -> W * list (list Z)).

(** The line, the history (oldest first) and the entry shown, the states of the two
    filters, and the flags. *)
Record Editor := mkEd {
  e_line : list Z;
  e_hist : list (list Z);
  e_browse : option nat;
  e_esc : EscState;
  e_iac : IacState;
  e_active : bool;
  e_telnet : bool;
  e_skip : bool
}.

Definition with_line (l : list Z) (b : option nat) (e : Editor) : Editor :=
  mkEd l (e_hist e) b (e_esc e) (e_iac e) (e_active e) (e_telnet e) (e_skip e).
Definition with_esc (x : EscState) (e : Editor) : Editor :=
  mkEd (e_line e) (e_hist e) (e_browse e) x (e_iac e) (e_active e) (e_telnet e) (e_skip e).
Definition with_iac (x : IacState) (e : Editor) : Editor :=
  mkEd (e_line e) (e_hist e) (e_browse e) (e_esc e) x (e_active e) (e_telnet e) (e_skip e).
Definition with_skip (x : bool) (e : Editor) : Editor :=
  mkEd (e_line e) (e_hist e) (e_browse e) (e_esc e) (e_iac e) (e_active e) (e_telnet e) x.

Definition room : nat := Z.to_nat (HISTORY_SIZE).

(** A line enters the history unless it is empty or repeats the last entry; the oldest
    entry leaves when there is no room. *)
Definition spec_push (line : list Z) (h : list (list Z)) : list (list Z) :=
  if bool_decide (line = [] \/ list.last h = Some line) then h
  else (if (length h <? room)%nat then h else drop 1 h) ++ [line].

(** Browsing goes from the newest entry down to the first; once the history is full it
    does not start at all. *)
Definition spec_up (e : Editor) : Editor :=
  let n := length (e_hist e) in
  if (n =? 0)%nat then e
  else
    let b := default n (e_browse e) in
    if (b =? (if (n <? room)%nat then 0 else n))%nat then with_line (e_line e) (Some b) e
    else with_line (default [] (e_hist e !! (b - 1)%nat)) (Some (b - 1)%nat) e.
Definition spec_down (e : Editor) : Editor :=
  match e_browse e with
  | None => e
  | Some b =>
    if (length (e_hist e) - 1 <=? b)%nat then with_line [] None e
    else with_line (default [] (e_hist e !! S b)) (Some (S b)) e
  end.

(** What all the names in a list start with. *)
Definition lcp_all (l : list (list Z)) : list Z := match l with [] => [] | n :: ns => fold_left lcp ns n end.
(** The completed line. *)
Definition spec_tab (line : list Z) : list Z :=
  let ms := matching line reg in
  let t := take (Z.to_nat (LINE_BUF_SIZE - 2)) (take 63 (lcp_all ms)) in
  match ms with [] => line | [_] => t ++ [32] | _ => t end.

Definition spec_iac (st : IacState) (b : Z) : Z * IacState :=
  match st with
  | iacNormal => if b =? 255 then (0, iacIac) else (b, iacNormal)
  | iacIac => if (251 <=? b) && (b <=? 254) then (0, iacNego) else if b =? 250 then (0, iacSub) else (if b =? 255 then 255 else 0, iacNormal)
  | iacNego => (0, iacNormal)
  | iacSub => (0, if b =? 255 then iacIac else iacSub)
  end.

Definition spec_edit (ch : Z) (e : Editor) : bool * Editor :=
  if ch =? 27 then (false, with_esc escEsc e)
  else if ch =? 3 then (false, with_line [] None e)
  else if (ch =? 4) && (length (e_line e) =? 0)%nat then
    (false, mkEd (e_line e) (e_hist e) (e_browse e) (e_esc e) (e_iac e) false (e_telnet e) (e_skip e))
  else if (ch =? 127) || (ch =? 8) then (false, with_line (take (length (e_line e) - 1) (e_line e)) (e_browse e) e)
  else if ch =? 9 then (false, with_line (spec_tab (e_line e)) (e_browse e) e)
  else if (ch =? 13) || (ch =? 10) then (true, with_line (e_line e) None (with_skip (if ch =? 13 then true else e_skip e) e))
  else if (32 <=? char_val ch) && (Z.of_nat (length (e_line e)) <? LINE_BUF_SIZE - 1) then (false, with_line (e_line e ++ [ch]) (e_browse e) e)
  else (false, e).
Definition spec_char (ch : Z) (e : Editor) : bool * Editor :=
  if e_skip e && (ch =? 10) then (false, with_skip false e)
  else
    let e := with_skip false e in
    match e_esc e with
    | escEsc => (false, with_esc (if ch =? 91 then escBracket else escNone) e)
    | escBracket =>
      let e := with_esc escNone e in
      (false, if ch =? 65 then spec_up e else if ch =? 66 then spec_down e else e)
    | escNone => spec_edit ch e
    end.
Definition spec_byte (b : Z) (e : Editor) : bool * Editor :=
  if e_telnet e then
    let '(ch, st) := spec_iac (e_iac e) b in
    let e := with_iac st e in if ch =? 0 then (false, e) else spec_char ch e
  else spec_char b e.

(** A line runs the command named by its first word; a word that names no command and
    the texts of the help command must fit the buffers they are formatted in. *)
Definition spec_exec (line : list Z) (w : W) : option W :=
  match split_spec MAX_ARGS line with
  | [] => Some w
  | a :: args =>
    match Find a reg with
    | Some cmd =>
      match func cmd with
      | ShellBuiltinHelp => if forallb (fun c => (length (help_line c) <=? 256)%nat) reg then Some w else None
      | UserCmd f => Some (run f (a :: args) w).1
      end
    | None => if (length a <=? 141)%nat then Some w else None
    end
  end.
Definition spec_input (b : Z) (x : Editor * W) : option (Editor * W) :=
  let '(e, w) := x in
  let '(ready, e) := spec_byte b e in
  if (ready : bool) then
    w ← spec_exec (e_line e) w;
    Some (with_line [] (e_browse e) (mkEd (e_line e) (spec_push (e_line e) (e_hist e)) (e_browse e) (e_esc e) (e_iac e) (e_active e) (e_telnet e) (e_skip e)), w)
  else Some (e, w).
Fixpoint spec_loop (ins : list Input) (x : Editor * W) : option (bool * (Editor * W)) :=
  if negb (e_active x.1) then Some (true, x)
  else
    match ins with
    | [] => Some (false, x)
    | Stopped :: _ | Closed :: _ => Some (true, x)
    | Idle :: ins => spec_loop ins x
    | Byte b :: ins => x ← spec_input b x; spec_loop ins x
    end.

(** ** The relation *)

(** Characters of a line: printable bytes. *)
Definition printable (c : Z) : Prop := 32 <= c < 256 /\ c <> 127.

Lemma printable_text s : Forall printable s -> text s.
Proof. intros Hs. eapply Forall_impl; [|exact Hs]. unfold printable. intros. lia. Qed.

(** The text before the cursor of the line buffer. *)
Definition line_rel (buf : list Z) (pos : Z) (l : list Z) : Prop :=
  exists rest, buf = l ++ rest /\ rest <> [] /\ Z.of_nat (length buf) = LINE_BUF_SIZE /\ pos = Z.of_nat (length l) /\ Forall printable l.

(** The ring of history rows: entry [j] is at [(head - count + j) mod HISTORY_SIZE]. *)
Definition hist_pos (head count : Z) (j : nat) : nat := Z.to_nat ((head - count + Z.of_nat j) mod HISTORY_SIZE).
Record hist_rel (rows : list (list Z)) (count head : Z) (h : list (list Z)) : Prop := {
  hr_rows : Z.of_nat (length rows) = HISTORY_SIZE;
  hr_row : Forall (fun r => Z.of_nat (length r) = LINE_BUF_SIZE) rows;
  hr_count : count = Z.of_nat (length h);
  hr_fits : count <= HISTORY_SIZE;
  hr_head : 0 <= head < HISTORY_SIZE;
  hr_start : count < HISTORY_SIZE -> head = count;
  hr_entry j t : h !! j = Some t -> exists r, rows !! hist_pos head count j = Some r /\ cstr r = Some t;
  hr_text : Forall (fun t => Forall printable t /\ Z.of_nat (length t) < LINE_BUF_SIZE) h
}.

Definition browse_rel (browsing : bool) (browse head : Z) (h : list (list Z)) (b : option nat) : Prop :=
  match b with
  | None => browsing = false
  | Some b =>
    browsing = true /\ (b <= length h)%nat /\ h <> [] /\
    if (length h <? room)%nat then browse = Z.of_nat b else b = length h /\ browse = head
  end.

Record rel (s : ShellSession) (e : Editor) : Prop := {
  r_line : line_rel (line_buf s) (line_pos s) (e_line e);
  r_hist : hist_rel (history s) (hist_count s) (hist_head s) (e_hist e);
  r_browse : browse_rel (hist_browsing s) (hist_browse s) (hist_head s) (e_hist e) (e_browse e);
  r_esc : esc_state s = e_esc e;
  r_iac : iac_state s = e_iac e;
  r_active : active s = e_active e;
  r_telnet : telnet_mode s = e_telnet e;
  r_skip : skip_next_lf s = e_skip e
}.

(** Computes the fields of an updated session. *)
Ltac sproj := cbn [read_fd write_fd write_fn read_fn line_buf line_pos history hist_count hist_head hist_browse hist_browsing esc_state iac_state
  authenticated auth_attempts active telnet_mode skip_next_lf out set_line_buf set_line_pos set_history set_hist_count set_hist_head set_hist_browse
  set_hist_browsing set_esc_state set_iac_state set_authenticated set_auth_attempts set_active set_skip_next_lf set_out mbind option_bind] in *.

(** ** Output *)

(** A write only appends to the output, if the session can write at all. *)
Definition echo (s : ShellSession) (b : list Z) : list Z := match write_fn s with Some _ => out s ++ b | None => out s end.

Lemma write_eq b s : ShellSessionWrite b s = set_out (echo s b) s.
Proof. unfold ShellSessionWrite, echo. destruct s as [? ? [wf|] ], b; simpl; by rewrite ?app_nil_r. Qed.

Lemma echo_echo s b c : echo (set_out (echo s b) s) c = echo s (b ++ c).
Proof. unfold echo. simpl. destruct (write_fn s); [by rewrite app_assoc|done]. Qed.

Lemma erase_eq n s : erase_line n s = set_out (echo s (mjoin (replicate n erase_one))) s.
Proof.
  revert s. induction n as [|n IH]; intros s; simpl.
  - unfold echo. destruct s as [? ? [wf|] ]; simpl; by rewrite ?app_nil_r.
  - rewrite IH, write_eq, echo_echo. by destruct s.
Qed.

Lemma rel_out s e o : rel s e -> rel (set_out o s) e.
Proof. by intros []. Qed.

(** [s'] has written [t] since [s]. *)
Definition wrote (s s' : ShellSession) (t : list Z) : Prop := write_fn s' = write_fn s /\ out s' = echo s t.

Lemma wrote_nil s s' : write_fn s' = write_fn s -> out s' = out s -> wrote s s' [].
Proof. intros H1 H2. split; [done|]. unfold echo. rewrite H2, app_nil_r. by destruct (write_fn s). Qed.

Lemma wrote_app s s1 s2 a b : wrote s s1 a -> wrote s1 s2 b -> wrote s s2 (a ++ b).
Proof.
  intros [H1 H2] [H3 H4]. split; [congruence|]. rewrite H4. unfold echo in *. rewrite H1, H2.
  destruct (write_fn s); [by rewrite app_assoc|done].
Qed.

Lemma write_rel b s e : rel s e -> rel (ShellSessionWrite b s) e /\ wrote s (ShellSessionWrite b s) b.
Proof. intros Hr. rewrite write_eq. split; [by apply rel_out|done]. Qed.

(** ** The line *)

Lemma line_room buf pos l : line_rel buf pos l -> pos = Z.of_nat (length l) /\ Z.of_nat (length l) < LINE_BUF_SIZE /\ Forall printable l.
Proof.
  intros (rest & -> & Hne & Hl & -> & Hp). rewrite length_app in Hl. destruct rest; [done|]. simpl in Hl. split; [done|]. split; [lia|done].
Qed.

(** Terminating the line. *)
Lemma line_term buf pos l : line_rel buf pos l -> exists rest, bput buf pos 0 = Some (l ++ 0 :: rest) /\ line_rel (l ++ 0 :: rest) pos l.
Proof.
  intros (rest & -> & Hne & Hl & -> & Hp). destruct rest as [|y rest]; [done|]. exists rest. rewrite bput_app by done. split; [done|].
  exists (0 :: rest). rewrite length_app in *. done.
Qed.

Lemma drop_pos {A} (l : list A) n : (n < length l)%nat -> exists y d, drop n l = y :: d.
Proof. intros Hn. destruct (drop n l) as [|y d] eqn:E; [apply (f_equal length) in E; rewrite length_drop in E; simpl in E; lia|by eexists _, _]. Qed.

(** Copying a text to the front of a buffer and putting one character behind it. *)
Lemma copy_put (buf t : list Z) (x : Z) :
  (length t < length buf)%nat ->
  exists rest b, bcopy buf t = Some b /\ bput b (Z.of_nat (length t)) x = Some (t ++ x :: rest) /\ length (t ++ x :: rest) = length buf.
Proof.
  intros Hl. destruct (drop_pos buf (length t) Hl) as (y & d & E). exists d, (t ++ y :: d). rewrite bcopy_ok, E, bput_app by (done || lia).
  repeat split. apply (f_equal length) in E. rewrite length_drop in E. rewrite length_app. simpl in *. lia.
Qed.

Lemma line_rel_new (buf t rest : list Z) y :
  Z.of_nat (length buf) = LINE_BUF_SIZE -> length (t ++ y :: rest) = length buf -> Forall printable t -> line_rel (t ++ y :: rest) (Z.of_nat (length t)) t.
Proof. intros Hb Hl Hp. exists (y :: rest). by rewrite Hl. Qed.

Lemma line_length buf pos l : line_rel buf pos l -> Z.of_nat (length buf) = LINE_BUF_SIZE.
Proof. by intros (? & ? & ? & ? & ?). Qed.

Definition erased (n : nat) : list Z := mjoin (replicate n erase_one).

Lemma replace_ok t s l :
  line_rel (line_buf s) (line_pos s) l -> Forall printable t -> Z.of_nat (length t) < LINE_BUF_SIZE ->
  exists b, ReplaceLine t s = Some (set_line_pos (Z.of_nat (length t)) (set_line_buf b (set_out (echo s (erased (length l) ++ t)) s))) /\ line_rel b (Z.of_nat (length t)) t.
Proof.
  intros Hl Ht Hn. pose proof (line_length _ _ _ Hl) as Hb. destruct (line_room _ _ _ Hl) as (Hpos & _ & _).
  destruct (copy_put (line_buf s) t 0) as (rest & b & E1 & E2 & E3); [lia|].
  exists (t ++ 0 :: rest). split; [|by apply (line_rel_new (line_buf s))].
  unfold ReplaceLine. rewrite erase_eq, write_eq. cbn. rewrite E1. cbn. rewrite E2. cbn.
  by rewrite Hpos, Nat2Z.id, echo_echo.
Qed.

(** ** The history *)

Context `{!ShellConfigOk}.

Lemma ring_mod x : 0 <= x < 2 * HISTORY_SIZE -> x mod HISTORY_SIZE = if x <? HISTORY_SIZE then x else x - HISTORY_SIZE.
Proof.
  intros Hx. destruct (Z.ltb_spec x HISTORY_SIZE); [apply Z.mod_small; lia|]. symmetry. apply (Z.mod_unique _ _ 1); [left|]; lia.
Qed.

Lemma u32_small x : 0 <= x < 2 ^ 32 -> u32 x = x.
Proof. apply wrap_small. Qed.

Lemma hist_size_small : 1 <= HISTORY_SIZE < 2 ^ 16.
Proof. apply history_size. Qed.

(** The position before, as the code computes it. *)
Lemma prev_pos x : 0 <= x < HISTORY_SIZE -> u32 (x + HISTORY_SIZE - 1) mod HISTORY_SIZE = if x =? 0 then HISTORY_SIZE - 1 else x - 1.
Proof.
  intros Hx. pose proof hist_size_small. rewrite u32_small by lia. rewrite ring_mod by lia. repeat case_bool; lia.
Qed.
Lemma next_pos x : 0 <= x < HISTORY_SIZE -> u32 (x + 1) mod HISTORY_SIZE = if x + 1 =? HISTORY_SIZE then 0 else x + 1.
Proof.
  intros Hx. pose proof hist_size_small. rewrite u32_small by lia. rewrite ring_mod by lia. repeat case_bool; lia.
Qed.

(** Where entry [j] is: at [j] until the history is full, then behind the head. *)
Lemma hist_pos_at head count j :
  0 <= head < HISTORY_SIZE -> Z.of_nat j < count <= HISTORY_SIZE -> (count < HISTORY_SIZE -> head = count) ->
  Z.of_nat (hist_pos head count j) = if count <? HISTORY_SIZE then Z.of_nat j else if head + Z.of_nat j <? HISTORY_SIZE then head + Z.of_nat j else head + Z.of_nat j - HISTORY_SIZE.
Proof.
  intros Hh Hj Hs. pose proof hist_size_small. unfold hist_pos. rewrite Z2Nat.id by (apply Z.mod_pos_bound; lia).
  destruct (Z.ltb_spec count HISTORY_SIZE) as [Hc|Hc].
  - rewrite Hs by done. replace (count - count + Z.of_nat j) with (Z.of_nat j) by lia. apply Z.mod_small. lia.
  - replace (head - count + Z.of_nat j) with (head + Z.of_nat j + (-1) * HISTORY_SIZE) by lia. rewrite Z.mod_add by lia. apply ring_mod. lia.
Qed.

Lemma hist_pos_eq rows count head h j :
  hist_rel rows count head h -> (j < length h)%nat ->
  Z.of_nat (hist_pos head count j) = if count <? HISTORY_SIZE then Z.of_nat j else if head + Z.of_nat j <? HISTORY_SIZE then head + Z.of_nat j else head + Z.of_nat j - HISTORY_SIZE.
Proof. intros [] Hj. apply hist_pos_at; [done|lia|done]. Qed.

(** The text of entry [j], read at the position given as an integer. *)
Lemma hist_entry rows count head h j t p :
  hist_rel rows count head h -> h !! j = Some t -> p = Z.of_nat (hist_pos head count j) -> exists r, bget rows p = Some r /\ cstr r = Some t.
Proof.
  intros Hr Hj ->. destruct (hr_entry _ _ _ _ Hr j t Hj) as (r & E & Ht). exists r. split; [|done]. unfold bget.
  destruct (Z.leb_spec 0 (Z.of_nat (hist_pos head count j))); [|lia]. by rewrite Nat2Z.id.
Qed.

Lemma hist_last rows count head h t :
  hist_rel rows count head h -> list.last h = Some t -> exists r, bget rows (u32 (head + HISTORY_SIZE - 1) mod HISTORY_SIZE) = Some r /\ cstr r = Some t.
Proof.
  intros Hr Ht. rewrite last_lookup in Ht. pose proof (lookup_lt_Some _ _ _ Ht) as Hlt.
  apply (hist_entry _ _ _ _ _ _ _ Hr Ht). rewrite (hist_pos_eq _ _ _ _ _ Hr) by lia. destruct Hr. rewrite prev_pos by done.
  destruct (Z.ltb_spec count HISTORY_SIZE) as [Hc|Hc]; [rewrite hr_start0 by done|]; repeat case_bool; lia.
Qed.

(** Storing one more entry. *)
Lemma hist_store rows count head h r t :
  hist_rel rows count head h -> cstr r = Some t -> Z.of_nat (length r) = LINE_BUF_SIZE -> Forall printable t -> Z.of_nat (length t) < LINE_BUF_SIZE ->
  hist_rel (<[Z.to_nat head := r]> rows) (if count <? HISTORY_SIZE then count + 1 else count) (if head + 1 =? HISTORY_SIZE then 0 else head + 1)
    ((if (length h <? room)%nat then h else drop 1 h) ++ [t]).
Proof.
  intros Hr Ht Hl Hp Hn. pose proof hist_size_small. pose proof (fun j => hist_pos_eq _ _ _ _ j Hr) as Hpos. destruct Hr. unfold room.
  assert (Hlen : length ((if (length h <? Z.to_nat HISTORY_SIZE)%nat then h else drop 1 h) ++ [t]) = if (length h <? Z.to_nat HISTORY_SIZE)%nat then S (length h) else length h)
    by (rewrite length_app; destruct (Nat.ltb_spec (length h) (Z.to_nat HISTORY_SIZE)); rewrite ?length_drop; simpl; lia).
  split.
  - by rewrite length_insert.
  - by apply Forall_insert.
  - rewrite Hlen. destruct (Nat.ltb_spec (length h) (Z.to_nat HISTORY_SIZE)), (Z.ltb_spec count HISTORY_SIZE); lia.
  - case_bool; lia.
  - case_bool; lia.
  - repeat case_bool; lia.
  - intros j u Hj. pose proof (lookup_lt_Some _ _ _ Hj) as Hlt. rewrite Hlen in Hlt.
    set (count' := if count <? HISTORY_SIZE then _ else _). set (head' := if head + 1 =? HISTORY_SIZE then _ else _).
    assert (Hpos' : Z.of_nat (hist_pos head' count' j) = if count' <? HISTORY_SIZE then Z.of_nat j else if head' + Z.of_nat j <? HISTORY_SIZE then head' + Z.of_nat j else head' + Z.of_nat j - HISTORY_SIZE).
    { apply hist_pos_at; subst count' head'; destruct (Nat.ltb_spec (length h) (Z.to_nat HISTORY_SIZE)); repeat case_bool; lia. }
    set (k := if (length h <? Z.to_nat HISTORY_SIZE)%nat then j else S j).
    destruct (Nat.ltb_spec k (length h)) as [Hk|Hk].
    + assert (Hu : h !! k = Some u).
      { subst k. destruct (Nat.ltb_spec (length h) (Z.to_nat HISTORY_SIZE)); [by rewrite lookup_app_l in Hj by lia|].
        rewrite lookup_app_l, lookup_drop in Hj by (rewrite length_drop; lia). done. }
      destruct (hr_entry0 k u Hu) as (r' & Er & Ht'). exists r'. split; [|done]. specialize (Hpos k Hk).
      assert (hist_pos head' count' j = hist_pos head count k) as ->.
      { apply Nat2Z.inj. rewrite Hpos, Hpos'. subst count' head' k. destruct (Nat.ltb_spec (length h) (Z.to_nat HISTORY_SIZE)); repeat case_bool; lia. }
      rewrite list_lookup_insert_ne; [done|]. intros Hx. apply (f_equal Z.of_nat) in Hx. rewrite Z2Nat.id, Hpos in Hx by lia.
      revert Hx. subst k. destruct (Nat.ltb_spec (length h) (Z.to_nat HISTORY_SIZE)); repeat case_bool; lia.
    + assert (u = t) as ->.
      { subst k. destruct (Nat.ltb_spec (length h) (Z.to_nat HISTORY_SIZE)); rewrite lookup_app_r in Hj by (rewrite ?length_drop; lia);
          apply list_lookup_singleton_Some in Hj as [_ ?]; done. }
      exists r. split; [|done]. assert (hist_pos head' count' j = Z.to_nat head) as ->.
      { apply Nat2Z.inj. rewrite Hpos', Z2Nat.id by lia. subst count' head' k. revert Hlt Hk. destruct (Nat.ltb_spec (length h) (Z.to_nat HISTORY_SIZE)); intros; destruct (Z.ltb_spec count HISTORY_SIZE); repeat case_bool; lia. }
      apply list_lookup_insert_eq. lia.
  - apply Forall_app. split; [|by repeat constructor]. destruct (_ <? _)%nat; [done|by apply Forall_drop].
Qed.

Definition with_hist (h : list (list Z)) (e : Editor) : Editor :=
  mkEd (e_line e) h (e_browse e) (e_esc e) (e_iac e) (e_active e) (e_telnet e) (e_skip e).

Lemma push_rel s e :
  rel s e -> e_browse e = None -> exists s', PushHistory s = Some s' /\ rel s' (with_hist (spec_push (e_line e) (e_hist e)) e) /\ wrote s s' [].
Proof.
  intros [Hl Hh Hb He Hi Ha Ht Hk] HN. unfold PushHistory, spec_push. destruct (line_room _ _ _ Hl) as (Hpos & Hroom & Hp).
  rewrite HN in Hb. simpl in Hb.
  destruct (Z.eqb_spec (line_pos s) 0) as [H0'|H0'].
  { destruct (e_line e) as [|] eqn:El; [|simpl in Hpos; lia]. rewrite bool_decide_true by auto. exists s. split; [done|]. split; [|by apply wrote_nil].
    split; simpl; try done; [by rewrite El|by rewrite HN]. }
  destruct (line_term _ _ _ Hl) as (rest & -> & Hl'). cbn [mbind option_bind].
  set (dup := if 0 <? _ then _ else _). assert (dup = Some (bool_decide (list.last (e_hist e) = Some (e_line e)))) as Hdup.
  { subst dup. cbn. rewrite (hr_count _ _ _ _ Hh). destruct (list.last (e_hist e)) as [t|] eqn:El.
    - destruct (hist_last _ _ _ _ _ Hh El) as (row & -> & Er). cbn. rewrite Er, cstr_app by by apply printable_text. cbn.
      destruct (Z.ltb_spec 0 (Z.of_nat (length (e_hist e)))); [|destruct (e_hist e); simpl in *; [done|lia] ].
      unfold streq. f_equal. apply bool_decide_ext. split; congruence.
    - apply last_None in El. rewrite El. cbn. by rewrite bool_decide_false. }
  rewrite Hdup. cbn [mbind option_bind]. assert (e_line e <> []) by (intros E; rewrite E in Hpos; done).
  rewrite (bool_decide_ext (e_line e = [] \/ _) (list.last (e_hist e) = Some (e_line e))) by tauto.
  case_bool_decide as Hd.
  { eexists. split; [done|]. split; [|by apply wrote_nil]. split; simpl; try done. by rewrite HN. }
  cbn. pose proof (hr_head _ _ _ _ Hh) as Hhd. pose proof (hr_rows _ _ _ _ Hh) as Hrows. pose proof hist_size_small.
  assert (exists row, bget (history s) (hist_head s) = Some row /\ Z.of_nat (length row) = LINE_BUF_SIZE) as (row & -> & Hrl).
  { destruct (lookup_lt_is_Some_2 (history s) (Z.to_nat (hist_head s))) as [row E]; [lia|]. exists row. unfold bget.
    destruct (Z.leb_spec 0 (hist_head s)); [|lia]. split; [done|]. pose proof (hr_row _ _ _ _ Hh) as Hf. rewrite Forall_lookup in Hf. by eapply Hf. }
  cbn. rewrite (snoc_buffer (e_line e)), bread_app by (rewrite length_app; simpl; lia). cbn.
  rewrite bcopy_ok by (rewrite length_app; simpl; lia). cbn.
  unfold bput. destruct (Z.leb_spec 0 (hist_head s)); [|lia]. destruct (Z.ltb_spec (hist_head s) (Z.of_nat (length (history s)))); [|lia]. cbn.
  eexists. split; [done|]. rewrite next_pos by done.
  set (row' := (e_line e ++ [0]) ++ _). assert (Hrow' : cstr row' = Some (e_line e) /\ Z.of_nat (length row') = LINE_BUF_SIZE).
  { subst row'. split; [rewrite <- app_assoc; apply cstr_app; by apply printable_text|]. rewrite !length_app, length_drop, ?length_app. simpl. lia. }
  pose proof (hist_store _ _ _ _ row' (e_line e) Hh (proj1 Hrow') (proj2 Hrow') Hp Hroom) as Hst.
  rewrite <- (snoc_buffer (e_line e)). rewrite (hr_count _ _ _ _ Hh) in *. pose proof (hr_fits _ _ _ _ Hh) as Hfit.
  destruct (Z.ltb_spec (Z.of_nat (length (e_hist e))) HISTORY_SIZE).
  - rewrite u32_small by lia. split; [|by apply wrote_nil]. split; simpl; try done. by rewrite HN.
  - split; [|by apply wrote_nil]. split; simpl; try done; [|by rewrite HN]. by rewrite (hr_count _ _ _ _ Hh).
Qed.

(** Showing the entry [j], at position [p] of the ring. *)
Lemma show_rel s e j t p :
  rel s e -> e_hist e !! j = Some t -> p = Z.of_nat (hist_pos (hist_head s) (hist_count s) j) -> hist_browsing s = true -> (length (e_hist e) < room)%nat ->
  exists s', show_entry p s = Some s' /\ rel s' (with_line t (Some j) e) /\ wrote s s' (erased (length (e_line e)) ++ t).
Proof.
  intros [Hl Hh Hb He Hi Ha Ht Hk] Hj Hp Hbr Hfull. unfold show_entry. destruct (hist_entry _ _ _ _ _ _ _ Hh Hj Hp) as (row & -> & Er).
  cbn [mbind option_bind]. rewrite Er. cbn [mbind option_bind].
  assert (Forall printable t /\ Z.of_nat (length t) < LINE_BUF_SIZE) as [Hpr Hlen] by (pose proof (hr_text _ _ _ _ Hh) as Hf; rewrite Forall_lookup in Hf; by eapply Hf).
  destruct (replace_ok t (set_hist_browse p s) (e_line e) Hl Hpr Hlen) as (b & -> & Hb'). eexists. split; [done|]. split; [|done].
  split; simpl; try done. pose proof (lookup_lt_Some _ _ _ Hj). split; [done|]. split; [lia|]. split; [by intros E; rewrite E in Hj|].
  apply Nat.ltb_lt in Hfull as Hf'. rewrite Hf'. rewrite Hp, (hist_pos_eq _ _ _ _ _ Hh) by done. pose proof hist_size_small. unfold room in Hfull.
  rewrite (hr_count _ _ _ _ Hh). destruct (Z.ltb_spec (Z.of_nat (length (e_hist e))) HISTORY_SIZE); [done|lia].
Qed.

Lemma up_rel s e : rel s e -> exists s' t, HistoryUp s = Some s' /\ rel s' (spec_up e) /\ wrote s s' t /\
  (t = [] /\ e_line (spec_up e) = e_line e \/ t = erased (length (e_line e)) ++ e_line (spec_up e)).
Proof.
  intros Hr. pose proof Hr as [Hl Hh Hb He Hi Ha Ht Hk]. unfold HistoryUp, spec_up. pose proof hist_size_small.
  rewrite (hr_count _ _ _ _ Hh). destruct (Nat.eqb_spec (length (e_hist e)) 0) as [H0'|H0'].
  { rewrite H0'. cbn. exists s, []. split; [done|]. split; [done|]. split; [by apply wrote_nil|]. by left. }
  destruct (Z.eqb_spec (Z.of_nat (length (e_hist e))) 0); [lia|].
  set (s1 := if hist_browsing s then s else _). set (b := default (length (e_hist e)) (e_browse e)).
  assert (Hr1 : rel s1 (with_line (e_line e) (Some b) e) /\ hist_browsing s1 = true /\ wrote s s1 []).
  { unfold s1, b. destruct (e_browse e) as [b'|] eqn:Eb; simpl in Hb; simpl.
    - destruct Hb as [Hbt Hb]. rewrite Hbt. split; [by split; simpl|]. by split; [|apply wrote_nil].
    - rewrite Hb. cbn. split; [|by split; [|apply wrote_nil] ]. split; simpl; try done. split; [done|]. split; [done|]. split; [by intros E; rewrite E in H0'|].
      unfold room. destruct (Nat.ltb_spec (length (e_hist e)) (Z.to_nat HISTORY_SIZE)); [|done].
      rewrite (hr_start _ _ _ _ Hh); rewrite (hr_count _ _ _ _ Hh); [done|lia]. }
  assert (Hcnt : hist_count s1 = Z.of_nat (length (e_hist e)) /\ hist_head s1 = hist_head s) by (unfold s1; destruct (hist_browsing s); cbn; rewrite (hr_count _ _ _ _ Hh); done).
  destruct Hcnt as [Hc1 Hh1]. rewrite Hc1, Hh1. clearbody s1. destruct Hr1 as (Hr1 & Hbr & Hw).
  pose proof (r_browse _ _ Hr1) as Hbr1. unfold browse_rel, with_line in Hbr1. cbn [e_hist e_browse] in Hbr1. destruct Hbr1 as (_ & Hble & Hne & Hpos). rewrite Hh1 in Hpos.
  unfold room in *. destruct (Nat.ltb_spec (length (e_hist e)) (Z.to_nat HISTORY_SIZE)) as [Hroom|Hroom].
  - destruct (Z.ltb_spec (Z.of_nat (length (e_hist e))) HISTORY_SIZE); [|lia]. rewrite Hpos.
    destruct (Nat.eqb_spec b 0) as [Hb0|Hb0].
    + rewrite Hb0. cbn. exists s1, []. split; [done|]. split; [by rewrite <- Hb0|]. split; [done|]. by left.
    + destruct (Z.eqb_spec (Z.of_nat b) 0); [lia|]. rewrite prev_pos by lia. destruct (Z.eqb_spec (Z.of_nat b) 0); [lia|].
      destruct (lookup_lt_is_Some_2 (e_hist e) (b - 1)) as [t Et]; [lia|]. rewrite Et. cbn [default].
      destruct (show_rel s1 (with_line (e_line e) (Some b) e) (b - 1) t (Z.of_nat b - 1)) as (s' & -> & Hr' & Hw'); try done.
      * rewrite (hist_pos_eq _ _ _ _ _ (r_hist _ _ Hr1)) by (cbn; lia). rewrite Hc1. destruct (Z.ltb_spec (Z.of_nat (length (e_hist e))) HISTORY_SIZE); lia.
      * exists s', (erased (length (e_line e)) ++ t). split; [done|]. split; [done|]. split; [by apply (wrote_app _ _ _ _ _ Hw Hw')|]. by right.
  - destruct Hpos as [Hbl Hbh]. destruct (Z.ltb_spec (Z.of_nat (length (e_hist e))) HISTORY_SIZE); [lia|]. rewrite Hbh, Z.eqb_refl, Hbl, Nat.eqb_refl.
    exists s1, []. split; [done|]. split; [by rewrite <- Hbl|]. split; [done|]. by left.
Qed.

Lemma down_rel s e : rel s e -> exists s' t, HistoryDown s = Some s' /\ rel s' (spec_down e) /\ wrote s s' t /\
  (t = [] /\ e_line (spec_down e) = e_line e \/ t = erased (length (e_line e)) ++ e_line (spec_down e)).
Proof.
  intros Hr. pose proof Hr as [Hl Hh Hb He Hi Ha Ht Hk]. unfold HistoryDown, spec_down. pose proof hist_size_small. pose proof line_size.
  destruct (e_browse e) as [b|] eqn:Eb; simpl in Hb.
  2:{ rewrite Hb. cbn. exists s, []. split; [done|]. split; [done|]. split; [by apply wrote_nil|]. by left. }
  destruct Hb as (Hbr & Hble & Hne & Hpos). rewrite Hbr. cbn [negb]. assert (0 < length (e_hist e))%nat by (destruct (e_hist e); [done|simpl; lia]).
  rewrite prev_pos by apply (hr_head _ _ _ _ Hh). pose proof (hr_head _ _ _ _ Hh) as Hhd. pose proof (hr_count _ _ _ _ Hh) as Hc. pose proof (hr_fits _ _ _ _ Hh) as Hf.
  assert (Hclear : exists s' t, ReplaceLine [] (set_hist_browsing false s) = Some s' /\ rel s' (with_line [] None e) /\ wrote s s' t /\
    (t = [] /\ [] = e_line e \/ t = erased (length (e_line e)) ++ [])).
  { destruct (replace_ok [] (set_hist_browsing false s) (e_line e) Hl) as (b' & -> & Hb'); [constructor|simpl; lia|].
    eexists _, _. split; [done|]. split; [|split; [done|by right] ]. split; simpl; done. }
  unfold room in Hpos. destruct (Nat.ltb_spec (length (e_hist e)) (Z.to_nat HISTORY_SIZE)) as [Hroom|Hroom].
  - rewrite Hpos. pose proof (hr_start _ _ _ _ Hh ltac:(lia)) as Hst. destruct (Nat.leb_spec (length (e_hist e) - 1) b) as [Hlast|Hlast].
    + assert ((Z.of_nat b =? (if hist_head s =? 0 then HISTORY_SIZE - 1 else hist_head s - 1)) || (Z.of_nat b =? hist_head s) = true) as ->; [|done].
      apply orb_true_iff. rewrite !Z.eqb_eq. destruct (Z.eqb_spec (hist_head s) 0); lia.
    + assert ((Z.of_nat b =? (if hist_head s =? 0 then HISTORY_SIZE - 1 else hist_head s - 1)) || (Z.of_nat b =? hist_head s) = false) as ->
        by (apply orb_false_iff; rewrite !Z.eqb_neq; destruct (Z.eqb_spec (hist_head s) 0); lia).
      rewrite next_pos by lia. destruct (Z.eqb_spec (Z.of_nat b + 1) HISTORY_SIZE); [lia|].
      destruct (lookup_lt_is_Some_2 (e_hist e) (S b)) as [t Et]; [lia|]. rewrite Et. cbn [default].
      destruct (show_rel s e (S b) t (Z.of_nat b + 1)) as (s' & -> & Hr' & Hw'); try done.
      * rewrite (hist_pos_eq _ _ _ _ _ Hh) by lia. rewrite Hc. destruct (Z.ltb_spec (Z.of_nat (length (e_hist e))) HISTORY_SIZE); lia.
      * eexists _, _. split; [done|]. split; [done|]. split; [done|]. by right.
  - destruct Hpos as [-> ->]. destruct (Nat.leb_spec (length (e_hist e) - 1) (length (e_hist e))); [|lia]. by rewrite Z.eqb_refl, orb_true_r.
Qed.

(** ** Completion *)

Lemma fold_lcp ns n p : p `prefix_of` fold_left lcp ns n <-> p `prefix_of` n /\ Forall (fun m => p `prefix_of` m) ns.
Proof.
  revert n. induction ns as [|m ns IH]; intros n; simpl; [by split; [intros; split|intros [? _] ]|].
  rewrite IH, lcp_greatest, Forall_cons_iff. tauto.
Qed.

Lemma lcp_all_unique t l : l <> [] -> longest_common t l -> t = lcp_all l.
Proof.
  intros Hne Ht. destruct l as [|n ns]; [done|]. cbn [lcp_all].
  assert (Ha : longest_common (fold_left lcp ns n) (n :: ns)) by (intros p; rewrite fold_lcp, Forall_cons_iff; naive_solver).
  assert (t `prefix_of` fold_left lcp ns n) as H1 by (apply Ha, Ht; done). assert (fold_left lcp ns n `prefix_of` t) as H2 by (apply Ht, Ha; done).
  apply (anti_symm prefix) in H1; done.
Qed.

Lemma lcp_all_head l : exists n, lcp_all l `prefix_of` n /\ (l <> [] -> n ∈ l).
Proof.
  destruct l as [|n ns]; [by exists []|]. exists n. split; [|intros _; by left]. cbn [lcp_all].
  by destruct (proj1 (fold_lcp ns n (fold_left lcp ns n)) (reflexivity _)).
Qed.

Hypothesis names_ok : Forall (fun c => Forall printable (name c)) reg.

Lemma names_printable n : n ∈ name <$> reg -> Forall printable n.
Proof. intros (c & -> & Hc)%list_elem_of_fmap. rewrite Forall_forall in names_ok. by apply names_ok, list_elem_of_In. Qed.

Lemma matching_names line n : n ∈ matching line reg -> n ∈ name <$> reg /\ line `prefix_of` n.
Proof. unfold matching. intros [H1 H2]%list_elem_of_filter. done. Qed.

Lemma lcp_all_printable line : Forall printable (lcp_all (matching line reg)).
Proof.
  destruct (lcp_all_head (matching line reg)) as (n & [k Hk] & Hn). destruct (matching line reg) as [|m ms] eqn:E; [constructor|].
  assert (Forall printable n) as Hp by (apply names_printable, (matching_names line); rewrite E; by apply Hn).
  rewrite Hk in Hp. by apply Forall_app in Hp as [? _].
Qed.

(** What the completion prints. *)
Definition listing (line : list Z) : list Z := mjoin ((fun n => n ++ str "  ") <$> matching line reg).
Definition tab_output (prompt line : list Z) : list Z :=
  match matching line reg with
  | [] => []
  | [_] => erased (length line) ++ spec_tab line
  | _ => crlf ++ listing line ++ crlf ++ prompt ++ spec_tab line
  end.

Lemma list_match_fold line pos (l : list (ShellCmd F)) s :
  pos = Z.of_nat (length line) ->
  wrote s (fold_left (list_match line pos) l s) (mjoin ((fun n => n ++ str "  ") <$> matching line l)) /\ exists o, fold_left (list_match line pos) l s = set_out o s.
Proof.
  intros ->. revert s. induction l as [|c l IH]; intros s; [split; [by apply wrote_nil|exists (out s); by destruct s]|]. cbn [fold_left].
  unfold list_match at 2 4. rewrite Nat2Z.id. unfold matching. rewrite fmap_cons, filter_cons. pose proof (strneq_prefix (name c) line) as Hp.
  destruct (strneq (length line) (name c) line), (decide (line `prefix_of` name c)) as [Hd|Hd];
    [|by destruct Hd; apply Hp|by apply Hp in Hd|].
  - destruct (IH (ShellSessionWrite (str "  ") (ShellSessionWrite (name c) s))) as [Hw [o Ho] ]. rewrite fmap_cons. cbn [mjoin list_join].
    split; [|exists o; rewrite Ho, !write_eq; by destruct s]. eapply wrote_app; [|exact Hw]. rewrite !write_eq, echo_echo. by destruct s.
  - destruct (IH s) as [Hw [o Ho] ]. split; [exact Hw|by exists o].
Qed.

Lemma clamp_take (c : list Z) : bread c (clamp_completion (Z.of_nat (length c))) = Some (take (Z.to_nat (LINE_BUF_SIZE - 2)) c) /\
  clamp_completion (Z.of_nat (length c)) = Z.of_nat (length (take (Z.to_nat (LINE_BUF_SIZE - 2)) c)).
Proof.
  pose proof line_size. unfold clamp_completion, bread. rewrite length_take. destruct (Z.leb_spec (LINE_BUF_SIZE - 1) (Z.of_nat (length c))).
  - destruct (Z.leb_spec 0 (LINE_BUF_SIZE - 2)), (Z.leb_spec (LINE_BUF_SIZE - 2) (Z.of_nat (length c))); try lia. split; [done|lia].
  - destruct (Z.leb_spec 0 (Z.of_nat (length c))), (Z.leb_spec (Z.of_nat (length c)) (Z.of_nat (length c))); try lia.
    rewrite Nat2Z.id, !take_ge by lia. split; [done|lia].
Qed.

(** The new line [t] is in the buffer: one more character or just the terminator
    behind the copied text. *)
Lemma copy_line (buf t : list Z) :
  Z.of_nat (length buf) = LINE_BUF_SIZE -> Z.of_nat (length t) <= LINE_BUF_SIZE - 2 -> Forall printable t ->
  (exists b b1 b2, bcopy buf t = Some b /\ bput b (Z.of_nat (length t)) 32 = Some b1 /\ bput b1 (Z.of_nat (length t) + 1) 0 = Some b2 /\
     line_rel b2 (Z.of_nat (length t) + 1) (t ++ [32])) /\
  (exists b b1, bcopy buf t = Some b /\ bput b (Z.of_nat (length t)) 0 = Some b1 /\ line_rel b1 (Z.of_nat (length t)) t).
Proof.
  intros Hb Ht Hp. split.
  - destruct (copy_put buf t 32) as (rest & b & E1 & E2 & E3); [lia|]. rewrite length_app in E3. destruct rest as [|y rest]; [simpl in E3; lia|].
    exists b, (t ++ 32 :: y :: rest), ((t ++ [32]) ++ 0 :: rest). split; [done|]. split; [done|].
    split; [rewrite (snoc_buffer t); apply bput_app; rewrite length_app; simpl; lia|].
    exists (0 :: rest). split; [done|]. split; [done|]. rewrite !length_app. simpl in *. split; [lia|]. split; [lia|].
    apply Forall_app. split; [done|]. repeat constructor; unfold printable; lia.
  - destruct (copy_put buf t 0) as (rest & b & E1 & E2 & E3); [lia|]. exists b, (t ++ 0 :: rest). split; [done|]. split; [done|]. by apply (line_rel_new buf).
Qed.

Lemma completion_spec line :
  text line -> exists b, AutoComplete line (replicate 64 0) reg = Some (Z.of_nat (length (matching line reg)), b) /\ cstr b = Some (take 63 (lcp_all (matching line reg))).
Proof.
  intros Hl. destruct (auto_complete_spec line (replicate 64 0) reg) as (b & t & E & _ & Hc & H0' & H1); [done| |].
  { eapply Forall_impl; [|exact names_ok]. intros c. apply printable_text. }
  exists b. split; [done|]. rewrite Hc, length_replicate. do 2 f_equal. destruct (matching line reg) as [|n ns] eqn:Em; [by apply H0'|].
  apply lcp_all_unique; [done|]. by apply H1.
Qed.

Lemma line_out s e l b o s' :
  rel s e -> line_rel b (Z.of_nat (length l)) l -> s' = set_line_pos (Z.of_nat (length l)) (set_line_buf b (set_out o s)) -> rel s' (with_line l (e_browse e) e).
Proof. intros [] Hl ->. by split. Qed.

Lemma single_rel t s e :
  rel s e -> Z.of_nat (length t) <= LINE_BUF_SIZE - 2 -> Forall printable t ->
  exists s', tab_single t s = Some s' /\ rel s' (with_line (t ++ [32]) (e_browse e) e) /\ wrote s s' (erased (length (e_line e)) ++ t ++ [32]).
Proof.
  intros Hr Ht Hp. pose proof (r_line _ _ Hr) as Hl. destruct (line_room _ _ _ Hl) as (Hpos & _ & _).
  destruct (copy_line (line_buf s) t (line_length _ _ _ Hl) Ht Hp) as [ (b & b1 & b2 & F1 & F2 & F3 & F4) _]. unfold tab_single.
  rewrite erase_eq. sproj. rewrite F1. sproj. rewrite F2. sproj. rewrite F3. sproj.
  assert (bread b2 (Z.of_nat (length t) + 1) = Some (t ++ [32])) as -> by (destruct F4 as (r & -> & _ & _ & Hx & _); by apply bread_app).
  sproj. rewrite write_eq. eexists. split; [done|]. split.
  - eapply (line_out s e (t ++ [32]) b2); [done| |]; replace (Z.of_nat (length (t ++ [32]))) with (Z.of_nat (length t) + 1) by (rewrite length_app; simpl; lia); done.
  - split; [done|]. unfold echo, erased. sproj. rewrite Hpos, Nat2Z.id. destruct (write_fn s); [by rewrite <- app_assoc|done].
Qed.

Lemma several_rel prompt t s e :
  rel s e -> Z.of_nat (length t) <= LINE_BUF_SIZE - 2 -> Forall printable t ->
  exists s', tab_several reg prompt (e_line e) t s = Some s' /\ rel s' (with_line t (e_browse e) e) /\ wrote s s' (crlf ++ listing (e_line e) ++ crlf ++ prompt ++ t).
Proof.
  intros Hr Ht Hp. pose proof (r_line _ _ Hr) as Hl. destruct (line_room _ _ _ Hl) as (Hpos & _ & _).
  destruct (copy_line (line_buf s) t (line_length _ _ _ Hl) Ht Hp) as [_ (b & b1 & F1 & F2 & F3) ]. unfold tab_several, ForEach.
  rewrite !write_eq. sproj. destruct (list_match_fold (e_line e) (line_pos s) reg (set_out (echo s crlf) s) Hpos) as [ [_ Hw] [o Ho] ].
  rewrite Ho in Hw. rewrite Ho. clear Ho. fold (listing (e_line e)) in Hw. revert Hw. generalize (listing (e_line e)). intros L Hw. sproj. rewrite F1. sproj. rewrite F2. sproj.
  assert (bread b1 (Z.of_nat (length t)) = Some t) as -> by (destruct F3 as (r & -> & _ & _ & Hx & _); by apply bread_app).
  sproj. rewrite write_eq. eexists. split; [done|]. split; [by eapply (line_out s e t b1)|].
  split; [done|]. unfold echo in *. sproj. destruct (write_fn s); [|done]. rewrite Hw. by rewrite <- !app_assoc.
Qed.

Lemma tab_rel prompt s e :
  rel s e -> exists s', TabComplete reg prompt s = Some s' /\ rel s' (with_line (spec_tab (e_line e)) (e_browse e) e) /\ wrote s s' (tab_output prompt (e_line e)).
Proof.
  intros Hr. pose proof (r_line _ _ Hr) as Hl. destruct (line_room _ _ _ Hl) as (Hpos & Hroom & Hp).
  unfold TabComplete. destruct (line_term _ _ _ Hl) as (rest & -> & Hl'). sproj.
  rewrite cstr_app by by apply printable_text. sproj.
  destruct (completion_spec (e_line e)) as (buf & -> & Hc); [by apply printable_text|]. sproj. rewrite Hc. sproj.
  unfold tab_output, spec_tab. pose proof (lcp_all_printable (e_line e)) as Hlp. revert Hlp. generalize (lcp_all (matching (e_line e) reg)). intros c Hlp.
  destruct (clamp_take (take 63 c)) as [-> _]. sproj.
  assert (Hcp : Forall printable (take (Z.to_nat (LINE_BUF_SIZE - 2)) (take 63 c))) by (by apply Forall_take, Forall_take).
  assert (Ht : Z.of_nat (length (take (Z.to_nat (LINE_BUF_SIZE - 2)) (take 63 c))) <= LINE_BUF_SIZE - 2) by (pose proof line_size; rewrite length_take; lia).
  revert Hcp Ht. generalize (take (Z.to_nat (LINE_BUF_SIZE - 2)) (take 63 c)). intros t Hcp Ht. clear Hc c Hlp.
  assert (Hr' : rel (set_line_buf (e_line e ++ 0 :: rest) s) e) by by destruct Hr.
  assert (Hw : wrote s (set_line_buf (e_line e ++ 0 :: rest) s) []) by by apply wrote_nil.
  destruct (matching (e_line e) reg) as [|m [|m' ms] ].
  - eexists. split; [done|]. split; [by destruct Hr'|done].
  - destruct (single_rel t _ e Hr' Ht Hcp) as (s' & Es & Hs & Hw'). exists s'. split; [exact Es|]. split; [done|]. exact (wrote_app _ _ _ _ _ Hw Hw').
  - destruct (Z.eqb_spec (Z.of_nat (length (m :: m' :: ms))) 1); [simpl in *; lia|]. destruct (Z.ltb_spec 1 (Z.of_nat (length (m :: m' :: ms)))); [|simpl in *; lia].
    destruct (several_rel prompt t _ e Hr' Ht Hcp) as (s' & Es & Hs & Hw'). exists s'. split; [exact Es|]. split; [done|]. exact (wrote_app _ _ _ _ _ Hw Hw').
Qed.

(** ** The terminal *)

(** The line the cursor is in: its characters and the column of the cursor. *)
Record Term := mkTerm { cells : list Z; cursor : nat }.
Definition term_put (T : Term) (c : Z) : Term :=
  if c =? 8 then mkTerm (cells T) (cursor T - 1)
  else if c =? 13 then mkTerm (cells T) 0
  else if c =? 10 then mkTerm (replicate (cursor T) 32) (cursor T)
  else if 32 <=? c then mkTerm (take (cursor T) (cells T) ++ [c] ++ drop (S (cursor T)) (cells T)) (S (cursor T))
  else T.
Definition feed (t : list Z) (T : Term) : Term := fold_left term_put t T.

(** The terminal shows [l] and, to the right of the cursor, blanks. *)
Definition shows (T : Term) (l : list Z) : Prop := cursor T = length l /\ exists k, cells T = l ++ replicate k 32.

Lemma feed_app a b T : feed (a ++ b) T = feed b (feed a T).
Proof. apply fold_left_app. Qed.

Lemma put_char T l c : shows T l -> 32 <= c -> shows (term_put T c) (l ++ [c]).
Proof.
  intros [H1 [k H2] ] Hc. unfold term_put. destruct (Z.eqb_spec c 8), (Z.eqb_spec c 13), (Z.eqb_spec c 10), (Z.leb_spec 32 c); try lia.
  split; simpl; [rewrite length_app; simpl; lia|]. rewrite H1, H2, take_app_length. exists (k - 1)%nat. rewrite <- app_assoc. do 2 f_equal.
  rewrite drop_app_ge, drop_replicate by lia. f_equal. lia.
Qed.

Lemma feed_text T l t : shows T l -> Forall printable t -> shows (feed t T) (l ++ t).
Proof.
  intros Hs Ht. revert T l Hs. induction Ht as [|c t Hc _ IH]; intros T l Hs; [by rewrite app_nil_r|]. cbn.
  rewrite (snoc_buffer l). apply IH, put_char; [done|]. unfold printable in Hc. lia.
Qed.

Lemma feed_erase T l c : shows T (l ++ [c]) -> shows (feed erase_one T) l.
Proof.
  destruct T as [cs cur]. intros [H1 [k H2] ]. cbn [cells cursor] in *. rewrite length_app in H1. simpl in H1.
  assert (feed erase_one (mkTerm cs cur) = mkTerm (take (cur - 1) cs ++ [32] ++ drop (S (cur - 1)) cs) (S (cur - 1) - 1)) as -> by done.
  split; cbn [cells cursor]; [lia|]. exists (S k). replace (cur - 1)%nat with (length l) by lia. rewrite H2, <- app_assoc, take_app_length. f_equal.
  by rewrite drop_app_ge, Nat.sub_succ_l, Nat.sub_diag by lia.
Qed.

Lemma feed_erased T p l : shows T (p ++ l) -> shows (feed (erased (length l)) T) p.
Proof.
  revert T. induction l as [|c l IH] using rev_ind; intros T Hs; [by rewrite app_nil_r in Hs|].
  rewrite length_app, Nat.add_comm. cbn [length plus]. unfold erased. cbn [replicate mjoin list_join]. rewrite feed_app.
  apply IH. apply (feed_erase _ _ c). by rewrite <- app_assoc.
Qed.

Lemma feed_crlf T : shows (feed crlf T) [].
Proof. split; [done|]. by exists 0%nat. Qed.

(** Writing [t] turns a terminal that shows the prompt and [l] into one that shows
    the prompt and [l']. *)
Definition redraws (prompt l l' t : list Z) : Prop :=
  Forall printable prompt -> forall T, shows T (prompt ++ l) -> shows (feed t T) (prompt ++ l').

Lemma redraws_nil prompt l : redraws prompt l l [].
Proof. by intros _ T. Qed.

Lemma redraws_replace prompt l l' : Forall printable l' -> redraws prompt l l' (erased (length l) ++ l').
Proof. intros Hp _ T Hs. rewrite feed_app. apply feed_text; [|done]. by eapply feed_erased. Qed.

Lemma redraws_fresh prompt l l' t : (Forall printable prompt -> forall T, shows (feed t T) []) -> Forall printable l' -> redraws prompt l l' (t ++ prompt ++ l').
Proof. intros Ht Hp Hpr T _. rewrite feed_app. apply (feed_text _ []); [by apply Ht|]. by apply Forall_app. Qed.

Lemma tab_redraws prompt line : Forall printable line -> redraws prompt line (spec_tab line) (tab_output prompt line).
Proof.
  intros Hl. unfold tab_output, spec_tab, listing. pose proof (lcp_all_printable line) as Hp. assert (Hm : Forall (Forall printable) (matching line reg)).
  { apply Forall_forall. intros n Hn%list_elem_of_In. by apply names_printable, (matching_names line). }
  revert Hp Hm. generalize (lcp_all (matching line reg)). intros c Hp Hm.
  assert (Ht : Forall printable (take (Z.to_nat (LINE_BUF_SIZE - 2)) (take 63 c))) by (by apply Forall_take, Forall_take).
  destruct (matching line reg) as [|m [|m' ms] ]; [apply redraws_nil| |].
  - apply redraws_replace, Forall_app. split; [done|]. repeat constructor; lia.
  - rewrite (app_assoc crlf), (app_assoc (crlf ++ _)). apply redraws_fresh; [|done]. intros _ T. rewrite feed_app. apply feed_crlf.
Qed.

(** ** One byte *)

Context (prompt : list Z).

(** What a step of the session has to do: follow the editor, and keep the terminal
    showing the line, or end it. *)
Definition step_ok (s : ShellSession) (e : Editor) (r : option (bool * ShellSession)) (spec : bool * Editor) : Prop :=
  exists s' t, r = Some (spec.1, s') /\ rel s' spec.2 /\ wrote s s' t /\
    if (spec.1 : bool) then t = crlf /\ e_line spec.2 = e_line e /\ e_browse spec.2 = None else redraws prompt (e_line e) (e_line spec.2) t.

Lemma silent s e s' e' : rel s' e' -> write_fn s' = write_fn s -> out s' = out s -> e_line e' = e_line e -> step_ok s e (Some (false, s')) (false, e').
Proof. intros Hr H1 H2 H3. exists s', []. split; [done|]. split; [done|]. split; [by apply wrote_nil|]. cbn. rewrite H3. apply redraws_nil. Qed.

Lemma printable_char ch : 0 <= ch < 256 -> 32 <= char_val ch -> ch <> 127 -> printable ch.
Proof.
  intros Hr Hv Hn. unfold printable, char_val in *. destruct char_signed; [|lia]. unfold signed in Hv. rewrite wrap_small in Hv by (unfold in_range; lia).
  change (2 ^ (8 - 1)) with 128 in Hv. change (2 ^ 8) with 256 in Hv. destruct (Z.ltb_spec ch 128); lia.
Qed.

Lemma line_snoc buf pos l c :
  line_rel buf pos l -> pos < LINE_BUF_SIZE - 1 -> printable c -> exists b, bput buf pos c = Some b /\ line_rel b (pos + 1) (l ++ [c]).
Proof.
  intros (rest & -> & Hne & Hl & -> & Hp) Hlt Hc. rewrite length_app in Hl. destruct rest as [|y [|z rest] ]; [done|simpl in Hl; lia|].
  rewrite bput_app by done. eexists. split; [done|]. exists (z :: rest). rewrite <- app_assoc, !length_app in *. simpl in *.
  split; [done|]. split; [done|]. split; [lia|]. split; [lia|]. apply Forall_app. split; [done|]. by constructor.
Qed.

Lemma line_unsnoc buf pos l : line_rel buf pos l -> 0 < pos -> exists c, l = take (length l - 1) l ++ [c] /\ line_rel buf (pos - 1) (take (length l - 1) l).
Proof.
  intros (rest & -> & Hne & Hl & -> & Hp) Hlt. destruct (exists_last (l := l)) as (l0 & c & ->); [by intros ->|].
  rewrite length_app. simpl. replace (length l0 + 1 - 1)%nat with (length l0) by lia. rewrite take_app_length. exists c. split; [done|].
  apply Forall_app in Hp as [Hp _]. exists (c :: rest). rewrite <- app_assoc in *. split; [done|]. split; [done|]. split; [done|]. split; [lia|done].
Qed.

Lemma edit_rel ch s e : rel s e -> 0 <= ch < 256 -> step_ok s e (edit_char reg ch prompt s) (spec_edit ch e).
Proof.
  intros Hr Hch. pose proof (r_line _ _ Hr) as Hl. destruct (line_room _ _ _ Hl) as (Hpos & Hroom & Hp). pose proof (line_length _ _ _ Hl) as Hlen.
  pose proof line_size. unfold edit_char, spec_edit.
  destruct (ch =? 27); [apply silent; try done; by destruct Hr|].
  destruct (ch =? 3).
  { rewrite !write_eq. sproj. destruct (copy_put (line_buf s) [] 0) as (rest & b & E1 & E2 & E3); [simpl; lia|].
    rewrite bcopy_ok in E1 by (simpl; lia). cbn in E1. injection E1 as <-. change (Z.of_nat (@length Z [])) with 0 in E2. rewrite drop_0 in E2. rewrite E2. sproj.
    eexists _, ((str "^C" ++ crlf) ++ prompt ++ []). split; [done|]. rewrite write_eq. split.
    - destruct Hr. split; sproj; try done. apply (line_rel_new (line_buf s) []); [done|done|constructor].
    - split; [split; [done|]; unfold echo; sproj; destruct (write_fn s); [by rewrite app_nil_r, <- !app_assoc|done]|].
      apply redraws_fresh; [|constructor]. intros _ T. rewrite feed_app. apply feed_crlf. }
  assert ((line_pos s =? 0) = (length (e_line e) =? 0)%nat) as -> by (destruct (Nat.eqb_spec (length (e_line e)) 0), (Z.eqb_spec (line_pos s) 0); done || lia).
  destruct ((ch =? 4) && _); [apply silent; try done; by destruct Hr|].
  destruct ((ch =? 127) || (ch =? 8)) eqn:Eb.
  { destruct (Z.ltb_spec 0 (line_pos s)) as [Hlt|Hlt].
    - destruct (line_unsnoc _ _ _ Hl Hlt) as (c & Hc & Hl'). rewrite write_eq. eexists _, erase_one. split; [done|]. split; [by destruct Hr|].
      split; [done|]. intros _ T Hs. rewrite Hc in Hs at 1. apply (feed_erase _ _ c). by rewrite <- app_assoc.
    - assert (e_line e = []) as El by (destruct (e_line e); [done|simpl in *; lia]). rewrite El. cbn [length take Nat.sub].
      apply silent; try done. destruct Hr. split; try done. by rewrite El in *. }
  destruct (ch =? 9).
  { destruct (tab_rel prompt s e Hr) as (s' & -> & Hs & Hw). sproj. exists s', (tab_output prompt (e_line e)). split; [done|]. split; [done|]. split; [done|]. by apply tab_redraws. }
  destruct ((ch =? 13) || (ch =? 10)).
  { rewrite write_eq. eexists _, crlf. split; [done|]. cbn [fst snd]. destruct (ch =? 13); (split; [by destruct Hr|]; split; done). }
  assert (Hc127 : ch <> 127) by (intros ->; done). rewrite Hpos. destruct (Z.leb_spec 32 (char_val ch)) as [Hv|Hv]; cbn [andb]; [|by apply silent].
  destruct (Z.ltb_spec (Z.of_nat (length (e_line e))) (LINE_BUF_SIZE - 1)); [|by apply silent].
  pose proof (printable_char ch Hch Hv Hc127) as Hpc.
  destruct (line_snoc _ _ _ ch Hl) as (b & Eb' & Hb); [lia|done|]. rewrite <- Hpos, Eb'. sproj. rewrite write_eq. eexists _, [ch]. split; [done|].
  split; [by destruct Hr|]. split; [done|]. intros _ T Hs. cbn [snd e_line with_line]. rewrite app_assoc. apply feed_text; [done|]. by constructor.
Qed.

Lemma char_rel ch s e : rel s e -> 0 <= ch < 256 -> step_ok s e (process_char reg ch prompt s) (spec_char ch e).
Proof.
  intros Hr Hch. unfold process_char, spec_char. rewrite (r_skip _ _ Hr).
  assert (Hr1 : rel (set_skip_next_lf false s) (with_skip false e)) by by destruct Hr.
  assert (Hsame : e_skip e = false -> set_skip_next_lf false s = s /\ with_skip false e = e).
  { intros Hk. pose proof (r_skip _ _ Hr) as Hk'. rewrite Hk in Hk'. destruct s, e. cbn in *. by subst. }
  destruct (e_skip e && (ch =? 10)) eqn:Esk.
  { apply andb_true_iff in Esk as [-> ->]. by apply silent. }
  set (r := if e_skip e then (ch =? 10, _) else _). assert (r = (false, set_skip_next_lf false s)) as ->.
  { subst r. destruct (e_skip e); [cbn in Esk; by rewrite Esk|]. by destruct Hsame as [-> _]. }
  cbn match. rewrite (r_esc _ _ Hr1). destruct (e_esc (with_skip false e)) eqn:Ee.
  - destruct (edit_rel ch _ _ Hr1 Hch) as (s' & t & E & H1 & H2 & H3). exists s', t. done.
  - apply silent; try done. by destruct Hr1.
  - assert (Hr2 : rel (set_esc_state escNone (set_skip_next_lf false s)) (with_esc escNone (with_skip false e))) by by destruct Hr1.
    destruct (ch =? 65); [|destruct (ch =? 66); [|by apply silent] ].
    + destruct (up_rel _ _ Hr2) as (s' & t & -> & H1 & H2 & H3). sproj. exists s', t. split; [done|]. split; [done|]. split; [done|].
      destruct H3 as [ [-> H3]| ->]; cbn [snd fst]; [rewrite H3; apply redraws_nil|]. apply redraws_replace. by apply (line_room _ _ _ (r_line _ _ H1)).
    + destruct (down_rel _ _ Hr2) as (s' & t & -> & H1 & H2 & H3). sproj. exists s', t. split; [done|]. split; [done|]. split; [done|].
      destruct H3 as [ [-> H3]| ->]; cbn [snd fst]; [rewrite H3; apply redraws_nil|]. apply redraws_replace. by apply (line_room _ _ _ (r_line _ _ H1)).
Qed.

Lemma iac_rel b s e : rel s e -> FilterIac b s = ((spec_iac (e_iac e) b).1, (FilterIac b s).2) /\ rel (FilterIac b s).2 (with_iac (spec_iac (e_iac e) b).2 e) /\
  write_fn (FilterIac b s).2 = write_fn s /\ out (FilterIac b s).2 = out s.
Proof.
  intros Hr. unfold FilterIac, spec_iac. rewrite (r_iac _ _ Hr). pose proof (r_iac _ _ Hr) as Hi.
  destruct (e_iac e) eqn:Ei; repeat (case_match; cbn); (split; [done|]); (split; [destruct Hr; split; cbn; congruence|done]).
Qed.

Lemma iac_range st b : 0 <= b < 256 -> 0 <= (spec_iac st b).1 < 256.
Proof. intros. destruct st; simpl; repeat (case_match; simpl); lia. Qed.

Lemma byte_rel b s e : rel s e -> 0 <= b < 256 -> step_ok s e (ProcessByte reg b prompt s) (spec_byte b e).
Proof.
  intros Hr Hb. unfold ProcessByte, spec_byte. rewrite (r_telnet _ _ Hr). destruct (e_telnet e); [|by apply char_rel].
  destruct (iac_rel b s e Hr) as (E & Hr' & H1 & H2). rewrite E. pose proof (iac_range (e_iac e) b Hb) as Hc. revert Hr' H1 H2. generalize (FilterIac b s).2. intros s1 Hr1 H1 H2.
  destruct (spec_iac (e_iac e) b) as [ch st]. cbn [fst snd] in *. destruct (ch =? 0); [by apply silent|].
  destruct (char_rel ch _ _ Hr1 Hc) as (s' & t & E' & H3 & H4 & H5). exists s', t. split; [done|]. split; [done|]. split; [|done].
  change t with ([] ++ t). eapply wrote_app; [by apply wrote_nil|done].
Qed.

(** ** Execution *)

(** Output that ends at the start of an empty line. *)
Definition clean (t : list Z) : Prop := forall T, shows T [] -> shows (feed t T) [].

Lemma clean_nil : clean [].
Proof. by intros T. Qed.
Lemma clean_app a b : clean a -> clean b -> clean (a ++ b).
Proof. intros Ha Hb T HT. rewrite feed_app. by apply Hb, Ha. Qed.
Lemma clean_line a : clean (a ++ crlf).
Proof. intros T _. rewrite feed_app. apply feed_crlf. Qed.

Lemma print_buf_spec size t s :
  (0 < size)%nat ->
  print_buf size t s = if (length t <=? size)%nat then Some (ShellSessionWrite (if (length t <? size)%nat then t else take (size - 1) t ++ [0]) s) else None.
Proof.
  intros Hs. unfold print_buf, snprintf.
  assert (Hl : length (take (size - 1) t ++ 0 :: replicate (size - 1 - length t) 0) = size) by (rewrite length_app, length_take; simpl; rewrite length_replicate; lia).
  destruct (Nat.leb_spec (length t) size) as [Hle|Hgt].
  - destruct (Nat.ltb_spec (length t) size) as [Hlt|Hge].
    + rewrite (take_ge t) by lia. by rewrite bread_app.
    + replace (size - 1 - length t)%nat with 0%nat by lia. cbn [replicate]. rewrite <- (app_nil_r (take (size - 1) t ++ [0])) at 1.
      rewrite bread_app; [done|]. rewrite length_app, length_take. simpl. lia.
  - unfold bread. rewrite Hl. destruct (Z.leb_spec (Z.of_nat (length t)) (Z.of_nat size)); [lia|]. by rewrite andb_false_r.
Qed.

Lemma printf_fold prints s : wrote s (fold_left ShellPrintf prints s) (mjoin (take 255 <$> prints)) /\ exists o, fold_left ShellPrintf prints s = set_out o s.
Proof.
  revert s. induction prints as [|t prints IH]; intros s; [split; [by apply wrote_nil|exists (out s); by destruct s]|].
  rewrite fmap_cons. cbn [fold_left mjoin list_join]. destruct (IH (ShellPrintf s t)) as [Hw [o Ho] ].
  split; [eapply wrote_app; [|exact Hw]; unfold ShellPrintf; by rewrite write_eq|]. exists o. rewrite Ho. unfold ShellPrintf. rewrite write_eq. by destruct s.
Qed.

Lemma help_fold l s :
  let r := fold_left (fun (o : option ShellSession) (c : ShellCmd F) => s ← o; print_buf 256 (help_line c) s) l (Some s) in
  if forallb (fun c => (length (help_line c) <=? 256)%nat) l then exists s' o t, r = Some s' /\ s' = set_out o s /\ wrote s s' t /\ (Forall (fun c => (length (help_line c) < 256)%nat) l -> clean t)
  else r = None.
Proof.
  revert s. induction l as [|c l IH]; intros s; cbn [fold_left forallb].
  - exists s, (out s), []. split; [done|]. split; [by destruct s|]. split; [by apply wrote_nil|]. intros _. apply clean_nil.
  - cbn [mbind option_bind]. rewrite print_buf_spec by lia. destruct (Nat.leb_spec (length (help_line c)) 256) as [Hle|Hgt]; cbn [andb].
    + set (t0 := if (length (help_line c) <? 256)%nat then help_line c else _). specialize (IH (ShellSessionWrite t0 s)). cbn zeta in IH.
      destruct (forallb _ l); [|done]. destruct IH as (s' & o & t & E & Es & Hw & Hc). exists s', o, (t0 ++ t). split; [done|].
      split; [rewrite Es, write_eq; by destruct s|]. split; [eapply wrote_app; [|exact Hw]; rewrite write_eq; done|].
      intros [Hlt Hl]%Forall_cons_iff. apply clean_app; [|by apply Hc]. subst t0. destruct (Nat.ltb_spec (length (help_line c)) 256); [|lia].
      unfold help_line. rewrite !app_assoc. apply clean_line.
    + clear. induction l as [|c' l IH]; [done|exact IH].
Qed.

(** The output of executing the line is complete lines: of the command, of the help
    command, or the message for an unknown command. *)
Definition tidy (line : list Z) (w : W) : Prop :=
  match split_spec MAX_ARGS line with
  | [] => True
  | a :: args =>
    match Find a reg with
    | None => (length a <= 140)%nat
    | Some cmd =>
      match func cmd with
      | ShellBuiltinHelp => Forall (fun c => (length (help_line c) < 256)%nat) reg
      | UserCmd f => clean (mjoin (take 255 <$> (run f (a :: args) w).2))
      end
    end
  end.

Definition fresh_line (e : Editor) : Editor := with_line [] None (with_hist (spec_push (e_line e) (e_hist e)) e).

(** After the execution: the buffers are still theirs, and an empty line can be
    started. *)
Definition executed (s s' : ShellSession) (e : Editor) : Prop :=
  exists b, bput (line_buf s') 0 0 = Some b /\ rel (set_line_pos 0 (set_line_buf b s')) (fresh_line e).

Lemma executed_intro s1 cmd o e :
  rel s1 (with_hist (spec_push (e_line e) (e_hist e)) e) -> e_browse e = None -> Z.of_nat (length cmd) = LINE_BUF_SIZE -> executed s1 (set_out o (set_line_buf cmd s1)) e.
Proof.
  intros Hr Hb Hl. pose proof line_size. destruct cmd as [|x cmd]; [simpl in Hl; lia|]. exists (0 :: cmd). split; [done|].
  destruct Hr as [_ Hh Hbr He Hi Ha Ht Hk]. cbn in Hbr. rewrite Hb in Hbr. split; try done. exists (0 :: cmd). by repeat split.
Qed.

Lemma exec_rel s e w :
  rel s e -> e_browse e = None ->
  match spec_exec (e_line e) w with
  | None => ShellExecuteLine reg run (s, w) = None
  | Some w' => exists s' t, ShellExecuteLine reg run (s, w) = Some (s', w') /\ wrote s s' t /\ (tidy (e_line e) w -> clean t) /\ executed s s' e
  end.
Proof.
  intros Hr Hb. unfold ShellExecuteLine. destruct (push_rel s e Hr Hb) as (s1 & -> & Hr1 & Hw1). sproj.
  pose proof (r_line _ _ Hr1) as Hl. cbn [e_line with_hist] in Hl. destruct (line_room _ _ _ Hl) as (Hpos & Hroom & Hp).
  destruct (line_term _ _ _ Hl) as (rest & -> & Hl'). sproj. rewrite Hpos.
  destruct (shell_split_spec MAX_ARGS (e_line e) rest) as (argv & cmd & -> & Hcl & Hargs); [by apply printable_text|]. sproj.
  assert (Hcl' : Z.of_nat (length cmd) = LINE_BUF_SIZE) by (apply line_length in Hl'; rewrite Hcl; done). clear Hcl.
  pose proof (fun o => executed_intro s1 cmd o e Hr1 Hb Hcl') as Hex.
  assert (Hset : set_line_buf cmd s1 = set_out (out s1) (set_line_buf cmd s1)) by by destruct s1.
  unfold spec_exec, tidy. revert Hargs. generalize (split_spec MAX_ARGS (e_line e)). intros args Hargs.
  destruct argv as [|a argv]; [injection Hargs as <-|]. 
  { eexists _, []. split; [done|]. split; [done|]. split; [intros _; apply clean_nil|]. destruct (Hex (out s1)) as (b & Hb1 & Hb2). rewrite <- Hset in Hb1, Hb2. by exists b. }
  cbn [mapM] in Hargs. destruct (arg_at cmd a) as [n|] eqn:En; [|done]. cbn [mbind option_bind] in Hargs.
  destruct (mapM (arg_at cmd) argv) as [ns|] eqn:Ens; [|done]. injection Hargs as <-. sproj. cbn [mapM]. rewrite En. sproj.
  destruct (Find n reg) as [c|].
  - rewrite Ens. sproj. change (mret (n :: ns)) with (Some (n :: ns)). sproj. destruct (func c) as [|f].
    + unfold run_help, ForEach. pose proof (help_fold reg (set_line_buf cmd s1)) as Hh. cbn zeta in Hh. destruct (forallb _ reg); [|by rewrite Hh].
      destruct Hh as (s' & o & t & -> & -> & Hw & Hc). sproj. eexists _, t. split; [done|]. split; [exact (wrote_app _ _ _ _ _ Hw1 Hw)|]. split; [exact Hc|]. destruct (Hex o) as (b & ? & ?). by exists b.
    + destruct (run f (n :: ns) w) as [w' prints]. destruct (printf_fold prints (set_line_buf cmd s1)) as [Hw [o Ho] ]. cbn [fst snd]. eexists _, _. split; [reflexivity|].
      split; [exact (wrote_app _ _ _ _ _ Hw1 Hw)|]. split; [done|]. rewrite Ho. destruct (Hex o) as (b & ? & ?). by exists b.
  - rewrite print_buf_spec by lia. assert (Hlen : length (str "unknown command: " ++ n ++ crlf) = (19 + length n)%nat) by (rewrite !length_app; cbn; lia).
    rewrite Hlen. destruct (Nat.leb_spec (length n) 141), (Nat.leb_spec (19 + length n) 160); try lia; [|done]. sproj. rewrite write_eq.
    set (t := if (19 + length n <? 160)%nat then _ else _). eexists _, t. split; [done|]. split; [by apply (wrote_app s s1 _ [] t Hw1)|]. split.
    + intros Hlt. subst t. destruct (Nat.ltb_spec (19 + length n) 160); [|lia]. rewrite app_assoc. apply clean_line.
    + match goal with |- executed _ (set_out ?o _) _ => destruct (Hex o) as (b & ? & ?) end. by exists b.
Qed.

(** ** The loop *)

Definition byte_tidy (b : Z) (x : Editor * W) : Prop := let '(ready, e) := spec_byte b x.1 in if (ready : bool) then tidy (e_line e) x.2 else True.

Lemma input_rel b s e w :
  rel s e -> 0 <= b < 256 ->
  match spec_input b (e, w) with
  | None => input_byte reg run prompt b (s, w) = None
  | Some (e', w') =>
    exists s' t, input_byte reg run prompt b (s, w) = Some (s', w') /\ rel s' e' /\ wrote s s' t /\
      (byte_tidy b (e, w) -> e_active e' = true -> redraws prompt (e_line e) (e_line e') t)
  end.
Proof.
  intros Hr Hb. unfold spec_input, input_byte, byte_tidy. cbn [fst snd]. destruct (byte_rel b s e Hr Hb) as (s1 & t1 & -> & Hr1 & Hw1 & Hready). sproj.
  destruct (spec_byte b e) as [ready e1]. cbn [fst snd] in *. destruct ready; [|exists s1, t1; auto].
  destruct Hready as (-> & Hline & Hbr). pose proof (exec_rel s1 e1 w Hr1 Hbr) as Hx. unfold fresh_line in Hx.
  destruct (spec_exec (e_line e1) w) as [w'|]; [|cbn [mbind option_bind]; by rewrite Hx]. cbn [mbind option_bind].
  destruct Hx as (s2 & t2 & -> & Hw2 & Hc & b' & Hb1 & Hr2). sproj. rewrite Hb1. sproj. unfold fresh_line in Hr2. rewrite Hbr.
  change (mkEd (e_line e1) (spec_push (e_line e1) (e_hist e1)) None (e_esc e1) (e_iac e1) (e_active e1) (e_telnet e1) (e_skip e1)) with (with_line (e_line e1) None (with_hist (spec_push (e_line e1) (e_hist e1)) e1)).
  pose proof (r_active _ _ Hr2) as Ha. sproj. cbn in Ha. rewrite Ha.
  assert (Hw3 : wrote s (set_line_buf b' (set_line_pos 0 s2)) (crlf ++ t2)) by exact (wrote_app _ _ _ _ _ Hw1 Hw2).
  destruct (e_active e1) eqn:Ea.
  - eexists _, ((crlf ++ t2) ++ prompt ++ []). split; [done|]. split; [rewrite write_eq; by destruct Hr2|].
    split; [eapply wrote_app; [exact Hw3|]; rewrite app_nil_r; rewrite write_eq; done|].
    intros Ht _. apply redraws_fresh; [|constructor]. intros _ T. rewrite feed_app. apply Hc; [done|]. apply feed_crlf.
  - eexists _, (crlf ++ t2). split; [done|]. split; [by destruct Hr2|]. split; [done|]. cbn. intros _ Hf. by rewrite Ea in Hf.
Qed.

Definition input_ok (i : Input) : Prop := match i with Byte b => 0 <= b < 256 | _ => True end.

Fixpoint tidy_run (ins : list Input) (x : Editor * W) : Prop :=
  if negb (e_active x.1) then True
  else
    match ins with
    | Idle :: ins => tidy_run ins x
    | Byte b :: ins => byte_tidy b x /\ match spec_input b x with Some x => tidy_run ins x | None => True end
    | _ => True
    end.

Lemma loop_rel ins s e w :
  rel s e -> Forall input_ok ins ->
  match spec_loop ins (e, w) with
  | None => input_loop reg run prompt ins (s, w) = None
  | Some (left_, (e', w')) =>
    exists s' t, input_loop reg run prompt ins (s, w) = Some (left_, (s', w')) /\ rel s' e' /\ wrote s s' t /\
      (tidy_run ins (e, w) -> e_active e' = true -> redraws prompt (e_line e) (e_line e') t)
  end.
Proof.
  intros Hr Hi. revert s e w Hr. induction Hi as [|i ins Hi _ IH]; intros s e w Hr; cbn [spec_loop input_loop tidy_run fst]; rewrite (r_active _ _ Hr).
  - destruct (negb (e_active e)); (exists s, []; split; [done|]; split; [done|]; split; [by apply wrote_nil|]; intros; apply redraws_nil).
  - destruct (negb (e_active e)); [exists s, []; split; [done|]; split; [done|]; split; [by apply wrote_nil|]; intros; apply redraws_nil|].
    destruct i as [|b| |]; [by apply IH| |exists s, []; split; [done|]; split; [done|]; split; [by apply wrote_nil|]; intros; apply redraws_nil..].
    pose proof (input_rel b s e w Hr Hi) as Hb. destruct (spec_input b (e, w)) as [ [e1 w1]|]; cbn [mbind option_bind]; [|by rewrite Hb].
    destruct Hb as (s1 & t1 & -> & Hr1 & Hw1 & Hd1). cbn [mbind option_bind]. specialize (IH s1 e1 w1 Hr1).
    destruct (spec_loop ins (e1, w1)) as [ [l [e2 w2] ]|] eqn:El; [|done]. destruct IH as (s2 & t2 & -> & Hr2 & Hw2 & Hd2).
    exists s2, (t1 ++ t2). split; [done|]. split; [done|]. split; [by eapply wrote_app|]. intros [Ht1 Ht2] Ha Hp T HT. rewrite feed_app.
    apply Hd2; [done|done|done|]. apply Hd1; [done| |done|done].
    destruct (e_active e1) eqn:E1; [done|]. exfalso. destruct ins; cbn in El; rewrite E1 in El; injection El as <- <- <-; congruence.
Qed.

End Editor.

(** ** The theorems *)

Definition editor_start (telnet : bool) : Editor := mkEd [] [] None escNone iacNormal true telnet false.

Lemma start_rel `{ShellConfigOk} rfd wfd wfn rfn telnet : rel (ShellSessionInit rfd wfd wfn rfn telnet new_session) (editor_start telnet).
Proof.
  pose proof line_size. pose proof history_size. split; cbn; try done.
  - exists (replicate (Z.to_nat LINE_BUF_SIZE) 0). rewrite length_replicate. repeat split; [|lia|constructor].
    destruct (Z.to_nat LINE_BUF_SIZE) eqn:E; [lia|done].
  - split; rewrite ?length_replicate; try done; try lia. apply Forall_replicate. rewrite length_replicate. lia.
Qed.

(** C26. Refinement: on any input, a shell session is a line editor over texts.  The
    edited line, the history with its browsing, completion, the telnet and escape
    filters and the commands run, with their arguments, are those of the editor; no
    access leaves a buffer, except that an unknown command of more than 141
    characters, or a help line of more than 256, is written from beyond the buffer it
    was formatted in. *)
Theorem shell_session_refines `{ShellConfigOk} {F W} (reg : list (ShellCmd F)) (run : F -> list (list Z) -> W -> W * list (list Z)) prompt rfd wfd wfn rfn telnet ins w :
  Forall (fun c => Forall printable (name c)) reg -> Forall input_ok ins ->
  match spec_loop reg run ins (editor_start telnet, w) with
  | None => RunLoop reg run prompt ins (ShellSessionInit rfd wfd wfn rfn telnet new_session, w) = None
  | Some (left_, (e, w')) =>
    exists s, RunLoop reg run prompt ins (ShellSessionInit rfd wfd wfn rfn telnet new_session, w) = Some (left_, (s, w')) /\ rel s e
  end.
Proof.
  intros Hn Hi. unfold RunLoop. cbn [fst snd].
  destruct (write_rel prompt _ _ (start_rel rfd wfd wfn rfn telnet)) as [Hr _].
  pose proof (loop_rel reg run Hn prompt ins _ _ w Hr Hi) as Hl. destruct (spec_loop reg run ins (editor_start telnet, w)) as [ [l [e w'] ]|]; [|done].
  destruct Hl as (s & t & E & Hs & _). by exists s.
Qed.

(** A session on a small terminal with one command, which counts how often it runs. *)
Definition demo_config : ShellConfig := {| LINE_BUF_SIZE := 16; HISTORY_SIZE := 4; MAX_ARGS := 4; char_signed := true |}.
Lemma demo_config_ok : @ShellConfigOk demo_config.
Proof. split; simpl; lia. Qed.
Definition demo_reg : list (ShellCmd unit) := [mkCmd (str "help") None ShellBuiltinHelp; mkCmd (str "stat") (Some (str "Status")) (UserCmd tt); mkCmd (str "start") None (UserCmd tt)].
Definition demo_run (_ : unit) (args : list (list Z)) (n : nat) : nat * list (list Z) := (n + length args, [str "ok" ++ crlf])%nat.
Definition typed (s : list Z) : list Input := Byte <$> s.

Definition demo_keys : list Input := typed (str "xs" ++ [8; 8] ++ str "sta" ++ [9] ++ str "t" ++ [9] ++ str "1 2" ++ [13; 10; 27; 91; 65]).

Lemma shell_session_refines_witness :
  exists s, @RunLoop demo_config _ _ demo_reg demo_run (str "> ") demo_keys (@ShellSessionInit 0 1 (Some ShellPosix) (Some ShellPosix) false (@new_session demo_config), 0%nat)
    = Some (false, (s, 3%nat)) /\
  @rel demo_config s (mkEd (str "stat 1 2") [str "stat 1 2"] (Some 0%nat) escNone iacNormal true false false).
Proof.
  assert (E : @spec_loop demo_config _ _ demo_reg demo_run demo_keys (editor_start false, 0%nat) =
    Some (false, (mkEd (str "stat 1 2") [str "stat 1 2"] (Some 0%nat) escNone iacNormal true false false, 3%nat))) by (vm_compute; reflexivity).
  pose proof (@shell_session_refines demo_config demo_config_ok _ _ demo_reg demo_run (str "> ") 0 1 (Some ShellPosix) (Some ShellPosix) false demo_keys 0%nat) as Hx.
  rewrite E in Hx. apply Hx; repeat constructor; vm_compute; congruence.
Defined.

Section Screen.
Context `{ShellConfigOk} {F W : Type} (reg : list (ShellCmd F)) (run : F -> list (list Z) -> W -> W * list (list Z)).

Lemma tidy_exec line w : tidy reg run line w -> is_Some (spec_exec reg run line w).
Proof.
  unfold tidy, spec_exec. destruct (split_spec MAX_ARGS line) as [|a args]; [by eexists|]. destruct (Find a reg) as [c|].
  - destruct (func c); [|by eexists]. intros Hf. assert (forallb (fun c => (length (help_line c) <=? 256)%nat) reg = true) as ->; [|by eexists].
    apply forallb_forall. intros x Hx. rewrite Forall_forall in Hf. apply Nat.leb_le. specialize (Hf x Hx). cbn beta in Hf. lia.
  - intros Hl. destruct (Nat.leb_spec (length a) 141); [by eexists|lia].
Qed.

Lemma tidy_loop ins x : tidy_run reg run ins x -> is_Some (spec_loop reg run ins x).
Proof.
  revert x. induction ins as [|i ins IH]; intros [e w]; cbn [tidy_run spec_loop fst]; destruct (negb (e_active e)); try by eexists.
  destruct i as [|b| |]; [apply IH| |by eexists..]. intros [Hb Ht]. unfold byte_tidy in Hb. unfold spec_input in *. cbn [fst snd] in *.
  destruct (spec_byte reg b e) as [ready e1]. destruct ready; cbn [mbind option_bind]; [|by apply IH].
  destruct (tidy_exec _ _ Hb) as [w' E]. rewrite E in *. cbn [mbind option_bind] in *. by apply IH.
Qed.

End Screen.

(** What you see is what you edit: as long as commands print whole lines, the
    terminal fed with everything a session writes shows, at any time, the prompt and
    exactly the line in the buffer, with only blanks right of the cursor, through
    erasing, history, completion and control keys; and no access leaves a buffer. *)
Lemma shell_screen_shows_line `{ShellConfigOk} {F W} (reg : list (ShellCmd F)) (run : F -> list (list Z) -> W -> W * list (list Z)) prompt rfd wfd wio rio telnet ins w :
  Forall (fun c => Forall printable (name c)) reg -> Forall printable prompt -> Forall input_ok ins -> tidy_run reg run ins (editor_start telnet, w) ->
  exists left_ s w', RunLoop reg run prompt ins (ShellSessionInit rfd wfd (Some wio) (Some rio) telnet new_session, w) = Some (left_, (s, w')) /\
    (active s = true -> exists l, bread (line_buf s) (line_pos s) = Some l /\ shows (feed (out s) (mkTerm [] 0)) (prompt ++ l)).
Proof.
  intros Hn Hp Hi Ht. unfold RunLoop. cbn [fst snd]. set (s0 := ShellSessionInit _ _ _ _ _ _).
  destruct (write_rel prompt s0 _ (start_rel rfd wfd (Some wio) (Some rio) telnet)) as [Hr Hw].
  destruct (tidy_loop reg run ins _ Ht) as [ [l [e w'] ] E]. pose proof (loop_rel reg run Hn prompt ins _ _ w Hr Hi) as Hl. rewrite E in Hl.
  destruct Hl as (s & t & Es & Hs & Hw' & Hd). exists l, s, w'. split; [done|]. intros Ha. rewrite (r_active _ _ Hs) in Ha.
  exists (e_line e). split; [destruct (r_line _ _ Hs) as (rest & -> & _ & _ & -> & _); by apply bread_app|].
  assert (out s = prompt ++ t) as -> by (apply (wrote_app _ _ _ _ _ Hw Hw')).
  rewrite feed_app. apply Hd; [done|done|done|]. cbn [editor_start e_line]. rewrite app_nil_r. apply (feed_text _ []); [|done]. split; [done|]. by exists 0%nat.
Qed.

Lemma shell_screen_shows_line_witness :
  exists left_ s w', @RunLoop demo_config _ _ demo_reg demo_run (str "> ") demo_keys (@ShellSessionInit 0 1 (Some ShellPosix) (Some ShellPosix) false (@new_session demo_config), 0%nat)
    = Some (left_, (s, w')) /\
    (active s = true -> exists l, bread (line_buf s) (line_pos s) = Some l /\ shows (feed (out s) (mkTerm [] 0)) (str "> " ++ l)).
Proof.
  apply (@shell_screen_shows_line demo_config demo_config_ok _ _ demo_reg demo_run (str "> ") 0 1 ShellPosix ShellPosix false demo_keys 0%nat).
  - repeat constructor; vm_compute; congruence.
  - repeat constructor; vm_compute; congruence.
  - repeat constructor; vm_compute; congruence.
  - assert (Hc : clean (str "ok" ++ crlf ++ [])) by apply clean_line. unfold demo_keys, typed. 
    repeat (cbn [app fmap list_fmap]; split; [vm_compute; exact I || exact Hc|]; vm_compute). exact I.
Defined.

(** ** Telnet *)

(** A telnet stream: data, option negotiations, two-byte commands and subnegotiations. *)
Inductive TelnetItem := Data (d : Z) | Nego (cmd opt : Z) | Command (c : Z) | SubNego (payload : list Z).
Definition telnet_encode (i : TelnetItem) : list Z :=
  match i with
  | Data d => if d =? 255 then [255; 255] else [d]
  | Nego cmd opt => [255; cmd; opt]
  | Command c => [255; c]
  | SubNego payload => [255; 250] ++ payload ++ [255; 240]
  end.
Definition telnet_ok (i : TelnetItem) : Prop :=
  match i with
  | Data d => 0 < d < 256
  | Nego cmd _ => 251 <= cmd <= 254
  | Command c => 0 <= c < 250
  | SubNego payload => Forall (fun b => b <> 255) payload
  end.
Definition telnet_data (i : TelnetItem) : list Z := match i with Data d => [d] | _ => [] end.

(** The characters that pass the filter. *)
Fixpoint filter_stream (bs : list Z) (s : ShellSession) : list Z * ShellSession :=
  match bs with
  | [] => ([], s)
  | b :: bs =>
    let '(ch, s) := FilterIac b s in
    let '(cs, s) := filter_stream bs s in
    (if ch =? 0 then cs else ch :: cs, s)
  end.

Lemma filter_stream_app a b s : filter_stream (a ++ b) s = ((filter_stream a s).1 ++ (filter_stream b (filter_stream a s).2).1, (filter_stream b (filter_stream a s).2).2).
Proof.
  revert s. induction a as [|x a IH]; intros s; cbn [app filter_stream fst snd]; [by destruct (filter_stream b s)|].
  destruct (FilterIac x s) as [ch s1]. rewrite IH. destruct (filter_stream a s1) as [cs s2]. cbn [fst snd]. by destruct (ch =? 0).
Qed.

Lemma set_iac_same s x : iac_state s = x -> set_iac_state x s = s.
Proof. destruct s. cbn. by intros ->. Qed.

Lemma filter_sub payload s : iac_state s = iacSub -> Forall (fun b => b <> 255) payload -> filter_stream payload s = ([], s).
Proof.
  intros Hs. induction 1 as [|b payload Hb _ IH]; [done|]. cbn [filter_stream]. unfold FilterIac. rewrite Hs. destruct (Z.eqb_spec b 255); [done|]. by rewrite IH.
Qed.

Lemma filter_item i s : iac_state s = iacNormal -> telnet_ok i -> filter_stream (telnet_encode i) s = (telnet_data i, s).
Proof.
  intros Hs. 
  destruct i as [d|c o|c|p]; cbn [telnet_ok telnet_encode telnet_data]; intros Hi.
  - destruct (Z.eqb_spec d 255) as [->|Hd].
    + cbn. unfold FilterIac. rewrite Hs. cbn. f_equal. destruct s; cbn in *; by subst.
    + cbn. unfold FilterIac. rewrite Hs. destruct (Z.eqb_spec d 255); [done|]. destruct (Z.eqb_spec d 0); [lia|done].
  - cbn. unfold FilterIac. rewrite Hs. cbn. destruct (Z.leb_spec 251 c), (Z.leb_spec c 254); try lia. cbn. f_equal. destruct s; cbn in *; by subst.
  - cbn. unfold FilterIac. rewrite Hs. cbn. destruct (Z.leb_spec 251 c), (Z.eqb_spec c 250), (Z.eqb_spec c 255); try lia; cbn; f_equal; destruct s; cbn in *; by subst.
  - assert (filter_stream [255; 250] s = ([], set_iac_state iacSub (set_iac_state iacIac s))) as E by (cbn; unfold FilterIac; rewrite Hs; done).
    rewrite !filter_stream_app, E. cbn [fst snd]. rewrite filter_sub by done. cbn. f_equal. destruct s; cbn in *; by subst.
Qed.

(** The filter takes option negotiations, commands and subnegotiations out of a telnet
    stream and returns its data, escaped 0xFF bytes included. *)
Lemma telnet_filter_returns_data items s :
  iac_state s = iacNormal -> Forall telnet_ok items -> filter_stream (items ≫= telnet_encode) s = (items ≫= telnet_data, s).
Proof.
  intros Hs. induction 1 as [|i items Hi _ IH]; [done|]. rewrite !bind_cons, filter_stream_app, filter_item by done. cbn [fst snd]. by rewrite IH.
Qed.

(** An escaped 0xFF inside a subnegotiation ends it: its rest reaches the line. *)
Lemma telnet_sub_leaks s : iac_state s = iacNormal -> (filter_stream ([255; 250; 24] ++ [255; 255] ++ [65; 66]) s).1 = [255; 65; 66].
Proof. intros Hs. cbn. unfold FilterIac. rewrite Hs. done. Qed.

(** ** History *)

(** Once the history is full, no entry of it can be recalled: the Up key leaves the
    line alone. *)
Lemma full_history_unreachable `{ShellConfigOk} s e : rel s e -> length (e_hist e) = room -> exists s', HistoryUp s = Some s' /\ rel s' (spec_up e) /\ e_line (spec_up e) = e_line e.
Proof.
  intros Hr Hf. destruct (up_rel s e Hr) as (s' & t & E & Hs & _). exists s'. split; [done|]. split; [done|]. pose proof (r_browse _ _ Hr) as Hb. unfold spec_up.
  destruct (Nat.eqb_spec (length (e_hist e)) 0); [done|]. rewrite Hf, Nat.ltb_irrefl. unfold browse_rel in Hb. rewrite Hf, Nat.ltb_irrefl in Hb.
  destruct (e_browse e) as [b|]; cbn [default]; [destruct Hb as (_ & _ & _ & -> & _)|]; by rewrite Nat.eqb_refl.
Qed.

(** An unknown command of 142 characters: 161 bytes are written from a buffer of 160. *)
Lemma unknown_command_overreads :
  @RunLoop (shell_default true) _ _ ([] : list (ShellCmd unit)) demo_run [] (typed (replicate 142 97 ++ [13])) (@ShellSessionInit 0 1 (Some ShellPosix) (Some ShellPosix) false (@new_session (shell_default true)), 0%nat) = None.
Proof. vm_compute. reflexivity. Qed.
