(* ===== verification/ShellLogin.v ===== *)
(** * The login of the telnet shell

    DebugShell::RunAuth of Shell.v against a specification on texts: the pairs of
    fields a client types, and the comparison of credentials. *)

From Stdlib Require Import ZArith Lia Bool String.
From stdpp Require Import base numbers list option.
From S2P Require Import Prelude CBuffer ShellCmd Shell ShellEditor.

Open Scope Z_scope.
Open Scope list_scope.

(** ** The comparison *)

Definition char_at (l : list Z) (i : Z) : Z := if i <? Z.of_nat (length l) then u8 (aget l i) else 0.

Lemma lor_zero a b : 0 <= a < 256 -> 0 <= b < 256 -> u8 (Z.lor a b) = 0 <-> a = 0 /\ b = 0.
Proof.
  intros Ha Hb. assert (in_range 8 (Z.lor a b)).
  { apply in_range_bits; [lia|]. intros k Hk. rewrite Z.lor_spec, !(testbit_above 8) by (done || unfold in_range; lia). done. }
  rewrite wrap_small by done. apply Z.lor_eq_0_iff.
Qed.

Lemma u8_range z : 0 <= u8 z < 256.
Proof. apply (wrap_range 8). lia. Qed.

Lemma lxor_zero a b : 0 <= a < 256 -> 0 <= b < 256 -> u8 (Z.lxor a b) = 0 <-> a = b.
Proof.
  intros Ha Hb. assert (in_range 8 (Z.lxor a b)).
  { apply in_range_bits; [lia|]. intros k Hk. rewrite Z.lxor_spec, !(testbit_above 8) by (done || unfold in_range; lia). done. }
  rewrite wrap_small by done. apply Z.lxor_eq_0_iff.
Qed.

Lemma char_at_range l i : 0 <= char_at l i < 256.
Proof. unfold char_at. case_bool; [apply u8_range|lia]. Qed.

Lemma diff_loop l r n d :
  0 <= d < 256 ->
  let f := fun i diff => u8 (Z.lor diff (u8 (Z.lxor (char_at l i) (char_at r i)))) in
  0 <= for_loop f 0 n d < 256 /\ (for_loop f 0 n d = 0 <-> d = 0 /\ forall i, 0 <= i < Z.of_nat n -> char_at l i = char_at r i).
Proof.
  intros Hd f. pose (P := fun j (x : Z) => 0 <= x < 256 /\ (x = 0 <-> d = 0 /\ forall i, 0 <= i < j -> char_at l i = char_at r i)).
  apply (for_loop_inv P f 0 n d).
  - split; [done|]. split; [intros ->; split; [done|lia]|by intros [? _] ].
  - intros j x Hj [Hx Hz]. unfold f. split; [apply u8_range|]. rewrite lor_zero, lxor_zero by (done || apply u8_range || apply char_at_range). rewrite Hz. split.
    + intros [ [-> Hi] Hj']. split; [done|]. intros i Hi'. destruct (Z.eq_dec i j) as [->|]; [done|]. apply Hi. lia.
    + intros [-> Hi]. split; [split; [done|]; intros; apply Hi; lia|]. apply Hi. lia.
Qed.

Definition bytes (s : list Z) : Prop := Forall (fun c => 0 < c < 256) s.

Lemma char_at_byte l i : bytes l -> 0 <= i < Z.of_nat (length l) -> char_at l i = aget l i /\ char_at l i <> 0.
Proof.
  intros Hl Hi. unfold char_at. destruct (Z.ltb_spec i (Z.of_nat (length l))); [|lia].
  assert (0 < aget l i < 256) as Hb.
  { unfold aget. destruct (lookup_lt_is_Some_2 l (Z.to_nat i)) as [x Hx]; [lia|]. rewrite (list_lookup_total_correct _ _ _ Hx).
    unfold bytes in Hl. rewrite Forall_lookup in Hl. by eapply Hl. }
  rewrite wrap_small by (unfold in_range; lia). lia.
Qed.

(** The comparison in constant time is equality: the lengths are compared modulo 256
    only, but a longer text also differs in a character. *)
Lemma constant_time_equals_correct l r : bytes l -> bytes r -> ConstantTimeEquals (Some l) (Some r) = true <-> l = r.
Proof.
  intros Hl Hr.
  assert (ConstantTimeEquals (Some l) (Some r) = (for_loop (fun i diff => u8 (Z.lor diff (u8 (Z.lxor (char_at l i) (char_at r i))))) 0 (length l `max` length r)
    (u8 (Z.lxor (Z.of_nat (length l)) (Z.of_nat (length r)))) =? 0)) as -> by done.
  destruct (diff_loop l r (length l `max` length r) (u8 (Z.lxor (Z.of_nat (length l)) (Z.of_nat (length r))))) as [_ Hz]; [apply u8_range|].
  cbn zeta in Hz. rewrite Z.eqb_eq, Hz. clear Hz.
  assert (Hend : forall k : list Z, char_at k (Z.of_nat (length k)) = 0) by (intros; unfold char_at; by rewrite Z.ltb_irrefl). split.
  - intros [_ Hi]. assert (Hlen : length l = length r).
    { destruct (lt_eq_lt_dec (length l) (length r)) as [ [Hlt|]|Hgt]; [exfalso|done|exfalso].
      - destruct (char_at_byte r (Z.of_nat (length l)) Hr) as [_ Hne]; [lia|]. apply Hne. by rewrite <- Hi by lia.
      - destruct (char_at_byte l (Z.of_nat (length r)) Hl) as [_ Hne]; [lia|]. apply Hne. by rewrite Hi by lia. }
    apply arr_ext; [done|]. intros i Hir. specialize (Hi i ltac:(lia)). destruct (char_at_byte l i Hl Hir) as [<- _]. destruct (char_at_byte r i Hr) as [<- _]; [lia|]. done.
  - intros ->. rewrite Z.lxor_nilpotent. done.
Qed.

(** ** The specification *)

Section Login.
Context `{ShellConfig}.

(** A field as the client types it: telnet commands are dropped, backspace takes a
    character back, and a field ends at a line end or with its 63rd character. *)
Inductive FieldText := TDone (t : list Z) (st : IacState) (rest : list (option Z)) | TFailed | TWaiting.
Fixpoint typed_field (ins : list (option Z)) (acc : list Z) (st : IacState) : FieldText :=
  if (63 <=? length acc)%nat then TDone acc st ins
  else
    match ins with
    | [] => TWaiting
    | None :: _ => TFailed
    | Some b :: ins =>
      let '(ch, st) := spec_iac st b in
      if ch =? 0 then typed_field ins acc st
      else if (ch =? 13) || (ch =? 10) then TDone acc st ins
      else if (ch =? 127) || (ch =? 8) then typed_field ins (take (length acc - 1) acc) st
      else if 32 <=? char_val ch then typed_field ins (acc ++ [ch]) st
      else typed_field ins acc st
    end.

(** The login: up to [tries] pairs of fields, until one is the right one. *)
Inductive LoginText := LDone (ok : bool) (rest : list (option Z)) | LWaiting.
Fixpoint logins (user : list Z) (pass : option (list Z)) (alive : Z -> bool) (tries : nat) (k : Z) (ins : list (option Z)) (st : IacState) : LoginText :=
  match tries with
  | O => LDone false ins
  | S tries =>
    if negb (alive k) then LDone false ins
    else
      match typed_field ins [] st with
      | TFailed => LDone false []
      | TWaiting => LWaiting
      | TDone u st ins =>
        match typed_field ins [] st with
        | TFailed => LDone false []
        | TWaiting => LWaiting
        | TDone p st ins => if bool_decide (u = user /\ Some p = pass) then LDone true ins else logins user pass alive tries (k + 1) ins st
        end
      end
  end.

Definition field_ok (s : ShellSession) (r : option FieldResult) (spec : FieldText) : Prop :=
  match r, spec with
  | Some (FieldDone b s' rest), TDone t st rest' =>
    rest = rest' /\ cstr b = Some t /\ length b = 64%nat /\ bytes t /\ iac_state s' = st /\ authenticated s' = authenticated s /\ auth_attempts s' = auth_attempts s
  | Some (FieldFailed s'), TFailed => authenticated s' = authenticated s
  | Some (FieldWaiting s'), TWaiting => authenticated s' = authenticated s
  | _, _ => False
  end.

Lemma field_ok_trans s s1 r spec : authenticated s1 = authenticated s -> auth_attempts s1 = auth_attempts s -> field_ok s1 r spec -> field_ok s r spec.
Proof. unfold field_ok. intros H1 H2. destruct r as [ [b s' rest|s'|s']|], spec; rewrite ?H1, ?H2; done. Qed.

Lemma printable_bytes t : Forall printable t -> bytes t.
Proof. intros Ht. eapply Forall_impl; [|exact Ht]. unfold printable. intros. lia. Qed.

Lemma filter_iac_fields b s :
  FilterIac b s = ((spec_iac (iac_state s) b).1, (FilterIac b s).2) /\ iac_state (FilterIac b s).2 = (spec_iac (iac_state s) b).2 /\
  authenticated (FilterIac b s).2 = authenticated s /\ auth_attempts (FilterIac b s).2 = auth_attempts s.
Proof. unfold FilterIac, spec_iac. destruct (iac_state s) eqn:E; repeat (case_match; cbn); repeat split; congruence. Qed.

Definition read_ok (o : option Z) : Prop := match o with Some b => 0 <= b < 256 | None => True end.

Lemma read_field_ok mask ins acc rest s :
  Forall read_ok ins -> Forall printable acc -> length (acc ++ rest) = 64%nat -> (length acc <= 63)%nat ->
  field_ok s (read_field mask ins (acc ++ rest) (Z.of_nat (length acc)) s) (typed_field ins acc (iac_state s)).
Proof.
  intros Hi. revert acc rest s. induction Hi as [|i ins Hi Hins IH]; intros acc rest s Hp Hl Hacc.
  all: assert (Hfin : forall s' ins', iac_state s' = iac_state s' -> authenticated s' = authenticated s -> auth_attempts s' = auth_attempts s ->
    field_ok s (b ← bput (acc ++ rest) (Z.of_nat (length acc)) 0; Some (FieldDone b (ShellSessionWrite crlf s') ins')) (TDone acc (iac_state s') ins')).
  1, 3: intros s' ins' _ H1 H2; rewrite length_app in Hl; destruct rest as [|y rest]; [simpl in Hl; lia|]; rewrite bput_app by done; cbn [mbind option_bind];
    rewrite write_eq; cbn; (split; [done|]); (split; [apply cstr_app; by apply printable_text|]); (split; [rewrite length_app; exact Hl|]); (split; [by apply printable_bytes|done]).
  - cbn [read_field typed_field]. destruct (Nat.leb_spec 63 (length acc)), (Z.leb_spec 63 (Z.of_nat (length acc))); try lia; [by apply Hfin|done].
  - cbn [read_field typed_field]. destruct (Nat.leb_spec 63 (length acc)), (Z.leb_spec 63 (Z.of_nat (length acc))); try lia; [by apply Hfin|].
    destruct i as [b|]; [|done]. destruct (filter_iac_fields b s) as (E & J1 & J2 & J3). rewrite E. revert J1 J2 J3. generalize (FilterIac b s).2. intros s1 J1 J2 J3.
    pose proof (iac_range (iac_state s) b Hi) as Hr. destruct (spec_iac (iac_state s) b) as [ch st]. cbn [fst snd] in *. subst st.
    destruct (ch =? 0); [apply (field_ok_trans s s1); [done..|]; by apply IH|].
    destruct ((ch =? 13) || (ch =? 10)) eqn:Ee.
    { destruct (ch =? 13); [apply (Hfin (set_skip_next_lf true s1))|apply (Hfin s1)]; done. }
    apply orb_false_iff in Ee as [_ Ee]. rewrite Ee.
    set (r := if skip_next_lf s1 then _ else _). assert (exists s2, r = (false, s2) /\ iac_state s2 = iac_state s1 /\ authenticated s2 = authenticated s1 /\ auth_attempts s2 = auth_attempts s1) as (s2 & -> & K1 & K2 & K3).
    { subst r. destruct (skip_next_lf s1); eexists; by repeat split. }
    rewrite <- K1. destruct ((ch =? 127) || (ch =? 8)) eqn:Eb.
    { destruct (Z.ltb_spec 0 (Z.of_nat (length acc))) as [Hpos|Hpos].
      - destruct (exists_last (l := acc)) as (a0 & c & ->); [by intros ->|]. rewrite length_app. cbn [length]. replace (length a0 + 1 - 1)%nat with (length a0) by lia.
        rewrite take_app_length. replace (Z.of_nat (length a0 + 1) - 1) with (Z.of_nat (length a0)) by lia. rewrite <- app_assoc, write_eq.
        apply Forall_app in Hp as [Hp _]. rewrite length_app in Hacc. rewrite <- app_assoc in Hl. apply (field_ok_trans s (set_out (echo s2 erase_one) s2)); [cbn; congruence..|].
        change (iac_state s2) with (iac_state (set_out (echo s2 erase_one) s2)). apply IH; [done|done|lia].
      - destruct acc as [|]; [|simpl in Hpos; lia]. apply (field_ok_trans s s2); [congruence..|]. by apply IH. }
    destruct (Z.leb_spec 32 (char_val ch)) as [Hv|Hv]; [|apply (field_ok_trans s s2); [congruence..|]; by apply IH].
    assert (Hc127 : ch <> 127) by (intros ->; done). pose proof (printable_char ch Hr Hv Hc127) as Hpc.
    destruct rest as [|y rest]; [rewrite app_nil_r in Hl; lia|]. rewrite bput_app by done. cbn [mbind option_bind]. rewrite (snoc_buffer acc), write_eq in *.
    apply (field_ok_trans s (set_out (echo s2 (if mask then str "*" else [ch])) s2)); [cbn; congruence..|].
    change (iac_state s2) with (iac_state (set_out (echo s2 (if mask then str "*" else [ch])) s2)).
    replace (Z.of_nat (length acc) + 1) with (Z.of_nat (length (acc ++ [ch]))) by (rewrite length_app; simpl; lia).
    apply IH; [apply Forall_app; split; [done|by constructor]|rewrite !length_app in *; simpl in *; lia|rewrite length_app; simpl; lia].
Qed.

Definition login_ok (s : ShellSession) (r : option AuthResult) (spec : LoginText) : Prop :=
  match r, spec with
  | Some (AuthDone ok s' rest), LDone ok' rest' => ok = ok' /\ rest = rest' /\ authenticated s' = ok || authenticated s
  | Some (AuthWaiting s'), LWaiting => authenticated s' = authenticated s
  | _, _ => False
  end.

Lemma typed_rest ins acc st t st' rest : typed_field ins acc st = TDone t st' rest -> Forall read_ok ins -> Forall read_ok rest.
Proof.
  intros E Hi. revert acc st E. induction Hi as [|i ins Hi Hins IH]; intros acc st; cbn [typed_field].
  - destruct (63 <=? length acc)%nat; [|done]. by intros [= _ _ <-].
  - destruct (63 <=? length acc)%nat; [intros [= _ _ <-]; by constructor|]. destruct i as [b|]; [|done]. destruct (spec_iac st b) as [ch st1].
    repeat (case_match; try (intros [= _ _ <-]; done); try apply IH).
Qed.

Lemma credentials_equal u p user pass :
  bytes u -> bytes p -> bytes user -> (forall q, pass = Some q -> bytes q) ->
  ConstantTimeEquals (Some u) (Some user) && ConstantTimeEquals (Some p) pass = bool_decide (u = user /\ Some p = pass).
Proof.
  intros Hu Hp Hur Hpr. apply eq_bool_prop_intro. rewrite !Is_true_true, andb_true_iff, bool_decide_eq_true, constant_time_equals_correct by done.
  destruct pass as [q|]; [rewrite constant_time_equals_correct by auto; naive_solver|]. split; [by intros [_ ?]|by intros [_ ?] ].
Qed.

Lemma auth_loop_ok cred user alive tries ub pb ins s :
  username cred = Some user -> bytes user -> (forall q, password cred = Some q -> bytes q) -> Forall read_ok ins ->
  length ub = 64%nat -> length pb = 64%nat -> 0 <= auth_attempts s -> auth_attempts s + Z.of_nat tries <= 255 ->
  login_ok s (auth_loop cred alive tries ub pb ins s) (logins user (password cred) alive tries (auth_attempts s) ins (iac_state s)).
Proof.
  intros Hu Hub Hpb. revert ub pb ins s. induction tries as [|tries IH]; intros ub pb ins s Hi Hlu Hlp Ha0 Ha; cbn [auth_loop logins].
  { rewrite write_eq. done. }
  destruct (negb (alive (auth_attempts s))); [rewrite write_eq; done|]. rewrite write_eq. set (s1 := set_out _ s).
  pose proof (read_field_ok false ins [] ub s1 Hi ltac:(constructor) Hlu ltac:(simpl; lia)) as Hf. cbn [app length] in Hf. change (Z.of_nat 0) with 0 in Hf.
  change (iac_state s1) with (iac_state s) in Hf. pose proof (typed_rest ins [] (iac_state s)) as Hr.
  destruct (read_field false ins ub 0 s1) as [ [ub' s2 ins2|s2|s2]|], (typed_field ins [] (iac_state s)) as [u st rest| |]; try done. cbn [mbind option_bind].
  destruct Hf as (<- & Hcu & Hlu' & Hbu & <- & Hau & Hat). specialize (Hr _ _ _ eq_refl Hi). rewrite write_eq. set (s3 := set_out _ s2).
  pose proof (read_field_ok true ins2 [] pb s3 Hr ltac:(constructor) Hlp ltac:(simpl; lia)) as Hf. cbn [app length] in Hf. change (Z.of_nat 0) with 0 in Hf.
  change (iac_state s3) with (iac_state s2) in Hf. pose proof (typed_rest ins2 [] (iac_state s2)) as Hr2.
  destruct (read_field true ins2 pb 0 s3) as [ [pb' s4 ins4|s4|s4]|], (typed_field ins2 [] (iac_state s2)) as [q st rest| |]; try done;
    [|cbn in *; by rewrite Hf|cbn in *; by rewrite Hf]. cbn [mbind option_bind].
  destruct Hf as (<- & Hcp & Hlp' & Hbp & <- & Hau4 & Hat4). specialize (Hr2 _ _ _ eq_refl Hr). rewrite Hcu, Hcp. cbn [mbind option_bind].
  rewrite Hu, (credentials_equal u q user (password cred)) by done. cbn in Hau4, Hat4, Hau, Hat. case_bool_decide as Hm; rewrite write_eq; [done|].
  set (s5 := set_out _ _). assert (auth_attempts s5 = auth_attempts s + 1) as Has.
  { cbn. rewrite Hat4, Hat. apply wrap_small. unfold in_range. lia. }
  specialize (IH ub' pb' ins4 s5 Hr2 Hlu' Hlp'). rewrite Has in IH. change (iac_state s5) with (iac_state s4) in IH. specialize (IH ltac:(lia) ltac:(lia)).
  unfold login_ok in *. replace (authenticated s5) with (authenticated s) in IH by (cbn; congruence). exact IH.
Qed.

End Login.

(** The login of a telnet session opens exactly to the right credentials: on any
    input it succeeds if and only if, within three attempts while the session is
    alive, the two fields typed are the user name and the password; it never leaves
    its buffers, and the session is marked authenticated only then. *)
Lemma shell_login_exact `{ShellConfig} cred user alive fd s0 ins :
  username cred = Some user -> bytes user -> (forall q, password cred = Some q -> bytes q) -> Forall read_ok ins ->
  login_ok (accept_session fd cred s0) (RunAuth cred alive ins (accept_session fd cred s0)) (logins user (password cred) alive 3 0 ins iacNormal) /\
  authenticated (accept_session fd cred s0) = false.
Proof.
  intros Hu Hb Hp Hi. split; [|cbn; by rewrite Hu].
  exact (auth_loop_ok cred user alive 3 (replicate 64 0) (replicate 64 0) ins (accept_session fd cred s0) Hu Hb Hp Hi eq_refl eq_refl ltac:(cbn; lia) ltac:(cbn; lia)).
Qed.

Definition demo_cred : Credentials := mkCred (Some (str "root")) (Some (str "pw")).
Definition line_of (s : list Z) : list (option Z) := Some <$> s ++ [13].

Lemma shell_login_exact_witness :
  login_ok (accept_session 5 demo_cred (@new_session demo_config))
    (@RunAuth demo_config demo_cred (fun _ => true) (line_of (str "root") ++ line_of (str "px") ++ line_of (str "root") ++ line_of (str "pw")) (accept_session 5 demo_cred (@new_session demo_config)))
    (LDone true []) /\
  authenticated (accept_session 5 demo_cred (@new_session demo_config)) = false.
Proof.
  assert (E : @logins demo_config (str "root") (Some (str "pw")) (fun _ => true) 3 0 (line_of (str "root") ++ line_of (str "px") ++ line_of (str "root") ++ line_of (str "pw")) iacNormal = LDone true [])
    by (vm_compute; reflexivity).
  rewrite <- E. apply (@shell_login_exact demo_config demo_cred (str "root") (fun _ => true) 5 (@new_session demo_config)); [done| | |].
  - repeat constructor; vm_compute; congruence.
  - intros q [= <-]. repeat constructor; vm_compute; congruence.
  - repeat constructor; vm_compute; congruence.
Defined.

(** A client that ends its lines with CR LF cannot log in: the LF of the user name is
    taken for an empty password, and every later field is read one too late. *)
Lemma crlf_login_fails :
  exists rest, @logins demo_config (str "root") (Some (str "pw")) (fun _ => true) 3 0
    (Some <$> mjoin (replicate 3 (str "root" ++ crlf ++ str "pw" ++ crlf))) iacNormal = LDone false rest.
Proof. eexists. vm_compute. reflexivity. Qed.
