(* ===== verification/WorkerPool.v ===== *)
(** * WorkerPool (include/osp/worker_pool.hpp)

    A thread pool on top of the message bus: the dispatcher thread takes jobs off the
    bus and hands them to the worker queues, SpscRingbuffers, in turn; every worker
    runs the handlers.  The model composes Bus.v and Spsc.v.  The threads are
    interleaved: an operation is one iteration of the dispatcher loop, one action of
    a worker (taking a job, running its handler, counting it), one read of
    FlushAndPause, or a call of the interface.  A batch of the bus is one operation;
    its depth only drops when the batch is complete.  The wake-up semaphore is a hint
    and not modelled: a worker may act at any time. *)

From Stdlib Require Import ZArith Lia Bool.
From stdpp Require Import base numbers list option.
From S2P Require Import Prelude Vocabulary.
From S2P Require Spsc.
From S2P Require Import Bus.

Open Scope Z_scope.

Section Pool.
Context {Payload App : Type} `{Inhabited Payload} (variant_index : Payload -> Z).
(** The bus: depth [2^k], batch, types and callbacks.  The pool: [2^kq] is
    OSP_WORKER_QUEUE_DEPTH, [kMaxTypes] the number of alternatives of the variant. *)
Context (k kBatchSize bus_types kMaxCallbacks : Z) (eviction : bool) (kq kMaxTypes kMaxWorkers : Z).

Definition Env : Type := @MessageEnvelope Payload.
Definition Queue : Type := @Spsc.spsc Env.
Definition new_queue : Queue := Spsc.SpscRingbuffer kq.
Definition Push (e : Env) (q : Queue) : bool * Queue := Spsc.Push 64 kq e q.
Definition Pop (q : Queue) : option Env * Queue := Spsc.Pop 64 kq q.
Definition IsEmpty (q : Queue) : bool := Spsc.IsEmpty 64 q.

(** ** The workers *)

(** Where a worker thread is: in its loop, draining its queue after the shutdown, or
    gone; the job it has taken, and whether its handler has run. *)
Inductive WorkerPhase := wLoop | wDrain | wExit.
Record WorkerContext := mkWorker {
  queue : Queue;
  phase : WorkerPhase;
  job : option (Env * bool);
  (* history: the jobs pushed to the queue and the jobs whose handler has run *)
  got : list Env;
  ran : list Env
}.
#[global] Instance worker_inhabited : Inhabited WorkerContext := populate (mkWorker new_queue wLoop None [] []).

(** What the bus callbacks and the worker threads act on.  [fault]: a worker beyond
    the vector was accessed. *)
Record PoolWorld := mkWorld {
  workers_ : list WorkerContext;
  next_worker_ : Z;
  dispatched_ : Z;
  processed_ : Z;
  worker_queue_full_ : Z;
  overflow_cb_ : bool;
  overflow_calls : nat;
  (* history: the jobs that were with a worker when the workers were destroyed *)
  lost : nat;
  fault : bool;
  app : App
}.
Definition set_workers (l : list WorkerContext) (w : PoolWorld) : PoolWorld :=
  mkWorld l (next_worker_ w) (dispatched_ w) (processed_ w) (worker_queue_full_ w) (overflow_cb_ w) (overflow_calls w) (lost w) (fault w) (app w).
Definition count_dispatched (w : PoolWorld) : PoolWorld :=
  mkWorld (workers_ w) (next_worker_ w) (u64 (dispatched_ w + 1)) (processed_ w) (worker_queue_full_ w) (overflow_cb_ w) (overflow_calls w) (lost w) (fault w) (app w).
Definition count_processed (w : PoolWorld) : PoolWorld :=
  mkWorld (workers_ w) (next_worker_ w) (dispatched_ w) (u64 (processed_ w + 1)) (worker_queue_full_ w) (overflow_cb_ w) (overflow_calls w) (lost w) (fault w) (app w).
Definition set_next (n : Z) (w : PoolWorld) : PoolWorld :=
  mkWorld (workers_ w) n (dispatched_ w) (processed_ w) (worker_queue_full_ w) (overflow_cb_ w) (overflow_calls w) (lost w) (fault w) (app w).
Definition set_fault (w : PoolWorld) : PoolWorld :=
  mkWorld (workers_ w) (next_worker_ w) (dispatched_ w) (processed_ w) (worker_queue_full_ w) (overflow_cb_ w) (overflow_calls w) (lost w) true (app w).
Definition set_app (a : App) (w : PoolWorld) : PoolWorld :=
  mkWorld (workers_ w) (next_worker_ w) (dispatched_ w) (processed_ w) (worker_queue_full_ w) (overflow_cb_ w) (overflow_calls w) (lost w) (fault w) a.
Definition count_full (w : PoolWorld) : PoolWorld :=
  mkWorld (workers_ w) (next_worker_ w) (dispatched_ w) (processed_ w) (u64 (worker_queue_full_ w + 1)) (overflow_cb_ w)
    (if overflow_cb_ w then S (overflow_calls w) else overflow_calls w) (lost w) (fault w) (app w).

Abbreviation contents := (Spsc.contents 64 kq).

(** The jobs a worker still has: the one it has taken and not counted, and its queue. *)
Definition load (c : WorkerContext) : nat := (match job c with Some _ => 1 | None => 0 end + length (contents (queue c)))%nat.
Definition total_load (l : list WorkerContext) : nat := sum_list_with load l.

(** ** DispatchToWorker *)

Context (worker_num_ : Z).

(** The constructor's clamp of the configured number. *)
Definition clamp_workers (worker_num : Z) : Z :=
  if 0 <? worker_num then (if worker_num <=? kMaxWorkers then worker_num else kMaxWorkers) else 1.

Lemma clamp_workers_range n : 1 <= kMaxWorkers -> 1 <= clamp_workers n <= kMaxWorkers.
Proof. intros. unfold clamp_workers. destruct (Z.ltb_spec 0 n), (Z.leb_spec n kMaxWorkers); lia. Qed.

Definition push_job (e : Env) (c : WorkerContext) : option WorkerContext :=
  let '(ok, q) := Push e (queue c) in
  if (ok : bool) then Some (mkWorker q (phase c) (job c) (got c ++ [e]) (ran c)) else None.

(** The loop over the workers from [start + i] on, [n] left. *)
Fixpoint try_workers (n : nat) (start i : Z) (e : Env) (w : PoolWorld) : PoolWorld :=
  match n with
  | O => count_full w
  | S n =>
    let wid := Z.to_nat (u32 (start + i) mod worker_num_) in
    match workers_ w !! wid with
    | None => set_fault w
    | Some c =>
      match push_job e c with
      | Some c => count_dispatched (set_workers (<[wid := c]> (workers_ w)) w)
      | None => try_workers n start (i + 1) e w
      end
    end
  end.

Definition DispatchToWorker (e : Env) (w : PoolWorld) : PoolWorld :=
  let start := next_worker_ w mod worker_num_ in
  try_workers (Z.to_nat worker_num_) start 0 e (set_next (u32 (next_worker_ w + 1)) w).

(** ** The pool *)

Inductive DispatcherPhase := dNone | dLoop | dDrain (rounds : nat) | dExit.
(** The reads of FlushAndPause: the depth of the bus, the worker queues from [i] on, the
    two counters; what has been read so far goes along. *)
Inductive FlushPhase :=
| fIdle | fBus | fWorkers (i : nat) (bus_empty : bool) | fDisp (bus_empty workers_empty : bool) | fProc (bus_empty workers_empty : bool) (disp : Z)
| fOk | fTimeout.
Definition Handler : Type := Env -> App -> App.
Definition Bus : Type := @AsyncBus Payload PoolWorld.

Record WorkerPool := mkPool {
  bus : Bus;
  world : PoolWorld;
  handlers_ : list (option Handler);
  running_ : bool;
  shutdown_ : bool;
  paused_ : bool;
  dispatcher : DispatcherPhase;
  subscription_handles_ : list SubscriptionHandle;
  (* a Start or Shutdown that waits for the threads *)
  stopping : bool;
  flush : FlushPhase;
  (* calls of Submit that have found the pool not paused and not yet published *)
  submitting : list (Z * Payload * MessagePriority)
}.

Definition WorkerPool_ctor (a : App) : WorkerPool :=
  mkPool (AsyncBus_ctor k bus_types kMaxCallbacks) (mkWorld [] 0 0 0 0 false 0 0 false a) (replicate (Z.to_nat kMaxTypes) None) false false false dNone [] false fIdle [].

Definition set_bus (b : Bus) (w : PoolWorld) (p : WorkerPool) : WorkerPool :=
  mkPool b w (handlers_ p) (running_ p) (shutdown_ p) (paused_ p) (dispatcher p) (subscription_handles_ p) (stopping p) (flush p) (submitting p).
Definition set_dispatcher (d : DispatcherPhase) (p : WorkerPool) : WorkerPool :=
  mkPool (bus p) (world p) (handlers_ p) (running_ p) (shutdown_ p) (paused_ p) d (subscription_handles_ p) (stopping p) (flush p) (submitting p).
Definition set_flags (run shut stop : bool) (p : WorkerPool) : WorkerPool :=
  mkPool (bus p) (world p) (handlers_ p) run shut (paused_ p) (dispatcher p) (subscription_handles_ p) stop (flush p) (submitting p).
Definition set_paused (b : bool) (p : WorkerPool) : WorkerPool :=
  mkPool (bus p) (world p) (handlers_ p) (running_ p) (shutdown_ p) b (dispatcher p) (subscription_handles_ p) (stopping p) (flush p) (submitting p).
Definition set_flush (f : FlushPhase) (p : WorkerPool) : WorkerPool :=
  mkPool (bus p) (world p) (handlers_ p) (running_ p) (shutdown_ p) (paused_ p) (dispatcher p) (subscription_handles_ p) (stopping p) f (submitting p).

(** The wrapper tests the type of the payload, which its slot already decides. *)
Definition RegisterHandler (idx : Z) (h : Handler) (p : WorkerPool) : WorkerPool :=
  mkPool (bus p) (world p) (<[Z.to_nat idx := Some h]> (handlers_ p)) (running_ p) (shutdown_ p) (paused_ p) (dispatcher p) (subscription_handles_ p) (stopping p) (flush p) (submitting p).

Definition DispatchEnvelope (p : WorkerPool) (e : Env) (a : App) : App :=
  match handlers_ p !! Z.to_nat (variant_index (payload e)) with Some (Some h) => h e a | _ => a end.

(** MaybeSubscribe for the type [idx]. *)
Definition MaybeSubscribe (p : WorkerPool) (idx : nat) : WorkerPool :=
  match handlers_ p !! idx with
  | Some (Some _) =>
    let '(h, b) := Subscribe (Z.of_nat idx) DispatchToWorker (bus p) in
    mkPool b (world p) (handlers_ p) (running_ p) (shutdown_ p) (paused_ p) (dispatcher p)
      (if handle_IsValid h then subscription_handles_ p ++ [h] else subscription_handles_ p) (stopping p) (flush p) (submitting p)
  | _ => p
  end.
Definition SubscribeAll (p : WorkerPool) : WorkerPool := fold_left MaybeSubscribe (seq 0 (Z.to_nat kMaxTypes)) p.

(** [started]: how many worker threads could be started, after the dispatcher. *)
Definition Start (disp_ok : bool) (started : nat) (p : WorkerPool) : WorkerPool :=
  if running_ p then p
  else
    let p := set_flags true false false p in
    let fresh i := mkWorker new_queue (if disp_ok && (i <? started)%nat then wLoop else wExit) None [] [] in
    let p := set_bus (bus p) (set_workers (fresh <$> seq 0 (Z.to_nat worker_num_)) (world p)) p in
    let p := SubscribeAll p in
    let p := set_dispatcher (if disp_ok then dLoop else dExit) p in
    if disp_ok && (Z.to_nat worker_num_ <=? started)%nat then p else set_flags true true true p.

Definition Shutdown (p : WorkerPool) : WorkerPool := if running_ p then set_flags true true true p else p.

(** The end of StopAll, when all threads have been joined. *)
Definition UnsubscribeAll (p : WorkerPool) : WorkerPool :=
  mkPool (fold_left (fun b h => (Unsubscribe bus_types h b).2) (subscription_handles_ p) (bus p)) (world p) (handlers_ p) (running_ p) (shutdown_ p) (paused_ p)
    (dispatcher p) [] (stopping p) (flush p) (submitting p).
Definition gone (c : WorkerContext) : bool := match phase c with wExit => true | _ => false end.
Definition joined (p : WorkerPool) : bool :=
  match dispatcher p with dNone | dExit => forallb gone (workers_ (world p)) | _ => false end.
Definition clear_workers (w : PoolWorld) : PoolWorld :=
  mkWorld [] (next_worker_ w) (dispatched_ w) (processed_ w) (worker_queue_full_ w) (overflow_cb_ w) (overflow_calls w)
    (lost w + total_load (workers_ w)) (fault w) (app w).
Definition StopAll_end (p : WorkerPool) : WorkerPool :=
  let p := UnsubscribeAll p in
  set_flags false true false (set_dispatcher dNone (set_bus (bus p) (clear_workers (world p)) p)).

(** ** The threads *)

Definition batch (p : WorkerPool) : Z * WorkerPool :=
  let '(n, b, w) := ProcessBatch variant_index k kBatchSize bus_types (bus p) (world p) in (n, set_bus b w p).

(** One iteration of DispatcherLoop. *)
Definition DispatcherStep (p : WorkerPool) : WorkerPool :=
  match dispatcher p with
  | dLoop => if shutdown_ p then set_dispatcher (dDrain 10) p else (batch p).2
  | dDrain (S n) => let '(c, p) := batch p in set_dispatcher (if c =? 0 then dExit else dDrain n) p
  | dDrain O => set_dispatcher dExit p
  | dNone | dExit => p
  end.

(** One action of WorkerLoop. *)
Definition take_job (c : WorkerContext) (empty : WorkerPhase) : WorkerContext :=
  let '(o, q) := Pop (queue c) in
  match o with
  | Some e => mkWorker q (phase c) (Some (e, false)) (got c) (ran c)
  | None => mkWorker q empty None (got c) (ran c)
  end.
Definition WorkerStep (i : nat) (p : WorkerPool) : WorkerPool :=
  let w := world p in
  match workers_ w !! i with
  | None => p
  | Some c =>
    let put c w := set_workers (<[i := c]> (workers_ w)) w in
    match job c, phase c with
    | _, wExit => p
    | Some (e, false), ph => set_bus (bus p) (put (mkWorker (queue c) ph (Some (e, true)) (got c) (ran c ++ [e])) (set_app (DispatchEnvelope p e (app w)) w)) p
    | Some (e, true), ph => set_bus (bus p) (count_processed (put (mkWorker (queue c) ph None (got c) (ran c)) w)) p
    | None, wLoop =>
      if shutdown_ p then set_bus (bus p) (put (mkWorker (queue c) wDrain None (got c) (ran c)) w) p
      else set_bus (bus p) (put (take_job c wLoop) w) p
    | None, wDrain => set_bus (bus p) (put (take_job c wExit) w) p
    end
  end.

(** ** Submitting, flushing, queries *)

Definition Submit (now : Z) (pl : Payload) (prio : MessagePriority) (p : WorkerPool) : bool * WorkerPool :=
  if paused_ p then (false, p)
  else let '(ok, b) := PublishWithPriority k eviction now pl 0 prio (bus p) in (ok, set_bus b (world p) p).
(** The same in two steps, between which other threads may run. *)
Definition set_submitting (l : list (Z * Payload * MessagePriority)) (p : WorkerPool) : WorkerPool :=
  mkPool (bus p) (world p) (handlers_ p) (running_ p) (shutdown_ p) (paused_ p) (dispatcher p) (subscription_handles_ p) (stopping p) (flush p) l.
Definition SubmitBegin (now : Z) (pl : Payload) (prio : MessagePriority) (p : WorkerPool) : WorkerPool :=
  if paused_ p then p else set_submitting (submitting p ++ [(now, pl, prio)]) p.
Definition SubmitEnd (j : nat) (p : WorkerPool) : WorkerPool :=
  match submitting p !! j with
  | Some (now, pl, prio) =>
    set_submitting (delete j (submitting p)) (set_bus (PublishWithPriority k eviction now pl 0 prio (bus p)).2 (world p) p)
  | None => p
  end.

Definition SubmitSync (now : Z) (pl : Payload) (p : WorkerPool) : bool * WorkerPool :=
  match handlers_ p !! Z.to_nat (variant_index pl) with
  | Some (Some h) => (true, set_bus (bus p) (set_app (h (mkEnvelope (mkHeader 0 now 0 0 kHigh) pl) (app (world p))) (world p)) p)
  | _ => (false, p)
  end.

(** The reads of FlushAndPause; [late]: the deadline has passed. *)
Definition FlushAndPause (p : WorkerPool) : WorkerPool := set_flush fBus (set_paused true p).
Definition FlushStep (late : bool) (p : WorkerPool) : WorkerPool :=
  match flush p with
  | fBus => set_flush (fWorkers 0 (Depth (bus p) =? 0)) p
  | fWorkers i be =>
    if (i <? Z.to_nat worker_num_)%nat then
      match workers_ (world p) !! i with
      | None => set_bus (bus p) (set_fault (world p)) (set_flush (fDisp be false) p)
      | Some c => if IsEmpty (queue c) then set_flush (fWorkers (S i) be) p else set_flush (fDisp be false) p
      end
    else set_flush (fDisp be true) p
  | fDisp be we => set_flush (fProc be we (dispatched_ (world p))) p
  | fProc be we disp =>
    if be && we && (disp =? processed_ (world p)) then set_flush fOk p
    else set_flush (if (late : bool) then fTimeout else fBus) p
  | f => p
  end.
Definition Resume (p : WorkerPool) : WorkerPool := set_paused false p.
Definition SetOnOverflow (cb : bool) (p : WorkerPool) : WorkerPool :=
  let w := world p in
  set_bus (bus p) (mkWorld (workers_ w) (next_worker_ w) (dispatched_ w) (processed_ w) (worker_queue_full_ w) cb (overflow_calls w) (lost w) (fault w) (app w)) p.

(** Counters and the statistics of the bus. *)
Definition GetStats (p : WorkerPool) : Z * Z * Z * BusStatistics :=
  (dispatched_ (world p), processed_ (world p), worker_queue_full_ (world p), GetStatistics (bus p)).

(** ** Calls and threads interleaved *)

Inductive PoolOp :=
| ORegister (idx : Z) (h : Handler) | OStart (disp_ok : bool) (started : nat) | OSubmitBegin (now : Z) (pl : Payload) (prio : MessagePriority) | OSubmitEnd (j : nat)
| OSubmitSync (now : Z) (pl : Payload) | ODispatcher | OWorker (i : nat) | OShutdown | OJoin | OFlush | OFlushStep (late : bool) | OResume
| OSetOnOverflow (cb : bool).

Definition pool_step (o : PoolOp) (p : WorkerPool) : WorkerPool :=
  match o with
  | ORegister idx h => RegisterHandler idx h p
  | OStart d n => Start d n p
  | OSubmitBegin now pl prio => SubmitBegin now pl prio p
  | OSubmitEnd j => SubmitEnd j p
  | OSubmitSync now pl => (SubmitSync now pl p).2
  | ODispatcher => DispatcherStep p
  | OWorker i => WorkerStep i p
  | OShutdown => Shutdown p
  | OJoin => if stopping p && joined p then StopAll_end p else p
  | OFlush => FlushAndPause p
  | OFlushStep late => FlushStep late p
  | OResume => Resume p
  | OSetOnOverflow cb => SetOnOverflow cb p
  end.
Definition pool_run (ops : list PoolOp) (p : WorkerPool) : WorkerPool := fold_left (fun p o => pool_step o p) ops p.

(** ** Invariants *)

(** The job taken from the queue and not yet run. *)
Definition unrun (c : WorkerContext) : list Env := match job c with Some (e, false) => [e] | _ => [] end.

(** Every job pushed to a worker has been run, is about to be run or waits in the queue,
    in this order. *)
Record worker_ok (c : WorkerContext) : Prop := {
  wo_queue : Spsc.inv 64 kq (queue c);
  wo_jobs : got c = ran c ++ unrun c ++ contents (queue c);
  wo_exit : phase c = wExit -> job c = None
}.

Lemma total_load_insert l i c c' : l !! i = Some c -> (total_load (<[i := c']> l) + load c = total_load l + load c')%nat.
Proof. apply sum_insert. Qed.

#[local] Arguments total_load : simpl never.
Context `{Hcfg : !Spsc.SpscConfig 64 kq}.
#[local] Instance wide64 : Spsc.WideIndex 64.
Proof. done. Qed.

Lemma push_job_ok e c :
  worker_ok c ->
  match push_job e c with
  | Some c' => worker_ok c' /\ load c' = S (load c) /\ got c' = got c ++ [e] /\ phase c' = phase c /\ (Spsc.Size 64 (queue c) < 2 ^ kq)
  | None => Spsc.Size 64 (queue c) = 2 ^ kq
  end.
Proof.
  intros [Hq Hj He]. unfold push_job, Push. pose proof (Spsc.Push_ok 64 kq (queue c) e Hq) as Hp.
  destruct (Z.ltb_spec (Spsc.Size 64 (queue c)) (Spsc.BufferSize kq)) as [Hlt|Hge].
  - destruct (Spsc.Push 64 kq e (queue c)) as [ok q]. cbn [fst snd] in Hp. destruct Hp as (-> & Hi & Hc). split.
    + split; cbn; [done|rewrite Hc, Hj; unfold unrun; cbn; by rewrite <- !app_assoc|done].
    + unfold load. cbn. rewrite Hc, length_app. cbn. split; [lia|done].
  - rewrite Hp. pose proof (Spsc.inv_size 64 kq (queue c) Hq). unfold Spsc.BufferSize in *. lia.
Qed.

Lemma take_job_ok c ph :
  worker_ok c -> job c = None -> phase c <> wExit ->
  worker_ok (take_job c ph) /\ load (take_job c ph) = load c /\ (job (take_job c ph) = None -> contents (queue (take_job c ph)) = []).
Proof.
  intros [Hq Hj He] Hjob Hph. unfold take_job, Pop. pose proof (Spsc.Pop_ok 64 kq (queue c) Hq) as Hp. unfold load, unrun in *. rewrite Hjob in *.
  destruct (contents (queue c)) as [|x q] eqn:Ec.
  - rewrite Hp. cbn. rewrite Ec. cbn. split; [|done]. split; cbn; [done|by rewrite Ec|done].
  - destruct (Spsc.Pop 64 kq (queue c)) as [o q']. cbn [fst snd] in Hp. destruct Hp as (-> & Hi & Hc). cbn. rewrite Hc. split; [|done].
    split; cbn; [done|by rewrite Hc|done].
Qed.

(** What holds of the world: the counters differ by the jobs the workers have and the
    jobs lost. *)
Record world_ok (w : PoolWorld) : Prop := {
  ww_workers : Forall worker_ok (workers_ w);
  ww_fault : fault w = false;
  ww_range : in_range 64 (dispatched_ w) /\ in_range 64 (processed_ w);
  ww_count : dispatched_ w = u64 (processed_ w + Z.of_nat (lost w + total_load (workers_ w)))
}.

Context (Hnum : 1 <= worker_num_ < 2 ^ 31).
Definition workers_there (w : PoolWorld) : Prop := Z.of_nat (length (workers_ w)) = worker_num_.

Lemma try_workers_ok n start i e w :
  world_ok w -> workers_there w -> world_ok (try_workers n start i e w) /\ workers_there (try_workers n start i e w).
Proof.
  intros Hw Hl. revert i. induction n as [|n IH]; intros i; cbn [try_workers]; [by destruct Hw|].
  assert (Hr : (Z.to_nat (u32 (start + i) mod worker_num_) < length (workers_ w))%nat)
    by (unfold workers_there in Hl; pose proof (Z.mod_pos_bound (u32 (start + i)) worker_num_ ltac:(lia)); lia).
  destruct (lookup_lt_is_Some_2 _ _ Hr) as [c Hc]. rewrite Hc. pose proof (ww_workers _ Hw) as Hall. rewrite Forall_lookup in Hall.
  pose proof (push_job_ok e c (Hall _ _ Hc)) as Hp. destruct (push_job e c) as [c'|]; [|apply IH].
  destruct Hp as (Hc' & Hload & _). destruct Hw as [Hws Hf Hg Ht]. split; [|unfold workers_there; cbn; by rewrite length_insert].
  split; cbn; [by apply Forall_insert|done|split; [by apply wrap_range|apply Hg]|].
  rewrite Ht, wrap_add_l. f_equal. pose proof (total_load_insert (workers_ w) _ c c' Hc). lia.
Qed.

Lemma dispatch_ok e w : world_ok w -> workers_there w -> world_ok (DispatchToWorker e w) /\ workers_there (DispatchToWorker e w).
Proof. intros Hw Hl. apply (try_workers_ok _ _ _ _ (set_next _ w)); [by destruct Hw|done]. Qed.

(** ** The bus of the pool: every callback in its table is the pool's *)

Context (Hk : 0 <= k <= 25) (Hcallbacks : 0 <= kMaxCallbacks < 2 ^ 32) (Htypes : 0 <= bus_types <= 2 ^ 32) (Hpt : kMaxTypes <= bus_types).
Abbreviation Spec := (@SpecBus Payload PoolWorld).
Abbreviation rel := (bus_rel k bus_types kMaxCallbacks).

Definition ours (pl : @Place Payload PoolWorld) : Prop := match pl with Some (_, f) => f = DispatchToWorker | None => True end.
Definition all_ours (s : Spec) : Prop := Forall (Forall ours) (places s).

(** A batch on an intact world leaves it intact; on an empty bus it leaves it alone. *)
Lemma spec_dispatch_ok s e w :
  all_ours s -> world_ok w -> workers_there w ->
  world_ok (spec_dispatch variant_index bus_types s e w) /\ workers_there (spec_dispatch variant_index bus_types s e w).
Proof.
  intros Hs Hw Hl. unfold spec_dispatch. destruct (_ <=? _); [done|].
  assert (Hrow : Forall ours (aget (places s) (u32 (variant_index (payload e))))).
  { unfold aget. rewrite list_lookup_total_alt. destruct (places s !! _) as [r|] eqn:Hr; [|constructor].
    unfold all_ours in Hs. rewrite Forall_lookup in Hs. exact (Hs _ _ Hr). }
  revert Hrow w Hw Hl. induction 1 as [|[ [id f]|] row Hf _ IH]; intros w Hw Hl; cbn [foldl]; [done| |by apply IH].
  cbn in Hf. subst f. destruct (dispatch_ok e w Hw Hl). by apply IH.
Qed.

Lemma batch_ok p s :
  rel (bus p) s -> all_ours s -> world_ok (world p) -> workers_there (world p) ->
  exists s', rel (bus (batch p).2) s' /\ all_ours s' /\ world_ok (world (batch p).2) /\ workers_there (world (batch p).2) /\
    (pending s = [] -> pending s' = [] /\ world (batch p).2 = world p).
Proof.
  intros Hb Hs Hw Hl. unfold batch, ProcessBatch.
  pose proof (process_rel k kBatchSize bus_types kMaxCallbacks Hk (DispatchMessage variant_index bus_types (bus p)) (spec_dispatch variant_index bus_types s)
    (bus p) s (world p) Hb (fun e w => dispatch_rel _ _ _ _ _ _ _ _ Hb)) as (_ & Hb' & Hw').
  destruct (process _ _ _ _ _) as [ [n b] w]. cbn [fst snd] in *. cbn [bus world set_bus]. subst w. eexists. split; [exact Hb'|]. split; [exact Hs|].
  unfold spec_process. cbn [fst snd pending places].
  assert (Hgo : forall l w, world_ok w -> workers_there w -> let w' := foldl (fun w e => spec_dispatch variant_index bus_types s e w) w l in world_ok w' /\ workers_there w').
  { clear -Hs Hnum Hcfg. induction l as [|e l IH]; intros w Hw Hl; [done|]. cbn. destruct (spec_dispatch_ok s e w Hs Hw Hl). by apply IH. }
  destruct (Hgo (take (Nat.min (Z.to_nat kBatchSize) (length (pending s))) (pending s)) (world p) Hw Hl) as [H1 H2].
  split; [exact H1|]. split; [exact H2|]. intros Hp. rewrite Hp. by rewrite drop_nil, take_nil.
Qed.

(** ** The invariant of the pool *)

(** A thread is inside FlushAndPause. *)
Definition flushing (p : WorkerPool) : bool := match flush p with fIdle | fOk | fTimeout => false | _ => true end.

(** Nothing is left to do: no message on the bus, no job with a worker, none lost. *)
Definition quiet (w : PoolWorld) (s : Spec) : Prop := pending s = [] /\ lost w = 0%nat /\ total_load (workers_ w) = 0%nat.

(** What the reads of FlushAndPause have established. *)
Definition flush_ok (p : WorkerPool) (s : Spec) : Prop :=
  match flush p with
  | fIdle | fBus | fTimeout => True
  | fWorkers _ be | fDisp be _ => be = true -> pending s = []
  | fProc be _ d => be = true -> pending s = [] /\ d = dispatched_ (world p)
  | fOk => paused_ p = true -> quiet (world p) s
  end.

Record pool_inv (p : WorkerPool) (s : Spec) : Prop := {
  pi_bus : rel (bus p) s;
  pi_ours : all_ours s;
  pi_handles : Forall (fun h => 0 <= type_index h) (subscription_handles_ p);
  pi_handlers : length (handlers_ p) = Z.to_nat kMaxTypes;
  pi_world : world_ok (world p);
  pi_workers : if running_ p then workers_there (world p) else workers_ (world p) = [];
  pi_disp : match dispatcher p with dLoop | dDrain _ => running_ p = true | _ => True end;
  pi_stopping : stopping p = true -> running_ p = true;
  pi_flushing : flushing p = true -> running_ p = true /\ stopping p = false /\ paused_ p = true;
  pi_quiet : paused_ p = true -> (flushing p = true \/ flush p = fOk) -> submitting p = [];
  pi_flush : flush_ok p s
}.

(** How the pool may be used: handlers are registered before the start, the pool is
    running when it is flushed, no call of Submit is under way then, and neither
    Shutdown nor Resume overlaps the flush.  Fewer than [2^63] jobs are lost in
    shutdowns, so that the 64-bit counters tell them. *)
Definition call_ok (o : PoolOp) (p : WorkerPool) : Prop :=
  match o with
  | ORegister idx _ => running_ p = false /\ 0 <= idx < kMaxTypes
  | OFlush => running_ p = true /\ stopping p = false /\ flushing p = false /\ submitting p = []
  | OShutdown | OResume => flushing p = false
  | _ => True
  end.
Fixpoint calls_ok (ops : list PoolOp) (p : WorkerPool) : Prop :=
  match ops with [] => True | o :: ops => call_ok o p /\ Z.of_nat (lost (world p)) < 2 ^ 63 /\ calls_ok ops (pool_step o p) end.

Lemma ctor_inv a : pool_inv (WorkerPool_ctor a) (spec_init bus_types kMaxCallbacks).
Proof.
  split; cbn; try done.
  - by apply ctor_rel.
  - unfold all_ours. cbn. apply Forall_replicate, Forall_replicate. done.
  - apply length_replicate.
Qed.

(** Steps that only touch the world and add no job. *)
Lemma world_inv p s w :
  pool_inv p s -> world_ok w -> length (workers_ w) = length (workers_ (world p)) -> dispatched_ w = dispatched_ (world p) -> lost w = lost (world p) ->
  (total_load (workers_ w) <= total_load (workers_ (world p)))%nat -> pool_inv (set_bus (bus p) w p) s.
Proof.
  intros [? ? ? ? ? Hws ? ? ? ? Hf] Hw Hlen Hd Hlost Hl. split; cbn; try done.
  - destruct (running_ p); [unfold workers_there in *; by rewrite Hlen|]. rewrite Hws in Hlen. by destruct (workers_ w).
  - unfold flush_ok, quiet in *. cbn. rewrite Hd, Hlost. destruct (flush p); try done. intros Hpa. specialize (Hf Hpa). destruct Hf as (? & ? & ?). split; [done|]. split; [done|lia].
Qed.

Lemma put_worker_inv p s i c c' a :
  pool_inv p s -> workers_ (world p) !! i = Some c -> worker_ok c' -> load c' = load c ->
  pool_inv (set_bus (bus p) (set_workers (<[i:=c']> (workers_ (world p))) (set_app a (world p))) p) s.
Proof.
  intros Hp Hi Hc Hl. pose proof (total_load_insert (workers_ (world p)) i c c' Hi) as Ht. destruct (pi_world _ _ Hp) as [Hws Hf Hr Hct].
  assert (Htl : total_load (<[i:=c']> (workers_ (world p))) = total_load (workers_ (world p))) by lia.
  apply world_inv; cbn; [done| |by rewrite length_insert|done|done|lia].
  split; cbn; [by apply Forall_insert|done|done|by rewrite Htl].
Qed.

Lemma worker_inv i p s : pool_inv p s -> pool_inv (WorkerStep i p) s.
Proof.
  intros Hp. unfold WorkerStep. destruct (workers_ (world p) !! i) as [c|] eqn:Hi; [|done].
  destruct (pi_world _ _ Hp) as [Hws Hf Hr Hct]. pose proof Hws as Hall. rewrite Forall_lookup in Hall. pose proof (Hall _ _ Hi) as Hc. clear Hall.
  assert (Hid : forall l, set_workers l (world p) = set_workers l (set_app (app (world p)) (world p))) by done.
  destruct (job c) as [ [e [] ]|] eqn:Hj, (phase c) eqn:Hph; try done.
  3,4: refine (put_worker_inv p s i c _ _ Hp Hi _ _); [|by unfold load; cbn; rewrite Hj];
    destruct Hc as [Hq Hjobs Hex]; unfold unrun in *; rewrite Hj in Hjobs; split; cbn; [done|by rewrite <- app_assoc|done].
  3: destruct (shutdown_ p).
  3,4,5: rewrite Hid.
  3: refine (put_worker_inv p s i c _ _ Hp Hi _ _); [|by unfold load; cbn; rewrite Hj];
    destruct Hc as [Hq Hjobs Hex]; unfold unrun in *; rewrite Hj in Hjobs; by split.
  3,4: refine (put_worker_inv p s i c _ _ Hp Hi _ _); (apply take_job_ok; [done|done|congruence]).
  all: set (c' := mkWorker _ _ _ _ _); assert (Hc' : worker_ok c')
    by (destruct Hc as [Hq Hjobs Hex]; unfold unrun in *; rewrite Hj in Hjobs; by split);
    pose proof (total_load_insert (workers_ (world p)) i c c' Hi) as Ht; assert (Hl : load c = S (load c')) by (unfold load; cbn; by rewrite Hj);
    apply world_inv; cbn; [done| |by rewrite length_insert|done|done|lia];
    split; cbn; [by apply Forall_insert|done|split; [apply Hr|by apply wrap_range]|];
    rewrite Hct, wrap_add_l; f_equal; lia.
Qed.

Lemma set_dispatcher_inv d p s :
  pool_inv p s -> (match d with dLoop | dDrain _ => running_ p = true | _ => True end) -> pool_inv (set_dispatcher d p) s.
Proof. by intros []; split. Qed.

Lemma batch_inv p s : pool_inv p s -> running_ p = true -> exists s', pool_inv (batch p).2 s' /\ running_ (batch p).2 = true.
Proof.
  intros Hp Hr. pose proof (pi_workers _ _ Hp) as Hw. rewrite Hr in Hw.
  destruct (batch_ok p s (pi_bus _ _ Hp) (pi_ours _ _ Hp) (pi_world _ _ Hp) Hw) as (s' & Hb & Ho & Hwo & Hwt & He). exists s'.
  unfold batch in *. destruct (ProcessBatch _ _ _ _ _ _) as [ [n b] w]. cbn [fst snd bus world set_bus] in *. split; [|done].
  destruct Hp as [? ? ? ? ? ? ? ? ? ? Hf]. split; cbn; try done; [by rewrite Hr|].
  unfold flush_ok, quiet in *. cbn. destruct (flush p); try done; intros Hc; specialize (Hf Hc).
  - by apply He.
  - by apply He.
  - destruct (He (proj1 Hf)) as [? ->]. split; [done|apply Hf].
  - destruct (He (proj1 Hf)) as [? ->]. split; [done|apply Hf].
Qed.

Lemma dispatcher_inv p s : pool_inv p s -> exists s', pool_inv (DispatcherStep p) s'.
Proof.
  intros Hp. unfold DispatcherStep. pose proof (pi_disp _ _ Hp) as Hd. destruct (dispatcher p) as [| |[|n]|] eqn:Hdp; try (by eexists).
  - destruct (shutdown_ p); [exists s; by apply set_dispatcher_inv|]. destruct (batch_inv p s Hp Hd) as (s' & Hs & _). by exists s'.
  - exists s. by apply set_dispatcher_inv.
  - destruct (batch_inv p s Hp Hd) as (s' & Hs & Hr). destruct (batch p) as [c p']. exists s'. apply set_dispatcher_inv; [done|]. by destruct (c =? 0).
Qed.

(** Publishing, when the pool is not being flushed, and subscribing. *)
Lemma spec_publish_places pl sender ts prio topic (s : Spec) : places (spec_publish k eviction pl sender ts prio topic s).2 = places s.
Proof. unfold spec_publish. destruct (_ <=? _); [done|]. destruct (_ <? _); [done|]. destruct (_ && _); [by destruct (spec_evict _ _)|done]. Qed.

Lemma submit_end_inv j p s : pool_inv p s -> exists s', pool_inv (SubmitEnd j p) s'.
Proof.
  intros Hp. unfold SubmitEnd. destruct (submitting p !! j) as [ [ [now pl] prio]|] eqn:Hj; [|by eexists].
  exists (spec_publish k eviction pl 0 now prio 0 s).2. destruct (publish_rel variant_index k bus_types kMaxCallbacks eviction Hk Hcallbacks Htypes (bus p) s pl 0 now prio 0 (pi_bus _ _ Hp)) as [_ Hb].
  destruct Hp as [? Ho ? ? ? ? ? ? Hfl Hq Hf]. split; cbn; try done.
  - unfold all_ours. by rewrite spec_publish_places.
  - intros Hpa Hfo. rewrite (Hq Hpa Hfo) in Hj. done.
  - unfold flush_ok, flushing in *. cbn. destruct (flush p); try done; intros Hc;
      (assert (Hpa : paused_ p = true) by (done || by apply Hfl)); rewrite (Hq Hpa) in Hj by auto; done.
Qed.

Lemma subscribe_ours i s : all_ours s -> all_ours (spec_subscribe i DispatchToWorker s).2.
Proof.
  unfold spec_subscribe, all_ours. intros Hs. destruct (list_find _ _) as [ [j ?]|] eqn:Hj; [|done]. cbn. apply Forall_insert; [done|].
  unfold aget in *. apply list_find_Some in Hj as (Hj & _). rewrite list_lookup_total_alt in *. destruct (places s !! _) as [r|] eqn:Hr; [|done].
  apply Forall_insert; [|done]. rewrite Forall_lookup in Hs. exact (Hs _ _ Hr).
Qed.

Lemma maybe_subscribe_inv p s i :
  pool_inv p s -> (i < Z.to_nat kMaxTypes)%nat -> exists s', pool_inv (MaybeSubscribe p i) s' /\ pending s' = pending s.
Proof.
  intros Hp Hi. unfold MaybeSubscribe. destruct (handlers_ p !! i) as [ [h|]|]; [|by exists s..].
  destruct (subscribe_rel k bus_types kMaxCallbacks Hk Hcallbacks Htypes (bus p) s (Z.of_nat i) DispatchToWorker (pi_bus _ _ Hp) ltac:(lia)) as [Hh Hb].
  exists (spec_subscribe (Z.of_nat i) DispatchToWorker s).2. pose proof (subscribe_ours (Z.of_nat i) s (pi_ours _ _ Hp)) as Ho.
  assert (Hpend : pending (spec_subscribe (Z.of_nat i) DispatchToWorker s).2 = pending s) by (unfold spec_subscribe; by destruct (list_find _ _) as [ []|]).
  assert (Ht : 0 <= type_index (Subscribe (Z.of_nat i) DispatchToWorker (bus p)).1)
    by (rewrite Hh; unfold spec_subscribe; destruct (list_find _ _) as [ []|]; cbn; lia).
  destruct (Subscribe _ _ _) as [hd b]. cbn [fst snd] in *. split; [|done].
  destruct Hp as [? ? ? ? ? ? ? ? ? ? Hf]. split; cbn; try done.
  - destruct (handle_IsValid hd); [|done]. apply Forall_app. split; [done|by repeat constructor].
  - unfold flush_ok, quiet in *. cbn. by rewrite Hpend.
Qed.

Lemma subscribe_all_inv p s : pool_inv p s -> exists s', pool_inv (SubscribeAll p) s' /\ pending s' = pending s.
Proof.
  intros Hp. unfold SubscribeAll. assert (Hl : Forall (fun i => (i < Z.to_nat kMaxTypes)%nat) (seq 0 (Z.to_nat kMaxTypes))) by (apply Forall_seq; lia).
  revert p s Hp. induction Hl as [|i l Hi _ IH]; intros p s Hp; cbn [fold_left]; [by exists s|].
  destruct (maybe_subscribe_inv p s i Hp Hi) as (s1 & H1 & E1). destruct (IH _ _ H1) as (s2 & H2 & E2). exists s2. split; [done|congruence].
Qed.

Lemma unsubscribe_ours h s : all_ours s -> all_ours (spec_unsubscribe bus_types h s).2 /\ pending (spec_unsubscribe bus_types h s).2 = pending s.
Proof.
  unfold spec_unsubscribe, all_ours. intros Hs. destruct (_ || _); [done|]. destruct (list_find _ _) as [ [j ?]|] eqn:Hj; [|done]. cbn. split; [|done].
  apply Forall_insert; [done|]. unfold aget in *. apply list_find_Some in Hj as (Hj & _). rewrite list_lookup_total_alt in *.
  destruct (places s !! _) as [r|] eqn:Hr; [|done]. apply Forall_insert; [|done]. rewrite Forall_lookup in Hs. exact (Hs _ _ Hr).
Qed.

Lemma unsubscribe_all_rel l b s :
  rel b s -> all_ours s -> Forall (fun h => 0 <= type_index h) l ->
  exists s', rel (fold_left (fun b h => (Unsubscribe bus_types h b).2) l b) s' /\ all_ours s' /\ pending s' = pending s.
Proof.
  intros Hb Ho Hl. revert b s Hb Ho. induction Hl as [|h l Hh _ IH]; intros b s Hb Ho; cbn [fold_left]; [by exists s|].
  destruct (unsubscribe_rel k bus_types kMaxCallbacks Hcallbacks b s h Hb Hh) as [_ Hb']. destruct (unsubscribe_ours h s Ho) as [Ho' Hp].
  destruct (IH _ _ Hb' Ho') as (s' & ? & ? & ?). exists s'. split_and!; [done..|congruence].
Qed.

Lemma fresh_worker ph : worker_ok (mkWorker new_queue ph None [] []) /\ load (mkWorker new_queue ph None [] []) = 0%nat.
Proof.
  destruct (Spsc.SpscRingbuffer_ok 64 kq (T := Env)) as [Hi Hc]. unfold load. cbn. unfold new_queue. rewrite Hc. split; [|done].
  split; cbn; [done|by rewrite Hc|done].
Qed.

Lemma total_load_0 l : total_load l = 0%nat <-> Forall (fun c => load c = 0%nat) l.
Proof. unfold total_load. induction l as [|c l IH]; cbn; [done|]. rewrite Forall_cons_iff, <- IH. lia. Qed.

Lemma set_flags_inv p s : pool_inv p s -> running_ p = true -> flushing p = false -> pool_inv (set_flags true true true p) s.
Proof. intros [? ? ? ? ? Hw ? ? Hfl ? ?] Hr Hf. rewrite Hr in *. split; cbn; try done. unfold flushing in *. cbn. by rewrite Hf. Qed.

Lemma start_inv d n p s : pool_inv p s -> exists s', pool_inv (Start d n p) s'.
Proof.
  intros Hp. unfold Start. destruct (running_ p) eqn:Hr; [by exists s|]. set (fresh := fun i : nat => _).
  assert (Hfresh : forall l, Forall worker_ok (fresh <$> l) /\ total_load (fresh <$> l) = 0%nat).
  { intros l. rewrite total_load_0, !Forall_fmap. split; apply Forall_true; intros i; apply fresh_worker. }
  destruct (Hfresh (seq 0 (Z.to_nat worker_num_))) as [Hok Hload].
  assert (Hnf : flushing p = false) by (destruct (flushing p) eqn:E; [by destruct (pi_flushing _ _ Hp E); congruence|done]).
  set (p1 := set_bus _ _ (set_flags true false false p)).
  assert (H1 : pool_inv p1 s).
  { destruct Hp as [? ? ? ? [Hw1 Hw2 Hw3 Hw4] Hws Hd Hst Hfl Hq Hf]. rewrite Hr in *. rewrite Hws in Hw4. split; cbn; try done.
    - split; cbn; [done..|]. by rewrite Hload.
    - unfold workers_there. cbn. rewrite length_fmap, length_seq. lia.
    - by destruct (dispatcher p).
    - unfold flushing in *. cbn. congruence.
    - unfold flush_ok, quiet in *. cbn. rewrite Hload. rewrite Hws in Hf. done. }
  destruct (subscribe_all_inv p1 s H1) as (s' & H2 & _). exists s'. change (bus (set_flags true false false p)) with (bus p) in *. fold p1.
  assert (Hkeep : running_ (SubscribeAll p1) = true /\ flush (SubscribeAll p1) = flush p).
  { unfold SubscribeAll. generalize (seq 0 (Z.to_nat kMaxTypes)). assert (Hp1 : running_ p1 = true /\ flush p1 = flush p) by done. revert Hp1. generalize p1.
    intros q Hq l. revert q Hq. induction l as [|i l IH]; intros q Hq; [done|]. cbn. apply IH. unfold MaybeSubscribe.
    destruct (handlers_ q !! i) as [ [h|]|]; try done. by destruct (Subscribe _ _ _). }
  destruct Hkeep as [Hrun Hfl].
  assert (H3 : pool_inv (set_dispatcher (if d then dLoop else dExit) (SubscribeAll p1)) s') by (apply set_dispatcher_inv; [done|by destruct d]).
  destruct (_ && _); [done|]. apply set_flags_inv; [done|done|]. unfold flushing in *. cbn. by rewrite Hfl.
Qed.

Lemma join_inv p s : pool_inv p s -> stopping p = true -> exists s', pool_inv (StopAll_end p) s'.
Proof.
  intros Hp Hst. destruct (unsubscribe_all_rel _ _ _ (pi_bus _ _ Hp) (pi_ours _ _ Hp) (pi_handles _ _ Hp)) as (s' & Hb & Ho & Hpe). exists s'.
  destruct Hp as [? ? ? ? [Hw1 Hw2 Hw3 Hw4] Hws Hd Hs Hfl Hq Hf]. split; cbn; try done.
  - split; cbn; [done..|]. rewrite Hw4. f_equal. unfold total_load. cbn. lia.
  - unfold flushing in *. cbn. intros Hc. destruct (Hfl Hc) as (_ & Hx & _). congruence.
  - unfold flush_ok, quiet in *. cbn. rewrite Hpe. destruct (flush p); try done. intros Hc. destruct (Hf Hc) as (? & ? & ?). split_and!; [done|lia|done].
Qed.

(** The reads of FlushAndPause. *)
Lemma set_flush_inv f p s :
  pool_inv p s -> flushing p = true -> flush_ok (set_flush f p) s -> pool_inv (set_flush f p) s.
Proof.
  intros [? ? ? ? ? ? ? ? Hfl Hq Hf] Hp Hok. destruct (Hfl Hp) as (? & ? & ?). split; cbn; try done. intros _ _. apply Hq; auto.
Qed.

(** Few enough jobs are with the workers and lost for the 64-bit counters to tell. *)
Lemma counters_agree w : world_ok w -> Z.of_nat (lost w + total_load (workers_ w)) < 2 ^ 64 -> dispatched_ w = processed_ w -> lost w = 0%nat /\ total_load (workers_ w) = 0%nat.
Proof.
  intros [_ _ [_ Hr] Hc] Hb He. rewrite He in Hc. rewrite <- (wrap_small 64 (processed_ w) Hr) in Hc at 1.
  pose proof (wrap_inj_near 64 (processed_ w) (processed_ w + Z.of_nat (lost w + total_load (workers_ w))) ltac:(lia) ltac:(lia) Hc). lia.
Qed.

Lemma flush_inv late p s :
  pool_inv p s -> Z.of_nat (lost (world p) + total_load (workers_ (world p))) < 2 ^ 64 -> pool_inv (FlushStep late p) s.
Proof.
  intros Hp Hb. unfold FlushStep. pose proof (pi_flush _ _ Hp) as Hf. unfold flush_ok in Hf.
  assert (Hfl : flushing p = true -> running_ p = true) by (intros Hc; apply (pi_flushing _ _ Hp Hc)). unfold flushing in Hfl.
  destruct (flush p) as [| |i be|be we|be we d| |] eqn:Ef; try done;
    (assert (Hr : running_ p = true) by (by apply Hfl)); (assert (Hfp : flushing p = true) by (unfold flushing; by rewrite Ef)); clear Hfl.
  - apply set_flush_inv; [done..|]. unfold flush_ok. cbn. unfold Depth. rewrite (rel_depth k bus_types kMaxCallbacks Hk _ _ (pi_bus _ _ Hp)). destruct (pending s); [done|].
    cbn [length]. by destruct (Z.eqb_spec (Z.of_nat (S (length l))) 0).
  - pose proof (pi_workers _ _ Hp) as Hw. rewrite Hr in Hw. unfold workers_there in Hw.
    destruct (Nat.ltb_spec i (Z.to_nat worker_num_)) as [Hi|Hi]; [|by apply set_flush_inv].
    destruct (lookup_lt_is_Some_2 (workers_ (world p)) i ltac:(lia)) as [c Hc]. rewrite Hc. destruct (IsEmpty _); by apply set_flush_inv.
  - apply set_flush_inv; [done..|]. unfold flush_ok. cbn. auto.
  - destruct (be && we && (d =? processed_ (world p))) eqn:Hcond; [|destruct late; by apply set_flush_inv].
    apply andb_prop in Hcond as [Hcond Hd]. apply andb_prop in Hcond as [Hbe _]. apply Z.eqb_eq in Hd. destruct (Hf Hbe) as [Hpe Hdd].
    apply set_flush_inv; [done..|]. unfold flush_ok, quiet. cbn. intros _. split; [done|]. apply counters_agree; [apply (pi_world _ _ Hp)|done|congruence].
Qed.

(** Every call and every action of a thread preserves the invariant. *)
Lemma pool_step_inv o p s :
  pool_inv p s -> call_ok o p -> Z.of_nat (lost (world p) + total_load (workers_ (world p))) < 2 ^ 64 -> exists s', pool_inv (pool_step o p) s'.
Proof.
  intros Hp Hc Hb. destruct o; cbn in Hc |- *.
  - exists s. destruct Hp. split; cbn; try done. by rewrite length_insert.
  - by apply (start_inv _ _ p s).
  - exists s. unfold SubmitBegin. destruct (paused_ p) eqn:Hpa; [done|]. destruct Hp. split; cbn; try done. congruence.
  - by apply (submit_end_inv _ p s).
  - exists s. unfold SubmitSync. destruct (handlers_ p !! _) as [ [h|]|]; [|done..]. apply world_inv; try done. by destruct (pi_world _ _ Hp).
  - by apply (dispatcher_inv p s).
  - exists s. by apply worker_inv.
  - exists s. unfold Shutdown. destruct (running_ p) eqn:Hr; [by apply set_flags_inv|done].
  - destruct (stopping p) eqn:Hs; [|by exists s]. destruct (joined p); [by apply (join_inv p s)|by exists s].
  - exists s. destruct Hc as (Hr & Hst & Hnf & Hsub). destruct Hp. unfold FlushAndPause. split; cbn; done.
  - exists s. by apply flush_inv.
  - exists s. destruct Hp as [? ? ? ? ? ? ? ? Hfl Hq Hf]. unfold Resume. split; cbn; try done.
    + unfold flushing in *. cbn. congruence.
    + unfold flush_ok in *. cbn. by destruct (flush p).
  - exists s. apply world_inv; try done. by destruct (pi_world _ _ Hp).
Qed.

Context (Hkq : kq <= 31).

Lemma load_bound c : worker_ok c -> Z.of_nat (load c) <= 2 ^ kq + 1.
Proof.
  intros [Hq _ _]. unfold load. pose proof (Spsc.inv_size 64 kq (queue c) Hq). pose proof (Spsc.length_contents 64 kq (queue c)) as Hl.
  unfold Spsc.BufferSize in *. destruct (job c); lia.
Qed.

Lemma total_load_bound l n : Forall worker_ok l -> Z.of_nat (length l) <= n -> Z.of_nat (total_load l) <= n * (2 ^ kq + 1).
Proof.
  intros Hl. revert n. unfold total_load. induction Hl as [|c l Hc _ IH]; intros n Hn; cbn [length sum_list_with] in *.
  - assert (0 <= 2 ^ kq) by (apply Z.pow_nonneg; lia). nia.
  - pose proof (load_bound c Hc). specialize (IH (n - 1) ltac:(lia)). nia.
Qed.

Lemma pool_run_inv ops p s : pool_inv p s -> calls_ok ops p -> exists s', pool_inv (pool_run ops p) s'.
Proof.
  revert p s. induction ops as [|o ops IH]; intros p s Hp Hc; [by exists s|]. cbn in Hc |- *. destruct Hc as (Ho & Hl & Hc).
  destruct (pool_step_inv o p s Hp Ho) as [s' Hs']; [|by apply (IH _ s')].
  pose proof (pi_workers _ _ Hp) as Hw. unfold workers_there in Hw. pose proof (total_load_bound (workers_ (world p)) worker_num_ (ww_workers _ (pi_world _ _ Hp))) as Ht.
  assert (2 ^ kq <= 2 ^ 31) by (apply Z.pow_le_mono_r; lia). assert (0 <= 2 ^ kq) by (apply Z.pow_nonneg; lia).
  destruct (running_ p); [specialize (Ht ltac:(lia))|rewrite Hw in *; specialize (Ht ltac:(cbn; lia))]; nia.
Qed.

(** Jobs under every interleaving of callers, dispatcher and workers: no access
    beyond the workers; every worker has run exactly the jobs pushed to its queue, in
    order, except the one it is about to run and those still queued; and the counters
    differ by the jobs the workers still have and those lost in shutdowns. *)
Lemma pool_jobs_conserved ops a :
  calls_ok ops (WorkerPool_ctor a) ->
  let w := world (pool_run ops (WorkerPool_ctor a)) in
  fault w = false /\ Forall (fun c => got c = ran c ++ unrun c ++ contents (queue c)) (workers_ w) /\
  dispatched_ w = u64 (processed_ w + Z.of_nat (lost w + total_load (workers_ w))).
Proof.
  intros Hc. destruct (pool_run_inv ops _ _ (ctor_inv a) Hc) as [s Hs]. destruct (pi_world _ _ Hs) as [Hw Hf _ Hcnt]. split; [done|]. split; [|done].
  eapply Forall_impl; [|exact Hw]. by intros c [].
Qed.

(** C22. FlushAndPause: from its success until Resume the pool is idle, whatever the
    interleaving of dispatcher, workers and callers that keep to [call_ok]: no Submit is
    in progress when FlushAndPause is called - one that is can still put a message into
    the paused pool ([flush_misses_submit]) -, no Shutdown or Resume overlaps it, handlers
    are registered before Start, and fewer than 2^63 jobs are dropped in shutdowns.  The
    bus is empty, every worker has run all the jobs it was given and has no other, no job
    was dropped in a shutdown, and the counters agree.  A message that found every worker
    queue full never became a job: it is dropped and counted by worker_queue_full. *)
Theorem pool_flush_sound ops a :
  calls_ok ops (WorkerPool_ctor a) ->
  let p := pool_run ops (WorkerPool_ctor a) in
  flush p = fOk -> paused_ p = true ->
  Depth (bus p) = 0 /\ Forall (fun c => got c = ran c /\ job c = None /\ contents (queue c) = []) (workers_ (world p)) /\
  lost (world p) = 0%nat /\ dispatched_ (world p) = processed_ (world p).
Proof.
  intros Hc p Hf Hpa. destruct (pool_run_inv ops _ _ (ctor_inv a) Hc) as [s Hs]. fold p in Hs. pose proof (pi_flush _ _ Hs) as Hq. unfold flush_ok in Hq. rewrite Hf in Hq.
  destruct (Hq Hpa) as (Hpe & Hlost & Hload). destruct (pi_world _ _ Hs) as [Hw _ [_ Hr] Hcnt]. rewrite Hlost, Hload, Z.add_0_r in Hcnt. split_and!; [| |done|].
  - unfold Depth. by rewrite (rel_depth k bus_types kMaxCallbacks Hk _ _ (pi_bus _ _ Hs)), Hpe.
  - apply total_load_0 in Hload. apply Forall_lookup. intros i c Hi. rewrite Forall_lookup in Hload, Hw. specialize (Hload _ _ Hi). destruct (Hw _ _ Hi) as [_ Hj _].
    unfold load, unrun in *. destruct (job c); [lia|]. destruct (contents (queue c)); [|cbn in Hload; lia]. split; [|done]. by rewrite app_nil_r in Hj.
  - by rewrite Hcnt, wrap_small.
Qed.

(** A job lost in a shutdown keeps every later flush from succeeding. *)
Lemma lost_blocks_flush ops a :
  calls_ok ops (WorkerPool_ctor a) ->
  let p := pool_run ops (WorkerPool_ctor a) in lost (world p) <> 0%nat -> paused_ p = true -> flush p <> fOk.
Proof.
  intros Hc p Hl Hpa Hf. destruct (pool_run_inv ops _ _ (ctor_inv a) Hc) as [s Hs]. pose proof (pi_flush _ _ Hs) as Hq. unfold flush_ok in Hq. fold p in Hq.
  rewrite Hf in Hq. destruct (Hq Hpa) as (_ & ? & _). done.
Qed.

End Pool.

(** ** A pool of two workers whose handlers log what they get *)

Section Demo.
Context (kBatchSize : Z).
Abbreviation Op := (@PoolOp Z (list Z)).
Definition demo_run (ops : list Op) : WorkerPool :=
  pool_run (fun x => x) 5 kBatchSize 2 true 3 2 2 ops (WorkerPool_ctor 5 2 2 2 []).
Definition demo_calls (ops : list Op) : Prop := calls_ok (fun x => x) 5 kBatchSize 2 true 3 2 2 ops (WorkerPool_ctor 5 2 2 2 []).
Definition log_handler : Handler := fun (e : @Env Z) (l : list Z) => l ++ [payload e].
Definition start_demo : list Op := [ORegister 0 log_handler; ORegister 1 log_handler; OStart true 2].
Definition submit_demo (t : Z) : list Op := [OSubmitBegin 7 t kMedium; OSubmitEnd 0].
Definition flush_demo : list Op := OFlush :: replicate 6 (OFlushStep false).
End Demo.
#[local] Instance demo_config : Spsc.SpscConfig 64 3.
Proof. split; [by auto|lia|done]. Qed.

Definition conserved_demo : list PoolOp :=
  start_demo ++ submit_demo 0 ++ submit_demo 1 ++ submit_demo 1 ++ [ODispatcher] ++ replicate 5 (OWorker 0) ++ [OWorker 1; OWorker 1; OSubmitSync 9 1].
Lemma pool_jobs_conserved_witness :
  demo_calls 4 conserved_demo /\ app (world (demo_run 4 conserved_demo)) = [0; 1; 1; 1] /\
  dispatched_ (world (demo_run 4 conserved_demo)) = u64 (processed_ (world (demo_run 4 conserved_demo)) + 2).
Proof.
  assert (Hc : demo_calls 4 conserved_demo) by (vm_compute; repeat split; congruence).
  destruct (pool_jobs_conserved (fun x => x) 5 4 2 2 true 3 2 2 ltac:(lia) ltac:(lia) ltac:(lia) ltac:(lia) ltac:(lia) ltac:(lia) conserved_demo [] Hc) as (_ & _ & Hd).
  split; [exact Hc|]. split; [by vm_compute|]. exact Hd.
Defined.

Definition flushed_demo : list PoolOp :=
  start_demo ++ submit_demo 0 ++ submit_demo 1 ++ [ODispatcher] ++ replicate 3 (OWorker 0) ++ replicate 3 (OWorker 1) ++ flush_demo.
Lemma pool_flush_sound_witness :
  demo_calls 4 flushed_demo /\ dispatched_ (world (demo_run 4 flushed_demo)) = processed_ (world (demo_run 4 flushed_demo)).
Proof.
  assert (Hc : demo_calls 4 flushed_demo) by (vm_compute; repeat split; congruence). split; [exact Hc|].
  refine (proj2 (proj2 (proj2 (pool_flush_sound (fun x => x) 5 4 2 2 true 3 2 2 _ _ _ _ _ _ flushed_demo [] Hc _ _)))); lia || by vm_compute.
Defined.

(** ** Where the pool and its comments differ *)

(** Shutdown is to drain the queues, but a worker that finds its queue empty leaves
    before the dispatcher's last batch reaches it: the job is never run. *)
Definition losing_demo : list PoolOp :=
  start_demo ++ submit_demo 0 ++ [OShutdown; OWorker 0; OWorker 0; OWorker 1; OWorker 1; ODispatcher; ODispatcher; ODispatcher; OJoin].
Lemma shutdown_loses_jobs :
  demo_calls 4 losing_demo /\ let p := demo_run 4 losing_demo in
  running_ p = false /\ lost (world p) = 1%nat /\ app (world p) = [] /\ dispatched_ (world p) = 1 /\ processed_ (world p) = 0.
Proof. vm_compute. repeat split; congruence. Qed.

(** The dispatcher's last drain is ten batches, which may leave messages on the bus. *)
Definition leaving_demo : list PoolOp :=
  start_demo ++ mjoin (replicate 12 (submit_demo 0)) ++ [OShutdown; OWorker 0; OWorker 0; OWorker 1; OWorker 1] ++ replicate 12 ODispatcher ++ [OJoin].
Lemma shutdown_leaves_messages :
  demo_calls 1 leaving_demo /\ running_ (demo_run 1 leaving_demo) = false /\ Depth (bus (demo_run 1 leaving_demo)) = 2.
Proof. vm_compute. repeat split; congruence. Qed.

(** Submit reads the pause flag and publishes later: a job may still reach the bus after
    FlushAndPause has succeeded. *)
Lemma flush_misses_submit :
  let p := demo_run 4 (start_demo ++ [OSubmitBegin 7 0 kMedium] ++ flush_demo ++ [OSubmitEnd 0]) in
  flush p = fOk /\ paused_ p = true /\ Depth (bus p) = 1.
Proof. by vm_compute. Qed.

(** FlushAndPause on a pool that is not running reads workers that are not there. *)
Lemma flush_before_start_faults : fault (world (demo_run 4 flush_demo)) = true.
Proof. by vm_compute. Qed.
