(* ===== verification/Instance.v ===== *)
(** * Instance (include/osp/app.hpp)

    An instance of an application: its life cycle is a hierarchical state machine
    (Hsm.v) of eleven states.  The handlers and the operations are those of the
    source; a response channel is an index into a store of channels (Post.v).  The
    specification is the flat automaton of the eight leaf states. *)

From Stdlib Require Import ZArith Lia Bool String.
From stdpp Require Import base numbers list option.
From S2P Require Import Prelude Hierarchy Hsm.

Open Scope Z_scope.

Inductive InstanceState := kCreated | kInitializing | kReady | kError | kDestroying.
Definition coarse_number (s : InstanceState) : Z := match s with kCreated => 0 | kInitializing => 1 | kReady => 2 | kError => 3 | kDestroying => 4 end.

Inductive InstanceDetailedState := dCreated | dInitializing | dIdle | dProcessing | dSuspended | dRecoverable | dFatal | dDestroying.
#[export] Instance InstanceDetailedState_eq_dec : EqDecision InstanceDetailedState.
Proof. solve_decision. Defined.

(** InstanceHsmEvent *)
Definition kInsEvtInitialize : Z := 0x1001.
Definition kInsEvtInitDone : Z := 0x1002.
Definition kInsEvtInitFail : Z := 0x1003.
Definition kInsEvtSuspend : Z := 0x1004.
Definition kInsEvtResume : Z := 0x1005.
Definition kInsEvtMarkError : Z := 0x1006.
Definition kInsEvtRecover : Z := 0x1007.
Definition kInsEvtDestroy : Z := 0x1008.
Definition kInsEvtMessage : Z := 0x1009.
Definition kInsEvtMsgDone : Z := 0x100A.

Definition kInstanceHsmMaxStates : Z := 12.

(** InstanceHsmContext; the machine and the instance it points to hold it. *)
Record InstanceHsmContext := mkCtx {
  idx_root : Z; idx_created : Z; idx_initializing : Z; idx_ready : Z; idx_idle : Z; idx_processing : Z;
  idx_suspended : Z; idx_error : Z; idx_recoverable : Z; idx_fatal : Z; idx_destroying : Z;
  error_is_fatal : bool
}.
Definition set_error_is_fatal (b : bool) (c : InstanceHsmContext) : InstanceHsmContext :=
  mkCtx (idx_root c) (idx_created c) (idx_initializing c) (idx_ready c) (idx_idle c) (idx_processing c)
    (idx_suspended c) (idx_error c) (idx_recoverable c) (idx_fatal c) (idx_destroying c) b.

(** ** Handlers *)

Abbreviation InstHandler := (@HandlerFn InstanceHsmContext unit).

Definition request (target : InstanceHsmContext -> Z) (req : RequestFn) (c : InstanceHsmContext) (pending : Z)
    : TransitionResult * InstanceHsmContext * Z :=
  let '(r, p) := req (target c) pending in (r, c, p).

Definition StateRoot : InstHandler := fun req c event pending =>
  if event_id event =? kInsEvtDestroy then request idx_destroying req c pending
  else if event_id event =? kInsEvtMarkError then
    if error_is_fatal c then request idx_fatal req c pending else request idx_recoverable req c pending
  else (kUnhandled, c, pending).
Definition StateCreated : InstHandler := fun req c event pending =>
  if event_id event =? kInsEvtInitialize then request idx_initializing req c pending else (kUnhandled, c, pending).
Definition StateInitializing : InstHandler := fun req c event pending =>
  if event_id event =? kInsEvtInitDone then request idx_idle req c pending
  else if event_id event =? kInsEvtInitFail then request idx_recoverable req (set_error_is_fatal false c) pending
  else (kUnhandled, c, pending).
Definition StateReady : InstHandler := fun req c event pending =>
  if event_id event =? kInsEvtSuspend then request idx_suspended req c pending else (kUnhandled, c, pending).
Definition StateIdle : InstHandler := fun req c event pending =>
  if event_id event =? kInsEvtMessage then request idx_processing req c pending else (kUnhandled, c, pending).
Definition StateProcessing : InstHandler := fun req c event pending =>
  if event_id event =? kInsEvtMsgDone then request idx_idle req c pending else (kUnhandled, c, pending).
Definition StateSuspended : InstHandler := fun req c event pending =>
  if event_id event =? kInsEvtResume then request idx_idle req c pending else (kUnhandled, c, pending).
Definition StateError : InstHandler := fun _ c _ pending => (kUnhandled, c, pending).
Definition StateRecoverable : InstHandler := fun req c event pending =>
  if event_id event =? kInsEvtRecover then request idx_idle req c pending else (kUnhandled, c, pending).
Definition StateFatal : InstHandler := fun _ c _ pending => (kUnhandled, c, pending).
Definition StateDestroying : InstHandler := fun _ c _ pending => (kHandled, c, pending).

(** ** The instance *)

Abbreviation InstanceSmType := (@StateMachine InstanceHsmContext unit).
Record Inst := mkInst {
  hsm : InstanceSmType;
  ins_id_ : Z;
  legacy_state_ : Z;
  legacy_state_set_ : bool;
  hsm_initialized_ : bool;
  response_channel_ : option nat
}.

Definition with_ctx (f : InstanceHsmContext -> InstanceHsmContext) (m : InstanceSmType) : InstanceSmType :=
  mkMachine (f (ctx_ m)) (current_state_ m) (initial_state_ m) (started_ m) (pending_target_ m) (states_ m).

(** [hsm_ctx_.idx_x = hsm->AddState(...)]. *)
Definition add_state (nm : string) (parent : InstanceHsmContext -> Z) (h : InstHandler) (put : Z -> InstanceHsmContext -> InstanceHsmContext)
    (m : InstanceSmType) : option InstanceSmType :=
  '(i, m) ← AddState kInstanceHsmMaxStates (mkStateConfig nm (parent (ctx_ m)) (Some h) None None None) m;
  Some (with_ctx (put i) m).

Definition InitHsm : option InstanceSmType :=
  let c := mkCtx (-1) (-1) (-1) (-1) (-1) (-1) (-1) (-1) (-1) (-1) (-1) false in
  m ← Some (StateMachine_ctor c);
  m ← add_state "Root" (fun _ => -1) StateRoot (fun i '(mkCtx _ b c d e f g h j k l x) => mkCtx i b c d e f g h j k l x) m;
  m ← add_state "Created" idx_root StateCreated (fun i '(mkCtx a _ c d e f g h j k l x) => mkCtx a i c d e f g h j k l x) m;
  m ← add_state "Initializing" idx_root StateInitializing (fun i '(mkCtx a b _ d e f g h j k l x) => mkCtx a b i d e f g h j k l x) m;
  m ← add_state "Ready" idx_root StateReady (fun i '(mkCtx a b c _ e f g h j k l x) => mkCtx a b c i e f g h j k l x) m;
  m ← add_state "Idle" idx_ready StateIdle (fun i '(mkCtx a b c d _ f g h j k l x) => mkCtx a b c d i f g h j k l x) m;
  m ← add_state "Processing" idx_ready StateProcessing (fun i '(mkCtx a b c d e _ g h j k l x) => mkCtx a b c d e i g h j k l x) m;
  m ← add_state "Suspended" idx_ready StateSuspended (fun i '(mkCtx a b c d e f _ h j k l x) => mkCtx a b c d e f i h j k l x) m;
  m ← add_state "Error" idx_root StateError (fun i '(mkCtx a b c d e f g _ j k l x) => mkCtx a b c d e f g i j k l x) m;
  m ← add_state "Recoverable" idx_error StateRecoverable (fun i '(mkCtx a b c d e f g h _ k l x) => mkCtx a b c d e f g h i k l x) m;
  m ← add_state "Fatal" idx_error StateFatal (fun i '(mkCtx a b c d e f g h j _ l x) => mkCtx a b c d e f g h j i l x) m;
  m ← add_state "Destroying" idx_root StateDestroying (fun i '(mkCtx a b c d e f g h j k _ x) => mkCtx a b c d e f g h j k i x) m;
  m ← SetInitialState (idx_created (ctx_ m)) m;
  Start m.

(** The constructor; [None]: an assertion of the state machine failed. *)
Definition Instance_ctor : option Inst := m ← InitHsm; Some (mkInst m 0 0 false true None).

Definition DispatchHsmEvent (evt : Z) (n : Inst) : option Inst :=
  if hsm_initialized_ n then
    m ← Dispatch (mkEvent evt None) (hsm n);
    Some (mkInst m (ins_id_ n) (legacy_state_ n) false (hsm_initialized_ n) (response_channel_ n))
  else Some n.

Definition Initialize (n : Inst) : option Inst := n ← DispatchHsmEvent kInsEvtInitialize n; DispatchHsmEvent kInsEvtInitDone n.
Definition Suspend : Inst -> option Inst := DispatchHsmEvent kInsEvtSuspend.
Definition Resume : Inst -> option Inst := DispatchHsmEvent kInsEvtResume.
Definition MarkError (fatal : bool) (n : Inst) : option Inst :=
  DispatchHsmEvent kInsEvtMarkError
    (mkInst (with_ctx (set_error_is_fatal fatal) (hsm n)) (ins_id_ n) (legacy_state_ n) (legacy_state_set_ n) (hsm_initialized_ n) (response_channel_ n)).
Definition Recover : Inst -> option Inst := DispatchHsmEvent kInsEvtRecover.
Definition Destroy : Inst -> option Inst := DispatchHsmEvent kInsEvtDestroy.
Definition BeginMessage : Inst -> option Inst := DispatchHsmEvent kInsEvtMessage.
Definition EndMessage : Inst -> option Inst := DispatchHsmEvent kInsEvtMsgDone.

Definition CoarseState (n : Inst) : InstanceState :=
  let c := ctx_ (hsm n) in let cur := CurrentState (hsm n) in
  if cur =? idx_created c then kCreated
  else if cur =? idx_initializing c then kInitializing
  else if (cur =? idx_idle c) || (cur =? idx_processing c) || (cur =? idx_suspended c) || (cur =? idx_ready c) then kReady
  else if (cur =? idx_recoverable c) || (cur =? idx_fatal c) || (cur =? idx_error c) then kError
  else if cur =? idx_destroying c then kDestroying
  else kCreated.
Definition DetailedState (n : Inst) : InstanceDetailedState :=
  let c := ctx_ (hsm n) in let cur := CurrentState (hsm n) in
  if negb (hsm_initialized_ n) then dCreated
  else if cur =? idx_created c then dCreated
  else if cur =? idx_initializing c then dInitializing
  else if cur =? idx_idle c then dIdle
  else if cur =? idx_processing c then dProcessing
  else if cur =? idx_suspended c then dSuspended
  else if cur =? idx_recoverable c then dRecoverable
  else if cur =? idx_fatal c then dFatal
  else if cur =? idx_destroying c then dDestroying
  else dCreated.
(** Before the machine exists CoarseState is the cast of [legacy_state_]. *)
Definition CurState (n : Inst) : Z :=
  if legacy_state_set_ n then legacy_state_ n
  else if hsm_initialized_ n then coarse_number (CoarseState n) else wrap 8 (legacy_state_ n).
Definition DetailedStateName (n : Inst) : option string :=
  if hsm_initialized_ n then CurrentStateName (hsm n) else Some "Created"%string.
Definition IsInState (s : Z) (n : Inst) : option bool :=
  if hsm_initialized_ n then Hsm.IsInState s (hsm n) else Some false.

Definition SetState (s : Z) (n : Inst) : Inst := mkInst (hsm n) (ins_id_ n) s true (hsm_initialized_ n) (response_channel_ n).
Definition InsId (n : Inst) : Z := ins_id_ n.
Definition SetInsId (i : Z) (n : Inst) : Inst := mkInst (hsm n) i (legacy_state_ n) (legacy_state_set_ n) (hsm_initialized_ n) (response_channel_ n).
Definition HasPendingReply (n : Inst) : bool := match response_channel_ n with Some _ => true | None => false end.
Definition SetResponseChannel (ch : option nat) (n : Inst) : Inst :=
  mkInst (hsm n) (ins_id_ n) (legacy_state_ n) (legacy_state_set_ n) (hsm_initialized_ n) ch.

(** ** The specification: the automaton of the leaf states *)

Record Life := mkLife { st : InstanceDetailedState; legacy : option Z; iid : Z; channel : option nat }.
Definition life_new : Life := mkLife dCreated None 0 None.

Inductive LifeEvent := eInitialize | eSuspend | eResume | eMarkError (fatal : bool) | eRecover | eDestroy | eBegin | eEnd.
Definition next_state (e : LifeEvent) (s : InstanceDetailedState) : InstanceDetailedState :=
  match s, e with
  | dDestroying, _ => dDestroying
  | _, eDestroy => dDestroying
  | _, eMarkError fatal => if fatal then dFatal else dRecoverable
  | (dCreated | dInitializing), eInitialize => dIdle
  | (dIdle | dProcessing | dSuspended), eSuspend => dSuspended
  | dSuspended, eResume => dIdle
  | dRecoverable, eRecover => dIdle
  | dIdle, eBegin => dProcessing
  | dProcessing, eEnd => dIdle
  | s, _ => s
  end.
Definition life_event (e : LifeEvent) (l : Life) : Life := mkLife (next_state e (st l)) None (iid l) (channel l).
Definition inst_event (e : LifeEvent) : Inst -> option Inst :=
  match e with
  | eInitialize => Initialize | eSuspend => Suspend | eResume => Resume | eMarkError f => MarkError f | eRecover => Recover
  | eDestroy => Destroy | eBegin => BeginMessage | eEnd => EndMessage
  end.

Definition coarse (s : InstanceDetailedState) : InstanceState :=
  match s with
  | dCreated => kCreated | dInitializing => kInitializing | dIdle | dProcessing | dSuspended => kReady
  | dRecoverable | dFatal => kError | dDestroying => kDestroying
  end.
Definition life_cur (l : Life) : Z := match legacy l with Some s => s | None => coarse_number (coarse (st l)) end.
Definition state_name (s : InstanceDetailedState) : string :=
  match s with
  | dCreated => "Created" | dInitializing => "Initializing" | dIdle => "Idle" | dProcessing => "Processing" | dSuspended => "Suspended"
  | dRecoverable => "Recoverable" | dFatal => "Fatal" | dDestroying => "Destroying"
  end.

(** ** Refinement *)

Definition ins_states : list (@StateConfig InstanceHsmContext unit) :=
  let st nm p h := mkStateConfig nm p (Some h) None None None in
  [st "Root" (-1) StateRoot; st "Created" 0 StateCreated; st "Initializing" 0 StateInitializing; st "Ready" 0 StateReady;
   st "Idle" 3 StateIdle; st "Processing" 3 StateProcessing; st "Suspended" 3 StateSuspended; st "Error" 0 StateError;
   st "Recoverable" 7 StateRecoverable; st "Fatal" 7 StateFatal; st "Destroying" 0 StateDestroying]%string.
Definition leaf (s : InstanceDetailedState) : Z :=
  match s with
  | dCreated => 1 | dInitializing => 2 | dIdle => 4 | dProcessing => 5 | dSuspended => 6 | dRecoverable => 8 | dFatal => 9 | dDestroying => 10
  end.

(** The instance in a state; [f] and [x] are leftovers that nothing reads. *)
Definition inst_of (f : bool) (x : Z) (l : Life) : Inst :=
  mkInst (mkMachine (mkCtx 0 1 2 3 4 5 6 7 8 9 10 f) (leaf (st l)) 1 true (-1) ins_states)
    (iid l) (match legacy l with Some s => s | None => x end) (match legacy l with Some _ => true | None => false end) true (channel l).

(** The instance [n] shows the life [l]. *)
Definition shows (n : Inst) (l : Life) : Prop := exists f x, n = inst_of f x l.

Lemma shows_new : exists n, Instance_ctor = Some n /\ shows n life_new.
Proof. eexists. split; [vm_compute; reflexivity|]. exists false, 0. reflexivity. Qed.

Lemma shows_event e n l : shows n l -> exists n', inst_event e n = Some n' /\ shows n' (life_event e l).
Proof.
  intros (f & x & ->). destruct l as [s lg i ch]. destruct e as [| | |ff| | | |].
  all: destruct s; try destruct ff; destruct f; (eexists; split; [vm_compute; reflexivity|]; eexists _, _; reflexivity).
Qed.

Lemma shows_queries n l : shows n l ->
  CurState n = life_cur l /\ DetailedState n = st l /\ DetailedStateName n = Some (state_name (st l)) /\ InsId n = iid l /\
  HasPendingReply n = bool_decide (is_Some (channel l)).
Proof.
  intros (f & x & ->). destruct l as [s lg i ch]. split_and!; [destruct lg, s; reflexivity|destruct s; reflexivity|destruct s; vm_compute; reflexivity|done|].
  unfold HasPendingReply, inst_of. cbn. destruct ch; [by rewrite bool_decide_true by done|by rewrite bool_decide_false by (by intros [])].
Qed.

Lemma shows_set_state s n l : shows n l -> shows (SetState s n) (mkLife (st l) (Some s) (iid l) (channel l)).
Proof. intros (f & x & ->). by exists f, x. Qed.
Lemma shows_set_id i n l : shows n l -> shows (SetInsId i n) (mkLife (st l) (legacy l) i (channel l)).
Proof. intros (f & x & ->). by exists f, x. Qed.
Lemma shows_set_channel ch n l : shows n l -> shows (SetResponseChannel ch n) (mkLife (st l) (legacy l) (iid l) ch).
Proof. intros (f & x & ->). by exists f, x. Qed.
Lemma shows_channel n l : shows n l -> response_channel_ n = channel l.
Proof. by intros (f & x & ->). Qed.

(** ** Where the life cycle and its comments differ *)

(** A fatal error, after which the instance is to be destroyed, is left by reporting
    a recoverable one. *)
Lemma fatal_can_recover :
  exists n, (n ← Instance_ctor; n ← Initialize n; n ← MarkError true n; n ← MarkError false n; Recover n) = Some n /\ DetailedState n = dIdle.
Proof. eexists. split; vm_compute; reflexivity. Qed.

(** A state set by a message handler is forgotten when the message ends. *)
Lemma set_state_forgotten :
  exists n, (n ← Instance_ctor; n ← Initialize n; n ← BeginMessage n; EndMessage (SetState 7 n)) = Some n /\ CurState n = 2.
Proof. eexists. split; vm_compute; reflexivity. Qed.
