(* ===== verification/App.v ===== *)
(** * Application (include/osp/app.hpp)

    An application owns up to MaxInstances instances (Instance.v) in an object pool
    and a ring of messages; ProcessOne delivers the oldest message to one instance or
    to all of them.  The pool is known through the class [InstancePool], which
    ObjectPool of MemPool.v implements.  A message handler is a tree of the operations it
    calls, on its instance and on the queue of its application, with what it does next
    for each result.  Posting is serialised by a mutex and processing is the business of
    one thread, so whole calls are the steps here; what happens between a caller that
    waits for a reply and the processing thread is the subject of Post.v. *)

From Stdlib Require Import ZArith Lia Bool.
From stdpp Require Import base numbers list option gmap sorting.
From S2P Require Import Prelude Hsm Instance.
From S2P Require MemPool.

Open Scope Z_scope.

Inductive AppError := kInstancePoolFull | kInstanceNotFound | kAlreadyRunning | kNotRunning | kInvalidId | kQueueFull.

(** Instance identifiers *)
Definition MakeIID (app_id ins_id : Z) : Z := Z.lor (u32 (Z.shiftl app_id 16)) ins_id.
Definition GetAppId (iid : Z) : Z := u16 (Z.shiftr iid 16).
Definition GetInsId (iid : Z) : Z := u16 (Z.land iid 65535).
Definition kInsEach : Z := 65535.

Lemma iid_roundtrip a i : in_range 16 a -> in_range 16 i -> GetAppId (MakeIID a i) = a /\ GetInsId (MakeIID a i) = i.
Proof.
  unfold in_range, MakeIID, GetAppId, GetInsId. intros Ha Hi. rewrite (wrap_small 32)
    by (rewrite Z.shiftl_mul_pow2 by lia; unfold in_range; change (2 ^ 32) with (2 ^ 16 * 2 ^ 16); nia).
  assert (E : Z.lor (Z.shiftl a 16) i = i + a * 2 ^ 16) by (rewrite Z.lor_comm; by apply lor_shiftl_add). rewrite E. split.
  - rewrite Z.shiftr_div_pow2, Z.div_add, (Z.div_small i) by lia. by apply wrap_small.
  - change 65535 with (2 ^ 16 - 1). rewrite land_mask by lia. unfold wrap. rewrite !Z.mod_add by lia. by rewrite !Z.mod_small by (rewrite ?Z.mod_small; lia).
Qed.

(** ** Response channels

    The heap of channels: a freed one is [None]; [use_after_free] records an access to
    a channel that does not exist any more. *)

Record ResponseChannel := mkChannel { data : list Z; data_len : Z; replied : bool; ref_count : Z }.
Record Channels := mkChannels { cells : list (option ResponseChannel); use_after_free : bool }.

Definition OSP_RESPONSE_DATA_SIZE : Z := 256.
Definition new_channel : ResponseChannel := mkChannel (replicate (Z.to_nat OSP_RESPONSE_DATA_SIZE) 0) 0 false 1.

Definition on_channel (i : nat) (f : ResponseChannel -> option ResponseChannel) (s : Channels) : Channels :=
  match cells s !! i with
  | Some (Some c) => mkChannels (<[i := f c]> (cells s)) (use_after_free s)
  | _ => mkChannels (cells s) true
  end.
Definition Acquire (i : nat) : Channels -> Channels := on_channel i (fun c => Some (mkChannel (data c) (data_len c) (replied c) (ref_count c + 1))).
Definition Release (i : nat) : Channels -> Channels :=
  on_channel i (fun c => if ref_count c =? 1 then None else Some (mkChannel (data c) (data_len c) (replied c) (ref_count c - 1))).
Definition fill_reply (buf : option (list Z)) (len : Z) (c : ResponseChannel) : ResponseChannel :=
  let n := if len <=? OSP_RESPONSE_DATA_SIZE then len else OSP_RESPONSE_DATA_SIZE in
  mkChannel (match buf with Some b => if 0 <? n then blit (data c) 0 (take (Z.to_nat n) b) else data c | None => data c end) n true (ref_count c).
Definition Reply (i : nat) (buf : option (list Z)) (len : Z) : Channels -> Channels := on_channel i (fun c => Some (fill_reply buf len c)).

(** ** Messages *)

Record AppMessage := mkMessage { ins_id : Z; event : Z; flags_and_len : Z; response_channel : option nat; inline_data : list Z }.
Definition kLenShift : Z := 8.
Definition kExternalFlag : Z := 1.
Definition kMaxDataLen : Z := 16777215.

Definition IsExternal (m : AppMessage) : bool := negb (Z.land (flags_and_len m) kExternalFlag =? 0).
Definition DataLen (m : AppMessage) : Z := Z.shiftr (flags_and_len m) kLenShift.
(** What a handler may read: the first DataLen bytes at Data. *)
Definition message_data (m : AppMessage) : list Z := take (Z.to_nat (DataLen m)) (inline_data m).

(** A null pointer is eight zero bytes at the start of the union. *)
Definition put_null (m : AppMessage) : AppMessage :=
  mkMessage (ins_id m) (event m) 0 (response_channel m) (blit (inline_data m) 0 (replicate 8 0)).

Section Application.
Context {U : Type} (u0 : U).
(** OSP_APP_MSG_INLINE_SIZE and OSP_APP_QUEUE_DEPTH *)
Context (INLINE DEPTH MaxInstances : Z).

Definition Store (d : option (list Z)) (len : Z) (m : AppMessage) : AppMessage :=
  match d with
  | Some b =>
    if len =? 0 then put_null m
    else
      let len := if kMaxDataLen <? len then kMaxDataLen else len in
      if len <=? INLINE then mkMessage (ins_id m) (event m) (u32 (Z.shiftl len kLenShift)) (response_channel m) (blit (inline_data m) 0 (take (Z.to_nat len) b))
      else put_null m
  | None => put_null m
  end.

(** ** What a message handler does

    OnMessage of the derived class sees the event, the data and its instance.  It calls
    operations of the instance, whose queries it may look at after each of them, and posts
    messages to the application, whose answer it sees; [AUser] is its own state. *)
Inductive InstAct := AEvent (e : LifeEvent) | ASetState (s : Z) | AReply (buf : option (list Z)) (len : Z) | AUser (f : U -> U).
Record View := mkView { v_cur : Z; v_state : InstanceDetailedState; v_id : Z; v_pending : bool; v_user : U }.
Inductive MsgHandler := HReturn | HDo (act : InstAct) (k : View -> MsgHandler) | HPost (id ev : Z) (d : option (list Z)) (k : bool -> MsgHandler).
Context (OnMessage : Z -> list Z -> View -> MsgHandler).

Abbreviation Object := (Inst * U)%type.
Definition run_act (a : InstAct) (o : Object) (s : Channels) : option (Object * Channels) :=
  let '(n, u) := o in
  match a with
  | AEvent e => n ← inst_event e n; Some ((n, u), s)
  | ASetState x => Some ((SetState x n, u), s)
  | AReply b len => Some ((n, u), match response_channel_ n with Some ch => Reply ch b len s | None => s end)
  | AUser f => Some ((n, f u), s)
  end.
Definition object_view (o : Object) : View := let '(n, u) := o in mkView (CurState n) (DetailedState n) (InsId n) (HasPendingReply n) u.
Definition data_size (d : option (list Z)) : Z := match d with Some b => Z.of_nat (length b) | None => 0 end.

(** ** The application *)

(** What the application needs of the pool of its instances: blocks are handed out and
    taken back; [pool_free p fl]: the blocks [fl] are free. *)
Class InstancePool (Pool : Type) := {
  pool_create : Pool -> option Z * Pool;
  pool_destroy : Z -> Pool -> option Pool;
  pool_blocks : list Z;
  pool_free : Pool -> list Z -> Prop;
  pool_capacity : Z.of_nat (length pool_blocks) = MaxInstances;
  pool_distinct : NoDup pool_blocks;
  pool_create_none p : pool_free p [] -> (pool_create p).1 = None;
  pool_create_some p x fl : pool_free p (x :: fl) -> (pool_create p).1 = Some x /\ pool_free (pool_create p).2 fl;
  pool_destroy_ok p x fl : pool_free p fl -> x ∈ pool_blocks -> x ∉ fl -> exists p', pool_destroy x p = Some p' /\ pool_free p' (x :: fl)
}.
Context `{InstancePool Pool}.

Record Application := mkApp {
  app_id_ : Z;
  pool_ : Pool;
  (* the objects at the pool's addresses *)
  objects : gmap Z Object;
  instances_ : list (option Z);
  instance_count_ : Z;
  queue_ : list AppMessage;
  queue_head_ : Z;
  queue_tail_ : Z
}.
#[global] Instance message_inhabited : Inhabited AppMessage := populate (mkMessage 0 0 0 None (replicate (Z.to_nat INLINE) 0)).

Definition Application_ctor (app_id : Z) (p : Pool) : Application :=
  mkApp app_id p ∅ (replicate (Z.to_nat MaxInstances) None) 0 (replicate (Z.to_nat DEPTH) inhabitant) 0 0.

Definition set_instances (p : Pool) (os : gmap Z Object) (l : list (option Z)) (n : Z) (a : Application) : Application :=
  mkApp (app_id_ a) p os l n (queue_ a) (queue_head_ a) (queue_tail_ a).
Definition set_queue (q : list AppMessage) (h t : Z) (a : Application) : Application :=
  mkApp (app_id_ a) (pool_ a) (objects a) (instances_ a) (instance_count_ a) q h t.

(** [None]: undefined behaviour or a failed assertion. *)
Definition CreateInstance (a : Application) : option ((Z + AppError) * Application) :=
  match list_find (fun o => o = None) (instances_ a) with
  | Some (i, _) =>
    let '(o, p) := pool_create (pool_ a) in
    match o with
    | None => Some (inr kInstancePoolFull, set_instances p (objects a) (instances_ a) (instance_count_ a) a)
    | Some ptr =>
      n ← Instance_ctor;
      let id := u16 (Z.of_nat i + 1) in
      Some (inl id, set_instances p (<[ptr := (SetInsId id n, u0)]> (objects a)) (<[i := Some ptr]> (instances_ a)) (u32 (instance_count_ a + 1)) a)
    end
  | None => Some (inr kInstancePoolFull, a)
  end.

(** The array of instances at an index; [None]: outside. *)
Definition instance_at {A} (l : list A) (i : Z) : option A := if i <? 0 then None else l !! Z.to_nat i.
Definition DestroyInstance (id : Z) (a : Application) : option (option AppError * Application) :=
  let id := u16 id in
  if (id =? 0) || (MaxInstances <? id) then Some (Some kInvalidId, a)
  else
    o ← instance_at (instances_ a) (id - 1);
    match o with
    | Some ptr =>
      p ← pool_destroy ptr (pool_ a);
      Some (None, set_instances p (delete ptr (objects a)) (<[Z.to_nat (id - 1) := None]> (instances_ a)) (u32 (instance_count_ a - 1)) a)
    | None => Some (Some kInstanceNotFound, a)
    end.

Definition Post (id ev : Z) (d : option (list Z)) (len : Z) (ch : option nat) (a : Application) : bool * Application :=
  if INLINE <? len then (false, a)
  else
    let tail := queue_tail_ a in
    let next_tail := u32 (tail + 1) mod DEPTH in
    if next_tail =? queue_head_ a then (false, a)
    else
      let old := aget (queue_ a) tail in
      (true, set_queue (aset (queue_ a) tail (Store d len (mkMessage (u16 id) (u16 ev) 0 ch (inline_data old)))) (queue_head_ a) next_tail a).

(** [None]: an access outside the array; [Some None]: nullptr. *)
Definition GetInstance (id : Z) (a : Application) : option (option Z) :=
  let id := u16 id in if (id =? 0) || (MaxInstances <? id) then Some None else instance_at (instances_ a) (id - 1).

(** The handler runs. *)
Fixpoint run_handler (h : MsgHandler) (o : Object) (a : Application) (s : Channels) : option (Object * Application * Channels) :=
  match h with
  | HReturn => Some (o, a, s)
  | HDo act k => '(o, s) ← run_act act o s; run_handler (k (object_view o)) o a s
  | HPost id ev d k => let '(ok, a) := Post id ev d (data_size d) None a in run_handler (k ok) o a s
  end.
(** The message at the head: ProcessOne holds a reference to it while handlers post. *)
Definition head_message (a : Application) : AppMessage := aget (queue_ a) (queue_head_ a).
(** The five calls with which ProcessOne hands a message to an instance. *)
Definition deliver (o : Object) (a : Application) (s : Channels) : option (Object * Application * Channels) :=
  let m := head_message a in
  let '(n, u) := o in
  n ← BeginMessage (SetResponseChannel (response_channel m) n);
  '(n, u, a, s) ← run_handler (OnMessage (event m) (message_data m) (object_view (n, u))) (n, u) a s;
  n ← EndMessage n;
  Some ((SetResponseChannel None n, u), a, s).
Definition set_object (ptr : Z) (o : Object) (a : Application) : Application :=
  set_instances (pool_ a) (<[ptr := o]> (objects a)) (instances_ a) (instance_count_ a) a.
(** Delivery to the instances at the given slots. *)
Fixpoint deliver_to (l : list (option Z)) (a : Application) (s : Channels) : option (Application * Channels) :=
  match l with
  | [] => Some (a, s)
  | None :: l => deliver_to l a s
  | Some ptr :: l =>
    o ← objects a !! ptr;
    '(o, a, s) ← deliver o a s;
    deliver_to l (set_object ptr o a) s
  end.

(** ProcessOne up to the return of the last handler, and the rest of it. *)
Definition ProcessDeliver (a : Application) (s : Channels) : option (Application * Channels) :=
  if ins_id (head_message a) =? kInsEach then deliver_to (instances_ a) a s
  else o ← GetInstance (ins_id (head_message a)) a; deliver_to [o] a s.
Definition ProcessFinish (a : Application) (s : Channels) : Application * Channels :=
  let m := head_message a in
  (set_queue (queue_ a) (u32 (queue_head_ a + 1) mod DEPTH) (queue_tail_ a) a, match response_channel m with Some ch => Release ch s | None => s end).
Definition ProcessOne (a : Application) (s : Channels) : option (bool * Application * Channels) :=
  if queue_head_ a =? queue_tail_ a then Some (false, a, s)
  else '(a, s) ← ProcessDeliver a s; let '(a, s) := ProcessFinish a s in Some (true, a, s).

(** The loop of ProcessAll for at most [fuel] calls of ProcessOne: the count when it has
    returned, [None] while it is still running. *)
Fixpoint ProcessAll (fuel : nat) (a : Application) (s : Channels) : option (option Z * Application * Channels) :=
  match fuel with
  | O => Some (None, a, s)
  | S fuel =>
    '(more, a, s) ← ProcessOne a s;
    if (more : bool) then '(n, a, s) ← ProcessAll fuel a s; Some (option_map (fun n => u32 (n + 1)) n, a, s) else Some (Some 0, a, s)
  end.

Definition PendingMessages (a : Application) : Z :=
  if queue_head_ a <=? queue_tail_ a then queue_tail_ a - queue_head_ a else u32 (DEPTH - queue_head_ a + queue_tail_ a).
Definition InstanceCount (a : Application) : Z := instance_count_ a.

(** A call of an operation of the instance [id], from outside a message handler. *)
Definition CallInstance (id : Z) (act : InstAct) (a : Application) (s : Channels) : option (Application * Channels) :=
  o ← GetInstance id a;
  match o with
  | None => Some (a, s)
  | Some ptr =>
    o ← objects a !! ptr;
    '(o, s) ← run_act act o s;
    Some (set_object ptr o a, s)
  end.
Definition InstanceView (id : Z) (a : Application) : option (option View) :=
  o ← GetInstance id a;
  match o with
  | None => Some None
  | Some ptr => o ← objects a !! ptr; Some (Some (object_view o))
  end.

(** ** The specification

    Slots with the life and the user's state of each instance, and the mail. *)

Record SpecMsg := mkMsg { to : Z; ev : Z; bytes : list Z; chan : option nat }.
Abbreviation Slot := (option (Life * U)).
Record SpecApp := mkSpecApp { slots : list Slot; mail : list SpecMsg }.
Definition spec_new : SpecApp := mkSpecApp (replicate (Z.to_nat MaxInstances) None) [].

(** A reply puts its bytes, as far as there is room, over those that are there; the last
    reference that goes takes the channel with it.  A channel that is gone is not touched. *)
Definition spec_channel (ch : nat) (f : ResponseChannel -> option ResponseChannel) (s : Channels) : Channels :=
  match cells s !! ch with
  | Some (Some c) => mkChannels (take ch (cells s) ++ f c :: drop (S ch) (cells s)) (use_after_free s)
  | _ => mkChannels (cells s) true
  end.
Definition spec_reply (ch : nat) (b : option (list Z)) (len : Z) : Channels -> Channels :=
  spec_channel ch (fun c =>
    let t := take (Z.to_nat (Z.min len 256)) (default [] b) in Some (mkChannel (t ++ drop (length t) (data c)) (Z.min len 256) true (ref_count c))).
Definition spec_release (ch : nat) : Channels -> Channels :=
  spec_channel ch (fun c => let n := ref_count c - 1 in if bool_decide (n = 0) then None else Some (mkChannel (data c) (data_len c) (replied c) n)).
Definition spec_act (a : InstAct) (o : Life * U) (s : Channels) : Life * U * Channels :=
  let '(l, u) := o in
  match a with
  | AEvent e => (life_event e l, u, s)
  | ASetState x => (mkLife (st l) (Some x) (iid l) (channel l), u, s)
  | AReply b len => (l, u, match channel l with Some ch => spec_reply ch b len s | None => s end)
  | AUser f => (l, f u, s)
  end.
Definition with_channel (ch : option nat) (l : Life) : Life := mkLife (st l) (legacy l) (iid l) ch.
Definition life_view (l : Life) (u : U) : View := mkView (life_cur l) (st l) (iid l) (bool_decide (is_Some (channel l))) u.
Definition mail_post (id ev : Z) (d : option (list Z)) (len : Z) (ch : option nat) (ml : list SpecMsg) : bool * list SpecMsg :=
  if (INLINE <? len) || (DEPTH - 1 <=? Z.of_nat (length ml)) then (false, ml)
  else (true, ml ++ [mkMsg (u16 id) (u16 ev) (match d with Some b => take (Z.to_nat len) b | None => [] end) ch]).
Fixpoint spec_handler (h : MsgHandler) (o : Life * U) (ml : list SpecMsg) (s : Channels) : Life * U * list SpecMsg * Channels :=
  match h with
  | HReturn => (o, ml, s)
  | HDo act k => let '(o, s) := spec_act act o s in spec_handler (k (life_view o.1 o.2)) o ml s
  | HPost id ev d k => let '(ok, ml) := mail_post id ev d (data_size d) None ml in spec_handler (k ok) o ml s
  end.
Definition spec_deliver (m : SpecMsg) (o : Life * U) (ml : list SpecMsg) (s : Channels) : Life * U * list SpecMsg * Channels :=
  let l := life_event eBegin (with_channel (chan m) o.1) in
  let '(l, u, ml, s) := spec_handler (OnMessage (ev m) (bytes m) (life_view l o.2)) (l, o.2) ml s in
  (with_channel None (life_event eEnd l), u, ml, s).
Fixpoint spec_deliver_to (l : list Slot) (m : SpecMsg) (ml : list SpecMsg) (s : Channels) : list Slot * list SpecMsg * Channels :=
  match l with
  | [] => ([], ml, s)
  | None :: l => let '(l, ml, s) := spec_deliver_to l m ml s in (None :: l, ml, s)
  | Some o :: l => let '(o, ml, s) := spec_deliver m o ml s in let '(l, ml, s) := spec_deliver_to l m ml s in (Some o :: l, ml, s)
  end.

Definition spec_slot (id : Z) (sp : SpecApp) : Slot :=
  let id := u16 id in if (id =? 0) || (MaxInstances <? id) then None else match slots sp !! Z.to_nat (id - 1) with Some o => o | None => None end.
Definition put_slot (id : Z) (o : Slot) (sp : SpecApp) : SpecApp := mkSpecApp (<[Z.to_nat (u16 id - 1) := o]> (slots sp)) (mail sp).

Definition spec_create (sp : SpecApp) : (Z + AppError) * SpecApp :=
  match list_find (fun o => o = None) (slots sp) with
  | Some (i, _) => (inl (Z.of_nat i + 1), mkSpecApp (<[i := Some (mkLife dCreated None (Z.of_nat i + 1) None, u0)]> (slots sp)) (mail sp))
  | None => (inr kInstancePoolFull, sp)
  end.
Definition spec_destroy (id : Z) (sp : SpecApp) : option AppError * SpecApp :=
  if (u16 id =? 0) || (MaxInstances <? u16 id) then (Some kInvalidId, sp)
  else match spec_slot id sp with Some _ => (None, put_slot id None sp) | None => (Some kInstanceNotFound, sp) end.
Definition spec_post (id ev : Z) (d : option (list Z)) (len : Z) (ch : option nat) (sp : SpecApp) : bool * SpecApp :=
  let '(ok, ml) := mail_post id ev d len ch (mail sp) in (ok, mkSpecApp (slots sp) ml).
Definition spec_call (id : Z) (act : InstAct) (sp : SpecApp) (s : Channels) : SpecApp * Channels :=
  match spec_slot id sp with Some o => let '(o, s) := spec_act act o s in (put_slot id (Some o) sp, s) | None => (sp, s) end.
Definition spec_handle (m : SpecMsg) (sp : SpecApp) (s : Channels) : SpecApp * Channels :=
  if to m =? kInsEach then let '(l, ml, s) := spec_deliver_to (slots sp) m (mail sp) s in (mkSpecApp l ml, s)
  else match spec_slot (to m) sp with
       | Some o => let '(o, ml, s) := spec_deliver m o (mail sp) s in (mkSpecApp (slots (put_slot (to m) (Some o) sp)) ml, s)
       | None => (sp, s)
       end.
Definition spec_finish (sp : SpecApp) (s : Channels) : SpecApp * Channels :=
  match mail sp with
  | m :: rest => (mkSpecApp (slots sp) rest, match chan m with Some ch => spec_release ch s | None => s end)
  | [] => (sp, s)
  end.
Definition spec_process (sp : SpecApp) (s : Channels) : bool * SpecApp * Channels :=
  match mail sp with
  | [] => (false, sp, s)
  | m :: _ => let '(sp, s) := spec_handle m sp s in let '(sp, s) := spec_finish sp s in (true, sp, s)
  end.
(** Message after message until there is no mail, for at most [fuel] looks at it; the
    handlers may have posted more. *)
Fixpoint spec_all (fuel : nat) (sp : SpecApp) (s : Channels) : option nat * SpecApp * Channels :=
  match fuel with
  | O => (None, sp, s)
  | S fuel =>
    match spec_process sp s with
    | (true, sp, s) => let '(n, sp, s) := spec_all fuel sp s in (option_map S n, sp, s)
    | (false, sp, s) => (Some 0%nat, sp, s)
    end
  end.

(** ** The relation *)

Definition slot_ok (os : gmap Z Object) (o : option Z) (x : Slot) : Prop :=
  match o, x with
  | None, None => True
  | Some ptr, Some (l, u) => exists n, os !! ptr = Some (n, u) /\ shows n l
  | _, _ => False
  end.
Definition message_ok (m : AppMessage) (x : SpecMsg) : Prop :=
  ins_id m = to x /\ event m = ev x /\ message_data m = bytes x /\ response_channel m = chan x.

(** The ring holds the mail from its head on. *)
Record queue_rel (a : Application) (ml : list SpecMsg) : Prop := {
  qr_queue : Z.of_nat (length (queue_ a)) = DEPTH /\ Forall (fun m => Z.of_nat (length (inline_data m)) = INLINE) (queue_ a);
  qr_head : 0 <= queue_head_ a < DEPTH;
  qr_tail : queue_tail_ a = (queue_head_ a + Z.of_nat (length ml)) mod DEPTH;
  qr_room : Z.of_nat (length ml) <= DEPTH - 1;
  qr_mail : forall j x, ml !! j = Some x -> message_ok (aget (queue_ a) ((queue_head_ a + Z.of_nat j) mod DEPTH)) x
}.
Record app_rel (a : Application) (sp : SpecApp) : Prop := {
  ar_pool : exists fl, pool_free (pool_ a) fl /\ omap id (instances_ a) ++ fl ≡ₚ pool_blocks;
  ar_slots : Forall2 (slot_ok (objects a)) (instances_ a) (slots sp);
  ar_max : Z.of_nat (length (instances_ a)) = MaxInstances;
  ar_count : instance_count_ a = Z.of_nat (length (omap id (slots sp)));
  ar_mailbox : queue_rel a (mail sp)
}.
(** Only the queue changes. *)
Definition same_but_queue (a a' : Application) : Prop :=
  pool_ a' = pool_ a /\ objects a' = objects a /\ instances_ a' = instances_ a /\ instance_count_ a' = instance_count_ a.
(** Mail that handlers have added; it carries no response channel. *)
Definition added (ml ml' : list SpecMsg) : Prop := exists l, ml' = ml ++ l /\ Forall (fun x => chan x = None) l.

Context (Hinline : 8 <= INLINE <= kMaxDataLen) (Hdepth : 2 <= DEPTH < 2 ^ 32) (Hmax : 0 <= MaxInstances < 2 ^ 16).

(** *** The queue *)

Lemma ring_ne h i j : 0 <= i < DEPTH -> 0 <= j < DEPTH -> i <> j -> (h + i) mod DEPTH <> (h + j) mod DEPTH.
Proof.
  intros Hi Hj Hne He. assert (Hz : (h + i - (h + j)) mod DEPTH = 0) by (rewrite Zminus_mod, He, Z.sub_diag; apply Z.mod_0_l; lia).
  replace (h + i - (h + j)) with (i - j) in Hz by lia. apply Z.mod_divide in Hz as [q Hq]; [|lia]. assert (q = 0) by nia. lia.
Qed.

Lemma ring_next t : 0 <= t < DEPTH -> u32 (t + 1) mod DEPTH = (t + 1) mod DEPTH.
Proof.
  intros Ht. destruct (decide (t + 1 = 2 ^ 32)) as [E|]; [lia|]. by rewrite wrap_small by (unfold in_range; lia).
Qed.

Lemma message_store ids evs d len ch old :
  Z.of_nat (length (inline_data old)) = INLINE -> 0 <= len <= INLINE -> (match d with Some b => len <= Z.of_nat (length b) | None => True end) ->
  message_ok (Store d len (mkMessage ids evs 0 ch (inline_data old))) (mkMsg ids evs (match d with Some b => take (Z.to_nat len) b | None => [] end) ch) /\
  Z.of_nat (length (inline_data (Store d len (mkMessage ids evs 0 ch (inline_data old))))) = INLINE.
Proof.
  intros Hold Hlen Hd. unfold Store, kMaxDataLen in *. destruct d as [b|].
  - destruct (Z.eqb_spec len 0) as [->|Hn].
    + split; [split_and!; [done..|]; done|]. cbn [inline_data put_null]. rewrite length_blit; rewrite ?length_replicate; lia.
    + destruct (Z.ltb_spec 16777215 len); [lia|]. destruct (Z.leb_spec len INLINE); [|lia].
      assert (Hl : length (take (Z.to_nat len) b) = Z.to_nat len) by (rewrite length_take; lia). split.
      * split_and!; [done|done| |done]. unfold message_data, DataLen, kLenShift. cbn [flags_and_len inline_data bytes].
        rewrite wrap_small, Z.shiftr_shiftl_l by (lia || (unfold in_range; rewrite Z.shiftl_mul_pow2 by lia; lia)).
        replace (Z.shiftl len (8 - 8)) with len by (by rewrite Z.sub_diag, Z.shiftl_0_r).
        unfold blit. change (take (Z.to_nat 0) (inline_data old)) with (@nil Z). rewrite app_nil_l, take_app_le by (rewrite Hl; lia).
        rewrite take_take. f_equal. lia.
      * cbn [inline_data]. rewrite length_blit; lia.
  - split; [split_and!; done|]. cbn [inline_data put_null]. rewrite length_blit; rewrite ?length_replicate; lia.
Qed.

Lemma post_queue ids evs d len ch a ml :
  queue_rel a ml -> 0 <= len -> (match d with Some b => len <= Z.of_nat (length b) | None => True end) ->
  (Post ids evs d len ch a).1 = (mail_post ids evs d len ch ml).1 /\ queue_rel (Post ids evs d len ch a).2 (mail_post ids evs d len ch ml).2 /\ same_but_queue a (Post ids evs d len ch a).2.
Proof.
  intros Hr Hlen Hd. unfold Post, mail_post. destruct (Z.ltb_spec INLINE len) as [|Hil]; [by split_and!|]. rewrite orb_false_l. pose proof Hr as Hr0.
  destruct Hr as [[Hq Hin] Hh Ht Hroom Hmail]. set (n := Z.of_nat (length ml)) in *.
  assert (Htr : 0 <= queue_tail_ a < DEPTH) by (rewrite Ht; apply Z.mod_pos_bound; lia).
  rewrite (ring_next _ Htr).
  assert (Hfull : ((queue_tail_ a + 1) mod DEPTH =? queue_head_ a) = (DEPTH - 1 <=? n)).
  { rewrite Ht, Zplus_mod_idemp_l. destruct (Z.leb_spec (DEPTH - 1) n).
    - assert (n = DEPTH - 1) by lia. replace (queue_head_ a + n + 1) with (queue_head_ a + 1 * DEPTH) by lia. rewrite Z.mod_add, Z.mod_small by lia. apply Z.eqb_refl.
    - apply Z.eqb_neq. rewrite <- (Z.mod_small (queue_head_ a) DEPTH) at 2 by lia. rewrite <- (Z.add_0_r (queue_head_ a)) at 2.
      replace (queue_head_ a + n + 1) with (queue_head_ a + (n + 1)) by lia. apply ring_ne; lia. }
  rewrite Hfull. destruct (Z.leb_spec (DEPTH - 1) n) as [|Hfit]; [by split_and!|]. split; [done|]. split; [|done].
  assert (Hold : Z.of_nat (length (inline_data (aget (queue_ a) (queue_tail_ a)))) = INLINE).
  { unfold aget. rewrite list_lookup_total_alt. rewrite Forall_lookup in Hin. destruct (lookup_lt_is_Some_2 (queue_ a) (Z.to_nat (queue_tail_ a)) ltac:(lia)) as [o Ho]. rewrite Ho. exact (Hin _ _ Ho). }
  destruct (message_store (u16 ids) (u16 evs) d len ch (aget (queue_ a) (queue_tail_ a)) Hold ltac:(lia) Hd) as [Hm Hml].
  split; cbn [queue_ queue_head_ queue_tail_ set_queue snd]; [|done| | |].
  - split; [by rewrite length_aset|]. unfold aset. by apply Forall_insert.
  - rewrite length_app, Ht, Zplus_mod_idemp_l. cbn. f_equal. lia.
  - rewrite length_app. cbn. lia.
  - intros j x Hj. apply lookup_app_Some in Hj as [Hj|[Hge Hj] ].
    + rewrite aget_aset_ne; [by apply Hmail|lia|apply Z.mod_pos_bound; lia|]. apply lookup_lt_Some in Hj. rewrite Ht. apply not_eq_sym, ring_ne; lia.
    + apply list_lookup_singleton_Some in Hj as [Hj <-]. replace (queue_head_ a + Z.of_nat j) with (queue_head_ a + n) by lia. rewrite <- Ht.
      by rewrite aget_aset_eq by lia.
Qed.

Lemma post_rel ids evs d len ch a sp :
  app_rel a sp -> 0 <= len -> (match d with Some b => len <= Z.of_nat (length b) | None => True end) ->
  (Post ids evs d len ch a).1 = (spec_post ids evs d len ch sp).1 /\ app_rel (Post ids evs d len ch a).2 (spec_post ids evs d len ch sp).2.
Proof.
  intros [Hp Hsl Hmx Hcnt HQ] Hlen Hd. destruct (post_queue ids evs d len ch a _ HQ Hlen Hd) as (E & HQ' & (E1 & E2 & E3 & E4)). unfold spec_post.
  destruct (mail_post _ _ _ _ _ _) as [ok ml]. cbn [fst snd] in *. split; [done|]. by split; cbn [slots mail]; rewrite ?E1, ?E2, ?E3, ?E4.
Qed.

Lemma head_message_ok a x rest : queue_rel a (x :: rest) -> message_ok (head_message a) x.
Proof. intros []. pose proof (qr_mail0 0%nat x eq_refl) as Hx. rewrite Z.add_0_r, Z.mod_small in Hx by done. exact Hx. Qed.

(** *** Delivery *)

Lemma queue_rel_instances p os l n a ml : queue_rel a ml -> queue_rel (set_instances p os l n a) ml.
Proof. intros []. split; assumption. Qed.
Lemma added_refl ml : added ml ml.
Proof. exists []. by rewrite app_nil_r. Qed.
Lemma added_trans m1 m2 m3 : added m1 m2 -> added m2 m3 -> added m1 m3.
Proof. intros (l1 & -> & H1) (l2 & -> & H2). exists (l1 ++ l2). rewrite <- app_assoc. split; [done|]. by apply Forall_app. Qed.
Lemma spec_handler_added h o ml s : added ml (spec_handler h o ml s).1.2.
Proof.
  revert o ml s. induction h as [|act k IH|ids evs d k IH]; intros o ml s; cbn [spec_handler]; [apply added_refl| |].
  - destruct (spec_act act o s) as [o' s']. apply IH.
  - destruct (mail_post _ _ _ _ _ _) as [ok ml'] eqn:E. eapply added_trans; [|apply IH]. unfold mail_post in E. destruct (_ || _); injection E as _ <-; [apply added_refl|]. eexists. split; [reflexivity|]. by constructor.
Qed.
Lemma spec_deliver_added x o ml s : added ml (spec_deliver x o ml s).1.2.
Proof. unfold spec_deliver. cbv zeta. match goal with |- context [spec_handler ?h ?o' ml s] => pose proof (spec_handler_added h o' ml s) as A end. by destruct (spec_handler _ _ _ _) as [ [ [l u] ml'] s']. Qed.
Lemma spec_deliver_to_added l x ml s : added ml (spec_deliver_to l x ml s).1.2.
Proof.
  revert ml s. induction l as [|[o|] l IH]; intros ml s; cbn [spec_deliver_to]; [apply added_refl| |].
  - pose proof (spec_deliver_added x o ml s) as A. destruct (spec_deliver x o ml s) as [ [o' ml1] s1]. pose proof (IH ml1 s1) as B. destruct (spec_deliver_to l x ml1 s1) as [ [l2 ml2] s2]. by eapply added_trans.
  - pose proof (IH ml s) as B. by destruct (spec_deliver_to l x ml s) as [ [l2 ml2] s2].
Qed.
Lemma spec_handle_added x sp s : added (mail sp) (mail (spec_handle x sp s).1).
Proof.
  unfold spec_handle. destruct (_ =? _); [pose proof (spec_deliver_to_added (slots sp) x (mail sp) s) as A; by destruct (spec_deliver_to _ _ _ _) as [ [] ]|].
  destruct (spec_slot _ _) as [o|]; [|apply added_refl]. pose proof (spec_deliver_added x o (mail sp) s) as A. by destruct (spec_deliver _ _ _ _) as [ [] ].
Qed.

Lemma channel_spec ch f g s : (forall c, f c = g c) -> on_channel ch f s = spec_channel ch g s.
Proof.
  intros E. unfold on_channel, spec_channel. destruct (cells s !! ch) as [ [c|]|] eqn:Hc; [|done..].
  f_equal. rewrite <- E. apply insert_take_drop. by eapply lookup_lt_Some.
Qed.
Lemma reply_spec ch b len s : Reply ch b len s = spec_reply ch b len s.
Proof.
  apply channel_spec. intros c. unfold fill_reply, OSP_RESPONSE_DATA_SIZE. cbv zeta.
  assert (En : (if len <=? 256 then len else 256) = Z.min len 256) by (destruct (Z.leb_spec len 256); lia). rewrite En. do 2 f_equal.
  destruct b as [b|]; cbn [default]; [|by rewrite take_nil]. destruct (Z.ltb_spec 0 (Z.min len 256)) as [|Hn]; [done|]. by replace (Z.to_nat (Z.min len 256)) with 0%nat by lia.
Qed.
Lemma release_spec ch s : Release ch s = spec_release ch s.
Proof. apply channel_spec. intros c. cbv zeta. destruct (Z.eqb_spec (ref_count c) 1), (bool_decide_reflect (ref_count c - 1 = 0)); done || lia. Qed.
Lemma run_act_shows act n l u s :
  shows n l -> exists n', run_act act (n, u) s = Some ((n', (spec_act act (l, u) s).1.2), (spec_act act (l, u) s).2) /\ shows n' (spec_act act (l, u) s).1.1.
Proof.
  intros Hn. destruct act as [e|x|b len|f]; cbn.
  - destruct (shows_event e n l Hn) as (n' & -> & Hn'). by exists n'.
  - exists (SetState x n). split; [done|by apply shows_set_state].
  - exists n. rewrite (shows_channel n l Hn). split; [|done]. do 2 f_equal. destruct (channel l); [apply reply_spec|done].
  - by exists n.
Qed.
Lemma view_shows n l u : shows n l -> object_view (n, u) = life_view l u.
Proof. intros Hn. unfold object_view. destruct (shows_queries _ _ Hn) as (-> & -> & _ & -> & ->). done. Qed.

Lemma same_trans a b c : same_but_queue a b -> same_but_queue b c -> same_but_queue a c.
Proof. unfold same_but_queue. intros (-> & -> & -> & ->). naive_solver congruence. Qed.
Lemma run_handler_shows h n l u a ml s :
  queue_rel a ml -> shows n l ->
  let '(l', u', ml', s') := spec_handler h (l, u) ml s in
  exists n' a', run_handler h (n, u) a s = Some ((n', u'), a', s') /\ shows n' l' /\ queue_rel a' ml' /\ same_but_queue a a'.
Proof.
  revert n l u a ml s. induction h as [|act k IH|ids evs d k IH]; intros n l u a ml s HQ Hn; cbn [spec_handler run_handler].
  - by exists n, a.
  - destruct (run_act_shows act n l u s Hn) as (n' & -> & Hn'). cbn [mbind option_bind]. destruct (spec_act act (l, u) s) as [ [l1 u1] s1]. cbn [fst snd] in *.
    rewrite (view_shows _ _ _ Hn'). by apply IH.
  - destruct (post_queue ids evs d (data_size d) None a ml HQ) as (E & HQ' & HS); [destruct d; cbn; lia..|]. destruct (Post _ _ _ _ _ _) as [ok a1], (mail_post _ _ _ _ _ _) as [ok' ml1].
    cbn [fst snd] in *. subst ok'. specialize (IH ok n l u a1 ml1 s HQ' Hn). destruct (spec_handler _ _ _ _) as [ [ [l' u'] ml'] s']. destruct IH as (n' & a' & E & Hn' & HQ2 & HS2).
    exists n', a'. split_and!; [done..|]. by eapply same_trans.
Qed.

Lemma deliver_shows x rest n l u a ml s :
  queue_rel a ml -> ml = x :: rest -> shows n l ->
  let '(l', u', ml', s') := spec_deliver x (l, u) ml s in
  exists n' a', deliver (n, u) a s = Some ((n', u'), a', s') /\ shows n' l' /\ queue_rel a' ml' /\ same_but_queue a a'.
Proof.
  intros HQ Hml Hn. unfold deliver, spec_deliver. cbn [fst snd]. rewrite Hml in HQ. destruct (head_message_ok a x rest HQ) as (Ht & He & Hd & Hc). rewrite <- Hml in HQ. rewrite Hc, He, Hd.
  destruct (shows_event eBegin _ _ (shows_set_channel (chan x) n l Hn)) as (n1 & E1 & H1). cbn [inst_event] in E1. rewrite E1. cbn [mbind option_bind].
  fold (with_channel (chan x) l) in H1. rewrite (view_shows _ _ u H1).
  pose proof (run_handler_shows (OnMessage (ev x) (bytes x) (life_view (life_event eBegin (with_channel (chan x) l)) u)) n1 _ u a ml s HQ H1) as H2.
  destruct (spec_handler _ _ _ _) as [ [ [l2 u2] ml2] s2]. destruct H2 as (n2 & a2 & -> & H2 & HQ2 & HS2). cbn [mbind option_bind].
  destruct (shows_event eEnd _ _ H2) as (n3 & E3 & H3). cbn [inst_event] in E3. rewrite E3. cbn [mbind option_bind].
  eexists _, _. split; [reflexivity|]. split; [by apply (shows_set_channel None)|done].
Qed.

Lemma slot_ok_frame os os' o x : slot_ok os o x -> (forall ptr, o = Some ptr -> os' !! ptr = os !! ptr) -> slot_ok os' o x.
Proof. unfold slot_ok. destruct o as [ptr|], x as [ [l u]|]; try done. intros (n & Hn & Hs) Hf. exists n. by rewrite Hf. Qed.

Lemma slots_frame os os' ps xs :
  Forall2 (slot_ok os) ps xs -> (forall ptr, ptr ∈ omap id ps -> os' !! ptr = os !! ptr) -> Forall2 (slot_ok os') ps xs.
Proof.
  induction 1 as [|o x ps xs Hox _ IH]; intros Hf; constructor.
  - eapply slot_ok_frame; [exact Hox|]. intros ptr ->. apply Hf. cbn. apply list_elem_of_here.
  - apply IH. intros ptr Hp. apply Hf. destruct o; [by apply list_elem_of_further|done].
Qed.

Lemma deliver_to_shows x ps xs a ml s :
  queue_rel a ml -> (exists rest, ml = x :: rest) -> Forall2 (slot_ok (objects a)) ps xs -> NoDup (omap id ps) ->
  let '(xs', ml', s') := spec_deliver_to xs x ml s in
  exists a', deliver_to ps a s = Some (a', s') /\ Forall2 (slot_ok (objects a')) ps xs' /\ queue_rel a' ml' /\
    pool_ a' = pool_ a /\ instances_ a' = instances_ a /\ instance_count_ a' = instance_count_ a /\ (forall ptr, ptr ∉ omap id ps -> objects a' !! ptr = objects a !! ptr).
Proof.
  revert a xs ml s. induction ps as [|o ps IH]; intros a xs ml s HQ [rest Hml] Hf Hnd; inversion Hf as [|? y ? xs' Hox Hrest]; subst xs; [by exists a|].
  destruct o as [ptr|], y as [ [lf u]|]; cbn in Hox; try done; cbn [deliver_to spec_deliver_to].
  - destruct Hox as (n & Hn & Hs). rewrite Hn. cbn [mbind option_bind]. pose proof (deliver_shows x rest n lf u a ml s HQ Hml Hs) as Hdel. pose proof (spec_deliver_added x (lf, u) ml s) as Ha.
    destruct (spec_deliver x (lf, u) ml s) as [ [ [l1 u1] ml1] s1]. destruct Hdel as (n1 & a1 & -> & Hs1 & HQ1 & (E1 & E2 & E3 & E4)). cbn [mbind option_bind fst snd] in *.
    cbn in Hnd. apply NoDup_cons in Hnd as [Hni Hnd]. specialize (IH (set_object ptr (n1, u1) a1) xs' ml1 s1 (queue_rel_instances _ _ _ _ _ _ HQ1)). cbn [objects set_object set_instances] in IH. rewrite E2 in IH.
    destruct (spec_deliver_to xs' x ml1 s1) as [ [l2 ml2] s2]. destruct IH as (a2 & -> & Hf2 & HQ2 & P1 & P2 & P3 & P4); [|by eapply slots_frame; [exact Hrest|]; intros q Hq; apply lookup_insert_ne; intros <-|done|].
    { destruct Ha as (more & -> & _). rewrite Hml. by eexists. }
    exists a2. split; [done|]. cbn [pool_ instances_ instance_count_ set_object set_instances] in *. split_and!; [|done|congruence..|].
    + constructor; [|done]. exists n1. rewrite P4 by done. by rewrite lookup_insert_eq.
    + intros q Hq. cbn in Hq. rewrite not_elem_of_cons in Hq. rewrite P4 by apply Hq. apply lookup_insert_ne. by destruct Hq.
  - specialize (IH a xs' ml s HQ (ex_intro _ rest Hml) Hrest Hnd). destruct (spec_deliver_to xs' x ml s) as [ [l2 ml2] s2]. destruct IH as (a2 & E & Hf2 & HQ2 & P). exists a2. split; [done|]. split; [by constructor|done].
Qed.

(** *** Slots *)

Lemma slots_lookup os ps xs i : Forall2 (slot_ok os) ps xs ->
  match ps !! i, xs !! i with Some o, Some x => slot_ok os o x | None, None => True | _, _ => False end.
Proof.
  intros Hf. destruct (ps !! i) as [o|] eqn:E1, (xs !! i) as [x|] eqn:E2; [by eapply Forall2_lookup_lr| | |done].
  - destruct (Forall2_lookup_l _ _ _ _ _ Hf E1) as (? & ? & _). congruence.
  - destruct (Forall2_lookup_r _ _ _ _ _ Hf E2) as (? & ? & _). congruence.
Qed.

Lemma slots_find os ps xs : Forall2 (slot_ok os) ps xs ->
  fst <$> list_find (fun o : option Z => o = None) ps = fst <$> list_find (fun o : Slot => o = None) xs.
Proof.
  induction 1 as [|o x ps xs Hox _ IH]; [done|]. cbn [list_find]. destruct o as [ptr|], x as [ [l u]|]; cbn in Hox; try done.
  destruct (decide (Some ptr = None)) as [|_]; [done|]. destruct (decide (Some (l, u) = None)) as [|_]; [done|].
  destruct (list_find _ ps) as [ [i ?]|], (list_find _ xs) as [ [j ?]|]; cbn in *; congruence.
Qed.

Lemma count_put os ps xs : Forall2 (slot_ok os) ps xs -> length (omap id ps) = length (omap id xs).
Proof. induction 1 as [|o x ps xs Hox _ IH]; [done|]. destruct o as [ptr|], x as [ [l u]|]; cbn in Hox |- *; try done. by rewrite IH. Qed.

(** Slot [i] changes, with what the object store holds for it. *)
Lemma slots_put os os' ps xs i o x :
  Forall2 (slot_ok os) ps xs -> slot_ok os' o x -> (forall j ptr, j <> i -> ps !! j = Some (Some ptr) -> os' !! ptr = os !! ptr) ->
  Forall2 (slot_ok os') (<[i := o]> ps) (<[i := x]> xs).
Proof.
  intros Hf Hox Hfr. apply Forall2_same_length_lookup_2; [rewrite !length_insert; by eapply Forall2_length|].
  intros j p y Hp Hy. destruct (decide (j = i)) as [->|Hne].
  - pose proof (Forall2_length _ _ _ Hf). assert (Hi : (i < length ps)%nat) by (apply lookup_lt_Some in Hp; by rewrite length_insert in Hp).
    rewrite list_lookup_insert_eq in Hp by done. rewrite list_lookup_insert_eq in Hy by lia. by simplify_eq.
  - rewrite list_lookup_insert_ne in Hp by done. rewrite list_lookup_insert_ne in Hy by done. eapply slot_ok_frame; [by eapply Forall2_lookup_lr|]. intros ptr ->. by eapply Hfr.
Qed.

Lemma create_rel a sp : app_rel a sp -> exists a', CreateInstance a = Some ((spec_create sp).1, a') /\ app_rel a' (spec_create sp).2.
Proof.
  intros [(fl & Hfl & Hperm) Hsl Hlen Hcnt HQ]. unfold CreateInstance, spec_create. pose proof (slots_find _ _ _ Hsl) as Hfind.
  destruct (list_find (fun o : option Z => o = None) (instances_ a)) as [ [i o]|] eqn:Ef, (list_find (fun o : Slot => o = None) (slots sp)) as [ [j x]|] eqn:Eg;
    cbn in Hfind; simplify_eq; [|exists a; split; [done|]; by (split; [exists fl|..])].
  apply list_find_Some in Ef as (Hi & -> & _). apply list_find_Some in Eg as (Hj & -> & _).
  pose proof (omap_room _ _ Hi) as Hr. pose proof (Permutation_length Hperm) as Hpl. rewrite length_app in Hpl. pose proof pool_capacity as Hcap.
  destruct fl as [|ptr fl]; [cbn in Hpl; lia|]. destruct (pool_create_some _ _ _ Hfl) as [E1 Hfl'].
  destruct (pool_create (pool_ a)) as [c p]. cbn [fst snd] in *. subst c. destruct shows_new as (n & En & Hn). rewrite En. cbn [mbind option_bind].
  assert (Hlt : (j < length (instances_ a))%nat) by (by eapply lookup_lt_Some).
  rewrite (wrap_small 16) by (unfold in_range; lia). eexists. split; [reflexivity|].
  split; cbn [pool_ objects instances_ instance_count_ set_instances slots mail snd]; [| | | |by apply queue_rel_instances].
  - exists fl. split; [done|]. rewrite (omap_put _ _ _ Hi). rewrite <- Hperm. cbn. by rewrite Permutation_middle.
  - apply (slots_put (objects a)); [exact Hsl| |].
    + cbn [slot_ok]. exists (SetInsId (Z.of_nat j + 1) n). rewrite lookup_insert_eq. split; [reflexivity|]. apply (shows_set_id _ n life_new Hn).
    + intros k q Hne Hk. apply lookup_insert_ne. intros <-. pose proof pool_distinct as Hnd. rewrite <- Hperm in Hnd. apply list.NoDup_app in Hnd as (_ & Hd & _).
      apply (Hd ptr); [|apply list_elem_of_here]. apply list_elem_of_omap. exists (Some ptr). split; [by eapply list_elem_of_lookup_2|done].
  - by rewrite length_insert.
  - rewrite Hcnt. rewrite (Permutation_length (omap_put _ _ _ Hj)). cbn. rewrite <- (count_put _ _ _ Hsl). rewrite wrap_small by (unfold in_range; lia). lia.
Qed.

Lemma get_slot os ps xs i :
  Forall2 (slot_ok os) ps xs -> slot_ok os (match ps !! i with Some o => o | None => None end) (match xs !! i with Some x => x | None => None end).
Proof. intros Hf. pose proof (slots_lookup os ps xs i Hf) as Hl. destruct (ps !! i), (xs !! i); done. Qed.

Lemma instance_at_ok {A} (l : list A) id : Z.of_nat (length l) = MaxInstances -> (id =? 0) || (MaxInstances <? id) = false -> 0 <= id -> instance_at l (id - 1) = l !! Z.to_nat (id - 1) /\ is_Some (l !! Z.to_nat (id - 1)).
Proof.
  intros Hl Hg Hid. apply orb_false_iff in Hg as [H0%Z.eqb_neq H1%Z.ltb_ge]. unfold instance_at. destruct (Z.ltb_spec (id - 1) 0); [lia|]. split; [done|]. apply lookup_lt_is_Some. lia.
Qed.
(** The guard of GetInstance keeps the access inside the array. *)
Lemma u16_nonneg id : 0 <= u16 id.
Proof. unfold wrap. apply Z.mod_pos_bound. lia. Qed.
(** The guard of GetInstance keeps the access inside the array. *)
Lemma instance_rel id a sp : app_rel a sp ->
  exists o, GetInstance id a = Some o /\ slot_ok (objects a) o (spec_slot id sp) /\ (forall ptr, o = Some ptr -> instances_ a !! Z.to_nat (u16 id - 1) = Some (Some ptr)).
Proof.
  intros Hr. unfold GetInstance, spec_slot. cbv zeta. destruct (_ || _) eqn:G; [by eexists|]. destruct (instance_at_ok (instances_ a) (u16 id) (ar_max _ _ Hr) G (u16_nonneg id)) as [-> [o Ho]].
  exists o. split; [done|]. pose proof (get_slot _ _ _ (Z.to_nat (u16 id - 1)) (ar_slots _ _ Hr)) as Hs. rewrite Ho in Hs. split; [exact Hs|]. by intros ptr ->.
Qed.

(** The addresses in the slots are different blocks. *)
Lemma app_ptrs a sp : app_rel a sp -> NoDup (omap id (instances_ a)) /\ (forall ptr, ptr ∈ omap id (instances_ a) -> ptr ∈ pool_blocks).
Proof.
  intros Hr. destruct (ar_pool _ _ Hr) as (fl & _ & Hp). pose proof pool_distinct as Hnd. rewrite <- Hp in Hnd. apply list.NoDup_app in Hnd as (? & _ & _).
  split; [done|]. intros ptr Hptr. rewrite <- Hp. apply elem_of_app. by left.
Qed.

Lemma elem_omap (ps : list (option Z)) i ptr : ps !! i = Some (Some ptr) -> ptr ∈ omap id ps.
Proof. intros Hi. apply list_elem_of_omap. exists (Some ptr). split; [by eapply list_elem_of_lookup_2|done]. Qed.

Lemma ptrs_differ (ps : list (option Z)) i j ptr : NoDup (omap id ps) -> ps !! i = Some (Some ptr) -> ps !! j = Some (Some ptr) -> i = j.
Proof.
  revert i j. induction ps as [|o ps IH]; intros i j Hnd Hi Hj; [done|]. destruct o as [q|].
  - cbn in Hnd. apply NoDup_cons in Hnd as [Hn Hnd]. destruct i, j; simplify_eq/=; [done|by destruct Hn; eapply elem_omap..|]. f_equal. by apply IH.
  - destruct i, j; simplify_eq/=. f_equal. by apply IH.
Qed.

Lemma destroy_rel id a sp :
  app_rel a sp -> exists a', DestroyInstance id a = Some ((spec_destroy id sp).1, a') /\ app_rel a' (spec_destroy id sp).2.
Proof.
  intros Hr. unfold DestroyInstance, spec_destroy, spec_slot, put_slot. cbv zeta. destruct ((u16 id =? 0) || (MaxInstances <? u16 id)) eqn:G; [by exists a|].
  destruct (instance_at_ok (instances_ a) (u16 id) (ar_max _ _ Hr) G (u16_nonneg id)) as [-> [o Hi]]. rewrite Hi. cbn [mbind option_bind].
  pose proof (slots_lookup _ _ _ (Z.to_nat (u16 id - 1)) (ar_slots _ _ Hr)) as Hl. set (i := Z.to_nat (u16 id - 1)) in *. rewrite Hi in Hl.
  destruct o as [ptr|], (slots sp !! i) as [ [ [l u]|]|] eqn:Hx; cbn in Hl; try done; [|by exists a..].
  destruct (app_ptrs a sp Hr) as [Hnd Hin]. destruct Hr as [(fl & Hfl & Hperm) Hsl Hlen Hcnt HQ].
  assert (Hn : ptr ∉ fl).
  { pose proof pool_distinct as Hd. rewrite <- Hperm in Hd. apply list.NoDup_app in Hd as (_ & Hd & _). apply Hd. by eapply elem_omap. }
  destruct (pool_destroy_ok _ ptr fl Hfl (Hin _ (elem_omap _ _ _ Hi)) Hn) as (p' & E & Hfl'). rewrite E. cbn [mbind option_bind]. eexists. split; [reflexivity|].
  split; cbn [pool_ objects instances_ instance_count_ set_instances slots mail put_slot snd]; [| | | |by apply queue_rel_instances].
  - exists (ptr :: fl). split; [done|]. rewrite <- Hperm, (omap_take _ _ _ Hi). cbn. by rewrite Permutation_middle.
  - apply (slots_put (objects a)); [exact Hsl|done|]. intros j q Hne Hj. apply lookup_delete_ne. intros <-. apply Hne. by eapply ptrs_differ.
  - by rewrite length_insert.
  - rewrite Hcnt, (Permutation_length (omap_take _ _ _ Hx)). cbn [length]. rewrite wrap_small; [lia|].
    pose proof (count_put _ _ _ Hsl) as Hc. rewrite (Permutation_length (omap_take _ _ _ Hx)) in Hc. cbn [length] in Hc.
    pose proof (Permutation_length Hperm) as Hpl. rewrite length_app in Hpl. pose proof pool_capacity. unfold in_range. lia.
Qed.

(** *** Processing *)

Lemma objects_rel a sp os xs :
  app_rel a sp -> Forall2 (slot_ok os) (instances_ a) xs -> app_rel (set_instances (pool_ a) os (instances_ a) (instance_count_ a) a) (mkSpecApp xs (mail sp)).
Proof.
  intros [Hp Hsl Hmx Hcnt HQ] Hf. split; cbn; try done; [by rewrite Hcnt, <- (count_put _ _ _ Hsl), <- (count_put _ _ _ Hf)|by apply queue_rel_instances].
Qed.

(** A call from outside to one instance. *)
Lemma put_rel a sp i o u n l ptr :
  app_rel a sp -> instances_ a !! i = Some (Some ptr) -> o = (n, u) -> shows n l ->
  app_rel (set_object ptr o a) (mkSpecApp (<[i := Some (l, u)]> (slots sp)) (mail sp)).
Proof.
  intros Hr Hi -> Hn. destruct (app_ptrs a sp Hr) as [Hnd _]. apply objects_rel; [done|].
  rewrite <- (list_insert_id (instances_ a) i (Some ptr) Hi) at 1. apply (slots_put (objects a)); [apply (ar_slots _ _ Hr)| |].
  - cbn. exists n. by rewrite lookup_insert_eq.
  - intros j q Hne Hj. apply lookup_insert_ne. intros <-. apply Hne. by eapply ptrs_differ.
Qed.
(** A delivery to one instance, which may have posted. *)
Lemma put_posted_rel a a' sp i o u n l ptr ml :
  app_rel a sp -> same_but_queue a a' -> queue_rel a' ml -> instances_ a !! i = Some (Some ptr) -> o = (n, u) -> shows n l ->
  app_rel (set_object ptr o a') (mkSpecApp (<[i := Some (l, u)]> (slots sp)) ml).
Proof.
  intros [Hp Hsl Hmx Hcnt HQ] (E1 & E2 & E3 & E4) HQ' Hi Ho Hn. refine (put_rel a' (mkSpecApp (slots sp) ml) i o u n l ptr _ _ Ho Hn); [|by rewrite E3]. by split; cbn [slots mail]; rewrite ?E1, ?E2, ?E3, ?E4.
Qed.

Lemma deliver_rel a sp s x rest :
  app_rel a sp -> mail sp = x :: rest ->
  exists a', ProcessDeliver a s = Some (a', (spec_handle x sp s).2) /\ app_rel a' (spec_handle x sp s).1.
Proof.
  intros Hr Hm. pose proof (ar_mailbox _ _ Hr) as HQ. rewrite Hm in HQ. pose proof (head_message_ok a x rest HQ) as Hok. rewrite <- Hm in HQ.
  unfold ProcessDeliver, spec_handle. rewrite (proj1 Hok). destruct (app_ptrs a sp Hr) as [Hnd _]. destruct (to x =? kInsEach).
  - pose proof (deliver_to_shows x _ _ a _ s HQ (ex_intro _ rest Hm) (ar_slots _ _ Hr) Hnd) as Hd. destruct (spec_deliver_to (slots sp) x (mail sp) s) as [ [xs' ml'] s'].
    destruct Hd as (a' & -> & Hf & HQ' & E1 & E2 & E3 & _). exists a'. split; [done|]. destruct Hr as [Hp Hsl Hmx Hcnt _]. split; cbn [slots mail fst]; rewrite ?E1, ?E2, ?E3; try done.
    by rewrite Hcnt, <- (count_put _ _ _ Hsl), <- (count_put _ _ _ Hf).
  - destruct (instance_rel (to x) a sp Hr) as (o & -> & Hs & Hi). cbn [mbind option_bind]. destruct o as [ptr|], (spec_slot (to x) sp) as [ [l u]|]; cbn in Hs; try done; [|by exists a].
    destruct Hs as (n & Hn & Hs). cbn [deliver_to]. rewrite Hn. cbn [mbind option_bind]. pose proof (deliver_shows x rest n l u a _ s HQ Hm Hs) as Hd.
    destruct (spec_deliver x (l, u) (mail sp) s) as [ [ [l' u'] ml'] s']. destruct Hd as (n' & a' & -> & Hs' & HQ' & HS). cbn [mbind option_bind deliver_to]. eexists. split; [reflexivity|].
    eapply put_posted_rel; eauto.
Qed.

Lemma finish_rel a sp s x rest :
  app_rel a sp -> mail sp = x :: rest -> (ProcessFinish a s).2 = (spec_finish sp s).2 /\ app_rel (ProcessFinish a s).1 (spec_finish sp s).1.
Proof.
  intros [Hp Hsl Hmx Hcnt HQ] Hm. unfold ProcessFinish, spec_finish. rewrite Hm in *. destruct (head_message_ok a x rest HQ) as (_ & _ & _ & ->). split; [cbn; destruct (chan x); [apply release_spec|done]|].
  split; cbn [slots mail fst]; try done. destruct HQ as [Hq Hh Ht Hroom Hmail]. rewrite (ring_next _ Hh). cbn [length] in *.
  split; cbn [queue_ queue_head_ queue_tail_ set_queue]; [done| | | |].
  - apply Z.mod_pos_bound. lia.
  - rewrite Ht, Zplus_mod_idemp_l. f_equal. lia.
  - lia.
  - intros j y Hj. rewrite Zplus_mod_idemp_l. replace (queue_head_ a + 1 + Z.of_nat j) with (queue_head_ a + Z.of_nat (S j)) by lia. by apply Hmail.
Qed.

Lemma empty_rel a sp : app_rel a sp -> (queue_head_ a =? queue_tail_ a) = match mail sp with [] => true | _ => false end.
Proof.
  intros [_ _ _ _ [_ Hh Ht Hroom _] ]. rewrite Ht. destruct (mail sp) as [|x rest]; cbn [length] in *.
  - rewrite Z.add_0_r, Z.mod_small by lia. apply Z.eqb_refl.
  - apply Z.eqb_neq. rewrite <- (Z.mod_small (queue_head_ a) DEPTH) at 1 by lia. rewrite <- (Z.add_0_r (queue_head_ a)) at 1. apply ring_ne; lia.
Qed.

Lemma process_one_rel a sp s :
  app_rel a sp ->
  exists a', ProcessOne a s = Some ((spec_process sp s).1.1, a', (spec_process sp s).2) /\ app_rel a' (spec_process sp s).1.2.
Proof.
  intros Hr. unfold ProcessOne, spec_process. rewrite (empty_rel a sp Hr). destruct (mail sp) as [|x rest] eqn:Hm; [by exists a|].
  destruct (deliver_rel a sp s x rest Hr Hm) as (a1 & -> & Hr1). cbn [mbind option_bind]. destruct (spec_handle_added x sp s) as (more & Hm1 & _).
  destruct (spec_handle x sp s) as [sp1 s1]. cbn [fst snd] in *. rewrite Hm in Hm1. destruct (finish_rel a1 sp1 s1 x (rest ++ more) Hr1 Hm1) as [E Hr2].
  destruct (ProcessFinish a1 s1) as [a2 s2]. destruct (spec_finish sp1 s1) as [sp2 s2']. cbn [fst snd] in *. subst s2'. by exists a2.
Qed.

Lemma pending_rel a sp : app_rel a sp -> PendingMessages a = Z.of_nat (length (mail sp)).
Proof.
  intros [_ _ _ _ [_ Hh Ht Hroom _] ]. unfold PendingMessages. rewrite Ht. set (n := Z.of_nat (length (mail sp))) in *.
  destruct (decide (queue_head_ a + n < DEPTH)).
  - rewrite Z.mod_small by lia. destruct (Z.leb_spec (queue_head_ a) (queue_head_ a + n)); lia.
  - replace (queue_head_ a + n) with (queue_head_ a + n - DEPTH + 1 * DEPTH) by lia. rewrite Z.mod_add, Z.mod_small by lia.
    destruct (Z.leb_spec (queue_head_ a) (queue_head_ a + n - DEPTH)); [lia|]. rewrite wrap_small by (unfold in_range; lia). lia.
Qed.

Lemma process_all_rel fuel a sp s :
  app_rel a sp ->
  exists a', ProcessAll fuel a s = Some ((fun n => u32 (Z.of_nat n)) <$> (spec_all fuel sp s).1.1, a', (spec_all fuel sp s).2) /\ app_rel a' (spec_all fuel sp s).1.2.
Proof.
  revert a sp s. induction fuel as [|fuel IH]; intros a sp s Hr; [by exists a|]. cbn [ProcessAll spec_all]. destruct (process_one_rel a sp s Hr) as (a1 & -> & Hr1). cbn [mbind option_bind].
  destruct (spec_process sp s) as [ [ [] sp1] s1]; cbn [fst snd] in *; [|by exists a1]. destruct (IH a1 sp1 s1 Hr1) as (a2 & -> & Hr2). cbn [mbind option_bind].
  destruct (spec_all fuel sp1 s1) as [ [n sp2] s2]. exists a2. split; [|done]. cbn [fst snd]. do 3 f_equal. destruct n as [n|]; [|done]. cbn. f_equal.
  unfold wrap. rewrite Zplus_mod_idemp_l. f_equal. lia.
Qed.

(** Handlers that do not post: the mail gets shorter with every message, and ProcessAll
    returns. *)
Fixpoint silent (h : MsgHandler) : Prop := match h with HReturn => True | HDo act k => forall v, silent (k v) | HPost _ _ _ _ => False end.
Context (quiet := forall e d v, silent (OnMessage e d v)).
Lemma silent_handler h o ml s : silent h -> (spec_handler h o ml s).1.2 = ml.
Proof.
  revert o ml s. induction h as [|act k IH|]; intros o ml s Hh; [done| |done]. cbn [spec_handler]. destruct (spec_act act o s) as [o' s']. apply IH, Hh.
Qed.
Lemma silent_deliver x o ml s : quiet -> (spec_deliver x o ml s).1.2 = ml.
Proof.
  intros Hq. unfold spec_deliver. cbv zeta. match goal with |- context [spec_handler ?h ?o' ml s] => pose proof (silent_handler h o' ml s (Hq _ _ _)) as A end. by destruct (spec_handler _ _ _ _) as [ [ [l u] ml'] s'].
Qed.
Lemma silent_deliver_to l x ml s : quiet -> (spec_deliver_to l x ml s).1.2 = ml.
Proof.
  intros Hq. revert ml s. induction l as [|[o|] l IH]; intros ml s; cbn [spec_deliver_to]; [done| |].
  - pose proof (silent_deliver x o ml s Hq) as A. destruct (spec_deliver x o ml s) as [ [o' ml1] s1]. cbn in A. subst ml1. pose proof (IH ml s1) as B. by destruct (spec_deliver_to l x ml s1) as [ [l2 ml2] s2].
  - pose proof (IH ml s) as B. by destruct (spec_deliver_to l x ml s) as [ [l2 ml2] s2].
Qed.
Lemma silent_handle x sp s : quiet -> mail (spec_handle x sp s).1 = mail sp.
Proof.
  intros Hq. unfold spec_handle. destruct (_ =? _); [pose proof (silent_deliver_to (slots sp) x (mail sp) s Hq) as A; by destruct (spec_deliver_to _ _ _ _) as [ [] ]|].
  destruct (spec_slot _ _) as [o|]; [|done]. pose proof (silent_deliver x o (mail sp) s Hq) as A. by destruct (spec_deliver _ _ _ _) as [ [] ].
Qed.
Lemma silent_all fuel sp s : quiet -> (length (mail sp) < fuel)%nat -> (spec_all fuel sp s).1.1 = Some (length (mail sp)) /\ mail (spec_all fuel sp s).1.2 = [].
Proof.
  intros Hq. revert sp s. induction fuel as [|fuel IH]; intros sp s Hf; [lia|]. cbn [spec_all]. unfold spec_process. destruct (mail sp) as [|x rest] eqn:Hm; [done|].
  pose proof (silent_handle x sp s Hq) as Hh. destruct (spec_handle x sp s) as [sp1 s1]. cbn [fst] in Hh. unfold spec_finish. rewrite Hh, Hm. cbn [length] in Hf.
  match goal with |- context [spec_all fuel ?sp2 ?s2] => destruct (IH sp2 s2) as [E1 E2]; [cbn; lia|]; destruct (spec_all fuel sp2 s2) as [ [n sp3] s3] end.
  cbn [fst snd mail] in *. by rewrite E1.
Qed.
Lemma process_all_returns a sp s : quiet -> app_rel a sp ->
  exists a' s', ProcessAll (Z.to_nat DEPTH) a s = Some (Some (PendingMessages a), a', s') /\ PendingMessages a' = 0.
Proof.
  intros Hq Hr. pose proof (qr_room _ _ (ar_mailbox _ _ Hr)) as Hroom. destruct (process_all_rel (Z.to_nat DEPTH) a sp s Hr) as (a' & -> & Hr').
  destruct (silent_all (Z.to_nat DEPTH) sp s Hq) as [E1 E2]; [lia|]. rewrite E1. cbn [fmap option_fmap option_map]. rewrite (pending_rel a sp Hr). eexists _, _. split; [rewrite wrap_small by (unfold in_range; lia); reflexivity|].
  rewrite (pending_rel a' _ Hr'), E2. done.
Qed.

Lemma call_rel id act a sp s :
  app_rel a sp -> exists a', CallInstance id act a s = Some (a', (spec_call id act sp s).2) /\ app_rel a' (spec_call id act sp s).1.
Proof.
  intros Hr. unfold CallInstance, spec_call, put_slot. destruct (instance_rel id a sp Hr) as (o & -> & Hs & Hi). cbn [mbind option_bind].
  destruct o as [ptr|], (spec_slot id sp) as [ [l u]|]; cbn in Hs; try done; [|by exists a].
  destruct Hs as (n & Hn & Hs). rewrite Hn. cbn [mbind option_bind]. destruct (run_act_shows act n l u s Hs) as (n' & -> & Hs'). cbn [mbind option_bind].
  destruct (spec_act act (l, u) s) as [ [l' u'] s']. eexists. split; [reflexivity|]. eapply put_rel; eauto.
Qed.

Lemma view_rel id a sp : app_rel a sp -> InstanceView id a = Some ((fun '(l, u) => life_view l u) <$> spec_slot id sp).
Proof.
  intros Hr. unfold InstanceView. destruct (instance_rel id a sp Hr) as (o & -> & Hs & _). cbn [mbind option_bind]. destruct o as [ptr|], (spec_slot id sp) as [ [l u]|]; cbn in Hs; try done.
  destruct Hs as (n & Hn & Hs). rewrite Hn. cbn [mbind option_bind]. by rewrite (view_shows n l u Hs).
Qed.

Lemma app_ctor_rel i p : pool_free p pool_blocks -> app_rel (Application_ctor i p) spec_new.
Proof.
  intros Hp. assert (E : forall A n, omap id (replicate n (@None A)) = []) by (induction n as [|n IH]; [done|exact IH]). split; cbn.
  - exists pool_blocks. rewrite E. done.
  - induction (Z.to_nat MaxInstances); [constructor|by constructor].
  - rewrite length_replicate. lia.
  - by rewrite E.
  - split; cbn; [|lia|by rewrite Z.mod_0_l by lia|lia|done]. split; [rewrite length_replicate; lia|]. apply Forall_replicate. cbn. rewrite length_replicate. lia.
Qed.

(** ** Calls *)

Inductive AppOp :=
| OCreate | ODestroy (id : Z) | OPost (id ev : Z) (d : option (list Z)) (len : Z) (ch : option nat) | OProcessOne | OProcessAll (fuel : nat)
| OCall (id : Z) (act : InstAct) | OView (id : Z) | OPending | OCount.
Inductive AppRes := RId (r : Z + AppError) | RErr (e : option AppError) | RBool (b : bool) | RNum (n : Z) | RView (v : option View) | RDone | RRunning.

Definition app_op (o : AppOp) (a : Application) (s : Channels) : option (AppRes * Application * Channels) :=
  match o with
  | OCreate => '(r, a) ← CreateInstance a; Some (RId r, a, s)
  | ODestroy id => '(r, a) ← DestroyInstance id a; Some (RErr r, a, s)
  | OPost id ev d len ch => let '(r, a) := Post id ev d len ch a in Some (RBool r, a, s)
  | OProcessOne => '(r, a, s) ← ProcessOne a s; Some (RBool r, a, s)
  | OProcessAll fuel => '(r, a, s) ← ProcessAll fuel a s; Some (match r with Some n => RNum n | None => RRunning end, a, s)
  | OCall id act => '(a, s) ← CallInstance id act a s; Some (RDone, a, s)
  | OView id => v ← InstanceView id a; Some (RView v, a, s)
  | OPending => Some (RNum (PendingMessages a), a, s)
  | OCount => Some (RNum (InstanceCount a), a, s)
  end.
Definition spec_op (o : AppOp) (sp : SpecApp) (s : Channels) : AppRes * SpecApp * Channels :=
  match o with
  | OCreate => let '(r, sp) := spec_create sp in (RId r, sp, s)
  | ODestroy id => let '(r, sp) := spec_destroy id sp in (RErr r, sp, s)
  | OPost id ev d len ch => let '(r, sp) := spec_post id ev d len ch sp in (RBool r, sp, s)
  | OProcessOne => let '(r, sp, s) := spec_process sp s in (RBool r, sp, s)
  | OProcessAll fuel => let '(r, sp, s) := spec_all fuel sp s in (match r with Some n => RNum (u32 (Z.of_nat n)) | None => RRunning end, sp, s)
  | OCall id act => let '(sp, s) := spec_call id act sp s in (RDone, sp, s)
  | OView id => (RView ((fun '(l, u) => life_view l u) <$> spec_slot id sp), sp, s)
  | OPending => (RNum (Z.of_nat (length (mail sp))), sp, s)
  | OCount => (RNum (Z.of_nat (length (omap id (slots sp)))), sp, s)
  end.
(** A run of calls ends with one that has not returned yet. *)
Fixpoint app_run (ops : list AppOp) (a : Application) (s : Channels) : option (list AppRes * Application * Channels) :=
  match ops with [] => Some ([], a, s) | o :: ops => '(r, a, s) ← app_op o a s; match r with RRunning => Some ([r], a, s) | _ => '(rs, a, s) ← app_run ops a s; Some (r :: rs, a, s) end end.
Fixpoint spec_run (ops : list AppOp) (sp : SpecApp) (s : Channels) : list AppRes * SpecApp * Channels :=
  match ops with [] => ([], sp, s) | o :: ops => let '(r, sp, s) := spec_op o sp s in match r with RRunning => ([r], sp, s) | _ => let '(rs, sp, s) := spec_run ops sp s in (r :: rs, sp, s) end end.

(** The data of a message is as long as stated. *)
Definition post_ok (o : AppOp) : Prop :=
  match o with OPost _ _ d len _ => 0 <= len /\ (match d with Some b => len <= Z.of_nat (length b) | None => True end) | _ => True end.

Lemma app_op_rel o a sp s :
  app_rel a sp -> post_ok o -> exists a', app_op o a s = Some ((spec_op o sp s).1.1, a', (spec_op o sp s).2) /\ app_rel a' (spec_op o sp s).1.2.
Proof.
  intros Hr Ho. destruct o as [|id|id ev d len ch| |fuel|id act|id| |]; cbn [app_op spec_op].
  - destruct (create_rel a sp Hr) as (a' & -> & Hr'). cbn. destruct (spec_create sp). by exists a'.
  - destruct (destroy_rel id a sp Hr) as (a' & -> & Hr'). cbn. destruct (spec_destroy id sp). by exists a'.
  - destruct Ho as [H1 H2]. destruct (post_rel id ev d len ch a sp Hr H1 H2) as [E Hr']. destruct (Post _ _ _ _ _ _) as [r a'], (spec_post _ _ _ _ _ _) as [r' sp'].
    cbn [fst snd] in *. subst. by exists a'.
  - destruct (process_one_rel a sp s Hr) as (a' & -> & Hr'). cbn. destruct (spec_process sp s) as [ [r sp'] s']. by exists a'.
  - destruct (process_all_rel fuel a sp s Hr) as (a' & -> & Hr'). cbn. destruct (spec_all _ _ _) as [ [ [n|] sp'] s']; by exists a'.
  - destruct (call_rel id act a sp s Hr) as (a' & -> & Hr'). cbn [mbind option_bind]. destruct (spec_call id act sp s). by exists a'.
  - rewrite (view_rel id a sp Hr). cbn. by exists a.
  - rewrite (pending_rel a sp Hr). by exists a.
  - unfold InstanceCount. rewrite (ar_count _ _ Hr). by exists a.
Qed.

Lemma app_run_rel ops a sp s :
  app_rel a sp -> Forall post_ok ops -> exists a', app_run ops a s = Some ((spec_run ops sp s).1.1, a', (spec_run ops sp s).2) /\ app_rel a' (spec_run ops sp s).1.2.
Proof.
  intros Hr Hops. revert a sp s Hr. induction Hops as [|o ops Ho _ IH]; intros a sp s Hr; [by exists a|]. cbn [app_run spec_run].
  destruct (app_op_rel o a sp s Hr Ho) as (a1 & -> & Hr1). cbn [mbind option_bind]. destruct (spec_op o sp s) as [ [r sp1] s1]. cbn [fst snd] in *.
  destruct (IH a1 sp1 s1 Hr1) as (a2 & -> & Hr2). destruct r; cbn; try by exists a1. all: destruct (spec_run ops sp1 s1) as [ [rs sp2] s2]; by exists a2.
Qed.

(** C20. Refinement: whatever the message handlers do - firing events, setting states,
    replying, changing their own data, posting messages to the application and reacting to
    what these calls return - an application behaves as slots with the life of each
    instance and a first-in first-out mailbox of depth less one: every call returns what
    the specification returns, messages reach the addressed instance or all of them in slot
    order with their data intact, no access leaves the arrays, the pool is never short of a
    block for a free slot, no assertion fails, and the response channels end up the same.
    ProcessAll runs on while handlers post ([reposting_never_ends]); when they do not, it
    returns after the messages that were pending, and leaves none.  The length given to
    Post is at most that of the data; a response channel is not posted by handlers. *)
Theorem application_refines ops i p s :
  pool_free p pool_blocks -> Forall post_ok ops ->
  exists a, app_run ops (Application_ctor i p) s = Some ((spec_run ops spec_new s).1.1, a, (spec_run ops spec_new s).2) /\
    ((forall e d v, silent (OnMessage e d v)) -> forall s1, exists a' s2, ProcessAll (Z.to_nat DEPTH) a s1 = Some (Some (PendingMessages a), a', s2) /\ PendingMessages a' = 0).
Proof.
  intros Hp Hops. destruct (app_run_rel ops _ _ s (app_ctor_rel i p Hp) Hops) as (a & -> & Hr). exists a. split; [done|]. intros Hq s1. by eapply process_all_returns.
Qed.

End Application.
Arguments InstAct : clear implicits.
Arguments MsgHandler : clear implicits.
Arguments AppOp : clear implicits.
Arguments pool_free {MaxInstances Pool _} _ _.
Arguments pool_blocks {MaxInstances Pool _}.

(** ** The object pool as the pool of instances

    The first word of an instance is a pointer that does not change, here [0]. *)

Section Pool.
Context (BlockSize MaxInstances align_bits storage_ : Z).
Context (Hblock : 4 <= BlockSize) (Hmax : 1 <= MaxInstances <= MemPool.kFreeIndexMask) (Halign : 0 <= align_bits) (Hstore : 0 < storage_).

#[refine] Definition object_pool : InstancePool MaxInstances MemPool.ObjectPool := {|
  pool_create := MemPool.Create BlockSize align_bits storage_ 0;
  pool_destroy := MemPool.Destroy BlockSize MaxInstances align_bits storage_;
  pool_blocks := MemPool.blocks BlockSize MaxInstances align_bits storage_;
  pool_free := MemPool.pool_rel BlockSize MaxInstances align_bits storage_
|}.
Proof.
  - unfold MemPool.blocks. rewrite length_fmap, length_seqZ. lia.
  - apply NoDup_fmap_2_strong; [|apply NoDup_seqZ]. intros i j _ _. by apply MemPool.BlockPtr_inj.
  - intros p (fl & E & Ho). destruct fl; [|done]. by rewrite (MemPool.Create_empty _ _ _ _ _ _ Ho).
  - intros p x fl (gl & E & Ho). destruct gl as [|j gl]; [done|]. cbn in E. injection E as -> ->.
    destruct (MemPool.Create_pop BlockSize MaxInstances align_bits storage_ Hblock Hmax Halign 0 p j gl Ho) as (o' & -> & Ho'). split; [done|]. by exists gl.
  - intros p x fl (gl & -> & Ho) Hx Hn. apply MemPool.elem_of_blocks in Hx as (j & -> & Hj).
    assert (Hj' : j ∉ gl) by (intros Hc; apply Hn; by apply list_elem_of_fmap_2).
    destruct (MemPool.Destroy_push BlockSize MaxInstances align_bits storage_ Hblock Hmax Halign Hstore p j gl Ho Hj Hj') as (o' & -> & Ho'). exists o'. split; [done|]. by exists (j :: gl).
Defined.
End Pool.

(** ** A run: handlers that note the event and act on it *)

Section Demo.
Fixpoint perform {U} (l : list (InstAct U)) (h : MsgHandler U) : MsgHandler U := match l with [] => h | a :: l => HDo a (fun _ => perform l h) end.
Definition demo_handler (ev : Z) (d : list Z) (v : @View (list Z)) : MsgHandler (list Z) :=
  perform (AUser (fun u => u ++ [ev]) ::
    (if ev =? 1 then [AReply (Some d) (Z.of_nat (length d)); ASetState 7] else if ev =? 2 then [AEvent eSuspend] else if ev =? 3 then [AEvent (eMarkError true)] else []))
    (if ev =? 1 then HPost 2 4 (Some d) (fun ok => HDo (AUser (fun u => u ++ [if ok then 1 else 0])) (fun _ => HReturn)) else HReturn).
Definition demo_pool : InstancePool 3 MemPool.ObjectPool := object_pool 64 3 4 4096 ltac:(lia) ltac:(unfold MemPool.kFreeIndexMask; lia) ltac:(lia) ltac:(lia).
#[local] Existing Instance demo_pool.
Definition demo_storage : MemPool.ObjectPool := MemPool.ObjectPool_ctor 3 [0; 0; 0].
Definition demo_ops : list (AppOp (list Z)) :=
  [OCreate; OCreate; OCall 1 (AEvent eInitialize); OCall 2 (AEvent eInitialize); OPost 1 1 (Some [5; 6]) 2 (Some 0%nat); OPost kInsEach 2 None 0 None;
   OPending; OProcessAll 4; OView 1; OView 3; ODestroy 1; OCreate; OCreate; OCreate; OCount; ODestroy 4; OPost 2 3 None 0 None; OProcessOne; OView 2; OProcessOne].

Lemma application_refines_witness :
  pool_free demo_storage pool_blocks /\ Forall post_ok demo_ops /\
  exists a, app_run [] 8 4 3 demo_handler demo_ops (Application_ctor 8 4 3 9 demo_storage) (mkChannels [Some new_channel] false) =
    Some ((spec_run [] 8 4 3 demo_handler demo_ops (spec_new 3) (mkChannels [Some new_channel] false)).1.1, a,
          (spec_run [] 8 4 3 demo_handler demo_ops (spec_new 3) (mkChannels [Some new_channel] false)).2) /\
    ((forall e d v, silent (demo_handler e d v)) -> forall s1, exists a' s2, ProcessAll 8 4 3 demo_handler 4 a s1 = Some (Some (PendingMessages 4 a), a', s2) /\ PendingMessages 4 a' = 0).
Proof.
  assert (Hp : pool_free demo_storage pool_blocks) by (apply (MemPool.ObjectPool_ctor_rel 64 3 4 4096); [unfold MemPool.kFreeIndexMask; lia|done]).
  assert (Ho : Forall post_ok demo_ops) by (repeat constructor; cbn; lia).
  split; [exact Hp|]. split; [exact Ho|]. apply (application_refines [] 8 4 3 demo_handler); [unfold kMaxDataLen; lia|lia|lia|exact Hp|exact Ho].
Defined.

Lemma demo_results :
  (spec_run [] 8 4 3 demo_handler demo_ops (spec_new 3) (mkChannels [Some new_channel] false)).1.1 =
  [RId (inl 1); RId (inl 2); RDone; RDone; RBool true; RBool true; RNum 2; RNum 3; RView (Some (mkView 2 dSuspended 1 false [1; 1; 2])); RView None;
   RErr None; RId (inl 1); RId (inl 3); RId (inr kInstancePoolFull); RNum 3; RErr (Some kInvalidId); RBool true; RBool true;
   RView (Some (mkView 3 dFatal 2 false [2; 4; 3])); RBool false].
Proof. vm_compute. reflexivity. Qed.

(** A handler that answers each message with another one keeps ProcessAll busy for ever. *)
Definition reposting (ev : Z) (d : list Z) (v : @View unit) : MsgHandler unit := HPost 1 ev None (fun _ => HReturn).
Lemma reposting_never_ends fuel l m s : to m = 1 ->
  (spec_all 8 4 3 reposting fuel (mkSpecApp [Some (l, tt); None; None] [m]) s).1.1 = None.
Proof.
  revert l m s. induction fuel as [|fuel IH]; intros l [t e b c] s E; cbn in E; subst t; [done|]. cbn [spec_all]. set (F := spec_all 8 4 3 reposting fuel) in *. clearbody F.
  vm_compute. match goal with |- context [F ?a ?b] => assert (H : (F a b).1.1 = None) by (apply IH; reflexivity); destruct (F a b) as [ [ [] ] ] end; done.
Qed.

(** Messages are handed to instances that are suspended, failed or not even initialized. *)
Lemma suspended_instance_gets_messages :
  (spec_run [] 8 4 3 demo_handler [OCreate; OCall 1 (AEvent eInitialize); OCall 1 (AEvent eSuspend); OPost 1 2 None 0 None; OProcessOne; OView 1]
     (spec_new 3) (mkChannels [] false)).1.1 =
  [RId (inl 1); RDone; RDone; RBool true; RBool true; RView (Some (mkView 2 dSuspended 1 false [2]))].
Proof. vm_compute. reflexivity. Qed.
End Demo.
