(* ===== verification/Post.v ===== *)
(** * Posting and request-response (include/osp/post.hpp)

    The registry that routes messages to applications (App.v), and OspSendAndWait: any
    number of callers, each with a reference-counted response channel, interleaved with
    the threads that process the applications' queues.  A step is one call on shared
    state: the post, taking a reference, the wait, giving it back; the processing of a
    message is two steps, up to the last handler and the release with the advance of
    the queue.  Handlers post to their own application, without a response channel; what
    they post to another one is a post of a thread here. *)

From Stdlib Require Import ZArith Lia Bool.
From stdpp Require Import base numbers list option gmap.
From S2P Require Import Prelude Instance App.

Open Scope Z_scope.

Inductive PostError := kAppNotFound | kInstanceNotFound | kQueueFull | kTimeout | kNotRegistered | kSendFailed | kAllocFailed.

(** ** The registry *)

Definition OSP_POST_MAX_APPS : nat := 64.
(** An application is known by its place in the program; the posting function of the
    entry calls its Post. *)
Record AppEntry := mkEntry { app_ptr : nat; entry_id : Z }.

Definition entry_for (app_id : Z) : AppEntry -> Prop := fun e => entry_id e = app_id.
#[export] Instance entry_for_dec app_id e : Decision (entry_for app_id e).
Proof. unfold entry_for. apply _. Defined.

(** [None]: the null pointer. *)
Definition Register (app_id : Z) (ptr : option nat) (l : list AppEntry) : bool * list AppEntry :=
  match ptr with
  | None => (false, l)
  | Some ptr =>
    match list_find (entry_for app_id) l with
    | Some _ => (false, l)
    | None => if (OSP_POST_MAX_APPS <=? length l)%nat then (false, l) else (true, l ++ [mkEntry ptr app_id])
    end
  end.

(** FixedVector::erase_unordered: the last entry takes the place. *)
Definition erase_unordered {A} (i : nat) (l : list A) : list A :=
  if (length l <=? i)%nat then l
  else match last l with Some x => take (length l - 1) (<[i := x]> l) | None => l end.
Definition Unregister (app_id : Z) (l : list AppEntry) : bool * list AppEntry :=
  match list_find (entry_for app_id) l with Some (i, _) => (true, erase_unordered i l) | None => (false, l) end.

Section Post.
Context {U : Type} (u0 : U) (INLINE DEPTH MaxInstances : Z).
(** The handler of every application. *)
Context (OnMessage : nat -> Z -> list Z -> @View U -> MsgHandler U).
Context `{InstancePool MaxInstances Pool}.
Abbreviation App := (@Application U Pool).

Definition PostLocal (iid ev : Z) (d : option (list Z)) (len : Z) (ch : option nat) (l : list AppEntry) (apps : list App) : bool * list App :=
  match list_find (entry_for (GetAppId iid)) l with
  | Some (_, e) =>
    match apps !! app_ptr e with
    | Some a => let '(ok, a) := Post INLINE DEPTH (GetInsId iid) ev d len ch a in (ok, <[app_ptr e := a]> apps)
    | None => (false, apps)
    end
  | None => (false, apps)
  end.

Definition OspPost (iid ev : Z) (d : option (list Z)) (len dst_node : Z) (l : list AppEntry) (apps : list App) : bool * list App :=
  if negb (dst_node =? 0) then (false, apps) else PostLocal iid ev d len None l apps.

(** ** OspSendAndWait *)

Record Request := mkRequest { r_iid : Z; r_event : Z; r_data : option (list Z); r_len : Z; r_ack_size : Z; r_node : Z }.
(** Where a caller stands, with its channel: before the allocation, the post, taking
    the second reference, waiting, giving the reference back with the outcome, done. *)
Inductive CallerPc :=
| cNew | cPost (ch : nat) | cAcquire (ch : nat) | cWait (ch : nat) | cRelease (ch : nat) (r : list Z + PostError) | cDone (r : list Z + PostError).
Record Caller := mkCaller { request : Request; pc : CallerPc }.

Record PostWorld := mkWorld {
  apps : list App;
  (* the thread that processes the queue is between its two steps *)
  busy : list bool;
  entries_ : list AppEntry;
  chans : Channels;
  callers : list Caller
}.
Definition set_apps (l : list App) (w : PostWorld) : PostWorld := mkWorld l (busy w) (entries_ w) (chans w) (callers w).
Definition set_chans (s : Channels) (w : PostWorld) : PostWorld := mkWorld (apps w) (busy w) (entries_ w) s (callers w).
Definition set_busy (l : list bool) (w : PostWorld) : PostWorld := mkWorld (apps w) l (entries_ w) (chans w) (callers w).
Definition set_entries (l : list AppEntry) (w : PostWorld) : PostWorld := mkWorld (apps w) (busy w) l (chans w) (callers w).
Definition set_pc (i : nat) (p : CallerPc) (w : PostWorld) : PostWorld :=
  mkWorld (apps w) (busy w) (entries_ w) (chans w) (match callers w !! i with Some c => <[i := mkCaller (request c) p]> (callers w) | None => callers w end).

(** A look at a channel that leaves it as it is. *)
Definition touch (ch : nat) : Channels -> Channels := on_channel ch Some.
Definition channel_at (ch : nat) (s : Channels) : ResponseChannel :=
  match cells s !! ch with Some (Some c) => c | _ => new_channel end.
Definition ack_bytes (size : Z) (c : ResponseChannel) : list Z :=
  take (Z.to_nat (if size <? data_len c then size else data_len c)) (data c).

(** A caller's next step; [ok]: the allocation succeeds; [late]: the deadline has passed. *)
Definition SendStep (i : nat) (ok late : bool) (w : PostWorld) : PostWorld :=
  match callers w !! i with
  | None => w
  | Some c =>
    let r := request c in
    match pc c with
    | cNew =>
      if negb (r_node r =? 0) then set_pc i (cDone (inr kSendFailed)) w
      else if ok then set_pc i (cPost (length (cells (chans w)))) (set_chans (mkChannels (cells (chans w) ++ [Some new_channel]) (use_after_free (chans w))) w)
      else set_pc i (cDone (inr kAllocFailed)) w
    | cPost ch =>
      let '(posted, l) := PostLocal (r_iid r) (r_event r) (r_data r) (r_len r) (Some ch) (entries_ w) (apps w) in
      if posted then set_pc i (cAcquire ch) (set_apps l w) else set_pc i (cRelease ch (inr kAppNotFound)) (set_apps l w)
    | cAcquire ch => set_pc i (cWait ch) (set_chans (Acquire ch (chans w)) w)
    | cWait ch =>
      let w' := set_chans (touch ch (chans w)) w in
      if replied (channel_at ch (chans w)) then set_pc i (cRelease ch (inl (ack_bytes (r_ack_size r) (channel_at ch (chans w))))) w'
      else if late then set_pc i (cRelease ch (inr kTimeout)) w' else w'
    | cRelease ch r => set_pc i (cDone r) (set_chans (Release ch (chans w)) w)
    | cDone _ => w
    end
  end.

(** ** The threads *)

Inductive PostOp :=
| WRegister (id : Z) (ptr : option nat) | WUnregister (id : Z) | WSend (r : Request) | WStep (i : nat) (ok late : bool)
| WPost (iid ev : Z) (d : option (list Z)) (len dst_node : Z) | WDeliver (k : nat) | WFinish (k : nat)
| WCreate (k : nat) | WDestroy (k : nat) (id : Z) | WCall (k : nat) (id : Z) (act : InstAct U).

(** [None]: undefined behaviour of an application or a failed assertion. *)
Definition on_app (k : nat) (f : App -> option (App * Channels)) (w : PostWorld) : option PostWorld :=
  match apps w !! k with Some a => '(a, s) ← f a; Some (set_chans s (set_apps (<[k := a]> (apps w)) w)) | None => Some w end.
Definition busy_at (k : nat) (w : PostWorld) : bool := match busy w !! k with Some b => b | None => false end.

Definition post_step (o : PostOp) (w : PostWorld) : option PostWorld :=
  match o with
  | WRegister id ptr => Some (set_entries (Register id ptr (entries_ w)).2 w)
  | WUnregister id => Some (set_entries (Unregister id (entries_ w)).2 w)
  | WSend r => Some (mkWorld (apps w) (busy w) (entries_ w) (chans w) (callers w ++ [mkCaller r cNew]))
  | WStep i ok late => Some (SendStep i ok late w)
  | WPost iid ev d len node => Some (set_apps (OspPost iid ev d len node (entries_ w) (apps w)).2 w)
  | WDeliver k =>
    if busy_at k w then Some w
    else match apps w !! k with
         | Some a => if queue_head_ a =? queue_tail_ a then Some w else w ← on_app k (fun a => ProcessDeliver INLINE DEPTH MaxInstances (OnMessage k) a (chans w)) w; Some (set_busy (<[k := true]> (busy w)) w)
         | None => Some w
         end
  | WFinish k => if busy_at k w then w ← on_app k (fun a => Some (ProcessFinish INLINE DEPTH a (chans w))) w; Some (set_busy (<[k := false]> (busy w)) w) else Some w
  | WCreate k => on_app k (fun a => '(_, a) ← CreateInstance u0 MaxInstances a; Some (a, chans w)) w
  | WDestroy k id => on_app k (fun a => '(_, a) ← DestroyInstance MaxInstances id a; Some (a, chans w)) w
  | WCall k id act => on_app k (fun a => CallInstance MaxInstances id act a (chans w)) w
  end.
Fixpoint post_run (ops : list PostOp) (w : PostWorld) : option PostWorld :=
  match ops with [] => Some w | o :: ops => w ← post_step o w; post_run ops w end.

(** The applications [ids], each with its pool. *)
Definition new_apps (ids : list Z) (pools : list Pool) : list App := zip_with (Application_ctor INLINE DEPTH MaxInstances) ids pools.
Definition world0 (l : list App) : PostWorld := mkWorld l (replicate (length l) false) [] (mkChannels [] false) [].

(** ** References

    A caller counts for its channel from the allocation to the release, except between
    its post and its Acquire; a queued message counts for the channel it carries. *)

Definition holds (ch : nat) (c : Caller) : bool :=
  match pc c with cPost ch' | cWait ch' | cRelease ch' _ => bool_decide (ch' = ch) | _ => false end.
Definition carries (ch : nat) (m : SpecMsg) : bool := bool_decide (chan m = Some ch).
Definition queued (ch : nat) (sps : list (@SpecApp U)) : nat := sum_list_with (fun sp => count_if (carries ch) (mail sp)) sps.
Definition total (cs : list Caller) (sps : list (@SpecApp U)) (ch : nat) : nat := (count_if (holds ch) cs + queued ch sps)%nat.

Definition refs (s : Channels) : list (option Z) := (fun o : option ResponseChannel => ref_count <$> o) <$> cells s.
Definition refs_ok (s : Channels) (t : nat -> nat) : Prop :=
  use_after_free s = false /\ forall ch, match refs s !! ch with Some (Some n) => n = Z.of_nat (t ch) /\ 1 <= n | _ => t ch = 0%nat end.

Lemma refs_live s t ch : refs_ok s t -> (0 < t ch)%nat -> exists c, cells s !! ch = Some (Some c) /\ ref_count c = Z.of_nat (t ch).
Proof.
  intros [_ Hr] Ht. specialize (Hr ch). unfold refs in Hr. rewrite list_lookup_fmap in Hr. destruct (cells s !! ch) as [ [c|]|]; cbn in Hr; [|lia..]. exists c. split; [done|apply Hr].
Qed.

(** An operation on a live channel. *)
Lemma refs_update s t t' ch f :
  refs_ok s t -> (0 < t ch)%nat -> (forall x, x <> ch -> t' x = t x) ->
  (forall c, cells s !! ch = Some (Some c) -> ref_count c = Z.of_nat (t ch) ->
     match f c with Some c' => ref_count c' = Z.of_nat (t' ch) /\ (0 < t' ch)%nat | None => t' ch = 0%nat end) ->
  refs_ok (on_channel ch f s) t'.
Proof.
  intros Hr Ht Hx Hf. destruct (refs_live s t ch Hr Ht) as (c & Hc & Hn). specialize (Hf c Hc Hn). destruct Hr as [Hu Hr]. unfold on_channel. rewrite Hc. split; [done|].
  intros y. unfold refs. cbn. rewrite list_fmap_insert. destruct (decide (y = ch)) as [->|Hne].
  - rewrite list_lookup_insert_eq by (rewrite length_fmap; by eapply lookup_lt_Some). destruct (f c); cbn; lia.
  - rewrite list_lookup_insert_ne by done. rewrite (Hx y Hne). apply Hr.
Qed.

Lemma refs_new s t t' :
  refs_ok s t -> (forall x, t' x = if decide (x = length (cells s)) then 1%nat else t x) -> refs_ok (mkChannels (cells s ++ [Some new_channel]) (use_after_free s)) t'.
Proof.
  intros [Hu Hr] Ht. split; [done|]. intros x. rewrite Ht. unfold refs in *. cbn. rewrite fmap_app. destruct (decide (x = length (cells s))) as [->|Hne].
  - rewrite lookup_app_r, length_fmap, Nat.sub_diag by (rewrite length_fmap; lia). done.
  - specialize (Hr x). destruct (decide (x < length (cells s))%nat).
    + by rewrite lookup_app_l by (rewrite length_fmap; lia).
    + rewrite (lookup_ge_None_2 (_ <$> cells s)) in Hr by (rewrite length_fmap; lia). rewrite (lookup_ge_None_2 (_ ++ _)); [done|]. rewrite length_app, length_fmap. cbn. lia.
Qed.

(** Replies do not change the references. *)
Definition same_refs (s s' : Channels) : Prop := refs s' = refs s /\ use_after_free s' = use_after_free s.
Lemma refs_same s s' t : same_refs s s' -> refs_ok s t -> refs_ok s' t.
Proof. unfold refs_ok. by intros [-> ->]. Qed.
Definition live (s : Channels) (ch : option nat) : Prop := match ch with Some ch => exists n, refs s !! ch = Some (Some n) | None => True end.

Lemma reply_same s ch b len : live s (Some ch) -> same_refs s (Reply ch b len s).
Proof.
  intros [n Hn]. unfold refs in Hn. rewrite list_lookup_fmap in Hn. unfold Reply, on_channel. destruct (cells s !! ch) as [ [c|]|] eqn:Hc; try done.
  split; [|done]. unfold refs. cbn. rewrite list_fmap_insert. apply list_insert_id. rewrite list_lookup_fmap, Hc. done.
Qed.

Lemma handler_same h (l : Life) (u : U) ml s :
  live s (channel l) -> same_refs s (spec_handler INLINE DEPTH h (l, u) ml s).2 /\ channel (spec_handler INLINE DEPTH h (l, u) ml s).1.1.1 = channel l.
Proof.
  revert l u ml s. induction h as [|act k IH|ids evs d k IH]; intros l u ml s Hl; cbn [spec_handler]; [done| |destruct (mail_post _ _ _ _ _ _ _ _); by apply IH].
  assert (Hone : same_refs s (spec_act act (l, u) s).2 /\ channel (spec_act act (l, u) s).1.1 = channel l).
  { destruct act; cbn; try done. split; [|done]. destruct (channel l) as [ch|]; [rewrite <- reply_spec; by apply reply_same|done]. }
  destruct (spec_act act (l, u) s) as [ [l1 u1] s1]. cbn [fst snd] in *. destruct Hone as [ [H1 H2] H3].
  destruct (IH (life_view l1 u1) l1 u1 ml s1) as [ [H4 H5] H6]; [rewrite H3; unfold live in *; by rewrite H1|]. split; [split; congruence|congruence].
Qed.

Definition slot_quiet (x : option (Life * U)) : Prop := match x with Some (l, _) => channel l = None | None => True end.
Definition quiet (sp : @SpecApp U) : Prop := Forall slot_quiet (slots sp).

Abbreviation deliver_spec h := (spec_deliver INLINE DEPTH h).
Lemma deliver_same h x l u ml s : live s (chan x) -> same_refs s (deliver_spec h x (l, u) ml s).2 /\ slot_quiet (Some (deliver_spec h x (l, u) ml s).1.1).
Proof.
  intros Hl. unfold spec_deliver. cbn [fst snd]. set (l1 := life_event eBegin (with_channel (chan x) l)). assert (Hl1 : channel l1 = chan x) by done.
  destruct (handler_same (h (ev x) (bytes x) (life_view l1 u)) l1 u ml s) as [H1 _]; [by rewrite Hl1|]. by destruct (spec_handler _ _ _ _ _ _) as [ [ [l2 u2] ml2] s2].
Qed.

Lemma deliver_to_same h x l ml s : Forall slot_quiet l -> live s (chan x) ->
  same_refs s (spec_deliver_to INLINE DEPTH h l x ml s).2 /\ Forall slot_quiet (spec_deliver_to INLINE DEPTH h l x ml s).1.1.
Proof.
  intros Hq. revert ml s. induction Hq as [|o l Ho Hq IH]; intros ml s Hs; [done|]. destruct o as [ [lf u]|]; cbn [spec_deliver_to].
  - destruct (deliver_same h x lf u ml s Hs) as [H1 H2]. destruct (spec_deliver _ _ h x (lf, u) ml s) as [ [o ml1] s1]. cbn [fst snd] in *.
    destruct (IH ml1 s1) as [H3 H4]; [unfold live in *; destruct H1 as [-> _]; done|]. destruct (spec_deliver_to _ _ h l x ml1 s1) as [ [l2 ml2] s2]. cbn [fst snd] in *.
    split; [|by constructor]. destruct H1, H3. split; congruence.
  - destruct (IH ml s Hs). destruct (spec_deliver_to _ _ h l x ml s) as [ [l2 ml2] s2]. split; [done|by constructor].
Qed.

Abbreviation handle h := (spec_handle INLINE DEPTH MaxInstances h).
Lemma handle_same h x sp s : quiet sp -> live s (chan x) -> same_refs s (handle h x sp s).2 /\ quiet (handle h x sp s).1.
Proof.
  unfold quiet, spec_handle. intros Hq Hl. destruct (_ =? _).
  - destruct (deliver_to_same h x (slots sp) (mail sp) s Hq Hl). by destruct (spec_deliver_to _ _ _ _ _ _) as [ [] ].
  - destruct (spec_slot MaxInstances (to x) sp) as [ [lf u]|]; [|done]. destruct (deliver_same h x lf u (mail sp) s Hl) as [H1 H2].
    destruct (spec_deliver _ _ h x (lf, u) (mail sp) s) as [ [o ml1] s1]. split; [done|]. cbn. by apply Forall_insert.
Qed.

(** ** The invariant *)

Abbreviation rel := (app_rel INLINE DEPTH MaxInstances).
Context (Hinline : 8 <= INLINE <= kMaxDataLen) (Hdepth : 2 <= DEPTH < 2 ^ 32) (Hmax : 0 <= MaxInstances < 2 ^ 16).

Definition data_ok (d : option (list Z)) (len : Z) : Prop := 0 <= len /\ match d with Some b => len <= Z.of_nat (length b) | None => True end.

Record inv (w : PostWorld) (sps : list (@SpecApp U)) : Prop := {
  i_apps : Forall2 rel (apps w) sps;
  i_quiet : Forall quiet sps;
  i_busy : forall k sp, busy_at k w = true -> sps !! k = Some sp -> mail sp <> [];
  i_requests : Forall (fun c => data_ok (r_data (request c)) (r_len (request c))) (callers w);
  i_refs : refs_ok (chans w) (total (callers w) sps);
  i_acquire : forall i c ch, callers w !! i = Some c -> pc c = cAcquire ch -> (0 < queued ch sps)%nat
}.

Lemma queued_put ch sps k sp sp' : sps !! k = Some sp -> (queued ch (<[k := sp']> sps) + count_if (carries ch) (mail sp) = queued ch sps + count_if (carries ch) (mail sp'))%nat.
Proof. apply (sum_insert (fun sp => count_if (carries ch) (mail sp))). Qed.

(** The application [k] changes, and the channels with it. *)
Lemma inv_app w sps k a sp a' sp' s :
  inv w sps -> apps w !! k = Some a -> sps !! k = Some sp -> rel a' sp' -> quiet sp' ->
  refs_ok s (total (callers w) (<[k := sp']> sps)) ->
  (forall i c ch, callers w !! i = Some c -> pc c = cAcquire ch -> (0 < queued ch (<[k := sp']> sps))%nat) ->
  (busy_at k w = true -> mail sp' <> []) ->
  inv (set_chans s (set_apps (<[k := a']> (apps w)) w)) (<[k := sp']> sps).
Proof.
  intros [Ha Hq Hb Hreq Hr Hac] Hka Hks Hrel Hqu Hs Hac' Hb'. split; cbn; try done.
  - by apply Forall2_insert.
  - by apply Forall_insert.
  - intros j spj Hj Hlk. destruct (decide (j = k)) as [->|Hne].
    + rewrite list_lookup_insert_eq in Hlk by (by eapply lookup_lt_Some). simplify_eq. by apply Hb'.
    + rewrite list_lookup_insert_ne in Hlk by done. by eapply Hb.
Qed.

(** ... with nothing but mail without a channel added. *)
Lemma count_silent ch l : Forall (fun x => chan x = None) l -> count_if (carries ch) l = 0%nat.
Proof. induction 1 as [|x l Hx _ IH]; [done|]. rewrite count_if_cons, IH. unfold bit, carries. by rewrite Hx. Qed.
Lemma count_app {A} (f : A -> bool) l1 l2 : count_if f (l1 ++ l2) = (count_if f l1 + count_if f l2)%nat.
Proof. induction l1 as [|x l1 IH]; [done|]. cbn [app]. rewrite !count_if_cons, IH. lia. Qed.
Lemma inv_app_added w sps k a sp a' sp' s :
  inv w sps -> apps w !! k = Some a -> sps !! k = Some sp -> rel a' sp' -> quiet sp' -> added (mail sp) (mail sp') -> same_refs (chans w) s ->
  inv (set_chans s (set_apps (<[k := a']> (apps w)) w)) (<[k := sp']> sps).
Proof.
  intros Hi Hka Hks Hrel Hqu (more & Hm & Hno) Hs. assert (Hqd : forall ch, queued ch (<[k := sp']> sps) = queued ch sps).
  { intros ch. pose proof (queued_put ch sps k sp sp' Hks) as Hq. rewrite Hm, count_app, (count_silent ch more Hno) in Hq. lia. }
  eapply inv_app; [done..| | |].
  - destruct (refs_same _ _ _ Hs (i_refs _ _ Hi)) as [H1 H2]. split; [done|]. intros ch. specialize (H2 ch). unfold total in *. by rewrite Hqd.
  - intros i c ch Hc Hpc. rewrite Hqd. by eapply (i_acquire _ _ Hi).
  - intros Hb. pose proof (i_busy _ _ Hi _ _ Hb Hks). rewrite Hm. by destruct (mail sp).
Qed.
(** ... without touching the mail. *)
Lemma inv_app_same w sps k a sp a' sp' s :
  inv w sps -> apps w !! k = Some a -> sps !! k = Some sp -> rel a' sp' -> quiet sp' -> mail sp' = mail sp -> same_refs (chans w) s ->
  inv (set_chans s (set_apps (<[k := a']> (apps w)) w)) (<[k := sp']> sps).
Proof. intros Hi Hka Hks Hrel Hqu Hm. eapply inv_app_added; [done..|]. rewrite Hm. apply added_refl. Qed.

Lemma inv_lookup w sps k a : inv w sps -> apps w !! k = Some a -> exists sp, sps !! k = Some sp /\ rel a sp /\ quiet sp.
Proof.
  intros Hi Hk. destruct (Forall2_lookup_l _ _ _ _ _ (i_apps _ _ Hi) Hk) as (sp & Hsp & Hr). exists sp. split; [done|]. split; [done|].
  pose proof (i_quiet _ _ Hi) as Hq. rewrite Forall_lookup in Hq. by eapply Hq.
Qed.

Lemma count_snoc {A} (f : A -> bool) l x : count_if f (l ++ [x]) = (count_if f l + bit f x)%nat.
Proof. induction l as [|y l IH]; cbn [app]; rewrite !count_if_cons; [change (count_if f []) with 0%nat; lia|]. rewrite IH. lia. Qed.

Lemma post_local_rel w sps iid e d len ch :
  inv w sps -> data_ok d len ->
  let r := PostLocal iid e d len ch (entries_ w) (apps w) in
  (r.1 = false /\ r.2 = apps w) \/
  (r.1 = true /\ exists k a a' sp sp' m, apps w !! k = Some a /\ sps !! k = Some sp /\ r.2 = <[k := a']> (apps w) /\ rel a' sp' /\ quiet sp' /\
     mail sp' = mail sp ++ [m] /\ chan m = ch).
Proof.
  intros Hi [Hlen Hd]. unfold PostLocal. destruct (list_find _ _) as [ [j en]|]; [|by left]. destruct (apps w !! app_ptr en) as [a|] eqn:Hk; [|by left].
  destruct (inv_lookup w sps _ a Hi Hk) as (sp & Hsp & Hr & Hq).
  destruct (post_rel INLINE DEPTH MaxInstances Hinline Hdepth (GetInsId iid) e d len ch a sp Hr Hlen Hd) as [E Hr']. unfold spec_post, mail_post in E, Hr'.
  destruct (Post INLINE DEPTH (GetInsId iid) e d len ch a) as [ok a'] eqn:EP. cbn [fst snd] in *. destruct ((INLINE <? len) || (DEPTH - 1 <=? Z.of_nat (length (mail sp)))) eqn:Ef; subst ok; cbn [fst snd] in *.
  - left. split; [done|]. assert (Ha : a' = a); [|subst; by apply list_insert_id].
    unfold Post in EP. destruct (INLINE <? len); [congruence|]. destruct (_ =? _); congruence.
  - right. split; [done|]. exists (app_ptr en), a, a', sp. eexists _, _. split_and!; [done|done|done|exact Hr'|done|reflexivity|reflexivity].
Qed.

Lemma queued_post ch sps k sp sp' m x :
  sps !! k = Some sp -> mail sp' = mail sp ++ [m] -> chan m = ch -> queued x (<[k := sp']> sps) = (queued x sps + if decide (ch = Some x) then 1 else 0)%nat.
Proof.
  intros Hk Hm Hc. pose proof (queued_put x sps k sp sp' Hk) as Hq. rewrite Hm, count_snoc in Hq.
  assert (Hb : bit (carries x) m = if decide (ch = Some x) then 1%nat else 0%nat) by (unfold bit, carries; rewrite Hc; case_decide; [by rewrite bool_decide_true|by rewrite bool_decide_false]).
  lia.
Qed.

Lemma ospost_inv w sps iid e d len node :
  inv w sps -> data_ok d len -> exists sps', inv (set_apps (OspPost iid e d len node (entries_ w) (apps w)).2 w) sps'.
Proof.
  intros Hi Hd. unfold OspPost. destruct (negb _); [exists sps; by destruct Hi|].
  destruct (post_local_rel w sps iid e d len None Hi Hd) as [ [_ ->]|(_ & k & a & a' & sp & sp' & m & Hk & Hs & -> & Hr & Hq & Hm & Hc)]; [exists sps; by destruct Hi|].
  assert (Hqd : forall x, queued x (<[k := sp']> sps) = queued x sps) by (intros x; rewrite (queued_post None _ _ _ _ _ _ Hs Hm Hc); case_decide; [done|lia]).
  exists (<[k := sp']> sps). replace (set_apps (<[k := a']> (apps w)) w) with (set_chans (chans w) (set_apps (<[k := a']> (apps w)) w)) by (by destruct w).
  eapply inv_app; [done..| | |].
  - destruct (i_refs _ _ Hi) as [H1 H2]. split; [done|]. intros ch. specialize (H2 ch). unfold total in *. by rewrite Hqd.
  - intros i c ch Hcc Hpc. rewrite Hqd. by eapply (i_acquire _ _ Hi).
  - intros _. rewrite Hm. by destruct (mail sp).
Qed.

(** What a caller's step does to the count of its channel and of the others. *)
Lemma total_caller cs sps i c c' x :
  cs !! i = Some c -> (total (<[i := c']> cs) sps x + bit (holds x) c = total cs sps x + bit (holds x) c')%nat.
Proof. intros Hc. unfold total. pose proof (count_if_insert (holds x) cs i c c' Hc). lia. Qed.

(** A caller moves and the channels change; the applications stay. *)
Lemma inv_caller w sps i c p s :
  inv w sps -> callers w !! i = Some c ->
  refs_ok s (total (<[i := mkCaller (request c) p]> (callers w)) sps) ->
  (forall ch, p = cAcquire ch -> (0 < queued ch sps)%nat) ->
  inv (set_pc i p (set_chans s w)) sps.
Proof.
  intros [Ha Hq Hb Hreq Hr Hac] Hc Hs Hp. unfold set_pc. cbn. rewrite Hc. split; cbn; try done.
  - apply Forall_insert; [done|]. cbn. rewrite Forall_lookup in Hreq. exact (Hreq _ _ Hc).
  - intros j d ch Hj Hpc. destruct (decide (j = i)) as [->|Hne].
    + rewrite list_lookup_insert_eq in Hj by (by eapply lookup_lt_Some). simplify_eq. by apply Hp.
    + rewrite list_lookup_insert_ne in Hj by done. by eapply Hac.
Qed.

Lemma refs_ext s t t' : refs_ok s t -> (forall x, t' x = t x) -> refs_ok s t'.
Proof. intros [H1 H2] Ht. split; [done|]. intros ch. rewrite Ht. apply H2. Qed.

Lemma holds_bit ch x c : holds x c = bool_decide (ch = x) -> bit (holds x) c = if decide (x = ch) then 1%nat else 0%nat.
Proof. intros E. unfold bit. rewrite E. destruct (decide (x = ch)); [by rewrite bool_decide_true by congruence|by rewrite bool_decide_false by congruence]. Qed.

(** A caller's move that keeps or gives up nothing. *)
Lemma inv_caller_same w sps i c p :
  inv w sps -> callers w !! i = Some c -> (forall x, holds x (mkCaller (request c) p) = holds x c) -> (forall ch, p <> cAcquire ch) ->
  inv (set_pc i p w) sps.
Proof.
  intros Hi Hc Hh Hp. replace w with (set_chans (chans w) w) at 1 by (by destruct w). eapply inv_caller; [done..| |].
  - eapply refs_ext; [exact (i_refs _ _ Hi)|]. intros x. pose proof (total_caller (callers w) sps i c (mkCaller (request c) p) x Hc) as Ht. unfold bit in Ht. rewrite Hh in Ht. lia.
  - intros ch E. by destruct (Hp ch).
Qed.

Lemma touch_live ch s t : refs_ok s t -> (0 < t ch)%nat -> touch ch s = s.
Proof.
  intros Hr Ht. destruct (refs_live s t ch Hr Ht) as (c & Hc & _). unfold touch, on_channel. rewrite Hc, list_insert_id by done. by destruct s.
Qed.

Lemma total_holder w sps i c ch : callers w !! i = Some c -> holds ch c = true -> (0 < total (callers w) sps ch)%nat.
Proof. intros Hc Hh. unfold total. pose proof (count_if_pos (holds ch) (callers w) i c Hc Hh). lia. Qed.

Lemma send_post_inv w sps i c ch :
  inv w sps -> callers w !! i = Some c -> pc c = cPost ch ->
  let r := PostLocal (r_iid (request c)) (r_event (request c)) (r_data (request c)) (r_len (request c)) (Some ch) (entries_ w) (apps w) in
  exists sps', inv (if r.1 then set_pc i (cAcquire ch) (set_apps r.2 w) else set_pc i (cRelease ch (inr kAppNotFound)) (set_apps r.2 w)) sps'.
Proof.
  intros Hi Hc Hpc. cbv zeta. pose proof (i_requests _ _ Hi) as Hreq. rewrite Forall_lookup in Hreq.
  destruct (post_local_rel w sps (r_iid (request c)) (r_event (request c)) _ _ (Some ch) Hi (Hreq _ _ Hc)) as [ [-> ->]|(-> & k & a & a' & sp & sp' & m & Hk & Hs & -> & Hr & Hq & Hm & Hch)].
  - exists sps. replace (set_apps (apps w) w) with w by (by destruct w). eapply inv_caller_same; [done..| |done]. intros x. unfold holds. by rewrite Hpc.
  - exists (<[k := sp']> sps). pose proof (fun x => queued_post (Some ch) sps k sp sp' m x Hs Hm Hch) as Hqd. clear Hreq.
    destruct Hi as [Ha Hqs Hb Hreq Hrf Hac]. unfold set_pc. cbn. rewrite Hc. split; cbn.
    + by apply Forall2_insert.
    + by apply Forall_insert.
    + intros j spj Hj Hlk. destruct (decide (j = k)) as [->|Hne].
      * rewrite list_lookup_insert_eq in Hlk by (by eapply lookup_lt_Some). simplify_eq. rewrite Hm. by destruct (mail sp).
      * rewrite list_lookup_insert_ne in Hlk by done. by eapply Hb.
    + apply Forall_insert; [done|]. cbn. rewrite Forall_lookup in Hreq. exact (Hreq _ _ Hc).
    + eapply refs_ext; [exact Hrf|]. intros x. pose proof (total_caller (callers w) sps i c (mkCaller (request c) (cAcquire ch)) x Hc) as Ht. unfold total in *. rewrite Hqd.
      rewrite (holds_bit ch x c) in Ht by (unfold holds; by rewrite Hpc). change (bit (holds x) (mkCaller (request c) (cAcquire ch))) with 0%nat in Ht.
      destruct (decide (x = ch)) as [->|]; [rewrite decide_True by done|rewrite decide_False by congruence]; lia.
    + intros j d x Hj Hpd. rewrite Hqd. destruct (decide (j = i)) as [->|Hne].
      * rewrite list_lookup_insert_eq in Hj by (by eapply lookup_lt_Some). simplify_eq. cbn in Hpd. simplify_eq. rewrite decide_True by done. lia.
      * rewrite list_lookup_insert_ne in Hj by done. pose proof (Hac _ _ _ Hj Hpd). lia.
Qed.

Lemma send_inv w sps i ok late : inv w sps -> exists sps', inv (SendStep i ok late w) sps'.
Proof.
  intros Hi. unfold SendStep. destruct (callers w !! i) as [c|] eqn:Hc; [|by exists sps]. pose proof (i_refs _ _ Hi) as Hr.
  destruct (pc c) as [|ch|ch|ch|ch r|r] eqn:Hpc; [| | | | |by exists sps].
  - exists sps. destruct (negb _); [eapply inv_caller_same; [done..| |done]; intros x; unfold holds; by rewrite Hpc|].
    destruct ok; [|eapply inv_caller_same; [done..| |done]; intros x; unfold holds; by rewrite Hpc]. eapply inv_caller; [done..| |done]. eapply refs_new; [exact Hr|].
    intros x. pose proof (total_caller (callers w) sps i c (mkCaller (request c) (cPost (length (cells (chans w))))) x Hc) as Ht.
    rewrite (holds_bit (length (cells (chans w))) x (mkCaller _ _)) in Ht by done. unfold bit in Ht at 1. assert (E : holds x c = false) by (unfold holds; by rewrite Hpc). rewrite E in Ht.
    destruct (decide (x = length (cells (chans w)))) as [->|]; [|lia]. destruct Hr as [_ Hr]. specialize (Hr (length (cells (chans w)))).
    rewrite lookup_ge_None_2 in Hr by (unfold refs; rewrite length_fmap; lia). lia.
  - pose proof (send_post_inv w sps i c ch Hi Hc Hpc) as Hp. cbv zeta in Hp. destruct (PostLocal _ _ _ _ _ _ _) as [ [] l]; exact Hp.
  - exists sps. pose proof (i_acquire _ _ Hi _ _ _ Hc Hpc) as Hq. eapply inv_caller; [done..| |done].
    assert (Ht : forall x, total (<[i := mkCaller (request c) (cWait ch)]> (callers w)) sps x = (total (callers w) sps x + if decide (x = ch) then 1 else 0)%nat).
    { intros x. pose proof (total_caller (callers w) sps i c (mkCaller (request c) (cWait ch)) x Hc) as Ht. rewrite (holds_bit ch x (mkCaller _ _)) in Ht by done.
      unfold bit in Ht at 1. assert (E : holds x c = false) by (unfold holds; by rewrite Hpc). rewrite E in Ht. lia. }
    eapply (refs_update _ (total (callers w) sps)); [exact Hr|unfold total; lia| |].
    + intros x Hx. rewrite Ht, decide_False by done. lia.
    + intros cc _ Hn. cbn. rewrite Ht, decide_True by done. lia.
  - exists sps. assert (Hh : forall x, holds x c = bool_decide (ch = x)) by (intros x; unfold holds; by rewrite Hpc).
    rewrite (touch_live ch (chans w) (total (callers w) sps) Hr) by (eapply total_holder; [done|]; rewrite Hh; by rewrite bool_decide_true).
    replace (set_chans (chans w) w) with w by (by destruct w).
    destruct (replied _); [eapply inv_caller_same; [done..|by intros x; rewrite Hh|done]|]. destruct late; [|done]. eapply inv_caller_same; [done..|by intros x; rewrite Hh|done].
  - exists sps. assert (Hh : forall x, holds x c = bool_decide (ch = x)) by (intros x; unfold holds; by rewrite Hpc). eapply inv_caller; [done..| |done].
    assert (Ht : forall x, (total (<[i := mkCaller (request c) (cDone r)]> (callers w)) sps x + (if decide (x = ch) then 1 else 0) = total (callers w) sps x)%nat).
    { intros x. pose proof (total_caller (callers w) sps i c (mkCaller (request c) (cDone r)) x Hc) as Ht. rewrite (holds_bit ch x c (Hh x)) in Ht.
      change (bit (holds x) (mkCaller (request c) (cDone r))) with 0%nat in Ht. lia. }
    pose proof (Ht ch) as Hch. rewrite decide_True in Hch by done. eapply (refs_update _ (total (callers w) sps)); [exact Hr|lia| |].
    + intros x Hx. specialize (Ht x). rewrite decide_False in Ht by done. lia.
    + intros cc _ Hn. destruct (Z.eqb_spec (ref_count cc) 1); cbn; lia.
Qed.

Lemma set_busy_inv w sps k b : inv w sps -> (b = true -> forall sp, sps !! k = Some sp -> mail sp <> []) -> inv (set_busy (<[k := b]> (busy w)) w) sps.
Proof.
  intros [Ha Hq Hb Hreq Hr Hac] Hk. split; cbn; try done. intros j sp Hj Hs. unfold busy_at in *. cbn in Hj. destruct (decide (j = k)) as [->|Hne].
  - destruct (decide (k < length (busy w))%nat); [|rewrite lookup_ge_None_2 in Hj by (rewrite length_insert; lia); done].
    rewrite list_lookup_insert_eq in Hj by done. by apply Hk.
  - rewrite list_lookup_insert_ne in Hj by done. by eapply Hb.
Qed.

Lemma queued_pos sps k sp x rest ch : sps !! k = Some sp -> mail sp = x :: rest -> chan x = Some ch -> (0 < queued ch sps)%nat.
Proof.
  intros Hk Hm Hc. pose proof (queued_put ch sps k sp (mkSpecApp [] []) Hk) as Hq. cbn [mail] in Hq. change (count_if (carries ch) []) with 0%nat in Hq.
  pose proof (count_if_pos (carries ch) (mail sp) 0 x) as Hp. rewrite Hm in *. unfold carries in Hp at 1. rewrite Hc, bool_decide_true in Hp by done. specialize (Hp eq_refl eq_refl). lia.
Qed.

Lemma deliver_inv w sps k :
  inv w sps -> exists w' sps', post_step (WDeliver k) w = Some w' /\ inv w' sps'.
Proof.
  intros Hi. cbn [post_step]. destruct (busy_at k w) eqn:Hbz; [by eexists _, _|]. destruct (apps w !! k) as [a|] eqn:Hk; [|by eexists _, _].
  destruct (inv_lookup w sps k a Hi Hk) as (sp & Hs & Hr & Hq). rewrite (empty_rel INLINE DEPTH MaxInstances Hdepth a sp Hr). destruct (mail sp) as [|x rest] eqn:Hm; [by eexists _, _|].
  unfold on_app. rewrite Hk. destruct (deliver_rel INLINE DEPTH MaxInstances (OnMessage k) Hinline Hdepth a sp (chans w) x rest Hr Hm) as (a' & -> & Hr'). pose proof (spec_handle_added INLINE DEPTH MaxInstances (OnMessage k) x sp (chans w)) as Hadd.
  assert (Hlive : live (chans w) (chan x)).
  { destruct (chan x) as [ch|] eqn:Hch; [|done]. pose proof (queued_pos sps k sp x rest ch Hs Hm Hch).
    destruct (refs_live _ _ ch (i_refs _ _ Hi)) as (c & Hc & _); [unfold total; lia|]. exists (ref_count c). unfold refs. by rewrite list_lookup_fmap, Hc. }
  destruct (handle_same (OnMessage k) x sp (chans w) Hq Hlive) as [Hsame Hq']. cbn [mbind option_bind]. eexists _, _. split; [reflexivity|].
  apply set_busy_inv; [eapply inv_app_added; [done..]|]. intros _ sp1. rewrite list_lookup_insert_eq by (by eapply lookup_lt_Some). intros [= <-]. destruct Hadd as (more & -> & _). by rewrite Hm.
Qed.

Definition head_channel (a : App) : option nat := response_channel (head_message INLINE a).
(** The processing thread is not done with a message whose sender has not yet taken the
    second reference. *)
Definition patient (k : nat) (w : PostWorld) : Prop :=
  forall a ch i c, apps w !! k = Some a -> head_channel a = Some ch -> callers w !! i = Some c -> pc c <> cAcquire ch.

Lemma finish_inv w sps k :
  inv w sps -> patient k w -> exists w' sps', post_step (WFinish k) w = Some w' /\ inv w' sps'.
Proof.
  intros Hi Hpa. cbn [post_step]. destruct (busy_at k w) eqn:Hbz; [|by eexists _, _]. unfold on_app. destruct (apps w !! k) as [a|] eqn:Hk.
  2: { cbn. eexists _, _. split; [reflexivity|]. by apply set_busy_inv. }
  destruct (inv_lookup w sps k a Hi Hk) as (sp & Hs & Hr & Hq). pose proof (i_busy _ _ Hi k sp Hbz Hs) as Hne. destruct (mail sp) as [|x rest] eqn:Hm; [done|].
  pose proof (ar_mailbox _ _ _ _ _ Hr) as HQ. rewrite Hm in HQ. destruct (head_message_ok INLINE DEPTH a x rest HQ) as (_ & _ & _ & Hch).
  destruct (finish_rel INLINE DEPTH MaxInstances Hdepth a sp (chans w) x rest Hr Hm) as [E Hr']. unfold spec_finish in E, Hr'. rewrite Hm in E, Hr'. cbn [fst snd] in E, Hr'.
  destruct (ProcessFinish INLINE DEPTH a (chans w)) as [a' s']. cbn [fst snd] in *. cbn [mbind option_bind]. set (sp' := mkSpecApp (slots sp) rest) in *.
  pose proof (fun ch => queued_put ch sps k sp sp' Hs) as Hqd. rewrite Hm in Hqd. cbn [mail sp'] in Hqd. setoid_rewrite count_if_cons in Hqd.
  assert (Hfree : busy_at k (set_busy (<[k := false]> (busy w)) w) = false).
  { unfold busy_at. cbn. destruct (decide (k < length (busy w))%nat); [by rewrite list_lookup_insert_eq|by rewrite lookup_ge_None_2 by (rewrite length_insert; lia)]. }
  eexists _, (<[k := sp']> sps). split; [reflexivity|].
  change (inv (set_chans s' (set_apps (<[k := a']> (apps (set_busy (<[k := false]> (busy w)) w))) (set_busy (<[k := false]> (busy w)) w))) (<[k := sp']> sps)).
  eapply inv_app; [by apply set_busy_inv|exact Hk|exact Hs|exact Hr'|exact Hq| | |by rewrite Hfree].
  - subst s'. destruct (chan x) as [ch|] eqn:Hcx; [rewrite <- release_spec|].
    + pose proof (queued_pos sps k sp x rest ch Hs Hm Hcx) as Hqp. assert (Hbit : forall y, bit (carries y) x = if decide (y = ch) then 1%nat else 0%nat).
      { intros y. unfold bit, carries. rewrite Hcx. destruct (decide (y = ch)); [by rewrite bool_decide_true by congruence|by rewrite bool_decide_false by congruence]. }
      eapply (refs_update _ (total (callers w) sps)); [exact (i_refs _ _ Hi)|unfold total; lia| |].
      * intros y Hy. specialize (Hqd y). rewrite Hbit, decide_False in Hqd by done. unfold total. cbn [callers set_busy]. lia.
      * intros cc _ Hn. specialize (Hqd ch). rewrite Hbit, decide_True in Hqd by done. unfold total in *. cbn [callers set_busy]. destruct (Z.eqb_spec (ref_count cc) 1); cbn [ref_count]; lia.
    + eapply refs_ext; [exact (i_refs _ _ Hi)|]. intros y. specialize (Hqd y). assert (Hb0 : bit (carries y) x = 0%nat) by (unfold bit, carries; rewrite Hcx; by rewrite bool_decide_false).
      unfold total. cbn [callers set_busy]. lia.
  - intros i c y Hc Hpc. pose proof (i_acquire _ _ Hi _ _ _ Hc Hpc) as Hy. specialize (Hqd y). unfold bit in Hqd. destruct (carries y x) eqn:Ec; [|lia].
    unfold carries in Ec. apply bool_decide_eq_true in Ec. exfalso. eapply Hpa; [exact Hk| |exact Hc|exact Hpc]. unfold head_channel. by rewrite Hch.
Qed.

(** The contract: the sizes of the data, and patience. *)
Definition call_ok (o : PostOp) (w : PostWorld) : Prop :=
  match o with
  | WSend r => data_ok (r_data r) (r_len r)
  | WPost _ _ d len _ => data_ok d len
  | WFinish k => patient k w
  | _ => True
  end.
Fixpoint calls_ok (ops : list PostOp) (w : PostWorld) : Prop :=
  match ops with [] => True | o :: ops => call_ok o w /\ match post_step o w with Some w => calls_ok ops w | None => True end end.

Lemma create_quiet sp : quiet sp -> quiet (spec_create u0 sp).2 /\ mail (spec_create u0 sp).2 = mail sp.
Proof. unfold spec_create. intros Hq. destruct (list_find _ _) as [ [i ?]|]; [|done]. split; [|done]. by apply Forall_insert. Qed.
Lemma destroy_quiet id sp : quiet sp -> quiet (spec_destroy MaxInstances id sp).2 /\ mail (spec_destroy MaxInstances id sp).2 = mail sp.
Proof. unfold spec_destroy. intros Hq. destruct (_ || _); [done|]. destruct (spec_slot _ _ _); [|done]. split; [|done]. by apply Forall_insert. Qed.
Lemma call_quiet id act sp s :
  quiet sp -> quiet (spec_call MaxInstances id act sp s).1 /\ mail (spec_call MaxInstances id act sp s).1 = mail sp /\ (spec_call MaxInstances id act sp s).2 = s.
Proof.
  unfold spec_call. intros Hq. destruct (spec_slot MaxInstances id sp) as [ [l u]|] eqn:Hs; [|done].
  assert (Hl : channel l = None).
  { unfold spec_slot in Hs. destruct (_ || _); [done|]. destruct (slots sp !! _) as [o|] eqn:Ho; [|done]. subst o. unfold quiet in Hq. rewrite Forall_lookup in Hq. exact (Hq _ _ Ho). }
  assert (Hact : (spec_act act (l, u) s).2 = s /\ channel (spec_act act (l, u) s).1.1 = None) by (destruct act; cbn; rewrite ?Hl; done).
  destruct (spec_act act (l, u) s) as [ [l' u'] s']. cbn [fst snd] in *. destruct Hact as [-> Hl']. split; [|done]. by apply Forall_insert.
Qed.

Lemma post_step_inv o w sps : inv w sps -> call_ok o w -> exists w' sps', post_step o w = Some w' /\ inv w' sps'.
Proof.
  intros Hi Ho. destruct o as [id ptr|id|r|i ok late|iid e d len node|k|k|k|k id|k id act].
  - eexists _, _. split; [reflexivity|]. by destruct Hi.
  - eexists _, _. split; [reflexivity|]. by destruct Hi.
  - eexists _, sps. split; [reflexivity|]. destruct Hi as [Ha Hq Hb Hreq Hr Hac]. split; cbn; try done.
    + apply Forall_app. split; [done|by constructor].
    + eapply refs_ext; [exact Hr|]. intros x. unfold total. rewrite count_snoc. change (bit (holds x) (mkCaller r cNew)) with 0%nat. lia.
    + intros i c ch Hc Hpc. apply lookup_app_Some in Hc as [Hc|[_ Hc] ]; [by eapply Hac|]. apply list_lookup_singleton_Some in Hc as [_ <-]. done.
  - destruct (send_inv w sps i ok late Hi) as [sps' Hi']. by eexists _, _.
  - destruct (ospost_inv w sps iid e d len node Hi Ho) as [sps' Hi']. by eexists _, _.
  - by apply (deliver_inv w sps).
  - by apply (finish_inv w sps).
  - cbn [post_step]. unfold on_app. destruct (apps w !! k) as [a|] eqn:Hk; [|by eexists _, _]. destruct (inv_lookup w sps k a Hi Hk) as (sp & Hs & Hr & Hq).
    destruct (create_rel u0 INLINE DEPTH MaxInstances Hmax a sp Hr) as (a' & -> & Hr'). destruct (create_quiet sp Hq) as [Hq' Hm']. cbn [mbind option_bind].
    eexists _, _. split; [reflexivity|]. by eapply inv_app_same.
  - cbn [post_step]. unfold on_app. destruct (apps w !! k) as [a|] eqn:Hk; [|by eexists _, _]. destruct (inv_lookup w sps k a Hi Hk) as (sp & Hs & Hr & Hq).
    destruct (destroy_rel INLINE DEPTH MaxInstances Hmax id a sp Hr) as (a' & -> & Hr'). destruct (destroy_quiet id sp Hq) as [Hq' Hm']. cbn [mbind option_bind].
    eexists _, _. split; [reflexivity|]. by eapply inv_app_same.
  - cbn [post_step]. unfold on_app. destruct (apps w !! k) as [a|] eqn:Hk; [|by eexists _, _]. destruct (inv_lookup w sps k a Hi Hk) as (sp & Hs & Hr & Hq).
    destruct (call_rel INLINE DEPTH MaxInstances id act a sp (chans w) Hr) as (a' & -> & Hr'). destruct (call_quiet id act sp (chans w) Hq) as (Hq' & Hm' & Hs'). cbn [mbind option_bind].
    rewrite Hs'. eexists _, _. split; [reflexivity|]. by eapply inv_app_same.
Qed.

Lemma post_run_inv ops w sps : inv w sps -> calls_ok ops w -> exists w' sps', post_run ops w = Some w' /\ inv w' sps'.
Proof.
  revert w sps. induction ops as [|o ops IH]; intros w sps Hi Hc; [by eexists _, _|]. destruct Hc as [Ho Hc]. destruct (post_step_inv o w sps Hi Ho) as (w1 & sps1 & E & Hi1).
  rewrite E in Hc. cbn [post_run]. rewrite E. cbn [mbind option_bind]. by apply (IH w1 sps1).
Qed.

Lemma world0_inv (l : list App) : Forall (fun a => rel a (spec_new MaxInstances)) l -> inv (world0 l) (replicate (length l) (spec_new MaxInstances)).
Proof.
  intros Hl. split; cbn; try done.
  - induction Hl; by constructor.
  - apply Forall_replicate. unfold quiet. cbn. by apply Forall_replicate.
  - unfold busy_at. cbn. intros k sp Hb. destruct (replicate (length l) false !! k) as [b|] eqn:E; [|done]. apply lookup_replicate in E as [-> _]. done.
  - split; [done|]. intros ch. cbn. unfold total. cbn. induction l as [|a l IH]; [done|]. cbn. apply Forall_cons_iff in Hl as [_ Hl]. by apply IH.
Qed.

(** All callers have returned and no message is queued. *)
Definition idle (w : PostWorld) : Prop := Forall (fun c => exists r, pc c = cDone r) (callers w) /\ Forall (fun a => PendingMessages DEPTH a = 0) (apps w).

(** C13. Request and response under every interleaving of callers and processing threads:
    provided no thread finishes a message before its sender has taken its second
    reference, no freed channel is ever accessed, no application misbehaves, and when
    all calls have returned and the queues are empty every channel has been freed. *)
Theorem send_and_wait_safe ops ids (pools : list Pool) :
  Forall (fun p => pool_free p pool_blocks) pools -> length ids = length pools ->
  let w0 := world0 (new_apps ids pools) in
  calls_ok ops w0 ->
  exists w, post_run ops w0 = Some w /\ use_after_free (chans w) = false /\ (idle w -> Forall (fun c => c = None) (cells (chans w))).
Proof.
  intros Hp Hl w0 Hc. assert (H0 : inv w0 (replicate (length (new_apps ids pools)) (spec_new MaxInstances))).
  { apply world0_inv. clear Hc w0. revert ids Hl. unfold new_apps. induction Hp as [|p pools Hp _ IH]; intros ids Hl; destruct ids as [|i ids]; try discriminate Hl; [by constructor|]. cbn. constructor; [by apply app_ctor_rel|apply IH; cbn in Hl; lia]. }
  destruct (post_run_inv ops w0 _ H0 Hc) as (w & sps & E & Hi). exists w. split; [done|]. destruct (i_refs _ _ Hi) as [Hu Hr]. split; [done|]. intros [Hcs Has].
  assert (Ht : forall ch, total (callers w) sps ch = 0%nat).
  { intros ch. unfold total, queued. rewrite count_if_none by (eapply Forall_impl; [exact Hcs|]; intros c [r Hpc]; unfold holds; by rewrite Hpc). cbn.
    pose proof (i_apps _ _ Hi) as Hf. clear -Hf Has Hdepth. induction Hf as [|a sp l sps Ha _ IH]; [done|]. cbn. apply Forall_cons_iff in Has as [Ha0 Has]. rewrite IH by done.
    rewrite (pending_rel INLINE DEPTH MaxInstances Hdepth a sp Ha) in Ha0. by destruct (mail sp). }
  apply Forall_lookup. intros ch o Ho. specialize (Hr ch). unfold refs in Hr. rewrite list_lookup_fmap, Ho in Hr. destruct o as [c|]; [|done]. cbn in Hr. rewrite Ht in Hr. lia.
Qed.

End Post.

(** ** Runs *)

Section Demo.
Definition echo (k : nat) (e : Z) (d : list Z) (v : @View unit) : MsgHandler unit := if e =? 1 then HDo (AReply (Some d) (Z.of_nat (length d))) (fun _ => HReturn) else HReturn.
#[local] Existing Instance demo_pool.
Definition demo_world : PostWorld := world0 (new_apps (U := unit) 8 4 3 [5] [demo_storage]).
Abbreviation run ops := (post_run tt 8 4 3 echo ops demo_world).
Definition ask (e size : Z) : Request := mkRequest (MakeIID 5 1) e (Some [7; 8; 9]) 3 size 0.
Definition setup : list (@PostOp unit) := [WRegister 5 (Some 0%nat); WCreate 0; WCall 0 1 (AEvent eInitialize)].
Abbreviation step i := (WStep i true false).

(** A request that is answered, and one that times out and is processed late. *)
Definition demo_calls : list PostOp :=
  setup ++ [WSend (ask 1 2); step 0%nat; step 0%nat; step 0%nat; WDeliver 0; WFinish 0; step 0%nat; step 0%nat;
            WSend (ask 2 9); step 1%nat; step 1%nat; step 1%nat; step 1%nat; WStep 1 true true; step 1%nat; WDeliver 0; WFinish 0].

Lemma send_and_wait_safe_witness :
  calls_ok tt 8 4 3 echo demo_calls demo_world /\
  exists w, run demo_calls = Some w /\ use_after_free (chans w) = false /\ (idle 4 w -> Forall (fun c => c = None) (cells (chans w))).
Proof.
  assert (Hp : Forall (fun p => pool_free p pool_blocks) [demo_storage])
    by (constructor; [apply (MemPool.ObjectPool_ctor_rel 64 3 4 4096); [unfold MemPool.kFreeIndexMask; lia|done]|constructor]).
  assert (Hc : calls_ok tt 8 4 3 echo demo_calls demo_world).
  { vm_compute. repeat match goal with |- _ /\ _ => split end; try done; try congruence.
    all: intros a ch i c Ha Hch Hcl; destruct i as [|[|i] ]; simplify_eq/=; congruence. }
  split; [exact Hc|]. apply (send_and_wait_safe tt 8 4 3 echo ltac:(unfold kMaxDataLen; lia) ltac:(lia) ltac:(lia) demo_calls [5] [demo_storage] Hp eq_refl Hc).
Defined.

Lemma demo_outcomes :
  match run demo_calls with
  | Some w => (pc <$> callers w) = [cDone (inl [7; 8]); cDone (inr kTimeout)] /\ cells (chans w) = [None; None]
  | None => False
  end.
Proof. vm_compute. done. Qed.

(** ** Where the code and its comments differ *)

(** The message is posted before the second reference is taken: a processing thread that
    handles it in between frees the channel, and the caller then touches freed memory. *)
Lemma reply_before_acquire_frees :
  match run (setup ++ [WSend (ask 1 2); step 0%nat; step 0%nat; WDeliver 0; WFinish 0; step 0%nat]) with
  | Some w => use_after_free (chans w) = true
  | None => False
  end.
Proof. vm_compute. done. Qed.

(** A full queue is reported as an application that was not found. *)
Lemma full_queue_reported_not_found :
  match run (setup ++ replicate 3 (WPost (MakeIID 5 1) 2 None 0 0) ++ [WSend (ask 1 2); step 0%nat; step 0%nat; step 0%nat]) with
  | Some w => (pc <$> callers w) = [cDone (inr kAppNotFound)]
  | None => False
  end.
Proof. vm_compute. done. Qed.
End Demo.
