(* ===== verification/Fusion.v ===== *)
(** * Data fusion (include/osp/data_fusion.hpp)

    FusedSubscription and TimeSynchronizer collect the latest message of several types
    from the bus (Bus.v) and call back when all are there, the latter only if their
    timestamps lie in a window.  The handlers run under a mutex, one at a time.  The
    specification looks at the messages since the last callback. *)

From Stdlib Require Import ZArith Lia Bool.
From stdpp Require Import base numbers list option.
From S2P Require Import Prelude Vocabulary Bus.

Open Scope Z_scope.

Inductive DataFusionError := kCallbackNotSet | kAlreadyActive | kNotActive | kWindowTimeout.

Section Fusion.
Context {Payload W : Type} `{Inhabited Payload}.
(** The variant index of every message type, and the parameters of the bus. *)
Context (types : list Z) (variant_index : Payload -> Z).
Context (k kBatchSize kMaxTypes kMaxCallbacks : Z) (eviction : bool).

Definition kNumTypes : nat := length types.
Definition FusionCallback : Type := list Payload -> W -> W.

(** The members of both classes; FusedSubscription has no window and no timeouts, and the
    handles it holds before Activate, which nothing reads, are zero. *)
Record Fusion := mkFusion {
  callback_ : option FusionCallback;
  window_us_ : Z;
  active_ : bool;
  fire_count_ : Z;
  timeout_count_ : Z;
  data_ : list Payload;
  received_ : list bool;
  timestamps_ : list Z;
  handles_ : list SubscriptionHandle
}.
Definition Fusion_ctor : Fusion :=
  mkFusion None 0 false 0 0 (replicate kNumTypes inhabitant) (replicate kNumTypes false) (replicate kNumTypes 0) (replicate kNumTypes handle_Invalid).

Definition SetCallback (cb : option FusionCallback) (f : Fusion) : Fusion :=
  mkFusion cb (window_us_ f) (active_ f) (fire_count_ f) (timeout_count_ f) (data_ f) (received_ f) (timestamps_ f) (handles_ f).
Definition SetTimeWindow (us : Z) (f : Fusion) : Fusion :=
  mkFusion (callback_ f) us (active_ f) (fire_count_ f) (timeout_count_ f) (data_ f) (received_ f) (timestamps_ f) (handles_ f).
Definition set_received (r : list bool) (t : Z) (f : Fusion) : Fusion :=
  mkFusion (callback_ f) (window_us_ f) (active_ f) (fire_count_ f) t (data_ f) r (timestamps_ f) (handles_ f).
Definition store (i : nat) (p : Payload) (f : Fusion) : Fusion :=
  mkFusion (callback_ f) (window_us_ f) (active_ f) (fire_count_ f) (timeout_count_ f) (<[i := p]> (data_ f)) (<[i := true]> (received_ f)) (timestamps_ f) (handles_ f).
Definition stamp (i : nat) (ts : Z) (f : Fusion) : Fusion :=
  mkFusion (callback_ f) (window_us_ f) (active_ f) (fire_count_ f) (timeout_count_ f) (data_ f) (received_ f) (<[i := ts]> (timestamps_ f)) (handles_ f).
Definition set_active (b : bool) (hs : list SubscriptionHandle) (f : Fusion) : Fusion :=
  mkFusion (callback_ f) (window_us_ f) b (fire_count_ f) (timeout_count_ f) (data_ f) (received_ f) (timestamps_ f) hs.

(** What the bus callbacks act on. *)
Record FusionWorld := mkWorld { fusion : Fusion; user : W }.

(** ** Firing *)

Definition all_received (f : Fusion) : bool := forallb id (received_ f).
(** The callback runs, the firing is counted, and collecting starts again. *)
Definition fire (w : FusionWorld) : FusionWorld :=
  let f := fusion w in
  mkWorld (mkFusion (callback_ f) (window_us_ f) (active_ f) (u32 (fire_count_ f + 1)) (timeout_count_ f) (data_ f) (replicate kNumTypes false) (timestamps_ f) (handles_ f))
    (match callback_ f with Some cb => cb (data_ f) (user w) | None => user w end).

(** FusedSubscription::TryFire and OnMessage *)
Definition Fused_TryFire (w : FusionWorld) : FusionWorld := if all_received (fusion w) then fire w else w.
Definition Fused_OnMessage (i : nat) (e : @MessageEnvelope Payload) (w : FusionWorld) : FusionWorld :=
  Fused_TryFire (mkWorld (store i (payload e) (fusion w)) (user w)).

(** TimeSynchronizer *)
Definition too_far (f : Fusion) (current_ts ts : Z) : bool :=
  window_us_ f <? (if ts <=? current_ts then current_ts - ts else ts - current_ts).
Definition drop_stale_at (current_ts : Z) (f : Fusion) (i : nat) : Fusion :=
  match received_ f !! i with
  | Some true => if too_far f current_ts (timestamps_ f !!! i) then set_received (<[i := false]> (received_ f)) (u32 (timeout_count_ f + 1)) f else f
  | _ => f
  end.
Definition DropStaleData (current_ts : Z) (f : Fusion) : Fusion := fold_left (drop_stale_at current_ts) (seq 0 kNumTypes) f.

Definition min_ts (f : Fusion) : Z := fold_left (fun m ts => if ts <? m then ts else m) (tail (timestamps_ f)) (timestamps_ f !!! 0%nat).
Definition max_ts (f : Fusion) : Z := fold_left (fun m ts => if m <? ts then ts else m) (tail (timestamps_ f)) (timestamps_ f !!! 0%nat).
Definition Sync_TryFire (w : FusionWorld) : FusionWorld :=
  let f := fusion w in
  if all_received f then
    if window_us_ f <? max_ts f - min_ts f then
      match list_find (fun ts => ts = min_ts f) (timestamps_ f) with
      | Some (i, _) => mkWorld (set_received (<[i := false]> (received_ f)) (u32 (timeout_count_ f + 1)) f) (user w)
      | None => w
      end
    else fire w
  else w.
Definition Sync_OnMessage (i : nat) (e : @MessageEnvelope Payload) (w : FusionWorld) : FusionWorld :=
  let ts := timestamp_us (header e) in
  Sync_TryFire (mkWorld (DropStaleData ts (stamp i ts (store i (payload e) (fusion w)))) (user w)).

(** ** On the bus *)

Context (OnMessage : nat -> @MessageEnvelope Payload -> FusionWorld -> FusionWorld).
Abbreviation FBus := (@AsyncBus Payload FusionWorld).

Definition SubscribeOne (b : FBus) (hs : list SubscriptionHandle) (i : nat) : FBus * list SubscriptionHandle :=
  let '(h, b) := Subscribe (types !!! i) (OnMessage i) b in (b, <[i := h]> hs).
Definition fused_subscribe (b : FBus) (hs : list SubscriptionHandle) : FBus * list SubscriptionHandle :=
  fold_left (fun '(b, hs) i => SubscribeOne b hs i) (seq 0 kNumTypes) (b, hs).

(** The result is the error, if any. *)
Definition Activate (b : FBus) (f : Fusion) : option DataFusionError * FBus * Fusion :=
  match callback_ f with
  | None => (Some kCallbackNotSet, b, f)
  | Some _ =>
    if active_ f then (Some kAlreadyActive, b, f)
    else let '(b, hs) := fused_subscribe b (handles_ f) in (None, b, set_active true hs f)
  end.
(** The loop over the valid handles, also of the destructor. *)
Definition drop_handles (b : FBus) (hs : list SubscriptionHandle) : FBus * list SubscriptionHandle :=
  fold_left (fun '(b, l) h => if handle_IsValid h then ((Unsubscribe kMaxTypes h b).2, l ++ [handle_Invalid]) else (b, l ++ [h])) hs (b, []).
Definition Deactivate (b : FBus) (f : Fusion) : option DataFusionError * FBus * Fusion :=
  if active_ f then let '(b, hs) := drop_handles b (handles_ f) in (None, b, set_active false hs f)
  else (Some kNotActive, b, f).

(** The destructor.  [bus_] is the bus once Activate has run; before, every handle is
    invalid and the loop does nothing. *)
Definition Fusion_dtor (b : FBus) (f : Fusion) : FBus := (drop_handles b (handles_ f)).1.

(** ** The specification

    [recent]: the messages since the last callback, the newest first, each with the
    number of its type.  [ok e x]: the message [x] is fresh enough when [e] arrives. *)

Abbreviation Env := (@MessageEnvelope Payload).
Fixpoint latest (i : nat) (recent : list (nat * Env)) : option Env :=
  match recent with [] => None | (j, e) :: recent => if decide (j = i) then Some e else latest i recent end.
Definition fresh (ok : Env -> Env -> bool) (now : Env) (recent : list (nat * Env)) (i : nat) : bool :=
  match latest i recent with Some x => ok now x | None => false end.
Definition tuple (recent : list (nat * Env)) : list Payload := omap (fun i => payload <$> latest i recent) (seq 0 kNumTypes).

(** Every message whose arrival makes all types fresh calls back with the latest values. *)
Fixpoint fires (ok : Env -> Env -> bool) (recent msgs : list (nat * Env)) : list (list Payload) :=
  match msgs with
  | [] => []
  | (i, e) :: msgs =>
    let recent := (i, e) :: recent in
    if forallb (fresh ok e recent) (seq 0 kNumTypes) then tuple recent :: fires ok [] msgs else fires ok recent msgs
  end.
Definition always : Env -> Env -> bool := fun _ _ => true.
Definition within (window : Z) : Env -> Env -> bool := fun e x => timestamp_us (header e) - timestamp_us (header x) <=? window.

Definition deliver_all (msgs : list (nat * Env)) (w : FusionWorld) : FusionWorld := fold_left (fun w '(i, e) => OnMessage i e w) msgs w.

End Fusion.

Section FusionProofs.
Context {Payload W : Type} `{Inhabited Payload} (types : list Z).
Abbreviation Env := (@MessageEnvelope Payload).
Abbreviation n := (kNumTypes types).
Implicit Types (f : @Fusion Payload W) (w : @FusionWorld Payload W).

(** The tables have an entry for every type; what is marked as received is the latest
    message, provided it is [ok]. *)
Record collects (good : Env -> bool) f (recent : list (nat * Env)) : Prop := {
  cl_len : length (data_ f) = n /\ length (received_ f) = n /\ length (timestamps_ f) = n;
  cl_received : forall j, (j < n)%nat -> received_ f !! j = Some (match latest j recent with Some x => good x | None => false end);
  cl_data : forall j x, (j < n)%nat -> latest j recent = Some x -> data_ f !! j = Some (payload x)
}.

Lemma latest_head i (e : Env) recent : latest i ((i, e) :: recent) = Some e.
Proof. cbn. by rewrite decide_True. Qed.
Lemma latest_other i j (e : Env) recent : j <> i -> latest j ((i, e) :: recent) = latest j recent.
Proof. intros Hne. cbn. by rewrite decide_False by congruence. Qed.

Lemma forallb_lookup (l : list bool) (g : nat -> bool) : length l = n -> (forall j, (j < n)%nat -> l !! j = Some (g j)) -> forallb id l = forallb g (seq 0 n).
Proof.
  intros Hl Hg. assert (E : l = g <$> seq 0 n).
  { apply list_eq. intros j. rewrite list_lookup_fmap. destruct (decide (j < n)%nat).
    - rewrite Hg by done. by rewrite lookup_seq_lt by done.
    - rewrite !lookup_ge_None_2; [done|rewrite length_seq; lia|lia]. }
  rewrite E. clear. induction (seq 0 n) as [|x l IH]; [done|]. cbn. by rewrite IH.
Qed.

Lemma tuple_data good f recent : collects good f recent -> forallb (fun j => match latest j recent with Some x => good x | None => false end) (seq 0 n) = true ->
  data_ f = tuple types recent.
Proof.
  intros Hc Hall. unfold tuple. assert (Hs : forall j, (j < n)%nat -> exists x, latest j recent = Some x).
  { intros j Hj. rewrite forallb_forall in Hall. specialize (Hall j). rewrite in_seq in Hall. destruct (latest j recent) as [x|]; [by exists x|]. specialize (Hall ltac:(lia)). done. }
  assert (Hd : forall m, (m <= n)%nat -> take m (data_ f) = omap (fun i => payload <$> latest i recent) (seq 0 m)).
  { induction m as [|m IH]; intros Hm; [done|]. destruct (Hs m ltac:(lia)) as [x Hx].
    rewrite (take_S_r _ _ (payload x)) by (by apply (cl_data _ _ _ Hc); [lia|]). rewrite IH by lia. rewrite seq_S, omap_app. cbn. by rewrite Hx. }
  rewrite <- (Hd n) by lia. rewrite take_ge; [done|]. destruct (cl_len _ _ _ Hc) as (-> & _). lia.
Qed.

Definition call (cb : option FusionCallback) (t : list Payload) (u : W) : W := match cb with Some cb => cb t u | None => u end.

Lemma fire_collects good good' f recent u :
  collects good f recent -> forallb (fun j => match latest j recent with Some x => good x | None => false end) (seq 0 n) = true ->
  exists f', fire types (mkWorld f u) = mkWorld f' (call (callback_ f) (tuple types recent) u) /\ collects good' f' [] /\ callback_ f' = callback_ f /\ window_us_ f' = window_us_ f /\
    fire_count_ f' = u32 (fire_count_ f + 1).
Proof.
  intros Hc Hall. eexists. split; [unfold fire, call; cbn; by rewrite <- (tuple_data good f recent Hc Hall)|]. split; [|done]. destruct (cl_len _ _ _ Hc) as (H1 & H2 & H3). split; cbn [data_ received_ timestamps_ latest].
  - rewrite length_replicate. done.
  - intros j Hj. by apply lookup_replicate.
  - done.
Qed.

Lemma store_collects good i e f recent :
  collects good f recent -> (i < n)%nat -> good e = true -> collects good (store i (payload e) f) ((i, e) :: recent).
Proof.
  intros [(H1 & H2 & H3) Hr Hd] Hi Hg. split; cbn [data_ received_ timestamps_ store].
  - by rewrite !length_insert.
  - intros j Hj. destruct (decide (j = i)) as [->|Hne]; [rewrite latest_head, Hg; by rewrite list_lookup_insert_eq by lia|].
    rewrite latest_other by done. rewrite list_lookup_insert_ne by done. by apply Hr.
  - intros j x Hj. destruct (decide (j = i)) as [->|Hne]; [rewrite latest_head; intros [= <-]; by rewrite list_lookup_insert_eq by lia|].
    rewrite latest_other by done. rewrite list_lookup_insert_ne by done. by apply Hd.
Qed.

(** What one message does, for both classes. *)
Definition step_spec (ok : Env -> Env -> bool) (good good' : Env -> bool) (OnMessage : nat -> Env -> @FusionWorld Payload W -> @FusionWorld Payload W) (i : nat) (e : Env) f recent u : Prop :=
  let r := (i, e) :: recent in let b := forallb (fresh ok e r) (seq 0 n) in
  exists f', OnMessage i e (mkWorld f u) = mkWorld f' (if b then call (callback_ f) (tuple types r) u else u) /\
    collects good' f' (if b then [] else r) /\ callback_ f' = callback_ f /\ window_us_ f' = window_us_ f.

Lemma fused_step i e f recent u :
  collects (fun _ => true) f recent -> (i < n)%nat -> step_spec always (fun _ => true) (fun _ => true) (Fused_OnMessage types) i e f recent u.
Proof.
  intros Hc Hi. unfold step_spec, Fused_OnMessage, Fused_TryFire. cbn [fusion user]. pose proof (store_collects _ i e f recent Hc Hi eq_refl) as Hs. set (r := (i, e) :: recent) in *.
  assert (Hall : all_received (store i (payload e) f) = forallb (fresh always e r) (seq 0 n)) by (apply forallb_lookup; [apply (cl_len _ _ _ Hs)|apply (cl_received _ _ _ Hs)]).
  rewrite Hall. destruct (forallb (fresh always e r) (seq 0 n)) eqn:Eb; [|by eexists].
  destruct (fire_collects (fun _ => true) (fun _ => true) (store i (payload e) f) r u Hs Eb) as (f' & E & H1 & H2 & H3 & _). exists f'. by rewrite E.
Qed.

(** *** The window *)

Abbreviation ts e := (timestamp_us (header e)).

Lemma drop_fold now l f :
  let f' := fold_left (drop_stale_at now) l f in
  data_ f' = data_ f /\ timestamps_ f' = timestamps_ f /\ callback_ f' = callback_ f /\ window_us_ f' = window_us_ f /\ length (received_ f') = length (received_ f) /\
  forall j r, received_ f !! j = Some r -> received_ f' !! j = Some (r && negb (bool_decide (j ∈ l) && too_far f now (timestamps_ f !!! j))).
Proof.
  revert f. induction l as [|i l IH]; intros f; cbn [fold_left].
  { repeat split. intros j r Hj. rewrite bool_decide_false by apply not_elem_of_nil. cbn. by rewrite andb_true_r. }
  destruct (IH (drop_stale_at now f i)) as (H1 & H2 & H3 & H4 & H5 & H6). clear IH.
  assert (Hd : data_ (drop_stale_at now f i) = data_ f /\ timestamps_ (drop_stale_at now f i) = timestamps_ f /\ callback_ (drop_stale_at now f i) = callback_ f /\
    window_us_ (drop_stale_at now f i) = window_us_ f /\ length (received_ (drop_stale_at now f i)) = length (received_ f) /\
    forall j r, received_ f !! j = Some r -> received_ (drop_stale_at now f i) !! j = Some (r && negb (bool_decide (j = i) && too_far f now (timestamps_ f !!! j)))).
  { unfold drop_stale_at. destruct (received_ f !! i) as [ [|]|] eqn:Hi.
    - destruct (too_far f now (timestamps_ f !!! i)) eqn:Ht; cbn; (split_and!; [done|done|done|done|by rewrite ?length_insert|]); intros j r Hj.
      + destruct (decide (j = i)) as [->|Hne]; [rewrite list_lookup_insert_eq by (by eapply lookup_lt_Some); rewrite bool_decide_true, Ht by done; by rewrite andb_false_r|].
        rewrite list_lookup_insert_ne, bool_decide_false by done. by rewrite Hj, andb_true_r.
      + rewrite Hj. destruct (decide (j = i)) as [->|]; [rewrite Ht; by rewrite andb_false_r, andb_true_r|]. rewrite bool_decide_false by done. by rewrite andb_true_r.
    - repeat split. intros j r Hj. destruct (decide (j = i)) as [->|]; [rewrite Hi in Hj; injection Hj as <-; by rewrite Hi|]. rewrite bool_decide_false by done. by rewrite Hj, andb_true_r.
    - repeat split. intros j r Hj. destruct (decide (j = i)) as [->|]; [congruence|]. rewrite bool_decide_false by done. by rewrite Hj, andb_true_r. }
  destruct Hd as (D1 & D2 & D3 & D4 & D5 & D6). split_and!; try congruence. intros j r Hj. rewrite (H6 _ _ (D6 _ _ Hj)). f_equal. unfold too_far. rewrite D2, D4. rewrite <- andb_assoc. f_equal.
  rewrite <- negb_orb. f_equal. rewrite <- andb_orb_distrib_l. f_equal. rewrite <- bool_decide_or. apply bool_decide_ext. by rewrite elem_of_cons.
Qed.

Lemma extremes f lo hi : timestamps_ f <> [] -> Forall (fun t => lo <= t <= hi) (timestamps_ f) -> lo <= min_ts f /\ max_ts f <= hi.
Proof.
  unfold min_ts, max_ts. destruct (timestamps_ f) as [|t l]; [done|]. intros _ Hl. apply Forall_cons_iff in Hl as [Ht Hl]. cbn [tail lookup_total list_lookup_total].
  split; revert t Ht; induction Hl as [|x l Hx _ IH]; intros t Ht; cbn; try lia; [destruct (Z.ltb_spec x t)|destruct (Z.ltb_spec t x)]; apply IH; lia.
Qed.

Context (Hn : (0 < n)%nat) (window : Z) (Hwin : 0 <= window).
Abbreviation good now := (fun x : Env => now - ts x <=? window).

(** The stamps are those of the latest messages, none of them later than [now]. *)
Record synced (now : Z) f (recent : list (nat * Env)) : Prop := {
  sy_collects : collects (good now) f recent;
  sy_window : window_us_ f = window;
  sy_stamps : forall j x, (j < n)%nat -> latest j recent = Some x -> timestamps_ f !! j = Some (ts x);
  sy_past : Forall (fun m => ts m.2 <= now) recent
}.

Lemma latest_past now j x recent : Forall (fun m : nat * Env => ts m.2 <= now) recent -> latest j recent = Some x -> ts x <= now.
Proof. induction 1 as [|[i e] recent Hm _ IH]; cbn; [done|]. case_decide; [by intros [= <-]|done]. Qed.

Lemma received_after now i e f recent :
  synced now f recent -> (i < n)%nat -> now <= ts e ->
  synced (ts e) (DropStaleData types (ts e) (stamp i (ts e) (store i (payload e) f))) ((i, e) :: recent).
Proof.
  intros [ [(H1 & H2 & H3) Hr Hd] Hw Hst Hp] Hi Hnow. set (f1 := stamp i (ts e) (store i (payload e) f)). unfold DropStaleData.
  destruct (drop_fold (ts e) (seq 0 n) f1) as (D1 & D2 & D3 & D4 & D5 & D6). set (f2 := fold_left _ _ _) in *.
  assert (Hst' : forall j x, (j < n)%nat -> latest j ((i, e) :: recent) = Some x -> timestamps_ f1 !! j = Some (ts x)).
  { intros j x Hj. unfold f1. cbn [timestamps_ stamp]. destruct (decide (j = i)) as [->|Hne]; [rewrite latest_head; intros [= <-]; by rewrite list_lookup_insert_eq by (cbn; lia)|].
    rewrite latest_other by done. rewrite list_lookup_insert_ne by done. by apply Hst. }
  assert (Hp' : Forall (fun m => ts m.2 <= ts e) ((i, e) :: recent)) by (constructor; [cbn; lia|]; eapply Forall_impl; [|exact Hp]; cbn; lia).
  split; [split| | |done].
  - rewrite D1, D2, D5. unfold f1. cbn. by rewrite !length_insert.
  - intros j Hj. assert (Hr1 : received_ f1 !! j = Some (if decide (j = i) then true else match latest j recent with Some x => now - ts x <=? window | None => false end)).
    { unfold f1. cbn [received_ stamp store]. destruct (decide (j = i)) as [->|Hne]; [by rewrite list_lookup_insert_eq by lia|]. rewrite list_lookup_insert_ne by done. by apply Hr. }
    rewrite (D6 _ _ Hr1). rewrite bool_decide_true by (apply elem_of_seq; lia). rewrite andb_true_l. f_equal.
    destruct (latest j ((i, e) :: recent)) as [x|] eqn:Hx.
    + pose proof (latest_past _ _ _ _ Hp' Hx) as Hle. unfold too_far. rewrite (list_lookup_total_correct _ _ _ (Hst' j x Hj Hx)). unfold f1. cbn [window_us_ stamp store]. rewrite Hw.
      destruct (Z.leb_spec (ts x) (ts e)); [|lia]. destruct (decide (j = i)) as [->|Hne].
      * rewrite latest_head in Hx. injection Hx as <-. rewrite Z.sub_diag. destruct (Z.ltb_spec window 0); [lia|]. destruct (Z.leb_spec 0 window); [done|lia].
      * rewrite latest_other in Hx by done. rewrite Hx. destruct (Z.leb_spec (now - ts x) window), (Z.ltb_spec window (ts e - ts x)), (Z.leb_spec (ts e - ts x) window); lia || done.
    + rewrite decide_False by (intros ->; by rewrite latest_head in Hx). destruct (decide (j = i)) as [->|Hne]; [by rewrite latest_head in Hx|].
      rewrite latest_other in Hx by done. by rewrite Hx.
  - intros j x Hj Hx. rewrite D1. unfold f1. cbn [data_ stamp store]. destruct (decide (j = i)) as [->|Hne].
    + rewrite latest_head in Hx. injection Hx as <-. by rewrite list_lookup_insert_eq by lia.
    + rewrite latest_other in Hx by done. rewrite list_lookup_insert_ne by done. by apply Hd.
  - by rewrite D4.
  - intros j x Hj Hx. rewrite D2. by apply Hst'.
Qed.

Lemma sync_step now i e f recent u :
  synced now f recent -> (i < n)%nat -> now <= ts e ->
  let r := (i, e) :: recent in let b := forallb (fresh (within window) e r) (seq 0 n) in
  exists f', Sync_OnMessage types i e (mkWorld f u) = mkWorld f' (if b then call (callback_ f) (tuple types r) u else u) /\
    synced (ts e) f' (if b then [] else r) /\ callback_ f' = callback_ f.
Proof.
  intros Hs Hi Hnow r b. pose proof (received_after now i e f recent Hs Hi Hnow) as Hs'. unfold Sync_OnMessage. cbn [fusion user].
  assert (Hcb : callback_ (DropStaleData types (ts e) (stamp i (ts e) (store i (payload e) f))) = callback_ f) by (unfold DropStaleData; by destruct (drop_fold (ts e) (seq 0 n) (stamp i (ts e) (store i (payload e) f))) as (_ & _ & -> & _)).
  set (f2 := DropStaleData _ _ _) in *. fold r in Hs'. unfold Sync_TryFire. cbn [fusion].
  assert (Hall : all_received f2 = b) by (apply forallb_lookup; [apply (cl_len _ _ _ (sy_collects _ _ _ Hs'))|apply (cl_received _ _ _ (sy_collects _ _ _ Hs'))]). rewrite Hall.
  destruct b eqn:Eb; [|by exists f2].
  assert (Hspan : (window_us_ f2 <? max_ts f2 - min_ts f2) = false).
  { apply Z.ltb_ge. rewrite (sy_window _ _ _ Hs'). destruct (cl_len _ _ _ (sy_collects _ _ _ Hs')) as (_ & _ & Hlen).
    destruct (extremes f2 (ts e - window) (ts e)); [intros E; rewrite E in Hlen; cbn in Hlen; lia| |lia].
    apply Forall_lookup. intros j t Ht. assert (Hj : (j < n)%nat) by (apply lookup_lt_Some in Ht; lia). unfold b in Eb. rewrite forallb_forall in Eb. specialize (Eb j ltac:(apply in_seq; lia)).
    unfold fresh in Eb. destruct (latest j r) as [x|] eqn:Hx; [|done]. unfold within in Eb. apply Z.leb_le in Eb. rewrite (sy_stamps _ _ _ Hs' j x Hj Hx) in Ht. injection Ht as <-.
    pose proof (latest_past _ _ _ _ (sy_past _ _ _ Hs') Hx). lia. }
  rewrite Hspan. destruct (fire_collects (good (ts e)) (good (ts e)) f2 r u (sy_collects _ _ _ Hs') Eb) as (f' & E & H1 & H2 & H3 & _). exists f'. rewrite E, Hcb. split; [done|]. split; [|congruence].
  split; [done|by rewrite H3, (sy_window _ _ _ Hs')|done|constructor].
Qed.

(** ** Sequences of messages *)

Definition typed (msgs : list (nat * Env)) : Prop := Forall (fun m => (m.1 < n)%nat) msgs.
Fixpoint in_order (now : Z) (msgs : list (nat * Env)) : Prop :=
  match msgs with [] => True | (_, e) :: msgs => now <= ts e /\ in_order (ts e) msgs end.
Abbreviation calls cb l u := (fold_left (fun u t => call cb t u) l u).

Lemma fused_run msgs f recent u :
  collects (fun _ => true) f recent -> typed msgs ->
  user (deliver_all (Fused_OnMessage types) msgs (mkWorld f u)) = calls (callback_ f) (fires types always recent msgs) u.
Proof.
  intros Hc Hm. revert f recent u Hc. unfold deliver_all. induction Hm as [|[i e] msgs Hi _ IH]; intros f recent u Hc; [done|]. cbn [fold_left fires].
  destruct (fused_step i e f recent u Hc Hi) as (f' & -> & Hc' & Hcb & _). destruct (forallb _ _); rewrite (IH _ _ _ Hc'), Hcb; done.
Qed.

Lemma sync_run msgs now f recent u :
  synced now f recent -> typed msgs -> in_order now msgs ->
  user (deliver_all (Sync_OnMessage types) msgs (mkWorld f u)) = calls (callback_ f) (fires types (within window) recent msgs) u.
Proof.
  intros Hs Hm. revert now f recent u Hs. unfold deliver_all. induction Hm as [|[i e] msgs Hi _ IH]; intros now f recent u Hs Ho; [done|]. cbn [fold_left fires]. destruct Ho as [Hnow Ho].
  destruct (sync_step now i e f recent u Hs Hi Hnow) as (f' & -> & Hs' & Hcb). destruct (forallb _ _); rewrite (IH _ _ _ _ Hs' Ho), Hcb; done.
Qed.

End FusionProofs.

(** ** Together with the bus *)

Section OnBus.
Context {Payload W : Type} `{Inhabited Payload} (types : list Z) (variant_index : Payload -> Z).
Context (k kBatchSize kMaxTypes kMaxCallbacks : Z) (eviction : bool).
Context (Hk : 0 <= k <= 25) (Hcallbacks : 1 <= kMaxCallbacks < 2 ^ 32) (Hktypes : 0 <= kMaxTypes <= 2 ^ 32).
Context (Hdistinct : NoDup types) (Hrange : Forall (fun t => 0 <= t < kMaxTypes) types).
Abbreviation Env := (@MessageEnvelope Payload).
Abbreviation World := (@FusionWorld Payload W).
Abbreviation Spec := (@SpecBus Payload World).
Abbreviation rel := (bus_rel k kMaxTypes kMaxCallbacks).
Context (OnMessage : nat -> Env -> World -> World).

(** The number of a message's type among those fused, if it is one of them. *)
Definition route (e : Env) : option (nat * Env) := (fun '(i, _) => (i, e)) <$> list_find (fun t => t = u32 (variant_index (payload e))) types.

Inductive FuseOp := FPublish (pl : Payload) (sender ts : Z) (prio : MessagePriority) (topic : Z) | FBatch.
Definition fuse_step (o : FuseOp) (b : @AsyncBus Payload World) (w : World) : @AsyncBus Payload World * World :=
  match o with
  | FPublish pl sender ts prio topic => ((PublishInternal k eviction pl sender ts prio topic b).2, w)
  | FBatch => let '(_, b, w) := ProcessBatch variant_index k kBatchSize kMaxTypes b w in (b, w)
  end.
Fixpoint fuse_run (ops : list FuseOp) (b : @AsyncBus Payload World) (w : World) : World :=
  match ops with [] => w | o :: ops => let '(b, w) := fuse_step o b w in fuse_run ops b w end.

(** The messages that a bus with this queue hands out, in order. *)
Definition batch_of (s : Spec) : list Env := take (Nat.min (Z.to_nat kBatchSize) (length (pending s))) (pending s).
Definition after_batch (s : Spec) : Spec :=
  let n := Nat.min (Z.to_nat kBatchSize) (length (pending s)) in
  mkSpecBus (drop n (pending s)) (places s) (spec_msg_id s) (spec_callback_id s) (spec_published s) (spec_dropped s) (u64 (spec_processed s + Z.of_nat n))
    (spec_reporting s) (spec_reports s).
Definition hand_out (o : FuseOp) (s : Spec) : list Env * Spec :=
  match o with
  | FPublish pl sender ts prio topic => ([], (spec_publish k eviction pl sender ts prio topic s).2)
  | FBatch => (batch_of s, after_batch s)
  end.
Fixpoint handed_out (ops : list FuseOp) (s : Spec) : list Env :=
  match ops with [] => [] | o :: ops => (hand_out o s).1 ++ handed_out ops (hand_out o s).2 end.
(** The table of the bus: for every type fused, up to the first [m], its callback. *)
Definition wired (m : nat) (s : Spec) : Prop :=
  length (places s) = Z.to_nat kMaxTypes /\
  forall t, 0 <= t < kMaxTypes -> (0 < length (aget (places s) t))%nat /\
    snd <$> omap id (aget (places s) t) = match list_find (fun x => x = t) (take m types) with Some (i, _) => [OnMessage i] | None => [] end.

Lemma foldl_places (e : Env) (row : list (@Place Payload World)) w :
  foldl (fun w p => match p with Some (_, f) => f e w | None => w end) w row = foldl (fun w f => f e w) w (snd <$> omap id row).
Proof. revert w. induction row as [|[ [id f]|] row IH]; intros w; cbn; [done|apply IH..]. Qed.

Lemma wired_dispatch s e w : wired (length types) s -> spec_dispatch variant_index kMaxTypes s e w = match route e with Some (i, e) => OnMessage i e w | None => w end.
Proof.
  intros [_ Hs]. unfold spec_dispatch, route. rewrite take_ge in Hs by lia. destruct (Z.leb_spec kMaxTypes (u32 (variant_index (payload e)))) as [Hge|Hlt].
  - destruct (list_find _ types) as [ [i t]|] eqn:E; [|done]. apply list_find_Some in E as (Hi & -> & _). rewrite Forall_lookup in Hrange. specialize (Hrange _ _ Hi). lia.
  - rewrite foldl_places. destruct (Hs (u32 (variant_index (payload e)))) as [_ ->]; [|by destruct (list_find _ types) as [ [i t]|] ].
    pose proof (wrap_range 32 (variant_index (payload e)) ltac:(lia)) as Hr. unfold in_range in Hr. lia.
Qed.

Lemma spec_init_wired : wired 0 (spec_init kMaxTypes kMaxCallbacks).
Proof.
  split; [cbn; by rewrite length_replicate|]. intros t Ht. cbn [places spec_init]. rewrite aget_replicate by lia. rewrite length_replicate. split; [lia|]. cbn.
  by induction (Z.to_nat kMaxCallbacks).
Qed.

Lemma wired_subscribe s m t :
  wired m s -> types !! m = Some t -> wired (S m) (spec_subscribe t (OnMessage m) s).2.
Proof.
  intros [Hl Hs] Hm. pose proof Hrange as Hr. rewrite Forall_lookup in Hr. pose proof (Hr _ _ Hm) as Ht. destruct (Hs t Ht) as [Hlen Hrow].
  assert (Hnone : list_find (fun x => x = t) (take m types) = None).
  { apply list_find_None. apply Forall_lookup. intros j x Hj ->. apply lookup_take_Some in Hj as [Hj Hlt]. pose proof (NoDup_lookup _ _ _ _ Hdistinct Hj Hm). lia. }
  rewrite Hnone in Hrow. apply fmap_nil_inv in Hrow. unfold spec_subscribe. destruct (aget (places s) t) as [|p row] eqn:Er; [cbn in Hlen; lia|]. destruct p as [q|]; [done|].
  cbn [list_find]. destruct (decide (None = None)) as [_|]; [|done]. cbn [snd fst]. assert (Hr0 : omap id row = []) by exact Hrow. split; [cbn; by rewrite length_aset|].
  intros t' Ht'. cbn [places with_places]. rewrite (take_S_r _ _ t Hm). destruct (Z.eq_dec t' t) as [->|Hne].
  - rewrite aget_aset_eq by lia. split; [cbn; lia|]. rewrite list_find_app_r by done. cbn [list_find]. rewrite decide_True by done. cbn.
    rewrite length_take_le by (apply lookup_lt_Some in Hm; lia). by rewrite Hr0.
  - rewrite aget_aset_ne by lia. destruct (Hs t' Ht') as [H1 H2]. split; [done|]. rewrite H2.
    destruct (list_find (fun x => x = t') (take m types)) as [ [i y]|] eqn:E.
    + by rewrite (list_find_app_l _ _ _ _ _ E).
    + rewrite list_find_app_r by done. cbn [list_find]. rewrite decide_False by congruence. done.
Qed.

Definition subscribe_types (l : list nat) (st : @AsyncBus Payload World * list SubscriptionHandle) : @AsyncBus Payload World * list SubscriptionHandle :=
  fold_left (fun '(b, hs) i => SubscribeOne types OnMessage b hs i) l st.

Lemma subscribe_wired m n b hs s :
  rel b s -> wired m s -> (m + n <= length types)%nat -> exists s', rel (subscribe_types (seq m n) (b, hs)).1 s' /\ wired (m + n) s' /\ pending s' = pending s.
Proof.
  revert m b hs s. induction n as [|n IH]; intros m b hs s Hb Hw Hle; cbn [subscribe_types seq fold_left].
  { exists s. by rewrite Nat.add_0_r. }
  destruct (lookup_lt_is_Some_2 types m ltac:(lia)) as [t Ht]. change (SubscribeOne types OnMessage b hs m) with (let '(h, b) := Subscribe (types !!! m) (OnMessage m) b in (b, <[m := h]> hs)).
  rewrite (list_lookup_total_correct _ _ _ Ht).
  pose proof Hrange as Hr. rewrite Forall_lookup in Hr. destruct (subscribe_rel k kMaxTypes kMaxCallbacks Hk ltac:(lia) Hktypes b s t (OnMessage m) Hb (Hr _ _ Ht)) as [_ Hb'].
  pose proof (wired_subscribe s m t Hw Ht) as Hw'. destruct (Subscribe t (OnMessage m) b) as [h b']. cbn [snd] in Hb'.
  destruct (IH (S m) b' (<[m := h]> hs) _ Hb' Hw' ltac:(lia)) as (s' & H1 & H2 & H3). exists s'. rewrite Nat.add_succ_r. split; [exact H1|]. split; [exact H2|].
  rewrite H3. unfold spec_subscribe. by destruct (list_find _ _) as [ []|].
Qed.

Lemma activate_wired f cb s b :
  callback_ f = Some cb -> active_ f = false -> rel b s -> wired 0 s ->
  exists b' f' s', Activate types OnMessage b f = (None, b', f') /\ rel b' s' /\ wired (length types) s' /\ pending s' = pending s /\
    f' = set_active true (handles_ f') f.
Proof.
  intros Hcb Ha Hb Hw. unfold Activate. rewrite Hcb, Ha. destruct (subscribe_wired 0 (length types) b (handles_ f) s Hb Hw ltac:(lia)) as (s' & H1 & H2 & H3).
  unfold fused_subscribe. change (fold_left _ (seq 0 (kNumTypes types)) (b, handles_ f)) with (subscribe_types (seq 0 (length types)) (b, handles_ f)).
  destruct (subscribe_types _ _) as [b' hs]. exists b', (set_active true hs f), s'. done.
Qed.

(** A bus so wired delivers what it hands out, in order. *)
Lemma fuse_run_wired ops b s w :
  rel b s -> wired (length types) s -> fuse_run ops b w = deliver_all OnMessage (omap route (handed_out ops s)) w.
Proof.
  revert b s w. induction ops as [|o ops IH]; intros b s w Hb Hw; [done|]. cbn [fuse_run handed_out]. destruct o as [pl sender ts prio topic|]; cbn [fuse_step hand_out fst snd].
  - destruct (publish_rel variant_index k kMaxTypes kMaxCallbacks eviction Hk ltac:(lia) Hktypes b s pl sender ts prio topic Hb) as [_ Hb'].
    rewrite (IH _ _ w Hb'); [done|]. assert (Hp : places (spec_publish k eviction pl sender ts prio topic s).2 = places s).
    { unfold spec_publish. destruct (_ <=? _); [done|]. destruct (_ <? _); [done|]. destruct (_ && _); [by destruct (spec_evict _ _)|done]. }
    unfold wired in *. by rewrite Hp.
  - unfold ProcessBatch. pose proof (process_rel k kBatchSize kMaxTypes kMaxCallbacks Hk (DispatchMessage variant_index kMaxTypes b) (spec_dispatch variant_index kMaxTypes s)
      b s w Hb (fun e w => dispatch_rel _ _ _ _ _ _ _ _ Hb)) as (_ & Hb' & Hw').
    destruct (process _ _ _ _ _) as [ [n b'] w']. cbn [fst snd] in *. subst w'. rewrite (IH _ _ _ Hb'); [|exact Hw]. unfold spec_process. cbn [fst snd]. fold (batch_of s). fold (after_batch s).
    rewrite omap_app. unfold deliver_all. rewrite fold_left_app. f_equal. clear -Hw Hrange. revert w. induction (batch_of s) as [|e l IH]; intros w; [done|]. cbn [foldl omap list_omap].
    rewrite wired_dispatch by done. cbn. destruct (route e) as [ [i e']|]; cbn; by rewrite IH.
Qed.

End OnBus.

Section Exact.
Context {Payload W : Type} `{Inhabited Payload} (types : list Z) (variant_index : Payload -> Z).
Context (k kBatchSize kMaxTypes kMaxCallbacks : Z) (eviction : bool).
Context (Hk : 0 <= k <= 25) (Hcallbacks : 1 <= kMaxCallbacks < 2 ^ 32) (Hktypes : 0 <= kMaxTypes <= 2 ^ 32).
Context (Hdistinct : NoDup types) (Hrange : Forall (fun t => 0 <= t < kMaxTypes) types) (Hnonempty : types <> []).
Abbreviation out s ops := (omap (route types variant_index) (handed_out k kBatchSize eviction ops s)).
Abbreviation rel := (bus_rel k kMaxTypes kMaxCallbacks).

Lemma types_routed (l : list (@MessageEnvelope Payload)) : typed types (omap (route types variant_index) l).
Proof.
  unfold typed. induction l as [|e l IH]; [constructor|]. cbn. unfold route at 1. destruct (list_find _ types) as [ [i t]|] eqn:E; cbn; [|done].
  constructor; [|done]. apply list_find_Some in E as (Hi & _). cbn. by eapply lookup_lt_Some.
Qed.

Lemma ctor_collects good (cb : option (@FusionCallback Payload W)) window b hs :
  collects types good (set_active b hs (SetTimeWindow window (SetCallback cb (Fusion_ctor types)))) [].
Proof. split; cbn; [by rewrite !length_replicate|intros j Hj; by rewrite lookup_replicate_2|done]. Qed.

(** FusedSubscription on the bus calls back once for every set of all types, with the
    latest value of each since the last call. *)
Lemma fused_subscription_exact (cb : @FusionCallback Payload W) u :
  exists b f s, Activate types (Fused_OnMessage types) (AsyncBus_ctor k kMaxTypes kMaxCallbacks) (SetCallback (Some cb) (Fusion_ctor types)) = (None, b, f) /\
    rel b s /\ pending s = [] /\
    forall ops, user (fuse_run variant_index k kBatchSize kMaxTypes eviction ops b (mkWorld f u)) =
      fold_left (fun u t => cb t u) (fires types always [] (out s ops)) u.
Proof.
  destruct (activate_wired types k kMaxTypes kMaxCallbacks Hk Hcallbacks Hktypes Hdistinct Hrange (Fused_OnMessage types) (SetCallback (Some cb) (Fusion_ctor types)) cb
    (spec_init kMaxTypes kMaxCallbacks) (AsyncBus_ctor k kMaxTypes kMaxCallbacks) eq_refl eq_refl) as (b & f & s & E & Hb & Hw & Hp & Hf).
  { by apply ctor_rel. }
  { apply spec_init_wired. lia. }
  exists b, f, s. split; [exact E|]. split; [exact Hb|]. split; [exact Hp|]. intros ops. rewrite (fuse_run_wired types variant_index k kBatchSize kMaxTypes kMaxCallbacks eviction Hk Hcallbacks Hktypes Hrange _ ops b s _ Hb Hw).
  rewrite (fused_run types _ f [] u); [|rewrite Hf; apply (ctor_collects _ (Some cb) 0)|apply types_routed]. by rewrite Hf.
Qed.

(** TimeSynchronizer on the bus, as long as the messages come in the order of their
    timestamps: it calls back exactly when the latest messages of all types since the
    last call lie within the window of the newest one, with exactly those values. *)
Lemma time_synchronizer_exact (cb : @FusionCallback Payload W) window u :
  0 <= window ->
  exists b f s, Activate types (Sync_OnMessage types) (AsyncBus_ctor k kMaxTypes kMaxCallbacks) (SetTimeWindow window (SetCallback (Some cb) (Fusion_ctor types))) = (None, b, f) /\
    rel b s /\ pending s = [] /\
    forall ops, in_order 0 (out s ops) ->
      user (fuse_run variant_index k kBatchSize kMaxTypes eviction ops b (mkWorld f u)) =
      fold_left (fun u t => cb t u) (fires types (within window) [] (out s ops)) u.
Proof.
  intros Hwin. destruct (activate_wired types k kMaxTypes kMaxCallbacks Hk Hcallbacks Hktypes Hdistinct Hrange (Sync_OnMessage types)
    (SetTimeWindow window (SetCallback (Some cb) (Fusion_ctor types))) cb
    (spec_init kMaxTypes kMaxCallbacks) (AsyncBus_ctor k kMaxTypes kMaxCallbacks) eq_refl eq_refl) as (b & f & s & E & Hb & Hw & Hp & Hf).
  { by apply ctor_rel. }
  { apply spec_init_wired. lia. }
  exists b, f, s. split; [exact E|]. split; [exact Hb|]. split; [exact Hp|]. intros ops Ho. rewrite (fuse_run_wired types variant_index k kBatchSize kMaxTypes kMaxCallbacks eviction Hk Hcallbacks Hktypes Hrange _ ops b s _ Hb Hw).
  assert (Hlen : (0 < kNumTypes types)%nat) by (unfold kNumTypes; destruct types; [done|cbn; lia]).
  rewrite (sync_run types Hlen window Hwin _ 0 f [] u); [by rewrite Hf| |apply types_routed|done]. rewrite Hf. split; [apply ctor_collects|done|done|constructor].
Qed.
End Exact.

(** ** Runs: two types with the indices 1 and 3; a payload is its type times ten and a value *)

Definition demo_index (p : Z) : Z := p / 10.
Definition demo_cb : @FusionCallback Z (list (list Z)) := fun t u => u ++ [t].
Definition send (p ts : Z) : @FuseOp Z := FPublish p 0 ts kMedium 0.
Definition demo_msgs : list (@FuseOp Z) :=
  [send 11 100; send 31 105; FBatch; send 12 200; send 13 202; send 21 203; FBatch; send 32 300; FBatch; send 14 301; send 33 302; FBatch; FBatch].

Lemma time_synchronizer_exact_witness :
  exists b f s, Activate [1; 3] (Sync_OnMessage [1; 3]) (AsyncBus_ctor 4 8 2) (SetTimeWindow 10 (SetCallback (Some demo_cb) (Fusion_ctor [1; 3]))) = (None, b, f) /\
    bus_rel 4 8 2 b s /\ pending s = [] /\
    forall ops, in_order 0 (omap (route [1; 3] demo_index) (handed_out 4 3 false ops s)) ->
      user (fuse_run demo_index 4 3 8 false ops b (mkWorld f [])) =
      fold_left (fun u t => demo_cb t u) (fires [1; 3] (within 10) [] (omap (route [1; 3] demo_index) (handed_out 4 3 false ops s))) [].
Proof.
  apply (time_synchronizer_exact [1; 3] demo_index 4 3 8 2 false); [lia|lia|lia| |repeat constructor; lia|done|lia].
  apply list.NoDup_cons. split; [intros E%list_elem_of_singleton; done|apply NoDup_singleton].
Defined.

(** The pairs at 100 and 105 and at 300 and 301 fit, that at 202 and 300 does not. *)
Lemma demo_fusion :
  match Activate [1; 3] (Sync_OnMessage [1; 3]) (AsyncBus_ctor 4 8 2) (SetTimeWindow 10 (SetCallback (Some demo_cb) (Fusion_ctor [1; 3]))) with
  | (None, b, f) => user (fuse_run demo_index 4 3 8 false demo_msgs b (mkWorld f [])) = [ [11; 31]; [14; 32] ]
  | _ => False
  end.
Proof. vm_compute. reflexivity. Qed.

(** ** Where the code and its comments differ *)

(** Activate does not look at the handles: with a full callback table it reports success
    and never calls back. *)
Lemma activate_ignores_failure :
  let b := (Subscribe 3 (fun _ w => w) (AsyncBus_ctor 4 8 1)).2 in
  match Activate [1; 3] (Fused_OnMessage [1; 3]) b (SetCallback (Some demo_cb) (Fusion_ctor [1; 3])) with
  | (None, b, f) => user (fuse_run demo_index 4 3 8 false demo_msgs b (mkWorld f [])) = [] /\ active_ f = true
  | _ => False
  end.
Proof. vm_compute. done. Qed.

(** Deactivate keeps what was received: after the next Activate it is fused with new data. *)
Lemma deactivate_keeps_stale_data :
  match Activate [1; 3] (Fused_OnMessage [1; 3]) (AsyncBus_ctor 4 8 2) (SetCallback (Some demo_cb) (Fusion_ctor [1; 3])) with
  | (None, b, f) =>
    let w := mkWorld f [] in
    let '(b, w) := fuse_step demo_index 4 3 8 false (send 11 100) b w in
    let '(b, w) := fuse_step demo_index 4 3 8 false FBatch b w in
    let '(_, b, f) := Deactivate 8 b (fusion w) in
    let '(_, b, f) := Activate [1; 3] (Fused_OnMessage [1; 3]) b f in
    user (fuse_run demo_index 4 3 8 false [send 31 900; FBatch] b (mkWorld f (user w))) = [ [11; 31] ]
  | _ => False
  end.
Proof. vm_compute. reflexivity. Qed.
