(* ===== verification/Connection.v ===== *)
(** * ConnectionPool and QoS profiles (include/osp/connection.hpp, qos.hpp)

    A table of connection slots found by identifier, against a finite map from
    identifiers to connections; and the compatibility order of QoS profiles.  A label
    is the text before the terminating zero; the clock is an input. *)

From Stdlib Require Import ZArith Lia Bool.
From stdpp Require Import base numbers list option gmap.
From S2P Require Import Prelude CBuffer.

Open Scope Z_scope.

Inductive ConnectionError := kPoolFull | kNotFound | kInvalidId | kAlreadyExists | kTimeout.
Inductive ConnectionState := kIdle | kConnecting | kConnected | kDisconnecting | kClosed.

(** ConnectionId is its value. *)
Definition UINT32_MAX : Z := 2 ^ 32 - 1.
Definition IsValid (id : Z) : bool := negb (id =? UINT32_MAX).

Record ConnectionInfo := mkInfo {
  id : Z; state : ConnectionState; created_time_us : Z; last_active_us : Z; remote_ip : Z; remote_port : Z; label : list Z
}.
Record Slot := mkSlot { info : ConnectionInfo; active : bool }.

Section Pool.
Context (MaxConnections : Z).

Record ConnectionPool := mkPool { slots_ : list Slot; count_ : Z; next_id_ : Z }.

(** [garbage]: what the storage holds before the constructor. *)
Definition ConnectionPool_ctor (garbage : list ConnectionInfo) : ConnectionPool := mkPool ((fun i => mkSlot i false) <$> garbage) 0 0.

Definition free_slot (s : Slot) : Prop := active s = false.
#[local] Instance free_slot_dec s : Decision (free_slot s).
Proof. unfold free_slot. apply _. Defined.
Definition slot_of (x : Z) (s : Slot) : Prop := active s = true /\ id (info s) = x.
#[local] Instance slot_of_dec x s : Decision (slot_of x s).
Proof. unfold slot_of. apply _. Defined.

Definition FindSlot (x : Z) (p : ConnectionPool) : option nat := fst <$> list_find (slot_of x) (slots_ p).

(** The identifiers 0 and UINT32_MAX are skipped when the counter wraps. *)
Definition bump_id (n : Z) : Z := let n := u32 (n + 1) in if (n =? 0) || (n =? UINT32_MAX) then 1 else n.
Definition put_label (text : option (list Z)) (buf : list Z) : list Z :=
  match text with Some t => blit buf 0 (take 31 t ++ [0]) | None => blit buf 0 [0] end.

Definition Add (now ip port : Z) (text : option (list Z)) (p : ConnectionPool) : (Z + ConnectionError) * ConnectionPool :=
  if MaxConnections <=? count_ p then (inr kPoolFull, p)
  else match list_find free_slot (slots_ p) with
       | Some (i, s) =>
         let x := next_id_ p in
         (inl x, mkPool (<[i := mkSlot (mkInfo x kIdle now now ip port (put_label text (label (info s)))) true]> (slots_ p)) (u32 (count_ p + 1)) (bump_id x))
       | None => (inr kPoolFull, p)
       end.

(** The body shared by Remove, SetState and Touch: [f] is applied to the slot found. *)
Definition on_slot (x : Z) (f : Slot -> Slot) (n : Z) (p : ConnectionPool) : option ConnectionError * ConnectionPool :=
  if IsValid x then
    match FindSlot x p with
    | Some i => (None, mkPool (alter f i (slots_ p)) n (next_id_ p))
    | None => (Some kNotFound, p)
    end
  else (Some kInvalidId, p).
Definition Remove (x : Z) (p : ConnectionPool) := on_slot x (fun s => mkSlot (info s) false) (u32 (count_ p - 1)) p.
Definition with_state (st : ConnectionState) (i : ConnectionInfo) : ConnectionInfo :=
  mkInfo (id i) st (created_time_us i) (last_active_us i) (remote_ip i) (remote_port i) (label i).
Definition with_activity (now : Z) (i : ConnectionInfo) : ConnectionInfo :=
  mkInfo (id i) (state i) (created_time_us i) now (remote_ip i) (remote_port i) (label i).
Definition SetState (x : Z) (st : ConnectionState) (p : ConnectionPool) := on_slot x (fun s => mkSlot (with_state st (info s)) (active s)) (count_ p) p.
Definition Touch (now x : Z) (p : ConnectionPool) := on_slot x (fun s => mkSlot (with_activity now (info s)) (active s)) (count_ p) p.

Definition Find (x : Z) (p : ConnectionPool) : option ConnectionInfo := i ← FindSlot x p; s ← slots_ p !! i; Some (info s).
Definition ForEach {W} (func : ConnectionInfo -> W -> W) (p : ConnectionPool) (w : W) : W :=
  fold_left (fun w s => if active s then func (info s) w else w) (slots_ p) w.

(** One slot of the loop of RemoveTimedOut. *)
Definition expired (now timeout : Z) (i : ConnectionInfo) : bool := timeout <? u64 (now - last_active_us i).
Definition expire_slot (now timeout : Z) (s : Slot) : Slot := if active s && expired now timeout (info s) then mkSlot (info s) false else s.
Definition RemoveTimedOut (now timeout : Z) (p : ConnectionPool) : Z * ConnectionPool :=
  let n := Z.of_nat (count_if (fun s => active s && expired now timeout (info s)) (slots_ p)) in
  (u32 n, mkPool (expire_slot now timeout <$> slots_ p) (u32 (count_ p - n)) (next_id_ p)).

Definition Count (p : ConnectionPool) : Z := count_ p.
Definition Capacity : Z := MaxConnections.
Definition IsFull (p : ConnectionPool) : bool := MaxConnections <=? count_ p.
Definition IsEmpty (p : ConnectionPool) : bool := count_ p =? 0.
Definition Clear (p : ConnectionPool) : ConnectionPool := mkPool ((fun s => mkSlot (info s) false) <$> slots_ p) 0 (next_id_ p).

(** ** The specification: a finite map of at most MaxConnections connections *)

Record Conn := mkConn { c_state : ConnectionState; c_created : Z; c_active : Z; c_ip : Z; c_port : Z; c_label : list Z }.
Record SpecPool := mkSpec { conns : gmap Z Conn; next : Z }.

Inductive PoolOp :=
| OAdd (now ip port : Z) (text : option (list Z)) | ORemove (x : Z) | OSetState (x : Z) (st : ConnectionState) | OTouch (now x : Z)
| OFind (x : Z) | ORemoveTimedOut (now timeout : Z) | OCount | OIsFull | OIsEmpty | OClear.
Inductive PoolRes := RAdd (r : Z + ConnectionError) | RErr (e : option ConnectionError) | RFind (c : option Conn) | RNum (n : Z) | RBool (b : bool) | RUnit.

(** What a lookup shows of a connection: its label as a string. *)
Definition conn_of (i : ConnectionInfo) : Conn :=
  mkConn (state i) (created_time_us i) (last_active_us i) (remote_ip i) (remote_port i) (match cstr (label i) with Some t => t | None => [] end).

Definition pool_step (o : PoolOp) (p : ConnectionPool) : PoolRes * ConnectionPool :=
  match o with
  | OAdd now ip port text => let '(r, p) := Add now ip port text p in (RAdd r, p)
  | ORemove x => let '(r, p) := Remove x p in (RErr r, p)
  | OSetState x st => let '(r, p) := SetState x st p in (RErr r, p)
  | OTouch now x => let '(r, p) := Touch now x p in (RErr r, p)
  | OFind x => (RFind (conn_of <$> Find x p), p)
  | ORemoveTimedOut now timeout => let '(n, p) := RemoveTimedOut now timeout p in (RNum n, p)
  | OCount => (RNum (Count p), p)
  | OIsFull => (RBool (IsFull p), p)
  | OIsEmpty => (RBool (IsEmpty p), p)
  | OClear => (RUnit, Clear p)
  end.

Definition spec_on (x : Z) (f : Conn -> option Conn) (s : SpecPool) : option ConnectionError * SpecPool :=
  if x =? UINT32_MAX then (Some kInvalidId, s)
  else match conns s !! x with Some c => (None, mkSpec (partial_alter (fun _ => f c) x (conns s)) (next s)) | None => (Some kNotFound, s) end.
Definition spec_step (o : PoolOp) (s : SpecPool) : PoolRes * SpecPool :=
  match o with
  | OAdd now ip port text =>
    if MaxConnections <=? Z.of_nat (size (conns s)) then (RAdd (inr kPoolFull), s)
    else (RAdd (inl (next s)), mkSpec (<[next s := mkConn kIdle now now ip port (match text with Some t => take 31 t | None => [] end)]> (conns s)) (next s + 1))
  | ORemove x => let '(r, s) := spec_on x (fun _ => None) s in (RErr r, s)
  | OSetState x st => let '(r, s) := spec_on x (fun c => Some (mkConn st (c_created c) (c_active c) (c_ip c) (c_port c) (c_label c))) s in (RErr r, s)
  | OTouch now x => let '(r, s) := spec_on x (fun c => Some (mkConn (c_state c) (c_created c) now (c_ip c) (c_port c) (c_label c))) s in (RErr r, s)
  | OFind x => (RFind (conns s !! x), s)
  | ORemoveTimedOut now timeout =>
    let m := filter (fun kv : Z * Conn => u64 (now - c_active kv.2) <= timeout) (conns s) in
    (RNum (Z.of_nat (size (conns s)) - Z.of_nat (size m)), mkSpec m (next s))
  | OCount => (RNum (Z.of_nat (size (conns s))), s)
  | OIsFull => (RBool (MaxConnections <=? Z.of_nat (size (conns s))), s)
  | OIsEmpty => (RBool (Z.of_nat (size (conns s)) =? 0), s)
  | OClear => (RUnit, mkSpec ∅ (next s))
  end.

(** ** Refinement *)

(** The connections in the slots, and as a map. *)
Definition place (s : Slot) : option ConnectionInfo := if active s then Some (info s) else None.
Definition used (p : ConnectionPool) : list ConnectionInfo := omap Datatypes.id (place <$> slots_ p).
Definition entry (i : ConnectionInfo) : Z * Conn := (id i, conn_of i).

Record pool_rel (p : ConnectionPool) (s : SpecPool) : Prop := {
  pr_len : Z.of_nat (length (slots_ p)) = MaxConnections;
  pr_labels : Forall (fun sl => length (label (info sl)) = 32%nat) (slots_ p);
  pr_ids : NoDup (id <$> used p);
  pr_map : conns s = list_to_map (entry <$> used p);
  pr_count : count_ p = Z.of_nat (length (used p));
  pr_next : next_id_ p = next s /\ 0 <= next s;
  pr_fresh : Forall (fun i => id i < next s) (used p)
}.

Lemma entry_ids (l : list ConnectionInfo) : (entry <$> l).*1 = id <$> l.
Proof. by rewrite <- list_fmap_compose. Qed.

Lemma pr_size p s : pool_rel p s -> size (conns s) = length (used p).
Proof.
  intros Hr. rewrite (pr_map _ _ Hr), map_size_list_to_map by (rewrite entry_ids; apply Hr). by rewrite length_fmap.
Qed.

(** The map of the connections in another order or with one more in front. *)
Lemma map_perm (l l' : list ConnectionInfo) : NoDup (id <$> l) -> l ≡ₚ l' -> list_to_map (M := gmap Z Conn) (entry <$> l) = list_to_map (entry <$> l').
Proof. intros Hn Hp. apply list_to_map_proper; [by rewrite entry_ids|by rewrite Hp]. Qed.

Lemma used_bound p : (length (used p) <= length (slots_ p))%nat.
Proof. unfold used. rewrite <- (length_fmap place). induction (place <$> slots_ p) as [|[x|] l IH]; cbn; lia. Qed.

Lemma used_fill sl i s s' inf : sl !! i = Some s -> place s = None -> place s' = Some inf ->
  omap Datatypes.id (place <$> <[i := s']> sl) ≡ₚ inf :: omap Datatypes.id (place <$> sl).
Proof. intros Hi Hs Hs'. rewrite list_fmap_insert, Hs'. apply omap_put. rewrite list_lookup_fmap, Hi. cbn. by rewrite Hs. Qed.
Lemma used_empty sl i s s' inf : sl !! i = Some s -> place s = Some inf -> place s' = None ->
  omap Datatypes.id (place <$> sl) ≡ₚ inf :: omap Datatypes.id (place <$> <[i := s']> sl).
Proof. intros Hi Hs Hs'. rewrite list_fmap_insert, Hs'. apply omap_take. rewrite list_lookup_fmap, Hi. cbn. by rewrite Hs. Qed.

Lemma find_slot p s x : pool_rel p s ->
  match FindSlot x p with
  | Some i => exists sl, slots_ p !! i = Some sl /\ active sl = true /\ id (info sl) = x /\ conns s !! x = Some (conn_of (info sl))
  | None => conns s !! x = None
  end.
Proof.
  intros Hr. unfold FindSlot. rewrite (pr_map _ _ Hr). destruct (list_find (slot_of x) (slots_ p)) as [ [i sl]|] eqn:E; cbn.
  - apply list_find_Some in E as (Hi & [Ha Hx] & _). exists sl. split_and!; [done..|]. apply elem_of_list_to_map_1; [rewrite entry_ids; apply Hr|].
    apply list_elem_of_fmap. exists (info sl). split; [unfold entry; by rewrite Hx|]. apply list_elem_of_omap. exists (Some (info sl)). split; [|done].
    apply list_elem_of_fmap. exists sl. split; [unfold place; by rewrite Ha|]. by eapply list_elem_of_lookup_2.
  - apply not_elem_of_list_to_map_1. rewrite entry_ids. intros Hin. apply list_elem_of_fmap in Hin as (inf & -> & Hin). apply list_elem_of_omap in Hin as (o & Ho & Hid). cbn in Hid. subst o.
    apply list_elem_of_fmap in Ho as (sl & Hp & Hsl). unfold place in Hp. destruct (active sl) eqn:Ha; [|done]. injection Hp as ->.
    apply list_find_None in E. rewrite Forall_forall in E. by apply (E sl).
Qed.

Lemma put_label_text text buf :
  length buf = 32%nat -> (match text with Some t => CBuffer.text t | None => True end) ->
  length (put_label text buf) = 32%nat /\ cstr (put_label text buf) = Some (match text with Some t => take 31 t | None => [] end).
Proof.
  intros Hl Ht. unfold put_label. destruct text as [t|].
  - split.
    + rewrite length_blit; [done|lia|]. rewrite length_app, length_take. change (length [0]) with 1%nat. lia.
    + unfold blit. change (take (Z.to_nat 0) buf) with (@nil Z). rewrite app_nil_l, <- app_assoc. apply cstr_app. unfold CBuffer.text in *. by apply Forall_take.
  - split; [rewrite length_blit; [done|lia|]; change (length [0]) with 1%nat; lia|]. done.
Qed.

Lemma pool_add_rel p s now ip port text :
  pool_rel p s -> 0 <= MaxConnections < 2 ^ 32 -> next s < UINT32_MAX - 1 -> (match text with Some t => CBuffer.text t | None => True end) ->
  (pool_step (OAdd now ip port text) p).1 = (spec_step (OAdd now ip port text) s).1 /\
  pool_rel (pool_step (OAdd now ip port text) p).2 (spec_step (OAdd now ip port text) s).2.
Proof.
  intros Hr Hmax Hnext Htext. cbn [pool_step spec_step]. rewrite (pr_size p s Hr). unfold Add. rewrite (pr_count _ _ Hr).
  destruct (Z.leb_spec MaxConnections (Z.of_nat (length (used p)))) as [|Hlt]; [done|].
  destruct (list_find free_slot (slots_ p)) as [ [i sl]|] eqn:E.
  2: { exfalso. apply list_find_None in E. assert (Hall : length (used p) = length (slots_ p)); [|rewrite <- (pr_len _ _ Hr) in Hlt; lia].
    unfold used. clear -E. induction E as [|s sl Hs _ IH]; [done|]. unfold free_slot in Hs. unfold place at 1. destruct (active s) eqn:Ea; [|done]. cbn. rewrite Ea. cbn. f_equal. exact IH. }
  apply list_find_Some in E as (Hi & Hf & _). pose proof (pr_labels _ _ Hr) as Hlab. rewrite Forall_lookup in Hlab.
  destruct (put_label_text text (label (info sl)) (Hlab _ _ Hi) Htext) as [Hl32 Hcs]. rewrite <- Forall_lookup in Hlab. destruct (pr_next _ _ Hr) as [Hn0 Hn1].
  set (inf := mkInfo (next_id_ p) kIdle now now ip port (put_label text (label (info sl)))).
  assert (Hplace : place sl = None) by (unfold place; by rewrite Hf).
  pose proof (used_fill (slots_ p) i sl (mkSlot inf true) inf Hi Hplace eq_refl) as Hperm. fold (used p) in Hperm.
  assert (Hfresh : id inf ∉ id <$> used p).
  { cbn. rewrite Hn0. intros Hin. apply list_elem_of_fmap in Hin as (j & Hj & Hin). pose proof (pr_fresh _ _ Hr) as Hfr. rewrite Forall_forall in Hfr. specialize (Hfr j Hin). lia. }
  split; [cbn; by rewrite Hn0|]. cbn [snd]. set (np := mkPool _ _ _). change (used np ≡ₚ inf :: used p) in Hperm. split; cbn [slots_ count_ next_id_ conns next np].
  - by rewrite length_insert, (pr_len _ _ Hr).
  - apply Forall_insert; [done|]. exact Hl32.
  - rewrite Hperm. cbn. apply list.NoDup_cons. split; [done|apply Hr].
  - rewrite (map_perm _ (inf :: used p)); [|rewrite Hperm; cbn; apply list.NoDup_cons; split; [done|apply Hr]|done].
    rewrite fmap_cons. change (list_to_map (entry inf :: (entry <$> used p))) with (<[id inf := conn_of inf]> (list_to_map (M := gmap Z Conn) (entry <$> used p))).
    rewrite <- (pr_map _ _ Hr). assert (Hc : conn_of inf = mkConn kIdle now now ip port (match text with Some t => take 31 t | None => [] end)) by (unfold conn_of; cbn; by rewrite Hcs).
    rewrite Hc. cbn [id inf]. by rewrite Hn0.
  - rewrite (Permutation_length Hperm). cbn [length]. rewrite wrap_small by (unfold in_range; lia). lia.
  - rewrite Hn0. unfold bump_id, UINT32_MAX in *. rewrite wrap_small by (unfold in_range; lia). destruct (Z.eqb_spec (next s + 1) 0), (Z.eqb_spec (next s + 1) (2 ^ 32 - 1)); cbn; lia.
  - rewrite Hperm. constructor; [cbn; lia|]. eapply Forall_impl; [apply (pr_fresh _ _ Hr)|]. cbn. lia.
Qed.

(** A slot is emptied, or its connection changed without its identifier. *)
Lemma on_slot_rel p s x f n g :
  pool_rel p s -> (forall sl, label (info (f sl)) = label (info sl)) ->
  ((forall sl, place (f sl) = None) /\ (forall c, g c = None) /\ n = u32 (count_ p - 1) \/
   (forall sl, active (f sl) = active sl /\ id (info (f sl)) = id (info sl) /\ g (conn_of (info sl)) = Some (conn_of (info (f sl)))) /\ n = count_ p) ->
  0 <= MaxConnections < 2 ^ 32 ->
  (on_slot x f n p).1 = (spec_on x g s).1 /\ pool_rel (on_slot x f n p).2 (spec_on x g s).2.
Proof.
  intros Hr Hlab Hcase Hmax. unfold on_slot, spec_on, IsValid. destruct (x =? UINT32_MAX); [done|]. cbn [negb]. pose proof (find_slot p s x Hr) as Hf.
  destruct (FindSlot x p) as [i|]; [|by rewrite Hf]. destruct Hf as (sl & Hi & Ha & Hx & Hm). rewrite Hm. split; [done|].
  assert (Halt : alter f i (slots_ p) = <[i := f sl]> (slots_ p)) by (apply list_eq; intros j; destruct (decide (j = i)) as [->|Hne];
    [by rewrite list_lookup_alter_eq, Hi, list_lookup_insert_eq by (by eapply lookup_lt_Some)|by rewrite list_lookup_alter_ne, list_lookup_insert_ne]).
  rewrite Halt. cbn [snd]. assert (Hps : place sl = Some (info sl)) by (unfold place; by rewrite Ha).
  pose proof (used_empty (slots_ p) i sl (mkSlot (info sl) false) (info sl) Hi Hps eq_refl) as Hp0. set (rest := omap Datatypes.id (place <$> <[i := mkSlot (info sl) false]> (slots_ p))) in *. fold (used p) in Hp0.
  pose proof (pr_ids _ _ Hr) as Hids. rewrite Hp0 in Hids. cbn in Hids. apply list.NoDup_cons in Hids as [Hxn Hnd].
  assert (Hmap : conns s = <[x := conn_of (info sl)]> (list_to_map (entry <$> rest))).
  { rewrite (pr_map _ _ Hr), (map_perm _ (info sl :: rest)); [|apply Hr|done]. rewrite <- Hx. done. }
  assert (Hnone : list_to_map (M := gmap Z Conn) (entry <$> rest) !! x = None) by (apply not_elem_of_list_to_map_1; rewrite entry_ids; by rewrite <- Hx).
  pose proof (pr_fresh _ _ Hr) as Hfr. rewrite Hp0 in Hfr. apply Forall_cons_iff in Hfr as [Hf1 Hf2]. pose proof (pr_count _ _ Hr) as Hcnt. rewrite (Permutation_length Hp0) in Hcnt. cbn [length] in Hcnt.
  pose proof (used_bound p) as Hub. rewrite (Permutation_length Hp0) in Hub. cbn [length] in Hub. pose proof (pr_len _ _ Hr).
  assert (Hl2 : Forall (fun sl => length (label (info sl)) = 32%nat) (<[i := f sl]> (slots_ p))).
  { pose proof (pr_labels _ _ Hr) as Hl. apply Forall_insert; [done|]. rewrite Hlab. rewrite Forall_lookup in Hl. exact (Hl _ _ Hi). }
  destruct Hcase as [(Hfn & Hg & ->)|[Hfs ->] ].
  - assert (Hu : used (mkPool (<[i := f sl]> (slots_ p)) (u32 (count_ p - 1)) (next_id_ p)) = rest).
    { unfold used, rest. cbn. by rewrite !list_fmap_insert, Hfn. }
    split; try rewrite Hu; cbn [slots_ count_ next_id_ conns next]; try done; [by rewrite length_insert| |rewrite Hcnt; rewrite wrap_small by (unfold in_range; lia); lia|apply Hr].
    rewrite Hg, Hmap. exact (delete_insert_id _ _ _ Hnone).
  - destruct (Hfs sl) as (Hfa & Hfi & Hfc). assert (Hpf : place (f sl) = Some (info (f sl))) by (unfold place; by rewrite Hfa, Ha).
    assert (Hu : used (mkPool (<[i := f sl]> (slots_ p)) (count_ p) (next_id_ p)) ≡ₚ info (f sl) :: rest).
    { unfold used, rest. cbn [slots_]. rewrite <- (list_insert_insert_eq (slots_ p) i (f sl) (mkSlot (info sl) false)). apply (used_fill _ i (mkSlot (info sl) false)); [apply list_lookup_insert_eq; by eapply lookup_lt_Some|done|done]. }
    assert (Hnd' : NoDup (id <$> used (mkPool (<[i := f sl]> (slots_ p)) (count_ p) (next_id_ p)))) by (rewrite Hu; cbn; rewrite Hfi; by apply list.NoDup_cons).
    split; cbn [count_ next_id_ conns next]; try done; [cbn [slots_]; by rewrite length_insert| |by rewrite (Permutation_length Hu), Hcnt|apply Hr|rewrite Hu; by constructor; [rewrite Hfi|] ].
    rewrite Hfc, Hmap. rewrite (map_perm _ _ Hnd' Hu), fmap_cons. change (list_to_map (entry (info (f sl)) :: (entry <$> rest))) with (<[id (info (f sl)) := conn_of (info (f sl))]> (list_to_map (M := gmap Z Conn) (entry <$> rest))).
    rewrite Hfi, Hx. exact (insert_insert_eq _ _ _ _).
Qed.

(** Timeouts *)
Definition kept (now timeout : Z) (i : ConnectionInfo) : Prop := expired now timeout i = false.
#[local] Instance kept_dec now timeout i : Decision (kept now timeout i).
Proof. unfold kept. apply _. Defined.

Lemma expire_used now timeout (sl : list Slot) :
  omap Datatypes.id (place <$> (expire_slot now timeout <$> sl)) = filter (kept now timeout) (omap Datatypes.id (place <$> sl)) /\
  (count_if (fun s => active s && expired now timeout (info s)) sl + length (filter (kept now timeout) (omap Datatypes.id (place <$> sl))) = length (omap Datatypes.id (place <$> sl)))%nat.
Proof.
  assert (Hc : forall (o : option ConnectionInfo) l, omap Datatypes.id (o :: l) = match o with Some x => x :: omap Datatypes.id l | None => omap Datatypes.id l end) by (by intros [x|] l).
  induction sl as [|s sl [IH1 IH2] ]; [done|]. rewrite count_if_cons, !fmap_cons, !Hc. unfold bit. destruct s as [inf [|] ]; unfold expire_slot at 1; cbn [place active info andb]; [|done].
  destruct (expired now timeout inf) eqn:He; cbn [place active info andb]; rewrite filter_cons.
  - rewrite decide_False by (unfold kept; congruence). split; [exact IH1|]. cbn [length]. lia.
  - rewrite decide_True by done. split; [by rewrite IH1|]. cbn [length]. lia.
Qed.

Lemma filter_map now timeout (l : list ConnectionInfo) :
  NoDup (id <$> l) ->
  list_to_map (M := gmap Z Conn) (entry <$> filter (kept now timeout) l) = filter (fun kv : Z * Conn => u64 (now - c_active kv.2) <= timeout) (list_to_map (entry <$> l)).
Proof.
  induction l as [|i l IH]; intros Hn; [symmetry; exact (map_filter_empty _)|]. cbn in Hn. apply list.NoDup_cons in Hn as [Hi Hn]. rewrite filter_cons, fmap_cons.
  assert (Hnone : list_to_map (M := gmap Z Conn) (entry <$> l) !! id i = None) by (apply not_elem_of_list_to_map_1; by rewrite entry_ids).
  change (list_to_map (entry i :: (entry <$> l))) with (<[id i := conn_of i]> (list_to_map (M := gmap Z Conn) (entry <$> l))).
  destruct (decide (kept now timeout i)) as [Hk|Hk]; unfold kept, expired in Hk.
  - apply Z.ltb_ge in Hk. rewrite map_filter_insert_True by done. rewrite fmap_cons, <- IH by done. done.
  - apply not_false_is_true, Z.ltb_lt in Hk. rewrite map_filter_insert_False by (cbn; lia). rewrite delete_id by done. by apply IH.
Qed.

Lemma timeout_rel p s now timeout :
  pool_rel p s -> 0 <= MaxConnections < 2 ^ 32 ->
  (pool_step (ORemoveTimedOut now timeout) p).1 = (spec_step (ORemoveTimedOut now timeout) s).1 /\
  pool_rel (pool_step (ORemoveTimedOut now timeout) p).2 (spec_step (ORemoveTimedOut now timeout) s).2.
Proof.
  intros Hr Hmax. cbn [pool_step spec_step]. unfold RemoveTimedOut. destruct (expire_used now timeout (slots_ p)) as [H1 H2]. fold (used p) in H1, H2.
  set (np := mkPool _ _ _). change (used np = filter (kept now timeout) (used p)) in H1. set (m := filter _ (conns s)).
  assert (Hm : m = list_to_map (entry <$> used np)) by (rewrite H1; unfold m; rewrite (pr_map _ _ Hr); symmetry; apply filter_map, Hr).
  assert (Hnd : NoDup (id <$> used np)) by (rewrite H1; eapply sublist_NoDup; [apply (pr_ids _ _ Hr)|apply fmap_sublist, sublist_filter]).
  assert (Hr' : pool_rel np (mkSpec m (next s))).
  { pose proof (used_bound p). pose proof (pr_len _ _ Hr). pose proof (pr_count _ _ Hr). split; cbn [slots_ count_ next_id_ conns next np]; try done.
    - by rewrite length_fmap.
    - apply Forall_fmap. eapply Forall_impl; [apply (pr_labels _ _ Hr)|]. intros sl Hsl. unfold compose, expire_slot. by destruct (_ && _).
    - fold np. rewrite H1. rewrite wrap_small by (unfold in_range; lia). lia.
    - apply Hr.
    - rewrite H1. apply Forall_forall; intros j Hj; apply list_elem_of_filter in Hj as [_ Hj]; pose proof (pr_fresh _ _ Hr) as Hfr; rewrite Forall_forall in Hfr; exact (Hfr j Hj). }
  split; [|exact Hr']. cbn [fst]. f_equal. rewrite (pr_size p s Hr). pose proof (pr_size np _ Hr') as Hs. cbn [conns] in Hs. rewrite Hs, H1.
  pose proof (used_bound p). pose proof (pr_len _ _ Hr). rewrite wrap_small by (unfold in_range; lia). lia.
Qed.

(** One operation. *)
Definition op_ok (o : PoolOp) : Prop := match o with OAdd _ _ _ (Some t) => CBuffer.text t | _ => True end.
Definition adds (o : PoolOp) : Z := match o with OAdd _ _ _ _ => 1 | _ => 0 end.

Lemma step_rel p s o :
  pool_rel p s -> 0 <= MaxConnections < 2 ^ 31 -> op_ok o -> next s + adds o < UINT32_MAX ->
  (pool_step o p).1 = (spec_step o s).1 /\ pool_rel (pool_step o p).2 (spec_step o s).2 /\ next (spec_step o s).2 <= next s + adds o.
Proof.
  intros Hr Hmax Hok Hn. assert (H32 : 0 <= MaxConnections < 2 ^ 32) by lia. pose proof (pr_count _ _ Hr) as Hcnt. pose proof (pr_size _ _ Hr) as Hsz.
  destruct o as [now ip port text|x|x st|now x|x|now timeout| | | |]; cbn [adds] in Hn |- *.
  - edestruct (pool_add_rel p s now ip port text) as [H1 H2]; [done..|cbn; lia|by destruct text|]. split_and!; [exact H1|exact H2|]. cbn. case_match; cbn; lia.
  - destruct (on_slot_rel p s x (fun s => mkSlot (info s) false) (u32 (count_ p - 1)) (fun _ => None)) as [H1 H2]; [done..|by left|done|]. cbn [pool_step spec_step]. unfold Remove.
    destruct (on_slot _ _ _ _) as [r p'], (spec_on _ _ _) as [r' s'] eqn:E. cbn in *. split_and!; [by f_equal|done|]. unfold spec_on in E. repeat case_match; simplify_eq/=; lia.
  - edestruct (on_slot_rel p s x (fun s => mkSlot (with_state st (info s)) (active s)) (count_ p) (fun c => Some (mkConn st (c_created c) (c_active c) (c_ip c) (c_port c) (c_label c)))) as [H1 H2]; [done..|by right|done|].
    cbn [pool_step spec_step]. unfold SetState. destruct (on_slot _ _ _ _) as [r p'], (spec_on _ _ _) as [r' s'] eqn:E. cbn in *. split_and!; [by f_equal|done|]. unfold spec_on in E. repeat case_match; simplify_eq/=; lia.
  - edestruct (on_slot_rel p s x (fun s => mkSlot (with_activity now (info s)) (active s)) (count_ p) (fun c => Some (mkConn (c_state c) (c_created c) now (c_ip c) (c_port c) (c_label c)))) as [H1 H2]; [done..|by right|done|].
    cbn [pool_step spec_step]. unfold Touch. destruct (on_slot _ _ _ _) as [r p'], (spec_on _ _ _) as [r' s'] eqn:E. cbn in *. split_and!; [by f_equal|done|]. unfold spec_on in E. repeat case_match; simplify_eq/=; lia.
  - cbn. split_and!; [|done|lia]. f_equal. unfold Find. pose proof (find_slot p s x Hr) as Hf. destruct (FindSlot x p) as [i|]; [|by rewrite Hf]. destruct Hf as (sl & Hi & _ & _ & Hm). cbn. by rewrite Hi, Hm.
  - destruct (timeout_rel p s now timeout Hr H32) as [H1 H2]. split_and!; [done..|cbn; lia].
  - cbn. unfold Count. rewrite Hcnt, Hsz. split_and!; [done..|lia].
  - cbn. unfold IsFull. rewrite Hcnt, Hsz. split_and!; [done..|lia].
  - cbn. unfold IsEmpty. rewrite Hcnt, Hsz. split_and!; [done..|lia].
  - assert (Hu : used (Clear p) = []).
    { unfold used, Clear. cbn. rewrite <- list_fmap_compose. clear. induction (slots_ p) as [|s l IH]; [done|exact IH]. }
    cbn. split_and!; [done| |lia]. split; try rewrite Hu; cbn [slots_ count_ next_id_ conns next Clear]; try done; [by rewrite length_fmap, (pr_len _ _ Hr)| |constructor|apply Hr].
    apply Forall_fmap. eapply Forall_impl; [apply (pr_labels _ _ Hr)|done].
Qed.

Fixpoint run {S} (step : PoolOp -> S -> PoolRes * S) (ops : list PoolOp) (s : S) : list PoolRes * S :=
  match ops with [] => ([], s) | o :: ops => let '(r, s) := step o s in let '(rs, s) := run step ops s in (r :: rs, s) end.

Lemma run_rel ops p s :
  pool_rel p s -> 0 <= MaxConnections < 2 ^ 31 -> Forall op_ok ops -> next s + Z.of_nat (length ops) < UINT32_MAX ->
  (run pool_step ops p).1 = (run spec_step ops s).1 /\ pool_rel (run pool_step ops p).2 (run spec_step ops s).2.
Proof.
  revert p s. induction ops as [|o ops IH]; intros p s Hr Hmax Hok Hn; [done|]. apply Forall_cons_iff in Hok as [Ho Hok]. cbn [length] in Hn.
  assert (adds o <= 1) by (destruct o; cbn; lia). edestruct (step_rel p s o) as (H1 & H2 & H3); [done..|lia|]. cbn [run].
  destruct (pool_step o p) as [r p'], (spec_step o s) as [r' s']. cbn in H1, H2, H3. subst r'. destruct (IH p' s') as [I1 I2]; [done..|lia|].
  destruct (run pool_step ops p') as [rs p''], (run spec_step ops s') as [rs' s'']. cbn in *. by rewrite I1.
Qed.

Lemma pool_ctor_rel garbage :
  Z.of_nat (length garbage) = MaxConnections -> Forall (fun i => length (label i) = 32%nat) garbage -> pool_rel (ConnectionPool_ctor garbage) (mkSpec ∅ 0).
Proof.
  intros Hlen Hg. assert (Hu : used (ConnectionPool_ctor garbage) = []).
  { unfold used, ConnectionPool_ctor. cbn. clear. induction garbage as [|s l IH]; [done|exact IH]. }
  split; try rewrite Hu; cbn [slots_ count_ next_id_ conns next ConnectionPool_ctor]; try done; [by rewrite length_fmap| |constructor].
  apply Forall_fmap. eapply Forall_impl; [exact Hg|done].
Qed.

(** The connection pool is a finite map: whatever the storage holds before the constructor,
    every sequence of fewer than UINT32_MAX calls of Add, Remove, SetState, Touch, Find,
    RemoveTimedOut, Count, IsFull, IsEmpty and Clear returns what a map from fresh
    identifiers to at most MaxConnections connections returns, errors included; labels
    are cut to 31 characters, and the storage of an old label never shows. *)
Lemma connection_pool_refines garbage ops :
  Z.of_nat (length garbage) = MaxConnections -> MaxConnections < 2 ^ 31 -> Forall (fun i => length (label i) = 32%nat) garbage ->
  Forall op_ok ops -> Z.of_nat (length ops) < UINT32_MAX ->
  (run pool_step ops (ConnectionPool_ctor garbage)).1 = (run spec_step ops (mkSpec ∅ 0)).1.
Proof. intros Hlen Hmax Hg Hok Hn. apply run_rel; [by apply pool_ctor_rel|lia|done|cbn; lia]. Qed.

End Pool.

Definition old_info : ConnectionInfo := mkInfo 7 kClosed 1 2 3 4 (repeat 88 32).
Definition demo_ops : list PoolOp :=
  [OAdd 100 1 80 (Some [97; 98]); OAdd 110 2 81 None; OAdd 120 3 82 None; OFind 0; OFind 1; OTouch 500 1; OSetState 1 kConnected;
   ORemoveTimedOut 600 200; OFind 0; OFind 1; ORemove UINT32_MAX; ORemove 0; OAdd 700 4 83 None; OCount; OIsFull; OClear; OIsEmpty].
Lemma connection_pool_refines_witness :
  (run (pool_step 2) demo_ops (ConnectionPool_ctor (repeat old_info 2))).1 = (run (spec_step 2) demo_ops (mkSpec ∅ 0)).1 /\
  (run (pool_step 2) demo_ops (ConnectionPool_ctor (repeat old_info 2))).1 =
    [RAdd (inl 0); RAdd (inl 1); RAdd (inr kPoolFull); RFind (Some (mkConn kIdle 100 100 1 80 [97; 98])); RFind (Some (mkConn kIdle 110 110 2 81 []));
     RErr None; RErr None; RNum 1; RFind None; RFind (Some (mkConn kConnected 110 500 2 81 [])); RErr (Some kInvalidId); RErr (Some kNotFound);
     RAdd (inl 2); RNum 2; RBool true; RUnit; RBool true].
Proof.
  split; [|vm_compute; reflexivity]. apply (connection_pool_refines 2); [reflexivity|lia| | |vm_compute; reflexivity].
  - by repeat constructor.
  - unfold demo_ops. repeat constructor; cbn; try done; unfold CBuffer.text; repeat constructor; done.
Defined.

(** The bound on the calls is needed: once the counter has wrapped to 1, Add gives a
    new connection the identifier of one that is still open, and Find and Remove reach
    only the one in the lower slot. *)
Lemma wrapped_id_collides : exists p,
  p = mkPool [mkSlot (mkInfo 1 kConnected 0 0 1 80 (repeat 0 32)) true; mkSlot old_info false; mkSlot old_info false] 1 (UINT32_MAX - 1) /\
  let '(r1, p1) := Add 3 10 2 81 None p in let '(r2, p2) := Add 3 11 3 82 None p1 in
  r1 = inl (UINT32_MAX - 1) /\ r2 = inl 1 /\ remote_ip <$> Find 1 p2 = Some 1 /\ count_ p2 = 3.
Proof. eexists. split; [reflexivity|]. vm_compute. done. Qed.

(** ** QoS profiles *)
Module Qos.

Inductive ReliabilityPolicy := kBestEffort | kReliable.
Inductive HistoryPolicy := kKeepLast | kKeepAll.
Inductive DurabilityPolicy := kVolatile | kTransientLocal.
#[global] Instance rel_eq : EqDecision ReliabilityPolicy.
Proof. solve_decision. Defined.
#[global] Instance hist_eq : EqDecision HistoryPolicy.
Proof. solve_decision. Defined.
#[global] Instance dur_eq : EqDecision DurabilityPolicy.
Proof. solve_decision. Defined.

Record QosProfile := mkQos {
  reliability : ReliabilityPolicy; history : HistoryPolicy; durability : DurabilityPolicy; history_depth : Z; deadline_ms : Z; lifespan_ms : Z
}.
Definition eqb (a b : QosProfile) : bool :=
  bool_decide (reliability a = reliability b) && bool_decide (history a = history b) && bool_decide (durability a = durability b) &&
  (history_depth a =? history_depth b) && (deadline_ms a =? deadline_ms b) && (lifespan_ms a =? lifespan_ms b).

Definition QosSystemDefault : QosProfile := mkQos kBestEffort kKeepLast kVolatile 10 0 0.
Definition QosSensorData : QosProfile := mkQos kBestEffort kKeepLast kVolatile 1 0 0.
Definition QosControlCommand : QosProfile := mkQos kReliable kKeepAll kVolatile 0 100 0.
Definition QosReliableSensor : QosProfile := mkQos kReliable kKeepLast kVolatile 5 0 1000.

Definition IsCompatible (pub_qos sub_qos : QosProfile) : bool :=
  let reliability_compatible := match reliability pub_qos with kReliable => true | kBestEffort => bool_decide (reliability sub_qos = kBestEffort) end in
  let durability_compatible := match durability pub_qos with kTransientLocal => true | kVolatile => bool_decide (durability sub_qos = kVolatile) end in
  reliability_compatible && durability_compatible.
Definition IsDeadlineExpired (profile : QosProfile) (elapsed_ms : Z) : bool := (0 <? deadline_ms profile) && (deadline_ms profile <? elapsed_ms).
Definition IsLifespanExpired (profile : QosProfile) (elapsed_ms : Z) : bool := (0 <? lifespan_ms profile) && (lifespan_ms profile <? elapsed_ms).

(** operator== decides equality. *)
Lemma eqb_spec a b : eqb a b = true <-> a = b.
Proof.
  unfold eqb. rewrite !andb_true_iff, !bool_decide_eq_true, !Z.eqb_eq. destruct a, b; cbn. split; [intros [ [ [ [ [-> ->] ->] ->] ->] ->]; done|intros [= -> -> -> -> -> ->]; done].
Qed.

(** Compatibility is a preorder whose classes are the pairs (reliability, durability):
    a publisher may stand behind a relay that is itself compatible with the subscriber. *)
#[global] Instance compatible_preorder : PreOrder (fun a b => IsCompatible a b = true).
Proof.
  split.
  - intros [ [] ? [] ? ? ?]; reflexivity.
  - intros [ [] ? [] ? ? ?] [ [] ? [] ? ? ?] [ [] ? [] ? ? ?]; vm_compute; congruence.
Qed.

Lemma compatible_both a b : IsCompatible a b = true -> IsCompatible b a = true -> reliability a = reliability b /\ durability a = durability b.
Proof. destruct a as [ [] ? [] ? ? ?], b as [ [] ? [] ? ? ?]; vm_compute; try congruence; done. Qed.

(** A profile with no deadline never expires; otherwise expiry is monotone in time and
    happens exactly after the deadline. *)
Lemma deadline_exact q t : IsDeadlineExpired q t = true <-> 0 < deadline_ms q < t.
Proof. unfold IsDeadlineExpired. rewrite andb_true_iff, !Z.ltb_lt. lia. Qed.

End Qos.
