(* ===== verification/Semaphore.v ===== *)
(** * Semaphores (include/osp/semaphore.hpp)

    LightSemaphore over a POSIX semaphore with a counter beside it, and the same class
    built on a mutex and a condition variable; BinarySemaphore, on a mutex and a
    condition variable; PosixSemaphore; and the timeouts they compute.  Every atomic
    access, system call and critical-section step of any number of threads is one step. *)

From Stdlib Require Import ZArith Lia Bool.
From stdpp Require Import base numbers list option relations.
From S2P Require Import Prelude.

Open Scope Z_scope.

Inductive SemaphoreError := kTimeout | kInterrupted | kInvalid.

(** ** Absolute deadlines of the timed waits: [(tv_sec, tv_nsec)] *)

Definition sem_deadline (tv_sec tv_nsec timeout_us : Z) : Z * Z :=
  let nsec := u64 (tv_nsec + timeout_us mod 1000000 * 1000) in
  (tv_sec + (timeout_us / 1000000 + nsec / 1000000000), nsec mod 1000000000).

(** The deadline is the clock plus the timeout, as a normalised timespec. *)
Lemma sem_deadline_exact s ns us : 0 <= ns < 1000000000 -> 0 <= us ->
  let '(s', ns') := sem_deadline s ns us in s' * 1000000000 + ns' = s * 1000000000 + ns + us * 1000 /\ 0 <= ns' < 1000000000.
Proof.
  intros Hns Hus. unfold sem_deadline. pose proof (Z.mod_pos_bound us 1000000 ltac:(lia)). rewrite wrap_small by (unfold in_range; lia).
  set (n := ns + us mod 1000000 * 1000). pose proof (Z.div_mod n 1000000000 ltac:(lia)). pose proof (Z.mod_pos_bound n 1000000000 ltac:(lia)).
  pose proof (Z.div_mod us 1000000 ltac:(lia)). lia.
Qed.

(** The ticks of RtSemaphore::WaitFor; [None] is RT_WAITING_FOREVER. *)
Definition rt_ticks (RT_TICK_PER_SECOND timeout_us : Z) : option Z :=
  let us_per_tick := 1000000 / RT_TICK_PER_SECOND in
  let ticks := u64 (timeout_us + us_per_tick - 1) / us_per_tick in
  if 2147483647 <? ticks then None else Some ticks.

(** A finite wait lasts at least the timeout and less than a tick more. *)
Lemma rt_ticks_rounds_up tps us n : 0 < tps <= 1000000 -> 0 <= us < 2 ^ 64 - 1000000 -> rt_ticks tps us = Some n ->
  us <= n * (1000000 / tps) < us + 1000000 / tps.
Proof.
  intros Htps Hus. unfold rt_ticks. assert (Hd : 1 <= 1000000 / tps <= 1000000).
  { split; [apply Z.div_le_lower_bound; lia|]. apply Z.div_le_upper_bound; [lia|]. nia. }
  set (d := 1000000 / tps) in *. rewrite wrap_small by (unfold in_range; lia). destruct (_ <? _); [done|]. intros [= <-].
  pose proof (Z.div_mod (us + d - 1) d ltac:(lia)). pose proof (Z.mod_pos_bound (us + d - 1) d ltac:(lia)). nia.
Qed.
(** The largest timeouts wrap around: waiting for (almost) ever becomes not waiting. *)
Lemma rt_ticks_wraps : rt_ticks 1000 (2 ^ 64 - 1) = Some 0.
Proof. reflexivity. Qed.

(** The pauses of PosixSemaphore::TimedWaitPoll. *)
Definition kInitialSleepUs : Z := 50.
Definition kMaxSleepUs : Z := 1000.
Definition next_sleep (sleep_us : Z) : Z :=
  if sleep_us <? kMaxSleepUs then let s := u64 (sleep_us * 2) in if kMaxSleepUs <? s then kMaxSleepUs else s else sleep_us.

(** ** LightSemaphore and PosixSemaphore over a POSIX semaphore *)
Module Light.
Section Light.
(** [macos]: the timed wait polls.  sem_post fails at SEM_VALUE_MAX. *)
Context (macos : bool) (SEM_VALUE_MAX : Z).

Record LightSemaphore := mkLight { count_ : Z; sem_ : Z; valid_ : bool }.
(** sem_init fails when the initial value is above SEM_VALUE_MAX. *)
Definition LightSemaphore_ctor (initial_count : Z) : LightSemaphore :=
  if initial_count <=? SEM_VALUE_MAX then mkLight initial_count initial_count true else mkLight 0 0 false.

(** Where a call stands: [lPost n], n calls of sem_post are left; [lTake], the kernel
    semaphore has been decremented and count_ not yet. *)
Inductive LightPc := lIdle | lPost (n : Z) | lWait | lTimed | lPoll | lPollLast | lTake.
(** What a thread does next: call a function, or go on; [intr]: a signal arrives,
    [late]: the deadline has passed. *)
Inductive LightAct := aSignal | aSignalN (n : Z) | aWait | aTryWait | aWaitFor (clock_ok : bool) | aGo (intr late : bool).

(** The result of a step: the semaphore, the thread, and, when the call returns,
    whether it has taken a permit.  [None]: blocked, or no such step. *)
Definition LightRes : Type := option (LightSemaphore * LightPc * option bool).

Definition sem_post (s : LightSemaphore) : LightSemaphore := mkLight (count_ s) (if sem_ s <? SEM_VALUE_MAX then sem_ s + 1 else sem_ s) (valid_ s).
Definition sem_trywait (s : LightSemaphore) : option LightSemaphore := if 0 <? sem_ s then Some (mkLight (count_ s) (sem_ s - 1) (valid_ s)) else None.
Definition SignalN (n : Z) (s : LightSemaphore) : LightRes :=
  if n =? 0 then Some (s, lIdle, None)
  else let s := mkLight (u32 (count_ s + n)) (sem_ s) (valid_ s) in Some (s, if valid_ s then lPost n else lIdle, None).
Definition Signal (s : LightSemaphore) : LightRes := SignalN 1 s.
Definition Wait (s : LightSemaphore) : LightRes := if valid_ s then Some (s, lWait, None) else Some (s, lIdle, Some false).
(** A call of sem_trywait; what follows when it fails. *)
Definition try_take (s : LightSemaphore) (otherwise : LightRes) : LightRes :=
  if valid_ s then match sem_trywait s with Some s' => Some (s', lTake, None) | None => otherwise end else otherwise.
Definition TryWait (s : LightSemaphore) : LightRes := try_take s (Some (s, lIdle, Some false)).
Definition WaitFor (clock_ok : bool) (s : LightSemaphore) : LightRes :=
  if macos then try_take s (Some (s, lPoll, None))
  else if valid_ s && clock_ok then Some (s, lTimed, None) else Some (s, lIdle, Some false).
Definition Count (s : LightSemaphore) : Z := count_ s.

Definition light_step (a : LightAct) (pc : LightPc) (s : LightSemaphore) : LightRes :=
  match pc, a with
  | lIdle, aSignal => Signal s
  | lIdle, aSignalN n => SignalN n s
  | lIdle, aWait => Wait s
  | lIdle, aTryWait => TryWait s
  | lIdle, aWaitFor ok => WaitFor ok s
  | lPost n, aGo _ _ => Some (sem_post s, if n - 1 =? 0 then lIdle else lPost (n - 1), None)
  | lWait, aGo intr _ => if intr then Some (s, lWait, None) else try_take s None
  | lTimed, aGo intr late => if intr then Some (s, lTimed, None) else try_take s (if late then Some (s, lIdle, Some false) else None)
  | lPoll, aGo _ late => if late then Some (s, lPollLast, None) else try_take s (Some (s, lPoll, None))
  | lPollLast, aGo _ _ =>
    if valid_ s then match sem_trywait s with Some s' => Some (s', lIdle, Some true) | None => Some (s, lIdle, Some false) end
    else Some (s, lIdle, Some false)
  | lTake, aGo _ _ => Some (mkLight (u32 (count_ s - 1)) (sem_ s) (valid_ s), lIdle, Some true)
  | _, _ => None
  end.

(** The threads, with the permits given by the calls of Signal and SignalN, and those
    taken by the waits that have returned. *)
Record LightWorld := mkWorld { light : LightSemaphore; pcs : list LightPc; given : Z; taken : Z }.
Definition light_start (n : nat) (initial_count : Z) : LightWorld := mkWorld (LightSemaphore_ctor initial_count) (replicate n lIdle) 0 0.
Definition gives (a : LightAct) : Z := match a with aSignal => 1 | aSignalN n => n | _ => 0 end.
Definition light_exec (t : nat) (a : LightAct) (w : LightWorld) : option LightWorld :=
  pc ← pcs w !! t;
  '(s, pc', r) ← light_step a pc (light w);
  Some (mkWorld s (<[t := pc']> (pcs w)) (given w + gives a) (taken w + match r with Some true => 1 | _ => 0 end)).
Definition act_ok (a : LightAct) : Prop := match a with aSignalN n => 0 <= n < 2 ^ 32 | _ => True end.
Definition light_trans (w w' : LightWorld) : Prop := exists t a, act_ok a /\ light_exec t a w = Some w'.

(** ** Permits *)

Definition posts (pc : LightPc) : nat := match pc with lPost n => Z.to_nat n | _ => 0 end.
Definition takes (pc : LightPc) : nat := match pc with lTake => 1 | _ => 0 end.
(** A thread that can only wait for a permit. *)
Definition at_rest (pc : LightPc) : bool := match pc with lIdle | lWait => true | _ => false end.
Definition pc_ok (pc : LightPc) : Prop := match pc with lPost n => 1 <= n < 2 ^ 32 | lTimed => macos = false | lPoll | lPollLast => macos = true | _ => True end.

Definition in_flight (w : LightWorld) : nat := sum_list_with posts (pcs w) + sum_list_with takes (pcs w).
Record permits (init : Z) (w : LightWorld) : Prop := {
  pm_valid : valid_ (light w) = true;
  pm_pcs : Forall pc_ok (pcs w);
  pm_count : 0 <= count_ (light w) < 2 ^ 32;
  pm_sem : 0 <= sem_ (light w);
  pm_taken : 0 <= taken w;
  pm_sum : taken w + sem_ (light w) + Z.of_nat (in_flight w) = init + given w;
  pm_shown : macos = false -> count_ (light w) = sem_ (light w) + Z.of_nat (in_flight w)
}.

Definition acquired (r : option bool) : Z := match r with Some true => 1 | _ => 0 end.
(** What one step does to the permits. *)
Lemma light_step_permits a pc s s' pc' r :
  light_step a pc s = Some (s', pc', r) -> act_ok a -> pc_ok pc -> valid_ s = true -> 0 <= sem_ s -> 0 <= count_ s < 2 ^ 32 ->
  (sem_ s + Z.of_nat (posts pc) <= SEM_VALUE_MAX) ->
  valid_ s' = true /\ pc_ok pc' /\ 0 <= sem_ s' /\ 0 <= count_ s' < 2 ^ 32 /\
  sem_ s' + Z.of_nat (posts pc' + takes pc') + acquired r = sem_ s + Z.of_nat (posts pc + takes pc) + gives a /\
  (macos = false -> count_ s' = u32 (count_ s + gives a - acquired r)).
Proof.
  intros E Ha Hpc Hv Hs Hc Hroom. assert (Hkeep : count_ s = u32 (count_ s + 0 - 0)) by (rewrite wrap_small; unfold in_range; lia).
  destruct pc as [|n| | | | |], a as [|m| | |ok|intr late]; try discriminate E; cbn [light_step] in E;
    unfold Signal, SignalN, Wait, TryWait, WaitFor, try_take, sem_trywait, sem_post in E; rewrite ?Hv in E; cbn [valid_ count_ sem_] in E; cbn in Hpc, Ha, Hroom;
    simplify_eq/=; repeat (case_match; simplify_eq/=); cbn [posts takes acquired gives pc_ok valid_ sem_ count_] in *; repeat match goal with H : (_ <? _) = true |- _ => apply Z.ltb_lt in H | H : (_ <? _) = false |- _ => apply Z.ltb_ge in H | H : (_ =? _) = true |- _ => apply Z.eqb_eq in H | H : (_ =? _) = false |- _ => apply Z.eqb_neq in H end;
    split_and!; try done; try lia; try (apply (wrap_range 32); lia); intros; try (f_equal; lia); try done; try (rewrite wrap_small by (unfold in_range; lia); lia).
Qed.
Lemma gives_nonneg a : act_ok a -> 0 <= gives a.
Proof. destruct a; cbn; lia. Qed.

Lemma light_exec_permits init t a w w' :
  SEM_VALUE_MAX < 2 ^ 32 -> act_ok a -> light_exec t a w = Some w' -> init + given w' <= SEM_VALUE_MAX -> permits init w -> permits init w'.
Proof.
  intros Hmax Ha E Hb [Hv Hpcs Hc Hs Ht Hsum Hshow]. unfold light_exec in E. destruct (pcs w !! t) as [pc|] eqn:Hpc; [cbn in E|done].
  destruct (light_step a pc (light w)) as [ [ [s' pc'] r]|] eqn:Es; [|done]. injection E as <-. cbn [given] in Hb. pose proof (gives_nonneg a Ha) as Hg.
  pose proof (sum_insert posts (pcs w) t pc pc' Hpc) as S1. pose proof (sum_insert takes (pcs w) t pc pc' Hpc) as S2. unfold in_flight in *.
  assert (Hok : pc_ok pc) by (rewrite Forall_lookup in Hpcs; exact (Hpcs _ _ Hpc)).
  assert (Hle : (posts pc <= sum_list_with posts (pcs w))%nat) by (pose proof (sum_insert posts (pcs w) t pc lIdle Hpc) as S3; cbn [posts] in S3; lia).
  destruct (light_step_permits a pc (light w) s' pc' r Es Ha Hok Hv Hs Hc ltac:(lia)) as (V & P & S & C & B & D). fold (acquired r).
  split; cbn [light pcs given taken]; unfold in_flight; cbn [pcs]; try done.
  - by apply Forall_insert.
  - destruct r as [ []|]; cbn; lia.
  - fold (acquired r). lia.
  - intros Hm. rewrite (D Hm), (Hshow Hm). rewrite wrap_small by (unfold in_range; destruct r as [ []|]; cbn in *; lia). lia.
Qed.

Lemma light_reachable init n w :
  0 <= init <= SEM_VALUE_MAX -> SEM_VALUE_MAX < 2 ^ 32 -> rtc light_trans (light_start n init) w -> init + given w <= SEM_VALUE_MAX -> permits init w.
Proof.
  intros Hi Hmax Hr. refine (proj2 (rtc_invariant light_trans (fun w => 0 <= given w /\ (init + given w <= SEM_VALUE_MAX -> permits init w)) _ _ _ _ Hr)).
  - cbn. split; [lia|]. intros _. unfold light_start, LightSemaphore_ctor. rewrite (proj2 (Z.leb_le _ _)) by lia.
    assert (Hz : in_flight (mkWorld (mkLight init init true) (replicate n lIdle) 0 0) = 0%nat) by (unfold in_flight; cbn; clear; induction n as [|n IH]; cbn in *; lia).
    split; rewrite ?Hz; cbn [light valid_ count_ sem_ taken given pcs]; try done; try lia. by apply Forall_replicate.
  - intros x y (t & a & Ha & E) [Hg Hp]. pose proof (gives_nonneg a Ha). assert (Hy : given y = given x + gives a).
    { unfold light_exec in E. destruct (pcs x !! t); [cbn in E|done]. by destruct (light_step _ _ _) as [ [ [? ?] ?]|]; simplify_eq/=. }
    split; [lia|]. intros Hb. eapply light_exec_permits; [done..|apply Hp; lia].
Qed.

(** C15. The LightSemaphore of the POSIX builds, with any number of threads at any
    interleaving, as long as the permits ever given fit the kernel's counter: the
    semaphore neither loses nor invents a permit: the waits that have succeeded, the
    kernel counter and the permits in flight add up to the initial value and the permits
    signalled, so no more waits succeed than permits were given; except in the macOS build,
    whose timed wait polls ([poll_last_try_keeps_count]), Count() shows the counter with
    the permits in flight; and when every call has returned or is blocked in Wait, and one
    is blocked, every permit ever given has been taken.  The build with a condition variable
    for other platforms is another semaphore, which can lose a wake-up
    ([Monitor.light_cv_loses_wakeup]). *)
Theorem semaphore_permits_conserved init n w :
  0 <= init <= SEM_VALUE_MAX -> SEM_VALUE_MAX < 2 ^ 32 -> rtc light_trans (light_start n init) w -> init + given w <= SEM_VALUE_MAX ->
  taken w + sem_ (light w) + Z.of_nat (in_flight w) = init + given w /\ taken w <= init + given w /\
  (macos = false -> Count (light w) = sem_ (light w) + Z.of_nat (in_flight w)) /\
  (Forall (fun pc => at_rest pc = true) (pcs w) -> (exists t, pcs w !! t = Some lWait /\ light_exec t (aGo false false) w = None) ->
   taken w = init + given w).
Proof.
  intros Hi Hmax Hr Hb. destruct (light_reachable init n w Hi Hmax Hr Hb) as [Hv Hpcs Hc Hs Ht Hsum Hshow]. split_and!; [done|lia|done|].
  intros Hrest (t & Hpc & E). assert (Hz : in_flight w = 0%nat).
  { unfold in_flight. clear -Hrest. induction Hrest as [|pc l Hx _ IH]; [done|]. destruct pc; cbn in *; try done; lia. }
  unfold light_exec in E. rewrite Hpc in E. cbn in E. unfold try_take, sem_trywait in E. rewrite Hv in E. destruct (Z.ltb_spec 0 (sem_ (light w))); [done|]. lia.
Qed.

End Light.

Definition run_light macos max : list (nat * LightAct) -> LightWorld -> option LightWorld :=
  fix go l w := match l with [] => Some w | (t, a) :: l => match light_exec macos max t a w with Some w => go l w | None => None end end.
Lemma run_light_reach macos max l w w' : Forall (fun x => act_ok x.2) l -> run_light macos max l w = Some w' -> rtc (light_trans macos max) w w'.
Proof.
  revert w. induction l as [|[t a] l IH]; intros w Hl E; cbn in E; [by injection E as ->|]. apply Forall_cons_iff in Hl as [Ha Hl].
  destruct (light_exec macos max t a w) as [w1|] eqn:E1; [|done]. eapply rtc_l; [by exists t, a|by apply IH].
Qed.

Definition demo_light : list (nat * LightAct) :=
  [(0%nat, aWait); (1%nat, aSignalN 2); (1%nat, aGo false false); (2%nat, aTryWait); (1%nat, aGo false false); (0%nat, aGo true false); (0%nat, aGo false false);
   (2%nat, aGo false false); (2%nat, aWait); (0%nat, aGo false false)].
Lemma semaphore_permits_conserved_witness :
  exists w, run_light false 2147483647 demo_light (light_start 2147483647 3 0) = Some w /\ taken w = 2 /\ taken w = 0 + given w.
Proof.
  destruct (run_light false 2147483647 demo_light (light_start 2147483647 3 0)) as [w|] eqn:E; [|vm_compute in E; discriminate E].
  assert (Hw : w = mkWorld (mkLight 0 0 true) [lIdle; lIdle; lWait] 2 2) by (vm_compute in E; congruence).
  exists w. split; [done|]. split; [by rewrite Hw|].
  destruct (semaphore_permits_conserved false 2147483647 0 3 w) as (_ & _ & _ & H); [lia|lia| |rewrite Hw; cbn; lia|].
  - eapply run_light_reach; [|exact E]. unfold demo_light. repeat constructor; cbn; lia.
  - apply H; rewrite Hw; [by repeat constructor|]. exists 2%nat. split; reflexivity.
Defined.

(** The polling wait takes a permit on its last try without lowering the counter: Count()
    shows a permit that is gone. *)
Lemma poll_last_try_keeps_count : exists w,
  run_light true 2147483647 [(0%nat, aWaitFor true); (0%nat, aGo false true); (1%nat, aSignal); (1%nat, aGo false false); (0%nat, aGo false false)] (light_start 2147483647 2 0) = Some w /\
  taken w = 1 /\ sem_ (light w) = 0 /\ Count (light w) = 1 /\ pcs w = [lIdle; lIdle].
Proof. eexists. split; [vm_compute; reflexivity|]. vm_compute. done. Qed.
(** When sem_init fails, Wait returns at once without a permit and Count() counts
    signals that reach nobody. *)
Lemma invalid_semaphore_passes : exists w,
  run_light false 2147483647 [(0%nat, aWait); (1%nat, aSignal)] (light_start 2147483647 2 (2 ^ 31)) = Some w /\
  pcs w = [lIdle; lIdle] /\ taken w = 0 /\ Count (light w) = 1.
Proof. eexists. split; [vm_compute; reflexivity|]. vm_compute. done. Qed.

End Light.

(** ** PosixSemaphore *)
Module Posix.
Section Posix.
Context (linux : bool) (SEM_VALUE_MAX : Z).

Record PosixSemaphore := mkPosix { psem_ : Z; pvalid_ : bool }.
Definition PosixSemaphore_ctor (initial_count : Z) : PosixSemaphore :=
  if initial_count <=? SEM_VALUE_MAX then mkPosix initial_count true else mkPosix 0 false.

(** [pPolling]: between two tries of TimedWaitPoll, with the length of the pause. *)
Inductive PosixPc := pIdle | pWaiting | pTimed | pPolling (sleep_us : Z).
Inductive PosixAct := pPost | pWait | pTryWait | pWaitFor (clock_ok : bool) | pGo (intr late : bool).
(** A failed assertion, a blocked thread, or a step. *)
Inductive PosixRes := pAssert | pBlocked | pStep (s : PosixSemaphore) (pc : PosixPc) (r : option bool).

Definition psem_trywait (s : PosixSemaphore) (otherwise : PosixRes) : PosixRes :=
  if 0 <? psem_ s then pStep (mkPosix (psem_ s - 1) (pvalid_ s)) pIdle (Some true) else otherwise.
Definition posix_step (a : PosixAct) (pc : PosixPc) (s : PosixSemaphore) : PosixRes :=
  match pc, a with
  | pIdle, pPost => if pvalid_ s then pStep (mkPosix (if psem_ s <? SEM_VALUE_MAX then psem_ s + 1 else psem_ s) true) pIdle None else pAssert
  | pIdle, pWait => if pvalid_ s then pStep s pWaiting None else pAssert
  | pIdle, pTryWait => if pvalid_ s then psem_trywait s (pStep s pIdle (Some false)) else pAssert
  | pIdle, pWaitFor ok =>
    if pvalid_ s then
      if linux then if ok then pStep s pTimed None else pStep s pIdle (Some false)
      else psem_trywait s (pStep s (pPolling kInitialSleepUs) None)
    else pAssert
  | pWaiting, pGo intr _ => if intr then pStep s pWaiting None else psem_trywait s pBlocked
  | pTimed, pGo intr late => if intr then pStep s pTimed None else psem_trywait s (if late then pStep s pIdle (Some false) else pBlocked)
  | pPolling sleep_us, pGo _ late => if late then psem_trywait s (pStep s pIdle (Some false)) else psem_trywait s (pStep s (pPolling (next_sleep sleep_us)) None)
  | _, _ => pBlocked
  end.

(** A call succeeds exactly when it takes a permit, and a post adds one while there is
    room; a semaphore that could not be created stops the program at its first use. *)
Lemma posix_step_permits a pc s s' pc' r :
  posix_step a pc s = pStep s' pc' r -> pvalid_ s = true -> psem_ s < SEM_VALUE_MAX ->
  pvalid_ s' = true /\ psem_ s' + (match r with Some true => 1 | _ => 0 end) = psem_ s + (match a with pPost => 1 | _ => 0 end).
Proof.
  intros E Hv Hroom. destruct pc, a; try discriminate E; cbn [posix_step] in E; unfold psem_trywait in E; rewrite ?Hv in E; simplify_eq/=;
    repeat (case_match; simplify_eq/=); repeat match goal with H : (_ <? _) = false |- _ => apply Z.ltb_ge in H end; split; try done; lia.
Qed.
Lemma posix_blocks_only_empty pc s late : posix_step (pGo false late) pc s = pBlocked -> pc <> pIdle -> psem_ s <= 0.
Proof. intros E Hpc. destruct pc; cbn [posix_step] in E; unfold psem_trywait in E; try done; repeat (case_match; simplify_eq/=); repeat match goal with H : (_ <? _) = false |- _ => apply Z.ltb_ge in H end; done. Qed.
(** The pauses between the tries stay within their bound. *)
Lemma next_sleep_bounded x : kInitialSleepUs <= x <= kMaxSleepUs -> kInitialSleepUs <= next_sleep x <= kMaxSleepUs.
Proof.
  unfold next_sleep, kInitialSleepUs, kMaxSleepUs. intros Hx. destruct (Z.ltb_spec x 1000); [|lia]. rewrite wrap_small by (unfold in_range; lia). destruct (Z.ltb_spec 1000 (x * 2)); lia.
Qed.

End Posix.
End Posix.

(** ** Semaphores on a mutex and a condition variable *)
Module Monitor.

(** How the two classes differ: whether Signal takes the mutex, what a signal of [n]
    does to the counter, and what a successful wait does. *)
Record Policy := mkPolicy { locks : bool; raise : Z -> Z -> Z; lower : Z -> Z }.
Definition binary : Policy := mkPolicy true (fun _ _ => 1) (fun _ => 0).
Definition light_cv : Policy := mkPolicy false (fun n c => u32 (c + n)) (fun c => u32 (c - 1)).

Section Monitor.
Context (P : Policy).

(** Where a call stands.  [mLock]: about to lock the mutex (on the first entry or after a
    wake-up) and then look; [mCheck]: holding it, about to evaluate the predicate; [mPass]:
    the predicate was true; [mBlock]: it was false, about to wait; [mSleep]: waiting, the
    mutex released.  [last]: the timeout has passed, or there is none to wait for
    (TryWait); [timed]: it may pass. *)
Inductive MonPc :=
| mIdle | mLock (timed last : bool) | mCheck (timed last : bool) | mPass | mBlock (timed : bool) | mSleep (timed : bool)
| mRaiseLock (n : Z) | mRaise (n : Z) | mNotify.
Inductive MonAct := bSignal (n : Z) | bWait | bTryWait | bWaitFor | bGo | bSpurious | bLate.

(** [holder]: the thread that holds the mutex. *)
Record Monitor := mkMonitor { count_ : Z; holder : option nat; pcs : list MonPc; given : Z; taken : Z }.
Definition set_thread (t : nat) (pc : MonPc) (w : Monitor) : Monitor := mkMonitor (count_ w) (holder w) (<[t := pc]> (pcs w)) (given w) (taken w).
Definition set_holder (h : option nat) (w : Monitor) : Monitor := mkMonitor (count_ w) h (pcs w) (given w) (taken w).
Definition set_count (c : Z) (w : Monitor) : Monitor := mkMonitor c (holder w) (pcs w) (given w) (taken w).
Definition Monitor_ctor (n : nat) (count : Z) : Monitor := mkMonitor count None (replicate n mIdle) 0 0.
(** The constructor of BinarySemaphore. *)
Definition binary_count (initial_count : Z) : Z := if 0 <? initial_count then 1 else 0.

Definition is_asleep (pc : MonPc) : bool := match pc with mSleep _ => true | _ => false end.
(** notify_one wakes the sleeper [v], which the system chooses; nothing when none sleeps. *)
Definition notify_one (v : nat) (w : Monitor) : option Monitor :=
  if existsb is_asleep (pcs w) then
    match pcs w !! v with Some (mSleep timed) => Some (set_thread v (mLock timed false) w) | _ => None end
  else Some w.

(** One step of thread [t]; [None]: blocked, or no such step.  [v]: see [notify_one]. *)
Definition mon_exec (t v : nat) (a : MonAct) (w : Monitor) : option Monitor :=
  match pcs w !! t with
  | None => None
  | Some pc =>
    match pc, a with
    | mIdle, bSignal n => Some (set_thread t (if locks P then mRaiseLock n else mRaise n) (mkMonitor (count_ w) (holder w) (pcs w) (given w + n) (taken w)))
    | mIdle, bWait => Some (set_thread t (mLock false false) w)
    | mIdle, bTryWait => Some (set_thread t (mLock false true) w)
    | mIdle, bWaitFor => Some (set_thread t (mLock true false) w)
    | mLock timed last, bGo => match holder w with None => Some (set_thread t (mCheck timed last) (set_holder (Some t) w)) | Some _ => None end
    | mCheck timed last, bGo =>
      if 0 <? count_ w then Some (set_thread t mPass w)
      else if last then Some (set_thread t mIdle (set_holder None w)) else Some (set_thread t (mBlock timed) w)
    | mPass, bGo => Some (set_thread t mIdle (mkMonitor (lower P (count_ w)) None (pcs w) (given w) (taken w + 1)))
    | mBlock timed, bGo => Some (set_thread t (mSleep timed) (set_holder None w))
    | mSleep timed, bSpurious => Some (set_thread t (mLock timed false) w)
    | mSleep timed, bLate => if timed then Some (set_thread t (mLock true true) w) else None
    | mRaiseLock n, bGo => match holder w with None => Some (set_thread t (mRaise n) (set_holder (Some t) w)) | Some _ => None end
    | mRaise n, bGo => let w := set_count (raise P n (count_ w)) w in Some (set_thread t mNotify (if locks P then set_holder None w else w))
    | mNotify, bGo => notify_one v (set_thread t mIdle w)
    | _, _ => None
    end
  end.
Definition cv_Count (w : Monitor) : Z := count_ w.

Definition mon_trans (w w' : Monitor) : Prop := exists t v a, (match a with bSignal n => 1 <= n | _ => True end) /\ mon_exec t v a w = Some w'.

(** A thread that is neither asleep nor between calls goes on when it gets the mutex. *)
Definition quiet (pc : MonPc) : bool := match pc with mIdle | mSleep _ => true | _ => false end.
(** Threads that own the mutex. *)
Definition owns (pc : MonPc) : bool := match pc with mCheck _ _ | mPass | mBlock _ => true | mRaise _ => locks P | _ => false end.
(** Threads that will look at the counter again, or wake one that will. *)
Definition alert (pc : MonPc) : bool := match pc with mLock _ _ | mCheck _ _ | mPass | mNotify => true | _ => false end.

End Monitor.

(** ** BinarySemaphore *)

Definition raising (pc : MonPc) : nat := match pc with mRaiseLock _ | mRaise _ => 1 | _ => 0 end.
Record mon_core (init : Z) (w : Monitor) : Prop := {
  mi_mutex : forall t pc, pcs w !! t = Some pc -> owns binary pc = bool_decide (holder w = Some t);
  mi_holder : forall u, holder w = Some u -> (u < length (pcs w))%nat;
  mi_count : count_ w = 0 \/ count_ w = 1;
  mi_pass : forall t, pcs w !! t = Some mPass -> count_ w = 1;
  mi_block : forall t timed, pcs w !! t = Some (mBlock timed) -> count_ w = 0;
  mi_permits : taken w + count_ w + Z.of_nat (sum_list_with raising (pcs w)) <= init + given w
}.
Definition no_lost_wakeup (w : Monitor) : Prop :=
  count_ w = 1 -> (exists t timed, pcs w !! t = Some (mSleep timed)) -> exists t pc, pcs w !! t = Some pc /\ alert pc = true.

(** A thread's step, as far as the other threads are concerned. *)
Record mon_step (w : Monitor) (t : nat) (pc pc' : MonPc) (w' : Monitor) : Prop := {
  ms_pc : pcs w !! t = Some pc;
  ms_pcs : pcs w' = <[t := pc']> (pcs w)
}.

Lemma lookup_thread w t pc pc' w' u q : mon_step w t pc pc' w' -> pcs w' !! u = Some q -> (u = t /\ q = pc') \/ (u <> t /\ pcs w !! u = Some q).
Proof.
  intros [Hpc Hp] Hu. rewrite Hp in Hu. destruct (decide (u = t)) as [->|Hne]; [|right; by rewrite list_lookup_insert_ne in Hu].
  left. rewrite list_lookup_insert_eq in Hu by (by eapply lookup_lt_Some). by simplify_eq.
Qed.

(** The mutex stays with the threads that own it. *)
Lemma mutex_step w t pc pc' w' :
  mon_step w t pc pc' w' -> (forall t pc, pcs w !! t = Some pc -> owns binary pc = bool_decide (holder w = Some t)) ->
  (holder w' = holder w /\ owns binary pc' = owns binary pc \/ holder w = None /\ holder w' = Some t /\ owns binary pc' = true \/
   owns binary pc = true /\ holder w' = None /\ owns binary pc' = false) ->
  forall u q, pcs w' !! u = Some q -> owns binary q = bool_decide (holder w' = Some u).
Proof.
  intros Hs Hm Hc u q Hu. pose proof (Hm t pc (ms_pc _ _ _ _ _ Hs)) as Ht. destruct (lookup_thread _ _ _ _ _ _ _ Hs Hu) as [ [-> ->]|[Hne Hu'] ].
  - destruct Hc as [ [-> ->]|[ [_ [-> ->] ]|[_ [-> ->] ] ] ]; [done| |done]. by rewrite bool_decide_eq_true_2.
  - rewrite (Hm u q Hu'). destruct Hc as [ [-> _]|[ [-> [-> _] ]|[Ho [-> _] ] ] ]; [done| |].
    + rewrite !bool_decide_eq_false_2; [done|congruence|done].
    + rewrite Ho in Ht. symmetry in Ht. apply bool_decide_eq_true in Ht. rewrite Ht. rewrite !bool_decide_eq_false_2; [done|done|congruence].
Qed.

Lemma core_step init w t pc pc' w' :
  mon_step w t pc pc' w' -> mon_core init w ->
  (holder w' = holder w /\ owns binary pc' = owns binary pc \/ holder w = None /\ holder w' = Some t /\ owns binary pc' = true \/
   owns binary pc = true /\ holder w' = None /\ owns binary pc' = false) ->
  (count_ w' = count_ w \/ owns binary pc = true /\ (count_ w' = 0 \/ count_ w' = 1)) ->
  (pc' = mPass -> count_ w' = 1) -> (forall timed, pc' = mBlock timed -> count_ w' = 0) ->
  taken w' + count_ w' + Z.of_nat (raising pc') + given w <= taken w + count_ w + Z.of_nat (raising pc) + given w' ->
  mon_core init w'.
Proof.
  intros Hs [Hm Hho Hc Hp Hb Hsum] Hmx Hcnt Hpass Hblock Hle.
  assert (Halone : forall u q, u <> t -> pcs w !! u = Some q -> owns binary q = true -> count_ w' = count_ w).
  { intros u q Hne Hu Hq. destruct Hcnt as [|[Ho _] ]; [done|]. rewrite (Hm _ _ Hu) in Hq. rewrite (Hm _ _ (ms_pc _ _ _ _ _ Hs)) in Ho. apply bool_decide_eq_true in Hq, Ho. congruence. }
  split.
  - by eapply mutex_step.
  - intros u Hu. rewrite (ms_pcs _ _ _ _ _ Hs), length_insert. destruct Hmx as [ [Hh _]|[ (_ & Hh & _)|(_ & Hh & _) ] ]; rewrite Hh in Hu; [by apply Hho| |done].
    injection Hu as <-. eapply lookup_lt_Some, (ms_pc _ _ _ _ _ Hs).
  - destruct Hcnt as [->|[_ H] ]; done.
  - intros u Hu. destruct (lookup_thread _ _ _ _ _ _ _ Hs Hu) as [ [_ <-]|[Hne Hu'] ]; [by apply Hpass|]. rewrite (Halone u _ Hne Hu' eq_refl). eauto.
  - intros u timed Hu. destruct (lookup_thread _ _ _ _ _ _ _ Hs Hu) as [ [_ Heq]|[Hne Hu'] ]; [by eapply Hblock|]. rewrite (Halone u _ Hne Hu' eq_refl). eauto.
  - rewrite (ms_pcs _ _ _ _ _ Hs). pose proof (sum_insert raising (pcs w) t pc pc' (ms_pc _ _ _ _ _ Hs)). lia.
Qed.

(** Somebody stays alert when the thread that moves is, or was not and no flag was
    raised nor a thread put to sleep. *)
Lemma alert_step w t pc pc' w' :
  mon_step w t pc pc' w' -> no_lost_wakeup w ->
  (count_ w' = 1 -> alert pc' = true \/ count_ w = 1 /\ alert pc = false /\ is_asleep pc' = false) -> no_lost_wakeup w'.
Proof.
  intros Hs Hw Hc Hone (u & timed & Hu). destruct (Hc Hone) as [Ha|(H1 & Ha & Hn)].
  - exists t, pc'. split; [|done]. rewrite (ms_pcs _ _ _ _ _ Hs). apply list_lookup_insert_eq. eapply lookup_lt_Some, (ms_pc _ _ _ _ _ Hs).
  - destruct (lookup_thread _ _ _ _ _ _ _ Hs Hu) as [ [_ <-]|[Hne Hu'] ]; [done|]. destruct (Hw H1) as (x & q & Hx & Hq); [by exists u, timed|].
    exists x, q. split; [|done]. rewrite (ms_pcs _ _ _ _ _ Hs). destruct (decide (x = t)) as [->|]; [|by rewrite list_lookup_insert_ne].
    rewrite (ms_pc _ _ _ _ _ Hs) in Hx. simplify_eq; congruence.
Qed.

Ltac close_core Hpc Hi :=
  eapply core_step; [by split; [exact Hpc|reflexivity]|exact Hi|..]; cbn;
  [first [by left | by (right; left) | by (right; right)] | first [by left | right; split; [done|lia]] | intros; first [done | lia] | intros; first [done | lia] | lia].
Ltac close_alert Hpc Hw :=
  eapply alert_step; [by split; [exact Hpc|reflexivity]|exact Hw|]; cbn; intros; first [by left | right; split_and!; first [done | lia] | lia | done].

Lemma mon_exec_step init t v a w w' :
  mon_core init w -> no_lost_wakeup w -> (match a with bSignal n => 1 <= n | _ => True end) -> mon_exec binary t v a w = Some w' ->
  (exists pc pc', mon_step w t pc pc' w' /\ mon_core init w' /\ no_lost_wakeup w') \/
  pcs w !! t = Some mNotify /\ a = bGo /\ notify_one v (set_thread t mIdle w) = Some w'.
Proof.
  intros Hi Hw Ha E. unfold mon_exec in E. destruct (pcs w !! t) as [pc|] eqn:Hpc; [|done].
  destruct pc as [|tm la|tm la| |tm|tm|n|n|], a; try done; try (destruct (holder w) eqn:Hh; [done|]);
    try (destruct (Z.ltb_spec 0 (count_ w)); [|destruct la]); try (destruct tm; [|done]); simplify_eq/=; try (by right);
    left; eexists _, _; (split_and!; [by split; [exact Hpc|reflexivity]| |]);
    pose proof (mi_pass _ _ Hi t); pose proof (mi_block _ _ Hi t); pose proof (mi_count _ _ Hi); try (pose proof (mi_pass _ _ Hi t Hpc)); try (pose proof (mi_block _ _ Hi t _ Hpc)).
  all: try solve [close_core Hpc Hi]. all: try solve [close_alert Hpc Hw].
Qed.

Lemma sleeper_exists l : existsb is_asleep l = true <-> exists t timed, l !! t = Some (mSleep timed).
Proof.
  rewrite existsb_exists. split.
  - intros (pc & Hin & Hs). apply list_elem_of_In, list_elem_of_lookup in Hin as (t & Ht). destruct pc; try done. eauto.
  - intros (t & timed & Ht). exists (mSleep timed). split; [|done]. by eapply list_elem_of_In, list_elem_of_lookup_2.
Qed.

Lemma notify_step init t v w w' :
  mon_core init w -> pcs w !! t = Some mNotify -> notify_one v (set_thread t mIdle w) = Some w' -> mon_core init w' /\ no_lost_wakeup w'.
Proof.
  intros Hi Hpc E. assert (Hi1 : mon_core init (set_thread t mIdle w)) by (close_core Hpc Hi).
  unfold notify_one in E. destruct (existsb _ _) eqn:Ex.
  - destruct (pcs (set_thread t mIdle w) !! v) as [ [| | | | |tm| | |]|] eqn:Hv; try done. injection E as <-. split; [close_core Hv Hi1|].
    intros _ _. exists v, (mLock tm false). split; [|done]. apply list_lookup_insert_eq. by eapply lookup_lt_Some.
  - injection E as <-. split; [done|]. intros _ Hs. apply sleeper_exists in Hs. congruence.
Qed.

Lemma binary_reachable init n w : rtc (mon_trans binary) (Monitor_ctor n (binary_count init)) w -> mon_core (binary_count init) w /\ no_lost_wakeup w.
Proof.
  intros Hr. revert Hr. apply (rtc_invariant (mon_trans binary) (fun w => mon_core (binary_count init) w /\ no_lost_wakeup w)).
  - split.
    + split; cbn; try (intros u Hu; discriminate Hu); try (intros t pc Ht; apply lookup_replicate_1 in Ht as [-> _]; done); try (intros t Ht; apply lookup_replicate_1 in Ht as [? _]; done); try (intros t tm Ht; apply lookup_replicate_1 in Ht as [? _]; done).
      * unfold binary_count. case_match; lia.
      * assert (Hz : sum_list_with raising (replicate n mIdle) = 0%nat) by (clear; induction n; cbn; lia). lia.
    + intros _ (t & tm & Ht). apply lookup_replicate_1 in Ht as [? _]. done.
  - intros x y (t & v & a & Ha & E) [Hi Hw]. destruct (mon_exec_step _ _ _ _ _ _ Hi Hw Ha E) as [(pc & pc' & _ & H1 & H2)|(Hpc & _ & En)]; [done|by eapply notify_step].
Qed.

(** A thread that is not quiet can go on, or another one can. *)
Lemma binary_progress init w t pc : mon_core init w -> pcs w !! t = Some pc -> quiet pc = false -> exists u v w', mon_exec binary u v bGo w = Some w'.
Proof.
  intros Hi Ht Hq.
  assert (Hown : forall u q, pcs w !! u = Some q -> owns binary q = true -> exists w', mon_exec binary u u bGo w = Some w').
  { intros u q Hu Ho. unfold mon_exec. rewrite Hu. destruct q; try done; eauto. repeat case_match; eauto. }
  destruct (holder w) as [u|] eqn:Hh.
  - destruct (lookup_lt_is_Some_2 (pcs w) u (mi_holder _ _ Hi u Hh)) as (q & Hu). destruct (Hown u q Hu) as (w' & E); [|by eexists _, _, _].
    rewrite (mi_mutex _ _ Hi u q Hu), Hh. by apply bool_decide_eq_true_2.
  - destruct (owns binary pc) eqn:Ho; [destruct (Hown t pc Ht Ho) as (w' & E); by eexists _, _, _|].
    destruct pc as [| | | | | | | |]; try done; try (exists t, t; unfold mon_exec; rewrite Ht, Hh; by eexists).
    unfold mon_exec. assert (Hs : exists v w', notify_one v (set_thread t mIdle w) = Some w').
    { unfold notify_one. destruct (existsb is_asleep (pcs (set_thread t mIdle w))) eqn:Ex; [|by exists t; eexists].
      apply sleeper_exists in Ex as (v & tm & Hv). exists v. rewrite Hv. by eexists. }
    destruct Hs as (v & w' & E). exists t, v, w'. by rewrite Ht.
Qed.

(** C14. With any number of threads at any interleaving, spurious wake-ups and timeouts
    included, a BinarySemaphore is a flag that no more waits find raised than signals
    raised it, and it loses no wake-up: as long as a call has neither returned nor gone
    to sleep some thread can take a step, and when all have, a thread that sleeps means
    the flag is down. *)
Theorem binary_semaphore_wakes init n w :
  rtc (mon_trans binary) (Monitor_ctor n (binary_count init)) w ->
  (cv_Count w = 0 \/ cv_Count w = 1) /\ taken w + cv_Count w <= binary_count init + given w /\
  ((exists t pc, pcs w !! t = Some pc /\ quiet pc = false) -> exists u v w', mon_exec binary u v bGo w = Some w') /\
  (Forall (fun pc => quiet pc = true) (pcs w) -> (exists t timed, pcs w !! t = Some (mSleep timed)) -> cv_Count w = 0).
Proof.
  intros Hr. destruct (binary_reachable init n w Hr) as [Hi Hw]. unfold cv_Count. split_and!.
  - apply Hi.
  - pose proof (mi_permits _ _ Hi). lia.
  - intros (t & pc & Ht & Hq). by eapply binary_progress.
  - intros Hq Hs. destruct (mi_count _ _ Hi) as [|H1]; [done|]. destruct (Hw H1 Hs) as (t & pc & Ht & Ha). rewrite Forall_lookup in Hq. specialize (Hq t pc Ht). by destruct pc.
Qed.

Definition run_mon P : list (nat * nat * MonAct) -> Monitor -> option Monitor :=
  fix go l w := match l with [] => Some w | (t, v, a) :: l => match mon_exec P t v a w with Some w => go l w | None => None end end.
Lemma run_mon_reach P l w w' : Forall (fun x : nat * nat * MonAct => match x.2 with bSignal n => 1 <= n | _ => True end) l -> run_mon P l w = Some w' -> rtc (mon_trans P) w w'.
Proof.
  revert w. induction l as [|[ [t v] a] l IH]; intros w Hl E; cbn in E; [by injection E as ->|]. apply Forall_cons_iff in Hl as [Ha Hl].
  destruct (mon_exec P t v a w) as [w1|] eqn:E1; [|done]. eapply rtc_l; [by exists t, v, a|by apply IH].
Qed.

(** Two threads go to sleep, one signal wakes the second. *)
Definition demo_sleep : list (nat * nat * MonAct) :=
  [(0, 0, bWait); (0, 0, bGo); (0, 0, bGo); (0, 0, bGo); (1, 0, bWaitFor); (1, 0, bGo); (1, 0, bGo); (1, 0, bGo);
   (2, 0, bSignal 1); (2, 0, bGo); (2, 0, bGo); (2, 1, bGo); (1, 0, bGo); (1, 0, bGo); (1, 0, bGo)]%nat.
Lemma binary_semaphore_wakes_witness : exists w,
  run_mon binary demo_sleep (Monitor_ctor 3 (binary_count 0)) = Some w /\ taken w = 1 /\ pcs w !! 0%nat = Some (mSleep false) /\ cv_Count w = 0.
Proof.
  destruct (run_mon binary demo_sleep (Monitor_ctor 3 (binary_count 0))) as [w|] eqn:E; [|vm_compute in E; discriminate E].
  assert (Hw : w = mkMonitor 0 None [mSleep false; mIdle; mIdle] 1 1) by (vm_compute in E; congruence).
  exists w. split; [done|]. split; [by rewrite Hw|]. split; [by rewrite Hw|].
  apply (binary_semaphore_wakes 0 3 w); [eapply run_mon_reach; [|exact E]; unfold demo_sleep; repeat constructor; cbn; lia| |].
  - rewrite Hw. by repeat constructor.
  - rewrite Hw. exists 0%nat, false. reflexivity.
Defined.

(** LightSemaphore on a condition variable does not take the mutex in Signal: a signal
    between the test and the wait wakes nobody, and the thread sleeps with the counter
    raised, for ever if no other signal comes. *)
Lemma light_cv_loses_wakeup : exists w,
  run_mon light_cv [(0, 0, bWait); (0, 0, bGo); (0, 0, bGo); (1, 0, bSignal 1); (1, 0, bGo); (1, 0, bGo); (0, 0, bGo)]%nat (Monitor_ctor 2 0) = Some w /\
  Forall (fun pc => quiet pc = true) (pcs w) /\ pcs w !! 0%nat = Some (mSleep false) /\ cv_Count w = 1.
Proof. eexists. split; [vm_compute; reflexivity|]. vm_compute. split; [by repeat constructor|done]. Qed.
(** SignalN wakes one thread however many permits it gives. *)
Lemma light_cv_signal_n_wakes_one : exists w,
  run_mon light_cv [(0, 0, bWait); (0, 0, bGo); (0, 0, bGo); (0, 0, bGo); (1, 0, bWait); (1, 0, bGo); (1, 0, bGo); (1, 0, bGo);
                    (2, 0, bSignal 2); (2, 0, bGo); (2, 0, bGo); (0, 0, bGo); (0, 0, bGo); (0, 0, bGo)]%nat (Monitor_ctor 3 0) = Some w /\
  Forall (fun pc => quiet pc = true) (pcs w) /\ pcs w !! 1%nat = Some (mSleep false) /\ cv_Count w = 1.
Proof. eexists. split; [vm_compute; reflexivity|]. vm_compute. split; [by repeat constructor|done]. Qed.
End Monitor.
