(* ===== verification/Node.v ===== *)
(** * Nodes (include/osp/node.hpp, static_node.hpp)

    Node and StaticNode are clients of the message bus: they hold the handles of their
    subscriptions, wrap the callbacks with the test of type and topic, and give the
    handles back when they stop.  Any number of nodes share a bus; the specification
    knows no handles, only which node owns which place of the bus. *)

From Stdlib Require Import ZArith Lia Bool.
From stdpp Require Import base numbers list option.
From S2P Require Import Prelude Vocabulary Bus.

Open Scope Z_scope.

Inductive NodeError := kAlreadyStarted | kNotStarted | kSubscriptionFull | kPublishFailed.

Section Node.
Context {Payload W : Type} `{Inhabited Payload} (variant_index : Payload -> Z).
Context (k kBatchSize kMaxTypes kMaxCallbacks : Z) (eviction : bool).
(** OSP_MAX_NODE_SUBSCRIPTIONS, OSP_MAX_STATIC_NODE_SUBSCRIPTIONS, kNodeNameMaxLen, and
    the number of alternatives of the payload variant. *)
Context (MAX_SUBS MAX_STATIC_SUBS NAME_MAX : Z) (variants : nat).
Abbreviation Env := (@MessageEnvelope Payload).
Abbreviation NBus := (@AsyncBus Payload W).
Definition NodeHandler : Type := Payload -> MessageHeader -> W -> W.

(** The members of both classes; [static_]: the handler and topic hash of a StaticNode.
    The bus is a separate argument, [handles_] an array of which [handle_count_] are used. *)
Record Node := mkNode {
  name_ : list Z; id_ : Z; handles_ : list SubscriptionHandle; handle_count_ : Z; started_ : bool; static_ : option (NodeHandler * Z)
}.

Definition InitName (name : option (list Z)) : list Z := match name with Some s => take (Z.to_nat NAME_MAX) s | None => [] end.
(** [garbage]: the uninitialised array of handles. *)
Definition Node_ctor (name : option (list Z)) (id : Z) (garbage : list SubscriptionHandle) : Node := mkNode (InitName name) id garbage 0 false None.
Definition StaticNode_ctor (name : option (list Z)) (id : Z) (handler : NodeHandler) (topic : option (list Z)) (garbage : list SubscriptionHandle) : Node :=
  mkNode (InitName name) id garbage 0 false (Some (handler, Fnv1a32 topic)).

Definition set_handles (hs : list SubscriptionHandle) (c : Z) (n : Node) : Node := mkNode (name_ n) (id_ n) hs c (started_ n) (static_ n).
Definition set_started (b : bool) (n : Node) : Node := mkNode (name_ n) (id_ n) (handles_ n) (handle_count_ n) b (static_ n).

(** ** Subscriptions *)

(** The lambda of Subscribe: get_if yields the value when the payload has the type. *)
Definition typed_callback (t : Z) (cb : NodeHandler) : @Callback Payload W :=
  fun env w => if u32 (variant_index (payload env)) =? t then cb (payload env) (header env) w else w.
Definition topic_callback (t topic_hash_ : Z) (cb : NodeHandler) : @Callback Payload W :=
  fun env w => if negb (topic_hash (header env) =? topic_hash_) then w else typed_callback t cb env w.
Definition static_callback (t topic_hash_ : Z) (cb : NodeHandler) : @Callback Payload W :=
  fun env w => if negb (topic_hash_ =? 0) && negb (topic_hash (header env) =? topic_hash_) then w else typed_callback t cb env w.

(** The body shared by the three forms of Subscribe and by SubscribeOne: whether it succeeded. *)
Definition subscribe_with (max : Z) (t : Z) (f : @Callback Payload W) (n : Node) (b : NBus) : bool * Node * NBus :=
  if max <=? handle_count_ n then (false, n, b)
  else
    let '(h, b) := Bus.Subscribe t f b in
    if handle_IsValid h then (true, set_handles (aset (handles_ n) (handle_count_ n) h) (u32 (handle_count_ n + 1)) n, b)
    else (false, n, b).
Definition node_result (r : bool * Node * NBus) : option NodeError * Node * NBus :=
  let '(ok, n, b) := r in ((if ok then None else Some kSubscriptionFull), n, b).
Definition Subscribe (t : Z) (cb : NodeHandler) (n : Node) (b : NBus) := node_result (subscribe_with MAX_SUBS t (typed_callback t cb) n b).
Definition SubscribeTopic (topic : option (list Z)) (t : Z) (cb : NodeHandler) (n : Node) (b : NBus) :=
  node_result (subscribe_with MAX_SUBS t (topic_callback t (Fnv1a32 topic) cb) n b).
Definition SubscribeSimple (t : Z) (cb : Payload -> W -> W) (n : Node) (b : NBus) := Subscribe t (fun p _ => cb p) n b.

(** The loop over the used handles, in Stop and in UnsubscribeAll. *)
Definition unsubscribe_each (hs : list SubscriptionHandle) (b : NBus) : NBus := fold_left (fun b h => (Unsubscribe kMaxTypes h b).2) hs b.
Definition UnsubscribeAll (n : Node) (b : NBus) : Node * NBus :=
  (set_handles (handles_ n) 0 n, unsubscribe_each (take (Z.to_nat (handle_count_ n)) (handles_ n)) b).

(** ** Life *)

Definition Start (n : Node) : option NodeError * Node := if started_ n then (Some kAlreadyStarted, n) else (None, set_started true n).
Definition Stop (n : Node) (b : NBus) : Node * NBus :=
  if negb (started_ n) && (handle_count_ n =? 0) then (n, b)
  else let '(n, b) := UnsubscribeAll n b in (set_started false n, b).

(** StaticNode: a fold over the alternatives, up to the first that fails. *)
Fixpoint SubscribeAll (l : list nat) (handler : NodeHandler) (topic : Z) (n : Node) (b : NBus) : bool * Node * NBus :=
  match l with
  | [] => (true, n, b)
  | i :: l =>
    let '(ok, n, b) := subscribe_with MAX_STATIC_SUBS (Z.of_nat i) (static_callback (Z.of_nat i) topic handler) n b in
    if ok then SubscribeAll l handler topic n b else (false, n, b)
  end.
Definition StaticStart (n : Node) (b : NBus) : option NodeError * Node * NBus :=
  match static_ n with
  | None => (None, n, b)
  | Some (handler, topic) =>
    if started_ n then (Some kAlreadyStarted, n, b)
    else let '(ok, n, b) := SubscribeAll (seq 0 variants) handler topic n b in
         if ok then (None, set_started true n, b)
         else let '(n, b) := UnsubscribeAll n b in (Some kSubscriptionFull, n, b)
  end.

(** ** Publishing and spinning *)

Definition NPublish (now : Z) (pl : Payload) (n : Node) := Bus.Publish k eviction now pl (id_ n) (World := W).
Definition NPublishWithPriority (now : Z) (pl : Payload) (prio : MessagePriority) (n : Node) := Bus.PublishWithPriority k eviction now pl (id_ n) prio (World := W).
Definition NPublishTopic (now : Z) (pl : Payload) (topic : option (list Z)) (n : Node) := Bus.PublishTopic k eviction now pl (id_ n) topic (World := W).
Definition NPublishTopicWithPriority (now : Z) (pl : Payload) (topic : option (list Z)) (prio : MessagePriority) (n : Node) :=
  Bus.PublishTopicWithPriority k eviction now pl (id_ n) topic prio (World := W).
Definition SpinOnce (n : Node) (b : NBus) (w : W) : Z * NBus * W :=
  match static_ n with
  | None => ProcessBatch variant_index k kBatchSize kMaxTypes b w
  | Some (handler, _) => if started_ n then ProcessBatch variant_index k kBatchSize kMaxTypes b w else ProcessBatchWith k kBatchSize handler b w
  end.

(** A publisher: a bus, if any, and a sender.  [None] is the failed assertion. *)
Record Publisher := mkPublisher { pub_valid : bool; sender_id_ : Z }.
Definition Publisher_ctor : Publisher := mkPublisher false 0.
Definition CreatePublisher (n : Node) : Publisher := mkPublisher true (id_ n).
Definition Publisher_Publish (now : Z) (pl : Payload) (p : Publisher) (b : NBus) : option (bool * NBus) :=
  if pub_valid p then Some (Bus.Publish k eviction now pl (sender_id_ p) b) else None.
Definition Publisher_PublishWithPriority (now : Z) (pl : Payload) (prio : MessagePriority) (p : Publisher) (b : NBus) : option (bool * NBus) :=
  if pub_valid p then Some (Bus.PublishWithPriority k eviction now pl (sender_id_ p) prio b) else None.

(** ** Nodes on a bus *)

Record NodeSystem := mkSystem { bus : NBus; nodes : list Node; world : W }.
Inductive NodeOp :=
| NStart (i : nat) | NStop (i : nat) | NSubscribe (i : nat) (t : Z) (topic : option (option (list Z))) (cb : NodeHandler)
| NSend (i : nat) (now : Z) (pl : Payload) (prio : MessagePriority) (topic : option (option (list Z))) | NSpin (i : nat).
Inductive NodeRes := NDone (e : option NodeError) | NSent (ok : bool) | NCount (n : Z) | NNone.

Definition put (i : nat) (n : Node) (b : NBus) (s : NodeSystem) : NodeSystem := mkSystem b (<[i := n]> (nodes s)) (world s).
Definition node_step (o : NodeOp) (s : NodeSystem) : NodeRes * NodeSystem :=
  match o with
  | NStart i =>
    match nodes s !! i with
    | None => (NNone, s)
    | Some n =>
      match static_ n with
      | None => let '(e, n) := Start n in (NDone e, put i n (bus s) s)
      | Some _ => let '(e, n, b) := StaticStart n (bus s) in (NDone e, put i n b s)
      end
    end
  | NStop i => match nodes s !! i with None => (NNone, s) | Some n => let '(n, b) := Stop n (bus s) in (NDone None, put i n b s) end
  | NSubscribe i t topic cb =>
    match nodes s !! i with
    | None => (NNone, s)
    | Some n =>
      match static_ n with
      | Some _ => (NNone, s)
      | None =>
        let '(e, n, b) := match topic with None => Subscribe t cb n (bus s) | Some topic => SubscribeTopic topic t cb n (bus s) end in (NDone e, put i n b s)
      end
    end
  | NSend i now pl prio topic =>
    match nodes s !! i with
    | None => (NNone, s)
    | Some n =>
      let '(r, b) := match topic with None => NPublishWithPriority now pl prio n (bus s) | Some topic => NPublishTopicWithPriority now pl topic prio n (bus s) end in
      (NSent r, mkSystem b (nodes s) (world s))
    end
  | NSpin i =>
    match nodes s !! i with None => (NNone, s) | Some n => let '(c, b, w) := SpinOnce n (bus s) (world s) in (NCount c, mkSystem b (nodes s) w) end
  end.

(** ** The specification

    A place of the bus is free or owned by a node; [queue] is the bus specification without
    its table. *)

(** A subscription hears the messages of its type, and of its topic if it has one; topics
    are told apart by their hash. *)
Record Subscription := mkSub { s_type : Z; s_topic : option Z; s_handler : NodeHandler }.
Definition hears (s : Subscription) (e : Env) : Prop :=
  u32 (variant_index (payload e)) = s_type s /\ match s_topic s with None => True | Some h => topic_hash (header e) = h end.
#[global] Instance hears_dec s e : Decision (hears s e).
Proof. unfold hears. destruct (s_topic s); apply _. Defined.
Definition deliver (s : Subscription) (e : Env) (w : W) : W := if decide (hears s e) then s_handler s (payload e) (header e) w else w.

Definition Owned : Type := option (nat * Subscription).
Record SpecNode := mkSN { sn_id : Z; sn_subs : Z; sn_started : bool; sn_static : option (NodeHandler * Z) }.
Record SpecSystem := mkSS { queue : @SpecBus Payload W; rows : list (list Owned); snodes : list SpecNode; sworld : W }.

Definition spec_own (max : Z) (i : nat) (t : Z) (f : Subscription) (n : SpecNode) (rs : list (list Owned)) : bool * SpecNode * list (list Owned) :=
  if max <=? sn_subs n then (false, n, rs)
  else match list_find (fun p => p = None) (aget rs t) with
       | Some (j, _) => (true, mkSN (sn_id n) (sn_subs n + 1) (sn_started n) (sn_static n), aset rs t (<[j := Some (i, f)]> (aget rs t)))
       | None => (false, n, rs)
       end.
Definition disown (i : nat) (p : Owned) : Owned := match p with Some (o, f) => if decide (o = i) then None else Some (o, f) | None => None end.
Definition clear_owner (i : nat) (rs : list (list Owned)) : list (list Owned) := (fun r : list Owned => disown i <$> r) <$> rs.
Fixpoint spec_own_all (i : nat) (l : list nat) (handler : NodeHandler) (topic : Z) (n : SpecNode) (rs : list (list Owned)) : bool * SpecNode * list (list Owned) :=
  match l with
  | [] => (true, n, rs)
  | j :: l =>
    let '(ok, n, rs) := spec_own MAX_STATIC_SUBS i (Z.of_nat j) (mkSub (Z.of_nat j) (if topic =? 0 then None else Some topic) handler) n rs in
    if ok then spec_own_all i l handler topic n rs else (false, n, rs)
  end.
Definition owned_dispatch (rs : list (list Owned)) (e : Env) (w : W) : W :=
  let t := u32 (variant_index (payload e)) in
  if kMaxTypes <=? t then w else foldl (fun w (p : Owned) => match p with Some (_, s) => deliver s e w | None => w end) w (aget rs t).

Definition sput (i : nat) (n : SpecNode) (rs : list (list Owned)) (s : SpecSystem) : SpecSystem := mkSS (queue s) rs (<[i := n]> (snodes s)) (sworld s).
Definition sn_set (subs : Z) (st : bool) (n : SpecNode) : SpecNode := mkSN (sn_id n) subs st (sn_static n).
Definition spec_step (o : NodeOp) (s : SpecSystem) : NodeRes * SpecSystem :=
  match o with
  | NStart i =>
    match snodes s !! i with
    | None => (NNone, s)
    | Some n =>
      if sn_started n then (NDone (Some kAlreadyStarted), s)
      else match sn_static n with
           | None => (NDone None, sput i (sn_set (sn_subs n) true n) (rows s) s)
           | Some (handler, topic) =>
             let '(ok, n, rs) := spec_own_all i (seq 0 variants) handler topic n (rows s) in
             if ok then (NDone None, sput i (sn_set (sn_subs n) true n) rs s)
             else (NDone (Some kSubscriptionFull), sput i (sn_set 0 false n) (clear_owner i rs) s)
           end
    end
  | NStop i => match snodes s !! i with None => (NNone, s) | Some n => (NDone None, sput i (sn_set 0 false n) (clear_owner i (rows s)) s) end
  | NSubscribe i t topic cb =>
    match snodes s !! i with
    | None => (NNone, s)
    | Some n =>
      match sn_static n with
      | Some _ => (NNone, s)
      | None =>
        let '(ok, n, rs) := spec_own MAX_SUBS i t (mkSub t (Fnv1a32 <$> topic) cb) n (rows s) in (NDone (if ok then None else Some kSubscriptionFull), sput i n rs s)
      end
    end
  | NSend i now pl prio topic =>
    match snodes s !! i with
    | None => (NNone, s)
    | Some n =>
      let '(r, q) := spec_publish k eviction pl (sn_id n) now prio (match topic with None => 0 | Some topic => Fnv1a32 topic end) (queue s) in
      (NSent r, mkSS q (rows s) (snodes s) (sworld s))
    end
  | NSpin i =>
    match snodes s !! i with
    | None => (NNone, s)
    | Some n =>
      let visit := match sn_static n with
                   | Some (handler, _) => if sn_started n then owned_dispatch (rows s) else fun e => handler (payload e) (header e)
                   | None => owned_dispatch (rows s)
                   end in
      let '(c, q, w) := spec_process kBatchSize visit (queue s) (sworld s) in (NCount c, mkSS q (rows s) (snodes s) w)
    end
  end.

End Node.

(** ** Tables of places *)

(** The place [j] of row [t]. *)
Definition place_at {A} (ps : list (list A)) (t j : nat) : option A := ps !! t ≫= (fun r => r !! j).

Lemma place_at_set {A} (ps : list (list A)) t row j x t' j' y :
  ps !! t = Some row -> place_at (<[t := <[j := x]> row]> ps) t' j' = Some y -> (t' = t /\ j' = j /\ y = x) \/ place_at ps t' j' = Some y.
Proof.
  intros Hr. unfold place_at. destruct (decide (t' = t)) as [->|Hne]; [|rewrite list_lookup_insert_ne by done; by right].
  rewrite list_lookup_insert_eq by (by eapply lookup_lt_Some). rewrite Hr. cbn. destruct (decide (j' = j)) as [->|Hne]; [|rewrite list_lookup_insert_ne by done; by right].
  destruct (decide (j < length row)%nat) as [Hj|Hj]; [rewrite list_lookup_insert_eq by done; intros [= <-]; by left|].
  rewrite list_insert_ge by lia. by right.
Qed.

Lemma place_at_map {A B} (g : A -> B) (ps : list (list A)) t j : place_at ((fun r : list A => g <$> r) <$> ps) t j = g <$> place_at ps t j.
Proof. unfold place_at. rewrite list_lookup_fmap. destruct (ps !! t) as [r|]; [cbn|done]. by rewrite list_lookup_fmap. Qed.

Lemma table_ext {A} (g : A -> A) (ps : list (list A)) : (forall t j x, place_at ps t j = Some x -> g x = x) -> (fun r : list A => g <$> r) <$> ps = ps.
Proof.
  intros Hg. apply list_eq. intros t. rewrite list_lookup_fmap. destruct (ps !! t) as [r|] eqn:Er; [|done]. cbn. f_equal. apply list_eq. intros j.
  rewrite list_lookup_fmap. destruct (r !! j) as [x|] eqn:Ej; [|done]. cbn. f_equal. apply (Hg t j). unfold place_at. by rewrite Er.
Qed.

Lemma forall2_free {A B} (R : option A -> option B -> Prop) row row' :
  (forall p r, R p r -> (p = None <-> r = None)) -> Forall2 R row row' ->
  fst <$> list_find (fun p => p = None) row = fst <$> list_find (fun p => p = None) row'.
Proof.
  intros HR Hf. induction Hf as [|p r row row' Hp _ IH]; [done|]. cbn [list_find]. destruct (decide (p = None)) as [->|Hne].
  - rewrite decide_True by (by apply (HR _ _ Hp)). done.
  - rewrite decide_False by (intros ->; by apply Hne, (HR _ _ Hp)). destruct (list_find _ row) as [ [i x]|], (list_find _ row') as [ [i' x']|]; cbn in *; congruence.
Qed.

Section NodeProofs.
Context {Payload W : Type} `{Inhabited Payload} (variant_index : Payload -> Z).
Context (k kBatchSize kMaxTypes kMaxCallbacks : Z) (eviction : bool) (MAX_SUBS MAX_STATIC_SUBS : Z) (variants : nat).
Context (Hk : 0 <= k <= 25) (Hcallbacks : 0 <= kMaxCallbacks < 2 ^ 32) (Htypes : 0 <= kMaxTypes <= 2 ^ 32).
Context (Hmax : 0 <= MAX_SUBS < 2 ^ 32) (Hmaxs : 0 <= MAX_STATIC_SUBS < 2 ^ 32) (Hvariants : Z.of_nat variants <= kMaxTypes).
Abbreviation Env := (@MessageEnvelope Payload).
Abbreviation NBus := (@AsyncBus Payload W).
Abbreviation Spec := (@SpecBus Payload W).
Abbreviation rel := (bus_rel k kMaxTypes kMaxCallbacks).
Implicit Types (b : NBus) (s : Spec) (n : @Node Payload W).

Definition used n : list SubscriptionHandle := take (Z.to_nat (handle_count_ n)) (handles_ n).
Definition ids n : list Z := callback_id <$> used n.

(** What the table and the handles agree on. *)
Definition unique_ids s : Prop := forall t j t' j' id f f', place_at (places s) t j = Some (Some (id, f)) -> place_at (places s) t' j' = Some (Some (id, f')) -> t = t' /\ j = j'.
Definition handle_in s (h : SubscriptionHandle) : Prop :=
  0 <= type_index h < kMaxTypes /\ 0 <= callback_id h < 2 ^ 32 - 1 /\
  forall t j f, place_at (places s) t j = Some (Some (callback_id h, f)) -> t = Z.to_nat (type_index h).

Definition without (l : list Z) (p : @Place Payload W) : @Place Payload W := match p with Some (id, f) => if decide (id ∈ l) then None else Some (id, f) | None => None end.
Definition table_without (l : list Z) (ps : list (list (@Place Payload W))) : list (list (@Place Payload W)) := (fun r : list (@Place Payload W) => without l <$> r) <$> ps.

Lemma without_some l p id f : without l p = Some (id, f) -> p = Some (id, f) /\ id ∉ l.
Proof. destruct p as [ [x g]|]; cbn; [|done]. case_decide; [done|]. by intros [= -> ->]. Qed.

(** Giving back one handle empties the place with its identifier. *)
Lemma unsubscribe_one s h :
  unique_ids s -> handle_in s h -> (spec_unsubscribe kMaxTypes h s).2 = with_places (spec_callback_id s) (table_without [callback_id h] (places s)) s.
Proof.
  intros Hu (Ht & Hid & Hrow). unfold spec_unsubscribe, handle_IsValid, kInvalidCallbackId. rewrite (proj2 (Z.eqb_neq _ _)) by lia. rewrite (proj2 (Z.leb_gt _ _)) by lia. cbn [negb orb].
  unfold aget, aset. set (t := Z.to_nat (type_index h)) in *. destruct (places s !! t) as [row|] eqn:Er.
  - rewrite (list_lookup_total_correct _ _ _ Er). destruct (list_find (fun p => fst <$> p = Some (callback_id h)) row) as [ [i p]|] eqn:E; cbn [snd].
    + apply list_find_Some in E as (Hi & Hp & _). destruct p as [ [x f]|]; [|done]. cbn in Hp. injection Hp as ->. f_equal. change (@lookup nat (@Place Payload W) (list (@Place Payload W)) _ i row = Some (Some (callback_id h, f))) in Hi.
      assert (Hat : place_at (places s) t i = Some (Some (callback_id h, f))) by (unfold place_at; by rewrite Er).
      apply list_eq. intros t'. unfold table_without. rewrite list_lookup_fmap. destruct (decide (t' = t)) as [->|Hne].
      * rewrite list_lookup_insert_eq by (by eapply lookup_lt_Some). rewrite Er. cbn. f_equal. apply list_eq. intros j. rewrite list_lookup_fmap. destruct (decide (j = i)) as [->|Hj].
        -- rewrite list_lookup_insert_eq by (by eapply lookup_lt_Some). rewrite Hi. cbn. by rewrite decide_True by (by apply list_elem_of_singleton).
        -- rewrite list_lookup_insert_ne by done. destruct (row !! j) as [ [ [y g]|]|] eqn:Ej; [|done|done]. cbn. rewrite decide_False; [done|]. intros ->%list_elem_of_singleton.
           destruct (Hu t j t i (callback_id h) g f) as [_ ?]; [unfold place_at; by rewrite Er|done|done].
      * rewrite list_lookup_insert_ne by done. destruct (places s !! t') as [row'|] eqn:Er'; [|done]. cbn. f_equal. symmetry. apply list_eq. intros j. rewrite list_lookup_fmap.
        destruct (row' !! j) as [ [ [y g]|]|] eqn:Ej; [|done|done]. cbn. rewrite decide_False; [done|]. intros ->%list_elem_of_singleton.
        apply Hne. apply (Hrow t' j g). unfold place_at. by rewrite Er'.
    + destruct s. cbn in *. unfold with_places. cbn. f_equal. symmetry. apply table_ext. intros t' j [ [y g]|] Hat; [|done]. cbn. rewrite decide_False; [done|]. intros ->%list_elem_of_singleton.
      pose proof (Hrow _ _ _ Hat) as ->. apply list_find_None in E. rewrite Forall_lookup in E. unfold place_at in Hat. rewrite Er in Hat. cbn in Hat. by apply (E j (Some (callback_id h, g)) Hat).
  - rewrite list_lookup_total_alt, Er. cbn. destruct s. cbn in *. unfold with_places. cbn. f_equal. symmetry. apply table_ext. intros t' j [ [y g]|] Hat; [|done]. cbn. rewrite decide_False; [done|].
    intros ->%list_elem_of_singleton. pose proof (Hrow _ _ _ Hat) as ->. unfold place_at in Hat. by rewrite Er in Hat.
Qed.

Lemma handle_in_sub s ps h c : handle_in s h -> (forall t j x, place_at ps t j = Some (Some x) -> place_at (places s) t j = Some (Some x)) -> handle_in (with_places c ps s) h.
Proof. intros (H1 & H2 & H3) Hsub. split_and!; [lia..|]. intros t j f Hat. cbn in Hat. by eapply H3, Hsub. Qed.
Lemma unique_sub s ps c : unique_ids s -> (forall t j x, place_at ps t j = Some (Some x) -> place_at (places s) t j = Some (Some x)) -> unique_ids (with_places c ps s).
Proof. intros Hu Hsub t j t' j' id f f' H1 H2. cbn in H1, H2. by eapply Hu; apply Hsub. Qed.
Lemma without_at l ps t j id f : place_at (table_without l ps) t j = Some (Some (id, f)) -> place_at ps t j = Some (Some (id, f)) /\ id ∉ l.
Proof.
  unfold table_without. rewrite place_at_map. destruct (place_at ps t j) as [p|]; [cbn|done]. intros [= Hp]. apply without_some in Hp as [-> ?]. done.
Qed.

(** Giving back several. *)
Lemma unsubscribe_all hs b s :
  rel b s -> unique_ids s -> Forall (handle_in s) hs ->
  rel (unsubscribe_each kMaxTypes hs b) (with_places (spec_callback_id s) (table_without (callback_id <$> hs) (places s)) s).
Proof.
  revert b s. induction hs as [|h hs IH]; intros b s Hb Hu Hh.
  - cbn. replace (with_places _ _ _) with s; [done|]. destruct s. unfold with_places. cbn. f_equal. symmetry. apply table_ext. intros t j [ [y g]|] _; [|done]. cbn. by rewrite decide_False by apply not_elem_of_nil.
  - apply Forall_cons_iff in Hh as [H1 Hh]. cbn [unsubscribe_each fold_left fmap list_fmap].
    destruct (unsubscribe_rel k kMaxTypes kMaxCallbacks Hcallbacks b s h Hb ltac:(destruct H1; lia)) as [_ Hb']. rewrite (unsubscribe_one s h Hu H1) in Hb'.
    set (s1 := with_places (spec_callback_id s) (table_without [callback_id h] (places s)) s) in *.
    assert (Hsub : forall t j x, place_at (table_without [callback_id h] (places s)) t j = Some (Some x) -> place_at (places s) t j = Some (Some x)) by (intros t j [id f] Hx; by apply without_at in Hx as [? _]).
    specialize (IH (Unsubscribe kMaxTypes h b).2 s1 Hb'). fold (unsubscribe_each kMaxTypes hs (Unsubscribe kMaxTypes h b).2).
    replace (with_places (spec_callback_id s) (table_without (callback_id h :: (callback_id <$> hs)) (places s)) s)
      with (with_places (spec_callback_id s1) (table_without (callback_id <$> hs) (places s1)) s1).
    + apply IH; [by apply unique_sub|]. eapply Forall_impl; [|exact Hh]. intros h' Hh'. by apply handle_in_sub.
    + unfold s1, with_places. cbn. f_equal. unfold table_without. rewrite <- list_fmap_compose. apply list_fmap_ext. intros _ row _. cbn. rewrite <- list_fmap_compose. apply list_fmap_ext.
      intros _ [ [x f]|] _; [|done]. cbn. destruct (decide (x ∈ [callback_id h])) as [Hx|Hx], (decide (x ∈ callback_id h :: (callback_id <$> hs))) as [Hy|Hy]; cbn; try done.
      * by rewrite list_elem_of_singleton in Hx; subst; destruct Hy; left.
      * rewrite decide_True; [done|]. apply elem_of_cons in Hy as [->|Hy]; [|done]. by destruct Hx; left.
      * rewrite decide_False; [done|]. intros Hz. apply Hy. by right.
Qed.

(** ** The simulation *)

Abbreviation System := (@NodeSystem Payload W).
Abbreviation SSystem := (@SpecSystem Payload W).

Definition cap n : Z := match static_ n with None => MAX_SUBS | Some _ => MAX_STATIC_SUBS end.
Record node_rel n (sn : @SpecNode Payload W) : Prop := {
  nr_id : id_ n = sn_id sn;
  nr_count : handle_count_ n = sn_subs sn;
  nr_started : started_ n = sn_started sn;
  nr_static : static_ n = sn_static sn;
  nr_cap : 0 <= handle_count_ n <= cap n;
  nr_len : Z.of_nat (length (handles_ n)) = cap n
}.
Definition owns (nds : list (@Node Payload W)) (o : nat) (id : Z) : Prop := exists n, nds !! o = Some n /\ id ∈ ids n.
Definition place_rel (nds : list (@Node Payload W)) (p : @Place Payload W) (r : @Owned Payload W) : Prop :=
  match p, r with None, None => True | Some (id, f), Some (o, s) => (forall e w, f e w = deliver variant_index s e w) /\ owns nds o id | _, _ => False end.
Definition strip s : Spec := with_places 0 [] s.

Record table_rel (nds : list (@Node Payload W)) s (rs : list (list (@Owned Payload W))) : Prop := {
  tr_rows : Forall2 (Forall2 (place_rel nds)) (places s) rs;
  tr_types : Z.of_nat (length (places s)) = kMaxTypes;
  tr_unique : unique_ids s;
  tr_fresh : forall t j id f, place_at (places s) t j = Some (Some (id, f)) -> 0 <= id < spec_callback_id s;
  tr_handles : forall i n, nds !! i = Some n -> Forall (fun h => handle_in s h /\ callback_id h < spec_callback_id s) (used n);
  tr_disjoint : forall i j id, owns nds i id -> owns nds j id -> i = j
}.
Record sys_rel (x : System) s (y : SSystem) : Prop := {
  sr_bus : rel (bus x) s;
  sr_queue : queue y = strip s;
  sr_world : world x = sworld y;
  sr_nodes : Forall2 node_rel (nodes x) (snodes y);
  sr_table : table_rel (nodes x) s (rows y)
}.

Lemma place_rel_free nds p r : place_rel nds p r -> (p = None <-> r = None).
Proof. destruct p as [ [? ?]|], r as [ [? ?]|]; cbn; naive_solver. Qed.

Lemma row_at nds s rs t : table_rel nds s rs -> 0 <= t < kMaxTypes ->
  places s !! Z.to_nat t = Some (aget (places s) t) /\ rs !! Z.to_nat t = Some (aget rs t) /\ Forall2 (place_rel nds) (aget (places s) t) (aget rs t).
Proof.
  intros Hr Ht. pose proof (tr_types _ _ _ Hr). assert (length (places s) = length rs) by (eapply Forall2_length, (tr_rows _ _ _ Hr)).
  assert (Hp : places s !! Z.to_nat t = Some (aget (places s) t)) by (apply list_lookup_lookup_total_lt; lia).
  assert (Hq : rs !! Z.to_nat t = Some (aget rs t)) by (apply list_lookup_lookup_total_lt; lia).
  split_and!; [done..|]. by apply (Forall2_lookup_lr _ _ _ (Z.to_nat t) _ _ (tr_rows _ _ _ Hr)).
Qed.

(** A node whose used handles grow by one. *)
Lemma used_push n sn h :
  node_rel n sn -> handle_count_ n < cap n -> used (set_handles (aset (handles_ n) (handle_count_ n) h) (u32 (handle_count_ n + 1)) n) = used n ++ [h].
Proof.
  intros [_ _ _ _ Hc Hl] Hlt. unfold used. cbn. assert (Hcap : cap n < 2 ^ 32) by (unfold cap; destruct (static_ n); lia). rewrite wrap_small by (unfold in_range; lia).
  replace (Z.to_nat (handle_count_ n + 1)) with (S (Z.to_nat (handle_count_ n))) by lia. unfold aset.
  rewrite (take_S_r _ _ h) by (apply list_lookup_insert_eq; lia). by rewrite take_insert_ge by lia.
Qed.

Lemma owns_insert nds i n n' o id : nds !! i = Some n -> owns (<[i := n']> nds) o id <-> (o = i /\ id ∈ ids n') \/ (o <> i /\ owns nds o id).
Proof.
  intros Hn. unfold owns. destruct (decide (o = i)) as [->|Hne].
  - rewrite list_lookup_insert_eq by (by eapply lookup_lt_Some). naive_solver.
  - rewrite list_lookup_insert_ne by done. naive_solver.
Qed.

Lemma table_claim nds s rs i n n' t f sub j q :
  (forall e w, f e w = deliver variant_index sub e w) -> table_rel nds s rs -> nds !! i = Some n -> 0 <= t < kMaxTypes -> 0 <= spec_callback_id s < 2 ^ 32 - 2 ->
  used n' = used n ++ [mkHandle t (spec_callback_id s)] -> list_find (fun p => p = None) (aget (places s) t) = Some (j, q) ->
  table_rel (<[i := n']> nds) (with_places (u32 (spec_callback_id s + 1)) (aset (places s) t (<[j := Some (spec_callback_id s, f)]> (aget (places s) t))) s)
    (aset rs t (<[j := Some (i, sub)]> (aget rs t))).
Proof.
  intros Hsub Hr Hn Ht Hid Hu Hj. destruct (row_at _ _ _ _ Hr Ht) as (Hp & Hq & Hf). set (c := spec_callback_id s) in *.
  assert (Hnext : u32 (c + 1) = c + 1) by (apply wrap_small; unfold in_range; lia).
  assert (Hids : ids n' = ids n ++ [c]) by (unfold ids; by rewrite Hu, fmap_app).
  assert (Hold : forall o id, owns nds o id -> 0 <= id < c).
  { intros o id (m & Hm & Hin). unfold ids in Hin. apply list_elem_of_fmap in Hin as (h & -> & Hh). pose proof (tr_handles _ _ _ Hr o m Hm) as Hall. rewrite Forall_lookup in Hall.
    apply list_elem_of_lookup in Hh as (x & Hx). destruct (Hall x h Hx) as [ (_ & ? & _) ?]. unfold c. lia. }
  assert (Hmono : forall o id, owns nds o id -> owns (<[i := n']> nds) o id).
  { intros o id Ho. rewrite owns_insert by done. destruct (decide (o = i)) as [->|]; [|by right]. left. split; [done|]. rewrite Hids. apply elem_of_app. left. destruct Ho as (m & Hm & ?). by simplify_eq. }
  assert (Hset : forall t' j' y, place_at (aset (places s) t (<[j := Some (c, f)]> (aget (places s) t))) t' j' = Some y -> (t' = Z.to_nat t /\ j' = j /\ y = Some (c, f)) \/ place_at (places s) t' j' = Some y).
  { intros t' j' y. unfold aset. by apply place_at_set. }
  assert (Hplace : forall p r, place_rel nds p r -> place_rel (<[i := n']> nds) p r) by (intros [ [x g]|] [ [o g']|]; cbn; try done; intros [Hd Ho]; auto).
  split; cbn [places with_places spec_callback_id]; rewrite ?Hnext.
  - apply Forall2_insert.
    + eapply Forall2_impl; [|apply (tr_rows _ _ _ Hr)]. intros row row' Hrow. by eapply Forall2_impl; [exact Hplace|].
    + apply Forall2_insert; [by eapply Forall2_impl; [exact Hplace|]|]. cbn. split; [done|]. rewrite owns_insert by done. left. split; [done|].
      rewrite Hids. apply elem_of_app. right. by left.
  - by rewrite length_aset, (tr_types _ _ _ Hr).
  - intros t1 j1 t2 j2 id g g' H1 H2. apply Hset in H1 as [(-> & -> & Heq1)|H1], H2 as [(-> & -> & Heq2)|H2]; [done|injection Heq1 as -> ->|injection Heq2 as -> ->|by eapply (tr_unique _ _ _ Hr)].
    + pose proof (tr_fresh _ _ _ Hr _ _ _ _ H2). unfold c in *. lia.
    + pose proof (tr_fresh _ _ _ Hr _ _ _ _ H1). unfold c in *. lia.
  - intros t' j' id g H1. apply Hset in H1 as [(-> & -> & [= -> ->])|H1]; [lia|]. pose proof (tr_fresh _ _ _ Hr _ _ _ _ H1). unfold c in *. lia.
  - assert (Hin : forall h, handle_in s h /\ callback_id h < c -> handle_in (with_places (c + 1) (aset (places s) t (<[j := Some (c, f)]> (aget (places s) t))) s) h /\ callback_id h < c + 1).
    { intros h [(H1 & H2 & H3) Hlt]. split; [|lia]. split_and!; [lia..|]. intros t' j' g Hat. cbn in Hat. apply Hset in Hat as [(-> & -> & [= ? ?])|Hat]; [lia|by eapply H3]. }
    intros o m Hm. destruct (decide (o = i)) as [->|Hne].
    + rewrite list_lookup_insert_eq in Hm by (by eapply lookup_lt_Some). injection Hm as <-. rewrite Hu. apply Forall_app. split; [eapply Forall_impl; [exact Hin|apply (tr_handles _ _ _ Hr _ _ Hn)]|].
      constructor; [|constructor]. cbn. split; [|lia]. split_and!; cbn; [lia..|]. intros t' j' g Hat. apply Hset in Hat as [(-> & -> & _)|Hat]; [done|]. pose proof (tr_fresh _ _ _ Hr _ _ _ _ Hat). unfold c in *. lia.
    + rewrite list_lookup_insert_ne in Hm by done. eapply Forall_impl; [exact Hin|apply (tr_handles _ _ _ Hr _ _ Hm)].
  - intros o o' id Ho Ho'. rewrite owns_insert in Ho, Ho' by done. assert (Hnew : forall o, o <> i -> owns nds o c -> False) by (intros x _ Hx; specialize (Hold _ _ Hx); lia).
    rewrite Hids in Ho, Ho'. assert (Hi : forall id, id ∈ ids n ++ [c] -> id = c \/ owns nds i id) by (intros id' [Hx|Hx%list_elem_of_singleton]%elem_of_app; [right; by exists n|by left]).
    destruct Ho as [ [-> Ho]|[Hne Ho] ], Ho' as [ [-> Ho']|[Hne' Ho'] ]; [done| | |by eapply (tr_disjoint _ _ _ Hr)].
    + destruct (Hi _ Ho) as [->|Hx]; [by exfalso; eapply Hnew|]. by eapply (tr_disjoint _ _ _ Hr).
    + destruct (Hi _ Ho') as [->|Hx]; [by exfalso; eapply Hnew|]. by eapply (tr_disjoint _ _ _ Hr).
Qed.

Lemma table_bump nds s rs c : table_rel nds s rs -> spec_callback_id s <= c -> table_rel nds (with_places c (places s) s) rs.
Proof.
  intros [H1 H2 H3 H4 H5 H6] Hc. split; cbn; try done.
  - intros t j id f Hat. specialize (H4 _ _ _ _ Hat). lia.
  - intros i n Hn. eapply Forall_impl; [|apply (H5 i n Hn)]. intros h [Hh Hlt]. split; [exact Hh|lia].
Qed.

Lemma claim_rel nds b s rs i n sn max t f sub :
  (forall e w, f e w = deliver variant_index sub e w) -> rel b s -> table_rel nds s rs -> nds !! i = Some n -> node_rel n sn -> max = cap n -> 0 <= t < kMaxTypes -> 0 <= spec_callback_id s < 2 ^ 32 - 2 ->
  exists ok n' b' sn' rs' s', subscribe_with max t f n b = (ok, n', b') /\ spec_own max i t sub sn rs = (ok, sn', rs') /\
    rel b' s' /\ table_rel (<[i := n']> nds) s' rs' /\ node_rel n' sn' /\ strip s' = strip s /\
    spec_callback_id s <= spec_callback_id s' <= spec_callback_id s + 1 /\ static_ n' = static_ n /\ started_ n' = started_ n.
Proof.
  intros Hsub Hb Ht Hn Hnr -> Htr Hid. unfold subscribe_with, spec_own. rewrite (nr_count _ _ Hnr). destruct (Z.leb_spec (cap n) (sn_subs sn)) as [Hfull|Hroom].
  { exists false, n, b, sn, rs, s. split_and!; try done; try lia. by rewrite list_insert_id. }
  destruct (row_at _ _ _ _ Ht Htr) as (_ & _ & Hrow). pose proof (forall2_free _ _ _ (place_rel_free nds) Hrow) as Hfree.
  destruct (subscribe_rel k kMaxTypes kMaxCallbacks Hk Hcallbacks Htypes b s t f Hb Htr) as [Hh Hb']. rewrite (surjective_pairing (Bus.Subscribe t f b)), Hh. unfold spec_subscribe in Hh, Hb' |- *.
  assert (Hnext : u32 (spec_callback_id s + 1) = spec_callback_id s + 1) by (apply wrap_small; unfold in_range; lia).
  destruct (list_find (fun p => p = None) (aget (places s) t)) as [ [j q]|] eqn:Ej; cbn [fst snd] in Hb' |- *.
  - destruct (list_find (fun p => p = None) (aget rs t)) as [ [j' q']|]; [|done]. injection Hfree as <-. unfold handle_IsValid, kInvalidCallbackId. cbn [callback_id]. rewrite (proj2 (Z.eqb_neq _ _)) by lia. cbn [negb].
    set (n' := set_handles _ _ n). eexists true, n', _, _, _, _. split_and!; [reflexivity|reflexivity|exact Hb'| | |done|cbn; lia|cbn; lia|done|done].
    + eapply table_claim; [done..|unfold n'; rewrite <- (nr_count _ _ Hnr); apply (used_push n sn); [done|rewrite (nr_count _ _ Hnr); lia]|done].
    + destruct Hnr as [H1 H2 H3 H4 H5 H6]. assert (Hcap : cap n < 2 ^ 32) by (unfold cap; destruct (static_ n); lia).
      split; cbn; try done; change (cap n') with (cap n); rewrite ?H2, ?wrap_small by (unfold in_range; lia); try lia; rewrite ?length_aset; done.
  - destruct (list_find (fun p => p = None) (aget rs t)) as [ [j' q']|]; [done|]. cbn. eexists false, n, _, sn, rs, _. split_and!; [reflexivity|reflexivity|exact Hb'| |done|done|cbn; lia|cbn; lia|done|done].
    rewrite list_insert_id by done. rewrite Hnext. apply table_bump; [done|lia].
Qed.

(** A node gives back all its handles. *)
Lemma release_rel nds b s rs i n sn :
  rel b s -> table_rel nds s rs -> nds !! i = Some n -> node_rel n sn ->
  let '(n', b') := UnsubscribeAll kMaxTypes n b in exists s',
    rel b' s' /\ table_rel (<[i := n']> nds) s' (clear_owner i rs) /\ strip s' = strip s /\ spec_callback_id s' = spec_callback_id s /\ n' = set_handles (handles_ n) 0 n.
Proof.
  intros Hb Ht Hn Hnr. unfold UnsubscribeAll. fold (used n). pose proof (tr_handles _ _ _ Ht i n Hn) as Hh.
  exists (with_places (spec_callback_id s) (table_without (ids n) (places s)) s). split_and!; [|..|done|done|done].
  - apply unsubscribe_all; [done|apply Ht|]. eapply Forall_impl; [|exact Hh]. by intros h [? _].
  - assert (Hsub : forall t j x, place_at (table_without (ids n) (places s)) t j = Some (Some x) -> place_at (places s) t j = Some (Some x)) by (intros t j [id f] Hx; by apply without_at in Hx as [? _]).
    set (n' := set_handles (handles_ n) 0 n). assert (Hids : ids n' = []) by done. assert (Hused : used n' = []) by done.
    split; cbn [places with_places spec_callback_id].
    + unfold table_without, clear_owner. apply Forall2_fmap_2. eapply Forall2_impl; [|apply (tr_rows _ _ _ Ht)]. intros row row' Hrow. apply Forall2_fmap_2. eapply Forall2_impl; [|exact Hrow].
      intros [ [x g]|] [ [o g']|]; cbn; try done. intros [Hd Ho]. destruct (decide (x ∈ ids n)) as [Hx|Hx], (decide (o = i)) as [->|Hne]; cbn; try done.
      * by apply Hne, (tr_disjoint _ _ _ Ht o i x Ho); exists n.
      * destruct Ho as (m & Hm & Hin). by simplify_eq.
      * split; [done|]. rewrite owns_insert by done. by right.
    + unfold table_without. by rewrite length_fmap, (tr_types _ _ _ Ht).
    + apply unique_sub; [apply Ht|done].
    + intros t j id f Hat. apply without_at in Hat as [Hat _]. by eapply (tr_fresh _ _ _ Ht).
    + intros o m Hm. destruct (decide (o = i)) as [->|Hne].
      * rewrite list_lookup_insert_eq in Hm by (by eapply lookup_lt_Some). injection Hm as <-. by rewrite Hused.
      * rewrite list_lookup_insert_ne in Hm by done. eapply Forall_impl; [|apply (tr_handles _ _ _ Ht o m Hm)]. intros h [Hh' Hlt]. split; [by apply handle_in_sub|done].
    + intros o o' id Ho Ho'. rewrite owns_insert in Ho, Ho' by done. rewrite Hids in Ho, Ho'.
      destruct Ho as [ [_ Ho]|[_ Ho] ]; [by apply not_elem_of_nil in Ho|]. destruct Ho' as [ [_ Ho']|[_ Ho'] ]; [by apply not_elem_of_nil in Ho'|]. by eapply (tr_disjoint _ _ _ Ht).
Qed.

(** The lambdas of the source filter as the subscriptions say. *)
Lemma typed_delivers t (cb : @NodeHandler Payload W) e w : typed_callback variant_index t cb e w = deliver variant_index (mkSub t None cb) e w.
Proof. unfold typed_callback, deliver, hears. cbn. destruct (Z.eqb_spec (u32 (variant_index (payload e))) t); case_decide; naive_solver. Qed.
Lemma topic_delivers t h (cb : @NodeHandler Payload W) e w : topic_callback variant_index t h cb e w = deliver variant_index (mkSub t (Some h) cb) e w.
Proof.
  unfold topic_callback, typed_callback, deliver, hears. cbn.
  destruct (Z.eqb_spec (topic_hash (header e)) h), (Z.eqb_spec (u32 (variant_index (payload e))) t); cbn; case_decide; naive_solver.
Qed.
Lemma static_delivers t h (cb : @NodeHandler Payload W) e w : static_callback variant_index t h cb e w = deliver variant_index (mkSub t (if h =? 0 then None else Some h) cb) e w.
Proof.
  unfold static_callback. destruct (Z.eqb_spec h 0); cbn [negb andb]; [apply typed_delivers|]. apply topic_delivers.
Qed.

Lemma claim_all_rel l handler topic nds b s rs i n sn :
  rel b s -> table_rel nds s rs -> nds !! i = Some n -> node_rel n sn -> static_ n <> None -> Forall (fun j => Z.of_nat j < kMaxTypes) l ->
  0 <= spec_callback_id s -> spec_callback_id s + Z.of_nat (length l) < 2 ^ 32 - 1 ->
  exists ok n' b' sn' rs' s', SubscribeAll variant_index MAX_STATIC_SUBS l handler topic n b = (ok, n', b') /\ spec_own_all MAX_STATIC_SUBS i l handler topic sn rs = (ok, sn', rs') /\
    rel b' s' /\ table_rel (<[i := n']> nds) s' rs' /\ node_rel n' sn' /\ strip s' = strip s /\
    spec_callback_id s <= spec_callback_id s' <= spec_callback_id s + Z.of_nat (length l) /\ started_ n' = started_ n.
Proof.
  revert nds b s rs n sn. induction l as [|j l IH]; intros nds b s rs n sn Hb Ht Hn Hnr Hst Hl Hid Hlen.
  { exists true, n, b, sn, rs, s. rewrite list_insert_id by done. split_and!; try done; cbn; lia. }
  apply Forall_cons_iff in Hl as [Hj Hl]. cbn [length] in Hlen. cbn [SubscribeAll spec_own_all].
  assert (Hcap : MAX_STATIC_SUBS = cap n) by (unfold cap; by destruct (static_ n)).
  destruct (claim_rel nds b s rs i n sn MAX_STATIC_SUBS (Z.of_nat j) (static_callback variant_index (Z.of_nat j) topic handler) _ (static_delivers _ _ _) Hb Ht Hn Hnr Hcap ltac:(lia) ltac:(lia))
    as (ok & n1 & b1 & sn1 & rs1 & s1 & -> & -> & Hb1 & Ht1 & Hn1 & Hs1 & Hc1 & Hst1 & Hsd1).
  destruct ok; [|exists false, n1, b1, sn1, rs1, s1; split_and!; try done; cbn [length]; lia].
  destruct (IH (<[i := n1]> nds) b1 s1 rs1 n1 sn1) as (ok & n2 & b2 & sn2 & rs2 & s2 & E1 & E2 & Hb2 & Ht2 & Hn2 & Hs2 & Hc2 & Hsd2); try done; try lia.
  { apply list_lookup_insert_eq. by eapply lookup_lt_Some. }
  { by rewrite Hst1. }
  rewrite list_insert_insert_eq in Ht2. exists ok, n2, b2, sn2, rs2, s2. rewrite Hs2, Hsd2. split_and!; try done; cbn [length]; lia.
Qed.

Lemma table_rel_ext nds s s' rs : places s' = places s -> spec_callback_id s' = spec_callback_id s -> table_rel nds s rs -> table_rel nds s' rs.
Proof. intros Hp Hc Hr. assert (Hs : handle_in s' = handle_in s) by (unfold handle_in; by rewrite Hp). destruct Hr. split; unfold unique_ids in *; rewrite ?Hp, ?Hc, ?Hs; done. Qed.

Lemma publish_strip pl sender ts prio topic s :
  spec_publish k eviction pl sender ts prio topic (strip s) = ((spec_publish k eviction pl sender ts prio topic s).1, strip (spec_publish k eviction pl sender ts prio topic s).2) /\
  places (spec_publish k eviction pl sender ts prio topic s).2 = places s /\ spec_callback_id (spec_publish k eviction pl sender ts prio topic s).2 = spec_callback_id s.
Proof.
  unfold spec_publish, strip. cbn [spec_msg_id pending with_places]. destruct (_ <=? _); [done|]. destruct (_ <? _); [done|]. destruct (_ && _); [by destruct (spec_evict _ _)|done].
Qed.

Lemma owned_dispatch_rel nds s rs e w : table_rel nds s rs -> spec_dispatch variant_index kMaxTypes s e w = owned_dispatch variant_index kMaxTypes rs e w.
Proof.
  intros Ht. unfold spec_dispatch, owned_dispatch. destruct (Z.leb_spec kMaxTypes (u32 (variant_index (payload e)))) as [|Hlt]; [done|].
  pose proof (wrap_range 32 (variant_index (payload e)) ltac:(lia)) as Hr. unfold in_range in Hr. destruct (row_at _ _ _ (u32 (variant_index (payload e))) Ht ltac:(lia)) as (_ & _ & Hrow).
  revert w. induction Hrow as [|p r row row' Hp _ IH]; intros w; [done|]. cbn [foldl]. rewrite IH. destruct p as [ [x g]|], r as [ [o g']|]; cbn in Hp; try done. by destruct Hp as [<- _].
Qed.

Definition cost (o : @NodeOp Payload W) : Z := match o with NStart _ => Z.of_nat variants | NSubscribe _ _ _ _ => 1 | _ => 0 end.
Definition op_ok (o : @NodeOp Payload W) : Prop := match o with NSubscribe _ t _ _ => 0 <= t < kMaxTypes | _ => True end.

Abbreviation step := (node_step variant_index k kBatchSize kMaxTypes eviction MAX_SUBS MAX_STATIC_SUBS variants).
Abbreviation sstep := (spec_step variant_index k kBatchSize kMaxTypes eviction MAX_SUBS MAX_STATIC_SUBS variants).

(** What a step of one node must show. *)
Definition step_ok (o : @NodeOp Payload W) (x : System) s (y : SSystem) : Prop :=
  (step o x).1 = (sstep o y).1 /\ exists s', sys_rel (step o x).2 s' (sstep o y).2 /\ spec_callback_id s <= spec_callback_id s' <= spec_callback_id s + cost o.

Lemma node_put_rel (x : System) s (y : SSystem) i n sn b' s' rs' :
  sys_rel x s y -> node_rel n sn -> rel b' s' -> table_rel (<[i := n]> (nodes x)) s' rs' -> strip s' = strip s -> sys_rel (put i n b' x) s' (sput i sn rs' y).
Proof. intros [H1 H2 H3 H4 H5] Hn Hb Ht Hs. split; cbn; try done; [by rewrite H2, Hs|by apply Forall2_insert]. Qed.

Lemma node_started_rel n sn st : node_rel n sn -> node_rel (set_started st n) (sn_set (sn_subs sn) st sn).
Proof. intros []. by split. Qed.
(** Only the flag of a node changes. *)
Lemma table_same nds s rs i n n' : table_rel nds s rs -> nds !! i = Some n -> used n' = used n -> table_rel (<[i := n']> nds) s rs.
Proof.
  intros Ht Hn Hu. assert (Hids : ids n' = ids n) by (unfold ids; by rewrite Hu).
  assert (Ho : forall o id, owns (<[i := n']> nds) o id <-> owns nds o id).
  { intros o id. rewrite owns_insert by done. rewrite Hids. split; [intros [ [-> ?]|[_ ?] ]; [by exists n|done]|]. intros Hx. destruct (decide (o = i)) as [->|]; [left|by right]. split; [done|]. destruct Hx as (m & Hm & ?). by simplify_eq. }
  destruct Ht as [H1 H2 H3 H4 H5 H6]. split; try done.
  - eapply Forall2_impl; [|exact H1]. intros row row' Hrow. eapply Forall2_impl; [|exact Hrow]. intros [ [x g]|] [ [o g']|]; cbn; try done. by rewrite Ho.
  - intros o m Hm. destruct (decide (o = i)) as [->|Hne].
    + rewrite list_lookup_insert_eq in Hm by (by eapply lookup_lt_Some). injection Hm as <-. rewrite Hu. by apply (H5 i).
    + rewrite list_lookup_insert_ne in Hm by done. by apply (H5 o).
  - intros o o' id. rewrite !Ho. apply H6.
Qed.

Lemma node_stopped_rel n sn hs st : node_rel n sn -> hs = handles_ n -> node_rel (set_started st (set_handles hs 0 n)) (sn_set 0 st sn).
Proof. intros [H1 H2 H3 H4 H5 H6] ->. split; cbn; try done. change (cap (set_started st (set_handles (handles_ n) 0 n))) with (cap n). lia. Qed.

Lemma stop_eq n b : 0 <= handle_count_ n -> Stop kMaxTypes n b = (set_started false (UnsubscribeAll kMaxTypes n b).1, (UnsubscribeAll kMaxTypes n b).2).
Proof.
  intros Hc. unfold Stop. destruct (started_ n) eqn:Hs; [done|]. destruct (Z.eqb_spec (handle_count_ n) 0) as [H0|]; [|done]. unfold UnsubscribeAll. rewrite H0. cbn. f_equal.
  destruct n. cbn in *. by subst.
Qed.

Lemma nodes_at (x : System) s (y : SSystem) i : sys_rel x s y ->
  match nodes x !! i with Some n => exists sn, snodes y !! i = Some sn /\ node_rel n sn | None => snodes y !! i = None end.
Proof.
  intros Hr. destruct (nodes x !! i) as [n|] eqn:E.
  - destruct (Forall2_lookup_l _ _ _ _ _ (sr_nodes _ _ _ Hr) E) as (sn & Hsn & Hrel). by exists sn.
  - apply lookup_ge_None in E. apply lookup_ge_None. by rewrite <- (Forall2_length (sr_nodes _ _ _ Hr)).
Qed.

Lemma stop_ok (x : System) s (y : SSystem) i : sys_rel x s y -> step_ok (NStop i) x s y.
Proof.
  intros Hr. unfold step_ok. cbn [node_step spec_step cost]. pose proof (nodes_at x s y i Hr) as Hn. destruct (nodes x !! i) as [n|] eqn:En; [|rewrite Hn; split; [done|exists s; split; [done|lia] ] ].
  destruct Hn as (sn & -> & Hnr). rewrite stop_eq by apply Hnr. pose proof (release_rel (nodes x) (bus x) s (rows y) i n sn (sr_bus _ _ _ Hr) (sr_table _ _ _ Hr) En Hnr) as Hrel.
  destruct (UnsubscribeAll kMaxTypes n (bus x)) as [n' b']. destruct Hrel as (s' & Hb & Ht & Hs & Hc & ->). split; [done|]. exists s'. split; [|lia].
  eapply node_put_rel; [done|by apply node_stopped_rel|done| |done].
  rewrite <- (list_insert_insert_eq (nodes x) i _ (set_handles (handles_ n) 0 n)). eapply table_same; [exact Ht|apply list_lookup_insert_eq; by eapply lookup_lt_Some|done].
Qed.

Lemma static_start_ok (x : System) s (y : SSystem) i n sn handler topic :
  sys_rel x s y -> nodes x !! i = Some n -> snodes y !! i = Some sn -> node_rel n sn -> static_ n = Some (handler, topic) ->
  0 <= spec_callback_id s -> spec_callback_id s + Z.of_nat variants < 2 ^ 32 - 1 -> step_ok (NStart i) x s y.
Proof.
  intros Hr En Esn Hnr Hst Hid Hlen. unfold step_ok. cbn [node_step spec_step cost]. rewrite En, Esn, Hst. unfold StaticStart. rewrite Hst, <- (nr_started _ _ Hnr), <- (nr_static _ _ Hnr), Hst.
  destruct (started_ n) eqn:Hsd.
  { split; [done|]. exists s. split; [|lia]. unfold put. rewrite list_insert_id by done. by destruct x, Hr. }
  destruct (claim_all_rel (seq 0 variants) handler topic (nodes x) (bus x) s (rows y) i n sn) as (ok & n1 & b1 & sn1 & rs1 & s1 & -> & -> & Hb1 & Ht1 & Hn1 & Hs1 & Hc1 & Hsd1);
    [apply Hr|apply Hr|done|done|by rewrite Hst|apply Forall_seq; intros j Hj; lia|done|by rewrite length_seq|]. rewrite length_seq in Hc1. destruct ok.
  - split; [done|]. exists s1. split; [|lia]. eapply node_put_rel; [done|by apply node_started_rel|done| |done].
    rewrite <- (list_insert_insert_eq (nodes x) i _ n1). eapply table_same; [exact Ht1|apply list_lookup_insert_eq; by eapply lookup_lt_Some|done].
  - assert (Hlk : <[i := n1]> (nodes x) !! i = Some n1) by (apply list_lookup_insert_eq; by eapply lookup_lt_Some).
    pose proof (release_rel _ b1 s1 rs1 i n1 sn1 Hb1 Ht1 Hlk Hn1) as Hrel. destruct (UnsubscribeAll kMaxTypes n1 b1) as [n2 b2]. destruct Hrel as (s2 & Hb2 & Ht2 & Hs2 & Hc2 & ->).
    split; [done|]. exists s2. split; [|lia]. rewrite list_insert_insert_eq in Ht2. eapply node_put_rel; [done| |done|exact Ht2|by rewrite Hs2].
    pose proof (node_stopped_rel n1 sn1 _ false Hn1 eq_refl) as Hx. destruct n1. cbn in *. by rewrite Hsd1, Hsd in *.
Qed.

Lemma start_ok (x : System) s (y : SSystem) i :
  sys_rel x s y -> 0 <= spec_callback_id s -> spec_callback_id s + Z.of_nat variants < 2 ^ 32 - 1 -> step_ok (NStart i) x s y.
Proof.
  intros Hr Hid Hlen. pose proof (nodes_at x s y i Hr) as Hn. destruct (nodes x !! i) as [n|] eqn:En.
  2: { unfold step_ok. cbn [node_step spec_step cost]. rewrite En, Hn. split; [done|exists s; split; [done|lia] ]. }
  destruct Hn as (sn & Esn & Hnr). destruct (static_ n) as [ [handler topic]|] eqn:Hst; [by eapply static_start_ok|].
  unfold step_ok. cbn [node_step spec_step cost]. rewrite En, Esn, Hst, <- (nr_started _ _ Hnr), <- (nr_static _ _ Hnr), Hst. unfold Start. destruct (started_ n) eqn:Hsd.
  - split; [done|]. exists s. split; [|lia]. unfold put. rewrite list_insert_id by done. by destruct x, Hr.
  - split; [done|]. exists s. split; [|lia]. eapply node_put_rel; [done|by apply node_started_rel|apply Hr| |done]. eapply table_same; [apply Hr|done|done].
Qed.

Lemma subscribe_ok (x : System) s (y : SSystem) i t topic cb :
  sys_rel x s y -> 0 <= t < kMaxTypes -> 0 <= spec_callback_id s < 2 ^ 32 - 2 -> step_ok (NSubscribe i t topic cb) x s y.
Proof.
  intros Hr Ht Hid. unfold step_ok. cbn [node_step spec_step cost]. pose proof (nodes_at x s y i Hr) as Hn. destruct (nodes x !! i) as [n|] eqn:En; [|rewrite Hn; split; [done|exists s; split; [done|lia] ] ].
  destruct Hn as (sn & -> & Hnr). rewrite <- (nr_static _ _ Hnr). destruct (static_ n) eqn:Hst; [split; [done|exists s; split; [done|lia] ]|].
  set (f := match topic with None => typed_callback variant_index t cb | Some topic => topic_callback variant_index t (Fnv1a32 topic) cb end).
  assert (Hcap : MAX_SUBS = cap n) by (unfold cap; by rewrite Hst).
  destruct (claim_rel (nodes x) (bus x) s (rows y) i n sn MAX_SUBS t f (mkSub t (Fnv1a32 <$> topic) cb)) as (ok & n1 & b1 & sn1 & rs1 & s1 & E1 & -> & Hb1 & Ht1 & Hn1 & Hs1 & Hc1 & _); [intros e w; unfold f; destruct topic; [apply topic_delivers|apply typed_delivers]|apply Hr|apply Hr|done..|].
  assert (E : match topic with None => Subscribe variant_index MAX_SUBS t cb n (bus x) | Some topic => SubscribeTopic variant_index MAX_SUBS topic t cb n (bus x) end = ((if ok then None else Some kSubscriptionFull), n1, b1)).
  { unfold Subscribe, SubscribeTopic, f in *. destruct topic; rewrite E1; done. }
  rewrite E. split; [done|]. exists s1. split; [|lia]. by eapply node_put_rel.
Qed.

Lemma send_ok (x : System) s (y : SSystem) i now pl prio topic : sys_rel x s y -> step_ok (NSend i now pl prio topic) x s y.
Proof.
  intros Hr. unfold step_ok. cbn [node_step spec_step cost]. pose proof (nodes_at x s y i Hr) as Hn. destruct (nodes x !! i) as [n|] eqn:En; [|rewrite Hn; split; [done|exists s; split; [done|lia] ] ].
  destruct Hn as (sn & -> & Hnr). set (th := match topic with None => 0 | Some topic => Fnv1a32 topic end).
  assert (E : match topic with None => NPublishWithPriority k eviction now pl prio n (bus x) | Some topic => NPublishTopicWithPriority k eviction now pl topic prio n (bus x) end
    = PublishInternal k eviction pl (id_ n) now prio th (bus x)) by (by destruct topic).
  rewrite E. destruct (publish_rel variant_index k kMaxTypes kMaxCallbacks eviction Hk Hcallbacks Htypes (bus x) s pl (id_ n) now prio th (sr_bus _ _ _ Hr)) as [Hres Hb].
  destruct (publish_strip pl (id_ n) now prio th s) as (Hq & Hp & Hc). rewrite (sr_queue _ _ _ Hr), <- (nr_id _ _ Hnr), Hq.
  destruct (PublishInternal _ _ _ _ _ _ _ (bus x)) as [r b]. cbn in Hres, Hb |- *. split; [by rewrite Hres|]. eexists. split; [|rewrite Hc; lia].
  split; cbn; [exact Hb|done|apply Hr|apply Hr|by apply (table_rel_ext _ s), Hr].
Qed.

Lemma spin_ok (x : System) s (y : SSystem) i : sys_rel x s y -> step_ok (NSpin i) x s y.
Proof.
  intros Hr. unfold step_ok. cbn [node_step spec_step cost]. pose proof (nodes_at x s y i Hr) as Hn. destruct (nodes x !! i) as [n|] eqn:En; [|rewrite Hn; split; [done|exists s; split; [done|lia] ] ].
  destruct Hn as (sn & -> & Hnr). unfold SpinOnce, ProcessBatch, ProcessBatchWith.
  set (v := match static_ n with Some (handler, _) => if started_ n then DispatchMessage variant_index kMaxTypes (bus x) else fun e w => handler (payload e) (header e) w | None => DispatchMessage variant_index kMaxTypes (bus x) end).
  set (v' := match sn_static sn with Some (handler, _) => if sn_started sn then owned_dispatch variant_index kMaxTypes (rows y) else fun e => handler (payload e) (header e) | None => owned_dispatch variant_index kMaxTypes (rows y) end).
  assert (Hd : forall e w, DispatchMessage variant_index kMaxTypes (bus x) e w = owned_dispatch variant_index kMaxTypes (rows y) e w).
  { intros e w. erewrite dispatch_rel by apply Hr. by eapply owned_dispatch_rel, Hr. }
  assert (Hv : forall e w, v e w = v' e w).
  { intros e w. unfold v, v'. rewrite <- (nr_static _ _ Hnr), <- (nr_started _ _ Hnr). destruct (static_ n) as [ [h tp]|]; [destruct (started_ n)|]; auto. }
  assert (E : match static_ n with None => process k kBatchSize (DispatchMessage variant_index kMaxTypes (bus x)) (bus x) (world x)
     | Some (handler, _) => if started_ n then process k kBatchSize (DispatchMessage variant_index kMaxTypes (bus x)) (bus x) (world x) else process k kBatchSize (fun e w => handler (payload e) (header e) w) (bus x) (world x) end
     = process k kBatchSize v (bus x) (world x)).
  { unfold v. destruct (static_ n) as [ [h tp]|]; [destruct (started_ n)|]; done. }
  rewrite E. destruct (process_rel k kBatchSize kMaxTypes kMaxCallbacks Hk v v' (bus x) s (world x) (sr_bus _ _ _ Hr) Hv) as (H1 & H2 & H3).
  destruct (process k kBatchSize v (bus x) (world x)) as [ [c b] w]. rewrite (sr_queue _ _ _ Hr), <- (sr_world _ _ _ Hr). unfold spec_process in *. cbn in H1, H2, H3 |- *.
  split; [by rewrite H1|]. eexists. split; [split; cbn; [exact H2|done|exact H3|apply Hr|by apply (table_rel_ext _ s), Hr]|cbn; lia].
Qed.

Lemma node_step_rel o (x : System) s (y : SSystem) :
  sys_rel x s y -> op_ok o -> 0 <= spec_callback_id s -> spec_callback_id s + cost o < 2 ^ 32 - 1 -> step_ok o x s y.
Proof.
  intros Hr Hok Hid Hc. destruct o; cbn in Hok, Hc; [by apply start_ok|by apply stop_ok|apply subscribe_ok; [done..|lia]|by apply send_ok|by apply spin_ok].
Qed.

Fixpoint run {S} (step : @NodeOp Payload W -> S -> NodeRes * S) (ops : list (@NodeOp Payload W)) (x : S) : list NodeRes * S :=
  match ops with [] => ([], x) | o :: ops => let '(r, x) := step o x in let '(rs, x) := run step ops x in (r :: rs, x) end.
Definition costs (ops : list (@NodeOp Payload W)) : Z := foldr (fun o c => cost o + c) 0 ops.

Lemma costs_nonneg ops : 0 <= costs ops.
Proof. unfold costs. induction ops as [|o ops IH]; cbn [foldr]; [lia|]. destruct o; cbn [cost]; lia. Qed.

Lemma node_run_rel ops (x : System) s (y : SSystem) :
  sys_rel x s y -> Forall op_ok ops -> 0 <= spec_callback_id s -> spec_callback_id s + costs ops < 2 ^ 32 - 1 ->
  (run step ops x).1 = (run sstep ops y).1 /\ exists s', sys_rel (run step ops x).2 s' (run sstep ops y).2.
Proof.
  revert x s y. induction ops as [|o ops IH]; intros x s y Hr Hok Hid Hc; [split; [done|by exists s]|]. apply Forall_cons_iff in Hok as [Ho Hok]. cbn [costs foldr] in Hc.
  assert (Hco : 0 <= cost o) by (destruct o; cbn; lia). pose proof (costs_nonneg ops) as Hpos.
  destruct (node_step_rel o x s y Hr Ho Hid ltac:(unfold costs in *; lia)) as [H1 (s1 & Hr1 & Hc1)]. cbn [run]. destruct (step o x) as [r x1], (sstep o y) as [r' y1]. cbn in H1, Hr1. subst r'.
  destruct (IH x1 s1 y1 Hr1 Hok ltac:(lia) ltac:(unfold costs in *; lia)) as [H2 H3]. destruct (run step ops x1) as [rs x2], (run sstep ops y1) as [rs' y2]. cbn in *. by rewrite H2.
Qed.

(** The nodes before anything happens. *)
Definition fresh_node n : Prop := handle_count_ n = 0 /\ started_ n = false /\ Z.of_nat (length (handles_ n)) = cap n.
Definition spec_of n : @SpecNode Payload W := mkSN (id_ n) 0 false (static_ n).
Definition spec_start (nds : list (@Node Payload W)) (w : W) : SSystem :=
  mkSS (strip (spec_init kMaxTypes kMaxCallbacks)) (replicate (Z.to_nat kMaxTypes) (replicate (Z.to_nat kMaxCallbacks) None)) (spec_of <$> nds) w.

Lemma nodes_start_rel nds w : Forall fresh_node nds -> sys_rel (mkSystem (AsyncBus_ctor k kMaxTypes kMaxCallbacks) nds w) (spec_init kMaxTypes kMaxCallbacks) (spec_start nds w).
Proof.
  intros Hf. assert (Hused : forall i n, nds !! i = Some n -> used n = []).
  { intros i n Hn. rewrite Forall_lookup in Hf. destruct (Hf _ _ Hn) as (Hc & _). unfold used. by rewrite Hc. }
  assert (Hnone : forall t j x, place_at (places (spec_init (Payload := Payload) (World := W) kMaxTypes kMaxCallbacks)) t j = Some (Some x) -> False).
  { intros t j x. unfold place_at. cbn. destruct (replicate _ _ !! t) as [row|] eqn:E; [|done]. apply lookup_replicate_1 in E as [-> _]. cbn. intros Hx. apply lookup_replicate_1 in Hx as [? _]. done. }
  split; cbn; [by apply ctor_rel|done|done| |].
  - clear -Hf Hmax Hmaxs. induction Hf as [|n nds (H1 & H2 & H3) _ IH]; [constructor|]. constructor; [|done]. split; cbn; try done. unfold cap. destruct (static_ n); lia.
  - split; cbn.
    + apply Forall2_replicate. by apply Forall2_replicate.
    + rewrite length_replicate. lia.
    + intros t j t' j' id f f' H1. by apply Hnone in H1.
    + intros t j id f H1. by apply Hnone in H1.
    + intros i n Hn. by rewrite (Hused i n Hn).
    + intros i j id (n & Hn & Hin). unfold ids in Hin. rewrite (Hused i n Hn) in Hin. by apply not_elem_of_nil in Hin.
Qed.

(** C24. Nodes and static nodes on a bus behave as owners of its places: whatever the calls
    of Start, Stop, Subscribe, Publish and SpinOnce on any number of nodes, as long as
    fewer than 2^32 - 2 subscriptions are made, every call returns and every callback
    receives what a table in which each place is free or owned by a node says: messages
    reach exactly the callbacks of the nodes subscribed to their type and, for topics, to
    the hash of their topic ([hears]), in the order of the places; a node that stops frees
    exactly its own places; a StaticNode that cannot subscribe to every type subscribes to
    none. *)
Theorem nodes_own_places nds w ops :
  Forall fresh_node nds -> Forall op_ok ops -> costs ops < 2 ^ 32 - 2 ->
  (run step ops (mkSystem (AsyncBus_ctor k kMaxTypes kMaxCallbacks) nds w)).1 = (run sstep ops (spec_start nds w)).1 /\
  world (run step ops (mkSystem (AsyncBus_ctor k kMaxTypes kMaxCallbacks) nds w)).2 = sworld (run sstep ops (spec_start nds w)).2.
Proof.
  intros Hf Hok Hc. destruct (node_run_rel ops _ _ _ (nodes_start_rel nds w Hf) Hok) as [H1 (s & Hr)]; [cbn; lia|cbn; lia|]. split; [exact H1|apply Hr].
Qed.

End NodeProofs.

(** Two nodes and a static node on a bus of three types. *)
Definition demo_type (p : Z) : Z := p / 10.
Definition note (i : Z) : @NodeHandler Z (list (Z * Z)) := fun p _ w => w ++ [(i, p)].
Definition no_handles (n : nat) : list SubscriptionHandle := replicate n (mkHandle 0 0).
Definition demo_nodes : list (@Node Z (list (Z * Z))) :=
  [Node_ctor 31 (Some [97]) 1 (no_handles 2); Node_ctor 31 None 2 (no_handles 2); StaticNode_ctor 31 None 3 (note 3) None (no_handles 3)].
Definition demo_ops : list (@NodeOp Z (list (Z * Z))) :=
  [NStart 0; NSubscribe 0 1 None (note 1); NSubscribe 1 1 (Some (Some [120])) (note 2); NStart 2; NSend 0 5 11 kMedium None; NSend 1 6 12 kMedium (Some (Some [120]));
   NSpin 0; NStop 0; NStart 0; NStart 0; NSend 0 7 13 kMedium (Some (Some [121])); NSpin 1; NSubscribe 1 2 None (note 2); NSubscribe 1 2 None (note 2)].
Lemma nodes_own_places_witness :
  let r := run (node_step demo_type 3 4 3 false 2 3 3) demo_ops (mkSystem (AsyncBus_ctor 3 3 2) demo_nodes []) in
  r.1 = (run (spec_step demo_type 3 4 3 false 2 3 3) demo_ops (spec_start 3 2 demo_nodes [])).1 /\
  world r.2 = sworld (run (spec_step demo_type 3 4 3 false 2 3 3) demo_ops (spec_start 3 2 demo_nodes [])).2 /\
  world r.2 = [(1, 11); (1, 12); (2, 12)].
Proof.
  cbn zeta. match goal with |- ?a /\ ?b /\ ?c => enough ((a /\ b) /\ c) by tauto end. split.
  - apply (nodes_own_places demo_type 3 4 3 2 false 2 3 3); try lia; [repeat constructor| |].
    + unfold demo_ops. repeat constructor; cbn; lia.
    + vm_compute. reflexivity.
  - vm_compute. reflexivity.
Defined.
