(* ===== verification/Ini.v ===== *)
(** * INI files (include/osp/inicpp.hpp)

    Comments and their escapes, the decoder line by line with its errors, the encoder,
    the ordered maps they fill, and the conversions of field values.  A string is a list
    of character codes; the order of the maps is a parameter, as in the source. *)

From Stdlib Require Import ZArith Lia Bool Sorting.Sorted.
From stdpp Require Import base numbers list option.
From S2P Require Import Prelude.

Open Scope Z_scope.

Abbreviation str := (list Z).
Definition ch_newline : Z := 10.
Definition ch_tab : Z := 9.
Definition ch_open : Z := 91.
Definition ch_close : Z := 93.

Definition Whitespaces : str := [32; 9; 10; 13; 12; 11].
Definition Indents : str := [32; 9].

(** find_first_not_of: the string from there on. *)
Fixpoint drop_any (set s : str) : str := match s with c :: s' => if decide (c ∈ set) then drop_any set s' else s | [] => [] end.
Definition Trim (s : str) : str := drop_any Whitespaces (reverse (drop_any Whitespaces (reverse s))).

(** string::find(pattern, start) *)
Definition starts_with (p s : str) : bool := bool_decide (take (length p) s = p).
Fixpoint find_from (p s : str) (i : nat) : option nat :=
  if starts_with p s then Some i else match s with [] => None | _ :: s' => find_from p s' (S i) end.
Definition find (p s : str) (start : nat) : option nat := if (start <=? length s)%nat then find_from p (drop start s) start else None.

(** ** Files *)

Section Ini.
(** The comparator of the maps. *)
Context (lt : str -> str -> bool).

(** std::map: an association list in the order of its keys; equivalent keys are those
    of which neither is less. *)
Section Map.
Context {V : Type}.
Fixpoint map_get (k : str) (m : list (str * V)) : option V :=
  match m with
  | [] => None
  | (k', v) :: m => if lt k k' then None else if lt k' k then map_get k m else Some v
  end.
Fixpoint map_set (k : str) (v : V) (m : list (str * V)) : list (str * V) :=
  match m with
  | [] => [(k, v)]
  | (k', v') :: m' => if lt k k' then (k, v) :: m else if lt k' k then (k', v') :: map_set k v m' else (k', v) :: m'
  end.
End Map.

Abbreviation IniSection := (list (str * str)).
Abbreviation IniFile := (list (str * IniSection)).

(** operator[]: an entry with the default value appears when there is none. *)
Definition section_at (k : str) (f : IniFile) : IniSection := match map_get k f with Some s => s | None => [] end.
Definition touch_section (k : str) (f : IniFile) : IniFile := map_set k (section_at k f) f.
Definition field_at (k : str) (s : IniSection) : str := match map_get k s with Some v => v | None => [] end.
Definition set_field (sec name value : str) (f : IniFile) : IniFile := map_set sec (map_set name value (section_at sec f)) f.

(** The settings of IniFileBase. *)
Record IniConfig := mkConfig { field_sep_ : Z; esc_ : Z; comment_prefixes_ : list str; multi_line_values_ : bool; overwrite_duplicate_fields_ : bool }.
Definition default_config : IniConfig := mkConfig 61 92 [[35]; [59]] false true.
Definition SetFieldSep (c : Z) (g : IniConfig) : IniConfig := mkConfig c (esc_ g) (comment_prefixes_ g) (multi_line_values_ g) (overwrite_duplicate_fields_ g).
Definition SetCommentPrefixes (l : list str) (g : IniConfig) : IniConfig := mkConfig (field_sep_ g) (esc_ g) l (multi_line_values_ g) (overwrite_duplicate_fields_ g).
Definition SetCommentChar (c : Z) (g : IniConfig) : IniConfig := SetCommentPrefixes [[c]] g.
Definition SetEscapeChar (c : Z) (g : IniConfig) : IniConfig := mkConfig (field_sep_ g) c (comment_prefixes_ g) (multi_line_values_ g) (overwrite_duplicate_fields_ g).
Definition SetMultiLineValues (b : bool) (g : IniConfig) : IniConfig := mkConfig (field_sep_ g) (esc_ g) (comment_prefixes_ g) b (overwrite_duplicate_fields_ g).
Definition AllowOverwriteDuplicateFields (b : bool) (g : IniConfig) : IniConfig := mkConfig (field_sep_ g) (esc_ g) (comment_prefixes_ g) (multi_line_values_ g) b.

Context (g : IniConfig).

(** Every recursive call is on a shorter string, so the length is fuel enough. *)
Fixpoint erase_comment (fuel : nat) (prefix s : str) (startpos : nat) : str :=
  match fuel with
  | O => s
  | S fuel =>
    match find prefix s startpos with
    | None => s
    | Some pos =>
      if negb (Nat.eqb pos 0) && bool_decide (s !! (pos - 1)%nat = Some (esc_ g))
      then erase_comment fuel prefix (take (pos - 1) s ++ drop pos s) (pos - 1 + length prefix)
      else take pos s
    end
  end.
Definition EraseComment (prefix s : str) : str := erase_comment (S (length s)) prefix s 0.
Definition EraseComments (s : str) : str := fold_left (fun s prefix => EraseComment prefix s) (comment_prefixes_ g) s.

(** The prefix that matches at [startpos]; prefixes that would pass the end do not. *)
Definition FindCommentPrefix (s : str) (startpos : nat) : option str :=
  if (length s <=? startpos)%nat then None
  else snd <$> list_find (fun prefix => (length prefix + startpos <= length s)%nat /\ starts_with prefix (drop startpos s) = true) (comment_prefixes_ g).

(** [None]: the loop does not end, which happens with an empty prefix. *)
Fixpoint write_escaped (fuel : nat) (s : str) (i : nat) : option str :=
  if (length s <=? i)%nat then Some []
  else match fuel with
  | O => None
  | S fuel =>
    match FindCommentPrefix s i with
    | Some prefix => rest ← write_escaped fuel s (i + length prefix); Some (esc_ g :: prefix ++ rest)
    | None =>
      rest ← write_escaped fuel s (S i);
      Some (if multi_line_values_ g && (s !!! i =? ch_newline) then ch_newline :: ch_tab :: rest else (s !!! i) :: rest)
    end
  end.
Definition WriteEscaped (s : str) : option str := write_escaped (length s) s 0.

(** ** Decoding *)

Inductive IniError := SectionNotClosed | SectionEmpty | FieldHasNoSection | NoSeparator | DuplicateField.
Record DecodeState := mkDecode { file : IniFile; current_section : option str; multi_line_value_field_name : str; line_no : Z }.

Definition decode_section (line : str) (st : DecodeState) : (IniError * DecodeState) + DecodeState :=
  match find [ch_close] line 0 with
  | None => inl (SectionNotClosed, st)
  | Some pos =>
    if Nat.eqb pos 1 then inl (SectionEmpty, st)
    else let sec_name := take (pos - 1) (drop 1 line) in inr (mkDecode (touch_section sec_name (file st)) (Some sec_name) [] (line_no st))
  end.
Definition decode_field (line : str) (has_indent : bool) (st : DecodeState) : (IniError * DecodeState) + DecodeState :=
  match current_section st with
  | None => inl (FieldHasNoSection, st)
  | Some sec =>
    if multi_line_values_ g && has_indent && negb (bool_decide (multi_line_value_field_name st = [])) then
      let name := multi_line_value_field_name st in
      inr (mkDecode (set_field sec name (field_at name (section_at sec (file st)) ++ [ch_newline] ++ line) (file st)) (Some sec) name (line_no st))
    else match find [field_sep_ g] line 0 with
    | None => inl (NoSeparator, st)
    | Some pos =>
      let name := Trim (take pos line) in
      if negb (overwrite_duplicate_fields_ g) && (match map_get name (section_at sec (file st)) with Some _ => true | None => false end)
      then inl (DuplicateField, st)
      else inr (mkDecode (set_field sec name (Trim (drop (S pos) line)) (file st)) (Some sec) name (line_no st))
    end
  end.
Definition decode_line (line : str) (st : DecodeState) : (IniError * DecodeState) + DecodeState :=
  let line := EraseComments line in
  let has_indent := match line with c :: _ => bool_decide (c ∈ Indents) | [] => true end in
  let line := Trim line in
  let st := mkDecode (file st) (current_section st) (multi_line_value_field_name st) (line_no st + 1) in
  match line with
  | [] => inr st
  | c :: _ => if c =? ch_open then decode_section line st else decode_field line has_indent st
  end.
Fixpoint decode_lines (l : list str) (st : DecodeState) : (IniError * DecodeState) + DecodeState :=
  match l with [] => inr st | line :: l => match decode_line line st with inl e => inl e | inr st => decode_lines l st end end.

(** getline until the end of the stream: also what follows the last newline. *)
Fixpoint lines_of (s cur : str) : list str :=
  match s with [] => [reverse cur] | c :: s => if c =? ch_newline then reverse cur :: lines_of s [] else lines_of s (c :: cur) end.
(** The error with its line, if any, and what has been read. *)
Definition Decode (content : str) : option (IniError * Z) * IniFile :=
  match decode_lines (lines_of content []) (mkDecode [] None [] 0) with
  | inl (e, st) => (Some (e, line_no st), file st)
  | inr st => (None, file st)
  end.

(** ** Encoding *)

Definition encode_field (kv : str * str) : option str := n ← WriteEscaped kv.1; v ← WriteEscaped kv.2; Some (n ++ [field_sep_ g] ++ v ++ [ch_newline]).
Fixpoint encode_fields (l : IniSection) : option str := match l with [] => Some [] | kv :: l => x ← encode_field kv; y ← encode_fields l; Some (x ++ y) end.
Fixpoint Encode (f : IniFile) : option str :=
  match f with
  | [] => Some []
  | (sec, s) :: f => n ← WriteEscaped sec; fs ← encode_fields s; rest ← Encode f; Some (([ch_open] ++ n ++ [ch_close; ch_newline]) ++ fs ++ [ch_newline] ++ rest)
  end.

End Ini.

(** ** Converting values *)

Definition is_white (c : Z) : bool := bool_decide (c ∈ Whitespaces).
Definition toupper (c : Z) : Z := if (97 <=? c) && (c <=? 122) then c - 32 else c.
Definition tolower (c : Z) : Z := if (65 <=? c) && (c <=? 90) then c + 32 else c.

(** The characters before the terminator. *)
Fixpoint c_str (s : str) : str := match s with c :: s => if c =? 0 then [] else c :: c_str s | [] => [] end.

(** strtol and strtoul in a given base *)
Definition digit_of (base c : Z) : option Z :=
  let d := if (48 <=? c) && (c <=? 57) then c - 48 else if (97 <=? tolower c) && (tolower c <=? 122) then tolower c - 87 else 99 in
  if d <? base then Some d else None.
Fixpoint digits (base : Z) (s : str) (acc : Z) : Z * str :=
  match s with c :: s' => match digit_of base c with Some d => digits base s' (acc * base + d) | None => (acc, s) end | [] => (acc, []) end.
Fixpoint skip_space (s : str) : str := match s with c :: s' => if is_white c then skip_space s' else s | [] => [] end.
Definition strip_0x (base : Z) (s : str) : str :=
  match s with
  | z :: x :: c :: s' => if (base =? 16) && (z =? 48) && (tolower x =? 120) then match digit_of 16 c with Some _ => c :: s' | None => s end else s
  | _ => s
  end.
(** The magnitude, the sign and the rest; no digit: nothing is consumed. *)
Definition parse_number (base : Z) (s : str) : Z * bool * str :=
  let t := skip_space s in
  let '(neg, t) := match t with c :: t' => if c =? 45 then (true, t') else if c =? 43 then (false, t') else (false, t) | [] => (false, t) end in
  let t := strip_0x base t in
  match t with
  | c :: _ => match digit_of base c with Some _ => let '(v, rest) := digits base t 0 in (v, neg, rest) | None => (0, false, s) end
  | [] => (0, false, s)
  end.
Definition LONG_MAX : Z := 2 ^ 63 - 1.
Definition strtol_base (base : Z) (s : str) : Z * str :=
  let '(v, neg, rest) := parse_number base s in
  let v := if neg then - v else v in ((if LONG_MAX <? v then LONG_MAX else if v <? - 2 ^ 63 then - 2 ^ 63 else v), rest).
Definition strtoul_base (base : Z) (s : str) : Z * str :=
  let '(v, neg, rest) := parse_number base s in ((if 2 ^ 64 - 1 <? v then 2 ^ 64 - 1 else u64 (if neg then - v else v)), rest).

(** The first base of 10, 8 and 16 in which the whole string is a number. *)
Definition first_base (conv : Z -> str -> Z * str) (s : str) : option Z :=
  match conv 10 s with (v, []) => Some v | _ => match conv 8 s with (v, []) => Some v | _ => match conv 16 s with (v, []) => Some v | _ => None end end end.
Definition StrToLong (value : str) : option Z := first_base strtol_base (c_str value).
Definition StrToULong (value : str) : option Z := first_base strtoul_base (c_str value).

(** [None] is the exception. *)
Definition Decode_short (value : str) : option Z := signed 16 <$> StrToLong value.
Definition Decode_ushort (value : str) : option Z := u16 <$> StrToULong value.
Definition Decode_int (value : str) : option Z := signed 32 <$> StrToLong value.
Definition Decode_uint (value : str) : option Z := u32 <$> StrToULong value.
Definition Decode_long (value : str) : option Z := StrToLong value.
Definition Decode_ulong (value : str) : option Z := StrToULong value.
Definition Decode_bool (value : str) : option bool :=
  let s := toupper <$> value in if decide (s = [84; 82; 85; 69]) then Some true else if decide (s = [70; 65; 76; 83; 69]) then Some false else None.
Definition Encode_bool (b : bool) : str := if b then [116; 114; 117; 101] else [102; 97; 108; 115; 101].
(** Insertion of an integer into a stream: decimal. *)
Fixpoint print_digits (fuel : nat) (n : Z) : str :=
  match fuel with O => [] | S fuel => if n <? 10 then [48 + n] else print_digits fuel (n / 10) ++ [48 + n mod 10] end.
Definition Encode_integer (v : Z) : str := if v <? 0 then 45 :: print_digits 20 (- v) else print_digits 20 v.

(** The comparators: std::less on strings (characters compare as unsigned), and the one
    that ignores case. *)
Fixpoint str_less (a b : str) : bool :=
  match a, b with
  | [], [] => false | [], _ :: _ => true | _ :: _, [] => false
  | x :: a, y :: b => if x <? y then true else if y <? x then false else str_less a b
  end.
Definition StringInsensitiveLess (a b : str) : bool := str_less (tolower <$> a) (tolower <$> b).

(** ** Round trip of files *)

Section RoundTrip.
Context (lt : str -> str -> bool) (g : IniConfig) (cs : str).
Context (Hasym : forall a b, lt a b = true -> lt b a = false).
(** The comment prefixes are single characters, none of them special otherwise. *)
Context (Hprefixes : comment_prefixes_ g = (fun c => [c]) <$> cs) (Hdistinct : NoDup cs) (Hesc : esc_ g ∉ cs).
Context (Hspecial : ch_newline ∉ cs /\ ch_open ∉ cs /\ ch_close ∉ cs /\ field_sep_ g ∉ cs).
Context (Hescnl : esc_ g <> ch_newline) (Hsep : field_sep_ g ∉ Whitespaces /\ field_sep_ g <> ch_open).

Fixpoint escape (l s : str) : str := match s with [] => [] | c :: s => if decide (c ∈ l) then esc_ g :: c :: escape l s else c :: escape l s end.

Lemma escape_app l s t : escape l (s ++ t) = escape l s ++ escape l t.
Proof. induction s as [|c s IH]; [done|]. cbn. case_decide; cbn; by rewrite IH. Qed.
Lemma escape_nil s : escape [] s = s.
Proof. induction s as [|c s IH]; [done|]. cbn. rewrite decide_False by apply not_elem_of_nil. by rewrite IH. Qed.
Lemma escape_elem l s c : c ∈ escape l s -> c = esc_ g \/ c ∈ s.
Proof.
  induction s as [|x s IH]; cbn; [by right|]. rewrite elem_of_cons. case_decide; rewrite !elem_of_cons; intros Hc; [destruct Hc as [->|[->|Hc] ]|destruct Hc as [->|Hc] ]; auto; destruct (IH Hc); auto.
Qed.
Lemma escape_less l c s : c ∉ s -> escape (c :: l) s = escape l s.
Proof.
  induction s as [|x s IH]; intros Hc; [done|]. apply not_elem_of_cons in Hc as [Hx Hc]. cbn. rewrite (IH Hc). destruct (decide (x ∈ c :: l)) as [Hin|Hin], (decide (x ∈ l)) as [Hl|Hl]; try done.
  - apply elem_of_cons in Hin as [->|Hin]; done.
  - by destruct Hin; right.
Qed.

(** find, of one character *)
Lemma find_from_char c s i : c ∉ s -> find_from [c] s i = None.
Proof.
  revert i. induction s as [|x s IH]; intros i Hc; [done|]. apply not_elem_of_cons in Hc as [Hx Hc]. cbn [find_from]. unfold starts_with. cbn [length take].
  rewrite bool_decide_eq_false_2 by congruence. by apply IH.
Qed.
Lemma find_from_at c s t i : c ∉ s -> find_from [c] (s ++ c :: t) i = Some (i + length s)%nat.
Proof.
  revert i. induction s as [|x s IH]; intros i Hc; cbn [find_from app]; unfold starts_with; cbn [length take].
  - rewrite bool_decide_eq_true_2 by done. f_equal. lia.
  - apply not_elem_of_cons in Hc as [Hx Hc]. rewrite bool_decide_eq_false_2 by congruence. rewrite IH by done. f_equal. lia.
Qed.

Lemma split_at (c : Z) (s : str) : c ∈ s -> exists s1 s2, s = s1 ++ c :: s2 /\ c ∉ s1.
Proof.
  induction s as [|x s IH]; [by intros ?%not_elem_of_nil|]. intros Hc. destruct (decide (x = c)) as [->|Hne]; [exists [], s; split; [done|apply not_elem_of_nil]|]. apply elem_of_cons in Hc as [|Hc]; [done|].
  destruct (IH Hc) as (s1 & s2 & -> & Hs). exists (x :: s1), s2. split; [done|]. by apply not_elem_of_cons.
Qed.

(** One pass takes the escapes of its own character away. *)
Lemma erase_pass c l fuel a s :
  c <> esc_ g -> c ∉ l -> (length s < fuel)%nat -> erase_comment g fuel [c] (a ++ escape (c :: l) s) (length a) = a ++ escape l s.
Proof.
  intros Hc Hl. revert a s. induction fuel as [|fuel IH]; intros a s Hf; [lia|]. cbn [erase_comment]. unfold find. rewrite (proj2 (Nat.leb_le _ _)) by (rewrite length_app; lia).
  rewrite drop_app_length. destruct (decide (c ∈ s)) as [Hin|Hin].
  - destruct (split_at c s Hin) as (s1 & s2 & -> & Hs1). rewrite !escape_app, (escape_less l c s1) by done. cbn [escape]. rewrite decide_True by (by left).
    replace (escape l s1 ++ esc_ g :: c :: escape (c :: l) s2) with ((escape l s1 ++ [esc_ g]) ++ c :: escape (c :: l) s2) by (by rewrite <- app_assoc).
    assert (Hno : c ∉ escape l s1 ++ [esc_ g]) by (intros [Hx|Hx%list_elem_of_singleton]%elem_of_app; [destruct (escape_elem _ _ _ Hx); [by apply Hc|done]|by apply Hc]).
    rewrite (find_from_at c _ _ _ Hno). rewrite !length_app in *. cbn [length] in *. set (p := (length a + (length (escape l s1) + 1))%nat).
    rewrite (proj2 (Nat.eqb_neq p 0)) by lia. cbn [negb andb]. replace (a ++ (escape l s1 ++ [esc_ g]) ++ c :: escape (c :: l) s2) with ((a ++ escape l s1) ++ esc_ g :: c :: escape (c :: l) s2) by (by rewrite <- !app_assoc).
    replace (p - 1)%nat with (length (a ++ escape l s1)) by (rewrite length_app; unfold p; lia).
    rewrite bool_decide_eq_true_2 by (by rewrite list_lookup_middle). rewrite take_app_length. replace p with (S (length (a ++ escape l s1))) by (rewrite length_app; unfold p; lia).
    rewrite drop_app, (drop_ge _ (S _)) by lia. replace (S (length (a ++ escape l s1)) - length (a ++ escape l s1))%nat with 1%nat by lia. cbn [drop app].
    replace ((a ++ escape l s1) ++ c :: escape (c :: l) s2) with ((a ++ escape l s1 ++ [c]) ++ escape (c :: l) s2) by (by rewrite <- !app_assoc).
    replace (length (a ++ escape l s1) + 1)%nat with (length (a ++ escape l s1 ++ [c])) by (rewrite !length_app; cbn; lia).
    rewrite IH by lia. rewrite (decide_False (P := c ∈ l)) by done. by rewrite <- !app_assoc.
  - rewrite (escape_less l c s) by done. rewrite find_from_char; [done|]. intros Hx. by destruct (escape_elem _ _ _ Hx).
Qed.

Lemma erase_all l s : NoDup l -> esc_ g ∉ l -> fold_left (fun s prefix => EraseComment g prefix s) ((fun c => [c]) <$> l) (escape l s) = s.
Proof.
  induction l as [|c l IH]; intros Hn He; [apply escape_nil|]. apply list.NoDup_cons in Hn as [Hc Hn]. apply not_elem_of_cons in He as [He1 He2]. cbn [fmap list_fmap fold_left].
  assert (Hlen : (length s <= length (escape (c :: l) s))%nat) by (clear; induction s as [|x s IH]; cbn; [lia|]; case_decide; cbn; lia).
  unfold EraseComment at 2. rewrite (erase_pass c l _ [] s) by (done || lia). by apply IH.
Qed.
(** ** Trimming *)

Definition clean_edges (s : str) : Prop := (forall c, head s = Some c -> c ∉ Whitespaces) /\ (forall c, list.last s = Some c -> c ∉ Whitespaces).
Lemma drop_any_id set s : (forall c, head s = Some c -> c ∉ set) -> drop_any set s = s.
Proof. destruct s as [|c s]; [done|]. intros Hc. cbn. by rewrite decide_False by (by apply Hc). Qed.
Lemma drop_any_head set s c : head (drop_any set s) = Some c -> c ∉ set.
Proof. induction s as [|x s IH]; [done|]. cbn. case_decide; [done|]. cbn. by intros [= <-]. Qed.
Lemma drop_any_last set s c : list.last (drop_any set s) = Some c -> list.last s = Some c.
Proof.
  induction s as [|x s IH]; [done|]. cbn [drop_any]. case_decide; [|done]. intros Hl. specialize (IH Hl). destruct s; [done|]. exact IH.
Qed.
Lemma head_last_reverse (s : str) : head (reverse s) = list.last s.
Proof. by rewrite last_reverse || (rewrite <- (reverse_involutive s) at 2; by rewrite last_reverse). Qed.
Lemma trim_clean s : clean_edges (Trim s).
Proof.
  split; intros c Hc; unfold Trim in Hc; [by eapply drop_any_head|]. apply drop_any_last in Hc. rewrite last_reverse in Hc. by eapply drop_any_head.
Qed.
Lemma trim_id s : clean_edges s -> Trim s = s.
Proof.
  intros [Hh Hl]. unfold Trim. rewrite (drop_any_id _ (reverse s)) by (intros c; rewrite head_last_reverse; apply Hl). rewrite reverse_involutive. by apply drop_any_id.
Qed.
Lemma clean_join a b c : clean_edges a -> clean_edges b -> c ∉ Whitespaces -> clean_edges (a ++ [c] ++ b).
Proof.
  intros [Ha _] [_ Hb] Hc. split; intros x Hx.
  - destruct a as [|y a]; [by injection Hx as <-|]. by apply Ha.
  - rewrite !last_app in Hx. destruct (list.last b) as [y|] eqn:E; [cbn in Hx; injection Hx as <-; by apply Hb|]. cbn in Hx. by injection Hx as <-.
Qed.

(** ** Writing *)

Lemma find_prefix s i x :
  s !! i = Some x -> FindCommentPrefix g s i = if decide (x ∈ cs) then Some [x] else None.
Proof.
  intros Hx. pose proof (lookup_lt_Some _ _ _ Hx) as Hlt. unfold FindCommentPrefix. rewrite (proj2 (Nat.leb_gt _ _)) by lia. rewrite Hprefixes.
  set (P := fun prefix : str => _ /\ _). assert (HP : forall c, P [c] <-> c = x).
  { intros c. unfold P, starts_with. rewrite bool_decide_eq_true. rewrite (drop_S _ _ _ Hx). cbn. split; [intros [_ [= <-] ]; done|intros ->; split; [lia|done] ]. }
  destruct (decide (x ∈ cs)) as [Hin|Hin].
  - destruct (list_find P ((fun c => [c]) <$> cs)) as [ [j p]|] eqn:E.
    + apply list_find_Some in E as (Hj & Hp & _). rewrite list_lookup_fmap in Hj. destruct (cs !! j) as [c|]; [|done]. cbn in Hj. injection Hj as <-. apply HP in Hp as ->. done.
    + apply list_find_None in E. rewrite Forall_lookup in E. apply list_elem_of_lookup in Hin as (j & Hj). exfalso. apply (E j [x]); [rewrite list_lookup_fmap, Hj; done|by apply HP].
  - destruct (list_find P ((fun c => [c]) <$> cs)) as [ [j p]|] eqn:E; [|done]. apply list_find_Some in E as (Hj & Hp & _). rewrite list_lookup_fmap in Hj.
    destruct (cs !! j) as [c|] eqn:Ec; [|done]. cbn in Hj. injection Hj as <-. apply HP in Hp as ->. destruct Hin. by eapply list_elem_of_lookup_2.
Qed.

Lemma write_escaped_spec fuel s i : ch_newline ∉ s -> (length s - i <= fuel)%nat -> write_escaped g fuel s i = Some (escape cs (drop i s)).
Proof.
  intros Hnl. revert i. induction fuel as [|fuel IH]; intros i Hf; cbn [write_escaped]; destruct (Nat.leb_spec (length s) i) as [Hge|Hlt]; try lia; try (by rewrite drop_ge by lia).
  destruct (lookup_lt_is_Some_2 s i Hlt) as (x & Hx). rewrite (find_prefix s i x Hx), (drop_S _ _ _ Hx). cbn [escape]. destruct (decide (x ∈ cs)) as [Hin|Hin].
  - cbn [length]. rewrite IH by lia. cbn. by replace (i + 1)%nat with (S i) by lia.
  - rewrite IH by lia. cbn. rewrite (list_lookup_total_correct _ _ _ Hx). destruct (Z.eqb_spec x ch_newline) as [->|_]; [destruct Hnl; by eapply list_elem_of_lookup_2|]. by rewrite andb_false_r.
Qed.
Lemma write_escape s : ch_newline ∉ s -> WriteEscaped g s = Some (escape cs s).
Proof. intros Hnl. unfold WriteEscaped. by rewrite write_escaped_spec by (done || lia). Qed.

(** ** Lines *)

Definition section_line (sec : str) : str := [ch_open] ++ sec ++ [ch_close].
Definition field_line (kv : str * str) : str := kv.1 ++ [field_sep_ g] ++ kv.2.
Definition field_ok (kv : str * str) : Prop :=
  ch_newline ∉ kv.1 /\ field_sep_ g ∉ kv.1 /\ Trim kv.1 = kv.1 /\ head kv.1 <> Some ch_open /\ ch_newline ∉ kv.2 /\ Trim kv.2 = kv.2.
Definition sorted {V} (m : list (str * V)) : Prop := StronglySorted (fun a b => lt a.1 b.1 = true) m.
Definition section_ok (ss : str * list (str * str)) : Prop :=
  ss.1 <> [] /\ ch_newline ∉ ss.1 /\ ch_close ∉ ss.1 /\ Forall field_ok ss.2 /\ sorted ss.2.
(** Files that a text can hold: names without separators, values without newlines or
    surrounding space, in the order of the map. *)
Definition file_ok (f : list (str * list (str * str))) : Prop := Forall section_ok f /\ sorted f.

Definition section_lines (ss : str * list (str * str)) : list str := escape cs (section_line ss.1) :: ((fun kv => escape cs (field_line kv)) <$> ss.2) ++ [[]].
Definition join_lines (l : list str) : str := concat ((fun x => x ++ [ch_newline]) <$> l).

Lemma escape_other l c : c ∉ l -> escape l [c] = [c].
Proof. intros Hc. cbn. by rewrite decide_False. Qed.
Lemma escape_newline s : ch_newline ∉ s -> ch_newline ∉ escape cs s.
Proof. intros Hs Hx. destruct (escape_elem _ _ _ Hx); [by apply Hescnl|done]. Qed.

Lemma encode_field_spec kv : field_ok kv -> encode_field g kv = Some (escape cs (field_line kv) ++ [ch_newline]).
Proof.
  intros (H1 & _ & _ & _ & H2 & _). unfold encode_field. rewrite (write_escape _ H1), (write_escape _ H2). cbn. unfold field_line. rewrite !escape_app, (escape_other cs (field_sep_ g)) by apply Hspecial. by rewrite <- !app_assoc.
Qed.
Lemma encode_fields_spec l : Forall field_ok l -> encode_fields g l = Some (join_lines ((fun kv => escape cs (field_line kv)) <$> l)).
Proof. induction 1 as [|kv l Hkv _ IH]; [done|]. cbn [encode_fields]. rewrite (encode_field_spec kv Hkv), IH. done. Qed.
Lemma join_lines_app l l' : join_lines (l ++ l') = join_lines l ++ join_lines l'.
Proof. unfold join_lines. by rewrite fmap_app, concat_app. Qed.
Lemma encode_spec f : Forall section_ok f -> Encode g f = Some (join_lines (concat (section_lines <$> f))).
Proof.
  induction 1 as [|[sec fs] f (_ & H1 & _ & H2 & _) _ IH]; [done|]. cbn [Encode]. cbn in H1, H2. rewrite (write_escape _ H1), (encode_fields_spec _ H2), IH. cbn [mbind option_bind fmap list_fmap concat]. f_equal.
  rewrite join_lines_app. unfold section_lines. cbn [fst snd]. change (?x :: ?l ++ [[]]) with ([x] ++ l ++ [[]]). rewrite !join_lines_app. unfold section_line. rewrite !escape_app, !escape_other by apply Hspecial.
  change (join_lines [[]]) with [ch_newline]. unfold join_lines at 3. cbn [fmap list_fmap concat]. rewrite app_nil_r, <- !app_assoc. done.
Qed.

Lemma lines_of_line s rest cur : ch_newline ∉ s -> lines_of (s ++ ch_newline :: rest) cur = (reverse cur ++ s) :: lines_of rest [].
Proof.
  revert cur. induction s as [|c s IH]; intros cur Hs; cbn [app lines_of].
  - rewrite Z.eqb_refl. by rewrite app_nil_r.
  - apply not_elem_of_cons in Hs as [Hc Hs]. rewrite (proj2 (Z.eqb_neq _ _)) by congruence. rewrite IH by done. by rewrite reverse_cons, <- app_assoc.
Qed.
Lemma lines_of_join l : Forall (fun s => ch_newline ∉ s) l -> lines_of (join_lines l) [] = l ++ [[]].
Proof.
  induction 1 as [|s l Hs _ IH]; [done|]. unfold join_lines. cbn [fmap list_fmap concat]. rewrite <- app_assoc. cbn [app]. rewrite lines_of_line by done. cbn. by rewrite <- IH.
Qed.

(** ** Ordered maps *)

Lemma lt_irrefl a : lt a a = false.
Proof. destruct (lt a a) eqn:E; [|done]. by rewrite (Hasym _ _ E) in E. Qed.
Lemma map_end {V} (m : list (str * V)) k v : Forall (fun kv => lt kv.1 k = true) m -> map_set lt k v m = m ++ [(k, v)] /\ map_get lt k m = None.
Proof. induction 1 as [|[k' v'] m Hk _ [IH1 IH2] ]; [done|]. cbn in Hk |- *. rewrite (Hasym _ _ Hk), Hk, IH1. done. Qed.
Lemma map_last {V} (m : list (str * V)) k v v0 : Forall (fun kv => lt kv.1 k = true) m -> map_set lt k v (m ++ [(k, v0)]) = m ++ [(k, v)] /\ map_get lt k (m ++ [(k, v0)]) = Some v0.
Proof. induction 1 as [|[k' v'] m Hk _ [IH1 IH2] ]; [cbn; by rewrite lt_irrefl|]. cbn in Hk |- *. rewrite (Hasym _ _ Hk), Hk, IH1. done. Qed.

(** ** Reading the lines back *)

(** A character that is not in a list of constants. *)
Ltac not_listed := unfold Whitespaces, ch_open, ch_close, ch_newline; repeat (apply not_elem_of_cons; split; [lia|]); apply not_elem_of_nil.

Lemma erase_escaped s : EraseComments g (escape cs s) = s.
Proof. unfold EraseComments. rewrite Hprefixes. by apply erase_all. Qed.
Definition next_line (st : DecodeState) : DecodeState := mkDecode (file st) (current_section st) (multi_line_value_field_name st) (line_no st + 1).

Lemma decode_blank st : decode_line lt g [] st = inr (next_line st).
Proof. unfold decode_line. change (@nil Z) with (escape cs []) at 1. by rewrite erase_escaped. Qed.

Lemma find_char c s t : c ∉ s -> find [c] (s ++ c :: t) 0 = Some (length s).
Proof. intros Hc. unfold find. rewrite drop_0. by rewrite find_from_at. Qed.

Lemma decode_section_line sec st :
  sec <> [] -> ch_close ∉ sec -> decode_line lt g (escape cs (section_line sec)) st = inr (mkDecode (touch_section lt sec (file st)) (Some sec) [] (line_no st + 1)).
Proof.
  intros Hne Hc. unfold decode_line. rewrite erase_escaped. assert (Hclean : clean_edges (section_line sec)).
  { split; intros c Hx; [cbn in Hx; injection Hx as <-|unfold section_line in Hx; rewrite !last_app in Hx; cbn in Hx; injection Hx as <-]; not_listed. }
  rewrite (trim_id _ Hclean). unfold section_line at 1. cbn [app]. rewrite Z.eqb_refl. unfold decode_section, section_line.
  replace ([ch_open] ++ sec ++ [ch_close]) with ((ch_open :: sec) ++ ch_close :: []) by done. rewrite find_char by (apply not_elem_of_cons; split; [done|exact Hc]).
  cbn [length]. destruct sec as [|x sec]; [done|]. cbn [length Nat.eqb file line_no]. cbn [drop app]. replace (S (S (length sec)) - 1)%nat with (length (x :: sec)) by (cbn; lia).
  change (x :: sec ++ [ch_close]) with ((x :: sec) ++ [ch_close]). by rewrite (take_app_length (x :: sec)).
Qed.

Lemma decode_field_line kv st sec done_ fs :
  field_ok kv -> current_section st = Some sec -> file st = done_ ++ [(sec, fs)] -> Forall (fun s => lt s.1 sec = true) done_ -> Forall (fun f => lt f.1 kv.1 = true) fs ->
  decode_line lt g (escape cs (field_line kv)) st = inr (mkDecode (done_ ++ [(sec, fs ++ [kv])]) (Some sec) kv.1 (line_no st + 1)).
Proof.
  intros (H1 & H2 & H3 & H4 & H5 & H6) Hcur Hfile Hd Hf. destruct kv as [name value]. cbn [fst snd] in *. unfold decode_line. rewrite erase_escaped.
  assert (Hclean : clean_edges (field_line (name, value))) by (apply clean_join; [rewrite <- H3; apply trim_clean|rewrite <- H6; apply trim_clean|apply Hsep]).
  rewrite (trim_id _ Hclean). assert (Hhead : exists c rest, field_line (name, value) = c :: rest /\ c <> ch_open /\ c ∉ Whitespaces).
  { destruct Hclean as [Hh _]. unfold field_line in *. cbn [fst snd] in *. destruct name as [|c name]; cbn [app] in *; eexists _, _; split_and!; try reflexivity; [apply Hsep|by apply Hh|intros ->; by apply H4|by apply Hh]. }
  destruct Hhead as (c & rest & Hl & Hco & Hcw). rewrite Hl. rewrite (proj2 (Z.eqb_neq _ _)) by done. rewrite <- Hl.
  rewrite (bool_decide_eq_false_2 (c ∈ Indents)) by (intros Hx; apply Hcw; change Whitespaces with (Indents ++ [10; 13; 12; 11]); apply elem_of_app; by left).
  unfold decode_field. cbn [current_section file multi_line_value_field_name line_no]. rewrite Hcur, andb_false_r. cbn [andb].
  unfold field_line. cbn [fst snd app]. rewrite find_char by done. rewrite take_app_length, H3. replace (drop (S (length name)) (name ++ field_sep_ g :: value)) with value by (rewrite cons_middle, app_assoc; symmetry; apply drop_app_length'; rewrite length_app; cbn; lia). rewrite H6.
  destruct (map_end fs name value Hf) as [Hset Hget]. destruct (map_last done_ sec (fs ++ [(name, value)]) fs Hd) as [Hset' Hget']. unfold section_at. rewrite Hfile, Hget', Hget, andb_false_r.
  unfold set_field, section_at. rewrite Hget', Hset, Hset'. done.
Qed.

Lemma decode_lines_app l l' st : decode_lines lt g (l ++ l') st = match decode_lines lt g l st with inl e => inl e | inr st => decode_lines lt g l' st end.
Proof. revert st. induction l as [|x l IH]; intros st; [done|]. cbn. by destruct (decode_line lt g x st). Qed.

Lemma decode_field_lines l st sec done_ fs :
  Forall field_ok l -> sorted (fs ++ l) -> current_section st = Some sec -> file st = done_ ++ [(sec, fs)] -> Forall (fun s => lt s.1 sec = true) done_ ->
  exists st', decode_lines lt g ((fun kv => escape cs (field_line kv)) <$> l) st = inr st' /\ file st' = done_ ++ [(sec, fs ++ l)].
Proof.
  revert st fs. induction l as [|kv l IH]; intros st fs Hl Hs Hcur Hfile Hd; [exists st; by rewrite app_nil_r|]. apply Forall_cons_iff in Hl as [Hkv Hl]. cbn [fmap list_fmap decode_lines].
  assert (Hf : Forall (fun f => lt f.1 kv.1 = true) fs).
  { clear -Hs. induction fs as [|f fs IH]; [constructor|]. cbn in Hs. apply StronglySorted_inv in Hs as [Hs Hall]. apply Forall_app in Hall as [_ Hall]. apply Forall_cons_iff in Hall as [Hk _]. constructor; [done|by apply IH]. }
  rewrite (decode_field_line kv st sec done_ fs) by done. destruct (IH (mkDecode (done_ ++ [(sec, fs ++ [kv])]) (Some sec) kv.1 (line_no st + 1)) (fs ++ [kv])) as (st' & E & Hst); [done|by rewrite <- app_assoc|done..|].
  exists st'. split; [exact E|]. by rewrite Hst, <- app_assoc.
Qed.

Lemma decode_sections f st done_ :
  Forall section_ok f -> sorted (done_ ++ f) -> file st = done_ -> exists st', decode_lines lt g (concat (section_lines <$> f)) st = inr st' /\ file st' = done_ ++ f.
Proof.
  revert st done_. induction f as [|[sec fs] f IH]; intros st done_ Hf Hs Hfile; [exists st; by rewrite app_nil_r|]. apply Forall_cons_iff in Hf as [(H1 & H2 & H3 & H4 & H5) Hf]. cbn [fst snd] in *.
  assert (Hd : Forall (fun s => lt s.1 sec = true) done_).
  { clear -Hs. induction done_ as [|x l IH]; [constructor|]. cbn in Hs. apply StronglySorted_inv in Hs as [Hs Hall]. apply Forall_app in Hall as [_ Hall]. apply Forall_cons_iff in Hall as [Hk _]. constructor; [done|by apply IH]. }
  cbn [fmap list_fmap concat]. rewrite decode_lines_app. unfold section_lines at 1. cbn [fst snd app decode_lines]. rewrite decode_section_line by done. rewrite decode_lines_app.
  unfold touch_section, section_at. rewrite Hfile. destruct (map_end done_ sec (@nil (str * str)) Hd) as [Hset Hget]. rewrite Hget, Hset.
  destruct (decode_field_lines fs (mkDecode (done_ ++ [(sec, [])]) (Some sec) [] (line_no st + 1)) sec done_ []) as (st' & E & Hst); [done..|]. rewrite E. cbn [decode_lines]. rewrite decode_blank.
  destruct (IH (next_line st') (done_ ++ [(sec, fs)])) as (st'' & E2 & Hst2); [done|by rewrite <- app_assoc|done|]. exists st''. split; [exact E2|]. by rewrite Hst2, <- app_assoc.
Qed.

Lemma section_lines_newline ss : section_ok ss -> Forall (fun s => ch_newline ∉ s) (section_lines ss).
Proof.
  intros (_ & H1 & _ & H2 & _). unfold section_lines. constructor.
  - apply escape_newline. unfold section_line. rewrite !not_elem_of_app. split_and!; [not_listed|done|not_listed].
  - apply Forall_app. split; [|repeat constructor; apply not_elem_of_nil]. apply Forall_fmap. eapply Forall_impl; [|exact H2]. intros kv (Hn & _ & _ & _ & Hv & _). cbn. apply escape_newline. unfold field_line. rewrite !not_elem_of_app.
    split_and!; [done| |done]. intros Hx%list_elem_of_singleton. apply (proj1 Hsep). rewrite <- Hx. change Whitespaces with ([32; 9] ++ [ch_newline] ++ [13; 12; 11]). rewrite !elem_of_app. right; left. by left.
Qed.

(** C30. Files that a text can hold survive being written and read: encoding ends, and
    decoding the text yields the file again, without an error, whatever comment characters
    occur in names and values; for every order of the maps, and whether or not multi-line
    values and duplicate fields are allowed.  The files ([file_ok]): section names are not
    empty and hold no newline and no closing bracket; field names hold no newline and no
    separator, do not begin with an opening bracket, and have no blanks at their ends, and
    nor do values, which hold no newline.  The comment prefixes are distinct single
    characters other than the escape, the newline, the brackets and the separator; an empty
    prefix makes encoding run for ever ([empty_prefix_diverges]). *)
Theorem ini_roundtrip f : file_ok f -> exists text, Encode g f = Some text /\ Decode lt g text = (None, f).
Proof.
  intros [Hf Hs]. exists (join_lines (concat (section_lines <$> f))). split; [by apply encode_spec|]. unfold Decode.
  assert (Hlines : Forall (fun s => ch_newline ∉ s) (concat (section_lines <$> f))).
  { clear Hs. induction Hf as [|ss f Hss _ IH]; [constructor|]. cbn [fmap list_fmap concat]. apply Forall_app. split; [by apply section_lines_newline|done]. }
  rewrite lines_of_join by done. rewrite decode_lines_app. destruct (decode_sections f (mkDecode [] None [] 0) [] Hf Hs eq_refl) as (st & -> & Hst). cbn [decode_lines]. rewrite decode_blank. cbn. by rewrite Hst.
Qed.

End RoundTrip.

(** The orders of the source satisfy what the maps need. *)
Lemma str_less_asym a b : str_less a b = true -> str_less b a = false.
Proof.
  revert b. induction a as [|x a IH]; intros [|y b]; cbn; try done. destruct (Z.ltb_spec x y), (Z.ltb_spec y x); try done; try lia. apply IH.
Qed.
Lemma insensitive_asym a b : StringInsensitiveLess a b = true -> StringInsensitiveLess b a = false.
Proof. apply str_less_asym. Qed.

(** [net] with  host=a#b;c  and  key \=  the value \#, then a second section. *)
Definition demo_file : list (str * list (str * str)) :=
  [([110; 59], [([104; 111], [97; 35; 98; 59; 99]); ([107; 92], [92; 35])]); ([112], [([], [])])].
Lemma demo_file_ok : file_ok str_less default_config demo_file.
Proof.
  split; [|repeat constructor; reflexivity].
  repeat constructor; cbn; try done; try (intros Hx; repeat (apply elem_of_cons in Hx as [Hx|Hx]; [discriminate Hx|]); by apply not_elem_of_nil in Hx).
Qed.
Lemma ini_roundtrip_witness :
  Encode default_config demo_file =
    Some [91; 110; 92; 59; 93; 10; 104; 111; 61; 97; 92; 35; 98; 92; 59; 99; 10; 107; 92; 61; 92; 92; 35; 10; 10; 91; 112; 93; 10; 61; 10; 10] /\
  exists text, Encode default_config demo_file = Some text /\ Decode str_less default_config text = (None, demo_file).
Proof.
  split; [vm_compute; reflexivity|]. apply (ini_roundtrip str_less default_config [35; 59]); [exact str_less_asym|reflexivity| | | |discriminate| |exact demo_file_ok].
  - apply (bool_decide_unpack (NoDup [35; 59])). vm_compute. done.
  - apply (bool_decide_unpack (~ esc_ default_config ∈ [35; 59])). vm_compute. done.
  - split_and!; (apply (bool_decide_unpack (~ _ ∈ [35; 59])); vm_compute; done).
  - split; [|discriminate]. apply (bool_decide_unpack (~ field_sep_ default_config ∈ Whitespaces)). vm_compute. done.
Defined.

(** An empty comment prefix makes the encoder loop for ever on any text. *)
Lemma empty_prefix_diverges g fuel x s : comment_prefixes_ g = [[]] -> write_escaped g fuel (x :: s) 0 = None.
Proof.
  intros Hp. induction fuel as [|fuel IH]; [done|]. cbn [write_escaped]. unfold FindCommentPrefix. rewrite Hp. cbn [length Nat.leb list_find]. rewrite decide_True by (split; [cbn; lia|reflexivity]). cbn. cbn in IH. by rewrite IH.
Qed.

(** ** Numbers *)

Lemma digit_of_char d : 0 <= d < 10 -> digit_of 10 (48 + d) = Some d.
Proof. intros Hd. unfold digit_of. rewrite (proj2 (Z.leb_le _ _)), (proj2 (Z.leb_le _ _)) by lia. cbn [andb]. replace (48 + d - 48) with d by lia. by rewrite (proj2 (Z.ltb_lt _ _)) by lia. Qed.

Lemma print_parse fuel n rest acc : 0 <= n < 10 ^ Z.of_nat fuel ->
  digits 10 (print_digits fuel n ++ rest) acc = digits 10 rest (acc * 10 ^ Z.of_nat (length (print_digits fuel n)) + n).
Proof.
  revert n rest acc. induction fuel as [|fuel IH]; intros n rest acc Hn; cbn [print_digits].
  - cbn [length app Z.of_nat]. f_equal. change (10 ^ Z.of_nat 0) with 1 in *. lia.
  - destruct (Z.ltb_spec n 10).
    + cbn [app digits length]. rewrite digit_of_char by lia. f_equal; lia.
    + rewrite <- app_assoc. rewrite Nat2Z.inj_succ, Z.pow_succ_r in Hn by lia. rewrite IH by (split; [apply Z.div_pos; lia|apply Z.div_lt_upper_bound; lia]).
      cbn [app digits]. pose proof (Z.mod_pos_bound n 10 ltac:(lia)). rewrite digit_of_char by lia. f_equal. rewrite length_app. cbn [length]. rewrite Nat2Z.inj_add, Z.pow_add_r by lia.
      pose proof (Z.div_mod n 10 ltac:(lia)). change (10 ^ Z.of_nat 1) with 10. lia.
Qed.

Lemma print_digits_head fuel n : 0 <= n < 10 ^ Z.of_nat fuel -> (0 < fuel)%nat -> exists d rest, print_digits fuel n = (48 + d) :: rest /\ 0 <= d < 10.
Proof.
  revert n. induction fuel as [|fuel IH]; intros n Hn Hf; [lia|]. cbn [print_digits]. destruct (Z.ltb_spec n 10); [by eexists _, []; split; [reflexivity|lia]|].
  rewrite Nat2Z.inj_succ, Z.pow_succ_r in Hn by lia. destruct fuel as [|fuel]; [change (10 ^ Z.of_nat 0) with 1 in Hn; lia|].
  destruct (IH (n / 10)) as (d & rest & -> & Hd); [split; [apply Z.div_pos; lia|apply Z.div_lt_upper_bound; lia]|lia|]. by eexists d, _.
Qed.
Lemma print_digits_nonzero fuel n : 0 <= n -> Forall (fun c => c <> 0) (print_digits fuel n).
Proof.
  revert n. induction fuel as [|fuel IH]; intros n Hn; cbn [print_digits]; [constructor|]. destruct (n <? 10); [constructor; [lia|constructor]|]. apply Forall_app. split; [apply IH, Z.div_pos; lia|].
  pose proof (Z.mod_pos_bound n 10 ltac:(lia)). constructor; [lia|constructor].
Qed.
Lemma c_str_id s : Forall (fun c => c <> 0) s -> c_str s = s.
Proof. induction 1 as [|c s Hc _ IH]; [done|]. cbn. rewrite (proj2 (Z.eqb_neq _ _)) by done. by rewrite IH. Qed.

Lemma parse_printed n : 0 <= n < 10 ^ 20 -> parse_number 10 (print_digits 20 n) = (n, false, []) /\ parse_number 10 (45 :: print_digits 20 n) = (n, true, []).
Proof.
  intros Hn. destruct (print_digits_head 20 n) as (d & rest & E & Hd); [exact Hn|lia|]. pose proof (print_parse 20 n [] 0 Hn) as Hp. rewrite app_nil_r, Z.mul_0_l, Z.add_0_l in Hp. cbn [digits] in Hp.
  assert (Hsp : forall c, c = 45 \/ 48 <= c < 58 -> is_white c = false).
  { intros c Hc. unfold is_white. apply bool_decide_eq_false_2. unfold Whitespaces. rewrite !elem_of_cons. intros Hx. destruct Hx as [|[|[|[|[|[|Hx] ] ] ] ] ]; [lia..|by apply not_elem_of_nil in Hx]. }
  assert (H0x : forall s, strip_0x 10 s = s) by (by intros [|z [|x [|c s] ] ]).
  split; unfold parse_number; rewrite ?E; cbn [skip_space]; rewrite Hsp by lia.
  - rewrite (proj2 (Z.eqb_neq (48 + d) 45)), (proj2 (Z.eqb_neq (48 + d) 43)) by lia. rewrite H0x. rewrite digit_of_char by done. rewrite <- E, Hp. done.
  - rewrite Z.eqb_refl, H0x. rewrite digit_of_char by done. rewrite <- E, Hp. done.
Qed.

(** Every integer that a field holds is read back from what was written. *)
Lemma integer_roundtrip v : - 2 ^ 63 <= v < 2 ^ 63 -> Decode_long (Encode_integer v) = Some v.
Proof.
  intros Hv. unfold Decode_long, StrToLong, Encode_integer. rewrite c_str_id by (destruct (Z.ltb_spec v 0); [constructor; [lia|]|]; apply print_digits_nonzero; lia).
  unfold first_base, strtol_base, LONG_MAX. destruct (Z.ltb_spec v 0).
  - rewrite (proj2 (parse_printed (- v) ltac:(lia))). replace (- - v) with v by lia. rewrite (proj2 (Z.ltb_ge _ _)) by lia. by rewrite (proj2 (Z.ltb_ge _ _)) by lia.
  - rewrite (proj1 (parse_printed v ltac:(lia))). rewrite (proj2 (Z.ltb_ge _ _)) by lia. by rewrite (proj2 (Z.ltb_ge _ _)) by lia.
Qed.
Lemma unsigned_roundtrip v : 0 <= v < 2 ^ 64 -> Decode_ulong (Encode_integer v) = Some v.
Proof.
  intros Hv. unfold Decode_ulong, StrToULong, Encode_integer. rewrite (proj2 (Z.ltb_ge _ _)) by lia. rewrite c_str_id by (apply print_digits_nonzero; lia).
  unfold first_base, strtoul_base. rewrite (proj1 (parse_printed v ltac:(lia))). rewrite (proj2 (Z.ltb_ge _ _)) by lia. by rewrite wrap_small by (unfold in_range; lia).
Qed.
Lemma int_roundtrip v : - 2 ^ 31 <= v < 2 ^ 31 -> Decode_int (Encode_integer v) = Some v.
Proof.
  intros Hv. unfold Decode_int. pose proof (integer_roundtrip v ltac:(lia)) as H. unfold Decode_long in H. rewrite H. cbn. f_equal. unfold signed. destruct (Z.ltb_spec v 0).
  - assert (Hw : wrap 32 v = v + 2 ^ 32) by (unfold wrap; symmetry; apply (Z.mod_unique_pos _ _ (-1)); lia). rewrite Hw. rewrite (proj2 (Z.ltb_ge _ _)) by lia. lia.
  - rewrite wrap_small by (unfold in_range; lia). by rewrite (proj2 (Z.ltb_lt _ _)) by lia.
Qed.
Lemma bool_roundtrip b : Decode_bool (Encode_bool b) = Some b.
Proof. by destruct b. Qed.

(** Values that do not fit are cut, the empty string is zero, and a leading zero does not
    make a number octal. *)
Lemma short_overflow_cut : Decode_short [55; 48; 48; 48; 48] = Some 4464 /\ Decode_int [] = Some 0 /\ Decode_int [48; 49; 48] = Some 10.
Proof. vm_compute. done. Qed.
