(* ===== verification/Containers.v ===== *)
(** * Containers of the vocabulary (include/osp/vocabulary.hpp)

    FixedVector, optional, expected, FixedFunction and ScopeGuard keep objects in raw
    storage, which they construct and destroy by hand; FixedString keeps characters.  A
    cell of storage is raw or holds a live object.  Constructing over a live object,
    and reading, assigning or destroying a raw cell, are errors: [None]. *)

From Stdlib Require Import ZArith Lia Bool ssreflect.
From stdpp Require Import base numbers list option.
From S2P Require Import Prelude CBuffer.
Local Open Scope general_if_scope.
Local Set SsrOldRewriteGoalsOrder.

(** ** Storage *)

Section Storage.
Context {T : Type}.
Definition construct (i : nat) (x : T) (c : list (option T)) : option (list (option T)) := match c !! i with Some None => Some (<[i := Some x]> c) | _ => None end.
Definition destroy (i : nat) (c : list (option T)) : option (list (option T)) := match c !! i with Some (Some _) => Some (<[i := None]> c) | _ => None end.
Definition read (i : nat) (c : list (option T)) : option T := match c !! i with Some o => o | None => None end.
Definition assign_at (i : nat) (x : T) (c : list (option T)) : option (list (option T)) := match c !! i with Some (Some _) => Some (<[i := Some x]> c) | _ => None end.
End Storage.

(** ** FixedVector *)

Section Vector.
(** [moved x]: what moving from [x] leaves behind.  [trivial]: T is trivially copyable. *)
Context {T : Type} (moved : T -> T) (trivial : bool) (Capacity : nat).

(** The size stays at most Capacity, a uint32_t. *)
Record FixedVector := mkVector { storage_ : list (option T); size_ : nat }.
Definition FixedVector_ctor : FixedVector := mkVector (replicate Capacity None) 0.

Definition emplace_back (x : T) (v : FixedVector) : option (bool * FixedVector) :=
  if (Capacity <=? size_ v)%nat then Some (false, v)
  else c ← construct (size_ v) x (storage_ v); Some (true, mkVector c (S (size_ v))).
Definition push_back := emplace_back.
Definition pop_back (v : FixedVector) : option (bool * FixedVector) :=
  if (size_ v =? 0)%nat then Some (false, v)
  else c ← destroy (size_ v - 1) (storage_ v); Some (true, mkVector c (size_ v - 1)).
Definition erase_unordered (index : nat) (v : FixedVector) : option (bool * FixedVector) :=
  if (size_ v <=? index)%nat then Some (false, v)
  else
    let n := (size_ v - 1)%nat in
    c ← (if (index =? n)%nat then Some (storage_ v)
         else x ← read n (storage_ v); c ← assign_at index x (storage_ v); assign_at n (moved x) c);
    c ← destroy n c; Some (true, mkVector c n).
Fixpoint clear_loop (n : nat) (c : list (option T)) : option (list (option T)) := match n with O => Some c | S n => c ← destroy n c; clear_loop n c end.
Definition clear (v : FixedVector) : option FixedVector := c ← clear_loop (size_ v) (storage_ v); Some (mkVector c 0).

(** push_back of every element of [other], from the [i]-th on. *)
Fixpoint copy_loop (n i : nat) (other v : FixedVector) : option FixedVector :=
  match n with O => Some v | S n => x ← read i (storage_ other); '(_, v) ← push_back x v; copy_loop n (S i) other v end.
(** Into an empty vector: memcpy, or the loop. *)
Definition copy_from (other v : FixedVector) : option FixedVector :=
  if trivial then Some (mkVector (take (size_ other) (storage_ other) ++ drop (size_ other) (storage_ v)) (size_ other))
  else copy_loop (size_ other) 0 other v.
Fixpoint move_loop (n i : nat) (other v : FixedVector) : option (FixedVector * FixedVector) :=
  match n with
  | O => Some (other, v)
  | S n =>
    x ← read i (storage_ other); '(_, v) ← emplace_back x v; c ← assign_at i (moved x) (storage_ other);
    move_loop n (S i) (mkVector c (size_ other)) v
  end.
(** The other vector, cleared, and this one. *)
Definition move_from (other v : FixedVector) : option (FixedVector * FixedVector) := '(other, v) ← move_loop (size_ other) 0 other v; other ← clear other; Some (other, v).
Definition copy_assign (other v : FixedVector) : option FixedVector := v ← clear v; copy_from other v.
Definition move_assign (other v : FixedVector) : option (FixedVector * FixedVector) := v ← clear v; move_from other v.

Definition at_unchecked (index : nat) (v : FixedVector) : option T := read index (storage_ v).
(** [size_ - 1U] wraps for an empty vector, which is no index. *)
Definition back (v : FixedVector) : option T := if (size_ v =? 0)%nat then None else at_unchecked (size_ v - 1) v.
Definition full (v : FixedVector) : bool := (Capacity <=? size_ v)%nat.

(** Programs over several vectors; VInit: copy- or move-constructed from another. *)
Inductive VecOp :=
| VPush (i : nat) (x : T) | VPop (i : nat) | VErase (i k : nat) | VClear (i : nat) | VCopy (i j : nat) | VMove (i j : nat) | VAt (i k : nat) | VBack (i : nat) | VSize (i : nat) | VFull (i : nat).
Inductive VecRes := VBool (b : bool) | VVal (x : T) | VNum (n : nat) | VUnit.

Definition op_vars (o : VecOp) : nat * nat := match o with VCopy i j | VMove i j => (i, j) | VPush i _ | VPop i | VErase i _ | VClear i | VAt i _ | VBack i | VSize i | VFull i => (i, i) end.
Definition vec_step (o : VecOp) (vs : list FixedVector) : option (VecRes * list FixedVector) :=
  let '(i, j) := op_vars o in
  v ← vs !! i; other ← vs !! j;
  match o with
  | VPush _ x => '(b, v) ← push_back x v; Some (VBool b, <[i := v]> vs)
  | VPop _ => '(b, v) ← pop_back v; Some (VBool b, <[i := v]> vs)
  | VErase _ k => '(b, v) ← erase_unordered k v; Some (VBool b, <[i := v]> vs)
  | VClear _ => v ← clear v; Some (VUnit, <[i := v]> vs)
  | VCopy _ _ => if decide (i = j) then Some (VUnit, vs) else v ← copy_assign other v; Some (VUnit, <[i := v]> vs)
  | VMove _ _ => if decide (i = j) then Some (VUnit, vs) else '(other, v) ← move_assign other v; Some (VUnit, <[j := other]> (<[i := v]> vs))
  | VAt _ k => x ← at_unchecked k v; Some (VVal x, vs)
  | VBack _ => x ← back v; Some (VVal x, vs)
  | VSize _ => Some (VNum (size_ v), vs)
  | VFull _ => Some (VBool (full v), vs)
  end.
Fixpoint vec_run (ops : list VecOp) (vs : list FixedVector) : option (list VecRes * list FixedVector) :=
  match ops with [] => Some ([], vs) | o :: ops => '(r, vs) ← vec_step o vs; '(rs, vs) ← vec_run ops vs; Some (r :: rs, vs) end.

(** ** The specification: bounded lists *)

Definition list_erase (k : nat) (l : list T) : list T := match list.last l with Some x => take (length l - 1) (<[k := x]> l) | None => l end.
Definition spec_step (o : VecOp) (ls : list (list T)) : option (VecRes * list (list T)) :=
  let '(i, j) := op_vars o in
  l ← ls !! i; other ← ls !! j;
  match o with
  | VPush _ x => if (Capacity <=? length l)%nat then Some (VBool false, ls) else Some (VBool true, <[i := l ++ [x]]> ls)
  | VPop _ => match l with [] => Some (VBool false, ls) | _ => Some (VBool true, <[i := take (length l - 1) l]> ls) end
  | VErase _ k => if (length l <=? k)%nat then Some (VBool false, ls) else Some (VBool true, <[i := list_erase k l]> ls)
  | VClear _ => Some (VUnit, <[i := []]> ls)
  | VCopy _ _ => Some (VUnit, <[i := other]> ls)
  | VMove _ _ => if decide (i = j) then Some (VUnit, ls) else Some (VUnit, <[j := []]> (<[i := other]> ls))
  | VAt _ k => x ← l !! k; Some (VVal x, ls)
  | VBack _ => x ← list.last l; Some (VVal x, ls)
  | VSize _ => Some (VNum (length l), ls)
  | VFull _ => Some (VBool (Capacity <=? length l)%nat, ls)
  end.
(** The program is only undefined where an element is asked for that does not exist. *)
Fixpoint spec_run (ops : list VecOp) (ls : list (list T)) : option (list VecRes * list (list T)) :=
  match ops with [] => Some ([], ls) | o :: ops => '(r, ls) ← spec_step o ls; '(rs, ls) ← spec_run ops ls; Some (r :: rs, ls) end.

(** ** Refinement *)

Definition layout (l : list T) : list (option T) := (Some <$> l) ++ replicate (Capacity - length l) None.
Definition vec_of (l : list T) : FixedVector := mkVector (layout l) (length l).
Definition fits (l : list T) : Prop := (length l ≤ Capacity)%nat.

Lemma layout_lookup l i : fits l -> layout l !! i = (if (i <? length l)%nat then Some (l !! i) else if (i <? Capacity)%nat then Some None else None).
Proof.
  rewrite /layout /fits => Hf. destruct (Nat.ltb_spec i (length l)).
  - rewrite lookup_app_l ?length_fmap // list_lookup_fmap. destruct (lookup_lt_is_Some_2 l i) as [x Hx]; [lia|]. by rewrite Hx.
  - rewrite lookup_app_r ?length_fmap; [|lia]. destruct (Nat.ltb_spec i Capacity).
    + rewrite lookup_replicate_2 //. lia.
    + apply lookup_replicate_None. lia.
Qed.
Lemma layout_length l : fits l -> length (layout l) = Capacity.
Proof. rewrite /fits /layout length_app length_fmap length_replicate. lia. Qed.
Lemma layout_ext l c : fits l -> length c = Capacity -> (forall i, (i < Capacity)%nat -> c !! i = Some (l !! i)) -> c = layout l.
Proof.
  intros Hf Hl Hc. apply list_eq => i. rewrite layout_lookup //. destruct (decide (i < Capacity)%nat) as [Hi|Hi].
  - rewrite Hc //. destruct (Nat.ltb_spec i (length l)); [done|]. rewrite lookup_ge_None_2; [|lia]. by destruct (Nat.ltb_spec i Capacity); [|lia].
  - rewrite lookup_ge_None_2; [|lia]. rewrite /fits in Hf. destruct (Nat.ltb_spec i (length l)), (Nat.ltb_spec i Capacity); lia || done.
Qed.
Lemma layout_at l i : fits l -> (i < Capacity)%nat -> layout l !! i = Some (l !! i).
Proof.
  intros Hf Hi. rewrite layout_lookup //. destruct (Nat.ltb_spec i (length l)); [done|]. destruct (Nat.ltb_spec i Capacity); [|lia]. by rewrite lookup_ge_None_2.
Qed.
(** Writing cell [i]: the list that agrees with [l] elsewhere. *)
Lemma layout_insert l l' i : fits l -> fits l' -> (i < Capacity)%nat -> (forall j, j <> i -> l' !! j = l !! j) -> <[i := l' !! i]> (layout l) = layout l'.
Proof.
  intros Hf Hf' Hi Hj. apply layout_ext; [done|by rewrite length_insert layout_length|]. intros j Hj'. destruct (decide (j = i)) as [->|].
  - apply list_lookup_insert_eq. by rewrite layout_length.
  - rewrite list_lookup_insert_ne // layout_at // Hj //.
Qed.

Lemma read_layout l i : fits l -> read i (layout l) = l !! i.
Proof.
  intros Hf. rewrite /read layout_lookup //. destruct (Nat.ltb_spec i (length l)); [done|]. rewrite (lookup_ge_None_2 l); [|lia]. by destruct (i <? Capacity)%nat.
Qed.
Lemma construct_layout l x : (length l < Capacity)%nat -> construct (length l) x (layout l) = Some (layout (l ++ [x])).
Proof.
  intros Hf. rewrite /construct layout_at /fits; [|lia..]. rewrite lookup_ge_None_2 //. f_equal.
  rewrite -(layout_insert l (l ++ [x]) (length l)) /fits ?length_app /=; [|lia..|].
  - by rewrite list_lookup_middle.
  - intros j Hj. rewrite lookup_app. destruct (l !! j) eqn:E; [done|]. apply lookup_ge_None in E. apply lookup_ge_None_2 => /=. lia.
Qed.
Lemma destroy_layout l x : (length l < Capacity)%nat -> destroy (length l) (layout (l ++ [x])) = Some (layout l).
Proof.
  intros Hf. rewrite /destroy layout_at /fits ?length_app /=; [|lia..]. rewrite list_lookup_middle //. f_equal.
  rewrite -(layout_insert (l ++ [x]) l (length l)) /fits ?length_app /=; [|lia..|].
  - by rewrite (lookup_ge_None_2 l).
  - intros j Hj. rewrite lookup_app. destruct (l !! j) eqn:E; [done|]. apply lookup_ge_None in E. symmetry. apply lookup_ge_None_2 => /=. lia.
Qed.
Lemma assign_layout l i x : fits l -> (i < length l)%nat -> assign_at i x (layout l) = Some (layout (<[i := x]> l)).
Proof.
  intros Hf Hi. have Hc : (i < Capacity)%nat by rewrite /fits in Hf; lia.
  rewrite /assign_at layout_at //. destruct (lookup_lt_is_Some_2 l i Hi) as [y ->]. f_equal.
  rewrite -(layout_insert l (<[i := x]> l) i) /fits ?length_insert //.
  - by rewrite list_lookup_insert_eq.
  - intros j Hj. by rewrite list_lookup_insert_ne.
Qed.

Lemma ctor_vec_of : FixedVector_ctor = vec_of [].
Proof. rewrite /FixedVector_ctor /vec_of /layout /=. by rewrite Nat.sub_0_r. Qed.
Lemma emplace_vec_of l x : fits l -> emplace_back x (vec_of l) = Some (if (Capacity <=? length l)%nat then (false, vec_of l) else (true, vec_of (l ++ [x]))).
Proof.
  intros Hf. rewrite /emplace_back /=. destruct (Nat.leb_spec Capacity (length l)); [done|]. rewrite construct_layout //= /vec_of length_app /=. do 3 f_equal. lia.
Qed.
Lemma pop_vec_of l : fits l -> pop_back (vec_of l) = Some (match l with [] => (false, vec_of l) | _ => (true, vec_of (take (length l - 1) l)) end).
Proof.
  induction l as [|x l _] using rev_ind; [done|]. rewrite /fits length_app /= => Hf. rewrite /pop_back /= length_app /=.
  destruct (Nat.eqb_spec (length l + 1) 0); [lia|]. replace (length l + 1 - 1)%nat with (length l) by lia. rewrite destroy_layout /=; [|lia].
  rewrite take_app_length. by destruct l.
Qed.
Lemma take_pred_snoc (l : list T) x : take (length (l ++ [x]) - 1) (l ++ [x]) = l.
Proof. rewrite length_app /= Nat.add_sub take_app_length //. Qed.
Lemma erase_vec_of l k : fits l -> erase_unordered k (vec_of l) = Some (if (length l <=? k)%nat then (false, vec_of l) else (true, vec_of (list_erase k l))).
Proof.
  intros Hf. rewrite /erase_unordered /=. destruct (Nat.leb_spec (length l) k) as [|Hk]; [done|].
  destruct l as [|x l _] using rev_ind; [simpl in Hk; lia|]. rewrite /list_erase last_snoc.
  move: Hf Hk. rewrite /fits length_app /= => Hf Hk. rewrite Nat.add_sub. destruct (Nat.eqb_spec k (length l)) as [->|Hne] => /=.
  - rewrite destroy_layout; [|lia]. rewrite /= list_insert_id ?list_lookup_middle // take_app_length //.
  - rewrite read_layout /fits ?length_app /=; [|lia]. rewrite list_lookup_middle //=.
    rewrite assign_layout /fits ?length_app /=; [|lia..]. rewrite insert_app_l; [|lia]. rewrite assign_layout /fits ?length_app ?length_insert /=; [|lia..].
    rewrite insert_app_r_alt ?length_insert // Nat.sub_diag /=. pose proof (destroy_layout (<[k := x]> l) (moved x)) as E. rewrite length_insert in E. rewrite E /=; [|lia].
    rewrite take_app_le ?length_insert // take_ge ?length_insert // /vec_of length_insert //.
Qed.
Lemma clear_loop_layout l : fits l -> clear_loop (length l) (layout l) = Some (layout []).
Proof.
  induction l as [|x l IH] using rev_ind; [done|]. rewrite /fits length_app /= => Hf. rewrite Nat.add_1_r /= destroy_layout /=; [|lia]. apply IH. rewrite /fits. lia.
Qed.
Lemma clear_vec_of l : fits l -> clear (vec_of l) = Some (vec_of []).
Proof. intros Hf. by rewrite /clear clear_loop_layout. Qed.

Lemma copy_loop_vec_of l1 l2 : fits (l1 ++ l2) -> copy_loop (length l2) (length l1) (vec_of (l1 ++ l2)) (vec_of l1) = Some (vec_of (l1 ++ l2)).
Proof.
  revert l1. induction l2 as [|x l2 IH] => l1 Hf /=; [by rewrite app_nil_r|]. rewrite read_layout // list_lookup_middle //= /push_back emplace_vec_of.
  2: { move: Hf. rewrite /fits length_app. lia. }
  move: (Hf). rewrite {1}/fits length_app /=. destruct (Nat.leb_spec Capacity (length l1)) as [|Hlt]; [lia|]. move=> _ /=.
  replace (S (length l1)) with (length (l1 ++ [x])) by (rewrite length_app /=; lia). rewrite (cons_middle x l1 l2) app_assoc. apply IH. by rewrite -app_assoc.
Qed.
Lemma copy_vec_of l : fits l -> copy_from (vec_of l) (vec_of []) = Some (vec_of l).
Proof.
  intros Hf. rewrite /copy_from. destruct trivial; [|exact (copy_loop_vec_of [] l Hf)].
  rewrite /vec_of /layout /= Nat.sub_0_r drop_replicate take_app_le ?length_fmap // take_ge ?length_fmap //.
Qed.
(** While moving, the source holds what is left of the elements already moved. *)
Lemma move_loop_vec_of l1 l2 : fits (l1 ++ l2) ->
  move_loop (length l2) (length l1) (vec_of ((moved <$> l1) ++ l2)) (vec_of l1) = Some (vec_of (moved <$> (l1 ++ l2)), vec_of (l1 ++ l2)).
Proof.
  revert l1. induction l2 as [|x l2 IH] => l1 Hf /=; [by rewrite !app_nil_r|].
  have Hf' : fits ((moved <$> l1) ++ x :: l2) by move: Hf; rewrite /fits !length_app length_fmap.
  rewrite read_layout // list_lookup_middle ?length_fmap //= emplace_vec_of; [|move: Hf; rewrite /fits length_app; lia].
  move: (Hf). rewrite {1}/fits length_app /=. destruct (Nat.leb_spec Capacity (length l1)) as [|Hlt]; [lia|]. move=> _ /=.
  rewrite assign_layout //; [|rewrite length_app length_fmap /=; lia]. rewrite /= insert_app_r_alt ?length_fmap // Nat.sub_diag /=.
  replace (S (length l1)) with (length (l1 ++ [x])) by (rewrite length_app /=; lia). specialize (IH (l1 ++ [x])).
  rewrite fmap_app -!app_assoc /= in IH. rewrite -IH // /vec_of !length_app /=. done.
Qed.
Lemma move_vec_of l : fits l -> move_from (vec_of l) (vec_of []) = Some (vec_of [], vec_of l).
Proof.
  intros Hf. rewrite /move_from. rewrite (move_loop_vec_of [] l Hf) /= clear_vec_of // /fits length_fmap //.
Qed.

Lemma list_erase_fits l k : fits l -> fits (list_erase k l).
Proof. rewrite /fits /list_erase. destruct (list.last l); [|done]. rewrite length_take length_insert. lia. Qed.
Lemma Forall_insert_fits i l ls : Forall fits ls -> fits l -> Forall fits (<[i := l]> ls).
Proof. intros H Hl. by apply Forall_insert. Qed.
Lemma back_vec_of l : fits l -> back (vec_of l) = list.last l.
Proof.
  intros Hf. rewrite /back /at_unchecked /= read_layout // last_lookup. destruct l; [done|]. by rewrite Nat.sub_1_r.
Qed.

Definition vec_result (r : option (VecRes * list (list T))) : option (VecRes * list FixedVector) := match r with Some (x, ls) => Some (x, (fun l : list T => vec_of l) <$> ls) | None => None end.
Lemma take_fits n l : fits l -> fits (take n l).
Proof. rewrite /fits length_take. lia. Qed.
Lemma nil_fits : fits [].
Proof. rewrite /fits /=. lia. Qed.
Hint Resolve take_fits nil_fits list_erase_fits Forall_insert_fits : containers.

Lemma vec_step_refines o ls : Forall fits ls -> vec_step o (vec_of <$> ls) = vec_result (spec_step o ls).
Proof.
  intros Hfs. rewrite /vec_step /spec_step. destruct (op_vars o) as [i j]. rewrite !list_lookup_fmap.
  destruct (ls !! i) as [l|] eqn:Hi, (ls !! j) as [other|] eqn:Hj; [|done..]. simpl.
  have Hl : fits l by eapply (Forall_lookup_1 fits); eauto. have Ho : fits other by eapply (Forall_lookup_1 fits); eauto.
  destruct o; rewrite ?/push_back ?emplace_vec_of ?pop_vec_of ?erase_vec_of ?clear_vec_of ?back_vec_of //=.
  - destruct (Nat.leb_spec Capacity (length l)); rewrite /= ?list_fmap_insert // list_insert_id // list_lookup_fmap Hi //.
  - destruct l; rewrite /= ?list_fmap_insert // list_insert_id // list_lookup_fmap Hi //.
  - destruct (Nat.leb_spec (length l) k); rewrite /= ?list_fmap_insert // list_insert_id // list_lookup_fmap Hi //.
  - by rewrite list_fmap_insert.
  - destruct (decide (i = j)) as [->|]; simpl.
    + rewrite Hi in Hj. simplify_eq. by rewrite list_insert_id.
    + by rewrite /copy_assign clear_vec_of //= copy_vec_of //= list_fmap_insert.
  - destruct (decide (i = j)) as [->|]; [done|]. by rewrite /move_assign clear_vec_of //= move_vec_of //= !list_fmap_insert.
  - rewrite /at_unchecked read_layout //. by destruct (l !! k).
  - by destruct (list.last l).
Qed.
Lemma spec_step_fits o ls r ls' : Forall fits ls -> spec_step o ls = Some (r, ls') -> Forall fits ls'.
Proof.
  intros Hfs. rewrite /spec_step. destruct (op_vars o) as [i j].
  destruct (ls !! i) as [l|] eqn:Hi, (ls !! j) as [other|] eqn:Hj; [|done..]. simpl.
  have Hl : fits l by eapply (Forall_lookup_1 fits); eauto. have Ho : fits other by eapply (Forall_lookup_1 fits); eauto.
  destruct o; simpl; repeat case_match; intros ?; simplify_option_eq; auto 6 with containers.
  apply Forall_insert_fits; [done|]. move: (H : (Capacity <=? length l)%nat = false). rewrite /fits length_app /=. destruct (Nat.leb_spec Capacity (length l)); [done|lia].
Qed.
Lemma spec_run_fits ops ls rs ls' : Forall fits ls -> spec_run ops ls = Some (rs, ls') -> Forall fits ls'.
Proof.
  revert ls rs. induction ops as [|o ops IH] => ls rs Hfs /=; [by intros ?; simplify_eq|].
  destruct (spec_step o ls) as [[r l1]|] eqn:E1; [|done]. simpl. destruct (spec_run ops l1) as [[rs1 l2]|] eqn:E2; [|done]. simpl.
  intros ?. simplify_eq. eapply IH; [|exact E2]. by eapply spec_step_fits.
Qed.
Lemma vec_run_refines ops ls : Forall fits ls ->
  vec_run ops (vec_of <$> ls) = match spec_run ops ls with Some (rs, ls') => Some (rs, (fun l : list T => vec_of l) <$> ls') | None => None end.
Proof.
  revert ls. induction ops as [|o ops IH] => ls Hfs //=. rewrite vec_step_refines //. destruct (spec_step o ls) as [[r ls']|] eqn:E; [|done]. simpl.
  rewrite IH; [|by eapply spec_step_fits]. by destruct (spec_run ops ls') as [[]|].
Qed.

(** Programs that append, remove, erase, clear, copy, move and read FixedVectors
    behave as over lists of at most Capacity elements: every operation returns what
    the list operation returns, never constructs over a live element nor touches a
    dead one - except where the program itself asks for an element that is not there
    -, and the storage of a vector holds its elements and raw cells behind them. *)
Lemma fixed_vectors_refine ops n :
  vec_run ops (replicate n FixedVector_ctor) = match spec_run ops (replicate n []) with Some (rs, ls) => Some (rs, (fun l : list T => vec_of l) <$> ls) | None => None end.
Proof.
  rewrite ctor_vec_of. rewrite -(fmap_replicate (fun l : list T => vec_of l) n []). apply vec_run_refines, Forall_replicate, nil_fits.
Qed.

(** The destructor leaves every cell raw. *)
Lemma vector_destructor_leaves_raw ops n rs vs : vec_run ops (replicate n FixedVector_ctor) = Some (rs, vs) -> Forall (fun v => clear v = Some FixedVector_ctor) vs.
Proof.
  rewrite ctor_vec_of. rewrite -(fmap_replicate (fun l : list T => vec_of l) n []). rewrite vec_run_refines; [|apply Forall_replicate, nil_fits].
  destruct (spec_run ops (replicate n [])) as [[rs' ls]|] eqn:E; [|done]. intros ?. simplify_eq. rewrite Forall_fmap.
  have Hf : Forall fits ls by eapply spec_run_fits; [|exact E]; apply Forall_replicate, nil_fits.
  eapply Forall_impl; [|exact Hf]. intros l Hl. rewrite /= clear_vec_of // ctor_vec_of //.
Qed.
End Vector.

(** ** optional *)

Section Cell.
Context {T : Type}.
(** One object's storage. *)
Definition construct1 (x : T) (c : option T) : option (option T) := match c with None => Some (Some x) | Some _ => None end.
Definition destroy1 (c : option T) : option (option T) := match c with Some _ => Some None | None => None end.
End Cell.

Module Optional.
Section Optional.
Context {T : Type} (moved : T -> T).

Record optional := mkOptional { storage_ : option T; has_value_ : bool }.
Definition optional_ctor : optional := mkOptional None false.
Definition optional_value (val : T) : option optional := c ← construct1 val None; Some (mkOptional c true).
(** [None]: the assertion fails. *)
Definition opt_value (o : optional) : option T := if has_value_ o then storage_ o else None.
Definition opt_value_or (default_val : T) (o : optional) : option T := if has_value_ o then opt_value o else Some default_val.
Definition reset (o : optional) : option optional := if has_value_ o then c ← destroy1 (storage_ o); Some (mkOptional c false) else Some o.
Definition optional_copy (other : optional) : option optional :=
  if has_value_ other then x ← opt_value other; c ← construct1 x None; Some (mkOptional c true) else Some (mkOptional None false).
Definition opt_copy_assign (other o : optional) : option optional :=
  o ← reset o;
  if has_value_ other then x ← opt_value other; c ← construct1 x (storage_ o); Some (mkOptional c true) else Some (mkOptional (storage_ o) false).
Definition opt_moved_from (o : optional) : optional := mkOptional (moved <$> storage_ o) (has_value_ o).
(** The other optional, which still has a (moved-from) value, and this one. *)
Definition optional_move (other : optional) : option (optional * optional) :=
  if has_value_ other then x ← opt_value other; c ← construct1 x None; Some (opt_moved_from other, mkOptional c true) else Some (other, mkOptional None false).
Definition opt_move_assign (other o : optional) : option (optional * optional) :=
  o ← reset o;
  if has_value_ other then x ← opt_value other; c ← construct1 x (storage_ o); Some (opt_moved_from other, mkOptional c true) else Some (other, mkOptional (storage_ o) false).

Definition opt_of (o : option T) : optional := mkOptional o (bool_decide (is_Some o)).
Lemma opt_of_Some x : opt_of (Some x) = mkOptional (Some x) true.
Proof. reflexivity. Qed.
Lemma opt_of_None : opt_of None = mkOptional None false.
Proof. reflexivity. Qed.

(** An optional is an option: no operation constructs over a live object or touches a
    dead one, and only value() of nothing fails. *)
Lemma optional_refines (o other : option T) x :
  optional_ctor = opt_of None /\ optional_value x = Some (opt_of (Some x)) /\ opt_value (opt_of o) = o
  /\ opt_value_or x (opt_of o) = Some (default x o) /\ reset (opt_of o) = Some (opt_of None)
  /\ optional_copy (opt_of other) = Some (opt_of other) /\ opt_copy_assign (opt_of other) (opt_of o) = Some (opt_of other)
  /\ optional_move (opt_of other) = Some (opt_of (moved <$> other), opt_of other)
  /\ opt_move_assign (opt_of other) (opt_of o) = Some (opt_of (moved <$> other), opt_of other).
Proof. destruct o, other; repeat split. Qed.
End Optional.
End Optional.

(** ** expected *)

Module Expected.
Section Expected.
(** [no_err]: E{}. *)
Context {V E : Type} (moved : V -> V) (no_err : E).

Record expected := mkExpected { storage_ : option V; err_ : E; has_value_ : bool }.
Definition success (val : V) : option expected := c ← construct1 val None; Some (mkExpected c no_err true).
Definition error (err : E) : expected := mkExpected None err false.
Definition value (e : expected) : option V := if has_value_ e then storage_ e else None.
Definition get_error (e : expected) : option E := if has_value_ e then None else Some (err_ e).
Definition value_or (default_val : V) (e : expected) : option V := if has_value_ e then value e else Some default_val.
(** Into a raw storage. *)
Definition fill (other : expected) (c : option V) : option expected :=
  if has_value_ other then x ← value other; c ← construct1 x c; Some (mkExpected c (err_ other) true) else Some (mkExpected c (err_ other) false).
Definition drop_value (e : expected) : option (option V) := if has_value_ e then destroy1 (storage_ e) else Some (storage_ e).
Definition expected_copy (other : expected) : option expected := fill other None.
Definition exp_copy_assign (other e : expected) : option expected := c ← drop_value e; fill other c.
Definition exp_moved_from (e : expected) : expected := if has_value_ e then mkExpected (moved <$> storage_ e) (err_ e) true else e.
Definition expected_move (other : expected) : option (expected * expected) := e ← fill other None; Some (exp_moved_from other, e).
Definition exp_move_assign (other e : expected) : option (expected * expected) := c ← drop_value e; e ← fill other c; Some (exp_moved_from other, e).
Definition destructor (e : expected) : option (option V) := drop_value e.

Definition exp_of (s : V + E) : expected := match s with inl x => mkExpected (Some x) no_err true | inr e => mkExpected None e false end.
Definition sum_map (f : V -> V) (s : V + E) : V + E := match s with inl x => inl (f x) | inr e => inr e end.

(** An expected is a sum of a value and an error. *)
Lemma expected_refines (s other : V + E) x e :
  success x = Some (exp_of (inl x)) /\ error e = exp_of (inr e)
  /\ value (exp_of s) = match s with inl x => Some x | inr _ => None end /\ get_error (exp_of s) = match s with inl _ => None | inr e => Some e end
  /\ value_or x (exp_of s) = Some (match s with inl y => y | inr _ => x end)
  /\ expected_copy (exp_of other) = Some (exp_of other) /\ exp_copy_assign (exp_of other) (exp_of s) = Some (exp_of other)
  /\ expected_move (exp_of other) = Some (exp_of (sum_map moved other), exp_of other)
  /\ exp_move_assign (exp_of other) (exp_of s) = Some (exp_of (sum_map moved other), exp_of other)
  /\ destructor (exp_of s) = Some None.
Proof. destruct s, other; repeat split. Qed.
End Expected.

Section Chain.
Context {V W E : Type} (no_err : E).
(** [None]: fn fails an assertion of its own. *)
Definition and_then (result : @expected V E) (fn : V -> option (@expected W E)) : option (@expected W E) :=
  if has_value_ result then x ← value result; fn x else e ← get_error result; Some (error e).
Lemma and_then_bind (s : V + E) (f : V -> W + E) :
  and_then (exp_of no_err s) (fun x => Some (exp_of no_err (f x))) = Some (exp_of no_err (match s with inl x => f x | inr e => inr e end)).
Proof. by destruct s. Qed.
End Chain.
Section OrElse.
Context {V E L : Type} (no_err : E).
(** What fn does with the error, and the result. *)
Definition or_else (result : @expected V E) (fn : E -> L) : option (option L * @expected V E) := if has_value_ result then Some (None, result) else e ← get_error result; Some (Some (fn e), result).
Lemma or_else_calls (s : V + E) fn : or_else (exp_of no_err s) fn = Some (match s with inl _ => None | inr e => Some (fn e) end, exp_of no_err s).
Proof. by destruct s. Qed.
End OrElse.
End Expected.

(** ** FixedFunction and ScopeGuard *)

Module Function.
Section Function.
(** [C]: callables.  [Decay c]: the callable's type. *)
Context {C : Type} (Decay : C -> nat).

(** The function pointers, one per type of callable; null is [None]. *)
Record FixedFunction := mkFunction { storage_ : option C; invoker_ : option nat; mover_ : option nat; destroyer_ : option nat }.
Definition null_function : FixedFunction := mkFunction None None None None.
(** The lambdas of the type [ty], which cast the storage to it. *)
Definition the_object (ty : nat) (s : option C) : option C := c ← s; if (Decay c =? ty)%nat then Some c else None.
Definition invoke (ty : nat) (s : option C) : option C := the_object ty s.
Definition destroy_as (ty : nat) (s : option C) : option (option C) := _ ← the_object ty s; destroy1 s.
(** Destination and source. *)
Definition move_as (ty : nat) (dst src : option C) : option (option C * option C) := c ← the_object ty src; dst ← construct1 c dst; src ← destroy_as ty src; Some (dst, src).

Definition FixedFunction_ctor (f : C) : option FixedFunction := s ← construct1 f None; Some (mkFunction s (Some (Decay f)) (Some (Decay f)) (Some (Decay f))).
Definition destroyed (t : FixedFunction) : option (option C) := match destroyer_ t with Some ty => destroy_as ty (storage_ t) | None => Some (storage_ t) end.
(** Takes the pointers, and the callable into a raw storage: other and this. *)
Definition take_over (other : FixedFunction) (s : option C) : option (FixedFunction * FixedFunction) :=
  match mover_ other with
  | Some ty => '(dst, src) ← move_as ty s (storage_ other); Some (mkFunction src None None None, mkFunction dst (invoker_ other) (mover_ other) (destroyer_ other))
  | None => Some (other, mkFunction s (invoker_ other) (mover_ other) (destroyer_ other))
  end.
Definition FixedFunction_move (other : FixedFunction) : option (FixedFunction * FixedFunction) := take_over other None.
Definition fun_move_assign (other t : FixedFunction) : option (FixedFunction * FixedFunction) := s ← destroyed t; take_over other s.
Definition null_assign (t : FixedFunction) : option FixedFunction := s ← destroyed t; Some (mkFunction s None None None).
Definition call (t : FixedFunction) : option C := ty ← invoker_ t; invoke ty (storage_ t).
Definition to_bool (t : FixedFunction) : bool := bool_decide (is_Some (invoker_ t)).

Definition fun_of (o : option C) : FixedFunction := mkFunction o (Decay <$> o) (Decay <$> o) (Decay <$> o).
(** A FixedFunction is an optional callable; moving leaves nothing behind. *)
Lemma function_refines (o other : option C) f :
  null_function = fun_of None /\ FixedFunction_ctor f = Some (fun_of (Some f)) /\ destroyed (fun_of o) = Some None
  /\ FixedFunction_move (fun_of other) = Some (fun_of None, fun_of other) /\ fun_move_assign (fun_of other) (fun_of o) = Some (fun_of None, fun_of other)
  /\ null_assign (fun_of o) = Some (fun_of None) /\ call (fun_of o) = o /\ to_bool (fun_of o) = bool_decide (is_Some o).
Proof.
  rewrite /FixedFunction_move /fun_move_assign /null_assign /destroyed /take_over /move_as /destroy_as /call /invoke /the_object.
  destruct o, other; by repeat (rewrite /= ?Nat.eqb_refl; try split).
Qed.

(** *** ScopeGuard *)

Record ScopeGuard := mkGuard { cleanup_ : FixedFunction; active_ : bool }.
(** The argument's own destruction is that of a moved-from function. *)
Definition ScopeGuard_ctor (cleanup : FixedFunction) : option ScopeGuard := '(cleanup, t) ← FixedFunction_move cleanup; _ ← destroyed cleanup; Some (mkGuard t true).
(** The other guard and this one. *)
Definition ScopeGuard_move (other : ScopeGuard) : option (ScopeGuard * ScopeGuard) := '(o, t) ← FixedFunction_move (cleanup_ other); Some (mkGuard o false, mkGuard t (active_ other)).
Definition release (g : ScopeGuard) : ScopeGuard := mkGuard (cleanup_ g) false.
(** The callables called, in order. *)
Definition ScopeGuard_dtor (g : ScopeGuard) : option (list C) :=
  ran ← (if active_ g && to_bool (cleanup_ g) then c ← call (cleanup_ g); Some [c] else Some []);
  _ ← destroyed (cleanup_ g); Some ran.

(** A block: guards made, moved into new guards and released. *)
Inductive GuardOp := GMake (c : C) | GMove (i : nat) | GRelease (i : nat).
Definition guard_step (op : GuardOp) (gs : list ScopeGuard) : option (list ScopeGuard) :=
  match op with
  | GMake c => f ← FixedFunction_ctor c; g ← ScopeGuard_ctor f; Some (gs ++ [g])
  | GMove i => g ← gs !! i; '(g, t) ← ScopeGuard_move g; Some (<[i := g]> gs ++ [t])
  | GRelease i => g ← gs !! i; Some (<[i := release g]> gs)
  end.
Fixpoint guard_steps (ops : list GuardOp) (gs : list ScopeGuard) : option (list ScopeGuard) := match ops with [] => Some gs | op :: ops => gs ← guard_step op gs; guard_steps ops gs end.
(** The end of the block destroys the guards in the reverse order. *)
Fixpoint leave_scope (gs : list ScopeGuard) : option (list C) := match gs with [] => Some [] | g :: gs => ran ← ScopeGuard_dtor g; rest ← leave_scope gs; Some (ran ++ rest) end.
Definition guard_block (ops : list GuardOp) : option (list C) := gs ← guard_steps ops []; leave_scope (reverse gs).

(** The block's contract: the cleanups pending, and those called off. *)
Fixpoint pending (ops : list GuardOp) (p : list (option C)) (off : list C) : option (list (option C) * list C) :=
  match ops with
  | [] => Some (p, off)
  | GMake c :: ops => pending ops (p ++ [Some c]) off
  | GMove i :: ops => o ← p !! i; pending ops (<[i := None]> p ++ [o]) off
  | GRelease i :: ops => o ← p !! i; pending ops (<[i := None]> p) (off ++ option_list o)
  end.
Fixpoint made (ops : list GuardOp) : list C := match ops with [] => [] | GMake c :: ops => c :: made ops | _ :: ops => made ops end.
Fixpoint cleanups (p : list (option C)) : list C := match p with [] => [] | o :: p => option_list o ++ cleanups p end.
Lemma cleanups_app p q : cleanups (p ++ q) = cleanups p ++ cleanups q.
Proof. induction p as [|o p IH]; [done|]. by rewrite /= IH app_assoc. Qed.
Lemma cleanups_reverse p : cleanups (reverse p) ≡ₚ cleanups p.
Proof. induction p as [|o p IH]; [done|]. rewrite reverse_cons cleanups_app IH /= app_nil_r. apply Permutation_app_comm. Qed.

(** [o]: the cleanup still to be called.  A released guard keeps its callable. *)
Definition guard_rel (g : ScopeGuard) (o : option C) : Prop := exists f, cleanup_ g = fun_of f /\ o = (if active_ g then f else None).
Lemma destroyed_fun o : destroyed (fun_of o) = Some None.
Proof. rewrite /destroyed /destroy_as /the_object. destruct o; by rewrite /= ?Nat.eqb_refl. Qed.
Lemma move_fun o : FixedFunction_move (fun_of o) = Some (fun_of None, fun_of o).
Proof. rewrite /FixedFunction_move /take_over /move_as /destroy_as /the_object. destruct o; by rewrite /= ?Nat.eqb_refl /= ?Nat.eqb_refl. Qed.
Lemma call_fun c : call (fun_of (Some c)) = Some c.
Proof. by destruct (function_refines (Some c) None c) as (_ & _ & _ & _ & _ & _ & E & _). Qed.
Lemma guard_dtor_runs g o : guard_rel g o -> ScopeGuard_dtor g = Some (option_list o).
Proof.
  intros (f & Hf & ->). rewrite /ScopeGuard_dtor Hf destroyed_fun. destruct (active_ g), f as [c|]; rewrite /= ?call_fun //.
Qed.
Lemma leave_scope_runs gs p : Forall2 guard_rel gs p -> leave_scope gs = Some (cleanups p).
Proof. induction 1 as [|g o gs p Hg _ IH]; [done|]. simpl. by rewrite (guard_dtor_runs _ _ Hg) /= IH. Qed.
Lemma guard_step_rel op gs p : Forall2 guard_rel gs p ->
  match op with
  | GMake c => exists gs', guard_step op gs = Some gs' /\ Forall2 guard_rel gs' (p ++ [Some c])
  | GMove i => match p !! i with Some o => exists gs', guard_step op gs = Some gs' /\ Forall2 guard_rel gs' (<[i := None]> p ++ [o]) | None => guard_step op gs = None end
  | GRelease i => match p !! i with Some o => exists gs', guard_step op gs = Some gs' /\ Forall2 guard_rel gs' (<[i := None]> p) | None => guard_step op gs = None end
  end.
Proof.
  intros Hr. have Hlk : forall i, option_Forall2 guard_rel (gs !! i) (p !! i) by apply Forall2_lookup.
  destruct op as [c|i|i]; rewrite /guard_step.
  - rewrite /ScopeGuard_ctor. have -> : FixedFunction_ctor c = Some (fun_of (Some c)) by done. cbn [mbind option_bind]. rewrite move_fun. cbn [mbind option_bind]. rewrite destroyed_fun /=.
    eexists; split; [done|]. apply Forall2_app; [done|]. constructor; [|done]. by exists (Some c).
  - destruct (Hlk i) as [g o (f & Hf & ->)|]; [|done]. rewrite /= /ScopeGuard_move Hf move_fun /=. eexists; split; [done|].
    apply Forall2_app; [apply Forall2_insert; [done|by exists None]|]. constructor; [|done]. by exists f.
  - destruct (Hlk i) as [g o (f & Hf & ->)|]; [|done]. simpl. eexists; split; [done|]. apply Forall2_insert; [done|]. by exists f.
Qed.
Lemma guard_steps_rel ops gs p off : Forall2 guard_rel gs p ->
  match pending ops p off with Some (p', _) => exists gs', guard_steps ops gs = Some gs' /\ Forall2 guard_rel gs' p' | None => guard_steps ops gs = None end.
Proof.
  revert gs p off. induction ops as [|op ops IH] => gs p off Hr; [by eexists|]. have Hs := guard_step_rel op gs p Hr. rewrite /= -/guard_step.
  destruct op as [c|i|i].
  - destruct Hs as (gs' & -> & Hr'). by apply IH.
  - destruct (p !! i) as [o|]; [destruct Hs as (gs' & -> & Hr'); by apply IH|]. by rewrite Hs.
  - destruct (p !! i) as [o|]; [destruct Hs as (gs' & -> & Hr'); by apply IH|]. by rewrite Hs.
Qed.
Lemma cleanups_take_out (p : list (option C)) i o : p !! i = Some o -> option_list o ++ cleanups (<[i := None]> p) ≡ₚ cleanups p.
Proof.
  revert i. induction p as [|q p IH] => -[|i] //= Hi; [by simplify_eq|]. rewrite -(IH i Hi). apply Permutation_app_swap_app.
Qed.
Lemma pending_conserves ops p off p' off' : pending ops p off = Some (p', off') -> cleanups p' ++ off' ≡ₚ cleanups p ++ off ++ made ops.
Proof.
  revert p off. induction ops as [|[c|i|i] ops IH] => p off /=.
  - intros ?. simplify_eq. by rewrite app_nil_r.
  - move=> /IH ->. rewrite cleanups_app /= -app_assoc /=. by rewrite -!Permutation_middle.
  - destruct (p !! i) as [o|] eqn:Hi; [|done]. move=> /= /IH ->. rewrite cleanups_app /= app_nil_r -(cleanups_take_out p i o Hi). by rewrite (Permutation_app_comm (option_list o)).
  - destruct (p !! i) as [o|] eqn:Hi; [|done]. move=> /= /IH ->. rewrite -(cleanups_take_out p i o Hi) -!app_assoc. rewrite !(Permutation_app_swap_app _ (option_list o)). done.
Qed.

(** At the end of a block, the scope guards run the cleanups still pending, the
    last made first, however the guards were moved around; and every cleanup that was
    handed to a guard either ran exactly once or was called off by release. *)
Lemma scope_guards_run_once ops :
  match pending ops [] [] with
  | Some (p, off) => guard_block ops = Some (cleanups (reverse p)) /\ cleanups (reverse p) ++ off ≡ₚ made ops
  | None => guard_block ops = None
  end.
Proof.
  have Hs := guard_steps_rel ops [] [] [] (Forall2_nil _). rewrite /guard_block. destruct (pending ops [] []) as [[p off]|] eqn:E; [|by rewrite Hs].
  destruct Hs as (gs & -> & Hr). split; [apply leave_scope_runs; by apply Forall2_reverse|]. rewrite -[made ops]/(cleanups [] ++ [] ++ made ops) -(pending_conserves _ _ _ _ _ E).
  apply Permutation_app_tail, cleanups_reverse.
Qed.
End Function.
End Function.

(** ** FixedString *)

Module FixedString.
Open Scope Z_scope.
Section FixedString.
Context (Capacity : nat).

Record FixedString := mkString { buf_ : list Z; size_ : Z }.
(** A declared buffer with what the memory holds. *)
Definition raw_buf (b : list Z) : Prop := length b = S Capacity.

(** [while ((i < Capacity) && (str[i] != 0)) buf_[i] = str[i], ++i]; [str] is a text. *)
Fixpoint fill_loop (fuel : nat) (i : nat) (s b : list Z) : option (nat * list Z) :=
  match fuel with
  | O => None
  | S fuel =>
    if (i <? Capacity)%nat then
      c ← cchar s i;
      if c =? 0 then Some (i, b) else b ← bput b (Z.of_nat i) c; fill_loop fuel (S i) s b
    else Some (i, b)
  end.
(** [None]: a null pointer. *)
Definition assign (src : option (list Z)) (b : list Z) : option FixedString :=
  '(n, b) ← match src with Some s => fill_loop (S Capacity) 0 s b | None => Some (0%nat, b) end;
  b ← bput b (Z.of_nat n) 0; Some (mkString b (Z.of_nat n)).
(** [count] bytes of the memory [src]. *)
Definition assign_count (src : option (list Z)) (count : Z) (b : list Z) : option FixedString :=
  '(n, b) ← match src with
    | Some m => let n := if count <? Z.of_nat Capacity then count else Z.of_nat Capacity in xs ← bread m n; b ← bcopy b xs; Some (n, b)
    | None => Some (0, b)
    end;
  b ← bput b n 0; Some (mkString b n).
(** A literal's array, whose last byte is its terminator; longer ones do not compile. *)
Definition assign_literal (lit b : list Z) : option FixedString :=
  if (length lit <=? S Capacity)%nat then b ← bcopy b lit; Some (mkString b (Z.of_nat (length lit - 1))) else None.
Definition string_clear (t : FixedString) : option FixedString := b ← bput (buf_ t) 0 0; Some (mkString b 0).
(** [c_str] is the buffer; [memcmp(a, b, n) == 0]. *)
Definition memeq (a b : list Z) (n : Z) : option bool := x ← bread a n; y ← bread b n; Some (bool_decide (x = y)).
Definition eq_literal (t : FixedString) (lit : list Z) : option bool := if size_ t =? Z.of_nat (length lit) - 1 then memeq (buf_ t) lit (size_ t) else Some false.
Definition empty (t : FixedString) : bool := size_ t =? 0.

(** The string holds the bytes [s], and their terminator follows. *)
Definition holds (t : FixedString) (s : list Z) : Prop := length (buf_ t) = S Capacity /\ size_ t = Z.of_nat (length s) /\ exists r, buf_ t = s ++ 0 :: r.
(** The loop has copied [s1], of the text [s1 ++ s2]. *)
Lemma fill_loop_copies fuel s1 s2 r : (Capacity - length s1 < fuel)%nat -> (length s1 + length r = S Capacity)%nat -> text s2 ->
  exists r', fill_loop fuel (length s1) (s1 ++ s2) (s1 ++ r) = Some (length (s1 ++ take (Capacity - length s1) s2), (s1 ++ take (Capacity - length s1) s2) ++ r')
    /\ (length (s1 ++ take (Capacity - length s1) s2) + length r' = S Capacity)%nat.
Proof.
  revert s1 s2 r. induction fuel as [|fuel IH] => s1 s2 r Hf Hr Hs; [lia|]. simpl. destruct (Nat.ltb_spec (length s1) Capacity) as [Hlt|Hge].
  - destruct s2 as [|c s2].
    + rewrite app_nil_r /cchar list_lookup_middle //= take_nil app_nil_r. by exists r.
    + rewrite /cchar -app_assoc -app_comm_cons list_lookup_middle //=. inversion Hs as [|? ? Hc Hs2]; simplify_eq. destruct (Z.eqb_spec c 0) as [|_]; [done|].
      destruct r as [|x r]; [simpl in Hr; lia|]. rewrite bput_app //=. destruct (IH (s1 ++ [c]) s2 r) as (r' & E & Hl); rewrite ?length_app /= in Hr |- *; [lia..|done|].
      rewrite length_app /= -!app_assoc /= Nat.add_1_r in E. rewrite E. exists r'.
      replace (Capacity - length s1)%nat with (S (Capacity - S (length s1))) by lia. move: Hl. rewrite !length_app /= -app_assoc Nat.add_1_r => Hl. split; [done|]. lia.
  - exists r. replace (Capacity - length s1)%nat with 0%nat by lia. by rewrite take_0 app_nil_r.
Qed.
Lemma terminated s r : (length s + length r = S Capacity)%nat -> (length s <= Capacity)%nat ->
  exists t, bput (s ++ r) (Z.of_nat (length s)) 0 = Some (buf_ t) /\ size_ t = Z.of_nat (length s) /\ holds t s.
Proof.
  destruct r as [|x r]; simpl; [lia|]. intros Hl _. exists (mkString (s ++ 0 :: r) (Z.of_nat (length s))). rewrite bput_app //. split; [done|].
  split; [done|]. rewrite /holds /= length_app /=. split; [lia|]. split; [done|]. by exists r.
Qed.
(** Assigning truncates to the capacity, and always terminates the string. *)
Lemma assign_truncates s b : raw_buf b -> text s -> exists t, assign (Some s) b = Some t /\ holds t (take Capacity s).
Proof.
  intros Hb Hs. destruct (fill_loop_copies (S Capacity) [] s b) as (r & E & Hl); [simpl; lia|done|done|]. rewrite /= Nat.sub_0_r in E Hl.
  rewrite /assign /fill_loop -/fill_loop /= E /=. destruct (terminated (take Capacity s) r Hl) as ([b' n] & -> & Hn & Ht); [rewrite length_take; lia|].
  simpl in Hn |- *. subst n. eauto.
Qed.
Lemma assign_null b : raw_buf b -> exists t, assign None b = Some t /\ holds t [].
Proof. intros Hb. destruct (terminated [] b Hb) as ([b' n] & E & Hn & Ht); [simpl; lia|]. simpl in *. rewrite /assign /= E /=. subst n. eauto. Qed.
(** The bytes need not be a text: a zero among them stays. *)
Lemma assign_count_truncates m count b : raw_buf b -> 0 <= count -> (Z.to_nat (count `min` Z.of_nat Capacity) <= length m)%nat ->
  exists t, assign_count (Some m) count b = Some t /\ holds t (take (Z.to_nat (count `min` Z.of_nat Capacity)) m).
Proof.
  intros Hb Hc Hm. rewrite /assign_count /bread. have -> : (if count <? Z.of_nat Capacity then count else Z.of_nat Capacity) = count `min` Z.of_nat Capacity.
  { destruct (Z.ltb_spec count (Z.of_nat Capacity)); lia. }
  set n := count `min` Z.of_nat Capacity in Hm |- *. have Hn : 0 <= n <= Z.of_nat Capacity by lia.
  destruct (Z.leb_spec 0 n); [|lia]. destruct (Z.leb_spec n (Z.of_nat (length m))); [|lia]. rewrite /= /bcopy length_take.
  destruct (Nat.leb_spec (Z.to_nat n `min` length m) (length b)); [|rewrite Hb in H1; lia]. simpl.
  destruct (terminated (take (Z.to_nat n) m) (drop (Z.to_nat n `min` length m) b)) as ([b' k] & E & Hk & Ht); [rewrite length_take length_drop Hb; lia|rewrite length_take; lia|].
  have En : Z.of_nat (Z.to_nat n `min` length m) = n by lia. move: E Hk. rewrite length_take En => -> /= Hk. rewrite Hk in Ht |- *. eauto.
Qed.
Lemma holds_bread t s : holds t s -> bread (buf_ t) (size_ t) = Some s.
Proof.
  intros (Hl & Hn & r & Hr). rewrite /bread Hn Hr Nat2Z.id take_app_length length_app /=. destruct (Z.leb_spec 0 (Z.of_nat (length s))); [|lia].
  by destruct (Z.leb_spec (Z.of_nat (length s)) (Z.of_nat (length s + S (length r)))); [|lia].
Qed.
End FixedString.

Section Compare.
(** Strings of two capacities. *)
Definition eq_string (t rhs : FixedString) : option bool := if size_ t =? size_ rhs then memeq (buf_ t) (buf_ rhs) (size_ t) else Some false.
(** Strings are equal when their bytes are, whatever their capacities. *)
Lemma eq_string_compares Cap1 Cap2 t1 t2 s1 s2 : holds Cap1 t1 s1 -> holds Cap2 t2 s2 -> eq_string t1 t2 = Some (bool_decide (s1 = s2)).
Proof.
  intros H1 H2. have B1 := holds_bread _ _ _ H1. have B2 := holds_bread _ _ _ H2. move: (H1) (H2) => [_ [N1 _]] [_ [N2 _]]. rewrite /eq_string /memeq.
  destruct (Z.eqb_spec (size_ t1) (size_ t2)) as [E|E].
  - rewrite B1 E B2 //.
  - f_equal. symmetry. apply bool_decide_eq_false. intros ->. lia.
Qed.
End Compare.
End FixedString.
