(* ===== verification/Config.v ===== *)
(** * The configuration store (include/osp/config.hpp)

    ConfigStore: entries of three character arrays, found without regard to case,
    with the typed getters; the backends that fill it - INI over the modelled parser,
    and the traversals of the documents that the JSON, YAML and TOML libraries parse -
    and the choice of the backend by format or by file extension.

    A string argument is its bytes; the C functions read them up to the first zero,
    their terminator included. *)

From Stdlib Require Import ZArith Lia Bool String ssreflect.
From stdpp Require Import base numbers list option gmap strings.
From S2P Require Import Prelude CBuffer Containers Ini.
Local Open Scope general_if_scope.
Local Set SsrOldRewriteGoalsOrder.

Open Scope Z_scope.
Open Scope list_scope.

Definition kMaxEntries : nat := 128.
Definition kMaxKeyLen : nat := 64.
Definition kMaxValueLen : nat := 256.

(** A string with its terminator. *)
Definition zstr (s : list Z) : list Z := s ++ [0].
Definition lower (c : Z) : Z := if (65 <=? c) && (c <=? 90) then c + 32 else c.
(** On arrays; [None]: a read outside one of them. *)
Fixpoint StrCaseEqual (a b : list Z) : option bool :=
  match a, b with
  | x :: a, y :: b => if negb (x =? 0) && negb (y =? 0) then (if negb (lower x =? lower y) then Some false else StrCaseEqual a b) else Some (x =? y)
  | _, _ => None
  end.
(** [None]: nullptr. *)
Definition SafeCopy (dst_size : nat) (dst : list Z) (src : option (list Z)) : option (list Z) :=
  match src with
  | None => bput dst 0 0
  | Some s => '(i, dst) ← FixedString.fill_loop (dst_size - 1) dst_size 0 s dst; bput dst (Z.of_nat i) 0
  end.

(** ** The store *)

Record Entry := mkEntry { section : list Z; key : list Z; value : list Z }.
(** All of the array, and how much of it is in use: at most kMaxEntries. *)
Record ConfigStore := mkStore { entries_ : list Entry; count_ : nat }.
(** The array is not initialised. *)
Definition ConfigStore_ctor (memory : list Entry) : ConfigStore := mkStore memory 0.

Definition entry_matches (sec k : list Z) (e : Entry) : option bool := b ← StrCaseEqual (section e) (zstr sec); if (b : bool) then StrCaseEqual (key e) (zstr k) else Some false.
(** The first match from index [i] on, [n] entries far. *)
Fixpoint find_loop (n i : nat) (sec k : list Z) (s : ConfigStore) : option (option nat) :=
  match n with
  | O => Some None
  | S n => e ← entries_ s !! i; b ← entry_matches sec k e; if (b : bool) then Some (Some i) else find_loop n (S i) sec k s
  end.
Definition FindEntry (sec k : list Z) (s : ConfigStore) : option (option Entry) :=
  r ← find_loop (count_ s) 0 sec k s; match r with Some i => e ← entries_ s !! i; Some (Some e) | None => Some None end.
Definition AddEntry (sec k : list Z) (v : option (list Z)) (s : ConfigStore) : option (bool * ConfigStore) :=
  r ← find_loop (count_ s) 0 sec k s;
  match r with
  | Some i =>
    e ← entries_ s !! i; b ← SafeCopy kMaxValueLen (value e) v;
    Some (true, mkStore (<[i := mkEntry (section e) (key e) b]> (entries_ s)) (count_ s))
  | None =>
    if (kMaxEntries <=? count_ s)%nat then Some (false, s)
    else
      e ← entries_ s !! count_ s;
      bs ← SafeCopy kMaxKeyLen (section e) (Some sec); bk ← SafeCopy kMaxKeyLen (key e) (Some k); bv ← SafeCopy kMaxValueLen (value e) v;
      Some (true, mkStore (<[count_ s := mkEntry bs bk bv]> (entries_ s)) (S (count_ s)))
  end.
Definition SetString := AddEntry.
Fixpoint has_section_loop (n i : nat) (sec : list Z) (s : ConfigStore) : option bool :=
  match n with
  | O => Some false
  | S n => e ← entries_ s !! i; b ← StrCaseEqual (section e) (zstr sec); if (b : bool) then Some true else has_section_loop n (S i) sec s
  end.
Definition HasSection (sec : list Z) (s : ConfigStore) : option bool := has_section_loop (count_ s) 0 sec s.
Definition HasKey (sec k : list Z) (s : ConfigStore) : option bool := e ← FindEntry sec k s; Some (match e with Some _ => true | None => false end).
Definition EntryCount (s : ConfigStore) : nat := count_ s.

(** ** Typed getters *)

(** What strtol reads of a text: the value, and whether it found a number
    ([end != value]). *)
Definition strtol (t : list Z) : Z * bool := let '(v, rest) := strtol_base 10 t in (v, negb (length rest =? length t)%nat).
Definition INT32_MIN : Z := - 2 ^ 31.
Definition INT32_MAX : Z := 2 ^ 31 - 1.
Definition read_int (default_val : Z) (t : list Z) : Z :=
  let '(val, found) := strtol t in
  if negb found then default_val else if (val <? INT32_MIN) || (INT32_MAX <? val) then default_val else signed 32 val.
Definition read_port (default_val : Z) (t : list Z) : Z :=
  let '(val, found) := strtol t in
  if negb found then default_val else if val <? 0 then 0 else if 65535 <? val then 65535 else u16 val.
Definition read_opt_int (t : list Z) : option Z := let '(val, found) := strtol t in if found then Some (signed 32 val) else None.
Definition ParseBool (str : list Z) : option bool :=
  a ← StrCaseEqual str (zstr (CBuffer.str "true")); if (a : bool) then Some true else
  a ← StrCaseEqual str (zstr (CBuffer.str "1")); if (a : bool) then Some true else
  a ← StrCaseEqual str (zstr (CBuffer.str "yes")); if (a : bool) then Some true else StrCaseEqual str (zstr (CBuffer.str "on")).

(** What a getter makes of the entry it finds. *)
Definition getter {A} (found : list Z -> option A) (default_val : A) (sec k : list Z) (s : ConfigStore) : option A :=
  e ← FindEntry sec k s; match e with None => Some default_val | Some e => found (value e) end.
Definition GetString (sec k default_val : list Z) := getter cstr default_val sec k.
Definition GetInt (sec k : list Z) (default_val : Z) := getter (fun v => t ← cstr v; Some (read_int default_val t)) default_val sec k.
Definition GetPort (sec k : list Z) (default_val : Z) := getter (fun v => t ← cstr v; Some (read_port default_val t)) default_val sec k.
Definition GetBool (sec k : list Z) (default_val : bool) := getter ParseBool default_val sec k.
Definition FindInt (sec k : list Z) := getter (fun v => t ← cstr v; Some (read_opt_int t)) None sec k.
Definition FindBool (sec k : list Z) := getter (fun v => b ← ParseBool v; Some (Some b)) None sec k.
(** strtod: the number, and whether it found one. *)
Definition GetDouble {D} (strtod : list Z -> D * bool) (sec k : list Z) (default_val : D) :=
  getter (fun v => t ← cstr v; let '(val, found) := strtod t in Some (if (found : bool) then val else default_val)) default_val sec k.

(** The entries shown to the visitor, in order. *)
Fixpoint foreach_loop (n i : nat) (s : ConfigStore) : option (list (list Z * list Z * list Z)) :=
  match n with
  | O => Some []
  | S n => e ← entries_ s !! i; x ← cstr (section e); y ← cstr (key e); z ← cstr (value e); rest ← foreach_loop n (S i) s; Some ((x, y, z) :: rest)
  end.
Definition ForEach (s : ConfigStore) := foreach_loop (count_ s) 0 s.

(** ** Backends *)

Inductive ConfigError := kFileNotFound | kParseError | kFormatNotSupported | kBufferFull.
Inductive ConfigFormat := kAuto | kIni | kJson | kYaml | kToml.
#[export] Instance ConfigFormat_eq_dec : EqDecision ConfigFormat.
Proof. solve_decision. Defined.

(** Adds entries until one does not fit; [true]: all were added. *)
Fixpoint add_fields (sec : list Z) (l : list (list Z * option (list Z))) (s : ConfigStore) : option (bool * ConfigStore) :=
  match l with [] => Some (true, s) | (k, v) :: l => '(ok, s) ← AddEntry sec k v s; if (ok : bool) then add_fields sec l s else Some (false, s) end.
Fixpoint add_sections (l : list (list Z * list (list Z * option (list Z)))) (s : ConfigStore) : option (bool * ConfigStore) :=
  match l with [] => Some (true, s) | (sec, fs) :: l => '(ok, s) ← add_fields sec fs s; if (ok : bool) then add_sections l s else Some (false, s) end.
Definition Outcome := option (option ConfigError * ConfigStore).
Definition buffer_full (r : option (bool * ConfigStore)) : Outcome := '(ok, s) ← r; Some ((if (ok : bool) then None else Some kBufferFull), s).

Definition ini_sections (f : list (list Z * list (list Z * list Z))) : list (list Z * list (list Z * option (list Z))) :=
  (fun x : list Z * list (list Z * list Z) => (x.1, (fun kv : list Z * list Z => (kv.1, Some kv.2)) <$> x.2)) <$> f.
(** The INI parser throws on the first error. *)
Definition store_ini (content : list Z) (s : ConfigStore) : Outcome :=
  match Decode str_less default_config content with
  | (Some _, _) => Some (Some kParseError, s)
  | (None, f) => buffer_full (add_sections (ini_sections f) s)
  end.
(** [data] reads up to its terminator; the size is not used. *)
Definition Ini_ParseBuffer (data : list Z) (size : nat) (s : ConfigStore) : Outcome := t ← cstr data; store_ini t s.
(** [exists_]: the first open works.  [content]: what the stream reads, nothing when it
    cannot be opened. *)
Definition Ini_ParseFile (exists_ : bool) (content : option (list Z)) (s : ConfigStore) : Outcome :=
  if exists_ then match content with Some c => store_ini c s | None => Some (None, s) end else Some (Some kFileNotFound, s).

(** *** Documents of the JSON, YAML and TOML libraries *)

Section Documents.
(** Floating-point numbers, and "%g" of them. *)
Context {F : Type} (fmt_g : F -> list Z).
(** What the parsers yield; [NOther d]: arrays and the like. *)
Inductive Node := NTable (l : list (list Z * Node)) | NString (s : list Z) | NBoolean (b : bool) | NInteger (n : Z) | NFloat (x : F) | NOther (d : list Z).
(** The JSON text of a node. *)
Context (dump : Node -> list Z).

(** Into a buffer of kMaxValueLen, as text. *)
Definition ToStr_json (n : Node) : list Z :=
  match n with
  | NString s => take (kMaxValueLen - 1) (c_str s)
  | NBoolean b => Encode_bool b
  | NInteger v => Encode_integer v
  | NFloat x => take (kMaxValueLen - 1) (fmt_g x)
  | n => take (kMaxValueLen - 1) (c_str (dump n))
  end.
(** YAML and TOML: nothing for other nodes. *)
Definition ToStr_plain (n : Node) : list Z := match n with NTable _ | NOther _ => [] | n => ToStr_json n end.
Definition CopyKey (src : list Z) : list Z := take (kMaxKeyLen - 1) src.

Definition document (copy_key : list Z -> list Z) (to_str : Node -> list Z) (kn : list Z * Node) : list Z * list (list Z * option (list Z)) :=
  match kn with
  | (k, NTable l) => (k, (fun kv : list Z * Node => (copy_key kv.1, Some (to_str kv.2))) <$> l)
  | (k, n) => ([], [(copy_key k, Some (to_str n))])
  end.
(** [root]: the document, [None] when parsing fails. *)
Definition store_document (copy_key : list Z -> list Z) (to_str : Node -> list Z) (root : option Node) (s : ConfigStore) : Outcome :=
  match root with
  | Some (NTable l) => buffer_full (add_sections (document copy_key to_str <$> l) s)
  | _ => Some (Some kParseError, s)
  end.
Definition Json_ParseBuffer (parse : list Z -> option Node) (data : list Z) (size : nat) (s : ConfigStore) : Outcome := t ← cstr data; store_document id ToStr_json (parse t) s.
Definition Yaml_ParseBuffer (parse : list Z -> option Node) (data : list Z) (size : nat) (s : ConfigStore) : Outcome := t ← bread data (Z.of_nat size); store_document id ToStr_plain (parse t) s.
Definition Toml_ParseBuffer (parse : list Z -> option Node) (data : list Z) (size : nat) (s : ConfigStore) : Outcome := t ← bread data (Z.of_nat size); store_document CopyKey ToStr_plain (parse t) s.
End Documents.

(** *** Reading files *)

(** Results of read. *)
Inductive ReadRes := RData (bytes : list Z) | RInterrupted | RError | REnd.
(** [total] bytes are in the buffer; read fills at most the room it is given.  [None]:
    the script of results does not fit. *)
Fixpoint read_loop (script : list ReadRes) (total : nat) (buf : list Z) : option (nat * list Z) :=
  if (length buf - 1 <=? total)%nat then Some (total, buf)
  else
    match script with
    | RData bytes :: script =>
      if (1 <=? length bytes)%nat && (length bytes <=? length buf - 1 - total)%nat
      then read_loop script (total + length bytes) (take total buf ++ bytes ++ drop (total + length bytes) buf) else None
    | RInterrupted :: script => read_loop script total buf
    | (RError | REnd) :: _ => Some (total, buf)
    | [] => None
    end.
(** [file]: the results of reading it, [None] when it does not open. *)
Definition ReadFileToBuffer (file : option (list ReadRes)) (buf : list Z) : option ((ConfigError + nat) * list Z) :=
  match file with
  | None => Some (inl kFileNotFound, buf)
  | Some script => '(total, buf) ← read_loop script 0 buf; buf ← bput buf (Z.of_nat total) 0; Some (inr total, buf)
  end.
Definition FileBackedParser_ParseFile (parse_buffer : list Z -> nat -> ConfigStore -> Outcome) (file : option (list ReadRes)) (buf : list Z) (s : ConfigStore) : Outcome :=
  '(r, buf) ← ReadFileToBuffer file buf; match r with inl e => Some (Some e, s) | inr total => parse_buffer buf total s end.

(** *** Choosing the backend *)

(** [ParseFile] takes what opening and reading the path yields. *)
Record Backend := mkBackend { kFormat : ConfigFormat; extensions : list (list Z); ParseFile : ConfigStore -> Outcome; ParseBuffer : list Z -> nat -> ConfigStore -> Outcome }.
Definition ExtCaseEqual := StrCaseEqual.
Fixpoint MatchesExtension (exts : list (list Z)) (ext : list Z) : option bool :=
  match exts with [] => Some false | e :: exts => b ← ExtCaseEqual (zstr ext) (zstr e); if (b : bool) then Some true else MatchesExtension exts ext end.
Definition ini_extensions : list (list Z) := [CBuffer.str "ini"; CBuffer.str "cfg"; CBuffer.str "conf"].
Definition json_extensions : list (list Z) := [CBuffer.str "json"].
Definition yaml_extensions : list (list Z) := [CBuffer.str "yaml"; CBuffer.str "yml"].
Definition toml_extensions : list (list Z) := [CBuffer.str "toml"].
(** A backend that is not compiled in. *)
Definition disabled (f : ConfigFormat) (exts : list (list Z)) : Backend := mkBackend f exts (fun s => Some (Some kFormatNotSupported, s)) (fun _ _ s => Some (Some kFormatNotSupported, s)).

(** What follows the last dot; [dot]: what follows the last one so far. *)
Fixpoint extension_loop (p : list Z) (dot : option (list Z)) : option (list Z) := match p with [] => dot | c :: p => extension_loop p (if c =? 46 then Some p else dot) end.
Definition GetExtension (path : list Z) : option (list Z) := extension_loop (c_str path) None.
Fixpoint DetectExt (head : ConfigFormat) (backends : list Backend) (ext : list Z) : option ConfigFormat :=
  match backends with [] => Some head | b :: backends => m ← MatchesExtension (extensions b) ext; if (m : bool) then Some (kFormat b) else DetectExt head backends ext end.
Definition DetectFormat (backends : list Backend) (path : list Z) : option ConfigFormat :=
  head ← list.head backends; match GetExtension path with None => Some (kFormat head) | Some ext => DetectExt (kFormat head) backends ext end.
Fixpoint DispatchFile (backends : list Backend) (format : ConfigFormat) (s : ConfigStore) : Outcome :=
  match backends with [] => Some (Some kFormatNotSupported, s) | b :: backends => if bool_decide (kFormat b = format) then ParseFile b s else DispatchFile backends format s end.
Fixpoint DispatchBuffer (backends : list Backend) (data : list Z) (size : nat) (format : ConfigFormat) (s : ConfigStore) : Outcome :=
  match backends with [] => Some (Some kFormatNotSupported, s) | b :: backends => if bool_decide (kFormat b = format) then ParseBuffer b data size s else DispatchBuffer backends data size format s end.
Definition LoadFile (backends : list Backend) (path : list Z) (format : ConfigFormat) (s : ConfigStore) : Outcome :=
  format ← (if bool_decide (format = kAuto) then DetectFormat backends path else Some format); DispatchFile backends format s.
Definition LoadBuffer (backends : list Backend) (data : list Z) (size : nat) (format : ConfigFormat) (s : ConfigStore) : Outcome := DispatchBuffer backends data size format s.

(** ** Strings *)

Lemma cstr_zstr s : cstr (zstr s) = Some (c_str s).
Proof. induction s as [|c s IH]; [done|]. rewrite /zstr /=. destruct (c =? 0); [done|]. rewrite -/(zstr s) IH //. Qed.
Lemma c_str_text s : text (c_str s).
Proof. eapply cstr_text, cstr_zstr. Qed.
Lemma lower_zero c : lower c = 0 -> c = 0.
Proof. rewrite /lower. destruct (Z.leb_spec 65 c), (Z.leb_spec c 90); simpl; lia. Qed.
Lemma StrCaseEqual_spec a b s t : cstr a = Some s -> cstr b = Some t -> StrCaseEqual a b = Some (bool_decide (lower <$> s = lower <$> t)).
Proof.
  revert b s t. induction a as [|x a IH] => -[|y b] s t //=. destruct (Z.eqb_spec x 0) as [->|Hx].
  - move=> [<-]. destruct (Z.eqb_spec y 0) as [->|Hy]; [by move=> [<-]|]. destruct (cstr b); [|done]. move=> [<-] /=. destruct (Z.eqb_spec 0 y); [lia|]. done.
  - destruct (cstr a) as [s'|] eqn:Ha; [|done]. move=> [<-]. destruct (Z.eqb_spec y 0) as [->|Hy].
    + move=> [<-] /=. destruct (Z.eqb_spec x 0); [lia|]. done.
    + destruct (cstr b) as [t'|] eqn:Hb; [|done]. move=> [<-] /=. destruct (Z.eqb_spec (lower x) (lower y)) as [E|E]; simpl.
      * rewrite (IH b s' t') //. congr Some. apply bool_decide_ext. split; [intros H; exact (f_equal2 cons E H)|by intros [= ?]].
      * rewrite bool_decide_eq_false_2 //. by intros [= ? ?].
Qed.
Lemma cchar_c_str s i : (i <= length (c_str s))%nat -> cchar s i = cchar (c_str s) i.
Proof.
  revert i. induction s as [|c s IH] => i //=. destruct (Z.eqb_spec c 0) as [->|Hc]; simpl; [|destruct i; [done|intros; apply IH; lia]].
  intros Hi. by replace i with O by lia.
Qed.
Lemma fill_loop_c_str cap fuel i s b : (i <= length (c_str s))%nat -> FixedString.fill_loop cap fuel i s b = FixedString.fill_loop cap fuel i (c_str s) b.
Proof.
  revert i b. induction fuel as [|fuel IH] => i b Hi //=. destruct (i <? cap)%nat; [|done]. rewrite cchar_c_str //.
  destruct (cchar (c_str s) i) as [c|] eqn:E; [|done]. simpl. destruct (Z.eqb_spec c 0); [done|]. destruct (bput b (Z.of_nat i) c); [|done]. simpl. apply IH.
  destruct (decide (i = length (c_str s))) as [->|]; [rewrite cchar_end in E; simplify_eq|lia].
Qed.
(** A copy is truncated to the room for it, and always terminated. *)
Definition copied (n : nat) (src : option (list Z)) : list Z := match src with Some s => take n (c_str s) | None => [] end.
Lemma SafeCopy_spec n dst src : length dst = S n -> exists b, SafeCopy (S n) dst src = Some b /\ length b = S n /\ cstr b = Some (copied n src).
Proof.
  intros Hl. destruct src as [s|]; rewrite /SafeCopy /copied.
  - replace (S n - 1)%nat with n by lia. rewrite fill_loop_c_str; [|lia]. destruct (FixedString.fill_loop_copies n (S n) [] (c_str s) dst) as (r & E & Hr); [simpl; lia|done|apply c_str_text|].
    change (fun x : list Z => [] ++ x) with (fun x : list Z => x) in E. rewrite Nat.sub_0_r in E Hr. rewrite !app_nil_l in E Hr. rewrite E. cbn [mbind option_bind]. destruct r as [|x r].
    { rewrite /= length_take in Hr. lia. }
    rewrite bput_app //. eexists. split; [done|]. split; [move: Hr; rewrite length_app /=; lia|]. apply cstr_app. apply Forall_take, c_str_text.
  - destruct dst as [|x dst]; [done|]. rewrite /bput /=. eexists. split; [done|]. by split.
Qed.

Lemma copy_value dst src : length dst = kMaxValueLen -> exists b, SafeCopy kMaxValueLen dst src = Some b /\ length b = kMaxValueLen /\ cstr b = Some (copied (kMaxValueLen - 1) src).
Proof. exact (SafeCopy_spec 255 dst src). Qed.
Lemma copy_key dst src : length dst = kMaxKeyLen -> exists b, SafeCopy kMaxKeyLen dst src = Some b /\ length b = kMaxKeyLen /\ cstr b = Some (copied (kMaxKeyLen - 1) src).
Proof. exact (SafeCopy_spec 63 dst src). Qed.

(** ** The store as a list of entries *)

Definition Item : Type := list Z * list Z * list Z.
Definition entry_is (e : Entry) (x : Item) : Prop := cstr (section e) = Some x.1.1 /\ cstr (key e) = Some x.1.2 /\ cstr (value e) = Some x.2.
Definition entry_sized (e : Entry) : Prop := length (section e) = kMaxKeyLen /\ length (key e) = kMaxKeyLen /\ length (value e) = kMaxValueLen.
Definition store_is (s : ConfigStore) (L : list Item) : Prop :=
  length (entries_ s) = kMaxEntries /\ Forall entry_sized (entries_ s) /\ count_ s = length L /\ (length L <= kMaxEntries)%nat
  /\ forall i x, L !! i = Some x -> exists e, entries_ s !! i = Some e /\ entry_is e x.
(** Keys without their case. *)
Abbreviation Key := (list Z * list Z)%type.
Definition fold_key (sec k : list Z) : Key := (lower <$> c_str sec, lower <$> c_str k).
Definition item_key (x : Item) : Key := (lower <$> x.1.1, lower <$> x.1.2).

Lemma entry_matches_spec sec k e x : entry_is e x -> entry_matches sec k e = Some (bool_decide (item_key x = fold_key sec k)).
Proof.
  intros (Hs & Hk & _). rewrite /entry_matches (StrCaseEqual_spec _ _ _ _ Hs (cstr_zstr sec)). cbn [mbind option_bind].
  case_bool_decide as E; [rewrite (StrCaseEqual_spec _ _ _ _ Hk (cstr_zstr k)); congr Some; apply bool_decide_ext|congr Some; symmetry; apply bool_decide_eq_false_2].
  - rewrite /item_key /fold_key E. split; [by intros ->|by intros [= ?]].
  - by intros [= ? ?].
Qed.
Lemma find_loop_spec sec k s L1 L2 : store_is s (L1 ++ L2) ->
  find_loop (length L2) (length L1) sec k s = Some ((fun p => (length L1 + p.1)%nat) <$> list_find (fun x => item_key x = fold_key sec k) L2).
Proof.
  revert L1. induction L2 as [|x L2 IH] => L1 Hs //=. destruct Hs as (Hl & Hz & Hc & Hm & He) eqn:Hs'.
  destruct (He (length L1) x) as (e & Hle & Hx); [by rewrite list_lookup_middle|]. rewrite Hle /= (entry_matches_spec _ _ _ _ Hx) /=.
  case_bool_decide as E; [rewrite decide_True //|rewrite decide_False //].
  - by rewrite /= Nat.add_0_r.
  - replace (S (length L1)) with (length (L1 ++ [x])) by (rewrite length_app /=; lia). rewrite IH -?app_assoc; [|by rewrite /store_is].
    congr Some. destruct (list_find _ L2) as [[i y]|]; [|done]. rewrite /= length_app /=. congr Some. lia.
Qed.
Lemma find_all sec k s L : store_is s L -> find_loop (count_ s) 0 sec k s = Some (fst <$> list_find (fun x => item_key x = fold_key sec k) L).
Proof.
  intros Hs. have -> : count_ s = length L by destruct Hs as (_ & _ & ? & _). rewrite (find_loop_spec sec k s [] L Hs) /=. by destruct (list_find _ L) as [[]|].
Qed.
Lemma has_section_spec sec s L1 L2 : store_is s (L1 ++ L2) -> has_section_loop (length L2) (length L1) sec s = Some (bool_decide (Exists (fun x => (item_key x).1 = (fold_key sec []).1) L2)).
Proof.
  revert L1. induction L2 as [|x L2 IH] => L1 Hs /=. { done. }
  destruct (proj2 (proj2 (proj2 (proj2 Hs))) (length L1) x) as (e & Hle & Hx & _); [by rewrite list_lookup_middle|].
  rewrite Hle /= (StrCaseEqual_spec _ _ _ _ Hx (cstr_zstr sec)) /=. destruct (decide (lower <$> x.1.1 = lower <$> c_str sec)) as [E|E]; [rewrite (bool_decide_eq_true_2 _ E)|rewrite (bool_decide_eq_false_2 _ E)].
  - congr Some. symmetry. apply bool_decide_eq_true_2. by left.
  - replace (S (length L1)) with (length (L1 ++ [x])) by (rewrite length_app /=; lia). rewrite IH -?app_assoc //. congr Some. apply bool_decide_ext. rewrite Exists_cons. naive_solver.
Qed.
Lemma foreach_spec s L1 L2 : store_is s (L1 ++ L2) -> foreach_loop (length L2) (length L1) s = Some L2.
Proof.
  revert L1. induction L2 as [|x L2 IH] => L1 Hs //=. destruct (proj2 (proj2 (proj2 (proj2 Hs))) (length L1) x) as (e & Hle & Hx & Hy & Hz); [by rewrite list_lookup_middle|].
  rewrite Hle /= Hx /= Hy /= Hz /=. replace (S (length L1)) with (length (L1 ++ [x])) by (rewrite length_app /=; lia). rewrite IH -?app_assoc //=. by destruct x as [[]].
Qed.

(** Writing the value of an entry, and a new entry behind the others. *)
Definition text_of (v : option (list Z)) : list Z := copied (kMaxValueLen - 1) v.
Definition key_text (s : list Z) : list Z := copied (kMaxKeyLen - 1) (Some s).
Lemma store_update s L i x e b v : store_is s L -> L !! i = Some x -> entries_ s !! i = Some e -> length b = kMaxValueLen -> cstr b = Some v ->
  store_is (mkStore (<[i := mkEntry (section e) (key e) b]> (entries_ s)) (count_ s)) (<[i := (x.1, v)]> L).
Proof.
  intros (Hl & Hz & Hc & Hm & He) Hi Hie Hb Hv. rewrite /store_is /= !length_insert. split_and!; [done| |done|done|].
  - apply Forall_insert; [done|]. destruct (Forall_lookup_1 _ _ _ _ Hz Hie) as (? & ? & ?). by split_and!.
  - intros j y. destruct (decide (i = j)) as [<-|Hne].
    + rewrite list_lookup_insert_eq; [|by eapply lookup_lt_Some]. intros [= <-]. eexists. split; [apply list_lookup_insert_eq; by eapply lookup_lt_Some|].
      destruct (He i x Hi) as (e' & He' & Hx). simplify_eq. destruct Hx as (? & ? & _). by split_and!.
    + rewrite !list_lookup_insert_ne //. apply He.
Qed.
Lemma store_append s L e x : store_is s L -> (length L < kMaxEntries)%nat -> entry_sized e -> entry_is e x ->
  store_is (mkStore (<[length L := e]> (entries_ s)) (S (count_ s))) (L ++ [x]).
Proof.
  intros (Hl & Hz & Hc & Hm & He) Hlt Hes Hx. rewrite /store_is /= length_insert length_app /= Hc. split_and!; [done|by apply Forall_insert|lia|lia|].
  intros j y. destruct (decide (j = length L)) as [->|Hne].
  - rewrite list_lookup_middle //. intros [= <-]. exists e. split; [|done]. apply list_lookup_insert_eq. lia.
  - intros Hj. rewrite list_lookup_insert_ne //. apply He. apply lookup_app_Some in Hj as [?|[Hge Hj]]; [done|].
    destruct (j - length L)%nat as [|n] eqn:E; [lia|done].
Qed.
(** AddEntry on the list. *)
Definition add_item (sec k : list Z) (v : option (list Z)) (L : list Item) : bool * list Item :=
  match list_find (fun x => item_key x = fold_key sec k) L with
  | Some (i, x) => (true, <[i := (x.1, text_of v)]> L)
  | None => if (kMaxEntries <=? length L)%nat then (false, L) else (true, L ++ [(key_text sec, key_text k, text_of v)])
  end.
Lemma AddEntry_spec sec k v s L : store_is s L -> exists s', AddEntry sec k v s = Some ((add_item sec k v L).1, s') /\ store_is s' (add_item sec k v L).2.
Proof.
  intros Hs. rewrite /AddEntry (find_all _ _ _ _ Hs) /add_item. destruct (list_find _ L) as [[i x]|] eqn:Hf; cbn [fmap option_fmap option_map mbind option_bind fst snd].
  - apply list_find_Some in Hf as (Hi & _). pose proof Hs as (Hl & Hz & Hc & Hm & He). destruct (He i x Hi) as (e & Hie & Hx). rewrite Hie. cbn [mbind option_bind].
    destruct (Forall_lookup_1 _ _ _ _ Hz Hie) as (_ & _ & Hv). destruct (copy_value (value e) v Hv) as (b & -> & Hb & Ht). eexists. split; [done|]. by eapply store_update.
  - pose proof Hs as (Hl & Hz & Hc & Hm & He). rewrite Hc. destruct (Nat.leb_spec kMaxEntries (length L)) as [|Hlt]; [by exists s|].
    destruct (lookup_lt_is_Some_2 (entries_ s) (length L)) as [e Hie]; [lia|]. rewrite Hie. cbn [mbind option_bind]. destruct (Forall_lookup_1 _ _ _ _ Hz Hie) as (Z1 & Z2 & Z3).
    destruct (copy_key (section e) (Some sec) Z1) as (b1 & -> & B1 & T1). destruct (copy_key (key e) (Some k) Z2) as (b2 & -> & B2 & T2).
    destruct (copy_value (value e) v Z3) as (b3 & -> & B3 & T3). cbn [mbind option_bind]. eexists. split; [done|]. rewrite -Hc. rewrite {1}Hc.
    apply store_append; [done|done|by split_and!|by split_and!].
Qed.

(** ** The specification: a finite map *)

(** The first of equal keys counts. *)
Definition as_map (L : list Item) : gmap Key (list Z) := foldr (fun x m => <[item_key x := x.2]> m) ∅ L.
Lemma as_map_lookup L k : as_map L !! k = (fun p => p.2.2) <$> list_find (fun x => item_key x = k) L.
Proof.
  induction L as [|x L IH]; [apply lookup_empty|]. rewrite /= -/(as_map L). case_decide as E.
  - rewrite E. apply lookup_insert_eq.
  - rewrite lookup_insert_ne // IH. by destruct (list_find _ L) as [[]|].
Qed.
Lemma as_map_update L i x v : list_find (fun y => item_key y = item_key x) L = Some (i, x) -> as_map (<[i := (x.1, v)]> L) = <[item_key x := v]> (as_map L).
Proof.
  revert i. induction L as [|y L IH] => i //=. case_decide as E.
  - intros ?. simplify_eq. by rewrite /= insert_insert_eq.
  - destruct (list_find _ L) as [[j z]|] eqn:Hf; [|done]. intros ?. simplify_eq/=. rewrite IH //. by rewrite insert_insert_ne.
Qed.
Lemma as_map_append L x : as_map (L ++ [x]) = match as_map L !! item_key x with Some _ => as_map L | None => <[item_key x := x.2]> (as_map L) end.
Proof.
  induction L as [|y L IH]; [by rewrite /= lookup_empty|]. rewrite /= -/(as_map _) IH. destruct (decide (item_key y = item_key x)) as [E|E].
  - rewrite E lookup_insert_eq. destruct (as_map L !! item_key x); [done|]. by rewrite insert_insert_eq.
  - rewrite lookup_insert_ne //. destruct (as_map L !! item_key x); [done|]. by rewrite insert_insert_ne.
Qed.

(** The map, and the number of entries: an entry whose key had to be cut is not found
    again under that key, so every setting of it takes a new entry. *)
Record ConfigSpec := mkSpec { entries : gmap Key (list Z); used : nat }.
Definition spec_set (sec k : list Z) (v : option (list Z)) (c : ConfigSpec) : bool * ConfigSpec :=
  match entries c !! fold_key sec k with
  | Some _ => (true, mkSpec (<[fold_key sec k := text_of v]> (entries c)) (used c))
  | None =>
    if (kMaxEntries <=? used c)%nat then (false, c)
    else
      let cut := fold_key (key_text sec) (key_text k) in
      (true, mkSpec (match entries c !! cut with Some _ => entries c | None => <[cut := text_of v]> (entries c) end) (S (used c)))
  end.
Fixpoint spec_load (l : list (list Z * list Z * option (list Z))) (c : ConfigSpec) : bool * ConfigSpec :=
  match l with [] => (true, c) | (sec, k, v) :: l => let '(ok, c) := spec_set sec k v c in if ok then spec_load l c else (false, c) end.

(** Calls of the store's users, with the load of an INI text. *)
Inductive ConfigOp :=
| OSet (sec k : list Z) (v : option (list Z)) | OLoadIni (content : list Z) | OText (sec k d : list Z) | OInt (sec k : list Z) (d : Z) | OPort (sec k : list Z) (d : Z)
| OBool (sec k : list Z) (d : bool) | OFindInt (sec k : list Z) | OFindBool (sec k : list Z) | OHasSection (sec : list Z) | OHasKey (sec k : list Z) | OCount.
Inductive ConfigRes := CBool (b : bool) | CText (t : list Z) | CInt (z : Z) | COptInt (o : option Z) | COptBool (o : option bool) | CNum (n : nat) | CErr (e : option ConfigError).
Definition with_result {A} (f : A -> ConfigRes) (r : option A) (s : ConfigStore) : option (ConfigRes * ConfigStore) := x ← r; Some (f x, s).
Definition config_step (o : ConfigOp) (s : ConfigStore) : option (ConfigRes * ConfigStore) :=
  match o with
  | OSet sec k v => '(b, s) ← SetString sec k v s; Some (CBool b, s)
  | OLoadIni content => '(e, s) ← Ini_ParseBuffer (zstr content) (length content) s; Some (CErr e, s)
  | OText sec k d => with_result CText (GetString sec k d s) s
  | OInt sec k d => with_result CInt (GetInt sec k d s) s
  | OPort sec k d => with_result CInt (GetPort sec k d s) s
  | OBool sec k d => with_result CBool (GetBool sec k d s) s
  | OFindInt sec k => with_result COptInt (FindInt sec k s) s
  | OFindBool sec k => with_result COptBool (FindBool sec k s) s
  | OHasSection sec => with_result CBool (HasSection sec s) s
  | OHasKey sec k => with_result CBool (HasKey sec k s) s
  | OCount => Some (CNum (EntryCount s), s)
  end.
Fixpoint config_run (ops : list ConfigOp) (s : ConfigStore) : option (list ConfigRes * ConfigStore) :=
  match ops with [] => Some ([], s) | o :: ops => '(r, s) ← config_step o s; '(rs, s) ← config_run ops s; Some (r :: rs, s) end.

(** The integer that a text begins with, however large: blanks, a sign, and a row of
    decimal digits with their place values. *)
Fixpoint span (p : Z -> bool) (l : list Z) : list Z * list Z :=
  match l with [] => ([], []) | c :: l' => if p c then let '(a, b) := span p l' in (c :: a, b) else ([], l) end.
Fixpoint place_value (ds : list Z) : Z := match ds with [] => 0 | c :: ds => (c - 48) * 10 ^ Z.of_nat (length ds) + place_value ds end.
Definition numeral (t : list Z) : option Z :=
  let u := (span isspace t).2 in
  let '(sign, u) := match u with c :: u' => if c =? 45 then (-1, u') else if c =? 43 then (1, u') else (1, u) | [] => (1, u) end in
  match (span isdigit u).1 with [] => None | ds => Some (sign * place_value ds) end.
(** As an int32 or the default; as a port, cut at both ends; and the low 32 bits of the long
    that is nearest to it. *)
Definition spec_int (d : Z) (t : list Z) : Z := match numeral t with Some v => if bool_decide (- 2 ^ 31 <= v < 2 ^ 31) then v else d | None => d end.
Definition spec_port (d : Z) (t : list Z) : Z := match numeral t with Some v => Z.max 0 (Z.min 65535 v) | None => d end.
Definition as_long (v : Z) : Z := Z.max (- 2 ^ 63) (Z.min (2 ^ 63 - 1) v).
Definition spec_find_int (t : list Z) : option Z := (fun v => (as_long v + 2 ^ 31) mod 2 ^ 32 - 2 ^ 31) <$> numeral t.
(** What counts as true, in any case. *)
Definition truthy (t : list Z) : bool := bool_decide (lower <$> t ∈ CBuffer.str <$> ["true"; "1"; "yes"; "on"]%string).
Definition ini_items (f : list (list Z * list (list Z * list Z))) : list (list Z * list Z * option (list Z)) := x ← f; (fun kv : list Z * list Z => (x.1, kv.1, Some kv.2)) <$> x.2.
Definition spec_step (o : ConfigOp) (c : ConfigSpec) : ConfigRes * ConfigSpec :=
  let get sec k := entries c !! fold_key sec k in
  match o with
  | OSet sec k v => let '(b, c) := spec_set sec k v c in (CBool b, c)
  | OLoadIni content =>
    match Decode str_less default_config (c_str content) with
    | (Some _, _) => (CErr (Some kParseError), c)
    | (None, f) => let '(ok, c) := spec_load (ini_items f) c in (CErr (if ok then None else Some kBufferFull), c)
    end
  | OText sec k d => (CText (default d (get sec k)), c)
  | OInt sec k d => (CInt (from_option (spec_int d) d (get sec k)), c)
  | OPort sec k d => (CInt (from_option (spec_port d) d (get sec k)), c)
  | OBool sec k d => (CBool (from_option truthy d (get sec k)), c)
  | OFindInt sec k => (COptInt (get sec k ≫= spec_find_int), c)
  | OFindBool sec k => (COptBool (truthy <$> get sec k), c)
  | OHasSection sec => (CBool (bool_decide (map_Exists (fun k _ => k.1 = (fold_key sec []).1) (entries c))), c)
  | OHasKey sec k => (CBool (bool_decide (is_Some (get sec k))), c)
  | OCount => (CNum (used c), c)
  end.
Fixpoint spec_run (ops : list ConfigOp) (c : ConfigSpec) : list ConfigRes * ConfigSpec :=
  match ops with [] => ([], c) | o :: ops => let '(r, c) := spec_step o c in let '(rs, c) := spec_run ops c in (r :: rs, c) end.

(** *** The readers *)

Lemma span_eq p l : (span p l).1 ++ (span p l).2 = l.
Proof. induction l as [|c l IH]; [done|]. simpl. destruct (p c); [|done]. destruct (span p l). simpl in *. by rewrite IH. Qed.
Lemma is_white_isspace c : is_white c = isspace c.
Proof.
  rewrite /is_white /isspace. apply eq_true_iff_eq. rewrite bool_decide_eq_true orb_true_iff andb_true_iff Z.eqb_eq !Z.leb_le.
  split; [by intros H; repeat (apply elem_of_cons in H as [->|H]; [lia|]); apply not_elem_of_nil in H|].
  intros H. have : c = 32 \/ c = 9 \/ c = 10 \/ c = 11 \/ c = 12 \/ c = 13 by lia. intros [-> | [-> | [-> | [-> | [-> | ->]]]]]; by apply (bool_decide_unpack _).
Qed.
Lemma skip_space_span s : skip_space s = (span isspace s).2.
Proof. induction s as [|c s IH]; [done|]. rewrite /= is_white_isspace. destruct (isspace c); [|done]. rewrite IH. by destruct (span isspace s). Qed.
Lemma digit_of_10 c : digit_of 10 c = if isdigit c then Some (c - 48) else None.
Proof.
  rewrite /digit_of -/(isdigit c). cbv zeta. destruct (isdigit c) eqn:E; [|destruct (_ && _) eqn:E2; [|done]].
  - rewrite (proj2 (Z.ltb_lt (c - 48) 10)) //. move: E. rewrite /isdigit andb_true_iff !Z.leb_le. lia.
  - rewrite (proj2 (Z.ltb_ge (tolower c - 87) 10)) //. move: E2. rewrite andb_true_iff !Z.leb_le. lia.
Qed.
Lemma digits_span s acc : digits 10 s acc = (acc * 10 ^ Z.of_nat (length (span isdigit s).1) + place_value (span isdigit s).1, (span isdigit s).2).
Proof.
  revert acc. induction s as [|c s IH] => acc; [rewrite /=; f_equal; lia|]. rewrite /= digit_of_10. destruct (isdigit c); [|rewrite /=; f_equal; lia].
  rewrite IH. destruct (span isdigit s) as [ds rest]. cbn [fst snd length place_value]. rewrite Nat2Z.inj_succ Z.pow_succ_r; [|lia]. f_equal. lia.
Qed.
Lemma strip_0x_10 s : strip_0x 10 s = s.
Proof. by destruct s as [|? [|? [|]]]. Qed.
Lemma strtol_numeral t : strtol t = match numeral t with Some v => (as_long v, true) | None => (0, false) end.
Proof.
  rewrite /strtol /strtol_base /parse_number /numeral skip_space_span. pose proof (f_equal length (span_eq isspace t)) as L. rewrite length_app in L.
  set (u := (span isspace t).2) in *. set (r := match u with [] => _ | _ => _ end). set (r' := match u with [] => _ | _ => _ end).
  have Hr : r' = (if r.1 then -1 else 1, r.2) /\ (length r.2 <= length t)%nat.
  { rewrite /r /r'. destruct u as [|c u]; [simpl; split; [done|lia]|]. simpl in L. destruct (c =? 45), (c =? 43); simpl; split; (done || lia). }
  destruct r as [neg w], Hr as [-> Hw]. cbn [fst snd] in Hw |- *. rewrite strip_0x_10 digits_span. pose proof (f_equal length (span_eq isdigit w)) as Lw. rewrite length_app in Lw.
  destruct w as [|c w]; [by rewrite Nat.eqb_refl|]. rewrite digit_of_10. destruct (isdigit c) eqn:Hc; [|by rewrite /= Hc Nat.eqb_refl].
  move: Lw. simpl. rewrite Hc. destruct (span isdigit w) as [ds rest]. cbn [fst snd length]. intros Lw.
  have -> : (length rest =? length t)%nat = false by (apply Nat.eqb_neq; simpl in Hw; lia).
  rewrite /as_long /LONG_MAX. f_equal. rewrite Z.mul_0_l Z.add_0_l -/(place_value (c :: ds)). generalize (place_value (c :: ds)). clear. intros v. destruct neg; repeat match goal with |- context [Z.ltb ?a ?b] => destruct (Z.ltb_spec a b) end; lia.
Qed.
Lemma read_int_spec d t : read_int d t = spec_int d t.
Proof.
  rewrite /read_int /spec_int strtol_numeral. destruct (numeral t) as [v|]; [|done]. rewrite /INT32_MIN /INT32_MAX /as_long /=.
  destruct (Z.ltb_spec (Z.max (- 2 ^ 63) (Z.min (2 ^ 63 - 1) v)) (- 2 ^ 31)), (Z.ltb_spec (2 ^ 31 - 1) (Z.max (- 2 ^ 63) (Z.min (2 ^ 63 - 1) v))); cbn [orb]; case_bool_decide; try lia; try done.
  rewrite signed_small; lia.
Qed.
Lemma read_port_spec d t : read_port d t = spec_port d t.
Proof.
  rewrite /read_port /spec_port strtol_numeral. destruct (numeral t) as [v|]; [|done]. rewrite /as_long /=.
  destruct (Z.ltb_spec (Z.max (- 2 ^ 63) (Z.min (2 ^ 63 - 1) v)) 0); [lia|]. destruct (Z.ltb_spec 65535 (Z.max (- 2 ^ 63) (Z.min (2 ^ 63 - 1) v))); [lia|]. rewrite wrap_small; [lia|split; lia].
Qed.
Lemma read_opt_int_spec t : read_opt_int t = spec_find_int t.
Proof.
  rewrite /read_opt_int /spec_find_int strtol_numeral. destruct (numeral t) as [v|]; [|done]. cbn [fmap option_fmap option_map]. f_equal. generalize (as_long v). clear. intros z.
  rewrite /signed /wrap. change (2 ^ (32 - 1)) with (2 ^ 31). pose proof (Z.mod_pos_bound z (2 ^ 32) ltac:(lia)). pose proof (Z.div_mod z (2 ^ 32) ltac:(lia)) as D.
  set (r := z mod 2 ^ 32) in *. set (q := z / 2 ^ 32) in *. clearbody r q. subst z. destruct (Z.ltb_spec r (2 ^ 31)).
  - replace (2 ^ 32 * q + r + 2 ^ 31) with (r + 2 ^ 31 + q * 2 ^ 32) by lia. rewrite Z.mod_add; [|lia]. rewrite Z.mod_small; lia.
  - replace (2 ^ 32 * q + r + 2 ^ 31) with (r - 2 ^ 31 + (q + 1) * 2 ^ 32) by lia. rewrite Z.mod_add; [|lia]. rewrite Z.mod_small; lia.
Qed.

(** *** Refinement *)

Definition spec_of (L : list Item) : ConfigSpec := mkSpec (as_map L) (length L).
Lemma fold_key_cut sec k : item_key (key_text sec, key_text k, []) = fold_key (key_text sec) (key_text k).
Proof. rewrite /fold_key /item_key /= !Ini.c_str_id //; apply Forall_take, c_str_text. Qed.
Lemma add_item_spec sec k v L : spec_set sec k v (spec_of L) = ((add_item sec k v L).1, spec_of (add_item sec k v L).2).
Proof.
  rewrite /spec_set /add_item. cbn [spec_of entries used]. rewrite as_map_lookup. destruct (list_find _ L) as [[i x]|] eqn:Hf; cbn [fmap option_fmap option_map fst snd].
  - pose proof Hf as (_ & Hx & _)%list_find_Some. rewrite /spec_of length_insert -Hx as_map_update //. by rewrite Hx.
  - destruct (kMaxEntries <=? length L)%nat; [done|]. rewrite /spec_of as_map_append length_app Nat.add_1_r.
    change (item_key (key_text sec, key_text k, text_of v)) with (item_key (key_text sec, key_text k, [])). by rewrite fold_key_cut.
Qed.
Lemma getter_spec {A} (found : list Z -> option A) (d : A) (f : list Z -> A) sec k s L : store_is s L -> (forall v t, cstr v = Some t -> found v = Some (f t)) ->
  getter found d sec k s = Some (from_option f d (as_map L !! fold_key sec k)).
Proof.
  intros Hs Hf. rewrite /getter /FindEntry (find_all _ _ _ _ Hs) as_map_lookup. destruct (list_find _ L) as [[i x]|] eqn:E; [|done].
  apply list_find_Some in E as (Hi & _). destruct (proj2 (proj2 (proj2 (proj2 Hs))) i x Hi) as (e & He & _ & _ & Hv). cbn. rewrite He /=. by apply Hf.
Qed.
Lemma ParseBool_spec v t : cstr v = Some t -> ParseBool v = Some (truthy t).
Proof.
  intros Hv. have E : forall l, text l -> lower <$> l = l -> StrCaseEqual v (zstr l) = Some (bool_decide (lower <$> t = l)).
  { intros l Hl Hlow. rewrite (StrCaseEqual_spec _ _ _ _ Hv (cstr_zstr l)) Ini.c_str_id // Hlow //. }
  rewrite /ParseBool /truthy !E; try (by apply (bool_decide_unpack _); vm_compute). cbn [mbind option_bind].
  repeat case_bool_decide; try done; exfalso; set_solver.
Qed.
Lemma AddEntry_refines sec k v s L : store_is s L -> exists s' L', AddEntry sec k v s = Some ((spec_set sec k v (spec_of L)).1, s') /\ store_is s' L' /\ (spec_set sec k v (spec_of L)).2 = spec_of L'.
Proof. intros Hs. destruct (AddEntry_spec sec k v s L Hs) as (s' & E & Hs'). rewrite add_item_spec. by exists s', (add_item sec k v L).2. Qed.
Lemma spec_load_app l1 l2 c : spec_load (l1 ++ l2) c = let '(ok, c) := spec_load l1 c in if ok then spec_load l2 c else (false, c).
Proof. revert c. induction l1 as [|[[sec k] v] l1 IH] => c //=. destruct (spec_set sec k v c) as [[] c']; [apply IH|done]. Qed.
Lemma add_fields_refines sec l s L : store_is s L ->
  let r := spec_load ((fun kv : list Z * option (list Z) => (sec, kv.1, kv.2)) <$> l) (spec_of L) in exists s' L', add_fields sec l s = Some (r.1, s') /\ store_is s' L' /\ r.2 = spec_of L'.
Proof.
  revert s L. induction l as [|[k v] l IH] => s L Hs; [by exists s, L|]. destruct (AddEntry_refines sec k v s L Hs) as (s' & L' & E & Hs' & Hc). rewrite /= E /=.
  destruct (spec_set sec k v (spec_of L)) as [ok c]. simpl in Hc |- *. subst c. destruct ok; [by apply IH|by exists s', L'].
Qed.
Lemma add_sections_refines l s L : store_is s L ->
  let r := spec_load (x ← l; (fun kv : list Z * option (list Z) => (x.1, kv.1, kv.2)) <$> x.2) (spec_of L) in exists s' L', add_sections l s = Some (r.1, s') /\ store_is s' L' /\ r.2 = spec_of L'.
Proof.
  revert s L. induction l as [|[sec fs] l IH] => s L Hs; [by exists s, L|]. destruct (add_fields_refines sec fs s L Hs) as (s' & L' & E & Hs' & Hc).
  cbn [mbind list_bind fst snd]. rewrite spec_load_app. cbn [add_sections]. rewrite E. cbn [mbind option_bind].
  destruct (spec_load ((fun kv : list Z * option (list Z) => (sec, kv.1, kv.2)) <$> fs) (spec_of L)) as [ok c]. simpl in Hc |- *. subst c. destruct ok; [by apply IH|by exists s', L'].
Qed.
Lemma ini_items_sections f :
  (x ← ini_sections f; (fun kv : list Z * option (list Z) => (x.1, kv.1, kv.2)) <$> x.2) = ini_items f.
Proof.
  induction f as [|[sec fs] f IH]; [done|]. rewrite /ini_items /ini_sections. cbn [fmap list_fmap mbind list_bind fst snd]. f_equal; [|exact IH]. rewrite -list_fmap_compose. by apply list_fmap_ext.
Qed.
Lemma has_section_map L (P : Key -> Prop) `{!forall k, Decision (P k)} : Exists (fun x => P (item_key x)) L <-> map_Exists (fun k _ => P k) (as_map L).
Proof.
  split.
  - intros (x & Hx & HP)%Exists_exists. destruct (as_map L !! item_key x) as [v|] eqn:E; [by exists (item_key x), v|]. exfalso. move: E. rewrite as_map_lookup.
    destruct (list_find (fun y => item_key y = item_key x) L) eqn:E; [done|]. apply list_find_None in E. rewrite Forall_forall in E. intros _. by eapply E.
  - intros (k & v & Hk & HP). move: Hk. rewrite as_map_lookup. destruct (list_find _ L) as [[i x]|] eqn:E; [|done]. intros _.
    apply list_find_Some in E as (Hi & Hx & _). apply Exists_exists. exists x. split; [by eapply list_elem_of_lookup_2|by rewrite Hx].
Qed.

Lemma config_step_refines o s L : store_is s L -> exists s' L', config_step o s = Some ((spec_step o (spec_of L)).1, s') /\ store_is s' L' /\ (spec_step o (spec_of L)).2 = spec_of L'.
Proof.
  intros Hs. destruct o; rewrite /config_step /spec_step; cbn [entries used spec_of].
  - destruct (AddEntry_refines sec k v s L Hs) as (s' & L' & E & Hs' & Hc). rewrite /SetString E. exists s', L'. by destruct (spec_set sec k v _).
  - rewrite /Ini_ParseBuffer cstr_zstr /= /store_ini. destruct (Decode str_less default_config (c_str content)) as [[e|] f]; [by exists s, L|].
    destruct (add_sections_refines (ini_sections f) s L Hs) as (s' & L' & E & Hs' & Hc). rewrite E /=. rewrite ini_items_sections in Hc |- *. exists s', L'. by destruct (spec_load (ini_items f) _).
  - rewrite /GetString (getter_spec _ _ id _ _ _ _ Hs) //=. exists s, L. split; [|done]. by destruct (as_map L !! _).
  - rewrite /GetInt (getter_spec _ _ (spec_int d) _ _ _ _ Hs); [by exists s, L|]. intros v t ->. by rewrite -read_int_spec.
  - rewrite /GetPort (getter_spec _ _ (spec_port d) _ _ _ _ Hs); [by exists s, L|]. intros v t ->. by rewrite -read_port_spec.
  - rewrite /GetBool (getter_spec _ _ truthy _ _ _ _ Hs); [by exists s, L|]. exact ParseBool_spec.
  - rewrite /FindInt (getter_spec _ _ spec_find_int _ _ _ _ Hs); [|intros v t ->; by rewrite -read_opt_int_spec]. exists s, L. split; [|done]. by destruct (as_map L !! _).
  - rewrite /FindBool (getter_spec _ _ (fun t => Some (truthy t)) _ _ _ _ Hs); [|by intros v t ->%ParseBool_spec]. exists s, L. split; [|done]. by destruct (as_map L !! _).
  - rewrite /HasSection. have -> : count_ s = length L by destruct Hs as (_ & _ & ? & _). rewrite (has_section_spec sec s [] L Hs). exists s, L. split; [|done]. cbn. congr (Some (CBool _, _)).
    apply bool_decide_ext. apply (has_section_map L (fun k => k.1 = (fold_key sec []).1)).
  - rewrite /HasKey /FindEntry (find_all _ _ _ _ Hs) as_map_lookup. exists s, L. split; [|done]. destruct (list_find _ L) as [[i x]|] eqn:E; [|done].
    apply list_find_Some in E as (Hi & _). destruct (proj2 (proj2 (proj2 (proj2 Hs))) i x Hi) as (e & He & _). cbn. by rewrite He.
  - exists s, L. split; [|done]. destruct Hs as (_ & _ & E & _). by rewrite /EntryCount E.
Qed.
Lemma config_run_refines ops s L : store_is s L -> exists s' L', config_run ops s = Some ((spec_run ops (spec_of L)).1, s') /\ store_is s' L' /\ (spec_run ops (spec_of L)).2 = spec_of L'.
Proof.
  revert s L. induction ops as [|o ops IH] => s L Hs; [by exists s, L|]. destruct (config_step_refines o s L Hs) as (s1 & L1 & E & Hs1 & Hc). cbn [config_run spec_run].
  destruct (spec_step o (spec_of L)) as [r c]. simpl in E, Hc. subst c. rewrite E. cbn [mbind option_bind]. destruct (IH s1 L1 Hs1) as (s2 & L2 & E2 & Hs2 & Hc2). rewrite E2.
  exists s2, L2. by destruct (spec_run ops (spec_of L1)).
Qed.

(** C32. The configuration store is a bounded map from section and key, in any case, to
    values cut to 255 characters: every call - setting, loading an INI text with its errors,
    the typed getters with their defaults, ranges and cuts, the queries - returns what the
    map returns, and no access leaves the arrays, whatever the uninitialised memory holds.
    The map is keyed by names of at most 63 characters: a longer section or key is never
    found, and every setting of it takes another entry, which only the cut name reaches
    ([long_key_never_found]); [spec_set] says so.  The visitor sees entries that make up
    the map. *)
Theorem config_store_refines_map ops memory : length memory = kMaxEntries -> Forall entry_sized memory ->
  exists s L, config_run ops (ConfigStore_ctor memory) = Some ((spec_run ops (mkSpec ∅ 0)).1, s)
    /\ ForEach s = Some L /\ (spec_run ops (mkSpec ∅ 0)).2 = mkSpec (as_map L) (length L).
Proof.
  intros Hl Hz. destruct (config_run_refines ops (ConfigStore_ctor memory) []) as (s & L & E & Hs & Hc); [by split_and!; simpl; [..|lia|]|].
  exists s, L. split; [exact E|]. split; [|exact Hc]. rewrite /ForEach. have -> : count_ s = length L by destruct Hs as (_ & _ & ? & _). exact (foreach_spec s [] L Hs).
Qed.

(** Memory full of the byte 170, without a terminator anywhere. *)
Definition garbage : list Entry := replicate kMaxEntries (mkEntry (replicate kMaxKeyLen 170) (replicate kMaxKeyLen 170) (replicate kMaxValueLen 170)).
Lemma garbage_sized : Forall entry_sized garbage.
Proof. apply Forall_replicate. by split_and!. Qed.
(** A session: an INI text with two spellings of a key, typed reads, and a change. *)
Definition demo_ops : list ConfigOp :=
  [OLoadIni (CBuffer.str "[net]" ++ [10] ++ CBuffer.str "Port=70000" ++ [10] ++ CBuffer.str "host = a#b" ++ [10]); OInt (CBuffer.str "NET") (CBuffer.str "port") 1; OPort (CBuffer.str "net") (CBuffer.str "PORT") 1;
   OText (CBuffer.str "net") (CBuffer.str "host") []; OSet (CBuffer.str "net") (CBuffer.str "up") (Some (CBuffer.str "Yes")); OBool (CBuffer.str "Net") (CBuffer.str "Up") false; OHasSection (CBuffer.str "nEt"); OFindInt (CBuffer.str "net") (CBuffer.str "host"); OCount].
Lemma config_store_refines_map_witness :
  (spec_run demo_ops (mkSpec ∅ 0)).1 = [CErr None; CInt 70000; CInt 65535; CText (CBuffer.str "a"); CBool true; CBool true; CBool true; COptInt None; CNum 3]
  /\ exists s L, config_run demo_ops (ConfigStore_ctor garbage) = Some ((spec_run demo_ops (mkSpec ∅ 0)).1, s)
    /\ ForEach s = Some L /\ (spec_run demo_ops (mkSpec ∅ 0)).2 = mkSpec (as_map L) (length L).
Proof. split; [vm_compute; reflexivity|]. apply (config_store_refines_map demo_ops garbage); [reflexivity|exact garbage_sized]. Defined.

(** ** Behaviours at the limits *)

(** An integer that was stored as text is read back. *)
Lemma read_int_printed v d : - 2 ^ 31 <= v < 2 ^ 31 -> read_int d (Encode_integer v) = v.
Proof.
  intros Hv. have E : strtol (Encode_integer v) = (v, true).
  { rewrite /strtol /strtol_base /Encode_integer. destruct (Z.ltb_spec v 0).
  - rewrite (proj2 (parse_printed (- v) ltac:(lia))). rewrite Z.opp_involutive. rewrite (proj2 (Z.ltb_ge LONG_MAX v)) ?(proj2 (Z.ltb_ge v (- 2 ^ 63))) /LONG_MAX //; lia.
  - rewrite (proj1 (parse_printed v ltac:(lia))). rewrite (proj2 (Z.ltb_ge LONG_MAX v)) ?(proj2 (Z.ltb_ge v (- 2 ^ 63))); [|rewrite /LONG_MAX; lia..].
      destruct (print_digits_head 20 v) as (c & rest & -> & _); [lia..|]. done. }
  rewrite /read_int E /=. rewrite (proj2 (Z.ltb_ge v INT32_MIN)) ?(proj2 (Z.ltb_ge INT32_MAX v)) /INT32_MIN /INT32_MAX; [|lia..]. by apply signed_small.
Qed.
(** A key of 64 characters is stored cut: setting it again makes a second entry, and
    neither is found. *)
Definition long_key : list Z := replicate kMaxKeyLen 107.
Lemma long_key_never_found :
  (spec_run [OSet [115] long_key (Some [49]); OSet [115] long_key (Some [50]); OHasKey [115] long_key; OCount; OText [115] (key_text long_key) []] (mkSpec ∅ 0)).1
  = [CBool true; CBool true; CBool false; CNum 2; CText [49]].
Proof. vm_compute. reflexivity. Qed.
(** FindInt does not check the range that GetInt checks. *)
Lemma find_int_wraps : read_opt_int (CBuffer.str "4294967303") = Some 7 /\ read_int 1 (CBuffer.str "4294967303") = 1.
Proof. split; vm_compute; reflexivity. Qed.
(** A file that does not fit the buffer is read as far as it fits, and so is a file
    whose reading fails: both without an error. *)
Lemma long_file_cut content buf : (2 <= length buf)%nat -> (length buf - 1 < length content)%nat ->
  ReadFileToBuffer (Some [RData (take (length buf - 1) content)]) buf = Some (inr (length buf - 1)%nat, take (length buf - 1) content ++ [0]).
Proof.
  intros Hb Hc. have Hl : length (take (length buf - 1) content) = (length buf - 1)%nat by rewrite length_take; lia.
  set bytes := take (length buf - 1) content in Hl |- *. rewrite /ReadFileToBuffer. cbn [read_loop]. destruct (Nat.leb_spec (length buf - 1) 0); [lia|].
  rewrite Hl Nat.sub_0_r Nat.leb_refl Nat.add_0_l. destruct (Nat.leb_spec 1 (length buf - 1)); [|lia]. cbn [andb]. rewrite take_0 app_nil_l !length_app length_drop Hl. destruct (Nat.leb_spec (length buf - 1 + (length buf - (length buf - 1)) - 1) (length buf - 1)); [|lia].
  cbn [mbind option_bind]. destruct (drop (length buf - 1) buf) as [|x r] eqn:E. { apply (f_equal length) in E. rewrite length_drop /= in E. lia. }
  rewrite bput_app ?Hl //. destruct r as [|y r]; [done|]. apply (f_equal length) in E. rewrite length_drop /= in E. lia.
Qed.
Lemma read_error_unnoticed bytes buf : (1 <= length bytes < length buf - 1)%nat ->
  exists b, ReadFileToBuffer (Some [RData bytes; RError]) buf = Some (inr (length bytes), b) /\ take (length bytes) b = bytes.
Proof.
  intros Hb. rewrite /ReadFileToBuffer. cbn [read_loop]. destruct (Nat.leb_spec (length buf - 1) 0); [lia|]. rewrite Nat.sub_0_r Nat.add_0_l.
  destruct (Nat.leb_spec 1 (length bytes)), (Nat.leb_spec (length bytes) (length buf - 1)); [|lia..]. cbn [andb]. rewrite take_0 app_nil_l !length_app length_drop.
  destruct (Nat.leb_spec (length bytes + (length buf - length bytes) - 1) (length bytes)); [lia|]. cbn [mbind option_bind].
  destruct (drop (length bytes) buf) as [|x r] eqn:E. { apply (f_equal length) in E. rewrite length_drop /= in E. lia. }
  rewrite bput_app //. eexists. split; [done|]. apply take_app_length.
Qed.
(** The first backend of a format is used; without one nothing is loaded. *)
Lemma dispatch_first_backend backends data size format s :
  LoadBuffer backends data size format s =
    match list_find (fun b => kFormat b = format) backends with Some (_, b) => ParseBuffer b data size s | None => Some (Some kFormatNotSupported, s) end.
Proof.
  rewrite /LoadBuffer. induction backends as [|b l IH]; [done|]. rewrite /= IH. case_decide as E; [by rewrite bool_decide_eq_true_2|]. rewrite bool_decide_eq_false_2 //. by destruct (list_find _ l) as [[]|].
Qed.
Definition multi : list Backend := [disabled kIni ini_extensions; disabled kJson json_extensions; disabled kYaml yaml_extensions; disabled kToml toml_extensions].
Lemma detected_formats :
  DetectFormat multi (CBuffer.str "a/b.d/app.YML") = Some kYaml /\ DetectFormat multi (CBuffer.str "app") = Some kIni /\ DetectFormat multi (CBuffer.str "app.tar") = Some kIni /\ DetectFormat multi (CBuffer.str "conf.json/app") = Some kIni.
Proof. by vm_compute. Qed.
