(* ===== verification/AsyncLog.v ===== *)
(** * Logging (include/osp/log.hpp, include/osp/async_log.hpp)

    The level gate and the synchronous path, and the asynchronous path: every thread
    takes a buffer of its own, a SpscRingbuffer, and a writer thread moves the entries
    to the sink.  Threads that log, start and stop the writer and end are interleaved
    access by access; a push and a batch of pops are single steps, which is what
    SpscConc.v shows of a ring with one producer and one consumer. *)

From Stdlib Require Import ZArith Lia Bool.
From stdpp Require Import base numbers list option relations.
From S2P Require Import Prelude CBuffer Ini.
From S2P Require Spsc.

Open Scope Z_scope.

(** ** Entries *)

Inductive Level := kDebug | kInfo | kWarn | kError | kFatal | kOff.
Definition level_number (l : Level) : Z := match l with kDebug => 0 | kInfo => 1 | kWarn => 2 | kError => 3 | kFatal => 4 | kOff => 5 end.
Record LogEntry := mkEntry {
  timestamp_ns : Z; wallclock_sec : Z; wallclock_ms : Z; level : Level; padding0 : Z;
  category : list Z; message : list Z; file : list Z; line : Z; thread_id : Z
}.
#[export] Instance LogEntry_inhabited : Inhabited LogEntry := populate (mkEntry 0 0 0 kDebug 0 [] [] [] 0 0).

(** [None]: nullptr, or a write outside [dst]. *)
Definition SafeStrCopy (dst : list Z) (src : option (list Z)) : option (list Z) :=
  match src, dst with
  | _, [] => Some dst
  | None, _ => bput dst 0 0
  | Some s, _ =>
    let len := length (c_str s) in
    let len := if (length dst <=? len)%nat then (length dst - 1)%nat else len in
    dst ← bcopy dst (take len s); bput dst (Z.of_nat len) 0
  end.
(** What follows the last slash, or all; [base]: what follows the last one so far. *)
Fixpoint after_slash (p base : list Z) : list Z := match p with [] => base | c :: p => after_slash p (if c =? 47 then p else base) end.
Definition Basename (path : option (list Z)) : list Z := match path with None => [63] | Some p => after_slash (c_str p) (c_str p) end.

(** The arguments of a call; the message as vsnprintf formats it without a limit. *)
Record LogCall := mkCall { c_level : Level; c_category : option (list Z); c_file : option (list Z); c_line : Z; c_text : list Z }.
(** What the clocks say: monotonic, and seconds and milliseconds of the day. *)
Record Clock := mkClock { now_ns : Z; now_us : Z; wall_sec : Z; wall_ms : Z }.
Definition BuildLogEntry (entry : LogEntry) (c : LogCall) (tid : Z) (now : Clock) : option LogEntry :=
  cat ← SafeStrCopy (category entry) (c_category c); f ← SafeStrCopy (file entry) (Some (Basename (c_file c)));
  Some (mkEntry (u64 (now_ns now)) (u32 (wall_sec now)) (u16 (wall_ms now)) (c_level c) 0 cat (message entry) f (u32 (c_line c)) tid).
(** An entry on the caller's stack, of which nothing is known but its size. *)
Definition entry_sized (e : LogEntry) : Prop := length (category e) = 16%nat /\ length (message e) = 256%nat /\ length (file e) = 24%nat.
Definition new_entry (stack : LogEntry) (c : LogCall) (tid : Z) (now : Clock) : option LogEntry :=
  m ← SafeStrCopy (message stack) (Some (c_text c));
  BuildLogEntry (mkEntry (timestamp_ns stack) (wallclock_sec stack) (wallclock_ms stack) (level stack) (padding0 stack) (category stack) m (file stack) (line stack) (thread_id stack)) c tid now.

(** A line of the synchronous path. *)
Record SyncLine := mkLine { s_level : Level; s_category : list Z; s_text : list Z; s_file : list Z; s_line : Z }.
(** The lines printed, and whether the program was aborted. *)
Definition LogWriteVa (gate : Level) (c : LogCall) (lines : list SyncLine) : list SyncLine * bool :=
  if level_number (c_level c) <? level_number gate then (lines, false)
  else (lines ++ [mkLine (c_level c) (default [45] (c_str <$> c_category c)) (take 511 (c_str (c_text c))) (Basename (c_file c)) (c_line c)],
        match c_level c with kFatal => true | _ => false end).

(** ** The asynchronous path *)

Section AsyncLog.
(** Queue depth [2^kd], batch, buffers, reporting interval in microseconds; ids of
    threads and what their stacks hold. *)
Context (kd : Z) (BATCH : Z) (MAX_THREADS : nat) (INTERVAL : Z) (tid : nat -> Z) (stack : LogEntry).

Definition Queue : Type := @Spsc.spsc LogEntry.
Definition Push (e : LogEntry) (q : Queue) : bool * Queue := Spsc.Push 64 kd e q.
Definition PopBatch (n : Z) (q : Queue) : list LogEntry * Queue := Spsc.PopBatch 64 kd true n q.
Definition IsEmpty (q : Queue) : bool := Spsc.IsEmpty 64 q.
(** [pushed]: history, the entries pushed and the threads that did. *)
Record LogBuffer := mkBuffer { queue : Queue; active : bool; buf_thread_id : Z; pushed : list (nat * LogEntry) }.
Definition new_buffer : LogBuffer := mkBuffer (Spsc.SpscRingbuffer kd) false 0 [].

(** Where a thread is.  [tStart]: in StartAsync with the configured sink; the call it
    will log afterwards, if any. *)
Inductive ThreadPc :=
| tIdle | tGone
| tCheck (c : LogCall) | tAcquire (c : LogCall) (i : nat) | tFallback (c : LogCall) | tWrite (c : LogCall) | tPush (c : LogCall) (i : nat) | tDrop
| tStart (cfg : option nat) (k : option LogCall) | tSink (cfg : option nat) (k : option LogCall) | tUnshut (k : option LogCall) | tSpawn (k : option LogCall) | tAtexit (k : option LogCall)
| tStop | tShut | tJoin.
(** [slot]: the buffer that tls_cleanup holds. *)
Record LogThread := mkThread { pc : ThreadPc; slot : option nat }.

(** The writer: polling, or in a round of the final drain; the entries moved in this
    pass over the buffers. *)
Inductive Pass := pPoll | pDrain (round : nat).
Inductive WriterPc :=
| wInit | wTop | wAt (p : Pass) (i : nat) (got : Z) | wChk (p : Pass) (i : nat) (got : Z) | wPop (p : Pass) (i : nat) (got : Z)
| wSink (p : Pass) (i : nat) (got : Z) (b : list LogEntry) | wAdd (p : Pass) (i : nat) (got : Z) (n : Z) | wReport | wLast | wDone.
Record Writer := mkWriter { wpc : WriterPc; w_sink : option nat; last_reported_drops : Z; next_report_time_us : Z }.

(** [out]: the calls of a sink - [None] is StderrSink -, the buffer and the entries.
    [reports]: the drops reported.  History: calls past the gates, dropped and
    written synchronously; entries counted as written; [late]: a push came after the
    writer had seen the shutdown. *)
Record LogSystem := mkSys {
  buffers : list LogBuffer; running : bool; shutdown : bool; atexit_registered : bool; sink : option nat;
  writer : option Writer; entries_written : Z; entries_dropped : Z; sync_fallbacks : Z;
  log_level : Level; stderr : list SyncLine; aborted : bool; threads : list LogThread;
  out : list (option nat * nat * list LogEntry); reports : list Z;
  accepted : nat; dropped : nat; fell_back : nat; late : bool
}.
Definition set_threads (l : list LogThread) (s : LogSystem) : LogSystem := mkSys (buffers s) (running s) (shutdown s) (atexit_registered s) (sink s) (writer s) (entries_written s) (entries_dropped s) (sync_fallbacks s) (log_level s) (stderr s) (aborted s) l (out s) (reports s) (accepted s) (dropped s) (fell_back s) (late s).
Definition set_buffers (l : list LogBuffer) (s : LogSystem) : LogSystem := mkSys l (running s) (shutdown s) (atexit_registered s) (sink s) (writer s) (entries_written s) (entries_dropped s) (sync_fallbacks s) (log_level s) (stderr s) (aborted s) (threads s) (out s) (reports s) (accepted s) (dropped s) (fell_back s) (late s).
Definition set_flags (run shut reg : bool) (s : LogSystem) : LogSystem := mkSys (buffers s) run shut reg (sink s) (writer s) (entries_written s) (entries_dropped s) (sync_fallbacks s) (log_level s) (stderr s) (aborted s) (threads s) (out s) (reports s) (accepted s) (dropped s) (fell_back s) (late s).
Definition set_sink (f : option nat) (s : LogSystem) : LogSystem := mkSys (buffers s) (running s) (shutdown s) (atexit_registered s) f (writer s) (entries_written s) (entries_dropped s) (sync_fallbacks s) (log_level s) (stderr s) (aborted s) (threads s) (out s) (reports s) (accepted s) (dropped s) (fell_back s) (late s).
Definition set_writer (w : option Writer) (s : LogSystem) : LogSystem := mkSys (buffers s) (running s) (shutdown s) (atexit_registered s) (sink s) w (entries_written s) (entries_dropped s) (sync_fallbacks s) (log_level s) (stderr s) (aborted s) (threads s) (out s) (reports s) (accepted s) (dropped s) (fell_back s) (late s).
Definition set_stats (wr dr fb : Z) (s : LogSystem) : LogSystem := mkSys (buffers s) (running s) (shutdown s) (atexit_registered s) (sink s) (writer s) wr dr fb (log_level s) (stderr s) (aborted s) (threads s) (out s) (reports s) (accepted s) (dropped s) (fell_back s) (late s).
Definition set_stderr (r : list SyncLine * bool) (s : LogSystem) : LogSystem := mkSys (buffers s) (running s) (shutdown s) (atexit_registered s) (sink s) (writer s) (entries_written s) (entries_dropped s) (sync_fallbacks s) (log_level s) r.1 r.2 (threads s) (out s) (reports s) (accepted s) (dropped s) (fell_back s) (late s).
Definition set_level (l : Level) (s : LogSystem) : LogSystem := mkSys (buffers s) (running s) (shutdown s) (atexit_registered s) (sink s) (writer s) (entries_written s) (entries_dropped s) (sync_fallbacks s) l (stderr s) (aborted s) (threads s) (out s) (reports s) (accepted s) (dropped s) (fell_back s) (late s).
Definition set_out (o : list (option nat * nat * list LogEntry)) (r : list Z) (s : LogSystem) : LogSystem := mkSys (buffers s) (running s) (shutdown s) (atexit_registered s) (sink s) (writer s) (entries_written s) (entries_dropped s) (sync_fallbacks s) (log_level s) (stderr s) (aborted s) (threads s) o r (accepted s) (dropped s) (fell_back s) (late s).
Definition set_history (a d f : nat) (l : bool) (s : LogSystem) : LogSystem := mkSys (buffers s) (running s) (shutdown s) (atexit_registered s) (sink s) (writer s) (entries_written s) (entries_dropped s) (sync_fallbacks s) (log_level s) (stderr s) (aborted s) (threads s) (out s) (reports s) a d f l.

(** *** Threads that log *)

Inductive ThreadAct := aLog (c : LogCall) | aStartAsync (cfg : option nat) | aStopAsync | aSetSink (f : nat) | aSetLevel (l : Level) | aExit | aGo (now : Clock).
Definition continue_with (k : option LogCall) : ThreadPc := match k with Some c => tAcquire c 0 | None => tIdle end.
Definition goto (t : nat) (th : LogThread) (p : ThreadPc) (s : LogSystem) : LogSystem := set_threads (<[t := mkThread p (slot th)]> (threads s)) s.
(** The writer has left its loop. *)
Definition leaving (w : option Writer) : bool :=
  match w with
  | Some w => match wpc w with wAt (pDrain _) _ _ | wChk (pDrain _) _ _ | wPop (pDrain _) _ _ | wSink (pDrain _) _ _ _ | wAdd (pDrain _) _ _ _ | wLast | wDone => true | _ => false end
  | None => false
  end.

(** AsyncLogWrite up to the choice of the path. *)
Definition begin_log (t : nat) (th : LogThread) (c : LogCall) (s : LogSystem) : LogSystem :=
  if level_number (c_level c) <? level_number (log_level s) then s
  else if level_number kError <=? level_number (c_level c) then goto t th (tWrite c) s
  else goto t th (tCheck c) (set_history (S (accepted s)) (dropped s) (fell_back s) (late s) s).
(** One compare-exchange of AcquireLogBuffer; [i]: the buffer it has come to. *)
Definition acquire_step (t : nat) (th : LogThread) (c : LogCall) (i : nat) (s : LogSystem) : option LogSystem :=
  match slot th with
  | Some j => Some (goto t th (tPush c j) s)
  | None =>
    if (MAX_THREADS <=? i)%nat then Some (goto t th (tFallback c) s)
    else
      b ← buffers s !! i;
      if active b then Some (goto t th (tAcquire c (S i)) s)
      else Some (set_threads (<[t := mkThread (tPush c i) (Some i)]> (threads s)) (set_buffers (<[i := mkBuffer (queue b) true (tid t) (pushed b)]> (buffers s)) s))
  end.
Definition push_step (t : nat) (th : LogThread) (c : LogCall) (i : nat) (now : Clock) (s : LogSystem) : option LogSystem :=
  b ← buffers s !! i; e ← new_entry stack c (buf_thread_id b) now;
  let '(ok, q) := Push e (queue b) in
  if ok then
    Some (goto t th tIdle (set_history (accepted s) (dropped s) (fell_back s) (late s || leaving (writer s)) (set_buffers (<[i := mkBuffer q (active b) (buf_thread_id b) (pushed b ++ [(t, e)])]> (buffers s)) s)))
  else Some (goto t th tDrop (set_history (accepted s) (S (dropped s)) (fell_back s) (late s) s)).
Definition exit_thread (t : nat) (th : LogThread) (s : LogSystem) : option LogSystem :=
  match slot th with
  | Some i => b ← buffers s !! i; Some (goto t th tGone (set_buffers (<[i := mkBuffer (queue b) false (buf_thread_id b) (pushed b)]> (buffers s)) s))
  | None => Some (goto t th tGone s)
  end.

(** One step of thread [t]; [None]: it cannot act so, or it waits. *)
Definition thread_exec (t : nat) (a : ThreadAct) (s : LogSystem) : option LogSystem :=
  if aborted s then None else
  th ← threads s !! t;
  match pc th, a with
  | tIdle, aLog c => Some (begin_log t th c s)
  | tIdle, aStartAsync cfg => Some (goto t th (tStart cfg None) s)
  | tIdle, aStopAsync => Some (goto t th tStop s)
  | tIdle, aSetSink f => if running s then None else Some (set_sink (Some f) s)
  | tIdle, aSetLevel l => Some (set_level l s)
  | tIdle, aExit => exit_thread t th s
  | tCheck c, aGo _ => Some (goto t th (if running s then tAcquire c 0 else tStart None (Some c)) s)
  | tAcquire c i, aGo _ => acquire_step t th c i s
  | tFallback c, aGo _ => Some (goto t th (tWrite c) (set_stats (entries_written s) (entries_dropped s) (u64 (sync_fallbacks s + 1)) (set_history (accepted s) (dropped s) (S (fell_back s)) (late s) s)))
  | tWrite c, aGo _ => Some (goto t th tIdle (set_stderr (LogWriteVa (log_level s) c (stderr s)) s))
  | tPush c i, aGo now => push_step t th c i now s
  | tDrop, aGo _ => Some (goto t th tIdle (set_stats (entries_written s) (u64 (entries_dropped s + 1)) (sync_fallbacks s) s))
  | tStart cfg k, aGo _ => if running s then Some (goto t th (continue_with k) s) else Some (goto t th (tSink cfg k) (set_flags true (shutdown s) (atexit_registered s) s))
  | tSink cfg k, aGo _ => Some (goto t th (tUnshut k) (set_sink cfg s))
  | tUnshut k, aGo _ => Some (goto t th (tSpawn k) (set_flags (running s) false (atexit_registered s) s))
  (* Thread::Start refuses a thread that was not joined; the result is not looked at *)
  | tSpawn k, aGo _ => Some (goto t th (tAtexit k) (match writer s with None => set_writer (Some (mkWriter wInit None 0 0)) s | Some _ => s end))
  | tAtexit k, aGo _ => Some (goto t th (continue_with k) (set_flags (running s) (shutdown s) true s))
  | tStop, aGo _ => if running s then Some (goto t th tShut (set_flags false (shutdown s) (atexit_registered s) s)) else Some (goto t th tIdle s)
  | tShut, aGo _ => Some (goto t th tJoin (set_flags (running s) true (atexit_registered s) s))
  | tJoin, aGo _ => match writer s with None => Some (goto t th tIdle s) | Some w => match wpc w with wDone => Some (goto t th tIdle (set_writer None s)) | _ => None end end
  | _, _ => None
  end.

(** *** The writer *)

Definition kDrainRounds : Z := (2 ^ kd) / BATCH + 1.
Definition wgoto (w : Writer) (p : WriterPc) (s : LogSystem) : LogSystem := set_writer (Some (mkWriter p (w_sink w) (last_reported_drops w) (next_report_time_us w))) s.
(** After all buffers have been looked at. *)
Definition pass_end (p : Pass) (got : Z) : WriterPc :=
  match p with
  | pPoll => wReport
  | pDrain r => if got =? 0 then wLast else if Z.of_nat (S r) <? kDrainRounds then wAt (pDrain (S r)) 0 0 else wLast
  end.
(** The report of new drops, and the counter reported. *)
Definition report (w : Writer) (s : LogSystem) : list Z := let new := u64 (entries_dropped s - last_reported_drops w) in if 0 <? new then reports s ++ [new] else reports s.
Definition writer_exec (now : Clock) (s : LogSystem) : option LogSystem :=
  if aborted s then None else
  w ← writer s;
  match wpc w with
  | wInit => Some (set_writer (Some (mkWriter wTop (sink s) 0 (u64 (now_us now + INTERVAL)))) s)
  | wTop =>
    if shutdown s then Some (wgoto w (wAt (pDrain 0) 0 0) (set_history (accepted s) (dropped s) (fell_back s) false s))
    else Some (wgoto w (wAt pPoll 0 0) s)
  | wAt p i got =>
    if (MAX_THREADS <=? i)%nat then Some (wgoto w (pass_end p got) s)
    else match p with
    | pDrain _ => Some (wgoto w (wPop p i got) s)
    | pPoll => b ← buffers s !! i; Some (wgoto w (if active b then wPop p i got else wChk p i got) s)
    end
  | wChk p i got => b ← buffers s !! i; Some (wgoto w (if IsEmpty (queue b) then wAt p (S i) got else wPop p i got) s)
  | wPop p i got =>
    b ← buffers s !! i;
    let '(xs, q) := PopBatch BATCH (queue b) in
    let s := set_buffers (<[i := mkBuffer q (active b) (buf_thread_id b) (pushed b)]> (buffers s)) s in
    Some (wgoto w (match xs with [] => wAt p (S i) got | _ => wSink p i got xs end) s)
  | wSink p i got xs => Some (wgoto w (wAdd p i (u32 (got + Z.of_nat (length xs))) (Z.of_nat (length xs))) (set_out (out s ++ [(w_sink w, i, xs)]) (reports s) s))
  | wAdd p i got n => Some (wgoto w (wAt p (S i) got) (set_stats (u64 (entries_written s + n)) (entries_dropped s) (sync_fallbacks s) s))
  | wReport =>
    if (0 <? INTERVAL) && (next_report_time_us w <=? now_us now)
    then Some (set_writer (Some (mkWriter wTop (w_sink w) (entries_dropped s) (u64 (now_us now + INTERVAL)))) (set_out (out s) (report w s) s))
    else Some (wgoto w wTop s)
  | wLast => Some (wgoto w wDone (set_out (out s) (report w s) s))
  | wDone => None
  end.
Definition ResetAsyncStats (s : LogSystem) : LogSystem := set_stats 0 0 0 s.
Definition IsAsyncEnabled (s : LogSystem) : bool := running s.
Definition GetAsyncStats (s : LogSystem) : Z * Z * Z := (entries_written s, entries_dropped s, sync_fallbacks s).

Definition AsyncLogContext (n : nat) (gate : Level) : LogSystem :=
  mkSys (replicate MAX_THREADS new_buffer) false false false None None 0 0 0 gate [] false (replicate n (mkThread tIdle None)) [] [] 0 0 0 false.
Inductive Actor := ByThread (t : nat) (a : ThreadAct) | ByWriter (now : Clock).
Definition log_exec (a : Actor) (s : LogSystem) : option LogSystem := match a with ByThread t a => thread_exec t a s | ByWriter now => writer_exec now s end.
Fixpoint log_run (l : list Actor) (s : LogSystem) : option LogSystem := match l with [] => Some s | a :: l => s ← log_exec a s; log_run l s end.
Definition log_step (s s' : LogSystem) : Prop := exists a, log_exec a s = Some s'.

(** ** Invariants *)

Context `{Hcfg : !Spsc.SpscConfig 64 kd} (HBATCH : 0 < BATCH).
#[local] Instance wide64 : Spsc.WideIndex 64.
Proof. unfold Spsc.WideIndex. lia. Qed.
Abbreviation contents := (Spsc.contents 64 kd).

(** What the sink got from buffer [i], and what the writer holds of it. *)
Definition sunk (s : LogSystem) (i : nat) : list LogEntry := concat ((fun x => if decide (x.1.2 = i) then x.2 else []) <$> out s).
Definition in_flight (s : LogSystem) (i : nat) : list LogEntry :=
  match writer s with Some w => match wpc w with wSink _ j _ xs => if decide (j = i) then xs else [] | _ => [] end | None => [] end.

Definition bufs_ok (s : LogSystem) : Prop :=
  length (buffers s) = MAX_THREADS /\
  forall i b, buffers s !! i = Some b -> Spsc.inv 64 kd (queue b) /\ (pushed b).*2 = sunk s i ++ in_flight s i ++ contents (queue b).
(** Every buffer in use belongs to one thread, which alone pushes to it. *)
Record slots_ok (s : LogSystem) : Prop := {
  so_active t th i : threads s !! t = Some th -> slot th = Some i -> pc th <> tGone -> exists b, buffers s !! i = Some b /\ active b = true;
  so_one t t' th th' i : threads s !! t = Some th -> threads s !! t' = Some th' -> slot th = Some i -> slot th' = Some i -> pc th <> tGone -> pc th' <> tGone -> t = t';
  so_own i b t e : buffers s !! i = Some b -> (t, e) ∈ pushed b -> exists th, threads s !! t = Some th /\ slot th = Some i;
  so_push t th c i : threads s !! t = Some th -> pc th = tPush c i -> slot th = Some i
}.
(** Calls on their way, counted drops to come, entries sunk but not counted. *)
Definition busy (th : LogThread) : nat :=
  match pc th with tCheck _ | tAcquire _ _ | tFallback _ | tPush _ _ | tStart _ (Some _) | tSink _ (Some _) | tUnshut (Some _) | tSpawn (Some _) | tAtexit (Some _) => 1 | _ => 0 end.
Definition dropping (th : LogThread) : nat := match pc th with tDrop => 1 | _ => 0 end.
Definition uncounted (s : LogSystem) : Z := match writer s with Some w => match wpc w with wAdd _ _ _ n => n | _ => 0 end | None => 0 end.
Definition total_pushed (s : LogSystem) : nat := sum_list_with (fun b => length (pushed b)) (buffers s).
Definition total_sunk (s : LogSystem) : nat := sum_list_with (fun x => length x.2) (out s).
Record counts_ok (s : LogSystem) : Prop := {
  co_calls : accepted s = (total_pushed s + dropped s + fell_back s + sum_list_with busy (threads s))%nat;
  co_written : entries_written s = u64 (Z.of_nat (total_sunk s) - uncounted s);
  co_dropped : entries_dropped s = u64 (Z.of_nat (dropped s) - Z.of_nat (sum_list_with dropping (threads s)));
  co_fallback : sync_fallbacks s = u64 (Z.of_nat (fell_back s))
}.

Ltac log_cases E := repeat match type of E with
  | None = Some _ => discriminate E
  | (_ ≫= _) = Some _ => let x := fresh "x" in let H := fresh "Hx" in apply bind_Some in E as (x & H & E)
  | context [match ?x with _ => _ end] => let H := fresh "Hm" in destruct x eqn:H
  | Some _ = Some _ => injection E as <-
  end.

Lemma bufs_frame s s' : bufs_ok s -> length (buffers s') = length (buffers s) -> (forall i, sunk s' i = sunk s i) -> (forall i, in_flight s' i = in_flight s i) ->
  (forall i b', buffers s' !! i = Some b' -> exists b, buffers s !! i = Some b /\ queue b = queue b' /\ pushed b = pushed b') -> bufs_ok s'.
Proof.
  intros [Hl Hb] Hl' Ho Hf Hbb. split; [by rewrite Hl'|]. intros i b' Hi. destruct (Hbb i b' Hi) as (b & Hib & <- & <-). rewrite Ho, Hf. by apply Hb.
Qed.
Lemma insert_buffer_frame s i b b' : buffers s !! i = Some b -> queue b' = queue b -> pushed b' = pushed b ->
  forall j x', <[i := b']> (buffers s) !! j = Some x' -> exists x, buffers s !! j = Some x /\ queue x = queue x' /\ pushed x = pushed x'.
Proof.
  intros Hi Hq Hp j x'. destruct (decide (i = j)) as [->|]; [|rewrite list_lookup_insert_ne by done; eauto]. rewrite list_lookup_insert_eq by (by eapply lookup_lt_Some). intros [= <-]. eauto.
Qed.
Lemma bufs_insert s i b b' : bufs_ok s -> buffers s !! i = Some b -> Spsc.inv 64 kd (queue b') ->
  forall s', buffers s' = <[i := b']> (buffers s) -> (pushed b').*2 = sunk s' i ++ in_flight s' i ++ contents (queue b') ->
  (forall j, j <> i -> sunk s' j ++ in_flight s' j = sunk s j ++ in_flight s j) -> bufs_ok s'.
Proof.
  intros [Hl Hb] Hi Hinv s' Hs' Hp Hj. split; [by rewrite Hs', length_insert|]. intros j x. rewrite Hs'. destruct (decide (i = j)) as [->|Hne].
  - rewrite list_lookup_insert_eq by (by eapply lookup_lt_Some). by intros [= <-].
  - rewrite list_lookup_insert_ne by done. intros Hx. destruct (Hb j x Hx) as [? E]. split; [done|]. rewrite E, !app_assoc. by rewrite Hj.
Qed.

(** Steps that leave the buffers, the sink's calls and the batch alone. *)
Lemma bufs_same s s' : bufs_ok s -> buffers s' = buffers s -> out s' = out s -> (forall i, in_flight s' i = in_flight s i) -> bufs_ok s'.
Proof. intros Hb E1 E2 E3. apply (bufs_frame s); [done|by rewrite E1|intros i; unfold sunk; by rewrite E2|done|]. intros i b. rewrite E1. eauto. Qed.
Lemma bufs_acquire t th c i s s' : bufs_ok s -> acquire_step t th c i s = Some s' -> bufs_ok s'.
Proof.
  intros Hb E. unfold acquire_step in E. log_cases E; try (by apply (bufs_same s)).
  apply (bufs_frame s); [done|cbn; by rewrite length_insert|done..|]. by eapply insert_buffer_frame.
Qed.
Lemma bufs_exit t th s s' : bufs_ok s -> exit_thread t th s = Some s' -> bufs_ok s'.
Proof.
  intros Hb E. unfold exit_thread in E. log_cases E; try (by apply (bufs_same s)).
  apply (bufs_frame s); [done|cbn; by rewrite length_insert|done..|]. by eapply insert_buffer_frame.
Qed.
Lemma bufs_push t th c i now s s' : bufs_ok s -> push_step t th c i now s = Some s' -> bufs_ok s'.
Proof.
  intros Hb E. unfold push_step in E. destruct (buffers s !! i) as [b|] eqn:Hi; [|done]. cbn [mbind option_bind] in E. destruct (new_entry _ _ _ _) as [e|]; [|done]. cbn [mbind option_bind] in E.
  destruct (proj2 Hb i b Hi) as [Hinv Hp]. pose proof (Spsc.Push_ok 64 kd (queue b) e Hinv) as Hpush. unfold Push in E.
  destruct (Z.ltb_spec (Spsc.Size 64 (queue b)) (Spsc.BufferSize kd)) as [_|_]; [|rewrite Hpush in E; injection E as <-; by apply (bufs_same s)].
  destruct (Spsc.Push 64 kd e (queue b)) as [ok q]. cbn [fst snd] in Hpush. destruct Hpush as (-> & Hq & Hc). injection E as <-.
  eapply (bufs_insert s); [done|exact Hi| |reflexivity| |done]; [done|]. cbn. by rewrite fmap_app, Hp, Hc, !app_assoc.
Qed.
Lemma bufs_thread t a s s' : bufs_ok s -> thread_exec t a s = Some s' -> bufs_ok s'.
Proof.
  intros Hb E. unfold thread_exec in E. destruct (aborted s); [done|]. destruct (threads s !! t) as [th|] eqn:Ht; [|done]. cbn [mbind option_bind] in E.
  destruct (pc th) eqn:Hpc; destruct a; try done; try (by eapply bufs_acquire); try (by eapply bufs_exit); try (by eapply bufs_push).
  all: try unfold begin_log in E; log_cases E; try done; apply (bufs_same s); try done.
  all: intros j; unfold in_flight; cbn; by rewrite ?Hm, ?Hm0.
Qed.
Lemma PopBatch_spec q : Spsc.inv 64 kd q -> exists xs q', PopBatch BATCH q = (xs, q') /\ xs = take (Z.to_nat BATCH) (contents q) /\ Spsc.inv 64 kd q' /\ contents q' = drop (Z.to_nat BATCH) (contents q).
Proof.
  intros Hq. destruct (Spsc.PopBatch_ok 64 kd true BATCH q Hq) as (H1 & H2 & H3); [lia|]. unfold PopBatch. destruct (Spsc.PopBatch 64 kd true BATCH q) as [xs q']. cbn [fst snd] in *. by exists xs, q'.
Qed.
Lemma sunk_same s s' i : out s' = out s -> sunk s' i = sunk s i.
Proof. unfold sunk. by intros ->. Qed.
Lemma bufs_pop w p i got s s' : bufs_ok s -> writer s = Some w -> wpc w = wPop p i got -> forall now, writer_exec now s = Some s' -> bufs_ok s'.
Proof.
  intros Hb Hw Hpc now E. unfold writer_exec in E. rewrite Hw in E. destruct (aborted s); [done|]. cbn [mbind option_bind] in E. rewrite Hpc in E.
  destruct (buffers s !! i) as [b|] eqn:Hi; [|done]. cbn [mbind option_bind] in E. destruct (proj2 Hb i b Hi) as [Hinv Hp].
  destruct (PopBatch_spec (queue b) Hinv) as (xs & q & Epop & Hxs & Hq & Hc). rewrite Epop in E. injection E as <-.
  assert (Hf : forall j, in_flight s j = []) by (intros j; unfold in_flight; by rewrite Hw, Hpc). rewrite Hf in Hp.
  eapply (bufs_insert s); [done|exact Hi| |reflexivity| |]; [done| |].
  - cbn [pushed queue]. rewrite Hp, Hc. f_equal. unfold in_flight. cbn.
    etrans; [symmetry; apply (take_drop (Z.to_nat BATCH))|]. rewrite <- Hxs. f_equal. destruct xs; [done|]. by rewrite decide_True.
  - intros j Hj. rewrite Hf. f_equal. unfold in_flight. cbn. destruct xs; [done|]. by rewrite decide_False.
Qed.
Lemma sunk_out s s' i k j xs : out s' = out s ++ [(k, j, xs)] -> sunk s' i = sunk s i ++ (if decide (j = i) then xs else []).
Proof. intros E. unfold sunk. rewrite E, fmap_app, concat_app. cbn. by rewrite app_nil_r. Qed.
Lemma bufs_writer now s s' : bufs_ok s -> writer_exec now s = Some s' -> bufs_ok s'.
Proof.
  intros Hb E. assert (E' := E). unfold writer_exec in E. destruct (aborted s); [done|]. destruct (writer s) as [w|] eqn:Hw; [|done]. cbn [mbind option_bind] in E.
  destruct (wpc w) as [ | |p i got|p i got|p i got|p i got xs|p i got n| | | ] eqn:Hpc; try done.
  5: by apply (bufs_pop w p i got s s' Hb Hw Hpc now).
  5: { assert (Ho : out s' = out s ++ [(w_sink w, i, xs)]) by (by injection E as <-). assert (Hf : forall j, in_flight s' j = []) by (by injection E as <-). assert (Hbu : buffers s' = buffers s) by (by injection E as <-).
    split; [rewrite Hbu; exact (proj1 Hb)|]. intros j b. rewrite Hbu. intros Hj. destruct (proj2 Hb j b Hj) as [Hinv Hp]. split; [done|].
    rewrite Hp, (sunk_out s s' j (w_sink w) i xs Ho), Hf. unfold in_flight. rewrite Hw, Hpc. by rewrite <- app_assoc. }
  all: unfold pass_end in E; log_cases E; apply (bufs_same s); try done; intros j; unfold in_flight; rewrite Hw, Hpc; cbn; repeat case_match; done.
Qed.

(** Thread [t] goes to [p] with the buffer [o], and touches no buffer but its own. *)
Lemma slots_move t th p o s s' : slots_ok s -> threads s !! t = Some th -> pc th <> tGone -> threads s' = <[t := mkThread p o]> (threads s) ->
  (o = slot th \/ slot th = None /\ exists i b, o = Some i /\ buffers s !! i = Some b /\ active b = false) ->
  (forall c i, p = tPush c i -> o = Some i) -> length (buffers s') = length (buffers s) ->
  (p <> tGone -> forall i, o = Some i -> exists b', buffers s' !! i = Some b' /\ active b' = true) ->
  (forall i b', buffers s' !! i = Some b' -> exists b, buffers s !! i = Some b /\ (active b' = active b \/ o = Some i) /\ forall x, x ∈ pushed b' -> x ∈ pushed b \/ x.1 = t /\ o = Some i) ->
  slots_ok s'.
Proof.
  intros [Ha H1 Ho Hp] Ht Hg Eth Hslot Hpush Hlen Hact Hb.
  assert (Hlook : forall u, threads s' !! u = if decide (u = t) then Some (mkThread p o) else threads s !! u).
  { intros u. rewrite Eth. destruct (decide (u = t)) as [->|]; [apply list_lookup_insert_eq; by eapply lookup_lt_Some|by rewrite list_lookup_insert_ne]. }
  assert (Hother : forall u thu i, u <> t -> threads s !! u = Some thu -> slot thu = Some i -> pc thu <> tGone -> o = Some i -> False).
  { intros u thu i Hu Hthu Hsu Hgu ->. destruct Hslot as [Hs|(_ & i' & b & [= <-] & Hbi & Hia)]; [by apply Hu, (H1 u t thu th i)|].
    destruct (Ha u thu i Hthu Hsu Hgu) as (b2 & Hb2 & Hb2a). congruence. }
  constructor.
  - intros u thu i. rewrite Hlook. case_decide as Hu; [intros [= <-]; cbn; intros Ei Hgp; by apply Hact|]. intros Hthu Hsu Hgu. destruct (Ha u thu i Hthu Hsu Hgu) as (b & Hbi & Hba).
    destruct (lookup_lt_is_Some_2 (buffers s') i) as [b' Hb']; [rewrite Hlen; by eapply lookup_lt_Some|]. exists b'. split; [done|]. destruct (Hb i b' Hb') as (b0 & Hb0 & [E|E] & _); [by simplify_eq; rewrite E|].
    exfalso. by eapply Hother.
  - intros u v thu thv i. rewrite !Hlook. case_decide as Hu; case_decide as Hv; [by subst|..].
    + intros [= <-] Hthv. cbn. intros Ei Esv _ Hgv. exfalso. by eapply (Hother v).
    + intros Hthu [= <-]. cbn. intros Eu Ei Hgu _. exfalso. by eapply (Hother u).
    + apply H1.
  - intros i b' u e Hb' He. destruct (Hb i b' Hb') as (b & Hbi & _ & Hx). rewrite Hlook. destruct (Hx _ He) as [Hin|[Hu Ei]].
    + destruct (Ho i b u e Hbi Hin) as (thu & Hthu & Esu). case_decide as Hu; [|by exists thu]. subst u. simplify_eq. exists (mkThread p o). split; [done|]. cbn.
      destruct Hslot as [->|(Hn & _)]; [done|by rewrite Hn in Esu].
    + cbn in Hu. rewrite decide_True by done. by exists (mkThread p o).
  - intros u thu c i. rewrite Hlook. case_decide as Hu; [intros [= <-]; cbn; apply Hpush|apply Hp].
Qed.
Lemma slots_goto t th p s s' : slots_ok s -> threads s !! t = Some th -> pc th <> tGone -> threads s' = <[t := mkThread p (slot th)]> (threads s) ->
  buffers s' = buffers s -> (forall c i, p = tPush c i -> slot th = Some i) -> slots_ok s'.
Proof.
  intros Hs Ht Hg E1 E2 Hp. eapply (slots_move t th p (slot th)); eauto; [by rewrite E2| |].
  - intros _ i Ei. rewrite E2. by eapply (so_active s Hs t th i).
  - intros i b'. rewrite E2. intros Hb. exists b'. auto.
Qed.
(** The lookup of a list with one element replaced. *)
Lemma insert_cases {A} (l : list A) i x j y : <[i := x]> l !! j = Some y -> i = j /\ y = x /\ (i < length l)%nat \/ i <> j /\ l !! j = Some y.
Proof. rewrite list_lookup_insert_Some. naive_solver. Qed.
Lemma slots_acquire t th c0 i0 c i s s' : slots_ok s -> threads s !! t = Some th -> pc th = tAcquire c0 i0 -> acquire_step t th c i s = Some s' -> slots_ok s'.
Proof.
  intros Hs Ht Hpc E. unfold acquire_step in E. assert (Hg : pc th <> tGone) by (by rewrite Hpc). destruct (slot th) as [j|] eqn:Hslot.
  { injection E as <-. eapply slots_goto; try done. rewrite Hslot. by intros c' i' [= _ <-]. }
  destruct (MAX_THREADS <=? i)%nat; [injection E as <-; by eapply slots_goto|]. destruct (buffers s !! i) as [b|] eqn:Hb; [|done]. cbn [mbind option_bind] in E.
  destruct (active b) eqn:Hact; injection E as <-; [by eapply slots_goto|]. eapply (slots_move t th (tPush c i) (Some i)); try done; cbn.
  - right. split; [done|]. by exists i, b.
  - by intros c' i' [= _ <-].
  - by rewrite length_insert.
  - intros _ j [= <-]. rewrite list_lookup_insert_eq by (by eapply lookup_lt_Some). eauto.
  - intros j b' [(<- & -> & _)|[Hne Hb']]%insert_cases; [exists b; cbn; auto|exists b'; auto].
Qed.
Lemma slots_push t th c i now s s' : slots_ok s -> threads s !! t = Some th -> pc th = tPush c i -> push_step t th c i now s = Some s' -> slots_ok s'.
Proof.
  intros Hs Ht Hpc E. unfold push_step in E. assert (Hg : pc th <> tGone) by (by rewrite Hpc). pose proof (so_push s Hs t th c i Ht Hpc) as Hslot.
  destruct (buffers s !! i) as [b|] eqn:Hb; [|done]. cbn [mbind option_bind] in E. destruct (new_entry _ _ _ _) as [e|]; [|done]. cbn [mbind option_bind] in E.
  destruct (Push e (queue b)) as [[] q]; injection E as <-; [|by eapply slots_goto]. eapply (slots_move t th tIdle (slot th)); try done; cbn.
  - by left.
  - by rewrite length_insert.
  - intros _ j Ej. rewrite Hslot in Ej. injection Ej as <-. rewrite list_lookup_insert_eq by (by eapply lookup_lt_Some). eexists; split; [done|]. cbn.
    destruct (so_active s Hs t th i Ht Hslot Hg) as (b2 & Hb2 & ?). by simplify_eq.
  - intros j b' [(<- & -> & _)|[Hne Hb']]%insert_cases; [|exists b'; auto]. exists b. split; [done|]. split; [by left|]. cbn.
    intros x [Hx|Hx%list_elem_of_singleton]%elem_of_app; [by left|]. right. by subst.
Qed.
Lemma slots_exit t th s s' : slots_ok s -> threads s !! t = Some th -> pc th = tIdle -> exit_thread t th s = Some s' -> slots_ok s'.
Proof.
  intros Hs Ht Hpc E. unfold exit_thread in E. assert (Hg : pc th <> tGone) by (by rewrite Hpc). destruct (slot th) as [i|] eqn:Hslot; [|injection E as <-; by eapply slots_goto].
  destruct (buffers s !! i) as [b|] eqn:Hb; [|done]. injection E as <-. eapply (slots_move t th tGone (slot th)); try done; cbn.
  - by left.
  - by rewrite length_insert.
  - intros j b' [(<- & -> & _)|[Hne Hb']]%insert_cases; [|exists b'; auto]. exists b. cbn. auto.
Qed.
Lemma slots_thread t a s s' : slots_ok s -> thread_exec t a s = Some s' -> slots_ok s'.
Proof.
  intros Hs E. unfold thread_exec in E. destruct (aborted s); [done|]. destruct (threads s !! t) as [th|] eqn:Ht; [|done]. cbn [mbind option_bind] in E.
  destruct (pc th) eqn:Hpc; destruct a; try done; try (by eapply slots_acquire); try (by eapply slots_exit); try (by eapply slots_push).
  all: try unfold begin_log in E; unfold continue_with in E; log_cases E; try done; try (eapply slots_goto; [done|exact Ht|by rewrite Hpc|reflexivity|reflexivity|done]).
  all: destruct Hs; constructor; done.
Qed.
Lemma slots_queue s s' i b q : slots_ok s -> threads s' = threads s -> buffers s !! i = Some b -> buffers s' = <[i := mkBuffer q (active b) (buf_thread_id b) (pushed b)]> (buffers s) -> slots_ok s'.
Proof.
  intros [Ha H1 Ho Hp] Et Hb Eb. constructor; rewrite Et; [|done| |done].
  - intros u thu j Hu Es Hg. destruct (Ha u thu j Hu Es Hg) as (b2 & Hb2 & Hact). rewrite Eb. destruct (decide (i = j)) as [->|]; [|rewrite list_lookup_insert_ne by done; eauto].
    rewrite list_lookup_insert_eq by (by eapply lookup_lt_Some). eexists. split; [done|]. cbn. congruence.
  - intros j b' u e. rewrite Eb. intros [(<- & -> & _)|[_ Hb']]%insert_cases; [by apply (Ho i b)|by apply Ho].
Qed.
Lemma slots_writer now s s' : slots_ok s -> writer_exec now s = Some s' -> slots_ok s'.
Proof.
  intros Hs E. unfold writer_exec in E. destruct (aborted s); [done|]. destruct (writer s) as [w|] eqn:Hw; [|done]. cbn [mbind option_bind] in E.
  destruct (wpc w) as [ | |p i got|p i got|p i got|p i got xs|p i got n| | | ] eqn:Hpc; log_cases E; try (destruct Hs; by constructor).
  all: by eapply slots_queue.
Qed.

(** The sums over the threads after thread [t] has moved. *)
Lemma thread_sums s s' t th p o : threads s !! t = Some th -> threads s' = <[t := mkThread p o]> (threads s) ->
  (sum_list_with busy (threads s') + busy th = sum_list_with busy (threads s) + busy (mkThread p o))%nat /\
  (sum_list_with dropping (threads s') + dropping th = sum_list_with dropping (threads s) + dropping (mkThread p o))%nat.
Proof. intros Ht ->. split; by apply sum_insert. Qed.
Lemma pushed_sum s s' i b b' : buffers s !! i = Some b -> buffers s' = <[i := b']> (buffers s) -> (total_pushed s' + length (pushed b) = total_pushed s + length (pushed b'))%nat.
Proof. intros Hb E. unfold total_pushed. rewrite E. by apply (sum_insert (fun b => length (pushed b))). Qed.

(** The counts after thread [t] has gone to [p], in terms of what has changed. *)
Lemma counts_move t th p o s s' : counts_ok s -> threads s !! t = Some th -> threads s' = <[t := mkThread p o]> (threads s) -> out s' = out s -> uncounted s' = uncounted s -> entries_written s' = entries_written s ->
  (accepted s' + total_pushed s + dropped s + fell_back s + busy th = accepted s + total_pushed s' + dropped s' + fell_back s' + busy (mkThread p o))%nat ->
  (exists n : Z, entries_dropped s' = u64 (entries_dropped s + n) /\ Z.of_nat (dropped s') - Z.of_nat (dropping (mkThread p o)) = Z.of_nat (dropped s) - Z.of_nat (dropping th) + n) ->
  (exists n : nat, sync_fallbacks s' = u64 (sync_fallbacks s + Z.of_nat n) /\ fell_back s' = (fell_back s + n)%nat) -> counts_ok s'.
Proof.
  intros [H1 H2 H3 H4] Ht Et Eo Eu Ew Ec (n & Ed & En) (k & Ef & Ek). destruct (thread_sums s s' t th p o Ht Et) as [S1 S2].
  constructor.
  - lia.
  - rewrite Ew, H2, Eu. unfold total_sunk. by rewrite Eo.
  - rewrite Ed, H3, wrap_add_l. f_equal. lia.
  - rewrite Ef, H4, wrap_add_l. f_equal. lia.
Qed.
Lemma counts_goto t th p o s s' : counts_ok s -> threads s !! t = Some th -> threads s' = <[t := mkThread p o]> (threads s) -> out s' = out s -> uncounted s' = uncounted s ->
  GetAsyncStats s' = GetAsyncStats s -> total_pushed s' = total_pushed s -> dropped s' = dropped s -> fell_back s' = fell_back s ->
  (accepted s' + busy th = accepted s + busy (mkThread p o))%nat -> dropping th = dropping (mkThread p o) -> counts_ok s'.
Proof.
  intros Hc Ht Et Eo Eu [= E1 E2 E3] E4 E5 E6 E7 E8. eapply counts_move; eauto; [lia| |].
  - exists 0. rewrite E2, Z.add_0_r. split; [|lia]. rewrite (co_dropped s Hc). by rewrite wrap_wrap.
  - exists 0%nat. rewrite E3, Z.add_0_r. split; [|lia]. rewrite (co_fallback s Hc). by rewrite wrap_wrap.
Qed.
Lemma same_pushed s s' i b b' : buffers s !! i = Some b -> buffers s' = <[i := b']> (buffers s) -> pushed b' = pushed b -> total_pushed s' = total_pushed s.
Proof. intros Hb Es Ep. pose proof (pushed_sum s s' i b b' Hb Es). rewrite Ep in *. lia. Qed.
Lemma counts_acquire t th c0 i0 c i s s' : counts_ok s -> threads s !! t = Some th -> pc th = tAcquire c0 i0 -> acquire_step t th c i s = Some s' -> counts_ok s'.
Proof.
  intros Hs Ht Hpc E. unfold acquire_step in E. log_cases E; (eapply counts_goto; [done|exact Ht|reflexivity|reflexivity|reflexivity|reflexivity| |reflexivity|reflexivity|unfold busy; by rewrite Hpc|unfold dropping; by rewrite Hpc]); try done.
  by eapply same_pushed.
Qed.
Lemma counts_exit t th s s' : counts_ok s -> threads s !! t = Some th -> pc th = tIdle -> exit_thread t th s = Some s' -> counts_ok s'.
Proof.
  intros Hs Ht Hpc E. unfold exit_thread in E. log_cases E; (eapply counts_goto; [done|exact Ht|reflexivity|reflexivity|reflexivity|reflexivity| |reflexivity|reflexivity|unfold busy; by rewrite Hpc|unfold dropping; by rewrite Hpc]); try done.
  by eapply same_pushed.
Qed.
Lemma counts_push t th c i now s s' : counts_ok s -> threads s !! t = Some th -> pc th = tPush c i -> push_step t th c i now s = Some s' -> counts_ok s'.
Proof.
  intros Hs Ht Hpc E. unfold push_step in E. destruct (buffers s !! i) as [b|] eqn:Hb; [|done]. cbn [mbind option_bind] in E. destruct (new_entry _ _ _ _) as [e|]; [|done]. cbn [mbind option_bind] in E.
  destruct (Push e (queue b)) as [[] q]; injection E as <-; (eapply counts_move; [done|exact Ht|reflexivity|reflexivity|reflexivity|reflexivity| | |exists 0%nat; cbn; split; [rewrite (co_fallback s Hs), Z.add_0_r; by rewrite wrap_wrap|lia]]); unfold busy, dropping; rewrite Hpc; cbn [pc].
  - set (s' := goto _ _ _ _). pose proof (pushed_sum s s' i b (mkBuffer q (active b) (buf_thread_id b) (pushed b ++ [(t, e)])) Hb eq_refl) as Hp. cbn [pushed] in Hp. rewrite length_app in Hp. cbn in *. lia.
  - exists 0. cbn. rewrite Z.add_0_r, (co_dropped s Hs). split; [by rewrite wrap_wrap|lia].
  - change (total_pushed (goto _ _ _ _)) with (total_pushed s). cbn. lia.
  - exists 0. cbn. rewrite Z.add_0_r, (co_dropped s Hs). split; [by rewrite wrap_wrap|lia].
Qed.
Ltac same_counts Hs Ht Hpc := eapply counts_goto; [exact Hs|exact Ht|reflexivity|reflexivity| |reflexivity|reflexivity|reflexivity|reflexivity|unfold busy; rewrite Hpc; cbn; lia|unfold dropping; by rewrite Hpc].
Lemma counts_thread t a s s' : counts_ok s -> thread_exec t a s = Some s' -> counts_ok s'.
Proof.
  intros Hs E. unfold thread_exec in E. destruct (aborted s); [done|]. destruct (threads s !! t) as [th|] eqn:Ht; [|done]. cbn [mbind option_bind] in E.
  destruct (pc th) eqn:Hpc; destruct a; try done; try (by eapply counts_acquire); try (by eapply counts_exit); try (by eapply counts_push).
  all: try unfold begin_log in E; unfold continue_with in E; log_cases E; try done; try (by destruct Hs).
  all: try (same_counts Hs Ht Hpc; unfold uncounted; cbn; rewrite ?Hm, ?Hm0, ?Hm1; done).
  - eapply counts_move; [exact Hs|exact Ht|reflexivity..| | |exists 1%nat; cbn; split; [done|lia]]; unfold busy, dropping; rewrite Hpc; cbn [pc].
    + change (total_pushed (goto _ _ _ _)) with (total_pushed s). cbn. lia.
    + exists 0. cbn. rewrite Z.add_0_r, (co_dropped s Hs). split; [by rewrite wrap_wrap|lia].
  - eapply counts_move; [exact Hs|exact Ht|reflexivity..| | |exists 0%nat; cbn; split; [rewrite (co_fallback s Hs), Z.add_0_r; by rewrite wrap_wrap|lia]]; unfold busy, dropping; rewrite Hpc; cbn [pc].
    + change (total_pushed (goto _ _ _ _)) with (total_pushed s). cbn. lia.
    + exists 1. cbn. split; [done|lia].
Qed.
Lemma counts_quiet s s' : counts_ok s -> threads s' = threads s -> total_pushed s' = total_pushed s -> out s' = out s -> uncounted s' = uncounted s -> GetAsyncStats s' = GetAsyncStats s ->
  accepted s' = accepted s -> dropped s' = dropped s -> fell_back s' = fell_back s -> counts_ok s'.
Proof.
  intros [H1 H2 H3 H4] E1 E2 E3 E4 [= E5 E6 E7] E8 E9 E10. constructor; [by rewrite E8, E2, E9, E10, E1|by unfold total_sunk; rewrite E5, E3, E4|by rewrite E6, E9, E1|by rewrite E7, E10].
Qed.
Lemma counts_writer now s s' : counts_ok s -> writer_exec now s = Some s' -> counts_ok s'.
Proof.
  intros Hs E. unfold writer_exec in E. destruct (aborted s); [done|]. destruct (writer s) as [w|] eqn:Hw; [|done]. cbn [mbind option_bind] in E. pose proof (co_written s Hs) as Hwr.
  destruct (wpc w) as [ | |p i got|p i got|p i got|p i got xs|p i got n| | | ] eqn:Hpc; try done; unfold uncounted in Hwr; rewrite Hw, Hpc in Hwr.
  6: { injection E as <-. destruct Hs as [H1 H2 H3 H4]. constructor; [done| |done|done]. unfold total_sunk, uncounted. cbn. rewrite sum_list_with_app. cbn. rewrite Hwr. unfold total_sunk. f_equal. lia. }
  6: { injection E as <-. destruct Hs as [H1 H2 H3 H4]. constructor; [done| |done|done]. unfold uncounted, total_sunk in *. cbn. rewrite Hwr, wrap_add_l. f_equal. lia. }
  all: unfold pass_end in E; log_cases E; (apply (counts_quiet s); [done|reflexivity| |reflexivity|unfold uncounted; rewrite Hw, Hpc; cbn; repeat case_match; done|reflexivity..]); try done.
  all: by eapply same_pushed.
Qed.

(** ** What holds whatever the threads do *)

Definition log_inv (s : LogSystem) : Prop := bufs_ok s /\ slots_ok s /\ counts_ok s.
Lemma log_inv_step s s' : log_step s s' -> log_inv s -> log_inv s'.
Proof.
  intros [[t a|now] E] (H1 & H2 & H3); cbn in E.
  - split_and!; [by eapply bufs_thread|by eapply slots_thread|by eapply counts_thread].
  - split_and!; [by eapply bufs_writer|by eapply slots_writer|by eapply counts_writer].
Qed.
Lemma log_inv_start n gate : log_inv (AsyncLogContext n gate).
Proof.
  destruct (Spsc.SpscRingbuffer_ok 64 kd (T := LogEntry)) as [Hi Hc]. split_and!.
  - split; [apply length_replicate|]. intros i b [-> _]%lookup_replicate. split; [done|]. cbn. by rewrite Hc.
  - assert (Hidle : forall t th, threads (AsyncLogContext n gate) !! t = Some th -> th = mkThread tIdle None) by (intros t th [-> _]%lookup_replicate; done).
    constructor.
    + intros t th i ->%Hidle. done.
    + intros t t' th th' i ->%Hidle. done.
    + intros i b t e [-> _]%lookup_replicate. cbn. intros []%elem_of_nil.
    + intros t th c i ->%Hidle. done.
  - assert (Hz : forall (f : LogThread -> nat) m, f (mkThread tIdle None) = 0%nat -> sum_list_with f (replicate m (mkThread tIdle None)) = 0%nat) by (intros f m Hf; induction m; cbn; lia).
    assert (Hp : total_pushed (AsyncLogContext n gate) = 0%nat) by (unfold total_pushed; cbn; generalize MAX_THREADS as m; induction m; cbn; lia).
    constructor; [rewrite Hp; cbn; by rewrite Hz|done|cbn; by rewrite Hz|done].
Qed.

(** C17. Whatever the threads log and whenever they start, stop and end, and wherever the
    writer is: the entries a buffer took are those its sink has got, then those the
    writer holds, then those still queued, in the order they were pushed - none is
    lost, doubled or overtaken -, all entries of a thread are in one buffer, so the
    sink gets them in the thread's order; and the counters account for every call that
    passed the level gate and went on to the asynchronous path ([accepted]).  Calls at
    ERROR and FATAL write synchronously and are not counted. *)
Theorem async_log_accounts n gate s : rtc log_step (AsyncLogContext n gate) s ->
  (forall i b, buffers s !! i = Some b -> (pushed b).*2 = sunk s i ++ in_flight s i ++ contents (queue b))
  /\ (forall i j b b' t e e', buffers s !! i = Some b -> buffers s !! j = Some b' -> (t, e) ∈ pushed b -> (t, e') ∈ pushed b' -> i = j)
  /\ accepted s = (total_pushed s + dropped s + fell_back s + sum_list_with busy (threads s))%nat
  /\ GetAsyncStats s = (u64 (Z.of_nat (total_sunk s) - uncounted s), u64 (Z.of_nat (dropped s) - Z.of_nat (sum_list_with dropping (threads s))), u64 (Z.of_nat (fell_back s))).
Proof.
  intros Hr. destruct (rtc_invariant log_step log_inv _ s (log_inv_start n gate) log_inv_step Hr) as (Hb & Hs & Hc). split_and!.
  - intros i b Hi. by apply Hb.
  - intros i j b b' t e e' Hi Hj He He'. destruct (so_own s Hs i b t e Hi He) as (th & Ht & E1), (so_own s Hs j b' t e' Hj He') as (th' & Ht' & E2). by simplify_eq.
  - apply Hc.
  - unfold GetAsyncStats. by rewrite (co_written s Hc), (co_dropped s Hc), (co_fallback s Hc).
Qed.

(** ** The final drain *)

Context (Hsize : Z.of_nat MAX_THREADS * BATCH < 2 ^ 32).
Definition queue_len (s : LogSystem) (j : nat) : Z := match buffers s !! j with Some b => Z.of_nat (length (contents (queue b))) | None => 0 end.
(** In round [r] every buffer has been lowered [r] times, those before [i] once more. *)
Definition swept (r i : nat) (s : LogSystem) : Prop := forall j, queue_len s j <= Z.max 0 (2 ^ kd - (Z.of_nat r + (if (j <? i)%nat then 1 else 0)) * BATCH).
Definition in_round (r : nat) : Prop := Z.of_nat r < kDrainRounds.
Definition drain_at (r i : nat) (got : Z) (s : LogSystem) : Prop :=
  in_round r /\ (i <= MAX_THREADS)%nat /\ swept r i s /\ 0 <= got <= Z.of_nat i * BATCH /\ (got = 0 -> forall j, (j < i)%nat -> queue_len s j = 0).
Definition drain_ok (s : LogSystem) : Prop :=
  late s = false ->
  match writer s with
  | None => True
  | Some w =>
    match wpc w with
    | wAt (pDrain r) i got => drain_at r i got s
    | wPop (pDrain r) i got => drain_at r i got s /\ (i < MAX_THREADS)%nat
    | wSink (pDrain r) i got xs => in_round r /\ (i < MAX_THREADS)%nat /\ swept r (S i) s /\ 0 <= got <= Z.of_nat i * BATCH /\ 0 < Z.of_nat (length xs) <= BATCH
    | wAdd (pDrain r) i got n => in_round r /\ (i < MAX_THREADS)%nat /\ swept r (S i) s /\ 0 < got <= Z.of_nat (S i) * BATCH
    | wChk (pDrain _) _ _ => False
    | wLast | wDone => forall j, queue_len s j = 0
    | _ => True
    end
  end.
Lemma drain_frame s s' : drain_ok s -> (late s' = false -> late s = false) -> writer s' = writer s -> (forall j, queue_len s' j = queue_len s j) -> drain_ok s'.
Proof.
  intros Hd Hl Hw Hq Hl'. specialize (Hd (Hl Hl')). rewrite Hw. destruct (writer s) as [w|]; [|done].
  assert (Hsw : forall r i, swept r i s -> swept r i s') by (intros r i H j; rewrite Hq; apply H).
  assert (Hda : forall r i got, drain_at r i got s -> drain_at r i got s') by (intros r i got (? & ? & ? & ? & H); split_and!; try done; try tauto; [by apply Hsw|intros Hg j Hj; rewrite Hq; by apply H]).
  destruct (wpc w) as [ | |[|r] i got|[|r] i got|[|r] i got|[|r] i got xs|[|r] i got n| | | ]; try done; try (intros j; rewrite Hq; apply Hd); [by apply Hda|destruct Hd; split; [by apply Hda|done]|destruct Hd as (? & ? & ? & ?); split_and!; try done; try tauto; by apply Hsw..].
Qed.
Lemma drain_vacuous s : leaving (writer s) = false -> drain_ok s.
Proof. unfold leaving, drain_ok. intros Hw _. destruct (writer s) as [w|]; [|done]. by destruct (wpc w) as [ | |[|r] i got|[|r] i got|[|r] i got|[|r] i got xs|[|r] i got n| | | ]. Qed.
Lemma queue_len_insert s s' i b b' : buffers s !! i = Some b -> buffers s' = <[i := b']> (buffers s) -> queue b' = queue b -> forall j, queue_len s' j = queue_len s j.
Proof.
  intros Hb Es Eq j. unfold queue_len. rewrite Es. destruct (decide (i = j)) as [->|]; [|by rewrite list_lookup_insert_ne].
  rewrite list_lookup_insert_eq by (by eapply lookup_lt_Some). by rewrite Hb, Eq.
Qed.
Lemma drain_push t th c i now s s' : drain_ok s -> push_step t th c i now s = Some s' -> drain_ok s'.
Proof.
  intros Hd E. unfold push_step in E. destruct (buffers s !! i) as [b|]; [|done]. cbn [mbind option_bind] in E. destruct (new_entry _ _ _ _) as [e|]; [|done]. cbn [mbind option_bind] in E.
  destruct (Push e (queue b)) as [[] q]; injection E as <-; [|by apply (drain_frame s)]. intros Hl. cbn in Hl. apply orb_false_iff in Hl as [Hl Hlv].
  assert (H : drain_ok (set_buffers (<[i := mkBuffer q (active b) (buf_thread_id b) (pushed b ++ [(t, e)])]> (buffers s)) s)) by (by apply drain_vacuous). by apply H.
Qed.
Lemma drain_thread t a s s' : drain_ok s -> thread_exec t a s = Some s' -> drain_ok s'.
Proof.
  intros Hd E. unfold thread_exec in E. destruct (aborted s); [done|]. destruct (threads s !! t) as [th|] eqn:Ht; [|done]. cbn [mbind option_bind] in E.
  destruct (pc th) eqn:Hpc; destruct a; try done; try (by eapply drain_push); unfold acquire_step, exit_thread, begin_log in E; log_cases E; try done; try (by apply (drain_frame s)).
  all: try (by apply (drain_frame s); [done..|by eapply queue_len_insert]).
  all: by apply drain_vacuous.
Qed.
Lemma queue_len_range s j : bufs_ok s -> 0 <= queue_len s j <= 2 ^ kd.
Proof.
  intros [_ Hb]. unfold queue_len. pose proof (Z.pow_nonneg 2 kd). destruct (buffers s !! j) as [b|] eqn:E; [|lia]. destruct (Hb j b E) as [Hi _].
  pose proof (Spsc.length_contents 64 kd (queue b)). pose proof (Spsc.inv_size 64 kd _ Hi). unfold Spsc.BufferSize in *. lia.
Qed.
Lemma queue_len_none s j : bufs_ok s -> (MAX_THREADS <= j)%nat -> queue_len s j = 0.
Proof. intros [Hl _] Hj. unfold queue_len. by rewrite lookup_ge_None_2 by lia. Qed.
Lemma rounds_enough : 2 ^ kd < kDrainRounds * BATCH.
Proof. unfold kDrainRounds. pose proof (Z.mul_succ_div_gt (2 ^ kd) BATCH HBATCH). lia. Qed.
Lemma drain_begins s : bufs_ok s -> drain_at 0 0 0 s.
Proof.
  intros Hb. split_and!; [|lia| |lia|lia|lia].
  - unfold in_round, kDrainRounds. pose proof (Z.div_pos (2 ^ kd) BATCH (Z.pow_nonneg 2 kd ltac:(lia)) HBATCH). lia.
  - intros j. pose proof (queue_len_range s j Hb). cbn. lia.
Qed.
(** A buffer is popped: the rest of the sweep. *)
Lemma swept_pop r i s s' : swept r i s -> (forall j, j <> i -> queue_len s' j = queue_len s j) -> queue_len s' i <= Z.max 0 (queue_len s i - BATCH) -> swept r (S i) s'.
Proof.
  intros Hs Hj Hi j. specialize (Hs j). destruct (decide (j = i)) as [->|Hne].
  - destruct (Nat.ltb_spec i i); [lia|]. destruct (Nat.ltb_spec i (S i)); [|lia]. lia.
  - rewrite Hj by done. destruct (Nat.ltb_spec j i), (Nat.ltb_spec j (S i)); lia.
Qed.
Lemma round_ends r got s w : bufs_ok s -> drain_at r MAX_THREADS got s -> forall s', writer s' = Some w -> wpc w = pass_end (pDrain r) got -> (forall j, queue_len s' j = queue_len s j) -> drain_ok s'.
Proof.
  intros Hb (Hr & _ & Hsw & Hg & Hz) s' Hw Hpc Hq _. rewrite Hw, Hpc. unfold pass_end. destruct (Z.eqb_spec got 0) as [->|Hne].
  { intros j. rewrite Hq. destruct (decide (j < MAX_THREADS)%nat); [by apply Hz|apply queue_len_none; [done|lia]]. }
  assert (Hlow : forall j, queue_len s j <= Z.max 0 (2 ^ kd - Z.of_nat (S r) * BATCH)).
  { intros j. specialize (Hsw j). destruct (Nat.ltb_spec j MAX_THREADS); [lia|]. rewrite queue_len_none by done. lia. }
  destruct (Z.ltb_spec (Z.of_nat (S r)) kDrainRounds) as [Hlt|Hge].
  - split_and!; [done|lia| |lia|lia|lia]. intros j. rewrite Hq. specialize (Hlow j). cbn. lia.
  - intros j. rewrite Hq. specialize (Hlow j). pose proof (queue_len_range s j Hb). pose proof rounds_enough. nia.
Qed.
Lemma drain_pop r i got s s' w now : bufs_ok s -> drain_ok s -> writer s = Some w -> wpc w = wPop (pDrain r) i got -> writer_exec now s = Some s' -> drain_ok s'.
Proof.
  intros Hb Hd Hw Hpc E Hl'. unfold writer_exec in E. rewrite Hw in E. destruct (aborted s); [done|]. cbn [mbind option_bind] in E. rewrite Hpc in E.
  destruct (buffers s !! i) as [b|] eqn:Hi; [|done]. cbn [mbind option_bind] in E. destruct (proj2 Hb i b Hi) as [Hinv _].
  destruct (PopBatch_spec (queue b) Hinv) as (xs & q & Epop & Hxs & Hq & Hc). rewrite Epop in E.
  assert (Hbu : buffers s' = <[i := mkBuffer q (active b) (buf_thread_id b) (pushed b)]> (buffers s)) by (by injection E as <-).
  assert (Hl : late s = false) by (by injection E as <-). specialize (Hd Hl). rewrite Hw, Hpc in Hd. destruct Hd as ((Hr & Him & Hsw & Hg & Hz) & Hlt).
  assert (Hne : forall j, j <> i -> queue_len s' j = queue_len s j) by (intros j Hj; unfold queue_len; rewrite Hbu; by rewrite list_lookup_insert_ne).
  assert (Hlen : queue_len s i = Z.of_nat (length (contents (queue b)))) by (unfold queue_len; by rewrite Hi).
  assert (Hlen' : queue_len s' i = Z.of_nat (length (contents (queue b)) - Z.to_nat BATCH)) by (unfold queue_len; rewrite Hbu, list_lookup_insert_eq by (by eapply lookup_lt_Some); cbn [queue]; by rewrite Hc, length_drop).
  assert (Hxl : length xs = (Z.to_nat BATCH `min` length (contents (queue b)))%nat) by (by rewrite Hxs, length_take).
  assert (Hsw' : swept r (S i) s') by (eapply swept_pop; [done|done|lia]).
  injection E as <-. cbn [writer wgoto set_writer wpc]. destruct xs as [|x xs].
  - cbn in Hxl. split_and!; [done|lia|done|lia|lia|]. intros Hg0 j Hj. destruct (decide (j = i)) as [->|Hji]; [lia|]. rewrite Hne by done. apply Hz; [done|lia].
  - split_and!; try done; lia.
Qed.
Lemma drain_writer now s s' : bufs_ok s -> drain_ok s -> writer_exec now s = Some s' -> drain_ok s'.
Proof.
  intros Hb Hd E. destruct (writer s) as [w|] eqn:Hw; [|unfold writer_exec in E; rewrite Hw in E; by destruct (aborted s)].
  destruct (wpc w) as [ | |p i got|p i got|p i got|p i got xs|p i got n| | | ] eqn:Hpc.
  5: destruct p as [|r]; [|by eapply drain_pop].
  all: unfold writer_exec in E; rewrite Hw in E; destruct (aborted s); [done|]; cbn [mbind option_bind] in E; rewrite Hpc in E.
  - injection E as <-. by apply drain_vacuous.
  - destruct (shutdown s); injection E as <-; [|by apply drain_vacuous]. intros _. apply (drain_begins s Hb).
  - destruct (Nat.leb_spec MAX_THREADS i) as [Hge|Hlt].
    + injection E as <-. destruct p as [|r]; [by apply drain_vacuous|]. intros Hl. assert (H := Hd Hl). rewrite Hw, Hpc in H. assert (i = MAX_THREADS) as -> by (destruct H as (_ & ? & _); lia).
      eapply (round_ends r got s); [done|done|reflexivity|reflexivity|done|done].
    + destruct p as [|r]; [log_cases E; by apply drain_vacuous|]. injection E as <-. intros Hl. assert (H := Hd Hl). rewrite Hw, Hpc in H. by split.
  - destruct p as [|r]; [log_cases E; by apply drain_vacuous|]. log_cases E; intros Hl; assert (H := Hd Hl); by rewrite Hw, Hpc in H.
  - log_cases E; by apply drain_vacuous.
  - injection E as <-. destruct p as [|r]; [by apply drain_vacuous|]. intros Hl. assert (H := Hd Hl). rewrite Hw, Hpc in H. destruct H as (Hr & Hi & Hsw & Hg & Hx).
    cbn [writer wgoto set_writer wpc]. rewrite wrap_small by (unfold in_range; nia). split_and!; try done; lia.
  - injection E as <-. destruct p as [|r]; [by apply drain_vacuous|]. intros Hl. assert (H := Hd Hl). rewrite Hw, Hpc in H. destruct H as (Hr & Hi & Hsw & Hg).
    cbn [writer wgoto set_writer wpc]. split_and!; try done; lia.
  - log_cases E; by apply drain_vacuous.
  - injection E as <-. intros Hl. assert (H := Hd Hl). by rewrite Hw, Hpc in H.
  - done.
Qed.

(** C18. StopAsync leaves nothing behind: when the writer has ended - which StopAsync waits
    for - and no thread pushed an entry after the writer saw the shutdown, every queue
    is empty and the sink has got every entry that was pushed; the rounds of the final
    drain are enough for full queues. *)
Theorem async_log_drains n gate s w : rtc log_step (AsyncLogContext n gate) s -> writer s = Some w -> wpc w = wDone -> late s = false ->
  forall i b, buffers s !! i = Some b -> contents (queue b) = [] /\ (pushed b).*2 = sunk s i.
Proof.
  intros Hr Hw Hpc Hl i b Hi.
  assert (H : log_inv s /\ drain_ok s).
  { refine (rtc_invariant log_step (fun s => log_inv s /\ drain_ok s) _ s _ _ Hr); [split; [apply log_inv_start|by apply drain_vacuous]|]. intros x y Hxy [Hx Hd]. split; [by eapply log_inv_step|].
    destruct Hxy as [[t a|now] E]; [by eapply drain_thread|by eapply drain_writer; [apply Hx|..]]. }
  destruct H as ((Hb & _ & _) & Hd). specialize (Hd Hl). rewrite Hw, Hpc in Hd. specialize (Hd i). unfold queue_len in Hd. rewrite Hi in Hd.
  assert (Hc : contents (queue b) = []) by (apply nil_length_inv; lia). split; [done|]. destruct (proj2 Hb i b Hi) as [_ Hp]. rewrite Hp, Hc, app_nil_r. unfold in_flight. rewrite Hw, Hpc. apply app_nil_r.
Qed.
End AsyncLog.

(** ** Building entries *)

Lemma SafeStrCopy_spec n dst s : length dst = S n -> exists b, SafeStrCopy dst (Some s) = Some b /\ length b = S n /\ cstr b = Some (take n (c_str s)).
Proof.
  intros Hl. assert (Hpre : exists r, s = c_str s ++ r).
  { clear. induction s as [|c s [r IH] ]; [by exists []|]. cbn. destruct (c =? 0); [by exists (c :: s)|]. exists r. cbn. by f_equal. }
  destruct Hpre as [r Hr]. assert (Htxt : text (c_str s)) by (clear; induction s as [|c s IH]; [constructor|]; cbn; destruct (Z.eqb_spec c 0); by constructor).
  unfold SafeStrCopy. destruct dst as [|x dst]; [done|]. set (d := x :: dst) in *. set (len := if (length d <=? length (c_str s))%nat then (length d - 1)%nat else length (c_str s)).
  assert (Hlen : len = (n `min` length (c_str s))%nat) by (unfold len; destruct (Nat.leb_spec (length d) (length (c_str s))); lia).
  assert (Htake : take len s = take n (c_str s)).
  { rewrite Hr at 1. rewrite take_app_le by lia. rewrite Hlen. destruct (decide (n <= length (c_str s))%nat); [by rewrite Nat.min_l by lia|]. rewrite Nat.min_r, !take_ge by lia. done. }
  assert (Htl : length (take n (c_str s)) = len) by (rewrite length_take; lia).
  rewrite Htake, bcopy_ok by lia. cbn [mbind option_bind]. rewrite Htl. destruct (drop len d) as [|y t] eqn:Ed; [apply (f_equal length) in Ed; rewrite length_drop in Ed; change (length (@nil Z)) with 0%nat in Ed; lia|].
  rewrite bput_app by (by rewrite Htl). eexists. split; [done|]. split; [|by apply cstr_app, Forall_take]. apply (f_equal length) in Ed. rewrite length_drop in Ed. change (length (y :: t)) with (S (length t)) in Ed. rewrite length_app, Htl. change (length (0 :: t)) with (S (length t)). lia.
Qed.
Lemma SafeStrCopy_null dst : (0 < length dst)%nat -> exists b, SafeStrCopy dst None = Some b /\ length b = length dst /\ cstr b = Some [].
Proof. destruct dst as [|x dst]; cbn; [lia|]. intros _. eexists. split; [done|]. by split. Qed.
(** Whatever the stack holds, an entry is built without leaving its arrays; its texts are
    the arguments', cut to the room for them and terminated. *)
Lemma new_entry_spec stack c tid now : entry_sized stack -> exists e, new_entry stack c tid now = Some e /\ entry_sized e /\
  cstr (category e) = Some (take 15 (default [] (c_str <$> c_category c))) /\ cstr (message e) = Some (take 255 (c_str (c_text c))) /\ cstr (file e) = Some (take 23 (c_str (Basename (c_file c)))).
Proof.
  intros (H1 & H2 & H3). unfold new_entry, BuildLogEntry. destruct (SafeStrCopy_spec 255 (message stack) (c_text c) H2) as (m & Em & Lm & Cm). rewrite Em. cbn [mbind option_bind category file].
  assert (Hcat : exists b, SafeStrCopy (category stack) (c_category c) = Some b /\ length b = 16%nat /\ cstr b = Some (take 15 (default [] (c_str <$> c_category c)))).
  { destruct (c_category c) as [s|]; [exact (SafeStrCopy_spec 15 _ s H1)|]. destruct (SafeStrCopy_null (category stack)) as (b & E & L & C); [lia|]. exists b. by rewrite <- H1. }
  destruct Hcat as (b & Eb & Lb & Cb). destruct (SafeStrCopy_spec 23 (file stack) (Basename (c_file c)) H3) as (f & Ef & Lf & Cf). rewrite Eb. cbn [mbind option_bind]. rewrite Ef. eexists. split; [done|]. by split_and!.
Qed.

(** ** Runs *)

#[local] Instance demo_config : Spsc.SpscConfig 64 2.
Proof. constructor; [tauto|lia|by vm_compute]. Qed.
Definition demo_stack : LogEntry := mkEntry 9 9 9 kOff 9 (replicate 16 170) (replicate 256 170) (replicate 24 170) 9 9.
Definition demo_tid (t : nat) : Z := Z.of_nat t + 100.
(** Queues of four entries, batches of two, two buffers, reports every 1000 us. *)
Abbreviation demo_run := (log_run 2 2 2 1000 demo_tid demo_stack).
Abbreviation demo_start n := (AsyncLogContext 2 2 n kInfo).
Lemma log_run_rtc kd B M I tid stack l s s' : log_run kd B M I tid stack l s = Some s' -> rtc (log_step kd B M I tid stack) s s'.
Proof. revert s. induction l as [|a l IH]; intros s; cbn; [intros [= <-]; apply rtc_refl|]. intros (s1 & E & H)%bind_Some. eapply rtc_l; [by exists a|by apply IH]. Qed.

Definition noon : Clock := mkClock 5000 5 43200 7.
Definition call_of (m : Z) : LogCall := mkCall kInfo (Some [110; 101; 116]) (Some [47; 97; 47; 98]) 12 [m].
Definition go (t : nat) : Actor := ByThread t (aGo noon).
Definition write : Actor := ByWriter noon.
(** A call of a thread that has its buffer, once the logger runs. *)
Definition log_quick (t : nat) (m : Z) : list Actor := [ByThread t (aLog (call_of m)); go t; go t; go t].
(** The first call of all starts the writer. *)
Definition log_first (t : nat) (m : Z) : list Actor := ByThread t (aLog (call_of m)) :: replicate 8 (go t).

(** Two threads log while the writer takes a batch; one entry is dropped. *)
Definition demo_acts : list Actor := log_first 0 1 ++ log_quick 1 11 ++ [go 1] ++ log_quick 0 2 ++ log_quick 0 3 ++ log_quick 0 4 ++ log_quick 0 5 ++ [go 0] ++ replicate 6 write ++ log_quick 1 12.
Definition demo_state : LogSystem := default (demo_start 2) (demo_run demo_acts (demo_start 2)).
Lemma demo_state_reachable : rtc (log_step 2 2 2 1000 demo_tid demo_stack) (demo_start 2) demo_state.
Proof. apply (log_run_rtc _ _ _ _ _ _ demo_acts). vm_compute. reflexivity. Qed.
Lemma async_log_accounts_witness :
  GetAsyncStats demo_state = (2, 1, 0) /\ ((fun e => cstr (message e)) <$> sunk demo_state 0) = [Some [1]; Some [2]] /\
  (forall i b, buffers demo_state !! i = Some b -> (pushed b).*2 = sunk demo_state i ++ in_flight demo_state i ++ Spsc.contents 64 2 (queue b))
  /\ (forall i j b b' t e e', buffers demo_state !! i = Some b -> buffers demo_state !! j = Some b' -> (t, e) ∈ pushed b -> (t, e') ∈ pushed b' -> i = j)
  /\ accepted demo_state = (total_pushed demo_state + dropped demo_state + fell_back demo_state + sum_list_with busy (threads demo_state))%nat
  /\ GetAsyncStats demo_state = (u64 (Z.of_nat (total_sunk demo_state) - uncounted demo_state), u64 (Z.of_nat (dropped demo_state) - Z.of_nat (sum_list_with dropping (threads demo_state))), u64 (Z.of_nat (fell_back demo_state))).
Proof. split; [vm_compute; reflexivity|]. split; [vm_compute; reflexivity|]. apply (async_log_accounts 2 2 2 1000 demo_tid demo_stack ltac:(lia) 2 kInfo demo_state demo_state_reachable). Defined.
(** StopAsync, and the writer's steps to the end of its drain. *)
Definition stop (t : nat) : list Actor := [ByThread t aStopAsync; go t; go t].
Definition drained_state : LogSystem := default (demo_start 2) (demo_run (demo_acts ++ stop 1 ++ replicate 20 write) (demo_start 2)).
Lemma drained_reachable : rtc (log_step 2 2 2 1000 demo_tid demo_stack) (demo_start 2) drained_state.
Proof. apply (log_run_rtc _ _ _ _ _ _ (demo_acts ++ stop 1 ++ replicate 20 write)). vm_compute. reflexivity. Qed.
Lemma async_log_drains_witness :
  ((fun e => cstr (message e)) <$> sunk drained_state 0) = [Some [1]; Some [2]; Some [3]; Some [4]] /\
  exists w, writer drained_state = Some w /\ forall i b, buffers drained_state !! i = Some b -> Spsc.contents 64 2 (queue b) = [] /\ (pushed b).*2 = sunk drained_state i.
Proof.
  split; [vm_compute; reflexivity|]. exists (default (mkWriter wTop None 0 0) (writer drained_state)). split; [vm_compute; reflexivity|].
  apply (async_log_drains 2 2 2 1000 demo_tid demo_stack ltac:(lia) ltac:(lia) 2 kInfo drained_state (default (mkWriter wTop None 0 0) (writer drained_state)) drained_reachable); vm_compute; reflexivity.
Defined.

(** ** Behaviours the code does not intend *)

(** A thread logs between the two writes of StopAsync: it takes the logger for stopped
    and sets it running again, but the writer thread, which was not joined yet, refuses
    to start and then ends.  The logger runs without a writer. *)
Definition race_acts : list Actor :=
  log_first 0 1 ++ [write] ++ [ByThread 1 aStopAsync; go 1] ++ log_first 0 2 ++ [go 1] ++ replicate 14 write ++ [go 1].
Definition raced_state : LogSystem := default (demo_start 2) (demo_run race_acts (demo_start 2)).
Lemma restart_race_loses_writer :
  demo_run race_acts (demo_start 2) = Some raced_state /\ running raced_state = true /\ writer raced_state = None /\ ((fun th : LogThread => pc th) <$> threads raced_state) = [tIdle; tIdle].
Proof. by vm_compute. Qed.
(** From then on entries are only queued, and dropped once the queue is full. *)
Lemma logging_without_writer :
  exists s, demo_run (concat (log_quick 0 <$> [3; 4; 5; 6]) ++ log_quick 0 7 ++ [go 0]) raced_state = Some s /\ total_sunk s = 2%nat /\ dropped s = 1%nat /\ writer s = None.
Proof. eexists. split; [vm_compute; reflexivity|]. by vm_compute. Qed.
(** SetSink before StartAsync, as its comment asks, has no effect: StartAsync stores the
    sink of its own argument. *)
Lemma set_sink_overwritten :
  (w_sink <$> (demo_run ([ByThread 0 (aSetSink 7); ByThread 0 (aStartAsync None)] ++ replicate 5 (go 0) ++ [write]) (demo_start 1) ≫= writer)) = Some None.
Proof. by vm_compute. Qed.
(** A new writer starts with no drops reported: those of the last one are reported again. *)
Definition drop_acts : list Actor := log_first 0 1 ++ concat (log_quick 0 <$> [2; 3; 4; 5]) ++ [go 0].
Lemma drops_reported_twice :
  exists s, demo_run (drop_acts ++ stop 0 ++ replicate 22 write ++ [go 0] ++ log_first 0 6 ++ stop 0 ++ replicate 15 write) (demo_start 1) = Some s /\ reports s = [1; 1] /\ dropped s = 1%nat.
Proof. eexists. split; [vm_compute; reflexivity|]. by vm_compute. Qed.
(** After ResetAsyncStats the difference wraps around. *)
Definition later : Clock := mkClock 5000 2000 43200 7.
Lemma reset_report_wraps :
  exists s, (s ← demo_run (drop_acts ++ replicate 9 write ++ [ByWriter later]) (demo_start 1); demo_run (stop 0 ++ replicate 14 write) (ResetAsyncStats s)) = Some s /\ reports s = [1; 2 ^ 64 - 1].
Proof. eexists. split; [vm_compute; reflexivity|]. by vm_compute. Qed.
