(* ===== verification/Discovery.v ===== *)
(** * Discovery (include/osp/discovery.hpp)

    StaticDiscovery, a table filled by configuration; MulticastDiscovery, the table of
    the nodes that announce themselves, with timeouts, callbacks, the packets, and
    starting and stopping; TopicAwareDiscovery, the local topics and services.

    Every critical section of the mutex is one operation; its callbacks, called after
    the mutex is released, are its result.  A FixedString is the text it holds. *)

From Stdlib Require Import ZArith Lia Bool.
From stdpp Require Import base numbers list option gmap.
From S2P Require Import Prelude CBuffer Ini Timer.

Open Scope Z_scope.

(** FixedString<63>::assign with truncation (Containers.FixedString.assign_truncates). *)
Definition fixed63 (s : list Z) : list Z := take 63 (c_str s).

Record DiscoveredNode := mkNode { name : list Z; address : list Z; port : Z; last_seen_us : Z; alive : bool }.
#[export] Instance DiscoveredNode_eq_dec : EqDecision DiscoveredNode.
Proof. solve_decision. Defined.
Inductive DiscoveryError := kSocketFailed | kBindFailed | kMulticastJoinFailed | kSendFailed | kAlreadyRunning | kNotRunning.

(** ** StaticDiscovery *)

Section Static.
Context (MaxNodes : nat).
(** The array and the part in use. *)
Record StaticDiscovery := mkStatic { s_nodes : list DiscoveredNode; s_count : nat }.
Definition StaticDiscovery_ctor : StaticDiscovery := mkStatic (replicate MaxNodes (mkNode [] [] 0 0 false)) 0.
Definition AddNode (nm addr : list Z) (p now : Z) (d : StaticDiscovery) : option DiscoveryError * StaticDiscovery :=
  if (MaxNodes <=? s_count d)%nat then (Some kSocketFailed, d)
  else (None, mkStatic (<[s_count d := mkNode (fixed63 nm) (fixed63 addr) p now true]> (s_nodes d)) (S (s_count d))).
(** The first of the [n] nodes from [i] on with the name; strcmp. *)
Fixpoint find_name (n i : nat) (nm : list Z) (l : list DiscoveredNode) : option nat :=
  match n with
  | O => None
  | S n => match l !! i with Some x => if bool_decide (name x = c_str nm) then Some i else find_name n (S i) nm l | None => None end
  end.
Fixpoint shift_down (n j : nat) (l : list DiscoveredNode) : list DiscoveredNode :=
  match n with O => l | S n => shift_down n (S j) (match l !! S j with Some x => <[j := x]> l | None => l end) end.
Definition RemoveNode (nm : list Z) (d : StaticDiscovery) : bool * StaticDiscovery :=
  match find_name (s_count d) 0 nm (s_nodes d) with
  | Some i => (true, mkStatic (shift_down (s_count d - 1 - i) i (s_nodes d)) (s_count d - 1))
  | None => (false, d)
  end.
Definition FindStatic (nm : list Z) (d : StaticDiscovery) : option DiscoveredNode := i ← find_name (s_count d) 0 nm (s_nodes d); s_nodes d !! i.
Definition ForEachStatic (d : StaticDiscovery) : list DiscoveredNode := take (s_count d) (s_nodes d).

(** The table holds the list [l]. *)
Definition static_is (d : StaticDiscovery) (l : list DiscoveredNode) : Prop :=
  length (s_nodes d) = MaxNodes /\ s_count d = length l /\ exists r, s_nodes d = l ++ r.
Definition named (nm : list Z) (x : DiscoveredNode) : Prop := name x = c_str nm.
#[local] Instance named_dec nm x : Decision (named nm x) := decide (name x = c_str nm).

Lemma find_name_spec nm l1 l2 r : find_name (length l2) (length l1) nm (l1 ++ l2 ++ r) = (fun p => (length l1 + p.1)%nat) <$> list_find (named nm) l2.
Proof.
  revert l1. induction l2 as [|x l2 IH]; intros l1; [done|]. cbn [find_name length list_find app]. rewrite list_lookup_middle by done.
  destruct (decide (named nm x)) as [E|E].
  - rewrite bool_decide_eq_true_2 by done. cbn. f_equal. lia.
  - rewrite bool_decide_eq_false_2 by done. specialize (IH (l1 ++ [x])). rewrite <- app_assoc, length_app in IH. cbn in IH. rewrite Nat.add_1_r in IH. cbn [app] in *. rewrite IH.
    destruct (list_find (named nm) l2) as [[]|]; [|done]. cbn. f_equal. lia.
Qed.
Lemma shift_down_spec l1 x l2 r : exists y, shift_down (length l2) (length l1) (l1 ++ x :: l2 ++ r) = l1 ++ l2 ++ y :: r.
Proof.
  revert l1 x. induction l2 as [|z l2 IH]; intros l1 x; [by exists x|]. cbn [shift_down length].
  assert (E : (l1 ++ x :: (z :: l2) ++ r) !! S (length l1) = Some z) by (by rewrite lookup_app_r, <- Nat.add_1_r, Nat.add_comm, Nat.add_sub by lia).
  rewrite E. rewrite insert_app_r_alt, Nat.sub_diag by done. cbn. destruct (IH (l1 ++ [z]) z) as [y Hy]. exists y.
  rewrite length_app, Nat.add_1_r, <- !app_assoc in Hy. exact Hy.
Qed.

Lemma static_ctor_empty : static_is StaticDiscovery_ctor [].
Proof. split; [apply length_replicate|]. split; [done|by eexists]. Qed.
Lemma static_nodes d l : static_is d l -> ForEachStatic d = l.
Proof. intros (_ & Hc & r & Hr). unfold ForEachStatic. by rewrite Hc, Hr, take_app_length. Qed.
(** The table is a list of bounded length, in the order of the additions; names may
    occur more than once, and the first node with the name counts. *)
Lemma AddNode_spec nm addr p now d l : static_is d l ->
  if (length l <? MaxNodes)%nat then (AddNode nm addr p now d).1 = None /\ static_is (AddNode nm addr p now d).2 (l ++ [mkNode (fixed63 nm) (fixed63 addr) p now true])
  else AddNode nm addr p now d = (Some kSocketFailed, d).
Proof.
  intros (Hl & Hc & r & Hr). unfold AddNode. rewrite Hc. destruct (Nat.ltb_spec (length l) MaxNodes), (Nat.leb_spec MaxNodes (length l)); try lia; [|done].
  split; [done|]. split; [by cbn; rewrite length_insert|]. split; [cbn; rewrite length_app; cbn; lia|].
  destruct r as [|x r]; [rewrite app_nil_r in Hr; rewrite Hr in Hl; lia|]. exists r. cbn. rewrite Hr, insert_app_r_alt, Nat.sub_diag, <- app_assoc by done. done.
Qed.
Lemma FindStatic_spec nm d l : static_is d l -> FindStatic nm d = snd <$> list_find (named nm) l.
Proof.
  intros (_ & Hc & r & Hr). unfold FindStatic. rewrite Hc, Hr. pose proof (find_name_spec nm [] l r) as E. cbn [length app] in E. rewrite E.
  destruct (list_find (named nm) l) as [[i x]|] eqn:F; [|done]. apply list_find_Some in F as (F & _). cbn. by apply lookup_app_l_Some.
Qed.
Lemma RemoveNode_spec nm d l : static_is d l ->
  match list_find (named nm) l with
  | Some (i, _) => (RemoveNode nm d).1 = true /\ static_is (RemoveNode nm d).2 (delete i l)
  | None => RemoveNode nm d = (false, d)
  end.
Proof.
  intros (Hl & Hc & r & Hr). unfold RemoveNode. rewrite Hc, Hr. pose proof (find_name_spec nm [] l r) as E. cbn [length app] in E. rewrite E.
  destruct (list_find (named nm) l) as [[i x]|] eqn:F; [|by rewrite <- Hr; destruct d]. apply list_find_Some in F as (F & _). cbn. split; [done|].
  pose proof (lookup_lt_Some l i x F) as Hi. rewrite <- (take_drop_middle l i x F) at 2. rewrite <- app_assoc.
  destruct (shift_down_spec (take i l) x (drop (S i) l) r) as [y Hy]. rewrite length_take, length_drop, Nat.min_l in Hy by lia. cbn [app].
  replace (length l - 1 - i)%nat with (length l - S i)%nat by lia. rewrite Hy. split_and!.
  - cbn. rewrite Hr, length_app in Hl. rewrite !length_app, length_take, length_drop. cbn. lia.
  - cbn. by rewrite length_delete.
  - exists (y :: r). cbn. rewrite delete_take_drop, <- app_assoc. done.
Qed.
(** A node whose name had to be cut is not found, nor removed, under that name. *)
Lemma static_long_name nm addr p now : (63 < length (c_str nm))%nat -> (0 < MaxNodes)%nat -> FindStatic nm (AddNode nm addr p now StaticDiscovery_ctor).2 = None.
Proof.
  intros Hn Hm. pose proof (AddNode_spec nm addr p now _ [] static_ctor_empty) as H. destruct (Nat.ltb_spec (length (@nil DiscoveredNode)) MaxNodes); [|cbn in *; lia].
  rewrite (FindStatic_spec _ _ _ (proj2 H)). cbn. rewrite decide_False; [done|]. unfold named, fixed63. cbn. intros E. apply (f_equal length) in E. rewrite length_take in E. lia.
Qed.
End Static.

(** ** MulticastDiscovery: the table *)

Definition kAnnounceMagic : Z := 0x4F535044.
Definition kAnnounceSize : nat := 70.
(** The packet of AnnounceTick and AnnounceLoop: magic, padded name, port. *)
Definition AnnouncePacket (local_name : list Z) (local_port : Z) : list Z :=
  to_le 4 kAnnounceMagic ++ local_name ++ replicate (64 - length local_name) 0 ++ to_le 2 local_port.
(** The first lines of ProcessAnnounce: the magic, then name_buf, closed at its last byte, and the port. *)
Definition packet_fields (packet : list Z) : option (list Z * Z) :=
  if from_le (take 4 packet) =? kAnnounceMagic then Some (c_str (take 63 (drop 4 packet)), from_le (take 2 (drop 68 packet))) else None.

Notation lives := (filter (fun x => alive x = true)).

Section Multicast.
(** A callback is the function with its context. *)
Context {Cb : Type} (MaxNodes : nat) (timeout_ms : Z) (scheduled : bool).

Record NodeTable := mkTable { nodes_ : list DiscoveredNode; node_count_ : Z; on_node_join_ : option Cb; on_node_leave_ : option Cb }.
Definition MulticastDiscovery_ctor : NodeTable := mkTable (replicate MaxNodes (mkNode [] [] 0 0 false)) 0 None None.
Definition calls (cb : option Cb) (l : list DiscoveredNode) : list (Cb * DiscoveredNode) := match cb with Some f => (fun x => (f, x)) <$> l | None => [] end.

Definition live_named (nm : list Z) (x : DiscoveredNode) : Prop := alive x = true /\ name x = nm.
#[local] Instance live_named_dec nm x : Decision (live_named nm x).
Proof. unfold live_named. apply _. Defined.
(** The entry of a live node with the name, else a free one. *)
Definition slot_for (nm : list Z) (l : list DiscoveredNode) : option nat :=
  match list_find (live_named nm) l with
  | Some (i, _) => Some i
  | None => fst <$> list_find (fun x => alive x = false) l
  end.
(** The result is the calls of the join callback. *)
Definition ProcessAnnounce (packet addr : list Z) (now : Z) (d : NodeTable) : list (Cb * DiscoveredNode) * NodeTable :=
  match packet_fields packet with
  | None => ([], d)
  | Some (name_buf, p) =>
    match slot_for name_buf (nodes_ d) with
    | None => ([], d)
    | Some slot =>
      let is_new := match nodes_ d !! slot with Some x => negb (alive x) | None => false end in
      let x := mkNode (fixed63 name_buf) (fixed63 addr) p now true in
      (if is_new then calls (on_node_join_ d) [x] else [],
       mkTable (<[slot := x]> (nodes_ d)) (if is_new then u32 (node_count_ d + 1) else node_count_ d) (on_node_join_ d) (on_node_leave_ d))
    end
  end.
Definition timeout_us : Z := timeout_ms * 1000.
Definition timed_out (now : Z) (x : DiscoveredNode) : bool := (last_seen_us x <? now) && (timeout_us <? now - last_seen_us x).
Definition kill (x : DiscoveredNode) : DiscoveredNode := mkNode (name x) (address x) (port x) (last_seen_us x) false.
(** The loop of CheckTimeouts: the nodes, their count, the copies of those that left. *)
Fixpoint sweep (now : Z) (l : list DiscoveredNode) (count : Z) : list DiscoveredNode * Z * list DiscoveredNode :=
  match l with
  | [] => ([], count, [])
  | x :: l =>
    if alive x && timed_out now x then let '(l, count, copies) := sweep now l (u32 (count - 1)) in (kill x :: l, count, kill x :: copies)
    else let '(l, count, copies) := sweep now l count in (x :: l, count, copies)
  end.
Definition CheckTimeouts (now : Z) (d : NodeTable) : list (Cb * DiscoveredNode) * NodeTable :=
  let '(l, count, copies) := sweep now (nodes_ d) (node_count_ d) in
  (calls (on_node_leave_ d) copies, mkTable l count (on_node_join_ d) (on_node_leave_ d)).
Definition FindNode (nm : list Z) (d : NodeTable) : option DiscoveredNode := snd <$> list_find (live_named (c_str nm)) (nodes_ d).
Definition NodeCount (d : NodeTable) : Z := node_count_ d.
Definition ForEachNode (d : NodeTable) : list DiscoveredNode := filter (fun x => alive x = true) (nodes_ d).
Definition SetOnNodeJoin (cb : option Cb) (d : NodeTable) : NodeTable := mkTable (nodes_ d) (node_count_ d) cb (on_node_leave_ d).
Definition SetOnNodeLeave (cb : option Cb) (d : NodeTable) : NodeTable := mkTable (nodes_ d) (node_count_ d) (on_node_join_ d) cb.
(** One round of ReceiveLoop: the datagram that was waiting, if any, with the text of
    its sender's address; without a scheduler, the timeouts.  A longer datagram is cut
    to the packet's size by the system. *)
Definition ReceiveRound (dg : option (list Z * list Z)) (now later : Z) (d : NodeTable) : (list (Cb * DiscoveredNode) * list (Cb * DiscoveredNode)) * NodeTable :=
  let '(joins, d) := match dg with
    | Some (bytes, addr) => let packet := take kAnnounceSize bytes in if (length packet =? kAnnounceSize)%nat then ProcessAnnounce packet addr now d else ([], d)
    | None => ([], d)
    end in
  if scheduled then ((joins, []), d) else let '(leaves, d) := CheckTimeouts later d in ((joins, leaves), d).

(** *** The table as a map from names *)

Record Peers := mkPeers { peers : gmap (list Z) (list Z * Z * Z); p_join : option Cb; p_leave : option Cb }.
Definition peer_node (live : bool) (kv : list Z * (list Z * Z * Z)) : DiscoveredNode := mkNode kv.1 kv.2.1.1 kv.2.1.2 kv.2.2 live.
Definition peer_nodes (live : bool) (m : gmap (list Z) (list Z * Z * Z)) : list DiscoveredNode := peer_node live <$> map_to_list m.
Definition silent (now : Z) (v : list Z * Z * Z) : Prop := timeout_us < now - v.2 /\ v.2 < now.
#[local] Instance silent_dec now v : Decision (silent now v).
Proof. unfold silent. apply _. Defined.
Definition spec_announce (nm addr : list Z) (p now : Z) (s : Peers) : list (Cb * DiscoveredNode) * Peers :=
  let v := (take 63 (c_str addr), p, now) in
  let s' := mkPeers (<[nm := v]> (peers s)) (p_join s) (p_leave s) in
  match peers s !! nm with
  | Some _ => ([], s')
  | None => if (size (peers s) <? MaxNodes)%nat then (calls (p_join s) [peer_node true (nm, v)], s') else ([], s)
  end.
Definition spec_timeouts (now : Z) (s : Peers) : list (Cb * DiscoveredNode) * Peers :=
  (calls (p_leave s) (peer_nodes false (filter (fun kv => silent now kv.2) (peers s))),
   mkPeers (filter (fun kv => ~ silent now kv.2) (peers s)) (p_join s) (p_leave s)).

(** *** A session *)

Inductive DiscOp :=
| DPeer (local_name : list Z) (local_port : Z) (addr : list Z) (now later : Z)
| DDatagram (dg : option (list Z * list Z)) (now later : Z)
| DTimeouts (now : Z) | DFind (nm : list Z) | DCount | DForEach | DOnJoin (cb : option Cb) | DOnLeave (cb : option Cb).
Inductive DiscRes :=
| RCalls (joins leaves : list (Cb * DiscoveredNode)) | RNode (x : option DiscoveredNode) | RNum (n : Z) | RNodes (l : list DiscoveredNode) | RUnit.
(** The callbacks of one sweep and the nodes of ForEach come in the order of the slots. *)
Inductive res_eqv : DiscRes -> DiscRes -> Prop :=
| eqv_calls j l l' : l ≡ₚ l' -> res_eqv (RCalls j l) (RCalls j l')
| eqv_nodes l l' : l ≡ₚ l' -> res_eqv (RNodes l) (RNodes l')
| eqv_node x : res_eqv (RNode x) (RNode x)
| eqv_num n : res_eqv (RNum n) (RNum n)
| eqv_unit : res_eqv RUnit RUnit.

Definition disc_op (o : DiscOp) (d : NodeTable) : DiscRes * NodeTable :=
  match o with
  | DPeer nm p addr now later => let '((j, l), d) := ReceiveRound (Some (AnnouncePacket (fixed63 nm) p, addr)) now later d in (RCalls j l, d)
  | DDatagram dg now later => let '((j, l), d) := ReceiveRound dg now later d in (RCalls j l, d)
  | DTimeouts now => let '(l, d) := CheckTimeouts now d in (RCalls [] l, d)
  | DFind nm => (RNode (FindNode nm d), d)
  | DCount => (RNum (NodeCount d), d)
  | DForEach => (RNodes (ForEachNode d), d)
  | DOnJoin cb => (RUnit, SetOnNodeJoin cb d)
  | DOnLeave cb => (RUnit, SetOnNodeLeave cb d)
  end.
Definition spec_later (later : Z) (r : list (Cb * DiscoveredNode) * Peers) : DiscRes * Peers :=
  if scheduled then (RCalls r.1 [], r.2) else let '(l, s) := spec_timeouts later r.2 in (RCalls r.1 l, s).
Definition spec_disc_op (o : DiscOp) (s : Peers) : DiscRes * Peers :=
  match o with
  | DPeer nm p addr now later => spec_later later (spec_announce (take 63 (c_str nm)) addr p now s)
  | DDatagram dg now later =>
    spec_later later match dg with
      | Some (bytes, addr) =>
        if (kAnnounceSize <=? length bytes)%nat then match packet_fields bytes with Some (nm, p) => spec_announce nm addr p now s | None => ([], s) end else ([], s)
      | None => ([], s)
      end
  | DTimeouts now => let '(l, s) := spec_timeouts now s in (RCalls [] l, s)
  | DFind nm => (RNode ((fun v => peer_node true (c_str nm, v)) <$> peers s !! c_str nm), s)
  | DCount => (RNum (Z.of_nat (size (peers s))), s)
  | DForEach => (RNodes (peer_nodes true (peers s)), s)
  | DOnJoin cb => (RUnit, mkPeers (peers s) cb (p_leave s))
  | DOnLeave cb => (RUnit, mkPeers (peers s) (p_join s) cb)
  end.
Definition disc_typed (o : DiscOp) : Prop := match o with DPeer _ p _ _ _ => 0 <= p < 2 ^ 16 | _ => True end.
Fixpoint disc_run {S} (step : DiscOp -> S -> DiscRes * S) (ops : list DiscOp) (s : S) : list DiscRes * S :=
  match ops with [] => ([], s) | o :: ops => let '(r, s) := step o s in let '(rs, s) := disc_run step ops s in (r :: rs, s) end.

(** *** Lemmas *)

Lemma c_str_nonzero s : Forall (fun c => c <> 0) (c_str s).
Proof. induction s as [|c s IH]; [constructor|]. cbn. destruct (Z.eqb_spec c 0); by constructor. Qed.
Lemma c_str_take n s : Forall (fun c => c <> 0) s -> c_str (take n s) = take n s.
Proof. intros H. apply c_str_id. by apply Forall_take. Qed.
Lemma c_str_app_zero s t : Forall (fun c => c <> 0) s -> c_str (s ++ 0 :: t) = s.
Proof. induction 1 as [|c s Hc _ IH]; [done|]. cbn. rewrite (proj2 (Z.eqb_neq _ _)) by done. by rewrite IH. Qed.
Lemma fixed63_nonzero s : Forall (fun c => c <> 0) (fixed63 s).
Proof. apply Forall_take, c_str_nonzero. Qed.
Lemma fixed63_length s : (length (fixed63 s) <= 63)%nat.
Proof. unfold fixed63. rewrite length_take. lia. Qed.
Lemma c_str_length s : (length (c_str s) <= length s)%nat.
Proof. induction s as [|c s IH]; [done|]. cbn. destruct (c =? 0); cbn; lia. Qed.
(** The name of a packet fits. *)
Lemma fixed63_field s : fixed63 (c_str (take 63 s)) = c_str (take 63 s).
Proof. unfold fixed63. rewrite c_str_id by apply c_str_nonzero. apply take_ge. pose proof (c_str_length (take 63 s)) as H. rewrite length_take in H. lia. Qed.
(** What a peer announces is what the packet says. *)
Lemma packet_roundtrip nm p : 0 <= p < 2 ^ 16 -> length (AnnouncePacket (fixed63 nm) p) = kAnnounceSize /\ packet_fields (AnnouncePacket (fixed63 nm) p) = Some (fixed63 nm, p).
Proof.
  intros Hp. pose proof (fixed63_length nm) as Hl. unfold AnnouncePacket. split.
  { rewrite !length_app, !length_to_le, length_replicate. unfold kAnnounceSize. lia. }
  unfold packet_fields. rewrite take_app_length' by (by rewrite length_to_le). rewrite from_to_le by (cbn; unfold kAnnounceMagic; lia). rewrite Z.eqb_refl.
  rewrite drop_app_length' by (by rewrite length_to_le).
  assert (Hz : replicate (64 - length (fixed63 nm)) 0 = replicate (63 - length (fixed63 nm)) 0 ++ [0]).
  { replace (64 - length (fixed63 nm))%nat with ((63 - length (fixed63 nm)) + 1)%nat by lia. by rewrite replicate_add. }
  f_equal. f_equal.
  - rewrite app_assoc, Hz, app_assoc, <- !app_assoc, app_assoc. rewrite take_app_length' by (rewrite length_app, length_replicate; lia).
    destruct (63 - length (fixed63 nm))%nat as [|k] eqn:E; cbn [replicate]; [rewrite app_nil_r; apply c_str_id|apply c_str_app_zero]; apply fixed63_nonzero.
  - rewrite (app_assoc (fixed63 nm)), app_assoc, drop_app_length' by (rewrite !length_app, length_to_le, length_replicate; lia).
    rewrite take_ge by (by rewrite length_to_le). by apply from_to_le.
Qed.

Lemma live_named_peer m nm x : x ∈ peer_nodes true m -> name x = nm -> m !! nm = Some (address x, port x, last_seen_us x).
Proof. intros Hx <-. apply list_elem_of_fmap in Hx as ([k [[a p] t]] & -> & H). by apply elem_of_map_to_list in H. Qed.
Lemma peer_nodes_elem m nm v : m !! nm = Some v -> peer_node true (nm, v) ∈ peer_nodes true m.
Proof. intros H. apply list_elem_of_fmap. exists (nm, v). split; [done|]. by apply elem_of_map_to_list. Qed.
Lemma peer_nodes_insert m nm v : peer_nodes true (<[nm := v]> m) ≡ₚ peer_node true (nm, v) :: peer_nodes true (delete nm m).
Proof. unfold peer_nodes. rewrite <- insert_delete_eq, map_to_list_insert by apply lookup_delete_eq. done. Qed.
Lemma peer_nodes_delete m nm v : m !! nm = Some v -> peer_nodes true m ≡ₚ peer_node true (nm, v) :: peer_nodes true (delete nm m).
Proof. intros H. unfold peer_nodes. by rewrite <- (map_to_list_delete m nm v H). Qed.
Lemma peer_nodes_size b m : length (peer_nodes b m) = size m.
Proof. unfold peer_nodes. by rewrite length_fmap, length_map_to_list. Qed.
Lemma peer_nodes_filter (P : DiscoveredNode -> Prop) `{!forall x, Decision (P x)} (Q : list Z * (list Z * Z * Z) -> Prop) `{!forall kv, Decision (Q kv)} m :
  (forall kv, P (peer_node true kv) <-> Q kv) -> filter P (peer_nodes true m) ≡ₚ peer_nodes true (filter Q m).
Proof.
  intros HPQ. unfold peer_nodes. rewrite map_filter_alt, map_to_list_to_map.
  - induction (map_to_list m) as [|kv l IH]; [done|]. cbn [fmap list_fmap]. rewrite !filter_cons. destruct (decide (P _)) as [E|E], (decide (Q kv)) as [F|F]; cbn; try (rewrite HPQ in E; done); by f_equiv.
  - eapply sublist_NoDup; [apply (NoDup_fst_map_to_list m)|]. apply fmap_sublist, sublist_filter.
Qed.

(** The table holds the peers of the map, in some order, among free entries. *)
Record table_is (d : NodeTable) (s : Peers) : Prop := {
  ti_length : length (nodes_ d) = MaxNodes;
  ti_nodes : lives (nodes_ d) ≡ₚ peer_nodes true (peers s);
  ti_count : node_count_ d = Z.of_nat (size (peers s));
  ti_join : on_node_join_ d = p_join s;
  ti_leave : on_node_leave_ d = p_leave s }.
Context (HMax : Z.of_nat MaxNodes < 2 ^ 32).

Lemma table_size d s : table_is d s -> (size (peers s) <= MaxNodes)%nat.
Proof. intros H. rewrite <- (ti_length _ _ H), <- (peer_nodes_size true), <- (ti_nodes _ _ H). apply length_filter. Qed.
Lemma lives_insert l i x y : l !! i = Some y -> alive x = true -> lives (<[i := x]> l) ≡ₚ x :: lives (delete i l).
Proof. intros Hi Hx. rewrite filter_insert_perm by (by eapply lookup_lt_Some). by rewrite filter_cons_True. Qed.
Lemma lives_delete l i y : l !! i = Some y -> lives l ≡ₚ (if alive y then [y] else []) ++ lives (delete i l).
Proof. intros Hi. rewrite (filter_delete_perm _ l i y Hi), filter_cons. destruct (alive y); by case_decide. Qed.

Lemma find_live d s nm : table_is d s ->
  match list_find (live_named nm) (nodes_ d) with
  | Some (i, x) => nodes_ d !! i = Some x /\ exists v, peers s !! nm = Some v /\ x = peer_node true (nm, v)
  | None => peers s !! nm = None
  end.
Proof.
  intros H. destruct (list_find _ _) as [[i x]|] eqn:F.
  - apply list_find_Some in F as (Hi & (Ha & Hn) & _). split; [done|]. exists (address x, port x, last_seen_us x). split.
    + apply live_named_peer; [|done]. rewrite <- (ti_nodes _ _ H). apply list_elem_of_filter. split; [done|]. by eapply list_elem_of_lookup_2.
    + destruct x. cbn in *. by subst.
  - apply list_find_None in F. destruct (peers s !! nm) as [v|] eqn:E; [|done]. apply peer_nodes_elem in E. rewrite <- (ti_nodes _ _ H) in E.
    apply list_elem_of_filter in E as [_ E]. rewrite Forall_forall in F. by destruct (F _ E).
Qed.

(** Storing a node in an entry that is free or holds a node of that name. *)
Lemma store_peer d s i y nm v : table_is d s -> nodes_ d !! i = Some y -> (if alive y then name y = nm else peers s !! nm = None) ->
  table_is (mkTable (<[i := peer_node true (nm, v)]> (nodes_ d)) (if negb (alive y) then u32 (node_count_ d + 1) else node_count_ d) (on_node_join_ d) (on_node_leave_ d))
    (mkPeers (<[nm := v]> (peers s)) (p_join s) (p_leave s)).
Proof.
  intros H Hi Hy. pose proof (lives_delete _ _ _ Hi) as L. rewrite (ti_nodes _ _ H) in L.
  assert (Hm : is_Some (peers s !! nm) <-> alive y = true).
  { destruct (alive y); [|rewrite Hy; split; [intros []|]; done]. split; [done|]. intros _. eexists. apply live_named_peer; [|exact Hy]. rewrite L. constructor. }
  assert (D : lives (delete i (nodes_ d)) ≡ₚ peer_nodes true (delete nm (peers s))).
  { destruct (alive y) eqn:Ey.
    - destruct (proj2 Hm eq_refl) as [w Hw]. rewrite (peer_nodes_delete _ _ _ Hw) in L. cbn in L.
      assert (Yw : y = peer_node true (nm, w)); [|rewrite <- Yw in L; by apply Permutation_cons_inv in L].
      assert (Hin : y ∈ peer_nodes true (peers s)) by (rewrite (peer_nodes_delete _ _ _ Hw), L; constructor).
      pose proof (live_named_peer _ nm y Hin Hy) as E. rewrite Hw in E. injection E as ->. destruct y. cbn in *. by subst.
    - rewrite delete_id by done. by rewrite L. }
  split; cbn; [by rewrite length_insert, (ti_length _ _ H)| | |apply H|apply H].
  - rewrite (lives_insert _ _ _ _ Hi) by done. by rewrite peer_nodes_insert, D.
  - pose proof (table_size _ _ H). rewrite (ti_count _ _ H). destruct (alive y) eqn:Ey; cbn [negb].
    + rewrite map_size_insert_Some by (by apply Hm). done.
    + rewrite map_size_insert_None by done. rewrite wrap_small; [lia|]. split; [lia|].
      assert (S (size (peers s)) <= MaxNodes)%nat; [|lia]. rewrite <- (ti_length _ _ H), <- (peer_nodes_size true), L.
      pose proof (lookup_lt_Some _ _ _ Hi). pose proof (length_filter (fun x => alive x = true) (delete i (nodes_ d))) as F. rewrite length_delete in F by eauto. cbn [app]. lia.
Qed.
Lemma announce_spec d s packet nm p addr now : table_is d s -> packet_fields packet = Some (nm, p) -> fixed63 nm = nm ->
  (ProcessAnnounce packet addr now d).1 = (spec_announce nm addr p now s).1 /\
  table_is (ProcessAnnounce packet addr now d).2 (spec_announce nm addr p now s).2.
Proof.
  intros H Hp Hn. unfold ProcessAnnounce, spec_announce, slot_for. rewrite Hp, Hn. pose proof (find_live d s nm H) as F.
  destruct (list_find (live_named nm) (nodes_ d)) as [[i x]|].
  - destruct F as (Hi & v & Hv & ->). rewrite Hv, Hi. cbn. split; [done|]. exact (store_peer d s i (peer_node true (nm, v)) nm (fixed63 addr, p, now) H Hi eq_refl).
  - rewrite F. destruct (list_find (fun x => alive x = false) (nodes_ d)) as [[i x]|] eqn:G; cbn [fmap option_fmap option_map fst].
    + apply list_find_Some in G as (Hi & Ha & _). rewrite Hi, Ha. cbn [negb].
      pose proof (store_peer d s i x nm (fixed63 addr, p, now) H Hi) as T. rewrite Ha in T. specialize (T F).
      pose proof (table_size _ _ T) as Hs. cbn in Hs. rewrite map_size_insert_None in Hs by done. destruct (Nat.ltb_spec (size (peers s)) MaxNodes); [|lia].
      cbn. split; [by rewrite (ti_join _ _ H)|exact T].
    + apply list_find_None in G. assert (E : lives (nodes_ d) = nodes_ d).
      { clear -G. induction G as [|x l Hx _ IH]; [done|]. rewrite filter_cons_True by (destruct (alive x); done). by f_equal. }
      assert (size (peers s) = MaxNodes) by (rewrite <- (ti_length _ _ H), <- (peer_nodes_size true), <- (ti_nodes _ _ H), E; done).
      destruct (Nat.ltb_spec (size (peers s)) MaxNodes); [lia|]. done.
Qed.

Lemma sweep_spec now l c : Z.of_nat (length (lives l)) <= c < 2 ^ 32 ->
  let '(l', c', copies) := sweep now l c in
  length l' = length l /\ lives l' = filter (fun x => timed_out now x = false) (lives l) /\
  copies = kill <$> filter (fun x => timed_out now x = true) (lives l) /\ c' = c - Z.of_nat (length copies).
Proof.
  revert c. induction l as [|x l IH]; intros c Hc; cbn [sweep]; [split_and!; try done; cbn; lia|].
  rewrite filter_cons in Hc |- *. destruct (decide (alive x = true)) as [Ea|Ea].
  - cbn [length] in Hc. rewrite Ea. cbn [andb]. rewrite !filter_cons. destruct (timed_out now x) eqn:Et.
    + rewrite wrap_small by (split; lia). specialize (IH (c - 1) ltac:(lia)). destruct (sweep now l (c - 1)) as [[l' c'] copies]. destruct IH as (E1 & E2 & E3 & E4).
      rewrite decide_False, decide_True by done. rewrite filter_cons_False by done. split_and!; [cbn; lia|done|cbn; by rewrite E3|cbn; lia].
    + specialize (IH c ltac:(lia)). destruct (sweep now l c) as [[l' c'] copies]. destruct IH as (E1 & E2 & E3 & E4).
      rewrite decide_True, decide_False by done. rewrite filter_cons_True by done. split_and!; [cbn; lia|by rewrite E2|done|done].
  - apply not_true_is_false in Ea. rewrite Ea. cbn [andb]. specialize (IH c ltac:(lia)). destruct (sweep now l c) as [[l' c'] copies]. destruct IH as (E1 & E2 & E3 & E4).
    rewrite filter_cons_False by (by rewrite Ea). split_and!; [cbn; lia|done|done|done].
Qed.
Lemma timed_out_split now l : (length (filter (fun x => timed_out now x = true) l) + length (filter (fun x => timed_out now x = false) l))%nat = length l.
Proof. induction l as [|x l IH]; [done|]. rewrite !filter_cons. destruct (timed_out now x); repeat case_decide; try congruence; cbn; lia. Qed.
Lemma timed_out_silent now kv : timed_out now (peer_node true kv) = true <-> silent now kv.2.
Proof. unfold timed_out, silent, timeout_us. rewrite andb_true_iff, !Z.ltb_lt. cbn. tauto. Qed.
Lemma timeouts_spec d s now : table_is d s ->
  (CheckTimeouts now d).1 ≡ₚ (spec_timeouts now s).1 /\ table_is (CheckTimeouts now d).2 (spec_timeouts now s).2.
Proof.
  intros H. pose proof (table_size _ _ H) as Hs. assert (Hl : length (lives (nodes_ d)) = size (peers s)) by (by rewrite (ti_nodes _ _ H), peer_nodes_size).
  unfold CheckTimeouts. pose proof (sweep_spec now (nodes_ d) (node_count_ d)) as W. rewrite (ti_count _ _ H) in W |- *. rewrite Hl in W. specialize (W ltac:(lia)).
  destruct (sweep _ _ _) as [[l c] copies]. destruct W as (W1 & W2 & W3 & W4).
  assert (P1 : filter (fun x => timed_out now x = true) (lives (nodes_ d)) ≡ₚ peer_nodes true (filter (fun kv => silent now kv.2) (peers s))).
  { rewrite (ti_nodes _ _ H). apply peer_nodes_filter. apply timed_out_silent. }
  assert (P2 : lives l ≡ₚ peer_nodes true (filter (fun kv => ~ silent now kv.2) (peers s))).
  { rewrite W2, (ti_nodes _ _ H). apply peer_nodes_filter. intros kv. by rewrite <- timed_out_silent, not_true_iff_false. }
  cbn. split.
  - rewrite (ti_leave _ _ H). unfold calls. destruct (p_leave s) as [f|]; [|done]. f_equiv. rewrite W3, P1. unfold peer_nodes. rewrite <- list_fmap_compose. done.
  - split; cbn; [by rewrite W1, (ti_length _ _ H)|exact P2| |apply H|apply H].
    pose proof (timed_out_split now (lives (nodes_ d))) as Sp. rewrite <- W2, P2, peer_nodes_size in Sp. rewrite W4, W3, length_fmap. lia.
Qed.

Lemma receive_spec joins d' r later : table_is d' r.2 -> joins = r.1 ->
  let x := if scheduled then ((joins, []), d') else let '(leaves, d) := CheckTimeouts later d' in ((joins, leaves), d) in
  res_eqv (RCalls x.1.1 x.1.2) (spec_later later r).1 /\ table_is x.2 (spec_later later r).2.
Proof.
  intros H ->. unfold spec_later. destruct scheduled; [by split; [constructor|]|]. destruct (timeouts_spec d' r.2 later H) as [E T].
  destruct (CheckTimeouts later d'), (spec_timeouts later r.2). split; [by constructor|exact T].
Qed.
Lemma disc_op_spec o d s : disc_typed o -> table_is d s -> res_eqv (disc_op o d).1 (spec_disc_op o s).1 /\ table_is (disc_op o d).2 (spec_disc_op o s).2.
Proof.
  intros Ho H. destruct o as [nm p addr now later|dg now later|now|nm| | |cb|cb]; cbn [disc_op spec_disc_op].
  - destruct (packet_roundtrip nm p Ho) as [Hl Hf].
    destruct (announce_spec d s _ _ _ addr now H Hf ltac:(unfold fixed63 at 1; rewrite (c_str_id _ (fixed63_nonzero nm)); apply take_ge, fixed63_length)) as [E T].
    pose proof (receive_spec _ _ _ later T E) as R. unfold ReceiveRound. rewrite take_ge by lia. rewrite Hl, Nat.eqb_refl.
    destruct (ProcessAnnounce _ addr now d). cbn zeta in R. destruct scheduled; [exact R|]. by destruct (CheckTimeouts later _).
  - unfold ReceiveRound. set (r := match dg with Some (_, _) => _ | None => ([], s) end).
    set (y := match dg with Some (_, _) => _ | None => ([], d) end).
    assert (Hr : y.1 = r.1 /\ table_is y.2 r.2).
    { subst y r. destruct dg as [[bytes addr]|]; [|done]. rewrite length_take. destruct (Nat.leb_spec kAnnounceSize (length bytes)) as [Hl|Hl].
      - rewrite Nat.min_l, Nat.eqb_refl by done. assert (F : packet_fields (take kAnnounceSize bytes) = packet_fields bytes).
        { unfold packet_fields, kAnnounceSize. by rewrite take_take, !skipn_firstn_comm, !take_take. }
        destruct (packet_fields bytes) as [[nm p]|] eqn:Ep; [|unfold ProcessAnnounce; by rewrite F].
        apply announce_spec; [done..|]. unfold packet_fields in Ep. destruct (_ =? _) in Ep; [|done]. injection Ep as <- <-. apply fixed63_field.
      - rewrite (proj2 (Nat.eqb_neq _ _)) by lia. done. }
    destruct Hr as [E T]. pose proof (receive_spec _ _ _ later T E) as R. destruct y as [j d']. cbn zeta in R. destruct scheduled; [exact R|]. by destruct (CheckTimeouts later _).
  - destruct (timeouts_spec d s now H) as [E T]. destruct (CheckTimeouts now d), (spec_timeouts now s). split; [by constructor|exact T].
  - split; [|done]. unfold FindNode. pose proof (find_live d s (c_str nm) H) as F. destruct (list_find _ _) as [[i x]|].
    + destruct F as (_ & v & -> & ->). constructor.
    + rewrite F. constructor.
  - split; [|done]. cbn. rewrite <- (ti_count _ _ H). constructor.
  - split; [|done]. constructor. apply (ti_nodes _ _ H).
  - split; [constructor|]. destruct H. by split.
  - split; [constructor|]. destruct H. by split.
Qed.
Lemma ctor_table : table_is MulticastDiscovery_ctor (mkPeers ∅ None None).
Proof.
  split; cbn; [apply length_replicate| |done..]. unfold peer_nodes. rewrite map_to_list_empty.
  clear HMax. induction MaxNodes as [|n IH]; [done|]. cbn [replicate]. by rewrite filter_cons_False.
Qed.
End Multicast.

(** C33. MulticastDiscovery keeps a bounded map from the names of peers to their address,
    port and last announcement: peers join it once, by their own packets or by any
    datagram of that form, and leave it after the timeout, each with its call; the
    queries return what the map holds, for names and addresses of any length. *)
Theorem discovery_refines_map {Cb} MaxNodes timeout_ms scheduled (ops : list (@DiscOp Cb)) :
  Z.of_nat MaxNodes < 2 ^ 32 -> Forall disc_typed ops ->
  let x := disc_run (disc_op timeout_ms scheduled) ops (MulticastDiscovery_ctor MaxNodes) in
  let y := disc_run (spec_disc_op MaxNodes timeout_ms scheduled) ops (mkPeers ∅ None None) in
  Forall2 res_eqv x.1 y.1 /\ lives (nodes_ x.2) ≡ₚ peer_nodes true (peers y.2) /\ (size (peers y.2) <= MaxNodes)%nat.
Proof.
  intros HM Ho. assert (G : forall d s, table_is MaxNodes d s ->
    let x := disc_run (disc_op timeout_ms scheduled) ops d in let y := disc_run (spec_disc_op MaxNodes timeout_ms scheduled) ops s in
    Forall2 res_eqv x.1 y.1 /\ table_is MaxNodes x.2 y.2).
  { induction Ho as [|o ops Ho _ IH]; intros d s H; [by split|]. cbn [disc_run]. destruct (disc_op_spec MaxNodes timeout_ms scheduled HM o d s Ho H) as [E T].
    destruct (disc_op timeout_ms scheduled o d) as [r d'], (spec_disc_op MaxNodes timeout_ms scheduled o s) as [r' s']. specialize (IH d' s' T).
    destruct (disc_run (disc_op _ _) ops d') as [rs d2], (disc_run (spec_disc_op _ _ _) ops s') as [rs' s2]. split; [constructor; [exact E|apply IH]|apply IH]. }
  destruct (G _ _ (ctor_table MaxNodes)) as [E T]. split; [exact E|]. split; [apply T|by eapply table_size].
Qed.
Lemma discovery_refines_map_witness :
  Forall2 res_eqv
    (disc_run (disc_op 3000 false) [DOnJoin (Some tt); DOnLeave (Some tt); DPeer [97] 80 [49] 1000 1000; DPeer [97] 81 [50] 2000 2000; DCount; DTimeouts 4000000; DForEach] (MulticastDiscovery_ctor 2)).1
    (disc_run (spec_disc_op 2 3000 false) [DOnJoin (Some tt); DOnLeave (Some tt); DPeer [97] 80 [49] 1000 1000; DPeer [97] 81 [50] 2000 2000; DCount; DTimeouts 4000000; DForEach] (mkPeers ∅ None None)).1
  /\ (spec_disc_op 2 3000 false (DTimeouts 4000000) (mkPeers {[ [97] := ([50], 81, 2000) ]} None (Some tt))).1 = RCalls [] [(tt, mkNode [97] [50] 81 2000 false)].
Proof. split; [apply discovery_refines_map; [done|repeat constructor; cbn; lia]|vm_compute; reflexivity]. Defined.

(** A peer's packet in a table of one: it joins, is found, and leaves after 3 s. *)
Example peer_joins_and_leaves :
  (disc_run (disc_op 3000 false) [DOnJoin (Some tt); DOnLeave (Some tt); DPeer [97] 80 [49] 1000 1000; DPeer [98] 80 [49] 1500 1500; DFind [97]; DTimeouts 3001000; DTimeouts 3001001; DCount] (MulticastDiscovery_ctor 1)).1
  = [RUnit; RUnit; RCalls [(tt, mkNode [97] [49] 80 1000 true)] []; RCalls [] []; RNode (Some (mkNode [97] [49] 80 1000 true)); RCalls [] []; RCalls [] [(tt, mkNode [97] [49] 80 1000 false)]; RNum 0].
Proof. vm_compute. reflexivity. Qed.

(** ** Starting and stopping *)

Section Lifetime.
Context (MaxTasks announce_interval_ms timeout_ms : Z).

Inductive Tick := AnnounceTick | TimeoutTick.
(** What the calls of the operating system return during Start. *)
Record System := mkSystem { os_socket : Z; os_bind : bool; os_parse : bool; os_member : bool; os_nonblock : bool; os_announce : bool; os_receive : bool; os_now : Z }.
(** The members Start and Stop use; the scheduler; the descriptors that are open. *)
Record Life := mkLife {
  sockfd_ : Z; running : bool; announce_thread_ : bool; receive_thread_ : bool;
  announce_task_id_ : Z; timeout_task_id_ : Z; scheduler_ : option (@TimerScheduler Tick); open_fds : list Z }.
Definition Life_ctor (s : option TimerScheduler) : Life := mkLife (-1) false false false 0 0 s [].
Definition set_running (b : bool) (l : Life) : Life := mkLife (sockfd_ l) b (announce_thread_ l) (receive_thread_ l) (announce_task_id_ l) (timeout_task_id_ l) (scheduler_ l) (open_fds l).
Definition set_threads (a r : bool) (l : Life) : Life := mkLife (sockfd_ l) (running l) a r (announce_task_id_ l) (timeout_task_id_ l) (scheduler_ l) (open_fds l).
Definition open_socket (fd : Z) (l : Life) : Life :=
  mkLife fd (running l) (announce_thread_ l) (receive_thread_ l) (announce_task_id_ l) (timeout_task_id_ l) (scheduler_ l) (if fd <? 0 then open_fds l else fd :: open_fds l).
Definition close_socket (l : Life) : Life :=
  mkLife (-1) (running l) (announce_thread_ l) (receive_thread_ l) (announce_task_id_ l) (timeout_task_id_ l) (scheduler_ l) (filter (fun f => f <> sockfd_ l) (open_fds l)).
(** The tasks of the external scheduler. *)
Definition add_tasks (now : Z) (s : TimerScheduler) (l : Life) : Life :=
  let '(ann_r, s) := Add announce_interval_ms (Some AnnounceTick) now s in
  let ann := match ann_r with inl id => id | inr _ => announce_task_id_ l end in
  let timeout_check_ms := if timeout_ms / 3 =? 0 then 1 else timeout_ms / 3 in
  let '(to_r, s) := Add timeout_check_ms (Some TimeoutTick) now s in
  let to := match to_r with inl id => id | inr _ => timeout_task_id_ l end in
  mkLife (sockfd_ l) (running l) (announce_thread_ l) (receive_thread_ l) ann to (Some s) (open_fds l).
Definition StartDiscovery (os : System) (l : Life) : option DiscoveryError * Life :=
  if running l then (Some kAlreadyRunning, l)
  else
    let l := open_socket (os_socket os) l in
    if sockfd_ l <? 0 then (Some kSocketFailed, l)
    else if negb (os_bind os) then (Some kBindFailed, close_socket l)
    else if negb (os_parse os) then (Some kMulticastJoinFailed, close_socket l)
    else if negb (os_member os) then (Some kMulticastJoinFailed, close_socket l)
    else if negb (os_nonblock os) then (Some kSocketFailed, close_socket l)
    else
      let l := set_running true l in
      let '(ok, l) := match scheduler_ l with
        | Some s => (true, add_tasks (os_now os) s l)
        | None => (os_announce os, set_threads (os_announce os) (receive_thread_ l) l)
        end in
      if negb ok then (Some kNotRunning, set_running false l)
      else if negb (os_receive os) then (Some kNotRunning, set_threads false (receive_thread_ l) (set_running false l))
      else (None, set_threads (announce_thread_ l) true l).
Definition StopDiscovery (l : Life) : Life :=
  if negb (running l) then l
  else
    let l := set_running false l in
    let l := if 0 <=? sockfd_ l then close_socket l else l in
    match scheduler_ l with
    | Some s =>
      let s := (Remove (announce_task_id_ l) s).2 in let s := (Remove (timeout_task_id_ l) s).2 in
      set_threads (announce_thread_ l) false (mkLife (sockfd_ l) (running l) (announce_thread_ l) (receive_thread_ l) (announce_task_id_ l) (timeout_task_id_ l) (Some s) (open_fds l))
    | None => set_threads false false l
    end.

(** At rest: not running, no socket, no thread. *)
Definition at_rest (l : Life) : Prop := running l = false /\ announce_thread_ l = false /\ receive_thread_ l = false.
Lemma filter_fresh fd (fds : list Z) : fd ∉ fds -> filter (fun f => f <> fd) fds = fds.
Proof. induction fds as [|f fds IH]; [done|]. intros H. apply not_elem_of_cons in H as [H1 H2]. rewrite filter_cons_True by done. by rewrite IH. Qed.

(** A start that fails before the threads leaves nothing behind; one that succeeds is
    undone by Stop, up to the scheduler's table. *)
Lemma start_stop os l : at_rest l -> os_socket os ∉ open_fds l ->
  let '(e, l') := StartDiscovery os l in
  match e with
  | None => running l' = true /\ at_rest (StopDiscovery l') /\ sockfd_ (StopDiscovery l') = -1 /\ open_fds (StopDiscovery l') = open_fds l
  | Some kNotRunning => at_rest l' /\ (os_receive os = false \/ scheduler_ l = None /\ os_announce os = false)
  | Some _ => at_rest l' /\ sockfd_ l' < 0 /\ open_fds l' = open_fds l /\ scheduler_ l' = scheduler_ l
  end.
Proof.
  intros (Hr & Ha & Ht) Hf. unfold StartDiscovery. rewrite Hr. unfold open_socket; cbn [sockfd_]. destruct (Z.ltb_spec (os_socket os) 0); [by cbn|].
  assert (Hc : filter (fun f => f <> os_socket os) (os_socket os :: open_fds l) = open_fds l) by (rewrite filter_cons_False by (intros []; done); by apply filter_fresh).
  destruct (os_bind os); [|unfold close_socket; cbn -[filter]; rewrite Hc; done]. destruct (os_parse os); [|unfold close_socket; cbn -[filter]; rewrite Hc; done].
  destruct (os_member os); [|unfold close_socket; cbn -[filter]; rewrite Hc; done]. destruct (os_nonblock os); [|unfold close_socket; cbn -[filter]; rewrite Hc; done]. cbn -[filter].
  destruct (scheduler_ l) as [s|].
  - unfold add_tasks. cbn -[filter]. destruct (Add announce_interval_ms _ _ _) as [r1 s1]. destruct (Add _ _ _ s1) as [r2 s2]. destruct (os_receive os); cbn -[filter]; [|by split; [|left]].
    unfold StopDiscovery. cbn -[filter Z.leb]. rewrite (proj2 (Z.leb_le _ _)) by done. cbn -[filter]. unfold at_rest. cbn -[filter]. by rewrite Hc.
  - destruct (os_announce os); cbn -[filter]; [|by split; [|right]]. destruct (os_receive os); cbn -[filter]; [|by split; [|left]].
    unfold StopDiscovery. cbn -[filter Z.leb]. rewrite (proj2 (Z.leb_le _ _)) by done. cbn -[filter]. unfold at_rest. cbn -[filter]. by rewrite Hc.
Qed.
(** A thread that cannot be started leaves the socket open for good: Stop returns at once. *)
Lemma failed_start_leaks os l : at_rest l -> scheduler_ l = None -> 0 <= os_socket os -> os_bind os && os_parse os && os_member os && os_nonblock os = true -> os_announce os && os_receive os = false ->
  let l' := (StartDiscovery os l).2 in (StartDiscovery os l).1 = Some kNotRunning /\ StopDiscovery l' = l' /\ os_socket os ∈ open_fds l'.
Proof.
  intros (Hr & _) Hs Hfd Hok Hth. unfold StartDiscovery. rewrite Hr. unfold open_socket; cbn [sockfd_]. rewrite (proj2 (Z.ltb_ge _ _)) by done.
  apply andb_true_iff in Hok as [Hok ->]. apply andb_true_iff in Hok as [Hok ->]. apply andb_true_iff in Hok as [-> ->]. cbn. rewrite Hs.
  destruct (os_announce os); cbn in *; [rewrite Hth|]; cbn; (split; [done|]; split; [done|constructor]).
Qed.
End Lifetime.

(** With a scheduler, its tasks stay registered on the discovery as well. *)
Example failed_start_keeps_tasks :
  let '(e, l) := StartDiscovery 1000 3000 (mkSystem 3 true true true true true false 0) (Life_ctor (Some (TimerScheduler_ctor 4))) in
  (e, TaskCount <$> scheduler_ (StopDiscovery l), open_fds (StopDiscovery l)) = (Some kNotRunning, Some 2, [3]).
Proof. vm_compute. reflexivity. Qed.
Example start_stop_removes_tasks :
  let '(e, l) := StartDiscovery 1000 3000 (mkSystem 3 true true true true true true 0) (Life_ctor (Some (TimerScheduler_ctor 4))) in
  (e, TaskCount <$> scheduler_ l, TaskCount <$> scheduler_ (StopDiscovery l), open_fds (StopDiscovery l)) = (None, Some 2, Some 0, []).
Proof. vm_compute. reflexivity. Qed.

(** ** TopicAwareDiscovery *)

Record TopicInfo := mkTopic { topic_name : list Z; type_name : list Z; publisher_port : Z; is_publisher : bool }.
Record ServiceInfo := mkService { service_name : list Z; request_type : list Z; response_type : list Z; service_port : Z }.
Definition kMaxServicesPerNode : nat := 8.

Section Topics.
Context (MaxTopicsPerNode : nat).
(** The parts of the arrays in use. *)
Record TopicAwareDiscovery := mkAware { local_topics_ : list TopicInfo; local_services_ : list ServiceInfo }.
Definition TopicAwareDiscovery_ctor : TopicAwareDiscovery := mkAware [] [].
Definition AddLocalTopic (t : TopicInfo) (d : TopicAwareDiscovery) : option DiscoveryError * TopicAwareDiscovery :=
  if (MaxTopicsPerNode <=? length (local_topics_ d))%nat then (Some kSocketFailed, d) else (None, mkAware (local_topics_ d ++ [t]) (local_services_ d)).
Definition AddLocalService (s : ServiceInfo) (d : TopicAwareDiscovery) : option DiscoveryError * TopicAwareDiscovery :=
  if (kMaxServicesPerNode <=? length (local_services_ d))%nat then (Some kSocketFailed, d) else (None, mkAware (local_topics_ d) (local_services_ d ++ [s])).
(** The loop of FindPublishers and FindSubscribers; the result is what is written to [out]. *)
Fixpoint topics_loop (publisher : bool) (nm : list Z) (max_results count : nat) (l : list TopicInfo) : list TopicInfo :=
  match l with
  | [] => []
  | t :: l =>
    if (max_results <=? count)%nat then []
    else if eqb (is_publisher t) publisher && bool_decide (topic_name t = c_str nm) then t :: topics_loop publisher nm max_results (S count) l
    else topics_loop publisher nm max_results count l
  end.
Definition FindPublishers (nm : list Z) (max_results : nat) (d : TopicAwareDiscovery) : list TopicInfo := topics_loop true nm max_results 0 (local_topics_ d).
Definition FindSubscribers (nm : list Z) (max_results : nat) (d : TopicAwareDiscovery) : list TopicInfo := topics_loop false nm max_results 0 (local_topics_ d).
Definition FindService (nm : list Z) (d : TopicAwareDiscovery) : option ServiceInfo := snd <$> list_find (fun s => service_name s = c_str nm) (local_services_ d).
Definition TopicCount (d : TopicAwareDiscovery) : nat := length (local_topics_ d).
Definition ServiceCount (d : TopicAwareDiscovery) : nat := length (local_services_ d).

(** At most [max_results] topics are written, the first that match, in order. *)
Lemma topics_loop_spec b nm n c l : topics_loop b nm n c l = take (n - c) (filter (fun t => is_publisher t = b /\ topic_name t = c_str nm) l).
Proof.
  revert c. induction l as [|t l IH]; intros c; cbn [topics_loop]; [by destruct (n - c)%nat|]. destruct (Nat.leb_spec n c); [by replace (n - c)%nat with 0%nat by lia|].
  rewrite filter_cons. case_decide as E.
  - destruct E as [-> ->]. rewrite eqb_reflx, bool_decide_eq_true_2 by done. cbn. rewrite IH. by replace (n - c)%nat with (S (n - S c)) by lia.
  - rewrite !IH. destruct (eqb (is_publisher t) b) eqn:Eb; [|done]. apply eqb_prop in Eb. rewrite bool_decide_eq_false_2 by (intros F; by destruct E). done.
Qed.
End Topics.
