(* ===== verification/Service.v ===== *)
(** * Service (include/osp/service.hpp)

    A client's calls and the worker that answers them, as two threads at the ends of
    two byte pipes that move as many bytes at a time as the system likes; connecting,
    starting and stopping; the table of workers; AsyncClient; ServiceRegistry.

    Request and Response are the bytes of the objects, [req_size] and [resp_size] of
    them.  One connection is modelled: the connections of a service share nothing but
    the handler, and a handler's state is what one connection sees of it. *)

From Stdlib Require Import ZArith Lia Bool.
From stdpp Require Import base numbers list option relations gmap.
From S2P Require Import Prelude CBuffer Ini Discovery.

Open Scope Z_scope.

Inductive ServiceError := kBindFailed | kConnectFailed | kSendFailed | kRecvFailed | kTimeout | kSerializeFailed | kDeserializeFailed | kNotRunning.
Definition kServiceRequestMagic : Z := 0x4F535052.
Definition kServiceResponseMagic : Z := 0x4F535041.
Definition kServiceFrameHeaderSize : nat := 8.

(** ** Calls *)

(** What one call of send or recv does. *)
Inductive IoRes := Moves (n : nat) | Interrupted | Fails.
(** What an iteration of SendAll or RecvAll makes of it: bytes, another try, [return false]. *)
Inductive Io := Bytes (b : list Z) | Again | GiveUp.
Definition Send (o : IoRes) (data : list Z) : option Io :=
  match o with
  | Moves O => Some GiveUp
  | Moves n => if (n <=? length data)%nat then Some (Bytes (take n data)) else None
  | Interrupted => Some Again
  | Fails => Some GiveUp
  end.
(** Nothing arrives from an empty pipe, unless the other end is closed. *)
Definition Recv (o : IoRes) (room : nat) (pipe : list Z) (peer_open : bool) : option Io :=
  match o with
  | Moves O => if bool_decide (pipe = []) && negb peer_open then Some GiveUp else None
  | Moves n => if (n <=? room)%nat && (n <=? length pipe)%nat then Some (Bytes (take n pipe)) else None
  | Interrupted => Some Again
  | Fails => Some GiveUp
  end.

Lemma some_byte {A} (l : list A) : l <> [] -> (1 <=? length l)%nat = true.
Proof. by destruct l. Qed.
Lemma some_room n m : (m < n)%nat -> (1 <=? n - m)%nat = true.
Proof. intros H. apply Nat.leb_le. lia. Qed.

Section Rpc.
Context {W : Type} (req_size resp_size : nat) (handler_ : option (list Z -> W -> list Z * W)).

Definition frame_header (magic : Z) (size : nat) : list Z := to_le 4 magic ++ to_le 4 (Z.of_nat size).
Definition header_magic (h : list Z) : Z := from_le (take 4 h).
Definition header_size (h : list Z) : Z := from_le (take 4 (drop 4 h)).

(** Client::Call, between two calls of send or recv; the request is kept for the log. *)
Inductive ClientPc := cIdle
| cSendHeader (rest : list Z) (req : list Z) | cSendData (rest : list Z) (req : list Z)
| cRecvHeader (got : list Z) (req : list Z) | cRecvData (got : list Z) (req : list Z).
(** HandleConnection; [sTop] is the test of the loop. *)
Inductive ServerPc := sTop
| sRecvHeader (got : list Z) | sRecvData (got : list Z)
| sSendHeader (rest : list Z) (resp : list Z) | sSendData (rest : list Z) | sClosed.
Definition open_pc (pc : ServerPc) : bool := match pc with sClosed => false | _ => true end.

Record Rpc := mkRpc {
  connected_ : bool; c_fd : bool; cpc : ClientPc; calls_ : list (list Z * (list Z + ServiceError));
  running_ : bool; spc : ServerPc; handled_ : list (list Z); h_state : W;
  c2s : list Z; s2c : list Z }.
Definition set_client (conn : bool) (pc : ClientPc) (cs : list (list Z * (list Z + ServiceError))) (out inp : list Z) (w : Rpc) : Rpc :=
  mkRpc conn (c_fd w) pc cs (running_ w) (spc w) (handled_ w) (h_state w) out inp.
Definition set_server (pc : ServerPc) (inp out : list Z) (w : Rpc) : Rpc :=
  mkRpc (connected_ w) (c_fd w) (cpc w) (calls_ w) (running_ w) pc (handled_ w) (h_state w) inp out.
Definition return_call (req : list Z) (r : list Z + ServiceError) (conn : bool) (inp : list Z) (w : Rpc) : Rpc :=
  set_client conn cIdle (calls_ w ++ [(req, r)]) (c2s w) inp w.

(** The start of Call. *)
Definition CallBegin (req : list Z) (w : Rpc) : option Rpc :=
  match cpc w with
  | cIdle =>
    if negb (length req =? req_size)%nat then None
    else if negb (connected_ w) then Some (return_call req (inr kNotRunning) false (s2c w) w)
    else Some (set_client true (cSendHeader (frame_header kServiceRequestMagic req_size) req) (calls_ w) (c2s w) (s2c w) w)
  | _ => None
  end.
(** One send or recv of Call and what follows it. *)
Definition ClientIo (o : IoRes) (w : Rpc) : option Rpc :=
  match cpc w with
  | cIdle => None
  | cSendHeader rest req =>
    io ← Send o rest;
    Some match io with
    | Again => w
    | GiveUp => return_call req (inr kSendFailed) false (s2c w) w
    | Bytes b =>
      let rest := drop (length b) rest in
      set_client (connected_ w) (match rest with [] => cSendData req req | _ => cSendHeader rest req end) (calls_ w) (c2s w ++ b) (s2c w) w
    end
  | cSendData rest req =>
    io ← Send o rest;
    Some match io with
    | Again => w
    | GiveUp => return_call req (inr kSendFailed) false (s2c w) w
    | Bytes b =>
      let rest := drop (length b) rest in
      set_client (connected_ w) (match rest with [] => cRecvHeader [] req | _ => cSendData rest req end) (calls_ w) (c2s w ++ b) (s2c w) w
    end
  | cRecvHeader got req =>
    io ← Recv o (kServiceFrameHeaderSize - length got) (s2c w) (open_pc (spc w));
    Some match io with
    | Again => w
    | GiveUp => return_call req (inr kRecvFailed) false (s2c w) w
    | Bytes b =>
      let got := got ++ b in let inp := drop (length b) (s2c w) in
      if (length got =? kServiceFrameHeaderSize)%nat then
        if negb (header_magic got =? kServiceResponseMagic) then return_call req (inr kDeserializeFailed) false inp w
        else if negb (header_size got =? Z.of_nat resp_size) then return_call req (inr kDeserializeFailed) false inp w
        else set_client (connected_ w) (cRecvData [] req) (calls_ w) (c2s w) inp w
      else set_client (connected_ w) (cRecvHeader got req) (calls_ w) (c2s w) inp w
    end
  | cRecvData got req =>
    io ← Recv o (resp_size - length got) (s2c w) (open_pc (spc w));
    Some match io with
    | Again => w
    | GiveUp => return_call req (inr kRecvFailed) false (s2c w) w
    | Bytes b =>
      let got := got ++ b in let inp := drop (length b) (s2c w) in
      if (length got =? resp_size)%nat then return_call req (inl got) (connected_ w) inp w
      else set_client (connected_ w) (cRecvData got req) (calls_ w) (c2s w) inp w
    end
  end.
Definition CloseClient (w : Rpc) : option Rpc :=
  match cpc w with
  | cIdle => Some (mkRpc false false cIdle (calls_ w) (running_ w) (spc w) (handled_ w) (h_state w) (c2s w) (s2c w))
  | _ => None
  end.

(** The response of the handler, or zeros. *)
Definition respond (req : list Z) (h : W) : list Z * W :=
  match handler_ with Some f => f req h | None => (replicate resp_size 0, h) end.
(** One send or recv of HandleConnection, or the test of its loop. *)
Definition ServerIo (o : IoRes) (w : Rpc) : option Rpc :=
  match spc w with
  | sClosed => None
  | sTop => match o with Moves O => Some (set_server (if running_ w then sRecvHeader [] else sClosed) (c2s w) (s2c w) w) | _ => None end
  | sRecvHeader got =>
    io ← Recv o (kServiceFrameHeaderSize - length got) (c2s w) (c_fd w);
    Some match io with
    | Again => w
    | GiveUp => set_server sClosed (c2s w) (s2c w) w
    | Bytes b =>
      let got := got ++ b in let inp := drop (length b) (c2s w) in
      if (length got =? kServiceFrameHeaderSize)%nat then
        if negb (header_magic got =? kServiceRequestMagic) then set_server sClosed inp (s2c w) w
        else if negb (header_size got =? Z.of_nat req_size) then set_server sClosed inp (s2c w) w
        else set_server (sRecvData []) inp (s2c w) w
      else set_server (sRecvHeader got) inp (s2c w) w
    end
  | sRecvData got =>
    io ← Recv o (req_size - length got) (c2s w) (c_fd w);
    Some match io with
    | Again => w
    | GiveUp => set_server sClosed (c2s w) (s2c w) w
    | Bytes b =>
      let req := got ++ b in let inp := drop (length b) (c2s w) in
      if (length req =? req_size)%nat then
        let '(resp, h) := respond req (h_state w) in
        mkRpc (connected_ w) (c_fd w) (cpc w) (calls_ w) (running_ w) (sSendHeader (frame_header kServiceResponseMagic resp_size) resp) (handled_ w ++ [req]) h inp (s2c w)
      else set_server (sRecvData req) inp (s2c w) w
    end
  | sSendHeader rest resp =>
    io ← Send o rest;
    Some match io with
    | Again => w
    | GiveUp => set_server sClosed (c2s w) (s2c w) w
    | Bytes b =>
      let rest := drop (length b) rest in
      set_server (match rest with [] => sSendData resp | _ => sSendHeader rest resp end) (c2s w) (s2c w ++ b) w
    end
  | sSendData rest =>
    io ← Send o rest;
    Some match io with
    | Again => w
    | GiveUp => set_server sClosed (c2s w) (s2c w) w
    | Bytes b =>
      let rest := drop (length b) rest in
      set_server (match rest with [] => sTop | _ => sSendData rest end) (c2s w) (s2c w ++ b) w
    end
  end.
(** Stop clears [running_]; it closes the listening socket, not the connections. *)
Definition StopFlag (w : Rpc) : Rpc := mkRpc (connected_ w) (c_fd w) (cpc w) (calls_ w) false (spc w) (handled_ w) (h_state w) (c2s w) (s2c w).

Inductive RpcAct := aCall (req : list Z) | aClient (o : IoRes) | aClose | aServer (o : IoRes) | aStop.
Definition rpc_exec (a : RpcAct) (w : Rpc) : option Rpc :=
  match a with
  | aCall req => CallBegin req w
  | aClient o => ClientIo o w
  | aClose => CloseClient w
  | aServer o => ServerIo o w
  | aStop => Some (StopFlag w)
  end.
Fixpoint rpc_run (l : list RpcAct) (w : Rpc) : option Rpc :=
  match l with [] => Some w | a :: l => w ← rpc_exec a w; rpc_run l w end.
(** A connection accepted by a worker of a running service. *)
Definition rpc_start (h : W) : Rpc := mkRpc true true cIdle [] true sTop [] h [] [].

(** The responses to requests that are handled one after the other. *)
Fixpoint replies (qs : list (list Z)) (h : W) : list (list Z) :=
  match qs with [] => [] | q :: qs => (respond q h).1 :: replies qs (respond q h).2 end.
(** Bytes and steps between a state and the end of the call in progress. *)
Definition client_rest (w : Rpc) : list Z := match cpc w with cSendHeader rest req => rest ++ req | cSendData rest _ => rest | _ => [] end.
Definition server_rest (w : Rpc) : list Z := match spc w with sSendHeader rest resp => rest ++ resp | sSendData rest => rest | _ => [] end.
Definition asked (w : Rpc) : nat := length (calls_ w) + match cpc w with cIdle => 0 | _ => 1 end.
Definition work_left (w : Rpc) : nat :=
  (2 * length (client_rest w) + length (c2s w) + 3 * length (server_rest w) + length (s2c w) +
   (if length (handled_ w) <? asked w then 3 * (kServiceFrameHeaderSize + resp_size) + 1 else 0) + match spc w with sTop => 1 | _ => 0 end)%nat.
(** Steps that move bytes, and the test of the loop. *)
Definition moving (w : Rpc) (a : RpcAct) : Prop :=
  match a with aClient (Moves (S _)) => True | aServer (Moves (S _)) => True | aServer (Moves O) => spc w = sTop | _ => False end.

(** *** The two streams *)

Lemma Send_bytes o data b : Send o data = Some (Bytes b) -> data = b ++ drop (length b) data /\ b <> [].
Proof.
  unfold Send. destruct o as [[|n]| |]; try done. destruct (Nat.leb_spec (S n) (length data)); [|done]. injection 1 as <-.
  rewrite length_take, Nat.min_l, take_drop by done. split; [done|]. intros E. apply (f_equal length) in E. by rewrite length_take, Nat.min_l in E by done.
Qed.
Lemma Recv_bytes o room pipe b p : Recv o room pipe p = Some (Bytes b) -> pipe = b ++ drop (length b) pipe /\ b <> [] /\ (length b <= room)%nat.
Proof.
  unfold Recv. destruct o as [[|n]| |]; try done; [by destruct (_ && _)|]. destruct (Nat.leb_spec (S n) room); [|done]. destruct (Nat.leb_spec (S n) (length pipe)); [|done].
  injection 1 as <-. rewrite length_take, Nat.min_l, take_drop by done. split; [done|]. split; [|done]. intros E. apply (f_equal length) in E. by rewrite length_take, Nat.min_l in E by done.
Qed.

Definition request_frame (q : list Z) : list Z := frame_header kServiceRequestMagic req_size ++ q.
Definition response_frame (r : list Z) : list Z := frame_header kServiceResponseMagic resp_size ++ r.
Definition client_got (w : Rpc) : list Z := match cpc w with cRecvHeader got _ => got | cRecvData got _ => frame_header kServiceResponseMagic resp_size ++ got | _ => [] end.
Definition server_got (w : Rpc) : list Z := match spc w with sRecvHeader got => got | sRecvData got => frame_header kServiceRequestMagic req_size ++ got | _ => [] end.
Definition current (w : Rpc) : list (list Z) := match cpc w with cIdle => [] | cSendHeader _ q | cSendData _ q | cRecvHeader _ q | cRecvData _ q => [q] end.
Definition ok_calls (oks : list (list Z * list Z)) : list (list Z * (list Z + ServiceError)) := (fun qr => (qr.1, inl qr.2)) <$> oks.
Definition failed (c : list Z * (list Z + ServiceError)) : Prop := c.2 = inr kSendFailed \/ c.2 = inr kRecvFailed \/ c.2 = inr kNotRunning.
Definition flat (frame : list Z -> list Z) (l : list (list Z)) : list Z := concat (frame <$> l).

Lemma length_header m n : length (frame_header m n) = kServiceFrameHeaderSize.
Proof. unfold frame_header. by rewrite length_app, !length_to_le. Qed.
Lemma frame_header_ne m n : frame_header m n <> [].
Proof. intros E. apply (f_equal length) in E. by rewrite length_header in E. Qed.
Lemma header_fields m n : in_range 32 m -> Z.of_nat n < 2 ^ 32 -> header_magic (frame_header m n) = m /\ header_size (frame_header m n) = Z.of_nat n.
Proof.
  intros Hm Hn. unfold header_magic, header_size, frame_header. rewrite take_app_length', drop_app_length' by (by rewrite length_to_le).
  rewrite take_ge by (by rewrite length_to_le). rewrite !from_to_le; [done|change (256 ^ Z.of_nat 4) with (2 ^ 32)..]; [lia|exact Hm].
Qed.
Lemma flat_app f a b : flat f (a ++ b) = flat f a ++ flat f b.
Proof. unfold flat. by rewrite fmap_app, concat_app. Qed.
Lemma flat_one f x : flat f [x] = f x.
Proof. unfold flat. cbn. apply app_nil_r. Qed.
(** Bytes at the start of a stream of frames belong to its first frame. *)
Lemma first_frame f l g k n : Forall (fun x => length (f x) = n) l -> g ++ k `prefix_of` flat f l -> g <> [] -> (length g <= n)%nat ->
  exists x l', l = x :: l' /\ g = take (length g) (f x) /\ k `prefix_of` drop (length g) (f x) ++ flat f l'.
Proof.
  intros Hl Hp Hg Hn. destruct Hl as [|x l Hx Hl]; [by apply prefix_nil_inv in Hp; destruct g|]. exists x, l. split; [done|].
  unfold flat in *. cbn in Hp. rewrite <- (take_drop (length g) (f x)), <- app_assoc in Hp. destruct Hp as [z Hz]. rewrite <- app_assoc in Hz.
  apply app_inj_1 in Hz as [E1 E2]; [|rewrite length_take; lia]. split; [done|]. by exists z.
Qed.

(** *** The invariant *)

Context (Hreq : (0 < req_size)%nat /\ Z.of_nat req_size < 2 ^ 32) (Hresp : (0 < resp_size)%nat /\ Z.of_nat resp_size < 2 ^ 32).
Context (Hhandler : forall f q h, handler_ = Some f -> length (f q h).1 = resp_size).

Lemma respond_length q h : length (respond q h).1 = resp_size.
Proof. unfold respond. destruct handler_ as [f|] eqn:E; [by apply Hhandler|]. apply length_replicate. Qed.
Fixpoint after (qs : list (list Z)) (h : W) : W := match qs with [] => h | q :: qs => after qs (respond q h).2 end.
Lemma replies_snoc qs q h : replies (qs ++ [q]) h = replies qs h ++ [(respond q (after qs h)).1].
Proof. revert h. induction qs as [|p qs IH]; intros h; [done|]. cbn. by rewrite IH. Qed.
Lemma after_snoc qs q h : after (qs ++ [q]) h = (respond q (after qs h)).2.
Proof. revert h. induction qs as [|p qs IH]; intros h; [done|]. cbn. by rewrite IH. Qed.
Lemma replies_app a b h : replies (a ++ b) h = replies a h ++ replies b (after a h).
Proof. revert h. induction a as [|p a IH]; intros h; [done|]. cbn. by rewrite IH. Qed.
Lemma replies_length qs h : length (replies qs h) = length qs.
Proof. revert h. induction qs as [|q qs IH]; intros h; [done|]. cbn. by rewrite IH. Qed.
Lemma replies_typed qs h : Forall (fun r => length r = resp_size) (replies qs h).
Proof. revert h. induction qs as [|q qs IH]; intros h; constructor; [apply respond_length|apply IH]. Qed.

(** Sends have something left, receives have room. *)
Definition client_ok (pc : ClientPc) : Prop :=
  match pc with
  | cIdle => True
  | cSendHeader rest q => rest <> [] | cSendData rest q => rest <> []
  | cRecvHeader got _ => (length got < kServiceFrameHeaderSize)%nat | cRecvData got _ => (length got < resp_size)%nat
  end.
Definition server_ok (pc : ServerPc) : Prop :=
  match pc with
  | sTop | sClosed => True
  | sRecvHeader got => (length got < kServiceFrameHeaderSize)%nat | sRecvData got => (length got < req_size)%nat
  | sSendHeader rest resp => rest <> [] /\ resp <> [] | sSendData rest => rest <> []
  end.
Definition request_bytes (w : Rpc) : list Z := server_got w ++ c2s w ++ client_rest w.
Definition response_bytes (w : Rpc) : list Z := client_got w ++ s2c w ++ server_rest w.
Record inv (h0 : W) (oks : list (list Z * list Z)) (errs : list (list Z * (list Z + ServiceError))) (cur : list (list Z)) (w : Rpc) : Prop := {
  v_calls : calls_ w = ok_calls oks ++ errs;
  v_errs : Forall failed errs;
  v_conn : connected_ w = true -> errs = [] /\ cur = current w /\ c_fd w = true;
  v_busy : cpc w <> cIdle -> connected_ w = true;
  v_cur : (length cur <= 1)%nat;
  v_typed : Forall (fun q => length q = req_size) (oks.*1 ++ cur);
  v_handled : handled_ w `prefix_of` oks.*1 ++ cur;
  v_replies : oks.*2 `prefix_of` replies (handled_ w) h0;
  v_state : h_state w = after (handled_ w) h0;
  v_client : client_ok (cpc w);
  v_server : server_ok (spc w);
  v_in : open_pc (spc w) = true -> flat request_frame (handled_ w) ++ request_bytes w `prefix_of` flat request_frame (oks.*1 ++ cur) /\
    (connected_ w = true -> flat request_frame (handled_ w) ++ request_bytes w = flat request_frame (oks.*1 ++ cur));
  v_out : connected_ w = true -> flat response_frame oks.*2 ++ response_bytes w `prefix_of` flat response_frame (replies (handled_ w) h0) /\
    (open_pc (spc w) = true -> flat response_frame oks.*2 ++ response_bytes w = flat response_frame (replies (handled_ w) h0)) }.

(** Moving bytes along the streams. *)
Lemma inv_move h0 oks errs cur w w' : inv h0 oks errs cur w ->
  connected_ w' = connected_ w -> c_fd w' = c_fd w -> calls_ w' = calls_ w -> handled_ w' = handled_ w -> h_state w' = h_state w -> current w' = current w ->
  (cpc w' <> cIdle -> cpc w <> cIdle) -> (open_pc (spc w') = true -> open_pc (spc w) = true) -> client_ok (cpc w') -> server_ok (spc w') ->
  (open_pc (spc w') = true -> request_bytes w' = request_bytes w) ->
  (response_bytes w' = response_bytes w \/ open_pc (spc w') = false /\ response_bytes w' `prefix_of` response_bytes w) -> inv h0 oks errs cur w'.
Proof.
  intros [] E1 E2 E3 E4 E5 E6 E7 E8 E9 E10 E11 E12. split; rewrite ?E1, ?E2, ?E3, ?E4, ?E5, ?E6; try done; [tauto|..].
  - intros Ho. rewrite (E11 Ho). tauto.
  - intros Hc. specialize (v_out0 Hc) as [P Q]. destruct E12 as [->|[E12 E13]]; [tauto|]. rewrite E12. split; [|done]. etrans; [|exact P]. by apply prefix_app.
Qed.
(** A call that fails: the rest of the request is not sent. *)
Lemma inv_fail h0 oks errs cur w q e : inv h0 oks errs cur w -> cpc w <> cIdle -> current w = [q] -> failed (q, inr e) ->
  inv h0 oks (errs ++ [(q, inr e)]) cur (return_call q (inr e) false (s2c w) w).
Proof.
  intros [] Hc Hq He. split; cbn -[flat frame_header]; try done.
  - rewrite v_calls0. by rewrite app_assoc.
  - apply Forall_app. split; [done|by constructor].
  - intros Ho. split; [|done]. destruct (v_in0 Ho) as [P _]. etrans; [|exact P]. apply prefix_app. unfold request_bytes. apply prefix_app. cbn. apply prefix_app, prefix_nil.
Qed.

(** The first bytes of a message are its header; the whole of it is the message. *)
Lemma header_of_frame m s q g : g = take (length g) (frame_header m s ++ q) -> length g = kServiceFrameHeaderSize -> g = frame_header m s.
Proof. intros E L. rewrite E, L. apply take_app_length'. by rewrite length_header. Qed.
Lemma data_of_frame m s q g : length (frame_header m s ++ g) = length (frame_header m s ++ q) -> frame_header m s ++ g = take (length (frame_header m s ++ g)) (frame_header m s ++ q) -> g = q.
Proof. intros L E. rewrite L, take_ge in E by done. by apply app_inv_head in E. Qed.
Lemma request_typed l : Forall (fun q => length q = req_size) l -> Forall (fun q => length (request_frame q) = (kServiceFrameHeaderSize + req_size)%nat) l.
Proof. intros Hl. eapply Forall_impl; [exact Hl|]. intros q <-. unfold request_frame. by rewrite length_app, length_header. Qed.
Lemma response_typed l : Forall (fun q => length q = resp_size) l -> Forall (fun q => length (response_frame q) = (kServiceFrameHeaderSize + resp_size)%nat) l.
Proof. intros Hl. eapply Forall_impl; [exact Hl|]. intros q <-. unfold response_frame. by rewrite length_app, length_header. Qed.

(** What the worker has of a request is the beginning of one that was asked and not
    yet handled. *)
Lemma next_request h0 oks errs cur w g k : inv h0 oks errs cur w -> open_pc (spc w) = true -> request_bytes w = g ++ k -> g <> [] -> (length g <= kServiceFrameHeaderSize + req_size)%nat ->
  exists q more, oks.*1 ++ cur = handled_ w ++ q :: more /\ length q = req_size /\ g = take (length g) (request_frame q).
Proof.
  intros H Ho E Hg Hl. destruct (v_handled _ _ _ _ _ H) as [l Hl2]. pose proof (proj1 (v_in _ _ _ _ _ H Ho)) as P.
  pose proof (v_typed _ _ _ _ _ H) as T. rewrite Hl2 in P, T. rewrite flat_app, E in P. apply prefix_app_inv in P. apply Forall_app in T as [_ T].
  destruct (first_frame _ _ _ _ _ (request_typed _ T) P Hg Hl) as (q & more & -> & Eq & _). exists q, more. split; [done|]. split; [|done]. by inversion T.
Qed.
Lemma next_response h0 oks errs cur w g k : inv h0 oks errs cur w -> connected_ w = true -> response_bytes w = g ++ k -> g <> [] -> (length g <= kServiceFrameHeaderSize + resp_size)%nat ->
  exists r more, replies (handled_ w) h0 = oks.*2 ++ r :: more /\ length r = resp_size /\ g = take (length g) (response_frame r).
Proof.
  intros H Hc E Hg Hl. destruct (v_replies _ _ _ _ _ H) as [l Hl2]. pose proof (proj1 (v_out _ _ _ _ _ H Hc)) as P.
  pose proof (replies_typed (handled_ w) h0) as T. rewrite Hl2 in P, T. rewrite flat_app, E in P. apply prefix_app_inv in P. apply Forall_app in T as [_ T].
  destruct (first_frame _ _ _ _ _ (response_typed _ T) P Hg Hl) as (q & more & -> & Eq & _). exists q, more. split; [done|]. split; [|done]. by inversion T.
Qed.

(** Bytes leave or reach one of the ends. *)
Lemma inv_client_send h0 oks errs cur w pc b : inv h0 oks errs cur w -> let w' := set_client (connected_ w) pc (calls_ w) (c2s w ++ b) (s2c w) w in
  cpc w <> cIdle -> client_rest w = b ++ client_rest w' -> current w' = current w -> client_got w' = client_got w -> client_ok pc -> inv h0 oks errs cur w'.
Proof.
  intros H w' Hc E1 E2 E3 Hok. apply (inv_move _ _ _ _ _ _ H); try done; [apply H| |]; unfold request_bytes, response_bytes.
  - intros _. rewrite E1. subst w'. cbn. by rewrite <- app_assoc.
  - left. rewrite E3. done.
Qed.
Lemma inv_client_recv h0 oks errs cur w pc b inp : inv h0 oks errs cur w -> let w' := set_client (connected_ w) pc (calls_ w) (c2s w) inp w in
  cpc w <> cIdle -> s2c w = b ++ inp -> client_rest w' = client_rest w -> current w' = current w -> client_got w' = client_got w ++ b -> client_ok pc -> inv h0 oks errs cur w'.
Proof.
  intros H w' Hc E1 E2 E3 E4 Hok. apply (inv_move _ _ _ _ _ _ H); try done; [apply H| |]; unfold request_bytes, response_bytes.
  - intros _. by rewrite E2.
  - left. rewrite E4, E1. subst w'. cbn. by rewrite <- !app_assoc.
Qed.
Lemma inv_server_send h0 oks errs cur w pc b : inv h0 oks errs cur w -> let w' := set_server pc (c2s w) (s2c w ++ b) w in
  open_pc (spc w) = true -> server_rest w = b ++ server_rest w' -> server_got w' = server_got w -> server_ok pc -> inv h0 oks errs cur w'.
Proof.
  intros H w' Hc E1 E2 Hok. apply (inv_move _ _ _ _ _ _ H); try done; [apply H| |]; unfold request_bytes, response_bytes.
  - intros _. by rewrite E2.
  - left. rewrite E1. subst w'. cbn. by rewrite <- !app_assoc.
Qed.
Lemma inv_server_recv h0 oks errs cur w pc b inp : inv h0 oks errs cur w -> let w' := set_server pc inp (s2c w) w in
  open_pc (spc w) = true -> c2s w = b ++ inp -> server_rest w' = server_rest w -> server_got w' = server_got w ++ b -> server_ok pc -> inv h0 oks errs cur w'.
Proof.
  intros H w' Hc E1 E2 E3 Hok. apply (inv_move _ _ _ _ _ _ H); try done; [apply H| |]; unfold request_bytes, response_bytes.
  - intros _. rewrite E3, E1. subst w'. cbn. by rewrite <- !app_assoc.
  - left. by rewrite E2.
Qed.
(** The worker closes its socket. *)
Lemma inv_server_close h0 oks errs cur w inp : inv h0 oks errs cur w -> inv h0 oks errs cur (set_server sClosed inp (s2c w) w).
Proof.
  intros H. apply (inv_move _ _ _ _ _ _ H); try done; [apply H|]. right. split; [done|]. unfold response_bytes. apply prefix_app. cbn. apply prefix_app, prefix_nil.
Qed.

Lemma client_send_inv h0 oks errs cur w o w' : inv h0 oks errs cur w -> (match cpc w with cSendHeader _ _ | cSendData _ _ => True | _ => False end) -> ClientIo o w = Some w' ->
  exists errs', inv h0 oks errs' cur w'.
Proof.
  intros H Hpc E. pose proof (v_busy _ _ _ _ _ H) as Hb. pose proof (v_client _ _ _ _ _ H) as Hok. unfold ClientIo in E.
  assert (Hcur : connected_ w = true -> cur = current w) by apply H. pose proof (v_typed _ _ _ _ _ H) as T.
  destruct (cpc w) as [|rest q|rest q| |] eqn:Epc; try done; destruct (Send o rest) as [[b| |]|] eqn:Es; cbn in E; try done; injection E as <-.
  - apply Send_bytes in Es as [Es Hb0]. exists errs. apply (inv_client_send _ _ _ _ _ _ _ H); [by rewrite Epc|..].
    + unfold client_rest. rewrite Epc. cbn. destruct (drop _ rest) eqn:D; rewrite Es at 1; by rewrite ?D, <- ?app_assoc.
    + unfold current. rewrite Epc. cbn. by destruct (drop _ rest).
    + unfold client_got. rewrite Epc. cbn. by destruct (drop _ rest).
    + destruct (drop _ rest) eqn:D; [|done]. cbn. rewrite Hcur in T by (by apply Hb). unfold current in T. rewrite Epc in T.
      apply Forall_app in T as [_ T]. inversion T as [|? ? T1]; subst. destruct q; [cbn in T1; lia|done].
  - exists errs. done.
  - eexists. apply (inv_fail _ _ _ _ _ q _ H); [by rewrite Epc|by unfold current; rewrite Epc|by left].
  - apply Send_bytes in Es as [Es Hb0]. exists errs. apply (inv_client_send _ _ _ _ _ _ _ H); [by rewrite Epc|..].
    + unfold client_rest. rewrite Epc. cbn. destruct (drop _ rest) eqn:D; rewrite Es at 1; by rewrite ?D, ?app_nil_r.
    + unfold current. rewrite Epc. cbn. by destruct (drop _ rest).
    + unfold client_got. rewrite Epc. cbn. by destruct (drop _ rest).
    + destruct (drop _ rest) eqn:D; [|done]. cbn. unfold kServiceFrameHeaderSize. lia.
  - exists errs. done.
  - eexists. apply (inv_fail _ _ _ _ _ q _ H); [by rewrite Epc|by unfold current; rewrite Epc|by left].
Qed.

(** A complete header is the right one. *)
Lemma response_header_ok h0 oks errs cur w got q b inp : inv h0 oks errs cur w -> cpc w = cRecvHeader got q -> s2c w = b ++ inp -> length (got ++ b) = kServiceFrameHeaderSize ->
  got ++ b = frame_header kServiceResponseMagic resp_size /\ header_magic (got ++ b) = kServiceResponseMagic /\ header_size (got ++ b) = Z.of_nat resp_size.
Proof.
  intros H Epc Es E8. assert (Hb : connected_ w = true) by (apply (v_busy _ _ _ _ _ H); by rewrite Epc).
  destruct (next_response _ _ _ _ _ (got ++ b) (inp ++ server_rest w) H Hb) as (r & more & _ & _ & Er).
  { unfold response_bytes, client_got. rewrite Epc, Es. by rewrite <- !app_assoc. }
  { intros F. by rewrite F in E8. }
  { rewrite E8. lia. }
  apply header_of_frame in Er; [|done]. rewrite Er. split; [done|]. apply header_fields; [done|apply Hresp].
Qed.
Lemma request_header_ok h0 oks errs cur w got b inp : inv h0 oks errs cur w -> spc w = sRecvHeader got -> c2s w = b ++ inp -> length (got ++ b) = kServiceFrameHeaderSize ->
  got ++ b = frame_header kServiceRequestMagic req_size /\ header_magic (got ++ b) = kServiceRequestMagic /\ header_size (got ++ b) = Z.of_nat req_size.
Proof.
  intros H Epc Es E8. destruct (next_request _ _ _ _ _ (got ++ b) (inp ++ client_rest w) H) as (r & more & _ & _ & Er); [by rewrite Epc|..].
  { unfold request_bytes, server_got. rewrite Epc, Es. by rewrite <- !app_assoc. }
  { intros F. by rewrite F in E8. }
  { rewrite E8. lia. }
  apply header_of_frame in Er; [|done]. rewrite Er. split; [done|]. apply header_fields; [done|apply Hreq].
Qed.

Lemma client_recv_inv h0 oks errs cur w o w' : inv h0 oks errs cur w -> (match cpc w with cRecvHeader _ _ | cRecvData _ _ => True | _ => False end) -> ClientIo o w = Some w' ->
  exists oks' errs' cur', inv h0 oks' errs' cur' w'.
Proof.
  intros H Hpc E. pose proof (v_busy _ _ _ _ _ H) as Hb. pose proof (v_client _ _ _ _ _ H) as Hok. unfold ClientIo in E.
  destruct (cpc w) as [| | |got q|got q] eqn:Epc; try done; destruct (Recv o _ _ _) as [[b| |]|] eqn:Es in E; cbn [mbind option_bind] in E; try done; injection E as <-;
    try (exists oks, errs, cur; exact H); try (exists oks; do 2 eexists; apply (inv_fail _ _ _ _ _ q _ H); [by rewrite Epc|by unfold current; rewrite Epc|by right; left]);
    apply Recv_bytes in Es as (Es & Hb0 & Hl); cbn in Hok; assert (Hgb : got ++ b <> []) by (by destruct got); specialize (Hb ltac:(done)).
  - exists oks, errs, cur. destruct (Nat.eqb_spec (length (got ++ b)) kServiceFrameHeaderSize) as [E8|E8].
    + destruct (response_header_ok _ _ _ _ _ _ _ _ _ H Epc Es E8) as (Er & -> & ->).
      rewrite !Z.eqb_refl. cbn [negb]. apply (inv_client_recv _ _ _ _ _ _ b _ H); try done; [by rewrite Epc|unfold client_rest; by rewrite Epc|unfold current; by rewrite Epc| |cbn; lia].
      unfold client_got. rewrite Epc. cbn [cpc set_client]. by rewrite app_nil_r, Er.
    + rewrite length_app in E8. apply (inv_client_recv _ _ _ _ _ _ b _ H); try done; [by rewrite Epc|unfold client_rest; by rewrite Epc|unfold current; by rewrite Epc|unfold client_got; by rewrite Epc|].
      cbn. rewrite length_app. lia.
  - destruct (Nat.eqb_spec (length (got ++ b)) resp_size) as [E8|E8].
    + destruct (next_response _ _ _ _ _ (frame_header kServiceResponseMagic resp_size ++ got ++ b) (drop (length b) (s2c w) ++ server_rest w) H Hb) as (r & more & Hr & Tr & Er).
      { unfold response_bytes, client_got. rewrite Epc. rewrite Es at 1. by rewrite <- !app_assoc. }
      { by destruct (frame_header _ _). }
      { rewrite length_app, length_header, E8. lia. }
      apply data_of_frame in Er; [|by rewrite !length_app, Tr, <- E8, length_app]. subst r.
      destruct H. destruct (v_conn0 Hb) as (-> & -> & Hf). assert (Hq : current w = [q]) by (unfold current; by rewrite Epc). rewrite Hq in *.
      assert (E1 : (oks ++ [(q, got ++ b)]).*1 ++ [] = oks.*1 ++ [q]) by (by rewrite fmap_app, app_nil_r).
      exists (oks ++ [(q, got ++ b)]), [], []. split; try rewrite E1; cbn; try done.
      * rewrite v_calls0, !app_nil_r. unfold ok_calls. by rewrite fmap_app.
      * lia.
      * rewrite Hr, fmap_app. apply prefix_app. by eexists.
      * intros Ho. destruct (v_in0 Ho) as [P Q]. unfold request_bytes, client_rest in P, Q |- *. rewrite Epc in P, Q. tauto.
      * intros _. rewrite fmap_app, flat_app, <- app_assoc. cbn [fmap list_fmap]. rewrite flat_one.
        assert (EB : response_bytes w = response_frame (got ++ b) ++ drop (length b) (s2c w) ++ server_rest w).
        { unfold response_bytes, client_got, response_frame. rewrite Epc. rewrite Es at 1. by rewrite <- !app_assoc. }
        destruct (v_out0 Hb) as [P Q]. rewrite EB in P, Q. split; [exact P|exact Q].
    + exists oks, errs, cur. rewrite length_app in E8. apply (inv_client_recv _ _ _ _ _ _ b _ H); try done; [by rewrite Epc|unfold client_rest; by rewrite Epc|unfold current; by rewrite Epc|unfold client_got; by rewrite Epc, <- app_assoc|].
      cbn. rewrite length_app. lia.
Qed.

Lemma server_inv h0 oks errs cur w o w' : inv h0 oks errs cur w -> ServerIo o w = Some w' -> inv h0 oks errs cur w'.
Proof.
  intros H E. pose proof (v_server _ _ _ _ _ H) as Hok. unfold ServerIo in E.
  destruct (spc w) as [|got|got|rest resp|rest|] eqn:Epc; [|destruct (Recv o _ _ _) as [[b| |]|] eqn:Es in E|destruct (Recv o _ _ _) as [[b| |]|] eqn:Es in E|destruct (Send o _) as [[b| |]|] eqn:Es in E|destruct (Send o _) as [[b| |]|] eqn:Es in E|done];
    cbn [mbind option_bind] in E; try done; try (injection E as <-); try exact H; try (apply inv_server_close, H).
  - destruct o as [[|n]| |]; try done. injection E as <-. destruct (running_ w); [|apply inv_server_close, H].
    pose proof (inv_server_recv _ _ _ _ w (sRecvHeader []) [] (c2s w) H) as G. cbn in G. apply G; unfold server_rest, server_got; rewrite ?Epc; try done. cbn. unfold kServiceFrameHeaderSize. lia.
  - apply Recv_bytes in Es as (Es & Hb0 & Hl). cbn in Hok. assert (Hgb : got ++ b <> []) by (by destruct got). destruct (Nat.eqb_spec (length (got ++ b)) kServiceFrameHeaderSize) as [E8|E8].
    + destruct (request_header_ok _ _ _ _ _ _ _ _ H Epc Es E8) as (Er & -> & ->).
      rewrite !Z.eqb_refl. cbn [negb]. apply (inv_server_recv _ _ _ _ _ _ b _ H); try done; [by rewrite Epc|unfold server_rest; by rewrite Epc| |cbn; lia].
      unfold server_got. rewrite Epc. cbn [spc set_server]. by rewrite app_nil_r, Er.
    + rewrite length_app in E8. apply (inv_server_recv _ _ _ _ _ _ b _ H); try done; [by rewrite Epc|unfold server_rest; by rewrite Epc|unfold server_got; by rewrite Epc|].
      cbn. rewrite length_app. lia.
  - apply Recv_bytes in Es as (Es & Hb0 & Hl). cbn in Hok. destruct (Nat.eqb_spec (length (got ++ b)) req_size) as [E8|E8].
    + destruct (respond (got ++ b) (h_state w)) as [resp h] eqn:Eh. assert (Ho : open_pc (spc w) = true) by (by rewrite Epc).
      destruct (next_request _ _ _ _ _ (frame_header kServiceRequestMagic req_size ++ got ++ b) (drop (length b) (c2s w) ++ client_rest w) H) as (q & more & Hr & Tr & Er); [done|..].
      { unfold request_bytes, server_got. rewrite Epc. rewrite Es at 1. by rewrite <- !app_assoc. }
      { intros F. apply (f_equal length) in F. by rewrite length_app, length_header in F. }
      { rewrite length_app, length_header, E8. lia. }
      apply data_of_frame in Er; [|by rewrite !length_app, Tr, <- E8, length_app]. subst q. destruct H. rewrite v_state0 in Eh.
      assert (Hresp1 : (respond (got ++ b) (after (handled_ w) h0)).1 = resp) by (by rewrite Eh).
      split; cbn -[flat frame_header]; try done.
      * rewrite Hr. apply prefix_app. by eexists.
      * rewrite replies_snoc. by apply prefix_app_r.
      * by rewrite after_snoc, Eh.
      * split; [apply frame_header_ne|]. intros ->. pose proof (respond_length (got ++ b) (after (handled_ w) h0)) as L. rewrite Hresp1 in L. cbn in L. lia.
      * intros _. rewrite (flat_app request_frame (handled_ w)), flat_one, <- app_assoc.
        assert (EB : request_bytes w = request_frame (got ++ b) ++ drop (length b) (c2s w) ++ client_rest w).
        { unfold request_bytes, server_got, request_frame. rewrite Epc. rewrite Es at 1. by rewrite <- !app_assoc. }
        destruct (v_in0 Ho) as [P Q]. rewrite EB in P, Q. split; [exact P|exact Q].
      * intros Hc. rewrite replies_snoc, flat_app, flat_one, Hresp1. destruct (v_out0 Hc) as [P Q]. specialize (Q Ho). rewrite <- Q.
        unfold response_bytes, server_rest. rewrite Epc. cbn [spc]. rewrite app_nil_r, <- !app_assoc. unfold client_got; cbn [cpc s2c]. done.
    + rewrite length_app in E8. apply (inv_server_recv _ _ _ _ _ _ b _ H); try done; [by rewrite Epc|unfold server_rest; by rewrite Epc|unfold server_got; by rewrite Epc, <- app_assoc|].
      cbn. rewrite length_app. lia.
  - apply Send_bytes in Es as [Es Hb0]. destruct Hok as [_ Hok]. apply (inv_server_send _ _ _ _ _ _ _ H); [by rewrite Epc|..].
    + unfold server_rest. rewrite Epc. cbn. destruct (drop _ rest) eqn:D; rewrite Es at 1; by rewrite ?D, <- ?app_assoc.
    + unfold server_got. rewrite Epc. cbn. by destruct (drop _ rest).
    + by destruct (drop _ rest).
  - apply Send_bytes in Es as [Es Hb0]. apply (inv_server_send _ _ _ _ _ _ _ H); [by rewrite Epc|..].
    + unfold server_rest. rewrite Epc. cbn. destruct (drop _ rest) eqn:D; rewrite Es at 1; by rewrite ?D, ?app_nil_r.
    + unfold server_got. rewrite Epc. cbn. by destruct (drop _ rest).
    + by destruct (drop _ rest).
Qed.
Lemma call_inv h0 oks errs cur w q w' : inv h0 oks errs cur w -> CallBegin q w = Some w' -> exists errs' cur', inv h0 oks errs' cur' w'.
Proof.
  intros H E. unfold CallBegin in E. destruct (cpc w) eqn:Epc; try done. destruct (Nat.eqb_spec (length q) req_size) as [Hq|]; [|done]. cbn in E. destruct (connected_ w) eqn:Ec; cbn in E; injection E as <-.
  - destruct H. destruct (v_conn0 Ec) as (-> & -> & Hf). assert (Hc : current w = []) by (unfold current; by rewrite Epc). rewrite Hc in *. rewrite app_nil_r in *.
    exists [], [q]. split; cbn -[flat frame_header]; try done.
    + by rewrite app_nil_r.
    + apply Forall_app. split; [done|by constructor].
    + by apply prefix_app_r.
    + intros Ho. destruct (v_in0 Ho) as [_ Q]. specialize (Q Ec). rewrite flat_app, flat_one.
      assert (EB : flat request_frame (handled_ w) ++ server_got w ++ c2s w ++ frame_header kServiceRequestMagic req_size ++ q = flat request_frame oks.*1 ++ request_frame q).
      { rewrite <- Q. unfold request_bytes, client_rest. rewrite Epc, app_nil_r, <- !app_assoc. done. }
      split; [exists []; rewrite app_nil_r; symmetry; exact EB|intros _; exact EB].
    + intros _. destruct (v_out0 Ec) as [P Q]. unfold response_bytes, client_got in P, Q. rewrite Epc in P, Q. split; [exact P|exact Q].
  - exists (errs ++ [(q, inr kNotRunning)]), cur. destruct H. split; cbn -[flat frame_header]; try done.
    + by rewrite v_calls0, app_assoc.
    + apply Forall_app. split; [done|]. constructor; [|done]. by right; right.
    + intros Ho. split; [|done]. destruct (v_in0 Ho) as [P _]. unfold request_bytes, client_rest in P |- *. rewrite Epc in P. exact P.
Qed.
Lemma rpc_inv h0 oks errs cur w a w' : inv h0 oks errs cur w -> rpc_exec a w = Some w' -> exists oks' errs' cur', inv h0 oks' errs' cur' w'.
Proof.
  intros H E. destruct a as [q|o| |o|]; cbn in E.
  - exists oks. by eapply call_inv.
  - destruct (cpc w) eqn:Epc; [unfold ClientIo in E; by rewrite Epc in E|..]; try (exists oks; edestruct client_send_inv as [e He]; [exact H|by rewrite Epc|exact E|]; by exists e, cur); (eapply client_recv_inv; [exact H|by rewrite Epc|exact E]).
  - unfold CloseClient in E. destruct (cpc w) eqn:Epc; try done. injection E as <-. exists oks, errs, cur. destruct H. split; cbn -[flat frame_header]; try done.
    intros Ho. split; [|done]. destruct (v_in0 Ho) as [P _]. unfold request_bytes, client_rest in P |- *. rewrite Epc in P. exact P.
  - exists oks, errs, cur. by eapply server_inv.
  - injection E as <-. exists oks, errs, cur. destruct H. by split.
Qed.
Lemma rpc_run_inv h0 l oks errs cur w w' : inv h0 oks errs cur w -> rpc_run l w = Some w' -> exists oks' errs' cur', inv h0 oks' errs' cur' w'.
Proof.
  revert oks errs cur w. induction l as [|a l IH]; intros oks errs cur w H E; [injection E as <-; by exists oks, errs, cur|].
  cbn in E. destruct (rpc_exec a w) as [w1|] eqn:E1; [|done]. destruct (rpc_inv _ _ _ _ _ _ _ H E1) as (o1 & e1 & c1 & H1). by eapply IH.
Qed.
Lemma rpc_start_inv h0 : inv h0 [] [] [] (rpc_start h0).
Proof. split; cbn; try done; lia. Qed.

(** *** Progress *)

Definition moves (w w' : Rpc) : Prop := exists a, moving w a /\ rpc_exec a w = Some w'.
Lemma length_flat f l n : Forall (fun x => length (f x) = n) l -> length (flat f l) = (n * length l)%nat.
Proof. induction 1 as [|x l Hx _ IH]; [cbn; lia|]. unfold flat in *. cbn. rewrite length_app, Hx, IH. lia. Qed.
Lemma inv_counts h0 oks errs cur w : inv h0 oks errs cur w -> connected_ w = true ->
  asked w = (length oks + length cur)%nat /\ (length oks <= length (handled_ w) <= length oks + length cur)%nat.
Proof.
  intros H Hc. destruct H. destruct (v_conn0 Hc) as (-> & -> & _). apply prefix_length in v_handled0, v_replies0. rewrite replies_length, length_fmap in v_replies0. rewrite length_app, length_fmap in v_handled0.
  split; [|lia]. unfold asked. rewrite v_calls0, app_nil_r. unfold ok_calls. rewrite length_fmap. f_equal. unfold current. by destruct (cpc w).
Qed.
Lemma stream_counts h0 oks errs cur w : inv h0 oks errs cur w -> connected_ w = true -> open_pc (spc w) = true ->
  ((kServiceFrameHeaderSize + req_size) * length (handled_ w) + length (request_bytes w) = (kServiceFrameHeaderSize + req_size) * (length oks + length cur) /\
   (kServiceFrameHeaderSize + resp_size) * length oks + length (response_bytes w) = (kServiceFrameHeaderSize + resp_size) * length (handled_ w))%nat.
Proof.
  intros H Hc Ho. destruct (v_in _ _ _ _ _ H Ho) as [_ Ei]. specialize (Ei Hc). destruct (v_out _ _ _ _ _ H Hc) as [_ Eo]. specialize (Eo Ho).
  apply (f_equal length) in Ei, Eo. pose proof (request_typed _ (v_typed _ _ _ _ _ H)) as T. pose proof (response_typed _ (replies_typed (handled_ w) h0)) as U.
  rewrite length_app, (length_flat _ _ _ T), length_app, length_fmap in Ei. rewrite length_app, (length_flat _ _ _ U), replies_length in Eo.
  destruct (v_handled _ _ _ _ _ H) as [c Ec]. rewrite Ec in T. apply Forall_app in T as [T _]. rewrite (length_flat _ _ _ T) in Ei.
  destruct (v_replies _ _ _ _ _ H) as [d Ed]. rewrite Ed in U. apply Forall_app in U as [U _]. rewrite (length_flat _ _ _ U), length_fmap in Eo. done.
Qed.

(** A call in progress can go on. *)
Lemma call_not_stuck h0 oks errs cur w : inv h0 oks errs cur w -> open_pc (spc w) = true -> cpc w <> cIdle -> exists w', moves w w'.
Proof.
  intros H Ho Hpc. pose proof (v_busy _ _ _ _ _ H Hpc) as Hc. pose proof (v_client _ _ _ _ _ H) as Hok. pose proof (v_server _ _ _ _ _ H) as Hsk.
  destruct (inv_counts _ _ _ _ _ H Hc) as [_ Hn]. destruct (stream_counts _ _ _ _ _ H Hc Ho) as [Ni No]. assert (Hcur : cur = current w) by by apply H.
  assert (Hclient : (match cpc w with cSendHeader _ _ | cSendData _ _ => True | _ => s2c w <> [] end) -> exists w', moves w w').
  { clear -Hok Hpc. intros G. destruct (cpc w) as [|rest q|rest q|got q|got q] eqn:Epc; [done|..]; cbn in Hok; eexists; exists (aClient (Moves 1)); (split; [done|]); cbn; unfold ClientIo; rewrite Epc; cbn -[Nat.leb length kServiceFrameHeaderSize];
    rewrite ?(some_room _ _ Hok), some_byte by done; done. }
  assert (Hserver : (match spc w with sRecvHeader _ | sRecvData _ => c2s w <> [] | _ => True end) -> exists w', moves w w').
  { clear -Hsk Ho. intros G. destruct (spc w) as [|got|got|rest resp|rest|] eqn:Epc; try done; cbn in Hsk;
    [eexists; exists (aServer (Moves 0)); (split; [done|]); cbn; unfold ServerIo; by rewrite Epc|..]; eexists; exists (aServer (Moves 1)); (split; [done|]); cbn; unfold ServerIo; rewrite Epc; cbn -[Nat.leb length kServiceFrameHeaderSize];
    [rewrite (some_room _ _ Hsk)|rewrite (some_room _ _ Hsk)|destruct Hsk|]; rewrite some_byte by done; done. }
  unfold request_bytes, server_got, client_rest in Ni. unfold response_bytes, client_got, server_rest in No. unfold current in Hcur.
  destruct (cpc w) as [|rest q|rest q|got q|got q] eqn:Epc; [done|by apply Hclient|by apply Hclient|..]; subst cur; cbn in Hok;
    (destruct (decide (s2c w = [])) as [Es|]; [|by apply Hclient]); (destruct (spc w) as [|sgot|sgot|rest resp|rest|] eqn:Esp; try done; try by apply Hserver);
    (destruct (decide (c2s w = [])) as [Ec|]; [|by apply Hserver]); exfalso; cbn in Hsk;
    rewrite Es, Ec, !app_nil_r, ?length_app, ?length_header in *; cbn [length] in *;
    (assert (length (handled_ w) = length oks \/ length (handled_ w) = length oks + 1)%nat as [Eh|Eh] by lia); rewrite Eh in *; lia.
Qed.

Definition serving (w : Rpc) : Prop := connected_ w = true /\ running_ w = true /\ open_pc (spc w) = true.
Lemma Moves_bytes n o io : (Send (Moves (S n)) o = Some io -> exists b, io = Bytes b).
Proof. unfold Send. destruct (_ <=? _)%nat; [|done]. injection 1 as <-. by eexists. Qed.
Lemma Moves_got n r p o io : (Recv (Moves (S n)) r p o = Some io -> exists b, io = Bytes b).
Proof. unfold Recv. destruct (_ && _)%nat; [|done]. injection 1 as <-. by eexists. Qed.
Lemma drop_shorter {A} (l b : list A) : l = b ++ drop (length b) l -> b <> [] -> length l = (length b + length (drop (length b) l))%nat /\ (0 < length b)%nat.
Proof. intros E Hb. split; [rewrite E at 1; apply length_app|]. destruct b; [done|cbn; lia]. Qed.

Ltac io_step E :=
  match type of E with
  | context [Send ?o ?l] => destruct (Send o l) as [io|] eqn:Es; [|done]; pose proof (Moves_bytes _ _ _ Es) as [b ->]; apply Send_bytes in Es as [Es Hb0]
  | context [Recv ?o ?r ?p ?q] => destruct (Recv o r p q) as [io|] eqn:Es; [|done]; pose proof (Moves_got _ _ _ _ _ Es) as [b ->]; apply Recv_bytes in Es as (Es & Hb0 & _)
  end; cbn [mbind option_bind] in E; injection E as <-;
  match goal with Hs : ?l = ?b ++ drop (length ?b) ?l, Hb : ?b <> [] |- _ => destruct (drop_shorter _ _ Hs Hb) as [Hd Hp] end.

(** Every step that moves bytes comes nearer to the end of the call. *)
Lemma client_progress h0 oks errs cur w n w' : inv h0 oks errs cur w -> serving w -> ClientIo (Moves (S n)) w = Some w' -> serving w' /\ (work_left w' < work_left w)%nat /\ asked w' = asked w.
Proof.
  intros H (Hc & Hr & Ho) E. unfold ClientIo in E. unfold serving, work_left, asked.
  destruct (cpc w) as [|rest q|rest q|got q|got q] eqn:Epc; [done|io_step E..].
  - unfold client_rest, server_rest. rewrite Epc. cbn -[Nat.ltb Nat.mul]. split; [done|]. destruct (drop (length b) rest); cbn -[Nat.ltb Nat.mul]; rewrite ?length_app; cbn [length] in *; split; lia.
  - unfold client_rest, server_rest. rewrite Epc. cbn -[Nat.ltb Nat.mul]. split; [done|]. destruct (drop (length b) rest); cbn -[Nat.ltb Nat.mul]; rewrite ?length_app; cbn [length] in *; split; lia.
  - destruct (Nat.eqb_spec (length (got ++ b)) kServiceFrameHeaderSize) as [E8|E8].
    + destruct (response_header_ok _ _ _ _ _ _ _ _ _ H Epc Es E8) as (_ & -> & ->). rewrite !Z.eqb_refl. unfold client_rest, server_rest. rewrite Epc. cbn -[Nat.ltb Nat.mul]. split; [done|]. split; lia.
    + unfold client_rest, server_rest. rewrite Epc. cbn -[Nat.ltb Nat.mul]. split; [done|]. split; lia.
  - destruct (length (got ++ b) =? resp_size)%nat; unfold client_rest, server_rest; rewrite Epc; cbn -[Nat.ltb Nat.mul]; rewrite ?length_app; cbn [length]; rewrite ?Nat.add_0_r; (split; [done|]); split; lia.
Qed.
Lemma server_progress h0 oks errs cur w o w' : inv h0 oks errs cur w -> serving w -> moving w (aServer o) -> ServerIo o w = Some w' -> serving w' /\ (work_left w' < work_left w)%nat /\ asked w' = asked w.
Proof.
  intros H (Hc & Hr & Ho) Hm E. unfold ServerIo in E. unfold serving, work_left. destruct o as [[|n]| |]; try done.
  { cbn in Hm. rewrite Hm, Hr in E. injection E as <-. unfold client_rest, server_rest. rewrite Hm. cbn -[Nat.ltb Nat.mul]. split; [done|]. split; [|done]. unfold asked. cbn -[Nat.ltb Nat.mul]. lia. }
  destruct (spc w) as [|got|got|rest resp|rest|] eqn:Epc; try done; io_step E.
  - destruct (Nat.eqb_spec (length (got ++ b)) kServiceFrameHeaderSize) as [E8|E8].
    + destruct (request_header_ok _ _ _ _ _ _ _ _ H Epc Es E8) as (_ & -> & ->). rewrite !Z.eqb_refl. unfold client_rest, server_rest, asked. rewrite Epc. cbn -[Nat.ltb Nat.mul]. split; [done|]. split; lia.
    + unfold client_rest, server_rest, asked. rewrite Epc. cbn -[Nat.ltb Nat.mul]. split; [done|]. split; lia.
  - destruct (Nat.eqb_spec (length (got ++ b)) req_size) as [E8|E8].
    + assert (Ha : asked w = S (length (handled_ w))).
      { destruct (next_request _ _ _ _ _ (frame_header kServiceRequestMagic req_size ++ got ++ b) (drop (length b) (c2s w) ++ client_rest w) H) as (q & more & Hq & _); [by rewrite Epc|..].
        { unfold request_bytes, server_got. rewrite Epc. rewrite Es at 1. by rewrite <- !app_assoc. }
        { intros F. apply (f_equal length) in F. by rewrite length_app, length_header in F. }
        { rewrite length_app, length_header, E8. lia. }
        apply (f_equal length) in Hq. rewrite !length_app, length_fmap in Hq. cbn in Hq. destruct (inv_counts _ _ _ _ _ H Hc). pose proof (v_cur _ _ _ _ _ H). lia. }
      pose proof (respond_length (got ++ b) (h_state w)) as L. destruct (respond (got ++ b) (h_state w)) as [resp h]. unfold asked in *. unfold client_rest, server_rest. rewrite Epc.
      cbn [connected_ running_ cpc calls_ spc handled_ c2s s2c open_pc]. split; [done|]. split; [|done]. rewrite Ha, !length_app, length_header, (proj2 (Nat.ltb_ge _ _)), (proj2 (Nat.ltb_lt _ _)) by (cbn [length]; lia).
      cbn [fst] in L. cbn [length]. lia.
    + unfold client_rest, server_rest, asked. rewrite Epc. cbn -[Nat.ltb Nat.mul]. split; [done|]. split; lia.
  - unfold client_rest, server_rest, asked. rewrite Epc. cbn -[Nat.ltb Nat.mul]. destruct (drop (length b) rest); cbn -[Nat.ltb Nat.mul]; rewrite ?length_app; cbn [length] in *; (split; [done|]); split; lia.
  - unfold client_rest, server_rest, asked. rewrite Epc. cbn -[Nat.ltb Nat.mul]. destruct (drop (length b) rest); cbn -[Nat.ltb Nat.mul]; rewrite ?length_app; cbn [length] in *; (split; [done|]); split; lia.
Qed.
Lemma moves_progress h0 oks errs cur w w' : inv h0 oks errs cur w -> serving w -> moves w w' ->
  (exists oks' errs' cur', inv h0 oks' errs' cur' w') /\ serving w' /\ (work_left w' < work_left w)%nat /\ asked w' = asked w.
Proof.
  intros H Hs (a & Hm & E). split; [by eapply rpc_inv|]. destruct a as [q|[[|n]| |]| |o|]; try done; cbn in E.
  - by eapply client_progress.
  - by eapply server_progress.
Qed.
(** The steps left: a request that is sent and received, a response, the test of the loop. *)
Lemma work_bound h0 oks errs cur w : inv h0 oks errs cur w -> serving w ->
  (work_left w <= 2 * (kServiceFrameHeaderSize + req_size) + 3 * (kServiceFrameHeaderSize + resp_size) + 2)%nat.
Proof.
  intros H (Hc & _ & Ho). destruct (inv_counts _ _ _ _ _ H Hc) as [Ha Hn]. destruct (stream_counts _ _ _ _ _ H Hc Ho) as [Ni No]. pose proof (v_cur _ _ _ _ _ H) as Hl.
  unfold request_bytes in Ni. unfold response_bytes in No. rewrite !length_app in Ni, No. unfold work_left. rewrite Ha.
  assert (Hs : (match spc w with sTop => 1 | _ => 0 end <= 1)%nat) by (destruct (spc w); lia).
  match goal with |- context [(?a <? ?b)%nat] => destruct (Nat.ltb_spec a b) end;
    assert (length (handled_ w) = length oks \/ length (handled_ w) = length oks + 1)%nat as [Eh|Eh] by lia; rewrite Eh in *;
    assert (length cur = 0 \/ length cur = 1)%nat as [Ec|Ec] by lia; rewrite Ec in *; lia.
Qed.
Lemma moves_run h0 n oks errs cur w w' : inv h0 oks errs cur w -> serving w -> nsteps moves n w w' ->
  (exists oks' errs' cur', inv h0 oks' errs' cur' w') /\ serving w' /\ (n + work_left w' <= work_left w)%nat /\ asked w' = asked w.
Proof.
  intros H Hs R. revert oks errs cur H Hs. induction R as [w|n w w1 w' Hm R IH]; intros oks errs cur H Hs; [split_and!; [by exists oks, errs, cur|done..]|].
  destruct (moves_progress _ _ _ _ _ _ H Hs Hm) as ((o1 & e1 & c1 & H1) & Hs1 & Hw & Ha). destruct (IH _ _ _ H1 Hs1) as (G1 & G2 & G3 & G4). split_and!; [done..|lia|congruence].
Qed.
Lemma run_inv h0 l w : rpc_run l (rpc_start h0) = Some w -> exists oks errs cur, inv h0 oks errs cur w.
Proof. intros R. eapply rpc_run_inv; [apply rpc_start_inv|exact R]. Qed.
End Rpc.

(** C16. Over one connection, with any splitting of the bytes, interruptions and failures
    at any point, a call that returns a response returns what the handler returned for
    its own request; the handler runs once for each answered request, in order; after a
    call that failed none succeeds, and at most one more request has been handled. *)
Theorem calls_answered {W} req_size resp_size (handler_ : option (list Z -> W -> list Z * W)) h0 l w :
  (0 < req_size)%nat /\ Z.of_nat req_size < 2 ^ 32 -> (0 < resp_size)%nat /\ Z.of_nat resp_size < 2 ^ 32 -> (forall f q h, handler_ = Some f -> length (f q h).1 = resp_size) ->
  rpc_run req_size resp_size handler_ l (rpc_start h0) = Some w ->
  exists oks errs more, calls_ w = ok_calls oks ++ errs /\ Forall failed errs /\ (connected_ w = true -> errs = []) /\
    oks.*2 = replies resp_size handler_ oks.*1 h0 /\
    handled_ w = oks.*1 ++ more /\ (length more <= 1)%nat /\ h_state w = after resp_size handler_ (handled_ w) h0.
Proof.
  intros Hq Hr Hh R. apply run_inv in R as (oks & errs & cur & H); [|done..].
  destruct (v_replies _ _ _ _ _ _ _ _ H) as [rs Ers]. destruct (v_handled _ _ _ _ _ _ _ _ H) as [qs Eqs]. pose proof (v_cur _ _ _ _ _ _ _ _ H) as Hc.
  pose proof (f_equal length Ers) as L1. rewrite replies_length, length_app, length_fmap in L1. pose proof (f_equal length Eqs) as L2. rewrite !length_app, length_fmap in L2.
  assert (E : handled_ w = oks.*1 ++ drop (length oks) (handled_ w)).
  { rewrite <- (take_drop (length oks) (handled_ w)) at 1. f_equal. apply (f_equal (take (length oks))) in Eqs. rewrite (take_app_le (handled_ w)) in Eqs by lia. rewrite <- Eqs. apply take_app_length'. by rewrite length_fmap. }
  exists oks, errs, (drop (length oks) (handled_ w)). split_and!; try apply H; [|done|rewrite length_drop; lia].
  rewrite E, replies_app in Ers. apply app_inj_1 in Ers as [<- _]; [done|]. by rewrite replies_length, !length_fmap.
Qed.
(** C34. While the service runs and nothing fails, a call in progress always has a next
    step that moves bytes, and there are at most a fixed number of them: however they
    are scheduled, the call ends, still connected. *)
Theorem calls_complete {W} req_size resp_size (handler_ : option (list Z -> W -> list Z * W)) h0 l w n w' :
  (0 < req_size)%nat /\ Z.of_nat req_size < 2 ^ 32 -> (0 < resp_size)%nat /\ Z.of_nat resp_size < 2 ^ 32 -> (forall f q h, handler_ = Some f -> length (f q h).1 = resp_size) ->
  rpc_run req_size resp_size handler_ l (rpc_start h0) = Some w -> serving w -> nsteps (moves req_size resp_size handler_) n w w' ->
  (n <= 2 * (8 + req_size) + 3 * (8 + resp_size) + 2)%nat /\ connected_ w' = true /\ asked w' = asked w /\
  (cpc w' <> cIdle -> exists w'', moves req_size resp_size handler_ w' w'').
Proof.
  intros Hq Hr Hh R Hs M. apply run_inv in R as (oks & errs & cur & H); [|done..].
  eapply moves_run in M as ((o1 & e1 & c1 & H1) & Hs1 & Hw & Ha); [|done..]. eapply work_bound in H as B; [|done..].
  unfold kServiceFrameHeaderSize in B. split_and!; [lia|apply Hs1|done|]. intros Hc. eapply call_not_stuck; [done..|apply Hs1|done].
Qed.

(** A service that numbers its requests of two bytes, in one byte. *)
Definition demo_handler : option (list Z -> Z -> list Z * Z) := Some (fun q h => ([h + foldr Z.add 0 q], h + 1)).
Definition demo_acts : list RpcAct :=
  [aCall [5; 6]; aServer (Moves 0); aClient (Moves 3); aServer (Moves 2); aClient Interrupted; aClient (Moves 5); aClient (Moves 2); aServer (Moves 6); aServer (Moves 1); aServer (Moves 1);
   aServer (Moves 8); aClient (Moves 8); aServer (Moves 1); aClient (Moves 1); aCall [7; 8]; aClient (Moves 8); aServer (Moves 0); aClient Fails; aCall [1; 1]].
Lemma demo_handler_typed f q h : demo_handler = Some f -> length (f q h).1 = 1%nat.
Proof. by injection 1 as <-. Qed.
Lemma calls_answered_witness :
  exists w, rpc_run 2 1 demo_handler demo_acts (rpc_start 0) = Some w /\ calls_ w = [([5; 6], inl [11]); ([7; 8], inr kSendFailed); ([1; 1], inr kNotRunning)] /\
  exists oks errs more, calls_ w = ok_calls oks ++ errs /\ Forall failed errs /\ (connected_ w = true -> errs = []) /\
    oks.*2 = replies 1 demo_handler oks.*1 0 /\ handled_ w = oks.*1 ++ more /\ (length more <= 1)%nat /\ h_state w = after 1 demo_handler (handled_ w) 0.
Proof.
  eexists. split; [vm_compute; reflexivity|]. split; [reflexivity|].
  apply (calls_answered 2 1 demo_handler 0 demo_acts); [by split; [lia|]|by split; [lia|]|apply demo_handler_typed|vm_compute; reflexivity].
Defined.
Lemma calls_complete_witness :
  exists w w', rpc_run 2 1 demo_handler [aCall [5; 6]] (rpc_start 0) = Some w /\ nsteps (moves 2 1 demo_handler) 1 w w' /\
  (1 <= 2 * (8 + 2) + 3 * (8 + 1) + 2)%nat /\ connected_ w' = true /\ asked w' = asked w /\ (cpc w' <> cIdle -> exists w'', moves 2 1 demo_handler w' w'').
Proof.
  eexists _, _. split; [vm_compute; reflexivity|]. match goal with |- ?P /\ _ => assert (M : P) end; [apply nsteps_once; exists (aServer (Moves 0)); split; [reflexivity|vm_compute; reflexivity]|].
  split; [exact M|]. apply (calls_complete 2 1 demo_handler 0 [aCall [5; 6]] _ 1); [by split; [lia|]|by split; [lia|]|apply demo_handler_typed|vm_compute; reflexivity|by split_and!|exact M].
Defined.

(** Stop has to wait: a worker that waits for an idle client does not look at the flag. *)
Lemma stopped_worker_waits {W} req_size resp_size (handler_ : option (list Z -> W -> list Z * W)) w n :
  (exists got, spc w = sRecvHeader got \/ spc w = sRecvData got) -> c2s w = [] -> c_fd w = true ->
  ServerIo req_size resp_size handler_ (Moves n) (StopFlag w) = None /\ ServerIo req_size resp_size handler_ Interrupted (StopFlag w) = Some (StopFlag w).
Proof. intros [got [E|E]] Ec Ef; unfold ServerIo; cbn; rewrite E, Ec, Ef; destruct n; cbn; rewrite ?andb_false_r; done. Qed.

(** ** The service: workers, starting and stopping *)

Record WorkerEntry := mkWorker { w_fd : Z; joinable : bool; finished : bool }.
Section Workers.
Context (kMaxWorkers : nat) (max_concurrent : Z).
Record Service := mkService { running : bool; sockfd_ : Z; accept_thread_ : bool; worker_entries_ : list WorkerEntry; active_workers_ : Z; open_fds : list Z }.
Definition set_workers (ws : list WorkerEntry) (fds : list Z) (s : Service) : Service := mkService (running s) (sockfd_ s) (accept_thread_ s) ws (active_workers_ s) fds.
(** The loop of ReapFinishedWorkers, with erase_unordered; the result is the entries and the threads to join. *)
Fixpoint reap_loop (fuel i : nat) (l : list WorkerEntry) (to_join : list Z) : list WorkerEntry * list Z :=
  match fuel with
  | O => (l, to_join)
  | S fuel =>
    match l !! i with
    | None => (l, to_join)
    | Some e =>
      if finished e then reap_loop fuel i (swap_remove i l) (if joinable e then to_join ++ [w_fd e] else to_join)
      else reap_loop fuel (S i) l to_join
    end
  end.
Definition ReapFinishedWorkers (l : list WorkerEntry) : list WorkerEntry * list Z := reap_loop (length l) 0 l [].
(** One round of AcceptLoop: the connection that Accept returned, if any, and whether the
    allocation and the start of the thread succeed.  The result is whether the loop goes on. *)
Definition AcceptRound (accept : option Z) (alloc_ok thread_ok : bool) (s : Service) : bool * Service :=
  let s := set_workers (ReapFinishedWorkers (worker_entries_ s)).1 (open_fds s) s in
  if sockfd_ s <? 0 then (false, s)
  else match accept with
  | None => (running s, s)
  | Some client_fd =>
    if max_concurrent <=? active_workers_ s then (true, s)
    else if negb alloc_ok then (true, s)
    else if (kMaxWorkers <=? length (worker_entries_ s))%nat then (true, s)
    else if negb thread_ok then (true, s)
    else (true, set_workers (worker_entries_ s ++ [mkWorker client_fd true false]) (client_fd :: open_fds s) s)
  end.
(** The thread of a worker begins, and ends: it closes the connection, sets [finished] and leaves the count. *)
Definition WorkerBegins (s : Service) : Service := mkService (running s) (sockfd_ s) (accept_thread_ s) (worker_entries_ s) (u32 (active_workers_ s + 1)) (open_fds s).
Definition WorkerEnds (fd : Z) (s : Service) : Service :=
  mkService (running s) (sockfd_ s) (accept_thread_ s) ((fun e => if w_fd e =? fd then mkWorker fd (joinable e) true else e) <$> worker_entries_ s) (u32 (active_workers_ s - 1)) (filter (fun f => f <> fd) (open_fds s)).
Definition StartService (socket : Z) (bind_ok listen_ok thread_ok : bool) (s : Service) : option ServiceError * Service :=
  if running s then (Some kBindFailed, s)
  else if socket <? 0 then (Some kBindFailed, s)
  else if negb bind_ok then (Some kBindFailed, s)
  else if negb listen_ok then (Some kBindFailed, s)
  else if negb thread_ok then (Some kNotRunning, mkService false (-1) (accept_thread_ s) (worker_entries_ s) (active_workers_ s) (open_fds s))
  else (None, mkService true socket true (worker_entries_ s) (active_workers_ s) (socket :: open_fds s)).
(** The threads joined are those of the accept loop, then of the workers. *)
Definition StopService (s : Service) : list Z * Service :=
  if negb (running s) then ([], s)
  else (w_fd <$> filter (fun e => joinable e = true) (worker_entries_ s),
    mkService false (if 0 <=? sockfd_ s then -1 else sockfd_ s) false [] (active_workers_ s) (if 0 <=? sockfd_ s then filter (fun f => f <> sockfd_ s) (open_fds s) else open_fds s)).

Lemma reap_loop_spec fuel done_ l j : (length l <= fuel)%nat ->
  (reap_loop fuel (length done_) (done_ ++ l) j).1 ≡ₚ done_ ++ filter (fun e => finished e = false) l /\
  (reap_loop fuel (length done_) (done_ ++ l) j).2 ≡ₚ j ++ (w_fd <$> filter (fun e => finished e = true /\ joinable e = true) l).
Proof.
  revert done_ l j. induction fuel as [|fuel IH]; intros done_ l j Hl; [destruct l; [|cbn in Hl; lia]; cbn; by rewrite !app_nil_r|]. cbn [reap_loop].
  destruct l as [|e l]; [rewrite lookup_ge_None_2 by (rewrite app_nil_r; lia); cbn; by rewrite !app_nil_r|]. rewrite list_lookup_middle by done. cbn in Hl. rewrite !filter_cons. destruct (finished e) eqn:Ef.
  - assert (P : exists l', swap_remove (length done_) (done_ ++ e :: l) = done_ ++ l' /\ l' ≡ₚ l).
    { destruct l as [|x l _] using rev_ind.
      - rewrite swap_remove_snoc, insert_app_r_alt, Nat.sub_diag, take_app_length by done. exists []. by rewrite app_nil_r.
      - change (done_ ++ e :: l ++ [x]) with (done_ ++ (e :: l) ++ [x]). rewrite app_assoc, swap_remove_snoc, <- app_assoc, insert_app_r_alt, Nat.sub_diag by done. cbn.
        rewrite take_app_ge by (rewrite length_app; cbn; lia). exists (x :: l). split; [|by rewrite Permutation_app_comm]. f_equal. rewrite length_app. cbn. replace (length done_ + S (length l) - length done_)%nat with (S (length l)) by lia. cbn. by rewrite take_app_length. }
    destruct P as (l' & -> & Pl). destruct (IH done_ l' (if joinable e then j ++ [w_fd e] else j)) as [H1 H2]; [rewrite Pl; lia|]. rewrite H1, H2, Pl. split; [done|].
    destruct (joinable e); [|done]. cbn. by rewrite <- app_assoc.
  - destruct (IH (done_ ++ [e]) l j) as [H1 H2]; [lia|]. rewrite length_app, Nat.add_1_r, <- !app_assoc in H1, H2. cbn [app] in H1, H2. rewrite H1, H2, decide_True, decide_False by (done || by intros []). by rewrite <- app_assoc.
Qed.
(** Reaping removes the finished workers, and joins the threads of just those. *)
Lemma reap_spec l : (ReapFinishedWorkers l).1 ≡ₚ filter (fun e => finished e = false) l /\ (ReapFinishedWorkers l).2 ≡ₚ w_fd <$> filter (fun e => finished e = true /\ joinable e = true) l.
Proof. exact (reap_loop_spec (length l) [] l [] (le_n _)). Qed.
(** The table is never overfull. *)
Lemma accept_bounded accept a t s : (length (worker_entries_ s) <= kMaxWorkers)%nat -> (length (worker_entries_ (AcceptRound accept a t s).2) <= kMaxWorkers)%nat.
Proof.
  intros H. unfold AcceptRound. destruct (reap_spec (worker_entries_ s)) as [P _]. apply Permutation_length in P. pose proof (length_filter (fun e => finished e = false) (worker_entries_ s)).
  set (s' := set_workers _ _ s). assert (L : (length (worker_entries_ s') <= kMaxWorkers)%nat) by (cbn; lia). clearbody s'.
  destruct (_ <? 0); [done|]. destruct accept as [fd|]; [|done]. destruct (_ <=? _); [done|]. destruct a; [|done]. destruct (Nat.leb_spec kMaxWorkers (length (worker_entries_ s'))); [done|].
  destruct t; [|done]. cbn. rewrite length_app. cbn. lia.
Qed.
(** Starting either fails and leaves no descriptor, or succeeds and is undone by stopping. *)
Lemma service_start_stop socket b l t s : running s = false -> socket ∉ open_fds s ->
  let '(e, s') := StartService socket b l t s in
  match e with
  | Some _ => running s' = false /\ open_fds s' = open_fds s
  | None => running s' = true /\ open_fds s' = socket :: open_fds s /\ open_fds (StopService s').2 = open_fds s /\ running (StopService s').2 = false
  end.
Proof.
  intros Hr Hf. unfold StartService. rewrite Hr. destruct (Z.ltb_spec socket 0); [done|]. destruct b, l, t; try done. cbn [negb]. split_and!; try done.
  unfold StopService. cbn [running negb sockfd_ open_fds snd]. rewrite (proj2 (Z.leb_le _ _)) by done. rewrite filter_cons_False by (intros []; done). by apply filter_fresh.
Qed.
End Workers.
(** The limit on concurrent connections counts the workers whose thread has begun: connections
    accepted in a burst pass it. *)
Example burst_passes_limit :
  let s := mkService true 3 true [] 0 [3] in
  (length (worker_entries_ (AcceptRound 16 1 (Some 11) true true (AcceptRound 16 1 (Some 10) true true s).2).2),
   active_workers_ (WorkerBegins (WorkerBegins (AcceptRound 16 1 (Some 11) true true (AcceptRound 16 1 (Some 10) true true s).2).2))) = (2%nat, 2).
Proof. vm_compute. reflexivity. Qed.

(** ** Client::Connect *)

(** What the system calls return; the socket's pending error is read after [select]. *)
Record ConnectSys := mkConnectSys { k_socket : Z; k_address_ok : bool; k_connect : Z; k_in_progress : bool; k_select : Z; k_so_error : Z }.
(** The descriptor of the client, or the error; the open descriptors. *)
Definition Connect (s : ConnectSys) (fds : list Z) : (Z + ServiceError) * list Z :=
  let fd := k_socket s in
  let close := filter (fun f => f <> fd) (fd :: fds) in
  if fd <? 0 then (inr kConnectFailed, fds)
  else if negb (k_address_ok s) then (inr kConnectFailed, close)
  else if (k_connect s <? 0) && negb (k_in_progress s) then (inr kConnectFailed, close)
  else if (k_connect s <? 0) && (k_select s <=? 0) then (inr kTimeout, close)
  else if (k_connect s <? 0) && negb (k_so_error s =? 0) then (inr kConnectFailed, close)
  else (inl fd, fd :: fds).
(** A client holds its descriptor; a failure leaves none. *)
Lemma connect_spec s fds : k_socket s ∉ fds ->
  match Connect s fds with
  | (inl fd, fds') => fd = k_socket s /\ 0 <= fd /\ fds' = fd :: fds /\ k_address_ok s = true /\ (0 <= k_connect s \/ 0 < k_select s /\ k_so_error s = 0)
  | (inr e, fds') => fds' = fds /\ (e = kConnectFailed \/ e = kTimeout)
  end.
Proof.
  intros Hf. unfold Connect. assert (E : filter (fun f => f <> k_socket s) (k_socket s :: fds) = fds) by (rewrite filter_cons_False by (intros []; done); by apply filter_fresh).
  rewrite E. destruct (Z.ltb_spec (k_socket s) 0); [tauto|]. destruct (k_address_ok s); cbn [negb]; [|tauto]. destruct (Z.ltb_spec (k_connect s) 0); cbn [andb]; [|split_and!; auto].
  destruct (k_in_progress s); cbn [negb]; [|tauto]. destruct (Z.leb_spec (k_select s) 0); [tauto|]. destruct (Z.eqb_spec (k_so_error s) 0); cbn [negb]; [|tauto]. split_and!; auto.
Qed.

(** ** AsyncClient *)

(** The worker thread: calling; having stored the result; having announced it; ended. *)
Inductive AsyncPc := pEnded | pCalling (req : list Z) | pStored (req : list Z) | pReady (req : list Z).
Record AsyncClient := mkAsync { a_connected : bool; call_in_progress_ : bool; result_ready_ : bool; result_ : list Z + ServiceError; a_worker : AsyncPc; a_log : list (list Z * (list Z + ServiceError)) }.
Definition AsyncClient_ctor : AsyncClient := mkAsync true false false (inr kNotRunning) pEnded [].
Definition CallAsync (req : list Z) (thread_ok : bool) (s : AsyncClient) : bool * AsyncClient :=
  if negb (a_connected s) then (false, s)
  else if call_in_progress_ s then (false, s)
  else if thread_ok then (true, mkAsync true true false (result_ s) (pCalling req) (a_log s))
  else (false, mkAsync true false false (result_ s) pEnded (a_log s)).
(** The next step of the worker; [r] is what Client::Call returned (logged). *)
Definition AsyncWorker (r : list Z + ServiceError) (s : AsyncClient) : option AsyncClient :=
  match a_worker s with
  | pEnded => None
  | pCalling req => Some (mkAsync (a_connected s) (call_in_progress_ s) (result_ready_ s) r (pStored req) (a_log s ++ [(req, r)]))
  | pStored req => Some (mkAsync (a_connected s) (call_in_progress_ s) true (result_ s) (pReady req) (a_log s))
  | pReady req => Some (mkAsync (a_connected s) false (result_ready_ s) (result_ s) pEnded (a_log s))
  end.
Definition IsReady (s : AsyncClient) : bool := result_ready_ s.
(** GetResult; [waited]: the timeout has passed without a result. *)
Definition GetResult (waited : bool) (s : AsyncClient) : option (list Z + ServiceError) :=
  if result_ready_ s then Some (result_ s) else if waited then Some (inr kTimeout) else None.
(** Close joins the worker first. *)
Definition CloseAsync (s : AsyncClient) : option AsyncClient :=
  match a_worker s with pEnded => Some (mkAsync false (call_in_progress_ s) (result_ready_ s) (result_ s) pEnded (a_log s)) | _ => None end.
Inductive AsyncAct := AsCall (req : list Z) (thread_ok : bool) | AsWork (r : list Z + ServiceError) | AsClose.
Definition async_exec (a : AsyncAct) (s : AsyncClient) : option AsyncClient :=
  match a with AsCall q ok => Some (CallAsync q ok s).2 | AsWork r => AsyncWorker r s | AsClose => CloseAsync s end.
Fixpoint async_run (l : list AsyncAct) (s : AsyncClient) : option AsyncClient := match l with [] => Some s | a :: l => s ← async_exec a s; async_run l s end.
(** The invariant: a result that is ready is that of the last call. *)
Definition async_inv (s : AsyncClient) : Prop :=
  match a_worker s with
  | pEnded => call_in_progress_ s = false
  | pCalling _ => call_in_progress_ s = true /\ result_ready_ s = false
  | pStored q => call_in_progress_ s = true /\ result_ready_ s = false /\ exists l, a_log s = l ++ [(q, result_ s)]
  | pReady q => call_in_progress_ s = true /\ exists l, a_log s = l ++ [(q, result_ s)]
  end /\ (result_ready_ s = true -> exists q l, a_log s = l ++ [(q, result_ s)]).
Lemma async_exec_inv a s s' : async_inv s -> async_exec a s = Some s' -> async_inv s'.
Proof.
  intros [H1 H2] E. unfold async_inv. destruct a as [q ok|r|]; cbn in E.
  - injection E as <-. unfold CallAsync. destruct (a_connected s); [|exact (conj H1 H2)]. cbn [negb]. destruct (call_in_progress_ s) eqn:Ei; [cbn; rewrite Ei; done|]. destruct ok; cbn; done.
  - unfold AsyncWorker in E. destruct (a_worker s) as [|q|q|q] eqn:Ew; try done; injection E as <-; cbn.
    + destruct H1 as [-> ->]. split; [|done]. split_and!; [done..|by eexists].
    + destruct H1 as (-> & _ & l & Hl). split; [split; [done|by exists l]|]. intros _. by exists q, l.
    + done.
  - unfold CloseAsync in E. destruct (a_worker s) eqn:Ew; try done. injection E as <-. done.
Qed.
(** GetResult returns the result of the last call that was started and has ended. *)
Lemma async_result_is_last l s w : async_run l AsyncClient_ctor = Some s -> IsReady s = true -> exists q log, a_log s = log ++ [(q, result_ s)] /\ GetResult w s = Some (result_ s).
Proof.
  intros R Hr. assert (G : forall l s0, async_inv s0 -> async_run l s0 = Some s -> async_inv s).
  { clear. induction l as [|a l IH]; intros s0 H E; [by injection E as <-|]. cbn in E. destruct (async_exec a s0) as [s1|] eqn:E1; [|done]. eapply IH; [|exact E]. by eapply async_exec_inv. }
  destruct (G l AsyncClient_ctor ltac:(done) R) as [_ H]. destruct (H Hr) as (q & log & E). exists q, log. split; [exact E|]. unfold GetResult. unfold IsReady in Hr. by rewrite Hr.
Qed.
(** A result is announced before the call is over: a new call right after it may be refused. *)
Lemma ready_but_busy q ok s : async_inv s -> a_connected s = true -> (exists p, a_worker s = pStored p) -> forall r, exists s', AsyncWorker r s = Some s' /\ IsReady s' = true /\ CallAsync q ok s' = (false, s').
Proof. intros [H _] Hc [p E] r. unfold AsyncWorker. rewrite E in *. eexists. split; [done|]. split; [done|]. unfold CallAsync. cbn. rewrite Hc. cbn. by destruct H as [-> _]. Qed.

(** ** ServiceRegistry *)

Record RegEntry := mkReg { reg_name : list Z; reg_host : list Z; reg_port : Z }.
Section Registry.
Context (MaxServices : nat).
(** The entries of the vector. *)
Definition find_entry (nm : list Z) (l : list RegEntry) : option (nat * RegEntry) := list_find (fun e => reg_name e = c_str nm) l.
Definition Register (nm host : list Z) (p : Z) (l : list RegEntry) : option ServiceError * list RegEntry :=
  match find_entry nm l with
  | Some _ => (Some kBindFailed, l)
  | None => if (MaxServices <=? length l)%nat then (Some kBindFailed, l) else (None, l ++ [mkReg (fixed63 nm) (fixed63 host) p])
  end.
Definition Unregister (nm : list Z) (l : list RegEntry) : bool * list RegEntry :=
  match find_entry nm l with Some (i, _) => (true, swap_remove i l) | None => (false, l) end.
Definition Lookup (nm : list Z) (l : list RegEntry) : option RegEntry := snd <$> find_entry nm l.
Definition Count (l : list RegEntry) : nat := length l.
Definition Reset_registry (l : list RegEntry) : list RegEntry := [].

(** The registry holds the map from names to endpoints. *)
Definition registry_is (l : list RegEntry) (m : gmap (list Z) (list Z * Z)) : Prop := l ≡ₚ (fun kv => mkReg kv.1 kv.2.1 kv.2.2) <$> map_to_list m.
Lemma find_entry_spec nm l m : registry_is l m ->
  match find_entry nm l with
  | Some (i, e) => l !! i = Some e /\ exists h p, m !! c_str nm = Some (h, p) /\ e = mkReg (c_str nm) h p
  | None => m !! c_str nm = None
  end.
Proof.
  intros H. unfold find_entry. destruct (list_find _ l) as [[i e]|] eqn:F.
  - apply list_find_Some in F as (Hi & Hn & _). split; [done|]. assert (He : e ∈ l) by (by eapply list_elem_of_lookup_2). rewrite H in He. apply list_elem_of_fmap in He as ([k [h p]] & -> & Hk).
    apply elem_of_map_to_list in Hk. cbn in *. subst k. by exists h, p.
  - apply list_find_None in F. destruct (m !! c_str nm) as [[h p]|] eqn:E; [|done]. apply elem_of_map_to_list in E. assert (He : mkReg (c_str nm) h p ∈ l).
    { rewrite H. apply list_elem_of_fmap. by exists (c_str nm, (h, p)). }
    rewrite Forall_forall in F. by destruct (F _ He).
Qed.
(** With names that fit, the registry is a bounded map that refuses to overwrite. *)
Lemma Register_spec nm host p l m : registry_is l m -> (length (c_str nm) <= 63)%nat ->
  match m !! c_str nm with
  | Some _ => Register nm host p l = (Some kBindFailed, l)
  | None => if (size m <? MaxServices)%nat then (Register nm host p l).1 = None /\ registry_is (Register nm host p l).2 (<[c_str nm := (fixed63 host, p)]> m) else Register nm host p l = (Some kBindFailed, l)
  end.
Proof.
  intros H Hn. unfold Register. pose proof (find_entry_spec nm l m H) as F. destruct (find_entry nm l) as [[i e]|]; [destruct F as (_ & h & q & -> & _); done|]. rewrite F.
  assert (L : length l = size m) by (by rewrite H, length_fmap, length_map_to_list). rewrite L. destruct (Nat.ltb_spec (size m) MaxServices), (Nat.leb_spec MaxServices (size m)); try lia; [|done].
  split; [done|]. unfold registry_is. cbn [snd]. rewrite map_to_list_insert by done. cbn. rewrite <- Permutation_cons_append, H. unfold fixed63 at 1. by rewrite take_ge.
Qed.
Lemma Lookup_spec nm l m : registry_is l m -> Lookup nm l = (fun hp => mkReg (c_str nm) hp.1 hp.2) <$> m !! c_str nm.
Proof. intros H. unfold Lookup. pose proof (find_entry_spec nm l m H) as F. destruct (find_entry nm l) as [[i e]|]; [destruct F as (_ & h & p & -> & ->)|rewrite F]; done. Qed.
Lemma Unregister_spec nm l m : registry_is l m -> (Unregister nm l).1 = bool_decide (is_Some (m !! c_str nm)) /\ registry_is (Unregister nm l).2 (delete (c_str nm) m).
Proof.
  intros H. unfold Unregister. pose proof (find_entry_spec nm l m H) as F. destruct (find_entry nm l) as [[i e]|].
  - destruct F as (Hi & h & p & Hm & ->). rewrite Hm. split; [done|]. unfold registry_is. cbn [snd]. rewrite swap_remove_perm by (by eapply lookup_lt_Some).
    apply (Permutation_cons_inv (a := mkReg (c_str nm) h p)). rewrite <- delete_Permutation by done. rewrite H. rewrite <- (map_to_list_delete m _ _ Hm). done.
  - rewrite F. split; [done|]. cbn [snd]. by rewrite delete_id.
Qed.
(** A longer name is registered under its beginning: it is never found, and it can be
    registered again and again. *)
Lemma registry_long_name nm host p l : (63 < length (c_str nm))%nat -> find_entry nm l = None -> (S (length l) < MaxServices)%nat ->
  (Register nm host p l).1 = None /\ Lookup nm (Register nm host p l).2 = None /\ (Register nm host p (Register nm host p l).2).1 = None.
Proof.
  intros Hn F Hl. assert (E : (Register nm host p l) = (None, l ++ [mkReg (fixed63 nm) (fixed63 host) p])) by (unfold Register; rewrite F; destruct (Nat.leb_spec MaxServices (length l)); [lia|done]).
  assert (F2 : find_entry nm (l ++ [mkReg (fixed63 nm) (fixed63 host) p]) = None).
  { unfold find_entry in *. apply list_find_None in F. apply list_find_None, Forall_app. split; [exact F|]. constructor; [|done]. cbn. unfold fixed63. intros G. apply (f_equal length) in G. rewrite length_take in G. lia. }
  rewrite E. cbn [fst snd]. split; [done|]. unfold Lookup. rewrite F2. split; [done|]. unfold Register. rewrite F2, length_app. cbn [length]. destruct (Nat.leb_spec MaxServices (length l + 1)); [lia|done].
Qed.
End Registry.
