(* ===== verification/EventLoop.v ===== *)
(** * EventLoop (include/osp/event_loop.hpp, io_poller.hpp)

    The poller's table of tags, the table of descriptors, the timers, the wake pipe
    and one round of the loop.  The poll backend of the poller is modelled as well;
    epoll is the system's, and what its calls return is an input. *)

From Stdlib Require Import ZArith Lia Bool.
From stdpp Require Import base numbers list option gmap.
From S2P Require Import Prelude Timer.

Open Scope Z_scope.

Inductive LoopError := kNoFreeFdSlot | kNoFreeTimerSlot | kInvalidFd | kInvalidTimerId | kInvalidPeriod | kBackendFailed.
Inductive PollerError := kCreateFailed | kAddFailed | kModifyFailed | kRemoveFailed | kWaitFailed.

(** ** The tags of the poller *)

Record FdTag := mkTag { tag_fd : Z; user_data : Z }.
Section Tags.
Context (kMaxEvents : nat).
Definition find_tag (fd : Z) (l : list FdTag) : option (nat * FdTag) := list_find (fun t => tag_fd t = fd) l.
(** The tag is dropped when the table is full. *)
Definition StoreTag (fd data : Z) (l : list FdTag) : list FdTag :=
  match find_tag fd l with
  | Some (i, _) => <[i := mkTag fd data]> l
  | None => if (length l <? kMaxEvents)%nat then l ++ [mkTag fd data] else l
  end.
Definition ClearTag (fd : Z) (l : list FdTag) : list FdTag := match find_tag fd l with Some (i, _) => swap_remove i l | None => l end.
Definition LookupTag (fd : Z) (l : list FdTag) : Z := match find_tag fd l with Some (_, t) => user_data t | None => 0 end.

(** The table holds the map. *)
Definition tags_are (l : list FdTag) (m : gmap Z Z) : Prop := l ≡ₚ (fun kv => mkTag kv.1 kv.2) <$> map_to_list m.
Lemma tags_length l m : tags_are l m -> length l = size m.
Proof. intros H. by rewrite H, length_fmap, length_map_to_list. Qed.
Lemma find_tag_spec fd l m : tags_are l m ->
  match find_tag fd l with Some (i, t) => l !! i = Some t /\ exists d, m !! fd = Some d /\ t = mkTag fd d | None => m !! fd = None end.
Proof.
  intros H. unfold find_tag. destruct (list_find _ l) as [[i t]|] eqn:F.
  - apply list_find_Some in F as (Hi & Hn & _). split; [done|]. assert (Ht : t ∈ l) by (by eapply list_elem_of_lookup_2). rewrite H in Ht. apply list_elem_of_fmap in Ht as ([k d] & -> & Hk).
    apply elem_of_map_to_list in Hk. cbn in *. subst k. by exists d.
  - apply list_find_None in F. destruct (m !! fd) as [d|] eqn:E; [|done]. apply elem_of_map_to_list in E. assert (Ht : mkTag fd d ∈ l) by (rewrite H; apply list_elem_of_fmap; by exists (fd, d)).
    rewrite Forall_forall in F. by destruct (F _ Ht).
Qed.
Lemma tags_at l m i fd d : tags_are l m -> l !! i = Some (mkTag fd d) -> m !! fd = Some d -> tags_are (delete i l) (delete fd m).
Proof.
  intros H Hi Hm. unfold tags_are. apply (Permutation_cons_inv (a := mkTag fd d)). rewrite <- delete_Permutation by done. rewrite H, <- (map_to_list_delete m _ _ Hm). done.
Qed.
Lemma LookupTag_spec fd l m : tags_are l m -> LookupTag fd l = default 0 (m !! fd).
Proof. intros H. unfold LookupTag. pose proof (find_tag_spec fd l m H) as F. destruct (find_tag fd l) as [[i t]|]; [destruct F as (_ & d & -> & ->)|rewrite F]; done. Qed.
Lemma ClearTag_spec fd l m : tags_are l m -> tags_are (ClearTag fd l) (delete fd m).
Proof.
  intros H. unfold ClearTag. pose proof (find_tag_spec fd l m H) as F. destruct (find_tag fd l) as [[i t]|]; [|by rewrite delete_id].
  destruct F as (Hi & d & Hm & ->). unfold tags_are. rewrite swap_remove_perm by (by eapply lookup_lt_Some). by apply (tags_at l m i fd d).
Qed.
Lemma StoreTag_spec fd data l m : tags_are l m -> tags_are (StoreTag fd data l) (if bool_decide (is_Some (m !! fd)) || (size m <? kMaxEvents)%nat then <[fd := data]> m else m).
Proof.
  intros H. unfold StoreTag. pose proof (find_tag_spec fd l m H) as F. destruct (find_tag fd l) as [[i t]|].
  - destruct F as (Hi & d & Hm & ->). rewrite bool_decide_eq_true_2 by (by eexists). cbn [orb]. pose proof (tags_at _ _ _ _ _ H Hi Hm) as D. unfold tags_are in *.
    rewrite (delete_Permutation (<[i := _]> l) i (mkTag fd data)) by (apply list_lookup_insert_eq; by eapply lookup_lt_Some). rewrite !delete_take_drop, take_insert_ge, drop_insert_lt, <- delete_take_drop, D by lia.
    rewrite <- insert_delete_eq, map_to_list_insert by apply lookup_delete_eq. done.
  - rewrite F, bool_decide_eq_false_2 by (by intros []). cbn [orb]. rewrite (tags_length _ _ H). destruct (_ <? _)%nat; [|done]. unfold tags_are. rewrite map_to_list_insert by done. cbn. by rewrite <- Permutation_cons_append, H.
Qed.
End Tags.

(** ** The poll backend *)

Definition IoEventToPoll (events : Z) : Z := Z.lor (if Z.land events 1 =? 0 then 0 else 1) (if Z.land events 2 =? 0 then 0 else 4).
Definition PollToIoEvent (revents : Z) : Z :=
  Z.lor (Z.lor (if Z.land revents 1 =? 0 then 0 else 1) (if Z.land revents 4 =? 0 then 0 else 2)) (Z.lor (if Z.land revents 8 =? 0 then 0 else 4) (if Z.land revents 16 =? 0 then 0 else 8)).
Record PollFd := mkPoll { p_fd : Z; p_events : Z }.
Record IoPoller := mkPoller { poll_fds : list PollFd; poll_tags : list FdTag }.
Section Poll.
Context (kMaxEvents : nat).
Definition find_poll (fd : Z) (l : list PollFd) : option (nat * PollFd) := list_find (fun p => p_fd p = fd) l.
Definition PollAdd (fd events data : Z) (p : IoPoller) : option PollerError * IoPoller :=
  match find_poll fd (poll_fds p) with
  | Some _ => (Some kAddFailed, p)
  | None =>
    if (kMaxEvents <=? length (poll_fds p))%nat then (Some kAddFailed, p)
    else (None, mkPoller (poll_fds p ++ [mkPoll fd (IoEventToPoll events)]) (StoreTag kMaxEvents fd data (poll_tags p)))
  end.
Definition PollModify (fd events : Z) (p : IoPoller) : option PollerError * IoPoller :=
  match find_poll fd (poll_fds p) with
  | Some (i, _) => (None, mkPoller (<[i := mkPoll fd (IoEventToPoll events)]> (poll_fds p)) (poll_tags p))
  | None => (Some kModifyFailed, p)
  end.
Definition PollRemove (fd : Z) (p : IoPoller) : option PollerError * IoPoller :=
  match find_poll fd (poll_fds p) with
  | Some (i, _) => (None, mkPoller (swap_remove i (poll_fds p)) (ClearTag fd (poll_tags p)))
  | None => (Some kRemoveFailed, p)
  end.
(** The loop of Wait over what poll wrote; descriptor, events and tag. *)
Fixpoint wait_loop (revents : Z -> Z) (tags : list FdTag) (room : nat) (l : list PollFd) : list (Z * Z * Z) :=
  match l, room with
  | x :: l, S room' =>
    if revents (p_fd x) =? 0 then wait_loop revents tags room l
    else (p_fd x, PollToIoEvent (revents (p_fd x)), LookupTag (p_fd x) tags) :: wait_loop revents tags room' l
  | _, _ => []
  end.
(** [None]: poll fails. *)
Definition PollWait (revents : option (Z -> Z)) (max_results : nat) (p : IoPoller) : list (Z * Z * Z) + PollerError :=
  match revents with Some r => inl (wait_loop r (poll_tags p) max_results (poll_fds p)) | None => inr kWaitFailed end.

(** The poller holds the map from descriptors to requested events and tags. *)
Record polling (p : IoPoller) (m : gmap Z (Z * Z)) : Prop := {
  po_fds : poll_fds p ≡ₚ (fun kv => mkPoll kv.1 kv.2.1) <$> map_to_list m;
  po_tags : tags_are (poll_tags p) (snd <$> m);
  po_size : (size m <= kMaxEvents)%nat }.
Lemma find_poll_spec fd p m : polling p m ->
  match find_poll fd (poll_fds p) with Some (i, x) => poll_fds p !! i = Some x /\ exists e d, m !! fd = Some (e, d) /\ x = mkPoll fd e | None => m !! fd = None end.
Proof.
  intros [H _ _]. unfold find_poll. destruct (list_find _ (poll_fds p)) as [[i x]|] eqn:F.
  - apply list_find_Some in F as (Hi & Hn & _). split; [done|]. assert (Hx : x ∈ poll_fds p) by (by eapply list_elem_of_lookup_2). rewrite H in Hx. apply list_elem_of_fmap in Hx as ([k [e d]] & -> & Hk).
    apply elem_of_map_to_list in Hk. cbn in *. subst k. by exists e, d.
  - apply list_find_None in F. destruct (m !! fd) as [[e d]|] eqn:E; [|done]. apply elem_of_map_to_list in E. assert (Hx : mkPoll fd e ∈ poll_fds p) by (rewrite H; apply list_elem_of_fmap; by exists (fd, (e, d))).
    rewrite Forall_forall in F. by destruct (F _ Hx).
Qed.
Lemma PollAdd_spec fd events data p m : polling p m ->
  if bool_decide (is_Some (m !! fd)) || (kMaxEvents <=? size m)%nat then PollAdd fd events data p = (Some kAddFailed, p)
  else (PollAdd fd events data p).1 = None /\ polling (PollAdd fd events data p).2 (<[fd := (IoEventToPoll events, data)]> m).
Proof.
  intros H. unfold PollAdd. pose proof (find_poll_spec fd p m H) as F. destruct (find_poll fd (poll_fds p)) as [[i x]|]; [destruct F as (_ & e & d & -> & _); done|].
  rewrite F. assert (L : length (poll_fds p) = size m) by (by rewrite (po_fds _ _ H), length_fmap, length_map_to_list). rewrite L, bool_decide_eq_false_2 by (by intros []). cbn [orb].
  destruct (Nat.leb_spec kMaxEvents (size m)); [done|]. split; [done|]. split; cbn [poll_fds poll_tags snd].
  - rewrite map_to_list_insert by done. cbn. by rewrite <- Permutation_cons_append, (po_fds _ _ H).
  - pose proof (StoreTag_spec kMaxEvents fd data _ _ (po_tags _ _ H)) as S. rewrite map_size_fmap, (proj2 (Nat.ltb_lt _ _)), orb_true_r in S by lia. by rewrite fmap_insert.
  - rewrite map_size_insert_None by done. lia.
Qed.
Lemma PollRemove_spec fd p m : polling p m ->
  if bool_decide (is_Some (m !! fd)) then (PollRemove fd p).1 = None /\ polling (PollRemove fd p).2 (delete fd m) else PollRemove fd p = (Some kRemoveFailed, p).
Proof.
  intros H. unfold PollRemove. pose proof (find_poll_spec fd p m H) as F. destruct (find_poll fd (poll_fds p)) as [[i x]|]; [|rewrite F; done].
  destruct F as (Hi & e & d & Hm & ->). rewrite Hm. cbn. split; [done|]. split; cbn [poll_fds poll_tags snd].
  - rewrite swap_remove_perm by (by eapply lookup_lt_Some). apply (Permutation_cons_inv (a := mkPoll fd e)). rewrite <- delete_Permutation by done. rewrite (po_fds _ _ H), <- (map_to_list_delete m _ _ Hm). done.
  - rewrite fmap_delete. apply ClearTag_spec, H.
  - pose proof (po_size _ _ H). rewrite map_size_delete, Hm. cbn. lia.
Qed.
(** Wait reports each ready descriptor with the tag of its registration, as many as fit. *)
Lemma PollWait_spec r n p m : polling p m ->
  PollWait (Some r) n p = inl (take n ((fun x => (p_fd x, PollToIoEvent (r (p_fd x)), default 0 (snd <$> m !! p_fd x))) <$> filter (fun x => r (p_fd x) <> 0) (poll_fds p))).
Proof.
  intros H. unfold PollWait. f_equal. revert n. generalize (poll_fds p) as l. induction l as [|x l IH]; intros n; [by destruct n|]. cbn [wait_loop]. destruct n as [|n]; [done|].
  rewrite filter_cons. destruct (Z.eqb_spec (r (p_fd x)) 0); [rewrite decide_False by tauto; apply IH|]. rewrite decide_True by done. cbn. rewrite IH, (LookupTag_spec _ _ _ (po_tags _ _ H)), lookup_fmap. done.
Qed.
End Poll.

(** ** The loop *)

Record EvTimer := mkEv { ev_id : Z; ev_period : Z; ev_next : Z; ev_active : bool; ev_once : bool }.
(** A descriptor's slot is the descriptor while it is active; the pipe holds bytes to read. *)
Record EventLoop := mkLoop { tags_ : list FdTag; fds_ : list (option Z); timers_ : list EvTimer; next_timer_id_ : Z; pipe_ : nat; stop_ : bool }.
Inductive Hook := OnWake | OnFd (fd events data : Z) | OnTimer (id : Z).

Section Loop.
Context (MaxFds MaxTimers kMaxEvents kPipe : nat) (wake_fd : Z).
Definition set_watch (tags : list FdTag) (fds : list (option Z)) (l : EventLoop) : EventLoop := mkLoop tags fds (timers_ l) (next_timer_id_ l) (pipe_ l) (stop_ l).
Definition set_timers (ts : list EvTimer) (id : Z) (l : EventLoop) : EventLoop := mkLoop (tags_ l) (fds_ l) ts id (pipe_ l) (stop_ l).
(** The wake pipe is registered with the poller. *)
Definition EventLoop_ctor : EventLoop := mkLoop (StoreTag kMaxEvents wake_fd 0 []) (replicate MaxFds None) (replicate MaxTimers (mkEv 0 0 0 false false)) 1 0 false.
Definition AddFd (ok : bool) (fd data : Z) (l : EventLoop) : option LoopError * EventLoop :=
  match list_find (fun s => s = None) (fds_ l) with
  | None => (Some kNoFreeFdSlot, l)
  | Some (slot, _) =>
    if negb ok then (Some kBackendFailed, l) else (None, set_watch (StoreTag kMaxEvents fd data (tags_ l)) (<[slot := Some fd]> (fds_ l)) l)
  end.
Definition ModifyFd (ok : bool) : option LoopError := if negb ok then Some kBackendFailed else None.
Definition RemoveFd (ok : bool) (fd : Z) (l : EventLoop) : option LoopError * EventLoop :=
  if negb ok then (Some kBackendFailed, l)
  else (None, set_watch (ClearTag fd (tags_ l)) (match list_find (fun s => s = Some fd) (fds_ l) with Some (i, _) => <[i := None]> (fds_ l) | None => fds_ l end) l).
(** Schedule and ScheduleOnce. *)
Definition schedule (ms : Z) (once : bool) (now : Z) (l : EventLoop) : (Z + LoopError) * EventLoop :=
  if ms =? 0 then (inr kInvalidPeriod, l)
  else match list_find (fun t => ev_active t = false) (timers_ l) with
  | Some (i, _) =>
    let ns := u64 (ms * 1000000) in
    (inl (next_timer_id_ l), set_timers (<[i := mkEv (next_timer_id_ l) ns (u64 (now + ns)) true once]> (timers_ l)) (u32 (next_timer_id_ l + 1)) l)
  | None => (inr kNoFreeTimerSlot, l)
  end.
Definition Schedule (period_ms now : Z) (l : EventLoop) := schedule period_ms false now l.
Definition ScheduleOnce (delay_ms now : Z) (l : EventLoop) := schedule delay_ms true now l.
Definition stop_ev (t : EvTimer) : EvTimer := mkEv (ev_id t) (ev_period t) (ev_next t) false (ev_once t).
Definition Cancel (id : Z) (l : EventLoop) : option LoopError * EventLoop :=
  match list_find (fun t => ev_active t = true /\ ev_id t = id) (timers_ l) with
  | Some (i, t) => (None, set_timers (<[i := stop_ev t]> (timers_ l)) (next_timer_id_ l) l)
  | None => (Some kInvalidTimerId, l)
  end.
Definition Wake (l : EventLoop) : EventLoop := mkLoop (tags_ l) (fds_ l) (timers_ l) (next_timer_id_ l) (if (pipe_ l <? kPipe)%nat then S (pipe_ l) else pipe_ l) (stop_ l).
Definition set_stop (b : bool) (l : EventLoop) : EventLoop := mkLoop (tags_ l) (fds_ l) (timers_ l) (next_timer_id_ l) (pipe_ l) b.
Definition StopLoop (l : EventLoop) : EventLoop := Wake (set_stop true l).
Definition ClearStop (l : EventLoop) : EventLoop := set_stop false l.
Definition DrainWake (l : EventLoop) : bool * EventLoop :=
  ((0 <? pipe_ l)%nat, mkLoop (tags_ l) (fds_ l) (timers_ l) (next_timer_id_ l) 0 (stop_ l)).
Fixpoint min_next (m : Z) (l : list EvTimer) : Z :=
  match l with [] => m | t :: l => min_next (if ev_active t && (ev_next t <? m) then ev_next t else m) l end.
Definition NextTimeoutMs (now : Z) (l : EventLoop) : Z :=
  let m := min_next UINT64_MAX (timers_ l) in
  if m =? UINT64_MAX then -1
  else if m <=? now then 0
  else let delta_ms := u64 (u64 (m - now) + 999999) / 1000000 in if 0x7FFFFFFF <? delta_ms then 0x7FFFFFFF else delta_ms.
(** The locked part of FireExpiredTimers: the timers and the due ids; [None] if the
    catching up does not end. *)
Fixpoint collect_due (now : Z) (l : list EvTimer) : option (list EvTimer * list Z) :=
  match l with
  | [] => Some ([], [])
  | t :: l =>
    if negb (ev_active t) || (now <? ev_next t) then '(l, due) ← collect_due now l; Some (t :: l, due)
    else if ev_once t then '(l, due) ← collect_due now l; Some (stop_ev t :: l, ev_id t :: due)
    else
      let next := u64 (ev_next t + ev_period t) in
      next ← catch_up (catch_up_fuel now (ev_period t) next) now (ev_period t) next;
      '(l, due) ← collect_due now l; Some (mkEv (ev_id t) (ev_period t) next (ev_active t) (ev_once t) :: l, ev_id t :: due)
  end.

(** What a hook does to the loop and to the state of the class derived from it. *)
Context {W : Type} (hook : Hook -> EventLoop * W -> EventLoop * W).
(** The results of Wait, with the tags of that moment. *)
Definition results_of (wr : option (list (Z * Z))) (l : EventLoop) : list Hook :=
  match wr with
  | Some rs => (fun r => OnFd r.1 r.2 (LookupTag r.1 (tags_ l))) <$> filter (fun r => r.1 <> wake_fd) rs
  | None => []
  end.
(** One round of Run after Wait returned [wr]: whether it leaves the loop. *)
Definition RunRound (wr : option (list (Z * Z))) (now : Z) (x : EventLoop * W) : option (bool * (EventLoop * W)) :=
  let results := results_of wr x.1 in
  let '(drained, l) := DrainWake x.1 in
  let x := (l, x.2) in
  let x := if drained then hook OnWake x else x in
  if stop_ x.1 then Some (true, x)
  else
    let x := fold_left (fun x h => hook h x) results x in
    '(ts, due) ← collect_due now (timers_ x.1);
    Some (false, fold_left (fun x id => hook (OnTimer id) x) due (set_timers ts (next_timer_id_ x.1) x.1, x.2)).

(** *** What the loop promises *)

(** Descriptors and tags are those of the map, besides the wake pipe. *)
Record watching (l : EventLoop) (m : gmap Z Z) : Prop := {
  wa_fds : omap id (fds_ l) ≡ₚ (map_to_list m).*1;
  wa_tags : tags_are (tags_ l) (<[wake_fd := 0]> m);
  wa_wake : m !! wake_fd = None;
  wa_length : length (fds_ l) = MaxFds }.
Lemma watching_start : (0 < kMaxEvents)%nat -> watching EventLoop_ctor ∅.
Proof.
  intros H. split.
  - cbn [fds_ EventLoop_ctor]. rewrite map_to_list_empty. induction MaxFds as [|n IH]; [done|exact IH].
  - cbn [tags_ EventLoop_ctor]. unfold StoreTag, tags_are. cbn [find_tag list_find length]. rewrite (proj2 (Nat.ltb_lt _ _) H), insert_empty, map_to_list_singleton. done.
  - done.
  - apply length_replicate.
Qed.
Lemma watching_size l m : watching l m -> (size m <= MaxFds)%nat.
Proof.
  intros H. rewrite <- (wa_length _ _ H), <- (length_map_to_list m), <- (length_fmap fst), <- (wa_fds _ _ H).
  induction (fds_ l) as [|[x|] k IH]; cbn; lia.
Qed.
(** While there is room in both tables, a descriptor is watched with its tag. *)
Lemma AddFd_spec fd data l m : watching l m -> m !! fd = None -> fd <> wake_fd -> (size m < MaxFds)%nat -> (S (size m) < kMaxEvents)%nat ->
  (AddFd true fd data l).1 = None /\ watching (AddFd true fd data l).2 (<[fd := data]> m).
Proof.
  intros H Hf Hw Hs He. unfold AddFd. destruct (list_find (fun s => s = None) (fds_ l)) as [[i s]|] eqn:F.
  - apply list_find_Some in F as (Hi & -> & _). cbn [negb fst snd]. split; [done|]. split; cbn [fds_ tags_ set_watch]; [| |rewrite lookup_insert_ne by done; apply H|rewrite length_insert; apply H].
    + rewrite (omap_put _ _ _ Hi), (wa_fds _ _ H), map_to_list_insert by done. done.
    + pose proof (StoreTag_spec kMaxEvents fd data _ _ (wa_tags _ _ H)) as S. rewrite map_size_insert_None in S by apply H. rewrite (proj2 (Nat.ltb_lt _ _)), orb_true_r in S by done.
      rewrite insert_insert_ne in S by done. exact S.
  - exfalso. apply list_find_None in F. assert (E : length (omap id (fds_ l)) = length (fds_ l)).
    { clear -F. induction F as [|x k Hx _ IH]; [done|]. destruct x; [cbn; by rewrite IH|done]. }
    rewrite (wa_fds _ _ H), length_fmap, length_map_to_list, (wa_length _ _ H) in E. lia.
Qed.
Lemma RemoveFd_spec fd l m : watching l m -> is_Some (m !! fd) -> (RemoveFd true fd l).1 = None /\ watching (RemoveFd true fd l).2 (delete fd m).
Proof.
  intros H [d Hd]. assert (Hw : fd <> wake_fd) by (intros ->; by rewrite (wa_wake _ _ H) in Hd). unfold RemoveFd. cbn. split; [done|].
  pose proof (wa_fds _ _ H) as P. rewrite <- (map_to_list_delete m fd d Hd) in P. cbn in P.
  destruct (list_find (fun s => s = Some fd) (fds_ l)) as [[i s]|] eqn:F.
  - apply list_find_Some in F as (Hi & -> & _). split; cbn [fds_ tags_ set_watch]; [| |rewrite lookup_delete_ne by done; apply H|rewrite length_insert; apply H].
    + rewrite (omap_take _ _ _ Hi) in P. by apply Permutation_cons_inv in P.
    + rewrite <- delete_insert_ne by done. by apply ClearTag_spec, H.
  - exfalso. apply list_find_None in F. assert (E : fd ∈ omap id (fds_ l)) by (rewrite P; constructor). apply list_elem_of_omap in E as (s & Hs & Es). rewrite Forall_forall in F. by apply (F s Hs).
Qed.
(** What Wait reports is handed over with the tag given at registration. *)
Lemma results_spec l m rs : watching l m -> results_of (Some rs) l = (fun r => OnFd r.1 r.2 (default 0 (m !! r.1))) <$> filter (fun r => r.1 <> wake_fd) rs.
Proof.
  intros H. unfold results_of. apply list_fmap_ext. intros i r Hr. apply list_elem_of_lookup_2, list_elem_of_filter in Hr as [Hn _].
  rewrite (LookupTag_spec _ _ _ (wa_tags _ _ H)), lookup_insert_ne by done. done.
Qed.

(** A timer that is set: periods and times as in the scheduler (Timer.task_ok). *)
Definition ev_ok (t : EvTimer) : Prop := ev_active t = true -> 1000000 <= ev_period t < 2 ^ 52 /\ 0 <= ev_next t < 2 ^ 62 + 2 ^ 52.
Definition ev_due (now : Z) (t : EvTimer) : Prop := ev_active t = true /\ ev_next t <= now.
#[local] Instance ev_due_dec now t : Decision (ev_due now t).
Proof. unfold ev_due. apply _. Defined.
(** What becomes of a timer: a periodic one that is due skips to its first time after
    [now] in its rhythm. *)
Definition ev_after (now : Z) (t : EvTimer) : EvTimer :=
  if decide (ev_due now t) then
    if ev_once t then stop_ev t else mkEv (ev_id t) (ev_period t) (ev_next t + ((now - ev_next t) / ev_period t + 1) * ev_period t) true false
  else t.
Lemma ev_after_later now t : ev_ok t -> ev_due now t -> ev_once t = false -> now < ev_next (ev_after now t) <= now + ev_period t.
Proof.
  intros Hok [Ha Hd] Ho. destruct (Hok Ha) as [Hp Hn]. unfold ev_after. rewrite decide_True by done. rewrite Ho. cbn.
  pose proof (Z.mul_div_le (now - ev_next t) (ev_period t)). pose proof (Z.mul_succ_div_gt (now - ev_next t) (ev_period t)). lia.
Qed.
(** Each due timer fires once, however late the loop is. *)
Lemma collect_due_spec now l : Forall ev_ok l -> 0 <= now < 2 ^ 62 -> collect_due now l = Some (ev_after now <$> l, ev_id <$> filter (ev_due now) l).
Proof.
  intros Hl Hc. induction Hl as [|t l Ht Hl IH]; [done|]. cbn [collect_due fmap list_fmap]. rewrite filter_cons, IH.
  assert (EA : ev_after now t = if decide (ev_due now t) then if ev_once t then stop_ev t else mkEv (ev_id t) (ev_period t) (ev_next t + ((now - ev_next t) / ev_period t + 1) * ev_period t) true false else t) by done. rewrite EA. clear EA. destruct (ev_active t) eqn:Ea; cbn [negb orb].
  - destruct (Z.ltb_spec now (ev_next t)) as [Hlt|Hle].
    + rewrite !decide_False by (intros [_ F]; lia). done.
    + rewrite !decide_True by done. destruct (ev_once t) eqn:Eo; [done|]. destruct (Ht Ea) as [Hp Hn].
      assert (E : (now - (ev_next t + ev_period t)) / ev_period t = (now - ev_next t) / ev_period t - 1) by (replace (now - (ev_next t + ev_period t)) with (now - ev_next t + (-1) * ev_period t) by lia; rewrite Z.div_add by lia; lia).
      rewrite wrap_small by (unfold in_range; lia). rewrite catch_up_spec; [|lia|lia|done|unfold catch_up_fuel; rewrite E; pose proof (Z.div_pos (now - ev_next t) (ev_period t)); lia]. cbn [mbind option_bind].
      rewrite E. do 2 f_equal. destruct (Z.leb_spec (ev_next t + ev_period t) now); f_equal; f_equal; [lia|]. rewrite (Z.div_small (now - ev_next t)) by lia. lia.
  - rewrite !decide_False by (intros [F _]; congruence). done.
Qed.
(** Wait returns, by its timeout, in the first millisecond in which a timer is due. *)
Lemma min_next_spec m l : min_next m l = foldr Z.min m (ev_next <$> filter (fun t => ev_active t = true) l).
Proof.
  assert (G : forall a b (k : list Z), foldr Z.min (Z.min a b) k = Z.min a (foldr Z.min b k)) by (intros a b k; induction k as [|x k IH]; cbn; lia).
  revert m. induction l as [|t l IH]; intros m; [done|]. cbn [min_next]. rewrite IH, filter_cons. destruct (ev_active t); cbn [andb]; [|done].
  rewrite decide_True by done. cbn. destruct (Z.ltb_spec (ev_next t) m).
  - rewrite <- (Z.min_l (ev_next t) m) at 1 by lia. apply G.
  - rewrite <- (Z.min_r (ev_next t) m) at 1 by lia. apply G.
Qed.
Lemma next_timeout_spec now l t : Forall ev_ok (timers_ l) -> 0 <= now < 2 ^ 62 -> t ∈ timers_ l -> ev_active t = true ->
  let ms := NextTimeoutMs now l in 0 <= ms /\ (now < ev_next t -> now + (ms - 1) * 1000000 < ev_next t) /\
  (ms < 0x7FFFFFFF -> exists t', t' ∈ timers_ l /\ ev_active t' = true /\ ev_next t' <= now + ms * 1000000).
Proof.
  intros Hok Hc Ht Ha. assert (HF : forall m, min_next m (timers_ l) <= ev_next t).
  { intros m. rewrite min_next_spec. assert (In : ev_next t ∈ ev_next <$> filter (fun t => ev_active t = true) (timers_ l)) by (by apply list_elem_of_fmap_2, list_elem_of_filter).
    induction In as [k|k x y _ IH]; cbn; lia. }
  assert (HE : forall m, (min_next m (timers_ l) = m \/ exists t', t' ∈ timers_ l /\ ev_active t' = true /\ ev_next t' = min_next m (timers_ l))).
  { intros m. rewrite min_next_spec. clear. induction (timers_ l) as [|x k IH]; [by left|]. rewrite filter_cons. case_decide as Ex; cbn.
    - destruct (Z.min_spec (ev_next x) (foldr Z.min m (ev_next <$> filter (fun t => ev_active t = true) k))) as [[_ ->]|[_ ->]]; [right; exists x; by split; [constructor|]|].
      destruct IH as [->|(t' & H1 & H2 & H3)]; [by left|right; exists t'; by split; [constructor|]].
    - destruct IH as [->|(t' & H1 & H2 & H3)]; [by left|right; exists t'; by split; [constructor|]]. }
  rewrite Forall_forall in Hok. destruct (Hok t Ht Ha) as [_ Hn]. pose proof (HF UINT64_MAX) as HF1. unfold NextTimeoutMs. unfold UINT64_MAX in *.
  destruct (HE (2 ^ 64 - 1)) as [E|(t' & Ht' & Ha' & E)]; [lia|]. destruct (Hok t' Ht' Ha') as [_ Hn'].
  destruct (Z.eqb_spec (min_next (2 ^ 64 - 1) (timers_ l)) (2 ^ 64 - 1)); [lia|]. destruct (Z.leb_spec (min_next (2 ^ 64 - 1) (timers_ l)) now).
  - split; [lia|]. split; [lia|]. intros _. exists t'. split_and!; [done..|lia].
  - rewrite !wrap_small by (unfold in_range; rewrite ?wrap_small by (unfold in_range; lia); lia).
    pose proof (Z.div_mod (min_next (2 ^ 64 - 1) (timers_ l) - now + 999999) 1000000 ltac:(lia)). pose proof (Z.mod_pos_bound (min_next (2 ^ 64 - 1) (timers_ l) - now + 999999) 1000000 ltac:(lia)).
    destruct (Z.ltb_spec 0x7FFFFFFF ((min_next (2 ^ 64 - 1) (timers_ l) - now + 999999) / 1000000)); (split; [lia|]); (split; [lia|]); intros Hms; [lia|]. exists t'. split_and!; [done..|lia].
Qed.
End Loop.

(** With as many descriptors as tags, the wake pipe's tag leaves one of them without its
    own: it is reported with the data 0. *)
Definition fill (MaxFds kMaxEvents n : nat) : EventLoop :=
  foldl (fun l k => (AddFd kMaxEvents true (100 + Z.of_nat k) (1 + Z.of_nat k) l).2) (EventLoop_ctor MaxFds 2 kMaxEvents 7) (seq 0 n).
Example last_descriptor_untagged :
  let l := fill 65 64 64 in
  (length (omap id (fds_ l)), results_of 7 (Some [(162, 1); (163, 1)]) l) = (64%nat, [OnFd 162 1 63; OnFd 163 1 0]).
Proof. vm_compute. reflexivity. Qed.
