(* ===== verification/NodeManager.v ===== *)
(** * NodeManager (include/osp/node_manager.hpp)

    The table of listeners and connected nodes, the heartbeats, timeouts and events of
    their sockets, and the disconnect callback, over the modelled event loop.

    Every critical section of the mutex is one operation, in any order and with any
    arguments: this covers the loop's thread and the callers running side by side.  The
    results of the system calls are inputs; a new descriptor is one that is not open. *)

From Stdlib Require Import ZArith Lia Bool.
From stdpp Require Import base numbers list option gmap.
From S2P Require Import Prelude Ini Discovery EventLoop.

Open Scope Z_scope.

Inductive NodeManagerError := kTableFull | kConnectionFailed | kBindFailed | kNotFound | kAlreadyRunning | kNotRunning | kInvalidId.
Definition kHeartbeatMagic : Z := 0x4F534842.
Definition kHeartbeatFrameSize : nat := 14.
Definition HeartbeatFrame (node_id timestamp : Z) : list Z := to_le 4 kHeartbeatMagic ++ to_le 2 node_id ++ to_le 8 timestamp.

Record NodeEntry := mkNodeEntry {
  node_id : Z; socket : Z; listener : Z; remote_host : list Z; remote_port : Z; last_heartbeat_us : Z; active : bool; is_listener : bool }.
(** The table; the loop; the open descriptors; the ids that were given out, that were
    disconnected by the caller or by Stop, and that were lost; and the calls of the
    disconnect callback, made when the mutex is free again: which callback, for which id. *)
Record NodeManager := mkManager {
  nodes_ : list NodeEntry; next_node_id_ : Z; node_count_ : Z; disconnect_fn_ : option Z; running_ : bool; timer_id_ : Z; loop_ : EventLoop;
  open_fds : list Z; made : list Z; gone : list Z; lost : list Z; reports : list (Z * Z) }.
Definition set_nodes (l : list NodeEntry) (count : Z) (m : NodeManager) : NodeManager :=
  mkManager l (next_node_id_ m) count (disconnect_fn_ m) (running_ m) (timer_id_ m) (loop_ m) (open_fds m) (made m) (gone m) (lost m) (reports m).
Definition set_loop (l : EventLoop) (m : NodeManager) : NodeManager :=
  mkManager (nodes_ m) (next_node_id_ m) (node_count_ m) (disconnect_fn_ m) (running_ m) (timer_id_ m) l (open_fds m) (made m) (gone m) (lost m) (reports m).
Definition set_files (fds g ls : list Z) (rs : list (Z * Z)) (m : NodeManager) : NodeManager :=
  mkManager (nodes_ m) (next_node_id_ m) (node_count_ m) (disconnect_fn_ m) (running_ m) (timer_id_ m) (loop_ m) fds (made m) g ls rs.

Section Manager.
Context (MaxNodes kMaxEvents kPipe : nat) (wake_fd heartbeat_interval_ms heartbeat_timeout_count : Z).

Definition empty_entry : NodeEntry := mkNodeEntry 0 (-1) (-1) [] 0 0 false false.
Definition NodeManager_ctor : NodeManager :=
  mkManager (replicate MaxNodes empty_entry) 1 0 None false 0 (EventLoop_ctor (MaxNodes + 1) 2 kMaxEvents wake_fd) [] [] [] [] [].
(** The id given out, and the next one; 0 is skipped. *)
Definition AllocNodeId (next : Z) : Z * Z := (next, if u16 (next + 1) =? 0 then 1 else u16 (next + 1)).
Definition FindSlot (l : list NodeEntry) : option nat := fst <$> list_find (fun e => active e = false) l.
Definition FindNode (id : Z) (l : list NodeEntry) : option (nat * NodeEntry) := list_find (fun e => active e = true /\ node_id e = id) l.
Definition close_fd (fd : Z) (fds : list Z) : list Z := filter (fun f => f <> fd) fds.
(** The node takes the slot and its id. *)
Definition put_node (slot : nat) (fd : Z) (listens : bool) (host : list Z) (port now : Z) (m : NodeManager) : Z * NodeManager :=
  let '(id, next) := AllocNodeId (next_node_id_ m) in
  (id, mkManager (<[slot := mkNodeEntry id (if listens then -1 else fd) (if listens then fd else -1) host port now true listens]> (nodes_ m)) next (u32 (node_count_ m + 1)) (disconnect_fn_ m) (running_ m)
    (timer_id_ m) (loop_ m) (fd :: open_fds m) (id :: made m) (gone m) (lost m) (reports m)).
(** [sys]: the listener that is bound and listens, or the failure of one of the calls;
    what was created is closed by its destructor. *)
Definition CreateListener (sys : option Z) (port now : Z) (m : NodeManager) : (Z + NodeManagerError) * NodeManager :=
  match FindSlot (nodes_ m) with
  | None => (inr kTableFull, m)
  | Some slot => match sys with None => (inr kBindFailed, m) | Some fd => let '(id, m) := put_node slot fd true (fixed63 [48; 46; 48; 46; 48; 46; 48]) port now m in (inl id, m) end
  end.
Definition Connect (sys : option Z) (add_ok : bool) (host : list Z) (port now : Z) (m : NodeManager) : (Z + NodeManagerError) * NodeManager :=
  match FindSlot (nodes_ m) with
  | None => (inr kTableFull, m)
  | Some slot => match sys with
    | None => (inr kConnectionFailed, m)
    | Some fd => let '(id, m) := put_node slot fd false (fixed63 host) port now m in (inl id, set_loop (AddFd kMaxEvents add_ok fd id (loop_ m)).2 m)
    end
  end.
Definition entry_fd (e : NodeEntry) : Z := if is_listener e then listener e else socket e.
Definition closed_entry (e : NodeEntry) : NodeEntry :=
  mkNodeEntry (node_id e) (if is_listener e then socket e else -1) (if is_listener e then -1 else listener e) (remote_host e) (remote_port e) (last_heartbeat_us e) false (is_listener e).
Definition Disconnect (rem_ok : bool) (id : Z) (m : NodeManager) : option NodeManagerError * NodeManager :=
  match FindNode id (nodes_ m) with
  | None => (Some kNotFound, m)
  | Some (i, e) =>
    let m := if is_listener e then m else set_loop (RemoveFd rem_ok (socket e) (loop_ m)).2 m in
    (None, set_files (close_fd (entry_fd e) (open_fds m)) (id :: gone m) (lost m) (reports m) (set_nodes (<[i := closed_entry e]> (nodes_ m)) (u32 (node_count_ m - 1)) m))
  end.
Definition OnDisconnect (fn : option Z) (m : NodeManager) : NodeManager :=
  mkManager (nodes_ m) (next_node_id_ m) (node_count_ m) fn (running_ m) (timer_id_ m) (loop_ m) (open_fds m) (made m) (gone m) (lost m) (reports m).
Definition IsConnected (id : Z) (m : NodeManager) : bool := match FindNode id (nodes_ m) with Some (_, e) => active e | None => false end.
Definition NodeCount (m : NodeManager) : Z := node_count_ m.
Definition ForEach (m : NodeManager) : list NodeEntry := filter (fun e => active e = true) (nodes_ m).

(** The node still owns the descriptor: its time is written (OnFd, SendHeartbeatByFd). *)
Definition touch (id fd now : Z) (m : NodeManager) : NodeManager :=
  match FindNode id (nodes_ m) with
  | Some (i, e) =>
    if active e && (socket e =? fd) then set_nodes (<[i := mkNodeEntry (node_id e) (socket e) (listener e) (remote_host e) (remote_port e) now (active e) (is_listener e)]> (nodes_ m)) (node_count_ m) m else m
  | None => m
  end.
(** The calls of the callback that was registered when the nodes were lost, if there was one. *)
Definition notify_lost (fn : option Z) (ids : list Z) : list (Z * Z) := match fn with Some f => (fun id => (f, id)) <$> ids | None => [] end.
Definition DisconnectByNodeId (rem_ok : bool) (id fd : Z) (m : NodeManager) : NodeManager :=
  match FindNode id (nodes_ m) with
  | None => m
  | Some (i, e) =>
    if negb (active e) || negb (socket e =? fd) then m
    else
      let m := set_loop (RemoveFd rem_ok fd (loop_ m)).2 m in
      set_files (close_fd (socket e) (open_fds m)) (gone m) (id :: lost m) (notify_lost (disconnect_fn_ m) [id] ++ reports m)
        (set_nodes (<[i := mkNodeEntry (node_id e) (-1) (listener e) (remote_host e) (remote_port e) (last_heartbeat_us e) false (is_listener e)]> (nodes_ m)) (u32 (node_count_ m - 1)) m)
  end.
(** What recv returns: bytes, the end, no data yet, an error. *)
Inductive RecvRes := rData | rFin | rNone | rError.
Definition HandleFd (rem_ok : bool) (fd events data : Z) (r : RecvRes) (now : Z) (m : NodeManager) : NodeManager :=
  let id := u16 data in
  if Z.land events 1 =? 0 then m
  else match r with
  | rData => touch id fd now m
  | rFin => DisconnectByNodeId rem_ok id fd m
  | rNone => m
  | rError => DisconnectByNodeId rem_ok id fd m
  end.
(** [sent]: the whole frame was sent. *)
Definition SendHeartbeatByFd (id fd : Z) (sent : bool) (timestamp : Z) (m : NodeManager) : NodeManager :=
  if fd <? 0 then m else if negb sent then m else touch id fd timestamp m.
Definition heartbeat_targets (m : NodeManager) : list (Z * Z) :=
  (fun e => (node_id e, socket e)) <$> filter (fun e => active e = true /\ is_listener e = false) (nodes_ m).
Definition timeout_us : Z := u64 (u64 (heartbeat_interval_ms * heartbeat_timeout_count) * 1000).
Definition overdue (now : Z) (e : NodeEntry) : bool := active e && negb (is_listener e) && (timeout_us <? u64 (now - last_heartbeat_us e)).
(** The loop of CollectTimeouts: the nodes, their count, and the ids and sockets of those that timed out. *)
Fixpoint collect (now : Z) (l : list NodeEntry) (count : Z) : list NodeEntry * Z * list Z * list Z :=
  match l with
  | [] => ([], count, [], [])
  | e :: l =>
    if overdue now e then let '(l, count, ids, fds) := collect now l (u32 (count - 1)) in (closed_entry e :: l, count, node_id e :: ids, socket e :: fds)
    else let '(l, count, ids, fds) := collect now l count in (e :: l, count, ids, fds)
  end.
Definition CollectTimeouts (now : Z) (m : NodeManager) : NodeManager :=
  let '(l, count, ids, fds) := collect now (nodes_ m) (node_count_ m) in
  set_files (foldl (fun o fd => close_fd fd o) (open_fds m) fds) (gone m) (ids ++ lost m) (notify_lost (disconnect_fn_ m) ids ++ reports m) (set_nodes l count m).
Definition HeartbeatOnce (sent : Z -> bool) (timestamp : Z -> Z) (now : Z) (m : NodeManager) : NodeManager :=
  CollectTimeouts now (foldl (fun m t => SendHeartbeatByFd t.1 t.2 (sent t.2) (timestamp t.2) m) m (heartbeat_targets m)).
(** [scheduler]: whether the external scheduler, if there is one, takes the task. *)
Definition StartManager (scheduler : option bool) (thread_ok : bool) (now : Z) (m : NodeManager) : option NodeManagerError * NodeManager :=
  let set r t l := mkManager (nodes_ m) (next_node_id_ m) (node_count_ m) (disconnect_fn_ m) r t l (open_fds m) (made m) (gone m) (lost m) (reports m) in
  if running_ m then (Some kAlreadyRunning, m)
  else match scheduler with
  | Some true => (None, set true (timer_id_ m) (loop_ m))
  | Some false => (Some kNotRunning, set false (timer_id_ m) (loop_ m))
  | None =>
    match Schedule heartbeat_interval_ms now (loop_ m) with
    | (inr _, l) => (Some kNotRunning, set false (timer_id_ m) l)
    | (inl t, l) => if thread_ok then (None, set true t (ClearStop l)) else (Some kNotRunning, set false t (ClearStop l))
    end
  end.
(** Stop, after the thread has been joined. *)
Definition StopManager (scheduled : bool) (m : NodeManager) : NodeManager :=
  let l := if scheduled then loop_ m else (Cancel (timer_id_ m) (StopLoop kPipe (loop_ m))).2 in
  mkManager ((fun e => if active e then closed_entry e else e) <$> nodes_ m) (next_node_id_ m) 0 (disconnect_fn_ m) false (timer_id_ m) l
    (foldl (fun o e => close_fd (entry_fd e) o) (open_fds m) (ForEach m)) (made m) ((node_id <$> ForEach m) ++ gone m) (lost m) (reports m).

Inductive MgrOp :=
| MListen (sys : option Z) (port now : Z) | MConnect (sys : option Z) (add_ok : bool) (host : list Z) (port now : Z) | MDisconnect (rem_ok : bool) (id : Z) | MOnDisconnect (fn : option Z)
| MFd (rem_ok : bool) (fd events data : Z) (r : RecvRes) (now : Z) | MSend (id fd : Z) (sent : bool) (timestamp : Z) | MCollect (now : Z)
| MStart (scheduler : option bool) (thread_ok : bool) (now : Z) | MStop (scheduled : bool).
Definition fresh (sys : option Z) (m : NodeManager) : bool := match sys with Some fd => bool_decide (0 <= fd /\ fd ∉ open_fds m) | None => true end.
Definition mgr_op (o : MgrOp) (m : NodeManager) : option NodeManager :=
  match o with
  | MListen sys port now => if fresh sys m then Some (CreateListener sys port now m).2 else None
  | MConnect sys ok host port now => if fresh sys m then Some (Connect sys ok host port now m).2 else None
  | MDisconnect ok id => Some (Disconnect ok id m).2
  | MOnDisconnect fn => Some (OnDisconnect fn m)
  | MFd ok fd events data r now => if 0 <=? fd then Some (HandleFd ok fd events data r now m) else None
  | MSend id fd sent ts => Some (SendHeartbeatByFd id fd sent ts m)
  | MCollect now => Some (CollectTimeouts now m)
  | MStart s t now => Some (StartManager s t now m).2
  | MStop s => Some (StopManager s m)
  end.
Fixpoint mgr_run (l : list MgrOp) (m : NodeManager) : option NodeManager := match l with [] => Some m | o :: l => m ← mgr_op o m; mgr_run l m end.

(** *** What becomes of the nodes, seen from outside

    The nodes of two tables that are active in the first only have left; a call of
    Disconnect or Stop asked for it, otherwise they were lost, and the callback to be called
    is that of the last OnDisconnect. *)
Inductive Fate := Asked | Unasked (fn : option Z).
Definition leavers (before after : list NodeEntry) : list Z :=
  omap (fun p => if active p.1 && negb (active p.2) then Some (node_id p.1) else None) (zip before after).
Definition fate_of (fn : option Z) (o : MgrOp) : Fate := match o with MDisconnect _ _ | MStop _ => Asked | _ => Unasked fn end.
Definition registered (fn : option Z) (o : MgrOp) : option Z := match o with MOnDisconnect f => f | _ => fn end.
(** Who left, latest first, and how. *)
Fixpoint history (fn : option Z) (l : list MgrOp) (m : NodeManager) : list (Z * Fate) :=
  match l with
  | [] => []
  | o :: l => match mgr_op o m with Some m' => history (registered fn o) l m' ++ ((fun id => (id, fate_of fn o)) <$> leavers (nodes_ m) (nodes_ m')) | None => [] end
  end.
Definition asked_for : list (Z * Fate) -> list Z := omap (fun p => match p.2 with Asked => Some p.1 | Unasked _ => None end).
Definition not_asked_for : list (Z * Fate) -> list Z := omap (fun p => match p.2 with Asked => None | Unasked _ => Some p.1 end).
Definition to_report : list (Z * Fate) -> list (Z * Z) := omap (fun p => match p.2 with Unasked (Some f) => Some (f, p.1) | _ => None end).

(** *** The accounts *)

Notation actives := (filter (fun e => active e = true)).
Context (HMax : Z.of_nat MaxNodes < 2 ^ 32).
Definition listener_ok (e : NodeEntry) : Prop := is_listener e = true -> socket e = -1.
Record accounts (m : NodeManager) : Prop := {
  ac_listeners : Forall listener_ok (nodes_ m);
  ac_length : length (nodes_ m) = MaxNodes;
  ac_count : node_count_ m = Z.of_nat (length (actives (nodes_ m)));
  ac_fds : open_fds m ≡ₚ entry_fd <$> actives (nodes_ m);
  ac_nodup : NoDup (open_fds m);
  ac_ids : (node_id <$> actives (nodes_ m)) ++ gone m ++ lost m ≡ₚ made m;
  ac_next : Z.of_nat (length (made m)) < 65535 -> next_node_id_ m = 1 + Z.of_nat (length (made m));
  ac_made : Z.of_nat (length (made m)) <= 65535 -> reverse (made m) = seqZ 1 (Z.of_nat (length (made m))) }.

Lemma actives_le l : (length (actives l) <= length l)%nat.
Proof. apply length_filter. Qed.
Lemma active_at l i e : l !! i = Some e -> active e = true -> actives l ≡ₚ e :: actives (delete i l).
Proof. intros Hi Ha. rewrite (filter_delete_perm _ l i e Hi), filter_cons_True by done. done. Qed.
Lemma active_put l i e : (i < length l)%nat -> active e = true -> actives (<[i := e]> l) ≡ₚ e :: actives (delete i l).
Proof. intros Hi Ha. rewrite filter_insert_perm, filter_cons_True by done. done. Qed.
Lemma inactive_at l i e : l !! i = Some e -> active e = false -> actives l ≡ₚ actives (delete i l).
Proof. intros Hi Ha. rewrite (filter_delete_perm _ l i e Hi), filter_cons_False by (by rewrite Ha). done. Qed.
Lemma inactive_put l i e : (i < length l)%nat -> active e = false -> actives (<[i := e]> l) ≡ₚ actives (delete i l).
Proof. intros Hi Ha. rewrite filter_insert_perm, filter_cons_False by (done || by rewrite Ha). done. Qed.
Lemma close_first fd fds k : fds ≡ₚ fd :: k -> NoDup fds -> close_fd fd fds ≡ₚ k /\ NoDup (close_fd fd fds).
Proof.
  intros P N. split; [|by apply NoDup_filter]. unfold close_fd. rewrite P in N. apply NoDup_cons in N as [Hn _]. rewrite P, filter_cons_False by (intros []; done). by rewrite filter_fresh.
Qed.

Lemma put_node_ok slot fd b host port now m : accounts m -> FindSlot (nodes_ m) = Some slot -> fd ∉ open_fds m -> accounts (put_node slot fd b host port now m).2.
Proof.
  intros [] F Hf. unfold FindSlot in F. destruct (list_find _ _) as [[i e]|] eqn:G in F; [|done]. injection F as <-. apply list_find_Some in G as (Hi & Ha & _).
  pose proof (lookup_lt_Some _ _ _ Hi) as Hl. pose proof (inactive_at _ _ _ Hi Ha) as P. unfold put_node. cbn [AllocNodeId].
  set (x := mkNodeEntry _ _ _ _ _ _ _ _). assert (Hx : entry_fd x = fd /\ node_id x = next_node_id_ m /\ active x = true /\ listener_ok x) by (by destruct b). destruct Hx as (Hx1 & Hx2 & Hx3 & Hx4). clearbody x.
  pose proof (active_put (nodes_ m) i x Hl Hx3) as Q. rewrite <- P in Q. split; cbn [nodes_ node_count_ open_fds made gone lost next_node_id_ snd].
  - by apply Forall_insert.
  - by rewrite length_insert.
  - rewrite Q, ac_count0. cbn [length]. pose proof (actives_le (delete i (nodes_ m))) as L. rewrite <- P, length_delete in L by eauto. rewrite wrap_small; [lia|split; lia].
  - rewrite Q, fmap_cons, Hx1. by constructor.
  - by constructor.
  - rewrite Q, fmap_cons, Hx2. cbn. by rewrite ac_ids0.
  - cbn. intros Hm. rewrite ac_next0 by lia. rewrite wrap_small by (split; lia). destruct (Z.eqb_spec (1 + Z.of_nat (length (made m)) + 1) 0); lia.
  - intros Hm. cbn [length] in Hm |- *. rewrite reverse_cons, seqZ_S, ac_made0, ac_next0 by lia. done.
Qed.
Lemma set_loop_ok l m : accounts m -> accounts (set_loop l m).
Proof. intros []. by split. Qed.
(** A node leaves the table. *)
Lemma leave_ok i e e' g ls rs m : accounts m -> nodes_ m !! i = Some e -> active e = true -> active e' = false -> listener_ok e' ->
  (g = node_id e :: gone m /\ ls = lost m \/ g = gone m /\ ls = node_id e :: lost m) ->
  accounts (set_files (close_fd (entry_fd e) (open_fds m)) g ls rs (set_nodes (<[i := e']> (nodes_ m)) (u32 (node_count_ m - 1)) m)).
Proof.
  intros [] Hi Ha Ha' Hl' Hg. pose proof (lookup_lt_Some _ _ _ Hi) as Hl. pose proof (active_at _ _ _ Hi Ha) as P. pose proof (inactive_put (nodes_ m) i e' Hl Ha') as Q.
  rewrite P, fmap_cons in ac_fds0, ac_ids0. destruct (close_first _ _ _ ac_fds0 ac_nodup0) as [C1 C2]. split; cbn [nodes_ node_count_ open_fds made gone lost next_node_id_ set_files set_nodes]; try done.
  - by apply Forall_insert.
  - by rewrite length_insert.
  - rewrite Q, ac_count0, P. cbn [length]. pose proof (actives_le (delete i (nodes_ m))) as L. rewrite length_delete in L by eauto. rewrite wrap_small; [lia|split; lia].
  - by rewrite C1, Q.
  - rewrite Q, <- ac_ids0. destruct Hg as [[-> ->]|[-> ->]]; cbn; solve_Permutation.
Qed.
Lemma find_node_at id l i e : FindNode id l = Some (i, e) -> l !! i = Some e /\ active e = true /\ node_id e = id.
Proof. intros F. apply list_find_Some in F as (Hi & (Ha & Hn) & _). done. Qed.
Lemma touch_ok id fd now m : accounts m -> accounts (touch id fd now m).
Proof.
  intros H. unfold touch. destruct (FindNode id (nodes_ m)) as [[i e]|] eqn:F; [|done]. apply find_node_at in F as (Hi & Ha & Hn). destruct (_ && _); [|done].
  set (x := mkNodeEntry _ _ _ _ _ _ _ _). assert (Q : actives (<[i := x]> (nodes_ m)) ≡ₚ x :: actives (delete i (nodes_ m))) by (apply active_put; [by eapply lookup_lt_Some|done]).
  destruct H. assert (Hx : listener_ok x) by (exact (proj1 (Forall_lookup _ _) ac_listeners0 i e Hi)).
  pose proof (active_at _ _ _ Hi Ha) as P. rewrite P in ac_count0, ac_fds0, ac_ids0. split; cbn [nodes_ node_count_ open_fds made gone lost next_node_id_ set_nodes]; try done; try (by rewrite length_insert); try (by apply Forall_insert); by rewrite Q.
Qed.
Lemma close_all fds o k : o ≡ₚ fds ++ k -> NoDup o -> foldl (fun o fd => close_fd fd o) o fds ≡ₚ k /\ NoDup (foldl (fun o fd => close_fd fd o) o fds).
Proof.
  revert o. induction fds as [|fd fds IH]; intros o P N; [done|]. cbn in P |- *. destruct (close_first fd o _ P N) as [C1 C2]. by apply IH.
Qed.
Lemma closed_listener e : listener_ok e -> listener_ok (closed_entry e).
Proof. unfold listener_ok, closed_entry. cbn. intros H E. rewrite E. auto. Qed.
Notation over now := (fun e => overdue now e = true).
Notation kept now := (fun e => overdue now e = false).
Lemma over_split now l : filter (over now) l ++ filter (kept now) l ≡ₚ l.
Proof.
  induction l as [|e l IH]; [done|]. rewrite !filter_cons. destruct (overdue now e); repeat case_decide; try congruence; cbn; [by rewrite IH|]. by rewrite <- Permutation_middle, IH.
Qed.
Lemma collect_spec now l c : Z.of_nat (length (actives l)) <= c < 2 ^ 32 ->
  let '(l', c', ids, fds) := collect now l c in
  l' = (fun e => if overdue now e then closed_entry e else e) <$> l /\ actives l' = filter (kept now) (actives l) /\ ids = node_id <$> filter (over now) (actives l) /\ fds = entry_fd <$> filter (over now) (actives l) /\ c' = c - Z.of_nat (length ids).
Proof.
  revert c. induction l as [|e l IH]; intros c Hc; cbn [collect]; [split_and!; try done; cbn; lia|]. destruct (overdue now e) eqn:Eo.
  - assert (Ha : active e = true /\ is_listener e = false) by (unfold overdue in Eo; destruct (active e), (is_listener e); done). destruct Ha as [Ha Hli].
    rewrite filter_cons_True in Hc by done. cbn [length] in Hc. rewrite wrap_small by (split; lia). specialize (IH (c - 1) ltac:(lia)). destruct (collect now l (c - 1)) as [[[l' c'] ids] fds]. destruct IH as (E1 & E2 & E3 & E4 & E5).
    rewrite (filter_cons_True (fun e => active e = true) e l) by done. rewrite (filter_cons_False _ (closed_entry e)) by done. rewrite (filter_cons_False (kept now)) by (by rewrite Eo). rewrite (filter_cons_True (over now)) by done.
    rewrite !fmap_cons. split_and!; [by rewrite Eo, E1|done|by rewrite E3|unfold entry_fd at 1; by rewrite Hli, E4|cbn; lia].
  - destruct (active e) eqn:Ha.
    + rewrite filter_cons_True in Hc by done. cbn [length] in Hc. specialize (IH c ltac:(lia)). destruct (collect now l c) as [[[l' c'] ids] fds]. destruct IH as (E1 & E2 & E3 & E4 & E5).
      rewrite !(filter_cons_True (fun e => active e = true)) by done. rewrite (filter_cons_True (kept now)) by done. rewrite !(filter_cons_False (over now)) by (by rewrite Eo). rewrite fmap_cons. split_and!; [by rewrite Eo, E1|by rewrite E2|done..].
    + rewrite filter_cons_False in Hc by (by rewrite Ha). specialize (IH c ltac:(lia)). destruct (collect now l c) as [[[l' c'] ids] fds]. destruct IH as (E1 & E2 & E3 & E4 & E5).
      rewrite !(filter_cons_False (fun e => active e = true) e) by (by rewrite Ha). rewrite fmap_cons, Eo. split_and!; [by rewrite E1|done..].
Qed.
Lemma collect_ok now m : accounts m -> accounts (CollectTimeouts now m).
Proof.
  intros []. pose proof (actives_le (nodes_ m)) as L. unfold CollectTimeouts. pose proof (collect_spec now (nodes_ m) (node_count_ m) ltac:(lia)) as C.
  destruct (collect now (nodes_ m) (node_count_ m)) as [[[l' c'] ids] fds]. destruct C as (E1 & E2 & -> & -> & E5). pose proof (over_split now (actives (nodes_ m))) as S.
  rewrite <- S, fmap_app in ac_fds0, ac_ids0. destruct (close_all _ _ _ ac_fds0 ac_nodup0) as [C1 C2].
  split; cbn [nodes_ node_count_ open_fds made gone lost next_node_id_ set_files set_nodes]; try done.
  - rewrite E1. apply Forall_fmap. eapply Forall_impl; [exact ac_listeners0|]. intros e He. cbn. destruct (overdue now e); [apply closed_listener|]; exact He.
  - by rewrite E1, length_fmap.
  - apply Permutation_length in S. rewrite length_app in S. rewrite E2, E5, ac_count0, length_fmap. lia.
  - by rewrite C1, E2.
  - rewrite E2, <- ac_ids0. solve_Permutation.
Qed.
Lemma mgr_stop_ok s m : accounts m -> accounts (StopManager s m).
Proof.
  intros []. assert (Hn : forall l, actives ((fun e => if active e then closed_entry e else e) <$> l) = []).
  { induction l as [|e l IH]; [done|]. cbn [fmap list_fmap]. destruct (active e) eqn:Ea; rewrite filter_cons_False by (cbn; congruence); exact IH. }
  assert (C : foldl (fun o e => close_fd (entry_fd e) o) (open_fds m) (ForEach m) = foldl (fun o fd => close_fd fd o) (open_fds m) (entry_fd <$> ForEach m)).
  { generalize (open_fds m). induction (ForEach m) as [|e l IH]; intros o; [done|]. cbn. apply IH. }
  assert (P : open_fds m ≡ₚ (entry_fd <$> ForEach m) ++ []) by (rewrite app_nil_r; exact ac_fds0). destruct (close_all _ _ _ P ac_nodup0) as [C1 C2].
  split; cbn [nodes_ node_count_ open_fds made gone lost next_node_id_ StopManager]; try done.
  - apply Forall_fmap. eapply Forall_impl; [exact ac_listeners0|]. intros e He. cbn. destruct (active e); [apply closed_listener|]; exact He.
  - by rewrite length_fmap.
  - by rewrite Hn.
  - rewrite Hn, C, C1. done.
  - by rewrite C.
  - rewrite Hn. cbn. rewrite <- app_assoc. exact ac_ids0.
Qed.
Lemma mgr_op_ok o m m' : accounts m -> mgr_op o m = Some m' -> accounts m'.
Proof.
  intros H E. destruct o as [sys port now|sys ok host port now|ok id|fn|ok fd ev data r now|id fd sent ts|now|s t now|s]; cbn in E.
  - destruct (fresh sys m) eqn:Ef; [|done]. injection E as <-. unfold CreateListener. destruct (FindSlot (nodes_ m)) as [slot|] eqn:F; [|done]. destruct sys as [fd|]; [|done]. cbn in Ef. apply bool_decide_eq_true in Ef as [_ Hf].
    pose proof (put_node_ok slot fd true (fixed63 [48; 46; 48; 46; 48; 46; 48]) port now m H F Hf) as G. by destruct (put_node _ _ _ _ _ _ _).
  - destruct (fresh sys m) eqn:Ef; [|done]. injection E as <-. unfold Connect. destruct (FindSlot (nodes_ m)) as [slot|] eqn:F; [|done]. destruct sys as [fd|]; [|done]. cbn in Ef. apply bool_decide_eq_true in Ef as [_ Hf].
    pose proof (put_node_ok slot fd false (fixed63 host) port now m H F Hf) as G. destruct (put_node _ _ _ _ _ _ _). by apply set_loop_ok.
  - injection E as <-. unfold Disconnect. destruct (FindNode id (nodes_ m)) as [[i e]|] eqn:F; [|done]. apply find_node_at in F as (Hi & Ha & Hn). cbn [snd]. rewrite <- Hn. assert (Hs : listener_ok e) by (exact (proj1 (Forall_lookup _ _) (ac_listeners _ H) i e Hi)). pose proof (closed_listener e Hs).
    destruct (is_listener e); [|apply (set_loop_ok (RemoveFd ok (socket e) (loop_ m)).2) in H]; by (apply (leave_ok i e); auto).
  - injection E as <-. destruct H. by split.
  - destruct (Z.leb_spec 0 fd) as [Hfd|]; [|done]. injection E as <-. unfold HandleFd. destruct (_ =? 0); [done|]. assert (D : accounts (DisconnectByNodeId ok (u16 data) fd m)).
    { unfold DisconnectByNodeId. destruct (FindNode _ (nodes_ m)) as [[i e]|] eqn:F; [|done]. apply find_node_at in F as (Hi & Ha & Hn). destruct (Z.eqb_spec (socket e) fd) as [Es|]; [|by rewrite orb_true_r].
      rewrite Ha. cbn [negb orb]. apply (set_loop_ok (RemoveFd ok fd (loop_ m)).2) in H. rewrite <- Hn. assert (Hs : listener_ok e) by (exact (proj1 (Forall_lookup _ _) (ac_listeners _ H) i e Hi)).
      assert (Hls : is_listener e = false) by (destruct (is_listener e) eqn:El; [rewrite (Hs El) in Es; lia|done]). assert (Ef : entry_fd e = socket e) by (unfold entry_fd; by rewrite Hls).
      rewrite <- Ef. apply (leave_ok i e); try done; by right. }
    destruct r; [by apply touch_ok|exact D|done|exact D].
  - injection E as <-. unfold SendHeartbeatByFd. destruct (fd <? 0); [done|]. destruct (negb sent); [done|]. by apply touch_ok.
  - injection E as <-. by apply collect_ok.
  - injection E as <-. unfold StartManager. destruct H. destruct (running_ m); [by split|]. destruct s as [[]|]; try by split. destruct (Schedule _ _ _) as [[]]; [destruct t|]; by split.
  - injection E as <-. by apply mgr_stop_ok.
Qed.
(** Who leaves in an operation. *)
Lemma leavers_refl l : leavers l l = [].
Proof. unfold leavers. induction l as [|e l IH]; [done|]. cbn. rewrite IH. by destruct (active e). Qed.
Lemma leavers_insert l i e e' : l !! i = Some e -> leavers l (<[i := e']> l) = if active e && negb (active e') then [node_id e] else [].
Proof.
  revert i. induction l as [|x l IH]; intros [|i] Hi; [done..|injection Hi as ->|]; unfold leavers in *; cbn.
  - fold (leavers l l). rewrite leavers_refl. by destruct (active e && _).
  - rewrite IH by done. by destruct (active x).
Qed.
Lemma leavers_map (P : NodeEntry -> bool) l : (forall e, P e = true -> active e = true) ->
  leavers l ((fun e => if P e then closed_entry e else e) <$> l) = node_id <$> filter (fun e => P e = true) l.
Proof.
  intros HP. unfold leavers. induction l as [|e l IH]; [done|]. rewrite filter_cons. cbn. rewrite IH. destruct (P e) eqn:E; (case_decide; [|done]) || (case_decide; [done|]).
  - by rewrite (HP e E).
  - by destruct (active e).
Qed.
Lemma filter_over now (l : list NodeEntry) : filter (over now) (actives l) = filter (over now) l.
Proof.
  rewrite list_filter_filter. apply list_filter_iff. intros e. unfold overdue. destruct (active e); naive_solver.
Qed.
Definition left_as (f : Fate) (lv : list Z) (m m' : NodeManager) : Prop :=
  match f with
  | Asked => gone m' = lv ++ gone m /\ lost m' = lost m /\ reports m' = reports m
  | Unasked fn => gone m' = gone m /\ lost m' = lv ++ lost m /\ reports m' = notify_lost fn lv ++ reports m
  end.
Lemma none_left f m m' : gone m' = gone m -> lost m' = lost m -> reports m' = reports m -> left_as f [] m m'.
Proof. destruct f as [|[]]; done. Qed.
Lemma put_node_leaves f slot fd b host port now m : FindSlot (nodes_ m) = Some slot -> let m' := (put_node slot fd b host port now m).2 in
  disconnect_fn_ m' = disconnect_fn_ m /\ left_as f (leavers (nodes_ m) (nodes_ m')) m m'.
Proof.
  intros F. unfold FindSlot in F. destruct (list_find _ _) as [[i e]|] eqn:G in F; [|done]. injection F as <-. apply list_find_Some in G as (Hi & Ha & _).
  cbn. split; [done|]. rewrite (leavers_insert _ _ _ _ Hi), Ha. by apply none_left.
Qed.
Lemma touch_leaves fn id fd now m : disconnect_fn_ (touch id fd now m) = disconnect_fn_ m /\ left_as (Unasked fn) (leavers (nodes_ m) (nodes_ (touch id fd now m))) m (touch id fd now m).
Proof.
  unfold touch. destruct (FindNode _ _) as [[i e]|] eqn:F; [destruct (_ && _)|]; cbn -[left_as leavers]; (split; [done|]); rewrite ?leavers_refl; try by apply none_left.
  apply find_node_at in F as (Hi & Ha & _). rewrite (leavers_insert _ _ _ _ Hi), Ha. cbn -[left_as]. by apply none_left.
Qed.
Lemma lose_leaves ok id fd m : let m' := DisconnectByNodeId ok id fd m in
  disconnect_fn_ m' = disconnect_fn_ m /\ left_as (Unasked (disconnect_fn_ m)) (leavers (nodes_ m) (nodes_ m')) m m'.
Proof.
  unfold DisconnectByNodeId. destruct (FindNode _ _) as [[i e]|] eqn:F; [destruct (_ || _)|]; cbn -[left_as leavers]; (split; [done|]); rewrite ?leavers_refl; try by apply none_left.
  apply find_node_at in F as (Hi & Ha & <-). rewrite (leavers_insert _ _ _ _ Hi), Ha. cbn -[left_as]. done.
Qed.
Lemma collect_leaves now m : accounts m -> let m' := CollectTimeouts now m in
  disconnect_fn_ m' = disconnect_fn_ m /\ left_as (Unasked (disconnect_fn_ m)) (leavers (nodes_ m) (nodes_ m')) m m'.
Proof.
  intros []. pose proof (actives_le (nodes_ m)) as L. unfold CollectTimeouts. pose proof (collect_spec now (nodes_ m) (node_count_ m) ltac:(lia)) as C.
  destruct (collect now (nodes_ m) (node_count_ m)) as [[[l' c'] ids] fds]. destruct C as (-> & _ & -> & _). cbn. split; [done|].
  rewrite leavers_map, filter_over; [done|]. unfold overdue. intros e. by destruct (active e).
Qed.
Lemma mgr_op_leaves o m m' : accounts m -> mgr_op o m = Some m' ->
  disconnect_fn_ m' = registered (disconnect_fn_ m) o /\ left_as (fate_of (disconnect_fn_ m) o) (leavers (nodes_ m) (nodes_ m')) m m'.
Proof.
  intros H E. assert (Same : forall f m', nodes_ m' = nodes_ m -> gone m' = gone m -> lost m' = lost m -> reports m' = reports m -> left_as f (leavers (nodes_ m) (nodes_ m')) m m').
  { intros f m1 -> ???. rewrite leavers_refl. by apply none_left. }
  destruct o as [sys port now|sys ok host port now|ok id|fn|ok fd ev data r now|id fd sent ts|now|s t now|s]; cbn [fate_of registered]; cbn in E; try (destruct (fresh sys m); [|done]); try (destruct (0 <=? fd); [|done]); injection E as <-.
  - unfold CreateListener. destruct (FindSlot (nodes_ m)) as [slot|] eqn:F; [destruct sys as [fd|]|]; try by split; [|apply Same].
    pose proof (put_node_leaves (Unasked (disconnect_fn_ m)) slot fd true (fixed63 [48; 46; 48; 46; 48; 46; 48]) port now m F) as G. by destruct (put_node _ _ _ _ _ _ _).
  - unfold Connect. destruct (FindSlot (nodes_ m)) as [slot|] eqn:F; [destruct sys as [fd|]|]; try by split; [|apply Same].
    pose proof (put_node_leaves (Unasked (disconnect_fn_ m)) slot fd false (fixed63 host) port now m F) as G. by destruct (put_node _ _ _ _ _ _ _).
  - unfold Disconnect. destruct (FindNode _ _) as [[i e]|] eqn:F; [|by split; [|split_and!; rewrite ?leavers_refl]]. apply find_node_at in F as (Hi & Ha & <-).
    destruct (is_listener e); cbn; (split; [done|]); by rewrite (leavers_insert _ _ _ _ Hi), Ha.
  - split; [done|]. by apply Same.
  - unfold HandleFd. destruct (_ =? 0); [by split; [|apply Same]|]. destruct r; [apply touch_leaves|apply lose_leaves|by split; [|apply Same]|apply lose_leaves].
  - unfold SendHeartbeatByFd. destruct (fd <? 0); [by split; [|apply Same]|]. destruct (negb sent); [by split; [|apply Same]|apply touch_leaves].
  - by apply collect_leaves.
  - unfold StartManager. destruct (running_ m); [|destruct s as [[]|]; [..|destruct (Schedule _ _ _) as [[] ?]; [destruct t|]]]; by split; [|apply Same].
  - split; [done|]. rewrite (leavers_map active) by done. done.
Qed.
Lemma to_report_unasked fn lv : to_report ((fun id => (id, Unasked fn)) <$> lv) = notify_lost fn lv.
Proof. unfold to_report. destruct fn as [f|]; induction lv as [|id lv IH]; cbn; try done; by rewrite IH. Qed.
Lemma run_leaves l m m' : accounts m -> mgr_run l m = Some m' ->
  let h := history (disconnect_fn_ m) l m in gone m' = asked_for h ++ gone m /\ lost m' = not_asked_for h ++ lost m /\ reports m' = to_report h ++ reports m.
Proof.
  revert m. induction l as [|o l IH]; intros m H E; [by injection E as <-|]. cbn in E |- *. destruct (mgr_op o m) as [m1|] eqn:E1; [|done]. cbn in E.
  destruct (mgr_op_leaves _ _ _ H E1) as [Ef El]. specialize (IH m1 (mgr_op_ok _ _ _ H E1) E). rewrite Ef in IH. destruct IH as (-> & -> & ->).
  set (lv := leavers _ _) in *. assert (A : asked_for ((fun id => (id, Asked)) <$> lv) = lv /\ not_asked_for ((fun id => (id, Asked)) <$> lv) = [] /\ to_report ((fun id => (id, Asked)) <$> lv) = []).
  { clear. unfold asked_for, not_asked_for, to_report. induction lv as [|id lv (I1 & I2 & I3)]; cbn; [done|]. by rewrite I1, I2, I3. }
  assert (U : forall fn, asked_for ((fun id => (id, Unasked fn)) <$> lv) = [] /\ not_asked_for ((fun id => (id, Unasked fn)) <$> lv) = lv).
  { clear. intros fn. unfold asked_for, not_asked_for. induction lv as [|id lv [I1 I2]]; cbn; [done|]. by rewrite I1, I2. }
  pose proof (to_report_unasked) as T. unfold asked_for, not_asked_for, to_report in *. rewrite !omap_app, <- !(assoc_L (++)).
  destruct (fate_of _ o) as [|fn]; destruct El as (-> & -> & ->); [destruct A as (-> & -> & ->)|destruct (U fn) as [-> ->]; rewrite T]; done.
Qed.
Lemma mgr_run_ok l m m' : accounts m -> mgr_run l m = Some m' -> accounts m'.
Proof.
  revert m. induction l as [|o l IH]; intros m H E; [by injection E as <-|]. cbn in E. destruct (mgr_op o m) as [m1|] eqn:E1; [|done]. eapply IH; [|exact E]. by eapply mgr_op_ok.
Qed.
Lemma ctor_ok : accounts NodeManager_ctor.
Proof.
  assert (G : actives (replicate MaxNodes empty_entry) = []) by (clear; induction MaxNodes as [|n IH]; [done|exact IH]). split; cbn [nodes_ node_count_ open_fds made gone lost next_node_id_ NodeManager_ctor]; rewrite ?G; try done.
  - by apply Forall_replicate.
  - apply length_replicate.
  - constructor.
Qed.
End Manager.

(** C31. Whatever the order of calls, events, heartbeats and timeouts: every id given out is,
    as many times as it was given out, that of an active node, of one that left the table in
    a call of Disconnect or Stop, or of one that left otherwise and was lost; the disconnect
    callback is called for each of the lost ones, once, namely the callback that was
    registered last when the node was lost, if there was one, and for no other.  The count
    is that of the active nodes, and the open descriptors are those they own.  The ids are
    distinct up to 65535 connections; after that they are given out again, even those of
    active nodes ([ids_repeat]). *)
Theorem nodes_accounted MaxNodes kMaxEvents kPipe wake_fd interval timeouts ops m :
  Z.of_nat MaxNodes < 2 ^ 32 -> mgr_run kMaxEvents kPipe interval timeouts ops (NodeManager_ctor MaxNodes kMaxEvents wake_fd) = Some m ->
  let h := history kMaxEvents kPipe interval timeouts None ops (NodeManager_ctor MaxNodes kMaxEvents wake_fd) in
  (node_id <$> ForEach m) ++ asked_for h ++ not_asked_for h ≡ₚ made m /\ gone m = asked_for h /\ lost m = not_asked_for h /\ reports m = to_report h /\
  NodeCount m = Z.of_nat (length (ForEach m)) /\ open_fds m ≡ₚ entry_fd <$> ForEach m /\ NoDup (open_fds m) /\ (Z.of_nat (length (made m)) <= 65535 -> NoDup (made m)).
Proof.
  intros HM R h. pose proof (mgr_run_ok MaxNodes kMaxEvents kPipe interval timeouts HM _ _ _ (ctor_ok _ _ _) R) as [].
  destruct (run_leaves MaxNodes kMaxEvents kPipe interval timeouts HM _ _ _ (ctor_ok _ _ _) R) as (E1 & E2 & E3). cbn [gone lost reports disconnect_fn_ NodeManager_ctor] in E1, E2, E3.
  fold h in E1, E2, E3. rewrite app_nil_r in E1, E2, E3. rewrite <- E1, <- E2. split_and!; try done.
  intros Hm. specialize (ac_made0 Hm). rewrite <- (reverse_Permutation (made m)), ac_made0. apply NoDup_seqZ.
Qed.
(** Two nodes, one of which closes its connection; the other is disconnected. *)
Definition demo_ops : list MgrOp :=
  [MOnDisconnect (Some 70); MListen (Some 5) 7000 10; MConnect (Some 6) true [49] 7001 20; MConnect (Some 8) true [50] 7002 30; MSend 2 6 true 40; MFd true 6 1 2 rFin 50;
   MConnect (Some 6) true [51] 7003 60; MFd true 6 1 2 rFin 70; MOnDisconnect (Some 71); MDisconnect true 1; MCollect 5000000].
Lemma nodes_accounted_witness :
  exists m, mgr_run 64 65536 1000 3 demo_ops (NodeManager_ctor 2 64 4) = Some m /\ reports m = [(71, 3); (70, 2)] /\
  let h := history 64 65536 1000 3 None demo_ops (NodeManager_ctor 2 64 4) in
  (node_id <$> ForEach m) ++ asked_for h ++ not_asked_for h ≡ₚ made m /\ gone m = asked_for h /\ lost m = not_asked_for h /\ reports m = to_report h /\
  NodeCount m = Z.of_nat (length (ForEach m)) /\ open_fds m ≡ₚ entry_fd <$> ForEach m /\ NoDup (open_fds m) /\ (Z.of_nat (length (made m)) <= 65535 -> NoDup (made m)).
Proof. eexists. split; [vm_compute; reflexivity|]. split; [reflexivity|]. apply (nodes_accounted 2 64 65536 4 1000 3 demo_ops); [done|vm_compute; reflexivity]. Defined.

(** The heartbeats do not wait for an answer: while they can be sent, a node that says
    nothing is not overdue. *)
Lemma sends_keep_alive interval timeouts id fd ts now m i e : FindNode id (nodes_ m) = Some (i, e) -> socket e = fd -> 0 <= fd -> (i < length (nodes_ m))%nat ->
  0 <= ts <= now -> now < 2 ^ 64 -> now - ts <= timeout_us interval timeouts ->
  exists e', nodes_ (SendHeartbeatByFd id fd true ts m) !! i = Some e' /\ node_id e' = id /\ overdue interval timeouts now e' = false.
Proof.
  intros F Es Hfd Hi Hts Hnow Hto. unfold SendHeartbeatByFd. destruct (Z.ltb_spec fd 0); [lia|]. cbn [negb]. unfold touch. rewrite F. pose proof F as G. apply find_node_at in G as (_ & Ha & Hn).
  rewrite Ha, Es, Z.eqb_refl. cbn [andb set_nodes nodes_]. eexists. split; [by apply list_lookup_insert_eq|]. split; [done|]. unfold overdue. cbn.
  rewrite wrap_small by (split; lia). destruct (Z.ltb_spec (timeout_us interval timeouts) (now - ts)); [lia|]. by rewrite andb_false_r.
Qed.
(** A node that times out stays in the loop's table: once that is full, new connections are
    not watched any more, although Connect succeeds. *)
Example timeouts_fill_the_loop :
  (fun m => (node_id <$> ForEach m, omap id (fds_ (loop_ m)))) <$>
  mgr_run 64 65536 1000 3 [MConnect (Some 6) true [49] 1 0; MCollect 9000000; MConnect (Some 7) true [49] 1 0; MCollect 9000000; MConnect (Some 8) true [49] 1 0] (NodeManager_ctor 1 64 4)
  = Some ([3], [6; 7]).
Proof. vm_compute. reflexivity. Qed.
(** After 65535 connections the ids start again, whether or not the first node is still there. *)
Definition reconnect (n : N) (m : NodeManager) : NodeManager :=
  N.iter n (fun m => (Disconnect true (next_node_id_ m) (Connect 64 (Some 7) true [49] 1 0 m).2).2) m.
Example ids_repeat :
  node_id <$> ForEach (Connect 64 (Some 8) true [49] 1 0 (reconnect 65534 (Connect 64 (Some 6) true [49] 1 0 (NodeManager_ctor 2 64 4)).2)).2 = [1; 1].
Proof. vm_compute. reflexivity. Qed.
