(* ===== verification/Executor.v ===== *)
(** * Executors (include/osp/executor.hpp)

    The sleep strategies as an interface with its two implementations; the table of
    nodes; the loop that drives the modelled bus, with the heartbeat loop of
    platform.hpp; and the lifecycle of the dispatcher thread, every atomic access and
    thread operation of any number of callers one step.  The four executors share all
    of it: SingleThreadExecutor runs the loop in Spin, StaticExecutor and
    PinnedExecutor on an osp::Thread, RealtimeExecutor on an osp::Thread or, when a
    stack size is given, on a pthread of its own ([pthread]). *)

From Stdlib Require Import ZArith Lia Bool.
From stdpp Require Import base numbers list option relations.
From S2P Require Import Prelude Vocabulary Bus.

Open Scope Z_scope.

(** ** Sleep strategies

    What the loop does when idle at time [now]: sleep until a time, or yield. *)

Class SleepStrategy (S : Type) := { OnIdle : Z -> S -> option Z * S; OnBusy : S -> S }.

#[export] Instance YieldSleepStrategy : SleepStrategy unit := {| OnIdle _ s := (None, s); OnBusy s := s |}.

Record PreciseSleepStrategy := mkPrecise { default_sleep_ns_ : Z; min_sleep_ns_ : Z; max_sleep_ns_ : Z; next_wakeup_ns_ : Z }.
Definition PreciseSleepStrategy_ctor (default_sleep_ns min_sleep_ns max_sleep_ns : Z) : PreciseSleepStrategy :=
  mkPrecise default_sleep_ns min_sleep_ns max_sleep_ns 0.
Definition SetNextWakeup (abs_ns : Z) (s : PreciseSleepStrategy) : PreciseSleepStrategy :=
  mkPrecise (default_sleep_ns_ s) (min_sleep_ns_ s) (max_sleep_ns_ s) abs_ns.
Definition clamp_sleep (s : PreciseSleepStrategy) (sleep_ns : Z) : Z :=
  if sleep_ns <? min_sleep_ns_ s then min_sleep_ns_ s else if max_sleep_ns_ s <? sleep_ns then max_sleep_ns_ s else sleep_ns.
(** The absolute time handed to clock_nanosleep. *)
Definition PreciseOnIdle (now_ns : Z) (s : PreciseSleepStrategy) : option Z * PreciseSleepStrategy :=
  let '(sleep_ns, s) := if now_ns <? next_wakeup_ns_ s then (next_wakeup_ns_ s - now_ns, SetNextWakeup 0 s) else (default_sleep_ns_ s, s) in
  (Some (u64 (now_ns + clamp_sleep s sleep_ns)), s).
Definition PreciseOnBusy (s : PreciseSleepStrategy) : PreciseSleepStrategy := SetNextWakeup 0 s.
#[export] Instance PreciseSleep : SleepStrategy PreciseSleepStrategy := {| OnIdle := PreciseOnIdle; OnBusy := PreciseOnBusy |}.

(** ** The table of nodes: pointers, 0 is nullptr *)
Section NodeTable.
Context (OSP_EXECUTOR_MAX_NODES : Z).
Record NodeTable := mkTable { nodes_ : list Z; node_count_ : Z }.
Definition NodeTable_ctor : NodeTable := mkTable (replicate (Z.to_nat OSP_EXECUTOR_MAX_NODES) 0) 0.

Fixpoint find_node (node : Z) (l : list Z) (i : Z) (n : nat) : option Z :=
  match n with O => None | S n => if aget l i =? node then Some i else find_node node l (i + 1) n end.
Definition AddNode (node : Z) (t : NodeTable) : bool * NodeTable :=
  if OSP_EXECUTOR_MAX_NODES <=? node_count_ t then (false, t)
  else match find_node node (nodes_ t) 0 (Z.to_nat (node_count_ t)) with
  | Some _ => (false, t)
  | None => (true, mkTable (aset (nodes_ t) (node_count_ t) node) (u32 (node_count_ t + 1)))
  end.
Definition RemoveNode (node : Z) (t : NodeTable) : bool * NodeTable :=
  match find_node node (nodes_ t) 0 (Z.to_nat (node_count_ t)) with
  | Some i =>
    let l := for_loop (fun j l => aset l j (aget l (j + 1))) i (Z.to_nat (node_count_ t - 1 - i)) (nodes_ t) in
    (true, mkTable (aset l (node_count_ t - 1) 0) (node_count_ t - 1))
  | None => (false, t)
  end.

(** The table holds exactly the nodes [l], each once, in the order they were added. *)
Definition holds (t : NodeTable) (l : list Z) : Prop :=
  nodes_ t = l ++ replicate (Z.to_nat OSP_EXECUTOR_MAX_NODES - length l) 0 /\ node_count_ t = Z.of_nat (length l) /\
  Z.of_nat (length l) <= OSP_EXECUTOR_MAX_NODES /\ NoDup l.
End NodeTable.

(** ** The loop

    The script gives, for every round, whether running_ has been cleared before the
    loop reads it, and the time.  The result tells whether the loop has ended. *)
Fixpoint BeatLoop {S : Type} (hb : bool) (body : Z -> S -> S) (script : list (bool * Z)) (s : S) (beats : list Z) : bool * S * list Z :=
  match script with
  | [] => (false, s, beats)
  | (stopped, now) :: script =>
    if stopped then (true, s, beats)
    else BeatLoop hb body script (body now s) (if hb then beats ++ [now] else beats)
  end.

Section Loop.
Context {Payload World S : Type} `{Inhabited Payload} `{SleepStrategy S}.
Context (variant_index : Payload -> Z) (k kBatchSize kMaxTypes : Z).
Local Notation Bus := (@AsyncBus Payload World).

(** The bus, the world of its callbacks, the sleep strategy, and the sleeps taken. *)
Record Driven := mkDriven { bus : Bus; world : World; sleep_ : S; slept : list (option Z) }.

Definition SpinOnce (b : Bus) (w : World) : Z * Bus * World := ProcessBatch variant_index k kBatchSize kMaxTypes b w.
Definition dispatch_body (now : Z) (x : Driven) : Driven :=
  let '(processed, b, w) := SpinOnce (bus x) (world x) in
  if processed =? 0 then let '(r, sl) := OnIdle now (sleep_ x) in mkDriven b w sl (slept x ++ [r])
  else mkDriven b w (OnBusy (sleep_ x)) (slept x).
Definition DispatchLoop (hb : bool) (script : list (bool * Z)) (x : Driven) : bool * Driven * list Z :=
  BeatLoop hb dispatch_body script x [].
End Loop.

Section Spin.
Context {Payload World : Type} `{Inhabited Payload}.
Context (variant_index : Payload -> Z) (k kBatchSize kMaxTypes : Z).
Record SingleThreadExecutor := mkSingle { table : NodeTable; single_running_ : bool; driven : @Driven Payload World unit }.
Definition single_set_running (v : bool) (x : SingleThreadExecutor) : SingleThreadExecutor := mkSingle (table x) v (driven x).
Definition SingleStop (x : SingleThreadExecutor) : SingleThreadExecutor := single_set_running false x.
(** Whether Spin has returned, and the executor. *)
Definition Spin (script : list (bool * Z)) (x : SingleThreadExecutor) : bool * SingleThreadExecutor :=
  let x := single_set_running true x in
  let '(returned, d, _) := DispatchLoop variant_index k kBatchSize kMaxTypes false script (driven x) in
  (returned, mkSingle (table x) (negb returned) d).
End Spin.

(** ** The dispatcher thread *)

(** Where a dispatcher is: about to read running_, in the body of the loop, ended. *)
Inductive Where := wTest | wBody | wDone.
#[export] Instance Where_eq_dec : EqDecision Where. Proof. solve_decision. Defined.
(** Where a caller is, in Start ([cCreate], [cFail], [cUse]) or in Stop. *)
Inductive Call := cIdle | cCreate | cFail | cUse | cUsed | cJoinable | cJoin (t : nat) | cRtTest | cRtJoin (t : nat) | cRtClear | cUnuse.
Record Executor := mkExec {
  running_ : bool; dispatch_thread_ : option nat; rt_thread_ : option nat; use_pthread_ : bool; threads : list Where; callers : list Call }.
Inductive Act := aStart (i : nat) | aStop (i : nat) | aGo (i : nat) (created : bool) | aRun (t : nat).

Definition Executor_ctor (n : nat) : Executor := mkExec false None None false [] (replicate n cIdle).
Definition set_running (v : bool) (x : Executor) : Executor := mkExec v (dispatch_thread_ x) (rt_thread_ x) (use_pthread_ x) (threads x) (callers x).
Definition set_thread (t : option nat) (x : Executor) : Executor := mkExec (running_ x) t (rt_thread_ x) (use_pthread_ x) (threads x) (callers x).
Definition set_rt (t : option nat) (x : Executor) : Executor := mkExec (running_ x) (dispatch_thread_ x) t (use_pthread_ x) (threads x) (callers x).
Definition set_use (v : bool) (x : Executor) : Executor := mkExec (running_ x) (dispatch_thread_ x) (rt_thread_ x) v (threads x) (callers x).
Definition set_threads (l : list Where) (x : Executor) : Executor := mkExec (running_ x) (dispatch_thread_ x) (rt_thread_ x) (use_pthread_ x) l (callers x).
Definition at_ (i : nat) (c : Call) (x : Executor) : Executor := mkExec (running_ x) (dispatch_thread_ x) (rt_thread_ x) (use_pthread_ x) (threads x) (<[i := c]> (callers x)).
Definition spawn (x : Executor) : Executor := set_threads (threads x ++ [wTest]) x.

Definition ended (t : nat) (x : Executor) : bool := match threads x !! t with Some wDone => true | _ => false end.

Section Lifecycle.
(** RealtimeExecutor with a stack size. *)
Context (pthread : bool).

(** The next statement of a call; [created]: the system could make the thread.
    [None]: blocked in a join. *)
Definition go (created : bool) (i : nat) (c : Call) (x : Executor) : option Executor :=
  match c with
  | cIdle => None
  (* Start, past the compare_exchange *)
  | cCreate =>
    if pthread
    then if created then Some (at_ i cUse (set_rt (Some (length (threads x))) (spawn x))) else Some (at_ i cFail x)
    else match dispatch_thread_ x with
    | Some _ => Some (at_ i cFail x)
    | None => if created then Some (at_ i cIdle (set_thread (Some (length (threads x))) (spawn x))) else Some (at_ i cFail x)
    end
  | cFail => Some (at_ i cIdle (set_running false x))
  | cUse => Some (at_ i cIdle (set_use true x))
  (* Stop, past the store of running_ *)
  | cUsed => Some (at_ i (if use_pthread_ x then cRtTest else cJoinable) x)
  | cJoinable => Some (at_ i (match dispatch_thread_ x with Some t => cJoin t | None => cIdle end) x)
  | cJoin t => if ended t x then Some (at_ i cIdle (set_thread None x)) else None
  | cRtTest => Some (at_ i (match rt_thread_ x with Some t => cRtJoin t | None => cUnuse end) x)
  | cRtJoin t => if ended t x then Some (at_ i cRtClear x) else None
  | cRtClear => Some (at_ i cUnuse (set_rt None x))
  | cUnuse => Some (at_ i cIdle (set_use false x))
  end.

Definition Start (i : nat) (x : Executor) : Executor := if running_ x then x else at_ i cCreate (set_running true x).
Definition Stop (i : nat) (x : Executor) : Executor := at_ i cUsed (set_running false x).
Definition DispatchStep (running : bool) (w : Where) : option Where :=
  match w with wTest => Some (if running then wBody else wDone) | wBody => Some wTest | wDone => None end.
Definition exec_step (a : Act) (x : Executor) : option Executor :=
  match a with
  | aStart i => match callers x !! i with Some cIdle => Some (Start i x) | _ => None end
  | aStop i => match callers x !! i with Some cIdle => Some (Stop i x) | _ => None end
  | aGo i created => match callers x !! i with Some c => go created i c x | None => None end
  | aRun t => match threads x !! t with Some w => (fun w => set_threads (<[t := w]> (threads x)) x) <$> DispatchStep (running_ x) w | None => None end
  end.
Definition stopping (c : Call) : bool := match c with cIdle | cCreate | cFail | cUse => false | _ => true end.
(** Stop may not be called while another Stop is under way: osp::Thread is joined once. *)
Definition stop_alone (a : Act) (x : Executor) : Prop := match a with aStop _ => count_if stopping (callers x) = 0%nat | _ => True end.
#[export] Instance stop_alone_dec a x : Decision (stop_alone a x).
Proof. destruct a; unfold stop_alone; apply _. Defined.
Fixpoint exec_run (l : list Act) (x : Executor) : option Executor :=
  match l with
  | [] => Some x
  | a :: l => if decide (stop_alone a x) then match exec_step a x with Some x => exec_run l x | None => None end else None
  end.
Definition estep (x y : Executor) : Prop := exists a, stop_alone a x /\ exec_step a x = Some y.
End Lifecycle.

Definition in_body (w : Where) : bool := match w with wBody => true | _ => false end.
(** How many threads are inside ProcessBatch, which admits one consumer. *)
Definition consumers (x : Executor) : nat := count_if in_body (threads x).

(** ** Sleeping *)

(** A wakeup in the future is honoured up to the limits; without one the default is. *)
Lemma precise_on_idle_spec now s : 0 <= now < 2 ^ 62 -> 0 <= min_sleep_ns_ s <= max_sleep_ns_ s -> max_sleep_ns_ s < 2 ^ 62 ->
  (PreciseOnIdle now s).1 = Some (if decide (now < next_wakeup_ns_ s)
    then (now + min_sleep_ns_ s) `max` (next_wakeup_ns_ s) `min` (now + max_sleep_ns_ s)
    else now + (min_sleep_ns_ s `max` default_sleep_ns_ s `min` max_sleep_ns_ s)).
Proof.
  intros Hn Hm Hx. unfold PreciseOnIdle, clamp_sleep. destruct (decide _), (Z.ltb_spec now (next_wakeup_ns_ s)); try lia; cbn;
    repeat case_bool; bool_prop; rewrite wrap_small by (unfold in_range; lia); f_equal; lia.
Qed.

(** A wakeup beyond the longest sleep is forgotten after one sleep, not waited for. *)
Lemma far_wakeup_forgotten :
  let s := SetNextWakeup 50000000 (PreciseSleepStrategy_ctor 1000000 100000 10000000) in
  (PreciseOnIdle 0 s).1 = Some 10000000 /\ (PreciseOnIdle 10000000 (PreciseOnIdle 0 s).2).1 = Some 11000000.
Proof. done. Qed.

(** ** The table *)
Section TableProofs.
Context (OSP_EXECUTOR_MAX_NODES : Z).
Hypothesis Hmax : 0 <= OSP_EXECUTOR_MAX_NODES < 2 ^ 32.
Local Notation holds := (holds OSP_EXECUTOR_MAX_NODES).

Lemma find_node_app node l l' d : find_node node (d ++ l ++ l') (Z.of_nat (length d)) (length l) = (fun i => Z.of_nat (length d + i)) <$> (fst <$> list_find (eq node) l).
Proof.
  revert d. induction l as [|x l IH]; intros d; [done|]. cbn [length find_node list_find app]. rewrite aget_app_mid by done.
  destruct (decide (node = x)) as [->|Hne]; [by rewrite Z.eqb_refl; cbn; rewrite Nat.add_0_r|]. destruct (Z.eqb_spec x node); [congruence|].
  specialize (IH (d ++ [x])). rewrite length_app, <- app_assoc in IH. cbn [length app] in IH.
  replace (Z.of_nat (length d) + 1) with (Z.of_nat (length d + 1)) by lia. rewrite IH.
  destruct (list_find (eq node) l) as [ [i y]|]; cbn; [|done]. do 2 f_equal. lia.
Qed.
Lemma find_node_holds node t l : holds t l -> find_node node (nodes_ t) 0 (Z.to_nat (node_count_ t)) = (fun i => Z.of_nat i) <$> (fst <$> list_find (eq node) l).
Proof. intros (-> & -> & _ & _). rewrite Nat2Z.id. apply (find_node_app node l _ []). Qed.

Lemma NodeTable_ctor_holds : holds (NodeTable_ctor OSP_EXECUTOR_MAX_NODES) [].
Proof. split; [by rewrite Nat.sub_0_r|]. split; [done|]. split; [cbn; lia|constructor]. Qed.

(** A node is added unless it is there already or the table is full. *)
Lemma executor_add_spec node t l : holds t l ->
  (AddNode OSP_EXECUTOR_MAX_NODES node t).1 = bool_decide (node ∉ l /\ Z.of_nat (length l) < OSP_EXECUTOR_MAX_NODES) /\
  holds (AddNode OSP_EXECUTOR_MAX_NODES node t).2 (if (AddNode OSP_EXECUTOR_MAX_NODES node t).1 then l ++ [node] else l).
Proof.
  intros Ht. unfold AddNode. rewrite (find_node_holds node t l Ht). destruct Ht as (Hl & Hc & Hn & Hd). rewrite Hc.
  destruct (Z.leb_spec OSP_EXECUTOR_MAX_NODES (Z.of_nat (length l))); [split; [by rewrite bool_decide_false by lia|by split] |].
  destruct (list_find (eq node) l) as [ [i y]|] eqn:E; cbn.
  - apply list_find_Some in E as (Ei & <- & _). split; [|by split]. rewrite bool_decide_false; [done|]. intros [ [] _]. by eapply list_elem_of_lookup_2.
  - apply list_find_None in E. rewrite Forall_forall in E. assert (node ∉ l) by (intros Hi; by apply (E node)).
    split; [by rewrite bool_decide_true|]. split; cbn; [|rewrite length_app; cbn; split; [rewrite wrap_small by (unfold in_range; lia); lia|split; [lia|] ] ].
    + rewrite Hl, length_app. unfold aset. rewrite Nat2Z.id, insert_app_r_alt, Nat.sub_diag by lia.
      replace (Z.to_nat OSP_EXECUTOR_MAX_NODES - length l)%nat with (S (Z.to_nat OSP_EXECUTOR_MAX_NODES - (length l + 1))) by lia. cbn. by rewrite <- app_assoc.
    + apply NoDup_app. split; [done|]. split; [set_solver|apply NoDup_singleton].
Qed.

Lemma shift_loop (d : list Z) x m l' : exists z, for_loop (fun j l => aset l j (aget l (j + 1))) (Z.of_nat (length d)) (length m) (d ++ x :: m ++ l') = d ++ m ++ z :: l'.
Proof.
  revert d x. induction m as [|y m IH]; intros d x; [by exists x|]. cbn [length for_loop app].
  replace (d ++ x :: y :: m ++ l') with ((d ++ [x]) ++ y :: m ++ l') by (by rewrite <- app_assoc).
  rewrite aget_app_mid by (rewrite length_app; cbn; lia). destruct (IH (d ++ [y]) y) as [z Hz]. exists z.
  rewrite length_app, <- !app_assoc in Hz. cbn in Hz. replace (Z.of_nat (length d + 1)) with (Z.of_nat (length d) + 1) in Hz by lia.
  unfold aset at 2. rewrite Nat2Z.id, <- app_assoc, insert_app_r_alt, Nat.sub_diag by lia. exact Hz.
Qed.

Lemma without_absent (node : Z) (l : list Z) : node ∉ l -> filter (fun n => n <> node) l = l.
Proof. induction l as [|x l IH]; [done|]. intros Hn. rewrite filter_cons_True by set_solver. f_equal. apply IH. set_solver. Qed.

(** Removing keeps the order of the others. *)
Lemma executor_remove_spec node t l : holds t l ->
  (RemoveNode node t).1 = bool_decide (node ∈ l) /\ holds (RemoveNode node t).2 (filter (fun n => n <> node) l).
Proof.
  intros Ht. unfold RemoveNode. rewrite (find_node_holds node t l Ht). destruct Ht as (Hl & Hc & Hn & Hd).
  destruct (list_find (eq node) l) as [ [i y]|] eqn:E; cbn.
  - apply list_find_Some in E as (Ei & <- & _). assert (node ∈ l) by (by eapply list_elem_of_lookup_2). split; [by rewrite bool_decide_true|].
    apply list_elem_of_split_length in Ei as (l1 & l2 & -> & ->). apply NoDup_app in Hd as (Hd1 & Hd12 & Hd2). apply NoDup_cons in Hd2 as [Hni Hd2].
    assert (Hf : filter (fun n => n <> node) (l1 ++ node :: l2) = l1 ++ l2).
    { rewrite filter_app, filter_cons_False by naive_solver. f_equal; apply without_absent; [set_solver|done]. }
    rewrite Hf, Hc, Hl. rewrite length_app in Hn |- *. cbn [length] in *. replace (Z.to_nat _) with (length l2) by lia. rewrite <- app_assoc. cbn [app].
    destruct (shift_loop l1 node l2 (replicate (Z.to_nat OSP_EXECUTOR_MAX_NODES - (length l1 + S (length l2))) 0)) as [z ->].
    split; cbn; [|rewrite length_app; split; [lia|split; [lia|] ] ].
    + unfold aset. rewrite (app_assoc l1). replace (Z.to_nat _) with (length (l1 ++ l2) + 0)%nat by (rewrite length_app; lia).
      rewrite insert_app_r. cbn. f_equal. rewrite length_app.
      by replace (Z.to_nat OSP_EXECUTOR_MAX_NODES - (length l1 + length l2))%nat with (S (Z.to_nat OSP_EXECUTOR_MAX_NODES - (length l1 + S (length l2)))) by lia.
    + apply NoDup_app. set_solver.
  - apply list_find_None in E. rewrite Forall_forall in E. assert (node ∉ l) by (intros Hi; by apply (E node)).
    split; [by rewrite bool_decide_false|]. assert (Hf : filter (fun n => n <> node) l = l); [|rewrite Hf; by split].
    by apply without_absent.
Qed.
End TableProofs.

(** ** Driving the bus *)
Section LoopProofs.
Context {Payload World S : Type} `{Inhabited Payload} `{SleepStrategy S}.
Context (variant_index : Payload -> Z) (k kBatchSize kMaxTypes kMaxCallbacks : Z).
Hypothesis Hk : 0 <= k <= 25.
Hypothesis Hbatch : 0 < kBatchSize.
Local Notation Driven := (@Driven Payload World S).
Local Notation body := (dispatch_body variant_index k kBatchSize kMaxTypes).
Local Notation dispatched := (fun s l w => foldl (fun w e => spec_dispatch variant_index kMaxTypes s e w) w l).

(** The bus of [x] holds the messages of [s]. *)
Definition drives (x : Driven) (s : @SpecBus Payload World) : Prop := bus_rel k kMaxTypes kMaxCallbacks (bus x) s.

(** One round delivers the oldest messages, at most a batch; it sleeps only on an empty bus. *)
Lemma dispatch_body_spec now x s : drives x s ->
  exists s', drives (body now x) s' /\ places s' = places s /\ pending s' = drop (Z.to_nat kBatchSize) (pending s) /\
    world (body now x) = dispatched s (take (Z.to_nat kBatchSize) (pending s)) (world x) /\
    slept (body now x) = slept x ++ (if decide (pending s = []) then [(OnIdle now (sleep_ x)).1] else []).
Proof.
  intros Hr. unfold drives in *. pose proof (process_rel k kBatchSize kMaxTypes kMaxCallbacks Hk (DispatchMessage variant_index kMaxTypes (bus x))
    (spec_dispatch variant_index kMaxTypes s) (bus x) s (world x) Hr ltac:(intros; by eapply dispatch_rel)) as (E1 & E2 & E3).
  unfold dispatch_body, SpinOnce, ProcessBatch. destruct (process _ _ _ _ _) as [ [n b] w]. unfold spec_process in *. cbn [fst snd] in *. subst n w.
  assert (Ht : forall l : list (@MessageEnvelope Payload), take (Z.to_nat kBatchSize `min` length l) l = take (Z.to_nat kBatchSize) l).
  { intros l. destruct (Nat.min_spec (Z.to_nat kBatchSize) (length l)) as [ [? ->]|[? ->] ]; [done|]. by rewrite !take_ge by lia. }
  assert (Hd : forall l : list (@MessageEnvelope Payload), drop (Z.to_nat kBatchSize `min` length l) l = drop (Z.to_nat kBatchSize) l).
  { intros l. destruct (Nat.min_spec (Z.to_nat kBatchSize) (length l)) as [ [? ->]|[? ->] ]; [done|]. by rewrite !drop_ge by lia. }
  rewrite Ht. rewrite Hd in E2. destruct (decide (pending s = [])) as [Ee|Ne].
  - rewrite Ee in *. cbn [length] in *. rewrite Nat.min_0_r in *. change (Z.of_nat 0 =? 0) with true. cbn match. destruct (OnIdle _ _) as [r sl].
    eexists. split; [exact E2|]. cbn. by rewrite drop_nil, take_nil.
  - assert (length (pending s) <> 0%nat) by (by destruct (pending s)). destruct (Z.eqb_spec (Z.of_nat (Z.to_nat kBatchSize `min` length (pending s))) 0); [lia|].
    eexists. split; [exact E2|]. cbn. by rewrite app_nil_r.
Qed.

(** A loop left running delivers, in order, every message that was waiting, and then only sleeps. *)
Lemma dispatch_loop_drains hb script x s : drives x s -> Forall (fun r => r.1 = false) script ->
  Z.of_nat (length (pending s)) <= Z.of_nat (length script) * kBatchSize ->
  exists s', drives (DispatchLoop variant_index k kBatchSize kMaxTypes hb script x).1.2 s' /\ pending s' = [] /\
    world (DispatchLoop variant_index k kBatchSize kMaxTypes hb script x).1.2 = dispatched s (pending s) (world x) /\
    (DispatchLoop variant_index k kBatchSize kMaxTypes hb script x).2 = if hb then snd <$> script else [].
Proof.
  unfold DispatchLoop. intros Hr Hs Hlen.
  enough (E : forall beats, exists s', drives (BeatLoop hb body script x beats).1.2 s' /\ pending s' = [] /\
    world (BeatLoop hb body script x beats).1.2 = dispatched s (pending s) (world x) /\
    (BeatLoop hb body script x beats).2 = beats ++ if hb then snd <$> script else []) by apply (E []).
  revert x s Hr Hlen. induction Hs as [|[stop now] script Hf _ IH]; intros x s Hr Hlen beats; cbn [BeatLoop length fmap list_fmap] in *.
  - exists s. assert (E : pending s = []) by (apply nil_length_inv; lia). rewrite E. by destruct hb; cbn; rewrite app_nil_r.
  - cbn in Hf. subst stop. destruct (dispatch_body_spec now x s Hr) as (s1 & Hr1 & Hp1 & Hq1 & Hw1 & _).
    destruct (IH (body now x) s1 Hr1 ltac:(rewrite Hq1, length_drop; lia) (if hb then beats ++ [now] else beats)) as (s' & ? & ? & Hw & Hb).
    exists s'. split; [done|]. split; [done|]. split; [|rewrite Hb; destruct hb; [by rewrite <- app_assoc|done] ].
    rewrite Hw, Hw1, Hq1. unfold spec_dispatch. by rewrite Hp1, <- foldl_app, take_drop.
Qed.
End LoopProofs.

(** A Stop that comes before Spin has stored running_ is lost: Spin goes on as if it had not been called. *)
Lemma spin_loses_stop {Payload World} `{Inhabited Payload} vi k kb kt script (x : @SingleThreadExecutor Payload World) :
  Spin vi k kb kt script (SingleStop x) = Spin vi k kb kt script x.
Proof. done. Qed.

(** ** The lifecycle *)

(** The thread has not ended. *)
Definition live (t : nat) (x : Executor) : Prop := exists w, threads x !! t = Some w /\ w <> wDone.
Definition on_thread (c : Call) : Prop := match c with cUse | cRtTest | cRtJoin _ | cRtClear | cUnuse => False | _ => True end.

Record one_thread (x : Executor) : Prop := {
  ot_live : forall t, live t x -> dispatch_thread_ x = Some t;
  ot_join : forall i t, callers x !! i = Some (cJoin t) -> dispatch_thread_ x = Some t;
  ot_alone : (count_if stopping (callers x) <= 1)%nat;
  ot_path : Forall on_thread (callers x) /\ use_pthread_ x = false
}.

Lemma one_thread_start n : one_thread (Executor_ctor n).
Proof.
  split; cbn.
  - intros t (w & E & _). cbn in E. by destruct t.
  - by intros i t [E _]%lookup_replicate.
  - pose proof (count_if_none stopping (replicate n cIdle) ltac:(by apply Forall_replicate)) as Hc. unfold count_if in *. lia.
  - split; [by apply Forall_replicate|done].
Qed.

Lemma one_thread_running v x : one_thread x -> one_thread (set_running v x).
Proof. intros [? ? ? ?]. by split. Qed.

Lemma one_thread_at i c c' x : one_thread x -> callers x !! i = Some c -> (bit stopping c' <= bit stopping c \/ count_if stopping (callers x) = 0)%nat ->
  on_thread c' -> (forall t, c' = cJoin t -> dispatch_thread_ x = Some t) -> one_thread (at_ i c' x).
Proof.
  intros [Hl Hj Ha [Hp Hu] ] Hi Hs Hc Ht. pose proof (count_if_insert stopping (callers x) i c c' Hi) as Hci. split; cbn; [exact Hl| | |].
  - intros i' t. destruct (decide (i' = i)) as [->|Hne]; [rewrite list_lookup_insert_eq by (by eapply lookup_lt_Some); naive_solver|].
    rewrite list_lookup_insert_ne by congruence. apply Hj.
  - unfold bit, count_if in *. destruct Hs; destruct (stopping c'), (stopping c); lia.
  - split; [by apply Forall_insert|done].
Qed.

Lemma one_thread_run t w w' x : one_thread x -> threads x !! t = Some w -> w <> wDone -> one_thread (set_threads (<[t := w']> (threads x)) x).
Proof.
  intros [Hl Hj Ha Hp] Ht Hw. split; [|done..]. intros t' (u & E & Hu). cbn in E |- *. apply Hl.
  destruct (decide (t' = t)) as [->|Hne]; [by exists w|]. rewrite list_lookup_insert_ne in E by congruence. by exists u.
Qed.

Lemma one_thread_spawn i x : one_thread x -> callers x !! i = Some cCreate -> dispatch_thread_ x = None ->
  one_thread (at_ i cIdle (set_thread (Some (length (threads x))) (spawn x))).
Proof.
  intros Hx Hi Hn. pose proof Hx as [Hl Hj Ha Hp]. apply (one_thread_at _ cCreate); [|done|by left|done..]. split; cbn; [|  |done..].
  - intros t (u & E & Hu). cbn in E. apply lookup_app_Some in E as [E|[Hge E] ].
    + assert (dispatch_thread_ x = Some t) by (apply Hl; by exists u). congruence.
    + apply list_lookup_singleton_Some in E as [? _]. f_equal. lia.
  - intros i' t E. by rewrite (Hj i' t E) in Hn.
Qed.

Lemma one_thread_join i t x : one_thread x -> callers x !! i = Some (cJoin t) -> ended t x = true -> one_thread (at_ i cIdle (set_thread None x)).
Proof.
  intros Hx Hi He. pose proof Hx as [Hl Hj Ha [Hp Hu] ]. pose proof (Hj i t Hi) as Ht. pose proof (count_if_insert stopping (callers x) i _ cIdle Hi) as Hc.
  split; cbn; [| |unfold bit, count_if in *; cbn in Hc; lia|split; [by apply Forall_insert|done] ].
  - intros t' (w & E & Hw). cbn in E. assert (Some t = Some t') as [= <-] by (rewrite <- Ht; apply Hl; by exists w). unfold ended in He. rewrite E in He. by destruct w.
  - intros i' t' E. destruct (decide (i' = i)) as [->|Hne]; [by rewrite list_lookup_insert_eq in E by (by eapply lookup_lt_Some)|].
    rewrite list_lookup_insert_ne in E by congruence. pose proof (count_if_two stopping (callers x) i i' _ _ Hi E ltac:(congruence) eq_refl eq_refl). lia.
Qed.

Lemma estep_one_thread x y : estep false x y -> one_thread x -> one_thread y.
Proof.
  intros (a & Hal & Hst) Hx. destruct a as [i|i|i created|t]; cbn in Hst, Hal.
  - destruct (callers x !! i) as [ [] |] eqn:Hi; try done. injection Hst as <-. unfold Start. destruct (running_ x); [done|].
    apply (one_thread_at _ cIdle); [by apply one_thread_running|done|by left|done..].
  - destruct (callers x !! i) as [ [] |] eqn:Hi; try done. injection Hst as <-. apply (one_thread_at _ cIdle); [by apply one_thread_running|done|by right|done..].
  - destruct (callers x !! i) as [c|] eqn:Hi; [|done]. assert (Hc : on_thread c) by (eapply (Forall_lookup_1 on_thread); [apply Hx|done]).
    destruct c; cbn in Hst, Hc; try done.
    + destruct (dispatch_thread_ x) eqn:Hd; [|destruct created]; injection Hst as <-; [|by apply one_thread_spawn|]; (apply (one_thread_at _ cCreate); [done|done|by left|done..]).
    + injection Hst as <-. apply (one_thread_at _ cFail); [by apply one_thread_running|done|by left|done..].
    + rewrite (proj2 (ot_path _ Hx)) in Hst. injection Hst as <-. apply (one_thread_at _ cUsed); [done|done|by left|done..].
    + injection Hst as <-. destruct (dispatch_thread_ x) eqn:Hd; (apply (one_thread_at _ cJoinable); [done|done|left; cbn; lia|done|]); [|done]. rewrite Hd. by intros t [= <-].
    + destruct (ended t x) eqn:He; [|done]. injection Hst as <-. by eapply one_thread_join.
  - destruct (threads x !! t) as [w|] eqn:Ht; [|done]. destruct (DispatchStep (running_ x) w) as [w'|] eqn:E; [|done]. injection Hst as <-.
    eapply one_thread_run; [done|done|]. by destruct w.
Qed.

(** However starts, stops and the dispatcher interleave, as long as one caller stops at
    a time, the executor never has two threads inside ProcessBatch; and once a Stop has
    joined the thread, none is left. *)
Lemma executor_single_consumer n x : rtc (estep false) (Executor_ctor n) x ->
  (consumers x <= 1)%nat /\ (dispatch_thread_ x = None -> Forall (fun w => w = wDone) (threads x)).
Proof.
  intros Hr. assert (Hx : one_thread x).
  { eapply (rtc_invariant (estep false) one_thread); [apply one_thread_start| |done]. intros. by eapply estep_one_thread. }
  split.
  - apply count_if_le_one. intros t t' w w' Ht Ht' Hw Hw'.
    assert (dispatch_thread_ x = Some t) by (apply Hx; exists w; split; [done|by intros ->]).
    assert (dispatch_thread_ x = Some t') by (apply Hx; exists w'; split; [done|by intros ->]). congruence.
  - intros Hn. apply Forall_lookup. intros t w Ht. destruct (decide (w = wDone)) as [->|]; [done|]. assert (dispatch_thread_ x = Some t) by (apply Hx; by exists w). congruence.
Qed.

(** Once running_ is cleared a dispatcher ends, after the batch it is in. *)
Lemma dispatcher_ends pthread t x : running_ x = false -> live t x ->
  exists n y, (n <= 2)%nat /\ exec_run pthread (replicate n (aRun t)) x = Some y /\ ended t y = true.
Proof.
  intros Hr (w & Ht & Hw). assert (Hlt : (t < length (threads x))%nat) by (by eapply lookup_lt_Some).
  exists (match w with wBody => 2 | _ => 1 end)%nat. destruct w; [| |done]; eexists; (split; [lia|]); cbn; rewrite Ht; cbn.
  - rewrite Hr. split; [reflexivity|]. unfold ended. cbn. by rewrite list_lookup_insert_eq.
  - rewrite list_lookup_insert_eq by done. cbn. rewrite Hr. split; [reflexivity|]. unfold ended. cbn. by rewrite list_insert_insert_eq, list_lookup_insert_eq.
Qed.

Lemma exec_run_reaches pthread l x y : exec_run pthread l x = Some y -> rtc (estep pthread) x y.
Proof.
  revert x. induction l as [|a l IH]; intros x; cbn; [intros [= ->]; apply rtc_refl|]. destruct (decide _); [|done].
  destruct (exec_step pthread a x) as [x'|] eqn:E; [|done]. intros Hr. apply (rtc_l _ _ x'); [by exists a|by apply IH].
Qed.

(** With a thread of its own (a stack size), RealtimeExecutor does not see that the
    old thread still runs: a Start while a Stop waits for it creates a second
    dispatcher, the first reads running_ set again and goes on, and both are inside
    ProcessBatch of the same bus, which admits one consumer. *)
Lemma realtime_two_consumers : exists x, rtc (estep true) (Executor_ctor 2) x /\ consumers x = 2%nat /\ callers x = [cRtJoin 0; cUse].
Proof.
  eexists. split.
  - apply (exec_run_reaches _ [aStart 0; aGo 0 true; aGo 0 true; aRun 0; aStop 0; aGo 0 true; aGo 0 true; aStart 1; aGo 1 true; aRun 1]).
    vm_compute. reflexivity.
  - done.
Qed.

(** A Stop between pthread_create and the store of use_pthread_ returns with the thread running. *)
Lemma realtime_stop_misses_thread : exists x, rtc (estep true) (Executor_ctor 2) x /\ live 0 x /\ callers x = [cUse; cIdle] /\ running_ x = false.
Proof.
  eexists. split.
  - apply (exec_run_reaches _ [aStart 0; aGo 0 true; aRun 0; aStop 1; aGo 1 true; aGo 1 true]). vm_compute. reflexivity.
  - split; [by exists wBody|done].
Qed.
