(* ===== verification/Shutdown.v ===== *)
(** * ShutdownManager (include/osp/shutdown.hpp)

    Construction under the one-instance rule, registration and the order of the
    callbacks; then, at every interleaving, Quit, the signal handler and
    WaitForShutdown, which meet at a flag, a signal number and a pipe.  A signal
    handler runs while the thread it interrupts stands still, so its steps are those of
    one more thread. *)

From Stdlib Require Import ZArith Lia Bool.
From stdpp Require Import base numbers list option relations.
From S2P Require Import Prelude.

Open Scope Z_scope.

Inductive ShutdownError := kPipeCreationFailed | kSignalInstallFailed | kCallbacksFull | kAlreadyInstantiated.

(** ** Construction and registration *)
Section Manager.
Context {W : Type}.
Definition ShutdownFn : Type := Z -> W -> W.
Definition kMaxCallbacks : Z := 16.

(** [pipe_fd_]: whether the pipe is open. *)
Record ShutdownManager := mkManager { callbacks_ : list (option ShutdownFn); callback_count_ : Z; max_callbacks_ : Z; pipe_open : bool; valid_ : bool }.

(** [instance]: the global pointer; [self]: the object's address; [pipe_ok]: what pipe(2) does. *)
Definition ShutdownManager_ctor (pipe_ok : bool) (self max_callbacks : Z) (instance : option Z) : ShutdownManager * option Z :=
  let fresh := mkManager (replicate (Z.to_nat kMaxCallbacks) None) 0 (if max_callbacks <=? kMaxCallbacks then max_callbacks else kMaxCallbacks) in
  match instance with
  | Some _ => (fresh false false, instance)
  | None => (fresh pipe_ok pipe_ok, Some self)
  end.
Definition ShutdownManager_dtor (self : Z) (instance : option Z) : option Z := if decide (instance = Some self) then None else instance.

Definition Register (fn : option ShutdownFn) (m : ShutdownManager) : option ShutdownError * ShutdownManager :=
  if negb (valid_ m) then (Some kAlreadyInstantiated, m)
  else match fn with
  | None => (Some kCallbacksFull, m)
  | Some _ =>
    if max_callbacks_ m <=? callback_count_ m then (Some kCallbacksFull, m)
    else (None, mkManager (aset (callbacks_ m) (callback_count_ m) fn) (u32 (callback_count_ m + 1)) (max_callbacks_ m) (pipe_open m) (valid_ m))
  end.

(** [int_ok], [term_ok]: what sigaction does for SIGINT and SIGTERM. *)
Definition InstallSignalHandlers (int_ok term_ok : bool) (m : ShutdownManager) : option ShutdownError :=
  if negb (valid_ m) then Some kAlreadyInstantiated
  else if negb (pipe_open m) then Some kPipeCreationFailed
  else if negb int_ok then Some kSignalInstallFailed
  else if negb term_ok then Some kSignalInstallFailed else None.

(** The loop of WaitForShutdown. *)
Fixpoint run_callbacks (i : nat) (signo : Z) (m : ShutdownManager) (w : W) : W :=
  match i with
  | O => w
  | S i => run_callbacks i signo m (match aget (callbacks_ m) (Z.of_nat i) with Some fn => fn signo w | None => w end)
  end.

(** The manager has the callbacks [l], the first registered first. *)
Definition registered (m : ShutdownManager) (l : list ShutdownFn) : Prop :=
  callbacks_ m = (Some <$> l) ++ replicate (Z.to_nat kMaxCallbacks - length l) None /\ callback_count_ m = Z.of_nat (length l) /\
  Z.of_nat (length l) <= kMaxCallbacks.

(** A second manager is useless until the first is destroyed, and does not disturb it. *)
Lemma one_instance pipe_ok self self' n n' : self <> self' ->
  let '(_, instance) := ShutdownManager_ctor pipe_ok self n None in
  let '(m', instance') := ShutdownManager_ctor true self' n' instance in
  valid_ m' = false /\ instance' = Some self /\ ShutdownManager_dtor self' instance' = Some self /\ ShutdownManager_dtor self instance' = None.
Proof. intros Hne. cbn. unfold ShutdownManager_dtor. rewrite decide_False by congruence. by rewrite decide_True. Qed.

Lemma ctor_registered pipe_ok self n instance : registered (ShutdownManager_ctor pipe_ok self n instance).1 [].
Proof. unfold registered, ShutdownManager_ctor. destruct instance; cbn; unfold kMaxCallbacks; split; [reflexivity|lia|reflexivity|lia]. Qed.

Lemma shutdown_register_spec fn m l : registered m l -> valid_ m = true -> max_callbacks_ m <= kMaxCallbacks ->
  if decide (Z.of_nat (length l) < max_callbacks_ m)
  then (Register (Some fn) m).1 = None /\ registered (Register (Some fn) m).2 (l ++ [fn])
  else Register (Some fn) m = (Some kCallbacksFull, m).
Proof.
  intros (Hl & Hc & Hn) Hv Hm. unfold Register. rewrite Hv, Hc. cbn [negb]. destruct (decide _), (Z.leb_spec (max_callbacks_ m) (Z.of_nat (length l))); try lia; [|done].
  unfold kMaxCallbacks in *. split; [done|]. unfold registered. cbn [snd callbacks_ callback_count_]. rewrite length_app. cbn [length]. split; [|rewrite wrap_small by (unfold in_range; lia); unfold kMaxCallbacks; lia].
  rewrite Hl. unfold aset. rewrite Nat2Z.id, insert_app_r_alt, length_fmap, Nat.sub_diag by (rewrite length_fmap; lia).
  unfold kMaxCallbacks. replace (Z.to_nat 16 - length l)%nat with (S (Z.to_nat 16 - (length l + 1))) by lia. cbn. by rewrite fmap_app, <- app_assoc.
Qed.

(** The callbacks run in the reverse of the order of registration, each with the signal number. *)
Lemma callbacks_run_lifo m l signo w : registered m l ->
  run_callbacks (Z.to_nat (callback_count_ m)) signo m w = foldl (fun w (fn : ShutdownFn) => fn signo w) w (reverse l).
Proof.
  intros (Hl & -> & _). rewrite Nat2Z.id.
  enough (E : forall l' w, l' `prefix_of` l -> run_callbacks (length l') signo m w = foldl (fun w (fn : ShutdownFn) => fn signo w) w (reverse l')) by by apply E.
  clear w. intros l'. induction l' as [|fn l' IH] using rev_ind; intros w [l'' El]; [done|].
  rewrite length_app, Nat.add_comm. cbn [length Nat.add run_callbacks]. rewrite IH by (exists (fn :: l''); by rewrite El, <- app_assoc).
  rewrite Hl, El, !fmap_app, <- !app_assoc. cbn [fmap list_fmap app]. rewrite aget_app_mid by (by rewrite length_fmap). by rewrite reverse_snoc.
Qed.
End Manager.

(** ** Requests and waiting, on a valid manager *)

(** Where a thread is: in Quit past the compare_exchange; in the signal handler; in
    WaitForShutdown; [wRun signo]: running the callbacks with [signo]. *)
Inductive ShutPc := sIdle | qSigno (s : Z) | qWrite | hFlag (s : Z) | hSigno (s : Z) | hWrite | wTest | wRead | wSigno | wRun (s : Z).
(** [pipe_]: bytes in the pipe. *)
Record Shut := mkShut { shutdown_flag_ : bool; signo_ : Z; pipe_ : nat; pcs : list ShutPc }.
(** [aGo i eintr]: thread [i] goes on; a read is interrupted by a handler installed
    elsewhere without SA_RESTART when [eintr]. *)
Inductive ShutAct := aQuit (i : nat) (s : Z) | aSignal (i : nat) (s : Z) | aWait (i : nat) | aGo (i : nat) (eintr : bool).
Definition Shut_ctor (n : nat) : Shut := mkShut false 0 0 (replicate n sIdle).
Definition pc (i : nat) (p : ShutPc) (x : Shut) : Shut := mkShut (shutdown_flag_ x) (signo_ x) (pipe_ x) (<[i := p]> (pcs x)).
Definition flagged (x : Shut) : Shut := mkShut true (signo_ x) (pipe_ x) (pcs x).
Definition with_signo (s : Z) (x : Shut) : Shut := mkShut (shutdown_flag_ x) s (pipe_ x) (pcs x).
Definition with_pipe (n : nat) (x : Shut) : Shut := mkShut (shutdown_flag_ x) (signo_ x) n (pcs x).

Definition Quit (i : nat) (s : Z) (x : Shut) : Shut := if shutdown_flag_ x then x else pc i (qSigno s) (flagged x).
(** The next step of a thread; [None]: it waits for the pipe, or has nothing to do. *)
Definition shut_go (i : nat) (eintr : bool) (p : ShutPc) (x : Shut) : option Shut :=
  match p with
  | sIdle => None
  | qSigno s => Some (pc i qWrite (with_signo s x))
  | qWrite => Some (pc i sIdle (with_pipe (S (pipe_ x)) x))
  | hFlag s => Some (pc i (hSigno s) (flagged x))
  | hSigno s => Some (pc i hWrite (with_signo s x))
  | hWrite => Some (pc i sIdle (with_pipe (S (pipe_ x)) x))
  | wTest => Some (pc i (if shutdown_flag_ x then wSigno else wRead) x)
  | wRead => if eintr then Some (pc i wSigno x) else match pipe_ x with S n => Some (pc i wSigno (with_pipe n x)) | O => None end
  | wSigno => Some (pc i (wRun (signo_ x)) x)
  | wRun _ => Some (pc i sIdle x)
  end.
Definition shut_step (a : ShutAct) (x : Shut) : option Shut :=
  match a with
  | aQuit i s => match pcs x !! i with Some sIdle => Some (Quit i s x) | _ => None end
  | aSignal i s => match pcs x !! i with Some sIdle => Some (pc i (hFlag s) x) | _ => None end
  | aWait i => match pcs x !! i with Some sIdle => Some (pc i wTest x) | _ => None end
  | aGo i eintr => match pcs x !! i with Some p => shut_go i eintr p x | None => None end
  end.
Fixpoint shut_run (l : list ShutAct) (x : Shut) : option Shut :=
  match l with [] => Some x | a :: l => match shut_step a x with Some x => shut_run l x | None => None end end.

Definition waiting (p : ShutPc) : bool := match p with wTest | wRead | wSigno | wRun _ => true | _ => false end.
Definition past_read (p : ShutPc) : bool := match p with wSigno | wRun _ => true | _ => false end.
(** The flag is set and the byte is still to be written. *)
Definition writing (p : ShutPc) : bool := match p with qSigno _ | qWrite | hSigno _ | hWrite => true | _ => false end.
(** One thread waits at a time; no foreign signal interrupts the read. *)
Definition shut_ok (a : ShutAct) (x : Shut) : Prop :=
  match a with aWait _ => count_if waiting (pcs x) = 0%nat | aGo _ eintr => eintr = false | _ => True end.
Definition sstep (x y : Shut) : Prop := exists a, shut_ok a x /\ shut_step a x = Some y.

(** ** No request is lost, and no callback runs without one *)
Record shut_inv (x : Shut) : Prop := {
  si_one : (count_if waiting (pcs x) <= 1)%nat;
  si_pipe : (0 < pipe_ x)%nat -> shutdown_flag_ x = true;
  si_flag : forall i p, pcs x !! i = Some p -> writing p || past_read p = true -> shutdown_flag_ x = true;
  si_woken : forall i, pcs x !! i = Some wRead -> shutdown_flag_ x = true ->
    (0 < pipe_ x)%nat \/ exists j p, pcs x !! j = Some p /\ writing p = true
}.

Lemma shut_start n : shut_inv (Shut_ctor n).
Proof.
  split; cbn.
  - pose proof (count_if_none waiting (replicate n sIdle) ltac:(by apply Forall_replicate)) as E. unfold count_if in *. lia.
  - lia.
  - by intros i p [-> _]%lookup_replicate.
  - by intros i [E _]%lookup_replicate.
Qed.

(** One thread moves from [p] to [p']; the flag, the number and the pipe become [f], [s] and [n]. *)
Lemma shut_move i p p' f s n x : shut_inv x -> pcs x !! i = Some p ->
  (waiting p' = true -> waiting p = true \/ count_if waiting (pcs x) = 0%nat) ->
  (shutdown_flag_ x = true -> f = true) -> ((0 < n)%nat -> f = true) -> (writing p' || past_read p' = true -> f = true) ->
  (p' = wRead -> f = false) ->
  ((forall j, j <> i -> pcs x !! j <> Some wRead) \/ writing p' = true \/ (0 < n)%nat \/ (f = shutdown_flag_ x /\ n = pipe_ x /\ writing p = false)) ->
  shut_inv (mkShut f s n (<[i := p']> (pcs x))).
Proof.
  intros [Ho Hp Hf Hw] Hi Hc Hm Hn Hpf Hr Hk. pose proof (lookup_lt_Some _ _ _ Hi) as Hlt. split; cbn [pcs pipe_ shutdown_flag_]; [|done| |].
  - pose proof (count_if_insert waiting (pcs x) i p p' Hi) as E. unfold bit in E.
    destruct (waiting p') eqn:Ew; [destruct Hc as [Hc|Hc]; [done|rewrite Hc in E|]|]; destruct (waiting p); lia.
  - intros j q. destruct (decide (j = i)) as [->|Hne]; [rewrite list_lookup_insert_eq by done; by intros [= <-]|].
    rewrite list_lookup_insert_ne by congruence. intros Hj Hq. by apply Hm, (Hf j q).
  - intros j Hj Hft. destruct (decide (j = i)) as [->|Hne]; [rewrite list_lookup_insert_eq in Hj by done; injection Hj as ->; by rewrite Hr in Hft|].
    rewrite list_lookup_insert_ne in Hj by congruence. destruct Hk as [Hk|[Hk|[Hk|(-> & -> & Hk)] ] ]; [by destruct (Hk j Hne)| |by left|].
    + right. exists i, p'. by rewrite list_lookup_insert_eq.
    + destruct (Hw j Hj Hft) as [?|(j' & q & Hj' & Hq)]; [by left|right]. exists j', q. rewrite list_lookup_insert_ne by congruence. done.
Qed.

Ltac move_pc := match goal with Hi : pcs ?x !! ?i = Some _ |- _ => eapply (shut_move i _ _ _ _ _ x); cbn; [done|exact Hi|..]; intros; try solve [done | by eauto | lia | eapply si_flag; [eassumption|exact Hi|reflexivity] | by right; right; right] end.

Lemma sstep_inv x y : sstep x y -> shut_inv x -> shut_inv y.
Proof.
  intros (a & Ha & Hs) Hx. pose proof Hx as [Ho Hp Hf Hw]. destruct a as [i s|i s|i|i eintr]; cbn in Ha, Hs; destruct (pcs x !! i) as [p|] eqn:Hi; try done.
  - destruct p; try done. injection Hs as <-. unfold Quit. destruct (shutdown_flag_ x); [done|]. apply (shut_move i sIdle (qSigno s) true (signo_ x) (pipe_ x) x); try done. by right; left.
  - destruct p; try done. injection Hs as <-. apply (shut_move i sIdle _ _ _ _ x); try done; auto 8.
  - destruct p; try done. injection Hs as <-. apply (shut_move i sIdle _ _ _ _ x); try done; auto 8.
  - subst eintr. destruct p; cbn in Hs; try done.
    + injection Hs as <-. move_pc.
    + injection Hs as <-. move_pc.
    + injection Hs as <-. move_pc.
    + injection Hs as <-. move_pc.
    + injection Hs as <-. move_pc.
    + injection Hs as <-. destruct (shutdown_flag_ x) eqn:Ef; move_pc.
    + destruct (pipe_ x) as [|n] eqn:Ep; [done|]. assert (shutdown_flag_ x = true) by (apply Hp; lia). injection Hs as <-. move_pc.
      left. intros j Hne Hj. pose proof (count_if_two waiting (pcs x) i j _ _ Hi Hj ltac:(congruence) eq_refl eq_refl). lia.
    + injection Hs as <-. move_pc.
    + injection Hs as <-. move_pc.
Qed.

(** However requests, signals and waits interleave, a thread blocked in WaitForShutdown
    after a request is woken by a byte that is in the pipe or on its way, and callbacks
    run only after a request. *)
Lemma shutdown_wakes n x i : rtc sstep (Shut_ctor n) x ->
  (pcs x !! i = Some wRead -> shutdown_flag_ x = true -> (0 < pipe_ x)%nat \/ exists j p, pcs x !! j = Some p /\ writing p = true) /\
  (forall s, pcs x !! i = Some (wRun s) -> shutdown_flag_ x = true).
Proof.
  intros Hr. assert (Hx : shut_inv x).
  { eapply (rtc_invariant sstep shut_inv); [apply shut_start| |done]. intros. by eapply sstep_inv. }
  split; [apply Hx|]. intros s Hi. by apply (si_flag _ Hx i _ Hi).
Qed.

(** The flag is set before the number: a wait in between runs the callbacks with 0. *)
Lemma number_lost : pcs <$> shut_run [aSignal 0 15; aGo 0 false; aWait 1; aGo 1 false; aGo 1 false] (Shut_ctor 2) = Some [hSigno 15; wRun 0].
Proof. done. Qed.

(** Quit writes one byte for all: of two threads that wait, one is never woken. *)
Lemma second_waiter_blocked : exists x,
  shut_run [aWait 0; aGo 0 false; aWait 1; aGo 1 false; aQuit 2 0; aGo 2 false; aGo 2 false; aGo 0 false] (Shut_ctor 3) = Some x /\
  shutdown_flag_ x = true /\ pcs x !! 1%nat = Some wRead /\ pipe_ x = 0%nat /\ forall s, Quit 2 s x = x.
Proof. by eexists. Qed.

(** A read interrupted by another signal is taken for a shutdown. *)
Lemma interrupted_read_shuts_down : exists x,
  shut_run [aWait 0; aGo 0 false; aGo 0 true; aGo 0 false] (Shut_ctor 1) = Some x /\ shutdown_flag_ x = false /\ pcs x = [wRun 0].
Proof. by eexists. Qed.
