(* ===== verification/SystemMonitor.v ===== *)
(** * SystemMonitor (include/osp/system_monitor.hpp)

    The readers of /proc/stat, /proc/meminfo, the thermal zone and statvfs, from the
    bytes and numbers the system returns; the percentages computed from them; and the
    alerts, which are raised when a value crosses its threshold.  Callbacks work on a
    world [W]; the text of an alert is represented by what is printed in it. *)

From Stdlib Require Import ZArith Lia Bool.
From stdpp Require Import base numbers list option sets.
From S2P Require Import Prelude.

Open Scope Z_scope.

(** ** Scanning, as sscanf does: decimal numbers after white space *)

(** A buffer read from a file, up to its terminator. *)
Fixpoint until_nul (l : list Z) : list Z := match l with [] => [] | c :: l => if c =? 0 then [] else c :: until_nul l end.
Fixpoint skip_spaces (l : list Z) : list Z := match l with c :: l' => if isspace c then skip_spaces l' else l | [] => [] end.
Fixpoint scan_digits (acc : Z) (l : list Z) : Z * list Z :=
  match l with c :: l' => if isdigit c then scan_digits (acc * 10 + (c - 48)) l' else (acc, l) | [] => (acc, []) end.
(** A sign and digits: the number and the rest, or no match. *)
Definition scan_number (l : list Z) : option (Z * list Z) :=
  let l := skip_spaces l in
  let '(neg, l) := match l with 45 :: l' => (true, l') | 43 :: l' => (false, l') | _ => (false, l) end in
  match l with
  | c :: _ => if isdigit c then let '(n, rest) := scan_digits 0 l in Some (if neg : bool then - n else n, rest) else None
  | [] => None
  end.
(** The conversions %lu and %d; a number out of range becomes the nearest one in it. *)
Definition scan_u64 (l : list Z) : option (Z * list Z) :=
  (fun r => (if r.1 <? 0 then u64 r.1 else Z.min r.1 (2 ^ 64 - 1), r.2)) <$> scan_number l.
Definition scan_i32 (l : list Z) : option (Z * list Z) := (fun r => (Z.max (- 2 ^ 31) (Z.min r.1 (2 ^ 31 - 1)), r.2)) <$> scan_number l.
(** At most [n] numbers in a row. *)
Fixpoint scan_many (n : nat) (l : list Z) : list Z :=
  match n with O => [] | S n => match scan_u64 l with Some (v, rest) => v :: scan_many n rest | None => [] end end.
Fixpoint strip (prefix l : list Z) : option (list Z) :=
  match prefix, l with [], _ => Some l | p :: ps, c :: l => if c =? p then strip ps l else None | _, [] => None end.

(** ** Readers *)
Record CpuSnapshot := mkCpu { total_percent : Z; user_percent : Z; system_percent : Z; iowait_percent : Z; temperature_mc : Z }.
Record MemorySnapshot := mkMem { total_kb : Z; available_kb : Z; used_kb : Z; used_percent : Z }.
Record DiskSnapshot := mkDisk { total_bytes : Z; available_bytes : Z; disk_percent_ : Z }.
Record SystemSnapshot := mkSnap { cpu : CpuSnapshot; memory : MemorySnapshot; timestamp_us : Z }.
Record CpuJiffies := mkJiffies { user : Z; nice : Z; system : Z; idle : Z; iowait : Z; irq : Z; softirq : Z; steal : Z; total : Z; busy : Z }.

(** The outcome of open and read of a file: the bytes, none when either failed. *)
Definition ReadResult : Type := option (list Z).
Definition contents (size : nat) (r : ReadResult) : option (list Z) :=
  match r with None | Some [] => None | Some bytes => Some (until_nul (take (size - 1) bytes)) end.

(** [cpu] *)
Definition CPU : list Z := [99; 112; 117].
Definition ReadCpuJiffies (r : ReadResult) : option CpuJiffies :=
  match contents 256 r with
  | None => None
  | Some buf =>
    let v := match strip CPU buf with Some l => scan_many 8 l | None => [] end in
    if (length v <? 4)%nat then None
    else
      let f i := nth i v 0 in
      let total := u64 (f 0%nat + f 1%nat + f 2%nat + f 3%nat + f 4%nat + f 5%nat + f 6%nat + f 7%nat) in
      Some (mkJiffies (f 0%nat) (f 1%nat) (f 2%nat) (f 3%nat) (f 4%nat) (f 5%nat) (f 6%nat) (f 7%nat) total (u64 (total - f 3%nat - f 4%nat)))
  end.
Definition ReadCpuTemperature (r : ReadResult) : Z :=
  match contents 32 r with None => -1 | Some buf => match scan_i32 buf with Some (t, _) => t | None => -1 end end.

Definition clamp100 (p : Z) : Z := if 100 <? p then 100 else p.
(** [static_cast<uint32_t>((part * 100ULL) / whole)], cut at 100. *)
Definition percent (part whole : Z) : Z := clamp100 (u32 (u64 (part * 100) / whole)).

(** ReadCpu: the snapshot, the baseline for the next one, and whether there is one. *)
Definition ReadCpu (stat temp : ReadResult) (prev : CpuJiffies) (first_sample : bool) : CpuSnapshot * CpuJiffies * bool :=
  let t := ReadCpuTemperature temp in
  match ReadCpuJiffies stat with
  | None => (mkCpu 0 0 0 0 t, prev, first_sample)
  | Some curr =>
    if first_sample then (mkCpu 0 0 0 0 t, curr, false)
    else
      let d (f : CpuJiffies -> Z) := u64 (f curr - f prev) in
      if 0 <? d total
      then (mkCpu (percent (d busy) (d total)) (percent (d user) (d total)) (percent (d system) (d total)) (percent (d iowait) (d total)) t, curr, false)
      else (mkCpu 0 0 0 0 t, curr, false)
  end.

(** [MemTotal:], [MemAvailable:] *)
Definition MEM_TOTAL : list Z := [77; 101; 109; 84; 111; 116; 97; 108; 58].
Definition MEM_AVAILABLE : list Z := [77; 101; 109; 65; 118; 97; 105; 108; 97; 98; 108; 101; 58].
Fixpoint next_line (l : list Z) : list Z := match l with [] => [] | c :: l => if c =? 10 then l else next_line l end.
(** The loop over the lines: what was found, in which order.  Each round consumes a byte. *)
Fixpoint mem_lines (fuel : nat) (line : list Z) (tot avail : option Z) : option Z * option Z :=
  match fuel, line with
  | O, _ | _, [] => (tot, avail)
  | S fuel, _ =>
    match tot, avail with
    | Some _, Some _ => (tot, avail)
    | _, _ =>
      let keep (old : option Z) l := match scan_u64 l with Some (v, _) => v | None => default 0 old end in
      match strip MEM_TOTAL line with
      | Some l => mem_lines fuel (next_line line) (Some (keep tot l)) avail
      | None =>
        match strip MEM_AVAILABLE line with
        | Some l => mem_lines fuel (next_line line) tot (Some (keep avail l))
        | None => mem_lines fuel (next_line line) tot avail
        end
      end
    end
  end.
Definition ReadMemory (r : ReadResult) : MemorySnapshot :=
  match contents 512 r with
  | None => mkMem 0 0 0 0
  | Some buf =>
    match mem_lines (length buf) buf None None with
    | (Some t, Some a) => if 0 <? t then mkMem t a (u64 (t - a)) (percent (u64 (t - a)) t) else mkMem t a 0 0
    | (t, a) => mkMem (default 0 t) (default 0 a) 0 0
    end
  end.

(** [st]: f_blocks, f_bavail and f_frsize, none when statvfs failed. *)
Definition ReadDisk (st : option (Z * Z * Z)) : DiskSnapshot :=
  match st with
  | None => mkDisk 0 0 0
  | Some (blocks, bavail, frsize) =>
    let t := u64 (blocks * frsize) in
    let a := u64 (bavail * frsize) in
    mkDisk t a (if 0 <? t then percent (u64 (t - a)) t else 0)
  end.

(** ** The monitor *)
Record AlertThresholds := mkThresholds { cpu_percent : Z; cpu_temp_mc : Z; memory_percent : Z; disk_percent : Z }.
Record SystemMonitorFaultIndex := mkFaultIndex { cpu_overload : Z; cpu_overheat : Z; memory_overload : Z; disk_full : Z }.
Record DiskSlot := mkSlot { path : list Z; snapshot : DiskSnapshot; prev_used_percent : Z; active : bool }.
(** What the text of an alert says: the metric, whether it was exceeded, the value, the limit. *)
Inductive Metric := mCpu | mTemp | mMemory | mDisk (path : list Z).
#[export] Instance Metric_eq_dec : EqDecision Metric. Proof. solve_decision. Defined.
Record Alert := mkAlert { metric : Metric; exceeded : bool; value : Z; limit : Z }.

Section Monitor.
Context {W : Type} (MaxDiskPaths : Z).
Definition AlertCallback : Type := SystemSnapshot -> Alert -> W -> W.
Definition FaultReportFn : Type := Z -> Z -> Z -> W -> W.
Record SystemMonitor := mkMonitor {
  thresholds_ : AlertThresholds; alert_fn_ : option AlertCallback; fault_fn_ : option FaultReportFn; fault_idx_ : SystemMonitorFaultIndex;
  last_snapshot_ : SystemSnapshot; prev_jiffies_ : CpuJiffies; first_sample_ : bool; disk_slots_ : list DiskSlot;
  prev_cpu_percent_ : Z; prev_cpu_temp_mc_ : Z; prev_mem_percent_ : Z }.

Definition SystemMonitor_ctor : SystemMonitor :=
  mkMonitor (mkThresholds 90 85000 90 90) None None (mkFaultIndex 0 1 2 3) (mkSnap (mkCpu 0 0 0 0 0) (mkMem 0 0 0 0) 0)
    (mkJiffies 0 0 0 0 0 0 0 0 0 0) true [] 0 (-1) 0.
Definition SetThresholds (t : AlertThresholds) (m : SystemMonitor) : SystemMonitor :=
  mkMonitor t (alert_fn_ m) (fault_fn_ m) (fault_idx_ m) (last_snapshot_ m) (prev_jiffies_ m) (first_sample_ m) (disk_slots_ m) (prev_cpu_percent_ m) (prev_cpu_temp_mc_ m) (prev_mem_percent_ m).
Definition SetAlertCallback (fn : option AlertCallback) (m : SystemMonitor) : SystemMonitor :=
  mkMonitor (thresholds_ m) fn (fault_fn_ m) (fault_idx_ m) (last_snapshot_ m) (prev_jiffies_ m) (first_sample_ m) (disk_slots_ m) (prev_cpu_percent_ m) (prev_cpu_temp_mc_ m) (prev_mem_percent_ m).
Definition SetFaultReporter (fn : option FaultReportFn) (m : SystemMonitor) : SystemMonitor :=
  mkMonitor (thresholds_ m) (alert_fn_ m) fn (fault_idx_ m) (last_snapshot_ m) (prev_jiffies_ m) (first_sample_ m) (disk_slots_ m) (prev_cpu_percent_ m) (prev_cpu_temp_mc_ m) (prev_mem_percent_ m).
Definition SetFaultIndices (idx : SystemMonitorFaultIndex) (m : SystemMonitor) : SystemMonitor :=
  mkMonitor (thresholds_ m) (alert_fn_ m) (fault_fn_ m) idx (last_snapshot_ m) (prev_jiffies_ m) (first_sample_ m) (disk_slots_ m) (prev_cpu_percent_ m) (prev_cpu_temp_mc_ m) (prev_mem_percent_ m).
Definition with_disks (l : list DiskSlot) (m : SystemMonitor) : SystemMonitor :=
  mkMonitor (thresholds_ m) (alert_fn_ m) (fault_fn_ m) (fault_idx_ m) (last_snapshot_ m) (prev_jiffies_ m) (first_sample_ m) l (prev_cpu_percent_ m) (prev_cpu_temp_mc_ m) (prev_mem_percent_ m).
(** The slots in use, [disk_count_] of them, all active. *)
Definition AddDiskPath (p : option (list Z)) (m : SystemMonitor) : bool * SystemMonitor :=
  match p with
  | None => (false, m)
  | Some p => if MaxDiskPaths <=? Z.of_nat (length (disk_slots_ m)) then (false, m)
              else (true, with_disks (disk_slots_ m ++ [mkSlot (take 63 p) (mkDisk 0 0 0) 0 true]) m)
  end.
Definition GetDiskSnapshot (index : Z) (m : SystemMonitor) : DiskSnapshot :=
  match disk_slots_ m !! Z.to_nat index with Some s => snapshot s | None => mkDisk 0 0 0 end.

Definition StateCrossed (prev curr threshold : Z) : bool := ((prev <? threshold) && (threshold <=? curr)) || ((threshold <=? prev) && (curr <? threshold)).

(** The body shared by the four checks: alert, then fault when the limit is exceeded. *)
Definition check (m : SystemMonitor) (snap : SystemSnapshot) (mt : Metric) (prev curr threshold index detail priority : Z) (w : W) : W :=
  if StateCrossed prev curr threshold then
    let exc := threshold <=? curr in
    let w := match alert_fn_ m with Some fn => fn snap (mkAlert mt exc curr threshold) w | None => w end in
    if exc then match fault_fn_ m with Some fn => fn index detail priority w | None => w end else w
  else w.
(** The loop over the disks, from index [i]. *)
Fixpoint check_disks (m : SystemMonitor) (snap : SystemSnapshot) (i : Z) (l : list DiskSlot) (w : W) : list DiskSlot * W :=
  match l with
  | [] => ([], w)
  | s :: l =>
    if negb (active s) then let '(l, w) := check_disks m snap (i + 1) l w in (s :: l, w)
    else
      let u := disk_percent_ (snapshot s) in
      let w := check m snap (mDisk (path s)) (prev_used_percent s) u (disk_percent (thresholds_ m)) (disk_full (fault_idx_ m)) (Z.lor (Z.shiftl i 16) u) 1 w in
      let '(l, w) := check_disks m snap (i + 1) l w in
      (mkSlot (path s) (snapshot s) u (active s) :: l, w)
  end.
Definition CheckAlerts (snap : SystemSnapshot) (m : SystemMonitor) (w : W) : SystemMonitor * W :=
  let th := thresholds_ m in
  let ix := fault_idx_ m in
  let c := total_percent (cpu snap) in
  let t := temperature_mc (cpu snap) in
  let u := used_percent (memory snap) in
  let w := check m snap mCpu (prev_cpu_percent_ m) c (cpu_percent th) (cpu_overload ix) c 2 w in
  let '(pt, w) := if 0 <=? t then (t, check m snap mTemp (prev_cpu_temp_mc_ m) t (cpu_temp_mc th) (cpu_overheat ix) t 1 w) else (prev_cpu_temp_mc_ m, w) in
  let w := check m snap mMemory (prev_mem_percent_ m) u (memory_percent th) (memory_overload ix) u 1 w in
  let '(l, w) := check_disks m snap 0 (disk_slots_ m) w in
  (mkMonitor th (alert_fn_ m) (fault_fn_ m) ix (last_snapshot_ m) (prev_jiffies_ m) (first_sample_ m) l c pt u, w).

(** What the system returns during one call of Sample. *)
Record Readings := mkReadings { r_stat : ReadResult; r_temp : ReadResult; r_meminfo : ReadResult; r_now : Z; r_disks : list Z -> option (Z * Z * Z) }.
Definition Sample (r : Readings) (m : SystemMonitor) (w : W) : SystemSnapshot * SystemMonitor * W :=
  let '(c, j, first) := ReadCpu (r_stat r) (r_temp r) (prev_jiffies_ m) (first_sample_ m) in
  let snap := mkSnap c (ReadMemory (r_meminfo r)) (r_now r) in
  let disks := (fun s => if active s then mkSlot (path s) (ReadDisk (r_disks r (path s))) (prev_used_percent s) (active s) else s) <$> disk_slots_ m in
  let m := mkMonitor (thresholds_ m) (alert_fn_ m) (fault_fn_ m) (fault_idx_ m) snap j first disks (prev_cpu_percent_ m) (prev_cpu_temp_mc_ m) (prev_mem_percent_ m) in
  let '(m, w) := CheckAlerts snap m w in
  (snap, m, w).
End Monitor.

(** ** Readings *)

Lemma percent_range part whole : 0 < whole -> 0 <= percent part whole <= 100.
Proof.
  intros Hw. unfold percent, clamp100. pose proof (wrap_range 32 (u64 (part * 100) / whole) ltac:(lia)) as Hr. unfold in_range in Hr.
  case_bool; bool_prop; lia.
Qed.
Lemma percent_exact part whole : 0 <= part <= whole -> 0 < whole < 2 ^ 57 -> percent part whole = part * 100 / whole.
Proof.
  intros Hp Hw. unfold percent, clamp100. rewrite (wrap_small 64) by (unfold in_range; lia).
  assert (0 <= part * 100 / whole <= 100) by (split; [apply Z.div_pos; lia|apply Z.div_le_upper_bound; lia]).
  rewrite wrap_small by (unfold in_range; lia). case_bool; bool_prop; lia.
Qed.

(** Whatever the files contain, every percentage is between 0 and 100. *)
Lemma percentages_bounded stat temp mem st prev first :
  let c := (ReadCpu stat temp prev first).1.1 in
  Forall (fun p => 0 <= p <= 100) [total_percent c; user_percent c; system_percent c; iowait_percent c; used_percent (ReadMemory mem); disk_percent_ (ReadDisk st)].
Proof.
  assert (H0 : 0 <= 0 <= 100) by lia.
  assert (Hm : 0 <= used_percent (ReadMemory mem) <= 100).
  { unfold ReadMemory. destruct (contents 512 mem); [|done]. destruct (mem_lines _ _ _ _) as [ [t|] [a|] ]; cbn; try done.
    destruct (Z.ltb_spec 0 t); cbn; [by apply percent_range|done]. }
  assert (Hd : 0 <= disk_percent_ (ReadDisk st) <= 100).
  { unfold ReadDisk. destruct st as [ [ [b a] f]|]; cbn; [|done]. destruct (Z.ltb_spec 0 (u64 (b * f))); [by apply percent_range|done]. }
  assert (Hc : forall tot us sy io t, 0 <= tot <= 100 -> 0 <= us <= 100 -> 0 <= sy <= 100 -> 0 <= io <= 100 -> let c := mkCpu tot us sy io t in
    Forall (fun p => 0 <= p <= 100) [total_percent c; user_percent c; system_percent c; iowait_percent c; used_percent (ReadMemory mem); disk_percent_ (ReadDisk st)]).
  { intros. subst c. cbn. repeat (apply Forall_cons_2; [done|]). apply Forall_nil_2. }
  cbv zeta. unfold ReadCpu. destruct (ReadCpuJiffies stat); [|by apply Hc]. destruct first; [by apply Hc|].
  destruct (Z.ltb_spec 0 (u64 (total c - total prev))); apply Hc; try done; by apply percent_range.
Qed.

(** With counters that only grow, the percentages are those of the interval. *)
Lemma ReadCpu_exact stat temp prev curr : ReadCpuJiffies stat = Some curr ->
  0 <= total prev < total curr -> total curr < 2 ^ 57 ->
  (forall f, f ∈ [busy; user; system; iowait] -> 0 <= f prev <= f curr /\ f curr - f prev <= total curr - total prev) ->
  let share (f : CpuJiffies -> Z) := (f curr - f prev) * 100 / (total curr - total prev) in
  ReadCpu stat temp prev false = (mkCpu (share busy) (share user) (share system) (share iowait) (ReadCpuTemperature temp), curr, false).
Proof.
  intros Hs Ht Hl Hf share. unfold ReadCpu. rewrite Hs. cbn match.
  assert (Hd : u64 (total curr - total prev) = total curr - total prev) by (apply wrap_small; unfold in_range; lia).
  rewrite Hd. destruct (Z.ltb_spec 0 (total curr - total prev)); [|lia].
  assert (E : forall f, f ∈ [busy; user; system; iowait] -> percent (u64 (f curr - f prev)) (total curr - total prev) = share f).
  { intros f Hi. destruct (Hf f Hi). rewrite wrap_small by (unfold in_range; lia). apply percent_exact; lia. }
  by rewrite !E by set_solver.
Qed.

(** The kernel's iowait counter can go back: by one tick, and the wait is reported as 100 percent. *)
Lemma iowait_backwards :
  let line v := Some (CPU ++ [32; 32; 49; 48; 48; 32; 48; 32; 48; 32] ++ v ++ [10]) in
  let '(_, prev, first) := ReadCpu (line [53; 48; 48; 32; 57]) None (mkJiffies 0 0 0 0 0 0 0 0 0 0) true in
  iowait_percent (ReadCpu (line [55; 48; 48; 32; 56]) None prev first).1.1 = 100.
Proof. by vm_compute. Qed.

(** A line is consumed by each round, so the length of the buffer is enough. *)
Lemma next_line_shorter c l : (length (next_line (c :: l)) <= length l)%nat.
Proof.
  cbn. destruct (c =? 10); [lia|]. induction l as [|d l IH]; [cbn; lia|]. cbn. destruct (d =? 10); [lia|]. lia.
Qed.
Lemma mem_lines_fuel n line t a : (length line <= n)%nat -> mem_lines n line t a = mem_lines (length line) line t a.
Proof.
  revert line t a. induction n as [n IH] using lt_wf_ind. intros line t a Hn. destruct line as [|c l]; [by destruct n|].
  destruct n as [|n]; [cbn in Hn; lia|]. pose proof (next_line_shorter c l) as Hs. cbn in Hn. change (length (c :: l)) with (S (length l)).
  assert (E : forall t a, mem_lines n (next_line (c :: l)) t a = mem_lines (length l) (next_line (c :: l)) t a).
  { intros t' a'. rewrite (IH n) by lia. symmetry. apply (IH (length l)); lia. }
  cbn [mem_lines]. destruct t, a; try done; destruct (strip MEM_TOTAL _); try apply E; destruct (strip MEM_AVAILABLE _); apply E.
Qed.

Definition demo_meminfo : list Z :=
  MEM_TOTAL ++ [32; 32; 49; 48; 48; 48; 32; 107; 66; 10; 77; 101; 109; 70; 114; 101; 101; 58; 32; 53; 10] ++ MEM_AVAILABLE ++ [32; 50; 53; 48; 32; 107; 66; 10; 66; 117; 102].
Lemma meminfo_example : ReadMemory (Some demo_meminfo) = mkMem 1000 250 750 75.
Proof. by vm_compute. Qed.

(** ** Alerts *)

(** A callback that keeps the alerts, beside any fault reporter that leaves them alone. *)
Abbreviation Log := (list Alert).
Definition alerts_for (mt : Metric) (w : Log) : list bool := exceeded <$> filter (fun a => metric a = mt) w.
Fixpoint alternates (b : bool) (l : list bool) : Prop := match l with [] => True | x :: l => x = b /\ alternates (negb b) l end.
(** The alerts [l] alternate, the first says exceeded, and the last one what holds now. *)
Definition tells (now : bool) (l : list bool) : Prop := alternates true l /\ Nat.odd (length l) = now.

Lemma alternates_snoc b l x : alternates b (l ++ [x]) <-> alternates b l /\ x = xorb b (Nat.odd (length l)).
Proof.
  revert b. induction l as [|y l IH]; intros b; cbn [alternates app length].
  - rewrite xorb_false_r. naive_solver.
  - rewrite IH, Nat.odd_succ, <- Nat.negb_odd. destruct b, (Nat.odd (length l)); cbn; naive_solver.
Qed.
Lemma tells_crossed now l : tells now l -> tells (negb now) (l ++ [negb now]).
Proof.
  intros [Ha Ho]. split; [apply alternates_snoc; split; [done|by rewrite Ho; destruct now]|].
  rewrite length_app, Nat.add_comm. cbn. by rewrite Nat.odd_succ, <- Nat.negb_odd, Ho.
Qed.

Lemma alerts_for_app mt w a : alerts_for mt (w ++ [a]) = alerts_for mt w ++ (if decide (metric a = mt) then [exceeded a] else []).
Proof. unfold alerts_for. rewrite filter_app, fmap_app. cbn. by destruct (decide _). Qed.

Section Alerts.
Context (th : AlertThresholds) (fault : option (@FaultReportFn Log)).
Hypothesis Hfault : forall fn i d p w, fault = Some fn -> fn i d p w = w.
(** The monitor keeps the alerts and has the thresholds [th]. *)
Definition logging (m : @SystemMonitor Log) : Prop := thresholds_ m = th /\ alert_fn_ m = Some (fun _ a w => w ++ [a]) /\ fault_fn_ m = fault.

Lemma check_tells m snap mt prev curr thr ix d p w mt' : logging m ->
  alerts_for mt' (check m snap mt prev curr thr ix d p w) =
  alerts_for mt' w ++ (if decide (mt' = mt /\ (thr <=? prev) <> (thr <=? curr)) then [thr <=? curr] else []).
Proof.
  intros (_ & Ha & Hf). unfold check, StateCrossed. rewrite Ha, Hf.
  assert (Hx : forall w, match fault with Some fn => fn ix d p w | None => w end = w) by (intros; destruct fault as [fn|] eqn:E; [by apply Hfault|done]).
  destruct (Z.ltb_spec prev thr), (Z.leb_spec thr curr), (Z.leb_spec thr prev), (Z.ltb_spec curr thr); try lia; cbn [andb orb]; rewrite ?Hx, ?alerts_for_app; cbn [metric exceeded];
    repeat case_decide; rewrite ?app_nil_r; try done; exfalso; naive_solver.
Qed.

(** Each metric's alerts alternate between exceeded and below, beginning with exceeded,
    and the last one tells on which side of the threshold the metric was last seen. *)
Definition told (m : @SystemMonitor Log) (w : Log) : Prop :=
  tells (cpu_percent th <=? prev_cpu_percent_ m) (alerts_for mCpu w) /\
  tells (cpu_temp_mc th <=? prev_cpu_temp_mc_ m) (alerts_for mTemp w) /\
  tells (memory_percent th <=? prev_mem_percent_ m) (alerts_for mMemory w) /\
  Forall (fun s => active s = true /\ tells (disk_percent th <=? prev_used_percent s) (alerts_for (mDisk (path s)) w)) (disk_slots_ m) /\
  NoDup (path <$> disk_slots_ m).

Lemma tells_check m snap mt prev curr thr ix d p w : logging m -> tells (thr <=? prev) (alerts_for mt w) ->
  tells (thr <=? curr) (alerts_for mt (check m snap mt prev curr thr ix d p w)).
Proof.
  intros Hl Ht. rewrite check_tells by done. destruct (decide _) as [ [_ Hne]|Hn].
  - assert (E : (thr <=? curr) = negb (thr <=? prev)) by (revert Hne; by destruct (thr <=? prev), (thr <=? curr)). rewrite E. by apply tells_crossed.
  - rewrite app_nil_r. assert (E : (thr <=? curr) = (thr <=? prev)) by (destruct (decide ((thr <=? prev) = (thr <=? curr))); naive_solver). by rewrite E.
Qed.
Lemma check_other m snap mt mt' prev curr thr ix d p w : logging m -> mt' <> mt ->
  alerts_for mt' (check m snap mt prev curr thr ix d p w) = alerts_for mt' w.
Proof. intros Hl Hne. rewrite check_tells by done. rewrite decide_False by naive_solver. apply app_nil_r. Qed.

Lemma check_disks_spec m snap i l w : logging m ->
  Forall (fun s => active s = true /\ tells (disk_percent th <=? prev_used_percent s) (alerts_for (mDisk (path s)) w)) l -> NoDup (path <$> l) ->
  let '(l', w') := check_disks m snap i l w in
  Forall (fun s => active s = true /\ tells (disk_percent th <=? prev_used_percent s) (alerts_for (mDisk (path s)) w')) l' /\
  path <$> l' = path <$> l /\ snapshot <$> l' = snapshot <$> l /\ (forall mt, (forall p, p ∈ path <$> l -> mt <> mDisk p) -> alerts_for mt w' = alerts_for mt w).
Proof.
  intros Hm. revert i w. induction l as [|s l IH]; intros i w Hl Hd; cbn [check_disks]; [done|].
  apply Forall_cons_1 in Hl as [ [Hact Hs] Hl]. rewrite Hact. cbn [negb]. cbn in Hd. apply NoDup_cons in Hd as [Hni Hd].
  set (w1 := check _ _ _ _ _ _ _ _ _ _). assert (Hoth : forall mt, mt <> mDisk (path s) -> alerts_for mt w1 = alerts_for mt w) by (intros; by apply check_other).
  specialize (IH (i + 1) w1). destruct (check_disks m snap (i + 1) l w1) as [l' w']. destruct IH as (Hl' & Hp & Hsn & Hw); [|done|].
  - rewrite Forall_forall in Hl |- *. intros x Hx. destruct (Hl x Hx) as [Hxa Hxt]. split; [done|]. rewrite Hoth; [done|]. intros [= E]. apply Hni. rewrite <- E. by apply list_elem_of_fmap_2.
  - cbn. rewrite Hp, Hsn. split; [|split; [done|split; [done|] ] ].
    + apply Forall_cons_2; [|done]. cbn. split; [done|]. rewrite Hw; [|intros p Hpl [= E]; by subst p].
      subst w1. rewrite (proj1 Hm). by apply tells_check.
    + intros mt Hmt. rewrite Hw by (intros p Hpl; apply Hmt; by right). apply Hoth. apply Hmt. by left.
Qed.

Lemma check_alerts_told snap m w : logging m -> told m w ->
  let '(m', w') := CheckAlerts snap m w in logging m' /\ told m' w' /\ path <$> disk_slots_ m' = path <$> disk_slots_ m.
Proof.
  intros Hm (Hc & Ht & Hu & Hd & Hn). unfold CheckAlerts. set (w1 := check m snap mCpu _ _ _ _ _ _ _).
  assert (Hc1 : tells (cpu_percent th <=? total_percent (cpu snap)) (alerts_for mCpu w1)) by (subst w1; rewrite (proj1 Hm); by apply tells_check).
  assert (Ho1 : forall mt, mt <> mCpu -> alerts_for mt w1 = alerts_for mt w) by (intros; by apply check_other).
  set (tw := if 0 <=? temperature_mc (cpu snap) then _ else _).
  assert (Ht2 : tells (cpu_temp_mc th <=? tw.1) (alerts_for mTemp tw.2) /\ forall mt, mt <> mTemp -> alerts_for mt tw.2 = alerts_for mt w1).
  { subst tw. destruct (0 <=? _); cbn [fst snd]; [|by rewrite Ho1]. split; [|intros; by apply check_other].
    rewrite (proj1 Hm). apply tells_check; [done|]. by rewrite Ho1. }
  destruct Ht2 as [Ht2 Ho2]. destruct tw as [pt w2]. cbn [fst snd] in *. set (w3 := check m snap mMemory _ _ _ _ _ _ _).
  assert (Hu3 : tells (memory_percent th <=? used_percent (memory snap)) (alerts_for mMemory w3)).
  { subst w3. rewrite (proj1 Hm). apply tells_check; [done|]. by rewrite Ho2, Ho1. }
  assert (Ho3 : forall mt, mt <> mMemory -> alerts_for mt w3 = alerts_for mt w2) by (intros; by apply check_other).
  pose proof (check_disks_spec m snap 0 (disk_slots_ m) w3 Hm) as Hs. destruct (check_disks m snap 0 (disk_slots_ m) w3) as [l w'].
  destruct Hs as (Hl & Hp & _ & Hw); [|done|].
  - rewrite Forall_forall in Hd |- *. intros s Hsl. by rewrite Ho3, Ho2, Ho1 by done; apply Hd.
  - split; [exact Hm|]. split; [|exact Hp]. split; [|split; [|split; [|split; [exact Hl|by cbn; rewrite Hp] ] ] ]; cbn.
    + by rewrite Hw, Ho3, Ho2.
    + by rewrite Hw, Ho3.
    + by rewrite Hw.
Qed.

Lemma sample_told r m w : logging m -> told m w ->
  let '(_, m', w') := Sample r m w in logging m' /\ told m' w' /\ path <$> disk_slots_ m' = path <$> disk_slots_ m.
Proof.
  intros Hm (Hc & Ht & Hu & Hd & Hn). unfold Sample. destruct (ReadCpu _ _ _ _) as [ [c j] first].
  set (f := fun s : DiskSlot => if active s then _ else s). set (m1 := mkMonitor _ _ _ _ _ _ _ _ _ _ _).
  assert (Hf : forall s, path (f s) = path s /\ active (f s) = active s /\ prev_used_percent (f s) = prev_used_percent s).
  { intros s. subst f. cbn. destruct (active s) eqn:E; by rewrite ?E. }
  assert (Hp : path <$> (f <$> disk_slots_ m) = path <$> disk_slots_ m).
  { rewrite <- list_fmap_compose. apply list_fmap_ext. intros i s _. apply Hf. }
  pose proof (check_alerts_told (mkSnap c (ReadMemory (r_meminfo r)) (r_now r)) m1 w Hm) as Hs.
  destruct (CheckAlerts _ m1 w) as [m' w']. destruct Hs as (Hm' & Hw' & Hp').
  - split; [done|]. split; [done|]. split; [done|]. split; [|cbn; by rewrite Hp]. cbn. rewrite Forall_fmap. eapply Forall_impl; [exact Hd|].
    intros s [Ha Hs]. cbn. by rewrite (proj1 (Hf s)), (proj1 (proj2 (Hf s))), (proj2 (proj2 (Hf s))).
  - split; [done|]. split; [done|]. rewrite Hp'. exact Hp.
Qed.

Fixpoint samples (rs : list Readings) (m : @SystemMonitor Log) (w : Log) : @SystemMonitor Log * Log :=
  match rs with [] => (m, w) | r :: rs => let '(_, m, w) := Sample r m w in samples rs m w end.

(** Over any sequence of samples, whatever the readings, the alerts of every metric and
    of every disk alternate, beginning with exceeded, and the last one tells on which
    side of its threshold the metric now is. *)
Lemma alerts_alternate rs m : logging m -> NoDup (path <$> disk_slots_ m) ->
  prev_cpu_percent_ m < cpu_percent th -> prev_cpu_temp_mc_ m < cpu_temp_mc th -> prev_mem_percent_ m < memory_percent th ->
  Forall (fun s => active s = true /\ prev_used_percent s < disk_percent th) (disk_slots_ m) ->
  told (samples rs m []).1 (samples rs m []).2.
Proof.
  intros Hm Hn Hc Ht Hu Hd. assert (Htold : told m []).
  { assert (E : forall p thr, p < thr -> tells (thr <=? p) []) by (intros p thr Hp; split; [done|]; cbn; symmetry; apply Z.leb_gt; lia).
    split; [by apply E|]. split; [by apply E|]. split; [by apply E|]. split; [|done]. eapply Forall_impl; [exact Hd|]. intros s [? ?]. split; [done|by apply E]. }
  clear Hc Ht Hu Hd Hn. revert m Hm Htold. generalize (@nil Alert). induction rs as [|r rs IH]; intros w m Hm Hto; [done|]. cbn [samples].
  pose proof (sample_told r m w Hm Hto) as Hs. destruct (Sample r m w) as [ [sn m'] w']. apply IH; apply Hs.
Qed.
End Alerts.

(** A file that cannot be read counts as 0 percent, so a monitor above the limit reports
    that the memory is below it, and exceeded again with the next reading. *)
Lemma failed_read_reports_below :
  let m := SetThresholds (mkThresholds 90 85000 70 90) (SetAlertCallback (Some (fun _ a w => w ++ [a])) SystemMonitor_ctor) in
  let r mem := mkReadings None None mem 0 (fun _ => None) in
  (samples [r (Some demo_meminfo); r None; r (Some demo_meminfo)] m []).2 = [mkAlert mMemory true 75 70; mkAlert mMemory false 0 70; mkAlert mMemory true 75 70].
Proof. by vm_compute. Qed.
